(* ===== verification/_CoqProject ===== *)
-Q . S2P
Prelude.v
Errors.v
Wire.v
ScriptNum.v
Opcodes.v
Script.v
ScriptFacts.v
Tx.v
TxFacts.v
Crypto.v
Compress.v
Coins.v
CoinsFacts.v
Block.v
Undo.v
Stack.v
Slice.v
Interp.v
InterpFacts.v
VerifyFacts.v
InterpStatic.v
MultisigFacts.v
ScriptTheorems.v
Ltx.v
ConnectFacts.v
ReorgFacts.v
MoneyFacts.v
UtxoTheorems.v
Merkle.v
MerkleFacts.v
PartialTreeFacts.v
MerkleTheorems.v
BlockIndex.v
Chain.v
ChainFacts.v
BranchFacts.v
ChainTheorems.v
VersionBits.v
VersionBitsFacts.v
Pow.v
PowFacts.v
ConsensusTheorems.v
Lblock.v
LblockFacts.v
TreeFacts.v
LblockTheorems.v
Mempool.v
MempoolFacts.v
PoolFacts.v
PoolSorted.v
PoolSteps.v
PoolBlock.v
MempoolTheorems.v
Skiplist.v
SkiplistFacts.v
Accept.v
OrphanFacts.v
AcceptFacts.v
Lmempool.v
LmempoolFacts.v
AcceptTheorems.v
Disk.v
DiskFacts.v
DiskTheorems.v
BlkDB.v
BlkDBTheorems.v
PoolView.v
Lchain.v
LchainFacts.v
LchainTheorems.v
Messages.v
MessagesFacts.v
MessagesTheorems.v
Base58.v
CashAddr.v
AddrFacts.v
CashFacts.v
AddrTheorems.v
