(* ===== verification/Prelude.v ===== *)
(** * Verification of Copernicus, a Bitcoin Cash node written in Go

    Copernicus validates blocks and transactions of the Bitcoin Cash network.  This
    development models the part of it that decides what is valid: encodings, scripts
    and their interpreter, transactions, the set of unspent outputs with its caches and
    undo data, Merkle trees, the tree of block headers with its rules for work and soft
    forks, the memory pool, the files and the database, and the choice of the best chain;
    and the messages of the network and the addresses that stand for scripts.
    Definitions keep the names of the source where Rocq allows it.

    ** How Go is represented

    Integers are [Z]; where a width matters the conversion is written out ([u32], [i64],
    ...), so overflow wraps as in the source.  Bytes are integers below 256 and byte
    strings are lists of them.  A fallible function returns [res E A]: a value, an error
    value, or [Panic] for a run-time panic (an index out of range, a nil pointer, a
    division by zero, an explicit panic).  Readers are state transformers over the bytes
    that are left.  Where code depends on sharing, the shared store is explicit: the
    interpreter's byte slices live in a heap of arrays (Slice.v), because opcodes
    change arrays in place that other stack elements share, and block indexes and the
    entries of the memory pool live in heaps of records (BlockIndex.v, Mempool.v),
    because they point to each other.  Loops that are
    not structural have fuel, and running out of fuel is [Panic]; theorems state that
    the result is a value, so they also show that the fuel is enough.  Where a run
    may panic for other reasons (ActivateBestChain), what a loop does without fuel is a
    parameter ([stuck] in Lchain.v), and the result is shown not to depend on it.  The bounds are:
    for a walk to an ancestor or to a fork, the height of its start; for the Merkle
    loops, the 32 entries of the array; for the queue of connectable blocks, the number
    of blocks that wait; for script evaluation, the length of the script; for the work
    lists of the pool, which may hold an entry many times, 2^((n+1)^2) steps for n
    entries, run by halving so that the bound is never built; for the search for a block
    file with room, the number of files and one more; for ActivateBestChain, the number of
    indexes, and for its inner loops the height of the tip and of the candidate.

    Code outside the repository is a parameter: SHA-256, the secp256k1 library
    ([Secp256k1], [SecpCompression] in Crypto.v) and the LRU cache library
    ([LruCache] with its laws [LruLaws] in Coins.v).  Maps are stdpp's [gmap]; the coin
    database is a map whose batch write is atomic.

    ** The parts, and the files that model them

    - Encodings (util/binaryfreeList.go, compactint.go, varint.go, varbytes.go,
      varstring.go): Wire.v, with the round trips of CompactSize, base-128 integers and
      byte strings.
    - Script numbers (model/script/scriptnum.go): ScriptNum.v.  Opcodes and scripts
      (model/opcodes, model/script/script.go): Opcodes.v, Script.v; parsing, pushing,
      DER encoding and counting of signature operations: ScriptFacts.v.
    - Error codes (errcode): Errors.v.
    - Transactions (model/tx, txin, txout, outpoint): Tx.v; their codec, the
      context-free checks, the signature hash and the cached identifier: TxFacts.v.
    - Keys and signatures (crypto): Crypto.v.  Compressed outputs
      (model/txout/compress.go): Compress.v.
    - The stack (util/stack.go): Stack.v.  The interpreter (logic/lscript): Slice.v and
      Interp.v; InterpFacts.v, VerifyFacts.v, InterpStatic.v and MultisigFacts.v hold
      the lemmas, ScriptTheorems.v the theorems: no panic, stack limits, static limits
      of a successful run, the stack opcodes, multi-signatures as an assignment of
      signatures to keys in order with the NULLFAIL and NULLDUMMY rules, which opcodes
      change shared arrays, lock times.  That a script does not panic is a
      property of the checker it runs with ([SafeChecker]): OP_CHECKDATASIG panics with a
      key that the library cannot serialise.
    - Coins and the UTXO set (model/utxo): Coins.v, CoinsFacts.v.  Blocks and headers
      (model/block): Block.v.  Undo data (model/undo, logic/lundo, logic/ltx/ltxcoins.go):
      Undo.v.
    - Transactions of a block (logic/ltx/ltx.go): Ltx.v, which also has the script objects
      as a check of inputs leaves them ([inputs_after]); ConnectFacts.v, ReorgFacts.v
      and MoneyFacts.v hold the lemmas, UtxoTheorems.v the theorems: coin map, LRU cache
      and database refine one map of coins as long as nothing is evicted; connecting and disconnecting a block is the
      identity, through the undo file; an accepted block spends existing coins, each
      once, and creates no more than its subsidy; the batched parallel script
      check agrees with checking every input.
    - Merkle trees (logic/lmerkleroot, logic/lmerkleblock): Merkle.v, MerkleFacts.v,
      PartialTreeFacts.v, MerkleTheorems.v: the constant-space computation agrees with
      the recursive tree, roots commit to the transactions of trees of one height, partial
      trees are complete, and sound for the right number of transactions.
    - The block index and compact targets (model/blockindex, model/pow/difficulty.go):
      BlockIndex.v.  The block tree and the active chain (model/chain): Chain.v; lemmas in
      ChainFacts.v and BranchFacts.v, theorems in ChainTheorems.v: skip pointers lead to
      ancestors, the active chain is the path to the tip, forks are the last common
      blocks, candidates are ordered by work and bring the blocks that wait for them.
    - Version bits (model/versionbits): VersionBits.v, VersionBitsFacts.v, against the
      states that BIP 9 defines.  Proof of work (model/pow/pow.go): Pow.v, PowFacts.v.
      The theorems of both are in ConsensusTheorems.v: the state that GetStateFor returns,
      and the next target, its bounds and when computing it panics.
    - Accepting headers and blocks (logic/lblock, service/blockservice.go): Lblock.v;
      LblockFacts.v and TreeFacts.v hold the invariants of the header tree and of the
      candidates, LblockTheorems.v the theorems: however headers and blocks arrive, every
      header in the tree obeys the rules, the candidates are the blocks received with
      all their ancestors, and what becomes of a new block on every branch.
    - The memory pool (model/mempool, addTxToMemPool of logic/lmempool, fee rates of
      util/feeRate.go): Mempool.v.  MempoolFacts.v has the work lists of ancestors and
      descendants, PoolFacts.v the links and sums under adding and removing, PoolSorted.v
      the two sorted containers, PoolSteps.v the invariant under every operation,
      PoolBlock.v the removal of a block's transactions.  MempoolTheorems.v shows that the
      invariant holds in every pool that can be reached, that ancestors and descendants
      are computed exactly and within the limits, what a block and an eviction take out, and
      that eviction ends.  A connected block has to list parents before children
      ([child_first_block] shows what happens otherwise).
    - Accepting transactions (logic/ltx/ltx.go, logic/lmempool): Accept.v has the checks
      of a transaction against the chain, the coins and the pool, Lmempool.v the orphans
      that are tried again, the rebuilding of the pool after a reorganisation and its
      self-check.  OrphanFacts.v has the maps of orphans, AcceptFacts.v and LmempoolFacts.v
      the state of a node (pool, coins, orphans) under these operations, proved against the
      class [CoinView] of what a cache of coins shows.  AcceptTheorems.v shows that what
      enters the pool has passed every check and keeps it consistent with the coins, that
      orphans are kept and erased consistently, and that trying them ends.
    - Block and undo files (persist/disk, persist/global.go, model/block): Disk.v, with
      lemmas in DiskFacts.v; DiskTheorems.v shows that what is stored is read back,
      whatever is stored later.  The database with its obfuscation key, the block tree in
      it and the decision to flush (persist/db, persist/blkdb): BlkDB.v; BlkDBTheorems.v
      shows that the database refines a map and that a restart loads the tree that was
      flushed.
    - The best chain (logic/lchain): Lchain.v composes the parts above: connecting and
      disconnecting the tip, ActivateBestChain, the first block and the replies to
      locators.  PoolView.v shows that the pool leaves the coins alone, LchainFacts.v has a
      calculus of weakest preconditions and the invariant that ties the block tree, the
      coins, the pool and the files together, LchainTheorems.v the theorems: the coins are
      the replay of the active chain, a tip can always be disconnected, the loops end, the
      first block is stored and establishes the invariant.
    - Sorted containers (util/algorithm/mapcontainer/skiplist): Skiplist.v, with its nodes
      in a heap, and SkiplistFacts.v, which shows that the list refines the sorted
      association list that the memory pool's containers are modelled by.
    - Messages (net/wire): Messages.v has the payloads, read and written, and the frames
      around them; MessagesFacts.v the codec of each payload, MessagesTheorems.v the
      theorems: what is written is read back, and whatever bytes arrive, what is read
      is well typed and within the limits of its kind.
    - Addresses (util/base58, util/cashaddr, util/wif, model/script/address.go,
      crypto/privatekey.go, the address functions of rpc/rawtransaction.go): Base58.v and
      CashAddr.v, lemmas in AddrFacts.v and CashFacts.v, theorems in AddrTheorems.v: the
      strings of addresses and keys are read back (with the exception of compressed keys in
      wallet import format), the checksum of a cash address detects a wrong character.

    This file holds what the components share: results, machine integers, bit
    operations, lists, readers, the tactics and the hint databases.

    ** How the parts fit together

    A block is decoded (Wire, Script, Tx, Block) and accepted (Lblock): its Merkle root
    is compared (Merkle), its header is linked into the block tree (Chain, BlockIndex)
    under the rules for its target (Pow), and it becomes a candidate once its ancestors
    have been received.  Its transactions are applied to the coin map (Ltx, Coins), whose
    inputs are checked by running scripts (Interp) over the coins they spend; the spent
    coins become undo data (Undo), which a reorganisation applies backwards after
    FindFork has found how far to go (Chain).  Lchain drives this: it writes blocks and
    undo data to files (Disk), the tree to the database (BlkDB), moves the tip and hands
    the transactions of disconnected blocks back to the pool.  The memory pool (Mempool) holds the
    transactions that wait for a block; they enter it through the same checks of inputs
    and scripts (Accept) and a connected block takes out its own and what conflicts with
    them.

    ** Conditions that the theorems state

    The coins of the theorems on the UTXO set and the best chain are among at most
    1,000,000 outpoints, the capacity of the LRU cache: beyond it the cache evicts
    coins and the code does not keep its contract.  A block connected to the coins has ids
    of transactions that are new there (BIP 30).  Hash functions are assumed free of
    collisions only on the values in question.  Where the code can panic, the theorems say
    that they speak of runs that return.

    ** Not modelled

    Peers, servers, most of RPC, wallet, mining, Bloom filters, compact blocks, amounts in
    floating point, configuration and logging; errors of the operating system.  Of logic/lchain, notifications, statistics
    and the self-check of the block index.  Locks and goroutines are not represented,
    except that the results of the script-checking workers may arrive in any order. *)
From stdpp Require Export base list numbers option gmap strings.
From stdpp Require Export ssreflect.
From Stdlib Require Export ZifyBool.

(** ** Go results: a value, an error value, or a run-time panic *)

Inductive res (E A : Type) : Type :=
| Ok (a : A)
| Err (e : E)
| Panic.
Arguments Ok {E A} a.
Arguments Err {E A} e.
Arguments Panic {E A}.

#[export] Instance res_ret E : MRet (res E) := fun A a => Ok a.
#[export] Instance res_bind E : MBind (res E) := fun A B f m =>
  match m with Ok a => f a | Err e => Err e | Panic => Panic end.
#[export] Instance res_fmap E : FMap (res E) := fun A B f m =>
  match m with Ok a => Ok (f a) | Err e => Err e | Panic => Panic end.

Lemma res_bind_inv {E A B} (m : res E A) (f : A -> res E B) b :
  m ≫= f = Ok b -> exists a, m = Ok a /\ f a = Ok b.
Proof. destruct m as [a|e|]; intros H; [by exists a|done|done]. Qed.
Lemma Ok_inj {E A} (x y : A) : Ok (E := E) x = Ok y -> x = y.
Proof. by intros [= ->]. Qed.

(** [l[i]] for an [int] index: a run-time panic out of range. *)
Definition nth_go {E A} (l : list A) (i : Z) : res E A :=
  if (i <? 0)%Z then Panic else match l !! Z.to_nat i with Some x => Ok x | None => Panic end.

(** ** Notations for Go's bit operations *)
Declare Scope go_scope.
Delimit Scope go_scope with go.
Notation "x .& y" := (Z.land x y) (at level 40, left associativity) : go_scope.
Notation "x .| y" := (Z.lor x y) (at level 50, left associativity) : go_scope.
Notation "x .^ y" := (Z.lxor x y) (at level 50, left associativity) : go_scope.
Notation "x .<< y" := (Z.shiftl x y) (at level 40, left associativity) : go_scope.
Notation "x .>> y" := (Z.shiftr x y) (at level 40, left associativity) : go_scope.
Open Scope Z_scope.
Open Scope go_scope.

(** ** Machine integers: values are [Z], conversions wrap *)
Definition u8 (x : Z) : Z := x mod 2 ^ 8.
Definition u16 (x : Z) : Z := x mod 2 ^ 16.
Definition u32 (x : Z) : Z := x mod 2 ^ 32.
Definition u64 (x : Z) : Z := x mod 2 ^ 64.
Definition i32 (x : Z) : Z := (x + 2 ^ 31) mod 2 ^ 32 - 2 ^ 31.
Definition i64 (x : Z) : Z := (x + 2 ^ 63) mod 2 ^ 64 - 2 ^ 63.

Definition is_u (w x : Z) : Prop := 0 <= x < 2 ^ w.
Definition is_i (w x : Z) : Prop := - 2 ^ (w - 1) <= x < 2 ^ (w - 1).
#[export] Instance is_u_dec w x : Decision (is_u w x).
Proof. unfold is_u. apply _. Defined.
#[export] Instance is_i_dec w x : Decision (is_i w x).
Proof. unfold is_i. apply _. Defined.

(** Bytes are the integers of width 8; a byte string is a list of them. *)
Abbreviation bytes := (list Z).
Abbreviation is_byte := (is_u 8).
Abbreviation bytes_ok := (Forall is_byte).

Create HintDb go.
Create Rewrite HintDb go.

(** ** Machine integer lemmas *)
Ltac unfold_int := unfold is_u, is_i, u8, u16, u32, u64, i32, i64 in *.

(** Reduce the powers of two with literal exponents, then call [lia]. *)
Ltac pow2_norm :=
  repeat match goal with
  | |- context [2 ^ Zpos ?p] => let v := eval vm_compute in (2 ^ Zpos p) in
                                change (2 ^ Zpos p) with v
  | H : context [2 ^ Zpos ?p] |- _ => let v := eval vm_compute in (2 ^ Zpos p) in
                                change (2 ^ Zpos p) with v in H
  end.
Ltac int_lia := unfold_int; pow2_norm; Z.to_euclidean_division_equations; lia.

Lemma u8_id x : is_u 8 x -> u8 x = x.
Proof. intros H. apply Z.mod_small, H. Qed.
Lemma u16_id x : is_u 16 x -> u16 x = x.
Proof. intros H. apply Z.mod_small, H. Qed.
Lemma u32_id x : is_u 32 x -> u32 x = x.
Proof. intros H. apply Z.mod_small, H. Qed.
Lemma u64_id x : is_u 64 x -> u64 x = x.
Proof. intros H. apply Z.mod_small, H. Qed.
Lemma i64_id x : is_i 64 x -> i64 x = x.
Proof. intros H. int_lia. Qed.
Lemma i32_id x : is_i 32 x -> i32 x = x.
Proof. intros H. int_lia. Qed.
Lemma u8_byte x : is_byte (u8 x).
Proof. int_lia. Qed.
Lemma u16_range x : is_u 16 (u16 x).
Proof. int_lia. Qed.
Lemma u32_range x : is_u 32 (u32 x).
Proof. int_lia. Qed.
Lemma u64_range x : is_u 64 (u64 x).
Proof. int_lia. Qed.
Lemma i64_range x : is_i 64 (i64 x).
Proof. int_lia. Qed.
#[export] Hint Resolve u8_byte u16_range u32_range u64_range i64_range : go.
#[export] Hint Rewrite u8_id u16_id u32_id u64_id i64_id using (auto with go; int_lia) : go.

(** Masks of contiguous low bits are remainders. *)
Lemma land_low x n : 0 <= n -> x .& (2 ^ n - 1) = x mod 2 ^ n.
Proof. intros. rw Z.sub_1_r -Z.ones_equiv. by apply Z.land_ones. Qed.

Lemma land_pow2_testbit x n : 0 <= n -> x .& 2 ^ n = if Z.testbit x n then 2 ^ n else 0.
Proof.
  intros Hn. apply Z.bits_inj'. intros m Hm. rw Z.land_spec Z.pow2_bits_eqb //.
  destruct (Z.eqb_spec n m) as [->|Hne].
  - rw andb_true_r. destruct (Z.testbit x m) eqn:E; [|by rw Z.bits_0].
    by rw Z.pow2_bits_true.
  - rw andb_false_r. destruct (Z.testbit x n); [|by rw Z.bits_0].
    by rw Z.pow2_bits_false.
Qed.

Lemma land_pow2_eqb0 x n : 0 <= n -> (x .& 2 ^ n =? 0) = negb (Z.testbit x n).
Proof.
  intros Hn. rw land_pow2_testbit //. destruct (Z.testbit x n); [|done].
  apply Z.eqb_neq. pose proof (Z.pow_pos_nonneg 2 n). lia.
Qed.

Lemma land_pow2_eqb x n : 0 <= n -> (x .& 2 ^ n =? 2 ^ n) = Z.testbit x n.
Proof.
  intros Hn. rw land_pow2_testbit //. destruct (Z.testbit x n); [apply Z.eqb_refl|].
  apply Z.eqb_neq. pose proof (Z.pow_pos_nonneg 2 n). lia.
Qed.

(** The top bit of a [w+1]-bit number says whether it reaches [2^w]. *)
Lemma testbit_top x w : 0 <= w -> 0 <= x < 2 ^ (w + 1) -> Z.testbit x w = (2 ^ w <=? x).
Proof.
  intros Hw [H0 H1]. rw Z.pow_add_r // in H1. change (2 ^ 1) with 2 in H1.
  pose proof (Z.pow_pos_nonneg 2 w ltac:(lia) ltac:(lia)) as Hp.
  destruct (Z.leb_spec (2 ^ w) x) as [Hle|Hlt].
  - apply Z.testbit_true; [done|]. replace (x / 2 ^ w) with 1; [done|].
    apply (Z.div_unique x (2 ^ w) 1 (x - 2 ^ w)); lia.
  - apply Z.testbit_false; [done|]. by rw Z.div_small.
Qed.

(** Disjoint bit ranges: [lor] is addition. *)
Lemma land_shift_disjoint a b n : 0 <= n -> 0 <= a < 2 ^ n -> a .& (b .<< n) = 0.
Proof.
  intros Hn Ha. apply Z.bits_inj'. intros m Hm. rw Z.land_spec Z.shiftl_spec // Z.bits_0.
  destruct (Z.ltb_spec m n).
  - rw (Z.testbit_neg_r b (m - n)) ?andb_false_r //. lia.
  - rw -(Z.mod_small a (2 ^ n)) // Z.mod_pow2_bits_high //.
Qed.

Lemma lor_shift_add a b n : 0 <= n -> 0 <= a < 2 ^ n -> a .| (b .<< n) = a + b * 2 ^ n.
Proof.
  intros Hn Ha. pose proof (land_shift_disjoint a b n Hn Ha) as E.
  rw -Z.shiftl_mul_pow2 // Z.add_nocarry_lxor // Z.lxor_lor //.
Qed.

(** ** Little-endian integers (encoding/binary) *)
Fixpoint le_bytes (n : nat) (z : Z) : bytes :=
  match n with
  | O => []
  | S n => z mod 256 :: le_bytes n (z / 256)
  end.

Fixpoint le_val (l : bytes) : Z :=
  match l with
  | [] => 0
  | b :: l => b + 256 * le_val l
  end.

Lemma length_le_bytes n z : length (le_bytes n z) = n.
Proof. revert z. induction n as [|n IH]; intros z; [done|]. by rw /= IH. Qed.

Lemma le_bytes_ok n z : bytes_ok (le_bytes n z).
Proof.
  revert z. induction n as [|n IH]; intros z; constructor; [|done].
  by apply Z.mod_pos_bound.
Qed.

Lemma pow256_S n : 256 ^ Z.of_nat (S n) = 256 * 256 ^ Z.of_nat n.
Proof. rw Nat2Z.inj_succ Z.pow_succ_r //. lia. Qed.

Lemma le_val_bound l : bytes_ok l -> 0 <= le_val l < 256 ^ Z.of_nat (length l).
Proof.
  induction 1 as [|b l Hb Hl IH]; [done|]. rw /= -/(length l) pow256_S.
  unfold is_u in Hb. pow2_norm. lia.
Qed.

Lemma le_val_bytes n z : le_val (le_bytes n z) = z mod 256 ^ Z.of_nat n.
Proof.
  revert z. induction n as [|n IH]; intros z; [by rw /= Z.mod_1_r|].
  cbn [le_val le_bytes]. rw IH pow256_S Z.rem_mul_r //; lia.
Qed.

Lemma le_val_bytes_small n z : 0 <= z < 256 ^ Z.of_nat n -> le_val (le_bytes n z) = z.
Proof. intros H. rw le_val_bytes Z.mod_small //. Qed.

Lemma le_bytes_val l : bytes_ok l -> le_bytes (length l) (le_val l) = l.
Proof.
  induction 1 as [|b l Hb Hl IH]; [done|]. unfold is_u in Hb. pow2_norm. simpl.
  rw (Z.mul_comm 256) Z.mod_add // Z.mod_small // Z.div_add // Z.div_small //. by rw Z.add_0_l IH.
Qed.

Lemma le_val_app l1 l2 : le_val (l1 ++ l2) = le_val l1 + 256 ^ Z.of_nat (length l1) * le_val l2.
Proof.
  induction l1 as [|b l IH]; [by rw /= Z.mul_1_l|]. rw /= -/(length l) IH pow256_S. lia.
Qed.

Lemma le_val_inj l1 l2 : bytes_ok l1 -> bytes_ok l2 -> length l1 = length l2 ->
  le_val l1 = le_val l2 -> l1 = l2.
Proof. intros H1 H2 HL HV. by rw -(le_bytes_val l1) // -(le_bytes_val l2) // HL HV. Qed.
#[export] Hint Resolve le_bytes_ok : go.
#[export] Hint Rewrite length_le_bytes : go.

(** ** Readers: an [io.Reader] over a finite buffer is the bytes still unread *)
Definition rd (E A : Type) : Type := bytes -> res E (A * bytes).
#[export] Instance rd_ret E : MRet (rd E) := fun A a r => Ok (a, r).
#[export] Instance rd_bind E : MBind (rd E) := fun A B f m r =>
  match m r with Ok (a, r') => f a r' | Err e => Err e | Panic => Panic end.
Definition rd_fail {E A} (e : E) : rd E A := fun _ => Err e.
Definition rd_panic {E A} : rd E A := fun _ => Panic.
Definition rd_lift {E A} (m : res E A) : rd E A := fun r =>
  match m with Ok a => Ok (a, r) | Err e => Err e | Panic => Panic end.

Lemma rd_bind_ok {E A B} (m : rd E A) (f : A -> rd E B) r a r' :
  m r = Ok (a, r') -> (m ≫= f) r = f a r'.
Proof. intros H. by rw /mbind /rd_bind H. Qed.

Lemma rd_bind_inv {E A B} (m : rd E A) (f : A -> rd E B) r x :
  (m ≫= f) r = Ok x -> exists a r', m r = Ok (a, r') /\ f a r' = Ok x.
Proof. rw /mbind /rd_bind. destruct (m r) as [[a r']| |]; intros ?; simplify_eq. eauto. Qed.

Lemma rd_bind_err {E A B} (m : rd E A) (f : A -> rd E B) r e :
  m r = Err e -> (m ≫= f) r = Err e.
Proof. intros H. by rw /mbind /rd_bind H. Qed.

Lemma bytes_ok_snoc l b : bytes_ok (l ++ [b]) <-> bytes_ok l /\ is_byte b.
Proof. rw Forall_app Forall_cons. intuition. Qed.

Lemma map_alter_same {A B} (f : A -> B) g i l : (forall x, f (g x) = f x) -> map f (alter g i l) = map f l.
Proof. intros H. revert i. induction l as [|x l IH]; intros [|i]; simpl; [done|done|by rw H|]. f_equal. apply IH. Qed.

(** Storing at the end of a prefix. *)
Lemma take_S_insert {A} (l : list A) i x : (i < length l)%nat -> take (S i) (<[i := x]> l) = take i l ++ [x].
Proof.
  intros Hi. rw (take_S_r _ _ x); [|by apply list_lookup_insert_eq]. by rw take_insert_ge.
Qed.

(** ** Reading a counted sequence *)
Fixpoint rd_times {E A} (n : nat) (m : rd E A) : rd E (list A) :=
  match n with
  | O => mret []
  | S n => a ← m; l ← rd_times n m; mret (a :: l)
  end.

Lemma rd_times_app {E A} (m : rd E A) (enc : A -> bytes) l r :
  (forall x r, x ∈ l -> m (enc x ++ r) = Ok (x, r)) ->
  rd_times (length l) m (concat (map enc l) ++ r) = Ok (l, r).
Proof.
  induction l as [|x l IH]; intros H; [done|]. cbn [length rd_times map concat]. rw -app_assoc.
  erewrite rd_bind_ok; [|apply H; set_solver]. erewrite rd_bind_ok; [done|]. apply IH. set_solver.
Qed.

Lemma rd_times_inv {E A} (m : rd E A) (enc : A -> bytes) (Q : A -> Prop) n r l r' :
  (forall r x r', bytes_ok r -> m r = Ok (x, r') -> r = enc x ++ r' /\ Q x) ->
  bytes_ok r -> rd_times n m r = Ok (l, r') ->
  r = concat (map enc l) ++ r' /\ length l = n /\ Forall Q l.
Proof.
  intros Hm. revert r l. induction n as [|n IH]; intros r l Hr; simpl.
  - intros [= <- <-]. done.
  - intros (x & r1 & H1 & (l1 & r2 & H2 & [= <- <-])%rd_bind_inv)%rd_bind_inv.
    destruct (Hm _ _ _ Hr H1) as [-> HQ]. apply Forall_app in Hr as [_ Hr].
    destruct (IH _ _ Hr H2) as (-> & <- & HF). simpl. rw -app_assoc. eauto.
Qed.
