(* ===== verification/Errors.v ===== *)
(** * Error codes (package errcode)

    The constants of errcode/scripterror.go as an inductive type; equality of
    codes is decidable. *)
From S2P Require Import Prelude.

Inductive ScriptErr :=
| ScriptErrOK | ScriptErrUnknownError | ScriptErrEvalFalse | ScriptErrOpReturn
(* Max sizes *)
| ScriptErrScriptSize | ScriptErrPushSize | ScriptErrOpCount | ScriptErrStackSize
| ScriptErrSigCount | ScriptErrPubKeyCount
(* Operands checks *)
| ScriptErrInvalidOperandSize | ScriptErrInvalidNumberRange
| ScriptErrImpossibleEncoding | ScriptErrInvalidSplitRange
(* Failed verify operations *)
| ScriptErrVerify | ScriptErrEqualVerify | ScriptErrCheckMultiSigVerify
| ScriptErrCheckSigVerify | ScriptErrCheckDataSigVerify | ScriptErrNumEqualVerify
(* Logical/Format/Canonical errors *)
| ScriptErrBadOpCode | ScriptErrDisabledOpCode | ScriptErrInvalidStackOperation
| ScriptErrInvalidAltStackOperation | ScriptErrUnbalancedConditional
(* Divisor errors *)
| ScriptErrDivByZero | ScriptErrModByZero
(* CheckLockTimeVerify and CheckSequenceVerify *)
| ScriptErrNegativeLockTime | ScriptErrUnsatisfiedLockTime
(* Malleability *)
| ScriptErrSigHashType | ScriptErrSigDer | ScriptErrMinimalData | ScriptErrSigPushOnly
| ScriptErrSigHighs | ScriptErrSigNullDummy | ScriptErrPubKeyType | ScriptErrCleanStack
| ScriptErrMinimalIf | ScriptErrSigNullFail
(* softFork safeness *)
| ScriptErrDiscourageUpgradableNops | ScriptErrDiscourageUpgradableWitnessProgram
| ScriptErrNonCompressedPubKey
(* anti replay *)
| ScriptErrIllegalForkID | ScriptErrMustUseForkID
| ScriptErrErrorCount
(* other error codes *)
| ScriptErrSize | ScriptErrNonStandard | ScriptErrNullData | ScriptErrBareMultiSig
| ScriptErrMultiOpReturn | ScriptErrInvalidSignatureEncoding
| ScriptErrInvalidOpCode | ScriptErrInValidPubKeyOrSig | ScriptErrScriptSigNotPushOnly.

#[export] Instance ScriptErr_eq_dec : EqDecision ScriptErr.
Proof. solve_decision. Defined.
