(* ===== verification/Wire.v ===== *)
(** * Wire encodings (package util)

    util/binaryfreeList.go (fixed-width integers), util/compactint.go (the
    CompactSize integers of the P2P protocol), util/varint.go (the base-128
    integers of the databases), util/varbytes.go and util/varstring.go.

    A reader is the list of the bytes still to be read; a writer to a buffer
    never fails, so a [Put]/[Write] function is the bytes it appends.  The free
    list of scratch buffers only saves allocations and is not represented. *)
From S2P Require Import Prelude.

(** Errors of the codecs: the two of package io, the ones of package util, the
    two of package script (a script that is too long or does not parse), the one
    of the script compressor and the one of a spent coin. *)
Inductive werr :=
| EOF
| UnexpectedEOF
| NonRuleVarInt (result discriminant min : Z)
| TooLong (count max : Z)
| ScriptSize
| BadScript
| BadCompressedScript
| AlreadySpent.

(** io.ReadFull into a buffer of [n] bytes. *)
Definition ReadFull (n : nat) : rd werr bytes := fun r =>
  match n, r with
  | O, _ => Ok ([], r)
  | _, [] => Err EOF
  | _, _ => if decide (length r < n)%nat then Err UnexpectedEOF
            else Ok (take n r, drop n r)
  end.

Section BinarySerializer.
Definition Uint8 : rd werr Z := buf ← ReadFull 1; mret (le_val buf).
Definition Uint16 : rd werr Z := buf ← ReadFull 2; mret (le_val buf).
Definition Uint32 : rd werr Z := buf ← ReadFull 4; mret (le_val buf).
Definition Uint64 : rd werr Z := buf ← ReadFull 8; mret (le_val buf).
Definition PutUint8 (v : Z) : bytes := le_bytes 1 v.
Definition PutUint16 (v : Z) : bytes := le_bytes 2 v.
Definition PutUint32 (v : Z) : bytes := le_bytes 4 v.
Definition PutUint64 (v : Z) : bytes := le_bytes 8 v.
End BinarySerializer.

(** ** CompactSize integers (compactint.go) *)
Definition check_min (result disc min : Z) : rd werr Z :=
  if result <? min then rd_fail (NonRuleVarInt result disc min) else mret result.

Definition ReadVarInt : rd werr Z :=
  discriminant ← Uint8;
  if discriminant =? 0xff then
    sv ← Uint64; check_min sv discriminant 0x100000000
  else if discriminant =? 0xfe then
    sv ← Uint32; check_min sv discriminant 0x10000
  else if discriminant =? 0xfd then
    sv ← Uint16; check_min sv discriminant 0xfd
  else mret discriminant.

Definition WriteVarInt (val : Z) : bytes :=
  if val <? 0xfd then PutUint8 (u8 val)
  else if val <=? 0xffff then PutUint8 0xfd ++ PutUint16 (u16 val)
  else if val <=? 0xffffffff then PutUint8 0xfe ++ PutUint32 (u32 val)
  else PutUint8 0xff ++ PutUint64 val.

Definition VarIntSerializeSize (val : Z) : Z :=
  if val <? 0xfd then 1
  else if val <=? 0xffff then 3
  else if val <=? 0xffffffff then 5
  else 9.

(** ** Base-128 integers (varint.go) *)

(** The loop of ReadVarLenInt; [ret] is the uint64 accumulated so far. *)
Fixpoint ReadVarLenInt_loop (ret : Z) (r : bytes) : res werr (Z * bytes) :=
  match r with
  | [] => Err EOF
  | b :: r =>
      let ret := u64 (ret .<< 7) .| (b .& 0x7f) in
      if negb (b .& 0x80 =? 0) then ReadVarLenInt_loop (u64 (ret + 1)) r
      else Ok (ret, r)
  end.
Definition ReadVarLenInt : rd werr Z := ReadVarLenInt_loop 0.

(** The loop of EncodeVarLenInt: [room] is what is left of the 10-byte buffer,
    and writing past its end is an index-out-of-range panic; [out] is the bytes
    already stored, the last one stored first, which is the order in which the
    function returns them. *)
Fixpoint EncodeVarLenInt_loop (room : nat) (n mask : Z) (out : bytes) : res werr bytes :=
  match room with
  | O => Panic
  | S room =>
      let out := u8 ((n .& 0x7f) .| mask) :: out in
      if n <=? 0x7f then Ok out
      else EncodeVarLenInt_loop room (u64 ((n .>> 7) - 1)) 0x80 out
  end.
Definition EncodeVarLenInt (n : Z) : res werr bytes := EncodeVarLenInt_loop 10 n 0 [].
Definition WriteVarLenInt (n : Z) : res werr bytes := EncodeVarLenInt n.

(** VarLenIntSize runs the same division loop; ten rounds are enough for a
    uint64 ([VarLenIntSize_length] below), [None] would be an eleventh. *)
Fixpoint VarLenIntSize_loop (fuel : nat) (n size : Z) : option Z :=
  match fuel with
  | O => None
  | S fuel =>
      let size := size + 1 in
      if n <=? 0x7f then Some size
      else VarLenIntSize_loop fuel (u64 ((n .>> 7) - 1)) size
  end.
Definition VarLenIntSize (n : Z) : option Z := VarLenIntSize_loop 10 n 0.

(** ** Length-prefixed byte strings (varbytes.go, varstring.go) *)
Definition MaxSize : Z := 0x02000000.

Definition ReadVarBytes (maxAllowed : Z) : rd werr bytes :=
  count ← ReadVarInt;
  if maxAllowed <? count then rd_fail (TooLong count maxAllowed)
  else ReadFull (Z.to_nat count).
Definition WriteVarBytes (b : bytes) : bytes := WriteVarInt (Z.of_nat (length b)) ++ b.

Definition ReadVarString : rd werr bytes :=
  count ← ReadVarInt;
  if MaxSize <? count then rd_fail (TooLong count MaxSize)
  else ReadFull (Z.to_nat count).
Definition WriteVarString (str : bytes) : bytes := WriteVarInt (Z.of_nat (length str)) ++ str.

(** ** Readers undo writers *)
Lemma ReadFull_app l r : ReadFull (length l) (l ++ r) = Ok (l, r).
Proof.
  destruct l as [|b l]; [done|]. unfold ReadFull; cbn -[take drop].
  rw decide_False ?length_app; [|lia].
  by rw -/(length (b :: l)) app_comm_cons take_app_length drop_app_length.
Qed.

Lemma ReadFull_app' n l r : length l = n -> ReadFull n (l ++ r) = Ok (l, r).
Proof. intros <-. apply ReadFull_app. Qed.

(** What a successful [ReadFull] consumed. *)
Lemma ReadFull_inv n r l r' : ReadFull n r = Ok (l, r') -> r = l ++ r' /\ length l = n.
Proof.
  unfold ReadFull. destruct n as [|n]; [intros; by simplify_eq|].
  destruct r as [|b r]; [done|]. case_decide as Hd; [done|]. intros; simplify_eq.
  rw -/(take (S n) (b :: r)) -/(drop (S n) (b :: r)) take_drop length_take. split; [done|lia].
Qed.

Lemma read_le_app n z r : 0 <= z < 256 ^ Z.of_nat n ->
  (buf ← ReadFull n; mret (le_val buf)) (le_bytes n z ++ r) = Ok (z, r) :> res werr _.
Proof.
  intros Hz. erewrite rd_bind_ok; [|apply ReadFull_app', length_le_bytes].
  by rw le_val_bytes_small.
Qed.

Lemma Uint8_put v r : is_u 8 v -> Uint8 (PutUint8 v ++ r) = Ok (v, r).
Proof. intros H. by apply read_le_app. Qed.
Lemma Uint16_put v r : is_u 16 v -> Uint16 (PutUint16 v ++ r) = Ok (v, r).
Proof. intros H. by apply read_le_app. Qed.
Lemma Uint32_put v r : is_u 32 v -> Uint32 (PutUint32 v ++ r) = Ok (v, r).
Proof. intros H. by apply read_le_app. Qed.
Lemma Uint64_put v r : is_u 64 v -> Uint64 (PutUint64 v ++ r) = Ok (v, r).
Proof. intros H. by apply read_le_app. Qed.

Lemma WriteVarInt_length v : is_u 64 v -> Z.of_nat (length (WriteVarInt v)) = VarIntSerializeSize v.
Proof. intros _. unfold WriteVarInt, VarIntSerializeSize. by repeat case_match. Qed.

Lemma WriteVarInt_ok v : bytes_ok (WriteVarInt v).
Proof.
  unfold WriteVarInt, PutUint8, PutUint16, PutUint32, PutUint64.
  repeat case_match; rw ?Forall_app; auto with go.
Qed.

Lemma ReadVarInt_write v r : is_u 64 v -> ReadVarInt (WriteVarInt v ++ r) = Ok (v, r).
Proof.
  intros Hv. unfold WriteVarInt, ReadVarInt.
  destruct (Z.ltb_spec v 0xfd); [|destruct (Z.leb_spec v 0xffff); [|destruct (Z.leb_spec v 0xffffffff)]];
    rw -?app_assoc; (erewrite rd_bind_ok; [|apply Uint8_put; int_lia]).
  - rw u8_id; last int_lia. repeat case_match; [lia..|done].
  - cbn -[Uint16 PutUint16 check_min]. rw u16_id; last int_lia.
    erewrite rd_bind_ok; [|apply Uint16_put; int_lia]. unfold check_min. case_match; [lia|done].
  - cbn -[Uint32 PutUint32 check_min]. rw u32_id; last int_lia.
    erewrite rd_bind_ok; [|apply Uint32_put; int_lia]. unfold check_min. case_match; [lia|done].
  - cbn -[Uint64 PutUint64 check_min].
    erewrite rd_bind_ok; [|by apply Uint64_put]. unfold check_min. case_match; [lia|done].
Qed.

(** Every accepted CompactSize is the one WriteVarInt emits: the minimum checks
    of the three long forms leave one encoding per value. *)
Lemma read_le_inv n r v r' : bytes_ok r ->
  (buf ← ReadFull n; mret (le_val buf)) r = Ok (v, r') :> res werr _ ->
  r = le_bytes n v ++ r' /\ 0 <= v < 256 ^ Z.of_nat n /\ bytes_ok r'.
Proof.
  intros Hr (l & r1 & (-> & Hl)%ReadFull_inv & H)%rd_bind_inv.
  apply Forall_app in Hr as [Hl' Hr1]. injection H as <- <-. subst n.
  rw le_bytes_val //. auto using le_val_bound.
Qed.

Lemma check_min_inv v d m r x : check_min v d m r = Ok x -> x = (v, r) /\ m <= v.
Proof.
  unfold check_min. destruct (Z.ltb_spec v m); intros E; [done|]. injection E as <-. split; [done|lia].
Qed.

Lemma ReadVarInt_canonical r v r' : bytes_ok r -> ReadVarInt r = Ok (v, r') ->
  r = WriteVarInt v ++ r' /\ is_u 64 v.
Proof.
  intros Hr (d & r1 & (-> & Hd & Hr1)%read_le_inv & H)%rd_bind_inv; [|done].
  change (256 ^ Z.of_nat 1) with 256 in Hd. unfold WriteVarInt.
  destruct (Z.eqb_spec d 0xff) as [->|]; [|destruct (Z.eqb_spec d 0xfe) as [->|];
    [|destruct (Z.eqb_spec d 0xfd) as [->|]]].
  - apply rd_bind_inv in H as (sv & r2 & (-> & Hv & Hr2)%read_le_inv & H); [|done].
    apply check_min_inv in H as [? ?]; simplify_eq. split; [|exact Hv].
    repeat case_match; [lia..|by rw -app_assoc].
  - apply rd_bind_inv in H as (sv & r2 & (-> & Hv & Hr2)%read_le_inv & H); [|done].
    change (256 ^ Z.of_nat 4) with (2 ^ 32) in Hv.
    apply check_min_inv in H as [? ?]; simplify_eq. split; [|int_lia].
    pow2_norm. repeat case_match; [lia..| |lia]. by rw -app_assoc u32_id.
  - apply rd_bind_inv in H as (sv & r2 & (-> & Hv & Hr2)%read_le_inv & H); [|done].
    change (256 ^ Z.of_nat 2) with (2 ^ 16) in Hv.
    apply check_min_inv in H as [? ?]; simplify_eq. split; [|int_lia].
    pow2_norm. repeat case_match; [lia..| |lia|lia]. by rw -app_assoc u16_id.
  - injection H as <- <-. split; [|int_lia].
    case_match; [|lia]. by rw u8_id.
Qed.

(** ** Base-128 integers *)

(** The byte emitted in one round, and how the reader takes it apart. *)
Lemma varlen_byte n more : 0 <= n ->
  u8 ((n .& 0x7f) .| (if more : bool then 0x80 else 0)) = n mod 128 + (if more then 128 else 0).
Proof.
  intros Hn. change 0x7f with (2 ^ 7 - 1). rw land_low //. change (2 ^ 7) with 128.
  pose proof (Z.mod_pos_bound n 128 ltac:(lia)). destruct more.
  - change ((n mod 128) .| 0x80) with ((n mod 128) .| (1 .<< 7)). rw lor_shift_add //.
    apply u8_id. int_lia.
  - rw Z.lor_0_r Z.add_0_r. apply u8_id. int_lia.
Qed.

Lemma varlen_byte_flag b : is_byte b -> negb (b .& 0x80 =? 0) = (128 <=? b).
Proof.
  intros Hb. change 0x80 with (2 ^ 7). rw land_pow2_eqb0 // negb_involutive testbit_top //.
Qed.

Lemma varlen_step ret b : 0 <= ret < 2 ^ 57 -> is_byte b ->
  u64 (ret .<< 7) .| (b .& 0x7f) = ret * 128 + b mod 128.
Proof.
  intros Hr Hb. change 0x7f with (2 ^ 7 - 1). rw land_low //. rw u64_id.
  - rw Z.lor_comm lor_shift_add //; [pow2_norm; lia|]. by apply Z.mod_pos_bound.
  - rw Z.shiftl_mul_pow2 //. int_lia.
Qed.

(** Reading the bytes that carry the continuation bit. *)
Lemma ReadVarLenInt_more room n out l : 0 <= n < 2 ^ 64 - 1 ->
  EncodeVarLenInt_loop room n 0x80 out = Ok l ->
  ReadVarLenInt_loop 0 l = ReadVarLenInt_loop (n + 1) out.
Proof.
  revert n out. induction room as [|room IH]; intros n out Hn H; [done|].
  cbn [EncodeVarLenInt_loop] in H. rw (varlen_byte n true) in H; last lia.
  assert (is_byte (n mod 128 + 128)) as Hb by int_lia.
  destruct (Z.leb_spec n 0x7f) as [Hs|Hl].
  - injection H as <-. cbn [ReadVarLenInt_loop].
    rw varlen_step // varlen_byte_flag //. case_match; [|int_lia]. rw u64_id; [f_equal|]; int_lia.
  - rw u64_id in H; last (rw Z.shiftr_div_pow2 //; int_lia).
    apply IH in H; last (rw Z.shiftr_div_pow2 //; int_lia). rw H.
    rw Z.shiftr_div_pow2 //. cbn [ReadVarLenInt_loop].
    rw varlen_step //; last (pow2_norm; Z.to_euclidean_division_equations; lia).
    rw varlen_byte_flag //. case_match; [|int_lia]. rw u64_id; [f_equal|]; int_lia.
Qed.

(** Ten bytes hold a uint64: the buffer of EncodeVarLenInt does not overflow. *)
Lemma EncodeVarLenInt_room room n mask out : 0 <= n < 2 ^ (7 * Z.of_nat room) -> (0 < room)%nat ->
  is_u 64 n -> exists l, EncodeVarLenInt_loop room n mask out = Ok l.
Proof.
  revert n mask out. induction room as [|room IH]; intros n mask out Hn H0 H64; [lia|].
  cbn [EncodeVarLenInt_loop]. destruct (Z.leb_spec n 0x7f); [eauto|].
  destruct room as [|room]; [change (7 * Z.of_nat 1) with 7 in Hn; lia|].
  replace (7 * Z.of_nat (S (S room))) with (7 + 7 * Z.of_nat (S room)) in Hn by lia.
  rw Z.pow_add_r // in Hn.
  assert (0 <= (n .>> 7) - 1 /\ (n .>> 7) - 1 < 2 ^ (7 * Z.of_nat (S room)) /\ (n .>> 7) - 1 < n) as Hr.
  { rw Z.shiftr_div_pow2 //. change (2 ^ 7) with 128 in *.
    Z.to_euclidean_division_equations. lia. }
  rw u64_id; last int_lia. apply IH; [lia|lia|int_lia].
Qed.

Lemma EncodeVarLenInt_total n : is_u 64 n -> exists l, EncodeVarLenInt n = Ok l.
Proof.
  intros Hn. apply EncodeVarLenInt_room; [|lia|done]. change (7 * Z.of_nat 10) with 70. int_lia.
Qed.

Lemma ReadVarLenInt_loop_app ret l r n r' :
  ReadVarLenInt_loop ret l = Ok (n, r') -> ReadVarLenInt_loop ret (l ++ r) = Ok (n, r' ++ r).
Proof.
  revert ret. induction l as [|b l IH]; intros ret H; [done|]. cbn [ReadVarLenInt_loop app] in *.
  case_match; [by apply IH|]. by simplify_eq.
Qed.

Lemma ReadVarLenInt_encode n l r : is_u 64 n -> EncodeVarLenInt n = Ok l ->
  ReadVarLenInt (l ++ r) = Ok (n, r).
Proof.
  intros Hn H. unfold ReadVarLenInt. apply (ReadVarLenInt_loop_app 0 l r n []).
  change (EncodeVarLenInt_loop (S 9) n 0 [] = Ok l) in H. revert H. generalize 9%nat. intros room H.
  cbn [EncodeVarLenInt_loop] in H.
  rw (varlen_byte n false) ?Z.add_0_r in H; last int_lia.
  assert (is_byte (n mod 128)) as Hb by int_lia.
  destruct (Z.leb_spec n 0x7f) as [Hs|Hl].
  - injection H as <-. cbn [ReadVarLenInt_loop]. rw varlen_step // varlen_byte_flag //.
    case_match; [int_lia|]. f_equal. f_equal. int_lia.
  - rw u64_id in H; last (rw Z.shiftr_div_pow2 //; int_lia).
    apply ReadVarLenInt_more in H; last (rw Z.shiftr_div_pow2 //; int_lia). rw H Z.shiftr_div_pow2 //.
    cbn [ReadVarLenInt_loop]. rw varlen_step //; last (pow2_norm; int_lia).
    rw varlen_byte_flag //. case_match; [int_lia|]. f_equal. f_equal. int_lia.
Qed.

Lemma VarLenIntSize_loop_length room n mask out l size :
  EncodeVarLenInt_loop room n mask out = Ok l ->
  VarLenIntSize_loop room n size = Some (size + Z.of_nat (length l) - Z.of_nat (length out)).
Proof.
  revert n mask out size. induction room as [|room IH]; intros n mask out size H; [done|].
  cbn [EncodeVarLenInt_loop VarLenIntSize_loop] in *. destruct (n <=? 0x7f).
  - injection H as <-. f_equal. cbn [length]. lia.
  - erewrite IH; [|exact H]. f_equal. cbn [length]. lia.
Qed.

(** ** Properties *)

(** The CompactSize codec is exact: on a buffer of bytes, [ReadVarInt] returns
    the value [v] and the rest [r'] if and only if the buffer starts with the
    bytes that [WriteVarInt v] writes (so there is one accepted encoding per
    value, every uint64 has one, and nothing else is accepted). *)
Theorem CompactSize_codec (r r' : bytes) (v : Z) (Hr : bytes_ok r) :
  ReadVarInt r = Ok (v, r') <-> is_u 64 v /\ r = WriteVarInt v ++ r'.
Proof.
  split.
  - intros H. by apply ReadVarInt_canonical in H as [-> ?].
  - intros [Hv ->]. by apply ReadVarInt_write.
Qed.

Lemma CompactSize_codec_witness :
  ReadVarInt [0xfd; 0x03; 0x02; 7] = Ok (515, [7]) /\ ReadVarInt [0xfd; 0x03; 0x00] = Err (NonRuleVarInt 3 0xfd 0xfd).
Proof.
  split; [|reflexivity]. apply (CompactSize_codec [0xfd; 0x03; 0x02; 7] [7] 515).
  - repeat constructor; vm_compute; congruence.
  - split; [split; vm_compute; congruence | reflexivity].
Defined.

(** The base-128 codec of the databases: for every uint64 the encoder fits
    its ten-byte buffer, has the length [VarLenIntSize] announces, and
    [ReadVarLenInt] reads the value back and leaves what follows untouched. *)
Theorem VarLenInt_roundtrip (n : Z) (Hn : is_u 64 n) :
  exists l, WriteVarLenInt n = Ok l /\
    VarLenIntSize n = Some (Z.of_nat (length l)) /\
    forall r, ReadVarLenInt (l ++ r) = Ok (n, r).
Proof.
  destruct (EncodeVarLenInt_total n Hn) as [l Hl]. exists l. split; [done|]. split.
  - unfold VarLenIntSize. rw (VarLenIntSize_loop_length _ _ _ _ _ 0 Hl). f_equal. cbn. lia.
  - intros r. by apply ReadVarLenInt_encode.
Qed.

Lemma VarLenInt_roundtrip_witness :
  exists l, WriteVarLenInt (2 ^ 64 - 1) = Ok l /\ length l = 10%nat.
Proof.
  destruct (VarLenInt_roundtrip (2 ^ 64 - 1)) as (l & Hl & Hs & _).
  - split; vm_compute; congruence.
  - exists l. split; [exact Hl|]. 
    assert (VarLenIntSize (2 ^ 64 - 1) = Some 10) as E by reflexivity.
    rw E in Hs. injection Hs as Hs. lia.
Defined.

(** Length-prefixed byte strings: what [WriteVarBytes] writes is read back by
    [ReadVarBytes] under any limit not below the length, and rejected with the
    length and the limit, without reading the payload, under any smaller one. *)
Theorem VarBytes_roundtrip (max : Z) (b r : bytes) (Hb : is_u 64 (Z.of_nat (length b))) :
  ReadVarBytes max (WriteVarBytes b ++ r) =
    if max <? Z.of_nat (length b) then Err (TooLong (Z.of_nat (length b)) max) else Ok (b, r).
Proof.
  unfold ReadVarBytes, WriteVarBytes. rw -app_assoc.
  erewrite rd_bind_ok; [|by apply ReadVarInt_write].
  case_match; [done|]. rw Nat2Z.id. apply ReadFull_app.
Qed.

Lemma VarBytes_roundtrip_witness :
  ReadVarBytes 4 (WriteVarBytes [1; 2; 3] ++ [9]) = Ok ([1; 2; 3], [9]).
Proof.
  rw (VarBytes_roundtrip 4 [1; 2; 3] [9]); [reflexivity|]. split; vm_compute; congruence.
Defined.
