(* ===== verification/ScriptNum.v ===== *)
(** * Script numbers (model/script/scriptnum.go)

    A script number is an int64 stored little-endian with the sign in the top
    bit of the last byte.  [Serialize] (and [ScriptNum.Bytes], whose body is the
    same) encodes, [GetScriptNum] decodes, [IsMinimallyEncoded] tests and
    [MinimallyEncode] restores minimality, the latter in place. *)
From S2P Require Import Prelude Errors.

Definition DefaultMaxNumSize : Z := 4.
Definition MaxInt32 : Z := 2 ^ 31 - 1.
Definition MinInt32 : Z := - 2 ^ 31.

(** ** Encoding *)

(** The loop [for absoluteValue > 0]; a positive int64 has at most eight bytes
    ([serialize_loop_val]). *)
Fixpoint serialize_loop (fuel : nat) (absoluteValue : Z) : bytes :=
  match fuel with
  | O => []
  | S fuel => if 0 <? absoluteValue
              then u8 (absoluteValue .& 0xff) :: serialize_loop fuel (absoluteValue .>> 8)
              else []
  end.

(** [-n.Value] of the smallest int64 is itself, the loop then runs zero times
    and [bytes[len(bytes)-1]] is out of range: hence the panic. *)
Definition Serialize (value : Z) : res ScriptErr bytes :=
  if value =? 0 then Ok []
  else
    let negative := value <? 0 in
    let absoluteValue := if negative then i64 (- value) else value in
    let bs := serialize_loop 8 absoluteValue in
    match last bs with
    | None => Panic
    | Some top =>
        if negb (top .& 0x80 =? 0) then Ok (bs ++ [if negative then 0x80 else 0x00])
        else if negative then Ok (<[(length bs - 1)%nat := top .| 0x80]> bs)
        else Ok bs
    end.

Definition ScriptNum_Bytes (value : Z) : res ScriptErr bytes := Serialize value.

(** ** Minimality *)
Definition IsMinimallyEncoded (data : bytes) (nMaxNumSize : Z) : bool :=
  if nMaxNumSize <? Z.of_nat (length data) then false
  else match last data with
  | None => true
  | Some top =>
      if top .& 0x7f =? 0 then
        match data !! (length data - 2)%nat with
        | Some below => (1 <? Z.of_nat (length data)) && negb (below .& 0x80 =? 0)
        | None => false
        end
      else true
  end.

(** MinimallyEncode rewrites the caller's array and returns a prefix of it: the
    result is the updated array with the length of the returned slice.  The loop
    walks [i] down from [len(data)-1] to 1. *)
Fixpoint minimally_encode_loop (i : nat) (last_ : Z) (data : bytes) : bytes * nat :=
  match i with
  | O => (data, O)
  | S i' =>
      match data !! i' with
      | None => (data, O)
      | Some b =>
          if negb (b =? 0) then
            if negb (b .& 0x80 =? 0) then (<[i := last_]> data, S i)
            else (<[i' := b .| last_]> data, i)
          else minimally_encode_loop i' last_ data
      end
  end.

Definition MinimallyEncode (data : bytes) : bytes * nat :=
  match last data with
  | None => (data, O)
  | Some last_ =>
      if negb (last_ .& 0x7f =? 0) then (data, length data)
      else if decide (length data = 1%nat) then (data, O)
      else match data !! (length data - 2)%nat with
      | None => (data, O)
      | Some below =>
          if negb (below .& 0x80 =? 0) then (data, length data)
          else minimally_encode_loop (length data - 1) last_ data
      end
  end.

(** The bytes of the returned slice. *)
Definition MinimallyEncode_bytes (data : bytes) : bytes :=
  let '(buf, n) := MinimallyEncode data in take n buf.

(** ** Decoding *)
Fixpoint get_script_num_loop (i : Z) (vch : bytes) (v : Z) : Z :=
  match vch with
  | [] => v
  | b :: vch => get_script_num_loop (i + 1) vch (v .| i64 (b .<< u8 (8 * i)))
  end.

Definition GetScriptNum (vch : bytes) (requireMinimal : bool) (maxNumSize : Z) : res ScriptErr Z :=
  let vchLen := Z.of_nat (length vch) in
  if maxNumSize <? vchLen then Err ScriptErrUnknownError
  else if requireMinimal && negb (IsMinimallyEncoded vch maxNumSize) then Err ScriptErrUnknownError
  else match last vch with
  | None => Ok 0
  | Some top =>
      let v := get_script_num_loop 0 vch 0 in
      if negb (top .& 0x80 =? 0) then
        let v := v .& Z.lnot (i64 (0x80 .<< u8 (8 * (vchLen - 1)))) in
        Ok (i64 (- v))
      else Ok v
  end.

Definition ToInt32 (value : Z) : Z :=
  if MaxInt32 <? value then MaxInt32
  else if value <? MinInt32 then MinInt32
  else i32 value.

(** ** Specification: the signed-magnitude value of an encoding *)
Definition sn_abs (l : bytes) (top : Z) : Z := le_val l + 256 ^ Z.of_nat (length l) * (top mod 128).
Definition sn_signed (l : bytes) (top : Z) : Z := if 128 <=? top then - sn_abs l top else sn_abs l top.
Definition sn_val (vch : bytes) : Z :=
  match last vch with
  | None => 0
  | Some top => sn_signed (take (length vch - 1) vch) top
  end.

(** ** Bits of one byte *)
Lemma byte_sign b : is_byte b -> negb (b .& 0x80 =? 0) = (128 <=? b).
Proof. intros Hb. change 0x80 with (2 ^ 7). rw land_pow2_eqb0 // negb_involutive testbit_top //. Qed.

Lemma byte_low b : b .& 0x7f = b mod 128.
Proof. change 0x7f with (2 ^ 7 - 1). by rw land_low. Qed.

Lemma byte_set_sign b : 0 <= b < 128 -> b .| 0x80 = b + 128.
Proof. intros Hb. change (b .| 0x80) with (b .| (1 .<< 7)). rw lor_shift_add //. Qed.

Lemma sn_val_nil : sn_val [] = 0.
Proof. done. Qed.

Lemma sn_val_snoc l top : sn_val (l ++ [top]) = sn_signed l top.
Proof.
  unfold sn_val. rw last_snoc length_app /= Nat.add_sub. by rw take_app_length.
Qed.

Lemma IsMinimallyEncoded_snoc l top max : is_byte top -> bytes_ok l ->
  IsMinimallyEncoded (l ++ [top]) max =
    (Z.of_nat (length l) + 1 <=? max) &&
    (negb (top mod 128 =? 0) || match last l with Some b => 128 <=? b | None => false end).
Proof.
  intros Ht Hl. unfold IsMinimallyEncoded. rw last_snoc length_app /= byte_low.
  destruct (Z.ltb_spec max (Z.of_nat (length l + 1))), (Z.leb_spec (Z.of_nat (length l) + 1) max);
    try lia. destruct (top mod 128 =? 0); [|done]. cbn [negb orb andb].
  destruct l as [|b l _] using rev_ind; [done|].
  rw last_snoc length_app /=. replace (length l + 1 + 1 - 2)%nat with (length l) by lia.
  rw -app_assoc lookup_app_r // Nat.sub_diag /=. apply bytes_ok_snoc in Hl as [_ Hb].
  rw byte_sign //. destruct (Z.ltb_spec 1 (Z.of_nat (length l + 1 + 1))); [done|lia].
Qed.

(** ** Decoding computes [sn_val] *)
(** ** Decoding computes [sn_val] *)

(** One round: the byte lands above the bits already read; only the eighth byte
    can reach the sign bit of the int64. *)
Lemma get_step i v b : 0 <= i < 8 -> 0 <= v < 256 ^ i -> is_byte b ->
  v .| i64 (b .<< u8 (8 * i)) = i64 (v + 256 ^ i * b).
Proof.
  intros Hi Hv Hb. rw u8_id; last int_lia. rw Z.shiftl_mul_pow2; last lia.
  change 256 with (2 ^ 8) in *. rw -Z.pow_mul_r in Hv; [|lia..]. rw -Z.pow_mul_r; [|lia..].
  assert (i64 (b * 2 ^ (8 * i)) = (if decide (i = 7 /\ 128 <= b) then b - 256 else b) .<< (8 * i)) as ->.
  { rw Z.shiftl_mul_pow2; last lia.
    assert (i = 0 \/ i = 1 \/ i = 2 \/ i = 3 \/ i = 4 \/ i = 5 \/ i = 6 \/ i = 7) as Hc by lia.
    destruct_or! Hc; subst i; case_decide; cbn [Z.mul Pos.mul]; int_lia. }
  rw lor_shift_add //; [|lia].
  assert (i = 0 \/ i = 1 \/ i = 2 \/ i = 3 \/ i = 4 \/ i = 5 \/ i = 6 \/ i = 7) as Hc by lia.
  destruct_or! Hc; subst i; case_decide; cbn [Z.mul Pos.mul] in *; int_lia.
Qed.

Lemma get_loop_spec i vch v : 0 <= i -> bytes_ok vch -> 0 <= v < 256 ^ i -> vch <> [] ->
  i + Z.of_nat (length vch) <= 8 ->
  get_script_num_loop i vch v = i64 (v + 256 ^ i * le_val vch).
Proof.
  intros Hi Hok. revert i v Hi. induction Hok as [|b vch Hb Hok IH]; intros i v Hi Hv Hne Hlen; [done|].
  cbn [get_script_num_loop le_val length] in *. rw get_step //; last lia.
  destruct (decide (vch = [])) as [->|Hne'].
  - cbn. f_equal. lia.
  - assert (0 < length vch)%nat by (destruct vch; [done|cbn; lia]).
    assert (256 ^ (i + 1) = 256 ^ i * 256) as Hp by (rw Z.pow_add_r //).
    assert (256 ^ (i + 1) <= 256 ^ 7) by (apply Z.pow_le_mono_r; lia).
    change (256 ^ 7) with (2 ^ 56) in *.
    assert (0 <= v + 256 ^ i * b < 256 ^ (i + 1)) by (rw Hp; unfold is_u in Hb; pow2_norm; nia).
    rw i64_id; last int_lia. rw IH //; [|lia|lia]. f_equal. rw Hp. lia.
Qed.

Lemma sn_abs_bound l top : bytes_ok l -> is_byte top ->
  0 <= sn_abs l top < 128 * 256 ^ Z.of_nat (length l).
Proof.
  intros Hl Ht. unfold sn_abs. pose proof (le_val_bound l Hl).
  pose proof (Z.mod_pos_bound top 128 ltac:(lia)). nia.
Qed.

(** Clearing the sign bit of what was read leaves the magnitude. *)
Lemma clear_sign l top : bytes_ok l -> 128 <= top < 256 -> (length l < 8)%nat ->
  i64 (le_val (l ++ [top])) .& Z.lnot (i64 (0x80 .<< u8 (8 * Z.of_nat (length l)))) = sn_abs l top.
Proof.
  intros Hl Ht Hlen. pose proof (le_val_bound l Hl) as Hb. rw le_val_app /= Z.mul_0_r Z.add_0_r.
  unfold sn_abs. replace (top mod 128) with (top - 128) by int_lia.
  rw u8_id; last int_lia. rw Z.shiftl_mul_pow2; last lia.
  change 256 with (2 ^ 8) in *. rw -Z.pow_mul_r in Hb; [|lia..]. rw -Z.pow_mul_r; [|lia..].
  set (k := 8 * Z.of_nat (length l)) in *.
  replace (0x80 * 2 ^ k) with (2 ^ (k + 7)) by (rw Z.pow_add_r; lia).
  set (m := le_val l + 2 ^ k * (top - 128)).
  assert (le_val l + 2 ^ k * top = m + 2 ^ (k + 7)) as ->.
  { unfold m. rw Z.pow_add_r; lia. }
  assert (0 <= m < 2 ^ (k + 7)) as Hm by (unfold m; rw Z.pow_add_r; [pow2_norm; nia|lia..]).
  clearbody m. destruct (decide (k + 7 = 63)) as [Hk|Hk].
  - rw Hk in Hm *. replace (i64 (m + 2 ^ 63)) with (m - 2 ^ 63) by int_lia.
    change (Z.lnot (i64 (2 ^ 63))) with (2 ^ 63 - 1). rw land_low //.
    symmetry. apply (Z.mod_unique _ _ (-1)); lia.
  - assert (2 ^ (k + 7) <= 2 ^ 55) by (apply Z.pow_le_mono_r; lia).
    rw !i64_id; [|int_lia..]. rw -Z.ldiff_land -(Z.mul_1_l (2 ^ (k + 7))) -lor_shift_add //; last lia.
    apply Z.bits_inj'. intros n Hn. rw Z.ldiff_spec Z.lor_spec Z.shiftl_spec //.
    rw Z.mul_1_l Z.pow2_bits_eqb; last lia.
    destruct (Z.eqb_spec (k + 7) n) as [<-|Hne].
    + rw andb_false_r. symmetry. rw -(Z.mod_small m (2 ^ (k + 7))) // Z.mod_pow2_bits_high //.
    + rw andb_true_r. replace (Z.testbit 1 (n - (k + 7))) with false; [by rw orb_false_r|].
      destruct (Z.ltb_spec n (k + 7)); [by rw Z.testbit_neg_r //; lia|].
      symmetry. apply (Z.bits_above_log2 1); cbn; lia.
Qed.

Lemma sn_abs_i64 l top : bytes_ok l -> is_byte top -> (length l < 8)%nat -> 0 <= sn_abs l top < 2 ^ 63.
Proof.
  intros Hl Ht Hlen. pose proof (sn_abs_bound l top Hl Ht).
  assert (256 ^ Z.of_nat (length l) <= 256 ^ 7) by (apply Z.pow_le_mono_r; lia).
  change (256 ^ 7) with (2 ^ 56) in *. pow2_norm. lia.
Qed.

Lemma decode_snoc l top : bytes_ok l -> is_byte top -> (length l < 8)%nat ->
  (let v := get_script_num_loop 0 (l ++ [top]) 0 in
   if negb (top .& 0x80 =? 0)
   then i64 (- (v .& Z.lnot (i64 (0x80 .<< u8 (8 * Z.of_nat (length l))))))
   else v) = sn_signed l top.
Proof.
  intros Hl Ht Hlen. cbv zeta. rw get_loop_spec //; [|by apply bytes_ok_snoc|by destruct l|].
  2: { rw length_app /=. lia. }
  rw Z.pow_0_r Z.mul_1_l Z.add_0_l byte_sign // /sn_signed. pose proof (sn_abs_i64 l top Hl Ht Hlen).
  assert (0 <= top < 256) as Ht' by exact Ht. destruct (Z.leb_spec 128 top).
  - rw clear_sign //; last lia. apply i64_id. int_lia.
  - assert (le_val (l ++ [top]) = sn_abs l top) as ->.
    { rw le_val_app /= /sn_abs Z.mod_small; lia. }
    apply i64_id. int_lia.
Qed.

Lemma GetScriptNum_snoc l top rm max : bytes_ok l -> is_byte top -> max <= 8 ->
  GetScriptNum (l ++ [top]) rm max =
    if (Z.of_nat (length l) + 1 <=? max) && implb rm (IsMinimallyEncoded (l ++ [top]) max)
    then Ok (sn_signed l top) else Err ScriptErrUnknownError.
Proof.
  intros Hl Ht Hmax. unfold GetScriptNum. rw length_app /= last_snoc.
  replace (Z.of_nat (length l + 1) - 1) with (Z.of_nat (length l)) by lia.
  destruct (Z.ltb_spec max (Z.of_nat (length l + 1))), (Z.leb_spec (Z.of_nat (length l) + 1) max);
    [lia|done| |lia]. cbn [andb].
  rw -(decode_snoc l top) //; last lia. cbv zeta.
  destruct rm, (IsMinimallyEncoded (l ++ [top]) max), (negb (top .& 0x80 =? 0)); done.
Qed.

(** The decoder, stated without cases: accepted iff short enough and, when asked
    for, minimal; the value is then [sn_val]. *)
Lemma GetScriptNum_spec vch rm max : bytes_ok vch -> 0 <= max <= 8 ->
  GetScriptNum vch rm max =
    if (Z.of_nat (length vch) <=? max) && implb rm (IsMinimallyEncoded vch max)
    then Ok (sn_val vch) else Err ScriptErrUnknownError.
Proof.
  intros Hv Hmax. destruct vch as [|top l _] using rev_ind.
  - unfold GetScriptNum, IsMinimallyEncoded. cbn.
    destruct (Z.ltb_spec max (Z.of_nat 0)), (Z.leb_spec (Z.of_nat 0) max); try lia. by destruct rm.
  - apply bytes_ok_snoc in Hv as [Hl Ht]. rw GetScriptNum_snoc //; last lia.
    rw sn_val_snoc length_app /= Nat2Z.inj_add //.
Qed.

Lemma sn_val_bound vch : bytes_ok vch -> vch <> [] ->
  Z.abs (sn_val vch) < 128 * 256 ^ (Z.of_nat (length vch) - 1).
Proof.
  intros Hv Hne. destruct vch as [|top l _] using rev_ind; [done|].
  apply bytes_ok_snoc in Hv as [Hl Ht]. rw sn_val_snoc length_app /= Nat2Z.inj_add Z.add_simpl_r /sn_signed.
  pose proof (sn_abs_bound l top Hl Ht). case_match; lia.
Qed.

(** ** Encoding *)
Lemma serialize_loop_spec fuel v : 0 <= v < 256 ^ Z.of_nat fuel ->
  let l := serialize_loop fuel v in
  bytes_ok l /\ le_val l = v /\ (length l <= fuel)%nat /\ (forall t, last l = Some t -> 0 < t).
Proof.
  revert v. induction fuel as [|fuel IH]; intros v Hv; cbn [serialize_loop].
  { change (256 ^ Z.of_nat 0) with 1 in Hv. repeat split; [constructor|cbn; lia|cbn; lia|done]. }
  destruct (Z.ltb_spec 0 v); [|repeat split; [constructor|cbn; lia|cbn; lia|done]].
  change 0xff with (2 ^ 8 - 1). rw land_low // Z.shiftr_div_pow2 // u8_id; last int_lia.
  rw pow256_S in Hv. change (2 ^ 8) with 256.
  destruct (IH (v / 256)) as (Hok & Hval & Hlen & Hlast); [Z.to_euclidean_division_equations; lia|].
  set (l := serialize_loop fuel (v / 256)) in *. clearbody l. split; [|split; [|split]].
  - constructor; [int_lia|done].
  - cbn. rw Hval. Z.to_euclidean_division_equations; lia.
  - cbn. lia.
  - intros t. destruct l as [|b l]; [|by apply Hlast]. cbn in *. intros [= <-].
    Z.to_euclidean_division_equations; lia.
Qed.

Lemma insert_last {A} (l : list A) x y : <[length l := y]> (l ++ [x]) = l ++ [y].
Proof. by rw insert_app_r_alt // Nat.sub_diag. Qed.

(** [bs] is a minimal encoding of [v]. *)
Record encodes (bs : bytes) (v : Z) : Prop := {
  enc_ok : bytes_ok bs;
  enc_val : sn_val bs = v;
  enc_min : forall max, Z.of_nat (length bs) <= max -> IsMinimallyEncoded bs max = true }.

Lemma encodes_snoc l t v : bytes_ok l -> is_byte t -> sn_signed l t = v ->
  t mod 128 <> 0 \/ (exists b, last l = Some b /\ 128 <= b) -> encodes (l ++ [t]) v.
Proof.
  intros Hl Ht Hs Hmin. split.
  - by apply bytes_ok_snoc.
  - by rw sn_val_snoc.
  - intros max. rw length_app /= => Hm. rw IsMinimallyEncoded_snoc //.
    apply andb_true_intro. split; [apply Z.leb_le; lia|]. apply orb_true_iff.
    destruct Hmin as [Hnz|(b & -> & Hb)]; [left|right; apply Z.leb_le; lia].
    apply negb_true_iff, Z.eqb_neq. lia.
Qed.

(** The top byte of the magnitude has its high bit set: one more byte. *)
Lemma encodes_extra l top v : bytes_ok l -> 128 <= top < 256 ->
  le_val l + 256 ^ Z.of_nat (length l) * top = Z.abs v ->
  encodes ((l ++ [top]) ++ [if v <? 0 then 0x80 else 0x00]) v.
Proof.
  intros Hl Ht Hval. set (e := if v <? 0 then 0x80 else 0x00).
  assert (is_byte e /\ e mod 128 = 0 /\ (128 <=? e) = (v <? 0)) as (He & E1 & E2).
  { unfold e; case_match; repeat split; done. }
  apply encodes_snoc; [apply bytes_ok_snoc; split; [done|int_lia]|done| |].
  - unfold sn_signed, sn_abs. rw E1 E2 le_val_app /= !Z.mul_0_r !Z.add_0_r Hval.
    destruct (Z.ltb_spec v 0); lia.
  - right. exists top. rw last_snoc. split; [done|lia].
Qed.

(** The top byte has room for the sign. *)
Lemma encodes_sign l top v : bytes_ok l -> 0 < top < 128 ->
  le_val l + 256 ^ Z.of_nat (length l) * top = Z.abs v ->
  encodes (l ++ [if v <? 0 then top .| 0x80 else top]) v.
Proof.
  intros Hl Ht Hval. set (e := if v <? 0 then top .| 0x80 else top).
  assert (e = if v <? 0 then top + 128 else top) as -> by (unfold e; case_match; [apply byte_set_sign; lia|done]).
  set (e := if v <? 0 then top + 128 else top).
  assert (is_byte e /\ e mod 128 = top /\ (128 <=? e) = (v <? 0)) as (He & E1 & E2).
  { unfold e. destruct (Z.ltb_spec v 0); (split; [int_lia|split; [int_lia|]]);
      [apply Z.leb_le|apply Z.leb_gt]; lia. }
  apply encodes_snoc; [done|done| |left; lia].
  unfold sn_signed, sn_abs. rw E1 E2 Hval. destruct (Z.ltb_spec v 0); lia.
Qed.

(** Every int64 but the smallest has a minimal encoding, and Serialize finds it. *)
Lemma Serialize_spec v : is_i 64 v -> v <> - 2 ^ 63 ->
  exists bs, Serialize v = Ok bs /\ encodes bs v.
Proof.
  intros Hv Hmin. unfold Serialize. destruct (Z.eqb_spec v 0) as [->|H0].
  { exists []. split; [done|]. split; [constructor|done|]. intros max Hm. unfold IsMinimallyEncoded.
    by destruct (Z.ltb_spec max (Z.of_nat (length (@nil Z)))); [lia|]. }
  assert ((if v <? 0 then i64 (- v) else v) = Z.abs v) as ->.
  { destruct (Z.ltb_spec v 0); [rw i64_id; [lia|int_lia]|lia]. }
  destruct (serialize_loop_spec 8 (Z.abs v)) as (Hok & Hval & Hlen & Hlast).
  { change (256 ^ Z.of_nat 8) with (2 ^ 64). int_lia. }
  set (bs := serialize_loop 8 (Z.abs v)) in *. clearbody bs.
  destruct bs as [|top l _] using rev_ind; [cbn in Hval; lia|].
  rw last_snoc in Hlast *. specialize (Hlast top eq_refl). apply bytes_ok_snoc in Hok as [Hl Ht].
  rw le_val_app /= Z.mul_0_r Z.add_0_r in Hval. rw length_app /= in Hlen *.
  rw Nat.add_sub insert_last byte_sign //. assert (0 <= top < 256) as Ht' by exact Ht.
  destruct (Z.leb_spec 128 top) as [Htop|Htop].
  - eexists. split; [done|]. apply encodes_extra; done || lia.
  - exists (l ++ [if v <? 0 then top .| 0x80 else top]). split; [by case_match|].
    apply encodes_sign; done || lia.
Qed.

(** ** A number has one minimal encoding *)

(** A minimal encoding of [n+1] bytes denotes a number of at least [n] bytes. *)
Lemma minimal_lower l t max : bytes_ok l -> is_byte t -> IsMinimallyEncoded (l ++ [t]) max = true ->
  0 < sn_abs l t /\ 128 * 256 ^ (Z.of_nat (length l) - 1) <= sn_abs l t.
Proof.
  intros Hl Ht. rw IsMinimallyEncoded_snoc // => /andb_prop [_ /orb_prop Hm]. unfold sn_abs.
  pose proof (le_val_bound l Hl) as Hb. pose proof (Z.mod_pos_bound t 128 ltac:(lia)) as Hm'.
  assert (128 * 256 ^ (Z.of_nat (length l) - 1) <= 256 ^ Z.of_nat (length l)) as Hp.
  { destruct (length l) as [|n]; [cbn; lia|]. rw pow256_S.
    replace (Z.of_nat (S n) - 1) with (Z.of_nat n) by lia. lia. }
  destruct Hm as [Hnz|Hlast].
  - apply negb_true_iff, Z.eqb_neq in Hnz. nia.
  - destruct l as [|b l _] using rev_ind; [done|]. rw last_snoc in Hlast. apply Z.leb_le in Hlast.
    apply bytes_ok_snoc in Hl as [Hl _]. pose proof (le_val_bound l Hl).
    rw le_val_app length_app /= Z.mul_0_r Z.add_0_r.
    replace (Z.of_nat (length l + 1) - 1) with (Z.of_nat (length l)) by lia. nia.
Qed.

Lemma minimal_inj bs1 bs2 max1 max2 : bytes_ok bs1 -> bytes_ok bs2 ->
  IsMinimallyEncoded bs1 max1 = true -> IsMinimallyEncoded bs2 max2 = true ->
  sn_val bs1 = sn_val bs2 -> bs1 = bs2.
Proof.
  intros Hb1 Hb2 Hm1 Hm2 Hv.
  destruct bs1 as [|t1 l1 _] using rev_ind; destruct bs2 as [|t2 l2 _] using rev_ind; [done|..];
    rw ?sn_val_snoc ?sn_val_nil in Hv; rw ?bytes_ok_snoc in Hb1 Hb2; destruct_and?.
  - apply minimal_lower in Hm2 as [? ?]; [|done..]. unfold sn_signed in Hv. case_match; lia.
  - apply minimal_lower in Hm1 as [? ?]; [|done..]. unfold sn_signed in Hv. case_match; lia.
  - apply minimal_lower in Hm1 as [? ?], Hm2 as [? ?]; [|done..].    
    pose proof (sn_abs_bound l1 t1 ltac:(done) ltac:(done)) as B1.
    pose proof (sn_abs_bound l2 t2 ltac:(done) ltac:(done)) as B2.
    assert (sn_abs l1 t1 = sn_abs l2 t2 /\ (128 <=? t1) = (128 <=? t2)) as [Ha Hs].
    { unfold sn_signed in Hv. destruct (128 <=? t1), (128 <=? t2); split; done || lia. }
    assert (length l1 = length l2) as Hlen.
    { destruct (decide (length l1 < length l2)%nat); [|destruct (decide (length l2 < length l1)%nat); [|lia]].
      - pose proof (Z.pow_le_mono_r 256 (Z.of_nat (length l1)) (Z.of_nat (length l2) - 1) ltac:(lia) ltac:(lia)). lia.
      - pose proof (Z.pow_le_mono_r 256 (Z.of_nat (length l2)) (Z.of_nat (length l1) - 1) ltac:(lia) ltac:(lia)). lia. }
    assert (forall t, is_byte t -> is_byte (t mod 128)) as Hmod by (intros; int_lia).
    assert (l1 ++ [t1 mod 128] = l2 ++ [t2 mod 128]) as Heq.
    { apply le_val_inj; [by apply bytes_ok_snoc; auto|by apply bytes_ok_snoc; auto|by rw !length_app Hlen|].
      rw !le_val_app /= !Z.mul_0_r !Z.add_0_r. exact Ha. }
    apply app_inj_tail in Heq as [-> Ht]. do 2 f_equal.
    destruct (Z.leb_spec 128 t1), (Z.leb_spec 128 t2); try done; int_lia.
Qed.

(** ** MinimallyEncode *)

(** What the returned prefix of the rewritten array is: a minimal encoding of
    [v], no longer than the argument. *)
Definition minimized (data : bytes) (v : Z) (r : bytes * nat) : Prop :=
  encodes (take r.2 r.1) v /\ length r.1 = length data /\ (r.2 <= length data)%nat.

Lemma encodes_nil : encodes [] 0.
Proof.
  split; [constructor|done|]. intros max Hm. unfold IsMinimallyEncoded.
  by destruct (Z.ltb_spec max (Z.of_nat (length (@nil Z)))); [lia|].
Qed.

Lemma sn_signed_pure l s : s = 0 \/ s = 0x80 ->
  sn_signed l s = if s =? 0 then le_val l else - le_val l.
Proof.
  intros Hs. unfold sn_signed, sn_abs.
  destruct Hs as [-> | ->]; [change (0 mod 128) with 0|change (0x80 mod 128) with 0];
    rw Z.mul_0_r Z.add_0_r //.
Qed.

(** The loop, on an array [l ++ 0..0 ++ [sign]] scanned from the end of [l]. *)
Lemma minimally_encode_loop_spec l k s : bytes_ok l -> s = 0 \/ s = 0x80 ->
  let data := l ++ replicate k 0 ++ [s] in
  minimized data (if s =? 0 then le_val l else - le_val l) (minimally_encode_loop (length l) s data).
Proof.
  intros Hl Hs. revert k. induction l as [|b l IH] using rev_ind; intros k; cbv zeta.
  { cbn [length minimally_encode_loop app]. split; cbn [fst snd]; [|by split; [|lia]].
    rw take_0. cbn. destruct (s =? 0); apply encodes_nil. }
  apply bytes_ok_snoc in Hl as [Hl Hb]. specialize (IH Hl).
  rw length_app Nat.add_1_r. cbn [minimally_encode_loop]. rw -app_assoc.
  rw lookup_app_r // Nat.sub_diag. cbn [app lookup list_lookup].
  assert (0 <= b < 256) as Hb' by exact Hb.
  destruct (Z.eqb_spec b 0) as [->|Hb0]; cbn [negb].
  { rw le_val_app /= !Z.mul_0_r !Z.add_0_r. apply (IH (S k)). }
  rw byte_sign //. rw le_val_app /= Z.mul_0_r Z.add_0_r.
  assert (s = 0 /\ (s =? 0) = true \/ s = 0x80 /\ (s =? 0) = false) as Hs' by (destruct Hs as [-> | ->]; auto).
  assert (S (length l) < length (l ++ b :: replicate k 0%Z ++ [s]))%nat as Hlen.
  { rw length_app /= length_app /=. lia. }
  destruct (Z.leb_spec 128 b); (split; [|by cbn [fst snd]; rw length_insert; split; [|lia]]); cbn [fst snd].
  - rw take_S_insert // -Nat.add_1_r take_app_add /=.
    apply encodes_snoc; [by apply bytes_ok_snoc|destruct Hs as [-> | ->]; done| |].
    + by rw sn_signed_pure // le_val_app /= Z.mul_0_r Z.add_0_r.
    + right. exists b. by rw last_snoc.
  - rw take_S_insert; last lia. rw take_app_length.
    replace (b .| s) with (if s =? 0 then b else b + 128)
      by (destruct Hs' as [[-> ->]|[-> ->]]; [by rw Z.lor_0_r|rw byte_set_sign; lia]).
    apply encodes_snoc; [done|case_match; int_lia| |left; case_match; int_lia].
    unfold sn_signed, sn_abs. destruct Hs' as [[-> ->]|[-> ->]].
    + destruct (Z.leb_spec 128 b); [lia|]. rw Z.mod_small; lia.
    + destruct (Z.leb_spec 128 (b + 128)); [|lia]. replace ((b + 128) mod 128) with b by int_lia. lia.
Qed.

Lemma MinimallyEncode_spec data : bytes_ok data -> minimized data (sn_val data) (MinimallyEncode data).
Proof.
  intros Hd. unfold MinimallyEncode. destruct data as [|t l _] using rev_ind.
  { cbn. split; [apply encodes_nil|]. by split; [|cbn; lia]. }
  rw last_snoc byte_low sn_val_snoc. pose proof Hd as [Hl Ht]%bytes_ok_snoc.
  assert (0 <= t < 256) as Ht' by exact Ht.
  destruct (Z.eqb_spec (t mod 128) 0) as [H0|Hnz]; cbn [negb].
  2: { split; cbn [fst snd]; [|done]. rw take_ge //. apply encodes_snoc; auto. }
  rw length_app /=. assert (t = 0 \/ t = 0x80) as Hs by int_lia.
  pose proof (sn_signed_pure l t Hs) as Hval.
  case_decide as Hone.
  { destruct l; [|cbn in Hone; lia]. split; cbn [fst snd]; [|by split; [|cbn; lia]].
    rw Hval take_0. cbn. destruct (t =? 0); apply encodes_nil. }
  destruct l as [|b l _] using rev_ind; [cbn in Hone; lia|].
  rw length_app /=. replace (length l + 1 + 1 - 2)%nat with (length l) by lia.
  assert (((l ++ [b]) ++ [t]) !! length l = Some b) as -> by by rw -app_assoc lookup_app_r // Nat.sub_diag.
  apply bytes_ok_snoc in Hl as Hlb.
  rw byte_sign; last tauto. destruct (Z.leb_spec 128 b).
  - split; cbn [fst snd]; [|by rw !length_app /=; split; [|lia]].
    rw take_ge; last (rw !length_app /=; lia). apply encodes_snoc; [tauto..|done|].
    right. exists b. by rw last_snoc.
  - rw Hval. replace (length l + 1 + 1 - 1)%nat with (length (l ++ [b])) by (rw length_app /=; lia).
    by apply (minimally_encode_loop_spec (l ++ [b]) 0 t).
Qed.

Lemma Serialize_min : Serialize (- 2 ^ 63) = Panic.
Proof. reflexivity. Qed.

(** The length of a minimal encoding is the size of the number. *)
Lemma encodes_length bs v n : encodes bs v -> (0 < n)%nat -> Z.abs v < 128 * 256 ^ (Z.of_nat n - 1) ->
  (length bs <= n)%nat.
Proof.
  intros [Hok Hval Hmin] Hn Hv. destruct bs as [|t l _] using rev_ind; [cbn; lia|].
  apply bytes_ok_snoc in Hok as [Hl Ht]. rw length_app /=.
  destruct (minimal_lower l t _ Hl Ht (Hmin _ ltac:(done))) as [Hpos Hlow].
  rw sn_val_snoc in Hval. assert (Z.abs v = sn_abs l t) as E by (unfold sn_signed in Hval; case_match; lia).
  destruct (decide (length l + 1 <= n)%nat); [done|].
  pose proof (Z.pow_le_mono_r 256 (Z.of_nat n - 1) (Z.of_nat (length l) - 1) ltac:(lia) ltac:(lia)). lia.
Qed.

(** ** Properties *)

(** Script numbers have one accepted encoding: for any limit of up to eight
    bytes, decoding with the minimality check returns [v] exactly on the bytes
    that [Serialize v] produces, if they fit the limit.  In particular the two
    functions are inverse, and no two byte strings decode to one number. *)
Theorem ScriptNum_codec (vch : bytes) (v max : Z) (Hb : bytes_ok vch) (Hmax : 0 <= max <= 8) :
  GetScriptNum vch true max = Ok v <->
  Serialize v = Ok vch /\ is_i 64 v /\ Z.of_nat (length vch) <= max.
Proof.
  rw GetScriptNum_spec //. cbn [implb].
  destruct (Z.leb_spec (Z.of_nat (length vch)) max) as [Hlen|Hlen]; cbn [andb];
    [|split; [done|lia]]. split.
  - destruct (IsMinimallyEncoded vch max) eqn:Hm; [|done]. intros [= <-].
    assert (Z.abs (sn_val vch) < 2 ^ 63) as Hv.
    { destruct (decide (vch = [])) as [->|Hne]; [done|]. pose proof (sn_val_bound vch Hb Hne).
      pose proof (Z.pow_le_mono_r 256 (Z.of_nat (length vch) - 1) 7 ltac:(lia) ltac:(lia)).
      change (256 ^ 7) with (2 ^ 56) in *. pow2_norm. lia. }
    destruct (Serialize_spec (sn_val vch)) as (bs & Hs & [Hok Hval Hmin]); [int_lia|int_lia|].
    rw Hs. split; [|split; [int_lia|done]]. f_equal.
    eapply minimal_inj; [done|done|by apply Hmin|exact Hm|done].
  - intros (Hs & Hv & _). assert (v <> - 2 ^ 63) as Hne by (intros ->; done).
    destruct (Serialize_spec v Hv Hne) as (bs & Hs' & [Hok Hval Hmin]).
    rw Hs in Hs'. injection Hs' as <-. by rw Hmin // Hval.
Qed.

Lemma ScriptNum_codec_witness :
  GetScriptNum [0x80; 0x80] true 4 = Ok (- 128) /\ Serialize (- 128) = Ok [0x80; 0x80].
Proof.
  assert (GetScriptNum [0x80; 0x80] true 4 = Ok (- 128)) as H by reflexivity.
  split; [exact H|]. apply (ScriptNum_codec [0x80; 0x80] (- 128) 4).
  - repeat constructor; vm_compute; congruence.
  - lia.
  - exact H.
Defined.

(** [Serialize] panics on exactly one int64, the smallest (its negation
    wraps, the digit loop does not run and the last byte does not exist); every
    other number has an encoding, of at most four bytes exactly when its
    magnitude is below [2^31]. *)
Theorem Serialize_total (v : Z) (Hv : is_i 64 v) :
  (Serialize v = Panic <-> v = - 2 ^ 63) /\
  (v <> - 2 ^ 63 -> exists bs, Serialize v = Ok bs /\ (length bs <= 8)%nat /\
     ((length bs <= 4)%nat <-> Z.abs v < 2 ^ 31)).
Proof.
  split.
  - split; [|by intros ->]. intros Hp. destruct (decide (v = - 2 ^ 63)) as [|Hne]; [done|].
    destruct (Serialize_spec v Hv Hne) as (bs & Hs & _). by rw Hs in Hp.
  - intros Hne. destruct (Serialize_spec v Hv Hne) as (bs & Hs & He). exists bs. split; [done|]. split.
    + apply (encodes_length bs v 8 He); [lia|]. change (128 * 256 ^ (Z.of_nat 8 - 1)) with (2 ^ 63). int_lia.
    + split; [|intros; apply (encodes_length bs v 4 He); [lia|done]].
      intros Hl. destruct He as [Hok <- _]. destruct (decide (bs = [])) as [->|Hnil]; [done|].
      pose proof (sn_val_bound bs Hok Hnil).
      pose proof (Z.pow_le_mono_r 256 (Z.of_nat (length bs) - 1) 3 ltac:(lia) ltac:(lia)).
      change (256 ^ 3) with (2 ^ 24) in *. pow2_norm. lia.
Qed.

Lemma Serialize_total_witness : Serialize (- 2 ^ 63) = Panic /\ Serialize (- 2 ^ 31) = Ok [0; 0; 0; 0x80; 0x80].
Proof.
  split; [|reflexivity]. apply (Serialize_total (- 2 ^ 63)); [split; vm_compute; congruence|reflexivity].
Defined.

(** [MinimallyEncode] is correct on byte strings of every length: the slice
    it returns is minimally encoded, denotes the same number as its argument, is
    not longer, is the argument itself when that was minimal, and lies inside
    the (rewritten) array of the argument. *)
Theorem MinimallyEncode_correct (data : bytes) (Hb : bytes_ok data) :
  let r := MinimallyEncode_bytes data in
  IsMinimallyEncoded r (Z.of_nat (length r)) = true /\ sn_val r = sn_val data /\
  (length r <= length data)%nat /\
  length (MinimallyEncode data).1 = length data /\
  (IsMinimallyEncoded data (Z.of_nat (length data)) = true -> r = data).
Proof.
  destruct (MinimallyEncode_spec data Hb) as (He & Hlen & Hle). unfold MinimallyEncode_bytes.
  destruct (MinimallyEncode data) as [buf n]. cbn [fst snd] in *. destruct He as [Hok Hval Hmin].
  assert (length (take n buf) = n) as Hn by (rw length_take; lia). repeat split.
  - by apply Hmin.
  - done.
  - lia.
  - done.
  - intros Hm. eapply minimal_inj; [done|done|by apply Hmin|exact Hm|done].
Qed.

Lemma MinimallyEncode_correct_witness :
  MinimallyEncode_bytes [0x81; 0; 0x80] = [0x81; 0x80] /\
  sn_val (MinimallyEncode_bytes [0x81; 0; 0x80]) = sn_val [0x81; 0; 0x80].
Proof.
  split; [reflexivity|]. apply (MinimallyEncode_correct [0x81; 0; 0x80]).
  repeat constructor; vm_compute; congruence.
Defined.
