(* ===== verification/Script.v ===== *)
(** * Scripts (model/script/script.go)

    Parsing a byte string into opcodes ([convertOPS]), rebuilding the bytes
    ([convertRaw]), the builders ([PushSingleData], ...), the classifiers
    (pay-to-script-hash, push-only, standard outputs), signature-operation
    counting and the encoding checks on signatures and public keys. *)
From S2P Require Import Prelude Errors Wire ScriptNum Opcodes.

(** ** Constants *)
Definition MaxMessagePayload : Z := 32 * 1024 * 1024.
Definition MaxPubKeysPerMultiSig : Z := 20.
Definition LockTimeThreshold : Z := 500000000.
Definition SequenceFinal : Z := 0xffffffff.
Definition MaxScriptSize : Z := 10000.
Definition MaxScriptElementSize : Z := 520.
Definition MaxOpsPerScript : Z := 201.
Definition MaxTxInStandardScriptSigSize : Z := 1650.
Definition SequenceLockTimeDisableFlag : Z := 1 .<< 31.
Definition SequenceLockTimeTypeFlag : Z := 1 .<< 22.
Definition SequenceLockTimeMask : Z := 0x0000ffff.
Definition SequenceLockTimeGranularity : Z := 9.

(** Script verification flags. *)
Definition ScriptVerifyP2SH : Z := 1 .<< 0.
Definition ScriptVerifyStrictEnc : Z := 1 .<< 1.
Definition ScriptVerifyDersig : Z := 1 .<< 2.
Definition ScriptVerifyLowS : Z := 1 .<< 3.
Definition ScriptVerifyNullDummy : Z := 1 .<< 4.
Definition ScriptVerifySigPushOnly : Z := 1 .<< 5.
Definition ScriptVerifyMinmalData : Z := 1 .<< 6.
Definition ScriptVerifyDiscourageUpgradableNops : Z := 1 .<< 7.
Definition ScriptVerifyCleanStack : Z := 1 .<< 8.
Definition ScriptVerifyCheckLockTimeVerify : Z := 1 .<< 9.
Definition ScriptVerifyCheckSequenceVerify : Z := 1 .<< 10.
Definition ScriptVerifyMinimalIf : Z := 1 .<< 13.
Definition ScriptVerifyNullFail : Z := 1 .<< 14.
Definition ScriptVerifyCompressedPubkeyType : Z := 1 .<< 15.
Definition ScriptEnableSigHashForkID : Z := 1 .<< 16.
Definition ScriptEnableReplayProtection : Z := 1 .<< 17.
Definition ScriptEnableCheckDataSig : Z := 1 .<< 18.

(** [flags&f != 0] and [flags&f == f], the two tests the code uses. *)
Definition has_flag (flags f : Z) : bool := negb (flags .& f =? 0).
Definition all_flag (flags f : Z) : bool := flags .& f =? f.

Inductive ScriptType :=
| ScriptNonStandard | ScriptPubkey | ScriptPubkeyHash | ScriptHash | ScriptMultiSig | ScriptNullData.
#[export] Instance ScriptType_eq_dec : EqDecision ScriptType.
Proof. solve_decision. Defined.

(** ** The script object *)
Abbreviation POC := (ParsedOpCode bytes).
Record Script := mkScript {
  data : bytes;
  ParsedOpCodes : list POC;
  badOpCode : bool }.

(** *** Parsing *)

(** The size field of the push that [opcode] starts, and what follows it; [None]
    when the bytes of the size field are missing. *)
Definition push_size (opcode : Z) (rest : bytes) : option (Z * bytes) :=
  if opcode <? OP_PUSHDATA1 then Some (opcode, rest)
  else if opcode =? OP_PUSHDATA1 then
    if decide (length rest < 1)%nat then None else Some (le_val (take 1 rest), drop 1 rest)
  else if opcode =? OP_PUSHDATA2 then
    if decide (length rest < 2)%nat then None else Some (le_val (take 2 rest), drop 2 rest)
  else if opcode =? OP_PUSHDATA4 then
    if decide (length rest < 4)%nat then None else Some (le_val (take 4 rest), drop 4 rest)
  else Some (0, rest).

(** The loop of convertOPS over [s.data[i:]]: the opcodes parsed before the end
    or the first error, and whether there was an error.  Every round consumes
    the opcode byte, so [length rest] rounds are enough. *)
Fixpoint convertOPS_loop (fuel : nat) (rest : bytes) : list POC * bool :=
  match rest, fuel with
  | [], _ => ([], false)
  | _, O => ([], true)
  | opcode :: rest, S fuel =>
      match push_size opcode rest with
      | None => ([], true)
      | Some (nSize, rest) =>
          if Z.of_nat (length rest) <? nSize then ([], true)
          else
            let n := Z.to_nat nSize in
            let '(ops, bad) := convertOPS_loop fuel (drop n rest) in
            (NewParsedOpCode opcode nSize (take n rest) :: ops, bad)
      end
  end.
Definition convertOPS (d : bytes) : Script :=
  let '(ops, bad) := convertOPS_loop (length d) d in mkScript d ops bad.

Definition NewScriptRaw (d : bytes) : Script := convertOPS d.

(** *** Printing *)
Definition op_bytes (e : POC) : bytes :=
  [OpValue e] ++
  (if OpValue e =? OP_PUSHDATA1 then le_bytes 1 (Length e)
   else if OpValue e =? OP_PUSHDATA2 then le_bytes 2 (Length e)
   else if OpValue e =? OP_PUSHDATA4 then le_bytes 4 (Length e)
   else []) ++
  (if (OpValue e <=? OP_PUSHDATA4) && (0 <? Length e) then Data e else []).
Definition convertRaw (ops : list POC) : bytes := concat (map op_bytes ops).

Definition NewScriptOps (ops : list POC) : Script := mkScript (convertRaw ops) ops false.
Definition NewEmptyScript : Script := mkScript [] [] false.

(** *** Encoding on the wire *)
Definition EncodeSize (s : Script) : Z :=
  u32 (VarIntSerializeSize (Z.of_nat (length (data s))) + u32 (Z.of_nat (length (data s)))).
Definition Encode (s : Script) : bytes := WriteVarBytes (data s).
Definition ReadScript (maxAllowed : Z) : rd werr bytes :=
  count ← ReadVarInt;
  if maxAllowed <? count then rd_fail ScriptSize
  else ReadFull (Z.to_nat count).
(** Decode of a new script object: the opcodes of a coinbase script stay empty;
    for the others a parse error is the error of Decode. *)
Definition Decode (isCoinBase : bool) : rd werr Script :=
  b ← ReadScript MaxMessagePayload;
  if isCoinBase then mret (mkScript b [] false)
  else let s := convertOPS b in
       if badOpCode s then rd_fail BadScript else mret s.

(** *** Removing opcodes *)
Definition RemoveOpcodeByData (s : Script) (d : bytes) : Script :=
  NewScriptOps (base.filter (fun e => ~ (CheckCompactDataPush (OpValue e) (Data e) = true /\ Data e = d))
                  (ParsedOpCodes s)).
Definition RemoveOpcode (s : Script) (code : Z) : Script :=
  NewScriptOps (base.filter (fun e => OpValue e <> code) (ParsedOpCodes s)).
Definition RemoveOpCodeByIndex (s : Script) (index : Z) : option Script :=
  let opCodesLen := Z.of_nat (length (ParsedOpCodes s)) in
  let i := Z.to_nat index in
  if (index <? 0) || (opCodesLen <=? index) then None
  else if index =? 0 then
    if opCodesLen =? 1 then Some NewEmptyScript
    else Some (NewScriptOps (drop 1 (ParsedOpCodes s)))
  else if index =? opCodesLen - 1 then Some (NewScriptOps (take i (ParsedOpCodes s)))
  else Some (NewScriptOps (take i (ParsedOpCodes s) ++ drop (S i) (ParsedOpCodes s))).

(** *** Builders: append to the bytes and parse the whole script again *)
Definition PushData (s : Script) (d : bytes) : Script := convertOPS (data s ++ d).
Definition PushOpCode (s : Script) (n : Z) : res ScriptErr Script :=
  if (n <? 0) || (0xff <? n) then Err ScriptErrInvalidOpCode
  else Ok (PushData s [n]).
Definition push_prefix (dataLen : Z) : bytes :=
  if dataLen <? OP_PUSHDATA1 then [u8 dataLen]
  else if dataLen <=? 0xff then [OP_PUSHDATA1; u8 dataLen]
  else if dataLen <=? 0xffff then [OP_PUSHDATA2] ++ le_bytes 2 dataLen
  else [OP_PUSHDATA4] ++ le_bytes 4 dataLen.
Definition push_single (d : bytes) : bytes := push_prefix (Z.of_nat (length d)) ++ d.
Definition PushSingleData (s : Script) (d : bytes) : Script := PushData s (push_single d).
Definition PushMultData (s : Script) (ds : list bytes) : Script :=
  PushData s (concat (map push_single ds)).
Definition PushScriptNum (s : Script) (value : Z) : res ScriptErr Script :=
  PushSingleData s <$> Serialize value.
Definition PushInt64 (s : Script) (n : Z) : res ScriptErr Script :=
  if (-1 <=? n) && (n <=? 16) then
    Ok (PushData s [if n =? 0 then OP_0 else u8 (n + (OP_1 - 1))])
  else PushScriptNum s n.

(** *** Classification *)
Definition Size (s : Script) : Z := Z.of_nat (length (data s)).
Definition byte_at (d : bytes) (i : nat) (b : Z) : bool :=
  match d !! i with Some x => x =? b | None => false end.

Definition IsSpendable (s : Script) : bool :=
  negb (byte_at (data s) 0 OP_RETURN || (MaxScriptSize <? Size s)).
Definition IsUnspendable (s : Script) : bool :=
  byte_at (data s) 0 OP_RETURN || (MaxScriptSize <? Size s).
Definition IsPayToScriptHash (s : Script) : bool :=
  (Size s =? 23) && byte_at (data s) 0 OP_HASH160 && byte_at (data s) 1 0x14
  && byte_at (data s) 22 OP_EQUAL.
Definition IsPushOnly (s : Script) : bool :=
  negb (badOpCode s) && forallb (fun e => OpValue e <=? OP_16) (ParsedOpCodes s).

(** IsCommitment compares the payload byte by byte after the two header bytes. *)
Definition IsCommitment (s : Script) (d : bytes) : bool :=
  if (64 <? Z.of_nat (length d)) || negb (Size s =? Z.of_nat (length d) + 2) then false
  else byte_at (data s) 0 OP_RETURN && byte_at (data s) 1 (Z.of_nat (length d))
       && bool_decide (drop 2 (data s) = d).

Definition CheckScriptSigStandard (s : Script) : bool * string :=
  if MaxTxInStandardScriptSigSize <? Size s then (false, "scriptsig-size"%string)
  else if negb (IsPushOnly s) then (false, "scriptsig-not-pushonly"%string)
  else (true, ""%string).

(** The Boolean value of a stack element: any non-zero byte, negative zero aside. *)
Fixpoint BytesToBool (b : bytes) : bool :=
  match b with
  | [] => false
  | e :: rest => if negb (e =? 0) then negb (bool_decide (rest = []) && (e =? 0x80))
                 else BytesToBool rest
  end.

Definition EncodeOPN (n : Z) : option Z :=
  if (n <? 0) || (16 <? n) then None
  else if n =? 0 then Some OP_0 else Some (OP_1 + n - 1).
Definition DecodeOPN (opcode : Z) : Z :=
  if opcode =? OP_0 then 0 else opcode - (OP_1 - 1).

Definition is_small_int (opcode : Z) : bool :=
  (opcode =? OP_0) || ((OP_1 <=? opcode) && (opcode <=? OP_16)).
Definition pubkey_len (n : Z) : bool := (33 <=? n) && (n <=? 65).

(** The multisig branch of IsStandardScriptPubKey: [m key1 ... keyn n OP_CHECKMULTISIG];
    [None] where the code returns ScriptNonStandard. *)
Definition multisig_template (ops : list POC) : option (Z * list bytes * Z) :=
  let n := length ops in
  if decide (n < 4)%nat then None
  else match ops !! 0%nat, ops !! (n - 2)%nat, ops !! (n - 1)%nat with
  | Some opM, Some opN, Some opLast =>
      let keys := take (n - 3) (drop 1 ops) in
      if forallb (fun e => pubkey_len (Length e)) keys
         && is_small_int (OpValue opN) && (OpValue opLast =? OP_CHECKMULTISIG)
      then Some (DecodeOPN (OpValue opM), map Data keys, DecodeOPN (OpValue opN))
      else None
  | _, _, _ => None
  end.

Definition IsStandardScriptPubKey {E} (s : Script) : res E (ScriptType * list bytes * bool) :=
  if IsPayToScriptHash s then
    match ParsedOpCodes s !! 1%nat with
    | Some e => Ok (ScriptHash, [Data e], true)
    | None => Panic
    end
  else match ParsedOpCodes s with
  | [] => Ok (ScriptNonStandard, [], false)
  | op0 :: ops1 =>
      if OpValue op0 =? OP_RETURN then
        if IsPushOnly (NewScriptOps ops1) then Ok (ScriptNullData, [], true)
        else Ok (ScriptNonStandard, [], false)
      else match ops1 with
      | [op1] =>
          if (OP_PUSHDATA4 <? OpValue op0) || negb (pubkey_len (Length op0))
             || negb (OpValue op1 =? OP_CHECKSIG)
          then Ok (ScriptNonStandard, [], false)
          else Ok (ScriptPubkey, [Data op0], true)
      | _ =>
          if OpValue op0 =? OP_DUP then
            match ops1 with
            | [op1; op2; op3; op4] =>
                if (OpValue op1 =? OP_HASH160) && (Length op2 =? 20)
                   && (OpValue op3 =? OP_EQUALVERIFY) && (OpValue op4 =? OP_CHECKSIG)
                then Ok (ScriptPubkeyHash, [Data op2], true)
                else Ok (ScriptNonStandard, [], false)
            | _ => Ok (ScriptNonStandard, [], false)
            end
          else if is_small_int (OpValue op0) then
            match multisig_template (op0 :: ops1) with
            | None => Ok (ScriptNonStandard, [], false)
            | Some (opM, keys, opN) =>
                if (opM <? 1) || (opN <? 1) || (opN <? opM) || negb (opN =? Z.of_nat (length keys))
                then Ok (ScriptMultiSig, [], false)
                else Ok (ScriptMultiSig, [[u8 opM]] ++ keys ++ [[u8 opN]], true)
            end
          else Ok (ScriptNonStandard, [], false)
      end
  end.

(** *** Signature operations *)
Definition sigops_of (flags : Z) (accurate : bool) (lastOpcode opcode : Z) : Z :=
  if (opcode =? OP_CHECKSIG) || (opcode =? OP_CHECKSIGVERIFY) then 1
  else if (opcode =? OP_CHECKDATASIG) || (opcode =? OP_CHECKDATASIGVERIFY) then
    if has_flag flags ScriptEnableCheckDataSig then 1 else 0
  else if (opcode =? OP_CHECKMULTISIG) || (opcode =? OP_CHECKMULTISIGVERIFY) then
    if accurate && (OP_1 <=? lastOpcode) && (lastOpcode <=? OP_16) then DecodeOPN lastOpcode
    else MaxPubKeysPerMultiSig
  else 0.
Fixpoint GetSigOpCount_loop (flags : Z) (accurate : bool) (lastOpcode n : Z) (ops : list POC) : Z :=
  match ops with
  | [] => n
  | e :: ops => GetSigOpCount_loop flags accurate (OpValue e)
                  (n + sigops_of flags accurate lastOpcode (OpValue e)) ops
  end.
Definition GetSigOpCount (s : Script) (flags : Z) (accurate : bool) : Z :=
  GetSigOpCount_loop flags accurate 0 0 (ParsedOpCodes s).

(** The redeem script is the last element the scriptSig pushes; the code indexes
    [ParsedOpCodes[len-1]] without asking whether there is one. *)
Definition GetPubKeyP2SHSigOpCount {E} (s : Script) (flags : Z) (scriptSig : Script) : res E Z :=
  if negb (has_flag flags ScriptVerifyP2SH) || negb (IsPayToScriptHash s) then
    Ok (GetSigOpCount s flags true)
  else if badOpCode scriptSig then Ok 0
  else if existsb (fun e => OP_16 <? OpValue e) (ParsedOpCodes scriptSig) then Ok 0
  else match last (ParsedOpCodes scriptSig) with
  | None => Panic
  | Some lastOps => Ok (GetSigOpCount (NewScriptRaw (Data lastOps)) flags true)
  end.

(** ** Signature and public key encodings (crypto/ecdsasignature.go, publickey.go) *)
Definition SigHashAll : Z := 1.
Definition SigHashNone : Z := 2.
Definition SigHashSingle : Z := 3.
Definition SigHashForkID : Z := 0x40.
Definition SigHashAnyoneCanpay : Z := 0x80.
Definition SigHashMask : Z := 0x1f.

(** [if c then return false]; an index past the end would be a panic. *)
Definition idx (l : bytes) (i : Z) : res ScriptErr Z :=
  match l !! Z.to_nat i with Some b => if i <? 0 then Panic else Ok b | None => Panic end.
Notation "'reject' c ;; k" := (if (c : bool) then Ok false else k)
  (at level 100, c at level 99, k at level 200, right associativity).

Definition IsValidSignatureEncoding (signs : bytes) : res ScriptErr bool :=
  let signsLen := Z.of_nat (length signs) in
  reject (signsLen <? 8) ;;
  reject (72 <? signsLen) ;;
  s0 ← idx signs 0; reject (negb (s0 =? 0x30)) ;;
  s1 ← idx signs 1; reject (negb (s1 =? signsLen - 2)) ;;
  s2 ← idx signs 2; reject (negb (s2 =? 0x02)) ;;
  lenR ← idx signs 3; reject (lenR =? 0) ;;
  s4 ← idx signs 4; reject (negb (s4 .& 0x80 =? 0)) ;;
  reject (signsLen - 7 <? lenR) ;;
  s5 ← idx signs 5; reject ((1 <? lenR) && (s4 =? 0x00) && (s5 .& 0x80 =? 0)) ;;
  let startS := lenR + 4 in
  t0 ← idx signs startS; reject (negb (t0 =? 0x02)) ;;
  lenS ← idx signs (startS + 1); reject (lenS =? 0) ;;
  t2 ← idx signs (startS + 2); reject (negb (t2 .& 0x80 =? 0)) ;;
  reject (negb (startS + lenS + 2 =? signsLen)) ;;
  if (1 <? lenS) && (t2 =? 0x00) then
    t3 ← idx signs (startS + 3); Ok (negb (t3 .& 0x80 =? 0))
  else Ok true.

Definition IsDefineHashtypeSignature (vchSig : bytes) : bool :=
  match last vchSig with
  | None => false
  | Some t =>
      let nHashType := t .& (0xff .^ (SigHashAnyoneCanpay .| SigHashForkID)) in
      negb ((nHashType <? SigHashAll) || (SigHashSingle <? nHashType))
  end.

Definition IsCompressedOrUncompressedPubKey (b : bytes) : bool :=
  if Z.of_nat (length b) <? 33 then false
  else if byte_at b 0 0x04 then Z.of_nat (length b) =? 65
  else if byte_at b 0 0x02 || byte_at b 0 0x03 then Z.of_nat (length b) =? 33
  else false.
Definition IsCompressedPubKey (b : bytes) : bool :=
  if negb (Z.of_nat (length b) =? 33) then false
  else byte_at b 0 0x02 || byte_at b 0 0x03.

Definition IsOpCodeDisabled (opCode : Z) : bool :=
  existsb (Z.eqb opCode) [OP_INVERT; OP_2MUL; OP_2DIV; OP_MUL; OP_LSHIFT; OP_RSHIFT].

Section SignatureEncoding.
(** crypto.CheckLowS, a call of libsecp256k1: the DER-parsed S is not above
    half the group order. *)
Context (CheckLowS : bytes -> bool).

Definition checkRawSignatureEncoding (vchSig : bytes) (flags : Z) : res ScriptErr unit :=
  der ← (if has_flag flags (ScriptVerifyDersig .| ScriptVerifyLowS .| ScriptVerifyStrictEnc)
         then IsValidSignatureEncoding vchSig else Ok true);
  if negb der then Err ScriptErrSigDer
  else if has_flag flags ScriptVerifyLowS && negb (CheckLowS vchSig) then Err ScriptErrSigHighs
  else Ok tt.

Definition CheckTransactionSignatureEncoding (vchSig : bytes) (flags : Z) : res ScriptErr unit :=
  match last vchSig with
  | None => Ok tt
  | Some hashType =>
      checkRawSignatureEncoding (take (length vchSig - 1) vchSig) flags;;
      if has_flag flags ScriptVerifyStrictEnc then
        if negb (IsDefineHashtypeSignature vchSig) then Err ScriptErrSigHashType
        else
          let useForkID := negb (hashType .& SigHashForkID =? 0) in
          let forkIDEnable := has_flag flags ScriptEnableSigHashForkID in
          if negb forkIDEnable && useForkID then Err ScriptErrIllegalForkID
          else if forkIDEnable && negb useForkID then Err ScriptErrMustUseForkID
          else Ok tt
      else Ok tt
  end.

Definition CheckDataSignatureEncoding (vchSig : bytes) (flags : Z) : res ScriptErr unit :=
  match vchSig with [] => Ok tt | _ => checkRawSignatureEncoding vchSig flags end.
End SignatureEncoding.

Definition CheckPubKeyEncoding (vchPubKey : bytes) (flags : Z) : res ScriptErr unit :=
  if has_flag flags ScriptVerifyStrictEnc && negb (IsCompressedOrUncompressedPubKey vchPubKey)
  then Err ScriptErrPubKeyType
  else if has_flag flags ScriptVerifyCompressedPubkeyType && negb (IsCompressedPubKey vchPubKey)
  then Err ScriptErrNonCompressedPubKey
  else Ok tt.
