(* ===== verification/ScriptFacts.v ===== *)
(** * Theorems about scripts: parsing, printing, building, classifying *)
From S2P Require Import Prelude Errors Wire ScriptNum Opcodes Script.

(** ** Well-formed opcodes: those that a parse can produce *)
Definition push_len_ok (opcode len : Z) : Prop :=
  if opcode <? OP_PUSHDATA1 then len = opcode
  else if opcode =? OP_PUSHDATA1 then 0 <= len < 256
  else if opcode =? OP_PUSHDATA2 then 0 <= len < 256 ^ 2
  else if opcode =? OP_PUSHDATA4 then 0 <= len < 256 ^ 4
  else len = 0.

Record wf_op (e : POC) : Prop := {
  wf_value : is_byte (OpValue e);
  wf_data : bytes_ok (Data e);
  wf_length : Length e = Z.of_nat (length (Data e));
  wf_push : push_len_ok (OpValue e) (Length e) }.

(** The bytes of the size field. *)
Definition size_field (opcode len : Z) : bytes :=
  if opcode =? OP_PUSHDATA1 then le_bytes 1 len
  else if opcode =? OP_PUSHDATA2 then le_bytes 2 len
  else if opcode =? OP_PUSHDATA4 then le_bytes 4 len
  else [].

Ltac opcases op :=
  unfold push_size, push_len_ok, size_field, OP_PUSHDATA1, OP_PUSHDATA2, OP_PUSHDATA4 in *;
  destruct (Z.ltb_spec op 0x4c); destruct (Z.eqb_spec op 0x4c); destruct (Z.eqb_spec op 0x4d);
  destruct (Z.eqb_spec op 0x4e); try lia.

Lemma read_size n rest v rest' : bytes_ok rest ->
  (if decide (length rest < n)%nat then None else Some (le_val (take n rest), drop n rest)) = Some (v, rest') ->
  rest = le_bytes n v ++ rest' /\ 0 <= v < 256 ^ Z.of_nat n.
Proof.
  intros Hr. case_decide as Hl; [done|]. intros [= <- <-].
  assert (length (take n rest) = n) as Hn by (rw length_take; lia).
  assert (bytes_ok (take n rest)) as Hok by by apply Forall_take.
  pose proof (le_val_bound _ Hok) as Hb. rw Hn in Hb. split; [|done].
  pose proof (le_bytes_val _ Hok) as E. rw Hn in E. by rw E take_drop.
Qed.

Lemma read_size_app n v r : 0 <= v < 256 ^ Z.of_nat n ->
  (if decide (length (le_bytes n v ++ r) < n)%nat then None
   else Some (le_val (take n (le_bytes n v ++ r)), drop n (le_bytes n v ++ r))) = Some (v, r).
Proof.
  intros Hv. rw decide_False; last (rw length_app length_le_bytes; lia).
  rw take_app_length' ?length_le_bytes // drop_app_length' ?length_le_bytes // le_val_bytes_small //.
Qed.

Lemma push_size_inv op rest n rest' : is_byte op -> bytes_ok rest -> push_size op rest = Some (n, rest') ->
  rest = size_field op n ++ rest' /\ push_len_ok op n.
Proof.
  intros Hop Hr H. opcases op; try (by apply read_size in H); by injection H as <- <-.
Qed.

Lemma push_size_app op n r : push_len_ok op n -> push_size op (size_field op n ++ r) = Some (n, r).
Proof.
  intros H. opcases op; try (by apply read_size_app); by subst.
Qed.

Lemma push_len_nonneg op n : is_byte op -> push_len_ok op n -> 0 <= n.
Proof. intros Hop H. unfold is_u in Hop. opcases op. Qed.

(** An opcode prints as its byte, its size field and its data. *)
Lemma op_bytes_wf e : wf_op e -> op_bytes e = OpValue e :: size_field (OpValue e) (Length e) ++ Data e.
Proof.
  intros [Hv Hd Hl Hp]. unfold op_bytes. cbn [app]. do 2 f_equal.
  destruct (Z.ltb_spec 0 (Length e)) as [H0|H0].
  - rw andb_true_r. destruct (Z.leb_spec (OpValue e) OP_PUSHDATA4) as [|Hgt]; [done|].
    opcases (OpValue e).
  - rw andb_false_r. destruct (Data e); [done|cbn in Hl; lia].
Qed.

(** ** Parsing and printing *)
Lemma convertRaw_app ops1 ops2 : convertRaw (ops1 ++ ops2) = convertRaw ops1 ++ convertRaw ops2.
Proof. unfold convertRaw. by rw map_app concat_app. Qed.

(** Rounds left over make no difference. *)
Lemma convertOPS_loop_fuel f1 f2 d : (length d <= f1)%nat -> (length d <= f2)%nat ->
  convertOPS_loop f1 d = convertOPS_loop f2 d.
Proof.
  revert f2 d. induction f1 as [|f1 IH]; intros [|f2] [|op rest] H1 H2; cbn in H1, H2; try lia; try done.
  cbn [convertOPS_loop]. destruct (push_size op rest) as [[n rest']|] eqn:E; [|done].
  assert (length rest' <= length rest)%nat.
  { revert E. unfold push_size. repeat case_match; intros ?; simplify_eq; rw ?length_drop; lia. }
  destruct (Z.of_nat (length rest') <? n); [done|]. by rw (IH f2) // length_drop; lia.
Qed.

(** Parsing well-formed opcodes followed by anything. *)
Lemma convertOPS_loop_app ops d fuel : Forall wf_op ops -> (length (convertRaw ops ++ d) <= fuel)%nat ->
  convertOPS_loop fuel (convertRaw ops ++ d) =
    (ops ++ (convertOPS_loop (length d) d).1, (convertOPS_loop (length d) d).2).
Proof.
  intros Hops. revert fuel. induction Hops as [|e ops He Hops IH]; intros fuel Hf.
  { cbn [convertRaw map concat app] in *. rw (convertOPS_loop_fuel fuel (length d)) //. by destruct (convertOPS_loop _ _). }
  unfold convertRaw in *. cbn [map concat] in *. rw op_bytes_wf // -app_comm_cons -!app_assoc in Hf *.
  destruct fuel as [|fuel]; [cbn in Hf; lia|]. cbn [convertOPS_loop app].
  destruct He as [Hv Hd Hl Hp]. rw -!app_assoc push_size_app // length_app.
  destruct (Z.ltb_spec (Z.of_nat (length (Data e) + length (concat (map op_bytes ops) ++ d))) (Length e)); [lia|].
  rw Hl Nat2Z.id take_app_length drop_app_length IH; last first.
  { cbn in Hf. rw !length_app in Hf. rw !length_app. lia. }
  rw -Hl. by destruct e.
Qed.

(** What was parsed is well formed and prints to what was consumed. *)
Lemma convertOPS_loop_parse fuel d ops bad : bytes_ok d -> (length d <= fuel)%nat ->
  convertOPS_loop fuel d = (ops, bad) ->
  Forall wf_op ops /\ exists rest, d = convertRaw ops ++ rest /\ (bad = false <-> rest = []).
Proof.
  revert d ops. induction fuel as [|fuel IH]; intros [|op rest] ops Hd Hf H; cbn [convertOPS_loop length] in *;
    simplify_eq; try (by split; [constructor|exists []]); [lia|].
  apply Forall_cons in Hd as [Hop Hrest].
  destruct (push_size op rest) as [[n rest']|] eqn:Hps;
    [|by simplify_eq; split; [constructor|eexists; split; [done|done]]].
  destruct (push_size_inv _ _ _ _ Hop Hrest Hps) as [-> Hp].
  pose proof (push_len_nonneg op n Hop Hp) as Hn. apply Forall_app in Hrest as [_ Hrest'].
  destruct (Z.ltb_spec (Z.of_nat (length rest')) n) as [|Hlen];
    [by simplify_eq; split; [constructor|eexists; split; [done|done]]|].
  destruct (convertOPS_loop fuel (drop (Z.to_nat n) rest')) as [ops' bad'] eqn:Hrec. simplify_eq.
  apply IH in Hrec as (Hwf & r & Hraw & Hbad); [|by apply Forall_drop|rw length_drop; rw length_app in Hf; lia].
  assert (wf_op (NewParsedOpCode op n (take (Z.to_nat n) rest'))) as He.
  { split; cbn; [done|by apply Forall_take| |done]. rw length_take. lia. }
  split; [by constructor|]. exists r. split; [|done].
  unfold convertRaw in *. cbn [map concat]. rw op_bytes_wf // /= -!app_assoc -Hraw take_drop //.
Qed.

Lemma parse_app ops d : Forall wf_op ops ->
  convertOPS (convertRaw ops ++ d) =
    mkScript (convertRaw ops ++ d) (ops ++ ParsedOpCodes (convertOPS d)) (badOpCode (convertOPS d)).
Proof.
  intros Hops. unfold convertOPS. rw convertOPS_loop_app //. by destruct (convertOPS_loop (length d) d).
Qed.

Lemma parse_print ops : Forall wf_op ops -> convertOPS (convertRaw ops) = NewScriptOps ops.
Proof. intros Hops. pose proof (parse_app ops [] Hops) as H. rw !app_nil_r in H. exact H. Qed.

Lemma parse_inv d : bytes_ok d -> Forall wf_op (ParsedOpCodes (convertOPS d)) /\
  exists rest, d = convertRaw (ParsedOpCodes (convertOPS d)) ++ rest /\ (badOpCode (convertOPS d) = false <-> rest = []).
Proof.
  intros Hd. unfold convertOPS. destruct (convertOPS_loop (length d) d) as [ops bad] eqn:E.
  by apply (convertOPS_loop_parse (length d)).
Qed.

Lemma data_convertOPS d : data (convertOPS d) = d.
Proof. unfold convertOPS. by destruct (convertOPS_loop _ _). Qed.

(** ** Builders *)
Definition push_opcode (dataLen : Z) : Z :=
  if dataLen <? OP_PUSHDATA1 then dataLen
  else if dataLen <=? 0xff then OP_PUSHDATA1
  else if dataLen <=? 0xffff then OP_PUSHDATA2
  else OP_PUSHDATA4.
Definition push_op (d : bytes) : POC :=
  NewParsedOpCode (push_opcode (Z.of_nat (length d))) (Z.of_nat (length d)) d.

Ltac push_cases n :=
  unfold push_prefix, push_opcode, size_field, push_len_ok, CheckCompactDataPush, OP_PUSHDATA1, OP_PUSHDATA2, OP_PUSHDATA4 in *;
  destruct (Z.ltb_spec n 0x4c); [|destruct (Z.leb_spec n 0xff); [|destruct (Z.leb_spec n 0xffff)]].

Lemma push_op_wf d : bytes_ok d -> Z.of_nat (length d) < 2 ^ 32 -> wf_op (push_op d).
Proof.
  intros Hd Hl. unfold push_op. set (n := Z.of_nat (length d)) in *. assert (0 <= n) by lia.
  split; cbn; [|done|done|]; clearbody n; push_cases n; try (int_lia); cbn; try lia.
  repeat case_match; lia.
Qed.

Lemma push_op_bytes d : bytes_ok d -> Z.of_nat (length d) < 2 ^ 32 -> push_single d = op_bytes (push_op d).
Proof.
  intros Hd Hl. rw op_bytes_wf; last by apply push_op_wf. unfold push_single, push_op. cbn.
  set (n := Z.of_nat (length d)) in *. assert (0 <= n) by lia. clearbody n.
  push_cases n; cbn; rw ?u8_id //; try int_lia.
  - repeat case_match; done || lia.
  - by rw Z.mod_small; [|lia].
Qed.

Lemma push_op_compact d : CheckCompactDataPush (OpValue (push_op d)) d = true.
Proof.
  unfold push_op. cbn. set (n := Z.of_nat (length d)). assert (0 <= n) by lia.
  unfold CheckCompactDataPush. fold n. clearbody n. push_cases n; repeat case_match; lia.
Qed.

(** Appending the bytes of an opcode to a script that parses adds that opcode. *)
Lemma PushData_op ops e d : Forall wf_op ops -> wf_op e -> op_bytes e = d ->
  PushData (NewScriptOps ops) d = NewScriptOps (ops ++ [e]).
Proof.
  intros Hops He <-. unfold PushData. cbn [data NewScriptOps].
  rw -(parse_print (ops ++ _)); last by rw Forall_app Forall_singleton.
  rw convertRaw_app. unfold convertRaw at 3. cbn [map concat]. by rw app_nil_r.
Qed.

Lemma PushSingleData_wf ops d : Forall wf_op ops -> bytes_ok d -> Z.of_nat (length d) < 2 ^ 32 ->
  PushSingleData (NewScriptOps ops) d = NewScriptOps (ops ++ [push_op d]).
Proof. intros Hops Hd Hl. apply PushData_op; [done|by apply push_op_wf|by rw push_op_bytes]. Qed.

(** The number an opcode pushes. *)
Definition op_number (e : POC) : Z :=
  if OP_1NEGATE <=? OpValue e then OpValue e - (OP_1 - 1) else sn_val (Data e).

Lemma small_op_wf n : n = -1 \/ 1 <= n <= 16 -> wf_op (NewParsedOpCode (n + (OP_1 - 1)) 0 []).
Proof.
  unfold OP_1. intros Hn. split; cbn; [int_lia|constructor|done|]. unfold push_len_ok, OP_PUSHDATA1, OP_PUSHDATA2, OP_PUSHDATA4.
  repeat case_match; lia.
Qed.

(** A multi-byte or out-of-range number never needs one of the short opcodes. *)
Lemma push_op_minimal d n : encodes d n -> ~ (-1 <= n <= 16) ->
  CheckMinimalDataPush (OpValue (push_op d)) d = true.
Proof.
  intros He Hn. pose proof (push_op_compact d) as Hc. destruct d as [|b [|b' d]]; [|..|exact Hc].
  - destruct He as [_ Hv _]. cbn in Hv. lia.
  - destruct He as [Hok Hv _]. apply Forall_cons in Hok as [Hb _]. assert (0 <= b < 256) by exact Hb.
    rw (sn_val_snoc [] b) /sn_signed /sn_abs in Hv. cbn [length le_val] in Hv.
    cbn. destruct (Z.leb_spec 1 b), (Z.leb_spec b 16); cbn; destruct (Z.eqb_spec b 0x81); try done;
      (destruct (Z.leb_spec 128 b); [|rw Z.mod_small in Hv; lia]); 
      try lia.
    subst b. vm_compute in Hv. lia.
Qed.

Lemma PushInt64_wf ops n : Forall wf_op ops -> is_i 64 n -> n <> - 2 ^ 63 ->
  exists e, PushInt64 (NewScriptOps ops) n = Ok (NewScriptOps (ops ++ [e])) /\ wf_op e /\ op_number e = n /\
    (OpValue e <= OP_PUSHDATA4 -> CheckMinimalDataPush (OpValue e) (Data e) = true).
Proof.
  intros Hops Hn Hmin. unfold PushInt64.
  destruct (Z.leb_spec (-1) n) as [H1|H1], (Z.leb_spec n 16) as [H2|H2]; cbn [andb].
  1: destruct (Z.eqb_spec n 0) as [->|Hn0].
  { exists (push_op []). assert (wf_op (push_op [])) by (apply push_op_wf; done).
    split; [|done]. f_equal. by apply PushData_op. }
  { exists (NewParsedOpCode (n + (OP_1 - 1)) 0 []). pose proof (small_op_wf n ltac:(lia)) as Hwf. split; [|split; [done|split]].
    - f_equal. apply PushData_op; [done..|]. rw op_bytes_wf //. unfold size_field. cbn [OpValue Data].
      unfold OP_1, OP_PUSHDATA1, OP_PUSHDATA2, OP_PUSHDATA4 in *. rw u8_id; [|int_lia].
      repeat case_match; done || lia.
    - unfold op_number, OP_1NEGATE, OP_1. cbn [OpValue]. case_match; lia.
    - cbn [OpValue]. unfold OP_1, OP_PUSHDATA4. lia. }
  all: destruct (Serialize_spec n Hn Hmin) as (bs & Hs & He); exists (push_op bs);
    assert (length bs <= 8)%nat as Hl by (apply (encodes_length bs n 8 He); [lia|];
      change (128 * 256 ^ (Z.of_nat 8 - 1)) with (2 ^ 63); int_lia);
    pose proof (enc_ok _ _ He) as Hok; unfold PushScriptNum; rw Hs;
    (split; [by cbn; rw PushSingleData_wf //; lia|]; split; [apply push_op_wf; [done|lia]|]; split;
      [|by intros _; apply (push_op_minimal bs n); [done|lia]]);
    unfold op_number, push_op, push_opcode, OP_1NEGATE, OP_PUSHDATA1; cbn [OpValue Data];
    (destruct (Z.ltb_spec (Z.of_nat (length bs)) 0x4c); [|lia]);
    (destruct (Z.leb_spec 0x4f (Z.of_nat (length bs))); [lia|]); apply He.
Qed.

(** ** Strict DER signatures *)

(** A positive big-endian integer without superfluous padding. *)
Definition der_int (l : bytes) : bool :=
  match l with
  | [] => false
  | [a] => a <? 128
  | a :: b :: _ => (a <? 128) && (negb (a =? 0) || (128 <=? b))
  end.

(** The grammar the comment of IsValidSignatureEncoding describes. *)
Definition der_signature (signs : bytes) : Prop :=
  exists R S, der_int R = true /\ der_int S = true /\
    signs = [0x30; Z.of_nat (length R + length S) + 4; 0x02; Z.of_nat (length R)] ++ R
            ++ [0x02; Z.of_nat (length S)] ++ S /\
    (length signs <= 72)%nat.

Lemma idx_Some l i b : 0 <= i -> l !! Z.to_nat i = Some b -> idx l i = Ok b.
Proof. intros Hi H. unfold idx. rw H. by destruct (Z.ltb_spec i 0); [lia|]. Qed.

Lemma byte_sign_clear b : is_byte b -> (b .& 0x80 =? 0) = (b <? 128).
Proof.
  intros Hb. pose proof (byte_sign b Hb). destruct (b .& 0x80 =? 0); cbn in *; symmetry;
    [apply Z.ltb_lt; symmetry in H; apply Z.leb_gt in H; lia|apply Z.ltb_ge; symmetry in H; apply Z.leb_le in H; lia].
Qed.

Lemma bind_Ok {E A B} (a : A) (f : A -> res E B) : Ok a ≫= f = f a.
Proof. done. Qed.

(** The padding test of the code is the one of the grammar. *)
Lemma der_int_test a l x : is_byte a -> is_byte x -> (forall b l', l = b :: l' -> x = b) ->
  der_int (a :: l) = negb (negb (a .& 0x80 =? 0)) &&
    negb ((1 <? Z.of_nat (length (a :: l))) && (a =? 0x00) && (x .& 0x80 =? 0)).
Proof.
  intros Ha Hx Hl. rw !byte_sign_clear // negb_involutive. destruct l as [|b l].
  - by rw /= andb_true_r.
  - rw (Hl b l eq_refl). cbn [der_int length]. destruct (Z.ltb_spec 1 (Z.of_nat (S (S (length l))))); [|lia].
    rw andb_true_l negb_andb. destruct (Z.leb_spec 128 b), (Z.ltb_spec b 128); done || lia.
Qed.

(** The function on a byte string cut at the places its length bytes name. *)
Lemma sig_encoding_cut a0 a1 a2 r0 R t0 lenS s0 S signs :
  signs = [a0; a1; a2; Z.of_nat (length (r0 :: R))] ++ (r0 :: R) ++ [t0; lenS] ++ (s0 :: S) ->
  bytes_ok signs ->
  IsValidSignatureEncoding signs = Ok (
    negb (Z.of_nat (length signs) <? 8) && negb (72 <? Z.of_nat (length signs)) && (a0 =? 0x30)
    && (a1 =? Z.of_nat (length signs) - 2) && (a2 =? 2)
    && der_int (r0 :: R) && (t0 =? 2) && (lenS =? Z.of_nat (length (s0 :: S))) && der_int (s0 :: S)).
Proof.
  intros Hs Hok. remember (Z.of_nat (length (r0 :: R))) as lenR eqn:HlenR. cbn [length] in HlenR.
  assert (forall k x, ([t0; lenS] ++ s0 :: S) !! k = Some x -> idx signs (lenR + 4 + Z.of_nat k) = Ok x) as Htail.
  { intros k x Hx. apply idx_Some; [lia|]. rw Hs app_assoc lookup_app_r; last (rw length_app /=; lia).
    rw length_app. cbn [length]. replace (Z.to_nat _ - _)%nat with k by lia. exact Hx. }
  assert (Z.of_nat (length signs) = lenR + 6 + Z.of_nat (length (s0 :: S))) as Hlen.
  { rw Hs !length_app /=. lia. }
  assert (exists x, idx signs 5 = Ok x /\ is_byte x /\ (forall b l', R = b :: l' -> x = b)) as (s5 & H5 & Hs5 & Hr).
  { assert (idx signs 5 = Ok (match R with b :: _ => b | [] => t0 end)) as H5 by (apply idx_Some; [lia|by rw Hs; destruct R]).
    eexists. split; [exact H5|]. split; [|by intros b l' ->].
    rw Hs !Forall_app !Forall_cons in Hok. destruct R; [tauto|]. rw Forall_cons in Hok; tauto. }
  assert (is_byte r0 /\ is_byte s0 /\ bytes_ok S) as (Hr0 & Hs0 & HS).
  { rw Hs !Forall_app !Forall_cons in Hok. tauto. }
  unfold IsValidSignatureEncoding.
  assert (idx signs 0 = Ok a0 /\ idx signs 1 = Ok a1 /\ idx signs 2 = Ok a2 /\ idx signs 3 = Ok lenR /\ idx signs 4 = Ok r0)
    as (-> & -> & -> & -> & ->) by (by rw Hs).
  rw !bind_Ok H5 bind_Ok (Htail 1%nat lenS) // (Htail 2%nat s0) // !bind_Ok.
  rw -{3}(Z.add_0_r (lenR + 4)) (Htail 0%nat t0) // bind_Ok.
  set (x := match S with b :: _ => b | [] => 0 end).
  assert (is_byte x /\ (forall b l', S = b :: l' -> x = b)) as [Hx Hx'].
  { unfold x. destruct S; [by split|]. apply Forall_cons in HS as [? ?]. split; [done|]. by intros ? ? [= -> ->]. }
  rw (der_int_test r0 R s5) // (der_int_test s0 S x) //. cbn [length] in *. rw -HlenR.
  destruct (Z.eqb_spec lenR 0); [lia|].
  destruct (Z.ltb_spec (Z.of_nat (length signs) - 7) lenR); [lia|].
  destruct (Z.of_nat (length signs) <? 8), (72 <? Z.of_nat (length signs)), (a0 =? 48),
    (a1 =? Z.of_nat (length signs) - 2), (a2 =? 2), (r0 .& 128 =? 0), (t0 =? 2);
    cbn [negb andb]; rw ?andb_false_r; try done; (destruct ((1 <? lenR) && (r0 =? 0) && (s5 .& 128 =? 0)); [done|]);
    cbn [negb andb]; try done.
  destruct (Z.eqb_spec lenS 0) as [->|]; [by destruct (Z.eqb_spec 0 (Z.of_nat (Datatypes.S (length S)))); [lia|]|].
  destruct (Z.eqb_spec (lenR + 4 + lenS + 2) (Z.of_nat (length signs))),
    (Z.eqb_spec lenS (Z.of_nat (Datatypes.S (length S)))); try lia; [|by destruct (s0 .& 128 =? 0)].
  destruct (s0 .& 128 =? 0); cbn [negb andb]; [|done]. subst lenS.
  destruct ((1 <? Z.of_nat (Datatypes.S (length S))) && (s0 =? 0)) eqn:E; [|done].
  destruct S as [|b S]; [done|]. rw (Htail 3%nat b) //.
Qed.

(** Long enough signatures whose R length leaves room for S can be cut. *)
Lemma sig_cut signs : (8 <= length signs)%nat -> forall lenR, signs !! 3%nat = Some lenR ->
  1 <= lenR -> lenR <= Z.of_nat (length signs) - 7 ->
  exists a0 a1 a2 r0 R t0 lenS s0 S, lenR = Z.of_nat (length (r0 :: R)) /\
    signs = [a0; a1; a2; lenR] ++ (r0 :: R) ++ [t0; lenS] ++ (s0 :: S).
Proof.
  intros Hlen lenR H3 H1 H7. destruct signs as [|a0 [|a1 [|a2 [|l tl]]]]; cbn in Hlen; try lia.
  cbn in H3. injection H3 as ->. cbn [length] in *. exists a0, a1, a2.
  assert (length (take (Z.to_nat lenR) tl) = Z.to_nat lenR) as HR by (rw length_take; lia).
  assert (3 <= length (drop (Z.to_nat lenR) tl))%nat as HS by (rw length_drop; lia).
  rw -{1}(take_drop (Z.to_nat lenR) tl). destruct (take (Z.to_nat lenR) tl) as [|r0 R]; [cbn in HR; lia|].
  destruct (drop (Z.to_nat lenR) tl) as [|t0 [|lenS [|s0 S]]]; cbn in HS; try lia.
  exists r0, R, t0, lenS, s0, S. split; [cbn in HR; lia|done].
Qed.

Lemma sig_encoding_spec signs : bytes_ok signs ->
  exists b, IsValidSignatureEncoding signs = Ok b /\ (b = true <-> der_signature signs).
Proof.
  intros Hok. destruct (decide (8 <= length signs)%nat) as [H8|H8]; last first.
  { exists false. split; [unfold IsValidSignatureEncoding; by destruct (Z.ltb_spec (Z.of_nat (length signs)) 8); [|lia]|].
    split; [done|]. intros (R & S & HR & HS & -> & _). rw !length_app /= in H8.
    destruct R, S; try done; cbn in H8; lia. }
  destruct (lookup_lt_is_Some_2 signs 3) as [lenR H3]; [lia|].
  destruct (decide (1 <= lenR /\ lenR <= Z.of_nat (length signs) - 7)) as [[H1 H7]|Hno]; last first.
  { assert (~ der_signature signs) as Hnd.
    { intros (R & S & HR & HS & -> & _). cbn in H3. injection H3 as <-. rw !length_app /= in Hno.
      destruct R, S; try done; cbn in *; lia. }
    exists false. split; [|by split; [|intros]].
    pose proof (Forall_lookup_1 _ _ _ _ Hok H3) as Hb3. unfold is_u in Hb3.
    destruct signs as [|a0 [|a1 [|a2 [|l [|a4 tl]]]]]; try (cbn in H8; lia). cbn in H3. injection H3 as ->.
    set (signs := a0 :: a1 :: a2 :: lenR :: a4 :: tl) in *.
    assert (idx signs 0 = Ok a0 /\ idx signs 1 = Ok a1 /\ idx signs 2 = Ok a2 /\ idx signs 3 = Ok lenR /\ idx signs 4 = Ok a4)
      as (I0 & I1 & I2 & I3 & I4) by done.
    unfold IsValidSignatureEncoding. rw I0 I1 I2 I3 I4 !bind_Ok.
    do 8 (case_match; [done|]). lia. }
  destruct (sig_cut signs H8 lenR H3 H1 H7) as (a0 & a1 & a2 & r0 & R & t0 & lenS & s0 & S & -> & Hs).
  eexists. split; [by apply (sig_encoding_cut a0 a1 a2 r0 R t0 lenS s0 S)|].
  assert (length signs = 8 + length R + length S)%nat as Hl by (rw Hs !length_app /=; lia). split.
  - rw !andb_true_iff !negb_true_iff !Z.eqb_eq !Z.ltb_ge. intros [[[[[[[[? ?] ->] ->] ->] ?] ->] ->] ?].
    exists (r0 :: R), (s0 :: S). do 2 (split; [done|]). split; [|lia]. rw {1}Hs. do 2 f_equal.
    rw Hl. cbn [length]. f_equal. lia.
  - intros (R' & S' & HR & HS & Heq & H72). rw Hs in Heq. cbn in Heq. injection Heq as -> -> -> HlR HRS.
    assert (r0 :: R = R' /\ [t0; lenS] ++ s0 :: S = [2; Z.of_nat (length S')] ++ S') as [HR' Htl].
    { apply app_inj_1; [cbn; lia|exact HRS]. }
    injection Htl as -> -> <-. subst R'. rw !andb_true_iff !negb_true_iff !Z.eqb_eq !Z.ltb_ge Hl.
    cbn [length]. repeat split; try done; lia.
Qed.

(** ** Counting signature operations *)
Lemma sigops_of_bounds flags last op :
  0 <= sigops_of flags true last op <= sigops_of flags false last op /\
  sigops_of flags false last op <= MaxPubKeysPerMultiSig.
Proof.
  unfold sigops_of, DecodeOPN, MaxPubKeysPerMultiSig, OP_1, OP_16, OP_0. cbn [andb].
  repeat case_match; lia.
Qed.

Lemma GetSigOpCount_loop_bounds flags ops : forall last n1 n2, 0 <= n1 <= n2 ->
  0 <= GetSigOpCount_loop flags true last n1 ops <= GetSigOpCount_loop flags false last n2 ops /\
  GetSigOpCount_loop flags false last n2 ops <= n2 + MaxPubKeysPerMultiSig * Z.of_nat (length ops).
Proof.
  induction ops as [|e ops IH]; intros last n1 n2 Hn; cbn [GetSigOpCount_loop length]; [lia|].
  pose proof (sigops_of_bounds flags last (OpValue e)). destruct (IH (OpValue e)
    (n1 + sigops_of flags true last (OpValue e)) (n2 + sigops_of flags false last (OpValue e))); [lia|].
  unfold MaxPubKeysPerMultiSig in *. lia.
Qed.

(** ** Properties *)

(** C38. Parsing and printing scripts are inverse: a byte string parses without
    error into [ops] exactly when [ops] are well-formed opcodes (each push has
    the length its opcode or size field says) whose concatenated bytes are the
    string.  A string that does not parse still yields the well-formed opcodes
    of a proper prefix of it. *)
Theorem Script_parse_print (d : bytes) (Hd : bytes_ok d) :
  (forall ops, NewScriptRaw d = mkScript d ops false <-> Forall wf_op ops /\ convertRaw ops = d) /\
  (badOpCode (NewScriptRaw d) = true ->
   exists rest, rest <> [] /\ d = convertRaw (ParsedOpCodes (NewScriptRaw d)) ++ rest /\
     Forall wf_op (ParsedOpCodes (NewScriptRaw d))).
Proof.
  destruct (parse_inv d Hd) as (Hwf & rest & Hrest & Hbad). unfold NewScriptRaw. split.
  - intros ops. split.
    + intros E. rw E in Hwf Hrest Hbad. cbn in *. split; [done|].
      assert (rest = []) as -> by by apply Hbad. by rw app_nil_r in Hrest.
    + intros [Hops <-]. by rw parse_print.
  - intros Hb. exists rest. split; [|done]. intros ->. rw (proj2 Hbad eq_refl) // in Hb.
Qed.

Lemma Script_parse_print_witness :
  NewScriptRaw [0x76; 0x02; 7; 8] =
    mkScript [0x76; 0x02; 7; 8] [NewParsedOpCode OP_DUP 0 []; NewParsedOpCode 2 2 [7; 8]] false /\
  convertRaw [NewParsedOpCode OP_DUP 0 []; NewParsedOpCode 2 2 [7; 8]] = [0x76; 0x02; 7; 8].
Proof.
  assert (bytes_ok [0x76; 0x02; 7; 8]) as H by (repeat constructor; vm_compute; congruence).
  split; [reflexivity|]. exact (proj2 (proj1 (proj1 (Script_parse_print _ H) _) eq_refl)).
Defined.

(** Building scripts: on a script of well-formed opcodes, [PushSingleData]
    adds one opcode that pushes exactly the data with the shortest push opcode,
    and [PushInt64] adds one opcode that pushes exactly the number, in a form the
    minimal-push rule accepts; what was in the script before is unchanged. *)
Theorem Script_push (ops : list POC) (d : bytes) (n : Z)
    (Hops : Forall wf_op ops) (Hd : bytes_ok d) (Hlen : Z.of_nat (length d) < 2 ^ 32)
    (Hn : is_i 64 n) (Hmin : n <> - 2 ^ 63) :
  (exists e, PushSingleData (NewScriptOps ops) d = NewScriptOps (ops ++ [e]) /\
     wf_op e /\ Data e = d /\ OpValue e <= OP_PUSHDATA4 /\ CheckCompactDataPush (OpValue e) d = true) /\
  (exists e, PushInt64 (NewScriptOps ops) n = Ok (NewScriptOps (ops ++ [e])) /\
     wf_op e /\ op_number e = n /\
     (OpValue e <= OP_PUSHDATA4 -> CheckMinimalDataPush (OpValue e) (Data e) = true)).
Proof.
  split; [|by apply PushInt64_wf]. exists (push_op d). split; [by apply PushSingleData_wf|].
  split; [by apply push_op_wf|]. split; [done|]. split; [|apply push_op_compact].
  cbn. unfold push_opcode, OP_PUSHDATA1, OP_PUSHDATA2, OP_PUSHDATA4. repeat case_match; lia.
Qed.

Lemma Script_push_witness :
  PushSingleData NewEmptyScript [7; 8] = NewScriptOps [NewParsedOpCode 2 2 [7; 8]] /\
  PushInt64 NewEmptyScript 300 = Ok (NewScriptOps [NewParsedOpCode 2 2 [44; 1]]) /\
  exists e, PushInt64 (NewScriptOps []) 16 = Ok (NewScriptOps ([] ++ [e])) /\ wf_op e /\ op_number e = 16.
Proof.
  split; [reflexivity|]. split; [reflexivity|].
  destruct (Script_push [] [7; 8] 16) as [_ (e & H1 & H2 & H3 & _)].
  - constructor.
  - repeat constructor; vm_compute; congruence.
  - vm_compute. reflexivity.
  - split; vm_compute; congruence.
  - vm_compute. congruence.
  - exists e. split; [exact H1|]. split; [exact H2|exact H3].
Defined.

(** C37. [IsValidSignatureEncoding] decides the strict DER grammar its comment
    gives: on every byte string it returns (no index it uses is out of range)
    and says true exactly for [0x30 len 0x02 lenR R 0x02 lenS S] of at most 72
    bytes whose length bytes are right and whose R and S are non-negative and
    not padded. *)
Theorem IsValidSignatureEncoding_DER (signs : bytes) (Hok : bytes_ok signs) :
  exists b, IsValidSignatureEncoding signs = Ok b /\ (b = true <-> der_signature signs).
Proof. by apply sig_encoding_spec. Qed.

Lemma IsValidSignatureEncoding_DER_witness :
  IsValidSignatureEncoding [0x30; 7; 2; 2; 0; 0x81; 2; 1; 5] = Ok true /\
  der_signature [0x30; 7; 2; 2; 0; 0x81; 2; 1; 5].
Proof.
  split; [reflexivity|].
  destruct (IsValidSignatureEncoding_DER [0x30; 7; 2; 2; 0; 0x81; 2; 1; 5]) as (b & Hb & Hiff).
  - repeat constructor; vm_compute; congruence.
  - apply Hiff. assert (Ok b = Ok true :> res ScriptErr bool) as E by (rw -Hb; reflexivity).
    by injection E.
Defined.

(** Counting signature operations: with [accurate] the count is never above
    the pessimistic one, which is at most 20 per opcode; both are never negative. *)
Theorem GetSigOpCount_bounds (s : Script) (flags : Z) :
  0 <= GetSigOpCount s flags true <= GetSigOpCount s flags false /\
  GetSigOpCount s flags false <= MaxPubKeysPerMultiSig * Z.of_nat (length (ParsedOpCodes s)).
Proof.
  unfold GetSigOpCount. pose proof (GetSigOpCount_loop_bounds flags (ParsedOpCodes s) 0 0 0). lia.
Qed.

(** Counting the signature operations of a pay-to-script-hash output panics
    when the scriptSig that spends it has no opcode at all: the redeem script is
    taken from [ParsedOpCodes[len-1]] without checking that there is one. *)
Theorem P2SHSigOpCount_empty_scriptSig (s : Script) (flags : Z)
    (Hp : IsPayToScriptHash s = true) (Hf : has_flag flags ScriptVerifyP2SH = true) :
  GetPubKeyP2SHSigOpCount (E := ScriptErr) s flags NewEmptyScript = Panic.
Proof. unfold GetPubKeyP2SHSigOpCount. by rw Hp Hf. Qed.

Lemma P2SHSigOpCount_empty_scriptSig_witness :
  GetPubKeyP2SHSigOpCount (E := ScriptErr) (NewScriptRaw ([OP_HASH160; 0x14] ++ replicate 20 1 ++ [OP_EQUAL]))
    ScriptVerifyP2SH NewEmptyScript = Panic.
Proof. apply P2SHSigOpCount_empty_scriptSig; reflexivity. Defined.
