(* ===== verification/Tx.v ===== *)
(** * Transactions (model/tx, model/txin, model/txout, model/outpoint)

    The transaction records with their wire encodings, the context-free checks
    ([CheckRegularTransaction], [CheckCoinbaseTransaction]), finality, the
    standardness policy, and the digest a signature commits to
    ([SignatureHash]).  A [*script.Script] that may be nil is an [option]. *)
From S2P Require Import Prelude Errors Wire Opcodes Script.

(** ** Errors: a reject code with its reason, as errcode.NewError builds them; the
    two that report the error of a script carry it, and an error made by
    fmt.Errorf has no code *)
Inductive TxErr :=
| RejectInvalid (reason : string)
| RejectNonstandard (reason : string)
| TxErrInvalidIndexOfIn
| MandatoryScriptVerify (e : ScriptErr)
| NonMandatoryScriptVerify (e : ScriptErr)
| PlainError (text : string).
#[export] Instance TxErr_eq_dec : EqDecision TxErr.
Proof. solve_decision. Defined.

(** ** Amounts (util/amount/amount.go, util/feeRate.go) *)
Definition COIN : Z := 100000000.
Definition MaxMoney : Z := 21000000 * COIN.
Definition MoneyRange (value : Z) : bool := (0 <=? value) && (value <=? MaxMoney).

(** The fee of [n] bytes at a rate per 1000 bytes: int64 product, truncated division. *)
Definition GetFee (SataoshisPerK n : Z) : Z :=
  let fee := Z.quot (i64 (SataoshisPerK * n)) 1000 in
  if (fee =? 0) && negb (n =? 0) then
    if 0 <? SataoshisPerK then 1 else if SataoshisPerK <? 0 then -1 else fee
  else fee.

(** ** Outpoints *)
Definition HashZero : bytes := replicate 32 0.
Definition HashOne : bytes := 1 :: replicate 31 0.

Record OutPoint := mkOutPoint { Hash : bytes; Index : Z }.
#[export] Instance OutPoint_eq_dec : EqDecision OutPoint.
Proof. solve_decision. Defined.
#[export] Instance OutPoint_countable : Countable OutPoint.
Proof.
  refine (inj_countable' (fun o => (Hash o, Index o)) (fun p => mkOutPoint p.1 p.2) _).
  by intros [].
Defined.

Definition NewDefaultOutPoint : OutPoint := mkOutPoint HashZero 0xffffffff.
Definition OutPoint_IsNull (o : OutPoint) : bool :=
  if negb (Index o =? 0xffffffff) then false else bool_decide (Hash o = HashZero).
Definition OutPoint_EncodeSize : Z := 32 + 4.
Definition OutPoint_Encode (o : OutPoint) : bytes := Hash o ++ PutUint32 (Index o).
Definition OutPoint_Decode : rd werr OutPoint :=
  h ← ReadFull 32; i ← Uint32; mret (mkOutPoint h i).
(** The database form: the index as a base-128 integer. *)
Definition OutPoint_Serialize (o : OutPoint) : res werr bytes :=
  i ← WriteVarLenInt (Index o); Ok (Hash o ++ i).
Definition OutPoint_Unserialize : rd werr OutPoint :=
  h ← ReadFull 32; n ← ReadVarLenInt; mret (mkOutPoint h (u32 n)).

(** ** Inputs *)
Record TxIn := mkTxIn { PreviousOutPoint : OutPoint; scriptSig : Script; Sequence : Z }.

Definition NewTxIn (prev : option OutPoint) (s : Script) (sequence : Z) : TxIn :=
  mkTxIn (default (mkOutPoint HashZero 0xffffffff) prev) s sequence.
Definition TxIn_EncodeSize (i : TxIn) : Z := u32 (OutPoint_EncodeSize + EncodeSize (scriptSig i) + 4).
Definition TxIn_Encode (i : TxIn) : bytes :=
  OutPoint_Encode (PreviousOutPoint i) ++ Encode (scriptSig i) ++ PutUint32 (Sequence i).
(** The script is left unparsed when the index or the hash is the coinbase's. *)
Definition TxIn_Decode : rd werr TxIn :=
  o ← OutPoint_Decode;
  let bCoinBase := (Index o =? 0xffffffff) || bool_decide (Hash o = HashZero) in
  s ← Decode bCoinBase;
  q ← Uint32;
  mret (mkTxIn o s q).

(** ** Outputs *)
Record TxOut := mkTxOut { value : Z; scriptPubKey : option Script }.

Definition NewTxOut (v : Z) (s : option Script) : TxOut :=
  mkTxOut v ((fun s => NewScriptRaw (data s)) <$> s).
(** A method called through a nil script pointer panics. *)
Definition deref {E A} (p : option A) : res E A := match p with Some a => Ok a | None => Panic end.

Definition TxOut_EncodeSize {E} (o : TxOut) : res E Z :=
  s ← deref (scriptPubKey o); Ok (u32 (8 + EncodeSize s)).
Definition TxOut_Encode (o : TxOut) : bytes :=
  PutUint64 (u64 (value o)) ++
  match scriptPubKey o with None => WriteVarInt 0 | Some s => Encode s end.
Definition TxOut_Decode : rd werr TxOut :=
  v ← Uint64;
  b ← ReadScript MaxMessagePayload;
  mret (mkTxOut (i64 v) (Some (NewScriptRaw b))).

Definition GetDustThreshold {E} (o : TxOut) (SataoshisPerK : Z) : res E Z :=
  s ← deref (scriptPubKey o);
  if IsUnspendable s then Ok 0
  else size ← TxOut_EncodeSize o;
       Ok (i64 (3 * GetFee SataoshisPerK (u32 (size + 148)))).
Definition IsDust {E} (o : TxOut) (SataoshisPerK : Z) : res E bool :=
  t ← GetDustThreshold o SataoshisPerK; Ok (value o <? t).
Definition CheckValue (o : TxOut) : res TxErr unit :=
  if value o <? 0 then Err (RejectInvalid "bad-txns-vout-negative")
  else if MaxMoney <? value o then Err (RejectInvalid "bad-txns-vout-toolarge")
  else Ok tt.
Definition TxOut_IsSpendable (o : TxOut) : bool :=
  match scriptPubKey o with None => false | Some s => IsSpendable s end.
Definition SetNull (o : TxOut) : TxOut := mkTxOut (-1) None.
Definition TxOut_IsNull (o : TxOut) : bool := value o =? -1.
Definition TxOut_IsEqual {E} (o out : TxOut) : res E bool :=
  if negb (value o =? value out) then Ok false
  else s ← deref (scriptPubKey o); s' ← deref (scriptPubKey out);
       Ok (bool_decide (data s = data s')).

(** The policy switches of the configuration the checks read. *)
Record Policy := {
  AcceptDataCarrier : bool;
  MaxDatacarrierBytes : Z;
  IsBareMultiSigStd : bool;
  DustRelayFee : Z }.

Definition TxOut_IsStandard {E} (cfg : Policy) (o : TxOut) : res E (ScriptType * bool) :=
  s ← deref (scriptPubKey o);
  '(pubKeyType, pubKeys, isStandard) ← IsStandardScriptPubKey s;
  if negb isStandard then Ok (pubKeyType, false)
  else if decide (pubKeyType = ScriptMultiSig) then
    k0 ← nth_go pubKeys 0; opM ← nth_go k0 0;
    kn ← nth_go pubKeys (Z.of_nat (length pubKeys) - 1); opN ← nth_go kn 0;
    if (opN <? 1) || (3 <? opN) || (opM <? 1) || (opN <? opM) then Ok (pubKeyType, false)
    else Ok (pubKeyType, true)
  else if decide (pubKeyType = ScriptNullData) then
    if negb (AcceptDataCarrier cfg) || (MaxDatacarrierBytes cfg <? Size s) then Ok (pubKeyType, false)
    else Ok (pubKeyType, true)
  else Ok (pubKeyType, true).

(** ** Transactions; [hash] caches the transaction id, all zero when not computed *)
Record Tx := mkTx {
  hash : bytes;
  lockTime : Z;
  version : Z;
  ins : list TxIn;
  outs : list TxOut }.

Definition NewTx (locktime v : Z) : Tx := mkTx HashZero locktime v [] [].
Definition NewEmptyTx : Tx := mkTx HashZero 0 0 [] [].

Definition AddTxIn (t : Tx) (i : TxIn) : Tx :=
  mkTx (hash t) (lockTime t) (version t) (ins t ++ [i]) (outs t).
Definition AddTxOut (t : Tx) (o : TxOut) : Tx :=
  mkTx (hash t) (lockTime t) (version t) (ins t) (outs t ++ [o]).
Definition set_outs (t : Tx) (os : list TxOut) : Tx :=
  mkTx (hash t) (lockTime t) (version t) (ins t) os.
Definition InsertTxOut {E} (t : Tx) (pos : Z) (o : TxOut) : res E Tx :=
  if Z.of_nat (length (outs t)) <? pos then Ok (set_outs t (outs t ++ [o]))
  else if pos <? 0 then Panic
  else let n := Z.to_nat pos in Ok (set_outs t (take n (outs t) ++ [o] ++ drop n (outs t))).
Definition GetTxOut (t : Tx) (index : Z) : option TxOut :=
  if (index <? 0) || (Z.of_nat (length (outs t)) <=? index) then None
  else outs t !! Z.to_nat index.
Definition GetTxIn (t : Tx) (index : Z) : option TxIn :=
  if (index <? 0) || (Z.of_nat (length (ins t)) <=? index) then None
  else ins t !! Z.to_nat index.
Definition GetAllPreviousOut (t : Tx) : list OutPoint := map PreviousOutPoint (ins t).
Definition PrevoutHashs (t : Tx) : list bytes := map (fun i => Hash (PreviousOutPoint i)) (ins t).
Definition AnyInputTxIn (t : Tx) (container : option (gset bytes)) : bool :=
  match container with
  | None => false
  | Some c => existsb (fun i => bool_decide (Hash (PreviousOutPoint i) ∈ c)) (ins t)
  end.

(** *** Encoding *)
Definition MaxTxInPerMessage : Z := MaxMessagePayload / (9 + 32) + 1.
(** The largest slice of pointers the Go runtime can allocate on a 64-bit
    machine (48 address bits); [make] panics beyond it. *)
Definition maxAlloc : Z := 2 ^ 48.

Fixpoint sum_sizes {E A} (f : A -> res E Z) (n : Z) (l : list A) : res E Z :=
  match l with
  | [] => Ok n
  | x :: l => s ← f x; sum_sizes f (u32 (n + s)) l
  end.
Definition Tx_EncodeSize {E} (t : Tx) : res E Z :=
  let n := u32 (8 + VarIntSerializeSize (Z.of_nat (length (ins t)))
                  + VarIntSerializeSize (Z.of_nat (length (outs t)))) in
  n ← sum_sizes (fun i => Ok (TxIn_EncodeSize i)) n (ins t);
  sum_sizes TxOut_EncodeSize n (outs t).
Definition Tx_Encode (t : Tx) : bytes :=
  PutUint32 (u32 (version t)) ++
  WriteVarInt (Z.of_nat (length (ins t))) ++ concat (map TxIn_Encode (ins t)) ++
  WriteVarInt (Z.of_nat (length (outs t))) ++ concat (map TxOut_Encode (outs t)) ++
  PutUint32 (lockTime t).
(** Decode fills the receiver [t]; with too many inputs it returns the error of
    the last successful read, that is nil, and leaves [t] unchanged. *)
Definition Tx_Decode (t : Tx) : rd werr Tx :=
  v ← Uint32;
  count ← ReadVarInt;
  if MaxTxInPerMessage <? count then mret t
  else
    txIns ← rd_times (Z.to_nat count) TxIn_Decode;
    count ← ReadVarInt;
    if maxAlloc <? 8 * count then rd_panic
    else
      os ← rd_times (Z.to_nat count) TxOut_Decode;
      lt ← Uint32;
      mret (mkTx (hash t) lt (i32 v) txIns os).

(** *** Context-free checks *)
Definition MaxTxSize : Z := 1000000.
Definition MaxTxSigOpsCounts : Z := 20000.

Definition IsCoinBase (t : Tx) : bool :=
  match ins t with [i] => OutPoint_IsNull (PreviousOutPoint i) | _ => false end.

Fixpoint out_sigops {E} (flags n : Z) (os : list TxOut) : res E Z :=
  match os with
  | [] => Ok n
  | o :: os => s ← deref (scriptPubKey o); out_sigops flags (n + GetSigOpCount s flags false) os
  end.
Definition GetSigOpCountWithoutP2SH {E} (t : Tx) (flags : Z) : res E Z :=
  let n := fold_left (fun n i => n + GetSigOpCount (scriptSig i) flags false) (ins t) 0 in
  out_sigops flags n (outs t).

Fixpoint check_outs (totalOut : Z) (os : list TxOut) : res TxErr unit :=
  match os with
  | [] => Ok tt
  | o :: os =>
      CheckValue o;;
      let totalOut := i64 (totalOut + value o) in
      if negb (MoneyRange totalOut) then Err (RejectInvalid "bad-txns-txouttotal-toolarge")
      else check_outs totalOut os
  end.
Definition checkTransactionCommon (t : Tx) : res TxErr unit :=
  match ins t, outs t with
  | [], _ => Err (RejectInvalid "bad-txns-vin-empty")
  | _, [] => Err (RejectInvalid "bad-txns-vout-empty")
  | _, _ =>
      size ← Tx_EncodeSize t;
      if MaxTxSize <? size then Err (RejectInvalid "bad-txns-oversize")
      else
        check_outs 0 (outs t);;
        sigOpCount ← GetSigOpCountWithoutP2SH t ScriptEnableCheckDataSig;
        if MaxTxSigOpsCounts <? sigOpCount then Err (RejectInvalid "bad-txn-sigops")
        else Ok tt
  end.

(** The loop over the inputs, with the map of the outpoints already seen. *)
Fixpoint check_prevouts (outPoints : gset OutPoint) (l : list TxIn) : res TxErr (gset OutPoint) :=
  match l with
  | [] => Ok outPoints
  | i :: l =>
      if OutPoint_IsNull (PreviousOutPoint i) then Err (RejectInvalid "bad-txns-prevout-null")
      else if decide (PreviousOutPoint i ∈ outPoints)
      then Err (RejectInvalid "bad-txns-inputs-duplicate")
      else check_prevouts ({[PreviousOutPoint i]} ∪ outPoints) l
  end.
(** The caller of CheckRegularTransactionWhenNewBlock shares one map between all
    the transactions of a block; the map comes back updated. *)
Definition CheckRegularTransactionWhenNewBlock (t : Tx) (outPoints : gset OutPoint)
  : res TxErr (gset OutPoint) :=
  if IsCoinBase t then Err (RejectInvalid "bad-tx-coinbase")
  else checkTransactionCommon t;; check_prevouts outPoints (ins t).
Definition CheckRegularTransaction (t : Tx) : res TxErr unit :=
  if IsCoinBase t then Err (RejectInvalid "bad-tx-coinbase")
  else checkTransactionCommon t;; check_prevouts ∅ (ins t);; Ok tt.
Definition CheckCoinbaseTransaction (t : Tx) : res TxErr unit :=
  if negb (IsCoinBase t) then Err (RejectInvalid "bad-cb-missing")
  else
    checkTransactionCommon t;;
    i ← nth_go (ins t) 0;
    if (Size (scriptSig i) <? 2) || (100 <? Size (scriptSig i))
    then Err (RejectInvalid "bad-cb-length") else Ok tt.

Fixpoint value_out {E} (valueOut : Z) (os : list TxOut) : res E Z :=
  match os with
  | [] => Ok valueOut
  | o :: os =>
      let valueOut := i64 (valueOut + value o) in
      if negb (MoneyRange (value o)) || negb (MoneyRange valueOut) then Panic
      else value_out valueOut os
  end.
Definition GetValueOut {E} (t : Tx) : res E Z := value_out 0 (outs t).

Definition IsFinal (t : Tx) (Height time : Z) : bool :=
  if lockTime t =? 0 then true
  else
    let lockTimeLimit := if lockTime t <? LockTimeThreshold then Height else time in
    if lockTime t <? lockTimeLimit then true
    else forallb (fun i => Sequence i =? SequenceFinal) (ins t).

(** *** Standardness *)
Definition MaxStandardVersion : Z := 2.
Definition MaxStandardTxSize : Z := 100000.

(** The loop over the outputs: the number of data outputs, or the reason of the
    first output that is not standard. *)
Fixpoint standard_outs {E} (cfg : Policy) (nDataOut : Z) (os : list TxOut) : res E (Z + string) :=
  match os with
  | [] => Ok (inl nDataOut)
  | o :: os =>
      '(pubKeyType, isStandard) ← TxOut_IsStandard cfg o;
      if negb isStandard then Ok (inr "scriptpubkey"%string)
      else if decide (pubKeyType = ScriptNullData) then standard_outs cfg (nDataOut + 1) os
      else if bool_decide (pubKeyType = ScriptMultiSig) && negb (IsBareMultiSigStd cfg)
      then Ok (inr "bare-multisig"%string)
      else
        dust ← IsDust o (DustRelayFee cfg);
        if (dust : bool) then Ok (inr "dust"%string) else standard_outs cfg nDataOut os
  end.
(** The loop over the inputs: the reason of the first that is not standard. *)
Fixpoint standard_ins (l : list TxIn) : option string :=
  match l with
  | [] => None
  | i :: l => let '(ok, reason) := CheckScriptSigStandard (scriptSig i) in
               if (ok : bool) then standard_ins l else Some reason
  end.
Definition IsStandard {E} (cfg : Policy) (t : Tx) : res E (bool * string) :=
  if (MaxStandardVersion <? version t) || (version t <? 1) then Ok (false, "version"%string)
  else
    size ← Tx_EncodeSize t;
    if MaxStandardTxSize <? size then Ok (false, "tx-size"%string)
    else match standard_ins (ins t) with
    | Some reason => Ok (false, reason)
    | None =>
        r ← standard_outs cfg 0 (outs t);
        match r with
        | inr reason => Ok (false, reason)
        | inl nDataOut => if 1 <? nDataOut then Ok (false, "multi-op-return"%string) else Ok (true, ""%string)
        end
    end.

(** ** Hashes (util/hash.go) over an uninterpreted SHA-256 *)
Section Hashing.
Context (Sha256 : bytes -> bytes).

Definition DoubleSha256Hash (b : bytes) : bytes := Sha256 (Sha256 b).

(** *** The transaction id and its cache *)
Definition Hash_IsNull (h : bytes) : bool := forallb (Z.eqb 0) h.
Definition calHash (t : Tx) : bytes := DoubleSha256Hash (Tx_Encode t).
Definition set_hash (t : Tx) (h : bytes) : Tx :=
  mkTx h (lockTime t) (version t) (ins t) (outs t).
Definition GetHash (t : Tx) : bytes * Tx :=
  if negb (Hash_IsNull (hash t)) then (hash t, t)
  else let h := calHash t in (h, set_hash t h).
Definition UpdateInScript (t : Tx) (i : Z) (s : Script) : res TxErr Tx :=
  if (Z.of_nat (length (ins t)) <=? i) || (i <? 0) then Err TxErrInvalidIndexOfIn
  else
    let upd x := mkTxIn (PreviousOutPoint x) s (Sequence x) in
    let t' := mkTx (hash t) (lockTime t) (version t) (alter upd (Z.to_nat i) (ins t)) (outs t) in
    Ok (if negb (Hash_IsNull (hash t)) then set_hash t' (calHash t') else t').

(** *** What a signature commits to (txsignature.go) *)
Definition GetPreviousOutHash (t : Tx) : bytes :=
  DoubleSha256Hash (concat (map (fun e => OutPoint_Encode (PreviousOutPoint e)) (ins t))).
Definition GetSequenceHash (t : Tx) : bytes :=
  DoubleSha256Hash (concat (map (fun e => PutUint32 (Sequence e)) (ins t))).
Definition GetOutputsHash (os : list TxOut) : bytes :=
  DoubleSha256Hash (concat (map TxOut_Encode os)).

(** The buffer hashed with the fork id: every part of the transaction is
    represented by its own hash, zero where the hash type leaves it out. *)
Definition forkid_preimage {E} (t : Tx) (s : Script) (anyone none single : bool)
    (hashType nIn money : Z) : res E bytes :=
  let hashPrevouts := if negb anyone then GetPreviousOutHash t else HashZero in
  let hashSequence := if negb anyone && negb single && negb none then GetSequenceHash t else HashZero in
  hashOutputs ←
    (if negb single && negb none then Ok (GetOutputsHash (outs t))
     else if single && (nIn <? Z.of_nat (length (outs t))) then
       o ← nth_go (outs t) nIn; Ok (GetOutputsHash [o])
     else Ok HashZero);
  i ← nth_go (ins t) nIn;
  Ok (PutUint32 (u32 (version t)) ++ hashPrevouts ++ hashSequence ++
      OutPoint_Encode (PreviousOutPoint i) ++ Encode s ++ PutUint64 (u64 money) ++
      PutUint32 (Sequence i) ++ hashOutputs ++ PutUint32 (lockTime t) ++ PutUint32 hashType).

(** The inputs and outputs of the original digest. *)
Definition legacy_input (ss : Script) (none single : bool) (nIn i : Z) (e : TxIn) : bytes :=
  OutPoint_Encode (PreviousOutPoint e) ++
  if negb (i =? nIn) then
    WriteVarInt 0 ++ (if single || none then PutUint32 0 else PutUint32 (Sequence e))
  else Encode ss ++ PutUint32 (Sequence e).
Definition legacy_output (single : bool) (nIn m : Z) (o : TxOut) : bytes :=
  if single && negb (m =? nIn) then TxOut_Encode (NewTxOut (-1) None) else TxOut_Encode o.
Definition legacy_preimage {E} (t : Tx) (s : Script) (anyone none single : bool)
    (hashType nIn : Z) : res E bytes :=
  let inputsCount := if anyone then 1 else Z.of_nat (length (ins t)) in
  let ss := RemoveOpcode s OP_CODESEPARATOR in
  inputs ←
    (if anyone then
       i ← nth_go (ins t) nIn;
       Ok (OutPoint_Encode (PreviousOutPoint i) ++ Encode ss ++ PutUint32 (Sequence i))
     else Ok (concat (imap (fun i => legacy_input ss none single nIn (Z.of_nat i)) (ins t))));
  let outsCount := if none then 0 else if single then nIn + 1 else Z.of_nat (length (outs t)) in
  let outputs :=
    concat (imap (fun m => legacy_output single nIn (Z.of_nat m)) (take (Z.to_nat outsCount) (outs t))) in
  Ok (PutUint32 (u32 (version t)) ++ WriteVarInt (u64 inputsCount) ++ inputs ++
      WriteVarInt (u64 outsCount) ++ outputs ++
      PutUint32 (lockTime t) ++ PutUint32 hashType).

Definition replay_hash_type (hashType flags : Z) : Z :=
  if all_flag flags ScriptEnableReplayProtection then
    let newForkValue := (hashType .>> 8) .^ 0xdead in
    (hashType .& 0xff) .| u32 ((0xff0000 .| newForkValue) .<< 8)
  else hashType.

Definition SignatureHash {E} (t : Tx) (s : Script) (hashType nIn money flags : Z) : res E bytes :=
  let sigHashAnyOneCanPay := hashType .& SigHashAnyoneCanpay =? SigHashAnyoneCanpay in
  let sigHashNone := hashType .& SigHashMask =? SigHashNone in
  let sigHashSingle := hashType .& SigHashMask =? SigHashSingle in
  let hashType := replay_hash_type hashType flags in
  if (hashType .& SigHashForkID =? SigHashForkID) && all_flag flags ScriptEnableSigHashForkID then
    b ← forkid_preimage t s sigHashAnyOneCanPay sigHashNone sigHashSingle hashType nIn money;
    Ok (DoubleSha256Hash b)
  else if sigHashSingle && (Z.of_nat (length (outs t)) <=? nIn) then Ok HashOne
  else if Z.of_nat (length (ins t)) <=? nIn then Ok HashOne
  else
    b ← legacy_preimage t s sigHashAnyOneCanPay sigHashNone sigHashSingle hashType nIn;
    Ok (DoubleSha256Hash b).
End Hashing.
