(* ===== verification/TxFacts.v ===== *)
(** * Properties of transactions

    The wire encoding is canonical in both directions, the context-free checks
    decide the rules they implement without panic or overflow, and the digests
    determine what a signature commits to. *)
From S2P Require Import Prelude Errors Wire ScriptNum Opcodes Script ScriptFacts Tx.

(** ** The wire encoding *)

(** Reassociate appends to the right without unfolding the encoders. *)
Ltac app_right := repeat match goal with
  |- context [(?a ++ ?b) ++ ?c] => erewrite <-(app_assoc a b c)
  end.

Definition script_len_ok (d : bytes) : Prop := bytes_ok d /\ Z.of_nat (length d) <= MaxMessagePayload.

Lemma MaxMessagePayload_u64 n : Z.of_nat n <= MaxMessagePayload -> is_u 64 (Z.of_nat n).
Proof. unfold MaxMessagePayload. int_lia. Qed.

Lemma ReadScript_app d r : script_len_ok d -> ReadScript MaxMessagePayload (WriteVarBytes d ++ r) = Ok (d, r).
Proof.
  intros [_ Hl]. unfold ReadScript, WriteVarBytes. app_right.
  erewrite rd_bind_ok; [|by apply ReadVarInt_write, MaxMessagePayload_u64].
  destruct (Z.ltb_spec MaxMessagePayload (Z.of_nat (length d))); [lia|]. rw Nat2Z.id. apply ReadFull_app.
Qed.

Lemma ReadScript_inv r d r' : bytes_ok r -> ReadScript MaxMessagePayload r = Ok (d, r') ->
  r = WriteVarBytes d ++ r' /\ script_len_ok d.
Proof.
  intros Hr (n & r1 & H1 & H2)%rd_bind_inv.
  destruct (ReadVarInt_canonical _ _ _ Hr H1) as [-> Hn]. apply Forall_app in Hr as [_ Hr1].
  destruct (Z.ltb_spec MaxMessagePayload n) as [|Hm]; [done|].
  destruct (ReadFull_inv _ _ _ _ H2) as [-> Hlen]. apply Forall_app in Hr1 as [Hd _].
  unfold is_u in Hn. assert (Z.of_nat (length d) = n) as <- by lia.
  unfold WriteVarBytes. by app_right.
Qed.

Definition wf_outpoint (o : OutPoint) : Prop :=
  length (Hash o) = 32%nat /\ bytes_ok (Hash o) /\ is_u 32 (Index o).

Lemma OutPoint_Decode_app o r : wf_outpoint o -> OutPoint_Decode (OutPoint_Encode o ++ r) = Ok (o, r).
Proof.
  intros (Hl & _ & Hi). unfold OutPoint_Decode, OutPoint_Encode. app_right.
  erewrite rd_bind_ok; [|by apply ReadFull_app']. erewrite rd_bind_ok; [|by apply Uint32_put].
  by destruct o.
Qed.

Lemma Uint32_inv r v r' : bytes_ok r -> Uint32 r = Ok (v, r') -> r = PutUint32 v ++ r' /\ is_u 32 v.
Proof. intros Hr H. by destruct (read_le_inv 4 r v r' Hr H) as (? & ? & _). Qed.
Lemma Uint64_inv r v r' : bytes_ok r -> Uint64 r = Ok (v, r') -> r = PutUint64 v ++ r' /\ is_u 64 v.
Proof. intros Hr H. by destruct (read_le_inv 8 r v r' Hr H) as (? & ? & _). Qed.

Lemma OutPoint_Decode_inv r o r' : bytes_ok r -> OutPoint_Decode r = Ok (o, r') ->
  r = OutPoint_Encode o ++ r' /\ wf_outpoint o.
Proof.
  intros Hr (h & r1 & H1 & (i & r2 & H2 & [= <- <-])%rd_bind_inv)%rd_bind_inv.
  destruct (ReadFull_inv _ _ _ _ H1) as [-> Hlen]. apply Forall_app in Hr as [Hh Hr1].
  destruct (Uint32_inv _ _ _ Hr1 H2) as [-> Hi].
  unfold OutPoint_Encode. by app_right.
Qed.

(** An input as Decode builds it: the opcodes are those of the bytes, or empty
    when the outpoint looks like a coinbase's. *)
Definition unparsed (o : OutPoint) : bool := (Index o =? 0xffffffff) || bool_decide (Hash o = HashZero).
Definition wf_in (i : TxIn) : Prop :=
  wf_outpoint (PreviousOutPoint i) /\ script_len_ok (data (scriptSig i)) /\ is_u 32 (Sequence i) /\
  badOpCode (scriptSig i) = false /\
  scriptSig i = if unparsed (PreviousOutPoint i) then mkScript (data (scriptSig i)) [] false
                else convertOPS (data (scriptSig i)).
Definition wf_out (o : TxOut) : Prop :=
  is_i 64 (value o) /\
  exists d, script_len_ok d /\ scriptPubKey o = Some (NewScriptRaw d).
Record wf_tx (t : Tx) : Prop := {
  wf_ins : Forall wf_in (ins t);
  wf_outs : Forall wf_out (outs t);
  wf_ins_count : Z.of_nat (length (ins t)) <= MaxTxInPerMessage;
  wf_outs_count : 8 * Z.of_nat (length (outs t)) <= maxAlloc;
  wf_lockTime : is_u 32 (lockTime t);
  wf_version : is_i 32 (version t) }.

Lemma Decode_app (c : bool) s r : script_len_ok (data s) -> badOpCode s = false ->
  s = (if c then mkScript (data s) [] false else convertOPS (data s)) ->
  Decode c (Encode s ++ r) = Ok (s, r).
Proof.
  intros Hd Hb Hs. unfold Decode, Encode. erewrite rd_bind_ok; [|by apply ReadScript_app].
  destruct c; rw -Hs; [done|]. by rw Hb.
Qed.

Lemma TxIn_Decode_app i r : wf_in i -> TxIn_Decode (TxIn_Encode i ++ r) = Ok (i, r).
Proof.
  intros (Ho & Hd & Hq & Hb & Hs). unfold TxIn_Decode, TxIn_Encode. app_right.
  erewrite rd_bind_ok; [|by apply OutPoint_Decode_app]. fold (unparsed (PreviousOutPoint i)).
  erewrite rd_bind_ok; [|by apply Decode_app]. erewrite rd_bind_ok; [|by apply Uint32_put]. by destruct i.
Qed.

Lemma Decode_inv (c : bool) r s r' : bytes_ok r -> Decode c r = Ok (s, r') ->
  r = Encode s ++ r' /\ script_len_ok (data s) /\ badOpCode s = false /\
  s = if c then mkScript (data s) [] false else convertOPS (data s).
Proof.
  intros Hr (d & r1 & H1 & H2)%rd_bind_inv.
  destruct (ReadScript_inv _ _ _ Hr H1) as [-> Hd]. unfold Encode.
  destruct c; [by injection H2 as <- <-|]. cbv zeta in H2. destruct (badOpCode (convertOPS d)) eqn:Hb; [done|].
  injection H2 as <- <-. by rw data_convertOPS.
Qed.

Lemma TxIn_Decode_inv r i r' : bytes_ok r -> TxIn_Decode r = Ok (i, r') -> r = TxIn_Encode i ++ r' /\ wf_in i.
Proof.
  intros Hr (o & r1 & H1 & (s & r2 & H2 & (q & r3 & H3 & [= <- <-])%rd_bind_inv)%rd_bind_inv)%rd_bind_inv.
  destruct (OutPoint_Decode_inv _ _ _ Hr H1) as [-> Ho]. apply Forall_app in Hr as [_ Hr].
  destruct (Decode_inv _ _ _ _ Hr H2) as (-> & Hd & Hb & Hs). apply Forall_app in Hr as [_ Hr].
  destruct (Uint32_inv _ _ _ Hr H3) as [-> Hq].
  unfold TxIn_Encode, wf_in. app_right. done.
Qed.

Lemma i64_u64 v : is_i 64 v -> i64 (u64 v) = v.
Proof. int_lia. Qed.
Lemma u64_i64 v : is_u 64 v -> u64 (i64 v) = v.
Proof. int_lia. Qed.
Lemma i32_u32 v : is_i 32 v -> i32 (u32 v) = v.
Proof. int_lia. Qed.
Lemma u32_i32 v : is_u 32 v -> u32 (i32 v) = v.
Proof. int_lia. Qed.
Lemma i32_range v : is_i 32 (i32 v).
Proof. int_lia. Qed.

Lemma TxOut_Decode_app o r : wf_out o -> TxOut_Decode (TxOut_Encode o ++ r) = Ok (o, r).
Proof.
  destruct o as [v s]. intros (Hv & d & Hd & [= ->]). unfold TxOut_Decode, TxOut_Encode, Encode. simpl.
  rw /NewScriptRaw data_convertOPS. app_right. erewrite rd_bind_ok; [|apply Uint64_put; auto with go].
  erewrite rd_bind_ok; [|by apply ReadScript_app]. rw i64_u64 //.
Qed.

Lemma TxOut_Decode_inv r o r' : bytes_ok r -> TxOut_Decode r = Ok (o, r') -> r = TxOut_Encode o ++ r' /\ wf_out o.
Proof.
  intros Hr (v & r1 & H1 & (d & r2 & H2 & [= <- <-])%rd_bind_inv)%rd_bind_inv.
  destruct (Uint64_inv _ _ _ Hr H1) as [-> Hv]. apply Forall_app in Hr as [_ Hr].
  destruct (ReadScript_inv _ _ _ Hr H2) as [-> Hd].
  unfold TxOut_Encode, Encode, wf_out. simpl. rw /NewScriptRaw data_convertOPS u64_i64 //. app_right.
  split; [done|]. split; [auto with go|eauto].
Qed.

Lemma Tx_Decode_app t0 t r : wf_tx t ->
  Tx_Decode t0 (Tx_Encode t ++ r) = Ok (set_hash t (hash t0), r).
Proof.
  intros [Hi Ho Hic Hoc Hl Hv]. unfold Tx_Decode, Tx_Encode. app_right.
  rw Forall_forall in Hi. rw Forall_forall in Ho.
  erewrite rd_bind_ok; [|apply Uint32_put; auto with go].
  assert (is_u 64 (Z.of_nat (length (ins t)))) by (unfold MaxTxInPerMessage, MaxMessagePayload in Hic; int_lia).
  assert (is_u 64 (Z.of_nat (length (outs t)))) by (unfold maxAlloc in Hoc; int_lia).
  erewrite rd_bind_ok; [|by apply ReadVarInt_write]. case_match eqn:E1; [lia|].
  rw Nat2Z.id. erewrite rd_bind_ok; [|by apply rd_times_app; auto using TxIn_Decode_app].
  erewrite rd_bind_ok; [|by apply ReadVarInt_write]. case_match eqn:E2; [lia|].
  rw Nat2Z.id. erewrite rd_bind_ok; [|by apply rd_times_app; auto using TxOut_Decode_app].
  erewrite rd_bind_ok; [|by apply Uint32_put]. by rw i32_u32.
Qed.

(** The number of inputs the bytes announce: what follows the version. *)
Definition announced_inputs (r : bytes) : res werr Z :=
  fst <$> (Uint32;; ReadVarInt) r.

Lemma Tx_Decode_inv t0 r t r' : bytes_ok r -> Tx_Decode t0 r = Ok (t, r') ->
  exists n, announced_inputs r = Ok n /\
  if MaxTxInPerMessage <? n then t = t0
  else r = Tx_Encode t ++ r' /\ wf_tx t /\ hash t = hash t0.
Proof.
  intros Hr (v & r1 & H1 & (n & r2 & H2 & H)%rd_bind_inv)%rd_bind_inv. exists n. split.
  { unfold announced_inputs. erewrite rd_bind_ok; [|done]. by rw H2. }
  destruct (Z.ltb_spec MaxTxInPerMessage n) as [|Hn]; [by injection H as <- <-|].
  destruct (Uint32_inv _ _ _ Hr H1) as [-> Hv]. apply Forall_app in Hr as [_ Hr].
  destruct (ReadVarInt_canonical _ _ _ Hr H2) as [-> Hun]. apply Forall_app in Hr as [_ Hr].
  apply rd_bind_inv in H as (li & r3 & H3 & (m & r4 & H4 & H)%rd_bind_inv).
  destruct (rd_times_inv _ _ _ _ _ _ _ TxIn_Decode_inv Hr H3) as (-> & Hli & Hwi).
  apply Forall_app in Hr as [_ Hr].
  destruct (ReadVarInt_canonical _ _ _ Hr H4) as [-> Hum]. apply Forall_app in Hr as [_ Hr].
  destruct (Z.ltb_spec maxAlloc (8 * m)) as [|Hm]; [done|].
  apply rd_bind_inv in H as (lo & r5 & H5 & (lt & r6 & H6 & [= <- <-])%rd_bind_inv).
  destruct (rd_times_inv _ _ _ _ _ _ _ TxOut_Decode_inv Hr H5) as (-> & Hlo & Hwo).
  apply Forall_app in Hr as [_ Hr]. destruct (Uint32_inv _ _ _ Hr H6) as [-> Hlt].
  unfold is_u in Hun, Hum. unfold Tx_Encode. simpl. rw u32_i32 // Hli Hlo !Z2Nat.id; [|lia..]. app_right.
  split; [done|]. split; [|done]. split; simpl; auto using i32_range; lia.
Qed.

(** ** Sizes *)
Lemma sum_sizes_length {E A} (f : A -> res E Z) (enc : A -> bytes) n l :
  (forall x, x ∈ l -> f x = Ok (u32 (Z.of_nat (length (enc x))))) ->
  sum_sizes f (u32 n) l = Ok (u32 (n + Z.of_nat (length (concat (map enc l))))).
Proof.
  revert n. induction l as [|x l IH]; intros n H; simpl; [by rw Z.add_0_r|].
  rw H; last set_solver. simpl. replace (u32 _) with (u32 (n + Z.of_nat (length (enc x)))) by int_lia.
  rw IH; last set_solver. rw length_app Nat2Z.inj_add Z.add_assoc //.
Qed.

Lemma EncodeSize_length s : Z.of_nat (length (data s)) <= MaxMessagePayload ->
  EncodeSize s = Z.of_nat (length (Encode s)).
Proof.
  intros H. unfold EncodeSize, Encode, WriteVarBytes. rw length_app Nat2Z.inj_add.
  rw WriteVarInt_length; last by apply MaxMessagePayload_u64.
  assert (1 <= VarIntSerializeSize (Z.of_nat (length (data s))) <= 9) by (unfold VarIntSerializeSize; repeat case_match; lia).
  unfold MaxMessagePayload in H. int_lia.
Qed.

Lemma TxIn_EncodeSize_length i : wf_in i -> TxIn_EncodeSize i = u32 (Z.of_nat (length (TxIn_Encode i))).
Proof.
  intros ((Hl & _) & [_ Hd] & _). unfold TxIn_EncodeSize, TxIn_Encode, OutPoint_Encode, OutPoint_EncodeSize, PutUint32.
  rw EncodeSize_length // !length_app !length_le_bytes Hl. f_equal. lia.
Qed.

Lemma TxOut_EncodeSize_length {E} o : wf_out o ->
  TxOut_EncodeSize (E := E) o = Ok (u32 (Z.of_nat (length (TxOut_Encode o)))).
Proof.
  destruct o as [v s]. intros (_ & d & [_ Hd] & [= ->]). unfold TxOut_EncodeSize, TxOut_Encode, PutUint64. simpl.
  rw EncodeSize_length; last by rw /NewScriptRaw data_convertOPS. do 2 f_equal. lia.
Qed.

Lemma Tx_EncodeSize_length {E} t : wf_tx t ->
  Tx_EncodeSize (E := E) t = Ok (u32 (Z.of_nat (length (Tx_Encode t)))).
Proof.
  intros [Hi Ho Hic Hoc _ _]. rw Forall_forall in Hi. rw Forall_forall in Ho. unfold Tx_EncodeSize.
  assert (is_u 64 (Z.of_nat (length (ins t)))) by (unfold MaxTxInPerMessage, MaxMessagePayload in Hic; int_lia).
  assert (is_u 64 (Z.of_nat (length (outs t)))) by (unfold maxAlloc in Hoc; int_lia).
  rw (sum_sizes_length _ TxIn_Encode); last by intros x Hx; rw TxIn_EncodeSize_length; auto. simpl.
  rw (sum_sizes_length _ TxOut_Encode); last by auto using TxOut_EncodeSize_length.
  rw -(WriteVarInt_length (Z.of_nat (length (ins t)))) // -(WriteVarInt_length (Z.of_nat (length (outs t)))) //.
  unfold Tx_Encode, PutUint32. rw !length_app length_le_bytes. do 2 f_equal. lia.
Qed.

(** ** The context-free checks *)
Definition total_out (os : list TxOut) : Z := foldr (fun o => Z.add (value o)) 0 os.
Definition out_in_range (o : TxOut) : Prop := 0 <= value o <= MaxMoney.

Lemma MoneyRange_spec v : MoneyRange v = true <-> 0 <= v <= MaxMoney.
Proof. unfold MoneyRange. lia. Qed.

Lemma total_out_nonneg os : Forall out_in_range os -> 0 <= total_out os.
Proof. induction 1 as [|o os Ho _ IH]; simpl; [done|]. unfold out_in_range in Ho. lia. Qed.

Lemma check_outs_spec tot os : 0 <= tot <= MaxMoney ->
  check_outs tot os = Ok tt <-> Forall out_in_range os /\ tot + total_out os <= MaxMoney.
Proof.
  revert tot. induction os as [|o os IH]; intros tot Ht; simpl; [split; [split; [done|lia]|done]|].
  rw Forall_cons. unfold CheckValue. unfold out_in_range at 1.
  destruct (Z.ltb_spec (value o) 0); [split; [done|lia]|].
  destruct (Z.ltb_spec MaxMoney (value o)); [split; [done|lia]|]. simpl.
  rw i64_id; last (unfold MaxMoney, COIN in *; int_lia).
  destruct (MoneyRange (tot + value o)) eqn:EM; simpl.
  - apply MoneyRange_spec in EM. rw IH //. split; [intros [? ?]|intros [[? ?] ?]]; (split; [done || (split; [lia|done])|lia]).
  - split; [done|]. intros [[_ Hos] Hle]. pose proof (total_out_nonneg os Hos).
    assert (MoneyRange (tot + value o) = true); [|congruence]. apply MoneyRange_spec. lia.
Qed.

Lemma value_out_spec {E} tot os : 0 <= tot <= MaxMoney ->
  Forall out_in_range os -> tot + total_out os <= MaxMoney ->
  value_out (E := E) tot os = Ok (tot + total_out os).
Proof.
  intros Ht HF. revert tot Ht. induction HF as [|o os Ho HF IH]; intros tot Ht Hle; simpl in *; [by rw Z.add_0_r|].
  pose proof (total_out_nonneg os HF). unfold out_in_range in Ho.
  rw i64_id; last (unfold MaxMoney, COIN in *; int_lia).
  rw (proj2 (MoneyRange_spec (value o)) Ho) (proj2 (MoneyRange_spec (tot + value o))); last lia. simpl.
  rw IH; [|lia..]. f_equal. lia.
Qed.

Definition prevouts (l : list TxIn) : list OutPoint := map PreviousOutPoint l.

Lemma check_prevouts_spec seen l seen' :
  check_prevouts seen l = Ok seen' <->
  Forall (fun o => OutPoint_IsNull o = false) (prevouts l) /\ NoDup (prevouts l) /\
  list_to_set (prevouts l) ## seen /\ seen' = list_to_set (prevouts l) ∪ seen.
Proof.
  revert seen. induction l as [|i l IH]; intros seen; simpl.
  - split; [intros [= <-]; split_and!; [done|constructor|set_solver|set_solver]|].
    intros (_ & _ & _ & ->). f_equal. set_solver.
  - rw Forall_cons NoDup_cons. destruct (OutPoint_IsNull _) eqn:En; [split; [done|]; by intros [[? _] _]|].
    case_decide as Hin; [split; [done|]; intros (_ & _ & Hd & _); set_solver|].
    rw IH. split.
    + intros (HF & HN & Hd & ->). split_and!; [done|done|set_solver|done|set_solver|set_solver].
    + intros ((_ & HF) & [Hni HN] & Hd & ->). split_and!; [done|done| |set_solver].
      intros x Hx. rw elem_of_union elem_of_singleton. intros [->|Hs]; [|set_solver].
      apply Hni. by apply elem_of_list_to_set in Hx.
Qed.

Lemma out_sigops_ok {E} flags n os : Forall wf_out os -> exists m, out_sigops (E := E) flags n os = Ok m.
Proof.
  intros H. revert n. induction H as [|o os (_ & d & _ & Hs) _ IH]; intros n; simpl; [eauto|]. by rw Hs /=.
Qed.

(** The rules of checkTransactionCommon. *)
Record common_rules (t : Tx) : Prop := {
  cr_ins : ins t <> [];
  cr_outs : outs t <> [];
  cr_size : u32 (Z.of_nat (length (Tx_Encode t))) <= MaxTxSize;
  cr_values : Forall out_in_range (outs t);
  cr_total : total_out (outs t) <= MaxMoney;
  cr_sigops : exists n, GetSigOpCountWithoutP2SH (E := TxErr) t ScriptEnableCheckDataSig = Ok n /\ n <= MaxTxSigOpsCounts }.

Lemma checkTransactionCommon_spec t : wf_tx t ->
  checkTransactionCommon t <> Panic /\ (checkTransactionCommon t = Ok tt <-> common_rules t).
Proof.
  intros Hwf. unfold checkTransactionCommon.
  destruct (ins t) as [|i0 l0] eqn:Ei; [split; [done|split; [done|by intros [? _ _ _ _ _]]]|].
  destruct (outs t) as [|o0 m0] eqn:Eo; [split; [done|split; [done|by intros [_ ? _ _ _ _]]]|].
  rw Tx_EncodeSize_length // bind_Ok -Eo.
  destruct (Z.ltb_spec MaxTxSize (u32 (Z.of_nat (length (Tx_Encode t))))) as [Hs|Hs].
  { split; [done|]. split; [done|]. intros [_ _ ? _ _ _]. lia. }
  assert (0 <= 0 <= MaxMoney) as H0 by done.
  destruct (check_outs 0 (outs t)) as [[]|e|] eqn:Ec.
  - apply check_outs_spec in Ec as [Hv Ht]; [|done]. rw bind_Ok.
    destruct (out_sigops_ok (E := TxErr) ScriptEnableCheckDataSig
      (fold_left (fun n i => n + GetSigOpCount (scriptSig i) ScriptEnableCheckDataSig false) (ins t) 0) _ (wf_outs t Hwf)) as [n Hn].
    fold (GetSigOpCountWithoutP2SH (E := TxErr) t ScriptEnableCheckDataSig) in Hn. rw Hn bind_Ok.
    destruct (Z.ltb_spec MaxTxSigOpsCounts n); (split; [done|]); (split; [|]); try done.
    + intros [_ _ _ _ _ (n' & Hn' & ?)]. rw Hn in Hn'. simplify_eq. lia.
    + intros _. split; [congruence|congruence|done|done|lia|eauto].
  - simpl. split; [done|]. split; [done|]. intros [_ _ _ Hv Ht _].
    rw (proj2 (check_outs_spec 0 _ H0)) // in Ec.
  - exfalso. clear -Ec. revert Ec. generalize 0 at 1. induction (outs t) as [|o os IH]; intros z; simpl; [done|].
    unfold CheckValue. repeat case_match; simpl; try done. apply IH.
Qed.

(** ** What the digests determine *)
Lemma concat_enc_inj {A} (dec : rd werr A) (enc : A -> bytes) (Q : A -> Prop) l1 l2 :
  (forall x r, Q x -> dec (enc x ++ r) = Ok (x, r)) -> (forall x, enc x <> []) ->
  Forall Q l1 -> Forall Q l2 -> concat (map enc l1) = concat (map enc l2) -> l1 = l2.
Proof.
  intros Hd Hn H1. revert l2. induction H1 as [|x l1 Hx H1 IH]; intros l2 H2 E.
  - destruct l2 as [|y l2]; [done|]. simpl in E. symmetry in E. apply app_nil in E as [E _]. by destruct (Hn y).
  - destruct H2 as [|y l2 Hy H2]; simpl in E; [apply app_nil in E as [E _]; by destruct (Hn x)|].
    pose proof (Hd x (concat (map enc l1)) Hx) as E1. rw E Hd // in E1. simplify_eq. f_equal. auto.
Qed.

Lemma dec_enc_inj {A} (dec : rd werr A) (enc : A -> bytes) x y r1 r2 :
  (forall r, dec (enc x ++ r) = Ok (x, r)) -> (forall r, dec (enc y ++ r) = Ok (y, r)) ->
  enc x ++ r1 = enc y ++ r2 -> x = y /\ r1 = r2.
Proof. intros Hx Hy E. pose proof (Hx r1) as H. rw E Hy in H. by simplify_eq. Qed.

Lemma PutUint32_app_inj a b r1 r2 : is_u 32 a -> is_u 32 b ->
  PutUint32 a ++ r1 = PutUint32 b ++ r2 -> a = b /\ r1 = r2.
Proof. intros Ha Hb. apply (dec_enc_inj Uint32 PutUint32); intros; by apply Uint32_put. Qed.
Lemma PutUint64_app_inj a b r1 r2 : is_u 64 a -> is_u 64 b ->
  PutUint64 a ++ r1 = PutUint64 b ++ r2 -> a = b /\ r1 = r2.
Proof. intros Ha Hb. apply (dec_enc_inj Uint64 PutUint64); intros; by apply Uint64_put. Qed.

(** Everything SignatureHash feeds to SHA-256 with the fork id, by what the hash type
    covers. *)
Definition hashed_parts (Sha256 : bytes -> bytes) (t : Tx) (anyone none single : bool) (n : Z) (pre : bytes) : list bytes :=
  let twice b := [b; Sha256 b] in
  (if anyone then [] else twice (concat (map (fun e => OutPoint_Encode (PreviousOutPoint e)) (ins t)))) ++
  (if anyone || single || none then [] else twice (concat (map (fun e => PutUint32 (Sequence e)) (ins t)))) ++
  (if negb single && negb none then twice (concat (map TxOut_Encode (outs t)))
   else if single then match outs t !! Z.to_nat n with Some o => twice (concat (map TxOut_Encode [o])) | None => [] end else []) ++
  twice pre.
Definition no_collision (Sha256 : bytes -> bytes) (l : list bytes) : Prop :=
  Forall (fun a => Forall (fun b => Sha256 a = Sha256 b -> a = b) l) l.

Lemma no_collision_twice Sha256 l a b : no_collision Sha256 l ->
  a ∈ l -> b ∈ l -> Sha256 a ∈ l -> Sha256 b ∈ l ->
  DoubleSha256Hash Sha256 a = DoubleSha256Hash Sha256 b -> a = b.
Proof.
  unfold no_collision. intros H Ha Hb Ha' Hb' E. rw Forall_forall in H.
  assert (forall x y, x ∈ l -> y ∈ l -> Sha256 x = Sha256 y -> x = y) as Hinj.
  { intros x y Hx Hy. specialize (H x Hx). rw Forall_forall in H. by apply H. }
  by apply Hinj, Hinj.
Qed.

(** Membership in a list of parts given by the conditions. *)
Ltac in_parts := unfold hashed_parts; cbn [negb andb orb app]; repeat (apply list_elem_of_here || apply list_elem_of_further).

(** Replay protection leaves the fork id bit alone. *)
Lemma replay_keeps_forkid ht flags : replay_hash_type ht flags .& SigHashForkID = ht .& SigHashForkID.
Proof.
  unfold replay_hash_type. destruct (all_flag _ _); [|done]. rw Z.land_lor_distr_l -Z.land_assoc. change (0xff .& SigHashForkID) with SigHashForkID.
  set (y := 0xff0000 .| _). assert (u32 (y .<< 8) .& SigHashForkID = 0) as ->; [|by rw Z.lor_0_r].
  apply Z.bits_inj'. intros n Hn. rw Z.land_spec Z.bits_0. change SigHashForkID with (2 ^ 6). rw Z.pow2_bits_eqb; [|lia]. destruct (Z.eqb_spec 6 n) as [<-|]; [|by rw andb_false_r].
  unfold u32. rw Z.mod_pow2_bits_low; [|lia]. rw Z.shiftl_spec; [|lia]. by rw Z.testbit_neg_r.
Qed.

Section Commitment.
Context (Sha256 : bytes -> bytes) (Hlen : forall b, length (Sha256 b) = 32%nat).
Context (t1 t2 : Tx) (s1 s2 : Script) (ht n1 n2 m1 m2 : Z).
Context (W1 : wf_tx t1) (W2 : wf_tx t2).
Context (S1 : script_len_ok (data s1)) (S2 : script_len_ok (data s2)).
Context (M1 : is_i 64 m1) (M2 : is_i 64 m2).

Lemma zero_length : length HashZero = 32%nat.
Proof. done. Qed.
(** The hash of the outputs that the type covers. *)
Definition outputs_part (none single : bool) (t : Tx) (n : Z) : res TxErr bytes :=
  if negb single && negb none then Ok (GetOutputsHash Sha256 (outs t))
  else if single && (n <? Z.of_nat (length (outs t))) then o ← nth_go (outs t) n; Ok (GetOutputsHash Sha256 [o]) else Ok HashZero.
Lemma outputs_part_length none single t n b : outputs_part none single t n = Ok b -> length b = 32%nat.
Proof. unfold outputs_part. case_match; [intros [= <-]; apply Hlen|]. case_match; [|by intros [= <-]]. intros (o & _ & Ho)%res_bind_inv. injection Ho as <-. apply Hlen. Qed.
Lemma signed_input t n i : nth_go (E := TxErr) (ins t) n = Ok i -> wf_tx t -> ins t !! Z.to_nat n = Some i /\ 0 <= n /\ wf_in i.
Proof.
  unfold nth_go. case_match eqn:En; [done|]. destruct (ins t !! Z.to_nat n) eqn:El; [|done]. intros [= ->] [Hw _ _ _ _ _]. split; [done|]. split; [lia|]. by eapply Forall_lookup in Hw.
Qed.
Lemma forkid_preimage_inj anyone none single pre :
  forkid_preimage (E := TxErr) Sha256 t1 s1 anyone none single ht n1 m1 = Ok pre ->
  forkid_preimage (E := TxErr) Sha256 t2 s2 anyone none single ht n2 m2 = Ok pre ->
  version t1 = version t2 /\ lockTime t1 = lockTime t2 /\ data s1 = data s2 /\ m1 = m2 /\
  (anyone = false -> GetPreviousOutHash Sha256 t1 = GetPreviousOutHash Sha256 t2) /\
  (anyone || single || none = false -> GetSequenceHash Sha256 t1 = GetSequenceHash Sha256 t2) /\
  outputs_part none single t1 n1 = outputs_part none single t2 n2 /\
  exists i1 i2, ins t1 !! Z.to_nat n1 = Some i1 /\ ins t2 !! Z.to_nat n2 = Some i2 /\ 0 <= n1 /\ 0 <= n2 /\
    PreviousOutPoint i1 = PreviousOutPoint i2 /\ Sequence i1 = Sequence i2.
Proof.
  unfold forkid_preimage. cbv zeta. fold (outputs_part none single t1 n1) (outputs_part none single t2 n2).
  intros (o1 & O1 & (i1 & E1 & P1)%res_bind_inv)%res_bind_inv (o2 & O2 & (i2 & E2 & P2)%res_bind_inv)%res_bind_inv. rw O1 O2.
  apply Ok_inj in P1. apply Ok_inj in P2. subst pre. rename P2 into E. symmetry in E. pose proof (outputs_part_length _ _ _ _ _ O1) as L1. pose proof (outputs_part_length _ _ _ _ _ O2) as L2.
  destruct (signed_input _ _ _ E1 W1) as (N1 & R1 & Ho1 & _ & Hq1 & _). destruct (signed_input _ _ _ E2 W2) as (N2 & R2 & Ho2 & _ & Hq2 & _).
  apply PutUint32_app_inj in E as [Ev E]; auto with go.
  apply app_inj_1 in E as [Ep E]; [|destruct anyone; cbn [negb]; by rw ?Hlen].
  apply app_inj_1 in E as [Eq E]; [|destruct anyone, single, none; cbn [negb andb]; by rw ?Hlen].
  apply (dec_enc_inj OutPoint_Decode OutPoint_Encode) in E as [Eo E]; auto using OutPoint_Decode_app.
  unfold Encode in E. apply (dec_enc_inj (ReadScript MaxMessagePayload) WriteVarBytes) in E as [Es E]; auto using ReadScript_app.
  apply PutUint64_app_inj in E as [Em E]; auto with go.
  apply PutUint32_app_inj in E as [Eseq E]; auto.
  apply app_inj_1 in E as [Eout E]; [|congruence].
  apply PutUint32_app_inj in E as [El E]; try apply wf_lockTime; auto.
  split_and!; auto.
  - rw -(i32_u32 (version t1)) ?Ev ?i32_u32 //; by apply wf_version.
  - rw -(i64_u64 m1) ?Em ?i64_u64 //.
  - intros ->. done.
  - intros Hall. by destruct anyone, single, none.
  - congruence.
  - exists i1, i2. by split_and!.
Qed.

(** What two digests that agree have in common. *)
Definition same_spend (anyone none single : bool) : Prop :=
  version t1 = version t2 /\ lockTime t1 = lockTime t2 /\ data s1 = data s2 /\ m1 = m2 /\
  (exists i1 i2, ins t1 !! Z.to_nat n1 = Some i1 /\ ins t2 !! Z.to_nat n2 = Some i2 /\ PreviousOutPoint i1 = PreviousOutPoint i2 /\ Sequence i1 = Sequence i2) /\
  (anyone = false -> prevouts (ins t1) = prevouts (ins t2)) /\
  (anyone || single || none = false -> map Sequence (ins t1) = map Sequence (ins t2)) /\
  (single || none = false -> outs t1 = outs t2) /\
  (single = true -> none = false -> forall o1 o2, outs t1 !! Z.to_nat n1 = Some o1 -> outs t2 !! Z.to_nat n2 = Some o2 -> o1 = o2).
Lemma encoded_prevouts : concat (map (fun e => OutPoint_Encode (PreviousOutPoint e)) (ins t1)) = concat (map (fun e => OutPoint_Encode (PreviousOutPoint e)) (ins t2)) -> prevouts (ins t1) = prevouts (ins t2).
Proof.
  intros Ep. apply (concat_enc_inj OutPoint_Decode OutPoint_Encode wf_outpoint).
  - intros. by apply OutPoint_Decode_app.
  - intros o. unfold OutPoint_Encode. intros [_ E]%app_nil. done.
  - apply Forall_map. eapply Forall_impl; [apply (wf_ins _ W1)|]. by intros i [].
  - apply Forall_map. eapply Forall_impl; [apply (wf_ins _ W2)|]. by intros i [].
  - unfold prevouts. by rw !map_map.
Qed.
Lemma encoded_sequences : concat (map (fun e => PutUint32 (Sequence e)) (ins t1)) = concat (map (fun e => PutUint32 (Sequence e)) (ins t2)) -> map Sequence (ins t1) = map Sequence (ins t2).
Proof.
  intros Eq. apply (concat_enc_inj Uint32 PutUint32 (is_u 32)).
  - intros. by apply Uint32_put.
  - done.
  - apply Forall_map. eapply Forall_impl; [apply (wf_ins _ W1)|]. by intros i (_ & _ & ? & _).
  - apply Forall_map. eapply Forall_impl; [apply (wf_ins _ W2)|]. by intros i (_ & _ & ? & _).
  - by rw !map_map.
Qed.
Lemma encoded_outputs l1 l2 : Forall wf_out l1 -> Forall wf_out l2 -> concat (map TxOut_Encode l1) = concat (map TxOut_Encode l2) -> l1 = l2.
Proof. intros Q1 Q2. apply (concat_enc_inj TxOut_Decode TxOut_Encode wf_out); [|done|done|done]. intros. by apply TxOut_Decode_app. Qed.
Lemma forkid_commits anyone none single p1 p2 :
  no_collision Sha256 (hashed_parts Sha256 t1 anyone none single n1 p1 ++ hashed_parts Sha256 t2 anyone none single n2 p2) ->
  forkid_preimage (E := TxErr) Sha256 t1 s1 anyone none single ht n1 m1 = Ok p1 ->
  forkid_preimage (E := TxErr) Sha256 t2 s2 anyone none single ht n2 m2 = Ok p2 ->
  DoubleSha256Hash Sha256 p1 = DoubleSha256Hash Sha256 p2 -> same_spend anyone none single.
Proof.
  intros Hc E1 E2 E. apply (no_collision_twice Sha256 _ _ _ Hc) in E; [|unfold hashed_parts; set_solver..]. subst p2.
  destruct (forkid_preimage_inj anyone none single p1 E1 E2) as (? & ? & ? & ? & Ep & Eq & Eo & i1 & i2 & N1 & N2 & R1 & R2 & Hi & Hs).
  unfold same_spend. split_and!; [done|done|done|done|by exists i1, i2|..].
  - intros ->. apply encoded_prevouts. apply (no_collision_twice Sha256 _ _ _ Hc); [unfold hashed_parts; set_solver..|by apply Ep].
  - intros Hall. apply encoded_sequences. apply (no_collision_twice Sha256 _ _ _ Hc); [unfold hashed_parts; rw Hall; set_solver..|by apply Eq].
  - intros [-> ->]%orb_false_iff. apply encoded_outputs; [apply W1|apply W2|]. injection Eo as Eo. apply (no_collision_twice Sha256 _ _ _ Hc); [destruct anyone; in_parts..|exact Eo].
  - intros -> -> o1 o2 Ho1 Ho2. unfold outputs_part in Eo. cbn [negb andb] in Eo. pose proof (lookup_lt_Some _ _ _ Ho1). pose proof (lookup_lt_Some _ _ _ Ho2).
    destruct (Z.ltb_spec n1 (Z.of_nat (length (outs t1)))); [|lia]. destruct (Z.ltb_spec n2 (Z.of_nat (length (outs t2)))); [|lia].
    unfold nth_go in Eo. destruct (Z.ltb_spec n1 0); [lia|]. destruct (Z.ltb_spec n2 0); [lia|]. rw Ho1 Ho2 in Eo. injection Eo as Eo.
    assert ([o1] = [o2]) as [= ->]; [|done]. apply encoded_outputs; [constructor; [by apply (Forall_lookup_1 _ _ _ _ (wf_outs _ W1) Ho1)|constructor]|constructor; [by apply (Forall_lookup_1 _ _ _ _ (wf_outs _ W2) Ho2)|constructor]|].
    apply (no_collision_twice Sha256 _ _ _ Hc); [unfold hashed_parts; rw Ho1 Ho2; destruct anyone; in_parts..|exact Eo].
Qed.
End Commitment.

(** ** The transaction id cache *)
Definition id_cached (Sha256 : bytes -> bytes) (t : Tx) : Prop :=
  Hash_IsNull (hash t) = true \/ hash t = calHash Sha256 t.

Lemma calHash_set_hash Sha256 t h : calHash Sha256 (set_hash t h) = calHash Sha256 t.
Proof. done. Qed.

(** ** A concrete spend and a concrete coinbase for the examples *)
Definition sample_in : TxIn := mkTxIn (mkOutPoint (replicate 32 7) 0) (convertOPS [1; 5]) 0xffffffff.
Definition sample_out : TxOut := mkTxOut 5000 (Some (NewScriptRaw [OP_1])).
Definition sample_tx : Tx := mkTx HashZero 0 2 [sample_in] [sample_out].
Definition sample_coinbase : Tx :=
  mkTx HashZero 0 1 [mkTxIn NewDefaultOutPoint (mkScript [1; 5] [] false) 0] [sample_out].
(** A stand-in for SHA-256 with 32-byte results, for evaluation. *)
Definition toy_hash (b : bytes) : bytes :=
  le_bytes 32 ((le_val b + Z.of_nat (length b)) mod (2 ^ 61 - 1)).

Lemma sample_in_wf : wf_in sample_in.
Proof.
  split; [split; [done|split; [by apply (bool_decide_unpack _)|done]]|].
  split; [split; [by apply (bool_decide_unpack _)|done]|]. done.
Qed.
Lemma sample_out_wf : wf_out sample_out.
Proof. split; [done|]. exists [OP_1]. split; [split; [by apply (bool_decide_unpack _)|done]|done]. Qed.
Lemma sample_tx_wf : wf_tx sample_tx.
Proof. split; try done; repeat constructor; apply sample_in_wf || apply sample_out_wf. Qed.
Lemma sample_coinbase_wf : wf_tx sample_coinbase.
Proof.
  split; try done; (constructor; [|constructor]); [|apply sample_out_wf].
  split; [split; [done|split; [by apply (bool_decide_unpack _)|done]]|].
  split; [split; [by apply (bool_decide_unpack _)|done]|]. done.
Qed.
Lemma toy_hash_length b : length (toy_hash b) = 32%nat.
Proof. apply length_le_bytes. Qed.

(** ** Main theorems *)

(** Wire round trip of transactions: what Encode writes for a well-formed
    transaction, Decode reads back completely and exactly, whatever follows; and
    EncodeSize announces the number of bytes written. *)
Theorem Tx_roundtrip (t t0 : Tx) (r : bytes) (W : wf_tx t) :
  Tx_Decode t0 (Tx_Encode t ++ r) = Ok (set_hash t (hash t0), r) /\
  Tx_EncodeSize (E := werr) t = Ok (u32 (Z.of_nat (length (Tx_Encode t)))).
Proof. split; [by apply Tx_Decode_app|by apply Tx_EncodeSize_length]. Qed.
Lemma Tx_roundtrip_witness :
  Tx_Decode NewEmptyTx (Tx_Encode sample_tx ++ [9]) = Ok (sample_tx, [9]) /\
  Tx_EncodeSize (E := werr) sample_tx = Ok 63.
Proof. exact (Tx_roundtrip sample_tx NewEmptyTx [9] sample_tx_wf). Defined.

(** Decoding is canonical: when Decode succeeds, the bytes it consumed are
    the ones Encode produces for the result, so that the transaction id, a hash
    of the encoding, is the hash of the bytes received.  The one exception is a
    message announcing more than MaxTxInPerMessage inputs, which Decode reports
    as a success with the receiver untouched. *)
Theorem Tx_Decode_canonical (t0 t : Tx) (r r' : bytes) (Hr : bytes_ok r)
    (HD : Tx_Decode t0 r = Ok (t, r')) :
  exists n, announced_inputs r = Ok n /\
  if MaxTxInPerMessage <? n then t = t0
  else r = Tx_Encode t ++ r' /\ wf_tx t /\ hash t = hash t0.
Proof. by apply Tx_Decode_inv. Qed.
Lemma Tx_Decode_canonical_witness :
  exists n, announced_inputs (Tx_Encode sample_tx ++ [9]) = Ok n /\
  if MaxTxInPerMessage <? n then sample_tx = NewEmptyTx
  else Tx_Encode sample_tx ++ [9] = Tx_Encode sample_tx ++ [9] /\ wf_tx sample_tx /\ hash sample_tx = hash NewEmptyTx.
Proof.
  apply (Tx_Decode_canonical NewEmptyTx sample_tx (Tx_Encode sample_tx ++ [9]) [9]);
    [by apply (bool_decide_unpack _)|reflexivity].
Defined.

(** Two malformed messages Decode does not reject: nine bytes announcing too
    many inputs decode to an empty transaction, and a fourteen byte message
    announcing 2^64-1 outputs makes the allocation of the outputs panic. *)
Theorem Tx_Decode_malformed (v : Z) (Hv : is_u 32 v) :
  Tx_Decode NewEmptyTx (PutUint32 v ++ WriteVarInt (MaxTxInPerMessage + 1)) = Ok (NewEmptyTx, []) /\
  Tx_Decode NewEmptyTx (PutUint32 v ++ WriteVarInt 0 ++ WriteVarInt (2 ^ 64 - 1)) = Panic.
Proof.
  unfold Tx_Decode. split; (erewrite rd_bind_ok; [|by apply Uint32_put]); reflexivity.
Qed.
Lemma Tx_Decode_malformed_witness :
  Tx_Decode NewEmptyTx ([1; 0; 0; 0] ++ WriteVarInt (MaxTxInPerMessage + 1)) = Ok (NewEmptyTx, []) /\
  Tx_Decode NewEmptyTx ([1; 0; 0; 0] ++ WriteVarInt 0 ++ WriteVarInt (2 ^ 64 - 1)) = Panic.
Proof. by apply (Tx_Decode_malformed 1). Defined.

(** The stateless check of a transaction decides its rules: for a decoded
    transaction CheckRegularTransaction never panics, and accepts exactly when the
    transaction is no coinbase, has inputs and outputs, is not oversized, every
    output and their exact sum are within the money range, the signature
    operations are within the limit, no input is null and no outpoint is spent
    twice; GetValueOut of an accepted transaction is that sum. *)
Theorem CheckRegularTransaction_spec (t : Tx) (W : wf_tx t) :
  CheckRegularTransaction t <> Panic /\
  (CheckRegularTransaction t = Ok tt <->
   IsCoinBase t = false /\ common_rules t /\
   Forall (fun o => OutPoint_IsNull o = false) (prevouts (ins t)) /\ NoDup (prevouts (ins t))) /\
  (CheckRegularTransaction t = Ok tt -> GetValueOut (E := TxErr) t = Ok (total_out (outs t))).
Proof.
  unfold CheckRegularTransaction. destruct (checkTransactionCommon_spec t W) as [Hnp Hc].
  destruct (IsCoinBase t); [split; [done|]; split; [|done]; split; [done|]; by intros (? & _)|].
  destruct (checkTransactionCommon t) as [[]|e|] eqn:Ec; [| |done].
  2: { split; [done|]. split; [|done]. split; [done|]. intros (_ & Hr & _). by apply Hc in Hr. }
  rw bind_Ok. pose proof (proj1 Hc eq_refl) as Hr.
  assert (GetValueOut (E := TxErr) t = Ok (total_out (outs t))) as HV.
  { unfold GetValueOut. rw value_out_spec; [done|done|apply Hr|apply Hr]. }
  destruct (check_prevouts ∅ (ins t)) as [seen|e|] eqn:Ep.
  - apply check_prevouts_spec in Ep as (? & ? & _). by split.
  - split; [done|]. split; [|done]. split; [done|]. intros (_ & _ & HF & HN).
    pose proof (proj2 (check_prevouts_spec ∅ (ins t) (list_to_set (prevouts (ins t)) ∪ ∅))) as Hok.
    rw Hok in Ep; [done|]. split_and!; [done|done|set_solver|done].
  - exfalso. revert Ep. generalize (∅ : gset OutPoint). induction (ins t) as [|i l IH]; intros m; simpl; [done|].
    repeat case_match; try done. apply IH.
Qed.
Lemma CheckRegularTransaction_spec_witness :
  CheckRegularTransaction sample_tx = Ok tt /\ GetValueOut (E := TxErr) sample_tx = Ok 5000.
Proof.
  destruct (CheckRegularTransaction_spec sample_tx sample_tx_wf) as (_ & _ & HV).
  split; [reflexivity|]. apply HV. reflexivity.
Defined.

(** The same for coinbases: exactly one null input, the common rules, and a
    scriptSig of 2 to 100 bytes. *)
Theorem CheckCoinbaseTransaction_spec (t : Tx) (W : wf_tx t) :
  CheckCoinbaseTransaction t <> Panic /\
  (CheckCoinbaseTransaction t = Ok tt <->
   exists i, ins t = [i] /\ OutPoint_IsNull (PreviousOutPoint i) = true /\ common_rules t /\
             2 <= Size (scriptSig i) <= 100).
Proof.
  unfold CheckCoinbaseTransaction, IsCoinBase. destruct (checkTransactionCommon_spec t W) as [Hnp Hc].
  destruct (ins t) as [|i [|]] eqn:Ei; simpl.
  1, 3: split; [done|]; split; [done|]; by intros (? & ? & _).
  destruct (OutPoint_IsNull _) eqn:En; simpl.
  2: split; [done|]; split; [done|]; intros (? & [= <-] & ? & _); congruence.
  destruct (checkTransactionCommon t) as [[]|e|]; [| |done]; simpl.
  - split; [case_match; done|]. split.
    + intros H. exists i. case_match eqn:Es; [done|]. split_and!; [done|done|by apply Hc|lia..].
    + intros (i' & [= <-] & _ & _ & Hs). case_match eqn:Es; [lia|done].
  - split; [done|]. split; [done|]. intros (i' & _ & _ & Hr & _). by apply Hc in Hr.
Qed.
Lemma CheckCoinbaseTransaction_spec_witness :
  exists i, ins sample_coinbase = [i] /\ OutPoint_IsNull (PreviousOutPoint i) = true /\
    common_rules sample_coinbase /\ 2 <= Size (scriptSig i) <= 100.
Proof.
  apply (CheckCoinbaseTransaction_spec sample_coinbase sample_coinbase_wf). reflexivity.
Defined.

(** C14. A signature with the fork id commits to the spend as its hash type says, for every
    hash type (ALL, NONE, SINGLE, with or without ANYONECANPAY) and with replay protection
    on or off: if two digests of well-formed transactions for the same hash type and flags
    agree and SHA-256 does not collide on
    the buffers hashed for them, then version, lock time, script code, amount, and the
    outpoint and sequence number of the signed input are the same; so are all outpoints
    unless ANYONECANPAY, all sequence numbers for ALL without ANYONECANPAY, all outputs
    for ALL, and the output beside the signed input for SINGLE when both transactions
    have one.  (The digest without the fork id is not covered.) *)
Theorem SignatureHash_commits (Sha256 : bytes -> bytes) (t1 t2 : Tx) (s1 s2 : Script)
    (ht n1 n2 m1 m2 flags : Z) (h : bytes)
    (Hlen : forall b, length (Sha256 b) = 32%nat)
    (W1 : wf_tx t1) (W2 : wf_tx t2)
    (S1 : script_len_ok (data s1)) (S2 : script_len_ok (data s2))
    (M1 : is_i 64 m1) (M2 : is_i 64 m2)
    (Hfork : ht .& SigHashForkID = SigHashForkID)
    (Hflag : all_flag flags ScriptEnableSigHashForkID = true)
    (E1 : SignatureHash (E := TxErr) Sha256 t1 s1 ht n1 m1 flags = Ok h)
    (E2 : SignatureHash (E := TxErr) Sha256 t2 s2 ht n2 m2 flags = Ok h) :
  let anyone := ht .& SigHashAnyoneCanpay =? SigHashAnyoneCanpay in
  let none := ht .& SigHashMask =? SigHashNone in
  let single := ht .& SigHashMask =? SigHashSingle in
  forall p1 p2,
  forkid_preimage (E := TxErr) Sha256 t1 s1 anyone none single (replay_hash_type ht flags) n1 m1 = Ok p1 ->
  forkid_preimage (E := TxErr) Sha256 t2 s2 anyone none single (replay_hash_type ht flags) n2 m2 = Ok p2 ->
  no_collision Sha256 (hashed_parts Sha256 t1 anyone none single n1 p1 ++ hashed_parts Sha256 t2 anyone none single n2 p2) ->
  version t1 = version t2 /\ lockTime t1 = lockTime t2 /\ data s1 = data s2 /\ m1 = m2 /\
  (exists i1 i2, ins t1 !! Z.to_nat n1 = Some i1 /\ ins t2 !! Z.to_nat n2 = Some i2 /\ PreviousOutPoint i1 = PreviousOutPoint i2 /\ Sequence i1 = Sequence i2) /\
  (anyone = false -> prevouts (ins t1) = prevouts (ins t2)) /\
  (anyone || single || none = false -> map Sequence (ins t1) = map Sequence (ins t2)) /\
  (single || none = false -> outs t1 = outs t2) /\
  (single = true -> none = false -> forall o1 o2, outs t1 !! Z.to_nat n1 = Some o1 -> outs t2 !! Z.to_nat n2 = Some o2 -> o1 = o2).
Proof.
  intros anyone none single p1 p2 P1 P2 Hcol. unfold SignatureHash in E1, E2. cbv zeta in E1, E2. fold anyone none single in E1, E2.
  rw replay_keeps_forkid Hfork Hflag in E1. rw replay_keeps_forkid Hfork Hflag in E2.
  change ((SigHashForkID =? SigHashForkID) && true) with true in E1, E2. cbv iota in E1, E2. rw P1 in E1. rw P2 in E2. cbn [mbind res_bind] in E1, E2.
  apply Ok_inj in E1. apply Ok_inj in E2. subst h.
  exact (forkid_commits Sha256 Hlen t1 t2 s1 s2 _ n1 n2 m1 m2 W1 W2 S1 S2 M1 M2 anyone none single p1 p2 Hcol P1 P2 (eq_sym E2)).
Qed.
(** A second input and a second output beside those of [sample_tx]. *)
Definition sample_tx2 : Tx := mkTx HashZero 0 2 [sample_in; mkTxIn (mkOutPoint (replicate 32 8) 1) (convertOPS [1; 6]) 5] [sample_out; mkTxOut 70 (Some (NewScriptRaw [OP_1]))].
Lemma sample_tx2_wf : wf_tx sample_tx2.
Proof.
  split; try done.
  - constructor; [apply sample_in_wf|]. constructor; [|constructor]. split; [split; [done|split; [by apply (bool_decide_unpack _)|done]]|]. split; [split; [by apply (bool_decide_unpack _)|done]|]. done.
  - constructor; [apply sample_out_wf|]. constructor; [|constructor]. split; [done|]. exists [OP_1]. split; [split; [by apply (bool_decide_unpack _)|done]|done].
Qed.
(** SINGLE with ANYONECANPAY: the digests of two different transactions agree, and so do
    the signed input and the output beside it. *)
Lemma SignatureHash_commits_witness : sample_tx <> sample_tx2 /\ exists h,
  SignatureHash (E := TxErr) toy_hash sample_tx NewEmptyScript 0xc3 0 5000 ScriptEnableSigHashForkID = Ok h /\
  SignatureHash (E := TxErr) toy_hash sample_tx2 NewEmptyScript 0xc3 0 5000 ScriptEnableSigHashForkID = Ok h /\
  forall o1 o2, outs sample_tx !! 0%nat = Some o1 -> outs sample_tx2 !! 0%nat = Some o2 -> o1 = o2.
Proof.
  split; [discriminate|].
  assert (script_len_ok (data NewEmptyScript)) as HS by (split; [constructor|done]).
  assert (is_i 64 5000) as HM by done.
  assert (exists h, SignatureHash (E := TxErr) toy_hash sample_tx NewEmptyScript 0xc3 0 5000 ScriptEnableSigHashForkID = Ok h /\
    SignatureHash (E := TxErr) toy_hash sample_tx2 NewEmptyScript 0xc3 0 5000 ScriptEnableSigHashForkID = Ok h) as (h & Hh & Hh2) by (eexists; split; vm_compute; reflexivity).
  exists h. split; [exact Hh|]. split; [exact Hh2|].
  apply (SignatureHash_commits toy_hash sample_tx sample_tx2 NewEmptyScript NewEmptyScript 0xc3 0 0 5000 5000
    ScriptEnableSigHashForkID h toy_hash_length sample_tx_wf sample_tx2_wf HS HS HM HM eq_refl eq_refl Hh Hh2 _ _ eq_refl eq_refl); [|reflexivity|reflexivity].
  apply (bool_decide_unpack _). vm_compute. exact I.
Defined.

(** The cached transaction id never goes stale under the operations that
    rewrite scripts: GetHash returns the hash of the current encoding and
    UpdateInScript refreshes a cached id. *)
Theorem Tx_id_cache (Sha256 : bytes -> bytes) (t : Tx) (i : Z) (s : Script)
    (Hc : id_cached Sha256 t) :
  (GetHash Sha256 t).1 = calHash Sha256 t /\ id_cached Sha256 (GetHash Sha256 t).2 /\
  match UpdateInScript Sha256 t i s with
  | Ok t' => 0 <= i < Z.of_nat (length (ins t)) /\ id_cached Sha256 t' /\
             prevouts (ins t') = prevouts (ins t) /\ scriptSig <$> (ins t' !! Z.to_nat i) = Some s
  | Err e => e = TxErrInvalidIndexOfIn /\ ~ (0 <= i < Z.of_nat (length (ins t)))
  | Panic => False
  end.
Proof.
  split; [|split].
  - unfold GetHash. destruct (Hash_IsNull (hash t)) eqn:E; simpl; [done|]. destruct Hc; congruence.
  - unfold GetHash. destruct (Hash_IsNull (hash t)) eqn:E; simpl; [|done]. by right.
  - unfold UpdateInScript. destruct ((_ <=? i) || (i <? 0)) eqn:Ei; [split; [done|lia]|]. split; [lia|].
    assert (Z.to_nat i < length (ins t))%nat as Hi by lia. apply lookup_lt_is_Some in Hi as [x Hx].
    split_and!.
    + destruct (Hash_IsNull (hash t)) eqn:E; simpl; [by left|by right].
    + unfold prevouts. destruct (negb _); simpl; by apply map_alter_same.
    + destruct (negb _); simpl; rw list_lookup_alter_eq Hx //.
Qed.
Lemma Tx_id_cache_witness :
  (GetHash toy_hash sample_tx).1 = calHash toy_hash sample_tx /\
  (exists t', UpdateInScript toy_hash (GetHash toy_hash sample_tx).2 0 NewEmptyScript = Ok t' /\ id_cached toy_hash t').
Proof.
  destruct (Tx_id_cache toy_hash sample_tx 0 NewEmptyScript) as (H1 & H2 & _); [by left|].
  split; [exact H1|].
  pose proof (Tx_id_cache toy_hash (GetHash toy_hash sample_tx).2 0 NewEmptyScript H2) as (_ & _ & H3).
  destruct (UpdateInScript _ _ _ _) as [t'|e|]; [|exfalso; apply (proj2 H3); split; vm_compute; congruence|destruct H3].
  exists t'. split; [reflexivity|]. exact (proj1 (proj2 H3)).
Defined.
