(* ===== verification/Crypto.v ===== *)
(** * Keys and signatures (crypto/publickey.go, crypto/ecdsasignature.go)

    The node's own code around libsecp256k1; the library itself is the class
    [Secp256k1], an argument of every definition that calls it. *)
From S2P Require Import Prelude Errors Script.

(** What the code uses of github.com/copernet/secp256k1-go.  A parse returns a
    key object together with whether the error is nil; a signature parser gives
    [None] when the return code is not 1 or the error is not nil; normalising
    gives the low-S signature, the return code and whether the error is nil. *)
Class Secp256k1 := {
  Pub : Type;
  Sig : Type;
  EcPubkeyParse : bytes -> Pub * bool;
  EcPubkeySerialize : Pub -> bool -> option bytes;
  EcdsaSignatureParseDerLax : bytes -> option Sig;
  EcdsaSignatureNormalize : Sig -> Sig * Z * bool;
  EcdsaVerify : Sig -> bytes -> Pub -> bool }.

Section Keys.
Context `{Secp256k1}.

Record PublicKey := mkPublicKey { SecpPubKey : Pub; Compressed : bool }.

Definition ParsePubKey (pubKeyStr : bytes) : PublicKey * bool :=
  let '(pubKey, ok) := EcPubkeyParse pubKeyStr in
  (mkPublicKey pubKey (IsCompressedPubKey pubKeyStr), ok).
Definition SerializeCompressed {E} (k : PublicKey) : res E bytes :=
  match EcPubkeySerialize (SecpPubKey k) true with Some b => Ok b | None => Panic end.
Definition SerializeUncompressed {E} (k : PublicKey) : res E bytes :=
  match EcPubkeySerialize (SecpPubKey k) false with Some b => Ok b | None => Panic end.
Definition ToBytes {E} (k : PublicKey) : res E bytes :=
  if Compressed k then SerializeCompressed k else SerializeUncompressed k.
Definition getLen (header : Z) : Z :=
  if (header =? 2) || (header =? 3) then 33
  else if (header =? 4) || (header =? 6) then 65 else 0.
Definition PublicKey_isValid {E} (k : PublicKey) : res E bool :=
  b ← ToBytes k; header ← nth_go b 0; Ok (0 <? getLen header).
Definition PublicKey_Verify {E} (k : PublicKey) (hash vchSig : bytes) : res E bool :=
  valid ← PublicKey_isValid k;
  if negb valid then Ok false
  else
    b ← ToBytes k;
    let '(pubKey, ok) := EcPubkeyParse b in
    if negb ok then Ok false
    else if decide (vchSig = []) then Ok false
    else match EcdsaSignatureParseDerLax vchSig with
    | None => Ok false
    | Some sig => let '(sig, _, _) := EcdsaSignatureNormalize sig in Ok (EcdsaVerify sig hash pubKey)
    end.

Definition ParseDERSignature (signature : bytes) : option Sig := EcdsaSignatureParseDerLax signature.
Definition EcdsaNormalize (sig : Sig) : bool * Sig :=
  let '(sig', _, ok) := EcdsaSignatureNormalize sig in (ok, sig').
Definition Signature_Verify (sig : Sig) (hash : bytes) (k : PublicKey) : bool :=
  EcdsaVerify sig hash (SecpPubKey k).
Definition CheckLowS (vchSig : bytes) : bool :=
  match ParseDERSignature vchSig with
  | None => false
  | Some sig => let '(_, ret, ok) := EcdsaSignatureNormalize sig in negb (negb (ret =? 0) || negb ok)
  end.

(** tx.CheckSig (model/tx/txsignature.go). *)
Definition Tx_CheckSig (signHash vchSigIn vchPubKey : bytes) : bool :=
  if decide (vchPubKey = []) then false
  else if decide (vchSigIn = []) then false
  else
    let '(publicKey, ok) := ParsePubKey vchPubKey in
    if negb ok then false
    else match ParseDERSignature vchSigIn with
    | None => false
    | Some sign =>
        let '(ok, sign) := EcdsaNormalize sign in
        if negb ok then false else Signature_Verify sign signHash publicKey
    end.
End Keys.
