(* ===== verification/Compress.v ===== *)
(** * Compressed outputs (model/txout/compress.go)

    The amounts and scripts of the coins in the UTXO database and in the undo
    files are stored compressed: an amount as its decimal mantissa and exponent,
    the three standard scripts as a tag and their hash or key. *)
From S2P Require Import Prelude Errors Wire ScriptNum Opcodes Script ScriptFacts Tx TxFacts Crypto.

(** ** Amounts *)

(** The loop that strips at most nine trailing zeros; [k] is [9 - e]. *)
Fixpoint strip_zeros (k : nat) (n e : Z) : Z * Z :=
  match k with
  | O => (n, e)
  | S k => if n mod 10 =? 0 then strip_zeros k (n / 10) (e + 1) else (n, e)
  end.
Definition CompressAmount {E} (amt : Z) : res E Z :=
  let n := u64 amt in
  if n =? 0 then Ok 0
  else
    let '(n, e) := strip_zeros 9 n 0 in
    if e <? 9 then
      let d := n mod 10 in
      if (d <? 1) || (9 <? d) then Panic
      else Ok (u64 (1 + (9 * (n / 10) + d - 1) * 10 + e))
    else Ok (u64 (1 + (n - 1) * 10 + 9)).

Fixpoint times10 (e : nat) (n : Z) : Z :=
  match e with O => n | S e => times10 e (u64 (n * 10)) end.
Definition DecompressAmount (x : Z) : Z :=
  if x =? 0 then 0
  else
    let x := x - 1 in
    let e := x mod 10 in
    let x := x / 10 in
    let n := if e <? 9 then u64 (10 * (x / 9) + (x mod 9 + 1)) else u64 (x + 1) in
    i64 (times10 (Z.to_nat e) n).

(** ** Scripts *)
Section Scripts.
Context `{Secp256k1}.

(** [bs[i:j]] where the code has checked the length. *)
Definition sub (bs : bytes) (i j : nat) : bytes := take (j - i) (drop i bs).

Definition isToKeyID (bs : bytes) : option bytes :=
  if bool_decide (length bs = 25%nat) && byte_at bs 0 OP_DUP && byte_at bs 1 OP_HASH160
     && byte_at bs 2 20 && byte_at bs 23 OP_EQUALVERIFY && byte_at bs 24 OP_CHECKSIG
  then Some (sub bs 3 23) else None.
Definition isToScriptID (bs : bytes) : option bytes :=
  if bool_decide (length bs = 23%nat) && byte_at bs 0 OP_HASH160 && byte_at bs 1 20
     && byte_at bs 22 OP_EQUAL
  then Some (sub bs 2 22) else None.
Definition isToPubKey (bs : bytes) : option bytes :=
  if bool_decide (length bs = 35%nat) && byte_at bs 0 33 && byte_at bs 34 OP_CHECKSIG
     && (byte_at bs 1 2 || byte_at bs 1 3)
  then Some (sub bs 1 34)
  else if bool_decide (length bs = 67%nat) && byte_at bs 0 65 && byte_at bs 66 OP_CHECKSIG && byte_at bs 1 4
  then if negb (ParsePubKey (sub bs 1 66)).2 then None else Some (sub bs 1 66)
  else None.

(** The compressed form, empty when the script has none. *)
Definition Compress (bs : bytes) : bytes :=
  match isToKeyID bs with
  | Some keyID => 0 :: keyID
  | None =>
  match isToScriptID bs with
  | Some scriptID => 1 :: scriptID
  | None =>
  match isToPubKey bs with
  | Some pubKey =>
      if byte_at pubKey 0 2 || byte_at pubKey 0 3 then take 1 pubKey ++ sub pubKey 1 33
      else if byte_at pubKey 0 4 then (0x4 .| (nth 64 pubKey 0 .& 0x1)) :: sub pubKey 1 33
      else []
  | None => []
  end end end.

Definition numSpecialScripts : Z := 6.
Definition getSpecialSize (nSize : Z) : nat :=
  if (nSize =? 0) || (nSize =? 1) then 20%nat
  else if (nSize =? 2) || (nSize =? 3) || (nSize =? 4) || (nSize =? 5) then 32%nat
  else 0%nat.

(** [None] when the function returns false; a key that parses is serialised. *)
Definition Decompress {E} (size : Z) (inp : bytes) : res E (option Script) :=
  if size =? 0 then
    Ok (Some (NewScriptRaw ([OP_DUP; OP_HASH160; 20] ++ take 20 inp ++ [OP_EQUALVERIFY; OP_CHECKSIG])))
  else if size =? 1 then
    Ok (Some (NewScriptRaw ([OP_HASH160; 20] ++ take 20 inp ++ [OP_EQUAL])))
  else if (size =? 2) || (size =? 3) then
    Ok (Some (NewScriptRaw ([33; size] ++ take 32 inp ++ [OP_CHECKSIG])))
  else if (size =? 4) || (size =? 5) then
    let '(pubkey, ok) := ParsePubKey ((size - 2) :: take 32 inp) in
    if negb ok then Ok None
    else
      uncompressed ← SerializeUncompressed pubkey;
      Ok (Some (NewScriptRaw ([65] ++ take 65 (uncompressed ++ replicate 65 0) ++ [OP_CHECKSIG])))
  else Ok None.

Definition scriptCompressor_Serialize (s : Script) : res werr bytes :=
  let bs := Compress (data s) in
  if decide (bs <> []) then Ok bs
  else size ← WriteVarLenInt (u64 (Size s + numSpecialScripts)); Ok (size ++ data s).

(** [s] is the script the compressor was made with. *)
Definition scriptCompressor_Unserialize (s : Script) : rd werr Script :=
  size ← ReadVarLenInt;
  if size <? numSpecialScripts then
    vch ← ReadFull (getSpecialSize size);
    s ← rd_lift (Decompress size vch);
    match s with Some s => mret s | None => rd_fail BadCompressedScript end
  else
    let size := size - numSpecialScripts in
    if maxAlloc <? size then rd_panic
    else if MaxScriptSize <? size then
      _ ← ReadFull (Z.to_nat size);
      mret (match PushOpCode s OP_RETURN with Ok s => s | _ => s end)
    else
      tmp ← ReadFull (Z.to_nat size);
      mret (NewScriptRaw tmp).

(** ** Outputs *)

(** NewTxoutCompressor replaces a nil script by an empty one. *)
Definition NewTxoutCompressor (o : TxOut) : TxOut :=
  mkTxOut (value o) (Some (default NewEmptyScript (scriptPubKey o))).
Definition TxoutCompressor_Serialize (o : TxOut) : res werr bytes :=
  count ← CompressAmount (value o);
  c ← WriteVarLenInt count;
  s ← scriptCompressor_Serialize (default NewEmptyScript (scriptPubKey (NewTxoutCompressor o)));
  Ok (c ++ s).
Definition TxoutCompressor_Unserialize (o : TxOut) : rd werr TxOut :=
  count ← ReadVarLenInt;
  s ← scriptCompressor_Unserialize (default NewEmptyScript (scriptPubKey (NewTxoutCompressor o)));
  mret (mkTxOut (DecompressAmount count) (Some s)).
End Scripts.

(** ** Amounts: the mantissa and the exponent determine the number *)
Lemma strip_zeros_spec k : forall n e n' e', 0 < n -> strip_zeros k n e = (n', e') ->
  n = n' * 10 ^ (e' - e) /\ e <= e' <= e + Z.of_nat k /\ 0 < n' /\ (e' < e + Z.of_nat k -> n' mod 10 <> 0).
Proof.
  induction k as [|k IH]; intros n e n' e' Hn Hs; simpl in Hs.
  { injection Hs as <- <-. rw Z.sub_diag. lia. }
  destruct (Z.eqb_spec (n mod 10) 0) as [Hm|Hm].
  - apply IH in Hs as (E & Hr & Hp & Hd); [|Z.to_euclidean_division_equations; lia].
    replace (e' - e) with (1 + (e' - (e + 1))) by lia. rw Z.pow_add_r; [|lia|lia]. change (10 ^ 1) with 10.
    split_and!; [|lia|lia|done|intros; apply Hd; lia]. Z.to_euclidean_division_equations. lia.
  - injection Hs as <- <-. rw Z.sub_diag. split_and!; try lia.
Qed.

Lemma times10_spec e : forall n, 0 <= n -> n * 10 ^ Z.of_nat e < 2 ^ 64 -> times10 e n = n * 10 ^ Z.of_nat e.
Proof.
  induction e as [|e IH]; intros n Hn Hb; cbn [times10]; [lia|].
  rw Nat2Z.inj_succ Z.pow_succ_r in Hb |- *; [|lia..].
  assert (1 <= 10 ^ Z.of_nat e) by lia. rw u64_id; last (split; nia). rw IH; [lia|lia|lia].
Qed.

Lemma CompressAmount_roundtrip {E} amt : 0 <= amt < 2 ^ 60 ->
  exists x, CompressAmount (E := E) amt = Ok x /\ is_u 64 x /\ DecompressAmount x = amt.
Proof.
  intros Ha. unfold CompressAmount. rw u64_id; last int_lia. cbv zeta.
  destruct (Z.eqb_spec amt 0) as [->|H0]; [exists 0; split_and!; done|].
  destruct (strip_zeros 9 amt 0) as [n e] eqn:Es.
  apply strip_zeros_spec in Es as (E1 & He & Hn & Hd); [|lia]. rw Z.sub_0_r in E1. rw Z.add_0_l in He Hd.
  change (Z.of_nat 9) with 9 in *. assert (1 <= 10 ^ e) by (pose proof (Z.pow_pos_nonneg 10 e); lia).
  assert (n <= amt) by nia.
  assert (forall m, m = n -> i64 (times10 (Z.to_nat e) m) = amt) as Ht.
  { intros m ->. assert (Z.of_nat (Z.to_nat e) = e) as Ee by lia.
    rw times10_spec ?Ee; [|lia|int_lia]. rw -E1. apply i64_id. int_lia. }
  destruct (Z.ltb_spec e 9) as [Hlt|Hge].
  - specialize (Hd ltac:(lia)).
    destruct ((_ <? 1) || _) eqn:Ed; [Z.to_euclidean_division_equations; lia|].
    eexists. split; [done|]. split; [apply u64_range|]. rw u64_id; last int_lia.
    unfold DecompressAmount. set (x := 1 + _ + e). destruct (Z.eqb_spec x 0); [subst x; Z.to_euclidean_division_equations; lia|].
    cbv zeta. assert ((x - 1) mod 10 = e) as -> by (subst x; Z.to_euclidean_division_equations; lia).
    destruct (Z.ltb_spec e 9); [|lia]. apply Ht.
    assert ((x - 1) / 10 = 9 * (n / 10) + (n mod 10 - 1)) as -> by (subst x; Z.to_euclidean_division_equations; lia).
    clear x n0. pose proof (Z.mod_pos_bound n 10 ltac:(lia)). pose proof (Z.div_mod n 10 ltac:(lia)).
    set (q := n / 10) in *. set (d := n mod 10) in *.
    assert ((9 * q + (d - 1)) / 9 = q /\ (9 * q + (d - 1)) mod 9 = d - 1) as [-> ->] by (Z.to_euclidean_division_equations; lia).
    rw u64_id; int_lia.
  - assert (e = 9) as -> by lia. eexists. split; [done|]. split; [apply u64_range|]. rw u64_id; last int_lia.
    unfold DecompressAmount. set (x := 1 + _ + 9). destruct (Z.eqb_spec x 0); [subst x; lia|].
    cbv zeta. assert ((x - 1) mod 10 = 9) as -> by (subst x; Z.to_euclidean_division_equations; lia).
    change (9 <? 9) with false. apply Ht.
    assert ((x - 1) / 10 = n - 1) as -> by (subst x; Z.to_euclidean_division_equations; lia). rw u64_id; int_lia.
Qed.

(** ** Scripts *)

(** What the library documents about keys: an uncompressed key that parses has
    its compressed form, with the parity of the last byte in the tag, parse to a
    key that serialises to it. *)
Class SecpCompression `{Secp256k1} : Prop := {
  compressed_parses k : length k = 65%nat -> k !! 0%nat = Some 4 -> (EcPubkeyParse k).2 = true ->
    let c := (0x2 .| (nth 64 k 0 .& 0x1)) :: sub k 1 33 in
    (EcPubkeyParse c).2 = true /\ EcPubkeySerialize (EcPubkeyParse c).1 false = Some k }.

Lemma byte_at_lookup d i b : byte_at d i b = true <-> d !! i = Some b.
Proof. unfold byte_at. destruct (d !! i) as [x|]; [|done]. rw Z.eqb_eq. naive_solver. Qed.

(** A list is its first bytes and the rest. *)
Lemma cons_lookup {A} (l : list A) x : l !! 0%nat = Some x -> l = x :: drop 1 l.
Proof. destruct l; intros [= ->]. by rw /= drop_0. Qed.
Lemma split_at {A} (l : list A) i j x : (i <= j)%nat -> l !! j = Some x ->
  drop i l = take (j - i) (drop i l) ++ x :: drop (S j) l.
Proof.
  intros Hij Hx. rw -{1}(take_drop (j - i) (drop i l)) drop_drop. f_equal.
  replace (i + (j - i))%nat with j by lia. by apply drop_S.
Qed.

(** Name the elements of a list of known length. *)
Ltac explode H := repeat
  lazymatch type of H with
  | length ?d = S _ => destruct d; [discriminate H|]; cbn [length] in H; apply Nat.succ_inj in H
  | length ?d = O => apply nil_length_inv in H; subst d
  end.
Ltac split_andb := repeat match goal with H : _ && _ = true |- _ => apply andb_prop in H as [? H] end.

Lemma isToKeyID_inv d k : isToKeyID d = Some k ->
  length k = 20%nat /\ d = [OP_DUP; OP_HASH160; 20] ++ k ++ [OP_EQUALVERIFY; OP_CHECKSIG].
Proof.
  unfold isToKeyID. destruct (_ && _) eqn:E; [|done]. intros [= <-]. split_andb.
  match goal with H : bool_decide _ = true |- _ => apply bool_decide_eq_true in H; explode H end.
  cbn in *. repeat match goal with H : (_ =? _) = true |- _ => apply Z.eqb_eq in H; subst end. done.
Qed.
Lemma isToScriptID_inv d k : isToScriptID d = Some k ->
  length k = 20%nat /\ d = [OP_HASH160; 20] ++ k ++ [OP_EQUAL].
Proof.
  unfold isToScriptID. destruct (_ && _) eqn:E; [|done]. intros [= <-]. split_andb.
  match goal with H : bool_decide _ = true |- _ => apply bool_decide_eq_true in H; explode H end.
  cbn in *. repeat match goal with H : (_ =? _) = true |- _ => apply Z.eqb_eq in H; subst end. done.
Qed.
Lemma isToPubKey_inv `{Secp256k1} d k : isToPubKey d = Some k ->
  (exists tag x, (tag = 2 \/ tag = 3) /\ length x = 32%nat /\ k = tag :: x /\ d = [33] ++ k ++ [OP_CHECKSIG]) \/
  (length k = 65%nat /\ k !! 0%nat = Some 4 /\ (EcPubkeyParse k).2 = true /\ d = [65] ++ k ++ [OP_CHECKSIG]).
Proof.
  unfold isToPubKey. destruct (bool_decide (length d = 35%nat) && _ && _ && _) eqn:E.
  - intros [= <-]. left. split_andb.
    match goal with H : bool_decide _ = true |- _ => apply bool_decide_eq_true in H; explode H end.
    cbn in *. repeat match goal with H : (_ =? _) = true |- _ => apply Z.eqb_eq in H; subst end.
    eexists _, _. split_and!; cycle 2; [reflexivity|reflexivity|lia|reflexivity].
  - clear E. destruct (bool_decide (length d = 67%nat) && _ && _ && _) eqn:E; [|done]. split_andb.
    match goal with H : bool_decide _ = true |- _ => apply bool_decide_eq_true in H; explode H end.
    cbn in *. repeat match goal with H : (_ =? _) = true |- _ => apply Z.eqb_eq in H; subst end.
    unfold ParsePubKey. destruct (EcPubkeyParse _) as [pk okk] eqn:Ep. cbn. destruct okk; [|done].
    intros [= <-]. right. by rw Ep.
Qed.

Section ScriptRoundtrip.
Context `{Secp256k1} `{!SecpCompression}.

Lemma special_unserialize s tag (b r : bytes) (s' : Script) : 0 <= tag < 6 -> length b = getSpecialSize tag ->
  Decompress (E := werr) tag b = Ok (Some s') ->
  scriptCompressor_Unserialize s (tag :: b ++ r) = Ok (s', r).
Proof.
  intros Ht Hb Hd. unfold scriptCompressor_Unserialize.
  erewrite rd_bind_ok.
  2: { unfold ReadVarLenInt. cbn [ReadVarLenInt_loop]. rw varlen_step // ?varlen_byte_flag //; [|int_lia..].
       case_match; [lia|]. rw Z.mod_small //; lia. }
  rw Z.mul_0_l Z.add_0_l. unfold numSpecialScripts. case_match; [|lia].
  erewrite rd_bind_ok; [|by apply ReadFull_app']. erewrite rd_bind_ok; [|unfold rd_lift; by rw Hd]. done.
Qed.

Lemma Compress_inverse d : Compress d <> [] -> exists tag b,
  Compress d = tag :: b /\ 0 <= tag < 6 /\ length b = getSpecialSize tag /\
  Decompress (E := werr) tag b = Ok (Some (NewScriptRaw d)).
Proof.
  unfold Compress. destruct (isToKeyID d) as [k|] eqn:E1.
  { apply isToKeyID_inv in E1 as [Hl ->]. intros _. exists 0, k. split_and!; [done|lia|lia|done|].
    unfold Decompress. cbn [Z.eqb]. rw firstn_all2 //. lia. }
  destruct (isToScriptID d) as [k|] eqn:E2.
  { apply isToScriptID_inv in E2 as [Hl ->]. intros _. exists 1, k. split_and!; [done|lia|lia|done|].
    unfold Decompress. cbn [Z.eqb Pos.eqb]. rw firstn_all2 //. lia. }
  destruct (isToPubKey d) as [k|] eqn:E3; [|done].
  apply isToPubKey_inv in E3 as [(tag & x & Ht & Hl & -> & ->)|(Hl & H4 & Hp & ->)].
  - intros _. assert (byte_at (tag :: x) 0 2 || byte_at (tag :: x) 0 3 = true) as -> by (destruct Ht; by subst).
    exists tag, x. assert (sub (tag :: x) 1 33 = x) as -> by (unfold sub; cbn; rw -Hl; apply firstn_all).
    split_and!; [done|lia|lia|by destruct Ht; subst|].
    unfold Decompress. destruct Ht; subst; cbn [Z.eqb Pos.eqb orb app]; (rw (firstn_all2 x); [done|lia]).
  - destruct (compressed_parses k Hl H4 Hp) as [Hc Hs].
    assert (byte_at k 0 2 = false /\ byte_at k 0 3 = false /\ byte_at k 0 4 = true) as (-> & -> & ->).
    { unfold byte_at. by rw H4. }
    intros _. cbn [orb]. set (par := nth 64 k 0 .& 0x1) in *.
    assert (par = 0 \/ par = 1) as Hpar.
    { subst par. change 0x1 with (2 ^ 1 - 1). rw land_low //. pose proof (Z.mod_pos_bound (nth 64 k 0) 2). pow2_norm. lia. }
    exists (0x4 .| par), (sub k 1 33).
    assert (length (sub k 1 33) = 32%nat) as Hl' by (unfold sub; rw length_take length_drop Hl; lia).
    split_and!; [done|by destruct Hpar as [-> | ->]..|rw Hl'; by destruct Hpar as [-> | ->]|].
    assert (Decompress (E := werr) (0x4 .| par) (sub k 1 33) =
      (let '(pubkey, ok) := ParsePubKey ((0x2 .| par) :: take 32 (sub k 1 33)) in
       if negb ok then Ok None
       else uncompressed ← SerializeUncompressed pubkey;
            Ok (Some (NewScriptRaw ([65] ++ take 65 (uncompressed ++ replicate 65 0) ++ [OP_CHECKSIG]))))) as ->
      by (by destruct Hpar as [-> | ->]).
    rw firstn_all2; last lia. unfold ParsePubKey, SerializeUncompressed.
    destruct (EcPubkeyParse ((0x2 .| par) :: sub k 1 33)) as [pk okk]. cbn [fst snd SecpPubKey] in *. subst okk. cbn [negb].
    rw Hs. cbn [mbind res_bind]. rw -Hl take_app_length //.
Qed.

Lemma script_roundtrip d s0 : Z.of_nat (length d) <= MaxScriptSize ->
  exists l, scriptCompressor_Serialize (NewScriptRaw d) = Ok l /\
    forall r, scriptCompressor_Unserialize s0 (l ++ r) = Ok (NewScriptRaw d, r).
Proof.
  intros Hd. unfold scriptCompressor_Serialize. rw data_convertOPS. case_decide as Hc.
  - destruct (Compress_inverse d Hc) as (tag & b & E & Ht & Hb & Hdc). exists (Compress d). split; [done|].
    intros r. rw E. by apply special_unserialize.
  - assert (Size (NewScriptRaw d) = Z.of_nat (length d)) as -> by (unfold Size; by rw data_convertOPS).
    unfold numSpecialScripts, MaxScriptSize in *. rw u64_id; last int_lia.
    destruct (EncodeVarLenInt_total (Z.of_nat (length d) + 6)) as [l Hl]; [int_lia|].
    unfold WriteVarLenInt. rw Hl. exists (l ++ d). split; [done|]. intros r. app_right.
    unfold scriptCompressor_Unserialize. erewrite rd_bind_ok; [|eapply ReadVarLenInt_encode; [|exact Hl]; int_lia].
    unfold numSpecialScripts, MaxScriptSize, maxAlloc. repeat (case_match; [lia|]).
    replace (Z.to_nat _) with (length d) by lia. erewrite rd_bind_ok; [done|apply ReadFull_app].
Qed.

Lemma txout_roundtrip v d o0 : 0 <= v < 2 ^ 60 -> Z.of_nat (length d) <= MaxScriptSize ->
  exists l, TxoutCompressor_Serialize (mkTxOut v (Some (NewScriptRaw d))) = Ok l /\
    forall r, TxoutCompressor_Unserialize o0 (l ++ r) = Ok (mkTxOut v (Some (NewScriptRaw d)), r).
Proof.
  intros Hv Hd. destruct (CompressAmount_roundtrip (E := werr) v Hv) as (x & Hx & Hx64 & Hdx).
  destruct (EncodeVarLenInt_total x Hx64) as [lx Hlx].
  set (s0 := default NewEmptyScript (scriptPubKey (NewTxoutCompressor o0))).
  destruct (script_roundtrip d s0 Hd) as (ls & Hls & Hrs). exists (lx ++ ls). split.
  - unfold TxoutCompressor_Serialize. cbn [value]. rw Hx. cbn [mbind res_bind]. unfold WriteVarLenInt. rw Hlx.
    cbn [mbind res_bind NewTxoutCompressor scriptPubKey default]. by rw Hls.
  - intros r. app_right. unfold TxoutCompressor_Unserialize.
    erewrite rd_bind_ok; [|by apply ReadVarLenInt_encode]. erewrite rd_bind_ok; [|apply Hrs]. by rw Hdx.
Qed.
End ScriptRoundtrip.
