(* ===== verification/Coins.v ===== *)
(** * The UTXO set (package utxo)

    coin.go and coinkey.go (a coin and its stored form), coindb.go (the coins in
    the database), lrucache.go (the process-wide cache over the database) and
    coinsmap.go (the changes of one block or transaction over the cache).

    The database is a map from byte keys to byte values, the view that the
    wrapper of package db gives of LevelDB; a failing disk is not represented.
    The LRU cache of the golang-lru package is a parameter ([LruCache]) with its
    documented behaviour ([LruLaws]): it may forget any entry when a new one
    comes in.  The order in which Go iterates over a map is a parameter too. *)
From S2P Require Import Prelude Errors Wire ScriptNum Opcodes Script ScriptFacts Tx TxFacts Crypto Compress.

(** ** Coins *)
Record Coin := mkCoin {
  coin_txOut : TxOut;
  coin_height : Z;
  coin_isCoinBase : bool;
  coin_dirty : bool;
  coin_fresh : bool;
  coin_isMempoolCoin : bool }.

Definition Coin_IsSpendable (c : Coin) : bool := TxOut_IsSpendable (coin_txOut c).
Definition IsSpent (c : Coin) : bool := TxOut_IsNull (coin_txOut c).
Definition Clear (c : Coin) : Coin :=
  mkCoin (SetNull (coin_txOut c)) 0 false (coin_dirty c) (coin_fresh c) (coin_isMempoolCoin c).
Definition set_dirty (b : bool) (c : Coin) : Coin :=
  mkCoin (coin_txOut c) (coin_height c) (coin_isCoinBase c) b (coin_fresh c) (coin_isMempoolCoin c).
Definition set_fresh (b : bool) (c : Coin) : Coin :=
  mkCoin (coin_txOut c) (coin_height c) (coin_isCoinBase c) (coin_dirty c) b (coin_isMempoolCoin c).
(** The copy of a coin without a script has the zero output. *)
Definition DeepCopy (c : Coin) : Coin :=
  mkCoin (match scriptPubKey (coin_txOut c) with
          | Some s => NewTxOut (value (coin_txOut c)) (Some (NewScriptRaw (data s)))
          | None => mkTxOut 0 None
          end)
    (coin_height c) (coin_isCoinBase c) (coin_dirty c) (coin_fresh c) (coin_isMempoolCoin c).

Definition NewFreshCoin (out : TxOut) (height : Z) (isCoinBase : bool) : Coin :=
  mkCoin out height isCoinBase false true false.
Definition NewMempoolCoin (out : TxOut) : Coin := mkCoin out 0 false false true true.
Definition NewEmptyCoin : Coin := mkCoin (NewTxOut 0 None) 0 false false false false.
Definition NewFreshEmptyCoin : Coin := mkCoin (NewTxOut 0 None) 0 false false true false.

(** What is in the database. *)
Abbreviation DB := (gmap bytes bytes).

Section Store.
Context `{Secp256k1}.

Definition Coin_Serialize (c : Coin) : res werr bytes :=
  if IsSpent c then Err AlreadySpent
  else
    let bit := if coin_isCoinBase c then 1 else 0 in
    let heightAndIsCoinBase := i32 (coin_height c .<< 1) .| bit in
    h ← WriteVarLenInt (u64 heightAndIsCoinBase);
    o ← TxoutCompressor_Serialize (coin_txOut c);
    Ok (h ++ o).
(** Into the coin [c]. *)
Definition Coin_Unserialize (c : Coin) : rd werr Coin :=
  hicb ← ReadVarLenInt;
  let heightAndIsCoinBase := i32 hicb in
  let cb := if heightAndIsCoinBase .& 1 =? 1 then true else coin_isCoinBase c in
  o ← TxoutCompressor_Unserialize (coin_txOut c);
  mret (mkCoin o (heightAndIsCoinBase .>> 1) cb (coin_dirty c) (coin_fresh c) (coin_isMempoolCoin c)).

(** ** The database *)
Definition DbCoin : Z := 67.
Definition DbBestBlock : Z := 66.
Definition CoinKey_Serialize (op : OutPoint) : res werr bytes :=
  o ← OutPoint_Serialize op; Ok (DbCoin :: o).

(** [Ok None] is leveldb.ErrNotFound. *)
Definition CoinsDB_GetCoin (db : DB) (op : OutPoint) : res werr (option Coin) :=
  match CoinKey_Serialize op with
  | Ok key =>
      match db !! key with
      | None => Ok None
      | Some coinBuff => '(coin, _) ← Coin_Unserialize NewEmptyCoin coinBuff; Ok (Some coin)
      end
  | _ => Panic
  end.
Definition CoinsDB_HaveCoin (db : DB) (op : OutPoint) : bool :=
  match CoinKey_Serialize op with Ok key => bool_decide (is_Some (db !! key)) | _ => false end.
Definition CoinsDB_GetBestBlock (db : DB) : res werr (option bytes) :=
  match db !! [DbBestBlock] with
  | None => Ok None
  | Some v => '(h, _) ← ReadFull 32 v; Ok (Some h)
  end.

(** The loop of BatchWrite: the batch is applied as a whole at the end. *)
Fixpoint batch_coins (l : list (OutPoint * Coin)) (batch : DB) : res werr DB :=
  match l with
  | [] => Ok batch
  | (k, v) :: l =>
      if coin_dirty v then
        key ← CoinKey_Serialize k;
        if IsSpent v then batch_coins l (delete key batch)
        else coinByte ← Coin_Serialize v; batch_coins l (<[key := coinByte]> batch)
      else batch_coins l batch
  end.
End Store.

(** ** The cache *)
Class LruCache := {
  lru : Type;
  lru_Get : OutPoint -> lru -> option Coin * lru;
  lru_Add : OutPoint -> Coin -> lru -> lru;
  lru_Remove : OutPoint -> lru -> lru;
  lru_Purge : lru -> lru;
  lru_Len : lru -> Z }.

Record CoinsLruCache `{LruCache} := mkCache {
  db : DB;
  hashBlock : bytes;
  cacheCoins : lru;
  dirtyCoins : gmap OutPoint Coin }.

Abbreviation CoinsMap := (gmap OutPoint Coin).

Section Cache.
Context `{Secp256k1} `{LruCache}.
(** Go's iteration order over a map of coins. *)
Context (range : gmap OutPoint Coin -> list (OutPoint * Coin)).

Definition with_lru (st : CoinsLruCache) (c : lru) : CoinsLruCache :=
  mkCache _ (db st) (hashBlock st) c (dirtyCoins st).
Definition with_coin (st : CoinsLruCache) (c : lru) (d : gmap OutPoint Coin) : CoinsLruCache :=
  mkCache _ (db st) (hashBlock st) c d.

Definition GetCoin {E} (st : CoinsLruCache) (op : OutPoint) : res E (option Coin * CoinsLruCache) :=
  match lru_Get op (cacheCoins st) with
  | (Some c, cache) => Ok (Some c, with_lru st cache)
  | (None, cache) =>
      match CoinsDB_GetCoin (db st) op with
      | Ok None => Ok (None, with_lru st cache)
      | Ok (Some coin) =>
          let coin := if IsSpent coin then set_fresh true coin else coin in
          Ok (Some coin, with_lru st (lru_Add op coin cache))
      | _ => Panic
      end
  end.
Definition HaveCoin {E} (st : CoinsLruCache) (op : OutPoint) : res E (bool * CoinsLruCache) :=
  '(coin, st) ← GetCoin st op;
  Ok (match coin with Some c => negb (IsSpent c) | None => false end, st).
(** The second GetCoin is the argument of a log line. *)
Definition RemoveCoins {E} (st : CoinsLruCache) (op : OutPoint) : res E CoinsLruCache :=
  '(coin, st) ← GetCoin st op;
  match coin with
  | None => Ok st
  | Some _ => '(_, st) ← GetCoin (with_lru st (lru_Remove op (cacheCoins st))) op; Ok st
  end.
Definition GetBestBlock {E} (st : CoinsLruCache) : res E (option bytes * CoinsLruCache) :=
  if Hash_IsNull (hashBlock st) then
    match CoinsDB_GetBestBlock (db st) with
    | Ok None => Ok (None, st)
    | Ok (Some h) => Ok (Some h, mkCache _ (db st) h (cacheCoins st) (dirtyCoins st))
    | _ => Panic
    end
  else Ok (Some (hashBlock st), st).

(** One round of the loop of UpdateCoins. *)
Definition update_coin {E} (st : CoinsLruCache) (point : OutPoint) (tempCacheCoin : Coin) : res E CoinsLruCache :=
  if coin_isMempoolCoin tempCacheCoin then Panic
  else if coin_dirty tempCacheCoin || coin_fresh tempCacheCoin then
    match lru_Get point (cacheCoins st) with
    | (None, cache) =>
        if coin_fresh tempCacheCoin then
          let c := set_dirty true tempCacheCoin in
          Ok (with_coin st (lru_Add point c cache) (<[point := c]> (dirtyCoins st)))
        else Panic
    | (Some globalCacheCoin, cache) =>
        if coin_fresh tempCacheCoin && IsSpent globalCacheCoin then Panic
        else if coin_fresh globalCacheCoin && IsSpent tempCacheCoin
        then Ok (with_coin st (lru_Remove point cache) (delete point (dirtyCoins st)))
        else
          let c := set_dirty true tempCacheCoin in
          Ok (with_coin st (lru_Add point c cache) (<[point := c]> (dirtyCoins st)))
    end
  else Ok st.
Fixpoint update_coins {E} (st : CoinsLruCache) (l : list (OutPoint * Coin)) : res E CoinsLruCache :=
  match l with
  | [] => Ok st
  | (point, c) :: l => st ← update_coin st point c; update_coins st l
  end.
(** The map [cm] is emptied; the error is always nil. *)
Definition UpdateCoins {E} (st : CoinsLruCache) (cm : gmap OutPoint Coin) (hash : bytes) : res E CoinsLruCache :=
  st ← update_coins st (range cm);
  Ok (mkCache _ (db st) hash (cacheCoins st) (dirtyCoins st)).

Definition BatchWrite (st : CoinsLruCache) : res werr DB :=
  batch ← batch_coins (range (dirtyCoins st)) (db st);
  Ok (if Hash_IsNull (hashBlock st) then batch else <[ [DbBestBlock] := hashBlock st ]> batch).
Definition Flush {E} (st : CoinsLruCache) : res E CoinsLruCache :=
  if (0 <? Z.of_nat (size (dirtyCoins st))) || negb (Hash_IsNull (hashBlock st)) then
    match BatchWrite st with
    | Ok db => Ok (mkCache _ db (hashBlock st) (lru_Purge (cacheCoins st)) ∅)
    | _ => Panic
    end
  else Ok st.

(** The outputs of a transaction are tried in turn, at most 11000 of them. *)
Fixpoint access_by_txid {E} (n : nat) (st : CoinsLruCache) (h : bytes) (i : Z) : res E (option Coin * CoinsLruCache) :=
  match n with
  | O => Ok (None, st)
  | S n =>
      '(alternate, st) ← GetCoin st (mkOutPoint h i);
      match alternate with
      | Some c => if IsSpent c then access_by_txid n st h (i + 1) else Ok (Some c, st)
      | None => access_by_txid n st h (i + 1)
      end
  end.
Definition AccessByTxID {E} (st : CoinsLruCache) (h : bytes) : res E (option Coin * CoinsLruCache) :=
  access_by_txid (Z.to_nat 11000) st h 0.

(** ** The changes over the cache *)
Definition AccessCoin (cm : CoinsMap) (op : OutPoint) : Coin := default NewEmptyCoin (cm !! op).
(** The coin of an input that is missing is a nil pointer. *)
Definition value_in {E} (cm : CoinsMap) (l : list TxIn) (n : Z) : res E Z :=
  foldl (fun n i => n ← n; c ← deref (cm !! PreviousOutPoint i); Ok (i64 (n + value (coin_txOut c)))) (Ok n) l.
Definition GetValueIn {E} (cm : CoinsMap) (t : Tx) : res E Z :=
  if IsCoinBase t then Ok 0 else value_in cm (ins t) 0.
Definition UnCache (cm : CoinsMap) (op : OutPoint) : CoinsMap := delete op cm.

Definition AddCoin {E} (cm : CoinsMap) (op : OutPoint) (c : Coin) : res E CoinsMap :=
  let c := DeepCopy c in
  if IsSpent c then Panic
  else if negb (Coin_IsSpendable c) then Ok cm
  else Ok (<[op := set_dirty false c]> cm).
Definition SpendCoin {E} (cm : CoinsMap) (op : OutPoint) : res E (option Coin * CoinsMap) :=
  match cm !! op with
  | None => Ok (None, cm)
  | Some coin =>
      if coin_fresh coin then
        if coin_dirty coin then
          if IsSpent coin then Panic
          else let c := Clear coin in Ok (Some c, <[op := c]> cm)
        else Ok (Some coin, delete op cm)
      else let c := Clear (set_dirty true coin) in Ok (Some c, <[op := c]> cm)
  end.
Definition FetchCoin {E} (cm : CoinsMap) (st : CoinsLruCache) (op : OutPoint)
  : res E (option Coin * CoinsMap * CoinsLruCache) :=
  match cm !! op with
  | Some coin => Ok (Some coin, cm, st)
  | None =>
      '(coin, st) ← GetCoin st op;
      match coin with
      | None => Ok (None, cm, st)
      | Some coin =>
          let newCoin := DeepCopy coin in
          if IsSpent newCoin then Panic
          else Ok (Some newCoin, <[op := newCoin]> cm, st)
      end
  end.
Definition SpendGlobalCoin {E} (cm : CoinsMap) (st : CoinsLruCache) (op : OutPoint)
  : res E (option Coin * CoinsMap * CoinsLruCache) :=
  '(coin, cm, st) ← FetchCoin cm st op;
  match coin with
  | None => Ok (None, cm, st)
  | Some coin =>
      let copied := DeepCopy coin in
      '(spent, cm) ← SpendCoin cm op;
      Ok (match spent with Some _ => Some copied | None => None end, cm, st)
  end.
(** Into the cache, leaving the map empty. *)
Definition CoinsMap_Flush {E} (cm : CoinsMap) (st : CoinsLruCache) (hash : bytes)
  : res E (CoinsMap * CoinsLruCache) :=
  st ← UpdateCoins st cm hash; Ok (∅, st).
End Cache.
