(* ===== verification/CoinsFacts.v ===== *)
(** * The UTXO layers implement one map of coins

    The database, the cache and the changes of a block each represent a finite
    map from outpoints to coins; reading, spending, adding, committing and
    flushing are the map operations. *)
From S2P Require Import Prelude Errors Wire ScriptNum Opcodes Script ScriptFacts Tx TxFacts Crypto Compress Coins.

(** ** Stored coins *)

(** A coin without the flags of the cache, as the database returns it. *)
Definition plain (c : Coin) : Coin := mkCoin (coin_txOut c) (coin_height c) (coin_isCoinBase c) false false false.

(** What a block puts into the UTXO set. *)
Record storable (c : Coin) : Prop := {
  sto_script : exists d, scriptPubKey (coin_txOut c) = Some (NewScriptRaw d);
  sto_spendable : Coin_IsSpendable c = true;
  sto_value : 0 <= value (coin_txOut c) < 2 ^ 60;
  sto_height : 0 < coin_height c < 2 ^ 30 }.

Lemma storable_plain c : storable c -> storable (plain c).
Proof. by intros []. Qed.
Lemma storable_not_spent c : storable c -> IsSpent c = false.
Proof. intros [_ _ Hv _]. unfold IsSpent, TxOut_IsNull. destruct (Z.eqb_spec (value (coin_txOut c)) (-1)); [lia|done]. Qed.
Lemma DeepCopy_id c : (exists d, scriptPubKey (coin_txOut c) = Some (NewScriptRaw d)) -> DeepCopy c = c.
Proof.
  intros [d Hd]. unfold DeepCopy. rw Hd. unfold NewTxOut. cbn. rw !data_convertOPS -/(NewScriptRaw d).
  destruct c as [[v s] h cb di f m]. cbn in *. by subst s.
Qed.
Lemma spent_clear c : IsSpent (Clear c) = true.
Proof. done. Qed.

Section Codec.
Context `{Secp256k1} `{!SecpCompression}.

Lemma storable_script_size c d : storable c -> scriptPubKey (coin_txOut c) = Some (NewScriptRaw d) ->
  Z.of_nat (length d) <= MaxScriptSize.
Proof.
  intros [_ Hs _ _] Hd. unfold Coin_IsSpendable, TxOut_IsSpendable, IsSpendable in Hs. rw Hd in Hs.
  unfold Size in Hs. rw data_convertOPS in Hs. destruct (byte_at d 0 OP_RETURN); [done|]. lia.
Qed.

Lemma height_bits h (b : bool) : 0 <= h < 2 ^ 30 ->
  let x := i32 (h .<< 1) .| (if b then 1 else 0) in
  is_u 64 (u64 x) /\ i32 (u64 x) .>> 1 = h /\ (i32 (u64 x) .& 1 =? 1) = b.
Proof.
  intros Hh x. assert (x = 2 * h + (if b then 1 else 0)) as ->.
  { subst x. rw i32_id; last (rw Z.shiftl_mul_pow2 //; int_lia). rw Z.lor_comm lor_shift_add //; [|by destruct b].
    change (2 ^ 1) with 2. lia. }
  assert (u64 (2 * h + (if b then 1 else 0)) = 2 * h + (if b then 1 else 0)) as -> by (rw u64_id //; destruct b; int_lia).
  split; [destruct b; int_lia|]. rw i32_id; last (destruct b; int_lia). rw Z.shiftr_div_pow2 //.
  change (_ .& 1) with ((2 * h + (if b then 1 else 0)) .& (2 ^ 1 - 1)). rw land_low //.
  change (2 ^ 1) with 2. destruct b; split; Z.to_euclidean_division_equations; try lia.
Qed.

Lemma Coin_roundtrip c c0 : storable c -> coin_isCoinBase c0 = false ->
  exists l, Coin_Serialize c = Ok l /\
    forall r, Coin_Unserialize c0 (l ++ r)
      = Ok (mkCoin (coin_txOut c) (coin_height c) (coin_isCoinBase c) (coin_dirty c0) (coin_fresh c0) (coin_isMempoolCoin c0), r).
Proof.
  intros Hc Hcb0. pose proof (storable_not_spent c Hc) as Hsp. destruct (sto_script c Hc) as [d Hd].
  pose proof (storable_script_size c d Hc Hd) as Hsz. destruct Hc as [_ _ Hv Hh].
  destruct (height_bits (coin_height c) (coin_isCoinBase c) ltac:(lia)) as (Hu & Hhe & Hcb).
  set (x := u64 _) in *. destruct (EncodeVarLenInt_total x Hu) as [lh Hlh].
  destruct c as [[v s] h cb di f m]. cbn [coin_txOut scriptPubKey value coin_height coin_isCoinBase] in *. subst s.
  destruct (txout_roundtrip v d (coin_txOut c0) Hv Hsz) as (lo & Hlo & Hro).
  exists (lh ++ lo). unfold Coin_Serialize. rw Hsp. cbn [coin_isCoinBase coin_height coin_txOut]. fold x.
  unfold WriteVarLenInt. rw Hlh. cbn [mbind res_bind]. rw Hlo. split; [done|]. intros r. app_right.
  unfold Coin_Unserialize. erewrite rd_bind_ok; [|by apply ReadVarLenInt_encode]. cbv zeta. rw Hcb Hhe.
  erewrite rd_bind_ok; [|apply Hro]. by destruct cb; rw ?Hcb0.
Qed.

(** ** Keys *)
Lemma key_total op : wf_outpoint op -> exists k, CoinKey_Serialize op = Ok k /\ k <> [DbBestBlock].
Proof.
  intros (_ & _ & Hi). unfold CoinKey_Serialize, OutPoint_Serialize, WriteVarLenInt.
  destruct (EncodeVarLenInt_total (Index op)) as [l ->]; [int_lia|]. by eexists.
Qed.
Lemma key_inj op op' k : wf_outpoint op -> wf_outpoint op' -> CoinKey_Serialize op = Ok k -> CoinKey_Serialize op' = Ok k -> op = op'.
Proof.
  assert (forall op, wf_outpoint op -> CoinKey_Serialize op = Ok k ->
    (h ← ReadFull 32; n ← ReadVarLenInt; mret (mkOutPoint h n)) (drop 1 k) = Ok (op, []) :> res werr _) as Hk.
  { intros o (Hl & _ & Hi). unfold CoinKey_Serialize, OutPoint_Serialize, WriteVarLenInt.
    destruct (EncodeVarLenInt_total (Index o)) as [l Hl']; [int_lia|]. rw Hl'. intros [= <-]. cbn [drop].
    erewrite rd_bind_ok; [|by apply ReadFull_app']. rw -(app_nil_r l).
    erewrite rd_bind_ok; [|apply ReadVarLenInt_encode; [|exact Hl']; int_lia]. by destruct o. }
  intros H1 H2 E1 E2. pose proof (Hk op H1 E1) as K1. rw (Hk op' H2 E2) in K1. by injection K1.
Qed.
End Codec.

(** ** The cache library *)

(** The documented behaviour of the LRU cache: it is a map that drops the entry
    least recently used when a new key would exceed its 1000000 entries. *)
Definition lru_capacity : nat := Z.to_nat 1000000.
Class LruLaws `{LruCache} := {
  contents : lru -> gmap OutPoint Coin;
  contents_Get k c : (lru_Get k c).1 = contents c !! k /\ contents (lru_Get k c).2 = contents c;
  contents_Add_self k v c : contents (lru_Add k v c) !! k = Some v;
  contents_Add_other k k' v c : k <> k' ->
    contents (lru_Add k v c) !! k' = contents c !! k' \/ contents (lru_Add k v c) !! k' = None;
  contents_Add_room k v c : (size (dom (contents c) ∪ {[k]} : gset OutPoint) <= lru_capacity)%nat ->
    contents (lru_Add k v c) = <[k := v]> (contents c);
  contents_Remove k c : contents (lru_Remove k c) = delete k (contents c);
  contents_Purge c : contents (lru_Purge c) = ∅ }.

(** ** Representation *)
Section Represent.
Context `{Secp256k1} `{!SecpCompression} `{LruCache} `{!LruLaws}.

(** The coins of a UTXO set. *)
Definition wf_utxo (U : gmap OutPoint Coin) : Prop :=
  map_Forall (fun op c => wf_outpoint op /\ storable c /\ plain c = c) U.
(** The database holds exactly the coins of [U]. *)
Record db_rep (d : DB) (U : gmap OutPoint Coin) : Prop := {
  rep_wf : wf_utxo U;
  rep_get op : wf_outpoint op -> CoinsDB_GetCoin d op = Ok (U !! op) }.

(** The cache holds coins of the database only, all of them in the set [T] that
    fits the cache. *)
Record cache_ok (T : gset OutPoint) (st : CoinsLruCache) (U : gmap OutPoint Coin) : Prop := {
  ok_rep : db_rep (db st) U;
  ok_dirty : dirtyCoins st = ∅;
  ok_clean : contents (cacheCoins st) ⊆ U;
  ok_room : dom (contents (cacheCoins st)) ⊆ T }.

Context (T : gset OutPoint) (HT : (size T <= lru_capacity)%nat).

Lemma room_in c k : dom (contents c) ⊆ T -> k ∈ T -> (size (dom (contents c) ∪ {[k]} : gset OutPoint) <= lru_capacity)%nat.
Proof. intros Hd Hk. etrans; [|exact HT]. apply subseteq_size. set_solver. Qed.

Lemma utxo_coin U op c : wf_utxo U -> U !! op = Some c -> wf_outpoint op /\ storable c /\ plain c = c.
Proof. intros Hw Hc. exact (Hw op c Hc). Qed.

(** Reading through the cache. *)
Lemma GetCoin_rep {E} st U op : cache_ok T st U -> wf_outpoint op -> op ∈ T ->
  exists st', GetCoin (E := E) st op = Ok (U !! op, st') /\ cache_ok T st' U /\ hashBlock st' = hashBlock st /\
    contents (cacheCoins st) ⊆ contents (cacheCoins st') /\ contents (cacheCoins st') !! op = U !! op.
Proof.
  intros [Hr Hd Hc Hm] Hw HopT. unfold GetCoin. destruct (contents_Get op (cacheCoins st)) as [G1 G2].
  destruct (lru_Get op (cacheCoins st)) as [[c|] cache]; cbn [fst snd] in *.
  - symmetry in G1. pose proof (lookup_weaken _ _ _ _ G1 Hc) as HU. rw HU. eexists. split; [done|]. cbn.
    rw G2. split_and!; [|done|done|done]. by split; cbn; rw ?G2.
  - rw (rep_get _ _ Hr) //. destruct (U !! op) as [c|] eqn:HU.
    + destruct (utxo_coin U op c (rep_wf _ _ Hr) HU) as (_ & Hs & _). rw (storable_not_spent c Hs).
      assert (contents (lru_Add op c cache) = <[op := c]> (contents (cacheCoins st))) as Ha.
      { rw -G2. apply contents_Add_room, room_in; [by rw G2|done]. }
      eexists. split; [done|]. cbn. rw Ha. split_and!; [|done|by apply insert_subseteq|by apply lookup_insert_eq].
      split; cbn; [done|done| |]; rw Ha; [by apply insert_subseteq_l|]. rw dom_insert. set_solver.
    + eexists. split; [done|]. cbn. rw G2. split_and!; [|done|done|done]. by split; cbn; rw ?G2.
Qed.

(** *** The changes of a block over a UTXO set *)

(** What the entry of [cm] for an outpoint says: [u] is the coin of the UTXO set
    below, [v] the coin seen through [cm]. *)
Inductive entry_rep : option Coin -> option Coin -> option Coin -> Prop :=
| er_none u : entry_rep None u u
| er_fresh c : coin_fresh c = true -> coin_dirty c = false -> coin_isMempoolCoin c = false -> storable c ->
    entry_rep (Some c) None (Some (plain c))
| er_read c : storable c -> plain c = c -> entry_rep (Some c) (Some c) (Some c)
| er_spent c u : coin_fresh c = false -> coin_dirty c = true -> coin_isMempoolCoin c = false -> IsSpent c = true ->
    entry_rep (Some c) (Some u) None.

(** [cm] over [U] shows [V]; the coins it has read are in the cache. *)
Record cm_rep (st : CoinsLruCache) (U : gmap OutPoint Coin) (cm : CoinsMap) (V : gmap OutPoint Coin) : Prop := {
  cm_entry op : entry_rep (cm !! op) (U !! op) (V !! op);
  cm_read op c : cm !! op = Some c -> coin_fresh c = false -> contents (cacheCoins st) !! op = U !! op;
  cm_room : dom cm ⊆ T;
  cm_wf op c : cm !! op = Some c -> wf_outpoint op }.

Lemma cm_rep_empty st U : cm_rep st U ∅ U.
Proof. split; intros op; rw ?lookup_empty; [constructor|done| |done]. set_solver. Qed.

Lemma cm_rep_cache st st' U cm V : contents (cacheCoins st) ⊆ contents (cacheCoins st') -> cache_ok T st' U ->
  cm_rep st U cm V -> cm_rep st' U cm V.
Proof.
  intros Hs Hok [He Hr Hm Hw]. split; [done| |done|done]. intros op c Hc Hf. pose proof (Hr op c Hc Hf) as Hrd.
  pose proof (He op) as Hee. rw Hc in Hee. destruct (U !! op) as [u|] eqn:HU.
  - eapply lookup_weaken; [exact Hrd|done].
  - inversion Hee; congruence.
Qed.

Lemma cm_view_wf st U cm V : wf_utxo U -> cm_rep st U cm V -> wf_utxo V.
Proof.
  intros HU [He _ _ Hw] op v Hv. specialize (He op). rw Hv in He.
  destruct (cm !! op) as [c|] eqn:Ec; [|inversion He; subst; by apply HU].
  specialize (Hw op c Ec). inversion He; subst; [|done].
  split_and!; [done|by apply storable_plain|done].
Qed.

Lemma FetchCoin_rep {E} st U cm V op : cache_ok T st U -> cm_rep st U cm V -> wf_outpoint op -> op ∈ T ->
  exists st' cm' c, FetchCoin (E := E) cm st op = Ok (c, cm', st') /\ cache_ok T st' U /\ hashBlock st' = hashBlock st /\
    cm_rep st' U cm' V /\ c = cm' !! op /\ (V !! op = None -> forall c', c = Some c' -> IsSpent c' = true) /\
    (forall v, V !! op = Some v -> exists c', c = Some c' /\ plain c' = v /\ IsSpent c' = false).
Proof.
  intros Hok Hcm Hw HopT. unfold FetchCoin. pose proof (cm_entry _ _ _ _ Hcm op) as He.
  destruct (cm !! op) as [c|] eqn:Ec.
  - exists st, cm, (Some c). split_and!; try done.
    + intros HV c' [= <-]. rw HV in He. by inversion He.
    + intros v HV. rw HV in He. exists c. split; [done|].
      by inversion He; subst; (split; [done|]; apply storable_not_spent).
  - destruct (GetCoin_rep (E := E) st U op Hok Hw HopT) as (st' & -> & Hok' & Hh & Hsub & Hop). cbn [mbind res_bind].
    assert (U !! op = V !! op) as Hv by by inversion He.
    pose proof (cm_rep_cache st st' U cm V Hsub Hok' Hcm) as Hcm'. destruct (U !! op) as [u|] eqn:HU.
    + destruct (utxo_coin U op u (rep_wf _ _ (ok_rep _ _ _ Hok)) HU) as (_ & Hs & Hp).
      rw (DeepCopy_id u (sto_script u Hs)) (storable_not_spent u Hs).
      exists st', (<[op := u]> cm), (Some u). split_and!; try done.
      * destruct Hcm' as [He' Hr' Hm' Hw']. split.
        -- intros op'. destruct (decide (op = op')) as [<-|Hne].
           ++ rw lookup_insert_eq -Hv HU. by constructor.
           ++ rw lookup_insert_ne //.
        -- intros op' c'. destruct (decide (op = op')) as [<-|Hne]; [by rw lookup_insert_eq Hop HU|].
           rw lookup_insert_ne //. apply Hr'.
        -- rw dom_insert. set_solver.
        -- intros op' c'. destruct (decide (op = op')) as [<-|Hne]; [done|]. rw lookup_insert_ne //. apply Hw'.
      * by rw lookup_insert_eq.
      * intros HV. congruence.
      * intros v HV. exists u. split; [done|]. split; [congruence|by apply storable_not_spent].
    + exists st', cm, None. split_and!; try done. intros v HV. congruence.
Qed.

(** Spending a coin that [cm] has. *)
Lemma SpendCoin_rep {E} st U cm V op v : cm_rep st U cm V -> V !! op = Some v -> is_Some (cm !! op) ->
  exists c cm', SpendCoin (E := E) cm op = Ok (Some c, cm') /\ cm_rep st U cm' (delete op V).
Proof.
  intros [He Hr Hm Hw] HV [c Hc]. unfold SpendCoin. rw Hc. pose proof (He op) as Heo. rw Hc HV in Heo.
  assert (forall cm', (forall op', op <> op' -> cm' !! op' = cm !! op') -> dom cm' ⊆ dom cm ->
    entry_rep (cm' !! op) (U !! op) None ->
    (forall c', cm' !! op = Some c' -> coin_fresh c' = false -> contents (cacheCoins st) !! op = U !! op) ->
    cm_rep st U cm' (delete op V)) as Hgo.
  { intros cm' Ho Hd Hee Hrr. split.
    - intros op'. destruct (decide (op = op')) as [<-|Hne]; [by rw lookup_delete_eq|]. rw lookup_delete_ne // Ho //.
    - intros op' c'. destruct (decide (op = op')) as [<-|Hne]; [by apply Hrr|]. rw Ho //. apply Hr.
    - set_solver.
    - intros op' c' Hc'. assert (op' ∈ dom cm) as Hin by (apply Hd, elem_of_dom; eauto).
      apply elem_of_dom in Hin as [c0 Hc0]. eauto. }
  inversion Heo as [|c1 Hf Hdi Hmp Hst E1 E2 E3|c1 Hst Hp E1 E2 E3|]; subst.
  - rw Hf Hdi. eexists _, _. split; [done|]. apply Hgo.
    + intros op' Hne. by rw lookup_delete_ne.
    + rw dom_delete. set_solver.
    + rw lookup_delete_eq -E2. constructor.
    + intros c'. by rw lookup_delete_eq.
  - assert (coin_fresh v = false /\ coin_isMempoolCoin v = false) as [Hf Hmp] by (by rw -Hp).
    rw Hf. eexists _, _. split; [done|]. apply Hgo.
    + intros op' Hne. by rw lookup_insert_ne.
    + rw dom_insert. apply elem_of_dom_2 in Hc. set_solver.
    + rw lookup_insert_eq -E2. by constructor.
    + intros c' _ _. apply (Hr op v Hc Hf).
Qed.

(** Adding a coin that is not in the UTXO set below. *)
Lemma AddCoin_rep {E} st U cm V op c : cm_rep st U cm V -> U !! op = None -> wf_outpoint op -> op ∈ T ->
  coin_fresh c = true -> coin_isMempoolCoin c = false -> storable c ->
  exists cm', AddCoin (E := E) cm op c = Ok cm' /\ cm_rep st U cm' (<[op := plain c]> V).
Proof.
  intros [He Hr Hm Hw] HU Hwf HopT Hf Hmp Hs. unfold AddCoin. rw DeepCopy_id; last by apply sto_script.
  rw (storable_not_spent c Hs) (sto_spendable c Hs). cbn [negb]. eexists. split; [done|]. split.
  - intros op'. destruct (decide (op = op')) as [<-|Hne]; [|by rw !lookup_insert_ne].
    rw !lookup_insert_eq HU. change (plain c) with (plain (set_dirty false c)). constructor; [done|done|done|by destruct Hs].
  - intros op' c'. destruct (decide (op = op')) as [<-|Hne]; [|rw lookup_insert_ne //; apply Hr].
    rw lookup_insert_eq. intros [= <-]. cbn. congruence.
  - rw dom_insert. set_solver.
  - intros op' c'. destruct (decide (op = op')) as [<-|Hne]; [done|]. rw lookup_insert_ne //. apply Hw.
Qed.

(** *** Committing *)
Definition touched (c : Coin) : bool := coin_dirty c || coin_fresh c.

(** An entry that UpdateCoins can take over. *)
Definition update_ok (st : CoinsLruCache) (op : OutPoint) (c : Coin) : Prop :=
  op ∈ T /\ coin_isMempoolCoin c = false /\
  (touched c = true ->
   if coin_fresh c then contents (cacheCoins st) !! op = None
   else exists g, contents (cacheCoins st) !! op = Some g /\ coin_fresh g = false).

Lemma update_coin_rep {E} st op c : dom (contents (cacheCoins st)) ⊆ T -> update_ok st op c ->
  exists st', update_coin (E := E) st op c = Ok st' /\ db st' = db st /\
    dom (contents (cacheCoins st')) ⊆ T /\
    (forall op', op <> op' -> contents (cacheCoins st') !! op' = contents (cacheCoins st) !! op') /\
    dirtyCoins st' = if touched c then <[op := set_dirty true c]> (dirtyCoins st) else dirtyCoins st.
Proof.
  intros Hd (HopT & Hmp & Ht). unfold update_coin. rw Hmp. unfold touched in *.
  destruct (coin_dirty c || coin_fresh c) eqn:Etc; [|by eexists].
  specialize (Ht eq_refl). destruct (contents_Get op (cacheCoins st)) as [G1 G2].
  destruct (lru_Get op (cacheCoins st)) as [g cache]; cbn [fst snd] in *.
  assert (contents (lru_Add op (set_dirty true c) cache) = <[op := set_dirty true c]> (contents (cacheCoins st))) as Ha.
  { rw -G2. apply contents_Add_room, room_in; [by rw G2|done]. }
  assert (exists st', Ok (E := E) (with_coin st (lru_Add op (set_dirty true c) cache) (<[op := set_dirty true c]> (dirtyCoins st))) = Ok st' /\
    db st' = db st /\ dom (contents (cacheCoins st')) ⊆ T /\
    (forall op', op <> op' -> contents (cacheCoins st') !! op' = contents (cacheCoins st) !! op') /\
    dirtyCoins st' = <[op := set_dirty true c]> (dirtyCoins st)) as Hgo.
  { eexists. split; [done|]. cbn. rw Ha. split_and!; [done|rw dom_insert; set_solver| |done].
    intros op' Hne. by rw lookup_insert_ne. }
  destruct (coin_fresh c) eqn:Ef.
  - rw Ht in G1. subst g. done.
  - destruct Ht as (g' & Hg & Hgf). rw Hg in G1. subst g. rw Hgf. done.
Qed.

Lemma update_coins_rep {E} l : forall st, NoDup l.*1 -> dom (contents (cacheCoins st)) ⊆ T ->
  (forall op c, (op, c) ∈ l -> update_ok st op c) ->
  exists st', update_coins (E := E) st l = Ok st' /\ db st' = db st /\
    (forall op c, (op, c) ∈ l -> touched c = true -> dirtyCoins st' !! op = Some (set_dirty true c)) /\
    (forall op, (forall c, (op, c) ∈ l -> touched c = false) -> dirtyCoins st' !! op = dirtyCoins st !! op).
Proof.
  induction l as [|[op c] l IH]; intros st Hnd Hd Hl; cbn [update_coins].
  { exists st. split_and!; [done|done|set_solver|done]. }
  cbn in Hnd. apply NoDup_cons in Hnd as [Hnin Hnd].
  destruct (update_coin_rep (E := E) st op c Hd (Hl op c ltac:(set_solver))) as (st1 & -> & Hdb & Hd1 & Hc1 & Hdc).
  assert (forall op' c', (op', c') ∈ l -> op <> op') as Hne.
  { intros op' c' Hin ->. apply Hnin. apply list_elem_of_fmap. by exists (op', c'). }
  destruct (IH st1 Hnd Hd1) as (st' & E' & Hdb' & Hin' & Hout').
  { intros op' c' Hin. destruct (Hl op' c' ltac:(set_solver)) as (? & ? & Ht). split_and!; [done|done|].
    intros Htc. rw Hc1; [|by eapply Hne]. by apply Ht. }
  exists st'. cbn [mbind res_bind]. rw E'. split_and!; [done|by rw Hdb'| |].
  - intros op' c' Hin Htc. apply elem_of_cons in Hin as [[= -> ->]|Hin]; [|by apply Hin'].
    rw Hout' ?Hdc ?Htc ?lookup_insert_eq //. intros c' Hc'. by apply Hne in Hc'.
  - intros op' Hno. rw Hout'; [|intros c' Hc'; apply Hno; set_solver]. rw Hdc.
    destruct (touched c) eqn:Etc; [|done]. rw lookup_insert_ne //. intros ->.
    rw (Hno c) // in Etc. set_solver.
Qed.

Lemma GetCoin_insert d op op' k b : wf_outpoint op -> wf_outpoint op' -> CoinKey_Serialize op = Ok k -> op <> op' ->
  CoinsDB_GetCoin (<[k := b]> d) op' = CoinsDB_GetCoin d op' /\ CoinsDB_GetCoin (delete k d) op' = CoinsDB_GetCoin d op'.
Proof.
  intros Hw Hw' Hk Hne. unfold CoinsDB_GetCoin. destruct (key_total op' Hw') as (k' & Hk' & _). rw Hk'.
  assert (k <> k') by (intros ->; apply Hne; exact (key_inj op op' k' Hw Hw' Hk Hk')). by rw lookup_insert_ne // lookup_delete_ne.
Qed.

Lemma batch_coins_rep l : forall d, NoDup l.*1 ->
  (forall op c, (op, c) ∈ l -> wf_outpoint op /\ coin_dirty c = true /\ (IsSpent c = true \/ storable c)) ->
  exists d', batch_coins l d = Ok d' /\
    (forall op c, (op, c) ∈ l -> CoinsDB_GetCoin d' op = Ok (if IsSpent c then None else Some (plain c))) /\
    (forall op, wf_outpoint op -> (forall c, (op, c) ∉ l) -> CoinsDB_GetCoin d' op = CoinsDB_GetCoin d op).
Proof.
  induction l as [|[op c] l IH]; intros d Hnd Hl; cbn [batch_coins].
  { exists d. split_and!; [done|by intros op c ?%not_elem_of_nil|done]. }
  cbn in Hnd. apply NoDup_cons in Hnd as [Hnin Hnd]. destruct (Hl op c (list_elem_of_here _ _)) as (Hw & Hdi & Hsp).
  destruct (key_total op Hw) as (k & Hk & _). rw Hdi Hk. cbn [mbind res_bind].
  assert (forall c', (op, c') ∉ l) as Hnl.
  { intros c' Hin. apply Hnin, list_elem_of_fmap. by exists (op, c'). }
  assert (forall d1, CoinsDB_GetCoin d1 op = Ok (if IsSpent c then None else Some (plain c)) ->
    (forall op', wf_outpoint op' -> op <> op' -> CoinsDB_GetCoin d1 op' = CoinsDB_GetCoin d op') ->
    exists d', batch_coins l d1 = Ok d' /\
    (forall op0 c0, (op0, c0) ∈ (op, c) :: l -> CoinsDB_GetCoin d' op0 = Ok (if IsSpent c0 then None else Some (plain c0))) /\
    (forall op0, wf_outpoint op0 -> (forall c0, (op0, c0) ∉ (op, c) :: l) -> CoinsDB_GetCoin d' op0 = CoinsDB_GetCoin d op0)) as Hgo.
  { intros d1 Hd1 Ho1. destruct (IH d1 Hnd) as (d' & E & Hin & Hout);
      [intros op0 c0 Hi; by apply Hl, list_elem_of_further|].
    exists d'. split_and!; [done| |].
    - intros op0 c0 [[= -> ->]|Hi]%elem_of_cons; [by rw Hout|by apply Hin].
    - intros op0 Hw0 Hn0. rw Hout //; [|intros c0 Hi; by apply (Hn0 c0), list_elem_of_further]. apply Ho1; [done|].
      intros ->. apply (Hn0 c), list_elem_of_here. }
  destruct (IsSpent c) eqn:Esp.
  - apply Hgo; [unfold CoinsDB_GetCoin; by rw Hk lookup_delete_eq|].
    intros op' Hw' Hne. by destruct (GetCoin_insert d op op' k [] Hw Hw' Hk Hne) as [_ ->].
  - destruct Hsp as [|Hst]; [done|]. destruct (Coin_roundtrip c NewEmptyCoin Hst eq_refl) as (b & Hb & Hrb).
    rw Hb. cbn [mbind res_bind]. apply Hgo.
    + unfold CoinsDB_GetCoin. rw Hk lookup_insert_eq. specialize (Hrb []). rw app_nil_r in Hrb. rw Hrb. done.
    + intros op' Hw' Hne. by destruct (GetCoin_insert d op op' k b Hw Hw' Hk Hne) as [-> _].
Qed.

(** UpdateCoins and Flush make the changes of [cm] permanent, whatever order Go
    iterates in. *)
Context (range : gmap OutPoint Coin -> list (OutPoint * Coin)) (Hrange : forall m, range m ≡ₚ map_to_list m).

Lemma range_elem m op c : (op, c) ∈ range m <-> m !! op = Some c.
Proof. by rw Hrange elem_of_map_to_list. Qed.
Lemma range_nodup m : NoDup (range m).*1.
Proof. rw (Hrange m). apply NoDup_fst_map_to_list. Qed.

Lemma cm_update_ok st U cm V op c : cache_ok T st U -> cm_rep st U cm V -> cm !! op = Some c -> update_ok st op c.
Proof.
  intros Hok [He Hr Hm _] Hc. specialize (He op). rw Hc in He.
  assert (op ∈ T) as HopT by (apply Hm, elem_of_dom; eauto).
  pose proof (ok_clean _ _ _ Hok) as Hcl. inversion He as [|c1 Hf Hd Hmp Hst E1 E2 E3|c1 Hst Hp E1 E2 E3|c1 u Hf Hd Hmp Hsp E1 E2 E3]; subst.
  - split_and!; [done|done|]. intros _. rw Hf. destruct (contents (cacheCoins st) !! op) as [g|] eqn:Eg; [|done].
    rw (lookup_weaken _ _ _ _ Eg Hcl) in E2. done.
  - split_and!; [done|by rw -Hp|]. intros Ht. unfold touched in Ht. by rw -Hp in Ht.
  - split_and!; [done|done|]. intros _. rw Hf. pose proof (Hr op c Hc Hf) as Hg. rw -E2 in Hg. exists u. split; [done|].
    destruct (utxo_coin U op u (rep_wf _ _ (ok_rep _ _ _ Hok)) (eq_sym E2)) as (_ & _ & Hp). by rw -Hp.
Qed.

Lemma commit_rep {E} st U cm V h : cache_ok T st U -> cm_rep st U cm V -> Hash_IsNull h = false ->
  exists st1 st2, UpdateCoins (E := E) range st cm h = Ok st1 /\ Flush (E := E) range st1 = Ok st2 /\
    cache_ok T st2 V /\ hashBlock st2 = h /\ db st2 !! [DbBestBlock] = Some h /\ contents (cacheCoins st2) = ∅.
Proof.
  intros Hok Hcm Hh. pose proof Hok as [Hr Hd Hcl Hm].
  destruct (update_coins_rep (E := E) (range cm) st (range_nodup cm) Hm) as (s1 & E1 & Hdb1 & Hin1 & Hout1).
  { intros op c Hin%range_elem. by eapply cm_update_ok. }
  set (s2 := mkCache _ (db s1) h (cacheCoins s1) (dirtyCoins s1)).
  assert (forall op c, dirtyCoins s1 !! op = Some c -> exists c0, cm !! op = Some c0 /\ touched c0 = true /\ c = set_dirty true c0) as Hdc.
  { intros op c Hc. destruct (cm !! op) as [c0|] eqn:Ec; [destruct (touched c0) eqn:Et|].
    - rw (Hin1 op c0) // in Hc; [|by apply range_elem]. injection Hc as <-. eauto.
    - rw Hout1 ?Hd // in Hc. intros c1 Hc1%range_elem. congruence.
    - rw Hout1 ?Hd // in Hc. intros c1 Hc1%range_elem. congruence. }
  destruct (batch_coins_rep (range (dirtyCoins s1)) (db s1) (range_nodup _)) as (d' & Eb & Hbin & Hbout).
  { intros op c Hin%range_elem. destruct (Hdc op c Hin) as (c0 & Hc0 & Ht & ->). pose proof (cm_entry _ _ _ _ Hcm op) as He.
    rw Hc0 in He. split_and!; [by eapply (cm_wf _ _ _ _ Hcm)|done|].
    inversion He as [|c1 ? ? ? Hst|c1 Hst Hp|c1 u ? ? ? Hsp]; subst; [right; by destruct Hst|right; by destruct Hst|by left]. }
  assert (Flush (E := E) range s2 = Ok (mkCache _ (<[ [DbBestBlock] := h]> d') h (lru_Purge (cacheCoins s1)) ∅)) as Efl.
  { unfold Flush, s2, BatchWrite. cbn [hashBlock dirtyCoins db cacheCoins]. rw Hh orb_true_r Eb. done. }
  exists s2. eexists. split; [unfold UpdateCoins; rw E1; done|]. split; [exact Efl|]. cbn [hashBlock db cacheCoins]. rw contents_Purge. split_and!; [|done|by rw lookup_insert_eq|done].
  split; cbn [db dirtyCoins cacheCoins]; [|done|rw contents_Purge; apply map_empty_subseteq|rw contents_Purge; set_solver].
  split; [by eapply cm_view_wf; [apply Hr|]|]. intros op Hw.
  assert (CoinsDB_GetCoin (<[ [DbBestBlock] := h]> d') op = CoinsDB_GetCoin d' op) as ->.
  { unfold CoinsDB_GetCoin. destruct (key_total op Hw) as (k & -> & Hk). by rw lookup_insert_ne. }
  pose proof (cm_entry _ _ _ _ Hcm op) as He. destruct (cm !! op) as [c|] eqn:Ec.
  - destruct (touched c) eqn:Et.
    + rw (Hbin op (set_dirty true c)); [|by apply range_elem, Hin1; [apply range_elem|]].
      assert (IsSpent (set_dirty true c) = IsSpent c) as -> by done.
      inversion He as [|c1 Hf Hdi Hmp Hst E2 E3 E4|c1 Hst Hp E2 E3 E4|c1 u Hf Hdi Hmp Hsp E2 E3 E4]; subst.
      * by rw (storable_not_spent c Hst).
      * unfold touched in Et. by rw -Hp in Et.
      * by rw Hsp.
    + rw Hbout //; [|intros c1 Hc1%range_elem; destruct (Hdc op c1 Hc1) as (c0 & Hc0 & Ht & _); congruence].
      rw Hdb1 (rep_get _ _ Hr) //. f_equal. unfold touched in Et. apply orb_false_iff in Et as [Ed Ef].
      inversion He; subst; congruence.
  - rw Hbout //; [|intros c1 Hc1%range_elem; destruct (Hdc op c1 Hc1) as (c0 & Hc0 & Ht & _); congruence].
    rw Hdb1 (rep_get _ _ Hr) //. f_equal. by inversion He.
Qed.
End Represent.
