(* ===== verification/Block.v ===== *)
(** * Blocks (model/block/block.go, blockheader.go)

    The header with its cached hash, the block with its cached size, and their
    encodings. *)
From S2P Require Import Prelude Errors Wire ScriptNum Opcodes Script ScriptFacts Tx TxFacts.

(** The sizes a header caches are not represented: they are the constant 80. *)
Record BlockHeader := mkHeader {
  Version : Z;
  HashPrevBlock : bytes;
  MerkleRoot : bytes;
  Time : Z;
  Bits : Z;
  Nonce : Z;
  header_Hash : bytes }.
Definition NewBlockHeader : BlockHeader := mkHeader 0 HashZero HashZero 0 0 0 HashZero.
Definition Header_IsNull (h : BlockHeader) : bool := Bits h =? 0.
Definition Header_Serialize (h : BlockHeader) : bytes :=
  PutUint32 (u32 (Version h)) ++ HashPrevBlock h ++ MerkleRoot h ++
  PutUint32 (Time h) ++ PutUint32 (Bits h) ++ PutUint32 (Nonce h).
(** Into the header [h], whose cached hash stays. *)
Definition Header_Unserialize (h : BlockHeader) : rd werr BlockHeader :=
  v ← Uint32; prev ← ReadFull 32; root ← ReadFull 32;
  t ← Uint32; b ← Uint32; n ← Uint32;
  mret (mkHeader (i32 v) prev root t b n (header_Hash h)).
Definition Header_GetHash (Sha256 : bytes -> bytes) (h : BlockHeader) : bytes * BlockHeader :=
  if negb (Hash_IsNull (header_Hash h)) then (header_Hash h, h)
  else let d := DoubleSha256Hash Sha256 (Header_Serialize h) in
       (d, mkHeader (Version h) (HashPrevBlock h) (MerkleRoot h) (Time h) (Bits h) (Nonce h) d).

(** encodeSize is never set. *)
Record Block := mkBlock {
  Header : BlockHeader;
  Txs : list Tx;
  serializesize : Z;
  Checked : bool }.
Definition NewBlock : Block := mkBlock NewBlockHeader [] 0 false.
Definition Block_SetNull (b : Block) : Block := mkBlock NewBlockHeader [] (serializesize b) (Checked b).
Definition Block_Serialize (b : Block) : bytes :=
  Header_Serialize (Header b) ++ WriteVarInt (Z.of_nat (length (Txs b))) ++ concat (map Tx_Encode (Txs b)).
Definition Block_SerializeSize (b : Block) : Z * Block :=
  if negb (serializesize b =? 0) then (serializesize b, b)
  else let n := Z.of_nat (length (Block_Serialize b)) in (n, mkBlock (Header b) (Txs b) n (Checked b)).
Definition DefaultVersion : Z := 1.
Definition Block_Unserialize (b : Block) : rd werr Block :=
  h ← Header_Unserialize (Header b);
  ntx ← ReadVarInt;
  if maxAlloc <? 8 * ntx then rd_panic
  else
    l ← rd_times (Z.to_nat ntx) (Tx_Decode (NewTx 0 DefaultVersion));
    mret (mkBlock h l (serializesize b) (Checked b)).
(** The hash is computed on a copy of the header. *)
Definition Block_GetHash (Sha256 : bytes -> bytes) (b : Block) : bytes := (Header_GetHash Sha256 (Header b)).1.

(** ** The encodings are inverse to each other *)
Record wf_header (h : BlockHeader) : Prop := {
  wfh_version : is_i 32 (Version h);
  wfh_prev : length (HashPrevBlock h) = 32%nat;
  wfh_root : length (MerkleRoot h) = 32%nat;
  wfh_time : is_u 32 (Time h);
  wfh_bits : is_u 32 (Bits h);
  wfh_nonce : is_u 32 (Nonce h) }.

Lemma Header_Unserialize_app h h0 r : wf_header h ->
  Header_Unserialize h0 (Header_Serialize h ++ r)
  = Ok (mkHeader (Version h) (HashPrevBlock h) (MerkleRoot h) (Time h) (Bits h) (Nonce h) (header_Hash h0), r).
Proof.
  intros [Hv Hp Hm Ht Hb Hn]. unfold Header_Unserialize, Header_Serialize. app_right.
  erewrite rd_bind_ok; [|apply Uint32_put; auto with go]. erewrite rd_bind_ok; [|by apply ReadFull_app'].
  erewrite rd_bind_ok; [|by apply ReadFull_app']. erewrite rd_bind_ok; [|by apply Uint32_put].
  erewrite rd_bind_ok; [|by apply Uint32_put]. erewrite rd_bind_ok; [|by apply Uint32_put].
  assert (i32 (u32 (Version h)) = Version h) as -> by int_lia. done.
Qed.

Lemma Header_Serialize_length h : wf_header h -> length (Header_Serialize h) = 80%nat.
Proof. intros [_ Hp Hm _ _ _]. unfold Header_Serialize, PutUint32. rw !length_app !length_le_bytes Hp Hm. lia. Qed.
