(* ===== verification/Undo.v ===== *)
(** * Undo data and the disconnection of blocks

    model/undo/undo.go (the undo records and their encoding), logic/lundo/lundo.go
    (reverting a block) and logic/ltx/ltxcoins.go (spending and adding the coins of
    a transaction). *)
From S2P Require Import Prelude Errors Wire ScriptNum Opcodes Script ScriptFacts Tx TxFacts Crypto Compress Coins Block.

Inductive DisconnectResult := DisconnectOk | DisconnectUnclean | DisconnectFailed.
#[export] Instance DisconnectResult_eq_dec : EqDecision DisconnectResult.
Proof. solve_decision. Defined.

(** The records: the coins a transaction spent, in the order of its inputs. *)
Abbreviation TxUndo := (list Coin).
Abbreviation BlockUndo := (list (list Coin)).

Definition MaxInputPerTx : Z := MaxTxInPerMessage.

(** Write one object after the other until one fails. *)
Fixpoint write_all {A} (f : A -> res werr bytes) (l : list A) : res werr bytes :=
  match l with
  | [] => Ok []
  | x :: l => b ← f x; r ← write_all f l; Ok (b ++ r)
  end.

Section Codec.
Context `{Secp256k1}.

Definition TxUndo_Serialize (tu : TxUndo) : res werr bytes :=
  b ← write_all Coin_Serialize tu; Ok (WriteVarInt (Z.of_nat (length tu)) ++ b).
Definition TxUndo_Unserialize : rd werr TxUndo :=
  count ← ReadVarInt;
  if MaxInputPerTx <? count then rd_panic
  else rd_times (Z.to_nat count) (Coin_Unserialize NewFreshEmptyCoin).
Definition BlockUndo_Serialize (bu : BlockUndo) : res werr bytes :=
  n ← WriteVarLenInt (Z.of_nat (length bu));
  b ← write_all TxUndo_Serialize bu; Ok (n ++ b).
Definition BlockUndo_Unserialize : rd werr BlockUndo :=
  count ← ReadVarLenInt;
  if maxAlloc <? 8 * count then rd_panic
  else rd_times (Z.to_nat count) TxUndo_Unserialize.
End Codec.

Section Apply.
Context `{Secp256k1} `{LruCache} (range : gmap OutPoint Coin -> list (OutPoint * Coin)).
Context (Sha256 : bytes -> bytes).

Definition txid (t : Tx) : bytes := (GetHash Sha256 t).1.

(** *** The coins of a transaction *)
Fixpoint spend_ins {E} (l : list TxIn) (cm : CoinsMap) (undo : list Coin) : res E (CoinsMap * list Coin) :=
  match l with
  | [] => Ok (cm, undo)
  | i :: l =>
      let coin := DeepCopy (AccessCoin cm (PreviousOutPoint i)) in
      '(_, cm) ← SpendCoin cm (PreviousOutPoint i);
      spend_ins l cm (undo ++ [coin])
  end.
Definition TxSpendCoins {E} (t : Tx) (cm : CoinsMap) : res E (CoinsMap * TxUndo) :=
  if IsCoinBase t then Ok (cm, []) else spend_ins (ins t) cm [].

Fixpoint add_outs {E} (h : bytes) (height : Z) (cb : bool) (idx : Z) (l : list TxOut) (cm : CoinsMap) : res E CoinsMap :=
  match l with
  | [] => Ok cm
  | out :: l =>
      cm ← AddCoin cm (mkOutPoint h (u32 idx)) (NewFreshCoin out height cb);
      add_outs h height cb (idx + 1) l cm
  end.
Definition TxAddCoins {E} (t : Tx) (cm : CoinsMap) (height : Z) : res E CoinsMap :=
  add_outs (txid t) height (IsCoinBase t) 0 (outs t) cm.

(** *** Reverting a block *)
Definition undoCoinSpend {E} (out : OutPoint) (undoCoin : Coin) (cm : CoinsMap) (st : CoinsLruCache)
  : res E (DisconnectResult * CoinsMap * CoinsLruCache) :=
  '(c, cm, st) ← FetchCoin cm st out;
  let clean := match c with Some _ => false | None => true end in
  let finish undoCoin :=
    cm ← AddCoin cm out undoCoin;
    Ok (if clean then DisconnectOk else DisconnectUnclean, cm, st) in
  if coin_height undoCoin =? 0 then
    let alternate := AccessCoin cm out in
    if IsSpent alternate then Ok (DisconnectFailed, cm, st)
    else finish (NewFreshCoin (coin_txOut undoCoin) (coin_height alternate) (coin_isCoinBase alternate))
  else finish undoCoin.

(** The loop over the inputs of one transaction and their undo coins. *)
Fixpoint undo_ins {E} (l : list (TxIn * Coin)) (clean : bool) (cm : CoinsMap) (st : CoinsLruCache)
  : res E (option bool * CoinsMap * CoinsLruCache) :=
  match l with
  | [] => Ok (Some clean, cm, st)
  | (i, c) :: l =>
      '(r, cm, st) ← undoCoinSpend (PreviousOutPoint i) c cm st;
      match r with
      | DisconnectFailed => Ok (None, cm, st)
      | DisconnectUnclean => undo_ins l false cm st
      | DisconnectOk => undo_ins l clean cm st
      end
  end.
(** The loop over the transactions after the coinbase; [None] is a failure. *)
Fixpoint undo_txs {E} (l : list (Tx * TxUndo)) (clean : bool) (cm : CoinsMap) (st : CoinsLruCache)
  : res E (option bool * CoinsMap * CoinsLruCache) :=
  match l with
  | [] => Ok (Some clean, cm, st)
  | (t, tu) :: l =>
      if negb (length tu =? length (ins t))%nat then Ok (None, cm, st)
      else
        '(r, cm, st) ← undo_ins (zip (ins t) tu) clean cm st;
        match r with None => Ok (None, cm, st) | Some clean => undo_txs l clean cm st end
  end.

(** The output is compared with the coin it created, through a pointer that is
    nil when the coin is missing. *)
Fixpoint revert_outs {E} (h : bytes) (cb : bool) (height : Z) (j : Z) (l : list TxOut) (clean : bool)
    (cm : CoinsMap) (st : CoinsLruCache) : res E (bool * CoinsMap * CoinsLruCache) :=
  match l with
  | [] => Ok (clean, cm, st)
  | out :: l =>
      if negb (TxOut_IsSpendable out) then revert_outs h cb height (j + 1) l clean cm st
      else
        '(coin, cm, st) ← SpendGlobalCoin cm st (mkOutPoint h (u32 j));
        coin ← deref coin;
        eq ← TxOut_IsEqual out (coin_txOut coin);
        let ok := eq && Bool.eqb cb (coin_isCoinBase coin) && (height =? coin_height coin) in
        revert_outs h cb height (j + 1) l (clean && ok) cm st
  end.
Fixpoint revert_txs {E} (height : Z) (l : list Tx) (clean : bool) (cm : CoinsMap) (st : CoinsLruCache)
  : res E (bool * CoinsMap * CoinsLruCache) :=
  match l with
  | [] => Ok (clean, cm, st)
  | t :: l =>
      '(clean, cm, st) ← revert_outs (txid t) (IsCoinBase t) height 0 (outs t) clean cm st;
      revert_txs height l clean cm st
  end.

Definition ApplyBlockUndo {E} (blockUndo : BlockUndo) (blk : Block) (cm : CoinsMap) (st : CoinsLruCache) (height : Z)
  : res E (DisconnectResult * CoinsMap * CoinsLruCache) :=
  if negb (length blockUndo + 1 =? length (Txs blk))%nat then Ok (DisconnectFailed, cm, st)
  else
    '(r, cm, st) ← undo_txs (E := E) (zip (drop 1 (Txs blk)) blockUndo) true cm st;
    match (r : option bool) with
    | None => Ok (DisconnectFailed, cm, st)
    | Some clean =>
        '(clean, cm, st) ← revert_txs (E := E) height (Txs blk) clean cm st;
        '(cm, st) ← CoinsMap_Flush (E := E) range cm st (HashPrevBlock (Header blk));
        Ok (if (clean : bool) then DisconnectOk else DisconnectUnclean, cm, st)
    end.
End Apply.
