(* ===== verification/Stack.v ===== *)
(** * The interpreter's stacks (util/stack.go)

    [array] is the Go slice, its last element the top of the stack.  Indices are
    [int]s; the operations that may be refused return whether they were done
    together with the new stack. *)
From S2P Require Import Prelude.

Section Stack.
Context {A : Type}.
Implicit Types (s : list A) (i j index : Z).

Definition Stack_Size s : Z := Z.of_nat (length s).
Definition Stack_Empty s : bool := bool_decide (length s = 0%nat).
Definition Push s (v : A) : list A := s ++ [v].

Definition in_range s i : bool := negb ((Stack_Size s - 1 <? i) || (i <? 0)).

Definition Stack_Swap s i j : bool * list A :=
  if negb (in_range s i) then (false, s)
  else if negb (in_range s j) then (false, s)
  else match s !! Z.to_nat i, s !! Z.to_nat j with
  | Some x, Some y => (true, <[Z.to_nat j := x]> (<[Z.to_nat i := y]> s))
  | _, _ => (false, s)
  end.
Definition Pop s : option A * list A :=
  match last s with
  | None => (None, s)
  | Some e => (Some e, take (length s - 1) s)
  end.
Definition RemoveAt s index : bool * list A :=
  if negb (in_range s index) then (false, s)
  else
    let k := Z.to_nat index in
    if index <? Stack_Size s - 1 then (true, take k s ++ drop (S k) s) else (true, take k s).
(** The loop of Erase removes the element at [begin] as long as that works. *)
Fixpoint erase_loop (n : nat) (begin : Z) s : bool * list A :=
  match n with
  | O => (true, s)
  | S n => let '(ok, s') := RemoveAt s begin in
           if (ok : bool) then erase_loop n begin s' else (false, s')
  end.
Definition Erase s (begin end_ : Z) : bool * list A :=
  let size := Stack_Size s in
  if (begin <? 0) || (end_ <? 0) || (end_ <=? begin) || (size <? begin) || (size <? end_)
  then (false, s)
  else erase_loop (Z.to_nat (end_ - begin)) begin s.
Definition Insert s index (v : A) : bool * list A :=
  if negb (in_range s index) then (false, s)
  else let k := Z.to_nat index in (true, take k s ++ [v] ++ drop k s).
Definition Top s i : option A :=
  let stackLen := Stack_Size s in
  if (stackLen - 1 <? stackLen + i) || (stackLen + i <? 0) then None
  else s !! Z.to_nat (stackLen + i).
Definition SetTop s i (v : A) : bool * list A :=
  let stackLen := Stack_Size s in
  if (stackLen - 1 <? stackLen + i) || (stackLen + i <? 0) then (false, s)
  else (true, <[Z.to_nat (stackLen + i) := v]> s).

(** util.Swap(s, other): the empty cases first move one array over, then the
    two arrays are exchanged; the result is the new contents of both. *)
Definition Swap s (other : list A) : list A * list A :=
  if bool_decide (length s = 0%nat) && bool_decide (length other = 0%nat) then (s, other)
  else
    let '(s, other) := if bool_decide (length other = 0%nat) then ([], s) else (s, other) in
    let '(s, other) := if bool_decide (length s = 0%nat) then (other, []) else (s, other) in
    (other, s).
Definition Stack_Copy s : list A := s.
End Stack.

(** The elements of the condition stack are Booleans. *)
Definition CountBool (s : list bool) (val : bool) : Z :=
  Z.of_nat (length (base.filter (fun v => v = val) s)).

(** ** The operations at the top of the stack: [rest] below, the arguments above *)
Section StackFacts.
Context {A : Type}.
Implicit Types (s rest : list A).

Lemma Stack_Size_app rest s : Stack_Size (rest ++ s) = Stack_Size rest + Stack_Size s.
Proof. unfold Stack_Size. rw length_app. lia. Qed.

Lemma Top_app rest s (k : nat) : (k < length s)%nat ->
  Top (rest ++ s) (- Z.of_nat (S k)) = s !! (length s - S k)%nat.
Proof.
  intros Hk. unfold Top, Stack_Size. rw length_app.
  destruct ((_ <? _) || (_ <? 0)) eqn:E; [lia|].
  replace (Z.to_nat (Z.of_nat (length rest + length s) + - Z.of_nat (S k)))
    with (length rest + (length s - S k))%nat by lia.
  rw lookup_app_r; last lia. f_equal. lia.
Qed.

Lemma Pop_app rest x : Pop (rest ++ [x]) = (Some x, rest).
Proof.
  unfold Pop. rw last_snoc. rw length_app /=. f_equal.
  replace (length rest + 1 - 1)%nat with (length rest) by lia. by rw take_app_length.
Qed.

Lemma Pop_nil : Pop (A := A) [] = (None, []).
Proof. done. Qed.

Lemma in_range_true s i : 0 <= i < Stack_Size s -> in_range s i = true.
Proof. unfold in_range. lia. Qed.

Lemma RemoveAt_app rest x s : RemoveAt (rest ++ x :: s) (Stack_Size rest) = (true, rest ++ s).
Proof.
  unfold RemoveAt. rw in_range_true; last (unfold Stack_Size; rw length_app /=; lia). cbn [negb].
  unfold Stack_Size. rw Nat2Z.id length_app take_app_length /=.
  destruct (Z.ltb_spec (Z.of_nat (length rest)) (Z.of_nat (length rest + S (length s)) - 1)); f_equal.
  - rw drop_app_ge; last lia. replace (S (length rest) - length rest)%nat with 1%nat by lia. done.
  - destruct s; [by rw app_nil_r|simpl in *; lia].
Qed.

Lemma Erase_app rest s1 s2 : s1 <> [] ->
  Erase (rest ++ s1 ++ s2) (Stack_Size rest) (Stack_Size rest + Stack_Size s1) = (true, rest ++ s2).
Proof.
  intros Hne. unfold Erase. destruct (_ || _) eqn:E.
  { exfalso. unfold Stack_Size in E. rw !length_app in E. destruct s1; [done|]. simpl in E. lia. }
  replace (Z.to_nat _) with (length s1) by (unfold Stack_Size; lia). clear Hne E.
  induction s1 as [|x s1 IH]; [done|]. cbn [length erase_loop app]. by rw RemoveAt_app IH.
Qed.

Lemma Stack_Swap_app rest x s1 y s2 :
  Stack_Swap (rest ++ x :: s1 ++ y :: s2) (Stack_Size rest) (Stack_Size rest + 1 + Stack_Size s1)
  = (true, rest ++ y :: s1 ++ x :: s2).
Proof.
  unfold Stack_Swap. rw !in_range_true; try (unfold Stack_Size; rw !length_app /= ?length_app /=; lia).
  cbn [negb]. unfold Stack_Size. rw Nat2Z.id.
  replace (Z.to_nat _) with (length rest + S (length s1))%nat by lia.
  rw list_lookup_middle //. rw lookup_app_r; last lia.
  replace (length rest + S (length s1) - length rest)%nat with (S (length s1)) by lia.
  rw /= list_lookup_middle //. rw insert_app_r_alt; last lia. rw Nat.sub_diag /=.
  rw insert_app_r /= insert_app_r_alt ?Nat.sub_diag //.
Qed.

Lemma Insert_app rest s v : s <> [] -> Insert (rest ++ s) (Stack_Size rest) v = (true, rest ++ v :: s).
Proof.
  intros Hs. unfold Insert. rw in_range_true.
  - cbn [negb]. unfold Stack_Size. by rw Nat2Z.id take_app_length drop_app_length.
  - unfold Stack_Size. rw length_app. destruct s; [done|]. simpl. lia.
Qed.

Lemma SetTop_app rest x v : SetTop (rest ++ [x]) (-1) v = (true, rest ++ [v]).
Proof.
  unfold SetTop, Stack_Size. rw length_app /=. destruct (_ || _) eqn:E; [lia|].
  replace (Z.to_nat _) with (length rest + 0)%nat by lia. by rw insert_app_r.
Qed.

(** Swap exchanges the two stacks unless exactly the first one is empty, in
    which case it leaves both as they were. *)
Lemma Swap_spec s (other : list A) :
  Swap s other = if decide (s = [] /\ other <> []) then (s, other) else (other, s).
Proof.
  unfold Swap. destruct s as [|x s], other as [|y o]; simpl; try done.
Qed.
End StackFacts.
