(* ===== verification/Slice.v ===== *)
(** * Go byte slices

    The interpreter pushes slices, not copies: two stack elements, or a stack
    element and the data of a parsed opcode, can share one backing array.  A heap
    is the list of all the arrays allocated so far; a slice names an array, an
    offset, a length and a capacity.  A nil slice is a slice of an empty array. *)
From S2P Require Import Prelude.

Record slice := mkSlice { arr : nat; off : nat; slen : nat; scap : nat }.
Abbreviation heap := (list bytes).
#[export] Instance slice_eq_dec : EqDecision slice.
Proof. solve_decision. Defined.

Definition array (h : heap) (s : slice) : bytes := default [] (h !! arr s).
Definition read (h : heap) (s : slice) : bytes := take (slen s) (drop (off s) (array h s)).

(** Overwrite [length bs] bytes of an array from position [o]. *)
Definition blit (a : bytes) (o : nat) (bs : bytes) : bytes := take o a ++ bs ++ drop (o + length bs) a.
(** [copy(s[i:], bs)] *)
Definition store (h : heap) (s : slice) (i : nat) (bs : bytes) : heap :=
  alter (fun a => blit a (off s + i) bs) (arr s) h.
(** A new array holding [bs] with room for [cap] bytes, and the slice of [bs]. *)
Definition alloc (h : heap) (bs : bytes) (cap : nat) : heap * slice :=
  (h ++ [bs ++ replicate (cap - length bs) 0], mkSlice (length h) 0 (length bs) (max cap (length bs))).

(** [s[:n]] and [s[n:]] *)
Definition slice_to (s : slice) (n : nat) : slice := mkSlice (arr s) (off s) n (scap s).
Definition slice_from (s : slice) (n : nat) : slice :=
  mkSlice (arr s) (off s + n) (slen s - n) (scap s - n).

(** [append(s, bs...)]: in place while the capacity lasts, else into a new array
    whose capacity the run-time chooses ([grow], at least what is needed). *)
Definition append (grow : nat -> nat -> nat) (h : heap) (s : slice) (bs : bytes) : heap * slice :=
  let n := (slen s + length bs)%nat in
  if decide (n <= scap s)%nat then (store h s (slen s) bs, slice_to s n)
  else alloc h (read h s ++ bs) (grow (scap s) n).

(** ** Well-formed slices: inside their array *)
Definition wf_slice (h : heap) (s : slice) : Prop :=
  (arr s < length h)%nat /\ (off s + scap s <= length (array h s))%nat /\ (slen s <= scap s)%nat.

(** The arrays of a heap keep their number and sizes while it is written to, and
    new ones only come at the end. *)
Definition heap_le (h h' : heap) : Prop :=
  (length h <= length h')%nat /\
  forall i a, h !! i = Some a -> exists a', h' !! i = Some a' /\ length a' = length a.
(** The same, and no array that exists already changes. *)
Definition heap_ext (h h' : heap) : Prop := exists l, h' = h ++ l.

Lemma heap_ext_refl h : heap_ext h h.
Proof. exists []. by rw app_nil_r. Qed.
Lemma heap_ext_trans h1 h2 h3 : heap_ext h1 h2 -> heap_ext h2 h3 -> heap_ext h1 h3.
Proof. intros [l ->] [k ->]. exists (l ++ k). by rw app_assoc. Qed.
Lemma heap_le_refl h : heap_le h h.
Proof. split; [done|eauto]. Qed.
Lemma heap_le_trans h1 h2 h3 : heap_le h1 h2 -> heap_le h2 h3 -> heap_le h1 h3.
Proof.
  intros [L1 H1] [L2 H2]. split; [lia|]. intros i a Ha.
  destruct (H1 _ _ Ha) as (b & Hb & E1). destruct (H2 _ _ Hb) as (c & Hc & E2). exists c. split; [done|congruence].
Qed.
Lemma heap_ext_le h h' : heap_ext h h' -> heap_le h h'.
Proof.
  intros [l ->]. split; [rw length_app; lia|]. intros i a Ha. exists a. split; [|done]. by apply lookup_app_l_Some.
Qed.

Lemma array_length h h' s : heap_le h h' -> (arr s < length h)%nat -> length (array h' s) = length (array h s).
Proof.
  intros [_ H] Hs. unfold array. apply lookup_lt_is_Some in Hs as [a Ha].
  destruct (H _ _ Ha) as (a' & Ha' & E). by rw Ha Ha' /=.
Qed.
Lemma wf_slice_le h h' s : heap_le h h' -> wf_slice h s -> wf_slice h' s.
Proof.
  intros HL (H1 & H2 & H3). split; [|by rw (array_length h h')]. destruct HL as [? _]. lia.
Qed.
Lemma read_ext h h' s : heap_ext h h' -> wf_slice h s -> read h' s = read h s.
Proof. intros [l ->] (H1 & _). unfold read, array. by rw lookup_app_l. Qed.
Lemma length_read h s : wf_slice h s -> length (read h s) = slen s.
Proof. intros (_ & H2 & H3). unfold read. rw length_take length_drop. lia. Qed.

Lemma length_blit a o bs : (o + length bs <= length a)%nat -> length (blit a o bs) = length a.
Proof. intros H. unfold blit. rw !length_app length_take length_drop. lia. Qed.
Lemma store_le h s i bs : (i + length bs <= scap s)%nat -> wf_slice h s -> heap_le h (store h s i bs).
Proof.
  intros Hi (H1 & H2 & _). unfold store. split; [by rw length_alter|].
  intros k a Ha. destruct (decide (arr s = k)) as [<-|Hk].
  - exists (blit a (off s + i) bs). rw list_lookup_alter_eq Ha. split; [done|].
    apply length_blit. unfold array in H2. rw Ha /= in H2. lia.
  - exists a. by rw list_lookup_alter_ne.
Qed.
Lemma alloc_ext h bs cap : heap_ext h (alloc h bs cap).1.
Proof. by eexists. Qed.
Lemma alloc_wf h bs cap : wf_slice (alloc h bs cap).1 (alloc h bs cap).2.
Proof.
  unfold alloc, wf_slice, array. simpl. rw length_app /=. split_and!; [lia| |lia].
  rw lookup_app_r // Nat.sub_diag /= length_app length_replicate. lia.
Qed.
Lemma alloc_read h bs cap : read (alloc h bs cap).1 (alloc h bs cap).2 = bs.
Proof.
  unfold alloc, read, array. simpl. rw lookup_app_r // Nat.sub_diag /= drop_0. apply take_app_length.
Qed.
Lemma slice_to_wf h s n : (n <= scap s)%nat -> wf_slice h s -> wf_slice h (slice_to s n).
Proof. intros Hn (H1 & H2 & _). by split_and!. Qed.
Lemma slice_from_wf h s n : (n <= slen s)%nat -> wf_slice h s -> wf_slice h (slice_from s n).
Proof.
  intros Hn (H1 & H2 & H3). unfold wf_slice, array in *. simpl. split_and!; [done|lia|lia].
Qed.
Lemma read_slice_to h s n : (n <= slen s)%nat -> read h (slice_to s n) = take n (read h s).
Proof. intros Hn. unfold read, array. simpl. rw take_take. f_equal. lia. Qed.
Lemma read_slice_from h s n : (n <= slen s)%nat -> read h (slice_from s n) = drop n (read h s).
Proof.
  intros Hn. unfold read, array. simpl. by rw skipn_firstn_comm drop_drop.
Qed.

Section Append.
Context (grow : nat -> nat -> nat) (Hgrow : forall c n, (n <= grow c n)%nat).

Lemma append_wf h s bs : wf_slice h s ->
  heap_le h (append grow h s bs).1 /\ wf_slice (append grow h s bs).1 (append grow h s bs).2.
Proof.
  intros Hs. unfold append. case_decide; [|split; [apply heap_ext_le, alloc_ext|apply alloc_wf]].
  assert (heap_le h (store h s (slen s) bs)) as HL by (apply store_le; [lia|done]).
  split; [done|]. cbn [fst snd]. apply slice_to_wf; [done|]. by eapply wf_slice_le.
Qed.

Lemma append_slen h s bs : wf_slice h s -> slen (append grow h s bs).2 = (slen s + length bs)%nat.
Proof.
  intros Hs. unfold append. case_decide; [done|]. simpl. by rw length_app length_read.
Qed.

Lemma append_fresh_ext h s bs : scap s = slen s -> heap_ext h (append grow h s bs).1.
Proof.
  intros Hc. unfold append. case_decide; [|apply alloc_ext].
  assert (bs = []) as -> by (destruct bs; [done|simpl in *; lia]). cbn [fst]. exists [].
  unfold store. rw app_nil_r. apply list_eq. intros k. destruct (decide (arr s = k)) as [<-|].
  - rw list_lookup_alter_eq. destruct (h !! arr s) as [a|]; [|done]. simpl. f_equal.
    unfold blit. simpl. by rw Nat.add_0_r take_drop.
  - by rw list_lookup_alter_ne.
Qed.
End Append.

(** Writing to an array that was allocated after [h0] leaves [h0] alone. *)
Lemma append_fresh grow h0 h x bs : heap_ext h0 h -> (length h0 <= arr x)%nat ->
  heap_ext h0 (append grow h x bs).1 /\ (length h0 <= arr (append grow h x bs).2)%nat.
Proof.
  intros [l ->] Hx. unfold append. case_decide.
  - split; [|done]. exists (alter (fun a => blit a (off x + slen x) bs) (arr x - length h0)%nat l).
    unfold store. cbn [fst]. by rw alter_app_r_alt.
  - split; [eapply heap_ext_trans; [by eexists|apply alloc_ext]|]. simpl. rw length_app. lia.
Qed.
