(* ===== verification/Interp.v ===== *)
(** * The script interpreter (logic/lscript)

    [EvalScript] and [VerifyScript] of lscript.go, the [Checker] interface and
    its two implementations.  The state of an evaluation is the heap of byte
    arrays, the two stacks of slices, the stack of open conditionals, the
    operation counter and the position of the last code separator.  There is one
    definition per case of the opcode switch. *)
From S2P Require Import Prelude Errors Wire ScriptNum Opcodes Script Tx Crypto Stack Slice.

(** ** The Checker interface *)
Class Checker `{Secp256k1} := {
  CheckLockTime : Z -> Z -> Z -> bool;
  CheckSequence : Z -> Z -> Z -> bool;
  CheckSig : Tx -> bytes -> bytes -> Script -> Z -> Z -> Z -> res ScriptErr bool;
  VerifySignature : bytes -> PublicKey -> bytes -> res ScriptErr bool }.

(** Hash functions of the standard library and golang.org/x/crypto. *)
Class Hashes := { Sha256 : bytes -> bytes; Ripemd160 : bytes -> bytes; Sha1 : bytes -> bytes }.
Definition Sha256Bytes `{Hashes} (b : bytes) : bytes := Sha256 b.
Definition DoubleSha256Bytes `{Hashes} (b : bytes) : bytes := Sha256 (Sha256 b).
Definition Hash160 `{Hashes} (b : bytes) : bytes := Ripemd160 (Sha256 b).

(** *** RealChecker *)
Definition RealChecker_CheckLockTime (lockTime txLockTime sequence : Z) : bool :=
  if negb (((txLockTime <? LockTimeThreshold) && (lockTime <? LockTimeThreshold))
           || ((LockTimeThreshold <=? txLockTime) && (LockTimeThreshold <=? lockTime))) then false
  else if txLockTime <? lockTime then false
  else if SequenceFinal =? sequence then false
  else true.

Definition RealChecker_CheckSequence (sequence txToSequence txVersion : Z) : bool :=
  if txVersion <? 2 then false
  else if txToSequence .& SequenceLockTimeDisableFlag =? SequenceLockTimeDisableFlag then false
  else
    let nLockTimeMask := SequenceLockTimeTypeFlag .| SequenceLockTimeMask in
    let txToSequenceMasked := txToSequence .& nLockTimeMask in
    let nSequenceMasked := sequence .& nLockTimeMask in
    if negb (((txToSequenceMasked <? SequenceLockTimeTypeFlag) && (nSequenceMasked <? SequenceLockTimeTypeFlag))
             || ((SequenceLockTimeTypeFlag <=? txToSequenceMasked) && (SequenceLockTimeTypeFlag <=? nSequenceMasked)))
    then false
    else if txToSequenceMasked <? nSequenceMasked then false
    else true.

Section RealChecker.
Context `{Secp256k1} `{Hashes}.

Definition RealChecker_CheckSig (t : Tx) (signature pubKey : bytes) (scriptCode : Script)
    (nIn money flags : Z) : res ScriptErr bool :=
  if decide (signature = []) then Ok false
  else if decide (pubKey = []) then Ok false
  else
    hashType ← nth_go signature (Z.of_nat (length signature) - 1);
    txSigHash ← SignatureHash Sha256 t scriptCode hashType nIn money flags;
    Ok (Tx_CheckSig txSigHash (take (length signature - 1) signature) pubKey).

Definition RealChecker_VerifySignature (vchSig : bytes) (pubKey : PublicKey) (sigHash : bytes)
  : res ScriptErr bool := PublicKey_Verify pubKey sigHash vchSig.
#[global] Instance RealChecker : Checker := {|
  CheckLockTime := RealChecker_CheckLockTime;
  CheckSequence := RealChecker_CheckSequence;
  CheckSig := RealChecker_CheckSig;
  VerifySignature := RealChecker_VerifySignature |}.
End RealChecker.

(** *** EmptyChecker, used to check scripts with no transaction at hand *)
Definition EmptyChecker `{Secp256k1} : Checker := {|
  CheckLockTime := fun _ _ _ => false;
  CheckSequence := fun _ _ _ => false;
  CheckSig := fun _ _ _ _ _ _ _ => Err ScriptErrInvalidOpCode;
  VerifySignature := fun _ _ _ => Ok false |}.

(** ** States and the monad of the evaluation *)
Record istate := mkIstate {
  hp : heap;
  stack : list slice;
  stackAlt : list slice;
  stackExec : list bool;
  nOpCount : Z;
  beginCodeHash : Z }.

(** The state survives an error: the arrays written before it stay written. *)
Definition interp (A : Type) : Type := istate -> istate * res ScriptErr A.
#[export] Instance interp_ret : MRet interp := fun A a st => (st, Ok a).
#[export] Instance interp_bind : MBind interp := fun A B f m st =>
  match m st with
  | (st', Ok a) => f a st'
  | (st', Err e) => (st', Err e)
  | (st', Panic) => (st', Panic)
  end.
Definition fail {A} (e : ScriptErr) : interp A := fun st => (st, Err e).
Definition lift {A} (r : res ScriptErr A) : interp A := fun st => (st, r).
Definition gets {A} (f : istate -> A) : interp A := fun st => (st, Ok (f st)).

Definition set_heap (h : heap) : interp unit := fun st =>
  (mkIstate h (stack st) (stackAlt st) (stackExec st) (nOpCount st) (beginCodeHash st), Ok tt).
Definition set_stack (s : list slice) : interp unit := fun st =>
  (mkIstate (hp st) s (stackAlt st) (stackExec st) (nOpCount st) (beginCodeHash st), Ok tt).
Definition set_alt (s : list slice) : interp unit := fun st =>
  (mkIstate (hp st) (stack st) s (stackExec st) (nOpCount st) (beginCodeHash st), Ok tt).
Definition set_exec (s : list bool) : interp unit := fun st =>
  (mkIstate (hp st) (stack st) (stackAlt st) s (nOpCount st) (beginCodeHash st), Ok tt).
Definition set_opcount (n : Z) : interp unit := fun st =>
  (mkIstate (hp st) (stack st) (stackAlt st) (stackExec st) n (beginCodeHash st), Ok tt).
Definition set_begin (i : Z) : interp unit := fun st =>
  (mkIstate (hp st) (stack st) (stackAlt st) (stackExec st) (nOpCount st) i, Ok tt).

(** [if stack.Size() < n { return e }] *)
Definition need (n : Z) (e : ScriptErr) : interp unit :=
  s ← gets stack; if Stack_Size s <? n then fail e else mret tt.
Definition need_op (n : Z) : interp unit := need n ScriptErrInvalidStackOperation.
(** [stack.Top(-n)], checked for nil or, in [top_must], asserted to be a slice. *)
Definition top_nil (n : Z) (e : ScriptErr) : interp slice :=
  s ← gets stack; match Top s (- n) with Some x => mret x | None => fail e end.
Definition top (n : Z) : interp slice := top_nil n ScriptErrInvalidStackOperation.
Definition top_must (n : Z) : interp slice :=
  s ← gets stack; lift (deref (Top s (- n))).
Definition pop : interp unit := s ← gets stack; set_stack (Pop s).2.
Definition push (x : slice) : interp unit := s ← gets stack; set_stack (Push s x).
Definition bytes_of (x : slice) : interp bytes := gets (fun st => read (hp st) x).
Definition new_slice (bs : bytes) (cap : nat) : interp slice :=
  h ← gets hp; let '(h', x) := alloc h bs cap in set_heap h';; mret x.
Definition push_new (bs : bytes) (cap : nat) : interp unit := x ← new_slice bs cap; push x.
(** ScriptNum.Serialize allocates nine bytes, or returns nil for zero. *)
Definition push_num (v : Z) : interp unit :=
  bs ← lift (Serialize v);
  push_new bs (if decide (bs = []) then 0%nat else 9%nat).
Definition push_bool (b : bool) : interp unit := push_num (if b then 1 else 0).
Fixpoint times (n : nat) (m : interp unit) : interp unit :=
  match n with O => mret tt | S n => m;; times n m end.

Definition one_of (op : Z) (l : list Z) : bool := existsb (Z.eqb op) l.

(** ** The opcodes *)
Section Eval.
Context `{Secp256k1} `{!Checker} `{Hashes}.
(** The growth policy of append. *)
Context (grow : nat -> nat -> nat).
(** The arguments of EvalScript that do not change. *)
Context (t : Tx) (nIn money flags : Z).
(** The opcodes of the script under evaluation, their data in the heap. *)
Context (ops : list (ParsedOpCode slice)).

Definition fRequireMinimal : bool := all_flag flags ScriptVerifyMinmalData.
Definition script_num (x : slice) (size : Z) : interp Z :=
  b ← bytes_of x; lift (GetScriptNum b fRequireMinimal size).

(** *** Constants and lock times *)
Definition op_small (op : Z) : interp unit := push_num (op - (OP_1 - 1)).

Definition discourage_nops : interp unit :=
  if all_flag flags ScriptVerifyDiscourageUpgradableNops
  then fail ScriptErrDiscourageUpgradableNops else mret tt.

Definition op_checklocktimeverify : interp unit :=
  if negb (has_flag flags ScriptVerifyCheckLockTimeVerify) then discourage_nops
  else
    need_op 1;;
    topBytes ← top 1;
    nLocktime ← script_num topBytes 5;
    if nLocktime <? 0 then fail ScriptErrNegativeLockTime
    else
      i ← lift (nth_go (ins t) nIn);
      if negb (CheckLockTime nLocktime (lockTime t) (Sequence i)) then fail ScriptErrUnsatisfiedLockTime
      else mret tt.

Definition op_checksequenceverify : interp unit :=
  if negb (has_flag flags ScriptVerifyCheckSequenceVerify) then discourage_nops
  else
    need_op 1;;
    topBytes ← top 1;
    nSequence ← script_num topBytes 5;
    if nSequence <? 0 then fail ScriptErrNegativeLockTime
    else if nSequence .& SequenceLockTimeDisableFlag =? SequenceLockTimeDisableFlag then mret tt
    else
      i ← lift (nth_go (ins t) nIn);
      if negb (CheckSequence nSequence (Sequence i) (u32 (version t))) then fail ScriptErrUnsatisfiedLockTime
      else mret tt.

(** *** Control *)
Definition op_if (fExec : bool) (op : Z) : interp unit :=
  fValue ←
    (if fExec then
       need 1 ScriptErrUnbalancedConditional;;
       vch ← top_nil 1 ScriptErrUnbalancedConditional;
       vchBytes ← bytes_of vch;
       if all_flag flags ScriptVerifyMinimalIf && (1 <? Z.of_nat (length vchBytes)) then fail ScriptErrMinimalIf
       else if all_flag flags ScriptVerifyMinimalIf && (Z.of_nat (length vchBytes) =? 1)
               && negb (byte_at vchBytes 0 1) then fail ScriptErrMinimalIf
       else
         let fValue := BytesToBool vchBytes in
         let fValue := if op =? OP_NOTIF then negb fValue else fValue in
         pop;; mret fValue
     else mret false);
  ex ← gets stackExec; set_exec (Push ex fValue).
Definition op_else : interp unit :=
  ex ← gets stackExec;
  if Stack_Empty ex then fail ScriptErrUnbalancedConditional
  else
    vf ← lift (deref (Top ex (-1)));
    let '(ok, ex') := SetTop ex (-1) (negb vf) in
    if negb ok then fail ScriptErrUnbalancedConditional else set_exec ex'.
Definition op_endif : interp unit :=
  ex ← gets stackExec;
  if Stack_Empty ex then fail ScriptErrUnbalancedConditional else set_exec (Pop ex).2.
Definition op_verify : interp unit :=
  need_op 1;; vch ← top 1; b ← bytes_of vch;
  if BytesToBool b then pop else fail ScriptErrVerify.

(** *** Stack operations *)
Definition op_toaltstack : interp unit :=
  need_op 1;; vch ← top 1; a ← gets stackAlt; set_alt (Push a vch);; pop.
Definition op_fromaltstack : interp unit :=
  a ← gets stackAlt;
  if Stack_Size a <? 1 then fail ScriptErrInvalidAltStackOperation
  else x ← lift (deref (Top a (-1))); push x;; set_alt (Pop a).2.
Definition op_2drop : interp unit := need_op 2;; pop;; pop.
Definition op_2dup : interp unit :=
  need_op 2;; vch1 ← top 2; vch2 ← top 1; push vch1;; push vch2.
(** The third nil check of the code tests vch2 again; it cannot fail. *)
Definition op_3dup : interp unit :=
  need_op 3;; vch1 ← top 3; vch2 ← top 2; vch3 ← top_must 1; push vch1;; push vch2;; push vch3.
Definition op_2over : interp unit :=
  need_op 4;; vch1 ← top 4; vch2 ← top 3; push vch1;; push vch2.
Definition op_2rot : interp unit :=
  need_op 6;; vch1 ← top 6; vch2 ← top 5;
  s ← gets stack; set_stack (Erase s (Stack_Size s - 6) (Stack_Size s - 4)).2;;
  push vch1;; push vch2.
Definition swap_at (i j : Z) : interp unit :=
  s ← gets stack; set_stack (Stack_Swap s (Stack_Size s - i) (Stack_Size s - j)).2.
Definition op_2swap : interp unit := need_op 4;; swap_at 4 2;; swap_at 3 1.
Definition op_ifdup : interp unit :=
  need_op 1;; vch ← top 1; b ← bytes_of vch; if BytesToBool b then push vch else mret tt.
Definition op_depth : interp unit := s ← gets stack; push_num (Stack_Size s).
Definition op_drop : interp unit := need_op 1;; pop.
Definition op_dup : interp unit := need_op 1;; vch ← top 1; push vch.
Definition op_nip : interp unit :=
  need_op 2;; s ← gets stack; set_stack (RemoveAt s (Stack_Size s - 2)).2.
Definition op_over : interp unit := need_op 2;; vch ← top 2; push vch.
Definition op_pick_roll (op : Z) : interp unit :=
  need_op 2;;
  vch ← top 1;
  v ← script_num vch DefaultMaxNumSize;
  let n := ToInt32 v in
  pop;;
  s ← gets stack;
  if (n <? 0) || (i32 (Stack_Size s) <=? n) then fail ScriptErrInvalidStackOperation
  else
    vchn ← top (n + 1);
    (if op =? OP_ROLL then set_stack (RemoveAt s (Stack_Size s - n - 1)).2 else mret tt);;
    push vchn.
Definition op_rot : interp unit := need_op 3;; swap_at 3 2;; swap_at 2 1.
Definition op_swap : interp unit := need_op 2;; swap_at 2 1.
Definition op_tuck : interp unit :=
  need_op 2;; vch ← top 1;
  s ← gets stack;
  let '(ok, s') := Insert s (Stack_Size s - 2) vch in
  if negb ok then fail ScriptErrInvalidStackOperation else set_stack s'.
Definition op_size : interp unit :=
  need_op 1;; vch ← top 1; b ← bytes_of vch; push_num (Z.of_nat (length b)).

(** *** Bitwise logic: the second element from the top is modified in place, a
    byte at a time *)
Definition bit_op (op a b : Z) : Z :=
  if op =? OP_AND then a .& b else if op =? OP_OR then a .| b else a .^ b.
Fixpoint bit_loop (op : Z) (x y : slice) (i n : nat) (h : heap) : heap :=
  match n with
  | O => h
  | S n =>
      let a := default 0 (read h x !! i) in
      let b := default 0 (read h y !! i) in
      bit_loop op x y (S i) n (store h x i [bit_op op a b])
  end.
Definition op_bitwise (op : Z) : interp unit :=
  need_op 2;;
  vch1 ← top_must 2; vch2 ← top_must 1;
  if negb (slen vch1 =? slen vch2)%nat then fail ScriptErrInvalidOperandSize
  else
    h ← gets hp;
    set_heap (bit_loop op vch1 vch2 0 (slen vch1) h);;
    pop;; pop;; push vch1.
Definition op_equal (op : Z) : interp unit :=
  need_op 2;; vch1 ← top 2; vch2 ← top 1;
  b1 ← bytes_of vch1; b2 ← bytes_of vch2;
  let fEqual := bool_decide (b1 = b2) in
  pop;; pop;; push_bool fEqual;;
  if op =? OP_EQUALVERIFY then if fEqual then pop else fail ScriptErrEqualVerify else mret tt.

(** *** Numbers *)
Definition op_unary (op : Z) : interp unit :=
  need_op 1;; vch ← top 1;
  bn ← script_num vch DefaultMaxNumSize;
  v ← (if op =? OP_1ADD then mret (i64 (bn + 1))
       else if op =? OP_1SUB then mret (i64 (bn - 1))
       else if op =? OP_NEGATE then mret (i64 (- bn))
       else if op =? OP_ABS then mret (if bn <? 0 then i64 (- bn) else bn)
       else fail ScriptErrInvalidOpCode);
  pop;; push_num v.
Definition op_zero_test (op : Z) : interp unit :=
  need_op 1;; vch ← top 1;
  bn ← script_num vch DefaultMaxNumSize;
  fValue ← (if op =? OP_NOT then mret (bn =? 0)
            else if op =? OP_0NOTEQUAL then mret (negb (bn =? 0))
            else fail ScriptErrInvalidOpCode);
  pop;; push_bool fValue.
Definition binary_value (op bn1 bn2 : Z) : res ScriptErr Z :=
  if op =? OP_ADD then Ok (i64 (bn1 + bn2))
  else if op =? OP_SUB then Ok (i64 (bn1 - bn2))
  else if op =? OP_DIV then if bn2 =? 0 then Err ScriptErrDivByZero else Ok (i64 (Z.quot bn1 bn2))
  else if op =? OP_MOD then if bn2 =? 0 then Err ScriptErrModByZero else Ok (Z.rem bn1 bn2)
  else if op =? OP_MIN then Ok (if bn1 <? bn2 then bn1 else bn2)
  else if op =? OP_MAX then Ok (if bn2 <? bn1 then bn1 else bn2)
  else Err ScriptErrInvalidOpCode.
Definition op_binary (op : Z) : interp unit :=
  need_op 2;; vch1 ← top 2; vch2 ← top 1;
  bn1 ← script_num vch1 DefaultMaxNumSize; bn2 ← script_num vch2 DefaultMaxNumSize;
  bn ← lift (binary_value op bn1 bn2);
  pop;; pop;; push_num bn.
Definition compare_value (op bn1 bn2 : Z) : res ScriptErr bool :=
  if op =? OP_BOOLAND then Ok (negb (bn1 =? 0) && negb (bn2 =? 0))
  else if op =? OP_BOOLOR then Ok (negb (bn1 =? 0) || negb (bn2 =? 0))
  else if op =? OP_NUMEQUAL then Ok (bn1 =? bn2)
  else if op =? OP_NUMEQUALVERIFY then Ok (bn1 =? bn2)
  else if op =? OP_NUMNOTEQUAL then Ok (negb (bn1 =? bn2))
  else if op =? OP_LESSTHAN then Ok (bn1 <? bn2)
  else if op =? OP_GREATERTHAN then Ok (bn2 <? bn1)
  else if op =? OP_LESSTHANOREQUAL then Ok (bn1 <=? bn2)
  else if op =? OP_GREATERTHANOREQUAL then Ok (bn2 <=? bn1)
  else Err ScriptErrInvalidOpCode.
Definition op_compare (op : Z) : interp unit :=
  need_op 2;; vch1 ← top 2; vch2 ← top 1;
  bn1 ← script_num vch1 DefaultMaxNumSize; bn2 ← script_num vch2 DefaultMaxNumSize;
  fValue ← lift (compare_value op bn1 bn2);
  pop;; pop;; push_bool fValue;;
  if op =? OP_NUMEQUALVERIFY then
    vch ← top_must 1; b ← bytes_of vch;
    if BytesToBool b then pop else fail ScriptErrNumEqualVerify
  else mret tt.
Definition op_within : interp unit :=
  need_op 3;; vch1 ← top 3; vch2 ← top 2; vch3 ← top 1;
  bn1 ← script_num vch1 DefaultMaxNumSize; bn2 ← script_num vch2 DefaultMaxNumSize;
  bn3 ← script_num vch3 DefaultMaxNumSize;
  pop;; pop;; pop;; push_bool ((bn2 <=? bn1) && (bn1 <? bn3)).

(** *** Hashes: fixed-size arrays have no spare capacity, appended ones may *)
Definition op_hash (op : Z) : interp unit :=
  need_op 1;; vch ← top 1; b ← bytes_of vch;
  let '(vchHash, cap) :=
    if op =? OP_RIPEMD160 then (Ripemd160 b, grow 0 20)
    else if op =? OP_SHA1 then (Sha1 b, grow 0 20)
    else if op =? OP_SHA256 then (Sha256Bytes b, 32%nat)
    else if op =? OP_HASH160 then (Hash160 b, grow 0 20)
    else (DoubleSha256Bytes b, 32%nat) in
  pop;; push_new vchHash cap.

(** *** Signatures *)

(** [script.NewScriptOps(s.ParsedOpCodes[beginCodeHash:])] copies the opcodes. *)
Definition read_op (h : heap) (e : ParsedOpCode slice) : POC :=
  NewParsedOpCode (OpValue e) (Length e) (read h (Data e)).
Definition script_code : interp Script :=
  b ← gets beginCodeHash; h ← gets hp;
  mret (NewScriptOps (map (read_op h) (drop (Z.to_nat b) ops))).

Definition op_checksig (op : Z) : interp unit :=
  need_op 2;;
  vchSig ← top 2; vchPubkey ← top 1;
  sig ← bytes_of vchSig; key ← bytes_of vchPubkey;
  lift (CheckTransactionSignatureEncoding CheckLowS sig flags);;
  lift (CheckPubKeyEncoding key flags);;
  scriptCode ← script_code;
  fSuccess ← lift (CheckSig t sig key (RemoveOpcodeByData scriptCode sig) nIn money flags);
  if negb fSuccess && all_flag flags ScriptVerifyNullFail && (0 <? Z.of_nat (length sig))
  then fail ScriptErrSigNullFail
  else
    pop;; pop;; push_bool fSuccess;;
    if op =? OP_CHECKSIGVERIFY then if (fSuccess : bool) then pop else fail ScriptErrCheckSigVerify
    else mret tt.

(** An error of VerifySignature is only logged. *)
Definition op_checkdatasig (op : Z) : interp unit :=
  if negb (has_flag flags ScriptEnableCheckDataSig) then fail ScriptErrBadOpCode
  else
    need_op 3;;
    vchSig ← top 3; vchMessage ← top 2; vchPubKey ← top 1;
    sig ← bytes_of vchSig; msg ← bytes_of vchMessage; key ← bytes_of vchPubKey;
    lift (CheckDataSignatureEncoding CheckLowS sig flags);;
    lift (CheckPubKeyEncoding key flags);;
    let '(ppubKey, _) := ParsePubKey key in
    success ←
      (if decide (sig = []) then mret false
       else match VerifySignature sig ppubKey (Sha256 msg) with
            | Ok b => mret b
            | Err _ => mret false
            | Panic => lift Panic
            end);
    if negb success && has_flag flags ScriptVerifyNullFail && (0 <? Z.of_nat (length sig))
    then fail ScriptErrSigNullFail
    else
      pop;; pop;; pop;; push_bool success;;
      if op =? OP_CHECKDATASIGVERIFY then if (success : bool) then pop else fail ScriptErrCheckDataSigVerify
      else mret tt.

(** *** OP_CHECKMULTISIG *)

(** Remove every signature from the script code. *)
Fixpoint remove_sigs (n : nat) (iSig : Z) (scriptCode : Script) : interp Script :=
  match n with
  | O => mret scriptCode
  | S n =>
      vchSig ← top iSig; sig ← bytes_of vchSig;
      remove_sigs n (iSig + 1) (RemoveOpcodeByData scriptCode sig)
  end.
(** Match signatures against keys in order; a round uses up a key, so that
    [pubKeysCount] rounds are enough ([multisig_loop_fuel]). *)
Fixpoint multisig_loop (fuel : nat) (scriptCode : Script) (iSig iPubKey nSigsCount pubKeysCount : Z)
  : interp bool :=
  if negb (0 <? nSigsCount) then mret true
  else match fuel with
  | O => mret false
  | S fuel =>
      vchSig ← top iSig; vchPubkey ← top iPubKey;
      sig ← bytes_of vchSig; key ← bytes_of vchPubkey;
      lift (CheckTransactionSignatureEncoding CheckLowS sig flags);;
      lift (CheckPubKeyEncoding key flags);;
      fOk ← lift (CheckSig t sig key scriptCode nIn money flags);
      let iSig := if (fOk : bool) then iSig + 1 else iSig in
      let nSigsCount := if (fOk : bool) then nSigsCount - 1 else nSigsCount in
      let pubKeysCount := pubKeysCount - 1 in
      if pubKeysCount <? nSigsCount then mret false
      else multisig_loop fuel scriptCode iSig (iPubKey + 1) nSigsCount pubKeysCount
  end.
(** Drop the arguments; after a failure a signature must be empty under NULLFAIL. *)
Fixpoint multisig_cleanup (n : nat) (fSuccess : bool) (iKey2 : Z) : interp unit :=
  match n with
  | O => mret tt
  | S n =>
      (if negb fSuccess && all_flag flags ScriptVerifyNullFail && (iKey2 =? 0) then
         x ← top_must 1;
         if (0 <? slen x)%nat then fail ScriptErrSigNullFail else mret tt
       else mret tt);;
      pop;; multisig_cleanup n fSuccess (if 0 <? iKey2 then iKey2 - 1 else iKey2)
  end.
Definition op_checkmultisig (op : Z) : interp unit :=
  need_op 1;;
  vch ← top 1;
  pubKeysNum ← script_num vch DefaultMaxNumSize;
  let pubKeysCount := ToInt32 pubKeysNum in
  if (pubKeysCount <? 0) || (MaxPubKeysPerMultiSig <? pubKeysCount) then fail ScriptErrPubKeyCount
  else
    n ← gets nOpCount;
    set_opcount (n + pubKeysCount);;
    if MaxOpsPerScript <? n + pubKeysCount then fail ScriptErrOpCount
    else
      let i := 2 + pubKeysCount in
      need_op i;;
      sigsNumVch ← top_must i;
      nSigsNum ← script_num sigsNumVch DefaultMaxNumSize;
      let nSigsCount := ToInt32 nSigsNum in
      if (nSigsCount <? 0) || (pubKeysCount <? nSigsCount) then fail ScriptErrSigCount
      else
        let iSig := i + 1 in
        let i := iSig + nSigsCount in
        need_op i;;
        scriptCode ← script_code;
        scriptCode ← remove_sigs (Z.to_nat nSigsCount) iSig scriptCode;
        fSuccess ← multisig_loop (Z.to_nat pubKeysCount) scriptCode iSig 2 nSigsCount pubKeysCount;
        multisig_cleanup (Z.to_nat (i - 1)) fSuccess (pubKeysCount + 2);;
        need_op 1;;
        dummy ← top_must 1;
        if all_flag flags ScriptVerifyNullDummy && (0 <? slen dummy)%nat then fail ScriptErrSigNullDummy
        else
          pop;; push_bool fSuccess;;
          if op =? OP_CHECKMULTISIGVERIFY
          then if (fSuccess : bool) then pop else fail ScriptErrCheckMultiSigVerify
          else mret tt.

(** *** Splicing and conversions *)
Definition op_cat : interp unit :=
  need_op 2;;
  vch1 ← top_must 2; vch2 ← top_must 1;
  if MaxScriptElementSize <? Z.of_nat (slen vch1 + slen vch2) then fail ScriptErrPushSize
  else
    pop;; pop;;
    b1 ← bytes_of vch1; b2 ← bytes_of vch2;
    x ← new_slice [] 0;
    h ← gets hp; let '(h, x) := append grow h x b1 in
    let '(h, x) := append grow h x b2 in
    set_heap h;; push x.
Definition op_split : interp unit :=
  need_op 2;;
  vch1 ← top_must 2; vch2 ← top_must 1;
  b2 ← bytes_of vch2;
  match GetScriptNum b2 fRequireMinimal DefaultMaxNumSize with
  | Err _ => fail ScriptErrInvalidStackOperation
  | Panic => lift Panic
  | Ok position =>
      if Z.of_nat (slen vch1) <? u64 position then fail ScriptErrInvalidSplitRange
      else
        let vch3 := slice_to vch1 (Z.to_nat position) in
        let vch4 := slice_from vch1 (Z.to_nat position) in
        pop;; pop;; push vch3;; push vch4
  end.
(** script.MinimallyEncode on a slice: the array is rewritten in place and the
    result is a shorter slice of it. *)
Definition minimally_encode (x : slice) : interp slice :=
  b ← bytes_of x;
  let '(buf, n) := MinimallyEncode b in
  h ← gets hp; set_heap (store h x 0 buf);; mret (slice_to x n).
Fixpoint append_zeros (n : nat) (h : heap) (x : slice) : heap * slice :=
  match n with
  | O => (h, x)
  | S n => let '(h, x) := append grow h x [0] in append_zeros n h x
  end.
Definition op_num2bin : interp unit :=
  need_op 2;;
  vch2 ← top_must 1;
  size ← script_num vch2 DefaultMaxNumSize;
  if (MaxScriptElementSize <? size) || (size <? 0) then fail ScriptErrPushSize
  else
    pop;;
    vch1 ← top_must 1;
    vchEncode ← minimally_encode vch1;
    let vchEncodeLen := Z.of_nat (slen vchEncode) in
    if size <? vchEncodeLen then fail ScriptErrImpossibleEncoding
    else if vchEncodeLen =? size then pop;; push vchEncode
    else
      b ← bytes_of vchEncode;
      h ← gets hp;
      let '(signbit, h) :=
        match last b with
        | Some top => (top .& 0x80, store h vchEncode (slen vchEncode - 1) [top .& 0x7f])
        | None => (0, h)
        end in
      let '(h, x) := append_zeros (Z.to_nat (size - 1 - vchEncodeLen)) h vchEncode in
      let '(h, x) := append grow h x [signbit] in
      set_heap h;; pop;; push x.
Definition op_bin2num : interp unit :=
  need_op 1;;
  vch ← top_must 1;
  vchEncode ← minimally_encode vch;
  b ← bytes_of vchEncode;
  if negb (IsMinimallyEncoded b DefaultMaxNumSize) then fail ScriptErrInvalidNumberRange
  else pop;; push vchEncode.

(** *** The switch *)
Definition exec_opcode (i : Z) (fExec : bool) (op : Z) : interp unit :=
  if one_of op [OP_1NEGATE; OP_1; OP_2; OP_3; OP_4; OP_5; OP_6; OP_7; OP_8; OP_9; OP_10; OP_11;
                OP_12; OP_13; OP_14; OP_15; OP_16] then op_small op
  else if op =? OP_NOP then mret tt
  else if op =? OP_CHECKLOCKTIMEVERIFY then op_checklocktimeverify
  else if op =? OP_CHECKSEQUENCEVERIFY then op_checksequenceverify
  else if one_of op [OP_NOP1; OP_NOP4; OP_NOP5; OP_NOP6; OP_NOP7; OP_NOP8; OP_NOP9; OP_NOP10]
  then discourage_nops
  else if one_of op [OP_IF; OP_NOTIF] then op_if fExec op
  else if op =? OP_ELSE then op_else
  else if op =? OP_ENDIF then op_endif
  else if op =? OP_VERIFY then op_verify
  else if op =? OP_RETURN then fail ScriptErrOpReturn
  else if op =? OP_TOALTSTACK then op_toaltstack
  else if op =? OP_FROMALTSTACK then op_fromaltstack
  else if op =? OP_2DROP then op_2drop
  else if op =? OP_2DUP then op_2dup
  else if op =? OP_3DUP then op_3dup
  else if op =? OP_2OVER then op_2over
  else if op =? OP_2ROT then op_2rot
  else if op =? OP_2SWAP then op_2swap
  else if op =? OP_IFDUP then op_ifdup
  else if op =? OP_DEPTH then op_depth
  else if op =? OP_DROP then op_drop
  else if op =? OP_DUP then op_dup
  else if op =? OP_NIP then op_nip
  else if op =? OP_OVER then op_over
  else if one_of op [OP_PICK; OP_ROLL] then op_pick_roll op
  else if op =? OP_ROT then op_rot
  else if op =? OP_SWAP then op_swap
  else if op =? OP_TUCK then op_tuck
  else if op =? OP_SIZE then op_size
  else if one_of op [OP_AND; OP_OR; OP_XOR] then op_bitwise op
  else if one_of op [OP_EQUAL; OP_EQUALVERIFY] then op_equal op
  else if one_of op [OP_1ADD; OP_1SUB; OP_NEGATE; OP_ABS] then op_unary op
  else if one_of op [OP_NOT; OP_0NOTEQUAL] then op_zero_test op
  else if one_of op [OP_ADD; OP_SUB; OP_DIV; OP_MOD; OP_MIN; OP_MAX] then op_binary op
  else if one_of op [OP_BOOLAND; OP_BOOLOR; OP_NUMEQUAL; OP_NUMEQUALVERIFY; OP_NUMNOTEQUAL;
                     OP_LESSTHAN; OP_GREATERTHAN; OP_LESSTHANOREQUAL; OP_GREATERTHANOREQUAL]
  then op_compare op
  else if op =? OP_WITHIN then op_within
  else if one_of op [OP_RIPEMD160; OP_SHA1; OP_SHA256; OP_HASH160; OP_HASH256] then op_hash op
  else if op =? OP_CODESEPARATOR then set_begin i
  else if one_of op [OP_CHECKSIG; OP_CHECKSIGVERIFY] then op_checksig op
  else if one_of op [OP_CHECKDATASIG; OP_CHECKDATASIGVERIFY] then op_checkdatasig op
  else if one_of op [OP_CHECKMULTISIG; OP_CHECKMULTISIGVERIFY] then op_checkmultisig op
  else if op =? OP_CAT then op_cat
  else if op =? OP_SPLIT then op_split
  else if op =? OP_NUM2BIN then op_num2bin
  else if op =? OP_BIN2NUM then op_bin2num
  else fail ScriptErrBadOpCode.

(** *** One round of the loop over the opcodes *)
Definition count_op (op : Z) : interp unit :=
  if OP_16 <? op then
    n ← gets nOpCount;
    set_opcount (n + 1);;
    if MaxOpsPerScript <? n + 1 then fail ScriptErrOpCount else mret tt
  else mret tt.
Definition check_stack_size : interp unit :=
  s ← gets stack; a ← gets stackAlt;
  if 1000 <? Stack_Size s + Stack_Size a then fail ScriptErrStackSize else mret tt.
Definition push_data (e : ParsedOpCode slice) : interp unit :=
  d ← bytes_of (Data e);
  if fRequireMinimal && negb (CheckMinimalDataPush (OpValue e) d) then fail ScriptErrMinimalData
  else push (Data e).
Definition exec_one (i : Z) (e : ParsedOpCode slice) : interp unit :=
  ex ← gets stackExec;
  let fExec := CountBool ex false =? 0 in
  if MaxScriptElementSize <? Z.of_nat (slen (Data e)) then fail ScriptErrPushSize
  else
    count_op (OpValue e);;
    if IsOpCodeDisabled (OpValue e) then fail ScriptErrDisabledOpCode
    else
      (if fExec && (0 <=? OpValue e) && (OpValue e <=? OP_PUSHDATA4) then push_data e
       else if fExec || ((OP_IF <=? OpValue e) && (OpValue e <=? OP_ENDIF))
       then exec_opcode i fExec (OpValue e)
       else mret tt);;
      check_stack_size.
Fixpoint exec_loop (i : Z) (l : list (ParsedOpCode slice)) : interp unit :=
  match l with
  | [] => mret tt
  | e :: l => exec_one i e;; exec_loop (i + 1) l
  end.
End Eval.

(** ** Scripts in the heap, EvalScript and VerifyScript *)

(** A script object whose parsed opcodes have their data in the heap; the raw
    bytes are never written to. *)
Record hscript := mkHscript {
  hdata : bytes;
  hops : list (ParsedOpCode slice);
  hbad : bool }.
Definition load_op (h : heap) (e : POC) : heap * ParsedOpCode slice :=
  let '(h', x) := alloc h (Data e) 0 in (h', NewParsedOpCode (OpValue e) (Length e) x).
Fixpoint load_ops (h : heap) (l : list POC) : heap * list (ParsedOpCode slice) :=
  match l with
  | [] => (h, [])
  | e :: l => let '(h, e') := load_op h e in
              let '(h, l') := load_ops h l in (h, e' :: l')
  end.
Definition load (h : heap) (s : Script) : heap * hscript :=
  let '(h, l) := load_ops h (ParsedOpCodes s) in (h, mkHscript (data s) l (badOpCode s)).
(** What the other functions of package script see of it. *)
Definition view (h : heap) (s : hscript) : Script :=
  mkScript (hdata s) (map (read_op h) (hops s)) (hbad s).

Section Verify.
Context `{Secp256k1} `{!Checker} `{Hashes} (grow : nat -> nat -> nat).
Context (t : Tx) (nIn money : Z).

(** The heap, the main stack and the result of an evaluation. *)
Definition EvalScript (flags : Z) (h : heap) (stk : list slice) (s : hscript)
  : heap * list slice * res ScriptErr unit :=
  if hbad s then (h, stk, Err ScriptErrBadOpCode)
  else if MaxScriptSize <? Z.of_nat (length (hdata s)) then (h, stk, Err ScriptErrScriptSize)
  else
    let '(st, r) := exec_loop grow t nIn money flags (hops s) 0 (hops s) (mkIstate h stk [] [] 0 0) in
    (hp st, stack st,
     match r with
     | Ok _ => if negb (Stack_Empty (stackExec st)) then Err ScriptErrUnbalancedConditional else Ok tt
     | Err e => Err e
     | Panic => Panic
     end).

(** The result of an evaluation as a condition: the top of the stack is true. *)
Definition check_top (h : heap) (stk : list slice) : res ScriptErr unit :=
  if Stack_Empty stk then Err ScriptErrEvalFalse
  else vch ← deref (Top stk (-1));
       if negb (BytesToBool (read h vch)) then Err ScriptErrEvalFalse else Ok tt.

(** The redeem script of a pay-to-script-hash output. *)
Definition eval_redeem (flags : Z) (h : heap) (stk : list slice)
  : heap * list slice * res ScriptErr unit :=
  match Top stk (-1) with
  | None => (h, stk, Panic)
  | Some topBytes =>
      let stk := (Pop stk).2 in
      let '(h, scriptPubKey2) := load h (NewScriptRaw (read h topBytes)) in
      let '(h, stk, r) := EvalScript flags h stk scriptPubKey2 in
      (h, stk, r;; check_top h stk)
  end.

(** The CLEANSTACK check. *)
Definition check_clean (flags : Z) (stk : list slice) : res ScriptErr unit :=
  if has_flag flags ScriptVerifyCleanStack then
    if negb (has_flag flags ScriptVerifyP2SH) then Panic
    else if negb (Stack_Size stk =? 1) then Err ScriptErrCleanStack
    else Ok tt
  else Ok tt.

Definition VerifyScript (h : heap) (scriptSig scriptPubKey : hscript) (flags : Z)
  : heap * res ScriptErr unit :=
  let flags := if all_flag flags ScriptEnableSigHashForkID then flags .| ScriptVerifyStrictEnc else flags in
  if all_flag flags ScriptVerifySigPushOnly && negb (IsPushOnly (view h scriptSig))
  then (h, Err ScriptErrSigPushOnly)
  else
    let '(h, stk, r) := EvalScript flags h [] scriptSig in
    match r with
    | Err e => (h, Err e)
    | Panic => (h, Panic)
    | Ok _ =>
        let stackCopy := Stack_Copy stk in
        let '(h, stk, r) := EvalScript flags h stk scriptPubKey in
        match (r;; check_top h stk) with
        | Err e => (h, Err e)
        | Panic => (h, Panic)
        | Ok _ =>
            if all_flag flags ScriptVerifyP2SH && IsPayToScriptHash (view h scriptPubKey) then
              if negb (IsPushOnly (view h scriptSig)) then (h, Err ScriptErrSigPushOnly)
              else
                let '(stk, _) := Swap stk stackCopy in
                let '(h, stk, r) := eval_redeem flags h stk in
                (h, r;; check_clean flags stk)
            else (h, check_clean flags stk)
        end
    end.
End Verify.
