(* ===== verification/InterpFacts.v ===== *)
(** * Safety of the script interpreter

    A weakest-precondition calculus for the evaluation monad, the invariant of
    an evaluation (slices inside their arrays, element sizes, operation count)
    and the proof that every opcode, hence EvalScript and VerifyScript, keeps it
    and never panics. *)
From S2P Require Import Prelude Errors Wire ScriptNum Opcodes Script ScriptFacts Tx Crypto Stack Slice Interp.

(** ** Weakest preconditions *)
Definition wp {A} (m : interp A) (Q : A -> istate -> Prop) (E : istate -> Prop) (st : istate) : Prop :=
  match m st with
  | (st', Ok a) => Q a st'
  | (st', Err _) => E st'
  | (_, Panic) => False
  end.

Lemma wp_bind {A B} (m : interp A) (f : A -> interp B) Q E st :
  wp m (fun a => wp (f a) Q E) E st -> wp (m ≫= f) Q E st.
Proof. unfold wp, mbind, interp_bind. by destruct (m st) as [st' [a|e|]]. Qed.
Lemma wp_mono {A} (m : interp A) (Q Q' : A -> istate -> Prop) E st :
  wp m Q E st -> (forall a st', Q a st' -> Q' a st') -> wp m Q' E st.
Proof. unfold wp. destruct (m st) as [st' [a|e|]]; auto. Qed.
Lemma wp_ret {A} (a : A) Q E st : Q a st -> wp (mret a) Q E st.
Proof. done. Qed.
Lemma wp_fail {A} e (Q : A -> istate -> Prop) (E : istate -> Prop) st : E st -> wp (fail e) Q E st.
Proof. done. Qed.
Lemma wp_gets {A} (f : istate -> A) (Q : A -> istate -> Prop) E st : Q (f st) st -> wp (gets f) Q E st.
Proof. done. Qed.
Lemma wp_lift {A} (r : res ScriptErr A) Q (E : istate -> Prop) st :
  (forall a, r = Ok a -> Q a st) -> r <> Panic -> E st -> wp (lift r) Q E st.
Proof. unfold wp, lift. destruct r; auto. Qed.

Lemma wp_lift_ok {A} (r : res ScriptErr A) a Q (E : istate -> Prop) st : r = Ok a -> Q a st -> wp (lift r) Q E st.
Proof. by intros ->. Qed.

(** ** The invariant *)
Section Invariant.
Context (h0 : heap) (ops : list (ParsedOpCode slice)).

Definition elem_ok (h : heap) (x : slice) : Prop := wf_slice h x /\ (slen x <= 520)%nat.

Record inv (st : istate) : Prop := {
  inv_heap : heap_le h0 (hp st);
  inv_bytes : Forall bytes_ok (hp st);
  inv_stack : Forall (elem_ok (hp st)) (stack st);
  inv_alt : Forall (elem_ok (hp st)) (stackAlt st);
  inv_count : 0 <= nOpCount st <= MaxOpsPerScript;
  inv_ops : Forall (fun e => wf_slice (hp st) (Data e)) ops }.
(** What is left after an error: the heap. *)
Definition err_ok (st : istate) : Prop := heap_le h0 (hp st) /\ Forall bytes_ok (hp st).

Lemma inv_err st : inv st -> err_ok st.
Proof. intros [? ? _ _ _ _]. by split. Qed.
Lemma elem_ok_le h h' x : heap_le h h' -> elem_ok h x -> elem_ok h' x.
Proof. intros HL [Hw ?]. split; [by eapply wf_slice_le|done]. Qed.
Lemma elem_ok_le_list h h' l : heap_le h h' -> Forall (elem_ok h) l -> Forall (elem_ok h') l.
Proof. intros HL Hl. eapply Forall_impl; [done|]. intros x. by apply elem_ok_le. Qed.

Lemma inv_set_heap st h : inv st -> heap_le (hp st) h -> Forall bytes_ok h -> inv (set_heap h st).1.
Proof.
  intros [H1 H2 H3 H4 H5 H6] HL Hb. split; simpl; [by eapply heap_le_trans|done|..|done|].
  - by eapply elem_ok_le_list.
  - by eapply elem_ok_le_list.
  - eapply Forall_impl; [done|]. intros e. by apply wf_slice_le.
Qed.
Lemma inv_set_stack st s : inv st -> Forall (elem_ok (hp st)) s -> inv (set_stack s st).1.
Proof. by intros [H1 H2 H3 H4 H5 H6] Hs. Qed.
Lemma inv_set_alt st s : inv st -> Forall (elem_ok (hp st)) s -> inv (set_alt s st).1.
Proof. by intros [H1 H2 H3 H4 H5 H6] Hs. Qed.
Lemma inv_set_exec st s : inv st -> inv (set_exec s st).1.
Proof. by intros [H1 H2 H3 H4 H5 H6]. Qed.
Lemma inv_set_begin st i : inv st -> inv (set_begin i st).1.
Proof. by intros [H1 H2 H3 H4 H5 H6]. Qed.

Lemma read_ok h x : Forall bytes_ok h -> bytes_ok (read h x).
Proof.
  intros H. unfold read, array. apply Forall_take, Forall_drop. destruct (h !! arr x) eqn:E; [|constructor].
  by eapply Forall_lookup in H.
Qed.
Lemma alloc_bytes_ok h bs cap : Forall bytes_ok h -> bytes_ok bs -> Forall bytes_ok (alloc h bs cap).1.
Proof.
  intros Hh Hb. unfold alloc. cbn [fst]. rw Forall_app Forall_cons. split_and!; [done| |constructor].
  apply Forall_app. split; [done|]. apply Forall_replicate. by vm_compute.
Qed.
Lemma store_bytes_ok h x i bs : Forall bytes_ok h -> bytes_ok bs -> Forall bytes_ok (store h x i bs).
Proof.
  intros Hh Hb. unfold store. apply Forall_lookup. intros k a Hk.
  destruct (decide (arr x = k)) as [<-|].
  - rw list_lookup_alter_eq in Hk. destruct (h !! arr x) as [a'|] eqn:E; simplify_eq/=.
    eapply Forall_lookup in E; [|done]. unfold blit. rw !Forall_app. split_and!; auto using Forall_take, Forall_drop.
  - rw list_lookup_alter_ne // in Hk. by eapply Forall_lookup in Hk.
Qed.
Lemma append_bytes_ok grow h x bs : Forall bytes_ok h -> bytes_ok bs ->
  Forall bytes_ok (append grow h x bs).1.
Proof.
  intros Hh Hb. unfold append. case_decide; [by apply store_bytes_ok|]. apply alloc_bytes_ok; [done|].
  apply Forall_app. split; [by apply read_ok|done].
Qed.

(** *** The primitive steps keep the invariant *)
Section Steps.
Context (st : istate) (I : inv st).

Lemma Stack_Size_nonneg {A} (s : list A) : 0 <= Stack_Size s.
Proof. unfold Stack_Size. lia. Qed.

Lemma wp_need n e (Q : unit -> istate -> Prop) : (n <= Stack_Size (stack st) -> Q tt st) -> wp (need n e) Q err_ok st.
Proof.
  intros HQ. unfold need. apply wp_bind, wp_gets. destruct (Z.ltb_spec (Stack_Size (stack st)) n).
  - by apply wp_fail, inv_err.
  - by apply wp_ret, HQ.
Qed.
Lemma Top_ok (s : list slice) n : Forall (elem_ok (hp st)) s -> 1 <= n <= Stack_Size s ->
  exists x, Top s (- n) = Some x /\ elem_ok (hp st) x.
Proof.
  intros HF Hn. unfold Top. destruct ((_ <? _) || _) eqn:E; [lia|].
  destruct (lookup_lt_is_Some_2 s (Z.to_nat (Stack_Size s + - n))) as [x Hx]; [unfold Stack_Size in *; lia|].
  exists x. split; [done|]. by eapply Forall_lookup in Hx.
Qed.
Lemma wp_top_nil n e Q : 1 <= n <= Stack_Size (stack st) ->
  (forall x, elem_ok (hp st) x -> Q x st) -> wp (top_nil n e) Q err_ok st.
Proof.
  intros Hn HQ. unfold top_nil. apply wp_bind, wp_gets.
  destruct (Top_ok (stack st) n (inv_stack _ I) Hn) as (x & -> & Hx). by apply wp_ret, HQ.
Qed.
Lemma wp_top n Q : 1 <= n <= Stack_Size (stack st) ->
  (forall x, elem_ok (hp st) x -> Q x st) -> wp (top n) Q err_ok st.
Proof. by apply wp_top_nil. Qed.
Lemma wp_top_must n Q : 1 <= n <= Stack_Size (stack st) ->
  (forall x, elem_ok (hp st) x -> Q x st) -> wp (top_must n) Q err_ok st.
Proof.
  intros Hn HQ. unfold top_must. apply wp_bind, wp_gets.
  destruct (Top_ok (stack st) n (inv_stack _ I) Hn) as (x & -> & Hx). by apply HQ.
Qed.
Lemma wp_bytes_of x (Q : bytes -> istate -> Prop) : elem_ok (hp st) x ->
  (forall b, b = read (hp st) x -> bytes_ok b -> length b = slen x -> Q b st) -> wp (bytes_of x) Q err_ok st.
Proof.
  intros [Hw Hl] HQ. apply wp_gets, HQ; [done|apply read_ok, (inv_bytes _ I)|by apply length_read].
Qed.

(** [Q] after a step that leaves the invariant, the heap ordered and the stack
    [d] elements higher. *)
Definition after (d : Z) (Q : unit -> istate -> Prop) : Prop :=
  forall st', inv st' -> heap_le (hp st) (hp st') ->
    Stack_Size (stack st') = Stack_Size (stack st) + d -> stackAlt st' = stackAlt st -> Q tt st'.

Lemma Pop_sub (s : list slice) (P : slice -> Prop) : Forall P s -> Forall P (Pop s).2.
Proof. intros H. unfold Pop. destruct (last s); [by apply Forall_take|done]. Qed.
Lemma Pop_size {A} (s : list A) : 1 <= Stack_Size s -> Stack_Size (Pop s).2 = Stack_Size s - 1.
Proof.
  unfold Stack_Size. destruct s as [|x s _] using rev_ind; [simpl; lia|]. intros _. rw Pop_app /= length_app /=. lia.
Qed.
Lemma wp_pop Q : 1 <= Stack_Size (stack st) -> after (-1) Q -> wp pop Q err_ok st.
Proof.
  intros Hn HQ. unfold pop. apply wp_bind, wp_gets. apply HQ.
  - apply (inv_set_stack st _ I), Pop_sub, I.
  - apply heap_le_refl.
  - simpl. rw Pop_size //.
  - done.
Qed.
Lemma wp_push x Q : elem_ok (hp st) x -> after 1 Q -> wp (push x) Q err_ok st.
Proof.
  intros Hx HQ. unfold push. apply wp_bind, wp_gets. apply HQ.
  - apply (inv_set_stack st _ I). unfold Push. apply Forall_app. split; [apply I|]. by apply Forall_singleton.
  - apply heap_le_refl.
  - simpl. unfold Push. by rw Stack_Size_app.
  - done.
Qed.
Lemma wp_set_stack s Q : Forall (elem_ok (hp st)) s ->
  after (Stack_Size s - Stack_Size (stack st)) Q -> wp (set_stack s) Q err_ok st.
Proof.
  intros Hs HQ. apply HQ; [by apply inv_set_stack|apply heap_le_refl|simpl; lia|done].
Qed.
Lemma wp_set_heap h Q : heap_le (hp st) h -> Forall bytes_ok h -> after 0 Q -> wp (set_heap h) Q err_ok st.
Proof. intros HL Hb HQ. apply HQ; [by apply inv_set_heap|done|simpl; lia|done]. Qed.
Lemma wp_push_new bs cap Q : bytes_ok bs -> (length bs <= 520)%nat -> after 1 Q -> wp (push_new bs cap) Q err_ok st.
Proof.
  intros Hb Hl HQ. unfold push_new, new_slice. apply wp_bind, wp_bind, wp_gets.
  pose proof (alloc_ext (hp st) bs cap) as He. pose proof (alloc_wf (hp st) bs cap) as Hw.
  pose proof (alloc_bytes_ok (hp st) bs cap (inv_bytes _ I) Hb) as Hbo.
  assert (slen (alloc (hp st) bs cap).2 = length bs) as Hs by done.
  destruct (alloc (hp st) bs cap) as [h x]. cbn [fst snd] in *. apply heap_ext_le in He.
  pose proof (inv_set_heap st h I He Hbo) as I'. apply wp_bind, wp_ret. unfold wp.
  apply HQ; [|done| |done].
  - apply (inv_set_stack _ _ I'). apply Forall_app. split; [apply I'|]. constructor; [|constructor].
    split; [done|lia].
  - simpl. unfold Push. by rw Stack_Size_app.
Qed.
End Steps.
End Invariant.

(** ** Numbers *)
Lemma Serialize_small v : Z.abs v < 2 ^ 62 ->
  exists bs, Serialize v = Ok bs /\ bytes_ok bs /\ (length bs <= 9)%nat.
Proof.
  intros Hv. destruct (Serialize_spec v) as (bs & E & He); [int_lia|int_lia|].
  exists bs. split; [done|]. split; [apply He|]. apply (encodes_length bs v 9 He); [lia|].
  change (128 * 256 ^ (Z.of_nat 9 - 1)) with (2 ^ 71). pow2_norm. lia.
Qed.
Lemma GetScriptNum_range b rm size : bytes_ok b -> 0 <= size <= 5 ->
  GetScriptNum b rm size <> Panic /\ (forall v, GetScriptNum b rm size = Ok v -> Z.abs v < 2 ^ 39).
Proof.
  intros Hb Hs. rw GetScriptNum_spec //; last lia. destruct (_ && _) eqn:E; [|done]. split; [done|].
  intros v [= <-]. destruct (decide (b = [])) as [->|Hne]; [done|].
  pose proof (sn_val_bound b Hb Hne) as H. eapply Z.lt_le_trans; [exact H|].
  change (2 ^ 39) with (128 * 256 ^ 4). apply Z.mul_le_mono_nonneg_l; [lia|]. apply Z.pow_le_mono_r; lia.
Qed.
(** A non-negative number with no bit from 8 on is a byte. *)
Lemma byte_of_bits z : 0 <= z -> (forall i, 8 <= i -> Z.testbit z i = false) -> is_byte z.
Proof.
  intros H0 Hi. split; [done|]. assert (z = z mod 2 ^ 8) as ->; [|by apply Z.mod_pos_bound].
  apply Z.bits_inj'. intros n Hn. destruct (Z.ltb_spec n 8); [by rw Z.mod_pow2_bits_low|].
  rw Z.mod_pow2_bits_high; [by apply Hi|lia].
Qed.
Lemma byte_high_bits z i : is_byte z -> 8 <= i -> Z.testbit z i = false.
Proof. intros Hz Hi. rw -(Z.mod_small z (2 ^ 8)) // Z.mod_pow2_bits_high //. Qed.
Lemma lor_byte a b : is_byte a -> is_byte b -> is_byte (a .| b).
Proof.
  intros Ha Hb. apply byte_of_bits; [apply Z.lor_nonneg; unfold is_u in *; lia|].
  intros i Hi. by rw Z.lor_spec !byte_high_bits.
Qed.
Lemma land_byte a b : is_byte a -> is_byte b -> is_byte (a .& b).
Proof.
  intros Ha Hb. apply byte_of_bits; [apply Z.land_nonneg; unfold is_u in *; lia|].
  intros i Hi. by rw Z.land_spec !byte_high_bits.
Qed.
Lemma lxor_byte a b : is_byte a -> is_byte b -> is_byte (a .^ b).
Proof.
  intros Ha Hb. apply byte_of_bits; [apply Z.lxor_nonneg; unfold is_u in *; lia|].
  intros i Hi. by rw Z.lxor_spec !byte_high_bits.
Qed.
Lemma bit_op_byte op a b : is_byte a -> is_byte b -> is_byte (bit_op op a b).
Proof. intros Ha Hb. unfold bit_op. repeat case_match; auto using land_byte, lor_byte, lxor_byte. Qed.

Lemma minimally_encode_buf_ok i s b : bytes_ok b -> is_byte s -> bytes_ok (minimally_encode_loop i s b).1.
Proof.
  intros Hb Hs. revert b Hb. induction i as [|i IH]; intros b Hb; simpl; [done|].
  destruct (b !! i) as [x|] eqn:E; [|done]. pose proof (Forall_lookup_1 _ _ _ _ Hb E) as Hx.
  repeat case_match; simpl; auto using Forall_insert, lor_byte.
Qed.
Lemma MinimallyEncode_buf_ok b : bytes_ok b -> bytes_ok (MinimallyEncode b).1.
Proof.
  intros Hb. unfold MinimallyEncode. destruct (last b) as [s|] eqn:El; [|done].
  repeat case_match; try done. apply minimally_encode_buf_ok; [done|].
  apply last_Some in El as [l ->]. by apply bytes_ok_snoc in Hb as [_ ?].
Qed.

(** ** What the parameters promise *)

(** The hash functions return bytes, in their documented lengths. *)
Class HashLaws `{Hashes} : Prop := {
  sha256_ok b : bytes_ok (Sha256 b) /\ length (Sha256 b) = 32%nat;
  ripemd160_ok b : bytes_ok (Ripemd160 b) /\ length (Ripemd160 b) = 20%nat;
  sha1_ok b : bytes_ok (Sha1 b) /\ length (Sha1 b) = 20%nat }.

(** A checker that does not panic on the input under verification; VerifySignature is used
    by OP_CHECKDATASIG only, so it counts only where the flags enable that. *)
Class SafeChecker `{Checker} (t : Tx) (nIn flags : Z) : Prop := {
  safe_CheckSig sig key code money fl : CheckSig t sig key code nIn money fl <> Panic;
  safe_VerifySignature sig key hash : has_flag flags ScriptEnableCheckDataSig = true -> VerifySignature sig (ParsePubKey key).1 hash <> Panic;
  safe_index : 0 <= nIn < Z.of_nat (length (ins t)) }.

Lemma raw_encoding_no_panic low sig flags : bytes_ok sig -> checkRawSignatureEncoding low sig flags <> Panic.
Proof.
  intros Hs. unfold checkRawSignatureEncoding.
  destruct (sig_encoding_spec sig Hs) as (b & Hb & _).
  destruct (has_flag flags (ScriptVerifyDersig .| ScriptVerifyLowS .| ScriptVerifyStrictEnc)); rw ?Hb /=;
    repeat case_match; done.
Qed.
Lemma tx_encoding_no_panic low sig flags : bytes_ok sig -> CheckTransactionSignatureEncoding low sig flags <> Panic.
Proof.
  intros Hs. unfold CheckTransactionSignatureEncoding. destruct (last sig); [|done].
  assert (bytes_ok (take (length sig - 1) sig)) as Ht by by apply Forall_take.
  pose proof (raw_encoding_no_panic low _ flags Ht). destruct (checkRawSignatureEncoding _ _ _); [|done|done].
  simpl. repeat case_match; done.
Qed.
Lemma data_encoding_no_panic low sig flags : bytes_ok sig -> CheckDataSignatureEncoding low sig flags <> Panic.
Proof. intros Hs. unfold CheckDataSignatureEncoding. destruct sig; [done|]. by apply raw_encoding_no_panic. Qed.
Lemma key_encoding_no_panic key flags : CheckPubKeyEncoding key flags <> Panic.
Proof. unfold CheckPubKeyEncoding. repeat case_match; done. Qed.

(** ** Every opcode is safe *)
Section Safety.
Context `{Secp256k1} `{!Checker} `{Hashes} `{!HashLaws}.
Context (grow : nat -> nat -> nat).
Context (t : Tx) (nIn money flags : Z) `{!SafeChecker t nIn flags}.
Context (h0 : heap) (ops : list (ParsedOpCode slice)).

Abbreviation I := (inv h0 ops).
Abbreviation E := (err_ok h0).

Lemma wp_push_num st v Q : I st -> Z.abs v < 2 ^ 62 -> after h0 ops st 1 Q -> wp (push_num v) Q E st.
Proof.
  intros HI Hv HQ. unfold push_num. apply wp_bind. destruct (Serialize_small v Hv) as (bs & -> & Hb & Hl).
  apply (wp_push_new h0 ops st HI); [done|lia|done].
Qed.
Lemma wp_push_bool st b Q : I st -> after h0 ops st 1 Q -> wp (push_bool b) Q E st.
Proof. intros HI. apply wp_push_num; [done|]. by destruct b. Qed.
Lemma wp_script_num st x size Q : I st -> elem_ok (hp st) x -> 0 <= size <= 5 ->
  (forall v, Z.abs v < 2 ^ 39 -> Q v st) -> wp (script_num flags x size) Q E st.
Proof.
  intros HI Hx Hs HQ. unfold script_num. apply wp_bind. eapply wp_bytes_of; [done|done|].
  intros b _ Hb _. destruct (GetScriptNum_range b (fRequireMinimal flags) size Hb Hs) as [Hp Hr].
  apply wp_lift; [|done|by eapply inv_err]. intros v Hv. by apply HQ, Hr.
Qed.

(** Move to the state after a step: its facts replace those of the state before. *)
Ltac next_state :=
  let st' := fresh "st" in let HI := fresh "HI" in let HL := fresh "HL" in
  let HS := fresh "HS" in let HA := fresh "HA" in
  intros st' HI HL HS HA;
  lazymatch type of HL with heap_le (hp ?s) _ =>
    repeat match goal with
    | Hx : elem_ok (hp s) ?x |- _ => apply (elem_ok_le _ _ _ HL) in Hx
    end
  end.
Ltac inv_now := match goal with HI : I ?st |- wp _ _ _ ?st => exact HI end.
Ltac wp_step :=
  lazymatch goal with
  | |- wp (_ ≫= _) _ _ _ => apply wp_bind
  | |- wp (mret _) _ _ _ => apply wp_ret
  | |- wp (fail _) _ _ _ => apply wp_fail; eapply inv_err; eassumption
  | |- wp (need_op _) _ _ _ => eapply wp_need; [eassumption|]; intros ?
  | |- wp (need _ _) _ _ _ => eapply wp_need; [eassumption|]; intros ?
  | |- wp (top _) _ _ _ => eapply wp_top; [eassumption|lia|]; intros ? ?
  | |- wp (top_nil _ _) _ _ _ => eapply wp_top_nil; [eassumption|lia|]; intros ? ?
  | |- wp (top_must _) _ _ _ => eapply wp_top_must; [eassumption|lia|]; intros ? ?
  | |- wp (bytes_of _) _ _ _ => eapply wp_bytes_of; [eassumption|eassumption|]; intros ? ? ? ?
  | |- wp (script_num _ _ _) _ _ _ =>
      apply wp_script_num; [eassumption|eassumption|unfold DefaultMaxNumSize; lia|]; intros ? ?
  | |- wp pop _ _ _ => eapply wp_pop; [eassumption|lia|]; next_state
  | |- wp (push _) _ _ _ => eapply wp_push; [eassumption|eassumption|]; next_state
  | |- wp (push_num _) _ _ _ => apply wp_push_num; [eassumption|try (pow2_norm; lia)|next_state]
  | |- wp (push_bool _) _ _ _ => apply wp_push_bool; [eassumption|]; next_state
  | |- wp (gets _) _ _ _ => apply wp_gets
  | |- wp (if ?b then _ else _) _ _ _ => let Hb := fresh "Hb" in destruct b eqn:Hb
  | |- wp (discourage_nops _) _ _ _ => unfold discourage_nops
  end.
Ltac wp_go := repeat wp_step; try eassumption.

(** The stack may grow only by a few elements before it is checked. *)
Definition safe_op (m : interp unit) : Prop := forall st, I st ->
  Stack_Size (stack st) + Stack_Size (stackAlt st) <= 1000 -> wp m (fun _ => I) E st.
Hint Unfold safe_op : go.

Lemma index_ok : exists i, nth_go (E := ScriptErr) (ins t) nIn = Ok i.
Proof.
  pose proof safe_index as Hn. unfold nth_go. destruct (Z.ltb_spec nIn 0); [lia|].
  destruct (lookup_lt_is_Some_2 (ins t) (Z.to_nat nIn)) as [i ->]; [lia|]. by exists i.
Qed.

Lemma op_small_safe op : is_byte op -> safe_op (op_small op).
Proof.
  intros Ho st HI Hs. unfold op_small. apply wp_push_num; [done| |next_state; done].
  unfold OP_1. pow2_norm. unfold is_u in Ho. pow2_norm. lia.
Qed.
Lemma op_checklocktimeverify_safe : safe_op (op_checklocktimeverify t nIn flags).
Proof.
  intros st HI Hs. unfold op_checklocktimeverify. destruct index_ok as [i Hi]. wp_go.
  eapply wp_lift_ok; [exact Hi|]. wp_go.
Qed.
Lemma op_checksequenceverify_safe : safe_op (op_checksequenceverify t nIn flags).
Proof.
  intros st HI Hs. unfold op_checksequenceverify. destruct index_ok as [i Hi]. wp_go.
  eapply wp_lift_ok; [exact Hi|]. wp_go.
Qed.
Lemma discourage_nops_safe : safe_op (discourage_nops flags).
Proof. intros st HI Hs. wp_go. Qed.
Lemma set_exec_safe s st : I st -> wp (set_exec s) (fun _ => I) E st.
Proof. intros HI. by apply (inv_set_exec h0 ops st). Qed.
Lemma op_if_safe fExec op : safe_op (op_if flags fExec op).
Proof. intros st HI Hs. unfold op_if. wp_step. destruct fExec; wp_go; by apply set_exec_safe. Qed.
Lemma op_else_safe : safe_op op_else.
Proof.
  intros st HI Hs. unfold op_else. wp_go. destruct (stackExec st) as [|b s _] using rev_ind; [done|].
  eapply wp_lift_ok; [by rw (Top_app s [b] 0 ltac:(simpl; lia))|]. rw SetTop_app. by apply set_exec_safe.
Qed.
Lemma op_endif_safe : safe_op op_endif.
Proof. intros st HI Hs. unfold op_endif. wp_go. by apply set_exec_safe. Qed.
Lemma op_verify_safe : safe_op op_verify.
Proof. intros st HI Hs. unfold op_verify. wp_go. Qed.
Lemma fail_safe e : safe_op (fail e).
Proof. intros st HI Hs. wp_go. Qed.
Lemma ret_safe : safe_op (mret tt).
Proof. intros st HI Hs. wp_go. Qed.

(** *** The stacks *)
Lemma op_toaltstack_safe : safe_op op_toaltstack.
Proof.
  intros st HI Hs. unfold op_toaltstack. do 6 wp_step. unfold wp at 1.
  assert (I (set_alt (Push (stackAlt st) x) st).1) as HI'.
  { apply inv_set_alt; [done|]. apply Forall_app. split; [apply HI|]. by apply Forall_singleton. }
  cbn. eapply wp_pop; [exact HI'|done|]. next_state. done.
Qed.
Lemma op_fromaltstack_safe : safe_op op_fromaltstack.
Proof.
  intros st HI Hs. unfold op_fromaltstack. wp_step. wp_step. wp_step; [wp_step|]. wp_step.
  destruct (Top_ok st (stackAlt st) 1 (inv_alt _ _ _ HI)) as (x & Hx & Hxo); [lia|].
  eapply wp_lift_ok; [by rw Hx|]. do 2 wp_step.
  apply (inv_set_alt h0 ops st0); [done|]. rw -HA. apply Pop_sub, HI0.
Qed.
Lemma op_2drop_safe : safe_op op_2drop.
Proof. intros st HI Hs. unfold op_2drop. wp_go. Qed.
Lemma op_2dup_safe : safe_op op_2dup.
Proof. intros st HI Hs. unfold op_2dup. wp_go. Qed.
Lemma op_3dup_safe : safe_op op_3dup.
Proof. intros st HI Hs. unfold op_3dup. wp_go. Qed.
Lemma op_2over_safe : safe_op op_2over.
Proof. intros st HI Hs. unfold op_2over. wp_go. Qed.

Lemma RemoveAt_sub (P : slice -> Prop) s i : Forall P s -> Forall P (RemoveAt s i).2.
Proof.
  intros Hs. unfold RemoveAt. repeat case_match; simpl; auto using Forall_take.
  apply Forall_app. auto using Forall_take, Forall_drop.
Qed.
Lemma erase_loop_sub (P : slice -> Prop) n s i : Forall P s -> Forall P (erase_loop n i s).2.
Proof.
  revert s. induction n as [|n IH]; intros s Hs; simpl; [done|].
  pose proof (RemoveAt_sub P s i Hs). destruct (RemoveAt s i) as [[] s']; simpl in *; auto.
Qed.
Lemma Erase_sub (P : slice -> Prop) s i j : Forall P s -> Forall P (Erase s i j).2.
Proof. intros Hs. unfold Erase. case_match; [done|]. by apply erase_loop_sub. Qed.
Lemma Stack_Swap_sub (P : slice -> Prop) s i j : Forall P s -> Forall P (Stack_Swap s i j).2.
Proof.
  intros Hs. unfold Stack_Swap. repeat case_match; simpl; try done.
  repeat apply Forall_insert; try done; by eapply Forall_lookup.
Qed.
Lemma Stack_Swap_size (s : list slice) i j : Stack_Size (Stack_Swap s i j).2 = Stack_Size s.
Proof. unfold Stack_Swap. repeat case_match; simpl; try done. unfold Stack_Size. by rw !length_insert. Qed.

Lemma wp_swap_at st i j Q : I st -> after h0 ops st 0 Q -> wp (swap_at i j) Q E st.
Proof.
  intros HI HQ. unfold swap_at. apply wp_bind, wp_gets. eapply wp_set_stack; [done|apply Stack_Swap_sub, HI|].
  by rw Stack_Swap_size Z.sub_diag.
Qed.
Lemma op_2rot_safe : safe_op op_2rot.
Proof.
  intros st HI Hs. unfold op_2rot. repeat wp_step. eapply wp_set_stack; [done|apply Erase_sub, HI|].
  next_state. wp_go.
Qed.
Lemma op_2swap_safe : safe_op op_2swap.
Proof.
  intros st HI Hs. unfold op_2swap. repeat wp_step. apply wp_swap_at; [done|]. next_state.
  apply wp_swap_at; [done|]. by next_state.
Qed.
Lemma op_ifdup_safe : safe_op op_ifdup.
Proof. intros st HI Hs. unfold op_ifdup. wp_go. Qed.
Lemma op_depth_safe : safe_op op_depth.
Proof.
  intros st HI Hs. unfold op_depth. pose proof (Stack_Size_nonneg (stackAlt st)).
  pose proof (Stack_Size_nonneg (stack st)). wp_go.
Qed.
Lemma op_drop_safe : safe_op op_drop.
Proof. intros st HI Hs. unfold op_drop. wp_go. Qed.
Lemma op_dup_safe : safe_op op_dup.
Proof. intros st HI Hs. unfold op_dup. wp_go. Qed.
Lemma op_nip_safe : safe_op op_nip.
Proof.
  intros st HI Hs. unfold op_nip. repeat wp_step. eapply wp_set_stack; [done|apply RemoveAt_sub, HI|]. by next_state.
Qed.
Lemma op_over_safe : safe_op op_over.
Proof. intros st HI Hs. unfold op_over. wp_go. Qed.
Lemma op_pick_roll_safe op : safe_op (op_pick_roll flags op).
Proof.
  intros st HI Hs. unfold op_pick_roll. cbv zeta. do 10 wp_step. destruct (_ || _) eqn:Hr; [wp_step|].
  pose proof (Stack_Size_nonneg (stackAlt st)). pose proof (Stack_Size_nonneg (stack st0)).
  rw i32_id in Hr; last int_lia.
  wp_step. wp_step. wp_step. destruct (op =? OP_ROLL); wp_go.
  eapply wp_set_stack; [done|apply RemoveAt_sub, HI0|]. next_state. wp_go.
Qed.
Lemma op_rot_safe : safe_op op_rot.
Proof.
  intros st HI Hs. unfold op_rot. repeat wp_step. apply wp_swap_at; [done|]. next_state.
  apply wp_swap_at; [done|]. by next_state.
Qed.
Lemma op_swap_safe : safe_op op_swap.
Proof. intros st HI Hs. unfold op_swap. repeat wp_step. apply wp_swap_at; [done|]. by next_state. Qed.
Lemma op_tuck_safe : safe_op op_tuck.
Proof.
  intros st HI Hs. unfold op_tuck. do 6 wp_step. unfold Insert. destruct (in_range _ _); simpl; [|wp_step].
  eapply wp_set_stack; [done| |by next_state]. apply Forall_app. split; [apply Forall_take, HI|].
  constructor; [done|]. apply Forall_drop, HI.
Qed.
Lemma op_size_safe : safe_op op_size.
Proof.
  intros st HI Hs. unfold op_size. repeat wp_step; [|done]. destruct H4. pow2_norm. lia.
Qed.

(** *** Bytes and numbers *)
Lemma bit_loop_le op x y n : forall h i, (i + n <= slen x)%nat -> wf_slice h x -> heap_le h (bit_loop op x y i n h).
Proof.
  induction n as [|n IH]; intros h i Hi Hx; simpl; [apply heap_le_refl|].
  assert (heap_le h (store h x i [bit_op op (default 0 (read h x !! i)) (default 0 (read h y !! i))])) as HL.
  { apply store_le; [simpl; destruct Hx as (_ & _ & ?); lia|done]. }
  eapply heap_le_trans; [exact HL|]. apply IH; [lia|]. by eapply wf_slice_le.
Qed.
Lemma read_byte h x i : Forall bytes_ok h -> is_byte (default 0 (read h x !! i)).
Proof.
  intros Hh. pose proof (read_ok h x Hh) as Hr. destruct (read h x !! i) as [b|] eqn:E'; [|done].
  by eapply Forall_lookup in Hr.
Qed.
Lemma bit_loop_bytes_ok op x y n : forall h i, Forall bytes_ok h -> Forall bytes_ok (bit_loop op x y i n h).
Proof.
  induction n as [|n IH]; intros h i Hh; simpl; [done|]. apply IH, store_bytes_ok; [done|].
  apply Forall_singleton, bit_op_byte; by apply read_byte.
Qed.
Lemma op_bitwise_safe op : safe_op (op_bitwise op).
Proof.
  intros st HI Hs. unfold op_bitwise. do 7 wp_step; [wp_step|]. do 3 wp_step. eapply wp_set_heap; [done| | |].
  - apply bit_loop_le; [lia|]. apply H4.
  - apply bit_loop_bytes_ok, HI.
  - next_state. wp_go.
Qed.
Lemma op_equal_safe op : safe_op (op_equal op).
Proof. intros st HI Hs. unfold op_equal. wp_go. Qed.
Lemma op_unary_safe op : safe_op (op_unary flags op).
Proof.
  intros st HI Hs. unfold op_unary. do 6 wp_step. wp_step. rename H5 into Hv. pow2_norm.
  repeat case_match; wp_go; rw ?i64_id; try int_lia.
Qed.
Lemma op_zero_test_safe op : safe_op (op_zero_test flags op).
Proof. intros st HI Hs. unfold op_zero_test. wp_go. Qed.

Lemma binary_value_small op a b v : Z.abs a < 2 ^ 39 -> Z.abs b < 2 ^ 39 ->
  binary_value op a b = Ok v -> Z.abs v < 2 ^ 62.
Proof.
  intros Ha Hb. unfold binary_value. pow2_norm.
  assert (Z.abs (Z.quot a b) < 2 ^ 40) as Hq.
  { pow2_norm. destruct (decide (b = 0)) as [->|]; [rw Z.quot_0_r_ext //; lia|].
    rw -Z.quot_abs //. pose proof (Z.quot_le_upper_bound (Z.abs a) (Z.abs b) (Z.abs a)).
    assert (0 <= Z.quot (Z.abs a) (Z.abs b)) by (apply Z.quot_pos; lia). nia. }
  assert (Z.abs (Z.rem a b) < 2 ^ 40) as Hr.
  { pow2_norm. destruct (decide (b = 0)) as [->|]; [rw Z.rem_0_r_ext //; lia|].
    pose proof (Z.rem_bound_abs a b). lia. }
  pow2_norm. repeat case_match; intros [= <-]; rw ?i64_id; try int_lia; lia.
Qed.
Lemma binary_value_no_panic op a b : binary_value op a b <> Panic.
Proof. unfold binary_value. repeat case_match; done. Qed.
Lemma compare_value_no_panic op a b : compare_value op a b <> Panic.
Proof. unfold compare_value. repeat case_match; done. Qed.

Lemma op_binary_safe op : safe_op (op_binary flags op).
Proof.
  intros st HI Hs. unfold op_binary. repeat wp_step.
  apply wp_lift; [|apply binary_value_no_panic|by eapply inv_err]. intros r Hr.
  apply binary_value_small in Hr; [|done..]. wp_go.
Qed.
Lemma BytesToBool_top_step st op (fe : ScriptErr) : I st -> 1 <= Stack_Size (stack st) ->
  wp (if op =? OP_NUMEQUALVERIFY then
        vch ← top_must 1; b ← bytes_of vch; if BytesToBool b then pop else fail fe
      else mret tt) (fun _ => I) E st.
Proof. intros HI Hs. wp_go. Qed.
Lemma op_compare_safe op : safe_op (op_compare flags op).
Proof.
  intros st HI Hs. unfold op_compare. repeat wp_step.
  apply wp_lift; [|apply compare_value_no_panic|by eapply inv_err]. intros r Hr. wp_go.
Qed.
Lemma op_within_safe : safe_op (op_within flags).
Proof. intros st HI Hs. unfold op_within. wp_go. Qed.

Lemma hash_ok op b cap : let '(v, _) :=
    if op =? OP_RIPEMD160 then (Ripemd160 b, cap)
    else if op =? OP_SHA1 then (Sha1 b, cap)
    else if op =? OP_SHA256 then (Sha256Bytes b, 32%nat)
    else if op =? OP_HASH160 then (Hash160 b, cap)
    else (DoubleSha256Bytes b, 32%nat) in bytes_ok v /\ (length v <= 520)%nat.
Proof.
  unfold Sha256Bytes, Hash160, DoubleSha256Bytes.
  pose proof (ripemd160_ok b) as [? E0]. pose proof (ripemd160_ok (Sha256 b)) as [? E1].
  pose proof (sha1_ok b) as [? E2]. pose proof (sha256_ok b) as [? E3]. pose proof (sha256_ok (Sha256 b)) as [? E4].
  repeat case_match; simplify_eq; rw ?E0 ?E1 ?E2 ?E3 ?E4; (split; [done|lia]).
Qed.
Lemma op_hash_safe op : safe_op (op_hash grow op).
Proof.
  intros st HI Hs. unfold op_hash. do 6 wp_step. pose proof (hash_ok op b (grow 0 20)) as Hh.
  destruct (if op =? OP_RIPEMD160 then _ else _) as [v cap]. destruct Hh. do 2 wp_step.
  eapply wp_push_new; [done|done|done|]. by next_state.
Qed.

(** *** Signatures *)
Lemma wp_sig_encoding st sig Q : I st -> bytes_ok sig -> Q tt st ->
  wp (lift (CheckTransactionSignatureEncoding CheckLowS sig flags)) Q E st.
Proof.
  intros HI Hb HQ. apply wp_lift; [by intros []|by apply tx_encoding_no_panic|by eapply inv_err].
Qed.
Lemma wp_key_encoding st key Q : I st -> Q tt st -> wp (lift (CheckPubKeyEncoding key flags)) Q E st.
Proof. intros HI HQ. apply wp_lift; [by intros []|apply key_encoding_no_panic|by eapply inv_err]. Qed.
Lemma wp_checksig st sig key code Q : I st -> (forall b, Q b st) ->
  wp (lift (CheckSig t sig key code nIn money flags)) Q E st.
Proof. intros HI HQ. apply wp_lift; [by intros b _|apply safe_CheckSig|by eapply inv_err]. Qed.
Lemma wp_script_code st Q : I st -> (forall s, Q s st) -> wp (script_code ops) Q E st.
Proof. intros HI HQ. unfold script_code. repeat wp_step. apply HQ. Qed.

Ltac sig_step :=
  lazymatch goal with
  | |- wp (lift (CheckTransactionSignatureEncoding _ _ _)) _ _ _ => apply wp_sig_encoding; [eassumption|eassumption|]
  | |- wp (lift (CheckPubKeyEncoding _ _)) _ _ _ => apply wp_key_encoding; [eassumption|]
  | |- wp (lift (CheckSig _ _ _ _ _ _ _)) _ _ _ => apply wp_checksig; [eassumption|]; intros ?
  | |- wp (script_code _) _ _ _ => apply wp_script_code; [eassumption|]; intros ?
  | _ => wp_step
  end.

Lemma op_checksig_safe op : safe_op (op_checksig t nIn money flags ops op).
Proof. intros st HI Hs. unfold op_checksig. repeat sig_step; done. Qed.
Lemma op_checkdatasig_safe op : safe_op (op_checkdatasig flags op).
Proof.
  intros st HI Hs. unfold op_checkdatasig. destruct (has_flag flags ScriptEnableCheckDataSig) eqn:Hds; cbn [negb]; [|repeat sig_step; done]. repeat sig_step.
  apply wp_lift; [intros [] _|by apply data_encoding_no_panic|by eapply inv_err]. repeat sig_step.
  pose proof (safe_VerifySignature (t := t) (nIn := nIn) (flags := flags) b b1 (Sha256 b0) Hds) as Hv.
  destruct (ParsePubKey b1) as [k ok]. cbn [fst] in Hv. apply wp_bind. case_decide; [|case_match; [| |done]]; wp_go.
Qed.

Lemma remove_sigs_safe n : forall iSig s st Q, I st -> 1 <= iSig -> iSig + Z.of_nat n - 1 <= Stack_Size (stack st) ->
  (forall s, Q s st) -> wp (remove_sigs n iSig s) Q E st.
Proof.
  induction n as [|n IH]; intros iSig s st Q HI H1' H2' HQ; simpl; [by apply wp_ret|].
  repeat wp_step. apply IH; [done|lia|lia|done].
Qed.
Lemma multisig_loop_safe n : forall code iSig iKey sigs keys st Q, I st ->
  1 <= iSig -> 1 <= iKey -> sigs <= keys -> keys <= Z.of_nat n ->
  iSig + sigs - 1 <= Stack_Size (stack st) -> iKey + keys - 1 <= Stack_Size (stack st) ->
  (forall b, Q b st) -> wp (multisig_loop t nIn money flags n code iSig iKey sigs keys) Q E st.
Proof.
  induction n as [|n IH]; intros code iSig iKey sigs keys st Q HI Hi Hk Hsk Hkn HS1 HS2 HQ; simpl.
  { destruct (negb (0 <? sigs)); by apply wp_ret. }
  destruct (0 <? sigs) eqn:Hpos; simpl; [|by apply wp_ret].
  repeat sig_step; [by apply HQ|]. apply IH; try done; destruct b1; lia.
Qed.
(** The fuel is enough: with at least as many rounds as keys the loop never ends
    for lack of fuel. *)
Lemma multisig_loop_fuel n m : forall code iSig iKey sigs keys st,
  sigs <= keys -> keys <= Z.of_nat n -> keys <= Z.of_nat m ->
  multisig_loop t nIn money flags n code iSig iKey sigs keys st =
  multisig_loop t nIn money flags m code iSig iKey sigs keys st.
Proof.
  revert m. induction n as [|n IH]; intros m code iSig iKey sigs keys st Hsk Hn Hm.
  - destruct m; simpl; destruct (0 <? sigs) eqn:Hp; try done. lia.
  - destruct m as [|m]; simpl; destruct (0 <? sigs) eqn:Hp; simpl; try done; [lia|].
    unfold mbind, interp_bind. repeat (case_match; try done); apply IH; lia.
Qed.
Lemma multisig_cleanup_safe n ok : forall k st Q, I st -> Z.of_nat n <= Stack_Size (stack st) ->
  after h0 ops st (- Z.of_nat n) Q -> wp (multisig_cleanup flags n ok k) Q E st.
Proof.
  induction n as [|n IH]; intros k st Q HI Hn HQ; simpl.
  { apply HQ; [done|apply heap_le_refl|lia|done]. }
  apply wp_bind. destruct (negb ok && _ && _).
  - do 3 wp_step; [wp_step|]. do 3 wp_step. apply IH; [done|lia|]. intros st' HI' HL' HS' HA'.
    apply HQ; [done|by eapply heap_le_trans|lia|congruence].
  - do 3 wp_step. apply IH; [done|lia|]. intros st' HI' HL' HS' HA'.
    apply HQ; [done|by eapply heap_le_trans|lia|congruence].
Qed.
Lemma wp_set_opcount st n Q : I st -> 0 <= n ->
  (n <= MaxOpsPerScript -> after h0 ops st 0 Q) ->
  wp (set_opcount n;; (if MaxOpsPerScript <? n then fail ScriptErrOpCount else mret tt)) Q E st.
Proof.
  intros HI Hn HQ. apply wp_bind. unfold wp at 1. simpl. destruct (Z.ltb_spec MaxOpsPerScript n).
  - apply wp_fail. split; apply HI.
  - apply wp_ret. apply HQ; [done| |apply heap_le_refl|simpl; lia|done]. destruct HI. by split.
Qed.
Lemma op_checkmultisig_safe op : safe_op (op_checkmultisig t nIn money flags ops op).
Proof.
  intros st HI Hs. unfold op_checkmultisig. cbv zeta. do 6 wp_step. set (keys := ToInt32 v).
  destruct ((keys <? 0) || (MaxPubKeysPerMultiSig <? keys)) eqn:Hk; [wp_step|].
  do 2 wp_step. pose proof (inv_count _ _ _ HI) as Hc. apply wp_bind. unfold wp at 1. cbn [fst snd set_opcount].
  destruct (Z.ltb_spec MaxOpsPerScript (nOpCount st + keys)) as [Ho|Ho]; [apply wp_fail; split; apply HI|].
  assert (I (set_opcount (nOpCount st + keys) st).1) as HI' by (destruct HI; split; try done; simpl; lia).
  cbn [fst set_opcount] in HI'. revert HI'. generalize (mkIstate (hp st) (stack st) (stackAlt st) (stackExec st) (nOpCount st + keys) (beginCodeHash st)).
  clear -SafeChecker0 Hk. clearbody keys. intros st HI. repeat sig_step.
  apply remove_sigs_safe; [done|lia|lia|]. intros code. sig_step.
  apply multisig_loop_safe; try done; try lia. intros ok. sig_step.
  apply multisig_cleanup_safe; [done|lia|]. next_state. wp_go.
Qed.

(** *** Splicing and conversions *)
Lemma append_steps h x b : wf_slice h x -> Forall bytes_ok h -> bytes_ok b ->
  heap_le h (append grow h x b).1 /\ wf_slice (append grow h x b).1 (append grow h x b).2 /\
  Forall bytes_ok (append grow h x b).1 /\ slen (append grow h x b).2 = (slen x + length b)%nat.
Proof.
  intros Hw Hh Hb. destruct (append_wf grow h x b Hw) as [HL Hw'].
  split_and!; [done|done|by apply append_bytes_ok|by apply append_slen].
Qed.

Lemma push_at_heap st h x : I st -> heap_le (hp st) h -> Forall bytes_ok h -> elem_ok h x ->
  wp (set_heap h;; push x) (fun _ => I) E st.
Proof.
  intros HI HL Hb Hx. apply wp_bind. pose proof (inv_set_heap h0 ops st h HI HL Hb) as HI'.
  unfold wp at 1. cbn [set_heap]. eapply wp_push; [exact HI'|exact Hx|]. by next_state.
Qed.

Lemma op_cat_safe : safe_op (op_cat grow).
Proof.
  intros st HI Hs. unfold op_cat. do 7 wp_step; [wp_step|]. do 8 wp_step. unfold new_slice. do 3 wp_step.
  pose proof (alloc_wf (hp st1) [] 0) as Hw. pose proof (alloc_ext (hp st1) [] 0) as He%heap_ext_le.
  assert (Forall bytes_ok (alloc (hp st1) [] 0).1) as Hbo by (apply alloc_bytes_ok; [apply HI1|constructor]).
  assert (slen (alloc (hp st1) [] 0).2 = 0%nat) as Hl0 by done.
  destruct (alloc (hp st1) [] 0) as [h y]. cbn [fst snd] in *.
  pose proof (inv_set_heap h0 ops st1 h HI1 He Hbo) as HI2. wp_step. unfold wp at 1. cbn [set_heap]. wp_step.
  do 2 wp_step. cbn [hp].
  destruct (append_steps h y b Hw Hbo H7) as (L1 & W1 & B1 & S1). destruct (append grow h y b) as [h1 y1].
  cbn [fst snd] in *. destruct (append_steps h1 y1 b0 W1 B1 H10) as (L2 & W2 & B2 & S2).
  destruct (append grow h1 y1 b0) as [h2 y2]. cbn [fst snd] in *.
  apply push_at_heap; [done|by eapply heap_le_trans|done|]. split; [done|].
  rw S2 S1. unfold MaxScriptElementSize in *. lia.
Qed.
Lemma op_split_safe : safe_op (op_split flags).
Proof.
  intros st HI Hs. unfold op_split. repeat wp_step.
  destruct (GetScriptNum_range b (fRequireMinimal flags) DefaultMaxNumSize) as [Hp Hr]; [done|by vm_compute|].
  destruct (GetScriptNum _ _ _) as [v|e|]; [|wp_step|done]. specialize (Hr v eq_refl).
  wp_step; [wp_step|]. assert ((Z.to_nat v <= slen x)%nat) as Hv by int_lia.
  assert (elem_ok (hp st) (slice_to x (Z.to_nat v))).
  { destruct H4 as [(W1 & W2 & W3) ?]. split; [by apply slice_to_wf; [lia|]|simpl; lia]. }
  assert (elem_ok (hp st) (slice_from x (Z.to_nat v))).
  { destruct H4 as [W ?]. split; [by apply slice_from_wf|simpl; lia]. }
  wp_go.
Qed.
Lemma wp_minimally_encode st x Q : I st -> elem_ok (hp st) x ->
  (forall y st', I st' -> heap_le (hp st) (hp st') -> stack st' = stack st -> stackAlt st' = stackAlt st ->
     elem_ok (hp st') y -> Q y st') -> wp (minimally_encode x) Q E st.
Proof.
  intros HI Hx HQ. unfold minimally_encode. do 2 wp_step. destruct (MinimallyEncode_spec b) as (_ & Hl & Hn); [done|].
  pose proof (MinimallyEncode_buf_ok b H4) as Hbo. destruct (MinimallyEncode b) as [buf n]. cbn [fst snd] in *.
  do 3 wp_step. destruct Hx as [Hw Hx]. pose proof Hw as (W1 & W2 & W3).
  assert (heap_le (hp st) (store (hp st) x 0 buf)) as HL by (apply store_le; [lia|done]).
  assert (Forall bytes_ok (store (hp st) x 0 buf)) as HB by (apply store_bytes_ok; [apply HI|done]).
  unfold wp at 1. cbn [set_heap]. wp_step. apply HQ; [by apply (inv_set_heap h0 ops st)|done|done|done|].
  split; [|simpl; lia]. cbn [hp]. apply slice_to_wf; [lia|]. by eapply wf_slice_le.
Qed.
Lemma append_zeros_steps n : forall h x, wf_slice h x -> Forall bytes_ok h ->
  heap_le h (append_zeros grow n h x).1 /\ wf_slice (append_zeros grow n h x).1 (append_zeros grow n h x).2 /\
  Forall bytes_ok (append_zeros grow n h x).1 /\ slen (append_zeros grow n h x).2 = (slen x + n)%nat.
Proof.
  induction n as [|n IH]; intros h x Hw Hb; simpl; [split_and!; [apply heap_le_refl|done|done|lia]|].
  destruct (append_steps h x [0]) as (L1 & W1 & B1 & S1); [done|done|by repeat constructor|].
  destruct (append grow h x [0]) as [h1 x1]. cbn [fst snd] in *. destruct (IH h1 x1 W1 B1) as (L2 & W2 & B2 & S2).
  split_and!; [by eapply heap_le_trans|done|done|rw S2 S1 /=; lia].
Qed.
Lemma op_bin2num_safe : safe_op op_bin2num.
Proof.
  intros st HI Hs. unfold op_bin2num. do 5 wp_step. apply wp_minimally_encode; [done|done|].
  intros y st' HI' HL HS HA Hy. do 2 wp_step. wp_step; [wp_step|]. rw -HS in H3. wp_go.
Qed.
Lemma op_num2bin_safe : safe_op (op_num2bin grow flags).
Proof.
  intros st HI Hs. unfold op_num2bin. do 6 wp_step. destruct ((MaxScriptElementSize <? v) || (v <? 0)) eqn:Hv; [wp_step|].
  do 5 wp_step. apply wp_minimally_encode; [done|done|]. intros y st' HI' HL' HS' HA' Hy. rw -HS' in HS.
  wp_step; [wp_step|]. wp_step; [wp_go|]. do 4 wp_step.
  set (hs := match last b with Some top => (top .& 0x80, store (hp st') y (slen y - 1) [top .& 0x7f]) | None => (0, hp st') end).
  assert (heap_le (hp st') hs.2 /\ Forall bytes_ok hs.2 /\ is_byte hs.1) as (L0 & B0 & Hsb).
  { subst hs. destruct (last b) as [tp|] eqn:El; [|split; [apply heap_le_refl|split; [apply HI'|done]]].
    apply last_Some in El as [l ->]. apply bytes_ok_snoc in H8 as [_ Htp]. rw length_app /= in H9.
    cbn [fst snd]. split_and!.
    - apply store_le; [simpl; destruct Hy as [(_ & _ & ?) _]; lia|apply Hy].
    - apply store_bytes_ok; [apply HI'|]. by apply Forall_singleton, land_byte.
    - by apply land_byte. }
  destruct hs as [signbit h1]. cbn [fst snd] in *.
  assert (wf_slice h1 y) as Hw by (eapply wf_slice_le; [done|apply Hy]).
  destruct (append_zeros_steps (Z.to_nat (v - 1 - Z.of_nat (slen y))) h1 y Hw B0) as (L1 & W1 & B1 & S1).
  destruct (append_zeros grow _ h1 y) as [h2 y2]. cbn [fst snd] in *.
  destruct (append_steps h2 y2 [signbit] W1 B1) as (L2 & W2 & B2 & S2); [by apply Forall_singleton|].
  destruct (append grow h2 y2 [signbit]) as [h3 y3]. cbn [fst snd] in *. wp_step.
  assert (heap_le (hp st') h3) as HL3 by (do 2 (eapply heap_le_trans; [eassumption|]); done).
  pose proof (inv_set_heap h0 ops st' h3 HI' HL3 B2) as HI3. unfold wp at 1. cbn [set_heap].
  assert (elem_ok h3 y3) as Hy3 by (split; [done|unfold MaxScriptElementSize in *; simpl in *; lia]).
  wp_step. eapply wp_pop; [exact HI3|cbn [stack]; lia|]. intros st4 HI4 HL4 HS4 HA4. cbn [hp] in HL4.
  apply (elem_ok_le _ _ _ HL4) in Hy3. wp_go.
Qed.

(** *** The switch and the loop *)
Lemma set_begin_safe i : safe_op (set_begin i).
Proof. intros st HI _. by apply (inv_set_begin h0 ops st). Qed.
Hint Resolve op_small_safe op_checklocktimeverify_safe op_checksequenceverify_safe discourage_nops_safe
  op_if_safe op_else_safe op_endif_safe op_verify_safe fail_safe ret_safe op_toaltstack_safe
  op_fromaltstack_safe op_2drop_safe op_2dup_safe op_3dup_safe op_2over_safe op_2rot_safe op_2swap_safe
  op_ifdup_safe op_depth_safe op_drop_safe op_dup_safe op_nip_safe op_over_safe op_pick_roll_safe
  op_rot_safe op_swap_safe op_tuck_safe op_size_safe op_bitwise_safe op_equal_safe op_unary_safe
  op_zero_test_safe op_binary_safe op_compare_safe op_within_safe op_hash_safe set_begin_safe
  op_checksig_safe op_checkdatasig_safe op_checkmultisig_safe op_cat_safe op_split_safe
  op_num2bin_safe op_bin2num_safe : go.

Lemma exec_opcode_safe i fExec op : is_byte op -> safe_op (exec_opcode grow t nIn money flags ops i fExec op).
Proof.
  intros Ho. unfold exec_opcode.
  repeat match goal with |- safe_op (if ?c then _ else _) => destruct c; [auto with go nocore|] end.
  auto with go nocore.
Qed.

Lemma count_op_safe st op Q : I st -> after h0 ops st 0 Q -> wp (count_op op) Q E st.
Proof.
  intros HI HQ. unfold count_op. destruct (OP_16 <? op); [|apply wp_ret, HQ; [done|apply heap_le_refl|lia|done]].
  do 2 wp_step. pose proof (inv_count _ _ _ HI). apply wp_set_opcount; [done|lia|done].
Qed.

Definition small (st : istate) : Prop := Stack_Size (stack st) + Stack_Size (stackAlt st) <= 1000.
Lemma check_stack_size_safe st : I st -> wp check_stack_size (fun _ st' => I st' /\ small st') E st.
Proof.
  intros HI. unfold check_stack_size. repeat wp_step. split; [done|]. unfold small. lia.
Qed.

Lemma exec_one_safe i e st : I st -> small st -> e ∈ ops -> is_byte (OpValue e) ->
  wp (exec_one grow t nIn money flags ops i e) (fun _ st' => I st' /\ small st') E st.
Proof.
  intros HI Hs He Ho. unfold exec_one. cbv zeta. do 3 wp_step; [wp_step|].
  wp_step. apply count_op_safe; [done|]. next_state. wp_step; [wp_step|]. apply wp_bind.
  assert (wp (if (CountBool (stackExec st) false =? 0) && (0 <=? OpValue e) && (OpValue e <=? OP_PUSHDATA4)
              then push_data flags e
              else if (CountBool (stackExec st) false =? 0) || (OP_IF <=? OpValue e) && (OpValue e <=? OP_ENDIF)
              then exec_opcode grow t nIn money flags ops i (CountBool (stackExec st) false =? 0) (OpValue e)
              else mret tt) (fun _ => I) E st0) as Hm.
  { assert (elem_ok (hp st0) (Data e)).
    { pose proof (inv_ops _ _ _ HI0) as Hops. rw Forall_forall in Hops. split; [by apply Hops|].
      unfold MaxScriptElementSize in *. lia. }
    destruct (_ && _ && _); [unfold push_data; wp_go|]. destruct (_ || _); [|by apply wp_ret].
    apply exec_opcode_safe; [done|done|]. rw HA HS. unfold small in Hs. lia. }
  eapply wp_mono; [exact Hm|]. intros u st' HI'. by apply check_stack_size_safe.
Qed.

Lemma exec_loop_safe l : forall i st, I st -> small st -> (forall e, e ∈ l -> e ∈ ops /\ is_byte (OpValue e)) ->
  wp (exec_loop grow t nIn money flags ops i l) (fun _ st' => I st' /\ small st') E st.
Proof.
  induction l as [|e l IH]; intros i st HI Hs Hl; simpl; [by apply wp_ret|].
  destruct (Hl e) as [He Hb]; [apply list_elem_of_here|]. apply wp_bind.
  eapply wp_mono; [by apply exec_one_safe|]. intros u st' [HI' Hs']. apply IH; [done|done|]. intros e' He'. apply Hl. by apply list_elem_of_further.
Qed.
End Safety.
