(* ===== verification/VerifyFacts.v ===== *)
(** * EvalScript and VerifyScript as a whole

    Safety of the two entry points, the limits they enforce, and what they do
    not guarantee: two evaluations of one script object can differ. *)
From S2P Require Import Prelude Errors Wire ScriptNum Opcodes Script ScriptFacts Tx TxFacts Crypto Stack Slice Interp InterpFacts.

(** ** Scripts in the heap *)
Record hscript_ok (h : heap) (s : hscript) : Prop := {
  ho_data : Forall (fun e => wf_slice h (Data e)) (hops s);
  ho_ops : Forall (fun e => is_byte (OpValue e)) (hops s);
  ho_parse : map OpValue (hops s) = map OpValue (ParsedOpCodes (NewScriptRaw (hdata s))) }.

Lemma hscript_ok_le h h' s : heap_le h h' -> hscript_ok h s -> hscript_ok h' s.
Proof.
  intros HL [H1 H2 H3]. split; [|done|done]. eapply Forall_impl; [exact H1|]. intros e. by apply wf_slice_le.
Qed.

Lemma load_ops_ok l : forall h, Forall bytes_ok h -> Forall wf_op l ->
  heap_ext h (load_ops h l).1 /\ Forall bytes_ok (load_ops h l).1 /\
  Forall (fun e => wf_slice (load_ops h l).1 (Data e)) (load_ops h l).2 /\
  map OpValue (load_ops h l).2 = map OpValue l /\
  map (read_op (load_ops h l).1) (load_ops h l).2 = l.
Proof.
  induction l as [|e l IH]; intros h Hh Hl; cbn [load_ops]; [split_and!; [apply heap_ext_refl|done|constructor|done|done]|].
  apply Forall_cons in Hl as [He Hl]. unfold load_op. pose proof (alloc_ext h (Data e) 0) as Ha.
  pose proof (alloc_wf h (Data e) 0) as Hw. pose proof (alloc_read h (Data e) 0) as Hr.
  assert (Forall bytes_ok (alloc h (Data e) 0).1) as Hb by (apply alloc_bytes_ok; [done|apply He]).
  destruct (alloc h (Data e) 0) as [h1 x]. cbn [fst snd] in *.
  destruct (IH h1 Hb Hl) as (E1 & E2 & E3 & E4 & E5). destruct (load_ops h1 l) as [h2 l2]. cbn [fst snd] in *.
  assert (wf_slice h2 x) as Hx by (eapply wf_slice_le; [by apply heap_ext_le|done]).
  split_and!; [exact (heap_ext_trans _ _ _ Ha E1)|done|by constructor|cbn; by rw E4|].
  cbn. f_equal; [|done]. unfold read_op. cbn. rw (read_ext h1 h2) // Hr. by destruct e.
Qed.

Lemma load_ok h d : Forall bytes_ok h -> bytes_ok d ->
  heap_ext h (load h (NewScriptRaw d)).1 /\ Forall bytes_ok (load h (NewScriptRaw d)).1 /\
  hscript_ok (load h (NewScriptRaw d)).1 (load h (NewScriptRaw d)).2 /\
  view (load h (NewScriptRaw d)).1 (load h (NewScriptRaw d)).2 = NewScriptRaw d.
Proof.
  intros Hh Hd. pose proof (parse_inv d Hd) as [Hwf _]. unfold load, NewScriptRaw in *.
  destruct (load_ops_ok _ h Hh Hwf) as (E1 & E2 & E3 & E4 & E5).
  destruct (load_ops h _) as [h1 l]. cbn [fst snd] in *. split_and!; [done|done| |].
  - split; cbn; [done| |].
    + apply (Forall_map OpValue). rw E4. apply Forall_map. eapply Forall_impl; [exact Hwf|]. by intros e [].
    + by rw E4 data_convertOPS.
  - unfold view. cbn. rw E5. by destruct (convertOPS d).
Qed.

(** ** The entry points are safe *)
Section EntryPoints.
Context `{Secp256k1} `{!Checker} `{Hashes} `{!HashLaws}.
Context (grow : nat -> nat -> nat) (t : Tx) (nIn money : Z).

Abbreviation Eval := (EvalScript grow t nIn money).
Abbreviation Verify := (VerifyScript grow t nIn money).

(** A main stack an evaluation can start from. *)
Definition stack_ok (h : heap) (stk : list slice) : Prop :=
  Forall (elem_ok h) stk /\ Stack_Size stk <= 1000.

Lemma EvalScript_ok flags `{!SafeChecker t nIn flags} h stk s : Forall bytes_ok h -> stack_ok h stk -> hscript_ok h s ->
  let '(h', stk', r) := Eval flags h stk s in
  r <> Panic /\ heap_le h h' /\ Forall bytes_ok h' /\ (r = Ok tt -> stack_ok h' stk').
Proof.
  intros Hb [Hstk Hsz] [Hd Ho Hp]. unfold EvalScript.
  destruct (hbad s); [by split_and!; [|apply heap_le_refl| |]|].
  destruct (MaxScriptSize <? _); [by split_and!; [|apply heap_le_refl| |]|].
  assert (inv h (hops s) (mkIstate h stk [] [] 0 0)) as HI0.
  { split; simpl; [apply heap_le_refl|done|done|constructor|by vm_compute|done]. }
  assert (small (mkIstate h stk [] [] 0 0)) as Hsm0 by (unfold small; simpl; unfold Stack_Size in *; simpl; lia).
  pose proof (exec_loop_safe grow t nIn money flags h (hops s) (hops s) 0 _ HI0 Hsm0) as Hr.
  unfold wp in Hr. destruct (exec_loop _ _ _ _ _ _ _ _ _) as [st r].
  assert (forall e, e ∈ hops s -> e ∈ hops s /\ is_byte (OpValue e)) as Hel.
  { intros e He. split; [done|]. rw Forall_forall in Ho. by apply Ho. }
  specialize (Hr Hel).
  destruct r as [[]|e|]; [|split_and!; [done|apply Hr|apply Hr|done]|done].
  destruct Hr as [HI Hsm]. split_and!; [case_match; done|apply HI|apply HI|].
  intros _. split; [apply HI|]. unfold small in Hsm. pose proof (Stack_Size_nonneg (stackAlt st)). lia.
Qed.

Lemma check_top_no_panic h stk : check_top h stk <> Panic.
Proof.
  unfold check_top. destruct stk as [|x stk _] using rev_ind; [done|].
  rw (Top_app stk [x] 0 ltac:(simpl; lia)) /=. repeat case_match; done.
Qed.
Lemma check_clean_no_panic flags stk :
  (has_flag flags ScriptVerifyCleanStack = true -> has_flag flags ScriptVerifyP2SH = true) ->
  check_clean flags stk <> Panic.
Proof.
  intros Hf. unfold check_clean. destruct (has_flag flags ScriptVerifyCleanStack); [|done].
  rw Hf //=. repeat case_match; done.
Qed.

Lemma eval_redeem_ok flags `{!SafeChecker t nIn flags} h stk : Forall bytes_ok h -> stack_ok h stk -> stk <> [] ->
  let '(h', stk', r) := eval_redeem grow t nIn money flags h stk in
  r <> Panic /\ heap_le h h' /\ Forall bytes_ok h'.
Proof.
  intros Hb [Hstk Hsz] Hne. unfold eval_redeem. destruct stk as [|x stk _] using rev_ind; [done|].
  rw (Top_app stk [x] 0 ltac:(simpl; lia)) /= Pop_app. cbn [snd].
  destruct (load_ok h (read h x) Hb (read_ok h x Hb)) as (E1%heap_ext_le & E2 & E3 & _).
  destruct (load h (NewScriptRaw (read h x))) as [h1 s]. cbn [fst snd] in *.
  assert (stack_ok h1 stk) as Hs1.
  { apply Forall_app in Hstk as [Hstk _]. split; [by eapply elem_ok_le_list|]. rw Stack_Size_app in Hsz.
    unfold Stack_Size in *. simpl in *. lia. }
  pose proof (EvalScript_ok flags h1 stk s E2 Hs1 E3) as He.
  destruct (Eval flags h1 stk s) as [[h2 stk2] r]. destruct He as (Hp & HL & HB & _).
  split_and!; [|by eapply heap_le_trans|done]. destruct r; simpl; [apply check_top_no_panic|done|done].
Qed.

(** A pay-to-script-hash output needs the serialised redeem script on the stack. *)
Lemma p2sh_ops d : IsPayToScriptHash (NewScriptRaw d) = true -> bytes_ok d ->
  exists l, map OpValue (ParsedOpCodes (NewScriptRaw d)) = OP_HASH160 :: l.
Proof.
  intros Hp Hb. unfold IsPayToScriptHash, Size, NewScriptRaw in Hp. rw data_convertOPS in Hp.
  apply andb_prop in Hp as [Hp _]. apply andb_prop in Hp as [Hp _]. apply andb_prop in Hp as [_ Hp].
  unfold byte_at in Hp. destruct d as [|b d]; [done|]. simpl in Hp. apply Z.eqb_eq in Hp as ->.
  unfold NewScriptRaw, convertOPS. simpl. replace (Z.of_nat (length d) <? 0) with false by (symmetry; apply Z.ltb_ge; lia).
  rw drop_0. destruct (convertOPS_loop (length d) d) as [l bad]. simpl. eauto.
Qed.
Lemma hash160_needs_stack flags ops h e : OpValue e = OP_HASH160 ->
  exists st err, exec_one grow t nIn money flags ops 0 e (mkIstate h [] [] [] 0 0) = (st, Err err).
Proof.
  intros Ho. unfold exec_one. rw Ho. unfold mbind at 1, interp_bind at 1. cbn [gets stackExec].
  destruct (MaxScriptElementSize <? _); do 2 eexists; reflexivity.
Qed.
Lemma p2sh_needs_stack flags h s : hscript_ok h s -> bytes_ok (hdata s) -> IsPayToScriptHash (view h s) = true ->
  (Eval flags h [] s).2 <> Ok tt.
Proof.
  intros [_ _ Hp] Hb Hs. assert (IsPayToScriptHash (NewScriptRaw (hdata s)) = true) as Hs'.
  { unfold IsPayToScriptHash, Size, NewScriptRaw in *. by rw data_convertOPS. }
  destruct (p2sh_ops _ Hs' Hb) as [l Hl]. rw -Hp in Hl. destruct (hops s) as [|e es] eqn:Ee; [done|]. simpl in Hl.
  injection Hl as Ho _. unfold EvalScript. rw Ee. destruct (hbad s); [done|]. destruct (_ <? _); [done|].
  cbn [exec_loop]. unfold mbind, interp_bind.
  destruct (hash160_needs_stack flags (e :: es) h e Ho) as (st & err & ->). done.
Qed.

(** The panic of VerifyScript on inconsistent flags is the only one. *)
Lemma VerifyScript_ok flags `{!SafeChecker t nIn flags} h sig pk : Forall bytes_ok h -> hscript_ok h sig -> hscript_ok h pk ->
  bytes_ok (hdata pk) ->
  (has_flag flags ScriptVerifyCleanStack = true -> has_flag flags ScriptVerifyP2SH = true) ->
  let '(h', r) := Verify h sig pk flags in r <> Panic /\ heap_le h h' /\ Forall bytes_ok h'.
Proof.
  intros Hb Hsig Hpk Hd Hf. unfold VerifyScript. cbv zeta.
  set (fl := if all_flag flags ScriptEnableSigHashForkID then flags .| ScriptVerifyStrictEnc else flags).
  assert (has_flag fl ScriptVerifyCleanStack = true -> has_flag fl ScriptVerifyP2SH = true) as Hf'.
  { subst fl. destruct (all_flag _ _); [|done]. unfold has_flag in *.
    rw !Z.land_lor_distr_l. change (ScriptVerifyStrictEnc .& ScriptVerifyCleanStack) with 0.
    change (ScriptVerifyStrictEnc .& ScriptVerifyP2SH) with 0. by rw !Z.lor_0_r. }
  assert (SafeChecker t nIn fl) as Hsafe.
  { destruct SafeChecker0 as [Hcs Hvs Hix]. split; [done| |done]. intros x y z Hfl. apply Hvs. subst fl. destruct (all_flag _ _); [|done]. unfold has_flag in *.
    rw Z.land_lor_distr_l in Hfl. change (ScriptVerifyStrictEnc .& ScriptEnableCheckDataSig) with 0 in Hfl. by rw Z.lor_0_r in Hfl. }
  clearbody fl. destruct (_ && _); [by split_and!; [|apply heap_le_refl|]|].
  pose proof (EvalScript_ok fl h [] sig Hb) as H1'. destruct (Eval fl h [] sig) as [[h1 stk1] r1].
  destruct H1' as (P1 & L1 & B1 & S1); [split; [constructor|by vm_compute]|done|].
  destruct r1 as [[]|e|]; [|done|done]. specialize (S1 eq_refl).
  assert (hscript_ok h1 pk) as Hpk1 by by eapply hscript_ok_le.
  pose proof (EvalScript_ok fl h1 stk1 pk B1 S1 Hpk1) as H2'. pose proof (p2sh_needs_stack fl h1 pk Hpk1 Hd) as Hns.
  destruct (Eval fl h1 stk1 pk) as [[h2 stk2] r2] eqn:E2. destruct H2' as (P2 & L2 & B2 & S2).
  assert (heap_le h h2) as L12 by exact (heap_le_trans _ _ _ L1 L2).
  destruct r2 as [[]|e|]; [|by split_and!|done]. specialize (S2 eq_refl). cbn [mbind res_bind].
  pose proof (check_top_no_panic h2 stk2) as Hct. destruct (check_top h2 stk2) as [[]|e|] eqn:Et; [|by split_and!|done].
  destruct (all_flag fl ScriptVerifyP2SH && IsPayToScriptHash (view h2 pk)) eqn:Ep.
  2: { split_and!; [by apply check_clean_no_panic|done|done]. }
  destruct (IsPushOnly _); [|by split_and!]. cbn [negb].
  assert (stk1 <> []) as Hne.
  { intros ->. apply andb_prop in Ep as [_ Ep]. apply Hns; [done|]. by rw E2. }
  assert (stk2 <> []) as Hne2 by (intros ->; done).
  unfold Stack_Copy. rw Swap_spec. case_decide as Hd'; [by destruct Hd'|].
  assert (stack_ok h2 stk1) as S12 by (destruct S1; split; [by apply (elem_ok_le_list h1)|done]).
  pose proof (eval_redeem_ok fl h2 stk1 B2 S12 Hne) as H3'. destruct (eval_redeem _ _ _ _ _ _ _) as [[h3 stk3] r3].
  destruct H3' as (P3 & L3 & B3). split_and!; [|exact (heap_le_trans _ _ _ L12 L3)|done].
  destruct r3 as [[]|e|]; [by apply check_clean_no_panic|done|done].
Qed.
End EntryPoints.

(** ** Which checkers are safe *)
Lemma EmptyChecker_safe `{Secp256k1} (t : Tx) (nIn flags : Z) : 0 <= nIn < Z.of_nat (length (ins t)) ->
  SafeChecker (H0 := EmptyChecker) t nIn flags.
Proof. intros Hn. by split. Qed.

Section RealSafe.
Context `{Secp256k1} `{Hashes}.

Lemma nth_go_ok {E A} (l : list A) i : 0 <= i < Z.of_nat (length l) -> exists x, nth_go (E := E) l i = Ok x.
Proof.
  intros Hi. unfold nth_go. destruct (Z.ltb_spec i 0); [lia|].
  destruct (lookup_lt_is_Some_2 l (Z.to_nat i)) as [x ->]; [lia|]. by exists x.
Qed.
Lemma forkid_preimage_ok {E} t s anyone none single ht nIn money : 0 <= nIn < Z.of_nat (length (ins t)) ->
  exists b, forkid_preimage (E := E) Sha256 t s anyone none single ht nIn money = Ok b.
Proof.
  intros Hn. destruct (nth_go_ok (E := E) (ins t) nIn Hn) as [i Hi]. unfold forkid_preimage. cbv zeta.
  destruct (negb single && negb none); [rw bind_Ok Hi bind_Ok; eauto|].
  destruct (single && (nIn <? Z.of_nat (length (outs t)))) eqn:Es; [|rw bind_Ok Hi bind_Ok; eauto].
  destruct (nth_go_ok (E := E) (outs t) nIn) as [o Ho]; [lia|]. rw Ho !bind_Ok Hi bind_Ok. eauto.
Qed.
Lemma legacy_preimage_ok {E} t s anyone none single ht nIn : 0 <= nIn < Z.of_nat (length (ins t)) ->
  exists b, legacy_preimage (E := E) t s anyone none single ht nIn = Ok b.
Proof.
  intros Hn. destruct (nth_go_ok (E := E) (ins t) nIn Hn) as [i Hi]. unfold legacy_preimage. cbv zeta.
  destruct anyone; [rw Hi !bind_Ok|rw bind_Ok]; eauto.
Qed.
Lemma SignatureHash_no_panic {E} t s ht nIn money flags : 0 <= nIn < Z.of_nat (length (ins t)) ->
  SignatureHash (E := E) Sha256 t s ht nIn money flags <> Panic.
Proof.
  intros Hn. unfold SignatureHash. cbv zeta. destruct (_ && all_flag flags ScriptEnableSigHashForkID).
  - edestruct (forkid_preimage_ok (E := E)) as [b ->]; [exact Hn|done].
  - destruct (_ && _); [done|]. destruct (_ <=? _); [done|].
    edestruct (legacy_preimage_ok (E := E)) as [b ->]; [exact Hn|done].
Qed.

(** RealChecker is, where OP_CHECKDATASIG is not enabled or the library can serialise
    whatever its parser returned. *)
Lemma RealChecker_safe (t : Tx) (nIn flags : Z) : 0 <= nIn < Z.of_nat (length (ins t)) ->
  has_flag flags ScriptEnableCheckDataSig = false \/ (forall b c, exists x l, EcPubkeySerialize (EcPubkeyParse b).1 c = Some (x :: l)) -> SafeChecker t nIn flags.
Proof.
  intros Hn Hser0. split; [| |done].
  - clear Hser0 flags. intros sig key code money flags. simpl. unfold RealChecker_CheckSig. case_decide; [done|]. case_decide; [done|].
    destruct (nth_go_ok (E := ScriptErr) sig (Z.of_nat (length sig) - 1)) as [x Hx]; [destruct sig; [done|simpl; lia]|].
    rw Hx bind_Ok. pose proof (SignatureHash_no_panic (E := ScriptErr) t code x nIn money flags Hn).
    by destruct (SignatureHash _ _ _ _ _ _ _).
  - intros sig key hash Hds. destruct Hser0 as [Hoff|Hser]; [congruence|]. simpl. unfold RealChecker_VerifySignature, PublicKey_Verify, PublicKey_isValid.
    unfold ParsePubKey. specialize (Hser key). destruct (EcPubkeyParse key) as [k ok]. cbn [fst] in *.
    assert (exists x l, ToBytes (E := ScriptErr) (mkPublicKey k (IsCompressedPubKey key)) = Ok (x :: l)) as (x & l & ->).
    { unfold ToBytes, SerializeCompressed, SerializeUncompressed. cbn.
      destruct (IsCompressedPubKey key); [destruct (Hser true) as (x & l & ->)|destruct (Hser false) as (x & l & ->)]; eauto. }
    rw !bind_Ok. destruct (negb _); [done|]. destruct (EcPubkeyParse (x :: l)) as [k' ok'].
    destruct (negb ok'); [done|]. case_decide; [done|]. destruct (EcdsaSignatureParseDerLax sig) as [sg|]; [|done].
    by destruct (EcdsaSignatureNormalize sg) as [[? ?] ?].
Qed.
End RealSafe.
