(* ===== verification/InterpStatic.v ===== *)
(** * What a successful evaluation says about the whole script

    The operation limit, the size limits, the disabled opcodes and the balance of
    the conditionals concern every opcode of the script, executed or not.  The
    proof tracks the operation counter and the stack of open conditionals through
    every opcode. *)
From S2P Require Import Prelude Errors Wire ScriptNum Opcodes Script Tx Crypto Stack Slice Interp.

(** ** Relations between the states before and after an evaluation step *)

(** A relation that holds across every step on the stacks and every allocation. *)
Class Frame (R : istate -> istate -> Prop) : Prop := {
  frame_refl st : R st st;
  frame_trans st1 st2 st3 : R st1 st2 -> R st2 st3 -> R st1 st3;
  frame_stack st s : R st (set_stack s st).1;
  frame_alt st s : R st (set_alt s st).1;
  frame_begin st i : R st (set_begin i st).1;
  frame_alloc st b c : R st (set_heap (alloc (hp st) b c).1 st).1 }.
Definition framed (R : istate -> istate -> Prop) {A} (m : interp A) : Prop := forall st, R st (m st).1.

(** Steps that leave the conditionals alone and never decrease the counter. *)
Definition quiet (st st' : istate) : Prop := stackExec st' = stackExec st /\ nOpCount st <= nOpCount st'.
#[export] Instance quiet_frame : Frame quiet.
Proof.
  split; try (intros; split; simpl; [done|lia]).
  intros st1 st2 st3 [E1 ?] [E2 ?]. split; [congruence|lia].
Qed.
(** Steps that write to no array that existed before. *)
Definition extends (st st' : istate) : Prop := heap_ext (hp st) (hp st').
#[export] Instance extends_frame : Frame extends.
Proof.
  split; try (intros; apply heap_ext_refl).
  - intros st1 st2 st3. apply heap_ext_trans.
  - intros st b c. apply alloc_ext.
Qed.

Section Frames.
Context (R : istate -> istate -> Prop) `{!Frame R}.

Lemma framed_bind {A B} (m : interp A) (f : A -> interp B) : framed R m -> (forall a, framed R (f a)) -> framed R (m ≫= f).
Proof.
  intros Hm Hf st. unfold mbind, interp_bind. specialize (Hm st). destruct (m st) as [st1 [a|e|]]; try done.
  cbn [fst] in *. eapply frame_trans; [exact Hm|apply Hf].
Qed.
Lemma framed_ret {A} (a : A) : framed R (mret a).
Proof. intros st. apply frame_refl. Qed.
Lemma framed_fail {A} e : framed R (fail (A := A) e).
Proof. intros st. apply frame_refl. Qed.
Lemma framed_lift {A} (r : res ScriptErr A) : framed R (lift r).
Proof. intros st. apply frame_refl. Qed.
Lemma framed_gets {A} (f : istate -> A) : framed R (gets f).
Proof. intros st. apply frame_refl. Qed.
Lemma framed_bytes_of x : framed R (bytes_of x).
Proof. intros st. apply frame_refl. Qed.
Lemma framed_set_stack s : framed R (set_stack s).
Proof. intros st. apply frame_stack. Qed.
Lemma framed_set_alt s : framed R (set_alt s).
Proof. intros st. apply frame_alt. Qed.
Lemma framed_set_begin i : framed R (set_begin i).
Proof. intros st. apply frame_begin. Qed.
Lemma framed_new_slice b c : framed R (new_slice b c).
Proof. intros st. unfold new_slice. apply frame_alloc. Qed.
End Frames.
Lemma quiet_set_heap h : framed quiet (set_heap h).
Proof. intros st. split; simpl; [done|lia]. Qed.

Ltac frame_step :=
  lazymatch goal with
  | |- framed _ (_ ≫= _) => apply (framed_bind _); [|intros ?]
  | |- framed _ (mret _) => apply (framed_ret _)
  | |- framed _ (fail _) => apply (framed_fail _)
  | |- framed _ (lift _) => apply (framed_lift _)
  | |- framed _ (gets _) => apply (framed_gets _)
  | |- framed _ (bytes_of _) => apply (framed_bytes_of _)
  | |- framed _ (new_slice _ _) => apply (framed_new_slice _)
  | |- framed quiet (set_heap _) => apply quiet_set_heap
  | |- framed _ (set_stack _) => apply (framed_set_stack _)
  | |- framed _ (set_alt _) => apply (framed_set_alt _)
  | |- framed _ (set_begin _) => apply (framed_set_begin _)
  | |- framed _ (if ?b then _ else _) => destruct b
  | |- framed _ (match ?x with _ => _ end) => destruct x
  | |- framed _ (let _ := _ in _) => cbv zeta
  end.
Ltac frame_unfold :=
  unfold op_small, op_checklocktimeverify, op_checksequenceverify, discourage_nops, op_verify, op_toaltstack,
    op_fromaltstack, op_2drop, op_2dup, op_3dup, op_2over, op_2rot, op_2swap, op_ifdup, op_depth,
    op_drop, op_dup, op_nip, op_over, op_pick_roll, op_rot, op_swap, swap_at, op_tuck, op_size, op_bitwise, op_equal,
    op_unary, op_zero_test, op_binary, op_compare, op_within, op_hash, op_checksig, script_code,
    op_checkdatasig, op_cat, op_split, op_num2bin, op_bin2num, minimally_encode, push_data, script_num,
    push_bool, push_num, push_new, push, pop, need_op, need, top, top_nil, top_must.
Ltac frame_go := frame_unfold; repeat frame_step.

Section Static.
Context `{Secp256k1} `{!Checker} `{Hashes} (grow : nat -> nat -> nat).
Context (t : Tx) (nIn money flags : Z) (ops : list (ParsedOpCode slice)).

Section FramedMultisig.
Context (R : istate -> istate -> Prop) `{!Frame R}.

Lemma framed_remove_sigs n : forall i s, framed R (remove_sigs n i s).
Proof. induction n as [|n IH]; intros i s; simpl; [apply (framed_ret _)|]. frame_go. apply IH. Qed.
Lemma framed_multisig_loop n : forall c i k s p, framed R (multisig_loop t nIn money flags n c i k s p).
Proof.
  induction n as [|n IH]; intros c i k s p; simpl; destruct (negb _); try apply (framed_ret _). frame_go; apply IH.
Qed.
Lemma framed_cleanup n : forall ok k, framed R (multisig_cleanup flags n ok k).
Proof. induction n as [|n IH]; intros ok k; simpl; [apply (framed_ret _)|]. frame_go; apply IH. Qed.

(** The counter is only moved forward. *)
Context (Rcount : forall st k, 0 <= k -> R st (set_opcount (nOpCount st + k) st).1).
Lemma framed_count {A} k (f : Z -> interp A) : 0 <= k -> (forall n, framed R (f n)) ->
  framed R (n ← gets nOpCount; set_opcount (n + k);; f n).
Proof.
  intros Hk Hf st. unfold mbind, interp_bind. cbn [gets set_opcount].
  eapply frame_trans; [by apply (Rcount st k)|]. apply Hf.
Qed.
Lemma framed_checkmultisig op : framed R (op_checkmultisig t nIn money flags ops op).
Proof.
  unfold op_checkmultisig. cbv zeta. apply (framed_bind _); [frame_go|intros _]. apply (framed_bind _); [frame_go|intros x].
  apply (framed_bind _); [frame_go|intros v]. destruct ((ToInt32 v <? 0) || _) eqn:Hk; [frame_go|].
  apply framed_count; [lia|]. intros n. frame_go; auto using framed_remove_sigs, framed_multisig_loop, framed_cleanup.
Qed.
End FramedMultisig.
Lemma quiet_checkmultisig op : framed quiet (op_checkmultisig t nIn money flags ops op).
Proof. apply (framed_checkmultisig _). intros st k Hk. split; simpl; [done|lia]. Qed.
Lemma extends_checkmultisig op : framed extends (op_checkmultisig t nIn money flags ops op).
Proof. apply (framed_checkmultisig _). intros st k Hk. apply heap_ext_refl. Qed.

(** ** The conditionals *)
Definition is_if (op : Z) : bool := one_of op [OP_IF; OP_NOTIF].
(** The number of open conditionals after [op]; [None] when there is none to continue. *)
Definition cond_step (op : Z) (d : nat) : option nat :=
  if is_if op then Some (S d)
  else if op =? OP_ELSE then match d with O => None | S _ => Some d end
  else if op =? OP_ENDIF then match d with O => None | S d => Some d end
  else Some d.
Fixpoint cond_depth (l : list Z) (d : nat) : option nat :=
  match l with
  | [] => Some d
  | op :: l => cond_step op d ≫= cond_depth l
  end.

Lemma framed_exec_opcode i fExec op : is_if op = false -> op <> OP_ELSE -> op <> OP_ENDIF ->
  framed quiet (exec_opcode grow t nIn money flags ops i fExec op).
Proof.
  unfold is_if. intros N1 N2%Z.eqb_neq N3%Z.eqb_neq. unfold exec_opcode. rw N1 N2 N3.
  repeat match goal with |- framed _ (if ?c then ?m else _) => destruct c; [try apply quiet_checkmultisig; by frame_go|] end.
  by frame_go.
Qed.

(** ** Opcodes that write to the arrays of their operands *)
Definition in_place (op : Z) : bool := one_of op [OP_AND; OP_OR; OP_XOR; OP_NUM2BIN; OP_BIN2NUM].

Lemma extends_set_exec s : framed extends (set_exec s).
Proof. intros st. apply heap_ext_refl. Qed.
Lemma extends_op_if fExec op : framed extends (op_if flags fExec op).
Proof. unfold op_if. apply (framed_bind _); [destruct fExec; frame_go|]. intros v. frame_go. apply extends_set_exec. Qed.
Lemma extends_op_else : framed extends op_else.
Proof. unfold op_else. frame_go. apply extends_set_exec. Qed.
Lemma extends_op_endif : framed extends op_endif.
Proof. unfold op_endif. frame_go. apply extends_set_exec. Qed.
Lemma extends_op_cat : framed extends (op_cat grow).
Proof.
  unfold op_cat. do 3 (apply (framed_bind _); [frame_go|intros ?]). destruct (_ <? _); [frame_go|].
  do 4 (apply (framed_bind _); [frame_go|intros ?]). intros st. unfold extends, mbind, interp_bind, new_slice.
  unfold mbind, interp_bind. cbn [gets].
  pose proof (alloc_ext (hp st) [] 0) as He. assert (length (hp st) <= arr (alloc (hp st) [] 0).2)%nat as Ha by done.
  destruct (alloc (hp st) [] 0) as [h x]. cbn [fst snd set_heap mret interp_ret hp] in *.
  destruct (append_fresh grow (hp st) h x a4 He Ha) as [He1 Ha1]. destruct (append grow h x a4) as [h1 x1]. cbn [fst snd] in *.
  destruct (append_fresh grow (hp st) h1 x1 a5 He1 Ha1) as [He2 _]. by destruct (append grow h1 x1 a5) as [h2 x2].
Qed.

Lemma extends_exec_opcode i fExec op : in_place op = false ->
  framed extends (exec_opcode grow t nIn money flags ops i fExec op).
Proof.
  intros Hp. assert (one_of op [OP_AND; OP_OR; OP_XOR] = false /\ (op =? OP_NUM2BIN) = false /\ (op =? OP_BIN2NUM) = false)
    as (N1 & N2 & N3) by (unfold in_place, one_of in *; simpl in *; lia).
  unfold exec_opcode. rw N1 N2 N3. cbv iota.
  repeat match goal with |- framed _ (if ?c then ?m else _) => destruct c;
    [first [apply extends_checkmultisig|apply extends_op_if|apply extends_op_else|apply extends_op_endif|apply extends_op_cat
           |by frame_go]|] end.
  by frame_go.
Qed.
Lemma extends_exec_loop l : forall i, Forall (fun e => in_place (OpValue e) = false) l ->
  framed extends (exec_loop grow t nIn money flags ops i l).
Proof.
  induction l as [|e l IH]; intros i Hl; simpl; [apply (framed_ret _)|]. apply Forall_cons in Hl as [He Hl].
  apply (framed_bind _); [|intros _; by apply IH]. unfold exec_one, count_op, check_stack_size.
  assert (forall n, framed extends (set_opcount n)) as Hc by (intros n st; apply heap_ext_refl).
  frame_go; try apply Hc; by apply extends_exec_opcode.
Qed.

(** The result of a step that succeeded. *)
Definition ok_step {A} (m : interp A) (st st' : istate) : Prop := exists a, m st = (st', Ok a).
Lemma ok_bind {A B} (m : interp A) (f : A -> interp B) st st' :
  ok_step (m ≫= f) st st' -> exists a st1, m st = (st1, Ok a) /\ ok_step (f a) st1 st'.
Proof.
  intros [b Hb]. unfold mbind, interp_bind in Hb. destruct (m st) as [st1 [a|e|]] eqn:E; try done.
  exists a, st1. split; [done|]. by exists b.
Qed.
Lemma framed_ok {A} (m : interp A) st st' : framed quiet m -> ok_step m st st' -> quiet st st'.
Proof. intros Hm [a Ha]. specialize (Hm st). by rw Ha in Hm. Qed.

Lemma op_if_cond fExec op st st' : ok_step (op_if flags fExec op) st st' ->
  length (stackExec st') = S (length (stackExec st)) /\ nOpCount st <= nOpCount st'.
Proof.
  intros (v & st1 & Hv & H2)%ok_bind. assert (quiet st st1) as [E1 E2].
  { eapply framed_ok; [|by exists v]. destruct fExec; frame_go. }
  apply ok_bind in H2 as (ex & st2 & [= <- <-] & [u Hu]). injection Hu as <- _. simpl.
  unfold Push. rw length_app E1 /=. split; lia.
Qed.
Lemma op_else_cond st st' : ok_step op_else st st' ->
  stackExec st <> [] /\ length (stackExec st') = length (stackExec st) /\ nOpCount st <= nOpCount st'.
Proof.
  intros (ex & st1 & [= <- <-] & H2)%ok_bind. destruct (stackExec st) as [|b s _] using rev_ind; [destruct H2 as [? Hx]; vm_compute in Hx; discriminate|].
  destruct (Stack_Empty (s ++ [b])) eqn:E; [unfold Stack_Empty in E; apply bool_decide_eq_true in E; rw length_app /= in E; lia|].
  apply ok_bind in H2 as (vf & st2 & Hv & [u Hu]). rw SetTop_app in Hu. simpl in Hv. injection Hv as <- _.
  injection Hu as <- _. simpl. rw !length_app. split_and!; [intros []%app_nil; done|done|lia].
Qed.
Lemma op_endif_cond st st' : ok_step op_endif st st' ->
  length (stackExec st) = S (length (stackExec st')) /\ nOpCount st <= nOpCount st'.
Proof.
  intros (ex & st1 & [= <- <-] & H2)%ok_bind. destruct (stackExec st) as [|b s _] using rev_ind; [destruct H2 as [? Hx]; vm_compute in Hx; discriminate|].
  destruct (Stack_Empty (s ++ [b])) eqn:E; [unfold Stack_Empty in E; apply bool_decide_eq_true in E; rw length_app /= in E; lia|].
  destruct H2 as [u [= <- _]]. rw Pop_app length_app /=. split; lia.
Qed.

Lemma exec_opcode_cond i fExec op st st' : ok_step (exec_opcode grow t nIn money flags ops i fExec op) st st' ->
  cond_step op (length (stackExec st)) = Some (length (stackExec st')) /\ nOpCount st <= nOpCount st'.
Proof.
  intros Hs. unfold cond_step. destruct (is_if op) eqn:Eif.
  { assert (op = OP_IF \/ op = OP_NOTIF) as Ho by (unfold is_if, one_of in Eif; simpl in Eif; lia).
    destruct (op_if_cond fExec op st st') as [-> ?]; [|done]. by destruct Ho as [-> | ->]. }
  destruct (Z.eqb_spec op OP_ELSE) as [->|H1'].
  { destruct (op_else_cond st st' Hs) as (Hne & -> & ?). split; [|done]. by destruct (stackExec st). }
  destruct (Z.eqb_spec op OP_ENDIF) as [->|H2'].
  { by destruct (op_endif_cond st st' Hs) as (-> & ?). }
  destruct (framed_ok _ _ _ (framed_exec_opcode i fExec op Eif H1' H2') Hs) as [-> ?]. done.
Qed.

(** ** One round and the whole loop *)
Definition counted (op : Z) : Z := if OP_16 <? op then 1 else 0.

Lemma count_op_ok op st st' : ok_step (count_op op) st st' ->
  stackExec st' = stackExec st /\ nOpCount st' = nOpCount st + counted op /\
  (OP_16 < op -> nOpCount st' <= MaxOpsPerScript).
Proof.
  unfold count_op, counted. destruct (Z.ltb_spec OP_16 op).
  - intros (n & st1 & [= <- <-] & (u & st2 & [= <- <-] & Hx)%ok_bind)%ok_bind.
    destruct (Z.ltb_spec MaxOpsPerScript (nOpCount st + 1)); destruct Hx as [v Hv]; [done|]. by injection Hv as <- _.
  - intros [u [= <- _]]. split_and!; [done|lia|lia].
Qed.
Lemma not_executed_cond op d : ~ (OP_IF <= op <= OP_ENDIF) -> cond_step op d = Some d.
Proof.
  intros Ho. unfold cond_step, is_if, one_of, OP_IF, OP_NOTIF, OP_ELSE, OP_ENDIF in *. simpl.
  destruct (_ || _) eqn:E; [lia|]. destruct (Z.eqb_spec op 0x67); [lia|]. by destruct (Z.eqb_spec op 0x68); [lia|].
Qed.

Lemma exec_one_static i e st st' : ok_step (exec_one grow t nIn money flags ops i e) st st' ->
  Z.of_nat (slen (Data e)) <= MaxScriptElementSize /\ IsOpCodeDisabled (OpValue e) = false /\
  cond_step (OpValue e) (length (stackExec st)) = Some (length (stackExec st')) /\
  nOpCount st + counted (OpValue e) <= nOpCount st' /\
  (OP_16 < OpValue e -> nOpCount st + 1 <= MaxOpsPerScript).
Proof.
  intros (ex & st0 & [= <- <-] & H1')%ok_bind. cbv zeta in H1'.
  destruct (Z.ltb_spec MaxScriptElementSize (Z.of_nat (slen (Data e)))); [by destruct H1'|].
  apply ok_bind in H1' as (u & st1 & Hc & H2').
  destruct (count_op_ok (OpValue e) st st1) as (C1 & C2 & C3); [by exists u|].
  destruct (IsOpCodeDisabled (OpValue e)); [by destruct H2'|].
  apply ok_bind in H2' as (u' & st2 & Hx & Hk).
  assert (quiet st2 st') as [K1 K2].
  { eapply framed_ok; [|exact Hk]. unfold check_stack_size. frame_go. }
  assert (cond_step (OpValue e) (length (stackExec st1)) = Some (length (stackExec st2)) /\ nOpCount st1 <= nOpCount st2) as [X1 X2].
  { destruct (_ && (OpValue e <=? OP_PUSHDATA4)) eqn:Ep.
    - destruct (framed_ok (push_data flags e) st1 st2) as [-> ?]; [frame_go|by exists u'|]. split; [|done].
      apply not_executed_cond. unfold OP_PUSHDATA4, OP_IF in *. lia.
    - destruct (_ || ((OP_IF <=? OpValue e) && _)) eqn:Eo.
      + eapply exec_opcode_cond. by exists u'.
      + injection Hx as <- _. split; [|lia]. apply not_executed_cond. lia. }
  unfold counted in *. rw K1 -C1. split_and!; [lia|done|done|lia|]. intros Hop.
  specialize (C3 Hop). destruct (Z.ltb_spec OP_16 (OpValue e)); lia.
Qed.

Definition total_counted (l : list (ParsedOpCode slice)) : Z := foldr (fun e => Z.add (counted (OpValue e))) 0 l.

Lemma total_counted_filter l : total_counted l = Z.of_nat (length (filter (fun e => OP_16 < OpValue e) l)).
Proof.
  induction l as [|e l IH]; [done|]. rw filter_cons /= IH /counted.
  destruct (Z.ltb_spec OP_16 (OpValue e)); rw decide_bool_decide; case_bool_decide; simpl; lia.
Qed.

Lemma exec_loop_static l : forall i st st', ok_step (exec_loop grow t nIn money flags ops i l) st st' ->
  Forall (fun e => Z.of_nat (slen (Data e)) <= MaxScriptElementSize /\ IsOpCodeDisabled (OpValue e) = false) l /\
  cond_depth (map OpValue l) (length (stackExec st)) = Some (length (stackExec st')) /\
  (total_counted l = 0 \/ nOpCount st + total_counted l <= MaxOpsPerScript).
Proof.
  induction l as [|e l IH]; intros i st st' Hs; simpl in Hs |- *.
  { destruct Hs as [u [= <- _]]. split_and!; [constructor|done|by left]. }
  apply ok_bind in Hs as (u & st1 & H1' & H2').
  destruct (exec_one_static i e st st1) as (X1 & X2 & X3 & X4 & X5); [by exists u|].
  destruct (IH _ _ _ H2') as (Y1 & Y2 & Y3). rw X3 /=. split_and!; [by constructor|done|].
  unfold counted in *. destruct (Z.ltb_spec OP_16 (OpValue e)); destruct Y3; try specialize (X5 ltac:(done)); lia.
Qed.
End Static.

(** ** The stack operations *)

(** The effect each opcode documents: [before] becomes [after] at the top of the
    stack, which is the end of the lists. *)
Inductive shuffles {A} : Z -> list A -> list A -> Prop :=
| sh_drop x : shuffles OP_DROP [x] []
| sh_2drop x1 x2 : shuffles OP_2DROP [x1; x2] []
| sh_dup x : shuffles OP_DUP [x] [x; x]
| sh_2dup x1 x2 : shuffles OP_2DUP [x1; x2] [x1; x2; x1; x2]
| sh_3dup x1 x2 x3 : shuffles OP_3DUP [x1; x2; x3] [x1; x2; x3; x1; x2; x3]
| sh_2over x1 x2 x3 x4 : shuffles OP_2OVER [x1; x2; x3; x4] [x1; x2; x3; x4; x1; x2]
| sh_2rot x1 x2 x3 x4 x5 x6 : shuffles OP_2ROT [x1; x2; x3; x4; x5; x6] [x3; x4; x5; x6; x1; x2]
| sh_2swap x1 x2 x3 x4 : shuffles OP_2SWAP [x1; x2; x3; x4] [x3; x4; x1; x2]
| sh_nip x1 x2 : shuffles OP_NIP [x1; x2] [x2]
| sh_over x1 x2 : shuffles OP_OVER [x1; x2] [x1; x2; x1]
| sh_rot x1 x2 x3 : shuffles OP_ROT [x1; x2; x3] [x2; x3; x1]
| sh_swap x1 x2 : shuffles OP_SWAP [x1; x2] [x2; x1]
| sh_tuck x1 x2 : shuffles OP_TUCK [x1; x2] [x2; x1; x2].

Definition with_stack (st : istate) (s : list slice) : istate := (set_stack s st).1.

Section Shuffle.
Context (st : istate) (rest : list slice).
Abbreviation on s := (with_stack st (rest ++ s)).

Lemma run_bind {A B} (m : interp A) (f : A -> interp B) st0 st1 a : m st0 = (st1, Ok a) -> (m ≫= f) st0 = f a st1.
Proof. intros E. unfold mbind, interp_bind. by rw E. Qed.
Lemma run_need s n e : n <= Z.of_nat (length s) -> need n e (on s) = (on s, Ok tt).
Proof.
  intros Hn. unfold need. erewrite run_bind; [|reflexivity]. simpl. rw Stack_Size_app.
  unfold Stack_Size. by destruct (Z.ltb_spec (Z.of_nat (length rest) + Z.of_nat (length s)) n); [lia|].
Qed.
Lemma run_top s k x : (k < length s)%nat -> s !! (length s - S k)%nat = Some x ->
  top (Z.of_nat (S k)) (on s) = (on s, Ok x).
Proof.
  intros Hk Hx. unfold top, top_nil. erewrite run_bind; [|reflexivity]. simpl stack.
  rw Top_app //. by rw Hx.
Qed.
Lemma run_top_must s k x : (k < length s)%nat -> s !! (length s - S k)%nat = Some x ->
  top_must (Z.of_nat (S k)) (on s) = (on s, Ok x).
Proof.
  intros Hk Hx. unfold top_must. erewrite run_bind; [|reflexivity]. simpl stack.
  rw Top_app //. by rw Hx.
Qed.
Lemma run_pop s x : pop (on (s ++ [x])) = (on s, Ok tt).
Proof.
  unfold pop. erewrite run_bind; [|reflexivity]. cbn [stack with_stack set_stack fst]. by rw app_assoc Pop_app.
Qed.
Lemma run_push s x : push x (on s) = (on (s ++ [x]), Ok tt).
Proof. unfold push. erewrite run_bind; [|reflexivity]. unfold Push. simpl. by rw -app_assoc. Qed.
Lemma run_swap s0 x s1 y s2 i j : i = Z.of_nat (length (x :: s1 ++ y :: s2)) -> j = Z.of_nat (length (y :: s2)) ->
  swap_at i j (on (s0 ++ x :: s1 ++ y :: s2)) = (on (s0 ++ y :: s1 ++ x :: s2), Ok tt).
Proof.
  intros -> ->. unfold swap_at. erewrite run_bind; [|reflexivity]. simpl stack. rw app_assoc.
  pose proof (Stack_Swap_app (rest ++ s0) x s1 y s2) as E.
  replace (Stack_Size _ - _) with (Stack_Size (rest ++ s0)) by (unfold Stack_Size; rw !length_app /= !length_app /=; lia).
  replace (Stack_Size _ - _) with (Stack_Size (rest ++ s0) + 1 + Stack_Size s1)
    by (unfold Stack_Size; rw !length_app /= !length_app /=; lia).
  rw E. simpl. by rw -app_assoc.
Qed.
End Shuffle.

Lemma run_pop_last st rest s : s <> [] ->
  pop (with_stack st (rest ++ s)) = (with_stack st (rest ++ removelast s), Ok tt).
Proof. intros Hs. destruct s as [|x s _] using rev_ind; [done|]. by rw removelast_last run_pop. Qed.

(** Run the steps of an opcode on a stack with explicit top elements. *)
Ltac run_prim :=
  lazymatch goal with
  | |- need_op _ _ = _ => apply run_need; simpl; lia
  | |- top ?n _ = _ => apply (run_top _ _ _ (Z.to_nat (n - 1))); [simpl; lia|reflexivity]
  | |- top_must ?n _ = _ => apply (run_top_must _ _ _ (Z.to_nat (n - 1))); [simpl; lia|reflexivity]
  | |- pop _ = _ => apply run_pop_last; done
  | |- push _ _ = _ => apply run_push
  | |- gets _ _ = _ => reflexivity
  | |- set_stack _ _ = _ => reflexivity
  end.
Ltac run_steps :=
  repeat (lazymatch goal with
          | |- (_ ≫= _) _ = _ => erewrite run_bind; [|run_prim]; cbn [app removelast]
          end); try run_prim.

Section StackOps.
Context `{Secp256k1} `{!Checker} `{Hashes} (grow : nat -> nat -> nat).
Context (t : Tx) (nIn money flags : Z) (ops : list (ParsedOpCode slice)).

Lemma shuffle_ok st rest op before after i : shuffles op before after ->
  exec_opcode grow t nIn money flags ops i true op (with_stack st (rest ++ before))
  = (with_stack st (rest ++ after), Ok tt).
Proof.
  intros []; unfold exec_opcode; cbn [one_of existsb Z.eqb Pos.eqb orb].
  all: cbv -[with_stack op_drop op_2drop op_dup op_2dup op_3dup op_2over op_2rot op_2swap op_nip op_over op_rot op_swap op_tuck app].
  - unfold op_drop. run_steps.
  - unfold op_2drop. run_steps.
  - unfold op_dup. run_steps.
  - unfold op_2dup. run_steps.
  - unfold op_3dup. run_steps.
  - unfold op_2over. run_steps.
  - unfold op_2rot. run_steps. simpl stack.
    pose proof (Erase_app rest [x1; x2] [x3; x4; x5; x6]) as Er. cbn [app] in Er.
    replace (Stack_Size (rest ++ _) - 6) with (Stack_Size rest) by (rw Stack_Size_app /Stack_Size /=; lia).
    replace (Stack_Size (rest ++ _) - 4) with (Stack_Size rest + Stack_Size [x1; x2])
      by (rw Stack_Size_app /Stack_Size /=; lia).
    rw Er //. cbn [snd fst set_stack].
    change (mkIstate _ _ _ _ _ _) with (with_stack st (rest ++ [x3; x4; x5; x6])). run_steps.
  - unfold op_2swap. erewrite run_bind; [|run_prim].
    erewrite run_bind; [|apply (run_swap st rest [] x1 [x2] x3 [x4]); done]. cbn [app].
    apply (run_swap st rest [x3] x2 [x1] x4 []); done.
  - unfold op_nip. run_steps. unfold with_stack. cbn [set_stack fst stack].
    replace (Stack_Size (rest ++ _) - 2) with (Stack_Size rest) by (rw Stack_Size_app /Stack_Size /=; lia).
    by rw RemoveAt_app.
  - unfold op_over. run_steps.
  - unfold op_rot. erewrite run_bind; [|run_prim].
    erewrite run_bind; [|apply (run_swap st rest [] x1 [] x2 [x3]); done]. cbn [app].
    apply (run_swap st rest [x2] x1 [] x3 []); done.
  - unfold op_swap. erewrite run_bind; [|run_prim]. apply (run_swap st rest [] x1 [] x2 []); done.
  - unfold op_tuck. run_steps. unfold with_stack. cbn [set_stack fst stack].
    replace (Stack_Size (rest ++ _) - 2) with (Stack_Size rest) by (rw Stack_Size_app /Stack_Size /=; lia).
    by rw Insert_app.
Qed.

(** With fewer elements than the opcode takes, nothing changes and it fails. *)
Lemma shuffle_underflow st op (before after : list slice) i : shuffles op before after ->
  (length (stack st) < length before)%nat ->
  exec_opcode grow t nIn money flags ops i true op st = (st, Err ScriptErrInvalidStackOperation).
Proof.
  intros Hsh Hl. assert (forall n m, Stack_Size (stack st) < n ->
    (need_op n;; m) st = (st, Err (A := unit) ScriptErrInvalidStackOperation)) as Hneed.
  { intros n m Hn. unfold mbind, interp_bind, need_op, need. unfold mbind, interp_bind. cbn [gets].
    by destruct (Z.ltb_spec (Stack_Size (stack st)) n); [|lia]. }
  destruct Hsh; apply Hneed; unfold Stack_Size; simpl in Hl; lia.
Qed.
End StackOps.
