(* ===== verification/MultisigFacts.v ===== *)
(** * OP_CHECKMULTISIG

    The loop walks the signatures and the keys from the top of the stack and
    never goes back to a key.  It accepts exactly when the signatures can be
    assigned to distinct keys in the same order. *)
From S2P Require Import Prelude Errors Wire ScriptNum Opcodes Script Tx Crypto Stack Slice Interp InterpFacts InterpStatic.

(** ** The greedy matching *)
Section Greedy.
Context {S K : Type} (ok : S -> K -> bool).

Fixpoint greedy (sigs : list S) (keys : list K) : bool :=
  match keys, sigs with
  | _, [] => true
  | [], _ => false
  | k :: keys', s :: sigs' => if ok s k then greedy sigs' keys' else greedy sigs keys'
  end.

(** Every signature has its key, in order. *)
Definition assigned (sigs : list S) (keys : list K) : Prop :=
  exists ks, ks `sublist_of` keys /\ Forall2 (fun s k => ok s k = true) sigs ks.

Lemma greedy_nil keys : greedy [] keys = true.
Proof. by destruct keys. Qed.
Lemma greedy_short keys : forall sigs, (length keys < length sigs)%nat -> greedy sigs keys = false.
Proof.
  induction keys as [|k keys IH]; intros [|s sigs] Hl; simpl in *; try done; try lia.
  destruct (ok s k); apply IH; simpl; lia.
Qed.
Lemma greedy_assigned keys : forall sigs, greedy sigs keys = true <-> assigned sigs keys.
Proof.
  induction keys as [|k keys IH]; intros [|s sigs]; simpl.
  - split; [|done]. intros _. by exists [].
  - split; [done|]. intros (ks & Hs%sublist_nil_r & HF). subst. by apply Forall2_nil_inv_r in HF.
  - split; [|done]. intros _. exists []. split; [apply sublist_nil_l|done].
  - destruct (ok s k) eqn:E.
    + rw IH. split.
      * intros (ks & Hs & HF). exists (k :: ks). split; [by constructor|by constructor].
      * intros (ks & Hs & HF). inversion HF as [|? k' ? ks' Hk HF']; subst.
        apply sublist_cons_l in Hs as (l1 & l2 & E' & Hs). exists ks'. split; [|done].
        destruct l1 as [|? l1]; simplify_eq/=; [done|]. by apply sublist_inserts_l, sublist_cons.
    + rw IH. split.
      * intros (ks & Hs & HF). exists ks. split; [by constructor|done].
      * intros (ks & Hs & HF). inversion HF as [|? k' ? ks' Hk HF']; subst.
        inversion Hs; subst; [congruence|]. by eexists.
Qed.
Lemma sublist_reverse {A} (l k : list A) : l `sublist_of` k -> reverse l `sublist_of` reverse k.
Proof.
  induction 1 as [|x l k _ IH|x l k _ IH]; [done| |]; rw !reverse_cons.
  - by apply sublist_app.
  - by apply sublist_inserts_r.
Qed.
Lemma assigned_rev sigs keys : assigned (reverse sigs) (reverse keys) <-> assigned sigs keys.
Proof.
  assert (forall a b, assigned a b -> assigned (reverse a) (reverse b)) as Hr.
  { intros a b (ks & Hs & HF). exists (reverse ks). split; [|by apply Forall2_reverse].
    by apply sublist_reverse. }
  split; [|apply Hr]. intros Hx%Hr. by rw !reverse_involutive in Hx.
Qed.
End Greedy.

(** ** The loops of the opcode on an explicit stack *)
Section Loops.
Context `{Secp256k1} `{!Checker} `{Hashes} (grow : nat -> nat -> nat).
Context (t : Tx) (nIn money flags : Z) (ops : list (ParsedOpCode slice)).
(** The stack is [rest], then [L]; [top (k+1)] is the element [k] of [reverse L]. *)
Context (st : istate) (rest L : list slice).
Abbreviation s0 := (with_stack st (rest ++ L)).
Abbreviation rd := (read (hp st)).

Lemma run_top_reverse k x : reverse L !! k = Some x -> top (Z.of_nat (S k)) s0 = (s0, Ok x).
Proof.
  intros Hx. pose proof (lookup_lt_Some _ _ _ Hx) as Hk. rw length_reverse in Hk.
  apply run_top; [done|]. rw reverse_lookup // in Hx.
Qed.
Lemma run_top_must_reverse k x : reverse L !! k = Some x -> top_must (Z.of_nat (S k)) s0 = (s0, Ok x).
Proof.
  intros Hx. pose proof (lookup_lt_Some _ _ _ Hx) as Hk. rw length_reverse in Hk.
  apply run_top_must; [done|]. rw reverse_lookup // in Hx.
Qed.

(** [l] lies in the reversed stack from position [i]. *)
Definition lies (i : nat) (l : list slice) : Prop := forall j x, l !! j = Some x -> reverse L !! (i + j)%nat = Some x.
Lemma lies_cons i x l : lies i (x :: l) -> reverse L !! i = Some x /\ lies (S i) l.
Proof.
  intros Hl. split; [rw -(Nat.add_0_r i); by apply (Hl 0%nat)|]. intros j y Hy.
  replace (S i + j)%nat with (i + S j)%nat by lia. by apply (Hl (S j)).
Qed.

Lemma run_remove_sigs l : forall i c, lies i l ->
  remove_sigs (length l) (Z.of_nat (S i)) c s0 = (s0, Ok (foldl (fun c x => RemoveOpcodeByData c (rd x)) c l)).
Proof.
  induction l as [|x l IH]; intros i c Hl; [done|]. apply lies_cons in Hl as [Hx Hl]. cbn [length remove_sigs].
  erewrite run_bind; [|by apply run_top_reverse]. erewrite run_bind; [|reflexivity].
  replace (Z.of_nat (S i) + 1) with (Z.of_nat (S (S i))) by lia. apply (IH (S i)), Hl.
Qed.

Context (code : Script) (ok : bytes -> bytes -> bool).

Lemma run_multisig_loop keys : forall n i k sigs, (length keys <= n)%nat -> (length sigs <= length keys)%nat ->
  lies i sigs -> lies k keys ->
  Forall (fun x => CheckTransactionSignatureEncoding CheckLowS (rd x) flags = Ok tt) sigs ->
  Forall (fun x => CheckPubKeyEncoding (rd x) flags = Ok tt) keys ->
  (forall x y, x ∈ sigs -> y ∈ keys -> CheckSig t (rd x) (rd y) code nIn money flags = Ok (ok (rd x) (rd y))) ->
  multisig_loop t nIn money flags n code (Z.of_nat (S i)) (Z.of_nat (S k))
    (Z.of_nat (length sigs)) (Z.of_nat (length keys)) s0
  = (s0, Ok (greedy (fun x y => ok (rd x) (rd y)) sigs keys)).
Proof.
  induction keys as [|y keys IH]; intros n i k sigs Hn Hsk Hls Hlk Hes Hek Hc.
  { destruct sigs; [|simpl in Hsk; lia]. by destruct n. }
  destruct sigs as [|x sigs]; [by destruct n|]. destruct n as [|n]; [simpl in Hn; lia|].
  pose proof (lies_cons _ _ _ Hls) as [Hx Hls']. pose proof (lies_cons _ _ _ Hlk) as [Hy Hlk'].
  pose proof Hes as [Ex Hes']%Forall_cons. apply Forall_cons in Hek as [Ey Hek].
  cbn [multisig_loop]. destruct (negb (0 <? Z.of_nat (length (x :: sigs)))) eqn:E0; [simpl in E0; lia|].
  erewrite run_bind; [|by apply run_top_reverse]. erewrite run_bind; [|by apply run_top_reverse].
  do 2 (erewrite run_bind; [|reflexivity]).
  erewrite run_bind; [|unfold lift; by rw Ex]. erewrite run_bind; [|unfold lift; by rw Ey].
  erewrite run_bind; [|unfold lift; by rw (Hc x y); [|set_solver..]]. cbn [greedy]. cbv zeta.
  replace (Z.of_nat (length (y :: keys)) - 1) with (Z.of_nat (length keys)) by (simpl; lia).
  replace (Z.of_nat (S k) + 1) with (Z.of_nat (S (S k))) by lia.
  destruct (ok (rd x) (rd y)).
  - replace (Z.of_nat (length (x :: sigs)) - 1) with (Z.of_nat (length sigs)) by (simpl; lia).
    destruct (Z.ltb_spec (Z.of_nat (length keys)) (Z.of_nat (length sigs))); [simpl in *; lia|].
    replace (Z.of_nat (S i) + 1) with (Z.of_nat (S (S i))) by lia.
    apply (IH n (S i) (S k) sigs); try done; [simpl in *; lia..|]. intros x' y' ? ?. apply Hc; set_solver.
  - destruct (Z.ltb_spec (Z.of_nat (length keys)) (Z.of_nat (length (x :: sigs)))).
    + rw greedy_short //. simpl in *. lia.
    + apply (IH n i (S k) (x :: sigs)); try done; [simpl in *; lia..|]. intros x' y' ? ?. apply Hc; set_solver.
Qed.
End Loops.

(** ** The whole opcode *)
Section Opcode.
Context `{Secp256k1} `{!Checker} `{Hashes} (grow : nat -> nat -> nat).
Context (t : Tx) (nIn money flags : Z) (ops : list (ParsedOpCode slice)).

Lemma run_bind_err {A B} (m : interp A) (f : A -> interp B) st0 st1 e : m st0 = (st1, Err e) -> (m ≫= f) st0 = (st1, Err e).
Proof. intros E. unfold mbind, interp_bind. by rw E. Qed.
(** The elements above the signatures are dropped without a test. *)
Lemma run_cleanup_above st rest l : forall n k fSuccess, (length l <= k)%nat ->
  multisig_cleanup flags (length l + n) fSuccess (Z.of_nat k) (with_stack st (rest ++ l)) = multisig_cleanup flags n fSuccess (Z.of_nat (k - length l)) (with_stack st rest).
Proof.
  induction l as [|x l IH] using rev_ind; intros n k fS Hk; [by rw /= app_nil_r Nat.sub_0_r|]. rw length_app in Hk. cbn [length] in Hk.
  rw length_app Nat.add_1_r. cbn [multisig_cleanup Nat.add]. destruct (Z.eqb_spec (Z.of_nat k) 0); [lia|]. rw andb_false_r.
  erewrite run_bind; [|reflexivity]. erewrite run_bind; [|apply run_pop]. destruct (Z.ltb_spec 0 (Z.of_nat k)); [|lia].
  replace (Z.of_nat k - 1) with (Z.of_nat (k - 1)) by lia. rw IH; [|lia]. do 2 f_equal. lia.
Qed.
(** Then the signatures: after a failure under NULLFAIL one that is not empty is an error. *)
Lemma run_cleanup st rest l fSuccess : fSuccess = true \/ all_flag flags ScriptVerifyNullFail = false \/ Forall (fun x => slen x = 0%nat) l ->
  multisig_cleanup flags (length l) fSuccess 0 (with_stack st (rest ++ l)) = (with_stack st rest, Ok tt).
Proof.
  induction l as [|x l IH] using rev_ind; intros Hf; [by rw /= app_nil_r|].
  rw length_app Nat.add_1_r. cbn [multisig_cleanup]. erewrite run_bind; [erewrite run_bind; [apply IH|apply run_pop]|].
  { rw Forall_app in Hf. tauto. }
  destruct (negb fSuccess && all_flag flags ScriptVerifyNullFail && (0 =? 0)) eqn:En; [|reflexivity].
  erewrite run_bind; [|apply (run_top_must st rest (l ++ [x]) 0 x); [rw length_app /=; lia|rw length_app /= Nat.add_sub; by rw lookup_app_r // Nat.sub_diag]].
  assert (slen x = 0%nat) as ->; [|done]. apply andb_true_iff in En as [[Hs Hn]%andb_true_iff _]. destruct Hf as [->|[Hf|Hf]]; [done|congruence|].
  rw Forall_app Forall_singleton in Hf. tauto.
Qed.
Lemma run_cleanup_fails st rest l : all_flag flags ScriptVerifyNullFail = true -> Exists (fun x => slen x <> 0%nat) l ->
  exists st', multisig_cleanup flags (length l) false 0 (with_stack st (rest ++ l)) = (st', Err ScriptErrSigNullFail).
Proof.
  intros Hn. induction l as [|x l IH] using rev_ind; intros Hx; [by apply Exists_nil in Hx|]. rw length_app Nat.add_1_r. cbn [multisig_cleanup]. rw Hn. cbn [negb andb].
  destruct (decide (slen x = 0%nat)) as [Hz|Hz].
  - apply Exists_app in Hx as [Hx|Hx]; [|by apply Exists_cons in Hx as [?|?%Exists_nil]]. destruct (IH Hx) as [st' He]. exists st'.
    erewrite run_bind; [erewrite run_bind; [exact He|apply run_pop]|]. change (0 =? 0) with true. cbv iota.
    erewrite run_bind; [|apply (run_top_must st rest (l ++ [x]) 0 x); [rw length_app /=; lia|rw length_app /= Nat.add_sub; by rw lookup_app_r // Nat.sub_diag]]. by rw Hz.
  - eexists. change (0 =? 0) with true. cbv iota. apply run_bind_err.
    erewrite run_bind; [|apply (run_top_must st rest (l ++ [x]) 0 x); [rw length_app /=; lia|rw length_app /= Nat.add_sub; by rw lookup_app_r // Nat.sub_diag]]. destruct (Nat.ltb_spec 0 (slen x)); [reflexivity|lia].
Qed.

Lemma run_push_bool st s b : exists st' x, push_bool b (with_stack st s) = (st', Ok tt) /\
  stack st' = s ++ [x] /\ read (hp st') x = (if b then [1] else []) /\ nOpCount st' = nOpCount st /\
  heap_ext (hp st) (hp st').
Proof.
  unfold push_bool, push_num. erewrite (run_bind _ _ _ _ (if b then [1] else [])); [|by destruct b].
  set (cap := if decide _ then _ else _). unfold push_new, new_slice. cbn.
  eexists _, _. split; [reflexivity|]. cbn. split_and!; [done|apply (alloc_read (hp st) (if b then [1] else []) cap)|done|by eexists].
Qed.

Context (st : istate) (rest : list slice) (dummy ns nk : slice) (sigs keys : list slice).
Abbreviation rd := (read (hp st)).
Context (Hstk : stack st = rest ++ dummy :: sigs ++ [ns] ++ keys ++ [nk]).
Context (Hnk : GetScriptNum (rd nk) (fRequireMinimal flags) DefaultMaxNumSize = Ok (Z.of_nat (length keys))).
Context (Hns : GetScriptNum (rd ns) (fRequireMinimal flags) DefaultMaxNumSize = Ok (Z.of_nat (length sigs))).
Context (Hle : (length sigs <= length keys <= 20)%nat).
Context (Hcount : nOpCount st + Z.of_nat (length keys) <= MaxOpsPerScript).
Context (Henc : Forall (fun x => CheckTransactionSignatureEncoding CheckLowS (rd x) flags = Ok tt) sigs).
Context (Hkey : Forall (fun x => CheckPubKeyEncoding (rd x) flags = Ok tt) keys).

(** The script code the signatures sign: the opcodes from the last separator on,
    without the signatures. *)
Definition signed_code : Script :=
  foldl (fun c x => RemoveOpcodeByData c (rd x))
    (NewScriptOps (map (read_op (hp st)) (drop (Z.to_nat (beginCodeHash st)) ops))) (reverse sigs).

Context (ok : bytes -> bytes -> bool).
Context (Hok : forall x y, x ∈ sigs -> y ∈ keys ->
  CheckSig t (rd x) (rd y) signed_code nIn money flags = Ok (ok (rd x) (rd y))).

Lemma ToInt32_small n : (n <= 20)%nat -> ToInt32 (Z.of_nat n) = Z.of_nat n.
Proof. intros Hn. unfold ToInt32, MaxInt32, MinInt32. repeat case_match; int_lia. Qed.

Lemma run_script_num x v s1 : hp s1 = hp st -> GetScriptNum (rd x) (fRequireMinimal flags) DefaultMaxNumSize = Ok v ->
  script_num flags x DefaultMaxNumSize s1 = (s1, Ok v).
Proof.
  intros Hh Hv. unfold script_num. erewrite run_bind; [|reflexivity]. unfold lift. by rw Hh Hv.
Qed.

Definition match_ok (x y : slice) : bool := ok (rd x) (rd y).

(** What is left to do when the signatures have been matched. *)
Definition multisig_end (b : bool) (st1 : istate) : istate * res ScriptErr unit :=
  (multisig_cleanup flags (length (sigs ++ [ns] ++ keys ++ [nk])) b (Z.of_nat (length keys) + 2);;
   need_op 1;;
   x ← top_must 1;
   if all_flag flags ScriptVerifyNullDummy && (0 <? slen x)%nat then fail ScriptErrSigNullDummy
   else pop;; push_bool b;; mret tt) st1.
Definition counted_state : istate := mkIstate (hp st) (stack st) (stackAlt st) (stackExec st) (nOpCount st + Z.of_nat (length keys)) (beginCodeHash st).
Lemma op_checkmultisig_run : exists b : bool, (b = true <-> assigned match_ok sigs keys) /\
  op_checkmultisig t nIn money flags ops OP_CHECKMULTISIG st = multisig_end b counted_state.
Proof.
  set (L := dummy :: sigs ++ [ns] ++ keys ++ [nk]) in *.
  set (st1 := counted_state).
  assert (st = with_stack st (rest ++ L)) as Est by (destruct st; simpl in *; by rw Hstk).
  assert (st1 = with_stack st1 (rest ++ L)) as Est1 by (subst st1; unfold with_stack, counted_state; simpl; by rw Hstk).
  assert (reverse L = nk :: reverse keys ++ [ns] ++ reverse sigs ++ [dummy]) as ErL.
  { subst L. rw reverse_cons !reverse_app reverse_singleton. simpl. rw -!app_assoc //. }
  assert (length L = 3 + length sigs + length keys)%nat as HlL by (subst L; simpl; rw length_app /= length_app /=; lia).
  assert (lies L 1 (reverse keys)) as Hlk.
  { intros j x Hx. rw ErL /=. by apply lookup_app_l_Some. }
  assert (lies L (2 + length keys) (reverse sigs)) as Hls.
  { intros j x Hx. rw ErL /=. rw lookup_app_r; [|rw length_reverse; lia].
    rw length_reverse. replace (S (length keys + j) - length keys)%nat with (S j) by lia. simpl.
    by apply lookup_app_l_Some. }
  unfold op_checkmultisig. cbv zeta. rw {1}Est.
  erewrite run_bind; [|apply run_need; rw HlL; lia].
  erewrite run_bind; [|apply (run_top_reverse st rest L 0); by rw ErL].
  erewrite run_bind; [|by apply run_script_num].
  rw ToInt32_small; last lia. destruct ((_ <? 0) || (MaxPubKeysPerMultiSig <? _)) eqn:E1; [unfold MaxPubKeysPerMultiSig in E1; lia|].
  erewrite run_bind; [|reflexivity]. cbn [with_stack set_stack fst nOpCount].
  erewrite run_bind; [|reflexivity]. cbn [hp stack stackAlt stackExec beginCodeHash nOpCount].
  destruct (Z.ltb_spec MaxOpsPerScript (nOpCount st + Z.of_nat (length keys))); [lia|].
  rw -Hstk. change (mkIstate _ _ _ _ _ _) with counted_state. fold st1. rw {1}Est1.
  erewrite run_bind; [|apply run_need; rw HlL; lia].
  replace (2 + Z.of_nat (length keys)) with (Z.of_nat (S (1 + length keys))) by lia.
  erewrite run_bind; [|apply (run_top_must_reverse st1 rest L (1 + length keys) ns)].
  2: { rw ErL /= lookup_app_r; [|rw length_reverse; lia]. by rw length_reverse Nat.sub_diag. }
  erewrite run_bind; [|by apply run_script_num].
  rw ToInt32_small; last lia. destruct ((Z.of_nat (length sigs) <? 0) || _) eqn:E2; [lia|].
  erewrite run_bind; [|apply run_need; rw HlL; lia].
  erewrite run_bind; [|reflexivity]. rw !Nat2Z.id.
  replace (Z.of_nat (S (1 + length keys)) + 1) with (Z.of_nat (S (2 + length keys))) by lia.
  rw -(length_reverse sigs). erewrite run_bind; [|by apply (run_remove_sigs st1 rest L)].
  change (foldl _ _ (reverse sigs)) with signed_code. rw -(length_reverse keys).
  erewrite run_bind; [|change 2 with (Z.of_nat (S 1)); apply (run_multisig_loop grow t nIn money flags st1 rest L signed_code ok)].
  2-8: try done.
  2: { rw !length_reverse. lia. }
  2: { by rw length_reverse. }
  2, 3: by apply Forall_reverse.
  2: { intros x y Hx Hy. rw elem_of_reverse in Hx. rw elem_of_reverse in Hy. by apply Hok. }
  change (fun x0 y : slice => ok (read (hp st1) x0) (read (hp st1) y)) with match_ok.
  set (b := greedy match_ok (reverse sigs) (reverse keys)).
  assert (b = true <-> assigned match_ok sigs keys) as Hb by (subst b; rw greedy_assigned; apply assigned_rev).
  clearbody b. rw !length_reverse. exists b. split; [exact Hb|]. unfold multisig_end. fold st1. rw {2}Est1.
  replace (Z.to_nat _) with (length (sigs ++ [ns] ++ keys ++ [nk])) by (rw !length_app /=; lia). reflexivity.
Qed.
Lemma multisig_end_run b :
  let fails := b = false /\ all_flag flags ScriptVerifyNullFail = true /\ Exists (fun x => slen x <> 0%nat) sigs in
  (fails -> exists st', multisig_end b counted_state = (st', Err ScriptErrSigNullFail)) /\
  (~ fails -> all_flag flags ScriptVerifyNullDummy = true -> slen dummy <> 0%nat -> exists st', multisig_end b counted_state = (st', Err ScriptErrSigNullDummy)) /\
  (~ fails -> all_flag flags ScriptVerifyNullDummy = false \/ slen dummy = 0%nat ->
   exists st' x, multisig_end b counted_state = (st', Ok tt) /\ stack st' = rest ++ [x] /\ nOpCount st' = nOpCount st + Z.of_nat (length keys) /\ read (hp st') x = if b then [1] else []).
Proof.
  intros fails. set (st1 := counted_state). assert (st1 = with_stack st1 ((rest ++ [dummy]) ++ sigs ++ [ns] ++ keys ++ [nk])) as Est1.
  { subst st1. unfold with_stack, counted_state. simpl. rw Hstk -app_assoc //. }
  assert (multisig_cleanup flags (length (sigs ++ [ns] ++ keys ++ [nk])) b (Z.of_nat (length keys) + 2) st1 =
    multisig_cleanup flags (length sigs) b 0 (with_stack st1 ((rest ++ [dummy]) ++ sigs))) as Habove.
  { rw {1}Est1 (app_assoc (rest ++ [dummy]) sigs) (length_app sigs) (Nat.add_comm (length sigs)). replace (Z.of_nat (length keys) + 2) with (Z.of_nat (length ([ns] ++ keys ++ [nk]))) by (rw !length_app /=; lia).
    rw (run_cleanup_above st1 ((rest ++ [dummy]) ++ sigs) ([ns] ++ keys ++ [nk])); [|done]. by rw Nat.sub_diag. }
  assert (~ fails -> multisig_cleanup flags (length (sigs ++ [ns] ++ keys ++ [nk])) b (Z.of_nat (length keys) + 2) st1 = (with_stack st1 (rest ++ [dummy]), Ok tt)) as Hclean.
  { intros Hnf. rw Habove. apply run_cleanup. destruct b; [by left|]. destruct (all_flag flags ScriptVerifyNullFail) eqn:En; [|by right; left]. right. right.
    apply Forall_forall. intros x Hx. destruct (decide (slen x = 0%nat)); [done|]. exfalso. apply Hnf. split_and!; [done|done|]. apply Exists_exists. by exists x. }
  split_and!.
  - intros (-> & Hn & Hx). destruct (run_cleanup_fails st1 (rest ++ [dummy]) sigs Hn Hx) as [st' He]. exists st'. unfold multisig_end. apply run_bind_err. by rw Habove.
  - intros Hnf Hd Hl. eexists. unfold multisig_end. erewrite run_bind; [|by apply Hclean]. erewrite run_bind; [|apply run_need; simpl; lia].
    erewrite run_bind; [|apply (run_top_must st1 rest [dummy] 0 dummy); [simpl; lia|reflexivity]]. rw Hd. destruct (Nat.ltb_spec 0 (slen dummy)); [reflexivity|lia].
  - intros Hnf Hd. unfold multisig_end. destruct (run_push_bool st1 rest b) as (st' & x & Hp & Hs' & Hr' & Hn' & _). exists st', x.
    erewrite run_bind; [|by apply Hclean]. erewrite run_bind; [|apply run_need; simpl; lia].
    erewrite run_bind; [|apply (run_top_must st1 rest [dummy] 0 dummy); [simpl; lia|reflexivity]].
    assert (all_flag flags ScriptVerifyNullDummy && (0 <? slen dummy)%nat = false) as -> by (destruct Hd as [-> | ->]; [done|by rw andb_false_r]).
    erewrite run_bind; [|apply (run_pop st1 rest [])]. rw app_nil_r. erewrite run_bind; [|exact Hp]. by split_and!.
Qed.
End Opcode.
