(* ===== verification/ScriptTheorems.v ===== *)
(** * Theorems about the script interpreter *)
From S2P Require Import Prelude Errors Wire ScriptNum Opcodes Script ScriptFacts Tx TxFacts Crypto Stack Slice.
From S2P Require Import Interp InterpFacts VerifyFacts InterpStatic MultisigFacts.

(** ** Concrete parameters for the examples *)

(** A key or signature library that accepts everything, and one that parses no key. *)
Definition toy_secp : Secp256k1 := {|
  Pub := unit; Sig := unit;
  EcPubkeyParse := fun _ => (tt, true);
  EcPubkeySerialize := fun _ _ => Some [2];
  EcdsaSignatureParseDerLax := fun _ => Some tt;
  EcdsaSignatureNormalize := fun s => (s, 0, true);
  EcdsaVerify := fun _ _ _ => true |}.
Definition no_key_secp : Secp256k1 := {|
  Pub := unit; Sig := unit;
  EcPubkeyParse := fun _ => (tt, false);
  EcPubkeySerialize := fun _ _ => None;
  EcdsaSignatureParseDerLax := fun _ => Some tt;
  EcdsaSignatureNormalize := fun s => (s, 0, true);
  EcdsaVerify := fun _ _ _ => true |}.
Definition toy_hashes : Hashes := {|
  Sha256 := toy_hash;
  Ripemd160 := fun b => le_bytes 20 (le_val b);
  Sha1 := fun b => le_bytes 20 (le_val b) |}.
Lemma toy_hash_laws : HashLaws (H := toy_hashes).
Proof. split; intros b; (split; [apply le_bytes_ok|apply length_le_bytes]). Qed.
#[local] Existing Instance toy_secp.
#[local] Existing Instance toy_hashes.
#[local] Existing Instance toy_hash_laws.
Definition toy_grow (c n : nat) : nat := (2 * n)%nat.
(** A heap with two loaded scripts. *)
Definition load2 (b1 b2 : bytes) : heap * hscript * hscript :=
  let '(h, s1) := load [] (NewScriptRaw b1) in let '(h, s2) := load h (NewScriptRaw b2) in (h, s1, s2).
Lemma load2_ok b1 b2 : bytes_ok b1 -> bytes_ok b2 ->
  let '(h, s1, s2) := load2 b1 b2 in Forall bytes_ok h /\ hscript_ok h s1 /\ hscript_ok h s2 /\ hdata s2 = b2.
Proof.
  intros H1 H2. unfold load2. destruct (load_ok [] b1) as (_ & B1 & O1 & _); [constructor|done|].
  destruct (load [] (NewScriptRaw b1)) as [h1 s1]. cbn [fst snd] in *.
  destruct (load_ok h1 b2 B1 H2) as (E2 & B2 & O2 & V2).
  destruct (load h1 (NewScriptRaw b2)) as [h2 s2]. cbn [fst snd] in *. split_and!; [done| |done|].
  - eapply hscript_ok_le; [by apply heap_ext_le|done].
  - rw -(data_convertOPS b2). by rw -/(NewScriptRaw b2) -V2.
Qed.
Lemma toy_safe flags : SafeChecker (H0 := RealChecker) sample_tx 0 flags.
Proof. apply RealChecker_safe; [by vm_compute|]. right. intros b c. by exists 2, []. Qed.
#[local] Existing Instance toy_safe.

(** ** Safety *)

(** C9. With a safe checker EvalScript never panics: from any stack of slices inside their
    arrays, of at most 1000 elements of at most 520 bytes, and any loaded script, it
    returns; the arrays keep their sizes, and after a success the main stack is again
    within the limits.  A checker is safe ([SafeChecker]) when its CheckSig does not panic
    on the transaction, and its VerifySignature not on what ParsePubKey returns where the
    flags enable OP_CHECKDATASIG.  RealChecker is safe where they do not enable it, and
    otherwise if the key library can serialise whatever its parser returned
    ([RealChecker_safe]); where it cannot, OP_CHECKDATASIG does panic
    ([CheckDataSig_bad_key]). *)
Theorem EvalScript_safe `{Secp256k1} `{!Checker} `{Hashes} `{!HashLaws} (grow : nat -> nat -> nat)
    (t : Tx) (nIn money flags : Z) `{!SafeChecker t nIn flags} (h : heap) (stk : list slice) (s : hscript)
    (Hh : Forall bytes_ok h) (Hstk : stack_ok h stk) (Hs : hscript_ok h s) :
  let '(h', stk', r) := EvalScript grow t nIn money flags h stk s in
  r <> Panic /\ heap_le h h' /\ Forall bytes_ok h' /\ (r = Ok tt -> stack_ok h' stk').
Proof. by apply EvalScript_ok. Qed.

Lemma EvalScript_safe_witness :
  let '(h, s1, s2) := load2 [OP_2; OP_3] [OP_ADD; OP_5; OP_EQUAL] in
  let '(h', stk', r) := EvalScript (H0 := RealChecker) toy_grow sample_tx 0 0 0 h [] s1 in
  r = Ok tt /\ stack_ok h' stk'.
Proof.
  pose proof (load2_ok [OP_2; OP_3] [OP_ADD; OP_5; OP_EQUAL]) as Hl.
  destruct (load2 _ _) as [[h s1] s2] eqn:El. destruct Hl as (B & O1 & O2 & _); [by apply (bool_decide_unpack _)..|].
  assert (stack_ok h []) as Hst by (split; [constructor|by vm_compute]).
  pose proof (EvalScript_safe toy_grow sample_tx 0 0 0 h [] s1 B Hst O1) as He.
  assert ((EvalScript (H0 := RealChecker) toy_grow sample_tx 0 0 0 h [] s1).2 = Ok tt) as Hr.
  { vm_compute in El. injection El as <- <- _. reflexivity. }
  destruct (EvalScript _ _ _ _ _ _ _ _) as [[h' stk'] r]. cbn [snd] in Hr. destruct He as (_ & _ & _ & Hok). auto.
Defined.

(** C36. With a safe checker VerifyScript never panics: for any two loaded scripts and any
    flags that ask for CLEANSTACK only together with P2SH, it returns success or an error,
    and no array of the heap changes its size.  As above, RealChecker is safe where
    OP_CHECKDATASIG is not enabled or the key library can serialise whatever its parser
    returned; a key that it cannot serialise makes OP_CHECKDATASIG panic. *)
Theorem VerifyScript_safe `{Secp256k1} `{!Checker} `{Hashes} `{!HashLaws} (grow : nat -> nat -> nat)
    (t : Tx) (nIn money flags : Z) `{!SafeChecker t nIn flags} (h : heap) (scriptSig scriptPubKey : hscript)
    (Hh : Forall bytes_ok h) (Hsig : hscript_ok h scriptSig) (Hpk : hscript_ok h scriptPubKey)
    (Hdata : bytes_ok (hdata scriptPubKey))
    (Hflags : has_flag flags ScriptVerifyCleanStack = true -> has_flag flags ScriptVerifyP2SH = true) :
  let '(h', r) := VerifyScript grow t nIn money h scriptSig scriptPubKey flags in
  r <> Panic /\ heap_le h h' /\ Forall bytes_ok h'.
Proof. by apply VerifyScript_ok. Qed.

Lemma VerifyScript_safe_witness :
  let '(h, s1, s2) := load2 [1; OP_1] ([OP_HASH160; 20] ++ Hash160 [OP_1] ++ [OP_EQUAL]) in
  (VerifyScript (H0 := RealChecker) toy_grow sample_tx 0 0 h s1 s2 ScriptVerifyP2SH).2 <> Panic.
Proof.
  pose proof (load2_ok [1; OP_1] ([OP_HASH160; 20] ++ Hash160 [OP_1] ++ [OP_EQUAL])) as Hl.
  destruct (load2 _ _) as [[h s1] s2] eqn:El.
  destruct Hl as (B & O1 & O2 & D); [by apply (bool_decide_unpack _); vm_compute..|].
  assert (bytes_ok (hdata s2)) as Hd by (rw D; by apply (bool_decide_unpack _); vm_compute).
  pose proof (VerifyScript_safe (H0 := RealChecker) toy_grow sample_tx 0 0 ScriptVerifyP2SH h s1 s2 B O1 O2 Hd) as Hv.
  destruct (VerifyScript _ _ _ _ _ _ _ _) as [h' r]. by destruct Hv as (? & _).
Defined.

(** ** What a successful evaluation says about the script *)

(** A script that EvalScript accepts is within the static limits, whatever
    the stack it started from: it parsed, has at most 10000 bytes, pushes no more
    than 520 bytes at once, holds no disabled opcode even in a branch that was not
    taken, nests IF, NOTIF, ELSE and ENDIF properly and has at most 201 opcodes
    above OP_16. *)
Theorem EvalScript_static `{Secp256k1} `{!Checker} `{Hashes} (grow : nat -> nat -> nat)
    (t : Tx) (nIn money flags : Z) (h h' : heap) (stk stk' : list slice) (s : hscript)
    (Hok : EvalScript grow t nIn money flags h stk s = (h', stk', Ok tt)) :
  hbad s = false /\ Z.of_nat (length (hdata s)) <= 10000 /\
  Forall (fun e => Z.of_nat (slen (Data e)) <= 520 /\ IsOpCodeDisabled (OpValue e) = false) (hops s) /\
  cond_depth (map OpValue (hops s)) 0 = Some 0%nat /\
  Z.of_nat (length (filter (fun e => OP_16 < OpValue e) (hops s))) <= 201.
Proof.
  unfold EvalScript in Hok. destruct (hbad s); [done|].
  destruct (Z.ltb_spec MaxScriptSize (Z.of_nat (length (hdata s)))); [done|].
  destruct (exec_loop _ _ _ _ _ _ _ _ _) as [st [[]|e|]] eqn:E; [|done|done].
  destruct (exec_loop_static grow t nIn money flags (hops s) (hops s) _ _ _ (ex_intro _ _ E)) as (F1 & F2 & F3).
  unfold Stack_Empty in Hok. destruct (bool_decide _) eqn:Ee; [|done].
  apply bool_decide_eq_true, nil_length_inv in Ee. rw Ee /= in F2. rw total_counted_filter in F3. simpl in F3.
  unfold MaxScriptSize, MaxOpsPerScript in *. by split_and!; [|lia| | |lia].
Qed.

Lemma EvalScript_static_witness :
  let '(h, s1, s2) := load2 [OP_1] [OP_IF; OP_2; OP_ELSE; OP_3; OP_ENDIF] in
  cond_depth (map OpValue (hops s2)) 0 = Some 0%nat.
Proof.
  destruct (load2 _ _) as [[h s1] s2] eqn:El. vm_compute in El. injection El as <- <- <-.
  match goal with |- cond_depth (map _ (hops ?s)) _ = _ => set (pk := s) end.
  destruct (EvalScript (H0 := RealChecker) toy_grow sample_tx 0 0 0 [[1]] [mkSlice 0 0 1 1] pk) as [[h' stk'] r] eqn:E.
  assert (r = Ok tt) as -> by (vm_compute in E; by injection E).
  by destruct (EvalScript_static (H0 := RealChecker) toy_grow sample_tx 0 0 0 [[1]] h' [mkSlice 0 0 1 1] stk' pk E)
    as (_ & _ & _ & Hc & _).
Defined.

(** ** The stack opcodes *)

(** Each stack opcode does exactly what it documents: on a stack that ends
    in its arguments it replaces them by its results and changes nothing else, not
    even the heap; on a shorter stack it fails and leaves the state alone. *)
Theorem StackOps_shuffle `{Secp256k1} `{!Checker} `{Hashes} (grow : nat -> nat -> nat)
    (t : Tx) (nIn money flags : Z) (ops : list (ParsedOpCode slice)) (i op : Z)
    (before after : list slice) (Hop : shuffles op before after) :
  let run := exec_opcode grow t nIn money flags ops i true op in
  (forall st rest, run (with_stack st (rest ++ before)) = (with_stack st (rest ++ after), Ok tt)) /\
  (forall st, (length (stack st) < length before)%nat -> run st = (st, Err ScriptErrInvalidStackOperation)).
Proof. split; intros *; [by apply shuffle_ok|]. intros Hl. by eapply shuffle_underflow. Qed.

Lemma StackOps_shuffle_witness :
  let a := mkSlice 0 0 1 1 in let b := mkSlice 1 0 1 1 in let c := mkSlice 2 0 1 1 in
  exec_opcode (H0 := RealChecker) toy_grow sample_tx 0 0 0 [] 0 true OP_ROT
    (mkIstate [[1]; [2]; [3]] [a; b; c] [] [] 0 0)
  = (mkIstate [[1]; [2]; [3]] [b; c; a] [] [] 0 0, Ok tt).
Proof.
  intros a b c.
  exact (proj1 (StackOps_shuffle (H0 := RealChecker) toy_grow sample_tx 0 0 0 [] 0 OP_ROT _ _ (sh_rot a b c))
    (mkIstate [[1]; [2]; [3]] [] [] [] 0 0) []).
Defined.

(** ** OP_CHECKMULTISIG *)

(** C10. OP_CHECKMULTISIG on well-encoded arguments: every signature and every key passes
    the encoding check of the flags, the two counts are encoded numbers within the limits,
    and the checker returns for every pair.  The signatures are matched when, in their
    order, they are valid for keys that occur in the order of the keys, each key used at
    most once: the two-pointer scan is complete for such assignments.  When they are not
    matched and NULLFAIL is on, a signature that is not empty is an error; otherwise, when
    NULLDUMMY is on, an extra element that is not empty is one; otherwise all arguments,
    the extra element included, are removed and true is pushed exactly when the signatures
    are matched.  The signatures sign the script from the last separator on without the
    signatures, and the keys count against the opcode limit. *)
Theorem CheckMultiSig_spec `{Secp256k1} `{!Checker} `{Hashes} (grow : nat -> nat -> nat)
    (t : Tx) (nIn money flags : Z) (ops : list (ParsedOpCode slice))
    (st : istate) (rest : list slice) (dummy ns nk : slice) (sigs keys : list slice)
    (Hstk : stack st = rest ++ dummy :: sigs ++ [ns] ++ keys ++ [nk])
    (Hnk : GetScriptNum (read (hp st) nk) (fRequireMinimal flags) DefaultMaxNumSize = Ok (Z.of_nat (length keys)))
    (Hns : GetScriptNum (read (hp st) ns) (fRequireMinimal flags) DefaultMaxNumSize = Ok (Z.of_nat (length sigs)))
    (Hle : (length sigs <= length keys <= 20)%nat)
    (Hcount : nOpCount st + Z.of_nat (length keys) <= MaxOpsPerScript)
    (Henc : Forall (fun x => CheckTransactionSignatureEncoding CheckLowS (read (hp st) x) flags = Ok tt) sigs)
    (Hkey : Forall (fun x => CheckPubKeyEncoding (read (hp st) x) flags = Ok tt) keys)
    (ok : bytes -> bytes -> bool)
    (Hok : forall x y, x ∈ sigs -> y ∈ keys ->
      CheckSig t (read (hp st) x) (read (hp st) y) (signed_code ops st sigs) nIn money flags
      = Ok (ok (read (hp st) x) (read (hp st) y))) :
  let run := exec_opcode grow t nIn money flags ops 0 true OP_CHECKMULTISIG st in
  let matched := exists keys', keys' `sublist_of` keys /\ Forall2 (fun s k => ok (read (hp st) s) (read (hp st) k) = true) sigs keys' in
  let nullfail := ~ matched /\ all_flag flags ScriptVerifyNullFail = true /\ Exists (fun x => slen x <> 0%nat) sigs in
  (nullfail -> exists st', run = (st', Err ScriptErrSigNullFail)) /\
  (~ nullfail -> all_flag flags ScriptVerifyNullDummy = true -> slen dummy <> 0%nat -> exists st', run = (st', Err ScriptErrSigNullDummy)) /\
  (~ nullfail -> all_flag flags ScriptVerifyNullDummy = false \/ slen dummy = 0%nat ->
   exists st' x, run = (st', Ok tt) /\ stack st' = rest ++ [x] /\ nOpCount st' = nOpCount st + Z.of_nat (length keys) /\
     (BytesToBool (read (hp st') x) = true <-> matched)).
Proof.
  intros run matched nullfail.
  destruct (op_checkmultisig_run grow t nIn money flags ops st rest dummy ns nk sigs keys Hstk Hnk Hns Hle Hcount Henc Hkey ok Hok) as (b & Hb & E).
  change (b = true <-> matched) in Hb. change (op_checkmultisig t nIn money flags ops OP_CHECKMULTISIG st) with run in E.
  destruct (multisig_end_run flags st rest dummy ns nk sigs keys Hstk Hle b) as (Hf & Hd & Hg). rw -E in Hf Hd Hg.
  assert ((b = false /\ all_flag flags ScriptVerifyNullFail = true /\ Exists (fun x => slen x <> 0%nat) sigs) <-> nullfail) as Hn by (unfold nullfail; rw -Hb; destruct b; naive_solver).
  rw Hn in Hf Hd Hg. split_and!; [done|done|]. intros Hnf Hdu. destruct (Hg Hnf Hdu) as (st' & x & Hr & Hs & Hc & Hx). exists st', x. split_and!; [done|done|done|]. rw Hx -Hb. by destruct b.
Qed.

(** A checker whose signatures are valid for the equal key. *)
Definition match_checker : Checker (H := toy_secp) := {|
  CheckLockTime := fun _ _ _ => false;
  CheckSequence := fun _ _ _ => false;
  CheckSig := fun _ sig key _ _ _ _ => Ok (bool_decide (sig = key));
  VerifySignature := fun _ _ _ => Ok false |}.
(** Two of three keys under NULLFAIL and NULLDUMMY, and the signatures in the wrong order. *)
Lemma CheckMultiSig_spec_witness :
  let x := fun i => mkSlice i 0 1 1 in
  let fl := ScriptVerifyNullFail .| ScriptVerifyNullDummy in
  let st := fun s1 s2 => mkIstate [[]; [1]; [2]; [3]] [mkSlice 0 0 0 0; x s1; x s2; x 2; x 1; x 2; x 3; x 3]%nat [] [] 0 0 in
  (exists st' y, exec_opcode (H0 := match_checker) toy_grow sample_tx 0 0 fl [] 0 true OP_CHECKMULTISIG (st 1 3)%nat = (st', Ok tt) /\
    stack st' = [y] /\ BytesToBool (read (hp st') y) = true) /\
  exists st', exec_opcode (H0 := match_checker) toy_grow sample_tx 0 0 fl [] 0 true OP_CHECKMULTISIG (st 3 1)%nat = (st', Err ScriptErrSigNullFail).
Proof.
  intros x fl st.
  split.
  - destruct (CheckMultiSig_spec (H0 := match_checker) toy_grow sample_tx 0 0 fl [] (st 1 3)%nat [] (mkSlice 0 0 0 0) (x 2%nat) (x 3%nat) [x 1; x 3]%nat [x 1; x 2; x 3]%nat
      eq_refl eq_refl eq_refl) with (ok := fun a b : bytes => bool_decide (a = b)) as (_ & _ & Hok); [vm_compute; lia|by vm_compute|by repeat constructor|by repeat constructor|by intros|].
    assert (exists keys', keys' `sublist_of` [x 1; x 2; x 3]%nat /\ Forall2 (fun s k => bool_decide (read (hp (st 1 3)%nat) s = read (hp (st 1 3)%nat) k) = true) [x 1; x 3]%nat keys') as Hm.
    { exists [x 1; x 3]%nat. split; [by apply sublist_skip, sublist_cons, sublist_skip, sublist_nil|by repeat constructor]. }
    destruct Hok as (st' & y & E & Es & _ & Hb); [by intros [Hn _]|by right|]. exists st', y. split_and!; [exact E|exact Es|by apply Hb].
  - destruct (CheckMultiSig_spec (H0 := match_checker) toy_grow sample_tx 0 0 fl [] (st 3 1)%nat [] (mkSlice 0 0 0 0) (x 2%nat) (x 3%nat) [x 3; x 1]%nat [x 1; x 2; x 3]%nat
      eq_refl eq_refl eq_refl) with (ok := fun a b : bytes => bool_decide (a = b)) as (Hf & _); [vm_compute; lia|by vm_compute|by repeat constructor|by repeat constructor|by intros|].
    apply Hf. split_and!; [|by vm_compute|by apply Exists_cons_hd].
    intros (keys' & Hsub & HF). inversion HF as [|? k1 ? l1 Hk1 HF1]; subst. inversion HF1 as [|? k2 ? l2 Hk2 HF2]; subst. inversion HF2; subst.
    repeat (match goal with Hs : _ `sublist_of` _ |- _ => inversion Hs; clear Hs; subst end); vm_compute in Hk1, Hk2; discriminate.
Defined.

(** ** Sharing of stack elements *)

(** A script without AND, OR, XOR, NUM2BIN and BIN2NUM leaves every
    array that existed before its evaluation unchanged: the elements of any other
    stack and the parsed opcodes of any other script read as before. *)
Theorem EvalScript_no_mutation `{Secp256k1} `{!Checker} `{Hashes} (grow : nat -> nat -> nat)
    (t : Tx) (nIn money flags : Z) (h : heap) (stk : list slice) (s : hscript)
    (Hs : Forall (fun e => in_place (OpValue e) = false) (hops s)) :
  let h' := (EvalScript grow t nIn money flags h stk s).1.1 in
  (forall x, wf_slice h x -> read h' x = read h x) /\
  (forall s', hscript_ok h s' -> view h' s' = view h s').
Proof.
  intros h'. assert (heap_ext h h') as Hx.
  { subst h'. unfold EvalScript. destruct (hbad s); [apply heap_ext_refl|]. destruct (_ <? _); [apply heap_ext_refl|].
    pose proof (extends_exec_loop grow t nIn money flags (hops s) (hops s) 0 Hs (mkIstate h stk [] [] 0 0)) as He.
    by destruct (exec_loop _ _ _ _ _ _ _ _ _). }
  split; [intros x; by apply read_ext|]. intros s' [Hw _ _]. unfold view. f_equal. apply map_ext_Forall.
  eapply Forall_impl; [exact Hw|]. intros e He. unfold read_op. by rw (read_ext h h').
Qed.

Lemma EvalScript_no_mutation_witness :
  let '(h, s1, s2) := load2 [1; 2] [OP_DUP; OP_0; OP_CAT; OP_EQUAL] in
  view (EvalScript (H0 := RealChecker) toy_grow sample_tx 0 0 0 h [] s2).1.1 s1 = view h s1.
Proof.
  pose proof (load2_ok [1; 2] [OP_DUP; OP_0; OP_CAT; OP_EQUAL]) as Hl.
  destruct (load2 _ _) as [[h s1] s2] eqn:El. destruct Hl as (_ & O1 & _ & _); [by apply (bool_decide_unpack _)..|].
  refine (proj2 (EvalScript_no_mutation (H0 := RealChecker) toy_grow sample_tx 0 0 0 h [] s2 _) s1 O1).
  vm_compute in El. injection El as _ _ <-. by repeat constructor.
Defined.

(** The elements of the stack share their arrays with the parsed opcodes of
    the script, and OP_AND writes into them: verifying the same script objects a
    second time gives another result. *)
Theorem VerifyScript_not_repeatable :
  let '(h, sig, pk) := load2 [] [1; 2; OP_DUP; OP_0; OP_CAT; OP_SWAP; 1; 0; OP_AND; OP_DROP] in
  let verify := fun h => VerifyScript (H0 := RealChecker) toy_grow sample_tx 0 0 h sig pk 0 in
  (verify h).2 = Ok tt /\ (verify (verify h).1).2 = Err ScriptErrEvalFalse.
Proof. vm_compute. by split. Qed.

(** ** OP_CHECKDATASIG *)

(** The error of ParsePubKey is ignored: with a public key that the library
    does not parse and cannot serialise, OP_CHECKDATASIG panics on every
    well-encoded non-empty signature. *)
Theorem CheckDataSig_bad_key `{Secp256k1} `{Hashes} (grow : nat -> nat -> nat) (t : Tx) (nIn money flags : Z)
    (ops : list (ParsedOpCode slice)) (i : Z) (st : istate) (rest : list slice) (sig msg key : slice)
    (Hflag : has_flag flags ScriptEnableCheckDataSig = true)
    (Hstk : stack st = rest ++ [sig; msg; key]) (Hsig : read (hp st) sig <> [])
    (Henc : CheckDataSignatureEncoding CheckLowS (read (hp st) sig) flags = Ok tt)
    (Hkey : CheckPubKeyEncoding (read (hp st) key) flags = Ok tt)
    (Hbad : forall c, EcPubkeySerialize (EcPubkeyParse (read (hp st) key)).1 c = None) :
  exec_opcode grow t nIn money flags ops i true OP_CHECKDATASIG st = (st, Panic).
Proof.
  assert (st = with_stack st (rest ++ [sig; msg; key])) as Est by (destruct st; simpl in *; by rw Hstk).
  change (op_checkdatasig flags OP_CHECKDATASIG st = (st, Panic)). unfold op_checkdatasig. rw Hflag. cbn [negb].
  rw {1}Est. repeat (erewrite run_bind; [|run_prim]). rw -Est.
  do 3 (erewrite run_bind; [|reflexivity]). erewrite run_bind; [|unfold lift; by rw Henc].
  erewrite run_bind; [|unfold lift; by rw Hkey]. unfold ParsePubKey. specialize (Hbad (IsCompressedPubKey (read (hp st) key))).
  destruct (EcPubkeyParse (read (hp st) key)) as [k okk]. unfold mbind at 1, interp_bind at 1. rw decide_False //.
  cbn [fst] in Hbad. assert (VerifySignature (read (hp st) sig) (mkPublicKey k (IsCompressedPubKey (read (hp st) key)))
    (Sha256 (read (hp st) msg)) = Panic) as ->; [|done].
  unfold VerifySignature, RealChecker, RealChecker_VerifySignature, PublicKey_Verify, PublicKey_isValid, ToBytes,
    SerializeCompressed, SerializeUncompressed. cbn [Compressed SecpPubKey].
  destruct (IsCompressedPubKey _); by rw Hbad.
Qed.

Lemma CheckDataSig_bad_key_witness :
  let x := fun i => mkSlice i 0 1 1 in
  let st := mkIstate [[1]; [2]; [3]] [x 0; x 1; x 2]%nat [] [] 0 0 in
  exec_opcode (H := no_key_secp) (H0 := RealChecker) toy_grow sample_tx 0 0 ScriptEnableCheckDataSig [] 0 true
    OP_CHECKDATASIG st = (st, Panic).
Proof.
  intros x st. apply (CheckDataSig_bad_key (H := no_key_secp)) with (rest := []) (sig := x 0%nat) (msg := x 1%nat) (key := x 2%nat);
    by vm_compute.
Defined.

(** ** Lock times *)

Lemma sequence_masked x : x .& (SequenceLockTimeTypeFlag .| SequenceLockTimeMask)
  = x mod 2 ^ 16 + (if Z.testbit x 22 then 2 ^ 22 else 0).
Proof.
  change SequenceLockTimeTypeFlag with (2 ^ 22). change SequenceLockTimeMask with (2 ^ 16 - 1).
  rw Z.land_lor_distr_r land_pow2_testbit // land_low // Z.lor_comm.
  pose proof (Z.mod_pos_bound x (2 ^ 16) ltac:(lia)) as Hm.
  assert (0 <= x mod 2 ^ 16 < 2 ^ 22) as Hm' by lia.
  pose proof (lor_shift_add (x mod 2 ^ 16) 1 22 ltac:(lia) Hm') as E. destruct (Z.testbit x 22); [exact E|by rw Z.lor_0_r Z.add_0_r].
Qed.

(** RealChecker enforces the two lock-time rules. An absolute lock time is
    met iff it and the transaction's are of the same kind (block height below
    500000000, time stamp from there on), the transaction's is at least as late,
    and the input is not final. A relative one is met iff the transaction has
    version 2, the input does not disable the rule (bit 31), both count the same
    unit (bit 22) and the low 16 bits of the input's sequence are at least those
    asked for, whatever the other bits are. *)
Theorem RealChecker_locks :
  (forall lockTime txLockTime sequence,
    RealChecker_CheckLockTime lockTime txLockTime sequence = true <->
    (txLockTime < 500000000 <-> lockTime < 500000000) /\ lockTime <= txLockTime /\ sequence <> 2 ^ 32 - 1) /\
  (forall sequence txToSequence txVersion,
    RealChecker_CheckSequence sequence txToSequence txVersion = true <->
    2 <= txVersion /\ Z.testbit txToSequence 31 = false /\
    Z.testbit txToSequence 22 = Z.testbit sequence 22 /\ sequence mod 2 ^ 16 <= txToSequence mod 2 ^ 16).
Proof.
  split.
  - intros l tl sq. unfold RealChecker_CheckLockTime, LockTimeThreshold, SequenceFinal. repeat case_match; split; try done; lia.
  - intros s ts v. unfold RealChecker_CheckSequence. cbv zeta. rw !sequence_masked.
    change SequenceLockTimeDisableFlag with (2 ^ 31). rw land_pow2_eqb //. change SequenceLockTimeTypeFlag with (2 ^ 22).
    pose proof (Z.mod_pos_bound s (2 ^ 16) ltac:(lia)). pose proof (Z.mod_pos_bound ts (2 ^ 16) ltac:(lia)).
    destruct (Z.testbit ts 31), (Z.testbit ts 22), (Z.testbit s 22); repeat case_match; split; try done; try lia;
      intros (? & ? & ? & ?); done.
Qed.
