(* ===== verification/Ltx.v ===== *)
(** * Checking and applying the transactions of a block (logic/ltx/ltx.go)

    What the code reads of the active chain is the record [ChainView].  The
    scripts of a transaction are verified by worker goroutines that take jobs from
    a channel and send the results to another; the order in which the results
    arrive is a parameter ([drain]).  Every job is loaded into a heap of its own:
    no two inputs share a script object. *)
From S2P Require Import Prelude Errors Wire ScriptNum Opcodes Script ScriptFacts Tx TxFacts Crypto Compress Coins Block Undo.
From S2P Require Import Stack Slice Interp.

(** ** Constants *)
Definition MandatoryScriptVerifyFlags : Z :=
  ScriptVerifyP2SH .| ScriptVerifyStrictEnc .| ScriptEnableSigHashForkID .| ScriptVerifyLowS .| ScriptVerifyNullFail.
Definition StandardScriptVerifyFlags : Z :=
  MandatoryScriptVerifyFlags .| ScriptVerifyDersig .| ScriptVerifyLowS .| ScriptVerifyNullDummy .|
  ScriptVerifySigPushOnly .| ScriptVerifyMinmalData .| ScriptVerifyDiscourageUpgradableNops .|
  ScriptVerifyCleanStack .| ScriptVerifyCheckLockTimeVerify .| ScriptVerifyCheckSequenceVerify .| ScriptVerifyNullFail.
Definition StandardNotMandatoryVerifyFlags : Z := Z.ldiff StandardScriptVerifyFlags MandatoryScriptVerifyFlags.
Definition LocktimeVerifySequence : Z := 1.
Definition CoinbaseMaturity : Z := 100.
Definition MinTxSize : Z := 100.
Definition OneMegaByte : Z := 1000000.
Definition MaxBlockSigopsPerMb : Z := 20000.
Definition SequenceLockTimeGranularity : Z := 9.
Definition MaxScriptVerifyJobNum : nat := Z.to_nat 50000.

Definition GetMaxBlockSigOpsCount (blockSize : Z) : option Z :=
  if blockSize <? 1 then None
  else Some (u64 ((1 + (blockSize - 1) / OneMegaByte) * MaxBlockSigopsPerMb)).

(** ** Network parameters the checks read *)
Record NetParams := {
  BIP34Height : Z;
  MagneticAnomalyActivationTime : Z;
  Args_MagneticAnomalyTime : Z;
  SubsidyReductionInterval : Z }.
Definition IsMagneticAnomalyEnabled (p : NetParams) (medianTimePast : Z) : bool :=
  (if 0 <? Args_MagneticAnomalyTime p then Args_MagneticAnomalyTime p else MagneticAnomalyActivationTime p)
  <=? medianTimePast.
Definition GetBlockSubsidy (height : Z) (p : NetParams) : Z :=
  let halvings := Z.quot height (SubsidyReductionInterval p) in
  if 64 <=? halvings then 0 else i64 (u64 (50 * COIN) .>> u64 halvings).

(** ** The active chain *)
Record ChainView := {
  cv_Height : Z;
  cv_TipMTP : Z;
  (** the median time past of the block at a height; [None] for a nil block index *)
  cv_AncestorMTP : Z -> option Z;
  cv_GetSpendHeight : option bytes -> Z }.

Section Ltx.
Context `{Secp256k1} `{LruCache} `{Hashes}.
Context (grow : nat -> nat -> nat) (drain : list (option TxErr) -> list (option TxErr)).
Context (p : NetParams) (cv : ChainView).

(** ** Context-free checks of a block's transactions *)
Fixpoint check_block_txs (maxBlockSigOps sigOps : Z) (seen : gset OutPoint) (l : list Tx) : res TxErr unit :=
  match l with
  | [] => Ok tt
  | t :: l =>
      n ← GetSigOpCountWithoutP2SH t StandardScriptVerifyFlags;
      let sigOps := sigOps + n in
      if maxBlockSigOps <? u64 sigOps then Err (RejectInvalid "bad-blk-sigops")
      else
        seen ← CheckRegularTransactionWhenNewBlock t seen;
        check_block_txs maxBlockSigOps sigOps seen l
  end.
Definition CheckBlockTransactions (txs : list Tx) (maxBlockSigOps : Z) : res TxErr unit :=
  match txs with
  | [] => Err (RejectInvalid "bad-cb-missing")
  | cb :: rest =>
      CheckCoinbaseTransaction cb;;
      sigOps ← GetSigOpCountWithoutP2SH cb StandardScriptVerifyFlags;
      check_block_txs maxBlockSigOps sigOps ∅ rest
  end.

(** ** Checks that depend on the height and the time *)
Definition contextureCheckBlockCoinBaseTransaction (t : Tx) (blockHeight : Z) : res TxErr unit :=
  if BIP34Height p <? blockHeight then
    i ← nth_go (ins t) 0;
    match PushScriptNum NewEmptyScript blockHeight with
    | Ok heightScript =>
        if Size (scriptSig i) <? Size heightScript then Err (RejectInvalid "bad-cb-height")
        else if negb (bool_decide (take (length (data heightScript)) (data (scriptSig i)) = data heightScript))
        then Err (RejectInvalid "bad-cb-height")
        else Ok tt
    | _ => Panic
    end
  else Ok tt.
Definition ContextualCheckTransaction (t : Tx) (nBlockHeight nLockTimeCutoff mediaTimePast : Z) : res TxErr unit :=
  if negb (IsFinal t nBlockHeight nLockTimeCutoff) then Err (RejectInvalid "bad-txns-nonfinal")
  else if IsMagneticAnomalyEnabled p mediaTimePast then
    size ← Tx_EncodeSize t;
    if size <? MinTxSize then Err (RejectInvalid "bad-txns-undersize") else Ok tt
  else Ok tt.
(** Transaction ids are compared as numbers. *)
Fixpoint contexture_txs (blockHeight blockLockTime mediaTimePast : Z) (prevTx : option Tx) (l : list Tx) : res TxErr unit :=
  match l with
  | [] => Ok tt
  | t :: l =>
      let magnetic := IsMagneticAnomalyEnabled p mediaTimePast in
      let unordered := match prevTx with
                       | Some q => le_val (txid Sha256 t) <? le_val (txid Sha256 q)
                       | None => false end in
      if magnetic && unordered then Err (PlainError "bad-ordering")
      else
        let prevTx := if magnetic && (match prevTx with Some _ => true | None => negb (IsCoinBase t) end)
                      then Some t else prevTx in
        ContextualCheckTransaction t blockHeight blockLockTime mediaTimePast;;
        contexture_txs blockHeight blockLockTime mediaTimePast prevTx l
  end.
Definition ContextureCheckBlockTransactions (txs : list Tx) (blockHeight blockLockTime mediaTimePast : Z)
  : res TxErr unit :=
  match txs with
  | [] => Err (RejectInvalid "")
  | cb :: _ =>
      contextureCheckBlockCoinBaseTransaction cb blockHeight;;
      contexture_txs blockHeight blockLockTime mediaTimePast None txs
  end.

(** ** Signature operations *)
Fixpoint p2sh_sigops {E} (flags n : Z) (cm : CoinsMap) (l : list TxIn) : res E Z :=
  match l with
  | [] => Ok n
  | i :: l =>
      coin ← deref (cm !! PreviousOutPoint i);
      s ← deref (scriptPubKey (coin_txOut coin));
      if IsPayToScriptHash s then
        k ← GetPubKeyP2SHSigOpCount s flags (scriptSig i);
        p2sh_sigops flags (n + k) cm l
      else p2sh_sigops flags n cm l
  end.
Definition getP2SHSigOpCount {E} (t : Tx) (flags : Z) (cm : CoinsMap) : res E Z :=
  if negb (has_flag flags ScriptVerifyP2SH) || IsCoinBase t then Ok 0 else p2sh_sigops flags 0 cm (ins t).
Definition GetTransactionSigOpCount {E} (t : Tx) (flags : Z) (cm : CoinsMap) : res E Z :=
  a ← GetSigOpCountWithoutP2SH t flags; b ← getP2SHSigOpCount t flags cm; Ok (i64 (a + b)).

(** ** Relative lock times (BIP 68) *)

(** The loop over the inputs with the heights of their coins. *)
Fixpoint lock_pair {E} (l : list (TxIn * Z)) (maxHeight maxTime : Z) : res E (Z * Z) :=
  match l with
  | [] => Ok (maxHeight, maxTime)
  | (e, coinHeight) :: l =>
      if Sequence e .& SequenceLockTimeDisableFlag =? SequenceLockTimeDisableFlag
      then lock_pair l maxHeight maxTime
      else if Sequence e .& SequenceLockTimeTypeFlag =? SequenceLockTimeTypeFlag then
        coinTime ← deref (cv_AncestorMTP cv (i32 (coinHeight - 1)));
        let expireTime := i64 (coinTime + ((Sequence e .& SequenceLockTimeMask) .<< SequenceLockTimeGranularity) - 1) in
        lock_pair l maxHeight (if maxTime <? expireTime then expireTime else maxTime)
      else
        let expireHeight := i32 (coinHeight + (i32 (Sequence e) .& SequenceLockTimeMask) - 1) in
        lock_pair l (if maxHeight <? expireHeight then expireHeight else maxHeight) maxTime
  end.
Definition calculateSequenceLockPair {E} (t : Tx) (preHeight : list Z) (flags : Z) : res E (Z * Z) :=
  if (2 <=? version t) && all_flag flags LocktimeVerifySequence then lock_pair (zip (ins t) preHeight) (-1) (-1)
  else Ok (-1, -1).
Fixpoint coin_heights {E} (cm : CoinsMap) (l : list TxIn) : res E (list Z) :=
  match l with
  | [] => Ok []
  | i :: l => c ← deref (cm !! PreviousOutPoint i); hs ← coin_heights cm l; Ok (coin_height c :: hs)
  end.
Definition CalculateSequenceLocks {E} (t : Tx) (cm : CoinsMap) (flags : Z) : res E (Z * Z) :=
  hs ← coin_heights cm (ins t); calculateSequenceLockPair t hs flags.
Definition CheckSequenceLocks (height time : Z) : bool :=
  negb ((i32 (cv_Height cv + 1) <=? height) || (cv_TipMTP cv <=? time)).

(** ** Inputs *)
Fixpoint inputs_value (cm : CoinsMap) (spendHeight nValue : Z) (l : list TxIn) : res TxErr Z :=
  match l with
  | [] => Ok nValue
  | e :: l =>
      coin ← deref (cm !! PreviousOutPoint e);
      if coin_isCoinBase coin && (i32 (spendHeight - coin_height coin) <? CoinbaseMaturity)
      then Err (RejectInvalid "bad-txns-premature-spend-of-coinbase")
      else if negb (MoneyRange (value (coin_txOut coin)))
      then Err (RejectInvalid "bad-txns-inputvalues-outofrange")
      else
        let nValue := i64 (nValue + value (coin_txOut coin)) in
        if negb (MoneyRange nValue) then Err (RejectInvalid "bad-txns-inputvalues-outofrange")
        else inputs_value cm spendHeight nValue l
  end.
Definition CheckInputsMoney (t : Tx) (cm : CoinsMap) (spendHeight : Z) : res TxErr unit :=
  nValue ← inputs_value cm spendHeight 0 (ins t);
  out ← GetValueOut t;
  if nValue <? out then Err (RejectInvalid "bad-txns-in-belowout")
  else if negb (MoneyRange (i64 (nValue - out))) then Err (RejectInvalid "bad-txns-fee-outofrange")
  else Ok tt.

(** One job of a worker: the result is nil or the error to report. *)
Definition checkScript (t : Tx) (scriptSig scriptPubKey : Script) (nIn amount flags : Z) : res TxErr (option TxErr) :=
  let '(h, sig) := load [] scriptSig in
  let '(h, pk) := load h scriptPubKey in
  let '(h, err1) := VerifyScript grow t nIn amount h sig pk flags in
  match err1 with
  | Ok _ => Ok None
  | Panic => Panic
  | Err e =>
      if has_flag flags StandardNotMandatoryVerifyFlags then
        match (VerifyScript grow t nIn amount h sig pk (Z.ldiff flags StandardNotMandatoryVerifyFlags)).2 with
        | Ok _ => Ok (Some (NonMandatoryScriptVerify e))
        | Err _ => Ok (Some (MandatoryScriptVerify e))
        | Panic => Panic
        end
      else Ok (Some (MandatoryScriptVerify e))
  end.
(** The jobs of one batch, numbered from [index]. *)
Fixpoint run_jobs (t : Tx) (cm : CoinsMap) (flags index : Z) (l : list TxIn) : res TxErr (list (option TxErr)) :=
  match l with
  | [] => Ok []
  | i :: l =>
      coin ← deref (cm !! PreviousOutPoint i);
      s ← deref (scriptPubKey (coin_txOut coin));
      r ← checkScript t (scriptSig i) s index (value (coin_txOut coin)) flags;
      rs ← run_jobs t cm flags (index + 1) l;
      Ok (r :: rs)
  end.
(** The first error that arrives. *)
Fixpoint first_error (l : list (option TxErr)) : option TxErr :=
  match l with [] => None | Some e :: _ => Some e | None :: l => first_error l end.
Fixpoint check_batches (batches : nat) (t : Tx) (cm : CoinsMap) (flags index : Z) (l : list TxIn) : res TxErr unit :=
  match batches with
  | O => Ok tt
  | S batches =>
      rs ← run_jobs t cm flags index (take MaxScriptVerifyJobNum l);
      match first_error (drain rs) with
      | Some e => Err e
      | None => check_batches batches t cm flags (index + Z.of_nat MaxScriptVerifyJobNum) (drop MaxScriptVerifyJobNum l)
      end
  end.
(** *** The script objects after the jobs *)
(** The interpreter writes into the arrays of the parsed opcodes, so a job may leave the
    two script objects changed. *)
Definition scripts_after (t : Tx) (scriptSig scriptPubKey : Script) (nIn amount flags : Z) : Script * Script :=
  let '(h, sig) := load [] scriptSig in
  let '(h, pk) := load h scriptPubKey in
  let '(h, err1) := VerifyScript grow t nIn amount h sig pk flags in
  let h := match err1 with
           | Err _ => if has_flag flags StandardNotMandatoryVerifyFlags
                      then (VerifyScript grow t nIn amount h sig pk (Z.ldiff flags StandardNotMandatoryVerifyFlags)).1 else h
           | _ => h
           end in
  (view h sig, view h pk).
Definition with_scriptPubKey (coin : Coin) (s : Script) : Coin :=
  mkCoin (mkTxOut (value (coin_txOut coin)) (Some s)) (coin_height coin) (coin_isCoinBase coin) (coin_dirty coin) (coin_fresh coin) (coin_isMempoolCoin coin).
(** The inputs and the coins after the jobs of one batch. *)
Fixpoint jobs_after (t : Tx) (cm : CoinsMap) (flags index : Z) (l : list TxIn) : list TxIn * CoinsMap :=
  match l with
  | [] => ([], cm)
  | i :: l =>
      let '(i', cm) := match cm !! PreviousOutPoint i with
        | Some coin => match scriptPubKey (coin_txOut coin) with
            | Some s => let '(sig, pk) := scripts_after t (scriptSig i) s index (value (coin_txOut coin)) flags in
                        (mkTxIn (PreviousOutPoint i) sig (Sequence i), <[PreviousOutPoint i := with_scriptPubKey coin pk]> cm)
            | None => (i, cm)
            end
        | None => (i, cm)
        end in
      let '(l, cm) := jobs_after t cm flags (index + 1) l in (i' :: l, cm)
  end.
(** All jobs of a batch are done; after a batch with an error there is no other. *)
Fixpoint batches_after (batches : nat) (t : Tx) (cm : CoinsMap) (flags index : Z) (l : list TxIn) : list TxIn * CoinsMap :=
  match batches with
  | O => (l, cm)
  | S batches =>
      let rest := drop MaxScriptVerifyJobNum l in
      let '(l1, cm1) := jobs_after t cm flags index (take MaxScriptVerifyJobNum l) in
      match run_jobs t cm flags index (take MaxScriptVerifyJobNum l) with
      | Ok rs => match first_error (drain rs) with
          | Some _ => (l1 ++ rest, cm1)
          | None => let '(l2, cm2) := batches_after batches t cm1 flags (index + Z.of_nat MaxScriptVerifyJobNum) rest in (l1 ++ l2, cm2)
          end
      | _ => (l1 ++ rest, cm1)
      end
  end.
(** The transaction and its coins after a checkInputs that came to the scripts. *)
Definition inputs_after (t : Tx) (cm : CoinsMap) (flags : Z) : Tx * CoinsMap :=
  let n := length (ins t) in
  let '(l, cm) := batches_after (Nat.div n MaxScriptVerifyJobNum + (if decide (n mod MaxScriptVerifyJobNum = 0)%nat then 0 else 1))%nat t cm flags 0 (ins t) in
  (mkTx (hash t) (lockTime t) (version t) l (outs t), cm).

Definition checkInputs (t : Tx) (cm : CoinsMap) (st : CoinsLruCache) (flags : Z) : res TxErr CoinsLruCache :=
  '(bestBlockHash, st) ← GetBestBlock st;
  let spendHeight := cv_GetSpendHeight cv bestBlockHash in
  if spendHeight =? -1 then Err (RejectInvalid "")
  else
    CheckInputsMoney t cm spendHeight;;
    let n := length (ins t) in
    check_batches (Nat.div n MaxScriptVerifyJobNum + (if decide (n mod MaxScriptVerifyJobNum = 0)%nat then 0 else 1))%nat
      t cm flags 0 (ins t);;
    Ok st.
Definition is_script_error (e : TxErr) : bool :=
  match e with MandatoryScriptVerify _ | NonMandatoryScriptVerify _ => true | _ => false end.

(** ** Applying a block *)

(** BIP 30: no output of the block exists already. *)
Fixpoint bip30_outs (h : bytes) (n : nat) (i : Z) (st : CoinsLruCache) : res TxErr CoinsLruCache :=
  match n with
  | O => Ok st
  | S n =>
      '(have, st) ← HaveCoin st (mkOutPoint h (u32 i));
      if (have : bool) then Err (RejectInvalid "bad-txns-BIP30") else bip30_outs h n (i + 1) st
  end.
Fixpoint bip30_txs (l : list Tx) (st : CoinsLruCache) : res TxErr CoinsLruCache :=
  match l with
  | [] => Ok st
  | t :: l => st ← bip30_outs (txid Sha256 t) (length (outs t)) 0 st; bip30_txs l st
  end.

(** The first loop: the coins that may be spent out of order. *)
Fixpoint early_coins (magnetic : bool) (flags blockHeight : Z) (l : list Tx) (sigOps : Z) (cm : CoinsMap)
  : res TxErr (Z * CoinsMap) :=
  match l with
  | [] => Ok (sigOps, cm)
  | t :: l =>
      sigOps ← (if IsCoinBase t then n ← GetSigOpCountWithoutP2SH t flags; Ok (sigOps + n) else Ok sigOps);
      cm ← (if magnetic || IsCoinBase t then TxAddCoins Sha256 t cm blockHeight else Ok cm);
      early_coins magnetic flags blockHeight l sigOps cm
  end.

(** Every input has an unspent coin, which is now in [cm]. *)
Fixpoint fetch_ins (l : list TxIn) (cm : CoinsMap) (st : CoinsLruCache) : res TxErr (CoinsMap * CoinsLruCache) :=
  match l with
  | [] => Ok (cm, st)
  | i :: l =>
      '(coin, cm, st) ← FetchCoin cm st (PreviousOutPoint i);
      if match coin with None => true | Some c => IsSpent c end
      then Err (RejectInvalid "bad-txns-inputs-missingorspent")
      else fetch_ins l cm st
  end.

Record apply_state := mkApply {
  ap_cm : CoinsMap;
  ap_st : CoinsLruCache;
  ap_sigOps : Z;
  ap_fees : Z;
  ap_undo : BlockUndo }.

(** One round of the second loop, for a transaction that is not a coinbase. *)
Definition apply_tx (magnetic needCheckScript : bool) (flags blockHeight blockMaxSigOpsCount lockTimeFlags : Z)
    (t : Tx) (a : apply_state) : res TxErr apply_state :=
  '(cm, st) ← fetch_ins (ins t) (ap_cm a) (ap_st a);
  '(coinHeight, coinTime) ← CalculateSequenceLocks t cm lockTimeFlags;
  if negb (CheckSequenceLocks coinHeight coinTime) then Err (RejectInvalid "bad-txns-nonfinal")
  else
    sigsCount ← GetTransactionSigOpCount t flags cm;
    if MaxTxSigOpsCounts <? sigsCount then Err (RejectInvalid "bad-txn-sigops")
    else
      let sigOps := ap_sigOps a + sigsCount in
      if i64 blockMaxSigOpsCount <? sigOps then Err (RejectInvalid "bad-blk-sigops")
      else
        valueIn ← GetValueIn cm t;
        valueOut ← GetValueOut t;
        let fees := i64 (ap_fees a + i64 (valueIn - valueOut)) in
        st ← (if needCheckScript then
                match checkInputs t cm st flags with
                | Ok st => Ok st
                | Err e => Err (if is_script_error e then RejectInvalid "blk-bad-inputs" else e)
                | Panic => Panic
                end
              else Ok st);
        '(cm, undo) ← TxSpendCoins t cm;
        cm ← (if magnetic then Ok cm else TxAddCoins Sha256 t cm blockHeight);
        Ok (mkApply cm st sigOps fees (ap_undo a ++ [undo])).
Fixpoint apply_txs (magnetic needCheckScript : bool) (flags blockHeight blockMaxSigOpsCount lockTimeFlags : Z)
    (l : list Tx) (a : apply_state) : res TxErr apply_state :=
  match l with
  | [] => Ok a
  | t :: l =>
      a ← (if IsCoinBase t then Ok a
           else apply_tx magnetic needCheckScript flags blockHeight blockMaxSigOpsCount lockTimeFlags t a);
      apply_txs magnetic needCheckScript flags blockHeight blockMaxSigOpsCount lockTimeFlags l a
  end.

(** The coins and undo data of the block, and the cache after the reads;
    [pindexMTP] is the median time past of the block's index. *)
Definition ApplyBlockTransactions (txs : list Tx) (bip30Enable : bool) (scriptCheckFlags : Z) (needCheckScript : bool)
    (blockSubSidy blockHeight blockMaxSigOpsCount lockTimeFlags pindexMTP : Z) (st : CoinsLruCache)
  : res TxErr (CoinsMap * BlockUndo * CoinsLruCache) :=
  st ← (if bip30Enable then bip30_txs txs st else Ok st);
  match txs with
  | [] => Panic
  | cb :: _ =>
      let magnetic := IsMagneticAnomalyEnabled p pindexMTP in
      '(sigOps, cm) ← early_coins magnetic scriptCheckFlags blockHeight txs 0 ∅;
      a ← apply_txs magnetic needCheckScript scriptCheckFlags blockHeight blockMaxSigOpsCount lockTimeFlags txs
            (mkApply cm st sigOps 0 []);
      out ← GetValueOut cb;
      if i64 (ap_fees a + blockSubSidy) <? out then Err (RejectInvalid "bad-cb-amount")
      else Ok (ap_cm a, ap_undo a, ap_st a)
  end.
End Ltx.
