(* ===== verification/ConnectFacts.v ===== *)
(** * Connecting and disconnecting a block are inverse on the UTXO set

    What ApplyBlockTransactions and ApplyBlockUndo do to the map of coins that the
    layers of package utxo represent. *)
From S2P Require Import Prelude Errors Wire ScriptNum Opcodes Script ScriptFacts Tx TxFacts Crypto Compress Coins CoinsFacts Block Undo.
From S2P Require Import Stack Slice Interp Ltx.

(** ** Undo data on disk *)
(** A coin as it comes back from the undo file. *)
Definition undo_coin (c : Coin) : Coin := mkCoin (coin_txOut c) (coin_height c) (coin_isCoinBase c) false true false.

Lemma write_all_ok {A} (f : A -> res werr bytes) (l : list A) : (forall x, x ∈ l -> exists b, f x = Ok b) ->
  exists bs, Forall2 (fun x b => f x = Ok b) l bs /\ write_all f l = Ok (concat bs).
Proof.
  induction l as [|x l IH]; intros Hl; cbn [write_all]; [by exists []|].
  destruct (Hl x) as [b Hb]; [by left|]. destruct IH as (bs & F & E); [intros y Hy; apply Hl; by right|].
  exists (b :: bs). split; [by constructor|]. rw Hb. cbn [mbind res_bind]. rw E. done.
Qed.
Lemma rd_times_all {A B} (f : A -> res werr bytes) (g : rd werr B) (k : A -> B) l bs r :
  Forall2 (fun x b => f x = Ok b) l bs ->
  (forall x b r, x ∈ l -> f x = Ok b -> g (b ++ r) = Ok (k x, r)) ->
  rd_times (length l) g (concat bs ++ r) = Ok (map k l, r).
Proof.
  induction 1 as [|x b l bs Hb _ IH]; intros Hg; [done|]. cbn [length rd_times concat map]. app_right.
  erewrite rd_bind_ok; [|apply Hg; [by left|done]]. erewrite rd_bind_ok; [done|]. apply IH. intros y b' r' Hy. apply Hg. by right.
Qed.

Section UndoCodec.
Context `{Secp256k1} `{!SecpCompression}.

Lemma TxUndo_roundtrip tu : Forall storable tu -> Z.of_nat (length tu) <= MaxInputPerTx ->
  exists b, TxUndo_Serialize tu = Ok b /\ forall r, TxUndo_Unserialize (b ++ r) = Ok (map undo_coin tu, r).
Proof.
  intros Hs Hn. assert (forall c, c ∈ tu -> exists b, Coin_Serialize c = Ok b) as Hc.
  { intros c Hin. rw Forall_forall in Hs. destruct (Coin_roundtrip c NewFreshEmptyCoin (Hs c Hin) eq_refl) as (b & ? & _). eauto. }
  destruct (write_all_ok _ _ Hc) as (bs & HF & E). unfold TxUndo_Serialize. rw E. eexists. split; [done|]. intros r. app_right.
  assert (MaxInputPerTx < 2 ^ 32) as Hmax by done. unfold TxUndo_Unserialize.
  erewrite rd_bind_ok; [|apply ReadVarInt_write; int_lia].
  destruct (_ <? _) eqn:El; [lia|]. rw Nat2Z.id. apply (rd_times_all Coin_Serialize); [done|].
  intros c b r' Hin Hb. rw Forall_forall in Hs. destruct (Coin_roundtrip c NewFreshEmptyCoin (Hs c Hin) eq_refl) as (b' & Hb' & Hr).
  rw Hb in Hb'. injection Hb' as <-. apply Hr.
Qed.

Lemma BlockUndo_roundtrip bu : Forall (fun tu => Forall storable tu /\ Z.of_nat (length tu) <= MaxInputPerTx) bu ->
  8 * Z.of_nat (length bu) <= maxAlloc ->
  exists b, BlockUndo_Serialize bu = Ok b /\ BlockUndo_Unserialize b = Ok (map (map undo_coin) bu, []).
Proof.
  intros Hs Hn. unfold maxAlloc in Hn. rw Forall_forall in Hs.
  assert (forall tu, tu ∈ bu -> exists b, TxUndo_Serialize tu = Ok b) as Hc.
  { intros tu Hin. destruct (Hs tu Hin) as [H1 H2]. destruct (TxUndo_roundtrip tu H1 H2) as (b & ? & _). eauto. }
  destruct (write_all_ok _ _ Hc) as (bs & HF & E).
  destruct (EncodeVarLenInt_total (Z.of_nat (length bu))) as [l Hl]; [int_lia|].
  exists (l ++ concat bs). unfold BlockUndo_Serialize, WriteVarLenInt. rw Hl. cbn [mbind res_bind]. rw E. split; [done|].
  unfold BlockUndo_Unserialize. erewrite rd_bind_ok; [|eapply ReadVarLenInt_encode; [|exact Hl]; int_lia].
  unfold maxAlloc. destruct (_ <? _) eqn:El; [lia|]. rw Nat2Z.id -(app_nil_r (concat bs)). apply (rd_times_all TxUndo_Serialize); [done|].
  intros tu b r' Hin Hb. destruct (Hs tu Hin) as [H1 H2]. destruct (TxUndo_roundtrip tu H1 H2) as (b' & Hb' & Hr).
  rw Hb in Hb'. injection Hb' as <-. apply Hr.
Qed.
End UndoCodec.

(** ** The coins of a block *)
Definition coin_of (out : TxOut) (height : Z) (cb : bool) : Coin := mkCoin out height cb false false false.
(** The coins of the spendable outputs from number [idx] on. *)
Fixpoint add_coins (h : bytes) (height : Z) (cb : bool) (idx : Z) (l : list TxOut) (M : gmap OutPoint Coin) : gmap OutPoint Coin :=
  match l with
  | [] => M
  | out :: l =>
      add_coins h height cb (idx + 1) l
        (if TxOut_IsSpendable out then <[mkOutPoint h idx := coin_of out height cb]> M else M)
  end.
Definition out_ok (o : TxOut) : Prop := (exists d, scriptPubKey o = Some (NewScriptRaw d)) /\ 0 <= value o < 2 ^ 60.

Lemma add_coins_lookup h height cb l : forall idx M op, 
  add_coins h height cb idx l M !! op =
    match (if bool_decide (Hash op = h) && (idx <=? Index op) then l !! Z.to_nat (Index op - idx) else None) with
    | Some out => if TxOut_IsSpendable out then Some (coin_of out height cb) else M !! op
    | None => M !! op
    end.
Proof.
  induction l as [|out l IH]; intros idx M op; cbn [add_coins].
  { rw lookup_nil. by destruct (_ && _). }
  rw IH. destruct op as [h' j]. cbn [Hash Index]. case_bool_decide as Hh; cbn [andb].
  - subst h'. destruct (Z.leb_spec (idx + 1) j); destruct (Z.leb_spec idx j); try lia.
    + replace (Z.to_nat (j - idx)) with (S (Z.to_nat (j - (idx + 1)))) by lia. cbn.
      assert (forall b : bool, (if b then <[mkOutPoint h idx := coin_of out height cb]> M else M) !! mkOutPoint h j = M !! mkOutPoint h j) as Hb.
      { intros []; [|done]. rw lookup_insert_ne //. intros [= ?]. lia. }
      by rw Hb.
    + assert (j = idx) as -> by lia. rw Z.sub_diag /=. destruct (TxOut_IsSpendable out); [by rw lookup_insert_eq|done].
    + destruct (TxOut_IsSpendable out); [|done]. rw lookup_insert_ne //. intros [= ?]. lia.
  - destruct (TxOut_IsSpendable out); [|done]. rw lookup_insert_ne //. intros [= ?]. congruence.
Qed.

Section Connect.
Context `{Secp256k1} `{!SecpCompression} `{LruCache} `{!LruLaws}.
Context (T : gset OutPoint) (HT : (size T <= lru_capacity)%nat).
Context (U : gmap OutPoint Coin) (height : Z) (Hheight : 0 < height < 2 ^ 30).
Abbreviation cmrep := (cm_rep T).

Lemma add_outs_rep {E} st h cb l : forall idx cm V, cmrep st U cm V -> length h = 32%nat -> bytes_ok h ->
  0 <= idx -> idx + Z.of_nat (length l) <= 2 ^ 32 -> Forall out_ok l ->
  (forall j, U !! mkOutPoint h j = None) ->
  (forall j, 0 <= j < idx + Z.of_nat (length l) -> mkOutPoint h j ∈ T) ->
  exists cm', add_outs (E := E) h height cb idx l cm = Ok cm' /\ cmrep st U cm' (add_coins h height cb idx l V).
Proof.
  induction l as [|out l IH]; intros idx cm V Hcm Hl Hb Hi Hn Ho HU HopT; cbn [add_outs add_coins]; [by exists cm|].
  cbn [length] in Hn, HopT. apply Forall_cons in Ho as [[Hd Hv] Ho]. rw u32_id; last int_lia.
  assert (exists cm1, AddCoin (E := E) cm (mkOutPoint h idx) (NewFreshCoin out height cb) = Ok cm1 /\
    cmrep st U cm1 (if TxOut_IsSpendable out then <[mkOutPoint h idx := coin_of out height cb]> V else V)) as (cm1 & E1 & Hcm1).
  { destruct (TxOut_IsSpendable out) eqn:Es.
    - apply (AddCoin_rep T HT st U cm V (mkOutPoint h idx) (NewFreshCoin out height cb)); try done.
      + split_and!; [done|done|]. cbn. int_lia.
      + apply HopT. lia.
    - exists cm. split; [|done]. unfold AddCoin. rw DeepCopy_id //. unfold IsSpent, TxOut_IsNull, Coin_IsSpendable. cbn.
      rw Es. destruct (Z.eqb_spec (value out) (-1)); [lia|done]. }
  rw E1. cbn [mbind res_bind]. apply IH; try done; [lia|lia|]. intros j Hj. apply HopT. lia.
Qed.

Lemma FetchCoin_dom {E} cm st op c cm' st' : FetchCoin (E := E) cm st op = Ok (c, cm', st') -> dom cm ⊆ dom cm'.
Proof.
  unfold FetchCoin. destruct (cm !! op); [by intros [= _ <- _]|].
  destruct (GetCoin st op) as [[[c0|] s]|e|]; cbn [mbind res_bind]; [|by intros [= _ <- _]|done|done].
  destruct (IsSpent _); [done|]. intros [= _ <- _]. rw dom_insert. set_solver.
Qed.
Lemma SpendCoin_other {E} cm op r cm' : SpendCoin (E := E) cm op = Ok (r, cm') -> forall op', op <> op' -> cm' !! op' = cm !! op'.
Proof.
  unfold SpendCoin. intros Hs op' Hne. destruct (cm !! op) as [c|]; [|by injection Hs as _ <-].
  destruct (coin_fresh c); [destruct (coin_dirty c); [destruct (IsSpent c); [done|]|]|];
    injection Hs as _ <-; by rw ?lookup_insert_ne ?lookup_delete_ne.
Qed.
(** A coin that is visible is storable. *)
Lemma cm_visible st cm V op c v : cmrep st U cm V -> cm !! op = Some c -> V !! op = Some v -> storable c /\ plain c = v.
Proof.
  intros Hcm Hc HV. pose proof (cm_entry _ _ _ _ _ Hcm op) as He. rw Hc HV in He. by inversion He; subst.
Qed.

Lemma fetch_ins_rep l : forall cm st V cm' st', cache_ok T st U -> cmrep st U cm V ->
  Forall (fun i => wf_outpoint (PreviousOutPoint i) /\ PreviousOutPoint i ∈ T) l ->
  fetch_ins l cm st = Ok (cm', st') ->
  cache_ok T st' U /\ cmrep st' U cm' V /\ dom cm ⊆ dom cm' /\
  Forall (fun i => is_Some (V !! PreviousOutPoint i) /\ is_Some (cm' !! PreviousOutPoint i)) l.
Proof.
  induction l as [|i l IH]; intros cm st V cm' st' Hok Hcm Hl; cbn [fetch_ins]; [by intros [= <- <-]|].
  apply Forall_cons in Hl as [[Hw HiT] Hl].
  destruct (FetchCoin_rep (E := TxErr) T HT st U cm V (PreviousOutPoint i) Hok Hcm Hw HiT)
    as (st1 & cm1 & c & E1 & Hok1 & _ & Hcm1 & Hc & Hnone & Hsome).
  rw E1. cbn [mbind res_bind]. pose proof (FetchCoin_dom _ _ _ _ _ _ E1) as Hd1.
  destruct c as [c|]; [|done]. destruct (IsSpent c) eqn:Esp; [done|]. intros Hf.
  destruct (IH cm1 st1 V cm' st' Hok1 Hcm1 Hl Hf) as (Hok2 & Hcm2 & Hd2 & HF). split_and!; [done|done|set_solver|].
  constructor; [|done]. split.
  - destruct (V !! PreviousOutPoint i) as [v|]; [by eexists|]. by rw (Hnone eq_refl c eq_refl) in Esp.
  - apply elem_of_dom, Hd2, elem_of_dom. by exists c.
Qed.

Definition delete_all (l : list OutPoint) (V : gmap OutPoint Coin) : gmap OutPoint Coin := foldl (fun V op => delete op V) V l.

Lemma delete_all_lookup l : forall V op, delete_all l V !! op = if decide (op ∈ l) then None else V !! op.
Proof.
  induction l as [|o l IH]; intros V op; [case_decide as Hin; [by apply not_elem_of_nil in Hin|done]|].
  unfold delete_all in *. cbn [foldl]. rw IH. destruct (decide (op = o)) as [->|Hne].
  - rw lookup_delete_eq. destruct (decide (o ∈ o :: l)) as [|Hn]; [by destruct (decide _)|].
    exfalso. apply Hn. by left.
  - rw lookup_delete_ne //. destruct (decide (op ∈ l)) as [|Hn], (decide (op ∈ o :: l)) as [Hi|Hi]; try done.
    + exfalso. apply Hi. by right.
    + by apply elem_of_cons in Hi as [|].
Qed.

Lemma spend_ins_rep {E} st l : forall cm V u0, cmrep st U cm V -> NoDup (map PreviousOutPoint l) ->
  Forall (fun i => is_Some (V !! PreviousOutPoint i) /\ is_Some (cm !! PreviousOutPoint i)) l ->
  exists cm' us, spend_ins (E := E) l cm u0 = Ok (cm', u0 ++ us) /\ cmrep st U cm' (delete_all (map PreviousOutPoint l) V) /\
    Forall2 (fun i c => V !! PreviousOutPoint i = Some (plain c) /\ storable c) l us.
Proof.
  induction l as [|i l IH]; intros cm V u0 Hcm Hnd Hl; cbn [spend_ins].
  { exists cm, []. by rw app_nil_r. }
  cbn [map] in *. apply NoDup_cons in Hnd as [Hni Hnd]. apply Forall_cons in Hl as [[[v Hv] [c Hc]] Hl].
  destruct (cm_visible st cm V _ c v Hcm Hc Hv) as [Hs Hp].
  destruct (SpendCoin_rep (E := E) T HT st U cm V (PreviousOutPoint i) v Hcm Hv ltac:(by eexists)) as (r & cm1 & E1 & Hcm1).
  assert (forall j, j ∈ l -> PreviousOutPoint i <> PreviousOutPoint j) as Hne.
  { intros j Hj Heq. apply Hni. rw Heq. apply list_elem_of_fmap. by exists j. }
  destruct (IH cm1 (delete (PreviousOutPoint i) V) (u0 ++ [c]) Hcm1 Hnd) as (cm' & us & E2 & Hcm2 & HF).
  { rw Forall_forall in Hl. apply Forall_forall. intros j Hj. specialize (Hne j Hj).
    rw lookup_delete_ne // (SpendCoin_other _ _ _ _ E1) //. by apply Hl. }
  exists cm', (c :: us). assert (AccessCoin cm (PreviousOutPoint i) = c) as -> by (unfold AccessCoin; by rw Hc).
  rw DeepCopy_id; last by apply sto_script. rw E1. cbn [mbind res_bind]. rw E2 -app_assoc. split_and!; [done|done|].
  constructor; [by rw Hp|]. clear -HF Hne. induction HF as [|j d l us [Hj Hd] _ IHF]; constructor.
  - split; [|done]. rw lookup_delete_ne // in Hj. apply Hne. by left.
  - apply IHF. intros k Hk. apply Hne. by right.
Qed.

(** *** The coins of whole transactions *)
Context `{Hashes}.
Abbreviation id := (txid Sha256).

Definition tx_coins (t : Tx) (M : gmap OutPoint Coin) : gmap OutPoint Coin :=
  add_coins (id t) height (IsCoinBase t) 0 (outs t) M.
Definition block_coins (l : list Tx) (M : gmap OutPoint Coin) : gmap OutPoint Coin := foldl (fun M t => tx_coins t M) M l.
Definition prevs (t : Tx) : list OutPoint := map PreviousOutPoint (ins t).

(** A transaction whose outpoints fit the cache and whose outputs are new. *)
Record conn_tx (t : Tx) : Prop := {
  ct_outs : Forall out_ok (outs t);
  ct_count : Z.of_nat (length (outs t)) <= 2 ^ 32;
  ct_id : length (id t) = 32%nat /\ bytes_ok (id t);
  ct_new j : U !! mkOutPoint (id t) j = None;
  ct_room j : 0 <= j < Z.of_nat (length (outs t)) -> mkOutPoint (id t) j ∈ T }.
Definition conn_ins (t : Tx) : Prop :=
  Forall (fun i => wf_outpoint (PreviousOutPoint i) /\ PreviousOutPoint i ∈ T) (ins t) /\ NoDup (prevs t).

Lemma tx_coins_other t M op : Hash op <> id t -> tx_coins t M !! op = M !! op.
Proof. intros Hne. unfold tx_coins. rw add_coins_lookup. by rw bool_decide_false. Qed.

Lemma TxAddCoins_rep {E} st cm V t : cmrep st U cm V -> conn_tx t ->
  exists cm', TxAddCoins (E := E) Sha256 t cm height = Ok cm' /\ cmrep st U cm' (tx_coins t V).
Proof.
  intros Hcm [Ho Hc [Hl Hb] Hn Hr]. by apply add_outs_rep.
Qed.

(** The coins of [t] are new in [M], so spending older ones commutes with adding them. *)
Lemma tx_coins_delete t I M : (forall op, op ∈ I -> is_Some (M !! op)) -> (forall j, M !! mkOutPoint (id t) j = None) ->
  tx_coins t (delete_all I M) = delete_all I (tx_coins t M).
Proof.
  intros HI Hn. apply map_eq. intros op. rw delete_all_lookup. destruct (decide (Hash op = id t)) as [Hh|Hh].
  - case_decide as Hin.
    + apply HI in Hin as [c Hc]. destruct op as [h j]. cbn in Hh. subst h. by rw Hn in Hc.
    + unfold tx_coins. rw !add_coins_lookup delete_all_lookup. by destruct (decide (op ∈ I)).
  - by rw !tx_coins_other // delete_all_lookup.
Qed.

(** *** The loops of ApplyBlockTransactions *)
Context (grow : nat -> nat -> nat) (drain : list (option TxErr) -> list (option TxErr)) (p : NetParams) (cv : ChainView).

(** The state of the cache without the hash of the best block. *)
Definition same_coins (st st' : CoinsLruCache) : Prop :=
  db st' = db st /\ cacheCoins st' = cacheCoins st /\ dirtyCoins st' = dirtyCoins st.
Lemma same_cache st st' : same_coins st st' -> cache_ok T st U -> cache_ok T st' U.
Proof. intros (H1' & H2' & H3') [A B C D]. by split; rw ?H1' ?H2' ?H3'. Qed.
Lemma same_cm st st' cm V : same_coins st st' -> cmrep st U cm V -> cmrep st' U cm V.
Proof. intros (H1' & H2' & H3') [A B C D]. by split; rw ?H2'. Qed.

Lemma GetBestBlock_same {E} st h st' : GetBestBlock (E := E) st = Ok (h, st') -> same_coins st st'.
Proof.
  unfold GetBestBlock. destruct (Hash_IsNull _); [|by intros [= _ <-]].
  destruct (CoinsDB_GetBestBlock _) as [[b|]|e|]; try done; by intros [= _ <-].
Qed.
Lemma checkInputs_same t cm st flags st' : checkInputs grow drain cv t cm st flags = Ok st' -> same_coins st st'.
Proof.
  unfold checkInputs. intros ([h s] & Hb & Hx)%res_bind_inv. apply GetBestBlock_same in Hb.
  destruct (_ =? -1); [done|]. apply res_bind_inv in Hx as (_ & _ & Hx). apply res_bind_inv in Hx as (_ & _ & Hx).
  by injection Hx as <-.
Qed.

(** [M] is the UTXO set with the coins added so far, [I] the outpoints spent so far. *)
Record applied (M : gmap OutPoint Coin) (I : list OutPoint) (a : apply_state) : Prop := {
  ap_cache : cache_ok T (ap_st a) U;
  ap_view : cmrep (ap_st a) U (ap_cm a) (delete_all I M);
  ap_spent op : op ∈ I -> is_Some (M !! op);
  ap_once : NoDup I }.
Definition undo_of (M : gmap OutPoint Coin) (t : Tx) (us : list Coin) : Prop :=
  Forall2 (fun i c => M !! PreviousOutPoint i = Some (plain c) /\ storable c) (ins t) us.

Lemma apply_tx_rep (magnetic check : bool) flags maxOps lockFlags t a a' M I :
  apply_tx grow drain cv magnetic check flags height maxOps lockFlags t a = Ok a' ->
  applied M I a -> IsCoinBase t = false -> conn_tx t -> conn_ins t ->
  (magnetic = false -> forall j, M !! mkOutPoint (id t) j = None) ->
  applied (if magnetic then M else tx_coins t M) (I ++ prevs t) a' /\
  exists us, ap_undo a' = ap_undo a ++ [us] /\ undo_of M t us.
Proof.
  intros Hap [Hok Hcm HI Hone] Hncb Hct [Hins Hnd] Hnew. unfold apply_tx in Hap.
  apply res_bind_inv in Hap as ([cm1 st1] & Hf & Hap). apply res_bind_inv in Hap as ([ch ct] & _ & Hap).
  destruct (negb _); [done|]. apply res_bind_inv in Hap as (n & _ & Hap). destruct (_ <? n); [done|].
  cbv zeta in Hap. destruct (_ <? _); [done|]. apply res_bind_inv in Hap as (vi & _ & Hap).
  apply res_bind_inv in Hap as (vo & _ & Hap). cbv zeta in Hap. apply res_bind_inv in Hap as (st2 & Hst & Hap).
  apply res_bind_inv in Hap as ([cm2 us] & Hsp & Hap). apply res_bind_inv in Hap as (cm3 & Had & Hap). injection Hap as <-.
  destruct (fetch_ins_rep _ _ _ _ _ _ Hok Hcm Hins Hf) as (Hok1 & Hcm1 & _ & HF).
  assert (same_coins st1 st2) as Hsame.
  { destruct check; [|by injection Hst as <-]. destruct (checkInputs _ _ _ _ _ _ _) as [s|e|] eqn:Ec; try done.
    injection Hst as <-. by eapply checkInputs_same. }
  apply (same_cache _ _ Hsame) in Hok1. apply (same_cm _ _ _ _ Hsame) in Hcm1.
  unfold TxSpendCoins in Hsp. rw Hncb in Hsp.
  destruct (spend_ins_rep (E := TxErr) st2 (ins t) cm1 (delete_all I M) [] Hcm1 Hnd HF) as (cm2' & us' & Es & Hcm2 & HU).
  rw Es in Hsp. injection Hsp as -> ->. fold (prevs t) in Hcm2.
  assert (delete_all (prevs t) (delete_all I M) = delete_all (I ++ prevs t) M) as Ed by (unfold delete_all; by rw foldl_app).
  rw Ed in Hcm2.
  assert (undo_of M t us) as Hundo.
  { eapply Forall2_impl; [exact HU|]. intros i c [Hi Hs]. split; [|done]. rw delete_all_lookup in Hi. by case_decide. }
  assert (forall op, op ∈ I ++ prevs t -> is_Some (M !! op)) as HI'.
  { intros op [Hin|Hin]%elem_of_app; [by apply HI|]. apply list_elem_of_fmap in Hin as (i & -> & Hin).
    rw Forall_forall in HF. destruct (HF i Hin) as [[v Hv] _]. rw delete_all_lookup in Hv. case_decide; [done|by exists v]. }
  assert (NoDup (I ++ prevs t)) as Hone'.
  { apply NoDup_app. split_and!; [done| |done]. intros op Hin (i & -> & Hi)%list_elem_of_fmap. rw Forall_forall in HF.
    destruct (HF i Hi) as [[v Hv] _]. rw delete_all_lookup in Hv. by case_decide. }
  split; [|by exists us]. destruct magnetic.
  - injection Had as ->. by split.
  - destruct (TxAddCoins_rep (E := TxErr) st2 cm2 _ t Hcm2 Hct) as (cm3' & E3 & Hcm3). rw E3 in Had. injection Had as ->.
    rw tx_coins_delete // in Hcm3; [|by apply Hnew]. split; [done|done| |done]. intros op Hop. cbn.
    destruct (decide (Hash op = id t)) as [Hh|Hh]; [|rw tx_coins_other //; by apply HI'].
    destruct (HI' op Hop) as [c Hc]. destruct op as [h j]. cbn in Hh. subst h. by rw (Hnew eq_refl) in Hc.
Qed.

Lemma undo_of_mono M M' t us : M ⊆ M' -> undo_of M t us -> undo_of M' t us.
Proof.
  intros Hs Hu. eapply Forall2_impl; [exact Hu|]. intros i c [Hi Hc]. split; [|done]. by eapply lookup_weaken.
Qed.
Lemma tx_coins_mono t M : (forall j, M !! mkOutPoint (id t) j = None) -> M ⊆ tx_coins t M.
Proof.
  intros Hn. apply map_subseteq_spec. intros op c Hc. destruct (decide (Hash op = id t)) as [Hh|Hh]; [|by rw tx_coins_other].
  destruct op as [h j]. cbn in Hh. subst h. by rw Hn in Hc.
Qed.

(** The transactions after the coinbase. *)
Definition spends (l : list Tx) : list OutPoint := concat (map prevs l).

Lemma apply_txs_rep (magnetic check : bool) flags maxOps lockFlags l : forall a a' M I,
  apply_txs grow drain cv magnetic check flags height maxOps lockFlags l a = Ok a' ->
  applied M I a -> Forall (fun t => IsCoinBase t = false /\ conn_tx t /\ conn_ins t) l -> NoDup (map id l) ->
  (magnetic = false -> forall t j, t ∈ l -> M !! mkOutPoint (id t) j = None) ->
  let M' := if magnetic then M else block_coins l M in
  applied M' (I ++ spends l) a' /\ M ⊆ M' /\ exists uss, ap_undo a' = ap_undo a ++ uss /\ Forall2 (undo_of M') l uss.
Proof.
  induction l as [|t l IH]; intros a a' M I Hap Ha Hl Hnd Hnew M'; cbn [apply_txs] in Hap.
  { injection Hap as <-. assert (M' = M) as -> by by destruct magnetic.
    unfold spends. rw app_nil_r. split_and!; [done|done|]. exists []. by rw app_nil_r. }
  apply Forall_cons in Hl as [(Hncb & Hct & Hci) Hl]. cbn [map] in Hnd. apply NoDup_cons in Hnd as [Hni Hnd].
  rw Hncb in Hap. apply res_bind_inv in Hap as (a1 & Hap1 & Hap).
  destruct (apply_tx_rep _ _ _ _ _ _ _ _ _ _ Hap1 Ha Hncb Hct Hci) as (Ha1 & us & Eu & Hu).
  { intros Hm j. apply Hnew; [done|by left]. }
  set (M1 := if magnetic then M else tx_coins t M) in *.
  assert (M ⊆ M1) as Hsub by (subst M1; destruct magnetic; [done|apply tx_coins_mono; intros j; apply Hnew; [done|by left]]).
  destruct (IH a1 a' M1 (I ++ prevs t) Hap Ha1 Hl Hnd) as (Ha2 & Hsub2 & uss & Eus & Hus).
  { intros -> t' j Hin. subst M1. rw tx_coins_other; [apply Hnew; [done|by right]|]. cbn. intros Heq. apply Hni.
    rw -Heq. apply list_elem_of_fmap. by exists t'. }
  assert ((if magnetic then M1 else block_coins l M1) = M') as E by (subst M1 M'; by destruct magnetic).
  rw E in Ha2 Hsub2 Hus. rw -app_assoc in Ha2. split_and!; [done|by trans M1|].
  exists (us :: uss). rw Eus Eu -app_assoc. split; [done|]. constructor; [|done]. eapply undo_of_mono; [|exact Hu]. by trans M1.
Qed.

Lemma early_coins_rep (magnetic : bool) flags st l : forall n cm V n' cm', cmrep st U cm V -> Forall conn_tx l ->
  early_coins magnetic flags height l n cm = Ok (n', cm') ->
  cmrep st U cm' (foldl (fun V t => if magnetic || IsCoinBase t then tx_coins t V else V) V l).
Proof.
  induction l as [|t l IH]; intros n cm V n' cm' Hcm Hl Hx; cbn [early_coins] in Hx; [by injection Hx as _ <-|].
  apply Forall_cons in Hl as [Ht Hl]. apply res_bind_inv in Hx as (k & _ & Hx). apply res_bind_inv in Hx as (cm1 & Hc & Hx).
  cbn [foldl]. eapply IH; [|done|exact Hx]. destruct (magnetic || IsCoinBase t).
  - destruct (TxAddCoins_rep (E := TxErr) st cm V t Hcm Ht) as (cm2 & E & Hcm2). rw E in Hc. by injection Hc as ->.
  - by injection Hc as ->.
Qed.

Lemma bip30_outs_rep h n : forall i st st', cache_ok T st U -> length h = 32%nat -> bytes_ok h -> 0 <= i ->
  i + Z.of_nat n <= 2 ^ 32 -> (forall j, 0 <= j < i + Z.of_nat n -> mkOutPoint h j ∈ T) ->
  bip30_outs h n i st = Ok st' -> cache_ok T st' U.
Proof.
  induction n as [|n IH]; intros i st st' Hok Hl Hb Hi Hn HopT Hx; cbn [bip30_outs] in Hx; [by injection Hx as <-|].
  rw u32_id in Hx; last int_lia. apply res_bind_inv in Hx as ([have s] & Hh & Hx). unfold HaveCoin in Hh.
  destruct (GetCoin_rep (E := TxErr) T HT st U (mkOutPoint h i) Hok) as (s1 & E & Hok1 & _).
  { split_and!; [done|done|cbn; int_lia]. }
  { apply HopT. lia. }
  rw E in Hh. injection Hh as <- <-. destruct (match _ with Some _ => _ | None => _ end); [done|].
  eapply (IH (i + 1)); [exact Hok1|done|done|lia|lia| |exact Hx]. intros j Hj. apply HopT. lia.
Qed.
Lemma bip30_txs_rep l : forall st st', cache_ok T st U -> Forall conn_tx l -> bip30_txs l st = Ok st' -> cache_ok T st' U.
Proof.
  induction l as [|t l IH]; intros st st' Hok Hl Hx; cbn [bip30_txs] in Hx; [by injection Hx as <-|].
  apply Forall_cons in Hl as [[Ho Hc [Hlen Hb] Hn Hr] Hl]. apply res_bind_inv in Hx as (s & Hs & Hx).
  eapply IH; [|done|exact Hx]. by eapply bip30_outs_rep in Hs.
Qed.

(** The block of a coinbase and other transactions. *)
Record conn_block (cb : Tx) (rest : list Tx) : Prop := {
  cb_first : IsCoinBase cb = true;
  cb_txs : Forall conn_tx (cb :: rest);
  cb_rest : Forall (fun t => IsCoinBase t = false) rest;
  cb_ins : Forall conn_ins rest;
  cb_ids : NoDup (map id (cb :: rest)) }.

Lemma foldl_early (magnetic : bool) l : forall V, Forall (fun t => IsCoinBase t = false) l ->
  foldl (fun V t => if magnetic || IsCoinBase t then tx_coins t V else V) V l = if magnetic then block_coins l V else V.
Proof.
  induction l as [|t l IH]; intros V Hl; cbn [foldl]; [by destruct magnetic|]. apply Forall_cons in Hl as [Ht Hl].
  rw IH // Ht. by destruct magnetic.
Qed.

Lemma new_after_coinbase cb rest t j : conn_block cb rest -> t ∈ rest -> tx_coins cb U !! mkOutPoint (id t) j = None.
Proof.
  intros [_ Htx _ _ Hnd] Hin. apply Forall_cons in Htx as [_ Htx]. rw Forall_forall in Htx.
  rw tx_coins_other; [by apply ct_new, Htx|]. cbn. cbn [map] in Hnd. apply NoDup_cons in Hnd as [Hni _].
  intros Heq. apply Hni. rw -Heq. apply list_elem_of_fmap. by exists t.
Qed.

(** The state in which the transactions after the coinbase are applied. *)
Lemma ApplyBlockTransactions_inv cb rest bip30 flags check subsidy maxOps lockFlags mtp st cm undo st' :
  cache_ok T st U -> conn_block cb rest ->
  ApplyBlockTransactions grow drain p cv (cb :: rest) bip30 flags check subsidy height maxOps lockFlags mtp st
    = Ok (cm, undo, st') ->
  exists (mg : bool) a0 a M0 vo,
    apply_txs grow drain cv mg check flags height maxOps lockFlags rest a0 = Ok a /\
    applied M0 [] a0 /\ ap_fees a0 = 0 /\ ap_undo a0 = [] /\
    Forall (fun t => IsCoinBase t = false /\ conn_tx t /\ conn_ins t) rest /\ NoDup (map id rest) /\
    (mg = false -> forall t j, t ∈ rest -> M0 !! mkOutPoint (id t) j = None) /\
    (if mg then M0 else block_coins rest M0) = block_coins (cb :: rest) U /\
    GetValueOut (E := TxErr) cb = Ok vo /\ vo <= i64 (ap_fees a + subsidy) /\
    cm = ap_cm a /\ undo = ap_undo a /\ st' = ap_st a.
Proof.
  intros Hok Hblk Hx. pose proof Hblk as [Hcb Htxs Hrest Hins Hids]. unfold ApplyBlockTransactions in Hx.
  apply res_bind_inv in Hx as (st0 & Hb & Hx). assert (cache_ok T st0 U) as Hok0.
  { destruct bip30; [by eapply bip30_txs_rep|by injection Hb as <-]. }
  cbv zeta in Hx. set (mg := IsMagneticAnomalyEnabled p mtp) in *.
  apply res_bind_inv in Hx as ([n cm0] & He & Hx). apply res_bind_inv in Hx as (a & Ha & Hx).
  apply res_bind_inv in Hx as (vo & Hvo & Hx). destruct (Z.ltb_spec (i64 (ap_fees a + subsidy)) vo) as [|Hle]; [done|].
  injection Hx as <- <- <-. assert (cmrep st0 U ∅ U) as Hemp by by apply cm_rep_empty.
  pose proof (early_coins_rep mg flags st0 (cb :: rest) 0 ∅ U n cm0 Hemp Htxs He) as Hcm0.
  cbn [foldl] in Hcm0. rw Hcb orb_true_r foldl_early // in Hcm0.
  cbn [apply_txs] in Ha. rw Hcb in Ha. cbn [mbind res_bind] in Ha.
  exists mg, (mkApply cm0 st0 n 0 []), a, (if mg then block_coins rest (tx_coins cb U) else tx_coins cb U), vo.
  apply Forall_cons in Htxs as [Hct Htxs]. cbn [map] in Hids. pose proof Hids as Hids'. apply NoDup_cons in Hids' as [_ Hnd].
  split_and!; try done.
  - split; [done|done| |constructor]. by intros op Hop%not_elem_of_nil.
  - clear -Htxs Hrest Hins. induction rest as [|t l IH]; [constructor|].
    apply Forall_cons in Htxs as [? ?]. apply Forall_cons in Hrest as [? ?]. apply Forall_cons in Hins as [? ?].
    constructor; [done|by apply IH].
  - intros -> t j Hin. by apply (new_after_coinbase cb rest).
  - unfold block_coins. cbn [foldl]. by destruct mg.
Qed.

(** What connecting a block does to the UTXO set, and the undo data it leaves. *)
Lemma ApplyBlockTransactions_rep cb rest bip30 flags check subsidy maxOps lockFlags mtp st cm undo st' :
  cache_ok T st U -> conn_block cb rest ->
  ApplyBlockTransactions grow drain p cv (cb :: rest) bip30 flags check subsidy height maxOps lockFlags mtp st
    = Ok (cm, undo, st') ->
  let M := block_coins (cb :: rest) U in
  cache_ok T st' U /\ cmrep st' U cm (delete_all (spends rest) M) /\ Forall2 (undo_of M) rest undo /\
  (forall op, op ∈ spends rest -> is_Some (M !! op)) /\ NoDup (spends rest).
Proof.
  intros Hok Hblk Hx M.
  destruct (ApplyBlockTransactions_inv _ _ _ _ _ _ _ _ _ _ _ _ _ Hok Hblk Hx)
    as (mg & a0 & a & M0 & vo & Ha & Hap0 & _ & Hu0 & Hl & Hnd & Hnew & E & _ & _ & -> & -> & ->).
  destruct (apply_txs_rep mg check flags maxOps lockFlags rest _ a M0 [] Ha Hap0 Hl Hnd Hnew) as (Hap & _ & uss & Eu & Hu).
  cbv zeta in Hap, Hu. rw E in Hap Hu. destruct Hap as [A B C D]. rw app_nil_l in B C D. rw Hu0 in Eu. cbn in Eu. by subst uss.
Qed.
End Connect.

(** ** Disconnecting *)
(** The outpoints of the spendable outputs from number [j] on. *)
Fixpoint out_ops (h : bytes) (j : Z) (l : list TxOut) : list OutPoint :=
  match l with
  | [] => []
  | out :: l => (if TxOut_IsSpendable out then [mkOutPoint h j] else []) ++ out_ops h (j + 1) l
  end.
Lemma out_ops_spec h l : forall j op, op ∈ out_ops h j l <->
  Hash op = h /\ j <= Index op /\ exists out, l !! Z.to_nat (Index op - j) = Some out /\ TxOut_IsSpendable out = true.
Proof.
  induction l as [|out l IH]; intros j op; cbn [out_ops].
  { split; [by intros ?%not_elem_of_nil|]. intros (_ & _ & out & Hl & _). by rw lookup_nil in Hl. }
  rw elem_of_app IH. destruct op as [h' i]. cbn [Hash Index]. split.
  - intros [Hin|(-> & Hj & o & Hl & Ho)].
    + destruct (TxOut_IsSpendable out) eqn:Es; [|by apply not_elem_of_nil in Hin].
      apply list_elem_of_singleton in Hin. injection Hin as -> ->. rw Z.sub_diag. split_and!; [done|lia|by exists out].
    + split_and!; [done|lia|]. exists o. by replace (Z.to_nat (i - j)) with (S (Z.to_nat (i - (j + 1)))) by lia.
  - intros (-> & Hj & o & Hl & Ho). destruct (decide (i = j)) as [->|Hne].
    + rw Z.sub_diag in Hl. injection Hl as ->. left. rw Ho. by apply list_elem_of_singleton.
    + right. split_and!; [done|lia|]. exists o. split; [|done].
      by replace (Z.to_nat (i - j)) with (S (Z.to_nat (i - (j + 1)))) in Hl by lia.
Qed.

Section Disconnect.
Context `{Secp256k1} `{!SecpCompression} `{LruCache} `{!LruLaws} `{Hashes}.
Context (T : gset OutPoint) (HT : (size T <= lru_capacity)%nat).
Context (B : gmap OutPoint Coin) (height : Z).
Abbreviation cmrep := (cm_rep T).
Abbreviation id := (txid Sha256).

(** Putting spent coins back. *)
Definition restore (l : list (OutPoint * Coin)) (W : gmap OutPoint Coin) : gmap OutPoint Coin :=
  foldl (fun W oc => <[oc.1 := plain oc.2]> W) W l.

Lemma restore_other l : forall W op, op ∉ l.*1 -> restore l W !! op = W !! op.
Proof.
  induction l as [|[o c] l IH]; intros W op Hop; [done|]. cbn in Hop. apply not_elem_of_cons in Hop as [Hne Hop].
  unfold restore in *. cbn [foldl]. rw IH // lookup_insert_ne //.
Qed.
Lemma restore_in l : forall W op c, NoDup l.*1 -> (op, c) ∈ l -> restore l W !! op = Some (plain c).
Proof.
  induction l as [|[o c0] l IH]; intros W op c Hnd Hin; [by apply not_elem_of_nil in Hin|]. cbn in Hnd.
  apply NoDup_cons in Hnd as [Hni Hnd]. unfold restore in *. cbn [foldl].
  apply elem_of_cons in Hin as [[= -> ->]|Hin]; [|by apply IH].
  rw -/(restore l (<[o := plain c0]> W)) restore_other // lookup_insert_eq //.
Qed.

(** An undo record of an outpoint that is not in the UTXO set. *)
Definition undo_ok (op : OutPoint) (c : Coin) : Prop :=
  wf_outpoint op /\ op ∈ T /\ B !! op = None /\ coin_fresh c = true /\ coin_isMempoolCoin c = false /\ storable c.

Lemma undoCoinSpend_rep {E} op c cm st W : cache_ok T st B -> cmrep st B cm W -> undo_ok op c -> W !! op = None ->
  exists cm' st', undoCoinSpend (E := E) op c cm st = Ok (DisconnectOk, cm', st') /\ cache_ok T st' B /\
    cmrep st' B cm' (<[op := plain c]> W).
Proof.
  intros Hok Hcm (Hw & HopT & HB & Hf & Hm & Hs) HW. unfold undoCoinSpend.
  destruct (FetchCoin_rep (E := E) T HT st B cm W op Hok Hcm Hw HopT) as (st1 & cm1 & c1 & E1 & Hok1 & _ & Hcm1 & Hc1 & _ & _).
  rw E1. cbn [mbind res_bind].
  assert (c1 = None) as ->.
  { pose proof (cm_entry _ _ _ _ _ Hcm1 op) as He. rw -Hc1 HB HW in He. by inversion He. }
  destruct (Z.eqb_spec (coin_height c) 0) as [Hz|_]; [destruct Hs as [_ _ _ Hh]; lia|].
  destruct (AddCoin_rep (E := E) T HT st1 B cm1 W op c Hcm1 HB Hw HopT Hf Hm Hs) as (cm2 & E2 & Hcm2).
  rw E2. cbn [mbind res_bind]. by exists cm2, st1.
Qed.

Lemma undo_ins_rep {E} l : forall cm st W, cache_ok T st B -> cmrep st B cm W ->
  NoDup (map (fun ic => PreviousOutPoint ic.1) l) ->
  Forall (fun ic : TxIn * Coin => undo_ok (PreviousOutPoint ic.1) ic.2 /\ W !! PreviousOutPoint ic.1 = None) l ->
  exists cm' st', undo_ins (E := E) l true cm st = Ok (Some true, cm', st') /\ cache_ok T st' B /\
    cmrep st' B cm' (restore (map (fun ic => (PreviousOutPoint ic.1, ic.2)) l) W).
Proof.
  induction l as [|[i c] l IH]; intros cm st W Hok Hcm Hnd Hl; cbn [undo_ins]; [by exists cm, st|].
  cbn [map] in Hnd. apply NoDup_cons in Hnd as [Hni Hnd]. apply Forall_cons in Hl as [[Hu HW] Hl]. cbn [fst snd] in *.
  destruct (undoCoinSpend_rep (E := E) _ c cm st W Hok Hcm Hu HW) as (cm1 & st1 & E1 & Hok1 & Hcm1). rw E1.
  cbn [mbind res_bind]. apply IH; [done|done|done|]. rw Forall_forall in Hl. apply Forall_forall. intros jc Hjc.
  destruct (Hl jc Hjc) as [H1' H2']. split; [done|]. rw lookup_insert_ne //. intros Heq. apply Hni.
  apply list_elem_of_fmap. by exists jc.
Qed.

(** The records of a list of transactions, in the order they are restored. *)
Definition tx_records (tu : Tx * list Coin) : list (OutPoint * Coin) :=
  map (fun ic => (PreviousOutPoint ic.1, ic.2)) (zip (ins tu.1) tu.2).
Definition records (l : list (Tx * list Coin)) : list (OutPoint * Coin) := concat (map tx_records l).

Lemma undo_txs_rep {E} l : forall cm st W, cache_ok T st B -> cmrep st B cm W ->
  Forall (fun tu => length tu.2 = length (ins tu.1)) l -> NoDup (records l).*1 ->
  Forall (fun oc => undo_ok oc.1 oc.2 /\ W !! oc.1 = None) (records l) ->
  exists cm' st', undo_txs (E := E) l true cm st = Ok (Some true, cm', st') /\ cache_ok T st' B /\
    cmrep st' B cm' (restore (records l) W).
Proof.
  induction l as [|[t tu] l IH]; intros cm st W Hok Hcm Hlen Hnd Hl; cbn [undo_txs]; [by exists cm, st|].
  apply Forall_cons in Hlen as [Hlen Hlens]. cbn [fst snd] in Hlen. rw Hlen Nat.eqb_refl. cbn [negb].
  unfold records in Hnd, Hl. cbn [map concat] in Hnd, Hl. rw fmap_app in Hnd. apply NoDup_app in Hnd as (Hnd1 & Hdis & Hnd2).
  apply Forall_app in Hl as [Hl1 Hl2].
  destruct (undo_ins_rep (E := E) (zip (ins t) tu) cm st W Hok Hcm) as (cm1 & st1 & E1 & Hok1 & Hcm1).
  { unfold tx_records in Hnd1. by rw -list_fmap_compose in Hnd1. }
  { unfold tx_records in Hl1. rw Forall_fmap in Hl1. exact Hl1. }
  rw E1. cbn [mbind res_bind]. rw /records /= /restore foldl_app. apply IH; [done|done|done|done|].
  fold (records l) in *. rw Forall_forall in Hl2. apply Forall_forall. intros oc Hoc. destruct (Hl2 oc Hoc) as [H1' H2'].
  split; [done|]. rw -/(restore (tx_records (t, tu)) W) restore_other //. intros Hin. apply (Hdis _ Hin).
  apply list_elem_of_fmap. by exists oc.
Qed.

(** *** The outputs *)
Lemma SpendGlobalCoin_rep {E} op v cm st W : cache_ok T st B -> cmrep st B cm W -> wf_outpoint op -> op ∈ T -> W !! op = Some v ->
  exists c cm' st', SpendGlobalCoin (E := E) cm st op = Ok (Some c, cm', st') /\ plain c = v /\ cache_ok T st' B /\
    cmrep st' B cm' (delete op W).
Proof.
  intros Hok Hcm Hw HopT HW. unfold SpendGlobalCoin.
  destruct (FetchCoin_rep (E := E) T HT st B cm W op Hok Hcm Hw HopT) as (st1 & cm1 & c1 & -> & Hok1 & _ & Hcm1 & Hc1 & _ & Hs).
  destruct (Hs v HW) as (c & -> & Hp & _). symmetry in Hc1. cbn [mbind res_bind].
  destruct (cm_visible T B st1 cm1 W op c v Hcm1 Hc1 HW) as [Hsto _].
  destruct (SpendCoin_rep (E := E) T HT st1 B cm1 W op v Hcm1 HW ltac:(by eexists)) as (r & cm2 & -> & Hcm2).
  rw DeepCopy_id; last by apply sto_script. cbn [mbind res_bind]. by exists c, cm2, st1.
Qed.

Lemma revert_outs_rep {E} h cb l : forall j cm st W, cache_ok T st B -> cmrep st B cm W ->
  length h = 32%nat -> bytes_ok h -> 0 <= j -> j + Z.of_nat (length l) <= 2 ^ 32 -> Forall out_ok l ->
  (forall i out, l !! i = Some out -> TxOut_IsSpendable out = true ->
     W !! mkOutPoint h (j + Z.of_nat i) = Some (coin_of out height cb) /\ mkOutPoint h (j + Z.of_nat i) ∈ T) ->
  exists cm' st', revert_outs (E := E) h cb height j l true cm st = Ok (true, cm', st') /\ cache_ok T st' B /\
    cmrep st' B cm' (delete_all (out_ops h j l) W).
Proof.
  induction l as [|out l IH]; intros j cm st W Hok Hcm Hl Hb Hj Hn Ho HW; cbn [revert_outs out_ops]; [by exists cm, st|].
  cbn [length] in Hn. apply Forall_cons in Ho as [[[d Hd] Hv] Ho].
  assert (forall i o, l !! i = Some o -> TxOut_IsSpendable o = true -> W !! mkOutPoint h (j + 1 + Z.of_nat i) = Some (coin_of o height cb) /\
    mkOutPoint h (j + 1 + Z.of_nat i) ∈ T) as HW'.
  { intros i o Hi Hs. replace (j + 1 + Z.of_nat i) with (j + Z.of_nat (S i)) by lia. by apply HW. }
  destruct (TxOut_IsSpendable out) eqn:Es; cbn [negb app]; [|apply IH; try done; lia].
  destruct (HW 0%nat out eq_refl Es) as [HWj HTj]. rw Z.add_0_r in HWj HTj. rw u32_id; last int_lia.
  destruct (SpendGlobalCoin_rep (E := E) (mkOutPoint h j) (coin_of out height cb) cm st W Hok Hcm) as (c & cm1 & st1 & -> & Hp & Hok1 & Hcm1); [|done|done|].
  { split_and!; [done|done|]. cbn. int_lia. }
  destruct c as [o hh b ? ? ?]. injection Hp as -> -> ->. cbn [mbind res_bind deref coin_txOut coin_isCoinBase coin_height].
  unfold TxOut_IsEqual. rw Z.eqb_refl Hd. cbn [negb mbind res_bind deref]. rw bool_decide_true // Bool.eqb_reflx Z.eqb_refl. cbn [andb].
  unfold delete_all. cbn [foldl]. apply IH; try done; [lia|lia|]. intros i o Hi Hs. destruct (HW' i o Hi Hs) as [? ?].
  split; [|done]. rw lookup_delete_ne //. intros [= ?]. lia.
Qed.

(** What reverting the outputs of a transaction needs. *)
Definition revertible (W : gmap OutPoint Coin) (t : Tx) : Prop :=
  Forall out_ok (outs t) /\ Z.of_nat (length (outs t)) <= 2 ^ 32 /\ length (id t) = 32%nat /\ bytes_ok (id t) /\
  forall i out, outs t !! i = Some out -> TxOut_IsSpendable out = true ->
    W !! mkOutPoint (id t) (Z.of_nat i) = Some (coin_of out height (IsCoinBase t)) /\ mkOutPoint (id t) (Z.of_nat i) ∈ T.
Definition tx_ops (t : Tx) : list OutPoint := out_ops (id t) 0 (outs t).

Lemma revert_txs_rep {E} l : forall cm st W, cache_ok T st B -> cmrep st B cm W -> NoDup (map id l) -> Forall (revertible W) l ->
  exists cm' st', revert_txs (E := E) Sha256 height l true cm st = Ok (true, cm', st') /\ cache_ok T st' B /\
    cmrep st' B cm' (delete_all (concat (map tx_ops l)) W).
Proof.
  induction l as [|t l IH]; intros cm st W Hok Hcm Hnd Hl; cbn [revert_txs map concat]; [by exists cm, st|].
  cbn [map] in Hnd. apply NoDup_cons in Hnd as [Hni Hnd]. apply Forall_cons in Hl as [(Ho & Hn & Hlen & Hb & HW) Hl].
  destruct (revert_outs_rep (E := E) (id t) (IsCoinBase t) (outs t) 0 cm st W Hok Hcm Hlen Hb) as (cm1 & st1 & E1 & Hok1 & Hcm1);
    [lia|lia|done|intros i out Hi Hs; rw Z.add_0_l; by apply HW|].
  rw E1. cbn [mbind res_bind]. unfold delete_all at 1. rw foldl_app. apply IH; [done|done|done|].
  rw Forall_forall in Hl. apply Forall_forall. intros t' Hin. destruct (Hl t' Hin) as (? & ? & ? & ? & HW').
  split_and!; try done. intros i out Hi Hs. destruct (HW' i out Hi Hs) as [HWi ?]. split; [|done].
  fold (delete_all (tx_ops t) W). rw delete_all_lookup decide_False // out_ops_spec. cbn. intros [Heq _]. apply Hni. rw -Heq.
  apply list_elem_of_fmap. by exists t'.
Qed.
End Disconnect.
