(* ===== verification/ReorgFacts.v ===== *)
(** * A block that is connected and then disconnected

    Connecting (ApplyBlockTransactions, UpdateCoins, Flush; the undo data to disk)
    and disconnecting (the undo data from disk, ApplyBlockUndo, UpdateCoins, Flush)
    give the UTXO set back, through the coin map, the LRU cache and the database. *)
From S2P Require Import Prelude Errors Wire ScriptNum Opcodes Script ScriptFacts Tx TxFacts Crypto Compress Coins CoinsFacts Block Undo.
From S2P Require Import Stack Slice Interp Ltx ConnectFacts.

Section Reorg.
Context `{Secp256k1} `{!SecpCompression} `{LruCache} `{!LruLaws} `{Hashes}.
Context (T : gset OutPoint) (HT : (size T <= lru_capacity)%nat).
Context (U : gmap OutPoint Coin) (height : Z) (Hheight : 0 < height < 2 ^ 30).
Context (range : gmap OutPoint Coin -> list (OutPoint * Coin)) (Hrange : forall m, range m ≡ₚ map_to_list m).
Abbreviation id := (txid Sha256).
Abbreviation block_coins := (block_coins height).

(** ** Lookups in the coins of a block *)
Lemma block_coins_other l : forall M op, (forall t, t ∈ l -> Hash op <> id t) -> block_coins l M !! op = M !! op.
Proof.
  induction l as [|t l IH]; intros M op Hop; [done|]. unfold ConnectFacts.block_coins in *. cbn [foldl]. rw IH.
  - apply tx_coins_other, Hop. by left.
  - intros t' Hin. apply Hop. by right.
Qed.
Lemma tx_coins_ext t M M' op : M !! op = M' !! op -> tx_coins height t M !! op = tx_coins height t M' !! op.
Proof. intros Hm. unfold tx_coins. by rw !add_coins_lookup Hm. Qed.
Lemma block_coins_tx l : forall M t op, NoDup (map id l) -> t ∈ l -> Hash op = id t ->
  block_coins l M !! op = tx_coins height t M !! op.
Proof.
  induction l as [|t0 l IH]; intros M t op Hnd Hin Hop; [by apply not_elem_of_nil in Hin|]. cbn [map] in Hnd.
  apply NoDup_cons in Hnd as [Hni Hnd]. unfold ConnectFacts.block_coins in *. cbn [foldl].
  assert (forall t', t' ∈ l -> id t0 <> id t') as Hne.
  { intros t' Ht' Heq. apply Hni. rw Heq. apply list_elem_of_fmap. by exists t'. }
  apply elem_of_cons in Hin as [->|Hin].
  - rw -/(block_coins l _) block_coins_other //. intros t' Ht'. rw Hop. by apply Hne.
  - rw (IH _ t op Hnd Hin Hop). apply tx_coins_ext, tx_coins_other. rw Hop. intros Heq. by apply (Hne t Hin).
Qed.

(** The outputs of a block, and what is left without them. *)
Lemma block_coins_out l M t i out : NoDup (map id l) -> t ∈ l -> outs t !! i = Some out -> TxOut_IsSpendable out = true ->
  block_coins l M !! mkOutPoint (id t) (Z.of_nat i) = Some (coin_of out height (IsCoinBase t)).
Proof.
  intros Hnd Hin Ho Hs. rw (block_coins_tx l M t) //. unfold tx_coins. rw add_coins_lookup. cbn [Hash Index].
  rw bool_decide_true // Z.sub_0_r Nat2Z.id. destruct (Z.leb_spec 0 (Z.of_nat i)); [|lia]. cbn [andb]. by rw Ho Hs.
Qed.
Lemma tx_coins_not_out t M op : op ∉ tx_ops t -> tx_coins height t M !! op = M !! op.
Proof.
  intros Hop. unfold tx_ops in Hop. rw out_ops_spec in Hop. unfold tx_coins. rw add_coins_lookup.
  case_bool_decide as Hh; [|done]. destruct (Z.leb_spec 0 (Index op)) as [Hi|]; cbn [andb]; [|done].
  destruct (outs t !! _) as [out|] eqn:Eo; [|done]. destruct (TxOut_IsSpendable out) eqn:Es; [|done].
  exfalso. apply Hop. split_and!; [done|lia|]. by exists out.
Qed.
Lemma block_coins_not_out l : forall M op, op ∉ concat (map tx_ops l) -> block_coins l M !! op = M !! op.
Proof.
  induction l as [|t l IH]; intros M op Hop; [done|]. cbn [map concat] in Hop. apply not_elem_of_app in Hop as [Ht Hl].
  unfold ConnectFacts.block_coins in *. cbn [foldl]. rw IH //. by apply tx_coins_not_out.
Qed.
Lemma block_ops_new l op : (forall t j, t ∈ l -> U !! mkOutPoint (id t) j = None) -> op ∈ concat (map tx_ops l) -> U !! op = None.
Proof.
  intros HU Hin. apply list_elem_of_In, in_concat in Hin as (x & Hx & Hop). apply list_elem_of_In, list_elem_of_fmap in Hx as (t & -> & Ht).
  apply list_elem_of_In, out_ops_spec in Hop as (Hh & _). destruct op as [h j]. cbn in Hh. subst h. by apply HU.
Qed.
Lemma revert_all l : (forall t j, t ∈ l -> U !! mkOutPoint (id t) j = None) ->
  delete_all (concat (map tx_ops l)) (block_coins l U) = U.
Proof.
  intros HU. apply map_eq. intros op. rw delete_all_lookup. case_decide as Hin.
  - symmetry. by eapply block_ops_new.
  - by apply block_coins_not_out.
Qed.

(** ** Undo data *)
Lemma records_ops (l : list Tx) uss : Forall2 (fun t us => length us = length (ins t)) l uss ->
  (records (zip l uss)).*1 = spends l.
Proof.
  induction 1 as [|t us l uss Hl _ IH]; [done|]. unfold records, spends in *. cbn [zip_with map concat]. rw fmap_app IH. f_equal.
  unfold tx_records, prevs. cbn [fst snd]. clear -Hl. revert us Hl. induction (ins t) as [|i is0 IHi]; intros [|u us] Hl; try done.
  cbn. f_equal. apply IHi. by injection Hl.
Qed.

Lemma undo_of_length M l uss : Forall2 (undo_of M) l uss -> Forall2 (fun t us => length us = length (ins t)) l uss.
Proof. intros HF. eapply Forall2_impl; [exact HF|]. intros t us Hu. by rw (Forall2_length _ _ _ Hu). Qed.

(** The records that come back from disk hold the coins of the block. *)
Lemma records_coins M l uss : Forall2 (undo_of M) l uss ->
  Forall (fun oc => M !! oc.1 = Some (plain oc.2) /\ storable oc.2 /\ coin_fresh oc.2 = true /\ coin_isMempoolCoin oc.2 = false)
    (records (zip l (map (map undo_coin) uss))).
Proof.
  induction 1 as [|t us l uss Hu _ IH]; [constructor|]. unfold records in *. cbn [map zip_with concat]. apply Forall_app. split; [|done].
  unfold tx_records. cbn [fst snd]. clear -Hu. induction Hu as [|i c is0 us [Hi Hs] _ IHu]; [constructor|]. cbn [map zip_with].
  constructor; [|done]. cbn [fst snd]. split_and!; try done. by destruct Hs.
Qed.

Lemma restore_all M l uss : Forall2 (undo_of M) l uss -> NoDup (spends l) ->
  restore (records (zip l (map (map undo_coin) uss))) (delete_all (spends l) M) = M.
Proof.
  intros HF Hnd. set (rs := records _).
  assert (Forall2 (fun t us => length us = length (ins t)) l (map (map undo_coin) uss)) as Hlen.
  { apply Forall2_fmap_r. eapply Forall2_impl; [exact (undo_of_length _ _ _ HF)|]. intros t us Hl. cbn. by rw length_map. }
  pose proof (records_ops l _ Hlen) as Hops. apply map_eq. intros op. destruct (decide (op ∈ spends l)) as [Hin|Hin].
  - rw -Hops in Hin. apply list_elem_of_fmap in Hin as ([o c] & -> & Hin). cbn [fst].
    rw (restore_in rs _ o c); [|by rw Hops|done]. pose proof (records_coins M l uss HF) as Hc. rw Forall_forall in Hc.
    destruct (Hc _ Hin) as [HM _]. by cbn in HM.
  - rw restore_other; [|by rw Hops]. rw delete_all_lookup. by rw decide_False.
Qed.

(** ** Disconnecting a block *)
Lemma Forall2_zip {A B} (P : A -> B -> Prop) l k : Forall2 P l k -> Forall (fun x => P x.1 x.2) (zip l k).
Proof. induction 1; by constructor. Qed.
Lemma spends_elem l op : op ∈ spends l -> exists t i, t ∈ l /\ i ∈ ins t /\ op = PreviousOutPoint i.
Proof.
  unfold spends. intros Hin. apply list_elem_of_In, in_concat in Hin as (x & Hx & Hop).
  apply list_elem_of_In, list_elem_of_fmap in Hx as (t & -> & Ht).
  apply list_elem_of_In, list_elem_of_fmap in Hop as (i & -> & Hi). eauto.
Qed.
(** The second UpdateCoins of DisconnectTip, with the map the first has emptied. *)
Lemma UpdateCoins_again {E} st cm h st1 : UpdateCoins (E := E) range st cm h = Ok st1 -> UpdateCoins (E := E) range st1 ∅ h = Ok st1.
Proof.
  unfold UpdateCoins. intros (s & _ & Hs)%res_bind_inv. injection Hs as <-.
  assert (range ∅ = []) as ->; [|done]. apply Permutation_nil_r. by rw Hrange map_to_list_empty.
Qed.

Lemma ApplyBlockUndo_rep {E} cb rest blk uss st :
  let M := block_coins (cb :: rest) U in let B := delete_all (spends rest) M in
  Txs blk = cb :: rest ->
  cache_ok T st B -> conn_block T U cb rest -> Forall2 (undo_of M) rest uss -> NoDup (spends rest) ->
  Hash_IsNull (HashPrevBlock (Header blk)) = false ->
  exists st1 st2, ApplyBlockUndo (E := E) range Sha256 (map (map undo_coin) uss) blk ∅ st height = Ok (DisconnectOk, ∅, st1) /\
    UpdateCoins (E := E) range st1 ∅ (HashPrevBlock (Header blk)) = Ok st1 /\ Flush (E := E) range st1 = Ok st2 /\
    cache_ok T st2 U /\ hashBlock st2 = HashPrevBlock (Header blk).
Proof.
  intros M B Htx Hok [Hcb Htxs Hrest Hins Hids] HF Hnd Hh.
  assert (Forall2 (fun t us => length us = length (ins t)) rest (map (map undo_coin) uss)) as Hlen.
  { apply Forall2_fmap_r. eapply Forall2_impl; [exact (undo_of_length _ _ _ HF)|]. intros t us Hl. cbn. by rw length_map. }
  pose proof (records_ops rest _ Hlen) as Hops. pose proof (records_coins M rest uss HF) as Hc.
  pose proof (restore_all M rest uss HF Hnd) as Hre. fold B in Hre. rw Forall_forall in Hc. rw Forall_forall in Hins.
  destruct (undo_txs_rep (E := E) T HT B (zip rest (map (map undo_coin) uss)) ∅ st B Hok (cm_rep_empty T HT st B)) as (cm1 & st1 & E1 & Hok1 & Hcm1).
  { exact (Forall2_zip _ _ _ Hlen). }
  { by rw Hops. }
  { apply Forall_forall. intros oc Hin. destruct (Hc oc Hin) as (HM & Hs & Hf & Hm).
    assert (oc.1 ∈ spends rest) as Hsp by (rw -Hops; apply list_elem_of_fmap; by exists oc).
    assert (B !! oc.1 = None) as HB by (unfold B; by rw delete_all_lookup decide_True).
    destruct (spends_elem _ _ Hsp) as (t & i & Ht & Hi & Ho). destruct (Hins t Ht) as [Hti _]. rw Forall_forall in Hti.
    destruct (Hti i Hi) as [Hw HiT]. rw Ho in HB |- *. by split. }
  rw Hre in Hcm1. rw Forall_forall in Htxs.
  destruct (revert_txs_rep (E := E) T HT B height (cb :: rest) cm1 st1 M Hok1 Hcm1 Hids) as (cm2 & st2 & E2 & Hok2 & Hcm2).
  { apply Forall_forall. intros t Ht. destruct (Htxs t Ht) as [Ho Hn [Hl Hb] Hnew Hroom]. split_and!; try done.
    intros i out Hi Hs. split; [by apply block_coins_out|]. apply Hroom. apply lookup_lt_Some in Hi. lia. }
  unfold M in Hcm2. rw revert_all in Hcm2; last by intros t j Ht; apply (ct_new _ _ _ (Htxs t Ht)).
  destruct (commit_rep (E := E) T HT range Hrange st2 B cm2 U _ Hok2 Hcm2 Hh) as (s1 & s2 & E3 & E4 & Hok3 & Hh3 & _).
  exists s1, s2. split_and!; [|by apply (UpdateCoins_again _ _ _ _ E3)|done|done|done].
  unfold ApplyBlockUndo. rw Htx length_map. cbn [length drop].
  destruct (Nat.eqb_spec (length uss + 1) (S (length rest))) as [_|Hne]; [|pose proof (Forall2_length _ _ _ HF); lia].
  cbn [negb]. rw E1. cbn [mbind res_bind]. rw E2. cbn [mbind res_bind]. unfold CoinsMap_Flush. rw E3. done.
Qed.
End Reorg.
