(* ===== verification/MoneyFacts.v ===== *)
(** * Money in a block

    The value of a UTXO set, and what ApplyBlockTransactions does to it. *)
From S2P Require Import Prelude Errors Wire ScriptNum Opcodes Script ScriptFacts Tx TxFacts Crypto Compress Coins CoinsFacts Block Undo.
From S2P Require Import Stack Slice Interp Ltx ConnectFacts ReorgFacts.

Definition coin_value (c : Coin) : Z := value (coin_txOut c).
(** The value of all the coins of a set. *)
Definition total (M : gmap OutPoint Coin) : Z := map_fold (fun _ c n => coin_value c + n) 0 M.
Definition zsum (l : list Z) : Z := foldr Z.add 0 l.
Definition value_at (M : gmap OutPoint Coin) (op : OutPoint) : Z := default 0 (coin_value <$> M !! op).
Definition values_at (M : gmap OutPoint Coin) (l : list OutPoint) : Z := zsum (map (value_at M) l).

Lemma zsum_app l k : zsum (l ++ k) = zsum l + zsum k.
Proof. induction l as [|x l IH]; cbn; [done|]. fold (zsum (l ++ k)) (zsum l). lia. Qed.

Lemma zsum_nonneg l : Forall (fun f => 0 <= f) l -> 0 <= zsum l.
Proof. induction 1 as [|x l Hx _ IH]; [done|]. cbn. fold (zsum l). lia. Qed.

Lemma total_insert M op c : M !! op = None -> total (<[op := c]> M) = coin_value c + total M.
Proof. intros HM. unfold total. rw map_fold_insert_L //. intros. lia. Qed.
Lemma total_delete M op c : M !! op = Some c -> total (delete op M) = total M - coin_value c.
Proof. intros HM. rw -{2}(insert_delete_id M op c) // total_insert; [lia|apply lookup_delete_eq]. Qed.
Lemma total_nonneg M : map_Forall (fun _ c => 0 <= coin_value c) M -> 0 <= total M.
Proof.
  induction M as [|op c M HM IH] using map_ind; [done|]. intros HF. rw total_insert //.
  apply map_Forall_insert in HF as [Hc HF]; [|done]. specialize (IH HF). lia.
Qed.

Lemma values_at_cons M op l : values_at M (op :: l) = value_at M op + values_at M l.
Proof. done. Qed.
Lemma values_at_mono M M' l : M ⊆ M' -> (forall op, op ∈ l -> is_Some (M !! op)) -> values_at M' l = values_at M l.
Proof.
  intros Hs Hl. unfold values_at. f_equal. apply map_ext_in. intros op Hop%list_elem_of_In.
  destruct (Hl op Hop) as [c Hc]. unfold value_at. by rw Hc (lookup_weaken _ _ _ _ Hc Hs).
Qed.
Lemma total_delete_all l : forall M, NoDup l -> (forall op, op ∈ l -> is_Some (M !! op)) ->
  total (delete_all l M) = total M - values_at M l.
Proof.
  induction l as [|op l IH]; intros M Hnd Hl; [by unfold values_at; rw Z.sub_0_r|].
  apply NoDup_cons in Hnd as [Hni Hnd]. destruct (Hl op) as [c Hc]; [by left|]. unfold delete_all. cbn [foldl].
  fold (delete_all l (delete op M)). rw IH //.
  - assert (values_at (delete op M) l = values_at M l) as ->.
    { unfold values_at. f_equal. apply map_ext_in. intros o Ho%list_elem_of_In. unfold value_at. rw lookup_delete_ne //. by intros ->. }
    rw (total_delete M op c Hc) values_at_cons. unfold value_at. rw Hc. cbn. lia.
  - intros o Ho. rw lookup_delete_ne; [apply Hl; by right|by intros ->].
Qed.

(** ** The outputs of a block *)
Lemma total_add_coins h height cb l : forall idx M, Forall (fun o => 0 <= value o) l ->
  (forall j, idx <= j -> M !! mkOutPoint h j = None) ->
  total (add_coins h height cb idx l M) <= total M + total_out l.
Proof.
  induction l as [|o l IH]; intros idx M Hl Hn; cbn [add_coins]; [cbn; lia|]. apply Forall_cons in Hl as [Ho Hl].
  etrans; [apply IH; [done|]|].
  - intros j Hj. destruct (TxOut_IsSpendable o); [|apply Hn; lia]. rw lookup_insert_ne; [apply Hn; lia|]. intros [= ?]. lia.
  - change (total_out (o :: l)) with (value o + total_out l). destruct (TxOut_IsSpendable o); [|lia].
    rw total_insert; last by apply Hn; lia. unfold coin_value. cbn. lia.
Qed.

Section Money.
Context `{Secp256k1} `{!SecpCompression} `{LruCache} `{!LruLaws} `{Hashes}.
Context (T : gset OutPoint) (HT : (size T <= lru_capacity)%nat).
Context (U : gmap OutPoint Coin) (height : Z) (Hheight : 0 < height < 2 ^ 30).
Context (grow : nat -> nat -> nat) (drain : list (option TxErr) -> list (option TxErr)) (p : NetParams) (cv : ChainView).
Abbreviation id := (txid Sha256).
Abbreviation block_coins := (block_coins height).

Definition outs_total (l : list Tx) : Z := zsum (map (fun t => total_out (outs t)) l).

Lemma out_ok_value l : Forall out_ok l -> Forall (fun o => 0 <= value o) l.
Proof. intros HF. eapply Forall_impl; [exact HF|]. by intros o [_ [? _]]. Qed.

Lemma total_block_coins l : forall M, Forall (fun t => Forall out_ok (outs t)) l -> NoDup (map id l) ->
  (forall t j, t ∈ l -> M !! mkOutPoint (id t) j = None) -> total (block_coins l M) <= total M + outs_total l.
Proof.
  induction l as [|t l IH]; intros M Hl Hnd Hn; [cbn; lia|]. apply Forall_cons in Hl as [Ht Hl]. cbn [map] in Hnd.
  apply NoDup_cons in Hnd as [Hni Hnd]. unfold ConnectFacts.block_coins. cbn [foldl]. fold (block_coins l (tx_coins height t M)).
  etrans; [apply IH; [done|done|]|].
  - intros t' j Hin. rw tx_coins_other; [apply Hn; by right|]. cbn. intros Heq. apply Hni. rw -Heq. apply list_elem_of_fmap. by exists t'.
  - unfold tx_coins. pose proof (total_add_coins (id t) height (IsCoinBase t) (outs t) 0 M (out_ok_value _ Ht)
      (fun j _ => Hn t j (list_elem_of_here t l))). unfold outs_total in *. cbn [map zsum foldr]. fold (zsum (map (fun t => total_out (outs t)) l)). lia.
Qed.

(** ** One transaction *)
Lemma inputs_value_in {E} cm h l : forall n v, inputs_value cm h n l = Ok v -> value_in (E := E) cm l n = Ok v /\ forall o, o ∈ map PreviousOutPoint l -> is_Some (cm !! o).
Proof.
  unfold value_in. induction l as [|i l IH]; intros n v Hv; cbn [inputs_value] in Hv; cbn [foldl mbind res_bind]; [injection Hv as <-; split; [done|by intros o ?%elem_of_nil]|].
  apply res_bind_inv in Hv as (c & Hc & Hv). destruct (cm !! PreviousOutPoint i) as [c0|] eqn:Ec; [|done]. injection Hc as ->. cbn [deref mbind res_bind].
  destruct (coin_isCoinBase c && _); [done|]. destruct (negb (MoneyRange (value (coin_txOut c)))); [done|]. cbv zeta in Hv.
  destruct (negb _); [done|]. destruct (IH _ _ Hv) as [Hi Ho]. split; [done|]. cbn [map]. intros o [->|Hin]%elem_of_cons; [by eexists|by apply Ho].
Qed.
Lemma inputs_value_spec cm h l : forall n v, 0 <= n <= MaxMoney -> inputs_value cm h n l = Ok v ->
  v = n + values_at cm (map PreviousOutPoint l) /\ 0 <= v <= MaxMoney.
Proof.
  induction l as [|i l IH]; intros n v Hn Hv; cbn [inputs_value] in Hv; [injection Hv as <-; by unfold values_at; rw Z.add_0_r|].
  apply res_bind_inv in Hv as (c & Hc & Hv). destruct (cm !! PreviousOutPoint i) as [c0|] eqn:Ec; [|done]. injection Hc as ->.
  destruct (coin_isCoinBase c && _); [done|]. destruct (MoneyRange (value (coin_txOut c))) eqn:Em; [|done]. cbv zeta in Hv.
  apply MoneyRange_spec in Em. cbn [negb] in Hv. destruct (MoneyRange (i64 _)) eqn:Em2; [|done]. cbn [negb] in Hv.
  rw i64_id in Hv, Em2; last (unfold MaxMoney, COIN in *; int_lia). apply MoneyRange_spec in Em2.
  destruct (IH _ _ Em2 Hv) as [-> ?]. split; [|done]. cbn [map]. rw values_at_cons. unfold value_at. rw Ec. cbn. unfold coin_value. lia.
Qed.
Lemma value_out_inv {E} os : forall n v, 0 <= n <= MaxMoney -> value_out (E := E) n os = Ok v ->
  v = n + total_out os /\ 0 <= v <= MaxMoney.
Proof.
  induction os as [|o os IH]; intros n v Hn Hv; cbn [value_out] in Hv; [injection Hv as <-; by rw Z.add_0_r|].
  cbv zeta in Hv. destruct (MoneyRange (value o)) eqn:E1; [|done]. cbn [negb orb] in Hv. apply MoneyRange_spec in E1.
  destruct (MoneyRange (i64 _)) eqn:E2; [|done]. cbn [negb] in Hv. rw i64_id in Hv, E2; last (unfold MaxMoney, COIN in *; int_lia).
  apply MoneyRange_spec in E2. destruct (IH _ _ E2 Hv) as [-> ?]. cbn. split; [|done]. unfold total_out. lia.
Qed.
Lemma checkInputs_money t cm st flags st' : checkInputs grow drain cv t cm st flags = Ok st' ->
  exists h v out, inputs_value cm h 0 (ins t) = Ok v /\ GetValueOut (E := TxErr) t = Ok out /\ out <= v.
Proof.
  unfold checkInputs. intros ([h s] & _ & Hx)%res_bind_inv. destruct (_ =? -1); [done|].
  apply res_bind_inv in Hx as ([] & Hm & _). unfold CheckInputsMoney in Hm. apply res_bind_inv in Hm as (v & Hv & Hm).
  apply res_bind_inv in Hm as (out & Ho & Hm). destruct (Z.ltb_spec v out); [done|]. by exists (cv_GetSpendHeight cv h), v, out.
Qed.

(** The fee of a transaction that passed its checks. *)
Lemma apply_tx_fee (magnetic : bool) flags maxOps lockFlags t a a' M I :
  apply_tx grow drain cv magnetic true flags height maxOps lockFlags t a = Ok a' ->
  applied T U M I a -> IsCoinBase t = false -> conn_ins T t ->
  let fee := values_at M (prevs t) - total_out (outs t) in
  0 <= fee <= MaxMoney /\ ap_fees a' = i64 (ap_fees a + fee) /\ (forall op, op ∈ prevs t -> is_Some (M !! op)).
Proof.
  intros Hap [Hok Hcm HI Hone] Hncb [Hins Hnd]. cbv zeta. unfold apply_tx in Hap.
  apply res_bind_inv in Hap as ([cm1 st1] & Hf & Hap). apply res_bind_inv in Hap as ([ch ct] & _ & Hap).
  destruct (negb _); [done|]. apply res_bind_inv in Hap as (n & _ & Hap). destruct (_ <? n); [done|].
  cbv zeta in Hap. destruct (_ <? _); [done|]. apply res_bind_inv in Hap as (vi & Hvi & Hap).
  apply res_bind_inv in Hap as (vo & Hvo & Hap). cbv zeta in Hap. apply res_bind_inv in Hap as (st2 & Hst & Hap).
  apply res_bind_inv in Hap as ([cm2 us] & Hsp & Hap). apply res_bind_inv in Hap as (cm3 & Had & Hap). injection Hap as <-. cbn [ap_fees].
  destruct (fetch_ins_rep T HT U height Hheight _ _ _ _ _ _ Hok Hcm Hins Hf) as (Hok1 & Hcm1 & _ & HF).
  destruct (checkInputs grow drain cv t cm1 st1 flags) as [s|e|] eqn:Ec; [|done|done].
  destruct (checkInputs_money _ _ _ _ _ Ec) as (h & v & out & Hv & Ho & Hle).
  destruct (inputs_value_in (E := TxErr) _ _ _ _ _ Hv) as [Hv' _]. unfold GetValueIn in Hvi. rw Hncb Hv' in Hvi. injection Hvi as <-.
  rw Hvo in Ho. injection Ho as <-. assert (0 <= 0 <= MaxMoney) as H0m by done.
  destruct (inputs_value_spec _ _ _ _ _ H0m Hv) as [-> Hr]. destruct (value_out_inv _ _ _ H0m Hvo) as [-> Hro].
  rw Forall_forall in HF.
  assert (forall i, i ∈ ins t -> exists c, cm1 !! PreviousOutPoint i = Some c /\ M !! PreviousOutPoint i = Some (plain c)) as Hc.
  { intros i Hi. destruct (HF i Hi) as [[u Hu] [c Hc]]. exists c. split; [done|].
    destruct (cm_visible T U st1 cm1 _ _ c u Hcm1 Hc Hu) as [_ <-]. rw delete_all_lookup in Hu. by case_decide. }
  assert (values_at cm1 (map PreviousOutPoint (ins t)) = values_at M (prevs t)) as Hval.
  { unfold values_at, prevs. rw !map_map. f_equal. apply map_ext_in. intros i Hi%list_elem_of_In.
    destruct (Hc i Hi) as (c & Hc1 & Hc2). unfold value_at. by rw Hc1 Hc2. }
  rw Hval in Hr, Hle |- *. rw !Z.add_0_l in Hr, Hle, Hro |- *. split_and!; [lia|lia| |].
  - f_equal. rw (i64_id (_ - _)); last (unfold MaxMoney, COIN in *; int_lia). done.
  - intros op (i & -> & Hi)%list_elem_of_fmap. destruct (Hc i Hi) as (c & _ & ->). by eexists.
Qed.

(** ** All transactions *)
Definition fee_of (M : gmap OutPoint Coin) (t : Tx) : Z := values_at M (prevs t) - total_out (outs t).
Definition add_fees (n : Z) (l : list Z) : Z := foldl (fun n f => i64 (n + f)) n l.

Lemma add_fees_exact l : forall n, 0 <= n -> Forall (fun f => 0 <= f) l -> n + zsum l < 2 ^ 63 -> add_fees n l = n + zsum l.
Proof.
  induction l as [|f l IH]; intros n Hn Hl Hs; [cbn; lia|]. apply Forall_cons in Hl as [Hf Hl].
  pose proof (zsum_nonneg l Hl) as Hz.
  change (zsum (f :: l)) with (f + zsum l) in *. unfold add_fees in *. cbn [foldl]. rw i64_id; last int_lia. rw IH //; lia.
Qed.

Lemma apply_txs_fees (magnetic : bool) flags maxOps lockFlags l : forall a a' M I,
  apply_txs grow drain cv magnetic true flags height maxOps lockFlags l a = Ok a' ->
  applied T U M I a -> Forall (fun t => IsCoinBase t = false /\ conn_tx T U t /\ conn_ins T t) l -> NoDup (map id l) ->
  (magnetic = false -> forall t j, t ∈ l -> M !! mkOutPoint (id t) j = None) ->
  let M' := if magnetic then M else block_coins l M in
  ap_fees a' = add_fees (ap_fees a) (map (fee_of M') l) /\ Forall (fun t => 0 <= fee_of M' t <= MaxMoney) l.
Proof.
  induction l as [|t l IH]; intros a a' M I Hap Ha Hl Hnd Hnew M'; cbn [apply_txs] in Hap; [by injection Hap as <-|].
  apply Forall_cons in Hl as [(Hncb & Hct & Hci) Hl]. cbn [map] in Hnd. apply NoDup_cons in Hnd as [Hni Hnd].
  rw Hncb in Hap. apply res_bind_inv in Hap as (a1 & Hap1 & Hap).
  destruct (apply_tx_fee _ _ _ _ _ _ _ _ _ Hap1 Ha Hncb Hci) as (Hr & Hfe & HsM).
  assert (magnetic = false -> forall j, M !! mkOutPoint (id t) j = None) as Hnt by (intros Hm j; apply Hnew; [done|by left]).
  destruct (apply_tx_rep T HT U height Hheight grow drain cv _ _ _ _ _ _ _ _ _ _ Hap1 Ha Hncb Hct Hci Hnt) as (Ha1 & _).
  set (M1 := if magnetic then M else tx_coins height t M) in *.
  assert (M ⊆ M1) as Hsub by (subst M1; destruct magnetic; [done|by apply tx_coins_mono, Hnt]).
  assert (magnetic = false -> forall t' j, t' ∈ l -> M1 !! mkOutPoint (id t') j = None) as Hnew1.
  { intros Hm t' j Hin. subst M1. rw Hm tx_coins_other; [apply Hnew; [done|by right]|]. cbn. intros Heq. apply Hni.
    rw -Heq. apply list_elem_of_fmap. by exists t'. }
  destruct (apply_txs_rep T HT U height Hheight grow drain cv _ _ _ _ _ _ _ _ _ _ Hap Ha1 Hl Hnd Hnew1) as (_ & Hsub2 & _).
  destruct (IH a1 a' M1 (I ++ prevs t) Hap Ha1 Hl Hnd Hnew1) as [Hfees HFl].
  assert ((if magnetic then M1 else block_coins l M1) = M') as E by (subst M1 M'; by destruct magnetic).
  rw E in Hfees HFl Hsub2.
  assert (fee_of M' t = values_at M (prevs t) - total_out (outs t)) as Ef.
  { unfold fee_of. f_equal. apply values_at_mono; [by trans M1|done]. }
  split; [|constructor; [by rw Ef|done]]. rw Hfees Hfe. cbn [map]. unfold add_fees. cbn [foldl]. by rw Ef.
Qed.

Lemma fees_total M l : zsum (map (fee_of M) l) = values_at M (spends l) - outs_total l.
Proof.
  induction l as [|t l IH]; [done|]. unfold spends, outs_total in *. cbn [map concat]. unfold values_at in *.
  rw map_app zsum_app. cbn [zsum foldr]. unfold fee_of at 1, values_at. fold (zsum (map (fee_of M) l)).
  fold (zsum (map (fun t => total_out (outs t)) l)). lia.
Qed.

(** No money is created but the subsidy. *)
Lemma ApplyBlockTransactions_money cb rest bip30 flags subsidy maxOps lockFlags mtp st cm undo st' :
  cache_ok T st U -> conn_block T U cb rest -> total U <= MaxMoney -> 0 <= subsidy <= MaxMoney ->
  ApplyBlockTransactions grow drain p cv (cb :: rest) bip30 flags true subsidy height maxOps lockFlags mtp st = Ok (cm, undo, st') ->
  total (delete_all (spends rest) (block_coins (cb :: rest) U)) <= total U + subsidy.
Proof.
  intros Hok Hblk HU Hsub Hx.
  destruct (ApplyBlockTransactions_rep T HT U height Hheight grow drain p cv cb rest _ _ _ _ _ _ _ _ _ _ _ Hok Hblk Hx)
    as (_ & Hcmf & _ & HI & Hone).
  destruct (ApplyBlockTransactions_inv T HT U height Hheight grow drain p cv cb rest _ _ _ _ _ _ _ _ _ _ _ Hok Hblk Hx)
    as (mg & a0 & a & M0 & vo & Ha & Hap0 & Hf0 & _ & Hl & Hnd & Hnew & E & Hvo & Hle & _).
  destruct (apply_txs_fees mg flags maxOps lockFlags rest _ a M0 [] Ha Hap0 Hl Hnd Hnew) as [Hfees HF].
  cbv zeta in Hfees, HF. rw E in Hfees HF. rw Hf0 in Hfees. set (M := block_coins (cb :: rest) U) in *.
  assert (0 <= 0 <= MaxMoney) as H0m by done. destruct (value_out_inv _ _ _ H0m Hvo) as [-> Hr]. rw Z.add_0_l in Hle, Hr.
  rw total_delete_all //. pose proof (fees_total M rest) as Hsum.
  assert (total M <= total U + (total_out (outs cb) + outs_total rest)) as HM.
  { destruct Hblk as [_ Htxs _ _ Hids]. rw Forall_forall in Htxs. apply (total_block_coins (cb :: rest) U); [|done|].
    - apply Forall_forall. intros t Ht. apply (ct_outs _ _ _ (Htxs t Ht)).
    - intros t j Ht. apply (ct_new _ _ _ (Htxs t Ht)). }
  assert (0 <= total M - values_at M (spends rest)) as Hpos.
  { rw -total_delete_all //. apply total_nonneg. intros op c Hc.
    destruct (cm_view_wf T st' U cm _ (rep_wf _ _ (ok_rep _ _ _ Hok)) Hcmf op c Hc) as (_ & Hs & _).
    unfold coin_value. pose proof (sto_value c Hs). lia. }
  assert (Forall (fun f => 0 <= f) (map (fee_of M) rest)) as HF0.
  { apply Forall_fmap. eapply Forall_impl; [exact HF|]. by intros t [? _]. }
  pose proof (zsum_nonneg _ HF0) as Hz. rw add_fees_exact // in Hfees; [|unfold MaxMoney, COIN in *; lia].
  rw Hfees i64_id in Hle; [lia|]. unfold MaxMoney, COIN in *. int_lia.
Qed.
End Money.

(** ** Script checks in batches *)
Section Jobs.
Context `{Secp256k1} `{LruCache} `{Hashes}.
Context (grow : nat -> nat -> nat) (drain : list (option TxErr) -> list (option TxErr)) (Hdrain : forall l, drain l ≡ₚ l) (cv : ChainView).

(** The script of input number [k] is satisfied. *)
Definition script_ok (t : Tx) (cm : CoinsMap) (flags : Z) (k : Z) (i : TxIn) : Prop :=
  exists c s, cm !! PreviousOutPoint i = Some c /\ scriptPubKey (coin_txOut c) = Some s /\
    checkScript grow t (scriptSig i) s k (value (coin_txOut c)) flags = Ok None.

Lemma first_error_none l : first_error l = None <-> Forall (fun r => r = None) l.
Proof.
  induction l as [|[e|] l IH]; cbn; [done| |].
  - split; [done|]. by intros [? _]%Forall_cons.
  - rw Forall_cons IH. naive_solver.
Qed.
Lemma run_jobs_spec t cm flags l : forall index,
  (exists rs, run_jobs grow t cm flags index l = Ok rs /\ first_error (drain rs) = None) <->
  (forall k i, l !! k = Some i -> script_ok t cm flags (index + Z.of_nat k) i).
Proof.
  assert (forall rs, first_error (drain rs) = None <-> Forall (fun r => r = None) rs) as Hd.
  { intros rs. rw first_error_none. by rw (Hdrain rs). }
  induction l as [|i l IH]; intros index; cbn [run_jobs].
  { split; [done|]. intros _. exists []. split; [done|]. apply Hd. constructor. }
  split.
  - intros (rs & Hrs & Hn). apply res_bind_inv in Hrs as (c & Hc & Hrs). apply res_bind_inv in Hrs as (s & Hs & Hrs).
    apply res_bind_inv in Hrs as (r & Hr & Hrs). apply res_bind_inv in Hrs as (rs' & Hrs' & Hrs). injection Hrs as <-.
    rw Hd Forall_cons in Hn. destruct Hn as [-> Hn].
    assert (exists rs, run_jobs grow t cm flags (index + 1) l = Ok rs /\ first_error (drain rs) = None) as Hl.
    { exists rs'. by rw Hd. }
    rw IH in Hl. intros [|k] j Hj.
    + injection Hj as <-. rw Z.add_0_r. exists c, s. destruct (cm !! _) as [c'|]; [|done]. injection Hc as ->.
      destruct (scriptPubKey _) as [s'|]; [|done]. by injection Hs as ->.
    + replace (index + Z.of_nat (S k)) with (index + 1 + Z.of_nat k) by lia. by apply Hl.
  - intros Hl. destruct (Hl 0%nat i eq_refl) as (c & s & Hc & Hs & Hr). rw Z.add_0_r in Hr.
    destruct (proj2 (IH (index + 1))) as (rs & Hrs & Hn).
    { intros k j Hj. replace (index + 1 + Z.of_nat k) with (index + Z.of_nat (S k)) by lia. by apply Hl. }
    exists (None :: rs). rw Hc. cbn [deref mbind res_bind]. rw Hs. cbn [deref mbind res_bind]. rw Hr. cbn [mbind res_bind].
    rw Hrs. split; [done|]. rw Hd in Hn. apply Hd. by constructor.
Qed.
Lemma check_batches_spec t cm flags n : forall index l, (length l <= n * MaxScriptVerifyJobNum)%nat ->
  check_batches grow drain n t cm flags index l = Ok tt <->
  (forall k i, l !! k = Some i -> script_ok t cm flags (index + Z.of_nat k) i).
Proof.
  induction n as [|n IH]; intros index l Hlen; cbn [check_batches].
  { destruct l; [|cbn in Hlen; lia]. done. }
  assert (length (drop MaxScriptVerifyJobNum l) <= n * MaxScriptVerifyJobNum)%nat as Hlen' by (rw length_drop; lia).
  split.
  - intros (rs & Hrs & Hx)%res_bind_inv. destruct (first_error (drain rs)) eqn:Ef; [done|]. rw IH // in Hx.
    assert (exists rs, run_jobs grow t cm flags index (take MaxScriptVerifyJobNum l) = Ok rs /\ first_error (drain rs) = None) as Hj by eauto.
    rw run_jobs_spec in Hj. intros k i Hi. destruct (decide (k < MaxScriptVerifyJobNum)%nat) as [Hk|Hk].
    + apply Hj. by rw lookup_take_lt.
    + replace (index + Z.of_nat k) with (index + Z.of_nat MaxScriptVerifyJobNum + Z.of_nat (k - MaxScriptVerifyJobNum)) by lia.
      apply Hx. rw lookup_drop. by replace (MaxScriptVerifyJobNum + (k - MaxScriptVerifyJobNum))%nat with k by lia.
  - intros Hl. destruct (proj2 (run_jobs_spec t cm flags (take MaxScriptVerifyJobNum l) index)) as (rs & Hrs & Hn).
    { intros k i Hi. apply Hl. by apply lookup_take_Some in Hi as [? _]. }
    rw Hrs. cbn [mbind res_bind]. rw Hn IH //. intros k i Hi. rw lookup_drop in Hi.
    replace (index + Z.of_nat MaxScriptVerifyJobNum + Z.of_nat k) with (index + Z.of_nat (MaxScriptVerifyJobNum + k)) by lia. by apply Hl.
Qed.
Lemma batches_enough (n : nat) :
  (n <= (Nat.div n MaxScriptVerifyJobNum + (if decide (n mod MaxScriptVerifyJobNum = 0)%nat then 0 else 1)) * MaxScriptVerifyJobNum)%nat.
Proof.
  assert (MaxScriptVerifyJobNum <> 0)%nat as Hne by done. pose proof (Nat.div_mod n MaxScriptVerifyJobNum Hne) as Hd.
  pose proof (Nat.mod_upper_bound n MaxScriptVerifyJobNum Hne). case_decide; nia.
Qed.
End Jobs.
