(* ===== verification/UtxoTheorems.v ===== *)
(** * Theorems on coins, undo data and blocks

    Statements about package utxo, undo data and ApplyBlockTransactions, with a
    small chain on which they are evaluated. *)
From S2P Require Import Prelude Errors Wire ScriptNum Opcodes Script ScriptFacts Tx TxFacts Crypto Compress Coins CoinsFacts Block Undo.
From S2P Require Import Stack Slice Interp Ltx ConnectFacts ReorgFacts MoneyFacts ScriptTheorems.

(** ** A concrete environment *)

(** A key library over a curve on which the second coordinate of a point is its
    parity: a point is the bytes of [x] and that bit. *)
Definition zero_y (b : Z) : bytes := repeat 0 31 ++ [b].
Definition curve_parse (k : bytes) : bytes * Z * bool :=
  match k with
  | h :: d =>
      if (h =? 4) && (length d =? 64)%nat && bool_decide (take 31 (drop 32 d) = repeat 0 31)
         && bool_decide (nth 63 d 0 ∈ [0; 1])
      then (take 32 d, nth 63 d 0, true)
      else if ((h =? 2) || (h =? 3)) && (length d =? 32)%nat then (d, h - 2, true) else ([], 0, false)
  | [] => ([], 0, false)
  end.
Definition toy_curve : Secp256k1 := {|
  Pub := bytes * Z; Sig := unit;
  EcPubkeyParse := curve_parse;
  EcPubkeySerialize := fun k compressed =>
    Some (if (compressed : bool) then (2 + k.2) :: k.1 else 4 :: k.1 ++ zero_y k.2);
  EcdsaSignatureParseDerLax := fun _ => Some tt;
  EcdsaSignatureNormalize := fun s => (s, 0, true);
  EcdsaVerify := fun _ _ _ => true |}.
#[local] Existing Instance toy_curve.
#[local] Existing Instance toy_hashes.
Lemma toy_compression : SecpCompression.
Proof.
  split. intros k Hl Hk Hp. destruct k as [|h d]; [done|]. cbn in Hl, Hk. injection Hk as ->. injection Hl as Hl.
  cbn [EcPubkeyParse EcPubkeySerialize toy_curve nth] in *. unfold curve_parse at 1 in Hp. cbn in Hp.
  destruct (length d =? 64)%nat eqn:E64; [|done]. cbn [andb] in Hp.
  case_bool_decide as Hz; cbn [andb] in Hp; [|done]. case_bool_decide as Hb; [|done]. clear Hp.
  unfold sub. change (drop 1 (4 :: d)) with d.
  set (b := nth 63 d 0) in *. assert (b = 0 \/ b = 1) as Hb01.
  { apply elem_of_cons in Hb as [->|Hb]; [by left|]. apply elem_of_cons in Hb as [->|Hb]; [by right|]. by apply not_elem_of_nil in Hb. }
  apply Nat.eqb_eq in E64. assert (length (take 32 d) = 32%nat) as Ht by (rw length_take; lia).
  assert (d = take 32 d ++ zero_y b) as Ed.
  { unfold zero_y. assert (take 31 (drop 32 d) = repeat 0 31) as <- by exact Hz. assert (drop 32 d = take 31 (drop 32 d) ++ [b]) as <-; [|by rw take_drop].
    rw -{1}(take_drop 31 (drop 32 d)) drop_drop. f_equal. apply (list_eq_same_length _ _ 1%nat); [done|rw length_drop; lia|].
    intros [|i] x y Hi; [|lia]. rw lookup_drop. intros Hx [= <-]. unfold b. by rw (nth_lookup_Some _ _ _ _ Hx). }
  assert (curve_parse ((2 .| (b .& 1)) :: take 32 d) = (take 32 d, b, true)) as Ep.
  { unfold curve_parse. rw Ht. by destruct Hb01 as [->| ->]. }
  change (take (33 - 1) d) with (take 32 d). rw Ep. split; [done|]. cbn [fst snd]. by rw -Ed.
Qed.
#[local] Existing Instance toy_compression.

(** A cache without a bound is one that never has to evict. *)
#[local] Instance toy_lru : LruCache := {|
  lru := gmap OutPoint Coin;
  lru_Get := fun k c => (c !! k, c);
  lru_Add := fun k v c => <[k := v]> c;
  lru_Remove := fun k c => delete k c;
  lru_Purge := fun _ => ∅;
  lru_Len := fun c => Z.of_nat (size c) |}.
#[local] Instance toy_lru_laws : LruLaws.
Proof.
  refine {| contents := fun c : lru => c |}; try done.
  - intros k v c. apply lookup_insert_eq.
  - intros k k' v c Hne. left. by apply lookup_insert_ne.
Defined.

(** A coin of 5000 at an outpoint, spent by [tx1], whose output [tx2] spends. *)
Definition any_script : Script := NewScriptRaw [OP_1].
Definition op0 : OutPoint := mkOutPoint (repeat 7 32) 3.
Definition coin0 : Coin := mkCoin (mkTxOut 5000 (Some any_script)) 5 false false false false.
Definition spend (op : OutPoint) (v : Z) : Tx :=
  mkTx HashZero 0 1 [mkTxIn op NewEmptyScript 0xffffffff] [mkTxOut v (Some any_script)].
Definition coinbase : Tx :=
  mkTx HashZero 0 1 [mkTxIn NewDefaultOutPoint (mkScript [1; 5] [] false) 0xffffffff] [mkTxOut 5100 (Some any_script)].
Definition tx1 : Tx := spend op0 4900.
Definition tx2 : Tx := spend (mkOutPoint (txid Sha256 tx1) 0) 4800.
Definition utxo0 : gmap OutPoint Coin := {[op0 := coin0]}.
Definition ops0 : gset OutPoint :=
  {[op0; mkOutPoint (txid Sha256 coinbase) 0; mkOutPoint (txid Sha256 tx1) 0; mkOutPoint (txid Sha256 tx2) 0]}.
Definition db0 : DB :=
  match CoinKey_Serialize op0, Coin_Serialize coin0 with
  | Ok k, Ok b => {[k := b]}
  | _, _ => ∅
  end.
Definition state0 : CoinsLruCache := mkCache _ db0 (repeat 1 32) (∅ : gmap OutPoint Coin) ∅.
Definition chain0 : ChainView :=
  {| cv_Height := 9; cv_TipMTP := 1000; cv_AncestorMTP := fun _ => Some 900; cv_GetSpendHeight := fun _ => 10 |}.
Definition params0 : NetParams :=
  {| BIP34Height := 100; MagneticAnomalyActivationTime := 5000; Args_MagneticAnomalyTime := 0; SubsidyReductionInterval := 150 |}.

Lemma coin0_storable : storable coin0.
Proof. by split; [exists [OP_1]|..]. Qed.
Lemma op0_wf : wf_outpoint op0.
Proof. split; [done|]. split; [by apply (bool_decide_unpack _); vm_compute|done]. Qed.
Lemma state0_ok : cache_ok ops0 state0 utxo0.
Proof.
  destruct (key_total op0 op0_wf) as (k & Hk & _).
  destruct (Coin_roundtrip coin0 NewEmptyCoin coin0_storable eq_refl) as (b & Hb & Hr).
  split; cbn [db dirtyCoins cacheCoins state0 contents toy_lru_laws]; [|done|apply map_empty_subseteq|done].
  split; [by apply map_Forall_singleton; split; [apply op0_wf|split; [apply coin0_storable|]]|].
  unfold db0. rw Hk Hb. intros op Hw. destruct (decide (op = op0)) as [->|Hne].
  - unfold CoinsDB_GetCoin, utxo0. rw Hk !lookup_singleton_eq. specialize (Hr []). rw app_nil_r in Hr. rw Hr. done.
  - rw -(insert_empty k b). destruct (GetCoin_insert ∅ op0 op k b op0_wf Hw Hk) as [-> _]; [done|].
    unfold CoinsDB_GetCoin, utxo0. destruct (key_total op Hw) as (k' & -> & _). rw lookup_empty lookup_singleton_ne //.
Qed.
Definition applied0 (mtp : Z) : res TxErr (CoinsMap * BlockUndo * CoinsLruCache) :=
  ApplyBlockTransactions toy_grow (fun l => l) params0 chain0 [coinbase; tx1; tx2] true 0 true 5000 10 20000 0 mtp state0.

Lemma range0 (m : gmap OutPoint Coin) : map_to_list m ≡ₚ map_to_list m.
Proof. done. Qed.
Lemma ops0_room : (size ops0 <= lru_capacity)%nat.
Proof. apply Nat2Z.inj_le. unfold lru_capacity. rw Z2Nat.id; [by vm_compute|done]. Qed.
Lemma bytes_ok_dec l : bool_decide (bytes_ok l) = true -> bytes_ok l.
Proof. apply bool_decide_eq_true_1. Qed.
Lemma spend_conn op v : 0 <= v < 2 ^ 60 -> IsCoinBase (spend op v) = false ->
  bool_decide (bytes_ok (txid Sha256 (spend op v))) = true -> length (txid Sha256 (spend op v)) = 32%nat ->
  Hash op0 <> txid Sha256 (spend op v) -> mkOutPoint (txid Sha256 (spend op v)) 0 ∈ ops0 -> conn_tx ops0 utxo0 (spend op v).
Proof.
  intros Hv _ Hb Hl Hne Hin. split.
  - constructor; [|constructor]. split; [by exists [OP_1]|done].
  - done.
  - split; [done|by apply bytes_ok_dec].
  - intros j. apply lookup_singleton_ne. intros Heq. apply Hne. by rw Heq.
  - intros j Hj. cbn in Hj. by assert (j = 0) as -> by lia.
Qed.
Lemma block0_conn : conn_block ops0 utxo0 coinbase [tx1; tx2].
Proof.
  assert (forall op, bool_decide (op ∈ ops0) = true -> op ∈ ops0) as Hin by (intros op; apply bool_decide_eq_true_1).
  split.
  - by vm_compute.
  - constructor; [|constructor; [|constructor; [|constructor]]].
    + split.
      * constructor; [|constructor]. split; [by exists [OP_1]|done].
      * done.
      * split; [by vm_compute|apply bytes_ok_dec; by vm_compute].
      * intros j. apply lookup_singleton_ne. intros Heq. apply (f_equal Hash) in Heq. by vm_compute in Heq.
      * intros j Hj. cbn in Hj. assert (j = 0) as -> by lia. apply Hin. by vm_compute.
    + apply spend_conn; first [by vm_compute|apply Hin; by vm_compute].
    + apply spend_conn; first [by vm_compute|apply Hin; by vm_compute].
  - by repeat constructor.
  - repeat constructor; try (by vm_compute); try (apply Hin; by vm_compute); try (apply bytes_ok_dec; by vm_compute); try apply not_elem_of_nil.
  - apply (bool_decide_unpack _). by vm_compute.
Qed.

(** ** Connecting and disconnecting *)
Section Reorg.
Context `{Secp256k1} `{!SecpCompression} `{LruCache} `{!LruLaws} `{Hashes}.
Context (T : gset OutPoint) (HT : (size T <= lru_capacity)%nat).
Context (range : gmap OutPoint Coin -> list (OutPoint * Coin)) (Hrange : forall m, range m ≡ₚ map_to_list m).
Context (grow : nat -> nat -> nat) (drain : list (option TxErr) -> list (option TxErr)) (p : NetParams) (cv : ChainView).

(** C2. Disconnecting a block undoes connecting it.  Let the cache and the
    database hold the coins [U], and let ApplyBlockTransactions accept a block
    whose transactions have new ids.  Then UpdateCoins and Flush (ConnectTip) leave
    exactly [U] with the outputs of the block and without what it spent; the
    undo data survives the undo file; and ApplyBlockUndo with that data returns
    DisconnectOk, after which UpdateCoins and Flush (DisconnectTip) leave [U] again,
    with the previous block as the best block.  [T] bounds the outpoints that are
    touched by the capacity of the LRU cache, and Go may iterate its maps in any
    order. *)
Theorem block_reorg (U : gmap OutPoint Coin) (height : Z) (Hheight : 0 < height < 2 ^ 30) (blk : Block) (cb : Tx) (rest : list Tx)
    (hash : bytes) (bip30 check : bool) (flags subsidy maxOps lockFlags mtp : Z) (st st1 : CoinsLruCache) (cm : CoinsMap) (undo : BlockUndo) :
  Txs blk = cb :: rest -> conn_block T U cb rest -> cache_ok T st U ->
  Forall (fun t => Z.of_nat (length (ins t)) <= MaxInputPerTx) rest -> 8 * Z.of_nat (length rest) <= maxAlloc ->
  Hash_IsNull hash = false -> Hash_IsNull (HashPrevBlock (Header blk)) = false ->
  ApplyBlockTransactions grow drain p cv (Txs blk) bip30 flags check subsidy height maxOps lockFlags mtp st = Ok (cm, undo, st1) ->
  exists st2 st3 b undo' st4 st5,
    UpdateCoins (E := TxErr) range st1 cm hash = Ok st2 /\ Flush (E := TxErr) range st2 = Ok st3 /\
    cache_ok T st3 (delete_all (spends rest) (block_coins height (cb :: rest) U)) /\ hashBlock st3 = hash /\
    BlockUndo_Serialize undo = Ok b /\ BlockUndo_Unserialize b = Ok (undo', []) /\
    ApplyBlockUndo (E := TxErr) range Sha256 undo' blk ∅ st3 height = Ok (DisconnectOk, ∅, st4) /\
    UpdateCoins (E := TxErr) range st4 ∅ (HashPrevBlock (Header blk)) = Ok st4 /\ Flush (E := TxErr) range st4 = Ok st5 /\
    cache_ok T st5 U /\ hashBlock st5 = HashPrevBlock (Header blk).
Proof.
  intros Htx Hblk Hok Hn Hm Hh Hp Hap. rw Htx in Hap.
  destruct (ApplyBlockTransactions_rep T HT U height Hheight grow drain p cv cb rest _ _ _ _ _ _ _ _ _ _ _ Hok Hblk Hap)
    as (Hok1 & Hcm & HF & _ & Hnd).
  destruct (commit_rep (E := TxErr) T HT range Hrange st1 U cm _ hash Hok1 Hcm Hh) as (st2 & st3 & E1 & E2 & Hok2 & Hh2 & _).
  destruct (BlockUndo_roundtrip undo) as (b & E3 & E4).
  { clear -HF Hn. generalize dependent (block_coins height (cb :: rest) U). intros M HF. induction HF as [|t us l uss Hu _ IH]; [constructor|]. apply Forall_cons in Hn as [Ht Hn].
    constructor; [|by apply IH]. split; [|by rw -(Forall2_length _ _ _ Hu)].
    clear -Hu. unfold undo_of in Hu. induction Hu as [|i c is0 us [_ Hs] _ IHu]; by constructor. }
  { by rw -(Forall2_length _ _ _ HF). }
  destruct (ApplyBlockUndo_rep (E := TxErr) T HT U height range Hrange cb rest blk undo st3 Htx Hok2 Hblk HF Hnd Hp)
    as (st4 & st5 & E5 & E6 & E7 & Hok5 & Hh5).
  exists st2, st3, b, (map (map undo_coin) undo), st4, st5. by split_and!.
Qed.
End Reorg.

Definition block0 : Block :=
  mkBlock (mkHeader 1 (repeat 1 32) HashZero 0 0 0 HashZero) [coinbase; tx1; tx2] 0 false.
Lemma block_reorg_witness :
  exists cm undo st1 st2 st3 b undo' st4 st5, applied0 1000 = Ok (cm, undo, st1) /\
    UpdateCoins (E := TxErr) map_to_list st1 cm (repeat 2 32) = Ok st2 /\ Flush (E := TxErr) map_to_list st2 = Ok st3 /\
    BlockUndo_Serialize undo = Ok b /\ BlockUndo_Unserialize b = Ok (undo', []) /\
    ApplyBlockUndo (E := TxErr) map_to_list Sha256 undo' block0 ∅ st3 10 = Ok (DisconnectOk, ∅, st4) /\
    Flush (E := TxErr) map_to_list st4 = Ok st5 /\ cache_ok ops0 st5 utxo0.
Proof.
  assert (exists cm undo st1, applied0 1000 = Ok (cm, undo, st1)) as (cm & undo & st1 & Hap).
  { assert (match applied0 1000 with Ok _ => true | _ => false end = true) as Hr by (vm_compute; reflexivity).
    destruct (applied0 1000) as [[[cm undo] st1]|e|]; [|discriminate Hr..]. exists cm, undo, st1. reflexivity. }
  destruct (block_reorg ops0 ops0_room map_to_list range0 toy_grow (fun l => l) params0 chain0 utxo0 10 ltac:(lia)
    block0 coinbase [tx1; tx2] (repeat 2 32) true true 0 5000 20000 0 1000 state0 st1 cm undo)
    as (st2 & st3 & b & undo' & st4 & st5 & E1 & E2 & _ & _ & E3 & E4 & E5 & _ & E6 & Hok & _);
    [reflexivity|apply block0_conn|apply state0_ok|repeat constructor; done|done|reflexivity|reflexivity|exact Hap|].
  exists cm, undo, st1, st2, st3, b, undo', st4, st5.
  exact (conj Hap (conj E1 (conj E2 (conj E3 (conj E4 (conj E5 (conj E6 Hok))))))).
Defined.

(** ** Money *)
Section Money.
Context `{Secp256k1} `{!SecpCompression} `{LruCache} `{!LruLaws} `{Hashes}.
Context (T : gset OutPoint) (HT : (size T <= lru_capacity)%nat).
Context (grow : nat -> nat -> nat) (drain : list (option TxErr) -> list (option TxErr)) (p : NetParams) (cv : ChainView).

End Money.

Section Scripts.
Context `{Secp256k1} `{LruCache} `{Hashes}.
Context (grow : nat -> nat -> nat) (drain : list (option TxErr) -> list (option TxErr)) (Hdrain : forall l, drain l ≡ₚ l) (cv : ChainView).

(** C15. checkInputs checks every input once and does not depend on how the
    workers are scheduled: whatever order the results come back in, it succeeds
    exactly when the best block is known, CheckInputsMoney passes, and the script
    of every input, in whichever batch it falls, verifies. *)
Theorem checkInputs_spec (t : Tx) (cm : CoinsMap) (st st' : CoinsLruCache) (flags : Z) :
  checkInputs grow drain cv t cm st flags = Ok st' <->
  exists best, GetBestBlock (E := TxErr) st = Ok (best, st') /\ cv_GetSpendHeight cv best <> -1 /\
    CheckInputsMoney t cm (cv_GetSpendHeight cv best) = Ok tt /\
    forall k i, ins t !! k = Some i -> script_ok grow t cm flags (Z.of_nat k) i.
Proof.
  pose proof (check_batches_spec grow drain Hdrain t cm flags _ 0 (ins t) (batches_enough (length (ins t)))) as Hb.
  unfold checkInputs. split.
  - intros ([best s] & Hbest & Hx)%res_bind_inv. destruct (Z.eqb_spec (cv_GetSpendHeight cv best) (-1)); [done|].
    apply res_bind_inv in Hx as ([] & Hm & Hx). apply res_bind_inv in Hx as ([] & Hs & Hx). injection Hx as <-. exists best.
    split_and!; [done|done|done|]. rw Hb in Hs. exact Hs.
  - intros (best & Hbest & Hh & Hm & Hs). rw Hbest. cbn [mbind res_bind].
    destruct (Z.eqb_spec (cv_GetSpendHeight cv best) (-1)); [done|]. rw Hm. cbn [mbind res_bind].
    rw (proj2 Hb Hs). done.
Qed.
End Scripts.
Lemma checkInputs_spec_witness :
  exists st', checkInputs toy_grow (fun l => reverse l) chain0 tx1 utxo0 state0 0 = Ok st'.
Proof.
  exists state0. apply (checkInputs_spec toy_grow (fun l => reverse l) (fun l => reverse_Permutation l) chain0 tx1 utxo0 state0 state0 0).
  exists (Some (repeat 1 32)). split; [vm_compute; reflexivity|]. split; [done|]. split; [vm_compute; reflexivity|].
  intros [|k] i Hi; [|by destruct k]. injection Hi as <-. exists coin0, any_script. split_and!; vm_compute; reflexivity.
Defined.

(** ** The layers refine a map *)

(** What callers do with a coin map, and what that means for a map of coins. *)
Inductive utxo_op :=
| DoFetch (op : OutPoint)
| DoAdd (op : OutPoint) (out : TxOut) (height : Z) (cb : bool)
| DoSpend (op : OutPoint).
Definition spec_op (V : gmap OutPoint Coin) (o : utxo_op) : gmap OutPoint Coin :=
  match o with
  | DoFetch _ => V
  | DoAdd op out height cb => <[op := coin_of out height cb]> V
  | DoSpend op => delete op V
  end.

Section Refine.
Context `{Secp256k1} `{!SecpCompression} `{LruCache} `{!LruLaws}.
Context (T : gset OutPoint) (HT : (size T <= lru_capacity)%nat).
Context (range : gmap OutPoint Coin -> list (OutPoint * Coin)) (Hrange : forall m, range m ≡ₚ map_to_list m).

Definition run_op (s : CoinsMap * CoinsLruCache) (o : utxo_op) : res werr (CoinsMap * CoinsLruCache) :=
  let '(cm, st) := s in
  match o with
  | DoFetch op => '(_, cm, st) ← FetchCoin cm st op; Ok (cm, st)
  | DoAdd op out height cb => cm ← AddCoin cm op (NewFreshCoin out height cb); Ok (cm, st)
  | DoSpend op => '(_, cm, st) ← SpendGlobalCoin cm st op; Ok (cm, st)
  end.
Fixpoint run_ops (s : CoinsMap * CoinsLruCache) (l : list utxo_op) : res werr (CoinsMap * CoinsLruCache) :=
  match l with [] => Ok s | o :: l => s ← run_op s o; run_ops s l end.

(** Coins are added under outpoints that are not stored yet, and spent when they
    are there. *)
Definition op_ok (U V : gmap OutPoint Coin) (o : utxo_op) : Prop :=
  let fits op := wf_outpoint op /\ op ∈ T in
  match o with
  | DoFetch op => fits op
  | DoAdd op out height cb => fits op /\ U !! op = None /\ out_ok out /\ TxOut_IsSpendable out = true /\ 0 < height < 2 ^ 30
  | DoSpend op => fits op /\ is_Some (V !! op)
  end.
Fixpoint ops_ok (U V : gmap OutPoint Coin) (l : list utxo_op) : Prop :=
  match l with [] => True | o :: l => op_ok U V o /\ ops_ok U (spec_op V o) l end.

Lemma run_op_rep U V o cm st : cache_ok T st U -> cm_rep T st U cm V -> op_ok U V o ->
  exists cm' st', run_op (cm, st) o = Ok (cm', st') /\ cache_ok T st' U /\ cm_rep T st' U cm' (spec_op V o).
Proof.
  intros Hok Hcm Ho. destruct o as [op|op out h cb|op]; cbn [run_op spec_op].
  - destruct Ho as [Hw Hin].
    destruct (FetchCoin_rep (E := werr) T HT st U cm V op Hok Hcm Hw Hin) as (st1 & cm1 & c & -> & Hok1 & _ & Hcm1 & _).
    by exists cm1, st1.
  - destruct Ho as ([Hw Hin] & HU & [Hd Hv] & Hs & Hh).
    destruct (AddCoin_rep (E := werr) T HT st U cm V op (NewFreshCoin out h cb) Hcm HU Hw Hin) as (cm1 & -> & Hcm1); [done|done|by split|].
    by exists cm1, st.
  - destruct Ho as ([Hw Hin] & [v Hv]).
    destruct (SpendGlobalCoin_rep (E := werr) T HT U op v cm st V Hok Hcm Hw Hin Hv) as (c & cm1 & st1 & -> & _ & Hok1 & Hcm1).
    by exists cm1, st1.
Qed.
Lemma run_ops_rep U l : forall V cm st, cache_ok T st U -> cm_rep T st U cm V -> ops_ok U V l ->
  exists cm' st', run_ops (cm, st) l = Ok (cm', st') /\ cache_ok T st' U /\ cm_rep T st' U cm' (foldl spec_op V l).
Proof.
  induction l as [|o l IH]; intros V cm st Hok Hcm Hl; cbn [run_ops foldl]; [by exists cm, st|]. destruct Hl as [Ho Hl].
  destruct (run_op_rep U V o cm st Hok Hcm Ho) as (cm1 & st1 & -> & Hok1 & Hcm1). by apply IH.
Qed.

(** C7. As long as the LRU cache evicts nothing, the UTXO layers refine a map of coins.
    [T] is the set of all outpoints that the cache holds or that an operation names; it
    has at most 1,000,000 elements, the capacity of the LRU cache, so that no entry is
    evicted.  Then any sequence of fetches, additions of spendable coins under new
    outpoints and spends of existing coins runs without an error on a coin map over the LRU
    cache over the database, and after UpdateCoins and Flush, in whatever order Go iterates its maps,
    reading any outpoint of [T] through the cache gives what the same operations do to the
    map [U], and the best block is the new one.  Nothing of the changes is left in memory
    only.  (Once entries are evicted between two flushes the code does not refine the map:
    GetCoin does not look at dirtyCoins, and UpdateCoins panics.) *)
Theorem utxo_refines_map (U : gmap OutPoint Coin) (st : CoinsLruCache) (l : list utxo_op) (h : bytes) :
  cache_ok T st U -> ops_ok U U l -> Hash_IsNull h = false ->
  exists cm st1 st2 st3, run_ops (∅, st) l = Ok (cm, st1) /\
    UpdateCoins (E := werr) range st1 cm h = Ok st2 /\ Flush (E := werr) range st2 = Ok st3 /\
    dirtyCoins st3 = ∅ /\ GetBestBlock (E := werr) st3 = Ok (Some h, st3) /\
    forall op, wf_outpoint op -> op ∈ T ->
      CoinsDB_GetCoin (db st3) op = Ok (foldl spec_op U l !! op) /\
      exists st4, GetCoin (E := werr) st3 op = Ok (foldl spec_op U l !! op, st4).
Proof.
  intros Hok Hl Hh. destruct (run_ops_rep U l U ∅ st Hok (cm_rep_empty T HT st U) Hl) as (cm & st1 & E1 & Hok1 & Hcm1).
  destruct (commit_rep (E := werr) T HT range Hrange st1 U cm _ h Hok1 Hcm1 Hh) as (st2 & st3 & E2 & E3 & Hok3 & Hh3 & _).
  exists cm, st1, st2, st3. split_and!; [done|done|done|by apply (ok_dirty _ _ _ Hok3)| |].
  - unfold GetBestBlock. by rw Hh3 Hh.
  - intros op Hw Hin. split; [by apply (rep_get _ _ (ok_rep _ _ _ Hok3))|].
    destruct (GetCoin_rep (E := werr) T HT st3 _ op Hok3 Hw Hin) as (st4 & E4 & _). by exists st4.
Qed.
End Refine.

Definition new_op : OutPoint := mkOutPoint (txid Sha256 tx1) 0.
Lemma utxo_refines_map_witness :
  exists cm st1 st2 st3,
    run_ops (∅, state0) [DoFetch op0; DoAdd new_op (mkTxOut 4900 (Some any_script)) 10 false; DoSpend op0] = Ok (cm, st1) /\
    UpdateCoins (E := werr) map_to_list st1 cm (repeat 2 32) = Ok st2 /\ Flush (E := werr) map_to_list st2 = Ok st3 /\
    CoinsDB_GetCoin (db st3) op0 = Ok None.
Proof.
  assert (forall op, bool_decide (op ∈ ops0) = true -> op ∈ ops0) as Hin by (intros op; apply bool_decide_eq_true_1).
  assert (wf_outpoint new_op) as Hw by (split; [by vm_compute|split; [apply bytes_ok_dec; by vm_compute|done]]).
  assert (op0 ∈ ops0) as H0 by (apply Hin; by vm_compute). assert (new_op ∈ ops0) as H1 by (apply Hin; by vm_compute).
  destruct (utxo_refines_map ops0 ops0_room map_to_list range0 utxo0 state0
    [DoFetch op0; DoAdd new_op (mkTxOut 4900 (Some any_script)) 10 false; DoSpend op0] (repeat 2 32) state0_ok)
    as (cm & st1 & st2 & st3 & E1 & E2 & E3 & _ & _ & Hall).
  - split; [split; [apply op0_wf|exact H0]|]. split; [|split; [|exact I]].
    + split; [exact (conj Hw H1)|]. split; [vm_compute; reflexivity|]. split; [split; [exists [OP_1]; reflexivity|cbn [value]; lia]|]. split; [vm_compute; reflexivity|lia].
    + split; [split; [apply op0_wf|exact H0]|]. exists coin0. vm_compute. reflexivity.
  - reflexivity.
  - exists cm, st1, st2, st3. destruct (Hall op0 op0_wf H0) as [Hd _].
    exact (conj E1 (conj E2 (conj E3 (eq_trans Hd (f_equal Ok (lookup_delete_eq _ op0)))))).
Defined.

(** ** Coins and undo data on disk *)

(** The undo file is faithful: the undo data of a block, whose coins are
    stored with compressed amounts and scripts, is read back with the same outputs,
    heights and coinbase flags, and the bytes are consumed exactly. *)
Theorem undo_file_roundtrip `{Secp256k1} `{!SecpCompression} (bu : BlockUndo) :
  Forall (fun tu => Forall storable tu /\ Z.of_nat (length tu) <= MaxInputPerTx) bu -> 8 * Z.of_nat (length bu) <= maxAlloc ->
  exists b bu', BlockUndo_Serialize bu = Ok b /\ BlockUndo_Unserialize b = Ok (bu', []) /\
    Forall2 (Forall2 (fun c c' => coin_txOut c' = coin_txOut c /\ coin_height c' = coin_height c /\ coin_isCoinBase c' = coin_isCoinBase c)) bu bu'.
Proof.
  intros Hs Hn. destruct (BlockUndo_roundtrip bu Hs Hn) as (b & E1 & E2). exists b, (map (map undo_coin) bu). split_and!; [done|done|].
  apply Forall2_fmap_r, Forall_Forall2_diag, Forall_true. intros tu. by apply Forall2_fmap_r, Forall_Forall2_diag, Forall_true.
Qed.
Lemma undo_file_roundtrip_witness :
  exists b bu', BlockUndo_Serialize [[coin0]] = Ok b /\ BlockUndo_Unserialize b = Ok (bu', []).
Proof.
  destruct (undo_file_roundtrip [[coin0]]) as (b & bu' & E1 & E2 & _).
  - constructor; [|constructor]. split; [constructor; [apply coin0_storable|constructor]|done].
  - done.
  - exists b, bu'. exact (conj E1 E2).
Defined.

(** A coin that was spent has no script; DeepCopy gives it back as an unspent coin
    of value 0, so that FetchCoin does not see that the cached coin is spent. *)
Lemma DeepCopy_forgets_spent c : IsSpent c = true -> scriptPubKey (coin_txOut c) = None ->
  IsSpent (DeepCopy c) = false /\ value (coin_txOut (DeepCopy c)) = 0.
Proof. intros Hs Hn. unfold DeepCopy. by rw Hn. Qed.
