(* ===== verification/Merkle.v ===== *)
(** * Merkle trees (logic/lmerkleroot, logic/lmerkleblock)

    The constant-space root and branch computation over the hashes of a block's
    transactions, and partial trees as they are sent to light clients. *)
From S2P Require Import Prelude Errors Wire ScriptNum Opcodes Script ScriptFacts Tx TxFacts Crypto Compress Coins Block Undo.

Section Merkle.
Context (Sha256 : bytes -> bytes).

(** The hash of two concatenated hashes. *)
Definition hash2 (left right : bytes) : bytes := DoubleSha256Hash Sha256 (left ++ right).
Definition HashMerkleBranches (left right : bytes) : bytes := hash2 left right.

(** ** lmerkleroot.go *)

(** [count & (uint32(1) << level) == 0] *)
Definition bit_clear (count : Z) (level : nat) : bool := count .& u32 (1 .<< Z.of_nat level) =? 0.

(** What a branch gains at a level: nothing without a branch, the stored hash when
    the path is in [h], and [h] when the path is in the stored hash. *)
Definition extend_branch (pbranch : option (list bytes)) (matchlevel : Z) (level : nat) (isMatched : bool) (inner h : bytes)
  : bool * option (list bytes) :=
  match pbranch with
  | None => (isMatched, None)
  | Some b =>
      if isMatched then (true, Some (b ++ [inner]))
      else if matchlevel =? Z.of_nat level then (true, Some (b ++ [h]))
      else (false, Some b)
  end.
(** The loop over the low zero bits of [count]; the array [inner] has 32 entries,
    so at level 32 the index is out of range and 33 rounds are enough. *)
Fixpoint absorb {E} (fuel : nat) (count : Z) (inner : list bytes) (matchlevel : Z) (level : nat) (h : bytes)
    (isMatched mutated : bool) (pbranch : option (list bytes)) : res E (nat * bytes * bool * bool * option (list bytes)) :=
  match fuel with
  | O => Panic
  | S fuel =>
      if bit_clear count level then
        il ← nth_go inner (Z.of_nat level);
        let '(isMatched, pbranch) := extend_branch pbranch matchlevel level isMatched il h in
        absorb fuel count inner matchlevel (S level) (hash2 il h) isMatched (mutated || bool_decide (il = h)) pbranch
      else Ok (level, h, isMatched, mutated, pbranch)
  end.

Record mstate := mkMerkle {
  m_count : Z;
  m_inner : list bytes;
  m_matchlevel : Z;
  m_mutated : bool;
  m_branch : option (list bytes) }.
Fixpoint process_leaves {E} (branchpos : Z) (leaves : list bytes) (s : mstate) : res E mstate :=
  match leaves with
  | [] => Ok s
  | h :: leaves =>
      let isMatched := m_count s =? branchpos in
      let count := u32 (m_count s + 1) in
      '(level, h, isMatched, mutated, pbranch) ←
        absorb 33 count (m_inner s) (m_matchlevel s) 0 h isMatched (m_mutated s) (m_branch s);
      process_leaves branchpos leaves
        (mkMerkle count (<[level := h]> (m_inner s)) (if (isMatched : bool) then Z.of_nat level else m_matchlevel s) mutated pbranch)
  end.
(** The level of the lowest set bit; there is one, as no list has 2^32 leaves. *)
Fixpoint skip_levels {E} (fuel : nat) (count : Z) (level : nat) : res E nat :=
  match fuel with
  | O => Panic
  | S fuel => if bit_clear count level then skip_levels fuel count (S level) else Ok level
  end.
(** The final sweep; its inner loop is the one above without the test for equal
    hashes.  Every round raises the level, which stays below 32. *)
Fixpoint sweep {E} (fuel : nat) (count : Z) (inner : list bytes) (matchlevel : Z) (level : nat) (h : bytes)
    (isMatched : bool) (pbranch : option (list bytes)) : res E (bytes * option (list bytes)) :=
  match fuel with
  | O => Panic
  | S fuel =>
      if negb (count =? u32 (1 .<< Z.of_nat level)) then
        let pbranch := if isMatched then (fun b => b ++ [h]) <$> pbranch else pbranch in
        let count := u32 (count + u32 (1 .<< Z.of_nat level)) in
        '(level, h, isMatched, _, pbranch) ← absorb 33 count inner matchlevel (S level) (hash2 h h) isMatched false pbranch;
        sweep fuel count inner matchlevel level h isMatched pbranch
      else Ok (h, pbranch)
  end.
(** The root, whether two equal hashes were combined, and the branch. *)
Definition merkleComputation {E} (leaves : list bytes) (branchpos : Z) (pbranch : option (list bytes))
  : res E (bytes * bool * option (list bytes)) :=
  let pbranch := (fun _ => []) <$> pbranch in
  match leaves with
  | [] => Ok (HashZero, false, pbranch)
  | _ =>
      s ← process_leaves branchpos leaves (mkMerkle 0 (repeat HashZero 32) (-1) false pbranch);
      level ← skip_levels 33 (m_count s) 0;
      h ← nth_go (m_inner s) (Z.of_nat level);
      '(root, pbranch) ← sweep 33 (m_count s) (m_inner s) (m_matchlevel s) level h
                                  (m_matchlevel s =? Z.of_nat level) (m_branch s);
      Ok (root, m_mutated s, pbranch)
  end.

Definition ComputeMerkleRoot {E} (leaves : list bytes) : res E (bytes * bool) :=
  '(root, mutated, _) ← merkleComputation leaves 0xffffffff None; Ok (root, mutated).
Definition ComputeMerkleBranch {E} (leaves : list bytes) (position : Z) : res E (list bytes) :=
  '(_, _, b) ← merkleComputation leaves position (Some []); Ok (default [] b).
Fixpoint ComputeMerkleRootFromBranch (leaf : bytes) (branch : list bytes) (index : Z) : bytes :=
  match branch with
  | [] => leaf
  | b :: branch =>
      let hash := if index .& 1 =? 1 then hash2 b leaf else hash2 leaf b in
      ComputeMerkleRootFromBranch hash branch (index .>> 1)
  end.
Definition BlockMerkleRoot {E} (txs : list Tx) : res E (bytes * bool) := ComputeMerkleRoot (map (txid Sha256) txs).
Definition BlockMerkleBranch {E} (txs : list Tx) (position : Z) : res E (list bytes) :=
  ComputeMerkleBranch (map (txid Sha256) txs) position.

(** ** lpartial_merkle_tree.go *)
Record PartialMerkleTree := mkPMT {
  pmt_txs : Z;
  pmt_bits : list bool;
  pmt_hashes : list bytes;
  pmt_bad : bool }.

(** [int] arithmetic, then a conversion to [uint]; shifting by 64 or more gives 0. *)
Definition calcTreeWidth (txs : Z) (height : nat) : Z :=
  u64 (i64 (i64 (txs + i64 (1 .<< Z.of_nat height)) - 1) .>> Z.of_nat height).
(** The smallest height with at most one node: at height 65 at the latest the shift
    leaves 0 or -1, which is only reached for a negative number of transactions. *)
Fixpoint tree_height {E} (fuel : nat) (txs : Z) (height : nat) : res E nat :=
  match fuel with
  | O => Panic
  | S fuel => if 1 <? calcTreeWidth txs height then tree_height fuel txs (S height) else Ok height
  end.

Fixpoint calcHash {E} (txs : Z) (height : nat) (pos : Z) (txids : list bytes) : res E bytes :=
  match height with
  | O => if decide (txids = []) then Ok HashZero else nth_go txids pos
  | S height =>
      l ← calcHash txs height (u64 (pos * 2)) txids;
      r ← (if u64 (u64 (pos * 2) + 1) <? calcTreeWidth txs height
           then calcHash txs height (u64 (u64 (pos * 2) + 1)) txids else Ok l);
      Ok (hash2 l r)
  end.

(** Whether one of the [n] transactions from [p] on matches; after the first match
    nothing more is read. *)
Fixpoint any_match {E} (n : nat) (p txs : Z) (matches : list bool) : res E bool :=
  match n with
  | O => Ok false
  | S n =>
      if p <? u64 txs then
        b ← nth_go matches p; if (b : bool) then Ok true else any_match n (p + 1) txs matches
      else Ok false
  end.
(** The bits and hashes that are appended, in depth-first order. *)
Fixpoint TraverseAndBuild {E} (txs : Z) (height : nat) (pos : Z) (txids : list bytes) (matches : list bool)
  : res E (list bool * list bytes) :=
  let first := u64 (pos .<< Z.of_nat height) in
  parentOfMatch ← any_match (Z.to_nat (u64 (u64 (pos + 1) .<< Z.of_nat height) - first)) first txs matches;
  match height with
  | O => h ← calcHash txs 0 pos txids; Ok ([parentOfMatch], [h])
  | S lower =>
      if negb parentOfMatch then h ← calcHash txs height pos txids; Ok ([parentOfMatch], [h])
      else
        '(b1, h1) ← TraverseAndBuild txs lower (u64 (pos * 2)) txids matches;
        '(b2, h2) ← (if u64 (u64 (pos * 2) + 1) <? calcTreeWidth txs lower
                     then TraverseAndBuild txs lower (u64 (u64 (pos * 2) + 1)) txids matches else Ok ([], []));
        Ok (parentOfMatch :: b1 ++ b2, h1 ++ h2)
  end.
Definition NewPartialMerkleTree {E} (txids : list bytes) (matches : list bool) : res E PartialMerkleTree :=
  let txs := Z.of_nat (length txids) in
  height ← tree_height 66 txs 0;
  '(bits, hashes) ← TraverseAndBuild txs height 0 txids matches;
  Ok (mkPMT txs bits hashes false).

(** *** Extraction *)
Record xstate := mkX {
  x_bitUsed : nat;
  x_hashUsed : nat;
  x_matches : list bytes;
  x_items : list Z;
  x_bad : bool }.
Definition x_fail (s : xstate) : xstate := mkX (x_bitUsed s) (x_hashUsed s) (x_matches s) (x_items s) true.
Fixpoint TraverseAndExtract (t : PartialMerkleTree) (height : nat) (pos : Z) (s : xstate) : bytes * xstate :=
  match (pmt_bits t !! x_bitUsed s : option bool) with
  | None => (HashZero, x_fail s)
  | Some parentOfMatch =>
      let s := mkX (S (x_bitUsed s)) (x_hashUsed s) (x_matches s) (x_items s) (x_bad s) in
      match height with
      | O =>
          match (pmt_hashes t !! x_hashUsed s : option bytes) with
          | None => (HashZero, x_fail s)
          | Some hash =>
              (hash, mkX (x_bitUsed s) (S (x_hashUsed s)) (if parentOfMatch then x_matches s ++ [hash] else x_matches s)
                       (if parentOfMatch then x_items s ++ [i64 pos] else x_items s) (x_bad s))
          end
      | S lower =>
          if negb parentOfMatch then
            match (pmt_hashes t !! x_hashUsed s : option bytes) with
            | None => (HashZero, x_fail s)
            | Some hash => (hash, mkX (x_bitUsed s) (S (x_hashUsed s)) (x_matches s) (x_items s) (x_bad s))
            end
          else
            let '(l, s) := TraverseAndExtract t lower (u64 (pos * 2)) s in
            let '(r, s) :=
              if u64 (u64 (pos * 2) + 1) <? calcTreeWidth (pmt_txs t) lower then
                let '(r, s) := TraverseAndExtract t lower (u64 (u64 (pos * 2) + 1)) s in
                (r, if bool_decide (r = l) then x_fail s else s)
              else (l, s) in
            (hash2 l r, s)
      end
  end.
(** The root with the matched hashes and their positions, which the caller's [items]
    gains; the zero hash is the answer to a malformed tree, whose [bad] is set. *)
Definition ExtractMatches {E} (t : PartialMerkleTree) : res E (bytes * list bytes * list Z * PartialMerkleTree) :=
  if pmt_txs t =? 0 then Ok (HashZero, [], [], t)
  else if pmt_txs t <? Z.of_nat (length (pmt_hashes t)) then Ok (HashZero, [], [], t)
  else if (length (pmt_bits t) <? length (pmt_hashes t))%nat then Ok (HashZero, [], [], t)
  else
    height ← tree_height 66 (pmt_txs t) 0;
    let '(root, s) := TraverseAndExtract t height 0 (mkX 0 0 [] [] (pmt_bad t)) in
    Ok (if x_bad s then HashZero
        else if negb ((x_bitUsed s + 7) / 8 =? (length (pmt_bits t) + 7) / 8)%nat then HashZero
        else if negb (x_hashUsed s =? length (pmt_hashes t))%nat then HashZero
        else root, x_matches s, x_items s, mkPMT (pmt_txs t) (pmt_bits t) (pmt_hashes t) (x_bad s)).

(** *** Encoding *)
Definition bit_byte (l : list bool) : Z := foldr (fun b n => Z.b2z b + 2 * n) 0 l.
Fixpoint pack_bits (n : nat) (l : list bool) : bytes :=
  match n with O => [] | S n => bit_byte (take 8 l) :: pack_bits n (drop 8 l) end.
Definition unpack_bits (bs : bytes) : list bool :=
  concat (map (fun b => map (fun i => Z.testbit b (Z.of_nat i)) (seq 0 8)) bs).
Definition PMT_Serialize (t : PartialMerkleTree) : bytes :=
  WriteVarInt (u64 (pmt_txs t)) ++ WriteVarInt (Z.of_nat (length (pmt_hashes t))) ++ concat (pmt_hashes t) ++
  WriteVarBytes (pack_bits ((length (pmt_bits t) + 7) / 8) (pmt_bits t)).
Definition PMT_Unserialize : rd werr PartialMerkleTree :=
  txs ← ReadVarInt;
  length ← ReadVarInt;
  if maxAlloc <? 32 * length then rd_panic
  else
    hashes ← rd_times (Z.to_nat length) (ReadFull 32);
    bs ← ReadVarBytes 0xffffffff;
    mret (mkPMT (i64 txs) (unpack_bits bs) hashes false).

(** ** lmerkle_block.go *)
(** The list of matches of the type is never filled. *)
Record MerkleBlock := mkMerkleBlock { mb_Header : BlockHeader; mb_Txn : PartialMerkleTree }.
Definition NewMerkleBlock {E : Type} (bk : Block) (txids : gset bytes) : res E MerkleBlock :=
  let hashes := map (txid Sha256) (Txs bk) in
  t ← NewPartialMerkleTree hashes (map (fun h => bool_decide (h ∈ txids)) hashes);
  Ok (mkMerkleBlock (Header bk) t).
Definition MerkleBlock_Serialize (mb : MerkleBlock) : bytes := Header_Serialize (mb_Header mb) ++ PMT_Serialize (mb_Txn mb).
Definition MerkleBlock_Unserialize (mb : MerkleBlock) : rd werr MerkleBlock :=
  h ← Header_Unserialize (mb_Header mb); t ← PMT_Unserialize; mret (mkMerkleBlock h t).
End Merkle.
