(* ===== verification/MerkleFacts.v ===== *)
(** * What the merkle computations compute

    A reference definition of the nodes of the tree, and the proof that the
    constant-space computation and the recursive one of partial trees agree with
    it. *)
From S2P Require Import Prelude Errors Wire ScriptNum Opcodes Script ScriptFacts Tx TxFacts Crypto Compress Coins Block Undo Merkle.

(** ** Powers of two in [nat] *)
Lemma pow2_pos k : (0 < 2 ^ k)%nat.
Proof. apply Nat.neq_0_lt_0, Nat.pow_nonzero. lia. Qed.
Lemma pow2_S k : (2 ^ S k = 2 * 2 ^ k)%nat.
Proof. by rw Nat.pow_succ_r'. Qed.
Lemma pow2_Z k : Z.of_nat (2 ^ k) = 2 ^ Z.of_nat k.
Proof. by rw Nat2Z.inj_pow. Qed.
Lemma pow2_add j d : (2 ^ (j + d) = 2 ^ d * 2 ^ j)%nat.
Proof. rw Nat.pow_add_r. lia. Qed.
(** Quotient and remainder are unique. *)
Lemma quot_unique k q r q' r' : (q * 2 ^ k + r = q' * 2 ^ k + r')%nat -> (r < 2 ^ k)%nat -> (r' < 2 ^ k)%nat -> q = q' /\ r = r'.
Proof.
  intros He Hr Hr'. destruct (Nat.div_mod_unique (2 ^ k) q q' r r') as [-> ->]; [done|done|lia|done].
Qed.

Section Spec.
Context (Sha256 : bytes -> bytes) (leaves : list bytes).
Abbreviation hash2 := (hash2 Sha256).
Abbreviation N := (length leaves).

(** Node [i] of level [k]: the leaves are level 0, and a node without a right child
    has its left child twice. *)
Fixpoint node (k i : nat) : bytes :=
  match k with
  | O => nth i leaves HashZero
  | S k => hash2 (node k (2 * i)) (if ((2 * i + 1) * 2 ^ k <? N)%nat then node k (2 * i + 1) else node k (2 * i))
  end.
Lemma node_full k i : ((2 * i + 1) * 2 ^ k < N)%nat -> node (S k) i = hash2 (node k (2 * i)) (node k (2 * i + 1)).
Proof. intros Hi. cbn [node]. by destruct (Nat.ltb_spec ((2 * i + 1) * 2 ^ k) N); [|lia]. Qed.
Lemma node_last k i : (N <= (2 * i + 1) * 2 ^ k)%nat -> node (S k) i = hash2 (node k (2 * i)) (node k (2 * i)).
Proof. intros Hi. cbn [node]. by destruct (Nat.ltb_spec ((2 * i + 1) * 2 ^ k) N); [lia|]. Qed.

(** Two complete subtrees side by side with the same hash, among the first [n]
    leaves. *)
Definition twins (n : nat) : Prop := exists k i, ((2 * i + 2) * 2 ^ k <= n)%nat /\ node k (2 * i) = node k (2 * i + 1).

(** ** The bits of the counter *)
Lemma bit_clear_spec c q k : (k < 32)%nat -> c = (q * 2 ^ k)%nat -> bit_clear (Z.of_nat c) k = Nat.even q.
Proof.
  intros Hk ->. unfold bit_clear. rw Z.shiftl_1_l u32_id; last (unfold is_u; split; [lia|apply Z.pow_lt_mono_r; lia]).
  rw land_pow2_eqb0; last lia. rw Nat2Z.inj_mul pow2_Z Z.mul_pow2_bits; last lia. rw Z.sub_diag Z.bit0_odd -Nat.negb_odd. f_equal.
  destruct (Nat.Even_or_Odd q) as [[m ->]|[m ->]].
  - rw Nat2Z.inj_mul Z.odd_mul. rw Nat.odd_mul. done.
  - rw Nat2Z.inj_add Nat2Z.inj_mul Z.odd_add Z.odd_mul Nat.odd_add Nat.odd_mul. done.
Qed.

(** ** The loop over the low zero bits *)
Lemma absorb_root {E} inner ml c fuel : forall k q h m mu pb,
  c = (q * 2 ^ k)%nat -> (0 < q)%nat -> (Z.of_nat c <= 2 ^ 31) -> (33 <= fuel + k)%nat -> h = node k (q - 1) ->
  (forall j i, (k <= j)%nat -> c = ((2 * i + 2) * 2 ^ j)%nat -> inner !! j = Some (node j (2 * i)) /\ ((2 * i + 1) * 2 ^ j < N)%nat) ->
  exists L p m' mu' pb', absorb (E := E) Sha256 fuel (Z.of_nat c) inner ml k h m mu pb = Ok (L, node L (2 * p), m', mu', pb') /\
    c = ((2 * p + 1) * 2 ^ L)%nat /\ (k <= L < 32)%nat /\
    (mu' = true <-> mu = true \/ exists j i, (k <= j)%nat /\ c = ((2 * i + 2) * 2 ^ j)%nat /\ node j (2 * i) = node j (2 * i + 1)).
Proof.
  induction fuel as [|fuel IH]; intros k q h m mu pb Hc Hq Hb Hf Hh Hin.
  { exfalso. subst c. rw Nat2Z.inj_mul pow2_Z in Hb. assert (2 ^ 33 <= 2 ^ Z.of_nat k) by (apply Z.pow_le_mono_r; lia). nia. }
  assert (k < 32)%nat as Hk.
  { destruct (decide (k < 32)%nat); [done|]. exfalso. subst c. rw Nat2Z.inj_mul pow2_Z in Hb.
    assert (2 ^ 32 <= 2 ^ Z.of_nat k) by (apply Z.pow_le_mono_r; lia). nia. }
  cbn [absorb]. rw (bit_clear_spec c q k Hk Hc). destruct (Nat.even q) eqn:Eq.
  - apply Nat.even_spec in Eq as [q' ->]. destruct q' as [|i]; [lia|].
    assert (c = (2 * i + 2) * 2 ^ k)%nat as Hci by (rw Hc; f_equal; lia).
    destruct (Hin k i (Nat.le_refl k) Hci) as [Hi HN]. unfold nth_go. destruct (Z.ltb_spec (Z.of_nat k) 0); [lia|].
    rw Nat2Z.id Hi. cbn [mbind res_bind]. destruct (extend_branch _ _ _ _ _ _) as [m1 pb1].
    assert (h = node k (2 * i + 1)) as Hh' by (rw Hh; f_equal; lia).
    destruct (IH (S k) (S i) (hash2 (node k (2 * i)) h) m1 (mu || bool_decide (node k (2 * i) = h)) pb1) as (L & p & m' & mu' & pb' & E1 & E2 & E3 & E4).
    + rw pow2_S. lia.
    + lia.
    + done.
    + lia.
    + rw Hh'. replace (S i - 1)%nat with i by lia. by rw node_full.
    + intros j i' Hj. apply Hin. lia.
    + exists L, p, m', mu', pb'. split_and!; [done|done|lia|lia|]. rw E4 orb_true_iff bool_decide_eq_true. split.
      * intros [[?|Heq]|(j & i' & Hj & ? & ?)]; [by left|right; exists k, i; by rw -Hh'|right; exists j, i'; split; [lia|done]].
      * intros [?|(j & i' & Hj & Hcj & Heq)]; [by left; left|]. destruct (decide (j = k)) as [->|Hne].
        -- left. right. assert (i' = i) as -> by (destruct (quot_unique k (2 * i' + 2) 0 (2 * i + 2) 0); [lia|apply pow2_pos|apply pow2_pos|lia]).
           by rw Hh'.
        -- right. exists j, i'. split; [lia|done].
  - assert (Nat.odd q = true) as Ho by (rw -Nat.negb_even Eq; done). apply Nat.odd_spec in Ho as [p ->].
    exists k, p, m, mu, pb. split; [by rw Hh; do 6 f_equal; lia|]. split; [done|]. split; [lia|]. split; [by left|].
    intros [?|(j & i & Hj & Hcj & _)]; [done|]. exfalso. replace j with (k + (j - k))%nat in Hcj by lia.
    rw Hc pow2_add Nat.mul_assoc in Hcj. destruct (quot_unique k (2 * p + 1) 0 ((2 * i + 2) * 2 ^ (j - k)) 0) as [He _];
      [lia|apply pow2_pos|apply pow2_pos|]. nia.
Qed.

(** ** The leaves *)

(** After [n] leaves, [inner] has the last complete node of each level that waits
    for its sibling. *)
Definition inner_ok (n : nat) (inner : list bytes) : Prop :=
  length inner = 32%nat /\
  forall k q r, n = ((2 * q + 1) * 2 ^ k + r)%nat -> (r < 2 ^ k)%nat -> (k < 32)%nat -> inner !! k = Some (node k (2 * q)).

(** The nodes a counter [c] meets on its zero bits are the ones [n] left. *)
Lemma inner_below n inner c k : inner_ok n inner -> Z.of_nat c <= 2 ^ 31 -> (n < c)%nat -> (c <= n + 2 ^ k)%nat -> (n <= N)%nat ->
  forall j i, (k <= j)%nat -> c = ((2 * i + 2) * 2 ^ j)%nat -> inner !! j = Some (node j (2 * i)) /\ ((2 * i + 1) * 2 ^ j <= n)%nat.
Proof.
  intros [_ Hin] Hc Hn Hle HN j i Hj ->. pose proof (pow2_pos j). assert (2 ^ k <= 2 ^ j)%nat by (apply Nat.pow_le_mono_r; lia).
  assert (j < 32)%nat.
  { destruct (decide (j < 32)%nat); [done|]. exfalso. rw Nat2Z.inj_mul pow2_Z in Hc.
    assert (2 ^ 32 <= 2 ^ Z.of_nat j) by (apply Z.pow_le_mono_r; lia). nia. }
  split; [|nia]. apply (Hin j i (n - (2 * i + 1) * 2 ^ j)%nat); [nia|nia|done].
Qed.

Lemma inner_step n inner L p : inner_ok n inner -> (S n = (2 * p + 1) * 2 ^ L)%nat -> (L < 32)%nat ->
  inner_ok (S n) (<[L := node L (2 * p)]> inner).
Proof.
  intros [Hl Hin] Hn HL. split; [by rw length_insert|]. intros k q r Hk Hr Hk32.
  destruct (lt_eq_lt_dec k L) as [[Hlt| ->]|Hgt].
  - exfalso. replace L with (k + (L - k))%nat in Hn by lia. rw pow2_add Nat.mul_assoc in Hn.
    destruct (quot_unique k (2 * q + 1) r ((2 * p + 1) * 2 ^ (L - k)) 0) as [He _]; [lia|done|apply pow2_pos|].
    replace (L - k)%nat with (S (L - k - 1)) in He by lia. rw pow2_S in He. nia.
  - destruct (quot_unique L (2 * q + 1) r (2 * p + 1) 0) as [He _]; [lia|done|apply pow2_pos|].
    rw list_lookup_insert_eq; [|lia]. do 2 f_equal. lia.
  - rw list_lookup_insert_ne; [|lia]. destruct r as [|r].
    + exfalso. replace k with (L + (k - L))%nat in Hk by lia. rw pow2_add Nat.mul_assoc in Hk.
      destruct (quot_unique L (2 * p + 1) 0 ((2 * q + 1) * 2 ^ (k - L)) 0) as [He _]; [lia|apply pow2_pos|apply pow2_pos|].
      replace (k - L)%nat with (S (k - L - 1)) in He by lia. rw pow2_S in He. nia.
    + apply (Hin k q r); [lia|lia|done].
Qed.

Lemma process_leaves_root {E} pos l : forall n s, drop n leaves = l -> m_count s = Z.of_nat n -> (n <= N)%nat -> Z.of_nat N <= 2 ^ 31 ->
  inner_ok n (m_inner s) -> (m_mutated s = true <-> twins n) ->
  exists s', process_leaves (E := E) Sha256 pos l s = Ok s' /\ m_count s' = Z.of_nat N /\ inner_ok N (m_inner s') /\
    (m_mutated s' = true <-> twins N).
Proof.
  induction l as [|h l IH]; intros n s Hd Hc Hn HN Hin Hmu; cbn [process_leaves].
  { assert (n = N) as -> by (apply (f_equal length) in Hd; rw length_drop in Hd; cbn in Hd; lia). by exists s. }
  assert (n < N)%nat as Hlt by (apply (f_equal length) in Hd; rw length_drop in Hd; cbn in Hd; lia).
  rw Hc. replace (Z.of_nat n + 1) with (Z.of_nat (S n)) by lia. rw u32_id; last int_lia.
  destruct (absorb_root (E := E) (m_inner s) (m_matchlevel s) (S n) 33 0 (S n) h (Z.of_nat n =? pos) (m_mutated s) (m_branch s))
    as (L & p & m' & mu' & pb' & E1 & E2 & E3 & E4).
  - cbn. lia.
  - lia.
  - lia.
  - lia.
  - cbn [node]. rw Nat.sub_succ Nat.sub_0_r. apply (f_equal head) in Hd. rw head_lookup lookup_drop Nat.add_0_r in Hd. cbn in Hd. by rw (nth_lookup_Some _ _ _ _ Hd).
  - intros j i Hj Hc'. destruct (inner_below n (m_inner s) (S n) 0 Hin) with j i as [? ?]; [lia|lia|cbn; lia|lia|done|done|]. split; [done|lia].
  - rw E1. cbn [mbind res_bind]. apply (IH (S n)).
    + rw -Nat.add_1_r -drop_drop Hd. done.
    + done.
    + lia.
    + done.
    + apply inner_step; [done|done|lia].
    + cbn [m_mutated]. rw E4 Hmu. split.
      * intros [(k & i & Hki & He)|(k & i & _ & Hki & He)]; exists k, i; (split; [lia|done]).
      * intros (k & i & Hki & He). destruct (decide ((2 * i + 2) * 2 ^ k <= n)%nat); [left; by exists k, i|].
        right. exists k, i. split; [lia|]. split; [lia|done].
Qed.

(** ** The final sweep *)
Lemma skip_levels_spec {E} c fuel : forall k q, c = (q * 2 ^ k)%nat -> (0 < q)%nat -> Z.of_nat c <= 2 ^ 31 -> (33 <= fuel + k)%nat ->
  exists L p, skip_levels (E := E) fuel (Z.of_nat c) k = Ok L /\ c = ((2 * p + 1) * 2 ^ L)%nat /\ (L < 32)%nat.
Proof.
  induction fuel as [|fuel IH]; intros k q Hc Hq Hb Hf.
  { exfalso. subst c. rw Nat2Z.inj_mul pow2_Z in Hb. assert (2 ^ 33 <= 2 ^ Z.of_nat k) by (apply Z.pow_le_mono_r; lia). nia. }
  assert (k < 32)%nat as Hk.
  { destruct (decide (k < 32)%nat); [done|]. exfalso. subst c. rw Nat2Z.inj_mul pow2_Z in Hb.
    assert (2 ^ 32 <= 2 ^ Z.of_nat k) by (apply Z.pow_le_mono_r; lia). nia. }
  cbn [skip_levels]. rw (bit_clear_spec c q k Hk Hc). destruct (Nat.even q) eqn:Eq.
  - apply Nat.even_spec in Eq as [q' ->]. apply (IH (S k) q'); [rw pow2_S; lia|lia|done|lia].
  - assert (Nat.odd q = true) as Ho by (rw -Nat.negb_even Eq; done). apply Nat.odd_spec in Ho as [p ->]. exists k, p. by split_and!.
Qed.

(** The root is the only node of its level, and not of a lower one. *)
Definition top_level (K : nat) : Prop := (N <= 2 ^ K)%nat /\ (forall k, (k < K)%nat -> (2 ^ k < N)%nat).

(** The counter stays within 32 bits. *)
Lemma sweep_bounds c L p : Z.of_nat N <= 2 ^ 31 -> c = ((2 * p + 1) * 2 ^ L)%nat -> (L < 32)%nat -> (c < N + 2 ^ L)%nat -> (0 < p)%nat ->
  (L < 31)%nat /\ Z.of_nat (c + 2 ^ L) <= 2 ^ 31.
Proof.
  intros HN Hc HL Hlt Hp. assert (L < 31)%nat as HL'.
  { destruct (decide (L < 31)%nat); [done|]. exfalso. assert (Z.of_nat (2 ^ L) = 2 ^ 31) as HX by (rw pow2_Z; f_equal; lia). nia. }
  split; [done|]. assert (2 ^ 31 = Z.of_nat (2 ^ S L * 2 ^ (30 - L))) as HX by (rw -Nat.pow_add_r pow2_Z; f_equal; lia).
  assert (N <= 2 ^ S L * 2 ^ (30 - L))%nat as HNX by lia. rw HX. rw pow2_S in HNX |- *. assert (S p <= 2 ^ (30 - L))%nat; nia.
Qed.

Lemma sweep_root {E} inner ml fuel : forall c L p m pb, Z.of_nat N <= 2 ^ 31 -> inner_ok N inner ->
  c = ((2 * p + 1) * 2 ^ L)%nat -> (L < 32)%nat -> (N <= c)%nat -> (c < N + 2 ^ L)%nat -> (forall k, (k < L)%nat -> (2 ^ k < N)%nat) -> (33 <= fuel + L)%nat ->
  exists K pb', sweep (E := E) Sha256 fuel (Z.of_nat c) inner ml L (node L (2 * p)) m pb = Ok (node K 0, pb') /\ top_level K.
Proof.
  induction fuel as [|fuel IH]; intros c L p m pb HN Hin Hc HL Hle Hlt Htop Hf; [lia|]. cbn [sweep].
  rw Z.shiftl_1_l u32_id; last (unfold is_u; split; [lia|apply Z.pow_lt_mono_r; lia]). rw -pow2_Z. pose proof (pow2_pos L) as HpL.
  destruct (Z.eqb_spec (Z.of_nat c) (Z.of_nat (2 ^ L))) as [He|Hne]; cbn [negb].
  - assert (p = 0)%nat as -> by nia. exists L, pb. split; [done|]. split; [lia|done].
  - assert (0 < p)%nat as Hp by (destruct p; [lia|lia]).
    set (c1 := (c + 2 ^ L)%nat).
    assert (c1 = (S p) * 2 ^ S L)%nat as Hc1 by (rw pow2_S; unfold c1; lia).
    assert ((L < 31)%nat /\ Z.of_nat c1 <= 2 ^ 31) as [HL' Hb1] by (by apply (sweep_bounds c L p)).
    rw -Nat2Z.inj_add u32_id; last (fold c1; int_lia). fold c1.
    destruct (absorb_root (E := E) inner ml c1 33 (S L) (S p) (hash2 (node L (2 * p)) (node L (2 * p))) m false
      (if m then (fun b => b ++ [node L (2 * p)]) <$> pb else pb)) as (L' & p' & m' & mu' & pb' & E1 & E2 & E3 & _); [done|lia|done|lia| | |].
    + rw Nat.sub_succ Nat.sub_0_r. symmetry. apply node_last. lia.
    + assert (N < c1)%nat as HNc by lia. assert (c1 < N + 2 ^ S L)%nat as Hcl by (rw pow2_S; lia).
      intros j i Hj Hcj. destruct (inner_below N inner c1 (S L) Hin Hb1 HNc ltac:(lia) (Nat.le_refl N) j i Hj Hcj) as [Hi _].
      split; [done|]. assert (2 ^ S L <= 2 ^ j)%nat by (apply Nat.pow_le_mono_r; lia). nia.
    + rw E1. cbn [mbind res_bind]. assert (2 ^ S L <= 2 ^ L')%nat as HSL by (apply Nat.pow_le_mono_r; lia).
      apply IH; [done|done|done|lia|lia| | |lia].
      * rw pow2_S in HSL. lia.
      * intros k Hk. destruct (decide (L' = S L)) as [->|HneL].
        -- assert (2 ^ k <= 2 ^ L)%nat by (apply Nat.pow_le_mono_r; lia). nia.
        -- replace L' with (S (L' - 1)) in E2 by lia. rw pow2_S in E2.
           assert (2 ^ S L <= 2 ^ (L' - 1))%nat by (apply Nat.pow_le_mono_r; lia).
           assert (2 ^ k <= 2 ^ (L' - 1))%nat by (apply Nat.pow_le_mono_r; lia). rw pow2_S in H. nia.
Qed.

(** ** The branch of a leaf *)
Section Branch.
Context (pos : nat) (Hpos : (pos < N)%nat).

(** The sibling of the ancestor of leaf [pos] at a level. *)
Definition sibling (k : nat) : nat :=
  let a := (pos / 2 ^ k)%nat in
  if Nat.even a then (if ((a + 1) * 2 ^ k <? N)%nat then a + 1 else a)%nat else (a - 1)%nat.
Definition path (K : nat) : list bytes := map (fun k => node k (sibling k)) (seq 0 K).
Lemma path_S K : path (S K) = path K ++ [node K (sibling K)].
Proof. unfold path. by rw seq_S map_app. Qed.

Definition in_node (k i : nat) : Prop := (i * 2 ^ k <= pos < (i + 1) * 2 ^ k)%nat.
Lemma in_node_div k i : in_node k i -> (pos / 2 ^ k = i)%nat.
Proof.
  unfold in_node. intros Hi. symmetry. apply (Nat.div_unique pos (2 ^ k) i (pos - i * 2 ^ k)); lia.
Qed.
Lemma sibling_left k i : in_node k (2 * i) -> ((2 * i + 1) * 2 ^ k < N)%nat -> sibling k = (2 * i + 1)%nat.
Proof.
  intros Hi HN. unfold sibling. rw (in_node_div k _ Hi) Nat.even_mul. cbn [orb Nat.even].
  by destruct (Nat.ltb_spec ((2 * i + 1) * 2 ^ k) N); [|lia].
Qed.
Lemma sibling_last k i : in_node k (2 * i) -> (N <= (2 * i + 1) * 2 ^ k)%nat -> sibling k = (2 * i)%nat.
Proof.
  intros Hi HN. unfold sibling. rw (in_node_div k _ Hi) Nat.even_mul. cbn [orb Nat.even].
  by destruct (Nat.ltb_spec ((2 * i + 1) * 2 ^ k) N); [lia|].
Qed.
Lemma sibling_right k i : in_node k (2 * i + 1) -> sibling k = (2 * i)%nat.
Proof. intros Hi. unfold sibling. rw (in_node_div k _ Hi) Nat.even_add Nat.even_mul. cbn. lia. Qed.
Lemma in_parent k i i' : in_node k i -> (i = 2 * i' \/ i = 2 * i' + 1)%nat -> in_node (S k) i'.
Proof. unfold in_node. rw pow2_S. intros ? [-> | ->]; lia. Qed.

(** The node that holds the leaf waits for its sibling: [n] leaves were read. *)
Definition waits (n : nat) (ml : Z) (k : nat) (b : list bytes) : Prop :=
  exists j a, ml = Z.of_nat j /\ (k <= j)%nat /\ b = path j /\ in_node j (2 * a) /\ ((2 * a + 1) * 2 ^ j <= n < (2 * a + 2) * 2 ^ j)%nat.
Definition waiting (n : nat) (ml : Z) (b : list bytes) : Prop := (ml = -1 /\ b = [] /\ (n <= pos)%nat) \/ waits n ml 0 b.
(** The branch while a counter [c] is worked off at level [k]. *)
Definition branch_at (n c : nat) (ml : Z) (k q : nat) (m : bool) (b : list bytes) : Prop :=
  if m then in_node k (q - 1) /\ b = path k
  else (ml = -1 /\ b = [] /\ (c <= pos)%nat) \/ waits n ml k b.

Lemma absorb_branch {E} inner ml n c fuel : forall k q h m mu b,
  c = (q * 2 ^ k)%nat -> (0 < q)%nat -> h = node k (q - 1) -> (n < c)%nat -> (c <= n + 2 ^ k)%nat ->
  (forall j i, (k <= j)%nat -> c = ((2 * i + 2) * 2 ^ j)%nat -> inner !! j = Some (node j (2 * i)) /\ ((2 * i + 1) * 2 ^ j < N)%nat) ->
  branch_at n c ml k q m b -> (Z.of_nat c <= 2 ^ 31) ->
  forall L h' m' mu' pb', absorb (E := E) Sha256 fuel (Z.of_nat c) inner ml k h m mu (Some b) = Ok (L, h', m', mu', pb') ->
  exists q' b', pb' = Some b' /\ c = (q' * 2 ^ L)%nat /\ branch_at n c ml L q' m' b'.
Proof.
  induction fuel as [|fuel IH]; intros k q h m mu b Hc Hq Hh Hn Hcn Hin Hbr Hb L h' m' mu' pb' Ha; [done|].
  assert (k < 32)%nat as Hk.
  { destruct (decide (k < 32)%nat); [done|]. exfalso. subst c. rw Nat2Z.inj_mul pow2_Z in Hb.
    assert (2 ^ 32 <= 2 ^ Z.of_nat k) by (apply Z.pow_le_mono_r; lia). nia. }
  cbn [absorb] in Ha. rw (bit_clear_spec c q k Hk Hc) in Ha. destruct (Nat.even q) eqn:Eq.
  2: { injection Ha as <- <- <- <- <-. by exists q, b. }
  apply Nat.even_spec in Eq as [q' ->]. destruct q' as [|i]; [lia|].
  assert (c = (2 * i + 2) * 2 ^ k)%nat as Hci by (rw Hc; f_equal; lia).
  destruct (Hin k i (Nat.le_refl k) Hci) as [Hi HN]. unfold nth_go in Ha. destruct (Z.ltb_spec (Z.of_nat k) 0); [lia|].
  rw Nat2Z.id Hi in Ha. cbn [mbind res_bind] in Ha.
  assert (h = node k (2 * i + 1)) as Hh' by (rw Hh; f_equal; lia). rw Hh' in Ha.
  assert (exists m1 b1, extend_branch (Some b) ml k m (node k (2 * i)) (node k (2 * i + 1)) = (m1, Some b1) /\
    branch_at n c ml (S k) (S i) m1 b1) as (m1 & b1 & Ex & Hbr1).
  { unfold extend_branch. destruct m; cbn [branch_at] in Hbr.
    - destruct Hbr as [Hnode ->]. replace (2 * S i - 1)%nat with (2 * i + 1)%nat in Hnode by lia.
      eexists _, _. split; [done|]. split; [rw Nat.sub_succ Nat.sub_0_r; by eapply in_parent; [|right]|].
      by rw path_S (sibling_right k i).
    - destruct Hbr as [(-> & -> & Hcp)|(j & a & -> & Hj & -> & Hnode & Hna)].
      + destruct (Z.eqb_spec (-1) (Z.of_nat k)); [lia|]. exists false, []. split; [done|]. by left.
      + destruct (Z.eqb_spec (Z.of_nat j) (Z.of_nat k)) as [Hjk|Hjk].
        * apply Nat2Z.inj in Hjk as ->. assert (a = i) as -> by nia. eexists _, _. split; [done|].
          split; [rw Nat.sub_succ Nat.sub_0_r; by eapply in_parent; [|left]|]. by rw path_S (sibling_left k i).
        * exists false, (path j). split; [done|]. right. exists j, a. split_and!; try done; lia. }
  rw Ex in Ha. refine (IH (S k) (S i) _ m1 _ b1 _ _ _ Hn _ _ Hbr1 Hb _ _ _ _ _ Ha).
  - rw pow2_S. lia.
  - lia.
  - rw Nat.sub_succ Nat.sub_0_r. symmetry. by apply node_full.
  - rw pow2_S. lia.
  - intros j i' Hj. apply Hin. lia.
Qed.

Lemma process_leaves_branch {E} l : forall n s s' b, drop n leaves = l -> m_count s = Z.of_nat n -> (n <= N)%nat -> Z.of_nat N <= 2 ^ 31 ->
  inner_ok n (m_inner s) -> m_branch s = Some b -> waiting n (m_matchlevel s) b ->
  process_leaves (E := E) Sha256 (Z.of_nat pos) l s = Ok s' -> exists b', m_branch s' = Some b' /\ waiting N (m_matchlevel s') b'.
Proof.
  induction l as [|h l IH]; intros n s s' b Hd Hc Hn HN Hin Hb Hw Hp; cbn [process_leaves] in Hp.
  { injection Hp as <-. assert (n = N) as -> by (apply (f_equal length) in Hd; rw length_drop in Hd; cbn in Hd; lia). by exists b. }
  assert (n < N)%nat as Hlt by (apply (f_equal length) in Hd; rw length_drop in Hd; cbn in Hd; lia).
  rw Hc in Hp. replace (Z.of_nat n + 1) with (Z.of_nat (S n)) in Hp by lia. rw u32_id in Hp; last int_lia. rw Hb in Hp.
  assert (h = node 0 (S n - 1)) as Hh.
  { cbn [node]. rw Nat.sub_succ Nat.sub_0_r. apply (f_equal head) in Hd. rw head_lookup lookup_drop Nat.add_0_r in Hd. cbn in Hd. by rw (nth_lookup_Some _ _ _ _ Hd). }
  assert (forall j i, (0 <= j)%nat -> S n = ((2 * i + 2) * 2 ^ j)%nat -> m_inner s !! j = Some (node j (2 * i)) /\ ((2 * i + 1) * 2 ^ j < N)%nat) as Hinn.
  { intros j i Hj Hc'. destruct (inner_below n (m_inner s) (S n) 0 Hin) with j i as [? ?]; [lia|lia|cbn; lia|lia|done|done|]. split; [done|lia]. }
  apply res_bind_inv in Hp as ([[[[L h'] m'] mu'] pb'] & Ha & Hp).
  destruct (absorb_root (E := E) (m_inner s) (m_matchlevel s) (S n) 33 0 (S n) h (Z.of_nat n =? Z.of_nat pos) (m_mutated s) (Some b))
    as (L0 & p & m0 & mu0 & pb0 & E1 & E2 & E3 & _); [cbn; lia|lia|lia|lia|done|done|].
  rw Ha in E1. injection E1 as -> -> -> -> ->.
  assert (branch_at n (S n) (m_matchlevel s) 0 (S n) (Z.of_nat n =? Z.of_nat pos) b) as Hbr0.
  { destruct (Z.eqb_spec (Z.of_nat n) (Z.of_nat pos)) as [He|Hne].
    - apply Nat2Z.inj in He as ->. destruct Hw as [(_ & -> & _)|(j & a & _ & _ & _ & Hnode & Hna)]; [|unfold in_node in Hnode; lia].
      split; [unfold in_node; cbn; lia|done].
    - destruct Hw as [(-> & -> & Hle)|Hw]; [left; split_and!; [done|done|lia]|by right]. }
  destruct (absorb_branch (m_inner s) (m_matchlevel s) n (S n) 33 0 (S n) h _ (m_mutated s) b ltac:(cbn; lia) ltac:(lia) Hh ltac:(lia) ltac:(cbn; lia) Hinn Hbr0 ltac:(lia) _ _ _ _ _ Ha)
    as (q' & b' & -> & Hq' & Hbr).
  assert (q' = 2 * p + 1)%nat as -> by (destruct (quot_unique L0 q' 0 (2 * p + 1) 0); [lia|apply pow2_pos|apply pow2_pos|done]).
  refine (IH (S n) _ s' b' _ _ _ HN _ _ _ Hp); [rw -Nat.add_1_r -drop_drop Hd; done|done|lia|apply inner_step; [done|done|lia]|done|].
  cbn [m_matchlevel]. destruct m0; cbn [branch_at] in Hbr.
  - destruct Hbr as [Hnode ->]. replace (2 * p + 1 - 1)%nat with (2 * p)%nat in Hnode by lia.
    right. exists L0, p. split_and!; try done; [lia|lia|]. pose proof (pow2_pos L0). lia.
  - destruct Hbr as [?|(j & a & Hml & Hj & -> & Hnode & Hna)]; [by left|]. right. exists j, a. split_and!; try done; [lia|lia|].
    destruct (decide (S n = (2 * a + 2) * 2 ^ j)%nat) as [He|]; [|lia]. exfalso. replace j with (L0 + (j - L0))%nat in He by lia.
    rw E2 pow2_add Nat.mul_assoc in He. destruct (quot_unique L0 (2 * p + 1) 0 ((2 * a + 2) * 2 ^ (j - L0)) 0); [lia|apply pow2_pos|apply pow2_pos|]. nia.
Qed.

(** The branch during the final sweep. *)
Definition sweep_at (ml : Z) (L p : nat) (m : bool) (b : list bytes) : Prop :=
  if m then in_node L (2 * p) /\ b = path L else waits N ml (S L) b.

Lemma sweep_branch {E} inner ml fuel : forall c L p m b, Z.of_nat N <= 2 ^ 31 -> inner_ok N inner ->
  c = ((2 * p + 1) * 2 ^ L)%nat -> (L < 32)%nat -> (N <= c)%nat -> (c < N + 2 ^ L)%nat -> sweep_at ml L p m b ->
  forall h pb', sweep (E := E) Sha256 fuel (Z.of_nat c) inner ml L (node L (2 * p)) m (Some b) = Ok (h, pb') ->
  exists K, h = node K 0 /\ (N <= 2 ^ K)%nat /\ pb' = Some (path K).
Proof.
  induction fuel as [|fuel IH]; intros c L p m b HN Hin Hc HL Hle Hlt Hat h pb' Hs; [done|]. cbn [sweep] in Hs.
  rw Z.shiftl_1_l u32_id in Hs; last (unfold is_u; split; [lia|apply Z.pow_lt_mono_r; lia]). rw -pow2_Z in Hs. pose proof (pow2_pos L) as HpL.
  destruct (Z.eqb_spec (Z.of_nat c) (Z.of_nat (2 ^ L))) as [He|Hne]; cbn [negb] in Hs.
  { assert (p = 0)%nat as -> by nia. injection Hs as <- <-. exists L. split; [done|]. split; [lia|].
    destruct m; cbn [sweep_at] in Hat; [by destruct Hat as [_ ->]|].
    destruct Hat as (j & a & _ & Hj & _ & _ & Hna). assert (2 ^ S L <= 2 ^ j)%nat by (apply Nat.pow_le_mono_r; lia). rw pow2_S in H. nia. }
  assert (0 < p)%nat as Hp by (destruct p; [lia|lia]). set (c1 := (c + 2 ^ L)%nat) in *.
  assert (c1 = (S p) * 2 ^ S L)%nat as Hc1 by (rw pow2_S; unfold c1; lia).
  assert ((L < 31)%nat /\ Z.of_nat c1 <= 2 ^ 31) as [HL' Hb1] by (by apply (sweep_bounds c L p)).
  rw -Nat2Z.inj_add u32_id in Hs; last (fold c1; int_lia). fold c1 in Hs.
  apply res_bind_inv in Hs as ([[[[L' h'] m'] mu'] pb1] & Ha & Hs).
  assert (N < c1)%nat as HNc by lia. assert (c1 < N + 2 ^ S L)%nat as Hcl by (rw pow2_S; lia).
  assert (hash2 (node L (2 * p)) (node L (2 * p)) = node (S L) (S p - 1)) as Hh.
  { rw Nat.sub_succ Nat.sub_0_r. symmetry. apply node_last. lia. }
  assert (forall j i, (S L <= j)%nat -> c1 = ((2 * i + 2) * 2 ^ j)%nat -> inner !! j = Some (node j (2 * i)) /\ ((2 * i + 1) * 2 ^ j < N)%nat) as Hinn.
  { intros j i Hj Hcj. destruct (inner_below N inner c1 (S L) Hin Hb1 HNc ltac:(lia) (Nat.le_refl N) j i Hj Hcj) as [Hi _].
    split; [done|]. assert (2 ^ S L <= 2 ^ j)%nat by (apply Nat.pow_le_mono_r; lia). nia. }
  assert (exists b1, (if m then (fun b => b ++ [node L (2 * p)]) <$> Some b else Some b) = Some b1 /\
    branch_at N c1 ml (S L) (S p) m b1) as (b1 & Eb & Hbr).
  { destruct m; cbn [sweep_at] in Hat.
    - destruct Hat as [Hnode ->]. eexists. split; [done|]. split; [rw Nat.sub_succ Nat.sub_0_r; by eapply in_parent; [|left]|].
      rw path_S (sibling_last L p) //. lia.
    - exists b. split; [done|]. by right. }
  rw Eb in Ha.
  destruct (absorb_root (E := E) inner ml c1 33 (S L) (S p) _ m false (Some b1) Hc1 ltac:(lia) Hb1 ltac:(lia) Hh Hinn)
    as (L0 & p' & m0 & mu0 & pb0 & E1 & E2 & E3 & _).
  rw Ha in E1. injection E1 as -> -> -> -> ->.
  destruct (absorb_branch inner ml N c1 33 (S L) (S p) _ m false b1 Hc1 ltac:(lia) Hh HNc ltac:(lia) Hinn Hbr Hb1 _ _ _ _ _ Ha)
    as (q' & b' & -> & Hq' & Hbr').
  assert (q' = 2 * p' + 1)%nat as -> by (destruct (quot_unique L0 q' 0 (2 * p' + 1) 0); [lia|apply pow2_pos|apply pow2_pos|done]).
  assert (2 ^ S L <= 2 ^ L0)%nat as HSL by (apply Nat.pow_le_mono_r; lia).
  refine (IH c1 L0 p' m0 b' HN Hin E2 _ _ _ _ _ _ Hs); [lia|lia|lia|].
  destruct m0; cbn [branch_at sweep_at] in Hbr' |- *.
  - replace (2 * p' + 1 - 1)%nat with (2 * p')%nat in Hbr' by lia. done.
  - destruct Hbr' as [(_ & _ & ?)|(j & a & Hml & Hj & -> & Hnode & Hna)]; [lia|]. exists j, a. split_and!; try done; [|lia|lia].
    destruct (decide (j = L0)) as [->|]; [|lia]. exfalso. clear -E2 HNc Hcl HSL Hna.
    set (X := (2 ^ L0)%nat) in *. set (Y := (2 ^ S L)%nat) in *. assert (a < p')%nat by nia. nia.
Qed.

(** Walking the branch up. *)
Lemma branch_root K : forall k, 
  ComputeMerkleRootFromBranch Sha256 (node k (pos / 2 ^ k)) (map (fun k => node k (sibling k)) (seq k K)) (Z.of_nat (pos / 2 ^ k))
  = node (k + K) (pos / 2 ^ (k + K)).
Proof.
  induction K as [|K IH]; intros k; cbn [seq map ComputeMerkleRootFromBranch]; [by rw Nat.add_0_r|].
  set (a := (pos / 2 ^ k)%nat).
  assert (pos / 2 ^ S k = a / 2)%nat as Hdiv.
  { unfold a. rw pow2_S Nat.mul_comm -Nat.Div0.div_div. done. }
  assert (Z.of_nat a .>> 1 = Z.of_nat (pos / 2 ^ S k)) as -> by (rw Hdiv Z.shiftr_div_pow2; [|lia]; rw Nat2Z.inj_div; done).
  assert (in_node k a) as Ha.
  { unfold in_node, a. pose proof (Nat.mul_div_le pos (2 ^ k)) as H1. pose proof (Nat.mul_succ_div_gt pos (2 ^ k)) as H2. pose proof (pow2_pos k). lia. }
  replace (k + S K)%nat with (S k + K)%nat by lia. rw -IH. f_equal. rw Hdiv. change 1 with (Z.ones 1) at 1. rw Z.land_ones; [|lia].
  change (2 ^ 1) with 2. destruct (Nat.Even_or_Odd a) as [[i Hi]|[i Hi]].
  - assert (a / 2 = i)%nat as -> by (rw Hi Nat.mul_comm Nat.div_mul; lia).
    destruct (Z.eqb_spec (Z.of_nat a mod 2) 1) as [He|_]; [exfalso; rw Hi Nat2Z.inj_mul Z.mul_comm Z.mod_mul in He; lia|].
    rw Hi in Ha. destruct (decide ((2 * i + 1) * 2 ^ k < N)%nat).
    + rw (sibling_left k i) // Hi -node_full //.
    + rw (sibling_last k i) //; [|lia]. rw Hi -node_last //. lia.
  - assert (a / 2 = i)%nat as -> by (rw Hi; symmetry; apply (Nat.div_unique _ 2 i 1); lia).
    destruct (Z.eqb_spec (Z.of_nat a mod 2) 1) as [_|He]; [|exfalso; apply He; rw Hi; symmetry; apply (Z.mod_unique _ 2 (Z.of_nat i)); lia].
    rw Hi in Ha. rw (sibling_right k i) // Hi -node_full //. destruct Ha as [Ha _]. lia.
Qed.
End Branch.

(** ** The whole computation *)
Lemma inner_start : inner_ok 0 (repeat HashZero 32).
Proof. split; [by rw repeat_length|]. intros k q r Hn Hr _. pose proof (pow2_pos k). nia. Qed.
Lemma twins_start : ~ twins 0.
Proof. intros (k & i & Hk & _). pose proof (pow2_pos k). nia. Qed.

Lemma merkle_unfold {E} (l : list bytes) branchpos pb : (0 < length l)%nat ->
  merkleComputation (E := E) Sha256 l branchpos pb =
    (s ← process_leaves Sha256 branchpos l (mkMerkle 0 (repeat HashZero 32) (-1) false ((fun _ => []) <$> pb));
     level ← skip_levels 33 (m_count s) 0;
     h ← nth_go (m_inner s) (Z.of_nat level);
     '(root, pbranch) ← sweep Sha256 33 (m_count s) (m_inner s) (m_matchlevel s) level h (m_matchlevel s =? Z.of_nat level) (m_branch s);
     Ok (root, m_mutated s, pbranch)).
Proof. by destruct l; [cbn; lia|]. Qed.

(** The state before the final sweep. *)
Lemma merkle_leaves {E} branchpos pb : (0 < N)%nat -> Z.of_nat N <= 2 ^ 31 ->
  exists s L p, process_leaves (E := E) Sha256 branchpos leaves (mkMerkle 0 (repeat HashZero 32) (-1) false pb) = Ok s /\
    m_count s = Z.of_nat N /\ inner_ok N (m_inner s) /\ (m_mutated s = true <-> twins N) /\
    skip_levels (E := E) 33 (Z.of_nat N) 0 = Ok L /\ N = ((2 * p + 1) * 2 ^ L)%nat /\ (L < 32)%nat /\
    nth_go (E := E) (m_inner s) (Z.of_nat L) = Ok (node L (2 * p)).
Proof.
  intros HN Hb.
  destruct (process_leaves_root (E := E) branchpos leaves 0 (mkMerkle 0 (repeat HashZero 32) (-1) false pb)) as (s & E1 & Hc & Hin & Hmu);
    [done|done|lia|done|apply inner_start|by cbn; split; [|intros ?%twins_start]|].
  destruct (skip_levels_spec (E := E) N 33 0 N) as (L & p & E2 & Hn & HL); [cbn; lia|done|done|lia|].
  exists s, L, p. split_and!; try done. unfold nth_go. destruct (Z.ltb_spec (Z.of_nat L) 0); [lia|].
  rw Nat2Z.id (proj2 Hin L p 0%nat); [done|lia|apply pow2_pos|done].
Qed.

Lemma merkle_root {E} branchpos pb : (0 < N)%nat -> Z.of_nat N <= 2 ^ 31 ->
  exists K mu pb', merkleComputation (E := E) Sha256 leaves branchpos pb = Ok (node K 0, mu, pb') /\ top_level K /\ (mu = true <-> twins N).
Proof.
  intros HN Hb. rw merkle_unfold //.
  destruct (merkle_leaves (E := E) branchpos ((fun _ => []) <$> pb) HN Hb) as (s & L & p & E1 & Hc & Hin & Hmu & E2 & Hn & HL & E3).
  rw E1. cbn [mbind res_bind]. rw Hc E2. cbn [mbind res_bind]. rw E3. cbn [mbind res_bind]. pose proof (pow2_pos L).
  destruct (sweep_root (E := E) (m_inner s) (m_matchlevel s) 33 N L p (m_matchlevel s =? Z.of_nat L) (m_branch s) Hb Hin Hn HL)
    as (K & pb' & E4 & Htop); [lia|lia| |lia|].
  - intros k Hk. assert (2 ^ S k <= 2 ^ L)%nat as Hkl by (apply Nat.pow_le_mono_r; lia). rw pow2_S in Hkl. pose proof (pow2_pos k). nia.
  - rw E4. cbn [mbind res_bind]. by exists K, (m_mutated s), pb'.
Qed.

Lemma top_level_unique K K' : top_level K -> top_level K' -> K = K'.
Proof.
  intros [H1 H2] [H1' H2']. destruct (lt_eq_lt_dec K K') as [[Hlt|]|Hlt]; [|done|].
  - specialize (H2' K Hlt). lia.
  - specialize (H2 K' Hlt). lia.
Qed.

Lemma merkle_branch {E} pos l0 : (pos < N)%nat -> Z.of_nat N <= 2 ^ 31 ->
  exists root mu b, merkleComputation (E := E) Sha256 leaves (Z.of_nat pos) (Some l0) = Ok (root, mu, Some b) /\
    ComputeMerkleRootFromBranch Sha256 (node 0 pos) b (Z.of_nat pos) = root.
Proof.
  intros Hpos Hb. assert (0 < N)%nat as HN by lia. destruct (merkle_root (E := E) (Z.of_nat pos) (Some l0) HN Hb) as (K & mu & pb' & E0 & _ & _).
  rw merkle_unfold // in E0. destruct (merkle_leaves (E := E) (Z.of_nat pos) (Some []) HN Hb) as (s & L & p & E1 & Hc & Hin & Hmu & E2 & Hn & HL & E3).
  pose proof (merkle_unfold (E := E) leaves (Z.of_nat pos) (Some l0) HN) as Eu. rw Eu. cbn [fmap option_fmap option_map] in E0 |- *.
  rw E1 in E0 |- *. cbn [mbind res_bind] in E0 |- *. rw Hc E2 in E0 |- *. cbn [mbind res_bind] in E0 |- *. rw E3 in E0 |- *. cbn [mbind res_bind] in E0 |- *.
  apply res_bind_inv in E0 as ([root pb1] & Es & E0). injection E0 as -> <- ->.
  destruct (process_leaves_branch (E := E) pos Hpos leaves 0 (mkMerkle 0 (repeat HashZero 32) (-1) false (Some [])) s [] (drop_0 _) eq_refl ltac:(lia) Hb inner_start eq_refl) as (b & Hbr & Hw); [left; split_and!; [done|done|lia]|done|].
  rw Hbr in Es. assert (sweep_at pos (m_matchlevel s) L p (m_matchlevel s =? Z.of_nat L) b) as Hat.
  { destruct Hw as [(_ & _ & ?)|(j & a & Hml & _ & -> & Hnode & Hna)]; [lia|]. rw Hml.
    destruct (lt_eq_lt_dec j L) as [[Hlt| ->]|Hgt].
    - exfalso. replace L with (j + (L - j))%nat in Hn by lia. rw pow2_add Nat.mul_assoc in Hn.
      replace (L - j)%nat with (S (L - j - 1)) in Hn by lia. rw pow2_S in Hn. set (X := (2 ^ j)%nat) in *. set (Y := (2 ^ (L - j - 1))%nat) in *.
      assert (N = ((2 * p + 1) * Y * 2) * X)%nat as Hn' by (rw {1}Hn; lia). clear -Hn' Hna.
      set (Q := ((2 * p + 1) * Y)%nat) in *. rw Hn' in Hna. destruct (decide (Q <= a)%nat); nia.
    - rw Z.eqb_refl. assert (a = p) as -> by (clear -Hn Hna; set (X := (2 ^ L)%nat) in *; nia). by split.
    - destruct (Z.eqb_spec (Z.of_nat j) (Z.of_nat L)); [lia|]. exists j, a. split_and!; try done; lia. }
  pose proof (pow2_pos L).
  destruct (sweep_branch pos Hpos (m_inner s) (m_matchlevel s) 33 N L p _ b Hb Hin Hn HL ltac:(lia) ltac:(lia) Hat _ _ Es) as (K' & HK & HNK & ->).
  rw Hbr Es. cbn [mbind res_bind]. exists (node K 0), (m_mutated s), (path pos K'). split; [done|]. rw HK.
  pose proof (branch_root pos Hpos K' 0) as Hrb. rw Nat.div_1_r Nat.add_0_l in Hrb. unfold path. rw Hrb. f_equal. apply Nat.div_small. lia.
Qed.
End Spec.
