(* ===== verification/PartialTreeFacts.v ===== *)
(** * Merkle roots commit to their leaves; partial trees

    Two lists with the same root and without twins are equal, unless nodes collide;
    building a partial tree and extracting it again. *)
From S2P Require Import Prelude Errors Wire ScriptNum Opcodes Script ScriptFacts Tx TxFacts Crypto Compress Coins Block Undo Merkle MerkleFacts.

Section Commit.
Context (Sha256 : bytes -> bytes) (l1 l2 : list bytes).
Abbreviation hash2 := (hash2 Sha256).
Abbreviation node := (node Sha256).

(** The two hashes below node [i] of level [k + 1]. *)
Definition kids (l : list bytes) (k i : nat) : bytes * bytes :=
  (node l k (2 * i), if ((2 * i + 1) * 2 ^ k <? length l)%nat then node l k (2 * i + 1) else node l k (2 * i)).
Lemma node_kids l k i : node l (S k) i = hash2 (kids l k i).1 (kids l k i).2.
Proof. done. Qed.

(** No node of the first tree collides with a node of the second at its level. *)
Definition collision_free : Prop := forall k i j,
  (i * 2 ^ S k < length l1)%nat -> (j * 2 ^ S k < length l2)%nat ->
  hash2 (kids l1 k i).1 (kids l1 k i).2 = hash2 (kids l2 k j).1 (kids l2 k j).2 -> kids l1 k i = kids l2 k j.

(** The leaves below a node. *)
Definition below (l : list bytes) (k i : nat) : list bytes := take (2 ^ k) (drop (i * 2 ^ k) l).
Lemma below_S l k i : below l (S k) i = below l k (2 * i) ++ below l k (2 * i + 1).
Proof.
  unfold below. rw pow2_S. replace (i * (2 * 2 ^ k))%nat with (2 * i * 2 ^ k)%nat by lia.
  replace ((2 * i + 1) * 2 ^ k)%nat with (2 * i * 2 ^ k + 2 ^ k)%nat by lia. rw -drop_drop.
  set (d := drop (2 * i * 2 ^ k) l). replace (2 * 2 ^ k)%nat with (2 ^ k + 2 ^ k)%nat by lia. by rw take_take_drop.
Qed.
Lemma below_none l k i : (length l <= i * 2 ^ k)%nat -> below l k i = [].
Proof. intros Hl. unfold below. by rw drop_ge // take_nil. Qed.
Lemma below_length l k i : length (below l k i) = (2 ^ k `min` (length l - i * 2 ^ k))%nat.
Proof. unfold below. by rw length_take length_drop. Qed.

Lemma node_commits : collision_free -> ~ twins Sha256 l1 (length l1) -> ~ twins Sha256 l2 (length l2) ->
  forall k i j, (i * 2 ^ k < length l1)%nat -> (j * 2 ^ k < length l2)%nat -> node l1 k i = node l2 k j -> below l1 k i = below l2 k j.
Proof.
  intros Hcf Ht1 Ht2. induction k as [|k IH]; intros i j Hi Hj Heq.
  { rw Nat.mul_1_r in Hi. rw Nat.mul_1_r in Hj. unfold below. cbn [Nat.pow]. rw !Nat.mul_1_r. cbn [MerkleFacts.node] in Heq.
    destruct (lookup_lt_is_Some_2 l1 i Hi) as [x Hx]. destruct (lookup_lt_is_Some_2 l2 j Hj) as [y Hy].
    rw (nth_lookup_Some _ _ _ _ Hx) (nth_lookup_Some _ _ _ _ Hy) in Heq. subst y.
    by rw (drop_S _ _ _ Hx) (drop_S _ _ _ Hy). }
  pose proof (pow2_pos k) as Hp. rw !node_kids in Heq. apply Hcf in Heq; [|done|done]. unfold kids in Heq. rw pow2_S in Hi. rw pow2_S in Hj.
  rw !below_S. destruct (Nat.ltb_spec ((2 * i + 1) * 2 ^ k) (length l1)) as [H1|H1], (Nat.ltb_spec ((2 * j + 1) * 2 ^ k) (length l2)) as [H2|H2];
    injection Heq as HL HR; rw (IH (2 * i) (2 * j))%nat //; try lia; f_equal.
  - by apply IH.
  - exfalso. apply Ht1. assert (below l1 k (2 * i) = below l2 k (2 * j)) as E1 by (apply IH; [lia|lia|done]).
    assert (below l1 k (2 * i + 1) = below l2 k (2 * j)) as E2 by (apply IH; [lia|lia|done]).
    exists k, i. split; [|exact (eq_trans HL (eq_sym HR))]. rw -E2 in E1. apply (f_equal length) in E1. rw !below_length in E1. lia.
  - exfalso. apply Ht2. assert (below l1 k (2 * i) = below l2 k (2 * j)) as E1 by (apply IH; [lia|lia|done]).
    assert (below l1 k (2 * i) = below l2 k (2 * j + 1)) as E2 by (apply IH; [lia|lia|done]).
    exists k, j. split; [|exact (eq_trans (eq_sym HL) HR)]. rw E2 in E1. apply (f_equal length) in E1. rw !below_length in E1. lia.
  - rw !below_none //.
Qed.
End Commit.

Lemma top_level_log2 l K : (0 < length l)%nat -> top_level l K -> K = Nat.log2_up (length l).
Proof.
  intros Hl [H1 H2]. destruct K as [|K]; [cbn in H1; by assert (length l = 1)%nat as -> by lia|].
  symmetry. apply Nat.log2_up_unique; [lia|]. split; [|done]. cbn [pred]. apply H2. lia.
Qed.

(** ** Sizes of partial trees *)
Lemma calcTreeWidth_gt n k i : Z.of_nat n <= 2 ^ 31 -> (k <= 32)%nat -> (Z.of_nat i <? calcTreeWidth (Z.of_nat n) k) = (i * 2 ^ k <? n)%nat.
Proof.
  intros Hn Hk. unfold calcTreeWidth. rw Z.shiftl_1_l. assert (0 < 2 ^ Z.of_nat k <= 2 ^ 32) as Hp by (split; [lia|apply Z.pow_le_mono_r; lia]).
  rw Z.shiftr_div_pow2; [|lia]. rw -pow2_Z in Hp |- *. set (X := (2 ^ k)%nat) in *.
  rw (i64_id (Z.of_nat X)); last int_lia. rw (i64_id (_ + _)); last int_lia. rw i64_id; last int_lia.
  assert (0 <= (Z.of_nat n + Z.of_nat X - 1) / Z.of_nat X <= 2 ^ 33) as Hq.
  { split; [apply Z.div_pos; lia|]. etrans; [apply Z.div_le_upper_bound with (q := Z.of_nat n + Z.of_nat X); [lia|nia]|]. lia. }
  rw u64_id; last int_lia. apply eq_true_iff_eq. rw Z.ltb_lt Nat.ltb_lt. pose proof (Z.div_mod (Z.of_nat n + Z.of_nat X - 1) (Z.of_nat X)) as Hd.
  pose proof (Z.mod_pos_bound (Z.of_nat n + Z.of_nat X - 1) (Z.of_nat X)) as Hm. split; intros Hi; nia.
Qed.
Lemma top_level_bound l K : Z.of_nat (length l) <= 2 ^ 31 -> top_level l K -> (K <= 31)%nat.
Proof.
  intros Hl [_ H2]. destruct (decide (K <= 31)%nat); [done|]. exfalso. specialize (H2 31%nat ltac:(lia)).
  apply Nat2Z.inj_lt in H2. rw pow2_Z in H2. lia.
Qed.
Lemma tree_height_spec {E} l K fuel : forall k, Z.of_nat (length l) <= 2 ^ 31 -> top_level l K -> (k <= K)%nat -> (K < fuel + k)%nat ->
  tree_height (E := E) fuel (Z.of_nat (length l)) k = Ok K.
Proof.
  induction fuel as [|fuel IH]; intros k Hl Htop Hk Hf; [lia|]. cbn [tree_height]. pose proof (top_level_bound l K Hl Htop).
  pose proof (calcTreeWidth_gt (length l) k 1 Hl ltac:(lia)) as Hw. change (Z.of_nat 1) with 1 in Hw. rw Hw Nat.mul_1_l. destruct Htop as [H1 H2].
  destruct (Nat.ltb_spec (2 ^ k) (length l)) as [Hlt|Hge].
  - apply IH; [done|by split| |lia]. destruct (decide (k = K)) as [->|]; [lia|lia].
  - destruct (decide (k = K)) as [->|]; [done|]. specialize (H2 k ltac:(lia)). lia.
Qed.

Section Partial.
Context (Sha256 : bytes -> bytes) (leaves : list bytes) (Hsize : Z.of_nat (length leaves) <= 2 ^ 31).
Abbreviation hash2 := (hash2 Sha256).
Abbreviation node := (node Sha256 leaves).
Abbreviation kids := (kids Sha256 leaves).
Abbreviation N := (length leaves).

(** Positions do not overflow. *)
Lemma pos_bound k i : (i * 2 ^ k < N)%nat -> Z.of_nat i < 2 ^ 31.
Proof. pose proof (pow2_pos k). nia. Qed.
Lemma child_pos k i : (i * 2 ^ k < N)%nat -> u64 (Z.of_nat i * 2) = Z.of_nat (2 * i) /\ u64 (Z.of_nat (2 * i) + 1) = Z.of_nat (2 * i + 1).
Proof. intros Hi%pos_bound. split; (rw u64_id; [lia|int_lia]). Qed.
Lemma right_child k i : (k <= 31)%nat -> (Z.of_nat (2 * i + 1) <? calcTreeWidth (Z.of_nat N) k) = ((2 * i + 1) * 2 ^ k <? N)%nat.
Proof. intros Hk. apply calcTreeWidth_gt; [done|lia]. Qed.

(** The recursive computation of lmerkleblock gives the same nodes. *)
Lemma calcHash_node {E} k : forall i, (k <= 32)%nat -> (i * 2 ^ k < N)%nat ->
  calcHash (E := E) Sha256 (Z.of_nat N) k (Z.of_nat i) leaves = Ok (node k i).
Proof.
  induction k as [|k IH]; intros i Hk Hi; cbn [calcHash].
  { rw Nat.mul_1_r in Hi. rw decide_False; [|by intros El; rw El in Hi; cbn in Hi; lia]. unfold nth_go. destruct (Z.ltb_spec (Z.of_nat i) 0); [lia|].
    destruct (lookup_lt_is_Some_2 leaves i Hi) as [x Hx]. rw Nat2Z.id Hx. cbn [MerkleFacts.node]. by rw (nth_lookup_Some _ _ _ _ Hx). }
  destruct (child_pos (S k) i Hi) as [-> ->]. rw right_child; [|lia]. rw pow2_S in Hi. rw (IH (2 * i)%nat); [|lia|lia]. cbn [mbind res_bind].
  cbn [MerkleFacts.node]. destruct (Nat.ltb_spec ((2 * i + 1) * 2 ^ k) N); [|done]. rw (IH (2 * i + 1)%nat); [done|lia|lia].
Qed.

(** ** Extracting from any tree *)
Lemma extract_bad_mono t k : forall pos s, x_bad s = true -> x_bad (TraverseAndExtract Sha256 t k pos s).2 = true.
Proof.
  induction k as [|k IH]; intros pos s Hs; cbn [TraverseAndExtract].
  - destruct (pmt_bits t !! _) as [b|]; [|done]. by destruct (pmt_hashes t !! _).
  - destruct (pmt_bits t !! _) as [b|]; [|done]. destruct (negb b); [by destruct (pmt_hashes t !! _)|].
    match goal with |- context [TraverseAndExtract _ t k ?q ?s0] => pose proof (IH q s0 Hs) as H1; destruct (TraverseAndExtract Sha256 t k q s0) as [l s1] end.
    destruct (_ <? _); [|done].
    match goal with |- context [TraverseAndExtract _ t k ?q s1] => pose proof (IH q s1 H1) as H2; destruct (TraverseAndExtract Sha256 t k q s1) as [r s2] end.
    cbn [snd] in *. by destruct (bool_decide _).
Qed.

(** What the extraction reports: leaves with their positions. *)
Definition reports (s s' : xstate) : Prop := exists js, Forall (fun j => (j < N)%nat) js /\
  x_items s' = x_items s ++ map Z.of_nat js /\ x_matches s' = x_matches s ++ map (fun j => nth j leaves HashZero) js.
(** The extraction met two hashes that are not the children of a node of the tree but
    have its hash. *)
Definition forged (t : PartialMerkleTree) : Prop := exists k i s,
  let '(l, s1) := TraverseAndExtract Sha256 t k (Z.of_nat (2 * i)) s in
  let r := if ((2 * i + 1) * 2 ^ k <? N)%nat then (TraverseAndExtract Sha256 t k (Z.of_nat (2 * i + 1)) s1).1 else l in
  (i * 2 ^ S k < N)%nat /\ (l, r) <> kids k i /\ hash2 l r = node (S k) i.

Lemma reports_trans s1 s2 s3 : reports s1 s2 -> reports s2 s3 -> reports s1 s3.
Proof.
  intros (j1 & F1 & I1 & M1) (j2 & F2 & I2 & M2). exists (j1 ++ j2). split; [by apply Forall_app|]. by rw I2 M2 I1 M1 !map_app !app_assoc.
Qed.

Lemma extract_sound t k : forall i s h s', pmt_txs t = Z.of_nat N -> (k <= 31)%nat -> (i * 2 ^ k < N)%nat ->
  TraverseAndExtract Sha256 t k (Z.of_nat i) s = (h, s') -> x_bad s' = false -> h = node k i -> reports s s' \/ forged t.
Proof.
  induction k as [|k IH]; intros i s h s' Ht Hk Hi Hx Hbad Hh; cbn [TraverseAndExtract] in Hx.
  - destruct (pmt_bits t !! _) as [b|]; [|by injection Hx as _ <-]. destruct (pmt_hashes t !! _) as [h0|]; [|by injection Hx as _ <-].
    injection Hx as -> <-. left. pose proof (pos_bound 0 i Hi). rw i64_id; last int_lia. cbn [x_matches x_items]. rw Nat.mul_1_r in Hi.
    destruct b.
    + exists [i]. split; [by constructor|]. cbn. cbn in Hh. by rw Hh.
    + exists []. by rw !app_nil_r.
  - destruct (pmt_bits t !! _) as [b|]; [|by injection Hx as _ <-]. destruct (negb b).
    { destruct (pmt_hashes t !! _) as [h0|]; [|by injection Hx as _ <-]. injection Hx as -> <-. left. exists []. by rw !app_nil_r. }
    destruct (child_pos (S k) i Hi) as [E1 E2]. rw E1 E2 Ht right_child in Hx; [|lia]. cbn [x_bitUsed x_hashUsed x_matches x_items x_bad] in Hx.
    set (s0 := mkX (S (x_bitUsed s)) (x_hashUsed s) (x_matches s) (x_items s) (x_bad s)) in *.
    destruct (TraverseAndExtract Sha256 t k (Z.of_nat (2 * i)) s0) as [l s1] eqn:El.
    assert (forall l' r', hash2 l' r' = node (S k) i -> l' = l ->
      r' = (if ((2 * i + 1) * 2 ^ k <? N)%nat then (TraverseAndExtract Sha256 t k (Z.of_nat (2 * i + 1)) s1).1 else l) ->
      (l', r') = kids k i \/ forged t) as Hcase.
    { intros l' r' Heq -> ->. match goal with |- (l, ?x) = _ \/ _ => destruct (decide ((l, x) = kids k i)) as [|Hne] end; [by left|].
      right. exists k, i, s0. rw El. by split_and!. }
    rw pow2_S in Hi. assert (reports s s0) as H0 by (exists []; by rw !app_nil_r).
    destruct (Nat.ltb_spec ((2 * i + 1) * 2 ^ k) N) as [Hr|Hr].
    + destruct (TraverseAndExtract Sha256 t k (Z.of_nat (2 * i + 1)) s1) as [r s2] eqn:Er. injection Hx as Hhl Hs'.
      assert (x_bad s2 = false) as Hb2 by (rw -Hs' in Hbad; by destruct (bool_decide _)).
      assert (s' = s2) as -> by (rw -Hs' in Hbad |- *; by destruct (bool_decide _)).
      assert (x_bad s1 = false) as Hb1.
      { destruct (x_bad s1) eqn:Eb; [|done]. pose proof (extract_bad_mono t k (Z.of_nat (2 * i + 1)) s1 Eb) as Hm. rw Er in Hm. cbn in Hm. congruence. }
      destruct (Hcase l r) as [Hk'|]; [by rw Hhl|done|done| |by right]. unfold PartialTreeFacts.kids in Hk'.
      destruct (Nat.ltb_spec ((2 * i + 1) * 2 ^ k) N); [|lia]. injection Hk' as Hl' Hr'.
      destruct (IH (2 * i)%nat s0 l s1 Ht ltac:(lia) ltac:(lia) El Hb1 Hl') as [R1|]; [|by right].
      destruct (IH (2 * i + 1)%nat s1 r s2 Ht ltac:(lia) Hr Er Hb2 Hr') as [R2|]; [|by right].
      left. exact (reports_trans _ _ _ H0 (reports_trans _ _ _ R1 R2)).
    + injection Hx as Hhl <-. destruct (Hcase l l) as [Hk'|]; [by rw Hhl|done|done| |by right].
      pose proof (f_equal fst Hk') as Hl'. cbn [fst PartialTreeFacts.kids] in Hl'. destruct (IH (2 * i)%nat s0 l s1 Ht ltac:(lia) ltac:(lia) El Hbad Hl') as [R1|]; [|by right].
      left. exact (reports_trans _ _ _ H0 R1).
Qed.

(** ** Building *)
Context (matches : list bool) (Hmatch : length matches = N).
(** The matched positions among [n] from [a] on. *)
Definition picked (a n : nat) : list nat := filter (fun j => nth j matches false = true) (seq a n).
Definition span (k i : nat) : nat := (2 ^ k `min` (N - i * 2 ^ k))%nat.
Definition picked_in (k i : nat) : list nat := picked (i * 2 ^ k) (span k i).

Lemma picked_app a n m : picked a (n + m) = picked a n ++ picked (a + n) m.
Proof. unfold picked. by rw seq_app filter_app. Qed.
Lemma picked_in_S k i : picked_in (S k) i =
  picked_in k (2 * i) ++ (if ((2 * i + 1) * 2 ^ k <? N)%nat then picked_in k (2 * i + 1) else []).
Proof.
  unfold picked_in, span. rw pow2_S. replace (i * (2 * 2 ^ k))%nat with (2 * i * 2 ^ k)%nat by lia.
  destruct (Nat.ltb_spec ((2 * i + 1) * 2 ^ k) N) as [Hlt|Hge].
  - replace ((2 * i + 1) * 2 ^ k)%nat with (2 * i * 2 ^ k + 2 ^ k)%nat in * by lia.
    replace ((2 * 2 ^ k) `min` (N - 2 * i * 2 ^ k))%nat with (2 ^ k + (2 ^ k `min` (N - (2 * i * 2 ^ k + 2 ^ k))))%nat by lia.
    rw picked_app. f_equal. f_equal. lia.
  - rw app_nil_r. f_equal. lia.
Qed.

Lemma picked_in_0 i : (i < N)%nat -> picked_in 0 i = if nth i matches false then [i] else [].
Proof.
  intros Hi. unfold picked_in, picked, span. change (2 ^ 0)%nat with 1%nat. rw Nat.mul_1_r. replace (1 `min` (N - i))%nat with 1%nat by lia. cbn [seq].
  rw filter_cons filter_nil. by destruct (nth i matches false); case_decide.
Qed.

Lemma any_match_spec {E} n : forall a, any_match (E := E) n (Z.of_nat a) (Z.of_nat N) matches = Ok (negb (bool_decide (picked a (n `min` (N - a)) = []))).
Proof.
  induction n as [|n IH]; intros a; cbn [any_match]; [done|]. rw u64_id; last int_lia.
  destruct (Z.ltb_spec (Z.of_nat a) (Z.of_nat N)) as [Hlt|Hge].
  - assert (a < length matches)%nat as Ha by lia. destruct (lookup_lt_is_Some_2 matches a Ha) as [b Hb].
    unfold nth_go. destruct (Z.ltb_spec (Z.of_nat a) 0); [lia|]. rw Nat2Z.id Hb. cbn [mbind res_bind].
    replace (S n `min` (N - a))%nat with (S (n `min` (N - S a))) by lia. unfold picked. cbn [seq]. rw filter_cons (nth_lookup_Some _ _ _ _ Hb).
    destruct b; case_decide; try done. replace (Z.of_nat a + 1) with (Z.of_nat (S a)) by lia. apply IH.
  - replace (S n `min` (N - a))%nat with 0%nat by lia. done.
Qed.
Lemma parent_match {E} k i : (k <= 31)%nat -> (i * 2 ^ k < N)%nat ->
  let first := u64 (Z.of_nat i .<< Z.of_nat k) in
  any_match (E := E) (Z.to_nat (u64 (u64 (Z.of_nat i + 1) .<< Z.of_nat k) - first)) first (Z.of_nat N) matches
  = Ok (negb (bool_decide (picked_in k i = []))).
Proof.
  intros Hk Hi. cbv zeta. pose proof (pos_bound k i Hi) as Hb. rw (u64_id (Z.of_nat i + 1)); last int_lia.
  rw !Z.shiftl_mul_pow2; [|lia|lia]. rw -pow2_Z. assert (Z.of_nat (2 ^ k) <= 2 ^ 31) as HX by (rw pow2_Z; apply Z.pow_le_mono_r; lia).
  pose proof (pow2_pos k). rw (u64_id (Z.of_nat i * _)); last int_lia. rw u64_id; last (unfold is_u; nia).
  replace (Z.to_nat ((Z.of_nat i + 1) * Z.of_nat (2 ^ k) - Z.of_nat i * Z.of_nat (2 ^ k))) with (2 ^ k)%nat by lia.
  rw -Nat2Z.inj_mul any_match_spec. done.
Qed.

(** ** Extracting what was built *)
Definition tree_part (t : PartialMerkleTree) (s : xstate) (bits : list bool) (hashes : list bytes) : Prop :=
  pmt_txs t = Z.of_nat N /\ (exists rest, drop (x_bitUsed s) (pmt_bits t) = bits ++ rest) /\ (exists rest, drop (x_hashUsed s) (pmt_hashes t) = hashes ++ rest).
Definition advance (s : xstate) (bits : list bool) (hashes : list bytes) (js : list nat) : xstate :=
  mkX (x_bitUsed s + length bits) (x_hashUsed s + length hashes) (x_matches s ++ map (fun j => nth j leaves HashZero) js)
    (x_items s ++ map Z.of_nat js) (x_bad s).

Lemma tree_part_app t s b1 h1 b2 h2 js : tree_part t s (b1 ++ b2) (h1 ++ h2) -> tree_part t s b1 h1 /\ tree_part t (advance s b1 h1 js) b2 h2.
Proof.
  intros (Ht & [rb Hb] & [rh Hh]). split; (split; [done|]); cbn [advance x_bitUsed x_hashUsed].
  - split; eexists; rw ?Hb ?Hh -app_assoc //.
  - rw -!drop_drop Hb Hh -!app_assoc !drop_app_length. split; by eexists.
Qed.

(** No node that has two children has the same hash twice below it. *)
Definition siblings_differ : Prop := forall k i, ((2 * i + 1) * 2 ^ k < N)%nat -> node k (2 * i) <> node k (2 * i + 1).

(** Hashes have 32 bytes. *)
Definition hashes32 : Prop := (forall b, length (Sha256 b) = 32%nat) /\ Forall (fun h => length h = 32%nat) leaves.
Lemma node_length k i : hashes32 -> (i * 2 ^ k < N)%nat -> length (node k i) = 32%nat.
Proof.
  intros [Hs Hl] Hi. destruct k as [|k]; [|apply Hs]. rw Nat.mul_1_r in Hi. cbn [MerkleFacts.node].
  destruct (lookup_lt_is_Some_2 leaves i Hi) as [x Hx]. rw (nth_lookup_Some _ _ _ _ Hx). by eapply (Forall_lookup_1 _ _ _ _ Hl).
Qed.

Lemma extract_build {E} k : forall i, siblings_differ -> (k <= 31)%nat -> (i * 2 ^ k < N)%nat ->
  exists bits hashes, TraverseAndBuild (E := E) Sha256 (Z.of_nat N) k (Z.of_nat i) leaves matches = Ok (bits, hashes) /\
    (0 < length hashes <= span k i)%nat /\ (length hashes <= length bits < 2 ^ S k)%nat /\
    (hashes32 -> Forall (fun h => length h = 32%nat) hashes) /\
    forall t s, tree_part t s bits hashes -> TraverseAndExtract Sha256 t k (Z.of_nat i) s = (node k i, advance s bits hashes (picked_in k i)).
Proof.
  induction k as [|k IH]; intros i Hd Hk Hi; cbn [TraverseAndBuild].
  - pose proof (parent_match (E := E) 0 i Hk Hi) as Hm. cbv zeta in Hm. rw Hm. cbn [mbind res_bind]. rw calcHash_node //; [|lia]. cbn [mbind res_bind].
    eexists _, _. split; [done|]. split; [rw Nat.mul_1_r in Hi; unfold span; cbn [length Nat.pow]; lia|]. split; [cbn; lia|].
    split; [intros Hs; repeat constructor; by apply node_length|]. rw Nat.mul_1_r in Hi.
    intros t s (Ht & [rb Hb] & [rh Hh]). cbn [TraverseAndExtract]. rw -{1}(Nat.add_0_r (x_bitUsed s)) -lookup_drop Hb.
    cbn [lookup list_lookup app x_bitUsed x_hashUsed x_matches x_items x_bad]. rw -{1}(Nat.add_0_r (x_hashUsed s)) -lookup_drop Hh. cbn [lookup list_lookup]. f_equal. unfold advance. cbn [length x_bitUsed x_hashUsed x_matches x_items x_bad].
    rw i64_id; last int_lia. rw picked_in_0 //. destruct (nth i matches false); cbn [bool_decide negb map]; rw ?app_nil_r !Nat.add_1_r //.
  - pose proof (parent_match (E := E) (S k) i Hk Hi) as Hm. cbv zeta in Hm. rw Hm. cbn [mbind res_bind].
    destruct (bool_decide (picked_in (S k) i = [])) eqn:Ep; cbn [negb].
    + apply bool_decide_eq_true in Ep. rw calcHash_node //; [|lia]. cbn [mbind res_bind]. eexists _, _. split; [done|]. cbn [length].
      pose proof (pow2_pos k). split; [unfold span; rw pow2_S; rw pow2_S in Hi; lia|]. split; [rw !pow2_S; lia|].
      split; [intros Hs; repeat constructor; by apply node_length|].
      intros t s (Ht & [rb Hb] & [rh Hh]). cbn [TraverseAndExtract]. rw -{1}(Nat.add_0_r (x_bitUsed s)) -lookup_drop Hb.
      cbn [lookup list_lookup app negb x_bitUsed x_hashUsed x_matches x_items x_bad]. rw -{1}(Nat.add_0_r (x_hashUsed s)) -lookup_drop Hh.
      cbn [lookup list_lookup app]. f_equal. unfold advance. rw Ep. cbn [length map]. rw !app_nil_r !Nat.add_1_r //.
    + destruct (child_pos (S k) i Hi) as [-> ->]. rw right_child; [|lia]. rw pow2_S in Hi.
      destruct (IH (2 * i)%nat Hd) as (b1 & h1 & E1 & L1 & L1' & W1 & X1); [lia|lia|]. rw E1. cbn [mbind res_bind].
      assert (exists b2 h2, (if ((2 * i + 1) * 2 ^ k <? N)%nat
          then TraverseAndBuild (E := E) Sha256 (Z.of_nat N) k (Z.of_nat (2 * i + 1)) leaves matches else Ok ([], [])) = Ok (b2, h2) /\
        (length h1 + length h2 <= span (S k) i)%nat /\ (length h2 <= length b2 < 2 ^ S k)%nat /\ (hashes32 -> Forall (fun h => length h = 32%nat) h2) /\
        forall t s, tree_part t s b2 h2 -> pmt_txs t = Z.of_nat N ->
          (if ((2 * i + 1) * 2 ^ k <? N)%nat then TraverseAndExtract Sha256 t k (Z.of_nat (2 * i + 1)) s else (node k (2 * i), s)) =
          (if ((2 * i + 1) * 2 ^ k <? N)%nat then node k (2 * i + 1) else node k (2 * i),
           advance s b2 h2 (if ((2 * i + 1) * 2 ^ k <? N)%nat then picked_in k (2 * i + 1) else []))) as (b2 & h2 & E2 & L2 & L2' & W2 & X2).
      { unfold span in *. rw pow2_S. destruct (Nat.ltb_spec ((2 * i + 1) * 2 ^ k) N).
        - destruct (IH (2 * i + 1)%nat Hd) as (b2 & h2 & E2 & L2 & L2' & W2 & X2); [lia|lia|]. exists b2, h2. split; [done|].
          split; [lia|]. split; [done|]. split; [done|]. intros t s Ht _. by apply X2.
        - exists [], []. split; [done|]. cbn [length]. pose proof (pow2_pos (S k)). split; [lia|]. split; [lia|]. split; [done|]. intros t s _ _. unfold advance. cbn. rw !Nat.add_0_r !app_nil_r. by destruct s. }
      rw E2. cbn [mbind res_bind]. eexists _, _. split; [done|]. cbn [length]. rw !length_app. split; [lia|]. split; [rw (pow2_S (S k)); lia|].
      split; [intros Hs; apply Forall_app; split; [by apply W1|by apply W2]|].
      intros t s (Ht & [rb Hb] & Hh). cbn [TraverseAndExtract]. rw -{1}(Nat.add_0_r (x_bitUsed s)) -lookup_drop Hb.
      cbn [lookup list_lookup app negb]. set (s0 := mkX (S (x_bitUsed s)) (x_hashUsed s) (x_matches s) (x_items s) (x_bad s)).
      assert (tree_part t s0 (b1 ++ b2) (h1 ++ h2)) as Hp0.
      { split; [done|]. split; [|done]. exists rb. cbn [s0 x_bitUsed]. rw -Nat.add_1_r -drop_drop Hb. done. }
      destruct (tree_part_app t s0 b1 h1 b2 h2 (picked_in k (2 * i)) Hp0) as [Hp1 Hp2].
      destruct (child_pos (S k) i) as [-> ->]; [rw pow2_S; lia|]. rw (X1 t s0 Hp1) Ht right_child; [|lia]. pose proof (X2 t _ Hp2 Ht) as X2'.
      assert (advance (advance s0 b1 h1 (picked_in k (2 * i))) b2 h2 (if ((2 * i + 1) * 2 ^ k <? N)%nat then picked_in k (2 * i + 1) else [])
        = advance s (true :: b1 ++ b2) (h1 ++ h2) (picked_in (S k) i)) as Ead.
      { unfold advance. cbn [x_bitUsed x_hashUsed x_matches x_items x_bad s0 length]. rw picked_in_S !map_app !length_app -!app_assoc. f_equal; lia. }
      cbn [MerkleFacts.node]. destruct (Nat.ltb_spec ((2 * i + 1) * 2 ^ k) N) as [Hr|Hr].
      * rw X2'. rw bool_decide_false; [by rw Ead|]. intros He. by apply (Hd k i Hr).
      * apply (f_equal snd) in X2'. cbn [snd] in X2'. by rw {1}X2' Ead.
Qed.
End Partial.

(** ** The encoding of partial trees *)
Lemma bit_byte_bits l : (length l <= 8)%nat -> forall n, (length l <= n)%nat ->
  map (fun i => Z.testbit (bit_byte l) (Z.of_nat i)) (seq 0 n) = l ++ replicate (n - length l) false.
Proof.
  induction l as [|b l IH]; intros Hl n Hn; cbn [length] in *.
  - cbn [bit_byte foldr app]. rw Nat.sub_0_r. clear. generalize 0%nat. induction n as [|n IH]; intros a; [done|]. cbn. by rw IH Z.bits_0.
  - destruct n as [|n]; [lia|]. cbn [seq map app]. rw Nat.sub_succ. f_equal.
    + cbn [bit_byte foldr]. apply Z.add_b2z_double_bit0.
    + rw -seq_shift map_map -(IH ltac:(lia) n ltac:(lia)). apply map_ext. intros i. rw Nat2Z.inj_succ. cbn [bit_byte foldr].
      fold (bit_byte l). rw (Z.add_comm (Z.b2z b)). apply Z.testbit_succ_r. lia.
Qed.
Lemma unpack_pack n : forall l, (length l <= 8 * n)%nat -> unpack_bits (pack_bits n l) = l ++ replicate (8 * n - length l) false.
Proof.
  induction n as [|n IH]; intros l Hl; [by destruct l; [|cbn in Hl; lia]|]. cbn [pack_bits]. unfold unpack_bits in *. cbn [map concat].
  rw IH; [|rw length_drop; lia]. pose proof (length_take l 8) as Ht. rw bit_byte_bits; [|lia|lia]. rw length_drop.
  destruct (decide (8 <= length l)%nat).
  - replace (8 - length (take 8 l))%nat with 0%nat by lia. cbn [replicate]. rw app_nil_r app_assoc take_drop. do 2 f_equal. lia.
  - rw drop_ge; [|lia]. rw take_ge; [|lia]. rw -app_assoc -replicate_add. cbn [app]. do 2 f_equal. lia.
Qed.
Lemma length_pack n : forall l, length (pack_bits n l) = n.
Proof. induction n as [|n IH]; intros l; [done|]. cbn. by rw IH. Qed.

Lemma PMT_roundtrip t r : 0 <= pmt_txs t < 2 ^ 63 -> Forall (fun h => length h = 32%nat) (pmt_hashes t) ->
  Z.of_nat (length (pmt_hashes t)) < 2 ^ 43 -> Z.of_nat (length (pmt_bits t)) < 2 ^ 34 ->
  exists pad, ((length (pmt_bits t ++ pad) + 7) / 8 = (length (pmt_bits t) + 7) / 8)%nat /\
    PMT_Unserialize (PMT_Serialize t ++ r) = Ok (mkPMT (pmt_txs t) (pmt_bits t ++ pad) (pmt_hashes t) false, r).
Proof.
  intros Ht Hh Hl Hb. set (n := ((length (pmt_bits t) + 7) / 8)%nat). pose proof (Nat.div_mod (length (pmt_bits t) + 7) 8 ltac:(lia)) as Hd.
  pose proof (Nat.mod_upper_bound (length (pmt_bits t) + 7) 8 ltac:(lia)) as Hm. fold n in Hd.
  exists (replicate (8 * n - length (pmt_bits t)) false). split.
  { rw length_app length_replicate. fold n. symmetry. apply (Nat.div_unique _ 8 n 7); lia. }
  unfold PMT_Serialize, PMT_Unserialize. app_right. rw u64_id; last int_lia.
  erewrite rd_bind_ok; [|apply ReadVarInt_write; int_lia]. erewrite rd_bind_ok; [|apply ReadVarInt_write; int_lia].
  unfold maxAlloc. destruct (Z.ltb_spec (2 ^ 48) (32 * Z.of_nat (length (pmt_hashes t)))); [lia|]. rw Nat2Z.id.
  assert (rd_times (length (pmt_hashes t)) (ReadFull 32) (concat (pmt_hashes t) ++ WriteVarBytes (pack_bits n (pmt_bits t)) ++ r)
    = Ok (pmt_hashes t, WriteVarBytes (pack_bits n (pmt_bits t)) ++ r)) as Er.
  { generalize (WriteVarBytes (pack_bits n (pmt_bits t)) ++ r). clear -Hh. induction Hh as [|h hs Hh _ IH]; intros r'; [done|].
    cbn [length rd_times concat]. rw -app_assoc. erewrite rd_bind_ok; [|by apply ReadFull_app']. by erewrite rd_bind_ok; [|apply IH]. }
  erewrite rd_bind_ok; [|exact Er]. unfold WriteVarBytes, ReadVarBytes. rw length_pack. app_right.
  erewrite rd_bind_ok; [|erewrite rd_bind_ok; [|apply ReadVarInt_write; int_lia]].
  2: { destruct (Z.ltb_spec 0xffffffff (Z.of_nat n)); [lia|]. rw Nat2Z.id. apply ReadFull_app'. apply length_pack. }
  rw i64_id; last int_lia. rw unpack_pack //. lia.
Qed.
