(* ===== verification/MerkleTheorems.v ===== *)
(** * Theorems on merkle roots, branches and partial trees *)
From S2P Require Import Prelude Errors Wire ScriptNum Opcodes Script ScriptFacts Tx TxFacts Crypto Compress Coins Block Undo Merkle MerkleFacts PartialTreeFacts.

(** Three leaves for evaluation. *)
Definition leaf (n : Z) : bytes := le_bytes 32 n.
Definition leaves3 : list bytes := [leaf 1; leaf 2; leaf 3].
Lemma small_level k i n : ((2 * i + 1) * 2 ^ k < n)%nat -> (n <= 4)%nat -> (k <= 1)%nat /\ (i <= 1)%nat.
Proof.
  intros Hi Hn. pose proof (pow2_pos k). split; [|nia]. destruct k as [|[|k]]; [lia|lia|]. exfalso. rw !pow2_S in Hi. pose proof (pow2_pos k). nia.
Qed.

(** C16. The constant-space merkle computation is right.  On one to 2^31 leaves
    ComputeMerkleRoot terminates without a panic and returns the root of the tree
    that lmerkleblock's recursive calcHash computes; its flag is set exactly when
    two neighbouring complete subtrees have the same hash, which is how a block
    with duplicated transactions is told from the block it imitates; and for every
    leaf the branch of ComputeMerkleBranch leads ComputeMerkleRootFromBranch from
    the leaf to that root. *)
Theorem merkle_root_spec (Sha256 : bytes -> bytes) (leaves : list bytes) :
  (0 < length leaves)%nat -> Z.of_nat (length leaves) <= 2 ^ 31 ->
  exists root mutated, ComputeMerkleRoot (E := TxErr) Sha256 leaves = Ok (root, mutated) /\
    calcHash (E := TxErr) Sha256 (Z.of_nat (length leaves)) (Nat.log2_up (length leaves)) 0 leaves = Ok root /\
    (mutated = true <-> twins Sha256 leaves (length leaves)) /\
    forall pos leaf, leaves !! pos = Some leaf -> exists branch,
      ComputeMerkleBranch (E := TxErr) Sha256 leaves (Z.of_nat pos) = Ok branch /\
      ComputeMerkleRootFromBranch Sha256 leaf branch (Z.of_nat pos) = root.
Proof.
  intros HN Hb. destruct (merkle_root (E := TxErr) Sha256 leaves 0xffffffff None HN Hb) as (K & mu & pb & E1 & Htop & Hmu).
  exists (node Sha256 leaves K 0), mu. unfold ComputeMerkleRoot. rw E1. cbn [mbind res_bind]. split_and!; [done| |done|].
  - rw -(top_level_log2 _ _ HN Htop). pose proof (top_level_bound _ _ Hb Htop). apply (calcHash_node Sha256 leaves Hb K 0%nat); [lia|lia].
  - intros pos lf Hl. pose proof (lookup_lt_Some _ _ _ Hl) as Hpos.
    destruct (merkle_branch (E := TxErr) Sha256 leaves pos [] Hpos Hb) as (root & mu' & b & E2 & Hroot).
    destruct (merkle_root (E := TxErr) Sha256 leaves (Z.of_nat pos) (Some []) HN Hb) as (K' & mu'' & pb' & E3 & Htop' & _).
    rw E2 in E3. injection E3 as -> -> <-. exists b. unfold ComputeMerkleBranch. rw E2. split; [done|].
    cbn [node] in Hroot. rw (nth_lookup_Some _ _ _ _ Hl) in Hroot. by rw Hroot (top_level_unique _ _ _ Htop' Htop).
Qed.
Lemma merkle_root_spec_witness :
  exists root mutated branch, ComputeMerkleRoot (E := TxErr) toy_hash leaves3 = Ok (root, mutated) /\
    ComputeMerkleBranch (E := TxErr) toy_hash leaves3 2 = Ok branch /\ ComputeMerkleRootFromBranch toy_hash (leaf 3) branch 2 = root.
Proof.
  destruct (merkle_root_spec toy_hash leaves3) as (root & mu & E1 & _ & _ & Hbr); [cbn; lia|cbn; lia|].
  destruct (Hbr 2%nat (leaf 3) eq_refl) as (branch & E2 & E3). exists root, mu, branch. exact (conj E1 (conj E2 E3)).
Defined.

(** C12. A merkle root commits to the transactions.  Two different lists of 1 to 2^31 hashes
    whose trees have the same height and the same root are told apart by ComputeMerkleRoot: it
    reports equal siblings (mutated) for at least one of them, provided that no inner node
    of one tree has the hash of an inner node of the same level of the other without
    having the same two children (no collision of the hash).  The condition on the height
    is needed: a list of one hash has the root of the two hashes it is made of
    ([merkle_heights]). *)
Theorem merkle_commits (Sha256 : bytes -> bytes) (l1 l2 : list bytes) (root : bytes) (mutated1 mutated2 : bool) :
  (0 < length l1)%nat -> (0 < length l2)%nat -> Z.of_nat (length l1) <= 2 ^ 31 -> Z.of_nat (length l2) <= 2 ^ 31 ->
  Nat.log2_up (length l1) = Nat.log2_up (length l2) ->
  ComputeMerkleRoot (E := TxErr) Sha256 l1 = Ok (root, mutated1) -> ComputeMerkleRoot (E := TxErr) Sha256 l2 = Ok (root, mutated2) ->
  collision_free Sha256 l1 l2 -> l1 <> l2 -> mutated1 = true \/ mutated2 = true.
Proof.
  intros HN1 HN2 Hb1 Hb2 Hh E1 E2 Hcf Hne. destruct mutated1; [by left|]. destruct mutated2; [by right|]. destruct Hne. unfold ComputeMerkleRoot in *.
  destruct (merkle_root (E := TxErr) Sha256 l1 0xffffffff None HN1 Hb1) as (K1 & mu1 & pb1 & F1 & Ht1 & Hm1).
  destruct (merkle_root (E := TxErr) Sha256 l2 0xffffffff None HN2 Hb2) as (K2 & mu2 & pb2 & F2 & Ht2 & Hm2).
  rw F1 in E1. rw F2 in E2. injection E1 as <- ->. injection E2 as Hr ->.
  rw (top_level_log2 _ _ HN1 Ht1) Hh -(top_level_log2 _ _ HN2 Ht2) in Hr.
  assert (K1 = K2) as -> by (rw (top_level_log2 _ _ HN1 Ht1) Hh; by rw -(top_level_log2 _ _ HN2 Ht2)).
  pose proof (node_commits Sha256 l1 l2 Hcf) as Hc. destruct Ht1 as [Hk1 _], Ht2 as [Hk2 _].
  specialize (Hc ltac:(by intros ?%Hm1) ltac:(by intros ?%Hm2) K2 0%nat 0%nat ltac:(lia) ltac:(lia) (eq_sym Hr)).
  unfold below in Hc. cbn in Hc. rw !drop_0 !take_ge in Hc; [done|lia|lia].
Qed.
(** Above its root a tree only repeats it. *)
Lemma kids_above Sha256 l1 l2 k : (length l1 <= 2 ^ k)%nat -> (length l2 <= 2 ^ k)%nat -> node Sha256 l1 k 0 = node Sha256 l2 k 0 ->
  forall d, kids Sha256 l1 (d + k) 0 = kids Sha256 l2 (d + k) 0.
Proof.
  intros H1 H2 Hr d. assert (2 ^ k <= 2 ^ (d + k))%nat as Hp by (apply Nat.pow_le_mono_r; lia).
  assert (node Sha256 l1 (d + k) 0 = node Sha256 l2 (d + k) 0 -> kids Sha256 l1 (d + k) 0 = kids Sha256 l2 (d + k) 0) as Hk.
  { intros Hn. unfold kids. destruct (Nat.ltb_spec ((2 * 0 + 1) * 2 ^ (d + k)) (length l1)); [lia|]. destruct (Nat.ltb_spec ((2 * 0 + 1) * 2 ^ (d + k)) (length l2)); [lia|]. cbn [Nat.mul]. by rw Hn. }
  apply Hk. clear Hp Hk. induction d as [|d IH]; [done|]. change (S d + k)%nat with (S (d + k)). rw !node_kids. unfold kids.
  assert (2 ^ k <= 2 ^ (d + k))%nat as Hp by (apply Nat.pow_le_mono_r; lia).
  destruct (Nat.ltb_spec ((2 * 0 + 1) * 2 ^ (d + k)) (length l1)); [lia|]. destruct (Nat.ltb_spec ((2 * 0 + 1) * 2 ^ (d + k)) (length l2)); [lia|]. cbn [Nat.mul fst snd]. by rw IH.
Qed.
Definition leaves4 : list bytes := [leaf 1; leaf 2; leaf 3; leaf 3].
Lemma leaves_collision_free : collision_free toy_hash leaves3 leaves4.
Proof.
  intros k i j Hi Hj Heq. change (length leaves4) with 4%nat in Hj. change (length leaves3) with 3%nat in Hi. rewrite pow2_S in Hi. rewrite pow2_S in Hj. pose proof (pow2_pos k) as Hp.
  destruct k as [|[|k]].
  - assert ((i = 0 \/ i = 1) /\ (j = 0 \/ j = 1))%nat as [[-> | ->] [-> | ->]] by (cbn in Hi, Hj; lia); vm_compute in Heq; first [discriminate Heq|vm_compute; reflexivity].
  - assert (i = 0 /\ j = 0)%nat as [-> ->] by (cbn in Hi, Hj; lia). vm_compute. reflexivity.
  - rewrite !pow2_S in Hi. rewrite !pow2_S in Hj. pose proof (pow2_pos k). assert (i = 0 /\ j = 0)%nat as [-> ->] by nia.
    replace (S (S k)) with (k + 2)%nat by lia. apply kids_above; [cbn; lia|cbn; lia|vm_compute; reflexivity].
Qed.
(** The last of an odd number of hashes repeated: the same root, and the repetition is
    reported. *)
Lemma merkle_commits_witness : exists root mutated, ComputeMerkleRoot (E := TxErr) toy_hash leaves3 = Ok (root, false) /\
  ComputeMerkleRoot (E := TxErr) toy_hash leaves4 = Ok (root, mutated) /\ (false = true \/ mutated = true).
Proof.
  exists (node toy_hash leaves3 2 0), true. assert (ComputeMerkleRoot (E := TxErr) toy_hash leaves3 = Ok (node toy_hash leaves3 2 0, false)) as E3 by (vm_compute; reflexivity).
  assert (ComputeMerkleRoot (E := TxErr) toy_hash leaves4 = Ok (node toy_hash leaves3 2 0, true)) as E4 by (vm_compute; reflexivity). split; [exact E3|]. split; [exact E4|].
  apply (merkle_commits toy_hash leaves3 leaves4 (node toy_hash leaves3 2 0) false true); [cbn; lia|cbn; lia|cbn; lia|cbn; lia|reflexivity|exact E3|exact E4|exact leaves_collision_free|discriminate].
Defined.
(** Trees of different heights share a root without any collision. *)
Example merkle_heights : exists h, ComputeMerkleRoot (E := TxErr) toy_hash [leaf 1; leaf 2] = Ok (h, false) /\ ComputeMerkleRoot (E := TxErr) toy_hash [h] = Ok (h, false).
Proof. eexists. split; vm_compute; reflexivity. Qed.

Section Partial.
Context (Sha256 : bytes -> bytes).

(** C35. Partial trees are complete: for the hashes of a block and a choice of
    some of them, NewPartialMerkleTree succeeds; a peer that decodes the encoded
    tree and calls ExtractMatches obtains the merkle root of the block together with
    exactly the chosen hashes and their positions, in order, provided no two
    siblings of the full tree have the same hash. *)
Theorem partial_tree_complete (leaves : list bytes) (matches : list bool) (r : bytes) :
  (0 < length leaves)%nat -> Z.of_nat (length leaves) <= 2 ^ 31 -> length matches = length leaves -> hashes32 Sha256 leaves ->
  siblings_differ Sha256 leaves ->
  let chosen := picked matches 0 (length leaves) in
  exists t t' root, NewPartialMerkleTree (E := TxErr) Sha256 leaves matches = Ok t /\
    (exists mutated, ComputeMerkleRoot (E := TxErr) Sha256 leaves = Ok (root, mutated)) /\
    PMT_Unserialize (PMT_Serialize t ++ r) = Ok (t', r) /\
    ExtractMatches (E := TxErr) Sha256 t' = Ok (root, map (fun j => nth j leaves HashZero) chosen, map Z.of_nat chosen, t').
Proof.
  intros HN Hb Hm H32 Hd chosen. destruct (merkle_root (E := TxErr) Sha256 leaves 0xffffffff None HN Hb) as (K & mu & pb & E1 & Htop & _).
  pose proof (top_level_bound _ _ Hb Htop) as HK.
  destruct (extract_build (E := TxErr) Sha256 leaves Hb matches Hm K 0 Hd ltac:(lia) ltac:(cbn; lia)) as (bits & hashes & E2 & [Hh0 Hh] & [Hbh Hbits] & H32' & Hx).
  assert (span leaves K 0 = length leaves) as Hspan by (unfold span; destruct Htop; cbn; lia).
  assert (picked_in leaves matches K 0 = chosen) as Hpk by (unfold picked_in; by rw Hspan).
  assert (Z.of_nat (length bits) < 2 ^ 34) as Hbz.
  { apply Nat2Z.inj_lt in Hbits. rw pow2_Z in Hbits. assert (2 ^ Z.of_nat (S K) <= 2 ^ 32) by (apply Z.pow_le_mono_r; lia). lia. }
  set (t := mkPMT (Z.of_nat (length leaves)) bits hashes false).
  destruct (PMT_roundtrip t r) as (pad & Hpad & Er); [cbn; lia|by apply H32'|cbn; lia|done|]. cbn [pmt_bits pmt_txs pmt_hashes t] in Hpad, Er.
  exists t, (mkPMT (Z.of_nat (length leaves)) (bits ++ pad) hashes false), (node Sha256 leaves K 0).
  pose proof (tree_height_spec (E := TxErr) leaves K 66 0 Hb Htop ltac:(lia) ltac:(lia)) as Eh. change (Z.of_nat 0) with 0 in E2, Hx.
  split; [unfold NewPartialMerkleTree; rw Eh; cbn [mbind res_bind]; by rw E2|].
  split; [exists mu; unfold ComputeMerkleRoot; by rw E1|]. split; [exact Er|].
  unfold ExtractMatches. cbn [pmt_txs pmt_hashes pmt_bits pmt_bad]. destruct (Z.eqb_spec (Z.of_nat (length leaves)) 0); [lia|].
  destruct (Z.ltb_spec (Z.of_nat (length leaves)) (Z.of_nat (length hashes))); [lia|]. rw length_app.
  destruct (Nat.ltb_spec (length bits + length pad) (length hashes)); [lia|]. rw length_app in Hpad.
  rw Eh. cbn [mbind res_bind]. rw (Hx _ (mkX 0 0 [] [] false)).
  - unfold advance. cbn [x_bad x_bitUsed x_hashUsed x_matches x_items]. rw !Nat.add_0_l Hpad !Nat.eqb_refl !app_nil_l Hpk. done.
  - split; [done|]. split; [by exists pad|]. exists []. by rw drop_0 app_nil_r.
Qed.

(** C13. Partial trees are sound for the right number of transactions: whatever bits and
    hashes a peer sends with the number of transactions of the block (1 to 2^31), if ExtractMatches
    returns the merkle root of the block (not the zero hash that reports a malformed
    tree), then every hash it reports is the transaction hash at the position it reports,
    unless the tree contains a second preimage of a node of the block's tree.
    ExtractMatches takes the number from the peer and checks it against nothing; with
    another number an inner node can be passed off as a transaction
    ([partial_tree_wrong_count]). *)
Theorem partial_tree_sound (leaves : list bytes) (t t' : PartialMerkleTree) (root : bytes) (mutated : bool) (ms : list bytes) (items : list Z) :
  (0 < length leaves)%nat -> Z.of_nat (length leaves) <= 2 ^ 31 -> pmt_txs t = Z.of_nat (length leaves) ->
  ComputeMerkleRoot (E := TxErr) Sha256 leaves = Ok (root, mutated) -> root <> HashZero ->
  ExtractMatches (E := TxErr) Sha256 t = Ok (root, ms, items, t') ->
  (exists js, Forall (fun j => (j < length leaves)%nat) js /\ items = map Z.of_nat js /\ ms = map (fun j => nth j leaves HashZero) js) \/
  forged Sha256 leaves t.
Proof.
  intros HN Hb Ht E1 Hz Ex. destruct (merkle_root (E := TxErr) Sha256 leaves 0xffffffff None HN Hb) as (K & mu & pb & F1 & Htop & _).
  unfold ComputeMerkleRoot in E1. rw F1 in E1. injection E1 as <- _. pose proof (top_level_bound _ _ Hb Htop) as HK.
  unfold ExtractMatches in Ex. rw Ht in Ex. destruct (Z.eqb_spec (Z.of_nat (length leaves)) 0); [lia|].
  destruct (_ <? _); [exfalso; apply Hz; by injection Ex as <-|]. destruct (_ <? _)%nat; [exfalso; apply Hz; by injection Ex as <-|].
  rw (tree_height_spec (E := TxErr) leaves K 66 0 Hb Htop ltac:(lia) ltac:(lia)) in Ex. cbn [mbind res_bind] in Ex.
  destruct (TraverseAndExtract Sha256 t K 0 _) as [h s'] eqn:Et. destruct (x_bad s') eqn:Eb; [exfalso; apply Hz; by injection Ex as <-|].
  destruct (negb _); [exfalso; apply Hz; by injection Ex as <-|]. destruct (negb _); [exfalso; apply Hz; by injection Ex as <-|]. injection Ex as Hh <- <- _.
  destruct (extract_sound Sha256 leaves Hb t K 0 _ _ _ Ht ltac:(lia) ltac:(cbn; lia) Et Eb Hh) as [(js & HF & Hi & Hms)|]; [|by right].
  left. exists js. by split_and!.
Qed.
End Partial.

Lemma leaves3_differ : siblings_differ toy_hash leaves3.
Proof.
  intros k i Hi. destruct (small_level k i 3 Hi) as [Hk Hi']; [lia|]. change (length leaves3) with 3%nat in Hi.
  destruct k as [|[|k]]; [|destruct i as [|[|i]]; [|cbn in Hi; lia|lia]|lia].
  - destruct i as [|[|i]]; [|cbn in Hi; lia|lia]. by vm_compute.
  - by vm_compute.
Qed.
Lemma leaves3_length : hashes32 toy_hash leaves3.
Proof. split; [apply toy_hash_length|]. repeat constructor. Qed.
Lemma partial_tree_complete_witness :
  exists t t' root, NewPartialMerkleTree (E := TxErr) toy_hash leaves3 [false; false; true] = Ok t /\
    PMT_Unserialize (PMT_Serialize t ++ [7]) = Ok (t', [7]) /\ ExtractMatches (E := TxErr) toy_hash t' = Ok (root, [leaf 3], [2], t').
Proof.
  destruct (partial_tree_complete toy_hash leaves3 [false; false; true] [7]) as (t & t' & root & E1 & _ & E2 & E3);
    [cbn; lia|cbn; lia|reflexivity|apply leaves3_length|apply leaves3_differ|]. exists t, t', root. exact (conj E1 (conj E2 E3)).
Defined.
(** A peer that announces one transaction: the root itself is reported as the hash of
    transaction 0 of a block of three. *)
Example partial_tree_wrong_count : exists root, ComputeMerkleRoot (E := TxErr) toy_hash leaves3 = Ok (root, false) /\
  (ExtractMatches (E := TxErr) toy_hash (mkPMT 1 (true :: replicate 7 false) [root] false) = Ok (root, [root], [0], mkPMT 1 (true :: replicate 7 false) [root] false)) /\ ~ root ∈ leaves3.
Proof. eexists. split; [vm_compute; reflexivity|]. split; [vm_compute; reflexivity|]. apply (bool_decide_unpack _). vm_compute. exact I. Qed.
Lemma partial_tree_sound_witness :
  exists t root ms items t', NewPartialMerkleTree (E := TxErr) toy_hash leaves3 [false; true; false] = Ok t /\
    ExtractMatches (E := TxErr) toy_hash t = Ok (root, ms, items, t') /\
    ((exists js, Forall (fun j => (j < 3)%nat) js /\ items = map Z.of_nat js /\ ms = map (fun j => nth j leaves3 HashZero) js) \/
     forged toy_hash leaves3 t).
Proof.
  destruct (NewPartialMerkleTree (E := TxErr) toy_hash leaves3 [false; true; false]) as [t|e|] eqn:Et; vm_compute in Et; [|discriminate Et..].
  injection Et as Et. exists t. destruct (ComputeMerkleRoot (E := TxErr) toy_hash leaves3) as [[root mu]|e|] eqn:Er; [|vm_compute in Er; discriminate Er..].
  assert (ExtractMatches (E := TxErr) toy_hash t = Ok (root, [leaf 2], [1], t)) as Ex.
  { vm_compute in Er. injection Er as <- _. rewrite <- Et. vm_compute. reflexivity. }
  exists root, [leaf 2], [1], t. split; [reflexivity|]. split; [exact Ex|].
  apply (partial_tree_sound toy_hash leaves3 t t root mu [leaf 2] [1]); [cbn; lia|cbn; lia|rewrite <- Et; reflexivity|exact Er| |exact Ex].
  vm_compute in Er. injection Er as <- _. discriminate.
Defined.
