(* ===== verification/BlockIndex.v ===== *)
(** * The block index (model/blockindex) and difficulty (model/pow/difficulty.go)

    Block indexes point to each other; a pointer is a [nat] that is looked up in a
    heap, a nil pointer is [None]. *)
From stdpp Require Import sorting.
From S2P Require Import Prelude Errors Wire ScriptNum Opcodes Script ScriptFacts Tx TxFacts Block.

(** ** Compact targets *)

(** The hash is little-endian. *)
Definition HashToBig (hash : bytes) : Z := le_val hash.
Definition CompactToBig (compact : Z) : Z :=
  let mantissa := compact .& 0x007fffff in
  let isNegative := negb (compact .& 0x00800000 =? 0) in
  let exponent := compact .>> 24 in
  let bn := if exponent <=? 3 then mantissa .>> (8 * (3 - exponent)) else mantissa .<< (8 * (exponent - 3)) in
  if isNegative then - bn else bn.
(** The length of [n.Bytes()], and the lowest word of the absolute value. *)
Definition byte_len (n : Z) : Z := Z.log2 (Z.abs n) / 8 + 1.
Definition low_word (n : Z) : Z := u64 (Z.abs n).
Definition BigToCompact (n : Z) : Z :=
  if n =? 0 then 0
  else
    let exponent := byte_len n in
    let mantissa :=
      if exponent <=? 3 then u32 (u32 (low_word n) .<< (8 * (3 - exponent)))
      else u32 (low_word (n .>> (8 * (exponent - 3)))) in
    let '(mantissa, exponent) :=
      if negb (mantissa .& 0x00800000 =? 0) then (mantissa .>> 8, exponent + 1) else (mantissa, exponent) in
    let compact := u32 (exponent .<< 24) .| mantissa in
    if n <? 0 then compact .| 0x00800000 else compact.
Definition oneLsh256 : Z := 2 ^ 256.

(** ** Block status (blockstatus.go) *)
Definition BlockValidHeader : Z := 1.
Definition BlockValidTree : Z := 2.
Definition BlockValidTransactions : Z := 3.
Definition BlockValidChain : Z := 4.
Definition BlockValidScripts : Z := 5.
Definition BlockValidMask : Z := 0x07.
Definition BlockHaveData : Z := 8.
Definition BlockHaveUndo : Z := 16.
Definition BlockFailed : Z := 32.
Definition BlockFailedParent : Z := 64.
Definition BlockInvalidMask : Z := BlockFailed .| BlockFailedParent.

(** ** The index *)
Record BlockIndex := mkBI {
  bi_Header : BlockHeader;
  bi_blockHash : bytes;
  bi_Prev : option nat;
  bi_Skip : option nat;
  bi_Height : Z;
  bi_File : Z;
  bi_DataPos : Z;
  bi_UndoPos : Z;
  bi_ChainWork : Z;
  bi_TxCount : Z;
  bi_ChainTxCount : Z;
  bi_Status : Z;
  bi_SequenceID : Z;
  bi_TimeMax : Z }.
Abbreviation bheap := (gmap nat BlockIndex).

Definition set_Prev (q : option nat) (b : BlockIndex) : BlockIndex :=
  mkBI (bi_Header b) (bi_blockHash b) q (bi_Skip b) (bi_Height b) (bi_File b) (bi_DataPos b) (bi_UndoPos b) (bi_ChainWork b)
    (bi_TxCount b) (bi_ChainTxCount b) (bi_Status b) (bi_SequenceID b) (bi_TimeMax b).
Definition set_Skip (q : option nat) (b : BlockIndex) : BlockIndex :=
  mkBI (bi_Header b) (bi_blockHash b) (bi_Prev b) q (bi_Height b) (bi_File b) (bi_DataPos b) (bi_UndoPos b) (bi_ChainWork b)
    (bi_TxCount b) (bi_ChainTxCount b) (bi_Status b) (bi_SequenceID b) (bi_TimeMax b).
Definition set_Height (n : Z) (b : BlockIndex) : BlockIndex :=
  mkBI (bi_Header b) (bi_blockHash b) (bi_Prev b) (bi_Skip b) n (bi_File b) (bi_DataPos b) (bi_UndoPos b) (bi_ChainWork b)
    (bi_TxCount b) (bi_ChainTxCount b) (bi_Status b) (bi_SequenceID b) (bi_TimeMax b).
Definition set_ChainWork (w : Z) (b : BlockIndex) : BlockIndex :=
  mkBI (bi_Header b) (bi_blockHash b) (bi_Prev b) (bi_Skip b) (bi_Height b) (bi_File b) (bi_DataPos b) (bi_UndoPos b) w
    (bi_TxCount b) (bi_ChainTxCount b) (bi_Status b) (bi_SequenceID b) (bi_TimeMax b).
Definition set_ChainTxCount (n : Z) (b : BlockIndex) : BlockIndex :=
  mkBI (bi_Header b) (bi_blockHash b) (bi_Prev b) (bi_Skip b) (bi_Height b) (bi_File b) (bi_DataPos b) (bi_UndoPos b) (bi_ChainWork b)
    (bi_TxCount b) n (bi_Status b) (bi_SequenceID b) (bi_TimeMax b).
Definition set_Status (n : Z) (b : BlockIndex) : BlockIndex :=
  mkBI (bi_Header b) (bi_blockHash b) (bi_Prev b) (bi_Skip b) (bi_Height b) (bi_File b) (bi_DataPos b) (bi_UndoPos b) (bi_ChainWork b)
    (bi_TxCount b) (bi_ChainTxCount b) n (bi_SequenceID b) (bi_TimeMax b).
Definition set_SequenceID (n : Z) (b : BlockIndex) : BlockIndex :=
  mkBI (bi_Header b) (bi_blockHash b) (bi_Prev b) (bi_Skip b) (bi_Height b) (bi_File b) (bi_DataPos b) (bi_UndoPos b) (bi_ChainWork b)
    (bi_TxCount b) (bi_ChainTxCount b) (bi_Status b) n (bi_TimeMax b).
Definition set_TimeMax (n : Z) (b : BlockIndex) : BlockIndex :=
  mkBI (bi_Header b) (bi_blockHash b) (bi_Prev b) (bi_Skip b) (bi_Height b) (bi_File b) (bi_DataPos b) (bi_UndoPos b) (bi_ChainWork b)
    (bi_TxCount b) (bi_ChainTxCount b) (bi_Status b) (bi_SequenceID b) n.
Definition SetBlockHash (hash : bytes) (b : BlockIndex) : BlockIndex :=
  mkBI (bi_Header b) hash (bi_Prev b) (bi_Skip b) (bi_Height b) (bi_File b) (bi_DataPos b) (bi_UndoPos b) (bi_ChainWork b)
    (bi_TxCount b) (bi_ChainTxCount b) (bi_Status b) (bi_SequenceID b) (bi_TimeMax b).

Definition NewBlockIndex (blkHeader : BlockHeader) : BlockIndex :=
  mkBI blkHeader HashZero None None 0 (-1) 0 0 0 0 0 0 0 0.

(** *** Status bits *)
Definition Failed (b : BlockIndex) : bool := negb (bi_Status b .& BlockFailed =? 0).
Definition HasData (b : BlockIndex) : bool := negb (bi_Status b .& BlockHaveData =? 0).
Definition HasUndo (b : BlockIndex) : bool := negb (bi_Status b .& BlockHaveUndo =? 0).
Definition AddStatus (status : Z) (b : BlockIndex) : BlockIndex := set_Status (bi_Status b .| status) b.
Definition SubStatus (status : Z) (b : BlockIndex) : BlockIndex := set_Status (Z.ldiff (bi_Status b) status) b.
Definition IsInvalid (b : BlockIndex) : bool := negb (bi_Status b .& BlockInvalidMask =? 0).
Definition getValidity (b : BlockIndex) : Z := bi_Status b .& BlockValidMask.
Definition RaiseValidity (upto : Z) (b : BlockIndex) : bool * BlockIndex :=
  if IsInvalid b then (false, b)
  else if upto <=? getValidity b then (false, b)
  else (true, set_Status (Z.ldiff (bi_Status b) BlockValidMask .| upto) b).
Definition BlockIndex_IsValid (upto : Z) (b : BlockIndex) : bool :=
  if IsInvalid b then false else upto <=? getValidity b.
(** File -1 is the null position. *)
Definition GetUndoPos (b : BlockIndex) : Z * Z := if HasUndo b then (bi_File b, bi_UndoPos b) else (-1, 0).
Definition GetBlockPos (b : BlockIndex) : Z * Z := if HasData b then (bi_File b, bi_DataPos b) else (-1, 0).

Section Index.
Context (Sha256 : bytes -> bytes).

(** The hash is computed once and kept, in the index and in its header. *)
Definition GetBlockHash (b : BlockIndex) : bytes * BlockIndex :=
  if Hash_IsNull (bi_blockHash b) then
    let '(d, hdr) := Header_GetHash Sha256 (bi_Header b) in
    (d, mkBI hdr d (bi_Prev b) (bi_Skip b) (bi_Height b) (bi_File b) (bi_DataPos b) (bi_UndoPos b) (bi_ChainWork b)
          (bi_TxCount b) (bi_ChainTxCount b) (bi_Status b) (bi_SequenceID b) (bi_TimeMax b))
  else (bi_blockHash b, b).
End Index.

(** ** Following pointers *)
Definition bload {E} (h : bheap) (p : nat) : res E BlockIndex := match h !! p with Some b => Ok b | None => Panic end.

Definition medianTimeSpan : nat := 11.
Fixpoint past_times {E} (n : nat) (h : bheap) (index : option nat) : res E (list Z) :=
  match n, index with
  | S n, Some p => b ← bload h p; ts ← past_times n h (bi_Prev b); Ok (Time (bi_Header b) :: ts)
  | _, _ => Ok []
  end.
Definition GetMedianTimePast {E} (h : bheap) (index : option nat) : res E Z :=
  match index with
  | None => Ok 0
  | Some p =>
      median ← past_times medianTimeSpan h (Some p);
      let sorted := merge_sort Z.le median in
      nth_go sorted (Z.of_nat (length sorted / 2))
  end.

Definition invertLowestOne (n : Z) : Z := n .& i32 (n - 1).
Definition getSkipHeight (height : Z) : Z :=
  if height <? 2 then 0
  else if negb (height .& 1 =? 0) then i32 (invertLowestOne (invertLowestOne (i32 (height - 1))) + 1)
  else invertLowestOne height.

(** The walk ends after at most as many steps as the height of its start. *)
Fixpoint ancestor_walk {E} (fuel : nat) (h : bheap) (pindexWalk : nat) (heightWalk height : Z) : res E (option nat) :=
  if height <? heightWalk then
    match fuel with
    | O => Panic
    | S fuel =>
        b ← bload h pindexWalk;
        let heightSkip := getSkipHeight heightWalk in
        let heightSkipPrev := getSkipHeight (i32 (heightWalk - 1)) in
        let follow := (heightSkip =? height) || ((height <? heightSkip) &&
                        negb ((heightSkipPrev <? i32 (heightSkip - 2)) && (height <=? heightSkipPrev))) in
        match bi_Skip b, follow with
        | Some s, true => ancestor_walk fuel h s heightSkip height
        | _, _ =>
            match bi_Prev b with
            | None => Ok None
            | Some q => ancestor_walk fuel h q (i32 (heightWalk - 1)) height
            end
        end
    end
  else Ok (Some pindexWalk).
Definition GetAncestor {E} (h : bheap) (p : nat) (height : Z) : res E (option nat) :=
  b ← bload h p;
  if (bi_Height b <? height) || (height <? 0) then Ok None
  else if height =? bi_Height b then Ok (Some p)
  else ancestor_walk (Z.to_nat (bi_Height b)) h p (bi_Height b) height.
Definition BuildSkip {E} (h : bheap) (p : nat) : res E bheap :=
  b ← bload h p;
  match bi_Prev b with
  | None => Ok h
  | Some q => s ← GetAncestor h q (getSkipHeight (bi_Height b)); Ok (<[p := set_Skip s b]> h)
  end.

(** ** Work *)
Definition GetBlockProof (b : BlockIndex) : Z :=
  let difficultyNum := CompactToBig (Bits (bi_Header b)) in
  if difficultyNum <=? 0 then 0 else oneLsh256 / (difficultyNum + 1).

(** ** Encoding *)
Definition clientVersion : Z := 160000.
Definition BlockIndex_Serialize (b : BlockIndex) : bytes :=
  PutUint32 (u32 clientVersion) ++ PutUint32 (u32 (bi_Height b)) ++ PutUint32 (bi_Status b) ++ PutUint32 (u32 (bi_TxCount b)) ++
  PutUint32 (u32 (bi_File b)) ++ PutUint32 (bi_DataPos b) ++ PutUint32 (bi_UndoPos b) ++ Header_Serialize (bi_Header b).
Definition BlockIndex_Unserialize (b : BlockIndex) : rd werr BlockIndex :=
  _ ← Uint32; height ← Uint32; status ← Uint32; txCount ← Uint32; file ← Uint32; dataPos ← Uint32; undoPos ← Uint32;
  hdr ← Header_Unserialize (bi_Header b);
  mret (mkBI hdr (bi_blockHash b) (bi_Prev b) (bi_Skip b) (i32 height) (i32 file) dataPos undoPos (bi_ChainWork b)
          (i32 txCount) (bi_ChainTxCount b) status (bi_SequenceID b) (bi_TimeMax b)).
