(* ===== verification/Chain.v ===== *)
(** * The block tree and the active chain (model/chain/chain.go)

    The chain of the active blocks by height, the candidates ordered by work, the
    headers that wait for their parent and the map from hashes to indexes, over a
    heap of block indexes.  Locks and notifications are not represented. *)
From stdpp Require Import sorting.
From S2P Require Import Prelude Errors Wire ScriptNum Opcodes Script ScriptFacts Tx TxFacts Crypto Compress Coins Block Undo BlockIndex.
From S2P Require Import Stack Slice Interp Ltx.

Record Chain := mkChain {
  c_heap : bheap;
  active : list (option nat);
  branch : list nat;
  orphan : gmap bytes (list nat);
  indexMap : gmap bytes nat;
  receiveID : Z;
  pindexBestHeader : option nat;
  tip : option nat;
  isCurrent : bool }.
Definition with_heap (c : Chain) (h : bheap) : Chain :=
  mkChain h (active c) (branch c) (orphan c) (indexMap c) (receiveID c) (pindexBestHeader c) (tip c) (isCurrent c).
Definition with_branch (c : Chain) (l : list nat) : Chain :=
  mkChain (c_heap c) (active c) l (orphan c) (indexMap c) (receiveID c) (pindexBestHeader c) (tip c) (isCurrent c).
Definition with_orphan (c : Chain) (o : gmap bytes (list nat)) : Chain :=
  mkChain (c_heap c) (active c) (branch c) o (indexMap c) (receiveID c) (pindexBestHeader c) (tip c) (isCurrent c).

(** Fork heights and times of the network parameters (model/bitcoinparams.go). *)
Record ForkParams := {
  fp_net : NetParams;
  BIP65Height : Z;
  BIP66Height : Z;
  CSVHeight : Z;
  UAHFHeight : Z;
  DAAHeight : Z;
  GreatWallActivationTime : Z;
  Args_ReplayProtectionTime : Z;
  GenesisHash : bytes;
  Checkpoints : list (Z * bytes) }.
Definition IsUAHFEnabled (p : ForkParams) (height : Z) : bool := UAHFHeight p <=? height.
Definition IsDAAEnabled (p : ForkParams) (height : Z) : bool := DAAHeight p <=? height.
Definition IsReplayProtectionEnabled (p : ForkParams) (medianTimePast : Z) : bool :=
  (if 0 <? Args_ReplayProtectionTime p then Args_ReplayProtectionTime p else GreatWallActivationTime p) <=? medianTimePast.

Section Chain.
Context (Sha256 : bytes -> bytes) (p : ForkParams).

(** ** Looking up *)
Definition GetIndex (c : Chain) (height : Z) : option nat :=
  if (height <? 0) || (Z.of_nat (length (active c)) <=? height) then None else mjoin (active c !! Z.to_nat height).
Definition Contains {E} (c : Chain) (index : option nat) : res E bool :=
  match index with
  | None => Ok false
  | Some q => b ← bload (c_heap c) q; Ok (bool_decide (GetIndex c (bi_Height b) = Some q))
  end.
Definition Next {E} (c : Chain) (index : option nat) : res E (option nat) :=
  match index with
  | None => Ok None
  | Some q =>
      b ← bload (c_heap c) q; inside ← Contains c (Some q);
      Ok (if (inside : bool) then GetIndex c (i32 (bi_Height b + 1)) else None)
  end.
Definition Chain_Height {E} (c : Chain) : res E Z :=
  match tip c with None => Ok (-1) | Some t => b ← bload (c_heap c) t; Ok (bi_Height b) end.
Definition TipHeight {E} (c : Chain) : res E Z :=
  match tip c with None => Ok 0 | Some t => b ← bload (c_heap c) t; Ok (bi_Height b) end.
Definition Chain_GetAncestor (c : Chain) (height : Z) : option nat :=
  if height <? 0 then None
  else if height <? Z.of_nat (length (active c)) then mjoin (active c !! Z.to_nat height) else None.
Definition Genesis (c : Chain) : option nat := mjoin (head (active c)).
Definition FindBlockIndex (c : Chain) (hash : bytes) : option nat := indexMap c !! hash.
Definition FindHashInActive {E} (c : Chain) (hash : bytes) : res E (option nat) :=
  match indexMap c !! hash with
  | None => Ok None
  | Some q => inside ← Contains c (Some q); Ok (if (inside : bool) then Some q else None)
  end.
Definition GetSpendHeight {E} (c : Chain) (hash : bytes) : res E Z :=
  match indexMap c !! hash with None => Ok (-1) | Some q => b ← bload (c_heap c) q; Ok (i32 (bi_Height b + 1)) end.

(** Back to the first block that is in the active chain. *)
Fixpoint fork_walk {E} (fuel : nat) (c : Chain) (index : option nat) : res E (option nat) :=
  match index with
  | None => Ok None
  | Some q =>
      inside ← Contains c (Some q);
      if (inside : bool) then Ok (Some q)
      else match fuel with
           | O => Panic
           | S fuel => b ← bload (c_heap c) q; fork_walk fuel c (bi_Prev b)
           end
  end.
Definition FindFork {E} (c : Chain) (blIndex : option nat) : res E (option nat) :=
  match blIndex with
  | None => Ok None
  | Some q =>
      b ← bload (c_heap c) q;
      ht ← Chain_Height c;
      start ← (if ht <? bi_Height b then GetAncestor (c_heap c) q ht else Ok (Some q));
      fork_walk (S (Z.to_nat (bi_Height b))) c start
  end.

(** ** The active chain *)
Fixpoint fill_active {E} (fuel : nat) (h : bheap) (tmp : list (option nat)) (index : option nat) : res E (list (option nat)) :=
  match index with
  | None => Ok tmp
  | Some q =>
      b ← bload h q;
      at_height ← nth_go tmp (bi_Height b);
      if decide (at_height = Some q) then Ok tmp
      else match fuel with
           | O => Panic
           | S fuel => fill_active fuel h (<[Z.to_nat (bi_Height b) := Some q]> tmp) (bi_Prev b)
           end
  end.
(** [now] is the clock and [minWork] the minimum chain work. *)
Definition UpdateSyncingState {E} (now minWork : Z) (c : Chain) : res E Chain :=
  if isCurrent c then Ok c
  else match tip c with
  | None => Ok c
  | Some t =>
      b ← bload (c_heap c) t;
      let synced := (now - 24 * 60 * 60 <? Time (bi_Header b)) && (minWork <? bi_ChainWork b) in
      Ok (mkChain (c_heap c) (active c) (branch c) (orphan c) (indexMap c) (receiveID c) (pindexBestHeader c) (tip c) synced)
  end.
Definition SetTip {E} (now minWork : Z) (c : Chain) (index : option nat) : res E Chain :=
  match index with
  | None => Ok (mkChain (c_heap c) [] (branch c) (orphan c) (indexMap c) (receiveID c) (pindexBestHeader c) None (isCurrent c))
  | Some q =>
      b ← bload (c_heap c) q;
      if bi_Height b + 1 <? 0 then Panic
      else
        let n := Z.to_nat (bi_Height b + 1) in
        tmp ← fill_active (S n) (c_heap c) (resize n None (active c)) (Some q);
        UpdateSyncingState now minWork
          (mkChain (c_heap c) tmp (branch c) (orphan c) (indexMap c) (receiveID c) (pindexBestHeader c) (Some q) (isCurrent c))
  end.

(** ** The block tree *)
Definition GetReceivedID (c : Chain) : Z * Chain :=
  (receiveID c, mkChain (c_heap c) (active c) (branch c) (orphan c) (indexMap c) (u64 (receiveID c + 1)) (pindexBestHeader c) (tip c) (isCurrent c)).
Definition tryUpdateIndexBestHeader {E} (c : Chain) (q : nat) : res E Chain :=
  b ← bload (c_heap c) q;
  let set := mkChain (c_heap c) (active c) (branch c) (orphan c) (indexMap c) (receiveID c) (Some q) (tip c) (isCurrent c) in
  match pindexBestHeader c with
  | None => Ok set
  | Some best => bb ← bload (c_heap c) best; Ok (if bi_ChainWork bb <? bi_ChainWork b then set else c)
  end.
(** The index [q] is in the heap and in no map yet. *)
Definition AddToIndexMap {E} (c : Chain) (q : nat) : res E Chain :=
  b ← bload (c_heap c) q;
  let b := set_TimeMax (Time (bi_Header b)) (set_SequenceID 0 b) in
  let b := set_ChainWork (GetBlockProof b) b in
  let '(hash, b) := GetBlockHash Sha256 b in
  let im := <[hash := q]> (indexMap c) in
  let c := mkChain (<[q := b]> (c_heap c)) (active c) (branch c) (orphan c) im (receiveID c) (pindexBestHeader c) (tip c) (isCurrent c) in
  c ← match im !! HashPrevBlock (bi_Header b) with
      | None => Ok c
      | Some pre =>
          pb ← bload (c_heap c) pre;
          let h := <[q := set_Height (i32 (bi_Height pb + 1)) (set_Prev (Some pre) b)]> (c_heap c) in
          h ← BuildSkip h q;
          b ← bload h q;
          pb ← bload h pre;
          let b := if bi_TimeMax b <? bi_TimeMax pb then set_TimeMax (bi_TimeMax pb) b else b in
          Ok (with_heap c (<[q := set_ChainWork (bi_ChainWork b + bi_ChainWork pb) b]> h))
      end;
  b ← bload (c_heap c) q;
  tryUpdateIndexBestHeader (with_heap c (<[q := (RaiseValidity BlockValidTree b).2]> (c_heap c))) q.

Definition AddToOrphan {E} (c : Chain) (q : nat) : res E Chain :=
  b ← bload (c_heap c) q;
  let prev := HashPrevBlock (bi_Header b) in
  Ok (with_orphan c (<[prev := default [] (orphan c !! prev) ++ [q]]> (orphan c))).

(** *** The candidates, in the order of their work *)
Definition work_of (h : bheap) (q : nat) : Z := from_option bi_ChainWork 0 (h !! q).
(** A stable sort of a list that is sorted except for its last element. *)
Fixpoint insert_stable (h : bheap) (q : nat) (l : list nat) : list nat :=
  match l with
  | [] => [q]
  | x :: l => if work_of h q <? work_of h x then q :: x :: l else x :: insert_stable h q l
  end.
Definition sort_stable (h : bheap) (l : list nat) : list nat := foldl (fun l q => insert_stable h q l) [] l.
Definition insertToBranch (c : Chain) (q : nat) : Chain := with_branch c (sort_stable (c_heap c) (branch c ++ [q])).
Definition hash_of (h : bheap) (q : nat) : bytes := from_option (fun b => (GetBlockHash Sha256 b).1) HashZero (h !! q).
Definition InBranch (c : Chain) (q : nat) : bool :=
  existsb (fun x => bool_decide (hash_of (c_heap c) x = hash_of (c_heap c) q)) (branch c).
Definition ParentInBranch {E} (c : Chain) (q : nat) : res E bool :=
  b ← bload (c_heap c) q;
  Ok (existsb (fun x => bool_decide (hash_of (c_heap c) x = HashPrevBlock (bi_Header b))) (branch c)).
Definition FindMostWorkChain (c : Chain) : option nat := last (branch c).
Fixpoint remove_first (h : bheap) (hash : bytes) (l : list nat) : list nat :=
  match l with [] => [] | x :: l => if decide (hash_of h x = hash) then l else x :: remove_first h hash l end.
Definition RemoveFromBranch (c : Chain) (q : nat) : Chain :=
  with_branch c (remove_first (c_heap c) (hash_of (c_heap c) q) (branch c)).
Definition IsGenesis (c : Chain) (q : nat) : bool := bool_decide (hash_of (c_heap c) q = GenesisHash p).

(** The queue of descendants that become eligible; every round takes one index
    out of the queue and moves the waiting children of one hash into it. *)
Fixpoint connect_queue {E} (fuel : nat) (c : Chain) (q : list nat) : res E Chain :=
  match q with
  | [] => Ok c
  | x :: q =>
      match fuel with
      | O => Panic
      | S fuel =>
          b ← bload (c_heap c) x;
          count ← (if IsGenesis c x then Ok (bi_TxCount b)
                   else match bi_Prev b with
                        | None => Panic
                        | Some pre => pb ← bload (c_heap c) pre; Ok (i32 (bi_ChainTxCount pb + bi_TxCount b))
                        end);
          let '(id, c) := GetReceivedID c in
          let c := with_heap c (<[x := set_SequenceID id (set_ChainTxCount count b)]> (c_heap c)) in
          let c := if InBranch c x then c else insertToBranch c x in
          let preHash := hash_of (c_heap c) x in
          match orphan c !! preHash with
          | None => connect_queue fuel c q
          | Some childList =>
              let ready := filter (fun y => from_option HasData false (c_heap c !! y) = true) childList in
              connect_queue fuel (with_orphan c (delete preHash (orphan c))) (q ++ ready)
          end
      end
  end.
Definition orphan_count (c : Chain) : nat := length (concat (map snd (map_to_list (orphan c)))).
(** [None] is the error of an index without a parent. *)
Definition AddToBranch {E} (c : Chain) (q : nat) : res E (option Chain) :=
  b ← bload (c_heap c) q;
  match bi_Prev b, IsGenesis c q with
  | None, false => Ok None
  | _, _ => c ← connect_queue (S (orphan_count c)) c [q]; Ok (Some c)
  end.

(** *** Flags and checkpoints *)
(** A rule that holds at a block and not at its parent. *)
Definition just_enabled {E : Type} (rule : Z -> bool) (h : bheap) (q : nat) : res E bool :=
  b ← bload h q;
  match bi_Prev b with
  | None => Ok false
  | Some pre =>
      before ← GetMedianTimePast h (Some pre);
      if negb (rule before) then now ← GetMedianTimePast h (Some q); Ok (rule now) else Ok false
  end.
Definition IsReplayProtectionJustEnabled {E : Type} : bheap -> nat -> res E bool := just_enabled (IsReplayProtectionEnabled p).
Definition IsMagneticAnomalyJustEnabled {E : Type} : bheap -> nat -> res E bool := just_enabled (IsMagneticAnomalyEnabled (fp_net p)).
Definition P2SHActivationTime : Z := 1333234914.
Definition GetBlockScriptFlags {E} (c : Chain) (q : nat) : res E Z :=
  b ← bload (c_heap c) q;
  mtp ← GetMedianTimePast (c_heap c) (Some q);
  let on (cond : bool) (flag flags : Z) := if cond then flags .| flag else flags in
  let flags := if P2SHActivationTime <=? mtp then ScriptVerifyP2SH else 0 in
  let next := i32 (bi_Height b + 1) in
  let flags := on (BIP66Height p <=? next) ScriptVerifyDersig flags in
  let flags := on (BIP65Height p <=? next) ScriptVerifyCheckLockTimeVerify flags in
  let flags := on (CSVHeight p <=? next) ScriptVerifyCheckSequenceVerify flags in
  let flags := on (IsUAHFEnabled p (bi_Height b)) (ScriptVerifyStrictEnc .| ScriptEnableSigHashForkID) flags in
  let flags := on (IsDAAEnabled p (bi_Height b)) (ScriptVerifyLowS .| ScriptVerifyNullFail) flags in
  let flags := on (IsMagneticAnomalyEnabled (fp_net p) mtp)
                  (ScriptEnableCheckDataSig .| ScriptVerifySigPushOnly .| ScriptVerifyCleanStack) flags in
  Ok (on (IsReplayProtectionEnabled p mtp) ScriptEnableReplayProtection flags).
Definition CheckIndexAgainstCheckpoint {E} (c : Chain) (pre : nat) : res E bool :=
  b ← bload (c_heap c) pre;
  if IsGenesis c pre then Ok true
  else
    match list_find (fun cp => is_Some (indexMap c !! (cp : Z * bytes).2)) (reverse (Checkpoints p)) with
    | Some (_, (height, _)) => Ok (negb (i32 (bi_Height b + 1) <? height))
    | None => Ok true
    end.

(** *** Locators *)
Fixpoint locator_walk {E} (fuel : nat) (c : Chain) (q : nat) (step : Z) (hashes : list bytes) : res E (list bytes) :=
  match fuel with
  | O => Panic
  | S fuel =>
      b ← bload (c_heap c) q;
      let hashes := hashes ++ [hash_of (c_heap c) q] in
      if bi_Height b =? 0 then Ok hashes
      else
        let height := Z.max 0 (i32 (bi_Height b - i32 step)) in
        inside ← Contains c (Some q);
        next ← (if (inside : bool) then Ok (GetIndex c height) else GetAncestor (c_heap c) q height);
        q ← deref next;
        locator_walk fuel c q (if (10 <? length hashes)%nat then i64 (step * 2) else step) hashes
  end.
Definition GetLocator {E} (c : Chain) (index : option nat) : res E (list bytes) :=
  q ← deref (match index with None => tip c | _ => index end);
  b ← bload (c_heap c) q;
  locator_walk (S (Z.to_nat (bi_Height b))) c q 1 [].
(** ** Whole-tree operations *)
Definition NewChain : Chain := mkChain ∅ [] [] ∅ ∅ 0 None None false.
Definition InitLoad (c : Chain) (im : gmap bytes nat) (l : list nat) : Chain :=
  mkChain (c_heap c) (active c) l (orphan c) im (receiveID c) (pindexBestHeader c) (tip c) (isCurrent c).
Definition ClearActive (c : Chain) : Chain :=
  mkChain (c_heap c) (replicate 100 None) (branch c) (orphan c) (indexMap c) (receiveID c) (pindexBestHeader c) None (isCurrent c).
Definition Chain_Equal {E : Type} (c dst : Chain) : res E bool :=
  if (length (active c) =? length (active dst))%nat then
    x ← deref (last (active c)); y ← deref (last (active dst)); Ok (bool_decide (x = y))
  else Ok false.
Definition ChainOrphanLen (c : Chain) : Z := i32 (Z.of_nat (orphan_count c)).
Definition IndexMapSize (c : Chain) : nat := size (indexMap c).
Definition CanDirectFetch {E : Type} (now targetTimePerBlock : Z) (c : Chain) : res E bool :=
  t ← deref (tip c); b ← bload (c_heap c) t; Ok (now - targetTimePerBlock * 20 <? Time (bi_Header b)).

(** [order] lists the values of the index map, in the order in which the range loop
    meets them; which indexes must be written to disk is not represented. *)
Definition reset_one {E : Type} (target : nat) (height : Z) (c : Chain) (q : nat) : res E Chain :=
  b ← bload (c_heap c) q;
  if IsInvalid b then
    a ← GetAncestor (c_heap c) q height;
    if decide (a = Some target) then
      let b := SubStatus BlockFailedParent b in
      let c := with_heap c (<[q := b]> (c_heap c)) in
      Ok (if BlockIndex_IsValid BlockValidTransactions b && (0 <? bi_ChainTxCount b) && negb (InBranch c q) then insertToBranch c q else c)
    else Ok c
  else Ok c.
Fixpoint reset_all {E : Type} (target : nat) (height : Z) (order : list nat) (c : Chain) : res E Chain :=
  match order with [] => Ok c | q :: order => c ← reset_one target height c q; reset_all target height order c end.
Definition ResetBlockFailureFlags {E : Type} (order : list nat) (c : Chain) (target : nat) : res E Chain :=
  b ← bload (c_heap c) target; reset_all target (bi_Height b) order c.

(** The tips of all branches: the active tip, and the indexes off the active chain
    that are no parent of such an index. *)
Fixpoint off_chain {E : Type} (c : Chain) (order : list nat) : res E (list nat) :=
  match order with
  | [] => Ok []
  | q :: order => inside ← Contains c (Some q); l ← off_chain c order; Ok (if (inside : bool) then l else q :: l)
  end.
Definition GetChainTips {E : Type} (order : list nat) (c : Chain) : res E (gset (option nat)) :=
  l ← off_chain c order;
  let prevs : gset (option nat) := list_to_set (map (fun q => c_heap c !! q ≫= bi_Prev) l) in
  Ok ({[tip c]} ∪ list_to_set (filter (fun x => x ∉ prevs) (map Some l))).
(** The children of an index, nil for the first block. *)
Definition BuildForwardTree {E : Type} (order : list nat) (c : Chain) : res E (gmap (option nat) (list nat)) :=
  foldl (fun forward q => forward ← forward; b ← bload (c_heap c) q;
           Ok (<[bi_Prev b := default [] (forward !! bi_Prev b) ++ [q]]> forward)) (Ok ∅) order.

(** *** loadBlockIndex *)
(** One index of the database, whose parents were met before. *)
Definition load_one {E : Type} (st : Chain * list nat) (q : nat) : res E (Chain * list nat) :=
  let '(c, l) := st in
  b ← bload (c_heap c) q;
  parent ← match bi_Prev b with None => Ok None | Some pre => pb ← bload (c_heap c) pre; Ok (Some pb) end;
  let b := match parent with
           | Some pb => set_TimeMax (if Time (bi_Header b) <? Time (bi_Header pb) then Time (bi_Header pb) else Time (bi_Header b))
                          (set_ChainWork (bi_ChainWork pb + GetBlockProof b) b)
           | None => set_TimeMax (Time (bi_Header b)) (set_ChainWork (GetBlockProof b) b)
           end in
  if bi_TxCount b <? 0 then Panic
  else
    let eligible := match parent with Some pb => negb (bi_ChainTxCount pb =? 0) && negb (bi_TxCount b =? 0) | None => true end in
    let count := match parent with Some pb => if eligible then i32 (bi_ChainTxCount pb + bi_TxCount b) else 0 | None => bi_TxCount b end in
    let c := with_heap c (<[q := set_ChainTxCount count b]> (c_heap c)) in
    c ← (if (eligible : bool) then Ok c else AddToOrphan c q);
    h ← BuildSkip (c_heap c) q;
    let c := with_heap c h in
    c ← (if BlockIndex_IsValid BlockValidTree b then tryUpdateIndexBestHeader c q else Ok c);
    Ok (c, if (eligible : bool) then l ++ [q] else l).
Fixpoint load_all {E : Type} (sortedByHeight : list nat) (st : Chain * list nat) : res E (Chain * list nat) :=
  match sortedByHeight with [] => Ok st | q :: l => st ← load_one st q; load_all l st end.
(** The heap holds the indexes that the database returned, [im] their hashes and [order]
    the range over [im]; [best] is the best block of the UTXO database.  The check that
    the block files can be opened is not represented. *)
Fixpoint insert_by_height (h : bheap) (q : nat) (l : list nat) : list nat :=
  match l with
  | [] => [q]
  | x :: l => if from_option bi_Height 0 (h !! q) <? from_option bi_Height 0 (h !! x) then q :: x :: l else x :: insert_by_height h q l
  end.
Definition loadBlockIndex {E : Type} (now minWork : Z) (c : Chain) (im : gmap bytes nat) (order : list nat) (best : option bytes) : res E Chain :=
  let sortedByHeight := foldl (fun l q => insert_by_height (c_heap c) q l) [] order in
  '(c, l) ← load_all sortedByHeight (c, []);
  let c := InitLoad c im l in
  match best with
  | None => Ok c
  | Some hash => q ← deref (im !! hash); SetTip now minWork c (Some q)
  end.
End Chain.
