(* ===== verification/ChainFacts.v ===== *)
(** * The block tree

    Skip pointers lead to ancestors, GetAncestor is the walk along the parents, and
    SetTip fills the active chain with the ancestors of the new tip. *)
From stdpp Require Import sorting.
From S2P Require Import Prelude Errors Wire ScriptNum Opcodes Script ScriptFacts Tx TxFacts Crypto Compress Coins Block Undo BlockIndex.
From S2P Require Import Stack Slice Interp Ltx Chain.

(** ** Skip heights *)
Lemma land_le_l x y : 0 <= x -> 0 <= x .& y <= x.
Proof.
  intros Hx. split; [apply Z.land_nonneg; by left|].
  assert (Z.ldiff (x .& y) x = 0) as Hd by (apply Z.bits_inj'; intros n Hn; rw Z.ldiff_spec Z.land_spec Z.bits_0; by destruct (Z.testbit x n), (Z.testbit y n)).
  pose proof (Z.sub_nocarry_ldiff _ _ Hd) as Hs. assert (0 <= Z.ldiff x (x .& y)) by (apply Z.ldiff_nonneg; by left). lia.
Qed.
Lemma invertLowestOne_bounds n : 0 <= n < 2 ^ 31 -> 0 <= invertLowestOne n <= n /\ (0 < n -> invertLowestOne n < n).
Proof.
  intros Hn. unfold invertLowestOne. destruct (decide (n = 0)) as [->|Hne]; [done|]. rw i32_id; last int_lia.
  pose proof (land_le_l (n - 1) n ltac:(lia)) as Hb. rw Z.land_comm in Hb. lia.
Qed.
Lemma getSkipHeight_bounds n : 0 < n < 2 ^ 31 -> 0 <= getSkipHeight n < n.
Proof.
  intros Hn. unfold getSkipHeight. destruct (Z.ltb_spec n 2); [lia|]. destruct (negb _).
  - rw (i32_id (n - 1)); last int_lia. destruct (invertLowestOne_bounds (n - 1) ltac:(lia)) as [H1 H2].
    destruct (invertLowestOne_bounds (invertLowestOne (n - 1)) ltac:(lia)) as [H3 H4]. rw i32_id; last int_lia. lia.
  - destruct (invertLowestOne_bounds n ltac:(lia)) as [H1 H2]. lia.
Qed.

(** ** Loading an index *)
Lemma bload_insert {E} (h : bheap) q b : bload (E := E) (<[q := b]> h) q = Ok b.
Proof. unfold bload. by rw lookup_insert_eq. Qed.
Lemma bload_insert_ne {E} (h : bheap) q r b : q <> r -> bload (E := E) (<[q := b]> h) r = bload h r.
Proof. intros Hne. unfold bload. by rw lookup_insert_ne. Qed.
Lemma bload_Some {E} (h : bheap) q b : h !! q = Some b -> bload (E := E) h q = Ok b.
Proof. intros Hq. unfold bload. by rw Hq. Qed.

(** ** Walking along the parents *)
Fixpoint walk (h : bheap) (p n : nat) : option nat :=
  match n with O => Some p | S n => b ← h !! p; q ← bi_Prev b; walk h q n end.

Record tree_ok (h : bheap) : Prop := {
  tr_height p b : h !! p = Some b -> 0 <= bi_Height b < 2 ^ 31;
  tr_prev p b q : h !! p = Some b -> bi_Prev b = Some q -> exists c, h !! q = Some c /\ bi_Height b = bi_Height c + 1;
  tr_root p b : h !! p = Some b -> bi_Prev b = None -> bi_Height b = 0;
  tr_skip p b s : h !! p = Some b -> bi_Skip b = Some s -> walk h p (Z.to_nat (bi_Height b - getSkipHeight (bi_Height b))) = Some s }.

Lemma walk_add h n : forall p m q, walk h p n = Some q -> walk h p (n + m) = walk h q m.
Proof.
  induction n as [|n IH]; intros p m q Hw; [by injection Hw as ->|]. cbn in *. destruct (h !! p) as [b|]; [|done]. cbn in *.
  destruct (bi_Prev b) as [r|]; [|done]. cbn in *. by apply IH.
Qed.
(** Walks depend on the parents only. *)
Lemma walk_ext h h' : (forall p, bi_Prev <$> h !! p = bi_Prev <$> h' !! p) -> forall n p, walk h p n = walk h' p n.
Proof.
  intros He n. induction n as [|n IH]; intros p; [done|]. cbn. specialize (He p). destruct (h !! p) as [b|], (h' !! p) as [b'|]; cbn in He; try done.
  injection He as He. cbn. rw He. destruct (bi_Prev b') as [q|]; [|done]. apply IH.
Qed.

Section Tree.
Context (h : bheap) (Ht : tree_ok h).

Lemma walk_height n : forall p b, h !! p = Some b -> Z.of_nat n <= bi_Height b ->
  exists q c, walk h p n = Some q /\ h !! q = Some c /\ bi_Height c = bi_Height b - Z.of_nat n.
Proof.
  induction n as [|n IH]; intros p b Hp Hn; [exists p, b; split_and!; [done|done|lia]|]. cbn [walk]. rw Hp. cbn.
  destruct (bi_Prev b) as [q|] eqn:Eq; [|pose proof (tr_root h Ht p b Hp Eq); lia]. cbn.
  destruct (tr_prev h Ht p b q Hp Eq) as (c & Hc & Hh). destruct (IH q c Hc ltac:(lia)) as (q' & c' & ? & ? & ?).
  exists q', c'. split_and!; [done|done|lia].
Qed.

Lemma ancestor_walk_spec {E} fuel : forall p b height, h !! p = Some b -> 0 <= height <= bi_Height b -> bi_Height b <= Z.of_nat fuel ->
  ancestor_walk (E := E) fuel h p (bi_Height b) height = Ok (walk h p (Z.to_nat (bi_Height b - height))).
Proof.
  induction fuel as [|fuel IH]; intros p b height Hp Hh Hf; pose proof (tr_height h Ht p b Hp) as Hb; cbn [ancestor_walk];
    (destruct (Z.ltb_spec height (bi_Height b)) as [Hlt|]; [|replace (Z.to_nat (bi_Height b - height)) with 0%nat by lia; done]); [lia|].
  unfold bload. rw Hp. cbn [mbind res_bind]. pose proof (getSkipHeight_bounds (bi_Height b) ltac:(lia)) as Hs.
  assert (match bi_Prev b with None => Ok None | Some q => ancestor_walk (E := E) fuel h q (i32 (bi_Height b - 1)) height end
    = Ok (walk h p (Z.to_nat (bi_Height b - height)))) as Hprev.
  { destruct (bi_Prev b) as [q|] eqn:Eq; [|pose proof (tr_root h Ht p b Hp Eq); lia].
    destruct (tr_prev h Ht p b q Hp Eq) as (c & Hc & Hhc). rw i32_id; last int_lia. replace (bi_Height b - 1) with (bi_Height c) by lia.
    rw (IH q c height Hc); [|lia|lia]. replace (Z.to_nat (bi_Height b - height)) with (S (Z.to_nat (bi_Height c - height))) by lia.
    cbn [walk]. rw Hp. cbn. by rw Eq. }
  destruct (bi_Skip b) as [s|] eqn:Es; [|done]. match goal with |- context [if ?x then _ else _] => destruct x eqn:Ef end; [|done].
  pose proof (tr_skip h Ht p b s Hp Es) as Hw. set (hs := getSkipHeight (bi_Height b)) in *.
  destruct (walk_height (Z.to_nat (bi_Height b - hs)) p b Hp ltac:(lia)) as (q & c & Hq & Hc & Hhc). rw Hw in Hq. injection Hq as <-.
  assert (height <= hs) as Hle.
  { apply orb_true_iff in Ef as [Ef|Ef]; [lia|]. apply andb_true_iff in Ef as [Ef _]. lia. }
  replace hs with (bi_Height c) by lia. rw (IH s c height Hc); [|lia|lia]. f_equal.
  rw -(walk_add h _ p _ s Hw). f_equal. lia.
Qed.

Lemma GetAncestor_walk {E} p b height : h !! p = Some b ->
  GetAncestor (E := E) h p height =
    Ok (if (0 <=? height) && (height <=? bi_Height b) then walk h p (Z.to_nat (bi_Height b - height)) else None).
Proof.
  intros Hp. unfold GetAncestor, bload. rw Hp. cbn [mbind res_bind]. pose proof (tr_height h Ht p b Hp).
  destruct (Z.ltb_spec (bi_Height b) height), (Z.ltb_spec height 0), (Z.leb_spec 0 height), (Z.leb_spec height (bi_Height b)); cbn [orb andb]; try lia; try done.
  destruct (Z.eqb_spec height (bi_Height b)) as [->|]; [by rw Z.sub_diag|]. apply ancestor_walk_spec; [done|lia|lia].
Qed.
End Tree.

(** ** Adding an index *)
(** Nothing points to a new index yet. *)
Lemma walk_insert h q b : tree_ok h -> h !! q = None ->
  forall n p, p <> q -> is_Some (h !! p) -> walk (<[q := b]> h) p n = walk h p n.
Proof.
  intros Ht Hq n. induction n as [|n IH]; intros p Hpq [c Hc]; [done|]. cbn. rw lookup_insert_ne // Hc. cbn.
  destruct (bi_Prev c) as [r|] eqn:Er; [|done]. cbn. destruct (tr_prev h Ht p c r Hc Er) as (d & Hd & _).
  apply IH; [|by eexists]. intros ->. congruence.
Qed.
Lemma tree_insert h q b : tree_ok h -> h !! q = None -> 0 <= bi_Height b < 2 ^ 31 -> bi_Skip b = None ->
  (bi_Prev b = None -> bi_Height b = 0) ->
  (forall pre, bi_Prev b = Some pre -> exists pb, h !! pre = Some pb /\ bi_Height b = bi_Height pb + 1) -> tree_ok (<[q := b]> h).
Proof.
  intros Ht Hq Hb Hs Hroot Hprev. pose proof (walk_insert h q b Ht Hq) as Hw.
  assert (forall r d, h !! r = Some d -> <[q := b]> h !! r = Some d) as Hold.
  { intros r d Hr. rw lookup_insert_ne //. intros ->. congruence. }
  split; intros p c; (destruct (decide (p = q)) as [->|Hpq]; [rw lookup_insert_eq|rw lookup_insert_ne; last congruence]).
  - intros Hc. injection Hc as <-. done.
  - by apply tr_height.
  - intros r Hc Hr. injection Hc as <-. destruct (Hprev r Hr) as (pb & Hpb & Hh). eauto.
  - intros r Hc Hr. destruct (tr_prev h Ht p c r Hc Hr) as (d & Hd & ?). eauto.
  - intros Hc. injection Hc as <-. done.
  - by apply tr_root.
  - intros s Hc Hsc. injection Hc as <-. congruence.
  - intros s Hc Hsc. rw (Hw _ p Hpq (mk_is_Some _ _ Hc)). by apply tr_skip.
Qed.
(** Changing what the tree does not depend on. *)
Lemma tree_update h p b b' : tree_ok h -> h !! p = Some b -> bi_Prev b' = bi_Prev b -> bi_Height b' = bi_Height b ->
  (forall s, bi_Skip b' = Some s -> walk h p (Z.to_nat (bi_Height b - getSkipHeight (bi_Height b))) = Some s) ->
  tree_ok (<[p := b']> h).
Proof.
  intros Ht Hp Hpr Hhe Hsk.
  assert (forall n r, walk (<[p := b']> h) r n = walk h r n) as Hw.
  { intros n r. apply walk_ext. intros s. destruct (decide (s = p)) as [->|Hne]; [by rw lookup_insert_eq Hp /= Hpr|by rw lookup_insert_ne]. }
  split.
  - intros r c. destruct (decide (r = p)) as [->|Hne]; [rw lookup_insert_eq; intros [= <-]; rw Hhe; by apply (tr_height h Ht p)|].
    rw lookup_insert_ne //. by apply tr_height.
  - intros r c q Hc Hq. assert (exists c0, h !! r = Some c0 /\ bi_Prev c0 = Some q /\ bi_Height c0 = bi_Height c) as (c0 & H0 & H1 & H2).
    { destruct (decide (r = p)) as [->|Hne]; [rw lookup_insert_eq in Hc; injection Hc as <-; exists b; by rw -Hpr|rw lookup_insert_ne // in Hc; by exists c]. }
    destruct (tr_prev h Ht r c0 q H0 H1) as (d & Hd & Hhd). destruct (decide (q = p)) as [->|Hne].
    + exists b'. rw lookup_insert_eq. split; [done|]. rw Hp in Hd. injection Hd as ->. lia.
    + exists d. rw lookup_insert_ne //. split; [done|lia].
  - intros r c. destruct (decide (r = p)) as [->|Hne]; [rw lookup_insert_eq; intros [= <-]; rw Hpr Hhe; by apply (tr_root h Ht p b Hp)|].
    rw lookup_insert_ne //. by apply tr_root.
  - intros r c s. rw Hw. destruct (decide (r = p)) as [->|Hne]; [rw lookup_insert_eq; intros [= <-]; rw Hhe; by apply Hsk|].
    rw lookup_insert_ne //. by apply tr_skip.
Qed.
Lemma tree_same h p b b' : tree_ok (<[p := b]> h) -> bi_Prev b' = bi_Prev b -> bi_Height b' = bi_Height b -> bi_Skip b' = bi_Skip b -> tree_ok (<[p := b']> h).
Proof.
  intros Ht Hp Hh Hs. pose proof (lookup_insert_eq h p b) as Hl. rw -(insert_insert_eq h p b' b). apply (tree_update _ p b); [done..|].
  intros s. rw Hs. by apply tr_skip.
Qed.

(** *** BuildSkip *)
Lemma BuildSkip_ok {E} h q b pre : tree_ok h -> h !! q = Some b -> bi_Prev b = Some pre ->
  exists s, BuildSkip (E := E) h q = Ok (<[q := set_Skip s b]> h) /\ tree_ok (<[q := set_Skip s b]> h) /\
    s = walk h q (Z.to_nat (bi_Height b - getSkipHeight (bi_Height b))).
Proof.
  intros Ht Hq Hpre. unfold BuildSkip, bload. rw Hq. cbn [mbind res_bind]. rw Hpre.
  destruct (tr_prev h Ht q b pre Hq Hpre) as (pb & Hpb & Hh). rw (GetAncestor_walk h Ht pre pb _ Hpb). cbn [mbind res_bind].
  pose proof (tr_height h Ht q b Hq) as Hb. pose proof (tr_height h Ht pre pb Hpb) as Hhpb.
  pose proof (getSkipHeight_bounds (bi_Height b) ltac:(lia)) as Hs. set (hs := getSkipHeight (bi_Height b)) in *.
  replace ((0 <=? hs) && (hs <=? bi_Height pb)) with true by lia.
  assert (walk h pre (Z.to_nat (bi_Height pb - hs)) = walk h q (Z.to_nat (bi_Height b - hs))) as Hw.
  { replace (Z.to_nat (bi_Height b - hs)) with (S (Z.to_nat (bi_Height pb - hs))) by lia. cbn [walk]. rw Hq. cbn. by rw Hpre. }
  rw Hw. eexists. split; [reflexivity|]. split; [|done]. apply (tree_update h q b); [done..|]. intros s Hss. exact Hss.
Qed.

(** ** Adding a header to the block tree *)
Section AddIndex.
Context (Sha256 : bytes -> bytes).

Record maps_ok (h : bheap) (c : Chain) : Prop := {
  mo_index hash r : indexMap c !! hash = Some r -> is_Some (h !! r);
  mo_best r : pindexBestHeader c = Some r -> is_Some (h !! r) }.

Lemma tryUpdateIndexBestHeader_ok {E} c q b : c_heap c !! q = Some b -> (forall r, pindexBestHeader c = Some r -> is_Some (c_heap c !! r)) ->
  exists best, tryUpdateIndexBestHeader (E := E) c q =
    Ok (mkChain (c_heap c) (active c) (branch c) (orphan c) (indexMap c) (receiveID c) best (tip c) (isCurrent c)) /\
    (best = Some q \/ best = pindexBestHeader c) /\
    (exists r, best = Some r /\ work_of (c_heap c) r = Z.max (bi_ChainWork b) (from_option (work_of (c_heap c)) (bi_ChainWork b) (pindexBestHeader c))).
Proof.
  intros Hq Hbest. unfold tryUpdateIndexBestHeader, bload. rw Hq. cbn [mbind res_bind].
  assert (work_of (c_heap c) q = bi_ChainWork b) as Hwq by (unfold work_of; by rw Hq).
  destruct (pindexBestHeader c) as [r|] eqn:Er.
  2: { exists (Some q). split_and!; [done|by left|]. exists q. split; [done|]. rw Hwq. cbn. lia. }
  destruct (Hbest r eq_refl) as [rb Hr]. rw Hr. cbn [mbind res_bind from_option].
  assert (work_of (c_heap c) r = bi_ChainWork rb) as Hwr by (unfold work_of; by rw Hr).
  destruct (Z.ltb_spec (bi_ChainWork rb) (bi_ChainWork b)).
  - exists (Some q). split_and!; [done|by left|]. exists q. split; [done|]. lia.
  - exists (Some r). split_and!; [destruct c; cbn in *; by subst|by right|]. exists r. split; [done|]. lia.
Qed.

(** Headers that differ at most in the cached hash. *)
Definition same_header (a b : BlockHeader) : Prop :=
  Version a = Version b /\ HashPrevBlock a = HashPrevBlock b /\ MerkleRoot a = MerkleRoot b /\ Time a = Time b /\ Bits a = Bits b /\ Nonce a = Nonce b.
Lemma Header_GetHash_same hdr : same_header (Header_GetHash Sha256 hdr).2 hdr.
Proof. unfold Header_GetHash. by destruct (negb _). Qed.
(** A new index: only its header, its hash and its parent may be set. *)
Definition fresh_index (hdr : BlockHeader) (pre : option nat) (b : BlockIndex) : Prop :=
  exists hd bh, b = mkBI hd bh pre None 0 (-1) 0 0 0 0 0 0 0 0 /\ same_header hd hdr /\ (GetBlockHash Sha256 b).1 = (Header_GetHash Sha256 hdr).1.
Lemma fresh_index_new hdr : fresh_index hdr None (NewBlockIndex hdr).
Proof. exists hdr, HashZero. split_and!; [done|done|]. unfold GetBlockHash. cbn. by destruct (Header_GetHash Sha256 hdr). Qed.
Lemma GetBlockHash_shape hd bh pre skip height file data undo work txc ctx st seq tm :
  exists hd', GetBlockHash Sha256 (mkBI hd bh pre skip height file data undo work txc ctx st seq tm) =
    ((GetBlockHash Sha256 (mkBI hd bh None None 0 (-1) 0 0 0 0 0 0 0 0)).1,
     mkBI hd' ((GetBlockHash Sha256 (mkBI hd bh None None 0 (-1) 0 0 0 0 0 0 0 0)).1) pre skip height file data undo work txc ctx st seq tm) /\ same_header hd' hd.
Proof.
  unfold GetBlockHash. cbn [bi_blockHash]. destruct (Hash_IsNull bh); [|by exists hd]. cbn [bi_Header]. pose proof (Header_GetHash_same hd) as Hs.
  destruct (Header_GetHash Sha256 hd) as [d hd']. by exists hd'.
Qed.

(** What the new index holds: its parent, if the parent is known, the height after
    it, the sum of the work, and the latest time of the branch. *)
Definition linked (h0 : bheap) (pre : option nat) (hdr : BlockHeader) (b : BlockIndex) : Prop :=
  bi_Prev b = pre /\
  bi_Height b = from_option (fun r => from_option (fun pb => bi_Height pb + 1) 0 (h0 !! r)) 0 pre /\
  bi_ChainWork b = GetBlockProof (NewBlockIndex hdr) + from_option (work_of h0) 0 pre /\
  bi_TimeMax b = Z.max (Time hdr) (from_option (fun r => from_option bi_TimeMax 0 (h0 !! r)) 0 pre) /\
  BlockIndex_IsValid BlockValidTree b = true /\
  same_header (bi_Header b) hdr /\ bi_blockHash b = (Header_GetHash Sha256 hdr).1 /\ bi_Status b = BlockValidTree.

Lemma AddToIndexMap_ok {E} h0 c q hdr b0 pre0 : let hash := (Header_GetHash Sha256 hdr).1 in
  tree_ok h0 -> h0 !! q = None -> c_heap c = <[q := b0]> h0 -> fresh_index hdr pre0 b0 ->
  (pre0 = None \/ pre0 = indexMap c !! HashPrevBlock hdr) -> maps_ok h0 c -> 0 <= Time hdr ->
  HashPrevBlock hdr <> hash ->
  (forall pre pb, indexMap c !! HashPrevBlock hdr = Some pre -> h0 !! pre = Some pb -> bi_Height pb + 1 < 2 ^ 31) ->
  exists b best, AddToIndexMap (E := E) Sha256 c q =
      Ok (mkChain (<[q := b]> h0) (active c) (branch c) (orphan c) (<[hash := q]> (indexMap c)) (receiveID c) best (tip c) (isCurrent c)) /\
    linked h0 (indexMap c !! HashPrevBlock hdr) hdr b /\ tree_ok (<[q := b]> h0) /\
    (best = Some q \/ best = pindexBestHeader c) /\
    exists r, best = Some r /\ work_of (<[q := b]> h0) r = Z.max (bi_ChainWork b) (from_option (work_of h0) (bi_ChainWork b) (pindexBestHeader c)).
Proof.
  intros hash Ht Hq Hc (hd & bh & -> & Hhd & Hhash0) Hpre0 [Him Hbest] Htime Hhash Hheight. unfold AddToIndexMap. rw Hc bload_insert. cbn [mbind res_bind].
  destruct Hhd as (Hv & Hprev & Hroot & Htm & Hbits & Hnonce).
  match goal with |- context [GetBlockHash Sha256 (set_ChainWork ?w ?x)] => change (set_ChainWork w x) with (mkBI hd bh pre0 None 0 (-1) 0 0 w 0 0 0 0 (Time hd)) end.
  match goal with |- context [GetBlockHash Sha256 (mkBI hd bh pre0 None 0 (-1) 0 0 ?w 0 0 0 0 ?t)] =>
    destruct (GetBlockHash_shape hd bh pre0 None 0 (-1) 0 0 w 0 0 0 0 t) as (hd' & -> & (Hv' & Hprev' & Hroot' & Htm' & Hbits' & Hnonce')) end.
  assert ((GetBlockHash Sha256 (mkBI hd bh None None 0 (-1) 0 0 0 0 0 0 0 0)).1 = hash) as ->.
  { destruct (GetBlockHash_shape hd bh pre0 None 0 (-1) 0 0 0 0 0 0 0 0) as (hd'' & Hs & _). rw Hs in Hhash0. exact Hhash0. }
  replace (GetBlockProof _) with (GetBlockProof (NewBlockIndex hdr)) by (unfold GetBlockProof; cbn; by rw Hbits).
  cbn [bi_Header c_heap]. rw Hprev' Hprev insert_insert_eq lookup_insert_ne //. rw Htm.
  assert (same_header hd' hdr) as Hsame by (unfold same_header; split_and!; congruence).
  set (b3 := mkBI _ _ _ _ _ _ _ _ _ _ _ _ _ _). set (im := <[hash := q]> (indexMap c)). fold im.
  match goal with |- context [?m ≫= _] => assert (exists b4, m = Ok (mkChain (<[q := b4]> h0) (active c) (branch c) (orphan c) im (receiveID c) (pindexBestHeader c) (tip c) (isCurrent c)) /\
    tree_ok (<[q := b4]> h0) /\ bi_Status b4 = 0 /\ linked h0 (indexMap c !! HashPrevBlock hdr) hdr (set_Status 2 b4)) as (b4 & -> & Ht4 & Hst & Hl) end.
  { destruct (indexMap c !! HashPrevBlock hdr) as [pre|] eqn:Epre; [|assert (pre0 = None) as -> by (by destruct Hpre0); exists b3; split_and!; [done|by apply tree_insert|done|]].
    - destruct (Him _ _ Epre) as [pb Hpb]. assert (q <> pre) as Hne by (intros ->; congruence).
      pose proof (Hheight pre pb eq_refl Hpb) as Hlt. pose proof (tr_height h0 Ht pre pb Hpb) as Hpos.
      rw bload_insert_ne // (bload_Some h0 pre pb Hpb). cbn [mbind res_bind]. rw insert_insert_eq i32_id; last int_lia.
      set (b5 := set_Height (bi_Height pb + 1) (set_Prev (Some pre) b3)).
      assert (tree_ok (<[q := b5]> h0)) as Ht5.
      { apply tree_insert; [done|done|cbn; lia|done|done|]. cbn. intros r Hr. injection Hr as <-. by exists pb. }
      destruct (BuildSkip_ok (E := E) _ q b5 pre Ht5 (lookup_insert_eq _ _ _) eq_refl) as (s & -> & Ht6 & _). cbn [mbind res_bind].
      rw bload_insert. cbn [mbind res_bind]. rw !bload_insert_ne // (bload_Some h0 pre pb Hpb). cbn [mbind res_bind].
      rw !insert_insert_eq in Ht6 |- *. eexists. split; [reflexivity|].
      assert (work_of h0 pre = bi_ChainWork pb) as Hwp by (unfold work_of; by rw Hpb).
      unfold linked. cbn [from_option]. rw Hpb Hwp. cbn [from_option bi_TimeMax set_Skip b5 set_Height set_Prev b3].
      destruct (Z.ltb_spec (Time hdr) (bi_TimeMax pb)); split_and!; try reflexivity; try exact Hsame; try (apply (tree_same _ _ _ _ Ht6); reflexivity); cbn; lia.
    - split_and!; cbn; [done|done|lia|lia|done|done|done|done]. }
  cbn [mbind res_bind c_heap]. rw bload_insert. cbn [mbind res_bind]. unfold with_heap. cbn. rw insert_insert_eq.
  set (b6 := (RaiseValidity BlockValidTree b4).2).
  assert (b6 = set_Status 2 b4) as Hb6 by (unfold b6, RaiseValidity, IsInvalid, getValidity; by rw Hst).
  match goal with |- context [tryUpdateIndexBestHeader ?c _] => destruct (tryUpdateIndexBestHeader_ok (E := E) c q b6) as (best & -> & Hb & r & Hr & Hw) end.
  { apply lookup_insert_eq. }
  { cbn. intros r Hr. destruct (decide (q = r)) as [->|Hne]; [rw lookup_insert_eq; by eexists|rw lookup_insert_ne //; by apply Hbest]. }
  exists b6, best. cbn in *. split_and!; [done|by rw Hb6| |done|].
  { apply (tree_same _ _ _ _ Ht4); by rw Hb6. }
  exists r. split; [done|]. rw Hw. destruct (pindexBestHeader c) as [o|] eqn:Eo; [|done]. cbn. f_equal.
  unfold work_of. rw lookup_insert_ne; [done|]. intros ->. destruct (Hbest _ eq_refl) as [? ?]. congruence.
Qed.
End AddIndex.

(** ** The active chain *)
(** The active chain is the path from the first block to the tip. *)
Definition path_to (h : bheap) (l : list (option nat)) (t : option nat) : Prop :=
  match t with
  | None => l = []
  | Some q => exists b, h !! q = Some b /\ length l = S (Z.to_nat (bi_Height b)) /\
      forall k, (k <= Z.to_nat (bi_Height b))%nat -> l !! k = Some (walk h q (Z.to_nat (bi_Height b) - k))
  end.

Section Active.
Context (h : bheap) (Ht : tree_ok h).

(** An entry of a path is at its height, and below it lie its ancestors. *)
Lemma path_entry l t k r rb : path_to h l t -> h !! r = Some rb -> l !! k = Some (Some r) ->
  Z.of_nat k = bi_Height rb /\ forall j, (j <= k)%nat -> l !! j = Some (walk h r (k - j)).
Proof.
  destruct t as [q|]; [|by intros ->]. intros (b & Hq & Hlen & Hl) Hr Hk.
  assert (k <= Z.to_nat (bi_Height b))%nat as Hkb by (apply lookup_lt_Some in Hk; lia).
  rw (Hl k Hkb) in Hk. injection Hk as Hk. pose proof (tr_height h Ht q b Hq) as Hb.
  destruct (walk_height h Ht (Z.to_nat (bi_Height b) - k) q b Hq ltac:(lia)) as (q' & c & Hw & Hc & Hh).
  rw Hk in Hw. injection Hw as <-. rw Hr in Hc. injection Hc as <-. split; [lia|].
  intros j Hj. rw Hl; last lia. f_equal. rw -(walk_add h _ q _ r Hk). f_equal. lia.
Qed.

Definition partial_path (q : nat) (hq : nat) (old : list (option nat)) (t : option nat) (n : nat) (tmp : list (option nat)) : Prop :=
  length tmp = S hq /\
  (forall k, (n <= k <= hq)%nat -> tmp !! k = Some (walk h q (hq - k))) /\
  (forall k, (k < n)%nat -> (k <= hq)%nat -> tmp !! k = Some (mjoin (old !! k))).

Lemma fill_active_ok {E} q b old t : path_to h old t -> h !! q = Some b -> let hq := Z.to_nat (bi_Height b) in
  forall fuel r rb tmp, h !! r = Some rb -> walk h q (hq - Z.to_nat (bi_Height rb)) = Some r -> bi_Height rb <= bi_Height b ->
  bi_Height rb < Z.of_nat fuel ->
  partial_path q hq old t (S (Z.to_nat (bi_Height rb))) tmp ->
  exists tmp', fill_active (E := E) fuel h tmp (Some r) = Ok tmp' /\ length tmp' = S hq /\
    forall k, (k <= hq)%nat -> tmp' !! k = Some (walk h q (hq - k)).
Proof.
  intros Hold Hq hq fuel. induction fuel as [|fuel IH]; intros r rb tmp Hr Hw Hle Hf (Hlen & Hup & Hlow);
    pose proof (tr_height h Ht r rb Hr) as Hhr; pose proof (tr_height h Ht q b Hq) as Hhq; [lia|].
  set (k := Z.to_nat (bi_Height rb)) in *. assert (k <= hq)%nat as Hk by lia.
  cbn [fill_active]. rw (bload_Some h r rb Hr). cbn [mbind res_bind]. unfold nth_go. rw ((proj2 (Z.ltb_ge _ _)) (proj1 Hhr)).
  fold k. rw (Hlow k); [|lia|lia]. cbn [mbind res_bind]. destruct (decide (mjoin (old !! k) = Some r)) as [Hin|Hout].
  - exists tmp. split; [done|]. split; [done|]. destruct (old !! k) as [o|] eqn:Eo; [|done]. cbn in Hin. subst o.
    destruct (path_entry old t k r rb Hold Hr Eo) as [_ Hj]. intros j Hjq. destruct (decide (j <= k)%nat) as [Hjk|]; [|apply Hup; lia].
    destruct (decide (j = S k)); [lia|]. rw Hlow; [|lia|lia]. rw (Hj j Hjk). cbn. f_equal. rw -(walk_add h _ q _ r Hw). f_equal. lia.
  - destruct (bi_Prev rb) as [pr|] eqn:Ep.
    + destruct (tr_prev h Ht r rb pr Hr Ep) as (pb & Hpb & Hph). pose proof (tr_height h Ht pr pb Hpb). apply (IH pr pb); [done| |lia|lia|].
      * replace (hq - Z.to_nat (bi_Height pb))%nat with ((hq - k) + 1)%nat by lia. rw (walk_add h _ q 1 r Hw). cbn. rw Hr. cbn. by rw Ep.
      * replace (S (Z.to_nat (bi_Height pb))) with k by lia. split; [by rw length_insert|]. split; intros j Hj.
        -- destruct (decide (j = k)) as [->|]; [rw list_lookup_insert_eq; [by rw Hw|lia]|rw list_lookup_insert_ne; [apply Hup; lia|lia]].
        -- intros Hjq. rw list_lookup_insert_ne; [apply Hlow; lia|lia].
    + pose proof (tr_root h Ht r rb Hr Ep) as H0. assert (k = 0%nat) as Hk0 by lia. destruct fuel; cbn; (eexists; split; [reflexivity|]);
      (split; [by rw length_insert|]); intros j Hj; (destruct (decide (j = k)) as [->|]; [rw list_lookup_insert_eq; [by rw Hw|lia]|rw list_lookup_insert_ne; [apply Hup; lia|lia]]).
Qed.
End Active.

Record chain_ok (c : Chain) : Prop := {
  co_tree : tree_ok (c_heap c);
  co_path : path_to (c_heap c) (active c) (tip c);
  co_maps : maps_ok (c_heap c) c }.

Lemma chain_ok_add c q b best hash : chain_ok c -> c_heap c !! q = None -> tree_ok (<[q := b]> (c_heap c)) ->
  (best = Some q \/ best = pindexBestHeader c) ->
  chain_ok (mkChain (<[q := b]> (c_heap c)) (active c) (branch c) (orphan c) (<[hash := q]> (indexMap c)) (receiveID c) best (tip c) (isCurrent c)).
Proof.
  intros [Ht Hp [Hi Hb]] Hq Ht' Hbest.
  assert (forall r, is_Some (c_heap c !! r) -> is_Some (<[q := b]> (c_heap c) !! r)) as Hold.
  { intros r Hr. destruct (decide (q = r)) as [->|]; [by rw lookup_insert_eq|by rw lookup_insert_ne]. }
  split; cbn; [done| |].
  - destruct (tip c) as [t|]; cbn in *; [|done]. destruct Hp as (tb & Htb & Hlen & Hl). assert (t <> q) as Hne by (intros ->; congruence).
    exists tb. split; [by rw lookup_insert_ne|]. split; [done|]. intros k Hk. rw (walk_insert _ q b Ht Hq); [by apply Hl|done|by eexists].
  - split; cbn.
    + intros k r. destruct (decide (hash = k)) as [->|]; [rw lookup_insert_eq; intros [= <-]; by rw lookup_insert_eq|rw lookup_insert_ne //; intros Hr; by eapply Hold, Hi].
    + intros r ->. destruct Hbest as [[= ->]|Hr]; [by rw lookup_insert_eq|by apply Hold, Hb].
Qed.

Lemma UpdateSyncingState_ok {E} now minWork c : (forall t, tip c = Some t -> is_Some (c_heap c !! t)) ->
  exists cur, UpdateSyncingState (E := E) now minWork c =
    Ok (mkChain (c_heap c) (active c) (branch c) (orphan c) (indexMap c) (receiveID c) (pindexBestHeader c) (tip c) cur).
Proof.
  intros Htip. unfold UpdateSyncingState. destruct (isCurrent c) eqn:Ec; [exists true; destruct c; cbn in *; by subst|].
  destruct (tip c) as [t|] eqn:Et; [|exists false; destruct c; cbn in *; by subst].
  destruct (Htip t eq_refl) as [b Hb]. rw (bload_Some _ t b Hb). cbn [mbind res_bind]. by eexists.
Qed.

Lemma SetTip_ok {E} now minWork c q : chain_ok c -> (forall r, q = Some r -> is_Some (c_heap c !! r)) ->
  exists l cur, SetTip (E := E) now minWork c q =
    Ok (mkChain (c_heap c) l (branch c) (orphan c) (indexMap c) (receiveID c) (pindexBestHeader c) q cur) /\
    path_to (c_heap c) l q.
Proof.
  intros [Ht Hp _] Hq. destruct q as [q|]; [|by eexists _, _]. destruct (Hq q eq_refl) as [b Hb]. cbn [SetTip].
  rw (bload_Some _ q b Hb). cbn [mbind res_bind]. pose proof (tr_height _ Ht q b Hb) as Hh.
  replace (bi_Height b + 1 <? 0) with false by lia.
  replace (Z.to_nat (bi_Height b + 1)) with (S (Z.to_nat (bi_Height b))) by lia. set (hq := Z.to_nat (bi_Height b)).
  destruct (fill_active_ok (E := E) _ Ht q b _ _ Hp Hb (S (S hq)) q b (resize (S hq) None (active c)) Hb) as (tmp & -> & Hlen & Hl);
    [by rw Nat.sub_diag|lia|lia| |].
  { split; [apply length_resize|]. split; intros k Hk; [lia|]. intros Hle. destruct (active c !! k) as [o|] eqn:Eo.
    - rw lookup_resize; [done|lia|by apply lookup_lt_is_Some_1; eexists].
    - rw lookup_resize_new; [done|by apply lookup_ge_None_1|lia]. }
  cbn [mbind res_bind]. match goal with |- context [UpdateSyncingState _ _ ?c] => destruct (UpdateSyncingState_ok (E := E) now minWork c) as [cur ->] end.
  { cbn. intros t Htt. injection Htt as <-. by eexists. }
  eexists _, cur. cbn. split; [reflexivity|]. exists b. by split_and!.
Qed.

(** ** Forks *)
Section Fork.
Context (c : Chain) (Hc : chain_ok c).

Definition in_active (q : nat) : Prop := exists k, active c !! k = Some (Some q).
Lemma Contains_ok {E} q b : c_heap c !! q = Some b ->
  exists r : bool, Contains (E := E) c (Some q) = Ok r /\ (r = true <-> in_active q).
Proof.
  intros Hq. cbn. rw (bload_Some _ q b Hq). cbn [mbind res_bind]. eexists. split; [reflexivity|].
  rw bool_decide_eq_true. unfold GetIndex. pose proof (tr_height _ (co_tree c Hc) q b Hq) as Hb. split.
  - destruct (_ || _); [done|]. intros Hj. destruct (active c !! Z.to_nat (bi_Height b)) as [o|] eqn:Eo; [|done]. cbn in Hj. subst o. by eexists.
  - intros [k Hk]. destruct (path_entry _ (co_tree c Hc) _ _ k q b (co_path c Hc) Hq Hk) as [Hkb _]. pose proof (lookup_lt_Some _ _ _ Hk).
    replace ((bi_Height b <? 0) || _) with false by lia. replace (Z.to_nat (bi_Height b)) with k by lia. by rw Hk.
Qed.

(** [f] is the last block on the way from [q] back to the root that is active. *)
Definition fork_of (q : nat) (f : option nat) : Prop :=
  match f with
  | Some f => in_active f /\ exists n, walk (c_heap c) q n = Some f /\ forall m r, (m < n)%nat -> walk (c_heap c) q m = Some r -> ~ in_active r
  | None => forall m r, walk (c_heap c) q m = Some r -> ~ in_active r
  end.

Lemma fork_of_step q b f : c_heap c !! q = Some b -> ~ in_active q ->
  (forall r, bi_Prev b = Some r -> fork_of r f) -> (bi_Prev b = None -> f = None) -> fork_of q f.
Proof.
  intros Hq Hn Hs H0. assert (forall m, walk (c_heap c) q (S m) = r ← bi_Prev b; walk (c_heap c) r m) as Hw by (intros m; cbn; by rw Hq).
  destruct (bi_Prev b) as [r|].
  - specialize (Hs r eq_refl). destruct f as [f|]; cbn in Hs |- *.
    + destruct Hs as (Hf & n & Hwn & Hm). split; [done|]. exists (S n). split; [by rw Hw|]. intros [|m] x Hx Hwx; [by injection Hwx as <-|]. rw Hw in Hwx. apply (Hm m); [lia|done].
    + intros [|m] x Hwx; [by injection Hwx as <-|]. rw Hw in Hwx. by apply (Hs m).
  - rw H0 //. cbn. intros [|m] x Hwx; [by injection Hwx as <-|]. by rw Hw in Hwx.
Qed.

Lemma fork_walk_ok {E} fuel : forall q b, c_heap c !! q = Some b -> bi_Height b < Z.of_nat fuel ->
  exists f, fork_walk (E := E) fuel c (Some q) = Ok f /\ fork_of q f.
Proof.
  induction fuel as [|fuel IH]; intros q b Hq Hf; pose proof (tr_height _ (co_tree c Hc) q b Hq) as Hb; [lia|]. cbn [fork_walk].
  destruct (Contains_ok (E := E) q b Hq) as (r & -> & Hr). cbn [mbind res_bind]. destruct r.
  { exists (Some q). split; [done|]. split; [by apply Hr|]. exists 0%nat. split; [done|lia]. }
  rw (bload_Some _ q b Hq). cbn [mbind res_bind]. assert (~ in_active q) as Hn by (intros Hi; apply Hr in Hi; done).
  destruct (bi_Prev b) as [pr|] eqn:Ep.
  - destruct (tr_prev _ (co_tree c Hc) q b pr Hq Ep) as (pb & Hpb & Hh). destruct (IH pr pb Hpb ltac:(lia)) as (f & Hfw & Hfo).
    exists f. split; [done|]. apply (fork_of_step q b); [done|done|intros r; rw Ep; by intros [= <-]|by rw Ep].
  - exists None. split; [by destruct fuel|]. apply (fork_of_step q b); [done|done|by rw Ep|done].
Qed.
(** Above the tip no block is active. *)
Lemma fork_of_jump q n r f : walk (c_heap c) q n = Some r -> (forall m x, (m < n)%nat -> walk (c_heap c) q m = Some x -> ~ in_active x) ->
  fork_of r f -> fork_of q f.
Proof.
  intros Hw Hn Hf. assert (forall m x, walk (c_heap c) q m = Some x -> (m < n)%nat \/ (n <= m)%nat /\ walk (c_heap c) r (m - n) = Some x) as Hm.
  { intros m x Hx. destruct (decide (m < n)%nat); [by left|right]. split; [lia|]. rw -(walk_add _ _ _ _ _ Hw) -Hx. f_equal. lia. }
  destruct f as [f|]; cbn in *.
  - destruct Hf as (Hi & k & Hk & Hlow). split; [done|]. exists (n + k)%nat. split; [by rw (walk_add _ _ _ _ _ Hw)|]. intros m x Hlt Hx.
    destruct (Hm m x Hx) as [|[? Hx']]; [by eapply Hn|]. apply (Hlow (m - n)%nat); [lia|done].
  - intros m x Hx. destruct (Hm m x Hx) as [|[? Hx']]; [by eapply Hn|by eapply Hf].
Qed.

Lemma active_low {E} x xb ht : c_heap c !! x = Some xb -> Chain_Height (E := E) c = Ok ht -> in_active x -> bi_Height xb <= ht.
Proof.
  intros Hx Hht [k Hk]. destruct (path_entry _ (co_tree c Hc) _ _ k x xb (co_path c Hc) Hx Hk) as [Hkb _].
  pose proof (co_path c Hc) as Hp. unfold Chain_Height in Hht. destruct (tip c) as [t|]; cbn in Hp.
  - destruct Hp as (tb & Htb & Hlen & _). rw (bload_Some _ t tb Htb) in Hht. injection Hht as <-.
    apply lookup_lt_Some in Hk. pose proof (tr_height _ (co_tree c Hc) t tb Htb). lia.
  - by rw Hp in Hk.
Qed.
Lemma active_none {E} x ht : Chain_Height (E := E) c = Ok ht -> ht < 0 -> ~ in_active x.
Proof.
  intros Hht Hneg [k Hk]. pose proof (co_path c Hc) as Hp. unfold Chain_Height in Hht. destruct (tip c) as [t|]; cbn in Hp; [|by rw Hp in Hk].
  destruct Hp as (tb & Htb & _). rw (bload_Some _ t tb Htb) in Hht. injection Hht as Hht. pose proof (tr_height _ (co_tree c Hc) t tb Htb). lia.
Qed.
Lemma Chain_Height_ok {E} : exists ht, Chain_Height (E := E) c = Ok ht /\ -1 <= ht.
Proof.
  pose proof (co_path c Hc) as Hp. unfold Chain_Height. destruct (tip c) as [t|]; [|by exists (-1)].
  destruct Hp as (tb & Htb & _). rw (bload_Some _ t tb Htb). cbn [mbind res_bind]. pose proof (tr_height _ (co_tree c Hc) t tb Htb). eexists. split; [done|lia].
Qed.

Lemma FindFork_ok {E} q b : c_heap c !! q = Some b -> exists f, FindFork (E := E) c (Some q) = Ok f /\ fork_of q f.
Proof.
  intros Hq. unfold FindFork. rw (bload_Some _ q b Hq). cbn [mbind res_bind]. destruct (Chain_Height_ok (E := E)) as (ht & Hht & Hpos). rw Hht. cbn [mbind res_bind].
  pose proof (tr_height _ (co_tree c Hc) q b Hq) as Hb.
  destruct (Z.ltb_spec ht (bi_Height b)) as [Hlt|]; [|cbn [mbind res_bind]; apply (fork_walk_ok _ q b Hq); lia].
  assert (forall m x, Z.of_nat m < bi_Height b - ht -> walk (c_heap c) q m = Some x -> ~ in_active x) as Hout.
  { intros m x Hm Hx Hi. destruct (decide (Z.of_nat m <= bi_Height b)) as [Hle|Hgt].
    - destruct (walk_height _ (co_tree c Hc) m q b Hq Hle) as (x' & xb & Hx' & Hxb & Hxh). rw Hx in Hx'. injection Hx' as <-.
      pose proof (active_low (E := E) x xb ht Hxb Hht Hi). lia.
    - apply (active_none (E := E) x ht Hht); [lia|done]. }
  rw (GetAncestor_walk _ (co_tree c Hc) q b ht Hq). cbn [mbind res_bind]. destruct (Z.leb_spec 0 ht) as [H0|H0]; cbn [andb].
  - replace (ht <=? bi_Height b) with true by lia.
    destruct (walk_height _ (co_tree c Hc) (Z.to_nat (bi_Height b - ht)) q b Hq ltac:(lia)) as (r & rb & Hw & Hrb & Hrh). rw Hw.
    destruct (fork_walk_ok (E := E) (S (Z.to_nat (bi_Height b))) r rb Hrb ltac:(lia)) as (f & -> & Hf). exists f. split; [done|].
    apply (fork_of_jump q _ r f Hw); [|done]. intros m x Hm. apply Hout. lia.
  - exists None. split; [done|]. cbn. intros m x Hx. apply (active_none (E := E) x ht Hht H0).
Qed.
End Fork.
