(* ===== verification/BranchFacts.v ===== *)
(** * The candidates for the active chain

    The candidates stay sorted by work, and a block that becomes connectable brings
    the blocks that wait for it. *)
From stdpp Require Import sorting.
From S2P Require Import Prelude Errors Wire ScriptNum Opcodes Script ScriptFacts Tx TxFacts Crypto Compress Coins Block Undo BlockIndex.
From S2P Require Import Stack Slice Interp Ltx Chain ChainFacts.

(** ** Sorting by work *)
Definition lighter (h : bheap) (x y : nat) : Prop := work_of h x <= work_of h y.
Abbreviation by_work h := (StronglySorted (lighter h)).

Lemma insert_stable_perm h q l : insert_stable h q l ≡ₚ q :: l.
Proof. induction l as [|x l IH]; cbn; [done|]. destruct (_ <? _); [done|]. rw IH. apply Permutation_swap. Qed.
Lemma insert_stable_sorted h q l : by_work h l -> by_work h (insert_stable h q l).
Proof.
  induction 1 as [|x l Hl IH Hx]; cbn; [repeat constructor|]. destruct (Z.ltb_spec (work_of h q) (work_of h x)) as [Hlt|Hge].
  - constructor; [by constructor|]. constructor; [unfold lighter; lia|]. eapply Forall_impl; [exact Hx|]. unfold lighter. lia.
  - constructor; [done|]. rw insert_stable_perm. by constructor.
Qed.
Lemma sort_stable_foldl h l : forall acc, by_work h acc ->
  by_work h (foldl (fun l q => insert_stable h q l) acc l) /\ foldl (fun l q => insert_stable h q l) acc l ≡ₚ acc ++ l.
Proof.
  induction l as [|x l IH]; intros acc Ha; cbn; [by rw app_nil_r|].
  destruct (IH _ (insert_stable_sorted h x acc Ha)) as [Hs Hp]. split; [done|]. rw Hp insert_stable_perm. solve_Permutation.
Qed.
Lemma sort_stable_ok h l : by_work h (sort_stable h l) /\ sort_stable h l ≡ₚ l.
Proof. apply (sort_stable_foldl h l []). constructor. Qed.
Lemma by_work_last h l x : by_work h l -> last l = Some x -> forall y, y ∈ l -> work_of h y <= work_of h x.
Proof.
  induction 1 as [|z l Hl IH Hz]; [done|]. destruct l as [|z' l]; cbn [last].
  - intros [= ->] y Hy. apply list_elem_of_singleton in Hy as ->. lia.
  - intros Hlast y Hy. apply elem_of_cons in Hy as [->|Hy]; [|by apply IH].
    rw Forall_forall in Hz. apply (Hz x). by apply last_Some_elem_of.
Qed.

(** ** What the candidates leave alone *)
Lemma fmap_Some_eq {A B} (f : A -> B) x y : f <$> Some x = f <$> Some y -> f x = f y.
Proof. intros Hf. by injection Hf. Qed.
(** The part of an index that places it in the tree, and its status. *)
Definition links (b : BlockIndex) := (bi_Header b, bi_blockHash b, bi_Prev b, bi_Skip b, bi_Height b, bi_ChainWork b).
Definition same_links (h h' : bheap) : Prop := forall y, links <$> h !! y = links <$> h' !! y.
(** Status and position. *)
Definition status_pos (b : BlockIndex) : Z * Z * Z := (bi_Status b, bi_File b, bi_DataPos b).
Definition same_core (h h' : bheap) : Prop := forall y, (fun b => (links b, status_pos b)) <$> h !! y = (fun b => (links b, status_pos b)) <$> h' !! y.
#[export] Instance same_links_equiv : Equivalence same_links.
Proof. split; [done|by intros h h' Hs y|intros h1 h2 h3 H1 H2 y; by rw H1]. Qed.
#[export] Instance same_core_equiv : Equivalence same_core.
Proof. split; [done|by intros h h' Hs y|intros h1 h2 h3 H1 H2 y; by rw H1]. Qed.
#[export] Instance same_core_links : subrelation same_core same_links.
Proof. intros h h' Hs y. specialize (Hs y). destruct (h !! y) as [b|], (h' !! y) as [b'|]; try done.
  pose proof (f_equal fst (fmap_Some_eq _ _ _ Hs)) as Hl. cbn [fst] in Hl. change (Some (links b) = Some (links b')). by rw Hl.
Qed.
Lemma links_inv b b' : links b = links b' ->
  bi_Header b = bi_Header b' /\ bi_blockHash b = bi_blockHash b' /\ bi_Prev b = bi_Prev b' /\ bi_Skip b = bi_Skip b' /\ bi_Height b = bi_Height b' /\ bi_ChainWork b = bi_ChainWork b'.
Proof. unfold links. intros Hl. by injection Hl. Qed.
Lemma same_links_lookup h h' y b : same_links h h' -> h !! y = Some b -> exists b', h' !! y = Some b' /\ links b' = links b.
Proof. intros Hs Hy. specialize (Hs y). rw Hy in Hs. destruct (h' !! y) as [b'|]; [|done]. pose proof (fmap_Some_eq _ _ _ Hs) as He. exists b'. by rw He. Qed.
Lemma same_links_insert h x b b' : h !! x = Some b -> links b' = links b -> same_links h (<[x := b']> h).
Proof. intros Hx Hc y. destruct (decide (x = y)) as [->|]; [by rw lookup_insert_eq Hx /= Hc|by rw lookup_insert_ne]. Qed.
Lemma same_core_insert h x b b' : h !! x = Some b -> links b' = links b -> status_pos b' = status_pos b -> same_core h (<[x := b']> h).
Proof. intros Hx Hc Hst y. destruct (decide (x = y)) as [->|]; [by rw lookup_insert_eq Hx /= Hc Hst|by rw lookup_insert_ne]. Qed.
Lemma same_core_status h h' y : same_core h h' -> bi_Status <$> h !! y = bi_Status <$> h' !! y.
Proof. intros Hs. specialize (Hs y). destruct (h !! y) as [b|], (h' !! y) as [b'|]; try done. pose proof (f_equal (fun x => x.2.1.1) (fmap_Some_eq _ _ _ Hs)) as Hl. cbn in Hl |- *. by rw Hl. Qed.

#[export] Instance work_of_proper : Proper (same_links ==> eq ==> eq) work_of.
Proof. intros h h' Hs y ? <-. unfold work_of. specialize (Hs y). destruct (h !! y) as [b|], (h' !! y) as [b'|]; try done. pose proof (fmap_Some_eq _ _ _ Hs) as Hl. clear Hs. rename Hl into Hs. cbn. by apply links_inv in Hs as (_ & _ & _ & _ & _ & ?). Qed.
#[export] Instance hash_of_proper Sha256 : Proper (same_links ==> eq ==> eq) (hash_of Sha256).
Proof.
  intros h h' Hs y ? <-. unfold hash_of. specialize (Hs y). destruct (h !! y) as [b|], (h' !! y) as [b'|]; try done. pose proof (fmap_Some_eq _ _ _ Hs) as Hl. cbn.
  apply links_inv in Hl as (Hh & Hb & _). unfold GetBlockHash. rw Hb Hh. destruct (Hash_IsNull _); [by destruct (Header_GetHash _ _)|done].
Qed.
#[export] Instance walk_proper : Proper (same_links ==> eq ==> eq ==> eq) walk.
Proof.
  intros h h' Hs y ? <- n ? <-. apply walk_ext. intros p. specialize (Hs p). destruct (h !! p) as [b|], (h' !! p) as [b'|]; try done. pose proof (fmap_Some_eq _ _ _ Hs) as Hl. cbn. f_equal. by apply links_inv in Hl as (_ & _ & ? & _).
Qed.
#[export] Instance by_work_proper : Proper (same_links ==> eq ==> iff) (fun h => by_work h).
Proof.
  assert (forall h h' l, same_links h h' -> by_work h l -> by_work h' l) as Hdir.
  { intros h h' l Hs. induction 1 as [|x l Hl IH Hx]; [constructor|]. constructor; [done|]. eapply Forall_impl; [exact Hx|]. intros y. unfold lighter. by rw !Hs. }
  intros h h' Hs l ? <-. split; by apply Hdir.
Qed.
#[export] Instance tree_ok_proper : Proper (same_links ==> iff) tree_ok.
Proof.
  assert (forall h h', same_links h h' -> tree_ok h -> tree_ok h') as Hdir; [|intros h h' Hs; split; by apply Hdir].
  intros h h' Hs Ht. assert (forall y b', h' !! y = Some b' -> exists b, h !! y = Some b /\ links b = links b') as Hback.
  { intros y b' Hy. symmetry in Hs. by apply (same_links_lookup h' h y b'). }
  split; intros p b; [|intros q| |intros s]; intros Hp; destruct (Hback p b Hp) as (b0 & H0 & Hc); apply links_inv in Hc as (Hc1 & Hc2 & Hc3 & Hc4 & Hc5 & Hc6).
  - rw -Hc5. by apply (tr_height h Ht p).
  - rw -Hc3 -Hc5. intros Hq. destruct (tr_prev h Ht p b0 q H0 Hq) as (d & Hd & Hh). destruct (same_links_lookup h h' q d Hs Hd) as (d' & Hd' & He).
    exists d'. split; [done|]. apply links_inv in He as (He1 & He2 & He3 & He4 & He5 & He6). lia.
  - rw -Hc3 -Hc5. by apply (tr_root h Ht p).
  - rw -Hc4 -Hc5. rw -Hs. by apply (tr_skip h Ht p).
Qed.

(** ** The queue *)
Lemma orphan_count_delete c k l : orphan c !! k = Some l -> orphan_count c = (length l + orphan_count (with_orphan c (delete k (orphan c))))%nat.
Proof.
  intros Hk. unfold orphan_count. cbn. rw -length_app. change (l ++ concat ?x) with (concat (l :: x)).
  change (l :: map snd ?x) with (map snd ((k, l) :: x)). apply Permutation_length.
  assert (forall a b : list (list nat), a ≡ₚ b -> concat a ≡ₚ concat b) as Hcat.
  { induction 1; cbn; [done|by f_equiv|solve_Permutation|by etrans]. }
  apply Hcat, Permutation_map. symmetry. by apply map_to_list_delete.
Qed.

Section Queue.
Context (Sha256 : bytes -> bytes) (p : ForkParams).

Definition connectable (c : Chain) (y : nat) : Prop :=
  exists b, c_heap c !! y = Some b /\ (IsGenesis Sha256 p c y = false -> is_Some (bi_Prev b)).
Definition ready (c : Chain) (x : nat) : list nat :=
  filter (fun y => from_option HasData false (c_heap c !! y) = true) (default [] (orphan c !! hash_of Sha256 (c_heap c) x)).

Lemma InBranch_spec c x : InBranch Sha256 c x = true <-> exists y, y ∈ branch c /\ hash_of Sha256 (c_heap c) y = hash_of Sha256 (c_heap c) x.
Proof.
  unfold InBranch. rw existsb_exists. split; intros (y & Hy & Hh); exists y.
  - rw list_elem_of_In. by rw bool_decide_eq_true in Hh.
  - rw list_elem_of_In in Hy. by rw bool_decide_eq_true.
Qed.

Lemma connectable_links c c' y : same_links (c_heap c) (c_heap c') -> connectable c y -> connectable c' y.
Proof.
  intros Hs (b & Hb & Hg). destruct (same_links_lookup _ _ _ _ Hs Hb) as (b' & Hb' & Hc). exists b'. split; [done|].
  apply links_inv in Hc as (_ & _ & -> & _). unfold IsGenesis in *. by rw -(hash_of_proper Sha256 _ _ Hs y y eq_refl).
Qed.
Lemma connect_step {E} c x : tree_ok (c_heap c) -> connectable c x -> exists c',
  (forall fuel q, connect_queue (E := E) Sha256 p (S fuel) c (x :: q) = connect_queue Sha256 p fuel c' (q ++ ready c x)) /\
  same_core (c_heap c) (c_heap c') /\ (by_work (c_heap c) (branch c) -> by_work (c_heap c') (branch c')) /\
  (branch c' = branch c \/ branch c' ≡ₚ x :: branch c) /\ InBranch Sha256 c' x = true /\
  active c' = active c /\ tip c' = tip c /\ indexMap c' = indexMap c /\ pindexBestHeader c' = pindexBestHeader c /\
  orphan c' = delete (hash_of Sha256 (c_heap c) x) (orphan c).
Proof.
  intros Ht (b & Hb & Hpre).
  assert (exists count, (if IsGenesis Sha256 p c x then Ok (bi_TxCount b)
     else match bi_Prev b with None => Panic | Some pre => pb ← bload (E := E) (c_heap c) pre; Ok (i32 (bi_ChainTxCount pb + bi_TxCount b)) end) = Ok count) as [count Hcount].
  { destruct (IsGenesis _ _ _ _); [by eexists|]. destruct (Hpre eq_refl) as [pre Hp]. rw Hp.
    destruct (tr_prev _ Ht x b pre Hb Hp) as (pb & Hpb & _). rw (bload_Some _ _ _ Hpb). by eexists. }
  set (h' := <[x := set_SequenceID (receiveID c) (set_ChainTxCount count b)]> (c_heap c)).
  assert (same_core (c_heap c) h') as Hsame by (by apply (same_core_insert _ x b)).
  set (c1 := mkChain h' (active c) (branch c) (orphan c) (indexMap c) (u64 (receiveID c + 1)) (pindexBestHeader c) (tip c) (isCurrent c)).
  set (c2 := if InBranch Sha256 c1 x then c1 else insertToBranch c1 x).
  assert (c_heap c2 = h' /\ orphan c2 = orphan c /\ active c2 = active c /\ tip c2 = tip c /\ indexMap c2 = indexMap c /\ pindexBestHeader c2 = pindexBestHeader c) as (Hh2 & Ho2 & Ha2 & Ht2 & Hi2 & Hp2)
    by (unfold c2; by destruct (InBranch _ _ _)).
  assert (hash_of Sha256 h' x = hash_of Sha256 (c_heap c) x) as Hhash by (by rw -Hsame).
  exists (with_orphan c2 (delete (hash_of Sha256 (c_heap c) x) (orphan c))). split; [|split; [|split; [|split; [|split]]]].
  - intros fuel q. cbn [connect_queue]. rw (bload_Some _ x b Hb). cbn [mbind res_bind]. rw Hcount. cbn [mbind res_bind GetReceivedID].
    unfold with_heap. cbn [c_heap active branch orphan indexMap receiveID pindexBestHeader tip isCurrent]. fold h' c1 c2.
    rw Hh2 Hhash Ho2. unfold ready. destruct (orphan c !! hash_of Sha256 (c_heap c) x) as [l|] eqn:El; cbn [default from_option].
    + do 2 f_equal. apply list_filter_iff. intros y. unfold from_option. pose proof (same_core_status _ _ y Hsame) as Hst.
      destruct (c_heap c !! y) as [yb|], (h' !! y) as [yb'|]; try done. injection Hst as Hst. unfold HasData. by rw Hst.
    + rw filter_nil app_nil_r. f_equal. rw delete_id //. unfold with_orphan. rw -Ho2. by destruct c2.
  - cbn. by rw Hh2.
  - cbn. intros Hs. rw Hh2. unfold c2. rw (by_work_proper _ _ (same_core_links _ _ Hsame) _ _ eq_refl) in Hs. destruct (InBranch _ _ _); [done|]. cbn. apply sort_stable_ok.
  - cbn. unfold c2. destruct (InBranch _ _ _); [by left|right]. cbn. destruct (sort_stable_ok h' (branch c ++ [x])) as [_ ->]. solve_Permutation.
  - apply InBranch_spec. cbn. rw Hh2. unfold c2. destruct (InBranch _ c1 x) eqn:Ei; [by apply InBranch_spec in Ei|]. exists x. split; [|done]. cbn.
    destruct (sort_stable_ok h' (branch c ++ [x])) as [_ ->]. set_solver.
  - by split_and!.
Qed.

(** The blocks that can be connected once [q] can: [q], and the blocks with data that
    wait for the hash of one of them. *)
Inductive eligible (c : Chain) (q : nat) : nat -> Prop :=
| eligible_self : eligible c q q
| eligible_child x y : eligible c q x -> y ∈ ready c x -> eligible c q y.

(** [done] are the blocks taken from the queue so far. *)
Record queue_inv (c0 : Chain) (q0 : nat) (dn : list nat) (c : Chain) (q : list nat) : Prop := {
  qi_core : same_core (c_heap c0) (c_heap c);
  qi_sorted : by_work (c_heap c) (branch c);
  qi_incl : branch c0 ⊆+ branch c;
  qi_branch y : y ∈ branch c -> y ∈ branch c0 \/ eligible c0 q0 y;
  qi_done x : x ∈ dn -> InBranch Sha256 c x = true;
  qi_elig x : x ∈ dn ++ q -> eligible c0 q0 x;
  qi_conn x : x ∈ q -> connectable c0 x;
  qi_closed x y : x ∈ dn -> y ∈ ready c0 x -> y ∈ dn ++ q;
  qi_orphan k : orphan c !! k = orphan c0 !! k \/ orphan c !! k = None /\ exists x, x ∈ dn /\ hash_of Sha256 (c_heap c0) x = k;
  qi_rest : active c = active c0 /\ tip c = tip c0 /\ indexMap c = indexMap c0 /\ pindexBestHeader c = pindexBestHeader c0 }.

Lemma InBranch_mono c c' x : same_core (c_heap c) (c_heap c') -> branch c ⊆ branch c' -> InBranch Sha256 c x = true -> InBranch Sha256 c' x = true.
Proof. intros Hs Hb. rw !InBranch_spec. intros (y & Hy & Hh). exists y. split; [set_solver|]. by rw -!Hs. Qed.

Lemma ready_core c0 c x : same_core (c_heap c0) (c_heap c) ->
  orphan c !! hash_of Sha256 (c_heap c0) x = orphan c0 !! hash_of Sha256 (c_heap c0) x -> ready c x = ready c0 x.
Proof.
  intros Hs Ho. unfold ready. rw -(hash_of_proper Sha256 _ _ (same_core_links _ _ Hs) x x eq_refl) Ho. apply list_filter_iff. intros y. unfold from_option. pose proof (same_core_status _ _ y Hs) as Hst.
  destruct (c_heap c0 !! y) as [yb|], (c_heap c !! y) as [yb'|]; try done. injection Hst as Hst. unfold HasData. by rw Hst.
Qed.

Lemma queue_step {E} c0 q0 dn c x q : tree_ok (c_heap c0) -> (forall k l y, orphan c0 !! k = Some l -> y ∈ l -> connectable c0 y) ->
  queue_inv c0 q0 dn c (x :: q) -> exists c',
    (forall fuel, connect_queue (E := E) Sha256 p (S fuel) c (x :: q) = connect_queue Sha256 p fuel c' (q ++ ready c x)) /\
    queue_inv c0 q0 (x :: dn) c' (q ++ ready c x) /\ (length (q ++ ready c x) + orphan_count c' < length (x :: q) + orphan_count c)%nat.
Proof.
  intros Ht Hwait [Hcore Hsort Hincl Hbr Hdone Helig Hconn Hclosed Horph Hrest].
  assert (tree_ok (c_heap c)) as Ht' by (by rw -Hcore).
  assert (connectable c x) as Hx.
  { apply (connectable_links c0); [by apply same_core_links|apply Hconn; set_solver]. }
  destruct (connect_step (E := E) c x Ht' Hx) as (c' & Hstep & Hcore' & Hsort' & Hbr' & Hin & Ha & Htp & Him & Hbest & Ho).
  exists c'. split; [by intros fuel|]. set (k := hash_of Sha256 (c_heap c0) x).
  assert (hash_of Sha256 (c_heap c) x = k) as Hk by (unfold k; symmetry; apply hash_of_proper; [by apply same_core_links|done]).
  assert (branch c ⊆+ branch c') as Hsub by (destruct Hbr' as [Hb|Hb]; rw Hb; [done|by apply submseteq_cons]).
  assert (forall y, y ∈ ready c x -> y ∈ ready c0 x) as Hready.
  { intros y. destruct (Horph k) as [He|[He _]]; [by rw (ready_core c0 c x Hcore He)|]. unfold ready. rw Hk He. cbn. set_solver. }
  assert (forall y, y ∈ ready c0 x -> y ∈ ready c x \/ y ∈ dn ++ x :: q) as Hback.
  { intros y Hy. destruct (Horph k) as [He|[_ (x' & Hx' & Hhx')]]; [left; by rw (ready_core c0 c x Hcore He)|right].
    apply (Hclosed x' y Hx'). unfold ready in Hy |- *. rw Hhx'. exact Hy. }
  split.
  - split; [by etrans|by apply Hsort'|by etrans| | | | | | |].
    + intros y Hy. assert (y = x \/ y ∈ branch c) as [->|Hy'] by (destruct Hbr' as [Hb|Hb]; rw Hb in Hy; set_solver); [right; apply Helig; set_solver|by apply Hbr].
    + intros y Hy. apply elem_of_cons in Hy as [->|Hy]; [done|]. apply (InBranch_mono c); [done|intros z Hz; by apply (elem_of_submseteq (branch c))|by apply Hdone].
    + intros y Hy. destruct (decide (y ∈ ready c x)) as [Hr|Hr]; [eapply eligible_child; [apply (Helig x); set_solver|by apply Hready]|apply Helig; set_solver].
    + intros y Hy. apply elem_of_app in Hy as [Hy|Hy]; [apply Hconn; set_solver|]. apply Hready in Hy. unfold ready in Hy. apply list_elem_of_filter in Hy as [_ Hy].
      destruct (orphan c0 !! hash_of Sha256 (c_heap c0) x) as [l|] eqn:El; [by apply (Hwait _ l y El)|set_solver].
    + intros a y Ha' Hy. apply elem_of_cons in Ha' as [->|Ha']; [destruct (Hback y Hy); set_solver|]. specialize (Hclosed a y Ha' Hy). set_solver.
    + intros j. rw Ho Hk. destruct (decide (k = j)) as [<-|Hne]; [right; rw lookup_delete_eq; split; [done|]; exists x; split; [set_solver|done]|].
      rw lookup_delete_ne //. destruct (Horph j) as [He|[He (x' & Hx' & Hh)]]; [by left|right]. split; [done|]. exists x'. split; [set_solver|done].
    + destruct Hrest as (? & ? & ? & ?). split_and!; congruence.
  - rw length_app. cbn [length]. assert (length (ready c x) + orphan_count c' <= orphan_count c)%nat; [|lia].
    unfold ready. destruct (orphan c !! hash_of Sha256 (c_heap c) x) as [l|] eqn:El; cbn [default from_option].
    + rw (orphan_count_delete c _ l El). unfold orphan_count. rw Ho. cbn. apply Nat.add_le_mono_r, length_filter.
    + unfold orphan_count. rw Ho delete_id //.
Qed.

Lemma connect_queue_ok {E} c0 q0 : tree_ok (c_heap c0) -> (forall k l y, orphan c0 !! k = Some l -> y ∈ l -> connectable c0 y) ->
  forall fuel dn c q, queue_inv c0 q0 dn c q -> (length q + orphan_count c <= fuel)%nat ->
  exists c' dn', connect_queue (E := E) Sha256 p fuel c q = Ok c' /\ queue_inv c0 q0 dn' c' [] /\ dn ++ q ⊆ dn'.
Proof.
  intros Ht Hwait fuel. induction fuel as [|fuel IH]; intros dn c q Hinv Hf.
  - destruct q; [|cbn in Hf; lia]. exists c, dn. split_and!; [done|done|by rw app_nil_r].
  - destruct q as [|x q]; [exists c, dn; split_and!; [done|done|by rw app_nil_r]|].
    destruct (queue_step (E := E) c0 q0 dn c x q Ht Hwait Hinv) as (c1 & Hs & Hinv1 & Hm). rw Hs.
    destruct (IH (x :: dn) c1 _ Hinv1 ltac:(lia)) as (c' & dn' & He & Hi & Hsub). exists c', dn'. split_and!; [done|done|set_solver].
Qed.

Lemma AddToBranch_ok {E} c q : tree_ok (c_heap c) -> by_work (c_heap c) (branch c) -> connectable c q ->
  (forall k l y, orphan c !! k = Some l -> y ∈ l -> connectable c y) ->
  exists c', AddToBranch (E := E) Sha256 p c q = Ok (Some c') /\
    same_core (c_heap c) (c_heap c') /\ by_work (c_heap c') (branch c') /\ branch c ⊆+ branch c' /\
    (forall y, y ∈ branch c' -> y ∈ branch c \/ eligible c q y) /\ (forall y, eligible c q y -> InBranch Sha256 c' y = true) /\
    (forall k, orphan c' !! k = orphan c !! k \/ orphan c' !! k = None /\ exists x, eligible c q x /\ hash_of Sha256 (c_heap c) x = k) /\
    (active c' = active c /\ tip c' = tip c /\ indexMap c' = indexMap c /\ pindexBestHeader c' = pindexBestHeader c).
Proof.
  intros Ht Hs Hq Hwait. destruct (connect_queue_ok (E := E) c q Ht Hwait (S (orphan_count c)) [] c [q]) as (c' & dn & Hc & Hi & Hsub).
  { split; try done.
    - by intros y; left.
    - by intros x Hx%elem_of_nil.
    - intros x Hx. apply list_elem_of_singleton in Hx as ->. constructor.
    - by intros x ->%list_elem_of_singleton.
    - by intros x y Hx%elem_of_nil.
    - by intros k; left. }
  { cbn. lia. }
  exists c'. destruct Hi as [Hcore Hsort Hincl Hbr Hdone Helig Hconn Hclosed Horph Hrest]. split.
  { unfold AddToBranch. destruct Hq as (b & Hb & Hg). rw (bload_Some _ q b Hb). cbn [mbind res_bind].
    destruct (bi_Prev b) as [pre|]; [by rw Hc|]. destruct (IsGenesis Sha256 p c q); [by rw Hc|]. by destruct (Hg eq_refl). }
  do 4 (split; [done|]). split; [|split; [|done]]. 
  - intros y Hy. apply Hdone. induction Hy as [|x y Hx IH Hy]; [set_solver|]. specialize (Hclosed x y IH Hy). by rw app_nil_r in Hclosed.
  - intros k. destruct (Horph k) as [|(Hn & x & Hx & Hk)]; [by left|right]. split; [done|]. exists x. split; [|done]. apply Helig. set_solver.
Qed.
End Queue.
