(* ===== verification/ChainTheorems.v ===== *)
(** * Theorems on the block tree, the active chain and the candidates

    The definitions are in BlockIndex.v and Chain.v, the lemmas in ChainFacts.v and
    BranchFacts.v. *)
From stdpp Require Import sorting.
From S2P Require Import Prelude Errors Wire ScriptNum Opcodes Script ScriptFacts Tx TxFacts Crypto Compress Coins Block Undo BlockIndex.
From S2P Require Import Stack Slice Interp Ltx Chain ChainFacts BranchFacts.

(** ** A small block tree *)
(** Block [i] has the hash [i i i ...]; its parent is block [prev]. *)
Definition toy_hash (i : Z) : bytes := repeat i 32.
Definition toy_header (prev i : Z) : BlockHeader := mkHeader 1 (toy_hash prev) HashZero (100 * i) 0x207fffff 0 (toy_hash i).
Definition toy_genesis : BlockIndex := mkBI (toy_header 0 1) (toy_hash 1) None None 0 0 8 0 2 1 1 (3 .| BlockHaveData) 1 100.
Definition toy_chain : Chain :=
  mkChain {[1%nat := toy_genesis]} [Some 1%nat] [1%nat] ∅ {[toy_hash 1 := 1%nat]} 2 (Some 1%nat) (Some 1%nat) false.
Definition toy_sha (l : bytes) : bytes := take 32 (l ++ HashZero).

Lemma tree_empty : tree_ok ∅.
Proof. split; intros p b; [|intros q| |intros s]; intros Hl; by rw lookup_empty in Hl. Qed.
Lemma toy_chain_ok : chain_ok toy_chain.
Proof.
  assert (tree_ok (c_heap toy_chain)) as Ht by (by apply (tree_insert ∅ 1 toy_genesis tree_empty)).
  split; [done| |].
  - exists toy_genesis. split; [done|]. split; [done|]. intros k Hk. assert (k = 0%nat) as -> by (cbn in Hk; lia). done.
  - split; [intros hash r; cbn; rw lookup_singleton_Some; intros [_ <-]; by eexists|intros r [= <-]; by eexists].
Qed.

(** ** Adding a header *)
(** C32. Adding a header to the block tree links it under its parent with the height,
    the work and the latest time that follow from the parent's, keeps the best header,
    and keeps the chain's invariant: parents lie one below their children and skip
    pointers lead to ancestors, so that GetAncestor, which follows skip pointers,
    ends and returns what following the parents one by one returns. *)
Theorem AddToIndexMap_block_tree {E} Sha256 c q hdr : let hash := (Header_GetHash Sha256 hdr).1 in
  chain_ok c -> c_heap c !! q = None -> 0 <= Time hdr -> HashPrevBlock hdr <> hash ->
  (forall pre pb, indexMap c !! HashPrevBlock hdr = Some pre -> c_heap c !! pre = Some pb -> bi_Height pb + 1 < 2 ^ 31) ->
  exists c' b, AddToIndexMap (E := E) Sha256 (with_heap c (<[q := NewBlockIndex hdr]> (c_heap c))) q = Ok c' /\
    chain_ok c' /\ c_heap c' = <[q := b]> (c_heap c) /\ linked Sha256 (c_heap c) (indexMap c !! HashPrevBlock hdr) hdr b /\
    FindBlockIndex c' hash = Some q /\ active c' = active c /\
    (exists best, pindexBestHeader c' = Some best /\
       work_of (c_heap c') best = Z.max (bi_ChainWork b) (from_option (work_of (c_heap c)) (bi_ChainWork b) (pindexBestHeader c))) /\
    forall r rb height, c_heap c' !! r = Some rb ->
      GetAncestor (E := E) (c_heap c') r height =
        Ok (if (0 <=? height) && (height <=? bi_Height rb) then walk (c_heap c') r (Z.to_nat (bi_Height rb - height)) else None).
Proof.
  intros hash Hc Hq Htime Hhash Hh. pose proof Hc as [Ht Hp [Hi Hb]].
  destruct (AddToIndexMap_ok (E := E) Sha256 (c_heap c) (with_heap c (<[q := NewBlockIndex hdr]> (c_heap c))) q hdr (NewBlockIndex hdr) None) as (b & best & Hadd & Hl & Ht' & Hbest & r & Hr & Hw);
    [done|done|done|apply fresh_index_new|by left|by split|done|done|done|].
  eexists _, b. split; [exact Hadd|]. cbn in *. split; [by apply chain_ok_add|]. split; [done|]. split; [done|].
  split; [apply lookup_insert_eq|]. split; [done|]. split; [by exists r|]. intros. by apply GetAncestor_walk.
Qed.
Lemma AddToIndexMap_block_tree_witness :
  exists c' b, AddToIndexMap (E := unit) toy_sha (with_heap toy_chain (<[2%nat := NewBlockIndex (toy_header 1 2)]> (c_heap toy_chain))) 2 = Ok c' /\
    c_heap c' = <[2%nat := b]> (c_heap toy_chain) /\ bi_Height b = 1 /\ GetAncestor (E := unit) (c_heap c') 2 0 = Ok (Some 1%nat).
Proof.
  destruct (AddToIndexMap_block_tree (E := unit) toy_sha toy_chain 2 (toy_header 1 2)) as (c' & b & Hadd & Hok & Hheap & Hl & _ & _ & _ & Hanc).
  - exact toy_chain_ok.
  - reflexivity.
  - vm_compute. discriminate.
  - vm_compute. discriminate.
  - intros pre pb Hpre. assert (pre = 1%nat) as -> by (assert (indexMap toy_chain !! toy_hash 1 = Some 1%nat) as E by reflexivity; by rw E in Hpre; injection Hpre).
    intros Hpb. assert (pb = toy_genesis) as -> by (assert (c_heap toy_chain !! 1%nat = Some toy_genesis) as E by reflexivity; rw E in Hpb; by injection Hpb). reflexivity.
  - exists c', b. split; [exact Hadd|]. split; [exact Hheap|]. destruct Hl as (Hpb & Hht & _). split; [exact Hht|].
    assert (bi_Height b = 1) as Hh by exact Hht. assert (bi_Prev b = Some 1%nat) as Hp by exact Hpb.
    rw (Hanc 2%nat b 0); [|by rw Hheap]. rw Hh Hheap. change (Z.to_nat (1 - 0)) with 1%nat. cbn [walk]. rw lookup_insert_eq. cbn [mbind option_bind]. by rw Hp.
Defined.

(** ** Switching the tip *)
Lemma path_length h l q b : path_to h l (Some q) -> h !! q = Some b -> Z.of_nat (length l) = Z.max 0 (bi_Height b) + 1.
Proof. intros (b' & Hb & Hlen & _) Hq. rw Hq in Hb. injection Hb as <-. lia. Qed.

(** SetTip makes the active chain the path from the first block to the new tip,
    whatever chain was active before: the block of the active chain at a height is
    the ancestor of the tip at that height.  FindFork ends and returns the last
    common block of a branch and the active chain, or nothing when there is none. *)
Theorem SetTip_FindFork {E} now minWork c q : chain_ok c -> is_Some (c_heap c !! q) ->
  exists c', SetTip (E := E) now minWork c (Some q) = Ok c' /\ chain_ok c' /\ c_heap c' = c_heap c /\ tip c' = Some q /\
    (forall height, GetAncestor (E := E) (c_heap c) q height = Ok (Chain_GetAncestor c' height)) /\
    forall r rb, c_heap c !! r = Some rb -> exists f, FindFork (E := E) c' (Some r) = Ok f /\ fork_of c' r f.
Proof.
  intros Hc [b Hb]. destruct (SetTip_ok (E := E) now minWork c (Some q) Hc) as (l & cur & Hset & Hpath); [intros r [= <-]; by eexists|].
  eexists. split; [exact Hset|]. cbn. assert (chain_ok (mkChain (c_heap c) l (branch c) (orphan c) (indexMap c) (receiveID c) (pindexBestHeader c) (Some q) cur)) as Hc'.
  { destruct Hc as [Ht _ [Hi Hbe]]. by split. }
  split; [done|]. split; [done|]. split; [done|]. split; [|intros r rb Hr; by apply (FindFork_ok _ Hc' r rb)].
  intros height. rw (GetAncestor_walk _ (co_tree c Hc) q b height Hb). f_equal. unfold Chain_GetAncestor. cbn.
  pose proof (path_length _ _ _ _ Hpath Hb) as Hlen. pose proof (tr_height _ (co_tree c Hc) q b Hb).
  destruct (Z.ltb_spec height 0), (Z.leb_spec 0 height), (Z.leb_spec height (bi_Height b)), (Z.ltb_spec height (Z.of_nat (length l))); cbn [andb]; try lia; try done.
  destruct Hpath as (b' & Hb' & _ & Hl). rw Hb in Hb'. injection Hb' as <-. rw Hl; last lia. cbn. f_equal. lia.
Qed.

(** Two children of the first block. *)
Definition toy_child (i : Z) : BlockIndex := mkBI (toy_header 1 i) (toy_hash i) (Some 1%nat) (Some 1%nat) 1 0 8 0 4 1 2 (3 .| BlockHaveData) 2 (100 * i).
Definition toy_fork : Chain :=
  mkChain (<[3%nat := toy_child 3]> (<[2%nat := toy_child 2]> {[1%nat := toy_genesis]})) [Some 1%nat; Some 2%nat] [2%nat] {[toy_hash 1 := [3%nat]]}
    (<[toy_hash 2 := 2%nat]> {[toy_hash 1 := 1%nat]}) 2 (Some 2%nat) (Some 2%nat) false.
Lemma toy_fork_ok : chain_ok toy_fork.
Proof.
  assert (tree_ok {[1%nat := toy_genesis]}) as H1 by apply (co_tree _ toy_chain_ok).
  assert (forall h i, tree_ok h -> h !! 1%nat = Some toy_genesis -> h !! (Z.to_nat i) = None -> tree_ok (<[Z.to_nat i := toy_child i]> h)) as Hchild.
  { intros h i Ht Hg Hi. assert (tree_ok (<[Z.to_nat i := set_Skip None (toy_child i)]> h)) as Hs.
    { apply tree_insert; [done..|]. intros pre [= <-]. by exists toy_genesis. }
    rw -(insert_insert_eq h (Z.to_nat i) (toy_child i) (set_Skip None (toy_child i))).
    eapply tree_update; [exact Hs|apply lookup_insert_eq|done|done|]. intros s [= <-]. cbn [bi_Height set_Skip toy_child].
    change (Z.to_nat (1 - getSkipHeight 1)) with 1%nat. cbn [walk]. by rw lookup_insert_eq. }
  split.
  - apply (Hchild _ 3); [apply (Hchild _ 2)| |]; done.
  - exists (toy_child 2). split; [done|]. split; [done|]. intros k Hk. assert (k = 0 \/ k = 1)%nat as [-> | ->] by (cbn in Hk; lia); done.
  - split; cbn; [|intros r [= <-]; by eexists]. intros hash r. destruct (decide (toy_hash 2 = hash)) as [<-|]; [rw lookup_insert_eq; intros [= <-]; by eexists|].
    rw lookup_insert_ne // lookup_singleton_Some. intros [_ <-]. by eexists.
Qed.
Lemma SetTip_FindFork_witness :
  exists c', SetTip (E := unit) 0 0 toy_fork (Some 3%nat) = Ok c' /\ Chain_GetAncestor c' 1 = Some 3%nat /\
    exists f, FindFork (E := unit) c' (Some 2%nat) = Ok f /\ fork_of c' 2 f.
Proof.
  destruct (SetTip_FindFork (E := unit) 0 0 toy_fork 3) as (c' & Hset & _ & _ & _ & Hanc & Hfork).
  - exact toy_fork_ok.
  - by eexists.
  - exists c'. split; [exact Hset|]. split; [|by apply (Hfork 2%nat (toy_child 2))].
    specialize (Hanc 1). assert (GetAncestor (E := unit) (c_heap toy_fork) 3 1 = Ok (Some 3%nat)) as Hg by reflexivity. rw Hg in Hanc. by injection Hanc.
Defined.

(** ** The candidates *)
Lemma remove_first_sublist Sha256 h hash l : sublist (remove_first Sha256 h hash l) l.
Proof. induction l as [|x l IH]; cbn; [done|]. case_decide; [by constructor|by constructor]. Qed.
Lemma by_work_sublist h l k : sublist l k -> by_work h k -> by_work h l.
Proof.
  induction 1 as [|x l k Hl IH|x l k Hl IH]; intros Hs; [done| |]; apply StronglySorted_inv in Hs as [Hk Hx]; [|by apply IH].
  constructor; [by apply IH|]. apply Forall_forall. rw Forall_forall in Hx. intros y Hy. apply Hx. by apply (sublist_subseteq l k Hl).
Qed.

(** AddToBranch ends, adds the block and every block with data that waited for it,
    directly or through others, and nothing else, to the candidates, and keeps them
    sorted by work; so does RemoveFromBranch.  FindMostWorkChain therefore returns a
    candidate that no other candidate exceeds in work. *)
Theorem AddToBranch_candidates {E} Sha256 p c q : tree_ok (c_heap c) -> by_work (c_heap c) (branch c) -> connectable Sha256 p c q ->
  (forall k l y, orphan c !! k = Some l -> y ∈ l -> connectable Sha256 p c y) ->
  exists c', AddToBranch (E := E) Sha256 p c q = Ok (Some c') /\ tree_ok (c_heap c') /\
    by_work (c_heap c') (branch c') /\ branch c ⊆+ branch c' /\
    (forall y, y ∈ branch c' -> y ∈ branch c \/ eligible Sha256 c q y) /\
    (forall y, eligible Sha256 c q y -> InBranch Sha256 c' y = true) /\
    (forall r, by_work (c_heap c') (branch (RemoveFromBranch Sha256 c' r))) /\
    exists m, FindMostWorkChain c' = Some m /\ forall y, y ∈ branch c' -> work_of (c_heap c') y <= work_of (c_heap c') m.
Proof.
  intros Ht Hs Hq Hw. destruct (AddToBranch_ok (E := E) Sha256 p c q Ht Hs Hq Hw) as (c' & Hadd & Hcore & Hsort & Hsub & Hbr & Hel & _).
  exists c'. split; [done|]. split; [by rw -Hcore|]. do 4 (split; [done|]).
  split; [intros r; cbn; by eapply by_work_sublist; [apply remove_first_sublist|]|].
  unfold FindMostWorkChain. destruct (last (branch c')) as [m|] eqn:El; [exists m; split; [done|]; by apply by_work_last|].
  apply last_None in El. pose proof (Hel q (eligible_self _ _ _)) as Hi. unfold InBranch in Hi. by rw El in Hi.
Qed.
(** Block 3 waits for block 1. *)
Lemma AddToBranch_candidates_witness :
  exists c' m, AddToBranch (E := unit) toy_sha (Build_ForkParams (Build_NetParams 0 0 0 210000) 0 0 0 0 0 0 0 (toy_hash 1) []) toy_fork 1 = Ok (Some c') /\
    InBranch toy_sha c' 3 = true /\ FindMostWorkChain c' = Some m.
Proof.
  set (p := Build_ForkParams _ _ _ _ _ _ _ _ _ _).
  destruct (AddToBranch_candidates (E := unit) toy_sha p toy_fork 1) as (c' & Hadd & _ & _ & _ & _ & Hel & _ & m & Hm & _).
  - apply (co_tree _ toy_fork_ok).
  - repeat constructor.
  - exists toy_genesis. split; [reflexivity|]. intros Hg. vm_compute in Hg. discriminate Hg.
  - intros k l y Hk Hy. change (orphan toy_fork) with ({[toy_hash 1 := [3%nat]]} : gmap bytes (list nat)) in Hk. apply lookup_singleton_Some in Hk as [_ <-]. apply list_elem_of_singleton in Hy as ->.
    exists (toy_child 3). split; [reflexivity|]. intros _. by eexists.
  - exists c', m. split; [exact Hadd|]. split; [|exact Hm]. apply Hel. eapply eligible_child; [apply eligible_self|]. vm_compute. constructor.
Defined.

(** ** After a restart *)
(** loadBlockIndex lists the candidates by height, not by work: of a short heavy branch
    and a long light one it puts the light one last, where FindMostWorkChain looks. *)
Definition stored (prev i bits height : Z) : BlockIndex :=
  mkBI (mkHeader 1 (toy_hash prev) HashZero (100 * i) bits 0 (toy_hash i)) (toy_hash i) (if prev =? 0 then None else Some (Z.to_nat prev)) None
    height 0 8 0 0 1 0 (3 .| BlockHaveData) 0 0.
Definition stored_heap : bheap :=
  list_to_map [(1%nat, stored 0 1 0x207fffff 0); (2%nat, stored 1 2 0x1d00ffff 1); (3%nat, stored 1 3 0x207fffff 1); (4%nat, stored 3 4 0x207fffff 2)].
Definition stored_map : gmap bytes nat := list_to_map [(toy_hash 1, 1%nat); (toy_hash 2, 2%nat); (toy_hash 3, 3%nat); (toy_hash 4, 4%nat)].
Example loadBlockIndex_by_height :
  match loadBlockIndex (E := unit) 0 0 (with_heap NewChain stored_heap) stored_map [4; 3; 2; 1]%nat (Some (toy_hash 1)) with
  | Ok c => bool_decide (branch c = [1; 3; 2; 4]%nat) && bool_decide (FindMostWorkChain c = Some 4%nat) && (work_of (c_heap c) 4 <? work_of (c_heap c) 2)
  | _ => false
  end = true.
Proof. vm_compute. reflexivity. Qed.
