(* ===== verification/VersionBits.v ===== *)
(** * Version bits (model/versionbits/versionbits.go)

    The state of a soft-fork deployment, computed period by period and cached.  The
    checker interface is a class; the cache maps block indexes, nil included, to states. *)
From S2P Require Import Prelude Errors Wire ScriptNum Opcodes Script ScriptFacts Tx TxFacts Block BlockIndex.

Inductive ThresholdState :=
| ThresholdDefined | ThresholdStarted | ThresholdLockedIn | ThresholdActive | ThresholdFailed.
#[export] Instance ThresholdState_eq_dec : EqDecision ThresholdState.
Proof. solve_decision. Defined.
Abbreviation ThresholdConditionCache := (gmap (option nat) ThresholdState).

(** The network parameters are fixed for an instance. *)
Class AbstractThresholdConditionChecker := {
  Condition : BlockIndex -> bool;
  BeginTime : Z;
  EndTime : Z;
  Period : Z;
  Threshold : Z }.

(** ** The checker of a deployment *)
Definition VersionBitsTopBits : Z := 0x20000000.
Definition VersionBitsTopMask : Z := 0xE0000000.
Record BIP9Deployment := { Bit : Z; StartTime : Z; Timeout : Z }.
Record VersionBitsParams := {
  Deployments : list BIP9Deployment;
  MinerConfirmationWindow : Z;
  RuleChangeActivationThreshold : Z }.
Definition Mask (d : BIP9Deployment) : Z := i32 (1 .<< Bit d).
Definition VersionBitsMask (d : BIP9Deployment) : Z := u32 (Mask d).
Definition VersionBitsConditionChecker (params : VersionBitsParams) (d : BIP9Deployment) : AbstractThresholdConditionChecker := {|
  Condition index := (Version (bi_Header index) .& VersionBitsTopMask =? VersionBitsTopBits) &&
                     negb (Version (bi_Header index) .& Mask d =? 0);
  BeginTime := StartTime d;
  EndTime := Timeout d;
  Period := i64 (MinerConfirmationWindow params);
  Threshold := i64 (RuleChangeActivationThreshold params) |}.
Definition ComputeBlockVersion : Z := VersionBitsTopBits.

(** ** GetStateFor *)
Section Checker.
Context {vc : AbstractThresholdConditionChecker}.

(** The remainder of int32 division has the sign of the dividend. *)
Definition period_start {E : Type} (b : BlockIndex) : res E Z :=
  if i32 Period =? 0 then Panic else Ok (i32 (bi_Height b - Z.rem (i32 (bi_Height b + 1)) (i32 Period))).

(** Back in steps of a period to an index that is cached or before the start time. *)
Fixpoint walk_back {E : Type} (fuel : nat) (h : bheap) (indexPrev : option nat) (toCompute : list nat) (cache : ThresholdConditionCache)
    : res E (option nat * list nat * ThresholdConditionCache) :=
  match cache !! indexPrev with
  | Some _ => Ok (indexPrev, toCompute, cache)
  | None =>
      match indexPrev with
      | None => Ok (indexPrev, toCompute, <[indexPrev := ThresholdDefined]> cache)
      | Some q =>
          t ← GetMedianTimePast h indexPrev;
          if t <? BeginTime then Ok (indexPrev, toCompute, <[indexPrev := ThresholdDefined]> cache)
          else match fuel with
               | O => Panic
               | S fuel =>
                   b ← bload h q;
                   next ← GetAncestor h q (i32 (bi_Height b - i32 Period));
                   walk_back fuel h next (toCompute ++ [q]) cache
               end
      end
  end.

(** The blocks of the period that ends in [indexCount] that signal. *)
Fixpoint count_votes {E : Type} (n : nat) (h : bheap) (indexCount : option nat) (count : Z) : res E Z :=
  match n with
  | O => Ok count
  | S n => match indexCount with
           | None => Panic
           | Some q => b ← bload h q; count_votes n h (bi_Prev b) (if Condition b then count + 1 else count)
           end
  end.

Definition next_state {E : Type} (h : bheap) (state : ThresholdState) (indexPrev : nat) : res E ThresholdState :=
  match state with
  | ThresholdDefined =>
      t ← GetMedianTimePast h (Some indexPrev);
      Ok (if EndTime <=? t then ThresholdFailed else if BeginTime <=? t then ThresholdStarted else state)
  | ThresholdStarted =>
      t ← GetMedianTimePast h (Some indexPrev);
      if EndTime <=? t then Ok ThresholdFailed
      else
        count ← count_votes (Z.to_nat Period) h (Some indexPrev) 0;
        Ok (if Threshold <=? count then ThresholdLockedIn else state)
  | ThresholdLockedIn => Ok ThresholdActive
  | ThresholdFailed | ThresholdActive => Ok state
  end.

(** [for n := 0; n < len(toCompute); n++], where the body shortens [toCompute]. *)
Fixpoint walk_forward {E : Type} (fuel : nat) (n : Z) (h : bheap) (toCompute : list nat) (state : ThresholdState) (cache : ThresholdConditionCache)
    : res E (ThresholdState * ThresholdConditionCache) :=
  if n <? Z.of_nat (length toCompute) then
    match fuel, last toCompute with
    | S fuel, Some indexPrev =>
        state ← next_state h state indexPrev;
        walk_forward fuel (n + 1) h (removelast toCompute) state (<[Some indexPrev := state]> cache)
    | _, _ => Panic
    end
  else Ok (state, cache).

Definition GetStateFor {E : Type} (h : bheap) (indexPrev : option nat) (cache : ThresholdConditionCache) : res E (ThresholdState * ThresholdConditionCache) :=
  indexPrev ← match indexPrev with
              | None => Ok None
              | Some q => b ← bload h q; at_height ← period_start b; GetAncestor h q at_height
              end;
  let fuel := match indexPrev with None => O | Some q => S (Z.to_nat (from_option bi_Height 0 (h !! q))) end in
  '(indexPrev, toCompute, cache) ← walk_back fuel h indexPrev [] cache;
  match cache !! indexPrev with
  | None => Panic
  | Some state => walk_forward (length toCompute) 0 h toCompute state cache
  end.

(** ** GetStateSinceHeightFor *)
Fixpoint since_loop {E : Type} (fuel : nat) (h : bheap) (initialState : ThresholdState) (indexPrev : nat) (cache : ThresholdConditionCache)
    : res E (Z * ThresholdConditionCache) :=
  b ← bload h indexPrev;
  previousPeriodParent ← GetAncestor h indexPrev (i32 (bi_Height b - i32 Period));
  match previousPeriodParent with
  | None => Ok (bi_Height b + 1, cache)
  | Some q =>
      '(state, cache) ← GetStateFor h (Some q) cache;
      if decide (state = initialState) then
        match fuel with O => Panic | S fuel => since_loop fuel h initialState q cache end
      else Ok (bi_Height b + 1, cache)
  end.
Definition GetStateSinceHeightFor {E : Type} (h : bheap) (indexPrev : option nat) (cache : ThresholdConditionCache) : res E (Z * ThresholdConditionCache) :=
  '(initialState, cache) ← GetStateFor h indexPrev cache;
  if decide (initialState = ThresholdDefined) then Ok (0, cache)
  else
    q ← deref indexPrev;
    b ← bload h q;
    at_height ← period_start b;
    start ← GetAncestor h q at_height;
    q ← deref start;
    since_loop (S (Z.to_nat (bi_Height b))) h initialState q cache.
End Checker.

(** ** The caches of all deployments *)
Definition MaxVersionBitsDeployments : nat := 2.
Abbreviation VersionBitsCache := (list ThresholdConditionCache).
Definition NewVersionBitsCache : VersionBitsCache := replicate MaxVersionBitsDeployments ∅.
Definition VersionBitsCache_Clear (vbc : VersionBitsCache) : VersionBitsCache := replicate MaxVersionBitsDeployments ∅.
Definition VersionBitsState {E : Type} (h : bheap) (indexPrev : option nat) (params : VersionBitsParams) (pos : nat) (vbc : VersionBitsCache)
    : res E (ThresholdState * VersionBitsCache) :=
  d ← nth_go (Deployments params) (Z.of_nat pos);
  cache ← nth_go vbc (Z.of_nat pos);
  '(state, cache) ← GetStateFor (vc := VersionBitsConditionChecker params d) h indexPrev cache;
  Ok (state, <[pos := cache]> vbc).
Definition VersionBitsStateSinceHeight {E : Type} (h : bheap) (indexPrev : option nat) (params : VersionBitsParams) (pos : nat) (vbc : VersionBitsCache)
    : res E (Z * VersionBitsCache) :=
  d ← nth_go (Deployments params) (Z.of_nat pos);
  cache ← nth_go vbc (Z.of_nat pos);
  '(height, cache) ← GetStateSinceHeightFor (vc := VersionBitsConditionChecker params d) h indexPrev cache;
  Ok (height, <[pos := cache]> vbc).
