(* ===== verification/VersionBitsFacts.v ===== *)
(** * Version bits: the states of BIP 9 and what GetStateFor computes

    [bip9 k q] is the state after [k] periods that BIP 9 defines by recursion on the
    periods.  The cache only ever holds these states, and GetStateFor returns the
    state of a period between the last cached one and the one it is asked for. *)
From stdpp Require Import sorting.
From S2P Require Import Prelude Errors Wire ScriptNum Opcodes Script ScriptFacts Tx TxFacts Crypto Compress Coins Block Undo BlockIndex.
From S2P Require Import Stack Slice Interp Ltx Chain ChainFacts VersionBits.

(** ** Median time past *)
Fixpoint times (n : nat) (h : bheap) (q : option nat) : list Z :=
  match n, q with
  | S n, Some q => match h !! q with Some b => Time (bi_Header b) :: times n h (bi_Prev b) | None => [] end
  | _, _ => []
  end.
Definition mtp (h : bheap) (q : nat) : Z := let l := merge_sort Z.le (times medianTimeSpan h (Some q)) in nth (length l / 2) l 0.

Lemma past_times_ok {E} h n : tree_ok h -> forall q, (forall r, q = Some r -> is_Some (h !! r)) -> past_times (E := E) n h q = Ok (times n h q).
Proof.
  intros Ht. induction n as [|n IH]; intros [q|] Hq; try done. destruct (Hq q eq_refl) as [b Hb]. cbn. rw (bload_Some _ q b Hb). cbn [mbind res_bind]. rw Hb IH //.
  intros r Hr. destruct (tr_prev h Ht q b r Hb Hr) as (c & Hc & _). by eexists.
Qed.
Lemma GetMedianTimePast_ok {E} h q : tree_ok h -> is_Some (h !! q) -> GetMedianTimePast (E := E) h (Some q) = Ok (mtp h q).
Proof.
  intros Ht Hq. unfold GetMedianTimePast, mtp. rw past_times_ok //; last by intros r [= <-]. cbn [mbind res_bind]. set (l := merge_sort Z.le _).
  assert (0 < length l)%nat as Hl.
  { unfold l. rw merge_sort_Permutation. destruct Hq as [b Hb]. cbn. rw Hb. cbn. lia. }
  assert (length l / 2 < length l)%nat as Hi by (apply Nat.div_lt; lia).
  unfold nth_go. replace (Z.of_nat (length l / 2) <? 0) with false by lia. rw Nat2Z.id. destruct (lookup_lt_is_Some_2 l _ Hi) as [x Hx].
  rw Hx. f_equal. symmetry. by apply nth_lookup_Some.
Qed.

(** ** BIP 9 *)
Section Facts.
Context {vc : AbstractThresholdConditionChecker} (h : bheap) (Ht : tree_ok h).
Context (HP : 0 < Period < 2 ^ 31).

Fixpoint votes (n : nat) (q : option nat) : Z :=
  match n, q with
  | S n, Some q => match h !! q with Some b => (if Condition b then 1 else 0) + votes n (bi_Prev b) | None => 0 end
  | _, _ => 0
  end.
Definition bip9_next (state : ThresholdState) (q : nat) : ThresholdState :=
  match state with
  | ThresholdDefined => if EndTime <=? mtp h q then ThresholdFailed else if BeginTime <=? mtp h q then ThresholdStarted else ThresholdDefined
  | ThresholdStarted => if EndTime <=? mtp h q then ThresholdFailed
                        else if Threshold <=? votes (Z.to_nat Period) (Some q) then ThresholdLockedIn else ThresholdStarted
  | ThresholdLockedIn => ThresholdActive
  | ThresholdFailed | ThresholdActive => state
  end.
Fixpoint bip9 (k : nat) (q : option nat) : ThresholdState :=
  match k, q with
  | S k, Some q => bip9_next (bip9 k (walk h q (Z.to_nat Period))) q
  | _, _ => ThresholdDefined
  end.

(** The last block of period [k]; nothing comes before the first. *)
Definition ends_period (k : nat) (q : option nat) : Prop :=
  match q with None => k = 0%nat | Some q => exists b, h !! q = Some b /\ bi_Height b + 1 = Z.of_nat k * Period end.

Lemma walk_none n : forall q b, h !! q = Some b -> bi_Height b < Z.of_nat n -> walk h q n = None.
Proof.
  induction n as [|n IH]; intros q b Hq Hn; pose proof (tr_height h Ht q b Hq); [lia|]. cbn. rw Hq. cbn.
  destruct (bi_Prev b) as [r|] eqn:Er; [|done]. cbn. destruct (tr_prev h Ht q b r Hq Er) as (c & Hc & Hh). apply (IH r c Hc). lia.
Qed.
Lemma period_back {E} q b : h !! q = Some b -> GetAncestor (E := E) h q (i32 (bi_Height b - i32 Period)) = Ok (walk h q (Z.to_nat Period)).
Proof.
  intros Hq. pose proof (tr_height h Ht q b Hq). rw (i32_id Period); last int_lia. rw i32_id; last int_lia. rw (GetAncestor_walk h Ht q b _ Hq). f_equal.
  destruct (Z.leb_spec 0 (bi_Height b - Period)) as [H0|H0]; cbn [andb].
  - replace (bi_Height b - Period <=? bi_Height b) with true by lia. f_equal. lia.
  - symmetry. apply (walk_none _ q b Hq). lia.
Qed.
Lemma ends_period_back k q : ends_period (S k) (Some q) -> ends_period k (walk h q (Z.to_nat Period)).
Proof.
  intros (b & Hq & Hk). pose proof (tr_height h Ht q b Hq). destruct k as [|k].
  - rw (walk_none _ q b Hq); [done|lia].
  - destruct (walk_height h Ht (Z.to_nat Period) q b Hq ltac:(nia)) as (r & c & -> & Hc & Hh). exists c. split; [done|lia].
Qed.
Lemma ends_period_0 q : ~ ends_period 0 (Some q).
Proof. intros (b & Hq & Hk). pose proof (tr_height h Ht q b Hq). lia. Qed.

Lemma count_votes_ok {E} n : forall q b count, h !! q = Some b -> Z.of_nat n <= bi_Height b + 1 ->
  count_votes (E := E) n h (Some q) count = Ok (count + votes n (Some q)).
Proof.
  induction n as [|n IH]; intros q b count Hq Hn; [cbn; f_equal; lia|]. cbn. rw (bload_Some _ q b Hq) Hq. cbn [mbind res_bind].
  destruct (bi_Prev b) as [r|] eqn:Er.
  - destruct (tr_prev h Ht q b r Hq Er) as (c & Hc & Hh). rw (IH r c _ Hc); last lia. f_equal. destruct (Condition b); lia.
  - pose proof (tr_root h Ht q b Hq Er). assert (n = 0%nat) as -> by lia. cbn. f_equal. destruct (Condition b); lia.
Qed.
Lemma next_state_ok {E} k st q : ends_period (S k) (Some q) -> next_state (E := E) h st q = Ok (bip9_next st q).
Proof.
  intros (b & Hq & Hk). unfold next_state, bip9_next. rw (GetMedianTimePast_ok h q Ht (mk_is_Some _ _ Hq)).
  destruct st; cbn [mbind res_bind]; try done. destruct (EndTime <=? mtp h q); [done|].
  rw (count_votes_ok _ q b 0 Hq); last nia. done.
Qed.

(** Before the start time a deployment is defined, since the median time does not
    decrease along a branch. *)
Context (Hmono : forall q b r, h !! q = Some b -> bi_Prev b = Some r -> mtp h r <= mtp h q).
Context (Hends : BeginTime <= EndTime).
Lemma mtp_walk n : forall q r, walk h q n = Some r -> mtp h r <= mtp h q.
Proof.
  induction n as [|n IH]; intros q r Hw; [injection Hw as <-; lia|]. cbn in Hw. destruct (h !! q) as [b|] eqn:Hq; [|done]. cbn in Hw.
  destruct (bi_Prev b) as [s|] eqn:Es; [|done]. cbn in Hw. pose proof (Hmono q b s Hq Es). specialize (IH s r Hw). lia.
Qed.
Lemma bip9_early k : forall q, ends_period k (Some q) -> mtp h q < BeginTime -> bip9 k (Some q) = ThresholdDefined.
Proof.
  induction k as [|k IH]; intros q Hk Hq; [done|]. cbn. apply ends_period_back in Hk.
  assert (bip9 k (walk h q (Z.to_nat Period)) = ThresholdDefined) as ->.
  { destruct (walk h q (Z.to_nat Period)) as [r|] eqn:Er; [|by destruct k]. apply IH; [done|]. pose proof (mtp_walk _ q r Er). lia. }
  cbn. replace (EndTime <=? mtp h q) with false by lia. by replace (BeginTime <=? mtp h q) with false by lia.
Qed.

(** ** The cache *)
Definition vb_cache_ok (cache : ThresholdConditionCache) : Prop :=
  forall k q st, ends_period k q -> cache !! q = Some st -> st = bip9 k q.
Lemma cache_insert k q st cache : ends_period k q -> st = bip9 k q -> vb_cache_ok cache -> vb_cache_ok (<[q := st]> cache).
Proof.
  intros Hk Hst Hc k' q' st' Hk'. destruct (decide (q = q')) as [<-|Hne]; [|rw lookup_insert_ne //; by apply Hc].
  rw lookup_insert_eq. intros [= <-]. assert (k = k') as <-; [|done]. destruct q as [q|]; cbn in *; [|congruence].
  destruct Hk as (b & Hb & Hk), Hk' as (b' & Hb' & Hk'). rw Hb in Hb'. injection Hb' as <-. nia.
Qed.

(** [n] periods back from [q], and the last blocks of these periods. *)
Fixpoint back (n : nat) (q : option nat) : option nat :=
  match n, q with O, _ => q | S n, Some q => back n (walk h q (Z.to_nat Period)) | S _, None => None end.
Fixpoint bounds (n : nat) (q : option nat) : list nat :=
  match n, q with S n, Some q => q :: bounds n (walk h q (Z.to_nat Period)) | _, _ => [] end.
(** [n] is the number of periods back from [q] that must be computed. *)
Definition to_compute (cache : ThresholdConditionCache) (q : option nat) (n : nat) : Prop :=
  Forall (fun r => cache !! Some r = None /\ BeginTime <= mtp h r) (bounds n q) /\
  (is_Some (cache !! back n q) \/ match back n q with None => True | Some r => mtp h r < BeginTime end).

Lemma back_period n : forall k q, ends_period (n + k) q -> ends_period k (back n q).
Proof.
  induction n as [|n IH]; intros k q Hq; [done|]. cbn. destruct q as [q|]; [|done]. apply IH. by apply ends_period_back.
Qed.
Lemma bounds_snoc n : forall k q, ends_period (n + S k) q -> exists r, back n q = Some r /\ bounds (S n) q = bounds n q ++ [r].
Proof.
  induction n as [|n IH]; intros k q Hq; (destruct q as [q|]; [|done]); [by exists q|].
  destruct (IH k (walk h q (Z.to_nat Period)) (ends_period_back _ q Hq)) as (r & Hr & Hb). exists r. split; [done|].
  change (q :: bounds (S n) (walk h q (Z.to_nat Period)) = (q :: bounds n (walk h q (Z.to_nat Period))) ++ [r]). by rw Hb.
Qed.
Lemma length_bounds n : forall k q, ends_period (n + k) q -> length (bounds n q) = n.
Proof.
  induction n as [|n IH]; intros k q Hq; [done|]. destruct q as [q|]; [|done]. cbn. f_equal. apply (IH k). by apply ends_period_back.
Qed.
Lemma bip9_back n k q r : ends_period (n + S k) q -> back n q = Some r -> back (S n) q = walk h r (Z.to_nat Period).
Proof.
  revert k q. induction n as [|n IH]; intros k q Hq Hb; [cbn in Hb; subst; done|]. destruct q as [q|]; [|done].
  apply (IH k (walk h q (Z.to_nat Period))); [by apply ends_period_back|done].
Qed.

Definition stops (cache : ThresholdConditionCache) (q : option nat) : Prop :=
  is_Some (cache !! q) \/ match q with None => True | Some r => mtp h r < BeginTime end.
#[local] Instance stops_dec cache q : Decision (stops cache q).
Proof. unfold stops. destruct q; apply _. Defined.
Lemma walk_back_stop {E} k q tc cache : ends_period k q -> vb_cache_ok cache -> stops cache q ->
  exists cache', (forall fuel, walk_back (E := E) fuel h q tc cache = Ok (q, tc, cache')) /\ vb_cache_ok cache' /\ cache' !! q = Some (bip9 k q).
Proof.
  intros Hk Hc Hs. destruct (cache !! q) as [st|] eqn:Eq.
  - exists cache. split; [intros fuel; destruct fuel; cbn [walk_back]; by rw Eq|]. split; [done|]. rw Eq. f_equal. by apply (Hc k q).
  - destruct Hs as [Hs|Hs]; [rw Eq in Hs; by destruct Hs|]. exists (<[q := ThresholdDefined]> cache). assert (ThresholdDefined = bip9 k q) as Hd.
    { destruct q as [q|]; [by rw bip9_early|by destruct k]. }
    split; [|split; [by apply (cache_insert k)|by rw lookup_insert_eq -Hd]].
    destruct q as [q|]; [|intros fuel; destruct fuel; cbn [walk_back]; by rw Eq]. destruct Hk as (b & Hb & _).
    intros fuel. destruct fuel; cbn [walk_back]; rw Eq (GetMedianTimePast_ok h q Ht (mk_is_Some _ _ Hb)); cbn [mbind res_bind]; by replace (mtp h q <? BeginTime) with true by lia.
Qed.
Lemma walk_back_ok {E} fuel : forall k q tc cache, ends_period k q -> (k <= fuel)%nat -> vb_cache_ok cache ->
  exists n cache', (n <= k)%nat /\ to_compute cache q n /\
    walk_back (E := E) fuel h q tc cache = Ok (back n q, tc ++ bounds n q, cache') /\
    vb_cache_ok cache' /\ cache' !! back n q = Some (bip9 (k - n) (back n q)).
Proof.
  induction fuel as [|fuel IH]; intros k q tc cache Hk Hf Hc; (destruct (decide (stops cache q)) as [Hs|Hs];
    [destruct (walk_back_stop (E := E) k q tc cache Hk Hc Hs) as (cache' & Hw & Hc' & Hl); exists 0%nat, cache'; cbn [back bounds]; rw app_nil_r Nat.sub_0_r Hw;
     split; [lia|]; split; [by split|done]|]);
    (destruct q as [q|]; [|exfalso; apply Hs; by right]); (destruct k as [|k]; [by apply ends_period_0 in Hk|]); [lia|].
  assert (cache !! Some q = None /\ BeginTime <= mtp h q) as [Hn Hb].
  { split; [apply eq_None_not_Some; intros ?; apply Hs; by left|]. destruct (Z.le_gt_cases BeginTime (mtp h q)); [done|]. exfalso. apply Hs. by right. }
  pose proof Hk as (b & Hq & _). destruct (IH k (walk h q (Z.to_nat Period)) (tc ++ [q]) cache) as (n & cache' & Hnk & [Hall Hstop] & Hw & Hc' & Hl);
    [by apply ends_period_back|lia|done|].
  exists (S n), cache'. split; [lia|]. split; [split; [by constructor|done]|]. split; [|done].
  cbn [walk_back]. rw Hn (GetMedianTimePast_ok h q Ht (mk_is_Some _ _ Hq)). cbn [mbind res_bind]. replace (mtp h q <? BeginTime) with false by lia.
  rw (bload_Some _ q b Hq). cbn [mbind res_bind]. rw (period_back q b Hq). cbn [mbind res_bind]. rw Hw. by rw -app_assoc.
Qed.

(** ** The loop forward *)
Lemma walk_forward_ok {E} q k : forall fuel n i cache, ends_period k q -> (n <= k)%nat -> (n - i <= 2 * fuel)%nat -> vb_cache_ok cache ->
  let c := ((n - i + 1) / 2)%nat in
  exists cache', walk_forward (E := E) fuel (Z.of_nat i) h (bounds n q) (bip9 (k - n) (back n q)) cache =
    Ok (bip9 (k - n + c) (back (n - c) q), cache') /\ vb_cache_ok cache'.
Proof.
  induction fuel as [|fuel IH]; intros n i cache Hk Hn Hf Hc; cbv zeta.
  - exists cache. split; [|done]. cbn [walk_forward]. rw (length_bounds n (k - n)); last by (replace (n + (k - n))%nat with k by lia).
    replace (n - i)%nat with 0%nat by lia. replace (Z.of_nat i <? Z.of_nat n) with false by lia. change ((0 + 1) / 2)%nat with 0%nat. by rw Nat.add_0_r Nat.sub_0_r.
  - cbn [walk_forward]. rw (length_bounds n (k - n)); last by (replace (n + (k - n))%nat with k by lia).
    destruct (Z.ltb_spec (Z.of_nat i) (Z.of_nat n)) as [Hlt|Hge].
    2: { exists cache. split; [|done]. replace (n - i)%nat with 0%nat by lia. change ((0 + 1) / 2)%nat with 0%nat. by rw Nat.add_0_r Nat.sub_0_r. }
    destruct n as [|n]; [lia|]. assert (ends_period (n + S (k - S n)) q) as Hkn by (replace (n + S (k - S n))%nat with k by lia; done).
    destruct (bounds_snoc n (k - S n) q Hkn) as (r & Hr & Hb). pose proof (bip9_back n (k - S n) q r Hkn Hr) as Hbk. rw Hb last_snoc removelast_last.
    assert (ends_period (S (k - S n)) (Some r)) as Hper by (rw -Hr; by apply back_period).
    rw (next_state_ok (k - S n) _ r Hper). cbn [mbind res_bind].
    assert (bip9_next (bip9 (k - S n) (back (S n) q)) r = bip9 (k - n) (back n q)) as ->.
    { rw Hbk Hr. replace (k - n)%nat with (S (k - S n)) by lia. done. }
    replace (Z.of_nat i + 1) with (Z.of_nat (S i)) by lia.
    destruct (IH n (S i) (<[Some r := bip9 (k - n) (back n q)]> cache)) as (cache' & -> & Hc'); [done|lia|lia| |].
    { apply (cache_insert (k - n)); [|by rw Hr|done]. replace (k - n)%nat with (S (k - S n)) by lia. done. }
    exists cache'. split; [|done]. assert ((S n - i + 1) / 2 = S ((n - S i + 1) / 2))%nat as ->.
    { destruct (decide (n = i)) as [->|]; [replace (S i - i + 1)%nat with 2%nat by lia; by replace (i - S i + 1)%nat with 1%nat by lia|].
      replace (S n - i + 1)%nat with ((n - S i + 1) + 1 * 2)%nat by lia. rw Nat.div_add; lia. }
    do 3 f_equal; lia.
Qed.
End Facts.
