(* ===== verification/Pow.v ===== *)
(** * Proof of work (model/pow/pow.go, model/pow/difficulty.go)

    The target a block must meet: the retargeting rule with the emergency adjustment,
    and the rule that adjusts on every block. *)
From stdpp Require Import sorting.
From S2P Require Import Prelude Errors Wire ScriptNum Opcodes Script ScriptFacts Tx TxFacts Crypto Compress Coins Block Undo BlockIndex.
From S2P Require Import Stack Slice Interp Ltx Chain.

(** Times are durations that count seconds. *)
Record PowParams := {
  pp_forks : ForkParams;
  PowLimit : Z;
  FPowAllowMinDifficultyBlocks : bool;
  FPowNoRetargeting : bool;
  TargetTimePerBlock : Z;
  TargetTimespan : Z }.

(** Division of math/big leaves a remainder that is not negative. *)
Definition big_Div (x y : Z) : Z := if 0 <? y then x / y else - (x / (- y)).

Section Pow.
Context (params : PowParams).

Definition DifficultyAdjustmentInterval {E : Type} : res E Z :=
  if TargetTimePerBlock params =? 0 then Panic else Ok (Z.quot (TargetTimespan params) (TargetTimePerBlock params)).
Definition GetBlockTime (b : BlockIndex) : Z := Time (bi_Header b).

Definition calculateNextWorkRequired (indexPrev : BlockIndex) (firstBlockTime : Z) : Z :=
  if FPowNoRetargeting params then Bits (bi_Header indexPrev)
  else
    let actualTimeSpan := u32 (GetBlockTime indexPrev - u32 firstBlockTime) in
    let low := u32 (Z.quot (TargetTimespan params) 4) in
    let actualTimeSpan := if actualTimeSpan <? low then low else actualTimeSpan in
    let high := u32 (i64 (TargetTimespan params * 4)) in
    let actualTimeSpan := if high <? actualTimeSpan then high else actualTimeSpan in
    let bnNew := CompactToBig (Bits (bi_Header indexPrev)) * actualTimeSpan in
    let bnNew := bnNew / TargetTimespan params in
    BigToCompact (if PowLimit params <? bnNew then PowLimit params else bnNew).

(** The median by time of a block and its two predecessors; fewer than three blocks
    below it are a panic. *)
Definition getSuitableBlock {E : Type} (h : bheap) (index : option nat) : res E BlockIndex :=
  p2 ← deref index; b2 ← bload h p2;
  if bi_Height b2 <? 3 then Panic
  else
    p1 ← deref (bi_Prev b2); b1 ← bload h p1;
    p0 ← deref (bi_Prev b1); b0 ← bload h p0;
    let '(b0, b2) := if GetBlockTime b2 <? GetBlockTime b0 then (b2, b0) else (b0, b2) in
    let '(b0, b1) := if GetBlockTime b1 <? GetBlockTime b0 then (b1, b0) else (b0, b1) in
    let '(b1, b2) := if GetBlockTime b2 <? GetBlockTime b1 then (b2, b1) else (b1, b2) in
    Ok b1.

Definition computeTarget {E : Type} (indexFirst indexLast : BlockIndex) : res E Z :=
  if bi_Height indexLast <=? bi_Height indexFirst then Panic
  else
    let work := (bi_ChainWork indexLast - bi_ChainWork indexFirst) * TargetTimePerBlock params in
    if GetBlockTime indexLast <=? GetBlockTime indexFirst then Panic
    else
      let actualTimeSpan := u32 (GetBlockTime indexLast - GetBlockTime indexFirst) in
      let actualTimeSpan :=
        if u32 (i64 (288 * TargetTimePerBlock params)) <? actualTimeSpan then u32 (i64 (288 * TargetTimePerBlock params))
        else if actualTimeSpan <? u32 (i64 (72 * TargetTimePerBlock params)) then u32 (72 * u32 (TargetTimePerBlock params))
        else actualTimeSpan in
      if actualTimeSpan =? 0 then Panic
      else
        let work := work / actualTimeSpan in
        if work =? 0 then Panic else Ok (big_Div oneLsh256 work - 1).

Definition getNextCashWorkRequired {E : Type} (h : bheap) (indexPrev : nat) (blHeader : BlockHeader) : res E Z :=
  b ← bload h indexPrev;
  if FPowAllowMinDifficultyBlocks params && (u32 (GetBlockTime b + u32 (i64 (2 * TargetTimePerBlock params))) <? Time blHeader)
  then Ok (BigToCompact (PowLimit params))
  else
    interval ← DifficultyAdjustmentInterval;
    if bi_Height b <? interval then Panic
    else
      indexLast ← getSuitableBlock h (Some indexPrev);
      first ← GetAncestor h indexPrev (i32 (bi_Height b - 144));
      indexFirst ← getSuitableBlock h first;
      nextTarget ← computeTarget indexFirst indexLast;
      Ok (BigToCompact (if PowLimit params <? nextTarget then PowLimit params else nextTarget)).

(** Back over the blocks of minimum difficulty. *)
Fixpoint last_nonspecial {E : Type} (fuel : nat) (h : bheap) (interval nProofOfWorkLimit : Z) (index : nat) : res E Z :=
  b ← bload h index;
  match bi_Prev b with
  | Some q =>
      if negb (Z.rem (bi_Height b) interval =? 0) && (Bits (bi_Header b) =? nProofOfWorkLimit) then
        match fuel with O => Panic | S fuel => last_nonspecial fuel h interval nProofOfWorkLimit q end
      else Ok (Bits (bi_Header b))
  | None => Ok (Bits (bi_Header b))
  end.

Definition getNextEDAWorkRequired {E : Type} (h : bheap) (indexPrev : nat) (pblock : BlockHeader) : res E Z :=
  b ← bload h indexPrev;
  let nHeight := i32 (bi_Height b + 1) in
  interval ← DifficultyAdjustmentInterval;
  if interval =? 0 then Panic
  else if Z.rem nHeight interval =? 0 then
    if nHeight <? interval then Panic
    else
      first ← GetAncestor h indexPrev (i32 (nHeight - i32 interval));
      p ← deref first;
      indexFirst ← bload h p;
      Ok (calculateNextWorkRequired b (GetBlockTime indexFirst))
  else
    let nProofOfWorkLimit := BigToCompact (PowLimit params) in
    if FPowAllowMinDifficultyBlocks params then
      if u32 (GetBlockTime b + u32 (2 * u32 (TargetTimePerBlock params))) <? Time pblock then Ok nProofOfWorkLimit
      else last_nonspecial (Z.to_nat (bi_Height b)) h interval nProofOfWorkLimit indexPrev
    else
      let bits := Bits (bi_Header b) in
      if bits =? nProofOfWorkLimit then Ok nProofOfWorkLimit
      else
        index6 ← GetAncestor h indexPrev (i32 (nHeight - 7));
        p6 ← deref index6;
        t ← GetMedianTimePast h (Some indexPrev);
        t6 ← GetMedianTimePast h (Some p6);
        if i64 (t - t6) <? 12 * 3600 then Ok bits
        else
          let nPow := CompactToBig bits in
          let nPow := nPow + nPow / 4 in
          Ok (BigToCompact (if PowLimit params <? nPow then PowLimit params else nPow)).

Definition GetNextWorkRequired {E : Type} (h : bheap) (indexPrev : option nat) (blHeader : BlockHeader) : res E Z :=
  match indexPrev with
  | None => Ok (BigToCompact (PowLimit params))
  | Some q =>
      b ← bload h q;
      if FPowNoRetargeting params then Ok (Bits (bi_Header b))
      else if IsDAAEnabled (pp_forks params) (bi_Height b) then getNextCashWorkRequired h q blHeader
      else getNextEDAWorkRequired h q blHeader
  end.

Definition CheckProofOfWork (hash : bytes) (bits : Z) : bool :=
  let target := CompactToBig bits in
  if (target <=? 0) || (PowLimit params <? target) || (target <? HashToBig hash) then false else true.

(** ** The time to redo a difference of work *)
Fixpoint words (n : nat) (x : Z) : list Z := match n with O => [] | S n => if x =? 0 then [] else u64 x :: words n (x .>> 64) end.
(** Only the low 32 bits of a word are looked at. *)
Fixpoint top_bit (bs : nat) (w : Z) : option nat :=
  match bs with O => None | S n => if Z.testbit w (Z.of_nat bs) then Some bs else top_bit n w end.
Fixpoint bits (w : list Z) (pos : nat) : Z :=
  match pos with
  | O => 0
  | S pos =>
      let x := default 0 (w !! pos) in
      if x =? 0 then bits w pos
      else match top_bit 31 x with Some bs => Z.of_nat (32 * pos + bs + 1) | None => Z.of_nat (32 * pos + 1) end
  end.
Definition GetBlockProofEquivalentTime {E : Type} (to from tip : BlockIndex) : res E Z :=
  let '(ret, sign) :=
    if bi_ChainWork from <? bi_ChainWork to then (bi_ChainWork to - bi_ChainWork from, 1) else (bi_ChainWork from - bi_ChainWork to, -1) in
  let ret := ret * TargetTimePerBlock params in
  if GetBlockProof tip =? 0 then Panic
  else
    let ret := ret / GetBlockProof tip in
    let w := words (S (Z.to_nat (Z.log2 (Z.abs ret) / 64))) (Z.abs ret) in
    if 63 <? bits w (length w) then Ok (sign * (2 ^ 63 - 1)) else Ok (i64 (sign * i64 ret)).
End Pow.
