(* ===== verification/PowFacts.v ===== *)
(** * Proof of work: compact targets and the next target *)
From stdpp Require Import sorting.
From S2P Require Import Prelude Errors Wire ScriptNum Opcodes Script ScriptFacts Tx TxFacts Crypto Compress Coins Block Undo BlockIndex.
From S2P Require Import Stack Slice Interp Ltx Chain ChainFacts VersionBits VersionBitsFacts Pow.

(** ** Compact targets *)
(** A compact target: the mantissa has at most 23 bits, at least 15 unless the exponent
    is at most 3, and the exponent is the number of bytes. *)
Lemma log2_bytes n : 0 < n -> 256 ^ (byte_len n - 1) <= n < 256 ^ byte_len n /\ 1 <= byte_len n.
Proof.
  intros Hn. unfold byte_len. rw Z.abs_eq; last lia. pose proof (Z.log2_spec n Hn) as [Hl Hu]. set (l := Z.log2 n) in *.
  assert (0 <= l) as H0 by apply Z.log2_nonneg. pose proof (Z.div_mod l 8 ltac:(lia)) as Hd. pose proof (Z.mod_pos_bound l 8 ltac:(lia)) as Hm.
  assert (0 <= l / 8) as Hp by (apply Z.div_pos; lia). change 256 with (2 ^ 8). rw -!Z.pow_mul_r; [|lia|lia|lia|lia].
  split; [|lia]. split.
  - etrans; [|exact Hl]. apply Z.pow_le_mono_r; lia.
  - eapply Z.lt_le_trans; [exact Hu|]. apply Z.pow_le_mono_r; lia.
Qed.

(** What BigToCompact keeps of a number: the mantissa and the exponent. *)
Definition mantissa (n : Z) : Z := let e := byte_len n in if e <=? 3 then n * 256 ^ (3 - e) else n / 256 ^ (e - 3).
Definition compact_parts (n : Z) : Z * Z :=
  if 2 ^ 23 <=? mantissa n then (mantissa n / 256, byte_len n + 1) else (mantissa n, byte_len n).
Lemma mantissa_bounds n : 0 < n -> 2 ^ 16 <= mantissa n < 2 ^ 24.
Proof.
  intros Hn. destruct (log2_bytes n Hn) as [[Hl Hu] H1]. unfold mantissa. set (e := byte_len n) in *. destruct (Z.leb_spec e 3) as [H3|H3].
  - assert (256 ^ (e - 1) * 256 ^ (3 - e) = 2 ^ 16) as E1 by (rw -Z.pow_add_r; [by replace (e - 1 + (3 - e)) with 2 by lia|lia|lia]).
    assert (256 ^ e * 256 ^ (3 - e) = 2 ^ 24) as E2 by (rw -Z.pow_add_r; [by replace (e + (3 - e)) with 3 by lia|lia|lia]).
    assert (0 < 256 ^ (3 - e)) by (apply Z.pow_pos_nonneg; lia). nia.
  - assert (256 ^ (e - 1) = 256 ^ (e - 3) * 2 ^ 16) as E1 by (change (2 ^ 16) with (256 ^ 2); rw -Z.pow_add_r; [f_equal; lia|lia|lia]).
    assert (256 ^ e = 256 ^ (e - 3) * 2 ^ 24) as E2 by (change (2 ^ 24) with (256 ^ 3); rw -Z.pow_add_r; [f_equal; lia|lia|lia]).
    assert (0 < 256 ^ (e - 3)) by (apply Z.pow_pos_nonneg; lia). split; [apply Z.div_le_lower_bound; lia|apply Z.div_lt_upper_bound; lia].
Qed.
Lemma byte_len_256 n : 0 < n < 2 ^ 256 -> 1 <= byte_len n <= 32.
Proof.
  intros Hn. destruct (log2_bytes n ltac:(lia)) as [[Hl Hu] H1]. set (e := byte_len n) in *. split; [done|].
  destruct (Z.le_gt_cases e 32); [done|]. assert (256 ^ 32 <= 256 ^ (e - 1)) by (apply Z.pow_le_mono_r; lia). change (2 ^ 256) with (256 ^ 32) in Hn. lia.
Qed.
Lemma compact_parts_bounds n : 0 < n < 2 ^ 256 -> 2 ^ 15 <= (compact_parts n).1 < 2 ^ 23 /\ 1 <= (compact_parts n).2 <= 33.
Proof.
  intros Hn. pose proof (mantissa_bounds n ltac:(lia)) as Hm. pose proof (byte_len_256 n Hn). unfold compact_parts.
  destruct (Z.leb_spec (2 ^ 23) (mantissa n)); cbn [fst snd]; [|lia].
  split; [|lia]. split; [apply Z.div_le_lower_bound; lia|apply Z.div_lt_upper_bound; lia].
Qed.
Lemma byte_len_unique n k : 0 < n -> 1 <= k -> 256 ^ (k - 1) <= n < 256 ^ k -> byte_len n = k.
Proof.
  intros Hn Hk [Hl Hu]. destruct (log2_bytes n Hn) as [[Hl' Hu'] H1]. set (e := byte_len n) in *.
  destruct (Z.lt_total e k) as [Hlt|[?|Hlt]]; [|done|].
  - assert (256 ^ e <= 256 ^ (k - 1)) by (apply Z.pow_le_mono_r; lia). lia.
  - assert (256 ^ k <= 256 ^ (e - 1)) by (apply Z.pow_le_mono_r; lia). lia.
Qed.
Lemma pow256 k : 0 <= k -> 2 ^ (8 * k) = 256 ^ k.
Proof. intros Hk. change 256 with (2 ^ 8). by rw -Z.pow_mul_r; [|lia|lia]. Qed.

Lemma BigToCompact_parts n : 0 < n < 2 ^ 256 -> BigToCompact n = (compact_parts n).2 * 2 ^ 24 + (compact_parts n).1.
Proof.
  intros Hn. pose proof (compact_parts_bounds n Hn) as Hb. pose proof (mantissa_bounds n ltac:(lia)) as Hm. unfold BigToCompact.
  replace (n =? 0) with false by lia. replace (n <? 0) with false by lia. unfold compact_parts in *.
  set (m0 := if byte_len n <=? 3 then u32 _ else _). assert (m0 = mantissa n) as ->.
  { destruct (log2_bytes n ltac:(lia)) as [[Hl Hu] H1]. unfold m0, mantissa, low_word in *. set (e := byte_len n) in *. destruct (Z.leb_spec e 3) as [H3|H3].
    - rw Z.abs_eq; last lia. rw Z.shiftl_mul_pow2; last lia. rw pow256; last lia.
      assert (n < 2 ^ 24) by (assert (256 ^ e <= 256 ^ 3) as H256 by (apply Z.pow_le_mono_r; lia); change (256 ^ 3) with (2 ^ 24) in H256; lia).
      rw (u64_id n); last int_lia. rw (u32_id n); last int_lia. apply u32_id. int_lia.
    - rw Z.shiftr_div_pow2; last lia. rw pow256; last lia. rw Z.abs_eq; last lia. rw u64_id; last int_lia. apply u32_id. int_lia. }
  set (m := mantissa n) in *. change 0x00800000 with (2 ^ 23). rw land_pow2_eqb0; last lia. rw negb_involutive testbit_top; [|lia|change (23 + 1) with 24; lia].
  rw Z.shiftr_div_pow2; last lia. change (2 ^ 8) with 256. destruct (2 ^ 23 <=? m); cbn [fst snd] in *;
    (rw u32_id; last (rw Z.shiftl_mul_pow2; int_lia)); rw Z.lor_comm lor_shift_add; lia.
Qed.
Lemma CompactToBig_parts m e : 0 <= m < 2 ^ 23 -> 0 <= e ->
  CompactToBig (e * 2 ^ 24 + m) = if e <=? 3 then m / 256 ^ (3 - e) else m * 256 ^ (e - 3).
Proof.
  intros Hm He. unfold CompactToBig. change 0x007fffff with (2 ^ 23 - 1). rw land_low; last lia. change 0x00800000 with (2 ^ 23). rw land_pow2_eqb0; last lia.
  replace (e * 2 ^ 24 + m) with (m + (2 * e) * 2 ^ 23) by lia. rw Z.mod_add; last lia. rw (Z.mod_small m); last done.
  rw Z.testbit_eqb; last lia. rw Z.div_add; last lia. rw (Z.div_small m); last done. replace (0 + 2 * e) with (e * 2) by lia. rw Z.mod_mul; last lia. cbn [Z.eqb negb].
  rw (Z.shiftr_div_pow2 _ 24); last lia. replace (m + 2 * e * 2 ^ 23) with (m + e * 2 ^ 24) by lia. rw Z.div_add; last lia. rw (Z.div_small m (2 ^ 24)); last lia. rw Z.add_0_l.
  destruct (Z.leb_spec e 3); [rw Z.shiftr_div_pow2|rw Z.shiftl_mul_pow2]; try lia; rw pow256; lia.
Qed.

(** ** Rounding *)
(** The value of the parts: the bytes below the mantissa are lost. *)
Definition compact_round (n : Z) : Z :=
  let k := byte_len n - (if 2 ^ 23 <=? mantissa n then 2 else 3) in if k <=? 0 then n else n / 256 ^ k * 256 ^ k.
Lemma CompactToBig_BigToCompact n : 0 < n < 2 ^ 256 -> CompactToBig (BigToCompact n) = compact_round n.
Proof.
  intros Hn. rw BigToCompact_parts //. pose proof (compact_parts_bounds n Hn) as [Hm He]. rw CompactToBig_parts; [|lia|lia]. clear Hm He.
  pose proof (byte_len_256 n Hn) as Hb. unfold compact_parts, compact_round.
  destruct (2 ^ 23 <=? mantissa n); cbn [fst snd]; unfold mantissa; set (e := byte_len n) in *.
  - destruct (Z.leb_spec e 3) as [H3|H3].
    + destruct (Z.leb_spec (e + 1) 3) as [H4|H4].
      * replace (e - 2 <=? 0) with true by lia. replace (3 - e) with (1 + (3 - (e + 1))) by lia. rw Z.pow_add_r; [|lia|lia]. change (256 ^ 1) with 256.
        assert (0 < 256 ^ (3 - (e + 1))) by (apply Z.pow_pos_nonneg; lia). replace (n * (256 * 256 ^ (3 - (e + 1)))) with (n * 256 ^ (3 - (e + 1)) * 256) by lia.
        rw Z.div_mul; last lia. apply Z.div_mul. lia.
      * assert (e = 3) as -> by lia. change (256 ^ (3 - 3)) with 1. rw Z.mul_1_r. done.
    + replace (e + 1 <=? 3) with false by lia. replace (e - 2 <=? 0) with false by lia. replace (e + 1 - 3) with (e - 2) by lia. f_equal.
      assert (0 < 256 ^ (e - 3)) by (apply Z.pow_pos_nonneg; lia). rw Z.div_div; [|lia|lia]. f_equal. replace (e - 2) with (e - 3 + 1) by lia. rw Z.pow_add_r; lia.
  - destruct (Z.leb_spec e 3) as [H3|H3].
    + replace (e - 3 <=? 0) with true by lia. apply Z.div_mul. apply Z.pow_nonzero; lia.
    + by replace (e - 3 <=? 0) with false by lia.
Qed.
Lemma compact_round_le n : 0 < n -> compact_round n <= n /\ 0 < compact_round n /\ n - compact_round n < 256 ^ Z.max 0 (byte_len n - 2).
Proof.
  intros Hn. destruct (log2_bytes n Hn) as [[Hl Hu] H1]. unfold compact_round. set (e := byte_len n) in *. set (k := e - (if 2 ^ 23 <=? mantissa n then 2 else 3)).
  assert (k <= e - 2) as Hk by (unfold k; destruct (_ <=? _); lia).
  assert (0 < 256 ^ Z.max 0 (e - 2)) as Hp by (apply Z.pow_pos_nonneg; lia). destruct (Z.leb_spec k 0) as [H0|H0]; [lia|].
  assert (0 < 256 ^ k) as Hpk by (apply Z.pow_pos_nonneg; lia). pose proof (Z.div_mod n (256 ^ k) ltac:(lia)) as Hd. pose proof (Z.mod_pos_bound n (256 ^ k) Hpk) as Hm.
  assert (256 ^ k <= 256 ^ Z.max 0 (e - 2)) by (apply Z.pow_le_mono_r; lia). split; [lia|]. split; [|lia].
  assert (256 ^ k <= 256 ^ (e - 1)) by (apply Z.pow_le_mono_r; lia). assert (1 <= n / 256 ^ k) by (apply Z.div_le_lower_bound; lia). nia.
Qed.
Lemma div_mul_ge n a b : 0 < a -> 0 < b -> b * a <= n -> b * a <= n / a * a.
Proof. intros Ha Hb Hn. assert (b <= n / a) by (apply Z.div_le_lower_bound; lia). nia. Qed.
Lemma compact_round_len n : 0 < n -> byte_len (compact_round n) = byte_len n.
Proof.
  intros Hn. destruct (compact_round_le n Hn) as (Hle & Hpos & _). destruct (log2_bytes n Hn) as [[Hl Hu] H1]. apply byte_len_unique; [lia|lia|]. split; [|lia].
  unfold compact_round in *. set (e := byte_len n) in *. set (k := e - _) in *. destruct (Z.leb_spec k 0) as [H0|H0]; [done|].
  assert (k <= e - 2) as Hk by (unfold k; destruct (_ <=? _); lia). replace (256 ^ (e - 1)) with (256 ^ (e - 1 - k) * 256 ^ k) in *; last by (rw -Z.pow_add_r; [f_equal; lia|lia|lia]).
  apply div_mul_ge; [apply Z.pow_pos_nonneg; lia|apply Z.pow_pos_nonneg; lia|done].
Qed.
Lemma compact_round_parts n : 0 < n -> compact_parts (compact_round n) = compact_parts n.
Proof.
  intros Hn. pose proof (compact_round_len n Hn) as Hlen. pose proof (mantissa_bounds n Hn) as Hm.
  assert (mantissa (compact_round n) = if 2 ^ 23 <=? mantissa n then mantissa n / 256 * 256 else mantissa n) as Hmr.
  { unfold mantissa at 1. rw Hlen. unfold compact_round. pose proof (log2_bytes n Hn) as [_ H1].
    destruct (Z.leb_spec (byte_len n) 3) as [H3|H3].
    - unfold mantissa in *. replace (byte_len n <=? 3) with true in * by lia. set (e := byte_len n) in *. destruct (Z.leb_spec (2 ^ 23) (n * 256 ^ (3 - e))) as [Hb|Hb].
      + destruct (Z.leb_spec (e - 2) 0) as [H2|H2].
        * replace (3 - e) with (1 + (2 - e)) by lia. rw Z.pow_add_r; [|lia|lia]. change (256 ^ 1) with 256. replace (n * (256 * 256 ^ (2 - e))) with (n * 256 ^ (2 - e) * 256) by lia. by rw Z.div_mul.
        * assert (e = 3) as -> by lia. change (256 ^ (3 - 3)) with 1. by rw !Z.mul_1_r.
      + by replace (e - 3 <=? 0) with true by lia.
    - unfold mantissa in *. replace (byte_len n <=? 3) with false in * by lia. set (e := byte_len n) in *. assert (0 < 256 ^ (e - 3)) as Hp by (apply Z.pow_pos_nonneg; lia).
      destruct (Z.leb_spec (2 ^ 23) (n / 256 ^ (e - 3))) as [Hb|Hb].
      + replace (e - 2 <=? 0) with false by lia. rw (Z.div_div n (256 ^ (e - 3)) 256); [|lia|lia]. replace (256 ^ (e - 2)) with (256 ^ (e - 3) * 256); last by (replace (e - 2) with (e - 3 + 1) by lia; rw Z.pow_add_r; lia).
        replace (n / (256 ^ (e - 3) * 256) * (256 ^ (e - 3) * 256)) with (n / (256 ^ (e - 3) * 256) * 256 * 256 ^ (e - 3)) by lia. apply Z.div_mul. lia.
      + replace (e - 3 <=? 0) with false by lia. apply Z.div_mul. lia. }
  unfold compact_parts. rw Hmr Hlen. destruct (Z.leb_spec (2 ^ 23) (mantissa n)) as [Hb|Hb]; [|by replace (2 ^ 23 <=? mantissa n) with false by lia].
  replace (2 ^ 23 <=? mantissa n / 256 * 256) with true; [by rw Z.div_mul|]. symmetry. apply Z.leb_le. change (2 ^ 23) with (2 ^ 15 * 256) in Hb |- *. by apply div_mul_ge.
Qed.
Lemma compact_idempotent n : 0 < n < 2 ^ 256 -> BigToCompact (compact_round n) = BigToCompact n.
Proof.
  intros Hn. destruct (compact_round_le n ltac:(lia)) as (Hle & Hpos & _). rw BigToCompact_parts; last lia. rw (BigToCompact_parts n Hn). by rw compact_round_parts; last lia.
Qed.

(** ** The next target *)
Lemma BigToCompact_limit limit x : 0 < limit < 2 ^ 256 -> 0 <= x -> 0 <= CompactToBig (BigToCompact (if limit <? x then limit else x)) <= limit.
Proof.
  intros Hl Hx. set (y := if limit <? x then limit else x). assert (0 <= y <= limit) as Hy by (unfold y; destruct (Z.ltb_spec limit x); lia).
  destruct (decide (y = 0)) as [->|Hne]; [vm_compute CompactToBig; lia|]. rw CompactToBig_BigToCompact; last lia.
  destruct (compact_round_le y ltac:(lia)) as (? & ? & _). lia.
Qed.

Section Next.
Context (params : PowParams) (h : bheap).

(** The main network's durations, and a limit that leaves work to be done. *)
Record pow_params_ok : Prop := {
  po_limit : 0 < PowLimit params < 2 ^ 240;
  po_block : TargetTimePerBlock params = 600;
  po_span : TargetTimespan params = 60 * 60 * 24 * 14 }.
(** Every block met a target, and the work adds up. *)
Record pow_tree_ok : Prop := {
  pt_tree : tree_ok h;
  pt_target p b : h !! p = Some b -> 0 < CompactToBig (Bits (bi_Header b)) <= PowLimit params;
  pt_time p b : h !! p = Some b -> is_u 32 (GetBlockTime b);
  pt_range p b : h !! p = Some b -> 0 <= bi_ChainWork b < 2 ^ 256;
  pt_work p b q c : h !! p = Some b -> bi_Prev b = Some q -> h !! q = Some c -> bi_ChainWork b = bi_ChainWork c + GetBlockProof b }.
Context (Hpar : pow_params_ok) (Hpow : pow_tree_ok).

Lemma proof_large p b : h !! p = Some b -> 2 ^ 16 <= GetBlockProof b.
Proof.
  intros Hp. destruct (pt_target Hpow p b Hp) as [H0 H1]. pose proof (po_limit Hpar). unfold GetBlockProof. replace (_ <=? 0) with false by lia.
  apply Z.div_le_lower_bound; [lia|]. unfold oneLsh256. change (2 ^ 256) with (2 ^ 240 * 2 ^ 16). apply Z.mul_le_mono_nonneg_r; lia.
Qed.
Lemma work_walk n : forall p b r c, h !! p = Some b -> walk h p n = Some r -> h !! r = Some c ->
  bi_ChainWork c + Z.of_nat n * 2 ^ 16 <= bi_ChainWork b /\ bi_Height b = bi_Height c + Z.of_nat n.
Proof.
  induction n as [|n IH]; intros p b r c Hp Hw Hr; [injection Hw as ->; rw Hp in Hr; injection Hr as ->; lia|]. cbn in Hw. rw Hp in Hw. cbn in Hw.
  destruct (bi_Prev b) as [s|] eqn:Es; [|done]. cbn in Hw. destruct (tr_prev h (pt_tree Hpow) p b s Hp Es) as (d & Hd & Hh).
  destruct (IH s d r c Hd Hw Hr) as [Hwk Hht]. pose proof (pt_work Hpow p b s d Hp Es Hd). pose proof (proof_large p b Hp). lia.
Qed.
Lemma getSuitableBlock_ok {E} p b : h !! p = Some b -> 3 <= bi_Height b ->
  exists s r i, getSuitableBlock (E := E) h (Some p) = Ok s /\ (i <= 2)%nat /\ walk h p i = Some r /\ h !! r = Some s.
Proof.
  intros Hp Hh. unfold getSuitableBlock. cbn [deref mbind res_bind]. rw (bload_Some _ p b Hp). cbn [mbind res_bind]. replace (bi_Height b <? 3) with false by lia.
  destruct (bi_Prev b) as [p1|] eqn:E1; [|pose proof (tr_root h (pt_tree Hpow) p b Hp E1); lia]. destruct (tr_prev h (pt_tree Hpow) p b p1 Hp E1) as (b1 & Hb1 & Hh1).
  cbn [deref mbind res_bind]. rw (bload_Some _ p1 b1 Hb1). cbn [mbind res_bind].
  destruct (bi_Prev b1) as [p0|] eqn:E0; [|pose proof (tr_root h (pt_tree Hpow) p1 b1 Hb1 E0); lia]. destruct (tr_prev h (pt_tree Hpow) p1 b1 p0 Hb1 E0) as (b0 & Hb0 & Hh0).
  cbn [deref mbind res_bind]. rw (bload_Some _ p0 b0 Hb0). cbn [mbind res_bind].
  assert (walk h p 1 = Some p1) as W1 by (cbn; rw Hp; cbn; by rw E1). assert (walk h p 2 = Some p0) as W0 by (cbn; rw Hp; cbn; rw E1; cbn; rw Hb1; cbn; by rw E0).
  repeat match goal with |- context [if ?x then (_, _) else _] => destruct x end; cbn [fst snd];
    first [exists b, p, 0%nat; split_and!; [done|lia|done|done]|exists b1, p1, 1%nat; split_and!; [done|lia|done|done]|exists b0, p0, 2%nat; split_and!; [done|lia|done|done]].
Qed.

(** *** The retargeting rule *)
(** The time span is a uint32: a last block that is earlier than the first one counts
    as very slow, not as very fast. *)
Definition timespan (last first : Z) : Z :=
  let T := 60 * 60 * 24 * 14 in if last <? first then T * 4 else Z.max (T / 4) (Z.min (T * 4) (last - first)).
Lemma calculateNextWorkRequired_ok p b t : h !! p = Some b -> is_u 32 t -> t - GetBlockTime b <= 2 ^ 31 -> FPowNoRetargeting params = false ->
  calculateNextWorkRequired params b t =
    BigToCompact (let x := CompactToBig (Bits (bi_Header b)) * timespan (GetBlockTime b) t / (60 * 60 * 24 * 14) in
                  if PowLimit params <? x then PowLimit params else x).
Proof.
  intros Hp Ht Hd Hn. unfold calculateNextWorkRequired. rw Hn (po_span Hpar). rw (u32_id t Ht). pose proof (pt_time Hpow p b Hp) as Hb.
  change (u32 (Z.quot (60 * 60 * 24 * 14) 4)) with 302400. change (u32 (i64 (60 * 60 * 24 * 14 * 4))) with 4838400. cbv zeta.
  assert ((if 4838400 <? (if u32 (GetBlockTime b - t) <? 302400 then 302400 else u32 (GetBlockTime b - t)) then 4838400
           else if u32 (GetBlockTime b - t) <? 302400 then 302400 else u32 (GetBlockTime b - t)) = timespan (GetBlockTime b) t) as ->; [|done].
  unfold timespan. change (60 * 60 * 24 * 14 / 4) with 302400. change (60 * 60 * 24 * 14 * 4) with 4838400. destruct (Z.ltb_spec (GetBlockTime b) t) as [Hlt|Hge].
  - assert (u32 (GetBlockTime b - t) = 2 ^ 32 + (GetBlockTime b - t)) as -> by int_lia. unfold_int. pow2_norm. repeat case_match; lia.
  - assert (u32 (GetBlockTime b - t) = GetBlockTime b - t) as -> by (apply u32_id; int_lia). repeat case_match; lia.
Qed.
Lemma timespan_pos last first : 0 < timespan last first.
Proof. unfold timespan. cbv zeta. change (60 * 60 * 24 * 14 / 4) with 302400. destruct (_ <? _); lia. Qed.

Lemma last_nonspecial_ok {E} interval bitsLimit fuel : forall p b, h !! p = Some b -> bi_Height b <= Z.of_nat fuel ->
  exists c, last_nonspecial (E := E) fuel h interval bitsLimit p = Ok c /\ 0 <= CompactToBig c <= PowLimit params.
Proof.
  induction fuel as [|fuel IH]; intros p b Hp Hf; pose proof (tr_height h (pt_tree Hpow) p b Hp) as Hh; pose proof (pt_target Hpow p b Hp) as Ht;
    cbn [last_nonspecial]; rw (bload_Some _ p b Hp); cbn [mbind res_bind];
    (destruct (bi_Prev b) as [q|] eqn:Eq; [destruct (tr_prev h (pt_tree Hpow) p b q Hp Eq) as (c & Hc & Hhc); pose proof (tr_height h (pt_tree Hpow) q c Hc)|eexists; split; [done|lia]]);
    [lia|]. destruct (_ && _); [|eexists; split; [done|lia]]. apply (IH q c Hc). lia.
Qed.

Lemma interval_ok {E} : DifficultyAdjustmentInterval (E := E) params = Ok 2016.
Proof. unfold DifficultyAdjustmentInterval. by rw (po_block Hpar) (po_span Hpar). Qed.
Lemma EDA_ok {E} q b hdr : h !! q = Some b -> 6 <= bi_Height b < 2 ^ 31 - 1 ->
  (forall p c, h !! p = Some c -> GetBlockTime c - GetBlockTime b <= 2 ^ 31) -> FPowNoRetargeting params = false ->
  exists c, getNextEDAWorkRequired (E := E) params h q hdr = Ok c /\ 0 <= CompactToBig c <= PowLimit params.
Proof.
  intros Hq Hh Htime Hn. pose proof (po_limit Hpar) as Hlim. destruct (pt_target Hpow q b Hq) as [Ht0 Ht1]. unfold getNextEDAWorkRequired.
  rw (bload_Some _ q b Hq). cbn [mbind res_bind]. rw interval_ok (po_block Hpar). cbn [mbind res_bind]. rw (i32_id (bi_Height b + 1)); last int_lia. cbn [Z.eqb].
  destruct (Z.eqb_spec (Z.rem (bi_Height b + 1) 2016) 0) as [Hr|Hr].
  - assert (2016 <= bi_Height b + 1) as Hge by (rw Z.rem_mod_nonneg in Hr; [|lia|lia]; pose proof (Z.div_mod (bi_Height b + 1) 2016 ltac:(lia)); nia).
    replace (bi_Height b + 1 <? 2016) with false by lia. rw (i32_id 2016); last int_lia. rw i32_id; last int_lia. rw (GetAncestor_walk h (pt_tree Hpow) q b _ Hq). cbn [mbind res_bind].
    replace ((0 <=? bi_Height b + 1 - 2016) && _) with true by lia.
    destruct (walk_height h (pt_tree Hpow) (Z.to_nat (bi_Height b - (bi_Height b + 1 - 2016))) q b Hq ltac:(lia)) as (r & c & -> & Hc & _).
    cbn [deref mbind res_bind]. rw (bload_Some _ r c Hc). cbn [mbind res_bind]. eexists. split; [reflexivity|].
    rw (calculateNextWorkRequired_ok q b _ Hq (pt_time Hpow r c Hc) (Htime r c Hc) Hn). cbv zeta. apply BigToCompact_limit; [lia|].
    apply Z.div_pos; [|lia]. pose proof (timespan_pos (GetBlockTime b) (GetBlockTime c)). nia.
  - pose proof (BigToCompact_limit (PowLimit params) (PowLimit params) ltac:(lia) ltac:(lia)) as Hmax. rw Z.ltb_irrefl in Hmax.
    destruct (FPowAllowMinDifficultyBlocks params).
    { destruct (_ <? _); [by eexists|]. apply (last_nonspecial_ok _ _ _ q b Hq). lia. }
    destruct (_ =? _); [by eexists|]. rw i32_id; last int_lia. rw (GetAncestor_walk h (pt_tree Hpow) q b _ Hq). cbn [mbind res_bind].
    replace ((0 <=? bi_Height b + 1 - 7) && _) with true by lia.
    destruct (walk_height h (pt_tree Hpow) (Z.to_nat (bi_Height b - (bi_Height b + 1 - 7))) q b Hq ltac:(lia)) as (r & c & -> & Hc & _). cbn [deref mbind res_bind].
    rw (GetMedianTimePast_ok h q (pt_tree Hpow) (mk_is_Some _ _ Hq)) (GetMedianTimePast_ok h r (pt_tree Hpow) (mk_is_Some _ _ Hc)). cbn [mbind res_bind].
    destruct (_ <? _); [eexists; split; [done|lia]|]. eexists. split; [reflexivity|]. apply BigToCompact_limit; [lia|]. assert (0 <= CompactToBig (Bits (bi_Header b)) / 4) by (apply Z.div_pos; lia). lia.
Qed.

(** *** The rule that adjusts on every block *)
(** The target for the work between two blocks, over their time span cut to between half
    a day and two days. *)
Definition daa_target (f l : BlockIndex) : Z :=
  oneLsh256 / ((bi_ChainWork l - bi_ChainWork f) * 600 / Z.max 43200 (Z.min 172800 (GetBlockTime l - GetBlockTime f))) - 1.
Lemma computeTarget_ok {E} f l : bi_Height f < bi_Height l -> bi_ChainWork f + 2 ^ 16 <= bi_ChainWork l < 2 ^ 256 -> 0 <= bi_ChainWork f ->
  is_u 32 (GetBlockTime f) -> is_u 32 (GetBlockTime l) ->
  computeTarget (E := E) params f l = (if GetBlockTime l <=? GetBlockTime f then Panic else Ok (daa_target f l)) /\ 0 <= daa_target f l.
Proof.
  intros Hh Hw H0 Hf Hl. set (ts := Z.max 43200 (Z.min 172800 (GetBlockTime l - GetBlockTime f))). assert (43200 <= ts <= 172800) as Hts by lia.
  set (w := (bi_ChainWork l - bi_ChainWork f) * 600 / ts).
  assert (1 <= w <= 2 ^ 256) as Hwk.
  { split; [apply Z.div_le_lower_bound; nia|]. etrans; [apply (Z.div_le_mono _ (2 ^ 256 * 600)); lia|]. apply Z.div_le_upper_bound; [lia|]. change (2 ^ 256) with (2 ^ 16 * 2 ^ 240). nia. }
  assert (daa_target f l = oneLsh256 / w - 1) as Hd by done. assert (1 <= oneLsh256 / w) by (apply Z.div_le_lower_bound; [lia|unfold oneLsh256; lia]).
  split; [|lia]. unfold computeTarget. rw (po_block Hpar). replace (bi_Height l <=? bi_Height f) with false by lia.
  destruct (Z.leb_spec (GetBlockTime l) (GetBlockTime f)) as [|Ht]; [done|]. rw (u32_id (GetBlockTime l - GetBlockTime f)); last int_lia.
  change (u32 (i64 (288 * 600))) with 172800. change (u32 (i64 (72 * 600))) with 43200. change (u32 (72 * u32 600)) with 43200. cbv zeta.
  assert ((if 172800 <? GetBlockTime l - GetBlockTime f then 172800 else if GetBlockTime l - GetBlockTime f <? 43200 then 43200 else GetBlockTime l - GetBlockTime f) = ts) as ->
    by (unfold ts; repeat case_match; lia).
  replace (ts =? 0) with false by lia. fold w. replace (w =? 0) with false by lia. unfold big_Div. replace (0 <? w) with true by lia. by rw Hd.
Qed.
(** The blocks that the rule compares: the medians of three at both ends of 144 blocks. *)
Definition daa_blocks (q : nat) (f l : BlockIndex) : Prop :=
  exists p, walk h q 144 = Some p /\ getSuitableBlock (E := unit) h (Some p) = Ok f /\ getSuitableBlock (E := unit) h (Some q) = Ok l.
Lemma getSuitableBlock_indep {E E'} p s : getSuitableBlock (E := E) h p = Ok s -> getSuitableBlock (E := E') h p = Ok s.
Proof.
  unfold getSuitableBlock, bload. destruct p as [p|]; cbn; [|done]. destruct (h !! p) as [b|]; cbn; [|done]. destruct (_ <? 3); [done|].
  destruct (bi_Prev b) as [p1|]; cbn; [|done]. destruct (h !! p1) as [b1|]; cbn; [|done]. destruct (bi_Prev b1) as [p0|]; cbn; [|done]. destruct (h !! p0) as [b0|]; cbn; [|done].
  repeat match goal with |- context [if ?x then (_, _) else _] => destruct x end; congruence.
Qed.
(** On a network with minimum difficulty blocks, a block that comes late is one. *)
Definition late (b : BlockIndex) (hdr : BlockHeader) : bool :=
  FPowAllowMinDifficultyBlocks params && (u32 (GetBlockTime b + 1200) <? Time hdr).
Lemma DAA_ok {E} q b hdr : h !! q = Some b -> 2016 <= bi_Height b < 2 ^ 31 - 1 ->
  exists f l, daa_blocks q f l /\ 0 <= daa_target f l /\
    getNextCashWorkRequired (E := E) params h q hdr =
      (if late b hdr then Ok (BigToCompact (PowLimit params)) else if GetBlockTime l <=? GetBlockTime f then Panic
       else Ok (BigToCompact (if PowLimit params <? daa_target f l then PowLimit params else daa_target f l))).
Proof.
  intros Hq Hh. unfold getNextCashWorkRequired. rw (bload_Some _ q b Hq). cbn [mbind res_bind]. rw (po_block Hpar). change (u32 (i64 (2 * 600))) with 1200. fold (late b hdr).
  rw interval_ok. cbn [mbind res_bind]. replace (bi_Height b <? 2016) with false by lia.
  destruct (getSuitableBlock_ok (E := E) q b Hq ltac:(lia)) as (l & rl & i & Hl & Hi & Hwl & Hrl). rw Hl. cbn [mbind res_bind].
  rw i32_id; last int_lia. rw (GetAncestor_walk h (pt_tree Hpow) q b _ Hq). cbn [mbind res_bind]. replace ((0 <=? bi_Height b - 144) && _) with true by lia.
  replace (Z.to_nat (bi_Height b - (bi_Height b - 144))) with 144%nat by lia.
  destruct (walk_height h (pt_tree Hpow) 144 q b Hq ltac:(lia)) as (p & pb & Hwp & Hp & Hhp). rw Hwp.
  destruct (getSuitableBlock_ok (E := E) p pb Hp ltac:(lia)) as (f & rf & j & Hf & Hj & Hwf & Hrf). rw Hf. cbn [mbind res_bind].
  assert (walk h rl (144 + j - i) = Some rf) as Hw by (rw -(walk_add h i q _ rl Hwl) -Hwf -(walk_add h 144 q j p Hwp); f_equal; lia).
  destruct (work_walk _ rl l rf f Hrl Hw Hrf) as [Hwork Hht].
  destruct (computeTarget_ok (E := E) f l) as [Hct Ht0]; [lia|pose proof (pt_range Hpow rl l Hrl); lia|apply (pt_range Hpow rf f Hrf)|apply (pt_time Hpow rf f Hrf)|apply (pt_time Hpow rl l Hrl)|].
  exists f, l. split; [exists p; split_and!; [done|by eapply getSuitableBlock_indep|by eapply getSuitableBlock_indep]|]. split; [done|].
  destruct (late b hdr); [done|]. rw Hct. by destruct (_ <=? _).
Qed.
End Next.
