(* ===== verification/ConsensusTheorems.v ===== *)
(** * Theorems on version bits and proof of work *)
From stdpp Require Import sorting.
From S2P Require Import Prelude Errors Wire ScriptNum Opcodes Script ScriptFacts Tx TxFacts Crypto Compress Coins Block Undo BlockIndex.
From S2P Require Import Stack Slice Interp Ltx Chain ChainFacts BranchFacts ChainTheorems VersionBits VersionBitsFacts Pow PowFacts.

(** ** Version bits *)
(** The last block of the last complete period up to [q]. *)
Definition period_end {vc : AbstractThresholdConditionChecker} (h : bheap) (q : nat) (b : BlockIndex) : option nat :=
  let m := (bi_Height b + 1) / Period in if m =? 0 then None else walk h q (Z.to_nat (bi_Height b - (m * Period - 1))).

Lemma period_end_ok {vc : AbstractThresholdConditionChecker} {E} h q b : tree_ok h -> 0 < Period < 2 ^ 31 -> h !! q = Some b -> bi_Height b + 1 < 2 ^ 31 ->
  (at_height ← period_start (E := E) b; GetAncestor h q at_height) = Ok (period_end h q b) /\
  ends_period h (Z.to_nat ((bi_Height b + 1) / Period)) (period_end h q b).
Proof.
  intros Ht HP Hq Hb. pose proof (tr_height h Ht q b Hq) as Hh. unfold period_start, period_end. set (m := (bi_Height b + 1) / Period).
  assert (Period <> 0) as Hnz by lia. pose proof (Z.div_mod (bi_Height b + 1) Period Hnz) as Hdm. pose proof (Z.mod_pos_bound (bi_Height b + 1) Period (proj1 HP)) as Hmod. fold m in Hdm.
  assert (0 <= m) as Hm by (apply Z.div_pos; lia).
  rw (i32_id Period); last int_lia. replace (Period =? 0) with false by lia. cbn [mbind res_bind]. rw (i32_id (bi_Height b + 1)); last int_lia.
  rw Z.rem_mod_nonneg; [|lia|lia]. replace (bi_Height b - (bi_Height b + 1) mod Period) with (m * Period - 1) by lia.
  rw i32_id; last int_lia. rw (GetAncestor_walk h Ht q b _ Hq). destruct (Z.eqb_spec m 0) as [->|Hne]; [done|].
  replace (0 <=? m * Period - 1) with true by nia. replace (m * Period - 1 <=? bi_Height b) with true by lia. split; [done|].
  destruct (walk_height h Ht (Z.to_nat (bi_Height b - (m * Period - 1))) q b Hq ltac:(nia)) as (r & c & -> & Hc & Hhc). exists c. split; [done|nia].
Qed.

(** C31. GetStateFor ends, and the cache it shares between calls never holds a state
    other than the one BIP 9 defines.  Of the [n] periods whose states are not cached
    it computes the older half only: it returns the state of [n/2] periods before
    the one it is asked for, which is the right state when at most one period is new. *)
Theorem GetStateFor_bip9 {vc : AbstractThresholdConditionChecker} {E} h q b cache : tree_ok h -> 0 < Period < 2 ^ 31 ->
  (forall q b r, h !! q = Some b -> bi_Prev b = Some r -> mtp h r <= mtp h q) -> BeginTime <= EndTime ->
  vb_cache_ok h cache -> h !! q = Some b -> bi_Height b + 1 < 2 ^ 31 ->
  let m := Z.to_nat ((bi_Height b + 1) / Period) in let e := period_end h q b in
  exists n st cache', (n <= m)%nat /\ to_compute h cache e n /\ GetStateFor (E := E) h (Some q) cache = Ok (st, cache') /\
    st = bip9 h (m - n / 2) (back h (n / 2) e) /\ vb_cache_ok h cache' /\ ((n <= 1)%nat -> st = bip9 h m e).
Proof.
  intros Ht HP Hmono Hends Hc Hq Hb m e. destruct (period_end_ok (E := E) h q b Ht HP Hq Hb) as [Hanc Hper]. fold m e in Hanc, Hper.
  set (fuel := match e with None => O | Some q => S (Z.to_nat (from_option bi_Height 0 (h !! q))) end).
  assert (m <= fuel)%nat as Hf.
  { unfold fuel. destruct e as [r|]; cbn in Hper; [|lia]. destruct Hper as (rb & Hr & Hk). rw Hr. cbn. pose proof (tr_height h Ht r rb Hr). nia. }
  destruct (walk_back_ok (E := E) h Ht HP Hmono Hends fuel m e [] cache Hper Hf Hc) as (n & c1 & Hn & Htc & Hw & Hc1 & Hl).
  destruct (walk_forward_ok (E := E) h Ht HP e m n n 0 c1 Hper Hn ltac:(lia) Hc1) as (c2 & Hfw & Hc2). cbv zeta in Hfw.
  pose proof (Nat.div_mod n 2 ltac:(lia)) as Hdm. pose proof (Nat.mod_upper_bound n 2 ltac:(lia)).
  assert ((n - 0 + 1) / 2 = n - n / 2)%nat as Hhalf by (symmetry; apply (Nat.div_unique _ 2 _ (1 - n mod 2)%nat); lia). rw Hhalf in Hfw.
  exists n, (bip9 h (m - n / 2) (back h (n / 2) e)), c2. split; [done|]. split; [done|]. split; [|split; [done|split; [done|]]].
  - unfold GetStateFor. rw (bload_Some _ q b Hq). cbn [mbind res_bind] in Hanc |- *. rw Hanc. cbn [mbind res_bind]. fold fuel. rw Hw. cbn [mbind res_bind app].
    rw Hl (length_bounds h Ht HP n (m - n) e); last by (replace (n + (m - n))%nat with m by lia).
    change 0 with (Z.of_nat 0). rw Hfw. do 3 f_equal; [lia|f_equal; lia].
  - intros Hn1. assert (n / 2 = 0)%nat as -> by (apply Nat.div_small; lia). by rw Nat.sub_0_r.
Qed.

(** A deployment with periods of one block that starts at time 50 and ends at 150.  For
    block 2 of the small tree, at time 200, BIP 9 says that the deployment failed. *)
Definition toy_deployment : BIP9Deployment := {| Bit := 0; StartTime := 50; Timeout := 150 |}.
Definition toy_checker : AbstractThresholdConditionChecker :=
  VersionBitsConditionChecker {| Deployments := [toy_deployment]; MinerConfirmationWindow := 1; RuleChangeActivationThreshold := 1 |} toy_deployment.
Lemma toy_mtp_mono q b r : c_heap toy_fork !! q = Some b -> bi_Prev b = Some r -> mtp (c_heap toy_fork) r <= mtp (c_heap toy_fork) q.
Proof.
  cbn [c_heap toy_fork]. destruct (decide (q = 3%nat)) as [->|H3]; [rw lookup_insert_eq; intros [= <-] [= <-]; vm_compute; discriminate|rw lookup_insert_ne; [|congruence]].
  destruct (decide (q = 2%nat)) as [->|H2]; [rw lookup_insert_eq; intros [= <-] [= <-]; vm_compute; discriminate|rw lookup_insert_ne; [|congruence]].
  rw lookup_singleton_Some. by intros [_ <-].
Qed.
Lemma GetStateFor_bip9_witness :
  GetStateFor (vc := toy_checker) (E := unit) (c_heap toy_fork) (Some 2%nat) ∅ =
    Ok (ThresholdStarted, <[Some 1%nat := ThresholdStarted]> {[None := ThresholdDefined]}) /\
  bip9 (vc := toy_checker) (c_heap toy_fork) 2 (Some 2%nat) = ThresholdFailed /\
  exists st cache', GetStateFor (vc := toy_checker) (E := unit) (c_heap toy_fork) (Some 2%nat) {[Some 1%nat := ThresholdStarted]} = Ok (st, cache') /\
    vb_cache_ok (vc := toy_checker) (c_heap toy_fork) cache'.
Proof.
  split; [reflexivity|]. split; [reflexivity|].
  destruct (GetStateFor_bip9 (vc := toy_checker) (E := unit) (c_heap toy_fork) 2 (toy_child 2) {[Some 1%nat := ThresholdStarted]}) as (n & st & cache' & _ & _ & Hg & _ & Hc & _).
  - apply (co_tree _ toy_fork_ok).
  - vm_compute. split; reflexivity.
  - exact toy_mtp_mono.
  - vm_compute. discriminate.
  - intros k q st Hk Hl. apply lookup_singleton_Some in Hl as [<- <-]. destruct Hk as (b & Hb & Hh).
    assert (b = toy_genesis) as -> by (assert (c_heap toy_fork !! 1%nat = Some toy_genesis) as E by reflexivity; rw E in Hb; by injection Hb).
    assert (k = 1%nat) as -> by (change (1 = Z.of_nat k * 1) in Hh; lia). reflexivity.
  - reflexivity.
  - reflexivity.
  - exists st, cache'. split; [exact Hg|exact Hc].
Defined.

(** ** Proof of work *)
(** C30. The next target, on a block tree whose blocks met their targets, for a block of
    height 6 to 2^31 - 2 (at least 2016 where the per-block rule is on, as on the main
    network) whose time is at most 2^31 seconds before that of any other.  Under the
    per-block rule (on a network that retargets, and unless it is a test network and the new
    block comes 20 minutes late) it is the target that the work of the last 144 blocks
    gives over their time, cut to between half a day and two days, and to the limit of the
    network; where the median time of the last three blocks is not after that of the
    three blocks 144 below, computing it panics, and that is the only panic (the rule
    would bound the time span instead).  In all other cases, the rules before among them, it
    never panics.  The target returned is not negative and never above the limit.  A hash passes
    CheckProofOfWork exactly when its number is at most a target that is positive and
    within the limit, and the compact form rounds a target down, loses less than the bytes
    below its two top ones, and is stable. *)
Theorem GetNextWorkRequired_target {E} params h q b hdr : pow_params_ok params -> pow_tree_ok params h -> h !! q = Some b ->
  6 <= bi_Height b < 2 ^ 31 - 1 -> (forall p c, h !! p = Some c -> GetBlockTime c - GetBlockTime b <= 2 ^ 31) ->
  (IsDAAEnabled (pp_forks params) (bi_Height b) = true -> 2016 <= bi_Height b) ->
  match GetNextWorkRequired (E := E) params h (Some q) hdr with
  | Ok c => 0 <= CompactToBig c <= PowLimit params
  | Err _ => False
  | Panic => FPowNoRetargeting params = false /\ IsDAAEnabled (pp_forks params) (bi_Height b) = true /\ late params b hdr = false
  end /\
  (FPowNoRetargeting params = false -> IsDAAEnabled (pp_forks params) (bi_Height b) = true -> late params b hdr = false ->
   exists f l, daa_blocks h q f l /\
    GetNextWorkRequired (E := E) params h (Some q) hdr = if GetBlockTime l <=? GetBlockTime f then Panic else Ok (BigToCompact (Z.min (PowLimit params) (daa_target f l)))) /\
  (forall hash c, CheckProofOfWork params hash c = true <-> 0 < CompactToBig c <= PowLimit params /\ HashToBig hash <= CompactToBig c) /\
  forall x, 0 < x < 2 ^ 256 -> let y := CompactToBig (BigToCompact x) in
    0 < y <= x /\ x - y < 256 ^ Z.max 0 (byte_len x - 2) /\ BigToCompact y = BigToCompact x.
Proof.
  intros Hpar Hpow Hq Hh Htime Hdaa. cbn [GetNextWorkRequired]. rw (bload_Some _ q b Hq). cbn [mbind res_bind]. pose proof (po_limit params Hpar) as Hlim. split; [|split; [|split]].
  - destruct (FPowNoRetargeting params) eqn:En; [pose proof (pt_target params h Hpow q b Hq); lia|].
    destruct (IsDAAEnabled _ _); [|destruct (EDA_ok params h Hpar Hpow (E := E) q b hdr Hq Hh Htime En) as (c & -> & Hc); done].
    destruct (DAA_ok params h Hpar Hpow (E := E) q b hdr Hq ltac:(specialize (Hdaa eq_refl); lia)) as (f & l & _ & H0 & ->).
    pose proof (BigToCompact_limit (PowLimit params) (PowLimit params) ltac:(lia) ltac:(lia)) as Hmax. rw Z.ltb_irrefl in Hmax.
    destruct (late _ _ _); [done|]. destruct (_ <=? _); [done|]. apply BigToCompact_limit; lia.
  - intros Hn Hd Hlate. rw Hn Hd. specialize (Hdaa Hd). destruct (DAA_ok params h Hpar Hpow (E := E) q b hdr Hq ltac:(lia)) as (f & l & Hb & H0 & ->).
    exists f, l. split; [done|]. rw Hlate. destruct (_ <=? _); [done|]. do 2 f_equal. destruct (Z.ltb_spec (PowLimit params) (daa_target f l)); lia.
  - intros hash c. unfold CheckProofOfWork.
    destruct (Z.leb_spec (CompactToBig c) 0), (Z.ltb_spec (PowLimit params) (CompactToBig c)), (Z.ltb_spec (CompactToBig c) (HashToBig hash)); cbn [orb]; split; try done; lia.
  - intros x Hx. cbv zeta. rw CompactToBig_BigToCompact //. destruct (compact_round_le x ltac:(lia)) as (? & ? & ?). rw compact_idempotent //.
Qed.

(** A line of blocks ten minutes apart. *)
Definition line_bits : Z := 0x1c00ffff.
Definition line_work : Z := Eval vm_compute in oneLsh256 / (CompactToBig line_bits + 1).
Definition line_block (i : nat) : BlockIndex :=
  mkBI (mkHeader 1 HashZero HashZero (600 * Z.of_nat i) line_bits 0 HashZero) HashZero (match i with O => None | S j => Some j end) None
    (Z.of_nat i) 0 8 0 (Z.of_nat (S i) * line_work) 1 (Z.of_nat i + 1) (3 .| BlockHaveData) 1 (600 * Z.of_nat i).
Fixpoint line (n : nat) : bheap := match n with O => {[O := line_block O]} | S m => <[n := line_block n]> (line m) end.
Lemma line_lookup n i b : line n !! i = Some b <-> (i <= n)%nat /\ b = line_block i.
Proof.
  induction n as [|n IH]; cbn [line].
  - rw lookup_singleton_Some. split; [intros [<- <-]|intros [? ->]]; [done|split; [lia|f_equal; lia]].
  - destruct (decide (i = S n)) as [->|Hne]; [rw lookup_insert_eq; split; [intros [= <-]; done|by intros [_ ->]]|].
    rw lookup_insert_ne; [|congruence]. rw IH. split; intros [? ->]; (split; [lia|done]).
Qed.
Lemma line_tree n : Z.of_nat n < 2 ^ 31 -> tree_ok (line n).
Proof.
  intros Hn. split; intros p b; [|intros q| |intros s]; rw line_lookup; intros [Hp ->]; cbn.
  - lia.
  - destruct p as [|p]; [done|]. intros [= <-]. exists (line_block p). rw line_lookup. split; [split; [lia|done]|cbn; lia].
  - by destruct p.
  - done.
Qed.
Definition main_params : PowParams :=
  {| pp_forks := Build_ForkParams (Build_NetParams 0 0 0 210000) 0 0 0 0 504031 0 0 (toy_hash 1) [];
     PowLimit := 2 ^ 224 - 1; FPowAllowMinDifficultyBlocks := false; FPowNoRetargeting := false;
     TargetTimePerBlock := 600; TargetTimespan := 60 * 60 * 24 * 14 |}.
Lemma line_pow n : Z.of_nat n < 2 ^ 20 -> pow_tree_ok main_params (line n).
Proof.
  intros Hn. split; [apply line_tree; lia|..]; intros p b; [| | |intros q c]; rw line_lookup; intros [Hp ->].
  - vm_compute. split; [reflexivity|discriminate].
  - unfold GetBlockTime. cbn. unfold is_u. lia.
  - cbn [bi_ChainWork line_block]. change line_work with 1099528405248. lia.
  - destruct p as [|p]; [done|]. intros [= <-]. rw line_lookup. intros [_ ->]. unfold GetBlockProof. cbn [bi_ChainWork line_block bi_Header Bits].
    change (CompactToBig line_bits <=? 0) with false. change (oneLsh256 / (CompactToBig line_bits + 1)) with line_work. lia.
Qed.
(** The per-block rule from the first block on. *)
Definition daa_params : PowParams :=
  {| pp_forks := Build_ForkParams (Build_NetParams 0 0 0 210000) 0 0 0 0 0 0 0 (toy_hash 1) [];
     PowLimit := 2 ^ 224 - 1; FPowAllowMinDifficultyBlocks := false; FPowNoRetargeting := false;
     TargetTimePerBlock := 600; TargetTimespan := 60 * 60 * 24 * 14 |}.
Lemma line_pow_daa n : Z.of_nat n < 2 ^ 20 -> pow_tree_ok daa_params (line n).
Proof. intros Hn. destruct (line_pow n Hn) as [H1 H2 H3 H4 H5]. by split. Qed.
(** Blocks ten minutes apart keep their target, up to the compact form. *)
Lemma GetNextWorkRequired_target_witness :
  GetNextWorkRequired (E := unit) daa_params (line 2016) (Some 2016%nat) (toy_header 0 1) = Ok line_bits /\
  exists f l, daa_blocks (line 2016) 2016 f l /\
    GetNextWorkRequired (E := unit) daa_params (line 2016) (Some 2016%nat) (toy_header 0 1) = if GetBlockTime l <=? GetBlockTime f then Panic else Ok (BigToCompact (Z.min (PowLimit daa_params) (daa_target f l))).
Proof.
  split; [vm_compute; reflexivity|].
  apply (GetNextWorkRequired_target (E := unit) daa_params (line 2016) 2016 (line_block 2016) (toy_header 0 1)).
  - split; [cbn; lia|reflexivity|reflexivity].
  - apply line_pow_daa. lia.
  - apply line_lookup. split; [lia|reflexivity].
  - cbn. lia.
  - intros p c. rw line_lookup. intros [? ->]. unfold GetBlockTime. cbn. lia.
  - intros _. cbn. lia.
  - reflexivity.
  - vm_compute. reflexivity.
  - vm_compute. reflexivity.
Defined.
(** When the times stand still the rule panics. *)
Definition stopped (b : BlockIndex) : BlockIndex := mkBI (mkHeader 1 HashZero HashZero 5 line_bits 0 HashZero) (bi_blockHash b) (bi_Prev b) (bi_Skip b) (bi_Height b) 0 8 0 (bi_ChainWork b) 1 1 (3 .| BlockHaveData) 1 5.
Example still_times_panic : GetNextWorkRequired (E := unit) daa_params (stopped <$> line 2016) (Some 2016%nat) (toy_header 0 1) = Panic.
Proof. vm_compute. reflexivity. Qed.
