(* ===== verification/Lblock.v ===== *)
(** * Accepting headers and blocks (logic/lblock, service/blockservice.go)

    The checks of a header and of a block, alone and in the context of the chain, and
    the steps by which they enter the block tree.  Writing a block to disk and the
    clock are parameters; an error leaves the chain as it was unless the result says
    otherwise.  Notifications and the list of indexes to be written are not represented. *)
From S2P Require Import Prelude Errors Wire ScriptNum Opcodes Script ScriptFacts Tx TxFacts Crypto Compress Coins Block Undo BlockIndex.
From S2P Require Import Stack Slice Interp Ltx Chain Merkle Pow.

Inductive BlockErr :=
| BadBlock (e : TxErr)
| RejectObsolete (version : Z)
| ErrorBlockHeaderNoValid
| ErrorBlockHeaderNoParent
| ProjectError (code : Z).
#[export] Instance BlockErr_eq_dec : EqDecision BlockErr.
Proof. solve_decision. Defined.
Definition invalid_block {A : Type} (reason : string) : res BlockErr A := Err (BadBlock (RejectInvalid reason)).
Definition of_tx {A : Type} (m : res TxErr A) : res BlockErr A :=
  match m with Ok a => Ok a | Err e => Err (BadBlock e) | Panic => Panic end.

Section Lblock.
Context `{Hashes} (params : PowParams).
(** conf.Cfg.Excessiveblocksize and the minimum chain work of the network. *)
Context (Excessiveblocksize minimumChainWork : Z).

(** ** Headers (lblockheader.go) *)
Definition CheckBlockHeader (bh : BlockHeader) : res BlockErr unit :=
  if CheckProofOfWork params (Header_GetHash Sha256 bh).1 (Bits bh) then Ok tt else invalid_block "high-hash".
Definition ContextualCheckBlockHeader (h : bheap) (header : BlockHeader) (preIndex : option nat) (adjustTime : Z) : res BlockErr unit :=
  nHeight ← match preIndex with None => Ok 0 | Some q => b ← bload h q; Ok (i32 (bi_Height b + 1)) end;
  required ← GetNextWorkRequired params h preIndex header;
  if negb (Bits header =? required) then invalid_block "bad-diffbits"
  else
    mtp ← GetMedianTimePast h preIndex;
    if Time header <=? mtp then invalid_block "time-too-old"
    else if i64 (adjustTime + 2 * 60 * 60) <? Time header then invalid_block "time-too-new"
    else if ((Version header <? 2) && (BIP34Height (fp_net (pp_forks params)) <=? nHeight)) ||
            ((Version header <? 3) && (BIP66Height (pp_forks params) <=? nHeight)) ||
            ((Version header <? 4) && (BIP65Height (pp_forks params) <=? nHeight))
    then Err (RejectObsolete (Version header))
    else Ok tt.

(** A new index is allocated at [fresh]. *)
Definition AcceptBlockHeader (now : Z) (c : Chain) (bh : BlockHeader) : res BlockErr (Chain * nat) :=
  let '(hash, bh) := Header_GetHash Sha256 bh in
  match FindBlockIndex c hash with
  | Some q =>
      b ← bload (c_heap c) q;
      if IsInvalid b then Err ErrorBlockHeaderNoValid else Ok (c, q)
  | None =>
      CheckBlockHeader bh;;
      let q := fresh (dom (c_heap c)) in
      let '(bhash, bIndex) := GetBlockHash Sha256 (NewBlockIndex bh) in
      if bool_decide (bhash = GenesisHash (pp_forks params)) then
        c ← AddToIndexMap Sha256 (with_heap c (<[q := bIndex]> (c_heap c))) q; Ok (c, q)
      else
        match FindBlockIndex c (HashPrevBlock bh) with
        | None => Err ErrorBlockHeaderNoParent
        | Some pre =>
            pb ← bload (c_heap c) pre;
            if IsInvalid pb then Err (ProjectError 3100)
            else
              passed ← CheckIndexAgainstCheckpoint Sha256 (pp_forks params) c pre;
              if negb (passed : bool) then Err (ProjectError 3100)
              else
                ContextualCheckBlockHeader (c_heap c) bh (Some pre) now;;
                c ← AddToIndexMap Sha256 (with_heap c (<[q := set_Prev (Some pre) bIndex]> (c_heap c))) q; Ok (c, q)
        end
  end.
(** The headers of one message; the first error ends the loop.  [lastIndex] is the last
    header that was accepted. *)
Fixpoint accept_headers (now : Z) (c : Chain) (lastIndex : option nat) (headerList : list BlockHeader) : Chain * option nat * res BlockErr unit :=
  match headerList with
  | [] => (c, lastIndex, Ok tt)
  | bh :: l =>
      match AcceptBlockHeader now c bh with
      | Ok (c, q) => accept_headers now c (Some q) l
      | Err e => (c, lastIndex, Err e)
      | Panic => (c, lastIndex, Panic)
      end
  end.
(** The trace message at the end indexes the list, which panics when it is empty. *)
Definition ProcessBlockHeader (now : Z) (c : Chain) (headerList : list BlockHeader) (lastIndex : option nat) : Chain * option nat * res BlockErr unit :=
  match headerList with [] => (c, lastIndex, Panic) | _ => accept_headers now c lastIndex headerList end.

(** ** Blocks (lblock.go) *)
Definition set_Checked (b : Block) : Block := mkBlock (Header b) (Txs b) (serializesize b) true.
(** The block that is returned is marked as checked and knows its size. *)
Definition CheckBlock (pblock : Block) (checkHeader checkMerkle : bool) : res BlockErr Block :=
  if Checked pblock then Ok pblock
  else
    (if checkHeader then CheckBlockHeader (Header pblock) else Ok tt);;
    mutated ← (if checkMerkle then
                 '(root, mutated) ← BlockMerkleRoot Sha256 (Txs pblock);
                 if bool_decide (MerkleRoot (Header pblock) = root) then Ok mutated else invalid_block "bad-txnmrklroot"
               else Ok false);
    if (mutated : bool) then invalid_block "bad-txns-duplicate"
    else
      match Txs pblock with
      | [] => invalid_block "bad-cb-missing"
      | _ =>
          minTransactionSize ← Tx_EncodeSize NewEmptyTx;
          if Excessiveblocksize <? u64 (i64 (Z.of_nat (length (Txs pblock)) * minTransactionSize)) then invalid_block "bad-blk-length"
          else
            let '(currentBlockSize, pblock) := Block_SerializeSize pblock in
            if Excessiveblocksize <? u64 currentBlockSize then invalid_block "bad-blk-length"
            else
              match GetMaxBlockSigOpsCount (u64 currentBlockSize) with
              | None => Err (BadBlock (PlainError "block size should greater than 1"))
              | Some nMaxBlockSigOps =>
                  of_tx (CheckBlockTransactions (Txs pblock) nMaxBlockSigOps);;
                  Ok (set_Checked pblock)
              end
      end.

Definition ContextualCheckBlock (h : bheap) (b : Block) (indexPrev : option nat) : res BlockErr unit :=
  height ← match indexPrev with None => Ok 0 | Some q => x ← bload h q; Ok (i32 (bi_Height x + 1)) end;
  mediaTimePast ← match indexPrev with None => Ok 0 | Some q => GetMedianTimePast h (Some q) end;
  let lockTimeCutoff := if CSVHeight (pp_forks params) <=? height then mediaTimePast else Time (Header b) in
  of_tx (ContextureCheckBlockTransactions (fp_net (pp_forks params)) (Txs b) height lockTimeCutoff mediaTimePast).

(** [pos] is the file and the position of the block. *)
Definition set_position (n file pos : Z) (b : BlockIndex) : BlockIndex :=
  mkBI (bi_Header b) (bi_blockHash b) (bi_Prev b) (bi_Skip b) (bi_Height b) file pos 0 (bi_ChainWork b) n 0 (bi_Status b) (bi_SequenceID b) (bi_TimeMax b).
Definition ReceivedBlockTransactions {E : Type} (pblock : Block) (q : nat) (pos : Z * Z) (c : Chain) : res E Chain :=
  b ← bload (c_heap c) q;
  let b := AddStatus BlockHaveData (set_position (i32 (Z.of_nat (length (Txs pblock)))) pos.1 pos.2 b) in
  let b := (RaiseValidity BlockValidTransactions b).2 in
  let c := with_heap c (<[q := b]> (c_heap c)) in
  inside ← (if IsGenesis Sha256 (pp_forks params) c q then Ok true else ParentInBranch Sha256 c q);
  if (inside : bool) then
    r ← AddToBranch Sha256 (pp_forks params) c q; Ok (default c r)
  else
    pre ← deref (bi_Prev b); pb ← bload (c_heap c) pre;
    if BlockIndex_IsValid BlockValidTree pb then AddToOrphan c q else Ok c.

Inductive accepted :=
| Stored (q : nat)          (** checked, written and received *)
| AlreadyReceived (q : nat)
| LowWork (q : nat)         (** an unrequested block below the minimum chain work *)
| Rejected (e : BlockErr).

Definition MinBlocksToKeep : Z := 288.
Definition mark_failed {E : Type} (c : Chain) (q : nat) : res E Chain :=
  b ← bload (c_heap c) q; Ok (with_heap c (<[q := AddStatus BlockFailed b]> (c_heap c))).
(** [write] stands for WriteBlockToDisk. *)
Definition AcceptBlock (write : BlockIndex -> Block -> option (Z * Z)) (now : Z) (c : Chain) (pblock : Block) (fRequested : bool)
    : res BlockErr (Chain * Block * accepted) :=
  match AcceptBlockHeader now c (Header pblock) with
  | Panic => Panic
  | Err e => Ok (c, pblock, Rejected e)
  | Ok (c, q) =>
      b ← bload (c_heap c) q;
      if HasData b then Ok (c, pblock, AlreadyReceived q)
      else
        tipWork ← match tip c with None => Ok None | Some t => tb ← bload (c_heap c) t; Ok (Some (bi_ChainWork tb)) end;
        height ← Chain_Height c;
        let hasMoreWork := match tipWork with None => true | Some w => w <? bi_ChainWork b end in
        if negb fRequested && negb hasMoreWork then Ok (c, pblock, Rejected (ProjectError 3008))
        else if negb fRequested && (i32 (height + MinBlocksToKeep) <? bi_Height b) then Ok (c, pblock, Rejected (ProjectError 3007))
        else if negb fRequested && (bi_ChainWork b <? minimumChainWork) then Ok (c, pblock, LowWork q)
        else
          match CheckBlock pblock true true with
          | Panic => Panic
          | Err e => c ← mark_failed c q; Ok (c, pblock, Rejected e)
          | Ok pblock =>
              match ContextualCheckBlock (c_heap c) pblock (bi_Prev b) with
              | Panic => Panic
              | Err e => c ← mark_failed c q; Ok (c, pblock, Rejected e)
              | Ok _ =>
                  match write b pblock with
                  | None => Ok (c, pblock, Rejected (ProjectError 2001))
                  | Some pos => c ← ReceivedBlockTransactions pblock q pos c; Ok (c, pblock, Stored q)
                  end
              end
          end
  end.
(** ProcessNewBlock up to the activation of the best chain: a block that does not pass
    CheckBlock is refused before its header is looked at. *)
Definition ProcessNewBlock (write : BlockIndex -> Block -> option (Z * Z)) (now : Z) (c : Chain) (pblock : Block) (forceProcessing : bool)
    : res BlockErr (Chain * Block * accepted) :=
  match CheckBlock pblock true true with
  | Panic => Panic
  | Err e => Ok (c, pblock, Rejected e)
  | Ok pblock => AcceptBlock write now c pblock forceProcessing
  end.
End Lblock.
