(* ===== verification/LblockFacts.v ===== *)
(** * Accepting headers: the median time grows, and the invariant of the header tree *)
From stdpp Require Import sorting.
From S2P Require Import Prelude Errors Wire ScriptNum Opcodes Script ScriptFacts Tx TxFacts Crypto Compress Coins Block Undo BlockIndex.
From S2P Require Import Stack Slice Interp Ltx Chain ChainFacts BranchFacts VersionBits VersionBitsFacts Merkle Pow PowFacts Lblock.

(** ** The median *)
Definition below_count (m : Z) (l : list Z) : nat := length (filter (fun x => x < m) l).
#[export] Instance below_count_perm m : Proper ((≡ₚ) ==> eq) (below_count m).
Proof. intros l k Hp. unfold below_count. by rw Hp. Qed.
Lemma below_count_app m l k : below_count m (l ++ k) = (below_count m l + below_count m k)%nat.
Proof. unfold below_count. by rw filter_app length_app. Qed.
Lemma below_count_none m l : Forall (fun x => m <= x) l -> below_count m l = 0%nat.
Proof. induction 1 as [|x l Hx Hl IH]; [done|]. unfold below_count in *. rw filter_cons_False; [done|lia]. Qed.
Lemma below_count_all m l : Forall (fun x => x < m) l -> below_count m l = length l.
Proof. induction 1 as [|x l Hx Hl IH]; [done|]. unfold below_count in *. rw filter_cons_True //. cbn. by rw IH. Qed.
Lemma below_count_le m l : (below_count m l <= length l)%nat.
Proof. apply length_filter. Qed.

Lemma sorted_split (l : list Z) k v : StronglySorted Z.le l -> l !! k = Some v ->
  Forall (fun x => x <= v) (take (S k) l) /\ Forall (fun x => v <= x) (drop k l).
Proof.
  revert k. induction l as [|x l IH]; intros k Hs Hk; [done|]. apply StronglySorted_inv in Hs as [Hs Hx]. destruct k as [|k]; cbn in *.
  - injection Hk as ->. split; [by constructor|]. constructor; [lia|done].
  - destruct (IH k Hs Hk) as [H1 H2]. split; [|done]. constructor; [|done]. rw Forall_forall in Hx. apply Hx. by apply list_elem_of_lookup_2 in Hk.
Qed.
Lemma sorted_below (l : list Z) k v : StronglySorted Z.le l -> l !! k = Some v -> (below_count v l <= k)%nat.
Proof.
  intros Hs Hk. destruct (sorted_split l k v Hs Hk) as [_ Hd]. rw -(take_drop k l) below_count_app (below_count_none v _ Hd).
  pose proof (below_count_le v (take k l)). pose proof (length_take l k). lia.
Qed.
Lemma sorted_above (l : list Z) k v m : StronglySorted Z.le l -> l !! k = Some v -> (below_count m l <= k)%nat -> m <= v.
Proof.
  intros Hs Hk Hc. destruct (Z.le_gt_cases m v) as [|Hlt]; [done|]. destruct (sorted_split l k v Hs Hk) as [Hu _].
  rw -(take_drop (S k) l) below_count_app in Hc. rw below_count_all in Hc; [|eapply Forall_impl; [exact Hu|]; cbn; lia].
  apply lookup_lt_Some in Hk. rw length_take in Hc. lia.
Qed.

Lemma times_take h n : forall q, times n h q = take n (times (S n) h q).
Proof.
  induction n as [|n IH]; intros q; [done|]. destruct q as [q|]; [|done]. cbn [times]. destruct (h !! q) as [b|]; [|done]. rw firstn_cons. f_equal. apply IH.
Qed.
Lemma mtp_lookup h q : is_Some (h !! q) -> let l := merge_sort Z.le (times medianTimeSpan h (Some q)) in l !! (length l / 2)%nat = Some (mtp h q).
Proof.
  intros [b Hb] l. unfold mtp. fold l. assert (0 < length l)%nat as Hl by (unfold l; rw merge_sort_Permutation; cbn; rw Hb; cbn; lia).
  assert (length l / 2 < length l)%nat as Hi by (apply Nat.div_lt; lia). destruct (lookup_lt_is_Some_2 l _ Hi) as [x Hx]. rw Hx. f_equal. symmetry. by apply nth_lookup_Some.
Qed.
(** A block that is later than the median of its parent does not lower the median. *)
Lemma mtp_grows h q b r : h !! q = Some b -> bi_Prev b = Some r -> is_Some (h !! r) -> mtp h r <= Time (bi_Header b) -> mtp h r <= mtp h q.
Proof.
  intros Hq Hr Hrs Ht. set (m := mtp h r) in *. pose proof (mtp_lookup h r Hrs) as Hlr. pose proof (mtp_lookup h q (mk_is_Some _ _ Hq)) as Hlq. cbn zeta in Hlr, Hlq.
  set (sr := merge_sort Z.le (times medianTimeSpan h (Some r))) in *. set (sq := merge_sort Z.le (times medianTimeSpan h (Some q))) in *.
  assert (forall l, StronglySorted Z.le (merge_sort Z.le l)) as Hsort by (intros l; apply Sorted_StronglySorted; [apply _|apply Sorted_merge_sort; apply _]).
  apply (sorted_above sq (length sq / 2) _ m (Hsort _) Hlq). pose proof (sorted_below sr _ _ (Hsort _) Hlr) as Hc. fold m in Hc.
  assert (sr ≡ₚ times medianTimeSpan h (Some r)) as Hpr by apply merge_sort_Permutation. assert (sq ≡ₚ times medianTimeSpan h (Some q)) as Hpq by apply merge_sort_Permutation.
  assert (times medianTimeSpan h (Some q) = Time (bi_Header b) :: take 10 (times medianTimeSpan h (Some r))) as Htq.
  { unfold medianTimeSpan. rw -times_take. change 11%nat with (S 10). cbn [times]. rw Hq. by rw Hr. }
  assert (length sq = S (10 `min` length sr)) as Hlen by (rw Hpq Htq Hpr; cbn [length]; by rw length_take).
  assert (length sr <= 11)%nat as H11. { rw Hpr. clear. generalize (Some r). unfold medianTimeSpan. generalize 11%nat. intros n. induction n as [|n IH]; intros [q|]; cbn; try lia. destruct (h !! q); cbn; [|lia]. specialize (IH (bi_Prev b)). lia. }
  set (T := times medianTimeSpan h (Some r)) in *. assert (below_count m sr = below_count m T) as E1 by (by rw Hpr).
  assert (below_count m (take 10 T) <= below_count m T)%nat as E2 by (rw -{2}(take_drop 10 T) below_count_app; lia).
  assert (below_count m sq = below_count m (take 10 T)) as E3 by (rw Hpq Htq; unfold below_count; rw filter_cons_False; [done|lia]).
  assert (length sr / 2 <= length sq / 2)%nat by (apply Nat.Div0.div_le_mono; lia). lia.
Qed.

(** A new index does not change the times of the others. *)
Lemma times_insert h q b : tree_ok h -> h !! q = None -> forall n p, p <> q -> is_Some (h !! p) -> times n (<[q := b]> h) (Some p) = times n h (Some p).
Proof.
  intros Ht Hq n. induction n as [|n IH]; intros p Hpq [c Hc]; [done|]. cbn [times]. rw lookup_insert_ne // Hc. f_equal.
  destruct (bi_Prev c) as [r|] eqn:Er; [|by destruct n]. destruct (tr_prev h Ht p c r Hc Er) as (d & Hd & _). apply IH; [|by eexists]. intros ->. congruence.
Qed.
Lemma mtp_insert h q b p : tree_ok h -> h !! q = None -> is_Some (h !! p) -> mtp (<[q := b]> h) p = mtp h p.
Proof. intros Ht Hq [c Hc]. unfold mtp. rw (times_insert h q b Ht Hq _ p); [done|intros ->; congruence|by eexists]. Qed.

(** ** The header tree *)
Section Headers.
Context `{Hashes} (params : PowParams).

(** The invariant of the header tree. *)
Record header_inv (c : Chain) : Prop := {
  hi_chain : chain_ok c;
  hi_pow : pow_tree_ok params (c_heap c);
  hi_time q b r : c_heap c !! q = Some b -> bi_Prev b = Some r -> mtp (c_heap c) r < Time (bi_Header b);
  hi_genesis : is_Some (FindBlockIndex c (GenesisHash (pp_forks params))) }.
(** What is assumed of a header that is offered: a time that fits its field, a hash that
    is not its own parent's, and a branch within the limits of height and work. *)
Definition header_fits (c : Chain) (bh : BlockHeader) : Prop :=
  is_u 32 (Time bh) /\ HashPrevBlock bh <> (Header_GetHash Sha256 bh).1 /\
  forall pre pb, FindBlockIndex c (HashPrevBlock bh) = Some pre -> c_heap c !! pre = Some pb ->
    bi_Height pb + 1 < 2 ^ 31 /\ bi_ChainWork pb + GetBlockProof (NewBlockIndex bh) < 2 ^ 256.
(** The rules for a header above the block [pre]. *)
Record header_rules (now : Z) (c : Chain) (bh : BlockHeader) (pre : nat) (pb : BlockIndex) : Prop := {
  hr_pow : 0 < CompactToBig (Bits bh) <= PowLimit params /\ HashToBig (Header_GetHash Sha256 bh).1 <= CompactToBig (Bits bh);
  hr_bits : GetNextWorkRequired (E := BlockErr) params (c_heap c) (Some pre) (Header_GetHash Sha256 bh).2 = Ok (Bits bh);
  hr_time : mtp (c_heap c) pre < Time bh <= i64 (now + 7200);
  hr_parent : IsInvalid pb = false;
  hr_checkpoint : CheckIndexAgainstCheckpoint (E := BlockErr) Sha256 (pp_forks params) c pre = Ok true;
  hr_version : (BIP34Height (fp_net (pp_forks params)) <= bi_Height pb + 1 -> 2 <= Version bh) /\
    (BIP66Height (pp_forks params) <= bi_Height pb + 1 -> 3 <= Version bh) /\ (BIP65Height (pp_forks params) <= bi_Height pb + 1 -> 4 <= Version bh) }.

Lemma CheckProofOfWork_true hash c : CheckProofOfWork params hash c = true -> 0 < CompactToBig c <= PowLimit params /\ HashToBig hash <= CompactToBig c.
Proof.
  unfold CheckProofOfWork.
  destruct (Z.leb_spec (CompactToBig c) 0), (Z.ltb_spec (PowLimit params) (CompactToBig c)), (Z.ltb_spec (CompactToBig c) (HashToBig hash)); cbn [orb]; try done; lia.
Qed.
Lemma Header_GetHash_twice bh : (Header_GetHash Sha256 (Header_GetHash Sha256 bh).2).1 = (Header_GetHash Sha256 bh).1.
Proof.
  unfold Header_GetHash. destruct (negb (Hash_IsNull (header_Hash bh))) eqn:E; cbv zeta; cbn [fst snd header_Hash]; [by rw E|].
  destruct (negb (Hash_IsNull (DoubleSha256Hash _ _))); reflexivity.
Qed.

Lemma fresh_index_hashed hdr pre : exists b, GetBlockHash Sha256 (NewBlockIndex hdr) = ((Header_GetHash Sha256 hdr).1, b) /\ fresh_index Sha256 hdr pre (set_Prev pre b).
Proof.
  pose proof (Header_GetHash_same Sha256 hdr) as Hs. pose proof (Header_GetHash_twice hdr) as Ht. unfold GetBlockHash. cbn. destruct (Header_GetHash Sha256 hdr) as [d hd] eqn:E. cbn [fst snd] in *.
  eexists. split; [reflexivity|]. exists hd, d. split_and!; [done|done|]. unfold GetBlockHash. cbn [bi_blockHash set_Prev bi_Header]. rw E.
  destruct (Hash_IsNull d); [|done]. destruct (Header_GetHash Sha256 hd) as [d' hd'] eqn:E'. cbn in *. done.
Qed.
Lemma ContextualCheckBlockHeader_ok h hdr pre pb now u : tree_ok h -> h !! pre = Some pb -> bi_Height pb + 1 < 2 ^ 31 ->
  ContextualCheckBlockHeader params h hdr (Some pre) now = Ok u ->
  GetNextWorkRequired (E := BlockErr) params h (Some pre) hdr = Ok (Bits hdr) /\ mtp h pre < Time hdr <= i64 (now + 7200) /\
  (BIP34Height (fp_net (pp_forks params)) <= bi_Height pb + 1 -> 2 <= Version hdr) /\
  (BIP66Height (pp_forks params) <= bi_Height pb + 1 -> 3 <= Version hdr) /\ (BIP65Height (pp_forks params) <= bi_Height pb + 1 -> 4 <= Version hdr).
Proof.
  intros Ht Hp Hb Hc. unfold ContextualCheckBlockHeader in Hc. rw (bload_Some _ _ _ Hp) in Hc. cbn [mbind res_bind] in Hc. pose proof (tr_height h Ht pre pb Hp) as Hh.
  rw i32_id in Hc; last int_lia. destruct (GetNextWorkRequired params h (Some pre) hdr) as [req| |]; [|done|done]. cbn [mbind res_bind] in Hc.
  destruct (Z.eqb_spec (Bits hdr) req) as [Heq|]; [|done]. cbn [negb] in Hc. rw (GetMedianTimePast_ok h pre Ht (mk_is_Some _ _ Hp)) in Hc. cbn [mbind res_bind] in Hc.
  destruct (Z.leb_spec (Time hdr) (mtp h pre)); [done|]. change (2 * 60 * 60) with 7200 in Hc. destruct (Z.ltb_spec (i64 (now + 7200)) (Time hdr)); [done|].
  destruct (_ || _) eqn:Ev in Hc; [done|]. apply orb_false_iff in Ev as [Ev E3]. apply orb_false_iff in Ev as [E1 E2]. split; [by rw Heq|]. split; [lia|]. lia.
Qed.

Lemma linked_same h pre a b x : same_header a b -> (Header_GetHash Sha256 a).1 = (Header_GetHash Sha256 b).1 -> linked Sha256 h pre a x -> linked Sha256 h pre b x.
Proof.
  intros (Hv & Hp & Hr & Ht & Hb & Hn) Hh (H1 & H2 & H3 & H4 & H5 & (S1 & S2 & S3 & S4 & S5 & S6) & H7 & H8).
  split_and!; [done|done|by rw H3 /GetBlockProof /= Hb|by rw H4 Ht|done| |by rw H7|done]. unfold same_header. split_and!; congruence.
Qed.
Lemma pow_tree_insert c q b pre pb : pow_tree_ok params (c_heap c) -> c_heap c !! q = None -> c_heap c !! pre = Some pb -> tree_ok (<[q := b]> (c_heap c)) ->
  bi_Prev b = Some pre -> 0 < CompactToBig (Bits (bi_Header b)) <= PowLimit params -> is_u 32 (Time (bi_Header b)) ->
  bi_ChainWork b = bi_ChainWork pb + GetBlockProof b -> bi_ChainWork b < 2 ^ 256 -> pow_tree_ok params (<[q := b]> (c_heap c)).
Proof.
  intros [Ht Htar Htime Hrange Hwork] Hq Hpre Ht' Hprev Hb1 Hb2 Hb3 Hb4. assert (0 <= GetBlockProof b) as Hproof.
  { unfold GetBlockProof. destruct (_ <=? 0) eqn:E; [lia|]. apply Z.div_pos; [unfold oneLsh256; lia|lia]. }
  split; [done|..]; intros p x; (destruct (decide (q = p)) as [<-|Hne]; [rw lookup_insert_eq|rw lookup_insert_ne //]).
  - by intros [= <-].
  - by apply Htar.
  - by intros [= <-].
  - by apply Htime.
  - intros [= <-]. pose proof (Hrange pre pb Hpre). lia.
  - by apply Hrange.
  - intros r d [= <-] Hr. rw Hprev in Hr. injection Hr as <-. rw lookup_insert_ne; [|congruence]. rw Hpre. intros [= <-]. done.
  - intros r d Hx Hr. destruct (tr_prev _ Ht p x r Hx Hr) as (y & Hy & _). rw lookup_insert_ne; [|congruence]. by apply (Hwork p).
Qed.

Lemma header_inv_add c q b best pre pb bh : let hash := (Header_GetHash Sha256 bh).1 in
  header_inv c -> c_heap c !! q = None -> c_heap c !! pre = Some pb -> FindBlockIndex c (HashPrevBlock bh) = Some pre -> header_fits c bh ->
  tree_ok (<[q := b]> (c_heap c)) -> linked Sha256 (c_heap c) (Some pre) bh b -> (best = Some q \/ best = pindexBestHeader c) ->
  0 < CompactToBig (Bits bh) <= PowLimit params -> mtp (c_heap c) pre < Time bh ->
  header_inv (mkChain (<[q := b]> (c_heap c)) (active c) (branch c) (orphan c) (<[hash := q]> (indexMap c)) (receiveID c) best (tip c) (isCurrent c)).
Proof.
  intros hash [Hch Hpow Htime Hgen] Hq Hpre Hf (Hu & _ & Hfit) Ht (Hprev & Hh & Hw & _ & _ & (_ & _ & _ & Htm & Hbits & _) & _ & _) Hbest Htar Hmtp.
  destruct (Hfit pre pb Hf Hpre) as [_ Hmax]. cbn in Hw. rw {1}/work_of Hpre in Hw. cbn in Hw.
  assert (GetBlockProof b = GetBlockProof (NewBlockIndex bh)) as Hpr by (unfold GetBlockProof; cbn; by rw Hbits).
  split; cbn [c_heap]; [by apply chain_ok_add| | |].
  - apply (pow_tree_insert c q b pre pb); try done; [by rw Hbits|by rw Htm|lia|lia].
  - intros p x r. destruct (decide (q = p)) as [<-|Hne]; [rw lookup_insert_eq; intros [= <-]|rw lookup_insert_ne //; intros Hx]; intros Hr.
    + rw Hprev in Hr. injection Hr as <-. rw mtp_insert; [by rw Htm|apply (co_tree c Hch)|done|by eexists].
    + destruct (tr_prev _ (co_tree c Hch) p x r Hx Hr) as (y & Hy & _). rw mtp_insert; [by apply (Htime p)|apply (co_tree c Hch)|done|by eexists].
  - unfold FindBlockIndex in *. cbn. destruct (decide (hash = GenesisHash (pp_forks params))) as [->|]; [rw lookup_insert_eq; by eexists|by rw lookup_insert_ne].
Qed.

Lemma AcceptBlockHeader_inv now c bh c' q : header_inv c -> header_fits c bh -> AcceptBlockHeader params now c bh = Ok (c', q) ->
  let hash := (Header_GetHash Sha256 bh).1 in
  (c' = c /\ FindBlockIndex c hash = Some q /\ exists b, c_heap c !! q = Some b /\ IsInvalid b = false) \/
  (exists pre pb b, FindBlockIndex c hash = None /\ FindBlockIndex c (HashPrevBlock bh) = Some pre /\ c_heap c !! pre = Some pb /\
     header_rules now c bh pre pb /\ c_heap c !! q = None /\ c_heap c' = <[q := b]> (c_heap c) /\ indexMap c' = <[hash := q]> (indexMap c) /\
     (branch c' = branch c /\ orphan c' = orphan c /\ active c' = active c /\ tip c' = tip c) /\ linked Sha256 (c_heap c) (Some pre) bh b /\ header_inv c').
Proof.
  intros Hinv Hfit Ha. cbv zeta. unfold AcceptBlockHeader in Ha. pose proof (Header_GetHash_same Sha256 bh) as (Hsv & Hsp & Hsr & Hst & Hsb & Hsn).
  pose proof (Header_GetHash_twice bh) as Htwice. pose proof Hinv as [Hch Hpow Htime Hgen]. pose proof Hch as [Htree Hpath [Hmi Hmb]].
  destruct (Header_GetHash Sha256 bh) as [hash bh'] eqn:Eh. cbn [fst snd] in *.
  destruct (FindBlockIndex c hash) as [r|] eqn:Ef.
  { left. destruct (Hmi hash r Ef) as [b Hb]. rw (bload_Some _ r b Hb) in Ha. cbn [mbind res_bind] in Ha. destruct (IsInvalid b) eqn:Ei; [done|]. injection Ha as <- <-. eauto. }
  right. unfold CheckBlockHeader in Ha. rw Htwice Hsb in Ha. destruct (CheckProofOfWork params hash (Bits bh)) eqn:Ep; [|done]. cbn [mbind res_bind] in Ha.
  set (p := fresh (dom (c_heap c))) in *. assert (c_heap c !! p = None) as Hfresh by (apply not_elem_of_dom, is_fresh).
  assert (hash <> GenesisHash (pp_forks params)) as Hng by (intros E; rw -E in Hgen; rw Ef in Hgen; by destruct Hgen).
  assert (forall pre, exists b, GetBlockHash Sha256 (NewBlockIndex bh') = (hash, b) /\ fresh_index Sha256 bh' (Some pre) (set_Prev (Some pre) b)) as Hidx.
  { intros pre. destruct (fresh_index_hashed bh' (Some pre)) as (b & Hb & Hfr). rw Htwice in Hb. by exists b. }
  destruct (GetBlockHash Sha256 (NewBlockIndex bh')) as [d bIndex] eqn:Egb. assert (d = hash) as -> by (destruct (Hidx 0%nat) as (b & [= -> _] & _); done).
  rw bool_decide_eq_false_2 // in Ha. rw Hsp in Ha. destruct (FindBlockIndex c (HashPrevBlock bh)) as [pre|] eqn:Epre; [|done].
  destruct (Hmi _ _ Epre) as [pb Hpb]. rw (bload_Some _ pre pb Hpb) in Ha. cbn [mbind res_bind] in Ha. destruct (IsInvalid pb) eqn:Einv; [done|].
  destruct (CheckIndexAgainstCheckpoint Sha256 (pp_forks params) c pre) as [[]| |] eqn:Ecp; try done. cbn [mbind res_bind negb] in Ha.
  destruct (ContextualCheckBlockHeader params (c_heap c) bh' (Some pre) now) as [u| |] eqn:Ectx; try done. cbn [mbind res_bind] in Ha.
  destruct (Hfit) as (Hu & Hself & Hlim). rw Eh in Hself. destruct (Hlim pre pb Epre Hpb) as [Hlh Hlw].
  destruct (ContextualCheckBlockHeader_ok _ _ _ _ _ _ Htree Hpb Hlh Ectx) as (Hbits & Htm & Hver). rw Hsb in Hbits. rw Hst in Htm. rw Hsv in Hver.
  destruct (Hidx pre) as (b0 & [= <-] & Hfr).
  match type of Ha with context [AddToIndexMap Sha256 ?cc p] =>
    destruct (AddToIndexMap_ok (E := BlockErr) Sha256 (c_heap c) cc p bh' (set_Prev (Some pre) bIndex) (Some pre)) as (b & best & Hadd & Hl & Ht' & Hbest & _) end;
    [done|done|done|done|right; cbn; rw Hsp; exact (eq_sym Epre)|by split|rw Hst; apply Hu|rw Hsp Htwice; exact Hself| |].
  { cbn. rw Hsp. intros r rb Hr Hrb. apply (Hlim r rb); [exact Hr|done]. }
  rw Hadd in Ha. cbn [mbind res_bind] in Ha. injection Ha as <- <-. cbn in Hl. rw Hsp in Hl. change (indexMap c !! HashPrevBlock bh) with (FindBlockIndex c (HashPrevBlock bh)) in Hl. rw Epre in Hl.
  assert (linked Sha256 (c_heap c) (Some pre) bh b) as Hl'.
  { apply (linked_same _ _ bh'); [done|by rw Htwice Eh|done]. }
  destruct (CheckProofOfWork_true _ _ Ep) as [Ht1 Ht2].
  exists pre, pb, b. cbn [c_heap active branch orphan receiveID tip isCurrent with_heap indexMap pindexBestHeader]. rw Htwice. split_and!; try done.
  - split; try done; [by rw Eh|by rw Eh].
  - pose proof (header_inv_add c p b best pre pb bh) as Hadd'. rw Eh in Hadd'. cbn [fst] in Hadd'. apply Hadd'; try done. lia.
Qed.
End Headers.

(** ** What the data of a block leaves alone *)
#[export] Instance times_proper n : Proper (same_links ==> eq ==> eq) (times n).
Proof.
  intros h h' Hs q ? <-. revert q. induction n as [|n IH]; intros [q|]; try done. cbn [times]. pose proof (Hs q) as Hq.
  destruct (h !! q) as [b|], (h' !! q) as [b'|]; try done. apply fmap_Some_eq, links_inv in Hq as (-> & _ & -> & _). by rw IH.
Qed.
#[export] Instance mtp_proper : Proper (same_links ==> eq ==> eq) mtp.
Proof. intros h h' Hs q ? <-. unfold mtp. by rw (times_proper _ _ _ Hs _ _ eq_refl). Qed.
#[export] Instance path_to_proper : Proper (same_links ==> eq ==> eq ==> iff) path_to.
Proof.
  assert (forall h h' l t, same_links h h' -> path_to h l t -> path_to h' l t) as Hdir; [|intros h h' Hs l ? <- t ? <-; split; by apply Hdir].
  intros h h' l [q|] Hs; cbn; [|done]. intros (b & Hb & Hlen & Hl). destruct (same_links_lookup _ _ _ _ Hs Hb) as (b' & Hb' & Hc). apply links_inv in Hc as (_ & _ & _ & _ & Hh & _).
  exists b'. rw Hh. split_and!; [done|done|]. intros k Hk. by rw -Hs Hl.
Qed.
Lemma same_links_is_Some h h' y : same_links h h' -> is_Some (h !! y) -> is_Some (h' !! y).
Proof. intros Hs [b Hb]. destruct (same_links_lookup _ _ _ _ Hs Hb) as (b' & ? & _). by eexists. Qed.
#[export] Instance pow_tree_proper params : Proper (same_links ==> iff) (pow_tree_ok params).
Proof.
  assert (forall h h', same_links h h' -> pow_tree_ok params h -> pow_tree_ok params h') as Hdir; [|intros h h' Hs; split; by apply Hdir].
  intros h h' Hs [Ht Htar Htime Hrange Hwork]. assert (forall y b', h' !! y = Some b' -> exists b, h !! y = Some b /\ links b = links b') as Hback.
  { intros y b' Hy. symmetry in Hs. by apply (same_links_lookup h' h y b'). }
  split; [by rw -Hs|..]; intros p b; [| | |intros q c]; intros Hp; destruct (Hback p b Hp) as (b0 & H0 & Hc); apply links_inv in Hc as (Hc1 & Hc2 & Hc3 & Hc4 & Hc5 & Hc6).
  - rw -Hc1. by apply (Htar p).
  - unfold GetBlockTime. rw -Hc1. by apply (Htime p).
  - rw -Hc6. by apply (Hrange p).
  - rw -Hc3 -Hc6. intros Hq Hc. destruct (Hback q c Hc) as (c0 & Hc0 & Hl). apply links_inv in Hl as (_ & _ & _ & _ & _ & Hcw). rw -Hcw (Hwork p b0 q c0 H0 Hq Hc0).
    unfold GetBlockProof. by rw Hc1.
Qed.
Lemma header_inv_links params c c' : same_links (c_heap c) (c_heap c') -> active c' = active c -> tip c' = tip c -> indexMap c' = indexMap c ->
  pindexBestHeader c' = pindexBestHeader c -> header_inv params c -> header_inv params c'.
Proof.
  intros Hs Ha Ht Hi Hb [[Htree Hpath [Hmi Hmb]] Hpow Htime Hgen]. split.
  - split; [by rw -Hs|by rw Ha Ht -Hs|]. split; [rw Hi; intros k r Hk; by eapply same_links_is_Some, Hmi|rw Hb; intros r Hr; by eapply same_links_is_Some, Hmb].
  - by rw -Hs.
  - intros q b r Hq. symmetry in Hs. destruct (same_links_lookup _ _ _ _ Hs Hq) as (b0 & H0 & Hc). apply links_inv in Hc as (Hc1 & _ & Hc3 & _).
    rw -Hc1 -Hc3 Hs. by apply (Htime q).
  - unfold FindBlockIndex in *. by rw Hi.
Qed.
