(* ===== verification/TreeFacts.v ===== *)
(** * Blocks in the block tree

    The candidates are the blocks whose ancestors have all been received: the invariant
    of the candidates and of the blocks that wait for a parent. *)
From S2P Require Import Prelude Errors Wire ScriptNum Opcodes Script ScriptFacts Tx TxFacts Crypto Compress Coins Block Undo BlockIndex.
From S2P Require Import Stack Slice Interp Ltx Chain ChainFacts BranchFacts VersionBits VersionBitsFacts Merkle Pow PowFacts Lblock LblockFacts.

(** ** Status bits *)
Lemma HasData_bit b : HasData b = Z.testbit (bi_Status b) 3.
Proof. unfold HasData. change BlockHaveData with (2 ^ 3). by rw land_pow2_eqb0 // negb_involutive. Qed.
Lemma IsInvalid_bits b : IsInvalid b = Z.testbit (bi_Status b) 5 || Z.testbit (bi_Status b) 6.
Proof.
  unfold IsInvalid. set (s := bi_Status b). change BlockInvalidMask with (2 ^ 5 .| 2 ^ 6). rw Z.land_lor_distr_r !land_pow2_testbit //.
  by destruct (Z.testbit s 5), (Z.testbit s 6).
Qed.
Lemma AddStatus_bit s n b : Z.testbit (bi_Status (AddStatus s b)) n = Z.testbit (bi_Status b) n || Z.testbit s n.
Proof. apply Z.lor_spec. Qed.
Lemma RaiseValidity_bit upto n b : 3 <= n -> 0 <= upto < 8 -> Z.testbit (bi_Status (RaiseValidity upto b).2) n = Z.testbit (bi_Status b) n.
Proof.
  intros Hn Hu. unfold RaiseValidity. destruct (IsInvalid b); [done|]. destruct (_ <=? _); [done|]. cbn [snd set_Status bi_Status]. rw Z.lor_spec Z.ldiff_spec.
  assert (forall x, 0 <= x < 8 -> Z.testbit x n = false) as Hlow by (intros x Hx; rw -(Z.mod_small x (2 ^ 3)) //; apply Z.mod_pow2_bits_high; lia).
  rw (Hlow upto Hu) (Hlow BlockValidMask); last done. by destruct (Z.testbit _ n).
Qed.
Lemma getValidity_lor s b : s .& BlockValidMask = 0 -> getValidity (AddStatus s b) = getValidity b.
Proof. intros Hs. unfold getValidity. cbn. by rw Z.land_lor_distr_l Hs Z.lor_0_r. Qed.
Lemma RaiseValidity_ge upto b : 0 <= upto < 8 -> getValidity b <= getValidity (RaiseValidity upto b).2.
Proof.
  intros Hu. unfold RaiseValidity. destruct (IsInvalid b); [done|]. destruct (Z.leb_spec upto (getValidity b)); [done|]. unfold getValidity in *. cbn [snd set_Status bi_Status].
  rw Z.land_lor_distr_l Z.land_ldiff Z.lor_0_l. change BlockValidMask with (Z.ones 3) at 2. rw Z.land_ones // Z.mod_small //. lia.
Qed.

Lemma by_work_ext h h' l : (forall x, x ∈ l -> work_of h x = work_of h' x) -> by_work h l -> by_work h' l.
Proof.
  intros Hw Hs. revert Hw. induction Hs as [|x l Hl IH Hx]; intros Hw; [constructor|]. constructor; [apply IH; intros; apply Hw; set_solver|].
  rw !Forall_forall in Hx |- *. intros y Hy. unfold lighter. rw -!Hw; [by apply Hx|set_solver|set_solver].
Qed.

Section Tree.
Context `{Hashes} (params : PowParams).
Notation forks := (pp_forks params).
Abbreviation hash c q := (hash_of Sha256 (c_heap c) q).

(** The indexes are found by their hashes and linked by them; only the first block has
    no parent. *)
Record index_inv (c : Chain) : Prop := {
  bv_header : header_inv params c;
  bv_hash q b : c_heap c !! q = Some b -> FindBlockIndex c (hash c q) = Some q;
  bv_map k q : FindBlockIndex c k = Some q -> hash c q = k;
  bv_parent q b r : c_heap c !! q = Some b -> bi_Prev b = Some r -> hash c r = HashPrevBlock (bi_Header b);
  bv_root q b : c_heap c !! q = Some b -> bi_Prev b = None <-> hash c q = GenesisHash forks;
  bv_valid q b : c_heap c !! q = Some b -> BlockValidTree <= getValidity b;
  bv_pow q b : c_heap c !! q = Some b -> HashToBig (hash c q) <= CompactToBig (Bits (bi_Header b)) }.
(** The candidates have data and are closed under parents, and a block with data is a
    candidate, waits for a parent that is none, or is the child of a block that failed. *)
Record block_inv (c : Chain) : Prop := {
  bv_index : index_inv c;
  bv_sorted : by_work (c_heap c) (branch c);
  bv_branch q : q ∈ branch c -> exists b, c_heap c !! q = Some b /\ HasData b = true /\ forall r, bi_Prev b = Some r -> r ∈ branch c;
  bv_orphan k l y : orphan c !! k = Some l -> y ∈ l -> exists b r, c_heap c !! y = Some b /\ HasData b = true /\ bi_Prev b = Some r /\ HashPrevBlock (bi_Header b) = k;
  bv_data q b : c_heap c !! q = Some b -> HasData b = true -> q ∈ branch c \/
    exists r rb, bi_Prev b = Some r /\ c_heap c !! r = Some rb /\
      (IsInvalid rb = true \/ r ∉ branch c /\ q ∈ default [] (orphan c !! HashPrevBlock (bi_Header b))) }.

Lemma bv_tree c : block_inv c -> tree_ok (c_heap c).
Proof. intros Hi. apply (co_tree c), (hi_chain params), (bv_header c (bv_index c Hi)). Qed.
Lemma hash_inj c x y : block_inv c -> is_Some (c_heap c !! x) -> is_Some (c_heap c !! y) -> hash c x = hash c y -> x = y.
Proof. intros Hi [b Hx] [d Hy] Hh. pose proof (bv_hash c (bv_index c Hi) x b Hx) as H1. pose proof (bv_hash c (bv_index c Hi) y d Hy) as H2. rw Hh in H1. congruence. Qed.
Lemma InBranch_elem c x : block_inv c -> is_Some (c_heap c !! x) -> InBranch Sha256 c x = true <-> x ∈ branch c.
Proof.
  intros Hi Hx. rw InBranch_spec. split; [|intros Hb; by exists x]. intros (y & Hy & Hh). destruct (bv_branch c Hi y Hy) as (b & Hb & _).
  rw -(hash_inj c y x Hi) //.
Qed.

(** ** The statuses of the indexes *)
(** The indexes keep their places; data and failures stay. *)
Definition status_step (h h' : bheap) : Prop :=
  same_links h h' /\ forall q b b', h !! q = Some b -> h' !! q = Some b' ->
    (HasData b = true -> HasData b' = true) /\ (IsInvalid b = true -> IsInvalid b' = true) /\ getValidity b <= getValidity b'.
Lemma status_step_back h h' q b' : status_step h h' -> h' !! q = Some b' -> exists b, h !! q = Some b /\ links b = links b' /\
  (HasData b = true -> HasData b' = true) /\ (IsInvalid b = true -> IsInvalid b' = true) /\ getValidity b <= getValidity b'.
Proof.
  intros [Hl Hs] Hq. symmetry in Hl. destruct (same_links_lookup h' h q b' Hl Hq) as (b & Hb & Hlk). exists b. split; [done|]. split; [done|]. by apply (Hs q).
Qed.
Lemma status_step_fwd h h' q b : status_step h h' -> h !! q = Some b -> exists b', h' !! q = Some b' /\ links b' = links b /\
  (HasData b = true -> HasData b' = true) /\ (IsInvalid b = true -> IsInvalid b' = true) /\ getValidity b <= getValidity b'.
Proof. intros [Hl Hs] Hq. destruct (same_links_lookup h h' q b Hl Hq) as (b' & Hb & Hlk). exists b'. split; [done|]. split; [done|]. by apply (Hs q). Qed.
Lemma status_step_trans h1 h2 h3 : status_step h1 h2 -> status_step h2 h3 -> status_step h1 h3.
Proof.
  intros H12 H23. split; [etrans; [apply H12|apply H23]|]. intros q b b' Hb Hb'. destruct (status_step_fwd h1 h2 q b H12 Hb) as (b2 & Hb2 & _ & Hd & Hn & Hv).
  destruct (proj2 H23 q b2 b' Hb2 Hb') as (? & ? & ?). split_and!; [auto|auto|lia].
Qed.
Lemma status_insert h q b b' : h !! q = Some b -> links b' = links b -> (HasData b = true -> HasData b' = true) ->
  (IsInvalid b = true -> IsInvalid b' = true) -> getValidity b <= getValidity b' -> status_step h (<[q := b']> h).
Proof.
  intros Hq Hl Hd Hi Hv. split; [by apply (same_links_insert h q b)|]. intros p x y Hx. destruct (decide (q = p)) as [<-|Hne].
  - rw lookup_insert_eq. intros [= <-]. rw Hq in Hx. injection Hx as <-. done.
  - rw lookup_insert_ne //. intros Hy. rw Hx in Hy. by injection Hy as <-.
Qed.
Lemma status_core h h' : same_core h h' -> status_step h h'.
Proof.
  intros Hs. split; [by apply same_core_links|]. intros q b b' Hb Hb'. pose proof (same_core_status h h' q Hs) as Hst. rw Hb Hb' in Hst. injection Hst as Hst.
  unfold HasData, IsInvalid, getValidity. by rw Hst.
Qed.

Lemma index_inv_status c c' : index_inv c -> status_step (c_heap c) (c_heap c') -> active c' = active c -> tip c' = tip c -> indexMap c' = indexMap c ->
  pindexBestHeader c' = pindexBestHeader c -> index_inv c'.
Proof.
  intros [Hhd Hhash Hmap Hpar Hroot Hval Hpow] Hst Ha Ht Him Hb. pose proof Hst as [Hl _]. assert (forall q, hash c' q = hash c q) as Hh by (intros q; by rw -Hl).
  assert (forall k, FindBlockIndex c' k = FindBlockIndex c k) as Hf by (intros k; unfold FindBlockIndex; by rw Him).
  split; [by apply (header_inv_links params c)|..]; [intros q b' Hq|intros k q|intros q b' r Hq Hr|intros q b' Hq|intros q b' Hq|intros q b' Hq];
    try (destruct (status_step_back _ _ _ _ Hst Hq) as (b & Hb0 & Hlk & _ & _ & Hv); apply links_inv in Hlk as (Hl1 & _ & Hl3 & _)); rw ?Hh ?Hf.
  - by apply (Hhash q b).
  - apply Hmap.
  - rw -Hl1. apply (Hpar q b r Hb0). congruence.
  - rw -Hl3. by apply (Hroot q b).
  - pose proof (Hval q b Hb0). lia.
  - rw -Hl1. by apply (Hpow q b).
Qed.

(** A failed block: only statuses change, and no block gets data. *)
Lemma block_inv_status c h : block_inv c -> status_step (c_heap c) h ->
  (forall q b b', c_heap c !! q = Some b -> h !! q = Some b' -> HasData b' = true -> HasData b = true) -> block_inv (with_heap c h).
Proof.
  intros [Hidx Hsort Hbr Horp Hdata] Hst Hnew. pose proof Hst as [Hl _]. split; cbn [c_heap with_heap branch orphan].
  - by apply (index_inv_status c).
  - by apply (by_work_proper _ _ Hl _ _ eq_refl).
  - intros q Hq. destruct (Hbr q Hq) as (b & Hb & Hd & Hp). destruct (status_step_fwd _ _ _ _ Hst Hb) as (b' & Hb' & Hlk & Hd' & _). apply links_inv in Hlk as (_ & _ & Hl3 & _).
    exists b'. split; [done|]. split; [by apply Hd'|]. intros r. rw Hl3. apply Hp.
  - intros k l y Hk Hy. destruct (Horp k l y Hk Hy) as (b & r & Hb & Hd & Hr & Hp). destruct (status_step_fwd _ _ _ _ Hst Hb) as (b' & Hb' & Hlk & Hd' & _).
    apply links_inv in Hlk as (Hl1 & _ & Hl3 & _). exists b', r. rw Hl1 Hl3. split_and!; auto.
  - intros q b' Hq Hd. destruct (status_step_back _ _ _ _ Hst Hq) as (b & Hb & Hlk & _). apply links_inv in Hlk as (Hl1 & _ & Hl3 & _). rw -Hl1 -Hl3.
    destruct (Hdata q b Hb (Hnew q b b' Hb Hq Hd)) as [|(r & rb & Hr & Hrb & Hw)]; [by left|right]. destruct (status_step_fwd _ _ _ _ Hst Hrb) as (rb' & Hrb' & _ & _ & Hinv & _).
    exists r, rb'. split_and!; [done|done|]. destruct Hw; auto.
Qed.

(** ** A new header *)
Definition header_offered (c : Chain) (bh : BlockHeader) : Prop := header_fits c bh /\ Hash_IsNull (Header_GetHash Sha256 bh).1 = false.

Lemma AcceptBlockHeader_block_inv now c bh c' q : block_inv c -> header_offered c bh -> AcceptBlockHeader params now c bh = Ok (c', q) ->
  block_inv c' /\ is_Some (c_heap c' !! q) /\ c_heap c ⊆ c_heap c' /\ branch c' = branch c /\ active c' = active c /\ tip c' = tip c.
Proof.
  intros Hi [Hfit Hnull] Ha. destruct (AcceptBlockHeader_inv params now c bh c' q (bv_header c (bv_index c Hi)) Hfit Ha) as [(-> & _ & b & Hb & _)|Hnew].
  { split_and!; done. }
  destruct Hnew as (pre & pb & b & Hnone & Hpre & Hpb & [[_ Hwork] _ _ _ _ _] & Hfresh & Hheap & Him & (Hbr & Hor & Hac & Htip) & Hl & Hhd).
  destruct Hl as (Hprev & _ & _ & _ & _ & (_ & Hsp & _ & _ & Hsb & _) & Hbh & Hstat). set (d := (Header_GetHash Sha256 bh).1) in *.
  assert (forall x, x <> q -> hash c' x = hash c x) as Hold by (intros x Hx; unfold hash_of; rw Hheap; by rw lookup_insert_ne).
  assert (hash c' q = d) as Hq by (unfold hash_of, GetBlockHash; rw Hheap lookup_insert_eq; cbn; by rw Hbh Hnull).
  assert (pre <> q) as Hne by (intros ->; congruence). pose proof Hi as [[Hhd0 Hhash Hmap Hpar Hroot Hval Hpow] Hsort Hbranch Horp Hdata].
  assert (forall x, is_Some (c_heap c !! x) -> x <> q) as Hin by (intros x [y Hy] ->; congruence).
  assert (c_heap c ⊆ c_heap c') as Hsub by (rw Hheap; by apply insert_subseteq).
  assert (forall x y, c_heap c' !! x = Some y -> x = q /\ y = b \/ x <> q /\ c_heap c !! x = Some y) as Hcases.
  { intros x y. rw Hheap. destruct (decide (q = x)) as [<-|]; [rw lookup_insert_eq; intros [= <-]; by left|rw lookup_insert_ne //; right; auto]. }
  assert (HasData b = false) as Hnd by (unfold HasData; by rw Hstat).
  split; [|split_and!; [by rw Hheap lookup_insert_eq|done..]]. split; [split; [done|..]|..].
  - intros x y Hx. unfold FindBlockIndex. rw Him. destruct (Hcases x y Hx) as [[-> ->]|[Hxq Hx0]]; [rw Hq; apply lookup_insert_eq|].
    rw Hold // lookup_insert_ne; [by apply (Hhash x y)|]. intros E. pose proof (Hhash x y Hx0) as Hf. unfold FindBlockIndex in *. rw -E in Hf. congruence.
  - intros k x. unfold FindBlockIndex. rw Him. destruct (decide (d = k)) as [<-|]; [rw lookup_insert_eq; by intros [= <-]|]. rw lookup_insert_ne //. intros Hk.
    rw Hold; [by apply Hmap|]. intros ->. destruct (mo_index _ _ (co_maps c (hi_chain params c Hhd0)) k q Hk) as [? ?]. congruence.
  - intros x y r Hx Hr. destruct (Hcases x y Hx) as [[-> ->]|[Hxq Hx0]].
    + rw Hprev in Hr. injection Hr as <-. rw Hold // Hsp. by apply Hmap.
    + destruct (tr_prev _ (bv_tree c Hi) x y r Hx0 Hr) as (z & Hz & _). rw Hold; [by apply (Hpar x)|apply Hin; by eexists].
  - intros x y Hx. destruct (Hcases x y Hx) as [[-> ->]|[Hxq Hx0]]; [|rw Hold //; by apply Hroot]. rw Hprev Hq. split; [done|]. intros E. exfalso.
    destruct (hi_genesis params c Hhd0) as [g Hg]. rw -E in Hg. congruence.
  - intros x y Hx. destruct (Hcases x y Hx) as [[-> ->]|[Hxq Hx0]]; [unfold getValidity; by rw Hstat|by apply (Hval x)].
  - intros x y Hx. destruct (Hcases x y Hx) as [[-> ->]|[Hxq Hx0]]; [by rw Hq Hsb|rw Hold //; by apply (Hpow x)].
  - rw Hbr. apply (by_work_ext (c_heap c)); [|done]. intros x Hx. destruct (Hbranch x Hx) as (y & Hy & _). unfold work_of. by rw Hy (lookup_weaken _ _ _ _ Hy Hsub).
  - rw Hbr. intros x Hx. destruct (Hbranch x Hx) as (y & Hy & Hd & Hp). exists y. split_and!; [by apply (lookup_weaken _ _ _ _ Hy)|done|done].
  - rw Hor. intros k l y Hk Hy. destruct (Horp k l y Hk Hy) as (z & r & Hz & Hrest). exists z, r. split; [by apply (lookup_weaken _ _ _ _ Hz)|done].
  - rw Hbr Hor. intros x y Hx Hd. destruct (Hcases x y Hx) as [[-> ->]|[Hxq Hx0]]; [congruence|]. destruct (Hdata x y Hx0 Hd) as [|(r & rb & Hr & Hrb & Hw)]; [by left|right].
    exists r, rb. split_and!; [done|by apply (lookup_weaken _ _ _ _ Hrb)|done].
Qed.

(** ** The data of a block *)
Lemma mark_failed_inv {E} c q c' : block_inv c -> mark_failed (E := E) c q = Ok c' ->
  block_inv c' /\ status_step (c_heap c) (c_heap c') /\ branch c' = branch c /\ active c' = active c /\ tip c' = tip c.
Proof.
  intros Hi Hm. unfold mark_failed, bload in Hm. destruct (c_heap c !! q) as [b|] eqn:Hq; [|done]. injection Hm as <-.
  assert (HasData (AddStatus BlockFailed b) = HasData b) as Hd by (rw !HasData_bit AddStatus_bit; apply orb_false_r).
  assert (status_step (c_heap c) (<[q := AddStatus BlockFailed b]> (c_heap c))) as Hs.
  { apply (status_insert _ q b); [done|done|by rw Hd| |by rw getValidity_lor]. rw !IsInvalid_bits !AddStatus_bit. by intros [-> | ->]%orb_true_iff; rw ?orb_true_r. }
  split; [|by split_and!]. apply block_inv_status; [done|done|]. intros x y y' Hy. destruct (decide (q = x)) as [<-|]; [rw lookup_insert_eq|rw lookup_insert_ne //].
  - intros [= <-]. rw Hd. congruence.
  - congruence.
Qed.

(** The index once the data of the block is there. *)
Lemma received_index n file pos b b' : b' = (RaiseValidity BlockValidTransactions (AddStatus BlockHaveData (set_position n file pos b))).2 ->
  links b' = links b /\ HasData b' = true /\ (IsInvalid b = true -> IsInvalid b' = true) /\ getValidity b <= getValidity b'.
Proof.
  intros ->. split; [unfold RaiseValidity; by destruct (IsInvalid _); [|destruct (_ <=? _)]|]. rw HasData_bit !IsInvalid_bits !RaiseValidity_bit // !AddStatus_bit orb_true_r.
  change (bi_Status (set_position n file pos b)) with (bi_Status b).
  split_and!; [done|by intros [-> | ->]%orb_true_iff; rw ?orb_true_r|]. etrans; [|by apply RaiseValidity_ge]. by rw getValidity_lor.
Qed.

(** A block that becomes a candidate with [q] has data, and so has its parent. *)
Lemma eligible_parent c q b' y : block_inv c -> is_Some (c_heap c !! q) -> same_links (c_heap c) (<[q := b']> (c_heap c)) ->
  eligible Sha256 (with_heap c (<[q := b']> (c_heap c))) q y ->
  exists b, c_heap c !! y = Some b /\ (y = q \/ HasData b = true /\ exists x, bi_Prev b = Some x /\ eligible Sha256 (with_heap c (<[q := b']> (c_heap c))) q x).
Proof.
  intros Hi Hq Hl Hy. induction Hy as [|x y Hx (xb & Hxb & _) Hy]; [destruct Hq as [b ?]; exists b; auto|].
  unfold ready in Hy. apply list_elem_of_filter in Hy as [_ Hy]. cbn [c_heap with_heap orphan] in Hy. rw -(hash_of_proper Sha256 _ _ Hl x x eq_refl) in Hy.
  destruct (orphan c !! hash c x) as [l|] eqn:El; [|by apply elem_of_nil in Hy]. destruct (bv_orphan c Hi _ l y El Hy) as (b & r & Hb & Hd & Hr & Hk). exists b. split; [done|]. right. split; [done|].
  exists x. split; [|done]. rw Hr. f_equal. destruct (tr_prev _ (bv_tree c Hi) y b r Hb Hr) as (rb & Hrb & _).
  apply (hash_inj c r x Hi); [by eexists|by eexists|]. by rw (bv_parent c (bv_index c Hi) y b r Hb Hr).
Qed.

(** The candidates after AddToBranch, over the chain [c] in which [q] had no data. *)
Lemma AddToBranch_block_inv {E} c q b b' r : block_inv c -> c_heap c !! q = Some b -> links b' = links b -> HasData b = false -> HasData b' = true ->
  (IsInvalid b = true -> IsInvalid b' = true) -> getValidity b <= getValidity b' -> (forall pre, bi_Prev b = Some pre -> pre ∈ branch c) ->
  AddToBranch (E := E) Sha256 forks (with_heap c (<[q := b']> (c_heap c))) q = Ok r -> exists c', r = Some c' /\
  block_inv c' /\ status_step (c_heap c) (c_heap c') /\ branch c ⊆+ branch c' /\ q ∈ branch c' /\ active c' = active c /\ tip c' = tip c.
Proof.
  intros Hi Hq Hl Hnd Hd Hinv Hv Hpre Ha. set (c1 := with_heap c (<[q := b']> (c_heap c))) in *.
  assert (status_step (c_heap c) (c_heap c1)) as Hs1 by (apply (status_insert _ q b); congruence || done). pose proof Hs1 as [Hl1 _].
  pose proof Hi as [Hidx Hsort Hbr Horp Hdata].
  assert (forall y, is_Some (c_heap c !! y) -> connectable Sha256 forks c1 y) as Hconn.
  { intros y [yb Hy]. apply (connectable_links _ _ c); [done|]. exists yb. split; [done|]. unfold IsGenesis. rw bool_decide_eq_false. intros Hg.
    destruct (bi_Prev yb) eqn:Ep; [by eexists|]. by apply (bv_root c Hidx y yb Hy) in Ep. }
  destruct (AddToBranch_ok (E := E) Sha256 forks c1 q) as (c' & Hadd & Hcore & Hsort' & Hsub & Hbr' & Hel & Hor' & Hact & Htip & Him & Hbest).
  - rw -Hl1. by apply bv_tree.
  - by apply (by_work_proper _ _ Hl1 _ _ eq_refl).
  - apply Hconn. by eexists.
  - intros k l y Hk Hy. apply Hconn. destruct (Horp k l y Hk Hy) as (yb & _ & ? & _). by eexists.
  - rw Hadd in Ha. injection Ha as <-. exists c'. split; [done|].
    assert (status_step (c_heap c) (c_heap c')) as Hst by (eapply status_step_trans; [done|by apply status_core]). pose proof Hst as [Hlc _].
    assert (forall y, hash c' y = hash c y) as Hh by (intros y; by rw -Hlc).
    pose proof (fun y => eligible_parent c q b' y Hi (mk_is_Some _ _ Hq) Hl1) as Hep. fold c1 in Hep.
    assert (forall y, eligible Sha256 c1 q y -> y ∈ branch c') as Hin.
    { intros y Hy. pose proof (Hel y Hy) as Hb. apply InBranch_spec in Hb as (z & Hz & Hhz). rw !Hh in Hhz. destruct (Hep y Hy) as (yb & Hyb & _).
      assert (is_Some (c_heap c !! z)) as Hzs.
      { destruct (Hbr' z Hz) as [Hz'|Hz']; [destruct (Hbr z Hz') as (? & ? & _); by eexists|]. destruct (Hep z Hz') as (zb & ? & _). by eexists. }
      rw -(hash_inj c z y Hi) //. }
    split; [|split_and!; [done|done|apply Hin; constructor|done|done]].
    assert (branch c ⊆ branch c') as Hbsub by (intros y Hy; by apply (elem_of_submseteq (branch c))).
    assert (forall y yb yb', c_heap c !! y = Some yb -> c_heap c' !! y = Some yb' -> HasData yb' = true -> y = q \/ HasData yb = true) as Hback.
    { intros y yb yb' Hyb Hyb' Hyd. pose proof (same_core_status _ _ y Hcore) as Hs. cbn [c_heap c1 with_heap] in Hs. destruct (decide (q = y)) as [->|]; [by left|right].
      rw lookup_insert_ne // in Hs. rw Hyb Hyb' in Hs. injection Hs as Hs. unfold HasData in *. by rw Hs. }
    split.
    + by apply (index_inv_status c).
    + done.
    + intros y Hy. destruct (Hbr' y Hy) as [Hy'|Hy'].
      * destruct (Hbr y Hy') as (yb & Hyb & Hyd & Hyp). destruct (status_step_fwd _ _ _ _ Hst Hyb) as (y' & ? & Hlk & Hd' & _). apply links_inv in Hlk as (_ & _ & E3 & _).
        exists y'. split_and!; [done|auto|]. rw E3. auto.
      * destruct (Hep y Hy') as (yb & Hyb & Hcase). destruct (status_step_fwd _ _ _ _ Hst Hyb) as (y' & Hy1 & Hlk & Hd' & _). apply links_inv in Hlk as (_ & _ & E3 & _). exists y'. rw E3.
        destruct Hcase as [->|(Hyd & x & Hx & Hxe)]; [|split_and!; [done|auto|]; intros r Hr; rw Hx in Hr; injection Hr as <-; auto].
        rw Hq in Hyb. injection Hyb as <-. split_and!; [done| |auto]. pose proof (same_core_status _ _ q Hcore) as Hs. cbn [c_heap c1 with_heap] in Hs. rw lookup_insert_eq Hy1 in Hs. injection Hs as Hs.
        unfold HasData in *. by rw -Hs.
    + intros k l y Hk Hy. destruct (Hor' k) as [E0|[E0 _]]; [|congruence]. rw E0 in Hk. destruct (Horp k l y Hk Hy) as (yb & r & Hyb & Hyd & Hr & Hp).
      destruct (status_step_fwd _ _ _ _ Hst Hyb) as (y' & ? & Hlk & Hd' & _). apply links_inv in Hlk as (E1 & _ & E3 & _). exists y', r. rw E1 E3. split_and!; auto.
    + intros y y' Hy Hyd'. destruct (status_step_back _ _ _ _ Hst Hy) as (yb & Hyb & Hlk & _). apply links_inv in Hlk as (E1 & _ & E3 & _). rw -E1 -E3.
      destruct (Hback y yb y' Hyb Hy Hyd') as [->|Hyd]; [left; apply Hin; constructor|]. assert (y <> q) as Hyq by congruence.
      destruct (Hdata y yb Hyb Hyd) as [|(r & rb & Hr & Hrb & Hw)]; [left; auto|]. destruct (status_step_fwd _ _ _ _ Hst Hrb) as (r' & Hr' & _ & _ & Hri & _).
      destruct Hw as [Hw|[Hnb Hw]]; [right; exists r, r'; auto|]. assert (hash c1 r = HashPrevBlock (bi_Header yb)) as Hk.
      { cbn [c_heap c1 with_heap]. rw -(hash_of_proper Sha256 _ _ Hl1 r r eq_refl). by apply (bv_parent c Hidx y yb r). }
      destruct (decide (r ∈ branch c')) as [Hrb'|Hrb'].
      * left. destruct (Hbr' r Hrb') as [|Hre]; [done|]. apply Hin. apply (eligible_child _ _ _ r); [done|]. apply list_elem_of_filter. rw Hk. split; [|done].
        cbn [c_heap c1 with_heap]. rw lookup_insert_ne // Hyb. done.
      * right. exists r, r'. split_and!; [done|done|]. right. split; [done|]. destruct (Hor' (HashPrevBlock (bi_Header yb))) as [->|(_ & x & Hx & Hxk)]; [done|].
        exfalso. apply Hrb'. rw -(hash_inj c x r Hi); [by apply Hin|destruct (Hep x Hx) as (? & ? & _); by eexists|by eexists|].
        cbn [c_heap c1 with_heap] in Hxk, Hk. rw -(hash_of_proper Sha256 _ _ Hl1 x x eq_refl) in Hxk. rw -(hash_of_proper Sha256 _ _ Hl1 r r eq_refl) in Hk. congruence.
Qed.

(** The data of a block whose parent is not a candidate. *)
Lemma waiting_block_inv c q b b' pre pb o : block_inv c -> c_heap c !! q = Some b -> links b' = links b -> HasData b = false -> HasData b' = true ->
  (IsInvalid b = true -> IsInvalid b' = true) -> getValidity b <= getValidity b' -> bi_Prev b = Some pre -> c_heap c !! pre = Some pb -> pre ∉ branch c ->
  o = (if BlockIndex_IsValid BlockValidTree pb then <[HashPrevBlock (bi_Header b) := default [] (orphan c !! HashPrevBlock (bi_Header b)) ++ [q]]> (orphan c) else orphan c) ->
  block_inv (with_orphan (with_heap c (<[q := b']> (c_heap c))) o) /\ status_step (c_heap c) (<[q := b']> (c_heap c)).
Proof.
  intros Hi Hq Hl Hnd Hd Hinv Hv Hpre Hpb Hnb Ho. assert (status_step (c_heap c) (<[q := b']> (c_heap c))) as Hst by (apply (status_insert _ q b); congruence || done).
  split; [|done]. pose proof Hst as [Hlk0 _]. destruct Hi as [Hidx Hsort Hbr Horp Hdata]. set (k0 := HashPrevBlock (bi_Header b)) in *.
  apply links_inv in Hl as (L1 & _ & L3 & _).
  assert (forall k y, y ∈ default [] (o !! k) -> y ∈ default [] (orphan c !! k) \/ y = q /\ k = k0) as Hsplit.
  { intros k y. rw Ho. destruct (BlockIndex_IsValid _ _); [|auto]. destruct (decide (k0 = k)) as [<-|]; [rw lookup_insert_eq|rw lookup_insert_ne //; auto]. cbn. set_solver. }
  assert (forall k y, y ∈ default [] (orphan c !! k) -> y ∈ default [] (o !! k)) as Hmono.
  { intros k y. rw Ho. destruct (BlockIndex_IsValid _ _); [|auto]. destruct (decide (k0 = k)) as [<-|]; [rw lookup_insert_eq|rw lookup_insert_ne //; auto]. cbn. set_solver. }
  split; cbn [c_heap with_orphan with_heap branch orphan].
  - by apply (index_inv_status c).
  - by apply (by_work_proper _ _ Hlk0 _ _ eq_refl).
  - intros y Hy. destruct (Hbr y Hy) as (yb & Hyb & Hyd & Hp). destruct (status_step_fwd _ _ _ _ Hst Hyb) as (y' & ? & Hlk & Hd' & _). apply links_inv in Hlk as (_ & _ & E3 & _).
    exists y'. rw E3. split_and!; auto.
  - intros k l y Hk Hy. destruct (Hsplit k y) as [Hold|[-> ->]]; [by rw Hk| |exists b', pre; rw lookup_insert_eq L1 L3; done].
    destruct (orphan c !! k) as [l0|] eqn:E0; [|by apply elem_of_nil in Hold]. destruct (Horp k l0 y E0 Hold) as (yb & r & Hyb & Hyd & Hr & Hp).
    destruct (status_step_fwd _ _ _ _ Hst Hyb) as (y' & ? & Hlk & Hd' & _). apply links_inv in Hlk as (E1 & _ & E3 & _). exists y', r. rw E1 E3. split_and!; auto.
  - intros y y' Hy Hyd. destruct (decide (q = y)) as [<-|Hne].
    + rw lookup_insert_eq in Hy. injection Hy as <-. right. rw L1 L3. fold k0. destruct (status_step_fwd _ _ _ _ Hst Hpb) as (p' & Hp' & _ & _ & Hpi & _).
      exists pre, p'. split_and!; [done|done|]. destruct (IsInvalid pb) eqn:Ei; [left; auto|right]. split; [done|]. rw Ho. unfold BlockIndex_IsValid. rw Ei.
      replace (BlockValidTree <=? getValidity pb) with true by (pose proof (bv_valid c Hidx pre pb Hpb); lia). rw lookup_insert_eq. cbn. set_solver.
    + rw lookup_insert_ne // in Hy. destruct (Hdata y y' Hy Hyd) as [|(r & rb & Hr & Hrb & Hw)]; [by left|right].
      destruct (status_step_fwd _ _ _ _ Hst Hrb) as (r' & ? & _ & _ & ? & _). exists r, r'. split_and!; [done|done|]. destruct Hw as [|[? ?]]; [left|right]; auto.
Qed.

Lemma ReceivedBlockTransactions_inv {E} pblock q pos c c' b : block_inv c -> c_heap c !! q = Some b -> HasData b = false ->
  ReceivedBlockTransactions (E := E) params pblock q pos c = Ok c' ->
  block_inv c' /\ status_step (c_heap c) (c_heap c') /\ branch c ⊆+ branch c' /\ active c' = active c /\ tip c' = tip c /\
  exists b', c_heap c' !! q = Some b' /\ HasData b' = true.
Proof.
  intros Hi Hq Hnd Hr. unfold ReceivedBlockTransactions in Hr. rw (bload_Some _ q b Hq) in Hr. cbn [mbind res_bind] in Hr.
  set (b' := (RaiseValidity _ _).2) in Hr. destruct (received_index _ _ _ b b' eq_refl) as (Hl & Hd & Hinv & Hv). clearbody b'.
  assert (same_links (c_heap c) (<[q := b']> (c_heap c))) as Hsl by (by apply (same_links_insert _ q b)). pose proof (links_inv _ _ Hl) as (L1 & _ & L3 & _).
  assert (forall x, hash_of Sha256 (<[q := b']> (c_heap c)) x = hash c x) as Hh by (intros x; by rw -Hsl).
  set (c1 := with_heap c _) in Hr.
  assert (exists parent, ParentInBranch (E := E) Sha256 c1 q = Ok parent /\ forall pre, bi_Prev b = Some pre -> parent = true <-> pre ∈ branch c) as (parent & Hpb & Hpar).
  { unfold ParentInBranch. cbn [c_heap c1 with_heap branch]. rw bload_insert. cbn [mbind res_bind]. eexists. split; [reflexivity|]. intros pre Hpre.
    pose proof (bv_parent c (bv_index c Hi) q b pre Hq Hpre) as Hph. destruct (tr_prev _ (bv_tree c Hi) q b pre Hq Hpre) as (pb & Hpb & _). rw existsb_exists L1 -Hph. split.
    - intros (x & Hx & Hhx). apply list_elem_of_In in Hx. apply bool_decide_eq_true in Hhx. rw Hh in Hhx. destruct (bv_branch c Hi x Hx) as (xb & Hxb & _). rw -(hash_inj c x pre Hi) //.
    - intros Hin. exists pre. rw -list_elem_of_In bool_decide_eq_true Hh. done. }
  assert (IsGenesis Sha256 forks c1 q = true <-> bi_Prev b = None) as Hg.
  { rw (bv_root c (bv_index c Hi) q b Hq). unfold IsGenesis. cbn [c_heap c1 with_heap]. by rw bool_decide_eq_true Hh. }
  assert (exists inside : bool, (if IsGenesis Sha256 forks c1 q then Ok true else ParentInBranch Sha256 c1 q) = Ok (A := bool) (E := E) inside /\
    if inside then forall pre, bi_Prev b = Some pre -> pre ∈ branch c else exists pre, bi_Prev b = Some pre /\ pre ∉ branch c) as (inside & Hin & Hcase).
  { rw Hpb. destruct (IsGenesis Sha256 forks c1 q); [exists true; split; [done|]; rw (proj1 Hg eq_refl); done|]. exists parent. split; [done|].
    destruct (bi_Prev b) as [pre|]; [|by destruct Hg as [_ Hg]; discriminate Hg]. destruct (Hpar pre eq_refl) as [H1 H2].
    destruct parent; [intros ? [= <-]; auto|]. exists pre. split; [done|]. by intros ?%H2. }
  rw Hin in Hr. cbn [mbind res_bind] in Hr. destruct inside.
  - destruct (AddToBranch Sha256 forks c1 q) as [r| |] eqn:Ea; [|done|done]. cbn [mbind res_bind] in Hr.
    destruct (AddToBranch_block_inv (E := E) c q b b' r Hi Hq Hl Hnd Hd Hinv Hv Hcase Ea) as (c2 & -> & Hi' & Hst & Hsub & Hq' & Ha & Ht). injection Hr as <-. cbn [default from_option].
    split_and!; try done. destruct (bv_branch c2 Hi' q Hq') as (b2 & ? & ? & _). by exists b2.
  - destruct Hcase as (pre & Hpre & Hnb). rw L3 Hpre in Hr. cbn [deref mbind res_bind] in Hr. destruct (tr_prev _ (bv_tree c Hi) q b pre Hq Hpre) as (pb & Hpb0 & Hht).
    assert (c_heap c1 !! pre = Some pb) as Hpb1 by (cbn [c_heap c1 with_heap]; rw lookup_insert_ne //; intros ->; rw Hq in Hpb0; injection Hpb0 as <-; lia).
    rw (bload_Some _ pre pb Hpb1) in Hr. cbn [mbind res_bind] in Hr.
    destruct (waiting_block_inv c q b b' pre pb _ Hi Hq Hl Hnd Hd Hinv Hv Hpre Hpb0 Hnb eq_refl) as [Hi' Hst]. destruct (BlockIndex_IsValid BlockValidTree pb).
    + unfold AddToOrphan in Hr. cbn [c_heap c1 with_heap] in Hr. rw bload_insert in Hr. cbn [mbind res_bind] in Hr. rw L1 in Hr. injection Hr as <-.
      split_and!; try done. exists b'. split; [apply lookup_insert_eq|done].
    + injection Hr as <-. split_and!; try done. exists b'. split; [apply lookup_insert_eq|done].
Qed.

(** ** A step *)
(** What every step keeps: the indexes with their places, data and failures, the
    candidates and the active chain. *)
Definition grows (c c' : Chain) : Prop :=
  (forall q b, c_heap c !! q = Some b -> exists b', c_heap c' !! q = Some b' /\ links b' = links b /\
     (HasData b = true -> HasData b' = true) /\ (IsInvalid b = true -> IsInvalid b' = true)) /\
  branch c ⊆+ branch c' /\ active c' = active c /\ tip c' = tip c.
#[export] Instance grows_preorder : PreOrder grows.
Proof.
  split; [intros c; split; [intros q b Hb; by exists b|done]|]. intros c1 c2 c3 (H12 & B12 & A12 & T12) (H23 & B23 & A23 & T23).
  split_and!; [|by etrans|congruence|congruence]. intros q b Hb. destruct (H12 q b Hb) as (b2 & Hb2 & L2 & D2 & I2). destruct (H23 q b2 Hb2) as (b3 & Hb3 & L3 & D3 & I3).
  exists b3. split_and!; [done|congruence|auto|auto].
Qed.
Lemma grows_status c c' : status_step (c_heap c) (c_heap c') -> branch c ⊆+ branch c' -> active c' = active c -> tip c' = tip c -> grows c c'.
Proof.
  intros Hs Hb Ha Ht. split_and!; try done. intros q b Hq. destruct (status_step_fwd _ _ _ _ Hs Hq) as (b' & ? & ? & ? & ? & _). by exists b'.
Qed.

Context (Excessiveblocksize minimumChainWork : Z).
(** The rules for a block on its own. *)
Record block_rules (b b' : Block) : Prop := {
  br_header : CheckProofOfWork params (Header_GetHash Sha256 (Header b)).1 (Bits (Header b)) = true;
  br_merkle : BlockMerkleRoot (E := BlockErr) Sha256 (Txs b) = Ok (MerkleRoot (Header b), false);
  br_txs : Txs b <> [];
  br_size : u64 (Block_SerializeSize b).1 <= Excessiveblocksize;
  br_sigops n : GetMaxBlockSigOpsCount (u64 (Block_SerializeSize b).1) = Some n -> CheckBlockTransactions (Txs b) n = Ok tt;
  br_same : Header b' = Header b /\ Txs b' = Txs b /\ Checked b' = true }.
Lemma CheckBlock_ok pblock pblock' : Checked pblock = false -> CheckBlock params Excessiveblocksize pblock true true = Ok pblock' -> block_rules pblock pblock'.
Proof.
  unfold CheckBlock, CheckBlockHeader. intros -> Hc. destruct (CheckProofOfWork params _ _) eqn:Ep; [|done]. cbn [mbind res_bind] in Hc.
  apply res_bind_inv in Hc as (mutated & Hm & Hc). apply res_bind_inv in Hm as ([root m] & Hroot & Hm). case_bool_decide as Hr; [|done]. injection Hm as ->.
  destruct mutated; [done|]. destruct (Txs pblock) as [|tx txs] eqn:Et; [done|]. apply res_bind_inv in Hc as (n & _ & Hc). destruct (_ <? _) in Hc; [done|].
  assert (Header (Block_SerializeSize pblock).2 = Header pblock /\ Txs (Block_SerializeSize pblock).2 = Txs pblock) as [Hh Ht] by (unfold Block_SerializeSize; by destruct (negb _)).
  destruct (Block_SerializeSize pblock) as [size b2] eqn:Es. cbn [fst snd] in *. destruct (Z.ltb_spec Excessiveblocksize (u64 size)); [done|].
  destruct (GetMaxBlockSigOpsCount (u64 size)) as [maxops|] eqn:Eo; [|done]. apply res_bind_inv in Hc as ([] & Hct & Hc). injection Hc as <-.
  split; rw ?Es ?Et ?Hr //; cbn [fst]; [|by rw -Hh -Et -Ht]. rw Eo.
  intros n' [= <-]. rw -Et -Ht. unfold of_tx in Hct. destruct (CheckBlockTransactions (Txs b2) maxops) as [[]| |]; done.
Qed.
Lemma CheckBlock_Header pblock x y pblock' : CheckBlock params Excessiveblocksize pblock x y = Ok pblock' -> Header pblock' = Header pblock /\ Txs pblock' = Txs pblock /\ Checked pblock' = true.
Proof.
  unfold CheckBlock. destruct (Checked pblock) eqn:Ec; [by intros [= <-]|]. intros Hc. apply res_bind_inv in Hc as (? & _ & Hc). apply res_bind_inv in Hc as (mutated & _ & Hc).
  destruct mutated; [done|]. destruct (Txs pblock) as [|tx txs] eqn:Et; [done|]. apply res_bind_inv in Hc as (n & _ & Hc). destruct (_ <? _) in Hc; [done|].
  assert (Header (Block_SerializeSize pblock).2 = Header pblock /\ Txs (Block_SerializeSize pblock).2 = Txs pblock) as [Hh Ht] by (unfold Block_SerializeSize; by destruct (negb _)).
  destruct (Block_SerializeSize pblock) as [size b2]. destruct (_ <? _) in Hc; [done|]. destruct (GetMaxBlockSigOpsCount _); [|done]. apply res_bind_inv in Hc as (? & _ & Hc).
  injection Hc as <-. cbn in *. by rw Hh Ht Et.
Qed.
Lemma AcceptBlock_inv write now c pblock fRequested c' pblock' a : block_inv c -> header_offered c (Header pblock) ->
  AcceptBlock params Excessiveblocksize minimumChainWork write now c pblock fRequested = Ok (c', pblock', a) -> block_inv c' /\ grows c c'.
Proof.
  intros Hi Hfit Ha. unfold AcceptBlock in Ha. destruct (AcceptBlockHeader params now c (Header pblock)) as [[c1 q]| |] eqn:Eh; [|by injection Ha as <- _ _|done].
  destruct (AcceptBlockHeader_block_inv now c (Header pblock) c1 q Hi Hfit Eh) as (Hi1 & [b Hb] & Hsub & Hbr & Hact & Htip).
  assert (grows c c1) as Hg by (split_and!; [intros x xb Hx; exists xb; split; [by apply (lookup_weaken _ _ _ _ Hx)|done]|by rw Hbr|done|done]).
  rw (bload_Some _ q b Hb) in Ha. cbn [mbind res_bind] in Ha. destruct (HasData b) eqn:Ed; [by injection Ha as <- _ _|].
  apply res_bind_inv in Ha as (w & _ & Ha). apply res_bind_inv in Ha as (ht & _ & Ha). cbv zeta in Ha.
  do 3 (destruct (_ && _) in Ha; [by injection Ha as <- _ _|]).
  assert (forall e p0, mark_failed c1 q ≫= (fun c => Ok (c, p0, Rejected e)) = Ok (E := BlockErr) (c', pblock', a) -> block_inv c' /\ grows c c') as Hfail.
  { intros e p0 Hm. apply res_bind_inv in Hm as (c2 & Hm & [= <- _ _]). destruct (mark_failed_inv c1 q c2 Hi1 Hm) as (? & Hs & Hb2 & Ha2 & Ht2). split; [done|].
    etrans; [exact Hg|]. apply grows_status; [done|by rw Hb2|done|done]. }
  destruct (CheckBlock params Excessiveblocksize pblock true true) as [p1|e|]; [|by apply Hfail in Ha|done].
  destruct (ContextualCheckBlock params (c_heap c1) p1 (bi_Prev b)) as [u|e|]; [|by apply Hfail in Ha|done].
  destruct (write b p1) as [pos|]; [|by injection Ha as <- _ _]. apply res_bind_inv in Ha as (c2 & Hr & [= <- _ _]).
  destruct (ReceivedBlockTransactions_inv p1 q pos c1 c2 b Hi1 Hb Ed Hr) as (? & Hs & Hsub2 & Ha2 & Ht2 & _). split; [done|]. etrans; [exact Hg|]. by apply grows_status.
Qed.

(** No block gets data. *)
Definition data_kept (c c' : Chain) : Prop := forall q b', c_heap c' !! q = Some b' -> HasData b' = true -> exists b, c_heap c !! q = Some b /\ HasData b = true.
Lemma data_kept_refl c : data_kept c c.
Proof. intros q b Hb Hd. by exists b. Qed.
Lemma data_kept_trans c1 c2 c3 : data_kept c1 c2 -> data_kept c2 c3 -> data_kept c1 c3.
Proof. intros H12 H23 q b Hb Hd. destruct (H23 q b Hb Hd) as (b2 & Hb2 & Hd2). by apply (H12 q b2). Qed.
Lemma mark_failed_data {E} c q c' : mark_failed (E := E) c q = Ok c' -> data_kept c c'.
Proof.
  intros Hm. unfold mark_failed, bload in Hm. destruct (c_heap c !! q) as [b|] eqn:Hq; [|done]. injection Hm as <-.
  intros x y. cbn [c_heap with_heap]. destruct (decide (q = x)) as [<-|]; [rw lookup_insert_eq|rw lookup_insert_ne //; by exists y].
  intros [= <-] Hd. exists b. split; [done|]. rw HasData_bit AddStatus_bit orb_false_r in Hd. by rw HasData_bit.
Qed.
Lemma AcceptBlockHeader_found now c bh c' q : block_inv c -> header_offered c bh -> AcceptBlockHeader params now c bh = Ok (c', q) ->
  FindBlockIndex c' (Header_GetHash Sha256 bh).1 = Some q /\ data_kept c c' /\ forall b, c_heap c' !! q = Some b -> HasData b = true -> c' = c.
Proof.
  intros Hi [Hfit _] Ha. destruct (AcceptBlockHeader_inv params now c bh c' q (bv_header c (bv_index c Hi)) Hfit Ha) as [(-> & Hf & _)|Hnew].
  { split_and!; [done|apply data_kept_refl|done]. }
  destruct Hnew as (pre & pb & b & _ & _ & _ & _ & Hfresh & Hheap & Him & _ & Hl & _). destruct Hl as (_ & _ & _ & _ & _ & _ & _ & Hst).
  assert (HasData b = false) as Hnd by (unfold HasData; by rw Hst).
  split; [unfold FindBlockIndex; rw Him; apply lookup_insert_eq|]. split.
  - intros x y. rw Hheap. destruct (decide (q = x)) as [<-|]; [rw lookup_insert_eq; intros [= <-]; congruence|rw lookup_insert_ne //; by exists y].
  - intros y. rw Hheap lookup_insert_eq. intros [= <-]. congruence.
Qed.

(** ** Sequences of messages *)
Fixpoint headers_offered (now : Z) (c : Chain) (l : list BlockHeader) : Prop :=
  match l with
  | [] => True
  | bh :: l => header_offered c bh /\ match AcceptBlockHeader params now c bh with Ok (c, _) => headers_offered now c l | _ => True end
  end.
(** The chains that headers and blocks lead to, in any order. *)
Inductive tree_steps (c0 : Chain) : Chain -> Prop :=
| ts_start : tree_steps c0 c0
| ts_headers now c l last c' last' r : tree_steps c0 c -> headers_offered now c l -> ProcessBlockHeader params now c l last = (c', last', r) -> tree_steps c0 c'
| ts_block write now c b force c' b' a : tree_steps c0 c -> header_offered c (Header b) ->
    ProcessNewBlock params Excessiveblocksize minimumChainWork write now c b force = Ok (c', b', a) -> tree_steps c0 c'.

Lemma AcceptBlockHeader_grows now c bh c' q : block_inv c -> header_offered c bh -> AcceptBlockHeader params now c bh = Ok (c', q) -> block_inv c' /\ grows c c'.
Proof.
  intros Hi Hfit Eh. destruct (AcceptBlockHeader_block_inv now c bh c' q Hi Hfit Eh) as (Hi1 & _ & Hsub & Hbr & Hact & Htip). split; [done|].
  split_and!; [intros x xb Hx; exists xb; split; [by apply (lookup_weaken _ _ _ _ Hx)|done]|by rw Hbr|done|done].
Qed.
Lemma accept_headers_inv now l : forall c last c' last' r, block_inv c -> headers_offered now c l ->
  accept_headers params now c last l = (c', last', r) -> block_inv c' /\ grows c c'.
Proof.
  induction l as [|bh l IH]; intros c last c' last' r Hi Hf Hp; cbn in Hp; [by injection Hp as <- _|]. destruct Hf as [Hf Hrest].
  destruct (AcceptBlockHeader params now c bh) as [[c1 q]| |] eqn:Ea; [|by injection Hp as <- _ _..].
  destruct (AcceptBlockHeader_grows now c bh c1 q Hi Hf Ea) as [Hi1 Hg1]. destruct (IH c1 (Some q) c' last' r Hi1 Hrest Hp) as [Hi2 Hg2]. split; [done|by etrans].
Qed.
Lemma ProcessBlockHeader_inv now l c last c' last' r : block_inv c -> headers_offered now c l ->
  ProcessBlockHeader params now c l last = (c', last', r) -> block_inv c' /\ grows c c'.
Proof. intros Hi Hf Hp. destruct l as [|bh l]; [by injection Hp as <- _ _|]. by apply (accept_headers_inv now (bh :: l) c last c' last' r). Qed.
Lemma tree_steps_inv c0 c : block_inv c0 -> tree_steps c0 c -> block_inv c /\ grows c0 c.
Proof.
  intros Hi. induction 1 as [|now c l last c' last' r _ [IH Hg] Hf Hp|write now c b force c' b' a _ [IH Hg] Hf Hp]; [done| |].
  - destruct (ProcessBlockHeader_inv now l c last c' last' r IH Hf Hp) as [? ?]. split; [done|by etrans].
  - unfold ProcessNewBlock in Hp. destruct (CheckBlock params Excessiveblocksize b true true) as [b1| |] eqn:Ec; [|by injection Hp as <- _ _|done].
    destruct (CheckBlock_Header b true true b1 Ec) as (Hh & _). rw -Hh in Hf. destruct (AcceptBlock_inv write now c b1 force c' b' a IH Hf Hp) as [? ?]. split; [done|by etrans].
Qed.

(** ** What the invariant says of the candidates *)
(** All blocks from [q] down to the first one have been received. *)
Definition available (c : Chain) (q : nat) : Prop :=
  is_Some (c_heap c !! q) /\ forall n r, walk (c_heap c) q n = Some r -> exists rb, c_heap c !! r = Some rb /\ HasData rb = true.
(** No ancestor of [q] failed. *)
Definition sound (c : Chain) (q : nat) : Prop :=
  forall n r rb, walk (c_heap c) q (S n) = Some r -> c_heap c !! r = Some rb -> IsInvalid rb = false.

Lemma candidate_available c q : block_inv c -> q ∈ branch c -> available c q.
Proof.
  intros Hi Hq. split; [destruct (bv_branch c Hi q Hq) as (b & ? & _); by eexists|]. intros n. revert q Hq. induction n as [|n IH]; intros q Hq r Hw.
  - injection Hw as <-. destruct (bv_branch c Hi q Hq) as (b & ? & ? & _). by exists b.
  - cbn [walk] in Hw. destruct (bv_branch c Hi q Hq) as (b & Hb & _ & Hp). rw Hb in Hw. cbn [mbind option_bind] in Hw. destruct (bi_Prev b) as [p|]; [|done]. apply (IH p); [by apply Hp|done].
Qed.
Lemma available_candidate c : block_inv c -> forall n q b, c_heap c !! q = Some b -> bi_Height b = Z.of_nat n -> available c q -> sound c q -> q ∈ branch c.
Proof.
  intros Hi n. induction n as [|n IH]; intros q b Hb Hn [_ Hav] Hs; destruct (Hav 0%nat q eq_refl) as (b' & Hb' & Hd); rw Hb in Hb'; injection Hb' as <-.
  - destruct (bv_data c Hi q b Hb Hd) as [|(r & rb & Hr & Hrb & _)]; [done|]. destruct (tr_prev _ (bv_tree c Hi) q b r Hb Hr) as (rb' & Hrb' & Hh).
    pose proof (tr_height _ (bv_tree c Hi) r rb' Hrb'). lia.
  - destruct (bv_data c Hi q b Hb Hd) as [|(r & rb & Hr & Hrb & Hw)]; [done|]. destruct (tr_prev _ (bv_tree c Hi) q b r Hb Hr) as (rb' & Hrb' & Hh). rw Hrb in Hrb'. injection Hrb' as <-.
    assert (forall k, walk (c_heap c) q (S k) = walk (c_heap c) r k) as Hwalk by (intros k; cbn [walk]; rw Hb; cbn [mbind option_bind]; by rw Hr).
    assert (r ∈ branch c) as Hin.
    { apply (IH r rb Hrb); [lia| |]; [split; [by eexists|]; intros k x Hx; apply (Hav (S k)); by rw Hwalk|]. intros k x xb Hx. apply (Hs (S k)). by rw Hwalk. }
    destruct Hw as [Hw|[Hw _]]; [|done]. rw (Hs 0%nat r rb) in Hw; [done|by rw Hwalk|done].
Qed.
End Tree.
