(* ===== verification/LblockTheorems.v ===== *)
(** * Theorems on accepting headers and blocks

    The definitions are in Lblock.v, the invariant and its lemmas in LblockFacts.v and
    TreeFacts.v. *)
From S2P Require Import Prelude Errors Wire ScriptNum Opcodes Script ScriptFacts Tx TxFacts Crypto Compress Coins Block Undo BlockIndex.
From S2P Require Import Stack Slice Interp Ltx Chain ChainFacts BranchFacts ChainTheorems VersionBits VersionBitsFacts Merkle Pow PowFacts Lblock LblockFacts TreeFacts.

(** ** A small network *)
(** Its blocks are those of the small block tree. *)
#[local] Instance net_hashes : Hashes := {| Sha256 := toy_sha; Ripemd160 := fun b => b; Sha1 := fun b => b |}.
Definition net_params : PowParams :=
  {| pp_forks := Build_ForkParams (Build_NetParams 100 (2 ^ 40) 0 210000) 100 100 100 100 100 (2 ^ 40) 0 (toy_hash 1) [];
     PowLimit := 2 ^ 255 - 1; FPowAllowMinDifficultyBlocks := true; FPowNoRetargeting := true;
     TargetTimePerBlock := 600; TargetTimespan := 60 * 60 * 24 * 14 |}.
Definition net_coinbase (n : Z) : Tx :=
  mkTx (toy_hash n) 0 1 [mkTxIn NewDefaultOutPoint (mkScript [1; 5] [] false) 0xffffffff] [mkTxOut 5100 (Some (mkScript [] [] false))].
Definition net_header (prev i : Z) : BlockHeader := mkHeader 1 (toy_hash prev) (toy_hash i) (100 * i) 0x207fffff 0 (toy_hash i).
Definition net_block (prev i : Z) : Block := mkBlock (net_header prev i) [net_coinbase i] 0 false.
Definition net_write (b : BlockIndex) (_ : Block) : option (Z * Z) := Some (0, 1000 * bi_Height b).
Definition process (c : Chain) (b : Block) := ProcessNewBlock net_params 1000000 0 net_write 0 c b true.


(** The headers of blocks 2 and 3 arrive, then block 3, then block 2. *)
Definition net1 : Chain := (ProcessBlockHeader net_params 0 toy_chain [net_header 1 2; net_header 2 3] None).1.1.
Definition after (c : Chain) (b : Block) : Chain := match process c b with Ok (c, _, _) => c | _ => c end.
Definition net2 : Chain := after net1 (net_block 2 3).
Definition net3 : Chain := after net2 (net_block 1 2).
Example net_order : branch net2 = [1%nat] /\ branch net3 = [1; 2; 3]%nat.
Proof. by vm_compute. Qed.

Definition offered_b (c : Chain) (bh : BlockHeader) : bool :=
  let hash := (Header_GetHash Sha256 bh).1 in
  (0 <=? Time bh) && (Time bh <? 2 ^ 32) && negb (bool_decide (HashPrevBlock bh = hash)) && negb (Hash_IsNull hash) &&
  match FindBlockIndex c (HashPrevBlock bh) with
  | None => true
  | Some pre => from_option (fun pb => (bi_Height pb + 1 <? 2 ^ 31) && (bi_ChainWork pb + GetBlockProof (NewBlockIndex bh) <? 2 ^ 256)) true (c_heap c !! pre)
  end.
Lemma offered_compute c bh : offered_b c bh = true -> header_offered c bh.
Proof.
  unfold offered_b. cbv zeta. intros Hb. apply andb_prop in Hb as [Hb Hlim]. apply andb_prop in Hb as [Hb Hn]. apply andb_prop in Hb as [Hb Hh]. apply andb_prop in Hb as [H1 H2].
  apply negb_true_iff in Hn. apply negb_true_iff, bool_decide_eq_false in Hh. split; [|done]. split_and!; [unfold is_u; lia|done|].
  intros pre pb Hf Hp. rw Hf Hp in Hlim. cbn in Hlim. apply andb_prop in Hlim as [? ?]. lia.
Qed.
Lemma after_step c0 c b : tree_steps net_params 1000000 0 c0 c -> offered_b c (Header b) = true -> match process c b with Ok _ => true | _ => false end = true ->
  tree_steps net_params 1000000 0 c0 (after c b).
Proof.
  intros Hs Ho Hok. unfold after. destruct (process c b) as [[[c' b'] a]| |] eqn:Ep; [|done|done].
  exact (ts_block _ _ _ _ net_write 0 c b true c' b' a Hs (offered_compute c (Header b) Ho) Ep).
Qed.

Lemma toy_singleton q b : c_heap toy_chain !! q = Some b -> q = 1%nat /\ b = toy_genesis.
Proof. cbn [toy_chain c_heap]. rw lookup_singleton_Some. by intros [<- <-]. Qed.
Lemma toy_header_inv : header_inv net_params toy_chain.
Proof.
  split; [exact toy_chain_ok| | |by eexists].
  - split; [apply (co_tree _ toy_chain_ok)|..]; intros q b; [| | |intros r d]; intros [-> ->]%toy_singleton; [split; [reflexivity|discriminate]|split; [discriminate|reflexivity]|split; [discriminate|reflexivity]|done].
  - by intros q b r [-> ->]%toy_singleton.
Qed.
Lemma toy_block_inv : block_inv net_params toy_chain.
Proof.
  split; [split; [exact toy_header_inv|..]|..].
  - by intros q b [-> ->]%toy_singleton.
  - intros k q. unfold FindBlockIndex. cbn [toy_chain indexMap]. rw lookup_singleton_Some. by intros [<- <-].
  - by intros q b r [-> ->]%toy_singleton.
  - by intros q b [-> ->]%toy_singleton.
  - by intros q b [-> ->]%toy_singleton.
  - by intros q b [-> ->]%toy_singleton.
  - repeat constructor.
  - intros q Hq. apply list_elem_of_singleton in Hq as ->. by exists toy_genesis.
  - intros k l y Hk. by rw lookup_empty in Hk.
  - intros q b [-> ->]%toy_singleton _. left. by apply list_elem_of_singleton.
Qed.
Lemma net_steps : tree_steps net_params 1000000 0 toy_chain net3.
Proof.
  apply after_step; [|by vm_compute|by vm_compute]. apply after_step; [|by vm_compute|by vm_compute].
  apply (ts_headers _ _ _ _ 0 toy_chain [net_header 1 2; net_header 2 3] None _ (Some 3%nat) (Ok tt)); [apply ts_start| |by vm_compute].
  split; [by apply offered_compute; vm_compute|]. destruct (AcceptBlockHeader net_params 0 toy_chain (net_header 1 2)) as [[c q]| |] eqn:Ea; [|done|done].
  vm_compute in Ea. injection Ea as <- _. split; [by apply offered_compute; vm_compute|]. by destruct (AcceptBlockHeader _ _ _ _) as [[]| |].
Qed.

Section Theorems.
Context `{Hashes} (params : PowParams) (Excessiveblocksize minimumChainWork : Z).

(** ** The header tree *)
(** C11. However headers and blocks arrive, every header in the tree has a hash that
    meets its own target, a target within the limit of the network, a parent that is found by the
    parent hash it names, and descends from the first block; its height and its
    work follow its parent's, its time is above the median time of the blocks before
    it, and so the median time never falls along a branch. *)
Theorem header_tree_rules c0 c : block_inv params c0 -> tree_steps params Excessiveblocksize minimumChainWork c0 c ->
  forall q b, c_heap c !! q = Some b -> let hash := hash_of Sha256 (c_heap c) in
  FindBlockIndex c (hash q) = Some q /\ 0 < CompactToBig (Bits (bi_Header b)) <= PowLimit params /\ HashToBig (hash q) <= CompactToBig (Bits (bi_Header b)) /\
  (exists g, walk (c_heap c) q (Z.to_nat (bi_Height b)) = Some g /\ hash g = GenesisHash (pp_forks params)) /\
  forall r, bi_Prev b = Some r -> exists rb, c_heap c !! r = Some rb /\ hash r = HashPrevBlock (bi_Header b) /\
    bi_Height b = bi_Height rb + 1 /\ bi_ChainWork b = bi_ChainWork rb + GetBlockProof b /\ mtp (c_heap c) r < Time (bi_Header b) /\ mtp (c_heap c) r <= mtp (c_heap c) q.
Proof.
  intros Hi Hs q b Hq hash. destruct (tree_steps_inv _ _ _ _ _ Hi Hs) as [Hc _]. pose proof (bv_index _ _ Hc) as [[Hch Hpow Htime _] Hhash _ Hpar Hroot _ Hwork].
  pose proof (bv_tree _ _ Hc) as Ht. split_and!; [by apply (Hhash q b)|by apply (pt_target _ _ Hpow q b)|by apply (pt_target _ _ Hpow q b)|by apply Hwork| |].
  - pose proof (tr_height _ Ht q b Hq). destruct (walk_height _ Ht (Z.to_nat (bi_Height b)) q b Hq ltac:(lia)) as (g & gb & Hw & Hg & Hh). exists g. split; [done|]. apply (Hroot g gb Hg).
    destruct (bi_Prev gb) as [x|] eqn:Ex; [|done]. destruct (tr_prev _ Ht g gb x Hg Ex) as (xb & Hx & Hhx). pose proof (tr_height _ Ht x xb Hx). lia.
  - intros r Hr. destruct (tr_prev _ Ht q b r Hq Hr) as (rb & Hrb & Hh). pose proof (Htime q b r Hq Hr) as Hm. exists rb.
    split_and!; [done|by apply (Hpar q)|done|by apply (pt_work _ _ Hpow q b r rb)|done|apply (mtp_grows _ q b r); [done|done|by eexists|lia]].
Qed.

(** ** The candidates *)
(** C5. Whatever the order in which headers and blocks arrive, also a block before its
    parent, the candidates for the active chain are exactly the blocks that are
    received with all their ancestors, except those above a block that failed: a candidate
    can be connected block by block from the first one, and FindMostWorkChain returns one that no
    such block exceeds in work.  No index and no candidate is ever lost, and the
    active chain is left alone. *)
Theorem FindMostWorkChain_available c0 c : block_inv params c0 -> tree_steps params Excessiveblocksize minimumChainWork c0 c ->
  grows c0 c /\ (forall q, q ∈ branch c -> available c q) /\ (forall q, available c q -> sound c q -> q ∈ branch c) /\
  (forall q, available c q -> sound c q -> exists m, FindMostWorkChain c = Some m /\ available c m /\ work_of (c_heap c) q <= work_of (c_heap c) m).
Proof.
  intros Hi Hs. destruct (tree_steps_inv _ _ _ _ _ Hi Hs) as [Hc Hg].
  assert (forall q, available c q -> sound c q -> q ∈ branch c) as Hav.
  { intros q Ha Hf. pose proof Ha as [[b Hb] _]. pose proof (tr_height _ (bv_tree _ _ Hc) q b Hb). apply (available_candidate params c Hc (Z.to_nat (bi_Height b)) q b); [done|lia|done|done]. }
  split; [done|]. split; [intros q; by apply (candidate_available params)|]. split; [done|]. intros q Ha Hf. pose proof (Hav q Ha Hf) as Hq.
  unfold FindMostWorkChain. destruct (last (branch c)) as [m|] eqn:El; [|apply last_None in El; rw El in Hq; by apply elem_of_nil in Hq].
  exists m. split; [done|]. split; [apply (candidate_available params c m Hc); by apply last_Some_elem_of|by apply (by_work_last _ _ _ (bv_sorted _ _ Hc) El)].
Qed.

(** ** A new block *)
(** C27. What becomes of a new block.  A block that is stored passed the rules for a block on its
    own (work, Merkle root without duplicates, a coinbase, size, signature operations) and those
    of its place in the chain, its header is in the tree, and it has data that it had not before.
    A block that was received before changes nothing.  A block that is refused, or that is too
    light and was not asked for, gives no block data; one that breaks the rules for a block on its own changes nothing. *)
Theorem ProcessNewBlock_outcome write now c b force c' b' a : let hash := (Header_GetHash Sha256 (Header b)).1 in
  block_inv params c -> header_offered c (Header b) -> Checked b = false ->
  ProcessNewBlock params Excessiveblocksize minimumChainWork write now c b force = Ok (c', b', a) ->
  match a with
  | Stored q => block_rules params Excessiveblocksize b b' /\ FindBlockIndex c' hash = Some q /\
      (forall qb, c_heap c !! q = Some qb -> HasData qb = false) /\
      exists c1 qb qb', AcceptBlockHeader params now c (Header b) = Ok (c1, q) /\ c_heap c1 !! q = Some qb /\
        ContextualCheckBlock params (c_heap c1) b' (bi_Prev qb) = Ok tt /\ c_heap c' !! q = Some qb' /\ HasData qb' = true /\ links qb' = links qb
  | AlreadyReceived q => c' = c /\ FindBlockIndex c hash = Some q
  | LowWork q => force = false /\ data_kept c c' /\ exists qb, c_heap c' !! q = Some qb /\ bi_ChainWork qb < minimumChainWork
  | Rejected e => data_kept c c' /\ (CheckBlock params Excessiveblocksize b true true = Err e -> c' = c)
  end.
Proof.
  intros hash Hi Hoff Hnc Hp. unfold ProcessNewBlock in Hp. destruct (CheckBlock params Excessiveblocksize b true true) as [b1|e1|] eqn:Ec; [|injection Hp as <- _ <-; by split; [apply data_kept_refl|]|done].
  pose proof (CheckBlock_ok _ _ _ _ Hnc Ec) as Hrules. pose proof (br_same _ _ _ _ Hrules) as (Hh & _ & Hck). unfold AcceptBlock in Hp. rw Hh in Hp.
  destruct (AcceptBlockHeader params now c (Header b)) as [[c1 q]|e1|] eqn:Eh; [|injection Hp as <- _ <-; by split; [apply data_kept_refl|]|done].
  destruct (AcceptBlockHeader_found params now c (Header b) c1 q Hi Hoff Eh) as (Hf & Hkept & Hold). destruct (AcceptBlockHeader_block_inv params now c (Header b) c1 q Hi Hoff Eh) as (Hi1 & [qb Hqb] & Hsub & _).
  rw (bload_Some _ q qb Hqb) in Hp. cbn [mbind res_bind] in Hp. destruct (HasData qb) eqn:Ed.
  { injection Hp as <- _ <-. pose proof (Hold qb Hqb Ed) as E1. by rw -{2}E1. }
  apply res_bind_inv in Hp as (w & _ & Hp). apply res_bind_inv in Hp as (ht & _ & Hp). cbv zeta in Hp.
  destruct (_ && _) in Hp; [by injection Hp as <- _ <-|]. destruct (_ && _) in Hp; [by injection Hp as <- _ <-|]. destruct (_ && _) eqn:Elow in Hp.
  { injection Hp as <- _ <-. apply andb_prop in Elow as [Hff Hlow]. apply negb_true_iff in Hff. split_and!; [done|done|]. exists qb. split; [done|lia]. }
  assert (CheckBlock params Excessiveblocksize b1 true true = Ok b1) as Ec1 by (unfold CheckBlock; by rw Hck). rw Ec1 in Hp.
  destruct (ContextualCheckBlock params (c_heap c1) b1 (bi_Prev qb)) as [[]|e1|] eqn:Ectx; [| |done].
  2:{ apply res_bind_inv in Hp as (c2 & Hm & [= <- _ <-]). split; [|done]. eapply data_kept_trans; [exact Hkept|]. exact (mark_failed_data _ _ _ Hm). }
  destruct (write qb b1) as [pos|]; [|by injection Hp as <- _ <-]. apply res_bind_inv in Hp as (c2 & Hr & [= <- <- <-]).
  destruct (ReceivedBlockTransactions_inv params b1 q pos c1 c2 qb Hi1 Hqb Ed Hr) as (Hi2 & Hs & _ & _ & _ & qb' & Hqb' & Hd). destruct (status_step_back _ _ _ _ Hs Hqb') as (x & Hx & Hl & _).
  rw Hqb in Hx. injection Hx as <-. split; [done|]. split; [|split; [|by exists c1, qb, qb']].
  - rw -(bv_hash _ _ (bv_index _ _ Hi2) q qb' Hqb'). f_equal. rw -(hash_of_proper Sha256 _ _ (proj1 Hs) q q eq_refl). symmetry. by apply (bv_map _ _ (bv_index _ _ Hi1)).
  - intros x Hx. rw (lookup_weaken _ _ _ _ Hx Hsub) in Hqb. congruence.
Qed.
End Theorems.

Lemma header_tree_rules_witness :
  exists b, c_heap net3 !! 3%nat = Some b /\ mtp (c_heap net3) 2 < Time (bi_Header b) /\ bi_Height b = 2.
Proof.
  assert (exists b, c_heap net3 !! 3%nat = Some b /\ bi_Prev b = Some 2%nat /\ bi_Height b = 2) as (b & Hb & Hp & Hh) by (vm_compute; eexists; split_and!; reflexivity).
  exists b. split; [exact Hb|]. destruct (header_tree_rules net_params 1000000 0 toy_chain net3 toy_block_inv net_steps 3%nat b Hb) as (_ & _ & _ & _ & Hpar).
  destruct (Hpar 2%nat Hp) as (rb & _ & _ & _ & _ & Hm & _). split; [exact Hm|exact Hh].
Defined.
Lemma FindMostWorkChain_available_witness : FindMostWorkChain net3 = Some 3%nat /\ available net3 3 /\ grows toy_chain net3.
Proof.
  destruct (FindMostWorkChain_available net_params 1000000 0 toy_chain net3 toy_block_inv net_steps) as (Hg & Hb & _).
  split; [by vm_compute|]. split; [|exact Hg]. apply Hb. assert (branch net3 = [1; 2; 3]%nat) as -> by by vm_compute. apply list_elem_of_In. cbn. auto.
Defined.
Lemma ProcessNewBlock_outcome_witness : exists c' b', process toy_chain (net_block 1 2) = Ok (c', b', Stored 2) /\
  block_rules net_params 1000000 (net_block 1 2) b' /\ FindBlockIndex c' (toy_hash 2) = Some 2%nat.
Proof.
  destruct (process toy_chain (net_block 1 2)) as [[[c' b'] a]| |] eqn:Ep.
  - assert (a = Stored 2) as -> by (vm_compute in Ep; by injection Ep). exists c', b'. split; [reflexivity|].
    destruct (ProcessNewBlock_outcome net_params 1000000 0 net_write 0 toy_chain (net_block 1 2) true c' b' (Stored 2)) as (Hr & Hf & _).
    + exact toy_block_inv.
    + apply offered_compute. by vm_compute.
    + reflexivity.
    + exact Ep.
    + split; [exact Hr|exact Hf].
  - exfalso. vm_compute in Ep. discriminate Ep.
  - exfalso. vm_compute in Ep. discriminate Ep.
Defined.
