(* ===== verification/Mempool.v ===== *)
(** * The memory pool (model/mempool)

    Entries point to their parents and children in the pool; a pointer is a [nat] that
    is looked up in a heap of entries.  The sorted containers are the lists of their
    elements, searched with the order of the moment.  The order in which Go ranges over
    a map, the clock and the size of the struct TxEntry are parameters.  Locks and
    the minimum fee that decays with time (floating point) are not represented. *)
From S2P Require Import Prelude Errors Wire ScriptNum Opcodes Script ScriptFacts Tx TxFacts Crypto Compress Coins Block Undo.

(** ** Work-list loops *)
(** Up to [2 ^ k] steps; a step goes on with a state or ends with a result. *)
Fixpoint loop {S R : Type} (k : nat) (step : S -> S + R) (s : S) : S + R :=
  match k with
  | O => step s
  | Datatypes.S k => match loop k step s with inl s => loop k step s | inr r => inr r end
  end.
Definition run_loop {S A E : Type} (k : nat) (step : S -> S + res E A) (s : S) : res E A :=
  match loop k step s with inl _ => Panic | inr r => r end.

(** ** Fee rates (util/feeRate.go) *)
Definition GetFeePerK (SataoshisPerK : Z) : Z := GetFee SataoshisPerK 1000.
Definition NewFeeRateWithSize (feePaid bytes : Z) : Z := if 0 <? bytes then Z.quot (i64 (feePaid * 1000)) bytes else 0.

Definition FeeRate_SerializeSize : Z := 8.
Definition FeeRate_Serialize (SataoshisPerK : Z) : bytes := le_bytes 8 SataoshisPerK.
Definition FeeRate_Unserialize : rd werr Z := v ← Uint64; mret (i64 v).
Definition FeeRate_Less (a b : Z) : bool := a <? b.

(** ** Sorted containers (util/algorithm/mapcontainer) *)
Section Container.
Context (less : nat -> nat -> bool).
Definition isEqual (x y : nat) : bool := negb (less x y) && negb (less y x).
(** The elements below [x], and the others. *)
Fixpoint searchPrev (x : nat) (l : list nat) : list nat * list nat :=
  match l with
  | [] => ([], [])
  | y :: l' => if less y x then let '(a, b) := searchPrev x l' in (y :: a, b) else ([], l)
  end.
Definition removeIfAny (x : nat) (l : list nat) : list nat * list nat * option nat :=
  let '(a, b) := searchPrev x l in
  match b with
  | y :: b' => if isEqual y x then (a, b', Some y) else (a, b, None)
  | [] => (a, [], None)
  end.
Definition ReplaceOrInsert (x : nat) (l : list nat) : list nat := let '(a, b, _) := removeIfAny x l in a ++ x :: b.
Definition Container_Delete (x : nat) (l : list nat) : list nat * option nat := let '(a, b, y) := removeIfAny x l in (a ++ b, y).
End Container.
Definition Container_Min (l : list nat) : option nat := head l.

(** ** Entries *)
Record LockPoints := mkLockPoints { lp_Height : Z; lp_Time : Z; MaxInputBlock : option nat }.
Definition NewLockPoints : LockPoints := mkLockPoints 0 0 None.
Record StatisInformation := mkStat {
  SumTxCountWithDescendants : Z;
  SumTxFeeWithDescendants : Z;
  SumTxSizeWithDescendants : Z;
  SumTxCountWithAncestors : Z;
  SumTxSizeWitAncestors : Z;
  SumTxSigOpCountWithAncestors : Z;
  SumTxFeeWithAncestors : Z }.
Record TxEntry := mkEntry {
  e_Tx : Tx;
  TxSize : Z;
  TxFee : Z;
  TxHeight : Z;
  SigOpCount : Z;
  e_time : Z;
  e_usageSize : Z;
  ChildTx : gset nat;
  ParentTx : gset nat;
  e_lp : LockPoints;
  spendsCoinbase : bool;
  stat : StatisInformation }.
Abbreviation eheap := (gmap nat TxEntry).

Definition set_ChildTx (s : gset nat) (e : TxEntry) : TxEntry :=
  mkEntry (e_Tx e) (TxSize e) (TxFee e) (TxHeight e) (SigOpCount e) (e_time e) (e_usageSize e) s (ParentTx e) (e_lp e) (spendsCoinbase e) (stat e).
Definition set_ParentTx (s : gset nat) (e : TxEntry) : TxEntry :=
  mkEntry (e_Tx e) (TxSize e) (TxFee e) (TxHeight e) (SigOpCount e) (e_time e) (e_usageSize e) (ChildTx e) s (e_lp e) (spendsCoinbase e) (stat e).
Definition set_stat (s : StatisInformation) (e : TxEntry) : TxEntry :=
  mkEntry (e_Tx e) (TxSize e) (TxFee e) (TxHeight e) (SigOpCount e) (e_time e) (e_usageSize e) (ChildTx e) (ParentTx e) (e_lp e) (spendsCoinbase e) s.

Definition UpdateParent (parent : nat) (add : bool) (e : TxEntry) : TxEntry :=
  set_ParentTx (if add then {[parent]} ∪ ParentTx e else ParentTx e ∖ {[parent]}) e.
Definition UpdateChild (child : nat) (add : bool) (e : TxEntry) : TxEntry :=
  set_ChildTx (if add then {[child]} ∪ ChildTx e else ChildTx e ∖ {[child]}) e.
Definition UpdateDescendantState (updateCount updateSize updateFee : Z) (e : TxEntry) : TxEntry :=
  let s := stat e in
  set_stat (mkStat (i64 (SumTxCountWithDescendants s + updateCount)) (i64 (SumTxFeeWithDescendants s + updateFee)) (i64 (SumTxSizeWithDescendants s + updateSize))
              (SumTxCountWithAncestors s) (SumTxSizeWitAncestors s) (SumTxSigOpCountWithAncestors s) (SumTxFeeWithAncestors s)) e.
Definition UpdateAncestorState (updateCount updateSize updateSigOps updateFee : Z) (e : TxEntry) : TxEntry :=
  let s := stat e in
  set_stat (mkStat (SumTxCountWithDescendants s) (SumTxFeeWithDescendants s) (SumTxSizeWithDescendants s)
              (i64 (SumTxCountWithAncestors s + updateCount)) (i64 (SumTxSizeWitAncestors s + updateSize))
              (i64 (SumTxSigOpCountWithAncestors s + updateSigOps)) (i64 (SumTxFeeWithAncestors s + updateFee))) e.

(** ** Transactions without their inputs *)
Record OrphanTx := mkOrphan { o_Tx : Tx; NodeID : Z; Expiration : Z }.
Record OrphanPool := mkOrphans {
  OrphanTransactionsByPrev : gmap OutPoint (gmap bytes OrphanTx);
  OrphanTransactions : gmap bytes OrphanTx;
  nextSweep : Z }.

(** ** The pool *)
Record TxMempool := mkPool {
  entries : eheap;
  poolData : gmap bytes nat;
  nextTx : gmap OutPoint nat;
  rootTx : gmap bytes nat;
  txByAncestorFeeRateSort : list nat;
  timeSortData : list nat;
  usageSize : Z;
  totalTxSize : Z;
  TransactionsUpdated : Z;
  orphanPool : OrphanPool;
  incrementalRelayFee : Z;
  rollingMinimumFeeRate : Z;
  blockSinceLastRollingFeeBump : bool;
  lastRollingFeeUpdate : Z }.
Definition NewTxMempool : TxMempool := mkPool ∅ ∅ ∅ ∅ [] [] 0 0 0 (mkOrphans ∅ ∅ 0) 1 0 false 0.
Definition with_entries (m : TxMempool) (h : eheap) : TxMempool :=
  mkPool h (poolData m) (nextTx m) (rootTx m) (txByAncestorFeeRateSort m) (timeSortData m) (usageSize m) (totalTxSize m) (TransactionsUpdated m)
    (orphanPool m) (incrementalRelayFee m) (rollingMinimumFeeRate m) (blockSinceLastRollingFeeBump m) (lastRollingFeeUpdate m).
Definition with_sorted (m : TxMempool) (fees times : list nat) : TxMempool :=
  mkPool (entries m) (poolData m) (nextTx m) (rootTx m) fees times (usageSize m) (totalTxSize m) (TransactionsUpdated m)
    (orphanPool m) (incrementalRelayFee m) (rollingMinimumFeeRate m) (blockSinceLastRollingFeeBump m) (lastRollingFeeUpdate m).
Definition with_orphans (m : TxMempool) (o : OrphanPool) : TxMempool :=
  mkPool (entries m) (poolData m) (nextTx m) (rootTx m) (txByAncestorFeeRateSort m) (timeSortData m) (usageSize m) (totalTxSize m) (TransactionsUpdated m)
    o (incrementalRelayFee m) (rollingMinimumFeeRate m) (blockSinceLastRollingFeeBump m) (lastRollingFeeUpdate m).
Definition eload {E} (h : eheap) (q : nat) : res E TxEntry := match h !! q with Some e => Ok e | None => Panic end.

Inductive MemPoolErr := ManyUnspendDepend.

(** ** What the pool tells about an entry *)
Record TxMempoolInfo := mkInfo { info_Tx : Tx; info_Time : Z; info_FeeRate : Z }.
Definition GetFeeRate (e : TxEntry) : Z := NewFeeRateWithSize (TxFee e) (TxSize e).
Definition GetInfo (e : TxEntry) : TxMempoolInfo := mkInfo (e_Tx e) (e_time e) (GetFeeRate e).
Definition Info_Serialize (i : TxMempoolInfo) : bytes := Tx_Encode (info_Tx i) ++ PutUint64 (u64 (info_Time i)) ++ PutUint64 (u64 (info_FeeRate i)).
Definition Info_Unserialize (i : TxMempoolInfo) : rd werr TxMempoolInfo :=
  tx ← Tx_Decode (info_Tx i); t ← Uint64; f ← Uint64; mret (mkInfo tx (i64 t) (i64 f)).
(** In the order of the container by fee rate; the result has as many places as the
    pool has transactions, nil where nothing is stored. *)
Fixpoint infos {E} (h : eheap) (n : nat) (l : list nat) : res E (list (option TxMempoolInfo)) :=
  match l, n with
  | [], _ => Ok (replicate n None)
  | _, O => Panic
  | q :: l, S n => e ← eload h q; rest ← infos h n l; Ok (Some (GetInfo e) :: rest)
  end.
Definition TxInfoAll {E} (m : TxMempool) : res E (list (option TxMempoolInfo)) := infos (entries m) (size (poolData m)) (txByAncestorFeeRateSort m).

Section Mempool.
Context (Sha256 : bytes -> bytes).
(** unsafe.Sizeof of a TxEntry. *)
Context (sizeof_TxEntry : Z).
(** The order of a range over a map. *)
Context (range : gset nat -> list nat).

Definition NewTxentry {E} (t : Tx) (txFee acceptTime height : Z) (lp : LockPoints) (sigOpsCount : Z) (spendCoinbase : bool) : res E TxEntry :=
  size ← Tx_EncodeSize t;
  Ok (mkEntry t size txFee height sigOpsCount acceptTime (i64 (size + sizeof_TxEntry)) ∅ ∅ lp spendCoinbase (mkStat 1 txFee size 1 size sigOpsCount txFee)).

(** *** The two orders *)
(** Hash.Cmp compares the hashes as big-endian numbers. *)
Definition hash_num (e : TxEntry) : Z := le_val (reverse (txid Sha256 (e_Tx e))).
Definition TxEntry_Less (a b : TxEntry) : bool :=
  if e_time a =? e_time b then hash_num b <? hash_num a else e_time a <? e_time b.
Definition AncestorFeeRate (e : TxEntry) : Z := NewFeeRateWithSize (SumTxFeeWithAncestors (stat e)) (SumTxSizeWitAncestors (stat e)).
Definition EntryAncestorFeeRateSort_Less (a b : TxEntry) : bool :=
  let b1 := AncestorFeeRate a in let b2 := AncestorFeeRate b in
  if b1 =? b2 then hash_num a <? hash_num b else b2 <? b1.
Definition on_heap (less : TxEntry -> TxEntry -> bool) (h : eheap) (x y : nat) : bool :=
  match h !! x, h !! y with Some a, Some b => less a b | _, _ => false end.
Definition time_less : eheap -> nat -> nat -> bool := on_heap TxEntry_Less.
Definition fee_less : eheap -> nat -> nat -> bool := on_heap EntryAncestorFeeRateSort_Less.
Definition entry_hash (e : TxEntry) : bytes := txid Sha256 (e_Tx e).

Definition EntryFeeSort_Less (a b : TxEntry) : bool :=
  let b1 := SumTxFeeWithAncestors (stat a) in let b2 := SumTxFeeWithAncestors (stat b) in
  if b1 =? b2 then hash_num a <? hash_num b else b2 <? b1.

(** *** Descendants and ancestors *)
Definition work_bound (m : TxMempool) : nat := S (size (entries m)) * S (size (entries m)).
Definition descendants_step {E} (h : eheap) (s : list nat * gset nat) : (list nat * gset nat) + res E (gset nat) :=
  let '(stage, descendants) := s in
  match stage with
  | [] => inr (Ok descendants)
  | x :: stage =>
      match h !! x with
      | None => inr Panic
      | Some e =>
          let descendants := {[x]} ∪ descendants in
          inl (stage ++ filter (fun y => y ∉ descendants) (range (ChildTx e)), descendants)
      end
  end.
Definition CalculateDescendants {E} (m : TxMempool) (entry : nat) (descendants : gset nat) : res E (gset nat) :=
  let stage := if decide (entry ∈ descendants) then [] else [entry] in
  run_loop (work_bound m) (descendants_step (entries m)) (stage, descendants).
Fixpoint calculate_all {E} (m : TxMempool) (l : list nat) (descendants : gset nat) : res E (gset nat) :=
  match l with
  | [] => Ok descendants
  | x :: l => d ← CalculateDescendants m x descendants; calculate_all m l d
  end.

Record Limits := mkLimits {
  limitAncestorCount : Z;
  limitAncestorSize : Z;
  limitDescendantCount : Z;
  limitDescendantSize : Z }.
Definition noLimit : Limits := mkLimits (2 ^ 64 - 1) (2 ^ 64 - 1) (2 ^ 64 - 1) (2 ^ 64 - 1).
Fixpoint find_parents (m : TxMempool) (lim : Limits) (l : list TxIn) (parents : gset nat) : res MemPoolErr (gset nat) :=
  match l with
  | [] => Ok parents
  | i :: l =>
      match poolData m !! Hash (PreviousOutPoint i) with
      | None => find_parents m lim l parents
      | Some q =>
          let parents := {[q]} ∪ parents in
          if limitAncestorCount lim <? u64 (Z.of_nat (size parents) + 1) then Err ManyUnspendDepend
          else find_parents m lim l parents
      end
  end.
Fixpoint add_grandparents (lim : Limits) (ancestors : gset nat) (l temp : list nat) : res MemPoolErr (list nat) :=
  match l with
  | [] => Ok temp
  | g :: l =>
      let temp := if decide (g ∈ ancestors) then temp else temp ++ [g] in
      if limitAncestorCount lim <? u64 (Z.of_nat (length temp) + Z.of_nat (size ancestors) + 1) then Err ManyUnspendDepend
      else add_grandparents lim ancestors l temp
  end.
Definition ancestors_step (h : eheap) (lim : Limits) (s : list nat * gset nat * Z) : (list nat * gset nat * Z) + res MemPoolErr (gset nat) :=
  let '(temp, ancestors, total) := s in
  match temp with
  | [] => inr (Ok ancestors)
  | x :: temp =>
      match h !! x with
      | None => inr Panic
      | Some e =>
          let ancestors := {[x]} ∪ ancestors in
          if limitDescendantSize lim <? u64 (i64 (SumTxSizeWithDescendants (stat e) + TxSize e)) then inr (Err ManyUnspendDepend)
          else if limitDescendantCount lim <? u64 (i64 (SumTxCountWithDescendants (stat e) + 1)) then inr (Err ManyUnspendDepend)
          else
            let total := i64 (total + TxSize e) in
            if limitAncestorSize lim <? u64 total then inr (Err ManyUnspendDepend)
            else match add_grandparents lim ancestors (range (ParentTx e)) temp with
                 | Ok temp => inl (temp, ancestors, total)
                 | Err e => inr (Err e)
                 | Panic => inr Panic
                 end
      end
  end.
Definition CalculateMemPoolAncestors (m : TxMempool) (t : Tx) (lim : Limits) (searchForParent : bool) : res MemPoolErr (gset nat) :=
  parents ← (if searchForParent then find_parents m lim (ins t) ∅
             else q ← deref (poolData m !! txid Sha256 t); e ← eload (entries m) q; Ok (ParentTx e));
  size ← Tx_EncodeSize t;
  run_loop (work_bound m) (ancestors_step (entries m) lim) (range parents, ∅, size).

(** *** Adding *)
Definition modify {E} (f : TxEntry -> TxEntry) (q : nat) (h : eheap) : res E eheap := e ← eload h q; Ok (<[q := f e]> h).
Fixpoint modify_all {E} (f : TxEntry -> TxEntry) (l : list nat) (h : eheap) : res E eheap :=
  match l with [] => Ok h | q :: l => h ← modify f q h; modify_all f l h end.
Definition UpdateChildOfParents {E} (q : nat) (add : bool) (h : eheap) : res E eheap :=
  e ← eload h q; modify_all (UpdateChild q add) (range (ParentTx e)) h.
(** The map nextTx and the hashes of the parents. *)
Definition updateNextTx (q : nat) (t : Tx) (next : gmap OutPoint nat) : gmap OutPoint nat * gset bytes :=
  (foldl (fun n i => <[PreviousOutPoint i := q]> n) next (ins t), list_to_set (PrevoutHashs t)).
Definition updateAncestors {E} (add : bool) (e : TxEntry) (ancestors : gset nat) (h : eheap) : res E eheap :=
  let updateCount := if add then 1 else -1 in
  modify_all (UpdateDescendantState updateCount (i64 (updateCount * TxSize e)) (i64 (updateCount * TxFee e))) (range ancestors) h.
Fixpoint sum_entries {E} (l : list nat) (h : eheap) (size fee ops : Z) : res E (Z * Z * Z) :=
  match l with
  | [] => Ok (size, fee, ops)
  | q :: l => e ← eload h q; sum_entries l h (i64 (size + TxSize e)) (i64 (fee + TxFee e)) (i64 (ops + SigOpCount e))
  end.
Definition updateEntryForAncestors {E} (q : nat) (setAncestors : gset nat) (h : eheap) : res E eheap :=
  '(updateSize, updateFee, updateSigOpsCount) ← sum_entries (range setAncestors) h 0 0 0;
  modify (UpdateAncestorState (Z.of_nat (size setAncestors)) updateSize updateSigOpsCount updateFee) q h.
(** AddTx without the limit at its end; [q] is the address of the entry. *)
Definition AddTx_unlimited {E} (m : TxMempool) (q : nat) (txEntry : TxEntry) (ancestors : gset nat) : res E TxMempool :=
  let h := <[q := txEntry]> (entries m) in
  let times := ReplaceOrInsert (time_less h) q (timeSortData m) in
  let hash := entry_hash txEntry in
  let pool := <[hash := q]> (poolData m) in
  let '(next, parentSet) := updateNextTx q (e_Tx txEntry) (nextTx m) in
  let parents : list nat := omap (fun k => pool !! k) (elements parentSet) in
  let h := <[q := foldl (fun e p => UpdateParent p true e) txEntry parents]> h in
  h ← UpdateChildOfParents q true h;
  h ← updateAncestors true txEntry ancestors h;
  h ← updateEntryForAncestors q ancestors h;
  e ← eload h q;
  Ok (mkPool h pool next
        (if SumTxCountWithAncestors (stat e) =? 1 then <[hash := q]> (rootTx m) else rootTx m)
        (ReplaceOrInsert (fee_less h) q (txByAncestorFeeRateSort m)) times
        (i64 (usageSize m + e_usageSize txEntry)) (u64 (totalTxSize m + TxSize txEntry)) (u64 (TransactionsUpdated m + 1))
        (orphanPool m) (incrementalRelayFee m) (rollingMinimumFeeRate m) (blockSinceLastRollingFeeBump m) (lastRollingFeeUpdate m)).

(** *** Removing *)
(** The order by fee depends on the sums, so the entry is taken out while they change. *)
Definition adjust_descendant {E} (removed : TxEntry) (m : TxMempool) (d : nat) : res E TxMempool :=
  let h := entries m in
  let times := (Container_Delete (time_less h) d (timeSortData m)).1 in
  let fees := (Container_Delete (fee_less h) d (txByAncestorFeeRateSort m)).1 in
  h ← modify (UpdateAncestorState (-1) (i64 (- TxSize removed)) (i64 (- SigOpCount removed)) (i64 (- TxFee removed))) d h;
  Ok (with_sorted (with_entries m h) (ReplaceOrInsert (fee_less h) d fees) (ReplaceOrInsert (time_less h) d times)).
Fixpoint adjust_descendants {E} (removed : TxEntry) (l : list nat) (m : TxMempool) : res E TxMempool :=
  match l with [] => Ok m | d :: l => m ← adjust_descendant removed m d; adjust_descendants removed l m end.
Fixpoint adjust_all {E} (l : list nat) (m : TxMempool) : res E TxMempool :=
  match l with
  | [] => Ok m
  | q :: l =>
      setDescendants ← CalculateDescendants m q ∅;
      e ← eload (entries m) q;
      m ← adjust_descendants e (range (setDescendants ∖ {[q]})) m;
      adjust_all l m
  end.
Fixpoint cut_children {E} (l : list nat) (h : eheap) : res E eheap :=
  match l with
  | [] => Ok h
  | q :: l => e ← eload h q; h ← modify_all (UpdateParent q false) (range (ChildTx e)) h; cut_children l h
  end.
(** An error of CalculateMemPoolAncestors ends the loop. *)
Fixpoint cut_parents {E} (l : list nat) (m : TxMempool) : res E TxMempool :=
  match l with
  | [] => Ok m
  | q :: l =>
      e ← eload (entries m) q;
      match CalculateMemPoolAncestors m (e_Tx e) noLimit true with
      | Panic => Panic
      | Err _ => Ok m
      | Ok ancestors =>
          h ← UpdateChildOfParents q false (entries m);
          h ← updateAncestors false e ancestors h;
          cut_parents l (with_entries m h)
      end
  end.
Definition updateForRemoveFromMempool {E} (entriesToRemove : gset nat) (updateDescendants : bool) (m : TxMempool) : res E TxMempool :=
  m ← (if updateDescendants then adjust_all (range entriesToRemove) m else Ok m);
  h ← cut_children (range entriesToRemove) (entries m);
  cut_parents (range entriesToRemove) (with_entries m h).
Definition delTxentry {E} (q : nat) (m : TxMempool) : res E TxMempool :=
  e ← eload (entries m) q;
  let hash := entry_hash e in
  Ok (mkPool (entries m) (delete hash (poolData m)) (foldl (fun n o => delete o n) (nextTx m) (GetAllPreviousOut (e_Tx e))) (delete hash (rootTx m))
        (Container_Delete (fee_less (entries m)) q (txByAncestorFeeRateSort m)).1 (Container_Delete (time_less (entries m)) q (timeSortData m)).1
        (i64 (usageSize m - e_usageSize e)) (u64 (totalTxSize m - TxSize e)) (u64 (TransactionsUpdated m + 1))
        (orphanPool m) (incrementalRelayFee m) (rollingMinimumFeeRate m) (blockSinceLastRollingFeeBump m) (lastRollingFeeUpdate m)).
Fixpoint delete_entries {E} (l : list nat) (m : TxMempool) : res E TxMempool :=
  match l with [] => Ok m | q :: l => m ← delTxentry q m; delete_entries l m end.
Definition RemoveStaged {E} (entriesToRemove : gset nat) (updateDescendants : bool) (m : TxMempool) : res E TxMempool :=
  m ← updateForRemoveFromMempool entriesToRemove updateDescendants m;
  delete_entries (range entriesToRemove) m.

(** The children of a transaction that is not in the pool itself. *)
Fixpoint spenders {E} (m : TxMempool) (h : bytes) (n : nat) (i : Z) (acc : gset nat) : res E (gset nat) :=
  match n with
  | O => Ok acc
  | S n =>
      match nextTx m !! mkOutPoint h (u32 i) with
      | None => spenders m h n (i + 1) acc
      | Some en => e ← eload (entries m) en; q ← deref (poolData m !! entry_hash e); spenders m h n (i + 1) ({[q]} ∪ acc)
      end
  end.
Definition removeTxRecursive {E} (origTx : Tx) (m : TxMempool) : res E TxMempool :=
  txToRemove ← match poolData m !! txid Sha256 origTx with
               | Some q => Ok {[q]}
               | None => spenders m (txid Sha256 origTx) (length (outs origTx)) 0 ∅
               end;
  allRemoves ← calculate_all m (range txToRemove) ∅;
  RemoveStaged allRemoves false m.
Fixpoint removeConflicts_loop {E} (h : bytes) (l : list OutPoint) (m : TxMempool) : res E TxMempool :=
  match l with
  | [] => Ok m
  | o :: l =>
      match nextTx m !! o with
      | None => removeConflicts_loop h l m
      | Some q =>
          e ← eload (entries m) q;
          m ← (if bool_decide (entry_hash e = h) then Ok m else removeTxRecursive (e_Tx e) m);
          removeConflicts_loop h l m
      end
  end.
Definition removeConflicts {E} (t : Tx) (m : TxMempool) : res E TxMempool := removeConflicts_loop (txid Sha256 t) (GetAllPreviousOut t) m.
Fixpoint remove_block_txs {E} (txs : list Tx) (m : TxMempool) : res E TxMempool :=
  match txs with
  | [] => Ok m
  | t :: txs =>
      m ← match poolData m !! txid Sha256 t with Some q => RemoveStaged {[q]} true m | None => Ok m end;
      m ← removeConflicts t m;
      remove_block_txs txs m
  end.
Definition RemoveTxSelf {E} (now : Z) (txs : list Tx) (m : TxMempool) : res E TxMempool :=
  m ← remove_block_txs txs m;
  Ok (mkPool (entries m) (poolData m) (nextTx m) (rootTx m) (txByAncestorFeeRateSort m) (timeSortData m) (usageSize m) (totalTxSize m) (TransactionsUpdated m)
        (orphanPool m) (incrementalRelayFee m) (rollingMinimumFeeRate m) true now).

(** *** Limits *)
(** The entries from the oldest on, while they are older than [time]. *)
Fixpoint older {E} (h : eheap) (time : Z) (l : list nat) : res E (gset nat) :=
  match l with
  | [] => Ok ∅
  | q :: l => e ← eload h q; if e_time e <? time then s ← older h time l; Ok ({[q]} ∪ s) else Ok ∅
  end.
Definition expire {E} (time : Z) (m : TxMempool) : res E (TxMempool * nat) :=
  toremove ← older (entries m) time (timeSortData m);
  stage ← calculate_all m (range toremove) ∅;
  m ← RemoveStaged stage false m;
  Ok (m, size stage).
(** All pointers that are taken of the loop variable in one loop are the same, so the
    last output stands for each that qualifies. *)
Definition unspent_now (m : TxMempool) (t : Tx) : list OutPoint :=
  let free := filter (fun o => poolData m !! Hash o = None /\ nextTx m !! o = None) (GetAllPreviousOut t) in
  match last (GetAllPreviousOut t) with Some o => replicate (length free) o | None => [] end.
Fixpoint load_txs {E} (h : eheap) (l : list nat) : res E (list Tx) :=
  match l with [] => Ok [] | q :: l => e ← eload h q; ts ← load_txs h l; Ok (e_Tx e :: ts) end.
Definition trim_step {E} (sizeLimit : Z) (s : TxMempool * list OutPoint) : (TxMempool * list OutPoint) + res E (TxMempool * list OutPoint) :=
  let '(m, ret) := s in
  if decide (poolData m = ∅) then inr (Ok (m, ret))
  else if usageSize m <=? sizeLimit then inr (Ok (m, ret))
  else
    let next :=
      removeIt ← deref (Container_Min (txByAncestorFeeRateSort m));
      let '(fees, rem) := Container_Delete (fee_less (entries m)) removeIt (txByAncestorFeeRateSort m) in
      rem ← deref rem;
      e ← eload (entries m) removeIt; r ← eload (entries m) rem;
      if negb (bool_decide (entry_hash r = entry_hash e)) then Panic
      else
        let m := with_sorted m fees (timeSortData m) in
        stage ← CalculateDescendants m removeIt ∅;
        txn ← load_txs (entries m) (range stage);
        m ← RemoveStaged stage false m;
        Ok (m, ret ++ concat (map (unspent_now m) txn)) in
    match next with Ok s => inl s | Err e => inr (Err e) | Panic => inr Panic end.
(** Every round removes an entry. *)
Definition trimToSize {E} (sizeLimit : Z) (m : TxMempool) : res E (TxMempool * list OutPoint) :=
  run_loop (S (size (poolData m))) (trim_step sizeLimit) (m, []).
Definition trackPackageRemoved (rate : Z) (m : TxMempool) : TxMempool :=
  if rollingMinimumFeeRate m <? GetFeePerK rate then
    mkPool (entries m) (poolData m) (nextTx m) (rootTx m) (txByAncestorFeeRateSort m) (timeSortData m) (usageSize m) (totalTxSize m) (TransactionsUpdated m)
      (orphanPool m) (incrementalRelayFee m) (GetFeePerK rate) false (lastRollingFeeUpdate m)
  else m.

Section View.
Context `{Secp256k1} `{LruCache}.
Fixpoint remove_coins {E} (l : list OutPoint) (view : CoinsLruCache) : res E CoinsLruCache :=
  match l with [] => Ok view | o :: l => view ← RemoveCoins view o; remove_coins l view end.
Definition LimitMempoolSize {E} (now sizeLimit age : Z) (m : TxMempool) (view : CoinsLruCache) : res E (TxMempool * CoinsLruCache) :=
  '(m, _) ← expire (i64 (now - age)) m;
  '(m, outPoints) ← trimToSize sizeLimit m;
  view ← remove_coins outPoints view;
  Ok (m, view).
(** [MaxPoolSize] and [MaxPoolExpiry] are the configured limits. *)
Definition AddTx {E} (MaxPoolSize MaxPoolExpiry now : Z) (m : TxMempool) (q : nat) (txEntry : TxEntry) (ancestors : gset nat) (view : CoinsLruCache)
    : res E (TxMempool * CoinsLruCache) :=
  m ← AddTx_unlimited m q txEntry ancestors;
  LimitMempoolSize now MaxPoolSize (i64 (i64 (MaxPoolExpiry * 60) * 60)) m view.
(** addTxToMemPool of logic/lmempool; the entry is allocated at [q]. *)
Definition addTxToMemPool (MaxPoolSize MaxPoolExpiry now : Z) (lim : Limits) (m : TxMempool) (q : nat) (txe : TxEntry) (view : CoinsLruCache)
    : res MemPoolErr (TxMempool * CoinsLruCache) :=
  ancestors ← CalculateMemPoolAncestors m (e_Tx txe) lim true;
  AddTx MaxPoolSize MaxPoolExpiry now m q txe ancestors view.
End View.

(** *** Looking up *)
Definition HasSPentOutWithoutLock (m : TxMempool) (o : OutPoint) : option nat := nextTx m !! o.
Definition Mempool_Size (m : TxMempool) : nat := size (poolData m).
Definition GetPoolAllTxSize (m : TxMempool) : Z := totalTxSize m.
Definition GetPoolUsage (m : TxMempool) : Z := usageSize m.
Definition GetAllTxEntry (m : TxMempool) : gmap bytes nat := poolData m.
Definition GetAllSpentOutWithoutLock (m : TxMempool) : gmap OutPoint nat := nextTx m.
(** The copies of the root entries. *)
Definition GetRootTx (m : TxMempool) : gmap bytes TxEntry := omap (fun q => entries m !! q) (rootTx m).
Definition HasSpentOut (m : TxMempool) (o : OutPoint) : bool := bool_decide (is_Some (nextTx m !! o)).
Definition FindTx (m : TxMempool) (h : bytes) : option nat := poolData m !! h.
Definition Mempool_GetCoin {E} (m : TxMempool) (o : OutPoint) : res E (option Coin) :=
  match poolData m !! Hash o with
  | None => Ok None
  | Some q => e ← eload (entries m) q; Ok (NewMempoolCoin <$> GetTxOut (e_Tx e) (Index o))
  end.
Definition IsTransactionInPool (m : TxMempool) (t : Tx) : bool := bool_decide (is_Some (poolData m !! txid Sha256 t)).
Definition IsOrphanInPool (o : OrphanPool) (t : Tx) : bool := bool_decide (is_Some (OrphanTransactions o !! txid Sha256 t)).
Definition HaveTransaction (m : TxMempool) (t : Tx) : bool := IsTransactionInPool m t || IsOrphanInPool (orphanPool m) t.
Definition CalculateDescendantsWithLock {E} (m : TxMempool) (h : bytes) : res E (option (gset nat)) :=
  match poolData m !! h with None => Ok None | Some q => d ← CalculateDescendants m q ∅; Ok (Some d) end.
Definition CalculateMemPoolAncestorsWithLock (m : TxMempool) (h : bytes) : res MemPoolErr (option (gset nat)) :=
  match poolData m !! h with
  | None => Ok None
  | Some q =>
      e ← eload (entries m) q;
      match CalculateMemPoolAncestors m (e_Tx e) noLimit true with
      | Ok a => Ok (Some a)
      | Err _ => Ok None
      | Panic => Panic
      end
  end.
End Mempool.

(** ** Orphans *)
Section Orphans.
Context (Sha256 : bytes -> bytes).
Context (range_orphans : gmap bytes OrphanTx -> list OrphanTx).
Definition OrphanTxExpireTime : Z := 20 * 60.
Definition OrphanTxExpireInterval : Z := 5 * 60.
Definition DefaultMaxOrphanTransaction : Z := 100.
Definition CleanOrphan (o : OrphanPool) : OrphanPool := mkOrphans ∅ ∅ (nextSweep o).

Definition unlink_prev (h : bytes) (byPrev : gmap OutPoint (gmap bytes OrphanTx)) (o : OutPoint) : gmap OutPoint (gmap bytes OrphanTx) :=
  match byPrev !! o with
  | None => byPrev
  | Some s => let s := delete h s in if decide (s = ∅) then delete o byPrev else <[o := s]> byPrev
  end.
Definition unlink (h : bytes) (p : OrphanPool) : OrphanPool :=
  match OrphanTransactions p !! h with
  | None => p
  | Some ot => mkOrphans (foldl (unlink_prev h) (OrphanTransactionsByPrev p) (GetAllPreviousOut (o_Tx ot))) (OrphanTransactions p) (nextSweep p)
  end.
Definition link_prev (h : bytes) (ot : OrphanTx) (byPrev : gmap OutPoint (gmap bytes OrphanTx)) (o : OutPoint) : gmap OutPoint (gmap bytes OrphanTx) :=
  <[o := <[h := ot]> (default ∅ (byPrev !! o))]> byPrev.
(** The redeemers of an orphan are erased before it is; a range over a map does not
    produce what has been deleted from it meanwhile.  Looking at the outputs of a
    transaction that is not an orphan panics. *)
Fixpoint EraseOrphanTx {E} (fuel : nat) (h : bytes) (removeRedeemers : bool) (p : OrphanPool) : res E OrphanPool :=
  match fuel with
  | O => Panic
  | S fuel =>
      let p := unlink h p in
      let redeemer (o : OutPoint) (acc : res E OrphanPool) (r : OrphanTx) :=
        p ← acc;
        let k := txid Sha256 (o_Tx r) in
        if bool_decide (is_Some (default ∅ (OrphanTransactionsByPrev p !! o) !! k)) then EraseOrphanTx fuel k true p else Ok p in
      let output (acc : res E OrphanPool) (i : nat) :=
        p ← acc;
        let o := mkOutPoint h (u32 (Z.of_nat i)) in
        foldl (redeemer o) (Ok p) (range_orphans (default ∅ (OrphanTransactionsByPrev p !! o))) in
      p ← (if removeRedeemers then ot ← deref (OrphanTransactions p !! h); foldl output (Ok p) (seq 0 (length (outs (o_Tx ot)))) else Ok p);
      Ok (mkOrphans (OrphanTransactionsByPrev p) (delete h (OrphanTransactions p)) (nextSweep p))
  end.
(** Every nested call takes an orphan out of the map by previous outputs. *)
Definition erase {E} (h : bytes) (removeRedeemers : bool) (p : OrphanPool) : res E OrphanPool :=
  EraseOrphanTx (S (size (OrphanTransactions p))) h removeRedeemers p.
Definition still_orphan (p : OrphanPool) (ot : OrphanTx) : bool := bool_decide (is_Some (OrphanTransactions p !! txid Sha256 (o_Tx ot))).
(** [now] is the second of the minute. *)
Fixpoint sweep_orphans {E} (now : Z) (l : list OrphanTx) (p : OrphanPool) (minExpTime : Z) (removeNum : Z) : res E (OrphanPool * Z * Z) :=
  match l with
  | [] => Ok (p, minExpTime, removeNum)
  | ot :: l =>
      if negb (still_orphan p ot) then sweep_orphans now l p minExpTime removeNum
      else if Expiration ot <=? now then p ← erase (txid Sha256 (o_Tx ot)) true p; sweep_orphans now l p minExpTime (removeNum + 1)
      else sweep_orphans now l p (if Expiration ot <? minExpTime then Expiration ot else minExpTime) removeNum
  end.
Definition limitOrphanTx {E} (now : Z) (p : OrphanPool) : res E (OrphanPool * Z) :=
  '(p, removeNum) ← (if nextSweep p <=? now then
      '(p, minExpTime, removeNum) ← sweep_orphans now (range_orphans (OrphanTransactions p)) p (now + OrphanTxExpireTime - OrphanTxExpireInterval) 0;
      Ok (mkOrphans (OrphanTransactionsByPrev p) (OrphanTransactions p) (minExpTime + OrphanTxExpireInterval), removeNum)
    else Ok (p, 0));
  if Z.of_nat (size (OrphanTransactions p)) <=? DefaultMaxOrphanTransaction then Ok (p, removeNum)
  else match range_orphans (OrphanTransactions p) with
       | [] => Ok (p, removeNum)
       | ot :: _ => p ← erase (txid Sha256 (o_Tx ot)) true p; Ok (p, removeNum + 1)
       end.
Definition AddOrphanTx {E} (now : Z) (orphantx : Tx) (nodeID : Z) (p : OrphanPool) : res E OrphanPool :=
  let h := txid Sha256 orphantx in
  if bool_decide (is_Some (OrphanTransactions p !! h)) then Ok p
  else
    sz ← Tx_EncodeSize orphantx;
    if MaxTxSize <=? sz then Ok p
    else
      let o := mkOrphan orphantx nodeID (now + OrphanTxExpireTime) in
      '(p, _) ← limitOrphanTx now (mkOrphans (foldl (link_prev h o) (OrphanTransactionsByPrev p) (GetAllPreviousOut orphantx)) (<[h := o]> (OrphanTransactions p)) (nextSweep p));
      Ok p.
Fixpoint remove_by_tag {E} (nodeID : Z) (l : list OrphanTx) (p : OrphanPool) (numEvicted : Z) : res E (OrphanPool * Z) :=
  match l with
  | [] => Ok (p, numEvicted)
  | ot :: l =>
      if still_orphan p ot && (NodeID ot =? nodeID) then p ← erase (txid Sha256 (o_Tx ot)) true p; remove_by_tag nodeID l p (numEvicted + 1)
      else remove_by_tag nodeID l p numEvicted
  end.
Definition RemoveOrphansByTag {E} (nodeID : Z) (p : OrphanPool) : res E (OrphanPool * Z) := remove_by_tag nodeID (range_orphans (OrphanTransactions p)) p 0.
End Orphans.
