(* ===== verification/MempoolFacts.v ===== *)
(** * Work lists and the graph of the memory pool *)
From S2P Require Import Prelude Errors Wire ScriptNum Opcodes Script ScriptFacts Tx TxFacts Crypto Compress Coins Block Undo Mempool.

(** ** Loops *)
(** A loop ends within [2 ^ k] steps when a measure below that decreases, and then its
    result has what every last step gives. *)
Lemma loop_steps {S R : Type} (step : S -> S + R) (Inv : S -> Prop) (m : S -> nat) (Post : R -> Prop) :
  (forall s, Inv s -> match step s with inl s' => Inv s' /\ (m s' < m s)%nat | inr r => Post r end) ->
  forall k s, Inv s -> match loop k step s with inl s' => Inv s' /\ (m s' + 2 ^ k <= m s)%nat | inr r => Post r end.
Proof.
  intros Hstep k. induction k as [|k IH]; intros s Hs; cbn [loop].
  - specialize (Hstep s Hs). destruct (step s); [|done]. cbn. split; [apply Hstep|lia].
  - pose proof (IH s Hs) as H1. destruct (loop k step s) as [s1|]; [|done]. destruct H1 as [Hs1 Hm1]. pose proof (IH s1 Hs1) as H2.
    destruct (loop k step s1) as [s2|]; [|done]. destruct H2 as [Hs2 Hm2]. split; [done|]. cbn. lia.
Qed.
Lemma run_loop_ok {S A E : Type} (step : S -> S + res E A) (Inv : S -> Prop) (m : S -> nat) (Post : res E A -> Prop) k s :
  (forall s, Inv s -> match step s with inl s' => Inv s' /\ (m s' < m s)%nat | inr r => Post r end) ->
  Inv s -> (m s < 2 ^ k)%nat -> Post (run_loop k step s).
Proof.
  intros Hstep Hs Hm. pose proof (loop_steps step Inv m Post Hstep k s Hs) as Hl. unfold run_loop. destruct (loop k step s); [|done]. destruct Hl. lia.
Qed.

(** ** Work lists *)
Section Worklist.
Context (range : gset nat -> list nat) (Hrange : forall X, range X ≡ₚ elements X).
Context (succ : TxEntry -> gset nat) (h : eheap).

Definition edge (x y : nat) : Prop := exists e, h !! x = Some e /\ y ∈ succ e.
(** The edges stay in the heap, and no path is longer than the heap is large. *)
Record graph_ok (rank : nat -> nat) : Prop := {
  gr_closed x y : edge x y -> is_Some (h !! y);
  gr_rank x y : edge x y -> (rank y < rank x)%nat;
  gr_bound x : is_Some (h !! x) -> (rank x <= size h)%nat }.
Context (rank : nat -> nat) (Hg : graph_ok rank).

Definition enqueue (x : nat) (e : TxEntry) (q : list nat) (v : gset nat) : list nat * gset nat :=
  (q ++ filter (fun y => y ∉ ({[x]} ∪ v)) (range (succ e)), {[x]} ∪ v).

Definition weight (x : nat) : nat := S (size h) ^ rank x.
Definition wl_measure (q : list nat) : nat := sum_list (map weight q).

Lemma elem_range x X : x ∈ range X <-> x ∈ X.
Proof. rw Hrange. apply elem_of_elements. Qed.
Lemma wl_measure_app q q' : wl_measure (q ++ q') = (wl_measure q + wl_measure q')%nat.
Proof. unfold wl_measure. by rw map_app sum_list_with_app. Qed.
Lemma wl_measure_le n q : (forall y, y ∈ q -> (weight y <= n)%nat) -> (wl_measure q <= length q * n)%nat.
Proof.
  induction q as [|y q IH]; intros Hy; [done|]. cbn. pose proof (Hy y ltac:(set_solver)). assert (wl_measure q <= length q * n)%nat by (apply IH; intros; apply Hy; set_solver).
  unfold wl_measure in *. lia.
Qed.
Lemma size_succ x e : h !! x = Some e -> (length (range (succ e)) <= size h)%nat.
Proof.
  intros Hx. rw Hrange. change (size (succ e) <= size h)%nat. rw -(size_dom (D := gset nat) h). apply subseteq_size. intros y Hy. apply elem_of_dom. apply (gr_closed rank Hg x). by exists e.
Qed.
Lemma wl_measure_step x e q v : h !! x = Some e -> (wl_measure (enqueue x e q v).1 < wl_measure (x :: q))%nat.
Proof.
  intros Hx. cbn [enqueue fst]. rw wl_measure_app. change (wl_measure (x :: q)) with (weight x + wl_measure q)%nat. set (new := filter _ _).
  assert (forall y, y ∈ new -> edge x y) as Hnew by (intros y Hy; apply list_elem_of_filter in Hy as [_ Hy]; apply elem_range in Hy; by exists e).
  assert (length new <= size h)%nat as Hl by (etrans; [apply length_filter|by apply (size_succ x)]). clearbody new.
  destruct (decide (new = [])) as [->|Hne]; [cbn; unfold weight; pose proof (Nat.pow_nonzero (S (size h)) (rank x) ltac:(lia)); lia|].
  assert (exists y0, y0 ∈ new) as [y0 Hy0] by (destruct new as [|y0 l]; [done|exists y0; set_solver]).
  pose proof (gr_rank rank Hg x y0 (Hnew y0 Hy0)) as Hr. assert (rank x = S (rank x - 1)) as Hrx by lia.
  assert (wl_measure new <= length new * S (size h) ^ (rank x - 1))%nat as Hm.
  { apply wl_measure_le. intros y Hy. unfold weight. apply Nat.pow_le_mono_r; [lia|]. pose proof (gr_rank rank Hg x y (Hnew y Hy)). lia. }
  unfold weight. rw Hrx. cbn [Nat.pow]. pose proof (Nat.pow_nonzero (S (size h)) (rank x - 1) ltac:(lia)). nia.
Qed.
Lemma pow_bound n : (n < 2 ^ n)%nat.
Proof. induction n; cbn; lia. Qed.
Lemma wl_measure_start q : (length q <= size h)%nat -> (forall y, y ∈ q -> is_Some (h !! y)) -> (wl_measure q < 2 ^ (S (size h) * S (size h)))%nat.
Proof.
  intros Hl Hq. set (n := size h) in *. assert (wl_measure q <= length q * S n ^ n)%nat as Hm.
  { apply wl_measure_le. intros y Hy. unfold weight. apply Nat.pow_le_mono_r; [lia|]. apply (gr_bound rank Hg y), Hq, Hy. }
  assert (length q * S n ^ n < S n ^ S n)%nat as H1 by (cbn [Nat.pow]; pose proof (Nat.pow_nonzero (S n) n ltac:(lia)); nia).
  assert (S n ^ S n <= (2 ^ S n) ^ S n)%nat as H2 by (apply Nat.pow_le_mono_l; pose proof (pow_bound (S n)); lia). rw -Nat.pow_mul_r in H2. lia.
Qed.

(** [v0] is visited before the start, and has no edges that leave it. *)
Context (v0 : gset nat) (roots : list nat) (Hv0 : forall x y, x ∈ v0 -> edge x y -> y ∈ v0).
Definition reached (x : nat) : Prop := exists r, r ∈ roots /\ rtc edge r x.
Record wl_inv (q : list nat) (v : gset nat) : Prop := {
  wl_old : v0 ⊆ v;
  wl_heap x : x ∈ q -> is_Some (h !! x);
  wl_sound x : x ∈ q \/ x ∈ v -> x ∈ v0 \/ reached x;
  wl_roots r : r ∈ roots -> r ∈ q \/ r ∈ v;
  wl_closed x y : x ∈ v -> x ∉ v0 -> edge x y -> y ∈ q \/ y ∈ v }.
Lemma wl_inv_start : (forall r, r ∈ roots -> is_Some (h !! r)) -> wl_inv roots v0.
Proof. intros Hr. split; [done|done| |by left|done]. intros x [Hx|Hx]; [right; by exists x|by left]. Qed.
Lemma wl_inv_step x q v e : h !! x = Some e -> wl_inv (x :: q) v -> let '(q', v') := enqueue x e q v in wl_inv q' v'.
Proof.
  intros Hx [Hold Hheap Hsound Hroots Hclosed]. cbn. set (new := filter _ _).
  assert (forall y, y ∈ new -> edge x y) as Hnew by (intros y Hy; apply list_elem_of_filter in Hy as [_ Hy]; apply elem_range in Hy; by exists e).
  split.
  - set_solver.
  - intros y Hy. apply elem_of_app in Hy as [Hy|Hy]; [apply Hheap; set_solver|]. by apply (gr_closed rank Hg x), Hnew.
  - intros y Hy. assert (y ∈ new \/ y ∈ x :: q \/ y ∈ v) as [Hn|Ho] by set_solver; [|by apply Hsound].
    apply Hnew in Hn. destruct (Hsound x) as [Hx0|(r & Hr & Hrx)]; [set_solver|left; by apply (Hv0 x)|right]. exists r. split; [done|by eapply rtc_r].
  - intros r Hr. destruct (Hroots r Hr); set_solver.
  - intros y z Hy Hny Hyz. destruct (decide (z ∈ {[x]} ∪ v)) as [|Hz]; [by right|]. destruct (decide (y = x)) as [->|Hne].
    + left. apply elem_of_app. right. apply list_elem_of_filter. split; [done|]. apply elem_range. destruct Hyz as (e' & He' & Hz'). rw Hx in He'. by injection He' as <-.
    + left. destruct (Hclosed y z ltac:(set_solver) Hny Hyz); set_solver.
Qed.
Lemma wl_inv_end v : wl_inv [] v -> forall x, x ∈ v <-> x ∈ v0 \/ reached x.
Proof.
  intros [Hold _ Hsound Hroots Hclosed] x. split; [intros Hx; apply Hsound; by right|]. intros [Hx|(r & Hr & Hrx)]; [by apply Hold|].
  assert (r ∈ v) as Hrv by (destruct (Hroots r Hr) as [Hn|]; [by apply elem_of_nil in Hn|done]). clear Hr. induction Hrx as [r|r y x Hry Hyx IH]; [done|]. apply IH.
  destruct (decide (r ∈ v0)) as [H0|H0]; [apply Hold; by apply (Hv0 r)|]. destruct (Hclosed r y Hrv H0 Hry) as [Hn|]; [by apply elem_of_nil in Hn|done].
Qed.
End Worklist.

(** Sums over sets of entries. *)
Definition total (f : TxEntry -> Z) (h : eheap) (A : gset nat) : Z := foldr (fun x n => from_option f 0 (h !! x) + n) 0 (elements A).
Lemma foldr_perm (f : nat -> Z) l k : l ≡ₚ k -> foldr (fun x n => f x + n) 0 l = foldr (fun x n => f x + n) 0 k.
Proof. induction 1; cbn; lia. Qed.
Lemma total_empty f h : total f h ∅ = 0.
Proof. unfold total. by rw elements_empty. Qed.
Lemma total_union f h x A : x ∉ A -> total f h ({[x]} ∪ A) = from_option f 0 (h !! x) + total f h A.
Proof. intros Hx. unfold total. by rw (foldr_perm (fun x => from_option f 0 (h !! x)) _ _ (elements_union_singleton A x Hx)). Qed.
Lemma EncodeSize_range {E} t sz : Tx_EncodeSize (E := E) t = Ok sz -> is_u 32 sz.
Proof.
  unfold Tx_EncodeSize. intros (a & Ha & Hs)%res_bind_inv.
  assert (forall A (f : A -> res E Z) l n v, is_u 32 n -> sum_sizes f n l = Ok v -> is_u 32 v) as Hsum.
  { intros A f l. induction l as [|x l IH]; intros n v Hn; cbn [sum_sizes]; [by intros [= <-]|]. intros (s & _ & Hv)%res_bind_inv. eapply IH; [|exact Hv]. apply u32_range. }
  eapply Hsum; [|exact Hs]. eapply Hsum; [|exact Ha]. apply u32_range.
Qed.

(** ** Descendants and ancestors *)
Section Closures.
Context (range : gset nat -> list nat) (Hrange : forall X, range X ≡ₚ elements X).
Context (m : TxMempool).
Abbreviation child := (edge ChildTx (entries m)).
Abbreviation parent := (edge ParentTx (entries m)).

Lemma closed_rtc (R : nat -> nat -> Prop) (d : gset nat) q x : (forall x y, x ∈ d -> R x y -> y ∈ d) -> rtc R q x -> q ∈ d -> x ∈ d.
Proof. intros Hd. induction 1; eauto. Qed.
Lemma CalculateDescendants_ok {E} rank q d : graph_ok ChildTx (entries m) rank -> is_Some (entries m !! q) -> (forall x y, x ∈ d -> child x y -> y ∈ d) ->
  exists d', CalculateDescendants (E := E) range m q d = Ok d' /\ forall x, x ∈ d' <-> x ∈ d \/ rtc child q x.
Proof.
  intros Hg Hq Hd. unfold CalculateDescendants. case_decide as Hin.
  { exists d. split; [|intros x; split; [by left|]; intros [Hx|Hx]; [done|]; by apply (closed_rtc child d q)].
    unfold run_loop. assert (forall k, loop (R := res E (gset nat)) k (descendants_step range (entries m)) ([], d) = inr (Ok d)) as -> by (intros k; induction k as [|k IH]; [done|]; cbn [loop]; by rw IH).
    done. }
  set (h := entries m) in *. apply (run_loop_ok (descendants_step (E := E) range h) (fun s => wl_inv ChildTx h d [q] s.1 s.2) (fun s => wl_measure h rank s.1)
    (fun r => exists d', r = Ok d' /\ forall x, x ∈ d' <-> x ∈ d \/ rtc child q x)).
  - intros [stage v] Hinv. cbn [fst snd] in Hinv. destruct stage as [|x stage]; cbn [descendants_step].
    + exists v. split; [done|]. intros x. rw (wl_inv_end ChildTx h d [q] Hd v Hinv x). unfold reached. set_solver.
    + destruct (wl_heap _ _ _ _ _ _ Hinv x) as [e He]; [set_solver|]. fold h. rw He.
      pose proof (wl_inv_step range Hrange ChildTx h rank Hg d [q] Hd x stage v e He Hinv) as Hs. cbn in Hs. split; [done|].
      exact (wl_measure_step range Hrange ChildTx h rank Hg x e stage v He).
  - apply wl_inv_start. set_solver.
  - apply (wl_measure_start range Hrange ChildTx h rank Hg); [|set_solver]. cbn. destruct Hq as [e He]. assert (size h <> 0%nat); [|lia]. intros Hz. apply map_size_empty_inv in Hz. by rw Hz lookup_empty in He.
Qed.
Lemma calculate_all_ok {E} rank l : graph_ok ChildTx (entries m) rank -> (forall q, q ∈ l -> is_Some (entries m !! q)) -> forall d, (forall x y, x ∈ d -> child x y -> y ∈ d) ->
  exists d', calculate_all (E := E) range m l d = Ok d' /\ forall x, x ∈ d' <-> x ∈ d \/ exists r, r ∈ l /\ rtc child r x.
Proof.
  intros Hg. induction l as [|q l IH]; intros Hl d Hd; cbn [calculate_all]; [exists d; set_solver|].
  destruct (CalculateDescendants_ok (E := E) rank q d Hg (Hl q ltac:(set_solver)) Hd) as (d1 & -> & H1). cbn [mbind res_bind].
  destruct (IH ltac:(set_solver) d1) as (d2 & -> & H2).
  { intros x y. rw !H1. intros [Hx|Hx] Hxy; [left; by apply (Hd x)|right; by eapply rtc_r]. }
  exists d2. split; [done|]. intros x. rw H2 H1. set_solver.
Qed.

(** The parents of a transaction in the pool. *)
Definition parents_of (t : Tx) (q : nat) : Prop := exists k, k ∈ PrevoutHashs t /\ poolData m !! k = Some q.
(** The number of [s], [n] more and the transaction itself is within the limit. *)
Definition counted (lim : Limits) (s : gset nat) (n : nat) : Prop :=
  (s = ∅ /\ n = 0%nat) \/ Z.of_nat n + Z.of_nat (size s) + 1 <= limitAncestorCount lim.
Lemma find_parents_ok lim l : forall acc, match find_parents m lim l acc with
  | Ok ps => (forall q, q ∈ ps <-> q ∈ acc \/ exists i, i ∈ l /\ poolData m !! Hash (PreviousOutPoint i) = Some q) /\
      (limitAncestorCount lim < 2 ^ 64 - 1 -> counted lim acc 0 -> counted lim ps 0)
  | Err e => lim <> noLimit
  | Panic => False
  end.
Proof.
  induction l as [|i l IH]; intros acc; cbn [find_parents]; [split; [set_solver|done]|]. destruct (poolData m !! Hash (PreviousOutPoint i)) as [q|] eqn:Eq.
  - destruct (Z.ltb_spec (limitAncestorCount lim) (u64 (Z.of_nat (size ({[q]} ∪ acc)) + 1))) as [Hlt|Hle].
    { intros ->. cbn in Hlt. int_lia. }
    specialize (IH ({[q]} ∪ acc)). destruct (find_parents m lim l ({[q]} ∪ acc)) as [ps| |]; [|done|done]. destruct IH as [IH Hc]. split.
    + intros x. rw IH. split; [intros [Hx|(j & Hj & Hjx)]; [|right; exists j; set_solver]|].
      * apply elem_of_union in Hx as [Hx|Hx]; [|by left]. apply elem_of_singleton in Hx as ->. right. exists i. set_solver.
      * intros [Hx|(j & Hj & Hjx)]; [set_solver|]. apply elem_of_cons in Hj as [->|Hj]; [rw Eq in Hjx; injection Hjx as <-; set_solver|right; by exists j].
    + intros Hlim Hacc. apply Hc; [done|]. right. assert (size ({[q]} ∪ acc) <= 1 + size acc)%nat as Hsz by (rw size_union_alt size_singleton; pose proof (subseteq_size (acc ∖ {[q]}) acc ltac:(set_solver)); lia).
      destruct Hacc as [[-> _]|Hacc]; [rw size_empty in Hsz|]; int_lia.
  - specialize (IH acc). destruct (find_parents m lim l acc) as [ps| |]; [|done|done]. destruct IH as [IH Hc]. split; [|done]. intros x. rw IH.
    split; (intros [Hx|(j & Hj & Hjx)]; [by left|right; exists j]); [set_solver|]. apply elem_of_cons in Hj as [->|Hj]; [congruence|done].
Qed.
Lemma add_grandparents_ok lim a l : forall temp, match add_grandparents lim a l temp with
  | Ok temp' => temp' = temp ++ filter (fun y => y ∉ a) l /\ (limitAncestorCount lim < 2 ^ 64 - 1 -> counted lim a (length temp) -> a <> ∅ -> counted lim a (length temp'))
  | Err e => lim <> noLimit
  | Panic => False
  end.
Proof.
  induction l as [|g l IH]; intros temp; cbn [add_grandparents]; [by rw filter_nil app_nil_r|]. set (temp1 := if decide (g ∈ a) then temp else temp ++ [g]).
  assert (length temp1 <= S (length temp))%nat as Hl by (unfold temp1; case_decide; [lia|rw length_app; cbn; lia]).
  destruct (Z.ltb_spec (limitAncestorCount lim) (u64 (Z.of_nat (length temp1) + Z.of_nat (size a) + 1))) as [Hlt|Hle]; [intros ->; cbn in Hlt; int_lia|].
  specialize (IH temp1). destruct (add_grandparents lim a l temp1) as [temp'| |]; [|done|done]. destruct IH as [-> Hc]. split.
  - unfold temp1. case_decide as Hg; [rw filter_cons_False //; naive_solver|]. by rw filter_cons_True // -app_assoc.
  - intros Hlim Hcnt Hne. apply Hc; [done| |done]. right. destruct Hcnt as [[? _]|Hcnt]; [done|]. int_lia.
Qed.

(** An entry whose descendants leave room for one more. *)
Definition descendants_room (lim : Limits) (e : TxEntry) : Prop :=
  u64 (i64 (SumTxSizeWithDescendants (stat e) + TxSize e)) <= limitDescendantSize lim /\ u64 (i64 (SumTxCountWithDescendants (stat e) + 1)) <= limitDescendantCount lim.
(** The ancestors [A] of a transaction of size [sz] are within the limits (a limit on the
    count of at most 2^64 - 2, a limit on the size below 2^63, and entries with sizes). *)
Record within_limits (lim : Limits) (sz : Z) (A : gset nat) : Prop := {
  lw_count : limitAncestorCount lim < 2 ^ 64 - 1 -> A <> ∅ -> Z.of_nat (size A) + 1 <= limitAncestorCount lim;
  lw_size : limitAncestorSize lim < 2 ^ 63 -> (forall x e, entries m !! x = Some e -> is_u 32 (TxSize e)) -> A <> ∅ -> sz + total TxSize (entries m) A <= limitAncestorSize lim;
  lw_room x e : x ∈ A -> entries m !! x = Some e -> descendants_room lim e }.
(** The running total is the size of the transaction and of what has been visited, at least. *)
Definition sized (lim : Limits) (sz : Z) (A : gset nat) (t : Z) : Prop :=
  limitAncestorSize lim < 2 ^ 63 -> (forall x e, entries m !! x = Some e -> is_u 32 (TxSize e)) -> sz + total TxSize (entries m) A <= t < 2 ^ 63 /\ 0 <= t /\ (A <> ∅ -> t <= limitAncestorSize lim).
Lemma sized_step lim sz A t x e : entries m !! x = Some e -> sized lim sz A t -> u64 (i64 (t + TxSize e)) <= limitAncestorSize lim -> sized lim sz ({[x]} ∪ A) (i64 (t + TxSize e)).
Proof.
  intros He Hs Hle Hlim Hu. destruct (Hs Hlim Hu) as ([H1 H2] & H3 & _). pose proof (Hu x e He) as Hx. assert (i64 (t + TxSize e) = t + TxSize e) as Ht.
  { destruct (decide (t + TxSize e < 2 ^ 63)); [apply i64_id; int_lia|]. exfalso. assert (u64 (i64 (t + TxSize e)) = t + TxSize e) as Hz by int_lia. lia. }
  rw Ht in Hle. rw Ht. assert (t + TxSize e < 2 ^ 63) as Hb by (pose proof (i64_range (t + TxSize e)); int_lia). rw u64_id in Hle; [|int_lia].
  assert (total TxSize (entries m) ({[x]} ∪ A) <= TxSize e + total TxSize (entries m) A) as Htot.
  { destruct (decide (x ∈ A)) as [Hin|Hin]; [replace ({[x]} ∪ A) with A by set_solver; unfold is_u in Hx; lia|]. rw total_union // He. cbn. lia. }
  unfold is_u in Hx. split_and!; [lia|lia|lia|done].
Qed.
Lemma CalculateMemPoolAncestors_ok Sha256 rank t lim sz : graph_ok ParentTx (entries m) rank -> (forall k q, poolData m !! k = Some q -> is_Some (entries m !! q)) ->
  Tx_EncodeSize (E := MemPoolErr) t = Ok sz ->
  match CalculateMemPoolAncestors Sha256 range m t lim true with
  | Ok a => (forall x, x ∈ a <-> exists p, parents_of t p /\ rtc parent p x) /\ within_limits lim sz a
  | Err e => lim <> noLimit
  | Panic => False
  end.
Proof.
  intros Hg Hpool Hsz. unfold CalculateMemPoolAncestors. cbn [mbind res_bind]. pose proof (find_parents_ok lim (ins t) ∅) as Hps.
  destruct (find_parents m lim (ins t) ∅) as [ps| |]; [|done|done]. destruct Hps as [Hps Hcount]. cbn [mbind res_bind]. rw Hsz. cbn [mbind res_bind].
  assert (forall q, q ∈ range ps <-> parents_of t q) as Hpar.
  { intros q. rw (elem_range range Hrange) Hps. unfold parents_of, PrevoutHashs. split.
    - intros [Hq|(i & Hi & Hq)]; [by apply elem_of_empty in Hq|]. exists (Hash (PreviousOutPoint i)). split; [|done]. apply list_elem_of_fmap. by exists i.
    - intros (k & Hk & Hq). apply list_elem_of_fmap in Hk as (i & -> & Hi). right. by exists i. }
  set (h := entries m) in *. apply (run_loop_ok (ancestors_step range h lim)
    (fun s => wl_inv ParentTx h ∅ (range ps) s.1.1 s.1.2 /\ (limitAncestorCount lim < 2 ^ 64 - 1 -> counted lim s.1.2 (length s.1.1)) /\
       (forall x e, x ∈ s.1.2 -> h !! x = Some e -> descendants_room lim e) /\ sized lim sz s.1.2 s.2) (fun s => wl_measure h rank s.1.1)).
  - intros [[temp a] total] (Hinv & Hcnt & Hroom & Hsized). cbn [fst snd] in *. destruct temp as [|x temp]; cbn [ancestors_step].
    { split; [|split; [intros Hlim Hne; destruct (Hcnt Hlim) as [[-> _]|]; [done|cbn in *; lia]|intros Hlim Hu Hne; destruct (Hsized Hlim Hu) as ([? _] & _ & Hl); specialize (Hl Hne); unfold h in *; lia|done]].
      intros x. rw (wl_inv_end ParentTx h ∅ (range ps) ltac:(set_solver) a Hinv x). unfold reached. split; [intros [Hx|(r & Hr & Hrx)]; [by apply elem_of_empty in Hx|]|].
      - exists r. split; [by apply Hpar|done].
      - intros (r & Hr & Hrx). right. exists r. split; [by apply Hpar|done]. }
    destruct (wl_heap _ _ _ _ _ _ Hinv x) as [e He]; [set_solver|]. fold h. rw He.
    destruct (Z.ltb_spec (limitDescendantSize lim) (u64 (i64 (SumTxSizeWithDescendants (stat e) + TxSize e)))) as [Hlt|H1]; [intros ->; cbn in Hlt; int_lia|].
    destruct (Z.ltb_spec (limitDescendantCount lim) (u64 (i64 (SumTxCountWithDescendants (stat e) + 1)))) as [Hlt|H2]; [intros ->; cbn in Hlt; int_lia|].
    destruct (Z.ltb_spec (limitAncestorSize lim) (u64 (i64 (total + TxSize e)))) as [Hlt|H3]; [intros ->; cbn in Hlt; int_lia|].
    pose proof (add_grandparents_ok lim ({[x]} ∪ a) (range (ParentTx e)) temp) as Hgp. destruct (add_grandparents lim ({[x]} ∪ a) (range (ParentTx e)) temp) as [temp'| |]; [|done|done].
    destruct Hgp as [-> Hgp]. cbn [fst snd]. split; [|exact (wl_measure_step range Hrange ParentTx h rank Hg x e temp a He)]. split_and!.
    + exact (wl_inv_step range Hrange ParentTx h rank Hg ∅ (range ps) ltac:(set_solver) x temp a e He Hinv).
    + intros Hlim. apply Hgp; [done| |set_solver]. right. assert (size ({[x]} ∪ a) <= 1 + size a)%nat by (rw size_union_alt size_singleton; pose proof (subseteq_size (a ∖ {[x]}) a ltac:(set_solver)); lia).
      destruct (Hcnt Hlim) as [[_ ?]|Hc]; [done|]. cbn [length] in Hc. lia.
    + intros y ye Hy Hye. apply elem_of_union in Hy as [Hy|Hy]; [|by apply (Hroom y)]. apply elem_of_singleton in Hy as ->. rw He in Hye. by injection Hye as <-.
    + by apply sized_step.
  - cbn [fst snd]. split; [apply wl_inv_start; intros r Hr; apply Hpar in Hr as (k & _ & Hk); by apply (Hpool k)|]. split; [|split; [set_solver|]].
    + intros Hlim. assert (length (range ps) = size ps) as Hlen by (by rw Hrange). destruct (Hcount Hlim) as [[-> _]|Hc]; [by left| |].
      * left. split; [done|]. rw Hlen. apply size_empty.
      * right. rw Hlen size_empty. lia.
    + intros _ _. rw total_empty. pose proof (EncodeSize_range _ _ Hsz) as Hr. split_and!; [lia|int_lia|int_lia|done].
  - cbn [fst snd]. apply (wl_measure_start range Hrange ParentTx h rank Hg); [|intros y Hy; apply Hpar in Hy as (k & _ & Hk); by apply (Hpool k)].
    rw Hrange. change (size ps <= size h)%nat. rw -(size_dom (D := gset nat) h). apply subseteq_size. intros y Hy. apply elem_of_dom. apply (elem_range range Hrange), Hpar in Hy as (k & _ & Hk). by apply (Hpool k).
Qed.
End Closures.
