(* ===== verification/PoolFacts.v ===== *)
(** * The invariant of the memory pool *)
From S2P Require Import Prelude Errors Wire ScriptNum Opcodes Script ScriptFacts Tx TxFacts Crypto Compress Coins Block Undo Mempool MempoolFacts.

(** ** Updating entries *)
Lemma eload_Some {E} (h : eheap) q e : h !! q = Some e -> eload (E := E) h q = Ok e.
Proof. unfold eload. by intros ->. Qed.
Lemma modify_all_ok {E} f l : forall h, NoDup l -> (forall x, x ∈ l -> is_Some (h !! x)) ->
  exists h', modify_all (E := E) f l h = Ok h' /\ forall x, (x ∈ l -> h' !! x = f <$> h !! x) /\ (x ∉ l -> h' !! x = h !! x).
Proof.
  induction l as [|q l IH]; intros h Hd Hl; cbn [modify_all].
  { exists h. split; [done|]. intros x. split; [by intros Hx%elem_of_nil|done]. }
  apply NoDup_cons in Hd as [Hq Hd]. destruct (Hl q ltac:(set_solver)) as [e He]. unfold modify. rw (eload_Some _ _ _ He). cbn [mbind res_bind].
  destruct (IH (<[q := f e]> h) Hd) as (h' & -> & Hh').
  { intros x Hx. rw lookup_insert_ne; [apply Hl; set_solver|set_solver]. }
  exists h'. split; [done|]. intros x. destruct (Hh' x) as [H1 H2]. destruct (decide (q = x)) as [<-|Hne].
  - split; [|set_solver]. intros _. by rw H2 // lookup_insert_eq He.
  - rw lookup_insert_ne // in H1 H2. split; [intros Hx; apply H1; set_solver|intros Hx; apply H2; set_solver].
Qed.

Lemma total_ext f h h' A : (forall x, x ∈ A -> f <$> h !! x = f <$> h' !! x) -> total f h A = total f h' A.
Proof.
  intros Hx. unfold total. assert (forall l, (forall x, x ∈ l -> x ∈ A) -> foldr (fun x n => from_option f 0 (h !! x) + n) 0 l = foldr (fun x n => from_option f 0 (h' !! x) + n) 0 l) as Hl.
  { induction l as [|x l IH]; intros Hin; [done|]. cbn. rw IH; [|set_solver]. f_equal. specialize (Hx x ltac:(set_solver)). destruct (h !! x), (h' !! x); try done. by injection Hx. }
  apply Hl. intros x. by rw elem_of_elements.
Qed.
Lemma total_disj_union f h A B : A ## B -> total f h (A ∪ B) = total f h A + total f h B.
Proof.
  intros Hd. unfold total. rw (foldr_perm (fun x => from_option f 0 (h !! x)) _ _ (elements_disj_union A B Hd)). generalize (elements A). intros l. induction l as [|x l IH]; cbn; [done|]. rw IH. lia.
Qed.
Lemma total_difference f h A B : B ⊆ A -> total f h (A ∖ B) = total f h A - total f h B.
Proof. intros Hs. pose proof (total_disj_union f h B (A ∖ B) ltac:(set_solver)) as Ht. rw -union_difference_L // in Ht. lia. Qed.
Lemma total_equiv f h A B : (forall x, x ∈ A <-> x ∈ B) -> total f h A = total f h B.
Proof. intros HAB. f_equal. by apply set_eq. Qed.
Lemma sum_entries_ok {E} l h : (forall x, x ∈ l -> is_Some (h !! x)) -> forall a b c,
  sum_entries (E := E) l h (i64 a) (i64 b) (i64 c) = Ok (i64 (a + foldr (fun x n => from_option TxSize 0 (h !! x) + n) 0 l),
    i64 (b + foldr (fun x n => from_option TxFee 0 (h !! x) + n) 0 l), i64 (c + foldr (fun x n => from_option SigOpCount 0 (h !! x) + n) 0 l)).
Proof.
  induction l as [|x l IH]; intros Hl a b c; cbn [sum_entries foldr]; [by rw !Z.add_0_r|]. destruct (Hl x ltac:(set_solver)) as [e He]. rw (eload_Some _ _ _ He) He. cbn [mbind res_bind from_option].
  assert (forall u v, i64 (i64 u + v) = i64 (u + v)) as Hi by (intros; int_lia). rw !Hi IH; [|set_solver]. by rw !Z.add_assoc.
Qed.

Section Pool.
Context (Sha256 : bytes -> bytes) (range : gset nat -> list nat) (Hrange : forall X, range X ≡ₚ elements X).
Abbreviation entry_hash := (entry_hash Sha256).
Abbreviation child h := (edge ChildTx h).
Abbreviation parent h := (edge ParentTx h).

Definition member (m : TxMempool) (q : nat) (e : TxEntry) : Prop := entries m !! q = Some e /\ poolData m !! entry_hash e = Some q.

(** Parents come before children. *)
Record ordered (h : eheap) (ord : nat -> nat) : Prop := {
  od_child x y : child h x y -> is_Some (h !! y) /\ (ord x < ord y)%nat;
  od_parent x y : parent h x y -> is_Some (h !! y) /\ (ord y < ord x)%nat;
  od_bound x : is_Some (h !! x) -> (ord x < size h)%nat }.
Record pool_graph (m : TxMempool) : Prop := {
  pg_data k q : poolData m !! k = Some q -> exists e, entries m !! q = Some e /\ entry_hash e = k;
  pg_next o q : nextTx m !! o = Some q <-> exists e, member m q e /\ o ∈ GetAllPreviousOut (e_Tx e);
  pg_parents q e p : member m q e -> p ∈ ParentTx e <-> parents_of m (e_Tx e) p;
  pg_children q e c : member m q e -> c ∈ ChildTx e <-> exists ce, member m c ce /\ q ∈ ParentTx ce;
  pg_order : exists ord, ordered (entries m) ord;
  pg_size x e : entries m !! x = Some e -> Tx_EncodeSize (E := MemPoolErr) (e_Tx e) = Ok (TxSize e) }.

(** The sums over all ancestors and over all descendants. *)
Definition anc_sums (h : eheap) (q : nat) (e : TxEntry) : Prop :=
  exists A, (forall x, x ∈ A <-> tc (parent h) q x) /\ let s := stat e in
    SumTxCountWithAncestors s = i64 (1 + Z.of_nat (size A)) /\ SumTxSizeWitAncestors s = i64 (TxSize e + total TxSize h A) /\
    SumTxSigOpCountWithAncestors s = i64 (SigOpCount e + total SigOpCount h A) /\ SumTxFeeWithAncestors s = i64 (TxFee e + total TxFee h A).
Definition desc_sums (h : eheap) (q : nat) (e : TxEntry) : Prop :=
  exists D, (forall x, x ∈ D <-> tc (child h) q x) /\ let s := stat e in
    SumTxCountWithDescendants s = i64 (1 + Z.of_nat (size D)) /\ SumTxSizeWithDescendants s = i64 (TxSize e + total TxSize h D) /\
    SumTxFeeWithDescendants s = i64 (TxFee e + total TxFee h D).
Definition pool_set (m : TxMempool) : gset nat := list_to_set (map snd (map_to_list (poolData m))).
Record pool_sums (m : TxMempool) : Prop := {
  ps_anc q e : member m q e -> anc_sums (entries m) q e;
  ps_usage : usageSize m = i64 (total e_usageSize (entries m) (pool_set m));
  ps_total : totalTxSize m = u64 (total TxSize (entries m) (pool_set m)) }.
Definition pool_desc (m : TxMempool) : Prop := forall q e, member m q e -> desc_sums (entries m) q e.

Lemma graph_children h ord : ordered h ord -> graph_ok ChildTx h (fun x => size h - ord x)%nat.
Proof.
  intros [Hc Hp Hb]. split; [intros x y Hxy; apply (Hc x y Hxy)| |intros x Hx; lia].
  intros x y Hxy. destruct (Hc x y Hxy) as [Hy Hlt]. pose proof (Hb y Hy). lia.
Qed.
Lemma graph_parents h ord : ordered h ord -> graph_ok ParentTx h ord.
Proof. intros [Hc Hp Hb]. split; [intros x y Hxy; apply (Hp x y Hxy)|intros x y Hxy; apply (Hp x y Hxy)|intros x Hx; specialize (Hb x Hx); lia]. Qed.
Lemma elem_pool_set m q : q ∈ pool_set m <-> exists k, poolData m !! k = Some q.
Proof.
  unfold pool_set. rw elem_of_list_to_set list_elem_of_fmap. split.
  - intros ([k x] & -> & Hk). apply elem_of_map_to_list in Hk. by exists k.
  - intros [k Hk]. exists (k, q). split; [done|]. by apply elem_of_map_to_list.
Qed.

(** Inside the pool the two kinds of edges are inverse. *)
Lemma member_parent m x y e : pool_graph m -> member m x e -> y ∈ ParentTx e -> exists ye, member m y ye /\ x ∈ ChildTx ye.
Proof.
  intros Hg Hx Hy. pose proof Hy as Hp. apply (pg_parents m Hg x e y Hx) in Hp as (k & _ & Hk). destruct (pg_data m Hg k y Hk) as (ye & Hye & He).
  assert (member m y ye) as Hm by (split; [done|by rw He]). exists ye. split; [done|]. apply (pg_children m Hg y ye x Hm). by exists e.
Qed.
Lemma member_unique m x e e' : member m x e -> member m x e' -> e = e'.
Proof. intros [H1 _] [H2 _]. congruence. Qed.
Lemma tc_parent_child m x y e : pool_graph m -> member m x e -> tc (parent (entries m)) x y -> (exists ye, member m y ye) /\ tc (child (entries m)) y x.
Proof.
  intros Hg Hx Ht. revert e Hx. induction Ht as [x y (e0 & He0 & Hy)|x z y (e0 & He0 & Hz) Ht IH]; intros e Hx; pose proof (proj1 Hx) as Hx1; rw He0 in Hx1; injection Hx1 as ->.
  - destruct (member_parent m x y e Hg Hx Hy) as (ye & Hm & Hc). split; [by exists ye|]. apply tc_once. exists ye. split; [apply Hm|done].
  - destruct (member_parent m x z e Hg Hx Hz) as (ze & Hm & Hc). destruct (IH ze Hm) as [Hy Htc]. split; [done|]. eapply tc_r; [exact Htc|]. exists ze. split; [apply Hm|done].
Qed.
Lemma tc_child_parent m x y e : pool_graph m -> member m x e -> tc (child (entries m)) x y -> (exists ye, member m y ye) /\ tc (parent (entries m)) y x.
Proof.
  intros Hg Hx Ht. revert e Hx. induction Ht as [x y (e0 & He0 & Hy)|x z y (e0 & He0 & Hz) Ht IH]; intros e Hx; pose proof (proj1 Hx) as Hx1; rw He0 in Hx1; injection Hx1 as ->.
  - apply (pg_children m Hg x e y Hx) in Hy as (ye & Hm & Hp). split; [by exists ye|]. apply tc_once. exists ye. split; [apply Hm|done].
  - apply (pg_children m Hg x e z Hx) in Hz as (ze & Hm & Hp). destruct (IH ze Hm) as [Hy Htc]. split; [done|]. eapply tc_r; [exact Htc|]. exists ze. split; [apply Hm|done].
Qed.

(** ** Adding *)
(** An entry as NewTxentry makes it. *)
Record new_entry (e : TxEntry) : Prop := {
  ne_parents : ParentTx e = ∅;
  ne_children : ChildTx e = ∅;
  ne_stat : stat e = mkStat 1 (TxFee e) (TxSize e) 1 (TxSize e) (SigOpCount e) (TxFee e);
  ne_range : is_i 64 (TxFee e) /\ is_i 64 (TxSize e) /\ is_i 64 (SigOpCount e);
  ne_size : Tx_EncodeSize (E := MemPoolErr) (e_Tx e) = Ok (TxSize e) }.
(** The transaction is new, spends nothing that is spent in the pool, and nothing in
    the pool spends its outputs. *)
Record addable (m : TxMempool) (q : nat) (e : TxEntry) : Prop := {
  ad_fresh : entries m !! q = None;
  ad_new : poolData m !! entry_hash e = None;
  ad_unspent o : o ∈ GetAllPreviousOut (e_Tx e) -> nextTx m !! o = None;
  ad_self : entry_hash e ∉ PrevoutHashs (e_Tx e);
  ad_leaf x xe : member m x xe -> entry_hash e ∉ PrevoutHashs (e_Tx xe) }.
Definition ancestors_of (m : TxMempool) (t : Tx) (A : gset nat) : Prop := forall x, x ∈ A <-> exists p, parents_of m t p /\ rtc (parent (entries m)) p x.

(** What becomes of the other entries. *)
Definition with_child (q : nat) (e : TxEntry) (P A : gset nat) (x : nat) (o : TxEntry) : TxEntry :=
  let o := if decide (x ∈ P) then UpdateChild q true o else o in
  if decide (x ∈ A) then UpdateDescendantState 1 (TxSize e) (TxFee e) o else o.

Lemma foldl_UpdateParent l : forall e, foldl (fun e p => UpdateParent p true e) e l = set_ParentTx (list_to_set l ∪ ParentTx e) e.
Proof.
  induction l as [|p l IH]; intros e; cbn [foldl]; [unfold set_ParentTx; destruct e; cbn; f_equal; set_solver|]. rw IH. unfold UpdateParent, set_ParentTx. cbn. f_equal. set_solver.
Qed.
Lemma NoDup_range X : NoDup (range X).
Proof. rw Hrange. apply NoDup_elements. Qed.

(** The pool [m'] after the entry [e] was added at [q]. *)
Definition new_stat (h : eheap) (e : TxEntry) (A : gset nat) : StatisInformation :=
  mkStat 1 (TxFee e) (TxSize e) (i64 (1 + Z.of_nat (size A))) (i64 (TxSize e + total TxSize h A)) (i64 (SigOpCount e + total SigOpCount h A)) (i64 (TxFee e + total TxFee h A)).
Record added (m : TxMempool) (q : nat) (e : TxEntry) (A P : gset nat) (m' : TxMempool) : Prop := {
  ad_P p : p ∈ P <-> parents_of m (e_Tx e) p;
  ad_pool : poolData m' = <[entry_hash e := q]> (poolData m);
  ad_next : nextTx m' = (updateNextTx q (e_Tx e) (nextTx m)).1;
  ad_usage : usageSize m' = i64 (usageSize m + e_usageSize e);
  ad_total : totalTxSize m' = u64 (totalTxSize m + TxSize e);
  ad_times : timeSortData m' = ReplaceOrInsert (time_less Sha256 (<[q := e]> (entries m))) q (timeSortData m);
  ad_fees : txByAncestorFeeRateSort m' = ReplaceOrInsert (fee_less Sha256 (entries m')) q (txByAncestorFeeRateSort m);
  ad_old x : x <> q -> entries m' !! x = with_child q e P A x <$> entries m !! x;
  ad_q : entries m' !! q = Some (set_ParentTx P (set_stat (new_stat (entries m) e A) e)) }.
Lemma AddTx_heap {E} m q e A : pool_graph m -> new_entry e -> addable m q e -> ancestors_of m (e_Tx e) A ->
  exists m' P, AddTx_unlimited (E := E) Sha256 range m q e A = Ok m' /\ added m q e A P m'.
Proof.
  intros Hg [Hep Hec Hst (Hfee & Hsz & Hsig) _] [Hfresh Hnew Hun Hself Hleaf] HA. unfold AddTx_unlimited. cbn [updateNextTx].
  set (pool := <[entry_hash e := q]> (poolData m)). set (ps := omap _ _). rw foldl_UpdateParent. set (P := list_to_set ps ∪ ParentTx e : gset nat).
  assert (forall p, p ∈ P <-> parents_of m (e_Tx e) p) as HP.
  { intros p. unfold P. rw Hep elem_of_union elem_of_list_to_set elem_of_empty list_elem_of_omap. unfold parents_of. split.
    - intros [(k & Hk & Hp)|]; [|done]. apply elem_of_elements, elem_of_list_to_set in Hk. exists k. split; [done|]. unfold pool in Hp. by rw lookup_insert_ne // in Hp; intros <-.
    - intros (k & Hk & Hp). left. exists k. split; [by apply elem_of_elements, elem_of_list_to_set|]. unfold pool. rw lookup_insert_ne //. by intros <-. }
  clearbody P. clear ps.
  assert (forall p, p ∈ P -> is_Some (entries m !! p)) as HPs by (intros p Hp; apply HP in Hp as (k & _ & Hk); destruct (pg_data m Hg k p Hk) as (? & ? & _); by eexists).
  assert (forall a, a ∈ A -> is_Some (entries m !! a)) as HAs.
  { intros a Ha. apply HA in Ha as (p & Hp & Hpa). apply rtc_inv_r in Hpa as [->|(y & _ & Hya)]; [by apply HPs, HP|]. destruct (pg_order m Hg) as [ord Ho]. by apply (od_parent _ _ Ho y a). }
  assert (q ∉ P /\ q ∉ A) as [HqP HqA] by (split; [intros Hq; destruct (HPs q Hq)|intros Hq; destruct (HAs q Hq)]; congruence).
  set (h1 := <[q := set_ParentTx P e]> (<[q := e]> (entries m))). assert (h1 !! q = Some (set_ParentTx P e) /\ forall x, x <> q -> h1 !! x = entries m !! x) as [Hq1 Hx1].
  { unfold h1. rw lookup_insert_eq. split; [done|]. intros x Hx. by rw !lookup_insert_ne. }
  clearbody h1. unfold UpdateChildOfParents. rw (eload_Some _ _ _ Hq1). cbn [mbind res_bind ParentTx set_ParentTx].
  destruct (modify_all_ok (E := E) (UpdateChild q true) (range P) h1) as (h2 & -> & Hh2).
  { apply NoDup_range. } { intros x Hx. apply (elem_range range Hrange) in Hx. rw Hx1; [by apply HPs|by intros ->]. }
  cbn [mbind res_bind]. unfold updateAncestors. rw !Z.mul_1_l (i64_id (TxSize e) Hsz) (i64_id (TxFee e) Hfee).
  destruct (modify_all_ok (E := E) (UpdateDescendantState 1 (TxSize e) (TxFee e)) (range A) h2) as (h3 & -> & Hh3).
  { apply NoDup_range. } { intros x Hx. apply (elem_range range Hrange) in Hx. assert (x <> q) as Hxq by (by intros ->). destruct (HAs x Hx) as [xe Hxe].
    destruct (decide (x ∈ range P)); [rw (proj1 (Hh2 x))|rw (proj2 (Hh2 x))]; by rw // Hx1 // Hxe. }
  cbn [mbind res_bind].
  assert (forall x, x <> q -> h3 !! x = with_child q e P A x <$> entries m !! x) as Hx3.
  { intros x Hx. unfold with_child. destruct (Hh3 x) as [H31 H32], (Hh2 x) as [H21 H22]. rw !(elem_range range Hrange) in H31 H32 H21 H22. rw Hx1 // in H21 H22.
    destruct (decide (x ∈ A)); [rw H31 //|rw H32 //]; (destruct (decide (x ∈ P)); [rw H21 //|rw H22 //]); by destruct (entries m !! x). }
  assert (h3 !! q = Some (set_ParentTx P e)) as Hq3.
  { destruct (Hh3 q) as [_ ->]; [|by rw (elem_range range Hrange)]. destruct (Hh2 q) as [_ ->]; [|by rw (elem_range range Hrange)]. done. }
  assert (forall f, (forall x o, f (with_child q e P A x o) = f o) -> foldr (fun x n => from_option f 0 (h3 !! x) + n) 0 (range A) = total f (entries m) A) as Htot.
  { intros f Hf. rw (foldr_perm (fun x => from_option f 0 (h3 !! x)) _ _ (Hrange A)). change (total f h3 A = total f (entries m) A). apply total_ext. intros x Hx.
    rw Hx3; [|by intros ->]. destruct (entries m !! x); cbn; [by rw Hf|done]. }
  unfold updateEntryForAncestors. change 0 with (i64 0). rw sum_entries_ok.
  2:{ intros x Hx. apply (elem_range range Hrange) in Hx. rw Hx3; [|by intros ->]. destruct (HAs x Hx) as [xe ->]. by eexists. }
  rw !Z.add_0_l !Htot; [|intros x o; unfold with_child; by do 2 case_decide..]. cbn [mbind res_bind]. unfold modify. rw (eload_Some _ _ _ Hq3). cbn [mbind res_bind].
  eexists _, P. rw (eload_Some _ q _ (lookup_insert_eq _ _ _)). cbn [mbind res_bind]. split; [reflexivity|]. split; cbn [poolData nextTx usageSize totalTxSize entries]; try done.
  - intros x Hx. rw lookup_insert_ne //. by apply Hx3.
  - rw lookup_insert_eq. unfold UpdateAncestorState, set_ParentTx, set_stat, new_stat. cbn. rw Hst. cbn.
    assert (forall a b, i64 (a + i64 b) = i64 (a + b)) as Hi by (intros; int_lia). by rw !Hi.
Qed.

Lemma foldl_next q l : forall (next : gmap OutPoint nat) o, foldl (fun n i => <[PreviousOutPoint i := q]> n) next l !! o = (if decide (o ∈ map PreviousOutPoint l) then Some q else next !! o).
Proof.
  induction l as [|i l IH]; intros next o; cbn [foldl map]; [done|]. rw IH. destruct (decide (o ∈ map PreviousOutPoint l)); [rw decide_True //; set_solver|].
  destruct (decide (PreviousOutPoint i = o)) as [<-|]; [rw lookup_insert_eq decide_True //; set_solver|rw lookup_insert_ne // decide_False //; set_solver].
Qed.

Section Added.
Context (m m' : TxMempool) (q : nat) (e : TxEntry) (A P : gset nat).
Context (Hg : pool_graph m) (Hnew : new_entry e) (Had : addable m q e) (HA : ancestors_of m (e_Tx e) A) (Hm' : added m q e A P m').
Let e' := set_ParentTx P (set_stat (new_stat (entries m) e A) e).

Lemma with_child_size x o : TxSize (with_child q e P A x o) = TxSize o.
Proof. unfold with_child. by do 2 case_decide. Qed.
Lemma with_child_same x o : e_Tx (with_child q e P A x o) = e_Tx o /\ ParentTx (with_child q e P A x o) = ParentTx o.
Proof. unfold with_child. by do 2 case_decide. Qed.
Lemma with_child_children x o : ChildTx (with_child q e P A x o) = if decide (x ∈ P) then {[q]} ∪ ChildTx o else ChildTx o.
Proof. unfold with_child. by do 2 case_decide. Qed.
Lemma added_heap x y : entries m' !! x = Some y <-> (x = q /\ y = e') \/ (x <> q /\ exists o, entries m !! x = Some o /\ y = with_child q e P A x o).
Proof.
  destruct (decide (x = q)) as [->|Hx]; [rw (ad_q _ _ _ _ _ _ Hm'); naive_solver|]. rw (ad_old _ _ _ _ _ _ Hm' x Hx) fmap_Some. naive_solver.
Qed.
Lemma added_member x y : member m' x y <-> (x = q /\ y = e') \/ (x <> q /\ exists o, member m x o /\ y = with_child q e P A x o).
Proof.
  unfold member. rw added_heap (ad_pool _ _ _ _ _ _ Hm'). split.
  - intros [[[-> ->]|(Hx & o & Ho & ->)] Hp]; [by left|right]. split; [done|]. exists o. split; [|done]. split; [done|]. unfold entry_hash in Hp |- *. rw (proj1 (with_child_same x o)) in Hp.
    destruct (decide (txid Sha256 (e_Tx e) = txid Sha256 (e_Tx o))) as [E1|]; [rw /Mempool.entry_hash E1 lookup_insert_eq in Hp; congruence|]. by rw lookup_insert_ne in Hp.
  - intros [[-> ->]|(Hx & o & [Ho Hp] & ->)]; [split; [by left|]; unfold entry_hash; cbn; apply lookup_insert_eq|]. split; [right; split; [done|by exists o]|].
    unfold Mempool.entry_hash in *. rw (proj1 (with_child_same x o)) lookup_insert_ne //. intros E1. pose proof (ad_new _ _ _ Had) as Hn. unfold Mempool.entry_hash in Hn. congruence.
Qed.
Lemma added_parents t p : entry_hash e ∉ PrevoutHashs t -> parents_of m' t p <-> parents_of m t p.
Proof.
  intros Hk. unfold parents_of. rw (ad_pool _ _ _ _ _ _ Hm'). split; intros (k & Hin & Hp); exists k; (split; [done|]); assert (entry_hash e <> k) by (by intros <-); by rw lookup_insert_ne // in Hp |- *.
Qed.
Lemma added_heap_Some x : is_Some (entries m' !! x) <-> x = q \/ is_Some (entries m !! x).
Proof.
  destruct (decide (x = q)) as [->|Hx]; [rw (ad_q _ _ _ _ _ _ Hm'); naive_solver|]. rw (ad_old _ _ _ _ _ _ Hm' x Hx) fmap_is_Some. naive_solver.
Qed.
Lemma added_size : size (entries m') = S (size (entries m)).
Proof.
  assert (dom (entries m') = {[q]} ∪ dom (entries m)) as Hd by (apply set_eq; intros x; rw elem_of_union !elem_of_dom added_heap_Some; set_solver).
  rw -!(size_dom (D := gset nat)) Hd size_union; [by rw size_singleton|]. apply disjoint_singleton_l. rw not_elem_of_dom. apply (ad_fresh _ _ _ Had).
Qed.
Lemma P_heap p : p ∈ P -> is_Some (entries m !! p).
Proof. rw (ad_P _ _ _ _ _ _ Hm'). intros (k & _ & Hk). destruct (pg_data m Hg k p Hk) as (? & ? & _). by eexists. Qed.
Lemma heap_ne x : is_Some (entries m !! x) -> x <> q.
Proof. intros [o Ho] ->. by rw (ad_fresh _ _ _ Had) in Ho. Qed.
Lemma member_ne x o : member m x o -> x <> q.
Proof. intros [Ho _]. apply heap_ne. by eexists. Qed.
Lemma member_with x o : member m x o -> member m' x (with_child q e P A x o).
Proof. intros Ho. apply added_member. right. split; [by apply (member_ne x o)|by exists o]. Qed.
Lemma added_graph : pool_graph m'.
Proof.
  pose proof (ad_new _ _ _ Had) as Hnone. split.
  - intros k x. rw (ad_pool _ _ _ _ _ _ Hm'). destruct (decide (entry_hash e = k)) as [<-|Hne].
    + rw lookup_insert_eq. intros [= <-]. exists e'. split; [apply (ad_q _ _ _ _ _ _ Hm')|done].
    + rw lookup_insert_ne //. intros Hk. destruct (pg_data m Hg k x Hk) as (o & Ho & Hh). exists (with_child q e P A x o). split.
      * apply added_heap. right. split; [apply heap_ne; by eexists|by exists o].
      * unfold Mempool.entry_hash in *. by rw (proj1 (with_child_same x o)).
  - intros o x. rw (ad_next _ _ _ _ _ _ Hm') /= foldl_next. case_decide as Ho.
    + split; [intros [= <-]; exists e'; split; [by apply added_member; left|done]|]. intros (y & Hy & Hoy). apply added_member in Hy as [[-> _]|(Hx & z & Hz & ->)]; [done|].
      rw (proj1 (with_child_same x z)) in Hoy. assert (nextTx m !! o = Some x) as Hn by (apply (pg_next m Hg); by exists z). by rw (ad_unspent _ _ _ Had o Ho) in Hn.
    + rw (pg_next m Hg). split.
      * intros (z & Hz & Hoz). exists (with_child q e P A x z). split; [by apply member_with|by rw (proj1 (with_child_same x z))].
      * intros (y & Hy & Hoy). apply added_member in Hy as [[-> ->]|(Hx & z & Hz & ->)]; [done|]. rw (proj1 (with_child_same x z)) in Hoy. by exists z.
  - intros x y p Hy. apply added_member in Hy as [[-> ->]|(Hx & z & Hz & ->)].
    + cbn. rw added_parents; [apply (ad_P _ _ _ _ _ _ Hm')|apply (ad_self _ _ _ Had)].
    + rw (proj1 (with_child_same x z)) (proj2 (with_child_same x z)) added_parents; [by apply (pg_parents m Hg x)|by apply (ad_leaf _ _ _ Had x)].
  - intros x y c Hy. apply added_member in Hy as [[-> ->]|(Hx & z & Hz & ->)].
    + change (ChildTx e') with (ChildTx e). rw (ne_children e Hnew). split; [by intros Hc%elem_of_empty|]. intros (ce & Hce & Hqp). exfalso.
      assert (is_Some (entries m !! q)) as [? Hs]; [|by rw (ad_fresh _ _ _ Had) in Hs]. apply added_member in Hce as [[-> ->]|(Hc & o & Ho & ->)]; [by apply P_heap|].
      rw (proj2 (with_child_same c o)) in Hqp. destruct (pg_order m Hg) as [ord Hord]. apply (od_parent _ _ Hord c). exists o. split; [apply Ho|done].
    + rw with_child_children. pose proof (pg_children m Hg x z c Hz) as Hch. split.
      * intros Hc. assert ((x ∈ P /\ c = q) \/ c ∈ ChildTx z) as [[HxP ->]|Hc'] by (case_decide; set_solver); [exists e'; split; [by apply added_member; left|done]|].
        apply Hch in Hc' as (ce & Hce & Hp). exists (with_child q e P A c ce). split; [by apply member_with|by rw (proj2 (with_child_same c ce))].
      * intros (ce & Hce & Hp). apply added_member in Hce as [[-> ->]|(Hc & o & Ho & ->)]; [cbn in Hp; rw decide_True //; set_solver|].
        rw (proj2 (with_child_same c o)) in Hp. assert (c ∈ ChildTx z) by (apply Hch; by exists o). case_decide; set_solver.
  - destruct (pg_order m Hg) as [ord [Hoc Hop Hob]]. exists (fun x => if decide (x = q) then size (entries m) else ord x). split.
    + intros x y (o & Ho & Hy). apply added_heap in Ho as [[-> ->]|(Hx & z & Hz & ->)]; [change (ChildTx e') with (ChildTx e) in Hy; rw (ne_children e Hnew) in Hy; by apply elem_of_empty in Hy|].
      rw added_heap_Some (decide_False (P := x = q)) //. rw with_child_children in Hy. assert (y = q \/ y ∈ ChildTx z) as [->|Hy'] by (case_decide; set_solver).
      * split; [by left|]. rw decide_True //. apply Hob. by eexists.
      * destruct (Hoc x y) as [Hys Hlt]; [by exists z|]. split; [by right|]. rw decide_False //. by apply heap_ne.
    + intros x y (o & Ho & Hy). rw added_heap_Some. apply added_heap in Ho as [[-> ->]|(Hx & z & Hz & ->)].
      * cbn in Hy. pose proof (P_heap y Hy) as Hys. split; [by right|]. rw decide_False; [|by apply heap_ne]. rw decide_True //. by apply Hob.
      * rw (proj2 (with_child_same x z)) in Hy. destruct (Hop x y) as [Hys Hlt]; [by exists z|]. split; [by right|]. rw (decide_False (P := x = q)) // decide_False //. by apply heap_ne.
    + intros x Hx. rw added_size. case_decide as Hxq; [lia|]. apply added_heap_Some in Hx as [|Hx]; [done|]. specialize (Hob x Hx). lia.
  - intros x y Hy. apply added_heap in Hy as [[-> ->]|(Hx & z & Hz & ->)]; [apply (ne_size e Hnew)|]. rw (proj1 (with_child_same x z)) with_child_size. by apply (pg_size m Hg x).
Qed.
Lemma added_edge x y : x <> q -> parent (entries m') x y <-> parent (entries m) x y.
Proof.
  intros Hx. unfold edge. rw (ad_old _ _ _ _ _ _ Hm' x Hx). split.
  - intros (o & Ho & Hy). apply fmap_Some in Ho as (z & Hz & ->). rw (proj2 (with_child_same x z)) in Hy. by exists z.
  - intros (z & Hz & Hy). exists (with_child q e P A x z). rw Hz (proj2 (with_child_same x z)). done.
Qed.
Lemma parent_ne x y : parent (entries m) x y -> y <> q.
Proof. intros Hxy. destruct (pg_order m Hg) as [ord Ho]. apply heap_ne. by apply (od_parent _ _ Ho x y). Qed.
Lemma added_tc x y : x <> q -> tc (parent (entries m')) x y <-> tc (parent (entries m)) x y.
Proof.
  intros Hx. split; intros Ht; revert Hx; induction Ht as [x y Hxy|x z y Hxz Ht IH]; intros Hx.
  - apply tc_once. by apply added_edge.
  - apply added_edge in Hxz; [|done]. eapply tc_l; [exact Hxz|]. by apply IH, (parent_ne x).
  - apply tc_once. by apply added_edge.
  - eapply tc_l; [by apply added_edge|]. by apply IH, (parent_ne x).
Qed.
Lemma added_rtc x y : x <> q -> rtc (parent (entries m')) x y <-> rtc (parent (entries m)) x y.
Proof. intros Hx. rw !rtc_tc. by rw added_tc. Qed.
Lemma added_tc_q x : tc (parent (entries m')) q x <-> x ∈ A.
Proof.
  rw (HA x). assert (forall p, parent (entries m') q p <-> parents_of m (e_Tx e) p) as Hq.
  { intros p. rw -(ad_P _ _ _ _ _ _ Hm'). unfold edge. rw (ad_q _ _ _ _ _ _ Hm'). split; [by intros (o & [= <-] & Hp)|]. intros Hp. by eexists. }
  assert (forall p, parents_of m (e_Tx e) p -> p <> q) as Hpq by (intros p Hp; apply heap_ne, P_heap; by apply (ad_P _ _ _ _ _ _ Hm')).
  split.
  - intros Ht. assert (exists p, parent (entries m') q p /\ rtc (parent (entries m')) p x) as (p & Hp & Hr).
    { inversion Ht as [? ? H1|? z ? H1 H2]; subst; [by exists x|exists z; split; [done|by apply tc_rtc]]. }
    exists p. apply Hq in Hp. split; [done|]. apply added_rtc; [by apply Hpq|done].
  - intros (p & Hp & Hr). apply (tc_rtc_r _ p); [apply tc_once; by apply Hq|]. apply added_rtc; [by apply Hpq|done].
Qed.
(** The sums that do not change with an entry. *)
Lemma added_totals f B : (forall x o, f (with_child q e P A x o) = f o) -> (forall x, x ∈ B -> x <> q) -> total f (entries m') B = total f (entries m) B.
Proof.
  intros Hf HB. apply total_ext. intros x Hx. rw (ad_old _ _ _ _ _ _ Hm' x (HB x Hx)). destruct (entries m !! x); cbn; [by rw Hf|done].
Qed.
Lemma with_child_fields x o : let o' := with_child q e P A x o in
  TxSize o' = TxSize o /\ TxFee o' = TxFee o /\ SigOpCount o' = SigOpCount o /\ e_usageSize o' = e_usageSize o /\
  SumTxCountWithAncestors (stat o') = SumTxCountWithAncestors (stat o) /\ SumTxSizeWitAncestors (stat o') = SumTxSizeWitAncestors (stat o) /\
  SumTxSigOpCountWithAncestors (stat o') = SumTxSigOpCountWithAncestors (stat o) /\ SumTxFeeWithAncestors (stat o') = SumTxFeeWithAncestors (stat o).
Proof. unfold with_child. cbn. by do 2 case_decide. Qed.
Lemma added_anc : (forall x o, member m x o -> anc_sums (entries m) x o) -> forall x y, member m' x y -> anc_sums (entries m') x y.
Proof.
  intros Hanc x y Hy. assert (forall z, z ∈ A -> z <> q) as HAq.
  { intros z Hz. apply HA in Hz as (p & Hp & Hr). apply rtc_inv_r in Hr as [->|(w & _ & Hw)]; [apply heap_ne, P_heap; by apply (ad_P _ _ _ _ _ _ Hm')|by apply (parent_ne w)]. }
  apply added_member in Hy as [[-> ->]|(Hx & o & Ho & ->)].
  - exists A. split; [intros z; by rw added_tc_q|]. cbn. rw !added_totals //; intros z w; apply (with_child_fields z w).
  - destruct (Hanc x o Ho) as (B & HB & H1 & H2 & H3 & H4). exists B. split; [intros z; by rw added_tc|]. cbn zeta.
    destruct (with_child_fields x o) as (-> & -> & -> & _ & -> & -> & -> & ->).
    assert (forall z, z ∈ B -> z <> q) as HBq.
    { intros z Hz. apply HB in Hz. assert (exists w, parent (entries m) w z) as [w Hw]; [|by apply (parent_ne w)]. clear -Hz. induction Hz; eauto. }
    rw !added_totals //; intros z w; apply (with_child_fields z w).
Qed.
Lemma added_desc : pool_desc m -> pool_desc m'.
Proof.
  intros Hdesc x y Hy. pose proof added_graph as Hg'. assert (forall x o z, member m x o -> tc (child (entries m')) x z <-> tc (child (entries m)) x z \/ z = q /\ x ∈ A) as Htc.
  { clear x y Hy. intros x o z Ho. pose proof (member_with x o Ho) as Ho'. split.
    - intros Ht. destruct (tc_child_parent m' x z _ Hg' Ho' Ht) as [[ze Hze] Hp]. apply added_member in Hze as [[-> _]|(Hz & zo & Hzo & _)]; [right; split; [done|by apply added_tc_q]|].
      left. apply added_tc in Hp; [|done]. by apply (tc_parent_child m z x zo).
    - intros [Ht|[-> Hx]].
      + destruct (tc_child_parent m x z o Hg Ho Ht) as [[ze Hze] Hp]. apply (tc_parent_child m' z x _ Hg' (member_with z ze Hze)). apply added_tc; [by apply (member_ne z ze)|done].
      + apply (tc_parent_child m' q x e' Hg'); [by apply added_member; left|by apply added_tc_q]. }
  assert (forall f, (forall x o, f (with_child q e P A x o) = f o) -> forall D, q ∉ D -> total f (entries m') D = total f (entries m) D) as Htot.
  { intros f Hf D HD. apply added_totals; [done|]. by intros z Hz ->. }
  assert (forall a b, i64 (i64 a + b) = i64 (a + b)) as Hi by (intros; int_lia). destruct (ne_range e Hnew) as (Hr1 & Hr2 & _).
  apply added_member in Hy as [[-> ->]|(Hx & o & Ho & ->)].
  - exists ∅. split; [|cbn; rw size_empty !total_empty !Z.add_0_r !i64_id //]. intros z. split; [by intros Hz%elem_of_empty|]. intros Ht. exfalso.
    assert (exists w, child (entries m') q w) as (w & o & Ho & Hw) by (inversion Ht; eauto). rw (ad_q _ _ _ _ _ _ Hm') in Ho. injection Ho as <-.
    change (w ∈ ChildTx e) in Hw. rw (ne_children e Hnew) in Hw. by apply elem_of_empty in Hw.
  - destruct (Hdesc x o Ho) as (D & HD & H1 & H2 & H3). assert (q ∉ D) as HqD.
    { intros Hq%HD. destruct (tc_child_parent m x q o Hg Ho Hq) as [[qe Hqe] _]. by apply (member_ne q qe). }
    destruct (with_child_fields x o) as (F1 & F2 & _). unfold desc_sums. cbn zeta. rw F1 F2. destruct (decide (x ∈ A)) as [HxA|HxA].
    + exists ({[q]} ∪ D). split; [intros z; rw (Htc x o z Ho) -HD; set_solver|]. rw size_union; [|set_solver]. rw size_singleton !total_union // (ad_q _ _ _ _ _ _ Hm').
      rw !Htot //; [|intros z w; apply (with_child_fields z w)..]. cbn [from_option TxSize TxFee set_ParentTx set_stat].
      assert (stat (with_child q e P A x o) = stat (UpdateDescendantState 1 (TxSize e) (TxFee e) o)) as -> by (unfold with_child; rw decide_True //; by case_decide).
      cbn. rw H1 H2 H3 !Hi. split_and!; f_equal; lia.
    + exists D. split; [intros z; rw (Htc x o z Ho) -HD; set_solver|]. rw !Htot //; [|intros z w; apply (with_child_fields z w)..].
      assert (stat (with_child q e P A x o) = stat o) as -> by (unfold with_child; rw decide_False //; by case_decide). done.
Qed.
Lemma added_pool_set : pool_set m' = {[q]} ∪ pool_set m /\ q ∉ pool_set m.
Proof.
  split; [|rw elem_pool_set; intros [k Hk]; destruct (pg_data m Hg k q Hk) as (? & Ho & _); by rw (ad_fresh _ _ _ Had) in Ho].
  apply set_eq. intros x. rw elem_of_union !elem_pool_set elem_of_singleton (ad_pool _ _ _ _ _ _ Hm'). split.
  - intros [k Hk]. destruct (decide (entry_hash e = k)) as [<-|]; [rw lookup_insert_eq in Hk; injection Hk as <-; by left|right]. exists k. by rw lookup_insert_ne in Hk.
  - intros [->|[k Hk]]; [exists (entry_hash e); apply lookup_insert_eq|]. exists k. rw lookup_insert_ne //. intros <-. by rw (ad_new _ _ _ Had) in Hk.
Qed.
Lemma added_sums : pool_sums m -> pool_sums m'.
Proof.
  intros [Hanc Hus Htt]. destruct added_pool_set as [Hset Hq]. split; [by apply added_anc|..]; rw Hset total_union // (ad_q _ _ _ _ _ _ Hm') added_totals; try (intros z w; apply (with_child_fields z w)); try (by intros z Hz ->).
  - rw (ad_usage _ _ _ _ _ _ Hm') Hus. cbn. int_lia.
  - rw (ad_total _ _ _ _ _ _ Hm') Htt. cbn. int_lia.
Qed.
End Added.

(** ** Removing *)
(** What happens to the entries while [S] is taken out: only links to [S] are cut, and
    only the sums over descendants change. *)
Section Cut.
Context (S : gset nat).
Record cut (x : nat) (e e' : TxEntry) : Prop := {
  cu_tx : e_Tx e' = e_Tx e;
  cu_fields : TxSize e' = TxSize e /\ TxFee e' = TxFee e /\ SigOpCount e' = SigOpCount e /\ e_usageSize e' = e_usageSize e /\ e_time e' = e_time e;
  cu_anc : SumTxCountWithAncestors (stat e') = SumTxCountWithAncestors (stat e) /\ SumTxSizeWitAncestors (stat e') = SumTxSizeWitAncestors (stat e) /\
    SumTxSigOpCountWithAncestors (stat e') = SumTxSigOpCountWithAncestors (stat e) /\ SumTxFeeWithAncestors (stat e') = SumTxFeeWithAncestors (stat e);
  cu_parents : ParentTx e' ⊆ ParentTx e /\ ParentTx e ∖ S ⊆ ParentTx e' /\ (x ∉ S -> ParentTx e' = ParentTx e);
  cu_children : ChildTx e' ⊆ ChildTx e /\ ChildTx e ∖ S ⊆ ChildTx e' }.
Definition cuts (h h' : eheap) : Prop := forall x, match h !! x, h' !! x with Some e, Some e' => cut x e e' | None, None => True | _, _ => False end.
Lemma cut_refl x e : cut x e e.
Proof. split; [done|done|done|set_solver|set_solver]. Qed.
Lemma cut_trans x e1 e2 e3 : cut x e1 e2 -> cut x e2 e3 -> cut x e1 e3.
Proof.
  intros [A1 (A2 & A3 & A4 & A5 & A0) (A6 & A7 & A8 & A9) (P1 & P2 & P3) (C1 & C2)] [B1 (B2 & B3 & B4 & B5 & B0) (B6 & B7 & B8 & B9) (Q1 & Q2 & Q3) (D1 & D2)].
  split; [congruence|split_and!; congruence|split_and!; congruence| |set_solver]. split_and!; [set_solver|set_solver|]. intros Hx. rw Q3 // P3 //.
Qed.
#[export] Instance cuts_preorder : PreOrder cuts.
Proof.
  split; [intros h x; destruct (h !! x); [apply cut_refl|done]|]. intros h1 h2 h3 H12 H23 x. specialize (H12 x). specialize (H23 x).
  destruct (h1 !! x), (h2 !! x), (h3 !! x); try done. by eapply cut_trans.
Qed.
Lemma cuts_fwd h h' x e : cuts h h' -> h !! x = Some e -> exists e', h' !! x = Some e' /\ cut x e e'.
Proof. intros Hc Hx. specialize (Hc x). rw Hx in Hc. destruct (h' !! x) as [e'|]; [by exists e'|done]. Qed.
Lemma cuts_back h h' x e' : cuts h h' -> h' !! x = Some e' -> exists e, h !! x = Some e /\ cut x e e'.
Proof. intros Hc Hx. specialize (Hc x). rw Hx in Hc. destruct (h !! x) as [e|]; [by exists e|done]. Qed.
Lemma cuts_Some h h' x : cuts h h' -> is_Some (h !! x) <-> is_Some (h' !! x).
Proof. intros Hc. specialize (Hc x). destruct (h !! x), (h' !! x); try done; split; by eexists. Qed.
Lemma cuts_dom h h' : cuts h h' -> size h' = size h.
Proof.
  intros Hc. rw -!(size_dom (D := gset nat)). f_equal. apply set_eq. intros x. rw !elem_of_dom. by rw (cuts_Some h h').
Qed.
Lemma cuts_ordered h h' ord : cuts h h' -> ordered h ord -> ordered h' ord.
Proof.
  intros Hc [Ho1 Ho2 Ho3]. split.
  - intros x y (e' & He' & Hy). destruct (cuts_back h h' x e' Hc He') as (e & He & [_ _ _ _ (Hsub & _)]). rw -(cuts_Some h h' y Hc). apply Ho1. exists e. split; [done|set_solver].
  - intros x y (e' & He' & Hy). destruct (cuts_back h h' x e' Hc He') as (e & He & [_ _ _ (Hsub & _) _]). rw -(cuts_Some h h' y Hc). apply Ho2. exists e. split; [done|set_solver].
  - intros x Hx. rw (cuts_dom h h' Hc). apply Ho3. by rw (cuts_Some h h' x Hc).
Qed.
Lemma modify_all_cuts {E} f l h : NoDup l -> (forall x, x ∈ l -> is_Some (h !! x)) -> (forall x e, x ∈ l -> h !! x = Some e -> cut x e (f e)) ->
  exists h', modify_all (E := E) f l h = Ok h' /\ cuts h h' /\ forall x, (x ∈ l -> h' !! x = f <$> h !! x) /\ (x ∉ l -> h' !! x = h !! x).
Proof.
  intros Hd Hl Hf. destruct (modify_all_ok (E := E) f l h Hd Hl) as (h' & Hm & Hx). exists h'. split_and!; [done| |done]. intros x. destruct (Hx x) as [H1 H2].
  destruct (decide (x ∈ l)) as [Hin|Hout]; [rw H1 //|rw H2 //]; destruct (h !! x) as [e|] eqn:He; cbn; try done; [by apply Hf|apply cut_refl].
Qed.
Lemma cut_children_ok {E} l : forall h ord, ordered h ord -> (forall q, q ∈ l -> q ∈ S /\ is_Some (h !! q)) -> (forall q e, q ∈ S -> h !! q = Some e -> ChildTx e ⊆ S) ->
  exists h', cut_children (E := E) range l h = Ok h' /\ cuts h h' /\ forall x, x ∉ S -> h' !! x = h !! x.
Proof.
  induction l as [|q l IH]; intros h ord Ho Hl Hcl; cbn [cut_children]; [by exists h|].
  destruct (Hl q ltac:(set_solver)) as [HqS [e He]]. rw (eload_Some _ _ _ He). cbn [mbind res_bind].
  destruct (modify_all_cuts (E := E) (UpdateParent q false) (range (ChildTx e)) h) as (h1 & -> & Hc1 & Hx1).
  { apply NoDup_range. }
  { intros x Hx. apply (elem_range range Hrange) in Hx. apply (od_child h ord Ho q x). by exists e. }
  { intros x xe Hx _. apply (elem_range range Hrange) in Hx. pose proof (Hcl q e HqS He) as Hsub. split; cbn; [done|done|done| |set_solver]. split_and!; [set_solver|set_solver|set_solver]. }
  cbn [mbind res_bind]. destruct (IH h1 ord) as (h2 & Hh2 & Hc2 & Hx2).
  { by apply (cuts_ordered h). } { intros x Hx. rw -(cuts_Some h h1 x Hc1). apply Hl. set_solver. }
  { intros x xe HxS Hx. destruct (cuts_back h h1 x xe Hc1 Hx) as (xo & Hxo & [_ _ _ _ [Hsub _]]). pose proof (Hcl x xo HxS Hxo). set_solver. }
  exists h2. split_and!; [done|by etrans|]. intros x Hx. rw Hx2 //. apply (Hx1 x). rw (elem_range range Hrange). pose proof (Hcl q e HqS He). set_solver.
Qed.

Lemma cut_parents_ok {E} l : forall m ord, ordered (entries m) ord -> (forall k q, poolData m !! k = Some q -> is_Some (entries m !! q)) ->
  (forall x e, entries m !! x = Some e -> exists n, Tx_EncodeSize (E := MemPoolErr) (e_Tx e) = Ok n) -> (forall q, q ∈ l -> q ∈ S /\ is_Some (entries m !! q)) ->
  exists h', cut_parents (E := E) Sha256 range l m = Ok (with_entries m h') /\ cuts (entries m) h' /\ (forall x, ParentTx <$> h' !! x = ParentTx <$> entries m !! x) /\
    forall q e p pe, q ∈ l -> entries m !! q = Some e -> p ∈ ParentTx e -> h' !! p = Some pe -> q ∉ ChildTx pe.
Proof.
  induction l as [|q l IH]; intros m ord Ho Hpool Hsz Hl; cbn [cut_parents].
  { exists (entries m). split_and!; [by destruct m|done|done|]. by intros ? ? ? ? Hq%elem_of_nil. }
  destruct (Hl q ltac:(set_solver)) as [HqS [e He]]. rw (eload_Some _ _ _ He). cbn [mbind res_bind]. destruct (Hsz q e He) as [n Hn].
  pose proof (CalculateMemPoolAncestors_ok range Hrange m Sha256 ord (e_Tx e) noLimit n (graph_parents _ _ Ho) Hpool Hn) as Ha.
  destruct (CalculateMemPoolAncestors Sha256 range m (e_Tx e) noLimit true) as [a| |]; [|done|done]. destruct Ha as [Ha _].
  unfold UpdateChildOfParents. rw (eload_Some _ _ _ He). cbn [mbind res_bind].
  destruct (modify_all_cuts (E := E) (UpdateChild q false) (range (ParentTx e)) (entries m)) as (h1 & -> & Hc1 & Hx1).
  { apply NoDup_range. } { intros x Hx. apply (elem_range range Hrange) in Hx. apply (od_parent _ ord Ho q x). by exists e. }
  { intros x xe _ _. split; cbn; [done|done|done|set_solver|set_solver]. }
  cbn [mbind res_bind]. unfold updateAncestors. set (f := UpdateDescendantState _ _ _).
  destruct (modify_all_cuts (E := E) f (range a) h1) as (h2 & -> & Hc2 & Hx2).
  { apply NoDup_range. }
  { intros x Hx. apply (elem_range range Hrange), Ha in Hx as (p & (k & _ & Hk) & Hr). rw -(cuts_Some _ h1 x Hc1).
    apply rtc_inv_r in Hr as [<-|(w & _ & Hw)]; [by apply (Hpool k)|by apply (od_parent _ ord Ho w x)]. }
  { intros x xe _ _. split; cbn; [done|done|done|set_solver|set_solver]. }
  cbn [mbind res_bind]. assert (cuts (entries m) h2) as Hc by (by etrans).
  assert (forall x, ParentTx <$> h2 !! x = ParentTx <$> entries m !! x) as Hpar.
  { intros x. destruct (Hx2 x) as [P1 P2], (Hx1 x) as [Q1 Q2]. destruct (decide (x ∈ range a)); [rw P1 //|rw P2 //]; (destruct (decide (x ∈ range (ParentTx e))); [rw Q1 //|rw Q2 //]); by destruct (entries m !! x). }
  destruct (IH (with_entries m h2) ord) as (h3 & Hh3 & Hc3 & Hpar3 & Hcut3); cbn [entries with_entries poolData] in *.
  { by apply (cuts_ordered (entries m)). } { intros k x Hk. rw -(cuts_Some _ h2 x Hc). by apply (Hpool k). }
  { intros x xe Hx. destruct (cuts_back _ h2 x xe Hc Hx) as (xo & Hxo & [-> _ _ _ _]). by apply (Hsz x). }
  { intros x Hx. rw -(cuts_Some _ h2 x Hc). apply Hl. set_solver. }
  exists h3. split_and!; [done|by etrans|intros x; by rw Hpar3|]. intros x xe p pe Hx Hxe Hp Hpe. apply elem_of_cons in Hx as [->|Hx].
  - rw He in Hxe. injection Hxe as <-. destruct (cuts_back h2 h3 p pe Hc3 Hpe) as (p2 & Hp2 & [_ _ _ _ [Hs3 _]]).
    destruct (cuts_back h1 h2 p p2 Hc2 Hp2) as (p1 & Hp1 & [_ _ _ _ [Hs2 _]]). destruct (Hx1 p) as [Q1 _]. rw Q1 in Hp1; [|by apply (elem_range range Hrange)].
    apply fmap_Some in Hp1 as (p0 & _ & ->). cbn in Hs2. set_solver.
  - destruct (cuts_fwd _ h2 x xe Hc Hxe) as (x2 & Hx2' & _). apply (Hcut3 x x2 p pe Hx Hx2'); [|done]. specialize (Hpar x). rw Hx2' Hxe in Hpar. injection Hpar as ->. done.
Qed.
End Cut.

Lemma foldl_delete {V} (l : list OutPoint) : forall (next : gmap OutPoint V) o, foldl (fun n o => delete o n) next l !! o = if decide (o ∈ l) then None else next !! o.
Proof.
  induction l as [|i l IH]; intros next o; cbn [foldl]; [done|]. rw IH. destruct (decide (o ∈ l)); [rw decide_True //; set_solver|].
  destruct (decide (i = o)) as [<-|]; [rw lookup_delete_eq decide_True //; set_solver|rw lookup_delete_ne // decide_False //; set_solver].
Qed.
Definition sum_over (f : TxEntry -> Z) (h : eheap) (l : list nat) : Z := foldr (fun x n => from_option f 0 (h !! x) + n) 0 l.
Definition delete_each (less : nat -> nat -> bool) (l k : list nat) : list nat := foldl (fun k x => (Container_Delete less x k).1) k l.
Lemma delete_entries_ok {E} l : forall m u w, (forall x, x ∈ l -> is_Some (entries m !! x)) -> usageSize m = i64 u -> totalTxSize m = u64 w ->
  exists m', delete_entries (E := E) Sha256 l m = Ok m' /\ entries m' = entries m /\
    (forall k q, poolData m' !! k = Some q <-> poolData m !! k = Some q /\ forall x e, x ∈ l -> entries m !! x = Some e -> entry_hash e <> k) /\
    (forall o q, nextTx m' !! o = Some q <-> nextTx m !! o = Some q /\ forall x e, x ∈ l -> entries m !! x = Some e -> o ∉ GetAllPreviousOut (e_Tx e)) /\
    usageSize m' = i64 (u - sum_over e_usageSize (entries m) l) /\ totalTxSize m' = u64 (w - sum_over TxSize (entries m) l) /\
    txByAncestorFeeRateSort m' = delete_each (fee_less Sha256 (entries m)) l (txByAncestorFeeRateSort m) /\
    timeSortData m' = delete_each (time_less Sha256 (entries m)) l (timeSortData m).
Proof.
  induction l as [|x l IH]; intros m u w Hl Hu Hw; cbn [delete_entries].
  { exists m. split_and!; try done; [| |by rw Hu Z.sub_0_r|by rw Hw Z.sub_0_r]; (intros k q; split; [intros Hk; split; [done|]; by intros ? ? Hx%elem_of_nil|by intros [? _]]). }
  destruct (Hl x ltac:(set_solver)) as [e He]. unfold delTxentry. rw (eload_Some _ _ _ He). cbn [mbind res_bind].
  match goal with |- context [delete_entries Sha256 l ?mm] => destruct (IH mm (u - e_usageSize e) (w - TxSize e)) as (m' & -> & Hh & Hp & Hn & Hus & Htt & Hfs & Hts) end;
    cbn [entries poolData nextTx usageSize totalTxSize txByAncestorFeeRateSort timeSortData] in *; [set_solver|rw Hu; int_lia|rw Hw; int_lia|].
  exists m'. split_and!; [done|done| | |rw Hus; cbn; rw He; cbn; f_equal; unfold sum_over; lia|rw Htt; cbn; rw He; cbn; f_equal; unfold sum_over; lia|done|done].
  - intros k q. rw Hp. destruct (decide (entry_hash e = k)) as [<-|Hne].
    + rw lookup_delete_eq. split; [by intros [? _]|]. intros [_ Hall]. by destruct (Hall x e ltac:(set_solver) He).
    + rw lookup_delete_ne //. split; intros [Hk Hall]; (split; [done|]); intros y ye Hy Hye; [apply elem_of_cons in Hy as [->|Hy]; [congruence|by apply (Hall y)]|apply (Hall y); [set_solver|done]].
  - intros o q. rw Hn foldl_delete. case_decide as Ho.
    + split; [by intros [? _]|]. intros [_ Hall]. by destruct (Hall x e ltac:(set_solver) He).
    + split; intros [Hk Hall]; (split; [done|]); intros y ye Hy Hye; [apply elem_of_cons in Hy as [->|Hy]; [congruence|by apply (Hall y)]|apply (Hall y); [set_solver|done]].
Qed.

(** A set of members that contains their children. *)
Definition removable (m : TxMempool) (S : gset nat) : Prop := forall q, q ∈ S -> exists e, member m q e /\ ChildTx e ⊆ S.
Lemma member_inj m x y e d : member m x e -> member m y d -> entry_hash e = entry_hash d -> x = y.
Proof. intros [_ Hx] [_ Hy] Hh. rw Hh in Hx. congruence. Qed.

Lemma RemoveStaged_steps {E} m S : pool_graph m -> pool_sums m -> removable m S ->
  exists m', RemoveStaged (E := E) Sha256 range S false m = Ok m' /\ cuts S (entries m) (entries m') /\
    (forall k q, poolData m' !! k = Some q <-> poolData m !! k = Some q /\ q ∉ S) /\ (forall o q, nextTx m' !! o = Some q <-> nextTx m !! o = Some q /\ q ∉ S) /\
    usageSize m' = i64 (total e_usageSize (entries m) (pool_set m) - total e_usageSize (entries m) S) /\
    totalTxSize m' = u64 (total TxSize (entries m) (pool_set m) - total TxSize (entries m) S) /\
    txByAncestorFeeRateSort m' = delete_each (fee_less Sha256 (entries m')) (range S) (txByAncestorFeeRateSort m) /\
    timeSortData m' = delete_each (time_less Sha256 (entries m')) (range S) (timeSortData m) /\
    forall q e p pe, q ∈ S -> entries m !! q = Some e -> p ∈ ParentTx e -> p ∉ S -> entries m' !! p = Some pe -> q ∉ ChildTx pe.
Proof.
  intros Hg [_ Hus Htt] Hrem. destruct (pg_order m Hg) as [ord Ho]. unfold RemoveStaged, updateForRemoveFromMempool. cbn [mbind res_bind].
  assert (forall q, q ∈ range S -> q ∈ S /\ is_Some (entries m !! q)) as HS.
  { intros q Hq. apply (elem_range range Hrange) in Hq. split; [done|]. destruct (Hrem q Hq) as (e & [He _] & _). by eexists. }
  destruct (cut_children_ok S (E := E) (range S) (entries m) ord Ho HS) as (h1 & -> & Hc1 & Hx1).
  { intros q e Hq He. destruct (Hrem q Hq) as (e0 & [He0 _] & Hsub). rw He in He0. by injection He0 as ->. }
  cbn [mbind res_bind]. destruct (cut_parents_ok S (E := E) (range S) (with_entries m h1) ord) as (h2 & -> & Hc2 & Hpar & Hcut); cbn [entries with_entries poolData] in *.
  { by apply (cuts_ordered S (entries m)). }
  { intros k q Hk. rw -(cuts_Some S _ h1 q Hc1). destruct (pg_data m Hg k q Hk) as (e & He & _). by eexists. }
  { intros x xe Hx. destruct (cuts_back S _ h1 x xe Hc1 Hx) as (xo & Hxo & [-> _ _ _ _]). eexists. by apply (pg_size m Hg x). }
  { intros x Hx. rw -(cuts_Some S _ h1 x Hc1). by apply HS. }
  cbn [mbind res_bind]. assert (cuts S (entries m) h2) as Hc by (by etrans).
  destruct (delete_entries_ok (E := E) (range S) (with_entries (with_entries m h1) h2) (total e_usageSize (entries m) (pool_set m)) (total TxSize (entries m) (pool_set m)))
    as (m' & -> & Hh & Hp & Hn & Hu' & Ht' & Hfs & Hts); cbn [entries with_entries poolData nextTx usageSize totalTxSize] in *; [|done|done|].
  { intros x Hx. rw -(cuts_Some S _ h2 x Hc). by apply HS. }
  assert (forall f, (forall x e e', cut S x e e' -> f e' = f e) -> sum_over f h2 (range S) = total f (entries m) S) as Hsum.
  { intros f Hf. unfold sum_over. rw (foldr_perm (fun x => from_option f 0 (h2 !! x)) _ _ (Hrange S)). change (total f h2 S = total f (entries m) S). symmetry. apply total_ext.
    intros x Hx. specialize (Hc x). destruct (entries m !! x), (h2 !! x); try done. cbn. by rw (Hf _ _ _ Hc). }
  exists m'. rw Hh. split_and!; [done|done| | | | |done|done|].
  - intros k q. rw Hp. split; intros [Hk Hq]; (split; [done|]).
    + intros HqS. destruct (pg_data m Hg k q Hk) as (e & He & Hek). destruct (cuts_fwd S _ h2 q e Hc He) as (e' & He' & [Htx _ _ _ _]).
      apply (Hq q e'); [by apply (elem_range range Hrange)|done|]. unfold Mempool.entry_hash in *. by rw Htx.
    + intros x e Hx He Hek. apply (elem_range range Hrange) in Hx. destruct (Hrem x Hx) as (xo & [Hxo Hxm] & _). destruct (cuts_fwd S _ h2 x xo Hc Hxo) as (x' & Hx' & [Htx _ _ _ _]).
      rw He in Hx'. injection Hx' as <-. unfold Mempool.entry_hash in *. rw Htx in Hek. rw Hek Hk in Hxm. injection Hxm as <-. done.
  - intros o q. rw Hn. split; intros [Hk Hq]; (split; [done|]).
    + intros HqS. apply (pg_next m Hg) in Hk as (e & [He _] & Hoe). destruct (cuts_fwd S _ h2 q e Hc He) as (e' & He' & [Htx _ _ _ _]).
      apply (Hq q e'); [by apply (elem_range range Hrange)|done|by rw Htx].
    + intros x e Hx He Hoe. apply (elem_range range Hrange) in Hx. destruct (Hrem x Hx) as (xo & Hxo & _). destruct (cuts_fwd S _ h2 x xo Hc (proj1 Hxo)) as (x' & Hx' & [Htx _ _ _ _]).
      rw He in Hx'. injection Hx' as <-. rw Htx in Hoe. assert (nextTx m !! o = Some x) as Hox by (apply (pg_next m Hg); by exists xo). congruence.
  - rw Hu' Hsum //. by intros x e e' [_ (_ & _ & _ & -> & _) _ _ _].
  - rw Ht' Hsum //. by intros x e e' [_ (-> & _) _ _ _].
  - intros q e p pe Hq He Hpp HpS Hpe. destruct (cuts_fwd S _ h1 q e Hc1 He) as (e1 & He1 & [_ _ _ (_ & Hkeep & _) _]).
    apply (Hcut q e1 p pe); [by apply (elem_range range Hrange)|done|set_solver|done].
Qed.

Section Removed.
Context (m m' : TxMempool) (S : gset nat) (Hg : pool_graph m) (Hrem : removable m S) (Hcuts : cuts S (entries m) (entries m')).
Context (Hpool : forall k q, poolData m' !! k = Some q <-> poolData m !! k = Some q /\ q ∉ S) (Hnext : forall o q, nextTx m' !! o = Some q <-> nextTx m !! o = Some q /\ q ∉ S).
Context (Hcut : forall q e p pe, q ∈ S -> entries m !! q = Some e -> p ∈ ParentTx e -> p ∉ S -> entries m' !! p = Some pe -> q ∉ ChildTx pe).

Lemma removed_member x e' : member m' x e' -> exists e, member m x e /\ cut S x e e' /\ x ∉ S.
Proof.
  intros [He' Hp]. destruct (cuts_back S _ _ x e' Hcuts He') as (e & He & Hc). apply Hpool in Hp as [Hp Hx]. exists e. split; [|done]. split; [done|].
  unfold Mempool.entry_hash in *. by rw -(cu_tx _ _ _ _ Hc).
Qed.
Lemma member_removed x e : member m x e -> x ∉ S -> exists e', member m' x e' /\ cut S x e e'.
Proof.
  intros [He Hp] Hx. destruct (cuts_fwd S _ _ x e Hcuts He) as (e' & He' & Hc). exists e'. split; [|done]. split; [done|]. apply Hpool. split; [|done].
  unfold Mempool.entry_hash in *. by rw (cu_tx _ _ _ _ Hc).
Qed.
(** A member that stays has no parent in [S]. *)
Lemma parent_stays x e p : member m x e -> x ∉ S -> p ∈ ParentTx e -> p ∉ S.
Proof.
  intros Hx HxS Hp HpS. destruct (member_parent m x p e Hg Hx Hp) as (pe & Hpe & Hc). destruct (Hrem p HpS) as (pe0 & Hpe0 & Hsub). pose proof (member_unique m p pe pe0 Hpe Hpe0) as ->. set_solver.
Qed.
Lemma removed_graph : pool_graph m'.
Proof.
  split.
  - intros k q Hk. apply Hpool in Hk as [Hk Hq]. destruct (pg_data m Hg k q Hk) as (e & He & Hh). destruct (cuts_fwd S _ _ q e Hcuts He) as (e' & He' & Hc). exists e'. split; [done|].
    unfold Mempool.entry_hash in *. by rw (cu_tx _ _ _ _ Hc).
  - intros o q. rw Hnext (pg_next m Hg). split.
    + intros [(e & He & Ho) Hq]. destruct (member_removed q e He Hq) as (e' & He' & Hc). exists e'. split; [done|]. by rw (cu_tx _ _ _ _ Hc).
    + intros (e' & He' & Ho). destruct (removed_member q e' He') as (e & He & Hc & Hq). split; [|done]. exists e. split; [done|]. by rw -(cu_tx _ _ _ _ Hc).
  - intros q e' p He'. destruct (removed_member q e' He') as (e & He & Hc & Hq). rw (proj2 (proj2 (cu_parents _ _ _ _ Hc)) Hq) (cu_tx _ _ _ _ Hc). split.
    + intros Hp. pose proof (parent_stays q e p He Hq Hp) as HpS. apply (pg_parents m Hg q e p He) in Hp as (k & Hk & Hkp). exists k. split; [done|]. by apply Hpool.
    + intros (k & Hk & Hkp). apply Hpool in Hkp as [Hkp _]. apply (pg_parents m Hg q e p He). by exists k.
  - intros q e' c He'. destruct (removed_member q e' He') as (e & He & Hc & Hq). destruct (cu_children _ _ _ _ Hc) as [Hsub Hkeep]. split.
    + intros Hce. pose proof (Hsub c Hce) as Hce0. apply (pg_children m Hg q e c He) in Hce0 as (ce & Hcm & Hqp). assert (c ∉ S) as HcS by (intros HcS; by apply (Hcut c ce q e' HcS (proj1 Hcm) Hqp Hq (proj1 He'))).
      destruct (member_removed c ce Hcm HcS) as (ce' & Hcm' & Hcc). exists ce'. split; [done|]. by rw (proj2 (proj2 (cu_parents _ _ _ _ Hcc)) HcS).
    + intros (ce' & Hcm' & Hqp). destruct (removed_member c ce' Hcm') as (ce & Hcm & Hcc & HcS). rw (proj2 (proj2 (cu_parents _ _ _ _ Hcc)) HcS) in Hqp.
      apply Hkeep. apply elem_of_difference. split; [|done]. apply (pg_children m Hg q e c He). by exists ce.
  - destruct (pg_order m Hg) as [ord Ho]. exists ord. by apply (cuts_ordered S (entries m)).
  - intros x e' He'. destruct (cuts_back S _ _ x e' Hcuts He') as (e & He & Hc). rw (cu_tx _ _ _ _ Hc) (proj1 (cu_fields _ _ _ _ Hc)). by apply (pg_size m Hg x).
Qed.
Lemma removed_tc x e y : member m x e -> x ∉ S -> tc (parent (entries m')) x y <-> tc (parent (entries m)) x y.
Proof.
  intros Hx HxS. assert (forall x e y, member m x e -> x ∉ S -> parent (entries m') x y <-> parent (entries m) x y) as Hedge.
  { clear -Hcuts. intros x e y [Hx _] HxS. destruct (cuts_fwd S _ _ x e Hcuts Hx) as (e' & He' & Hc). unfold edge. rw Hx He'. pose proof (proj2 (proj2 (cu_parents _ _ _ _ Hc)) HxS) as Hp.
    split; intros (z & [= <-] & Hy); eexists; (split; [done|]); congruence. }
  assert (forall x e y, member m x e -> x ∉ S -> parent (entries m) x y -> y ∉ S /\ exists ye, member m y ye) as Hstep.
  { intros a ae b Ha HaS (z & Hz & Hb). pose proof (proj1 Ha) as Ha1. rw Hz in Ha1. injection Ha1 as ->. split; [by apply (parent_stays a ae)|]. destruct (member_parent m a b ae Hg Ha Hb) as (be & ? & _). by exists be. }
  split; intros Ht; revert e Hx HxS; induction Ht as [x y Hxy|x z y Hxz Ht IH]; intros e Hx HxS.
  - apply tc_once. by apply (Hedge x e).
  - apply (Hedge x e) in Hxz; [|done|done]. destruct (Hstep x e z Hx HxS Hxz) as [Hz [ze Hze]]. eapply tc_l; [exact Hxz|by apply (IH ze)].
  - apply tc_once. by apply (Hedge x e).
  - destruct (Hstep x e z Hx HxS Hxz) as [Hz [ze Hze]]. eapply tc_l; [by apply (Hedge x e)|by apply (IH ze)].
Qed.
Lemma removed_totals f B : (forall x e e', cut S x e e' -> f e' = f e) -> total f (entries m') B = total f (entries m) B.
Proof. intros Hf. symmetry. apply total_ext. intros x _. specialize (Hcuts x). destruct (entries m !! x), (entries m' !! x); try done. cbn. by rw (Hf _ _ _ Hcuts). Qed.
Lemma removed_anc x e' : (forall x e, member m x e -> anc_sums (entries m) x e) -> member m' x e' -> anc_sums (entries m') x e'.
Proof.
  intros Hanc He'. destruct (removed_member x e' He') as (e & He & Hc & Hx). destruct (Hanc x e He) as (A & HA & H1 & H2 & H3 & H4). exists A. split; [intros y; by rw (removed_tc x e)|].
  cbn zeta. destruct Hc as [_ (F1 & F2 & F3 & _) (-> & -> & -> & ->) _ _]. rw F1 F2 F3 !removed_totals //; intros ? ? ? [_ (? & ? & ? & _) _ _ _]; done.
Qed.
Lemma removed_pool_set : pool_set m' = pool_set m ∖ S /\ S ⊆ pool_set m.
Proof.
  split; [|intros x Hx; apply elem_pool_set; destruct (Hrem x Hx) as (e & [_ Hp] & _); by eexists]. apply set_eq. intros x. rw elem_of_difference !elem_pool_set. split.
  - intros [k Hk]. apply Hpool in Hk as [Hk Hx]. split; [by exists k|done].
  - intros [[k Hk] Hx]. exists k. by apply Hpool.
Qed.
End Removed.

Lemma RemoveStaged_ok {E} m S : pool_graph m -> pool_sums m -> removable m S ->
  exists m', RemoveStaged (E := E) Sha256 range S false m = Ok m' /\ pool_graph m' /\ pool_sums m' /\ forall k q, poolData m' !! k = Some q <-> poolData m !! k = Some q /\ q ∉ S.
Proof.
  intros Hg Hs Hrem. destruct (RemoveStaged_steps (E := E) m S Hg Hs Hrem) as (m' & Hm & Hcuts & Hpool & Hnext & Hus & Htt & _ & _ & Hcut). exists m'. split; [done|].
  split; [by apply (removed_graph m m' S)|]. split; [|done]. destruct (removed_pool_set m m' S Hrem Hpool) as [Hset Hsub]. split.
  - intros x e'. apply (removed_anc m m' S Hg Hrem Hcuts Hpool Hnext Hcut). apply Hs.
  - rw Hus Hset total_difference // !(removed_totals m m' S Hcuts) //; by intros x e e' [_ (_ & _ & _ & ? & _) _ _ _].
  - rw Htt Hset total_difference // !(removed_totals m m' S Hcuts) //; by intros x e e' [_ (? & _) _ _ _].
Qed.

(** The transactions that go with [t]: itself, or what spends its outputs, and all
    their descendants. *)
Definition spends_output (m : TxMempool) (t : Tx) (x : nat) : Prop := exists i, (i < length (outs t))%nat /\ nextTx m !! mkOutPoint (txid Sha256 t) (u32 (Z.of_nat i)) = Some x.
Definition goes_with (m : TxMempool) (t : Tx) (x : nat) : Prop :=
  exists r, rtc (child (entries m)) r x /\ match poolData m !! txid Sha256 t with Some q => r = q | None => spends_output m t r end.

Lemma spenders_ok {E} m h n : pool_graph m -> forall i acc, exists s, spenders (E := E) Sha256 m h n (Z.of_nat i) acc = Ok s /\
  forall x, x ∈ s <-> x ∈ acc \/ exists j, (i <= j < i + n)%nat /\ nextTx m !! mkOutPoint h (u32 (Z.of_nat j)) = Some x.
Proof.
  intros Hg. induction n as [|n IH]; intros i acc; cbn [spenders].
  { exists acc. split; [done|]. intros x. split; [by left|]. intros [|(j & ? & _)]; [done|lia]. }
  replace (Z.of_nat i + 1) with (Z.of_nat (Datatypes.S i)) by lia. destruct (nextTx m !! mkOutPoint h (u32 (Z.of_nat i))) as [en|] eqn:En.
  - apply (pg_next m Hg) in En as Hm. destruct Hm as (e & [He Hp] & _). rw (eload_Some _ _ _ He). cbn [mbind res_bind]. unfold Mempool.entry_hash in *. rw Hp. cbn [deref mbind res_bind].
    destruct (IH (Datatypes.S i) ({[en]} ∪ acc)) as (s & -> & Hs). exists s. split; [done|]. intros x. rw Hs. split.
    + intros [Hx|(j & Hj & Hx)]; [|right; exists j; split; [lia|done]]. apply elem_of_union in Hx as [Hx|Hx]; [|by left]. apply elem_of_singleton in Hx as ->. right. exists i. split; [lia|done].
    + intros [Hx|(j & Hj & Hx)]; [set_solver|]. destruct (decide (j = i)) as [->|Hne]; [rw En in Hx; injection Hx as <-; set_solver|right; exists j; split; [lia|done]].
  - destruct (IH (Datatypes.S i) acc) as (s & -> & Hs). exists s. split; [done|]. intros x. rw Hs. split; (intros [Hx|(j & Hj & Hx)]; [by left|right]).
    + exists j. split; [lia|done].
    + exists j. split; [|done]. assert (j <> i) by congruence. lia.
Qed.
End Pool.
