(* ===== verification/PoolSorted.v ===== *)
(** * The sorted containers of the pool

    A container holds a set when its list is sorted and has just these elements.  The
    order by time never changes; the order by fee rate depends on the sums over the
    ancestors, and the pool keeps an entry out of the container while they change. *)
From Stdlib Require Import Sorted.
From S2P Require Import Prelude Errors Wire ScriptNum Opcodes Script ScriptFacts Tx TxFacts Crypto Compress Coins Block Undo Mempool MempoolFacts PoolFacts.

Section Container.
Context (less : nat -> nat -> bool).
Abbreviation below := (fun x y => less x y = true).
(** A strict total order on [U]. *)
Record strict_on (U : gset nat) : Prop := {
  so_irrefl x : less x x = false;
  so_trans x y z : x ∈ U -> y ∈ U -> z ∈ U -> less x y = true -> less y z = true -> less x z = true;
  so_total x y : x ∈ U -> y ∈ U -> x <> y -> less x y = true \/ less y x = true }.
Definition holds (l : list nat) (S : gset nat) : Prop := StronglySorted below l /\ forall x, x ∈ l <-> x ∈ S.
Lemma so_asym U x y : strict_on U -> x ∈ U -> y ∈ U -> less x y = true -> less y x = false.
Proof. intros Hs Hx Hy Hl. destruct (less y x) eqn:E; [|done]. pose proof (so_trans U Hs x y x Hx Hy Hx Hl E) as Hxx. by rw (so_irrefl U Hs) in Hxx. Qed.

Lemma searchPrev_app x l : let '(a, b) := searchPrev less x l in l = a ++ b /\ (forall y, y ∈ a -> less y x = true) /\ match b with y :: _ => less y x = false | [] => True end.
Proof.
  induction l as [|y l IH]; cbn; [split_and!; [done|by intros ? ?%elem_of_nil|done]|]. destruct (less y x) eqn:Hy; [|split_and!; [done|by intros ? ?%elem_of_nil|done]].
  destruct (searchPrev less x l) as [a b]. destruct IH as (-> & Ha & Hb). split_and!; [done|by intros z [->|Hz]%elem_of_cons; [|apply Ha]|done].
Qed.
Lemma sorted_app l k : StronglySorted below (l ++ k) <-> StronglySorted below l /\ StronglySorted below k /\ forall x y, x ∈ l -> y ∈ k -> less x y = true.
Proof.
  induction l as [|z l IH]; cbn.
  { split; [intros Hk; split_and!; [constructor|done|by intros ? ? ?%elem_of_nil]|by intros (_ & ? & _)]. }
  split.
  - intros Hs. apply StronglySorted_inv in Hs as [Hs Hf]. apply IH in Hs as (Hl & Hk & Hlk). rw List.Forall_app in Hf. destruct Hf as [Hf1 Hf2]. split_and!; [by constructor|done|].
    intros x y [->|Hx]%elem_of_cons Hy; [|by apply Hlk]. rewrite ->Forall_forall in Hf2. by apply Hf2.
  - intros (Hs & Hk & Hlk). apply StronglySorted_inv in Hs as [Hs Hf]. constructor; [apply IH; split_and!; [done|done|]; intros x y Hx Hy; apply Hlk; [set_solver|done]|].
    apply List.Forall_app. split; [done|]. apply Forall_forall. intros y Hy. apply Hlk; [set_solver|done].
Qed.

(** The prefix is all below [x], the suffix all above; [x] itself is split off. *)
Lemma removeIfAny_ok U l S x : strict_on U -> S ⊆ U -> x ∈ U -> holds l S ->
  let '(a, b, y) := removeIfAny less x l in
  y = (if decide (x ∈ S) then Some x else None) /\ StronglySorted below (a ++ b) /\ (forall z, z ∈ a ++ b <-> z ∈ S ∖ {[x]}) /\
  (forall z, z ∈ a -> less z x = true) /\ (forall z, z ∈ b -> less x z = true).
Proof.
  intros Hs HSU Hx [Hl HS]. unfold removeIfAny. pose proof (searchPrev_app x l) as Hsp. destruct (searchPrev less x l) as [a b]. destruct Hsp as (-> & Ha & Hb). apply sorted_app in Hl as (Hla & Hlb & Hlab).
  assert (forall z, z ∈ a ++ b -> z ∈ U) as HU by (intros z Hz; by apply HSU, HS).
  assert (x ∉ a) as Hxa by (intros Hxa; specialize (Ha x Hxa); by rw (so_irrefl U Hs) in Ha).
  destruct b as [|y b].
  { assert (x ∉ S) as HxS by (rw -HS; set_solver). rw decide_False //. split_and!; [done|by rw app_nil_r|intros z; rw HS; set_solver|done|by intros ? ?%elem_of_nil]. }
  apply StronglySorted_inv in Hlb as [Hlb Hyb]. rewrite ->Forall_forall in Hyb. assert (forall z, z ∈ b -> less y z = true) as Hyb' by (intros z Hz; by apply Hyb).
  assert (y ∈ U) as HyU by (apply HU; set_solver). unfold isEqual. rw Hb. cbn [negb andb]. destruct (decide (y = x)) as [->|Hne].
  - rw Hb. cbn [negb]. assert (x ∈ S) as HxS by (apply HS; set_solver). rw decide_True //.
    assert (x ∉ b) as Hxb by (intros Hxb; specialize (Hyb' x Hxb); by rw Hb in Hyb').
    split_and!; [done|apply sorted_app; split_and!; [done|done|intros ? ? ? ?; apply Hlab; set_solver]| |done|done].
    intros z. rw elem_of_difference -HS !elem_of_app elem_of_cons. set_solver.
  - assert (less x y = true) as Hxy by (destruct (so_total U Hs x y Hx HyU) as [?|Hyx]; [done|done|congruence]). rw Hxy. cbn [negb].
    assert (forall z, z ∈ y :: b -> less x z = true) as Hxb.
    { intros z Hz. destruct (decide (z = y)) as [->|]; [done|]. apply (so_trans U Hs x y z); [done|done|apply HU; set_solver|done|apply Hyb'; set_solver]. }
    assert (x ∉ S) as HxS. { rw -HS. intros [Hxz|Hxz]%elem_of_app; [done|]. specialize (Hxb x Hxz). by rw (so_irrefl U Hs) in Hxb. }
    rw decide_False //. split_and!; [done|apply sorted_app; split_and!; [done|constructor; [done|by apply Forall_forall]|done]| |done|done]. intros z. rw HS. set_solver.
Qed.
Lemma Container_Delete_ok U l S x : strict_on U -> S ⊆ U -> x ∈ U -> holds l S ->
  exists l', Container_Delete less x l = (l', if decide (x ∈ S) then Some x else None) /\ holds l' (S ∖ {[x]}).
Proof.
  intros Hs HSU Hx Hl. pose proof (removeIfAny_ok U l S x Hs HSU Hx Hl) as Hr. unfold Container_Delete. destruct (removeIfAny less x l) as [[a b] y]. destruct Hr as (-> & Hso & Hel & _).
  exists (a ++ b). by split.
Qed.
Lemma ReplaceOrInsert_ok U l S x : strict_on U -> S ⊆ U -> x ∈ U -> holds l S -> holds (ReplaceOrInsert less x l) ({[x]} ∪ S).
Proof.
  intros Hs HSU Hx Hl. pose proof (removeIfAny_ok U l S x Hs HSU Hx Hl) as Hr. unfold ReplaceOrInsert. destruct (removeIfAny less x l) as [[a b] y]. destruct Hr as (_ & Hso & Hel & Ha & Hb).
  apply sorted_app in Hso as (Hsa & Hsb & Hab). split.
  - apply sorted_app. split_and!; [done|constructor; [done|apply Forall_forall; intros z Hz; by apply Hb]|]. intros u v Hu [->|Hv]%elem_of_cons; [by apply Ha|by apply Hab].
  - intros z. rw elem_of_app elem_of_cons. destruct (decide (z = x)) as [->|Hzx]; [set_solver|]. specialize (Hel z). rw elem_of_app in Hel. set_solver.
Qed.
Lemma delete_each_ok U k : forall l S, strict_on U -> S ⊆ U -> (forall x, x ∈ k -> x ∈ U) -> holds l S -> holds (delete_each less k l) (S ∖ list_to_set k).
Proof.
  induction k as [|x k IH]; intros l S Hs HSU Hk Hl; cbn.
  { destruct Hl as [Hl HS]. split; [done|]. intros x. rw HS. set_solver. }
  destruct (Container_Delete_ok U l S x Hs HSU (Hk x ltac:(set_solver)) Hl) as (l' & -> & Hl'). cbn [fst].
  destruct (IH l' (S ∖ {[x]}) Hs ltac:(set_solver) ltac:(set_solver) Hl') as [Hd HS]. split; [done|]. intros y. rw HS. set_solver.
Qed.
End Container.
Lemma holds_ext less less' l S : (forall x y, x ∈ S -> y ∈ S -> less' x y = less x y) -> holds less l S -> holds less' l S.
Proof.
  intros He [Hl HS]. split; [|done]. assert (forall x, x ∈ l -> x ∈ S) as Hin by (intros; by apply HS). clear HS. induction Hl as [|x l Hl IH Hf]; constructor.
  - apply IH. set_solver.
  - rewrite ->Forall_forall in Hf |- *. intros y Hy. rw He; [|apply Hin; set_solver..]. by apply Hf.
Qed.
Lemma holds_set less l S S' : (forall x, x ∈ S <-> x ∈ S') -> holds less l S -> holds less l S'.
Proof. intros HS [Hl He]. split; [done|]. intros x. by rw He. Qed.

(** ** The two orders *)
Section Orders.
Context (Sha256 : bytes -> bytes).
Abbreviation entry_hash := (entry_hash Sha256).
Abbreviation time_less := (time_less Sha256).
Abbreviation fee_less := (fee_less Sha256).

(** The elements of [U] are entries with hashes of their own. *)
Record hashed (h : eheap) (U : gset nat) : Prop := {
  hd_heap x : x ∈ U -> is_Some (h !! x);
  hd_inj x y a b : x ∈ U -> y ∈ U -> h !! x = Some a -> h !! y = Some b -> hash_num Sha256 a = hash_num Sha256 b -> x = y }.
Lemma lex_strict (f g : TxEntry -> Z) (less : TxEntry -> TxEntry -> bool) h U : hashed h U ->
  (forall a b, less a b = true <-> f a < f b \/ f a = f b /\ g a < g b) -> (forall a b, g a = g b -> hash_num Sha256 a = hash_num Sha256 b) -> strict_on (on_heap less h) U.
Proof.
  intros [Hh Hi] Hless Hg. unfold on_heap. split.
  - intros x. destruct (h !! x) as [a|]; [|done]. destruct (less a a) eqn:E; [|done]. apply Hless in E. lia.
  - intros x y z Hx Hy Hz. destruct (Hh x Hx) as [a ->], (Hh y Hy) as [b ->], (Hh z Hz) as [c ->]. rw !Hless. lia.
  - intros x y Hx Hy Hne. destruct (Hh x Hx) as [a Ha], (Hh y Hy) as [b Hb]. rw Ha Hb !Hless. assert (g a <> g b) by (intros Hgab; by apply Hne, (Hi x y a b), Hg). lia.
Qed.
Lemma time_strict h U : hashed h U -> strict_on (time_less h) U.
Proof.
  intros Hh. apply (lex_strict e_time (fun e => - hash_num Sha256 e)); [done| |intros; lia]. intros a b. unfold TxEntry_Less. destruct (Z.eqb_spec (e_time a) (e_time b)); lia.
Qed.
Lemma fee_strict h U : hashed h U -> strict_on (fee_less h) U.
Proof.
  intros Hh. apply (lex_strict (fun e => - AncestorFeeRate e) (hash_num Sha256)); [done| |done]. intros a b. unfold EntryAncestorFeeRateSort_Less.
  destruct (Z.eqb_spec (AncestorFeeRate a) (AncestorFeeRate b)); lia.
Qed.

Definition time_key (e : TxEntry) : Tx * Z := (e_Tx e, e_time e).
Definition fee_key (e : TxEntry) : Tx * Z * Z := (e_Tx e, SumTxFeeWithAncestors (stat e), SumTxSizeWitAncestors (stat e)).
Lemma key_ext {K} (key : TxEntry -> K) (less : TxEntry -> TxEntry -> bool) (h h' : eheap) (U : gset nat) :
  (forall a b a' b', key a' = key a -> key b' = key b -> less a' b' = less a b) -> (forall x, x ∈ U -> key <$> h' !! x = key <$> h !! x) ->
  forall x y, x ∈ U -> y ∈ U -> on_heap less h' x y = on_heap less h x y.
Proof.
  intros Hl Hk x y Hx Hy. unfold on_heap. pose proof (Hk x Hx) as H1. pose proof (Hk y Hy) as H2.
  destruct (h !! x), (h' !! x); try done; destruct (h !! y), (h' !! y); try done. injection H1 as H1. injection H2 as H2. by apply Hl.
Qed.
Lemma time_ext (h h' : eheap) (U : gset nat) : (forall x, x ∈ U -> time_key <$> h' !! x = time_key <$> h !! x) -> forall x y, x ∈ U -> y ∈ U -> time_less h' x y = time_less h x y.
Proof. apply key_ext. unfold TxEntry_Less, hash_num, time_key. by intros a b a' b' [= -> ->] [= -> ->]. Qed.
Lemma fee_ext (h h' : eheap) (U : gset nat) : (forall x, x ∈ U -> fee_key <$> h' !! x = fee_key <$> h !! x) -> forall x y, x ∈ U -> y ∈ U -> fee_less h' x y = fee_less h x y.
Proof. apply key_ext. unfold EntryAncestorFeeRateSort_Less, AncestorFeeRate, hash_num, fee_key. by intros a b a' b' [= -> -> ->] [= -> -> ->]. Qed.
Lemma hashed_ext (h h' : eheap) (U : gset nat) : (forall x, x ∈ U -> e_Tx <$> h' !! x = e_Tx <$> h !! x) -> hashed h U -> hashed h' U.
Proof.
  intros Hk [Hh Hi]. split.
  - intros x Hx. destruct (Hh x Hx) as [a Ha]. specialize (Hk x Hx). rw Ha in Hk. destruct (h' !! x); [by eexists|done].
  - intros x y a' b' Hx Hy Ha' Hb'. destruct (Hh x Hx) as [a Ha], (Hh y Hy) as [b Hb]. pose proof (Hk x Hx) as H1. pose proof (Hk y Hy) as H2. rw Ha Ha' in H1. rw Hb Hb' in H2.
    injection H1 as H1. injection H2 as H2. unfold hash_num. rw H1 H2. by apply (Hi x y a b).
Qed.

(** ** The containers of a pool *)
Definition hash_ok (k : bytes) : Prop := length k = 32%nat /\ bytes_ok k.
Record pool_sorted (m : TxMempool) : Prop := {
  so_hash k q : poolData m !! k = Some q -> hash_ok k;
  so_time : holds (time_less (entries m)) (timeSortData m) (pool_set m);
  so_fee : holds (fee_less (entries m)) (txByAncestorFeeRateSort m) (pool_set m) }.
Lemma hash_num_inj a b : hash_ok (entry_hash a) -> hash_ok (entry_hash b) -> hash_num Sha256 a = hash_num Sha256 b -> entry_hash a = entry_hash b.
Proof.
  intros [La Ha] [Lb Hb] Hn. apply (inj reverse), (le_val_inj _ _); [by apply Forall_reverse|by apply Forall_reverse|by rw !length_reverse La Lb|done].
Qed.
Lemma pool_hashed m : pool_graph Sha256 m -> (forall k q, poolData m !! k = Some q -> hash_ok k) -> hashed (entries m) (pool_set m).
Proof.
  intros Hg Hk. assert (forall x a, x ∈ pool_set m -> entries m !! x = Some a -> poolData m !! entry_hash a = Some x) as Hx.
  { intros x a Hx Ha. apply elem_pool_set in Hx as [k Hx]. destruct (pg_data _ m Hg k x Hx) as (a' & Ha' & <-). rw Ha in Ha'. by injection Ha' as ->. }
  split.
  - intros x [k Hxk]%elem_pool_set. destruct (pg_data _ m Hg k x Hxk) as (a & Ha & _). by eexists.
  - intros x y a b Hxu Hyu Ha Hb Hn. pose proof (Hx x a Hxu Ha) as Hpa. pose proof (Hx y b Hyu Hb) as Hpb. pose proof (hash_num_inj a b (Hk _ _ Hpa) (Hk _ _ Hpb) Hn). congruence.
Qed.
End Orders.
