(* ===== verification/PoolSteps.v ===== *)
(** * The invariant of the pool

    Adding a transaction, removing one with its descendants, expiring and trimming keep
    the links, the sums over ancestors, the totals and the sorted containers. *)
From Stdlib Require Import Sorted.
From S2P Require Import Prelude Errors Wire ScriptNum Opcodes Script ScriptFacts Tx TxFacts Crypto Compress Coins Block Undo Mempool MempoolFacts PoolFacts PoolSorted.

Section Steps.
Context (Sha256 : bytes -> bytes) (range : gset nat -> list nat) (Hrange : forall X, range X ≡ₚ elements X).
Abbreviation entry_hash := (entry_hash Sha256).
Abbreviation time_less := (time_less Sha256).
Abbreviation fee_less := (fee_less Sha256).
Abbreviation pool_graph := (pool_graph Sha256).
Abbreviation pool_sums := (pool_sums Sha256).
Abbreviation pool_sorted := (pool_sorted Sha256).
Abbreviation member := (member Sha256).

Record pool_ok (m : TxMempool) : Prop := {
  po_graph : pool_graph m;
  po_sums : pool_sums m;
  po_sorted : pool_sorted m }.

(** ** Adding *)
Lemma with_child_keys q e P A x o : time_key (with_child q e P A x o) = time_key o /\ fee_key (with_child q e P A x o) = fee_key o.
Proof. unfold with_child. by do 2 case_decide. Qed.
Lemma added_sorted m m' q e A P : pool_graph m -> new_entry e -> addable Sha256 m q e -> ancestors_of m (e_Tx e) A -> added Sha256 m q e A P m' ->
  hash_ok (entry_hash e) -> pool_sorted m -> pool_sorted m'.
Proof.
  intros Hg Hne Had HA Hm' Hh [Hkeys Htime Hfee]. pose proof (added_graph Sha256 range Hrange m m' q e A P Hg Hne Had HA Hm') as Hg'.
  destruct (added_pool_set Sha256 m m' q e A P Hg Had Hm') as [Hset Hq].
  assert (forall k x, poolData m' !! k = Some x -> hash_ok k) as Hkeys'.
  { intros k x. rw (ad_pool _ _ _ _ _ _ _ Hm'). destruct (decide (entry_hash e = k)) as [<-|]; [done|]. rw lookup_insert_ne //. apply Hkeys. }
  pose proof (pool_hashed Sha256 m' Hg' Hkeys') as Hd'. set (h1 := <[q := e]> (entries m)).
  assert (forall x, x ∈ pool_set m' -> time_key <$> h1 !! x = time_key <$> entries m' !! x) as Hk1.
  { intros x _. unfold h1. destruct (decide (x = q)) as [->|Hx]; [by rw lookup_insert_eq (ad_q _ _ _ _ _ _ _ Hm')|]. rw lookup_insert_ne // (ad_old _ _ _ _ _ _ _ Hm' x Hx).
    destruct (entries m !! x) as [o|]; [|done]. cbn. by rw (proj1 (with_child_keys q e P A x o)). }
  assert (hashed Sha256 h1 (pool_set m')) as Hd1.
  { apply (hashed_ext Sha256 (entries m') h1); [|done]. intros x Hx. specialize (Hk1 x Hx). destruct (h1 !! x), (entries m' !! x); try done. injection Hk1 as Ht _. cbn. by rw Ht. }
  split; [done|..].
  - rw (ad_times _ _ _ _ _ _ _ Hm') Hset. apply (holds_ext (time_less h1)).
    { intros x y Hx Hy. rw -Hset in Hx. rw -Hset in Hy. symmetry. by apply (time_ext Sha256 (entries m') h1 (pool_set m')). }
    apply (ReplaceOrInsert_ok _ (pool_set m')); [by apply time_strict|set_solver|set_solver|]. apply (holds_ext (time_less (entries m))); [|done].
    apply time_ext. intros x Hx. unfold h1. rw lookup_insert_ne //. by intros <-.
  - rw (ad_fees _ _ _ _ _ _ _ Hm') Hset. apply (ReplaceOrInsert_ok _ (pool_set m')); [by apply fee_strict|set_solver|set_solver|].
    apply (holds_ext (fee_less (entries m))); [|done]. apply fee_ext. intros x Hx. rw (ad_old _ _ _ _ _ _ _ Hm' x); [|by intros ->].
    destruct (entries m !! x) as [o|]; [|done]. cbn. by rw (proj2 (with_child_keys q e P A x o)).
Qed.
Lemma AddTx_ok {E} m q e A : pool_ok m -> new_entry e -> addable Sha256 m q e -> ancestors_of m (e_Tx e) A -> hash_ok (entry_hash e) ->
  exists m', AddTx_unlimited (E := E) Sha256 range m q e A = Ok m' /\ pool_ok m' /\ poolData m' = <[entry_hash e := q]> (poolData m) /\ (pool_desc Sha256 m -> pool_desc Sha256 m').
Proof.
  intros [Hg Hs Hso] Hne Had HA Hh. destruct (AddTx_heap Sha256 range Hrange (E := E) m q e A Hg Hne Had HA) as (m' & P & Hm & Hm'). exists m'. split_and!; [done| |apply (ad_pool _ _ _ _ _ _ _ Hm')|].
  - split; [by apply (added_graph Sha256 range Hrange m m' q e A P)|by apply (added_sums Sha256 m m' q e A P)|by apply (added_sorted m m' q e A P)].
  - by apply (added_desc Sha256 range Hrange m m' q e A P).
Qed.

(** ** Removing *)
Lemma cut_keys S x e e' : cut S x e e' -> time_key e' = time_key e /\ fee_key e' = fee_key e /\ e_Tx e' = e_Tx e.
Proof. intros [Htx (_ & _ & _ & _ & Ht) (_ & H2 & _ & H4) _ _]. unfold time_key, fee_key. by rw Htx Ht H2 H4. Qed.
Lemma cuts_fmap {K} (f : TxEntry -> K) S h h' : cuts S h h' -> (forall x e e', cut S x e e' -> f e' = f e) -> forall x, f <$> h' !! x = f <$> h !! x.
Proof. intros Hc Hf x. specialize (Hc x). destruct (h !! x), (h' !! x); try done. cbn. by rw (Hf _ _ _ Hc). Qed.
(** The container by fee rate may already lack entries of [S]. *)
Record nearly_sorted (m : TxMempool) (S : gset nat) : Prop := {
  ns_hash k q : poolData m !! k = Some q -> hash_ok k;
  ns_time : holds (time_less (entries m)) (timeSortData m) (pool_set m);
  ns_fee : exists F, holds (fee_less (entries m)) (txByAncestorFeeRateSort m) F /\ F ⊆ pool_set m /\ pool_set m ∖ S ⊆ F }.
Lemma sorted_nearly m S : pool_sorted m -> nearly_sorted m S.
Proof. intros [H1 H2 H3]. split; [done|done|]. exists (pool_set m). split_and!; [done|done|set_solver]. Qed.
Lemma RemoveStaged_all {E} m S : pool_graph m -> pool_sums m -> nearly_sorted m S -> removable Sha256 m S ->
  exists m', RemoveStaged (E := E) Sha256 range S false m = Ok m' /\ pool_ok m' /\ cuts S (entries m) (entries m') /\ forall k q, poolData m' !! k = Some q <-> poolData m !! k = Some q /\ q ∉ S.
Proof.
  intros Hg Hs [Hkeys Htime (F & Hfee & HF1 & HF2)] Hrem. destruct (RemoveStaged_ok Sha256 range Hrange (E := E) m S Hg Hs Hrem) as (m' & Hm & Hg' & Hs' & Hpool).
  destruct (RemoveStaged_steps Sha256 range Hrange (E := E) m S Hg Hs Hrem) as (m2 & Hm2 & Hcuts & _ & _ & _ & _ & Hfs & Hts & _). rw Hm in Hm2. injection Hm2 as <-.
  exists m'. split_and!; [done| |done|done]. split; [done|done|]. destruct (removed_pool_set Sha256 m m' S Hrem Hpool) as [Hset Hsub].
  pose proof (pool_hashed Sha256 m Hg Hkeys) as Hd. assert (hashed Sha256 (entries m') (pool_set m)) as Hd'.
  { apply (hashed_ext Sha256 (entries m)); [|done]. intros x _. apply (cuts_fmap e_Tx S); [done|]. intros y e e' Hc. apply (cut_keys S y e e' Hc). }
  assert (forall x, x ∈ range S -> x ∈ pool_set m) as Hr by (intros x Hx; apply (elem_range range Hrange) in Hx; by apply Hsub).
  assert (forall x, x ∈ list_to_set (C := gset nat) (range S) <-> x ∈ S) as HrS by (intros x; by rw elem_of_list_to_set (elem_range range Hrange)).
  split; [intros k q [Hk _]%Hpool; by apply (Hkeys k q)|..]; rw Hset ?Hts ?Hfs.
  - apply (holds_set _ _ (pool_set m ∖ list_to_set (range S))); [intros x; rw !elem_of_difference HrS; done|]. apply (delete_each_ok _ (pool_set m)); [by apply time_strict|done|done|].
    apply (holds_ext (time_less (entries m))); [|done]. apply time_ext. intros x _. apply (cuts_fmap time_key S); [done|]. intros y e e' Hc. apply (cut_keys S y e e' Hc).
  - apply (holds_set _ _ (F ∖ list_to_set (range S))); [intros x; rw !elem_of_difference HrS; set_solver|]. apply (delete_each_ok _ (pool_set m)); [by apply fee_strict|done|done|].
    apply (holds_ext (fee_less (entries m))); [|done]. apply fee_ext. intros x _. apply (cuts_fmap fee_key S); [done|]. intros y e e' Hc. apply (cut_keys S y e e' Hc).
Qed.

(** The transactions that stay when the entries of [P] are taken out. *)
Record leaves (m m' : TxMempool) (P : nat -> Prop) : Prop := {
  lv_pool k q : poolData m' !! k = Some q <-> poolData m !! k = Some q /\ ~ P q;
  lv_tx x : e_Tx <$> entries m' !! x = e_Tx <$> entries m !! x }.

(** The entries [R] and all their descendants. *)
Lemma descendants_removable m (R D : gset nat) : pool_graph m -> (forall r, r ∈ R -> r ∈ pool_set m) ->
  (forall x, x ∈ D <-> exists r, r ∈ R /\ rtc (edge ChildTx (entries m)) r x) -> removable Sha256 m D.
Proof.
  intros Hg HR HD x Hx. apply HD in Hx as (r & Hr & Hrx). destruct (proj1 (elem_pool_set m r) (HR r Hr)) as [k Hk]. destruct (pg_data _ m Hg k r Hk) as (re & Hre & Hh).
  assert (member m r re) as Hm by (split; [done|by rw Hh]). assert (exists e, member m x e) as (e & He). { apply rtc_tc in Hrx as [<-|Ht]; [by exists re|]. by destruct (tc_child_parent Sha256 m r x re Hg Hm Ht). }
  exists e. split; [done|]. intros y Hy. apply HD. exists r. split; [done|]. eapply rtc_r; [exact Hrx|]. exists e. split; [apply He|done].
Qed.
Lemma pool_set_heap m x : pool_graph m -> x ∈ pool_set m -> is_Some (entries m !! x).
Proof. intros Hg [k Hk]%elem_pool_set. destruct (pg_data _ m Hg k x Hk) as (e & He & _). by eexists. Qed.
Lemma remove_descendants {E} m (R : gset nat) l : pool_graph m -> pool_sums m -> (forall x, x ∈ l <-> x ∈ R) -> (forall r, r ∈ R -> r ∈ pool_set m) -> nearly_sorted m R ->
  exists D, calculate_all (E := E) range m l ∅ = Ok D /\ (forall x, x ∈ D <-> exists r, r ∈ R /\ rtc (edge ChildTx (entries m)) r x) /\
    exists m', RemoveStaged (E := E) Sha256 range D false m = Ok m' /\ pool_ok m' /\ leaves m m' (fun q => q ∈ D).
Proof.
  intros Hg Hs Hl HR [Hn1 Hn2 (F & HF & HF1 & HF2)]. destruct (pg_order _ m Hg) as [ord Ho]. destruct (calculate_all_ok range Hrange m (E := E) _ l (graph_children _ _ Ho)) with (d := ∅ : gset nat) as (D & HD & HDx).
  { intros x Hx. apply (pool_set_heap m x Hg), HR. by apply Hl. } { intros x y Hx. by apply elem_of_empty in Hx. }
  assert (forall x, x ∈ D <-> exists r, r ∈ R /\ rtc (edge ChildTx (entries m)) r x) as HDr.
  { intros x. rw HDx. split; [intros [Hx|(r & Hr & Hrx)]; [by apply elem_of_empty in Hx|]|intros (r & Hr & Hrx); right]; exists r; (split; [by apply Hl|done]). }
  exists D. split_and!; [done|done|]. destruct (RemoveStaged_all (E := E) m D Hg Hs) as (m' & Hm & Hok & Hc & Hp).
  - split; [done|done|]. exists F. split_and!; [done|done|]. intros x [Hx HxD]%elem_of_difference. apply HF2, elem_of_difference. split; [done|]. intros HxR. apply HxD, HDr. by exists x.
  - by apply (descendants_removable m R D).
  - exists m'. split_and!; [done|done|]. split; [done|]. intros x. apply (cuts_fmap e_Tx D); [done|]. intros y e e' Hce. apply (cut_keys D y e e' Hce).
Qed.
Lemma leaves_equiv m m' P Q : (forall q, P q <-> Q q) -> leaves m m' P -> leaves m m' Q.
Proof. intros HPQ [Hp Ht]. split; [|done]. intros k q. by rw Hp HPQ. Qed.

Lemma goes_with_roots {E} m t : pool_graph m -> exists R : gset nat,
  match poolData m !! txid Sha256 t with Some q => Ok {[q]} | None => spenders (E := E) Sha256 m (txid Sha256 t) (length (outs t)) 0 ∅ end = Ok R /\ R ⊆ pool_set m /\
  forall x, goes_with Sha256 m t x <-> exists r, r ∈ R /\ rtc (edge ChildTx (entries m)) r x.
Proof.
  intros Hg. unfold goes_with. destruct (poolData m !! txid Sha256 t) as [q|] eqn:Eq.
  - exists {[q]}. split_and!; [done|intros x ->%elem_of_singleton; apply elem_pool_set; by eexists|]. intros x. split; [intros (r & Hr & ->)|intros (r & ->%elem_of_singleton & Hr)]; exists q; set_solver.
  - destruct (spenders_ok Sha256 range Hrange (E := E) m (txid Sha256 t) (length (outs t)) Hg 0 ∅) as (s & Hsp & Hx). exists s. split; [exact Hsp|].
    assert (forall r, r ∈ s <-> spends_output Sha256 m t r) as Hr.
    { intros r. rw Hx. unfold spends_output. split; [intros [Hr|(j & Hj & Hr)]; [by apply elem_of_empty in Hr|exists j; split; [lia|done]]|]. intros (j & Hj & Hr). right. exists j. split; [lia|done]. }
    split; [|intros x; split; intros (r & H1 & H2); exists r; (split; [by apply Hr|done]) || (split; [done|by apply Hr])].
    intros r (j & _ & Hj)%Hr. apply (pg_next _ m Hg) in Hj as (e & [_ He] & _). apply elem_pool_set. by eexists.
Qed.
Lemma removeTxRecursive_ok {E} m t : pool_ok m -> exists m', removeTxRecursive (E := E) Sha256 range t m = Ok m' /\ pool_ok m' /\ leaves m m' (goes_with Sha256 m t).
Proof.
  intros [Hg Hs Hso]. unfold removeTxRecursive. destruct (goes_with_roots (E := E) m t Hg) as (R & -> & HR & Hgw). cbn [mbind res_bind].
  destruct (remove_descendants (E := E) m R (range R) Hg Hs) as (D & -> & HD & m' & Hm & Hok & Hp); [intros x; apply (elem_range range Hrange)|done|by apply sorted_nearly|].
  cbn [mbind res_bind]. exists m'. split_and!; [done|done|]. eapply leaves_equiv; [|exact Hp]. intros q. cbn beta. by rw HD Hgw.
Qed.

(** ** Expiry *)
Lemma older_ok {E} h time l U : holds (time_less h) l U -> (forall x, x ∈ U -> is_Some (h !! x)) ->
  exists s, older (E := E) h time l = Ok s /\ forall x, x ∈ s <-> x ∈ U /\ exists e, h !! x = Some e /\ e_time e < time.
Proof.
  intros [Hl HU] Hh. assert (forall x, x ∈ l -> is_Some (h !! x)) as Hh' by (intros x Hx; by apply Hh, HU). setoid_rewrite <- HU. clear HU Hh U.
  induction Hl as [|q l Hl IH Hf]; cbn [older]; [exists ∅; split; [done|]; intros x; split; [by intros ?%elem_of_empty|by intros [?%elem_of_nil _]]|].
  destruct (Hh' q ltac:(set_solver)) as [e He]. rw (eload_Some _ _ _ He). cbn [mbind res_bind]. destruct (Z.ltb_spec (e_time e) time) as [Hlt|Hge].
  - destruct IH as (s & -> & Hs); [set_solver|]. cbn [mbind res_bind]. exists ({[q]} ∪ s). split; [done|]. intros x. rw elem_of_union elem_of_singleton Hs elem_of_cons. naive_solver.
  - exists ∅. split; [done|]. intros x. split; [by intros ?%elem_of_empty|]. intros [Hx (xe & Hxe & Hlt)]. exfalso. apply elem_of_cons in Hx as [->|Hx]; [rw He in Hxe; injection Hxe as <-; lia|].
    rewrite ->Forall_forall in Hf. specialize (Hf x Hx). unfold Mempool.time_less, on_heap in Hf. rw He Hxe in Hf. unfold TxEntry_Less in Hf. destruct (Z.eqb_spec (e_time e) (e_time xe)); lia.
Qed.
(** What is older than [time], or descends from it. *)
Definition expired (m : TxMempool) (time : Z) (x : nat) : Prop :=
  exists r e, member m r e /\ e_time e < time /\ rtc (edge ChildTx (entries m)) r x.
Lemma expire_ok {E} m time : pool_ok m -> exists m' n, expire (E := E) Sha256 range time m = Ok (m', n) /\ pool_ok m' /\ leaves m m' (expired m time).
Proof.
  intros [Hg Hs Hso]. unfold expire. destruct (older_ok (E := E) (entries m) time _ _ (so_time _ m Hso) (fun x => pool_set_heap m x Hg)) as (R & -> & HR). cbn [mbind res_bind].
  destruct (remove_descendants (E := E) m R (range R) Hg Hs) as (D & -> & HD & m' & Hm & Hok & Hp); [intros x; apply (elem_range range Hrange)|intros r Hr; by apply HR|by apply sorted_nearly|].
  cbn [mbind res_bind]. rw Hm. cbn [mbind res_bind]. exists m', (size D). split_and!; [done|done|]. eapply leaves_equiv; [|exact Hp]. intros q. cbn beta. rw HD. unfold expired. split.
  - intros (r & Hr & Hrq). apply HR in Hr as [[k' Hk]%elem_pool_set (e & He & Ht)]. destruct (pg_data _ m Hg k' r Hk) as (e' & He' & Hh). rw He in He'. injection He' as <-.
    exists r, e. split_and!; [split; [done|by rw Hh]|done|done].
  - intros (r & e & [He Hr] & Ht & Hrq). exists r. split; [|done]. apply HR. split; [apply elem_pool_set; by eexists|by exists e].
Qed.

(** ** Trimming *)
(** An entry of the highest ancestor fee rate goes, with its descendants. *)
Definition evicts (sizeLimit : Z) (m m' : TxMempool) : Prop := sizeLimit < usageSize m /\ pool_ok m' /\
  exists x e, member m x e /\ (forall y ye, member m y ye -> AncestorFeeRate ye <= AncestorFeeRate e) /\ leaves m m' (rtc (edge ChildTx (entries m)) x).
Lemma load_txs_ok {E} h l : (forall x, x ∈ l -> is_Some (h !! x)) -> exists ts, load_txs (E := E) h l = Ok ts.
Proof.
  induction l as [|q l IH]; intros Hl; cbn [load_txs]; [by eexists|]. destruct (Hl q ltac:(set_solver)) as [e He]. rw (eload_Some _ _ _ He). cbn [mbind res_bind].
  destruct IH as [ts ->]; [set_solver|]. by eexists.
Qed.
Lemma pool_set_member m x : pool_graph m -> x ∈ pool_set m -> exists e, member m x e.
Proof. intros Hg [k Hk]%elem_pool_set. destruct (pg_data _ m Hg k x Hk) as (e & He & Hh). exists e. split; [done|by rw Hh]. Qed.
Lemma leaves_size m m' P k q : leaves m m' P -> poolData m !! k = Some q -> P q -> (size (poolData m') < size (poolData m))%nat.
Proof.
  intros [Hl _] Hk HP. apply map_subset_size. apply map_subset_alt. split.
  - apply map_subseteq_spec. intros i x Hi. by apply Hl in Hi as [? _].
  - exists k. split; [|by eexists]. destruct (poolData m' !! k) eqn:E; [|done]. apply Hl in E as [E Hn]. by simplify_eq.
Qed.
Lemma with_sorted_graph m f t : pool_graph m -> pool_graph (with_sorted m f t).
Proof. by intros []. Qed.
Lemma with_sorted_sums m f t : pool_sums m -> pool_sums (with_sorted m f t).
Proof. by intros []. Qed.
Lemma trim_step_ok {E} limit m ret : pool_ok m ->
  match trim_step (E := E) Sha256 range limit (m, ret) with
  | inl (m', _) => pool_ok m' /\ (size (poolData m') < size (poolData m))%nat /\ evicts limit m m'
  | inr r => r = Ok (m, ret) /\ (poolData m = ∅ \/ usageSize m <= limit)
  end.
Proof.
  intros [Hg Hs Hso]. unfold trim_step. destruct (decide (poolData m = ∅)) as [He|Hne]; [split; [done|by left]|].
  destruct (Z.leb_spec (usageSize m) limit) as [Hle|Hgt]; [split; [done|by right]|]. cbv zeta.
  pose proof (so_fee _ m Hso) as [Hsrt HF]. assert (exists x l, txByAncestorFeeRateSort m = x :: l) as (x & l & Hxl).
  { destruct (txByAncestorFeeRateSort m) as [|x l]; [|by exists x, l]. exfalso. destruct (map_choose _ Hne) as (k & q & Hk). assert (q ∈ []) as Hq by (apply HF, elem_pool_set; by eexists). by apply elem_of_nil in Hq. }
  assert (x ∈ pool_set m) as Hx by (apply HF; rw Hxl; set_solver). destruct (pool_set_member m x Hg Hx) as [e Hxe].
  pose proof (pool_hashed Sha256 m Hg (so_hash _ m Hso)) as Hd.
  destruct (Container_Delete_ok (fee_less (entries m)) (pool_set m) (txByAncestorFeeRateSort m) (pool_set m) x (fee_strict Sha256 _ _ Hd) ltac:(done) Hx (so_fee _ m Hso)) as (l' & Hdel & Hl').
  assert (Container_Min (txByAncestorFeeRateSort m) = Some x) as -> by (by rw Hxl). cbn [deref mbind res_bind]. rw Hdel decide_True //. cbn [deref mbind res_bind]. rw (eload_Some _ _ _ (proj1 Hxe)). cbn [mbind res_bind]. rw bool_decide_true //. cbn [negb].
  destruct (pg_order _ m Hg) as [ord Ho]. set (m1 := with_sorted m l' (timeSortData m)).
  destruct (remove_descendants (E := E) m1 {[x]} [x] (with_sorted_graph _ _ _ Hg) (with_sorted_sums _ _ _ Hs)) as (D & HDc & HD & m' & Hm & Hok & Hp).
  { set_solver. } { by intros r ->%elem_of_singleton. } { split; [apply (so_hash _ m Hso)|apply (so_time _ m Hso)|]. exists (pool_set m ∖ {[x]}). split_and!; [done|set_solver|done]. }
  cbn [calculate_all] in HDc. destruct (CalculateDescendants (E := E) range m1 x ∅) as [d| |]; [|done|done]. cbn [mbind res_bind] in HDc. injection HDc as ->. cbn [mbind res_bind].
  destruct (load_txs_ok (E := E) (entries m1) (range D)) as [ts ->].
  { intros y Hy. apply (elem_range range Hrange) in Hy. apply (descendants_removable m1 {[x]} D (with_sorted_graph _ _ _ Hg)) in Hy as (ye & [? _] & _); [by eexists|by intros r ->%elem_of_singleton|done]. }
  cbn [mbind res_bind]. rw Hm. cbn [mbind res_bind]. assert (leaves m m' (rtc (edge ChildTx (entries m)) x)) as Hlv.
  { apply (leaves_equiv m m' (fun q => q ∈ D)); [|by destruct Hp; split]. intros q. cbn beta. rw HD. split; [by intros (r & ->%elem_of_singleton & Hr)|]. intros Hr. exists x. split; [set_solver|done]. }
  split_and!; [done|apply (leaves_size m m' _ _ x Hlv (proj2 Hxe)); apply rtc_refl|]. split_and!; [done|done|]. exists x, e. split_and!; [done| |done]. intros y ye Hy.
  destruct (decide (y = x)) as [->|Hyx]; [by rw (member_unique Sha256 m x e ye)|]. assert (y ∈ x :: l) as Hyl by (rw -Hxl; apply HF, elem_pool_set; eexists; apply Hy).
  apply elem_of_cons in Hyl as [->|Hyl]; [done|]. rw Hxl in Hsrt. apply StronglySorted_inv in Hsrt as [_ Hf]. rewrite ->Forall_forall in Hf. specialize (Hf y Hyl). unfold Mempool.fee_less, on_heap in Hf.
  rw (proj1 Hxe) (proj1 Hy) in Hf. unfold EntryAncestorFeeRateSort_Less in Hf. destruct (Z.eqb_spec (AncestorFeeRate e) (AncestorFeeRate ye)); lia.
Qed.
Lemma trimToSize_ok {E} limit m : pool_ok m -> exists m' coins, trimToSize (E := E) Sha256 range limit m = Ok (m', coins) /\ pool_ok m' /\ (poolData m' = ∅ \/ usageSize m' <= limit) /\ rtc (evicts limit) m m'.
Proof.
  intros Hok. unfold trimToSize. apply (run_loop_ok (trim_step (E := E) Sha256 range limit) (fun s => pool_ok s.1 /\ rtc (evicts limit) m s.1) (fun s => size (poolData s.1))
    (fun r => exists m' coins, r = Ok (m', coins) /\ pool_ok m' /\ (poolData m' = ∅ \/ usageSize m' <= limit) /\ rtc (evicts limit) m m')).
  - intros [m1 ret] [H1 H2]. cbn [fst] in *. pose proof (trim_step_ok (E := E) limit m1 ret H1) as Hst. destruct (trim_step (E := E) Sha256 range limit (m1, ret)) as [[m2 ret2]|r].
    + destruct Hst as (Hok2 & Hlt & Hev). cbn [fst]. split; [|done]. split; [done|]. by eapply rtc_r.
    + destruct Hst as [-> Hend]. by exists m1, ret.
  - split; [done|]. apply rtc_refl.
  - cbn [fst]. pose proof (pow_bound (S (size (poolData m)))). lia.
Qed.
End Steps.
