(* ===== verification/PoolBlock.v ===== *)
(** * A block takes its transactions out of the pool (RemoveTxSelf)

    A transaction whose parents are no longer in the pool leaves, its descendants stay
    with one ancestor less; what conflicts with the block leaves with its descendants. *)
From S2P Require Import Prelude Errors Wire ScriptNum Opcodes Script ScriptFacts Tx TxFacts Crypto Compress Coins Block Undo Mempool MempoolFacts PoolFacts PoolSorted PoolSteps.

Section Block.
Context (Sha256 : bytes -> bytes) (range : gset nat -> list nat) (Hrange : forall X, range X ≡ₚ elements X).
Abbreviation entry_hash := (entry_hash Sha256).
Abbreviation time_less := (time_less Sha256).
Abbreviation fee_less := (fee_less Sha256).
Abbreviation member := (member Sha256).
Abbreviation child m := (edge ChildTx (entries m)).
Abbreviation parent m := (edge ParentTx (entries m)).

Lemma range_empty : range ∅ = [].
Proof. apply Permutation_nil. by rw Hrange elements_empty. Qed.
Lemma range_singleton q : range {[q]} = [q].
Proof. apply Permutation_singleton_r. by rw Hrange elements_singleton. Qed.

(** ** One ancestor less *)
Definition without (qe : TxEntry) : TxEntry -> TxEntry := UpdateAncestorState (-1) (i64 (- TxSize qe)) (i64 (- SigOpCount qe)) (i64 (- TxFee qe)).
(** Only the entries of [l] have changed, and the containers still hold [U]. *)
Record adjusted (qe : TxEntry) (U : gset nat) (l : list nat) (m m' : TxMempool) : Prop := {
  aj_rest : m' = with_sorted (with_entries m (entries m')) (txByAncestorFeeRateSort m') (timeSortData m');
  aj_in x : x ∈ l -> entries m' !! x = without qe <$> entries m !! x;
  aj_out x : x ∉ l -> entries m' !! x = entries m !! x;
  aj_hashed : hashed Sha256 (entries m') U;
  aj_time : holds (time_less (entries m')) (timeSortData m') U;
  aj_fee : holds (fee_less (entries m')) (txByAncestorFeeRateSort m') U }.
Lemma adjust_descendant_ok {E} qe U m d : hashed Sha256 (entries m) U -> d ∈ U -> holds (time_less (entries m)) (timeSortData m) U -> holds (fee_less (entries m)) (txByAncestorFeeRateSort m) U ->
  exists m', adjust_descendant (E := E) Sha256 qe m d = Ok m' /\ adjusted qe U [d] m m'.
Proof.
  intros Hd HdU Ht Hf. destruct (hd_heap _ _ _ Hd d HdU) as [e He]. unfold adjust_descendant, modify. rw (eload_Some _ _ _ He). cbn [mbind res_bind]. fold (without qe). set (h := <[d := _]> (entries m)).
  assert (forall x, x ∈ U ∖ {[d]} -> h !! x = entries m !! x) as Hh by (intros x Hx; unfold h; rw lookup_insert_ne //; set_solver).
  assert (forall x, e_Tx <$> h !! x = e_Tx <$> entries m !! x) as Htx.
  { intros x. unfold h. destruct (decide (x = d)) as [->|]; [by rw lookup_insert_eq He|by rw lookup_insert_ne]. }
  assert (hashed Sha256 h U) as Hd' by (by apply (hashed_ext Sha256 (entries m))).
  assert (forall x, x ∈ {[d]} ∪ U ∖ {[d]} <-> x ∈ U) as HU by (intros x; destruct (decide (x = d)); set_solver).
  eexists. split; [reflexivity|]. split; cbn [entries with_sorted with_entries txByAncestorFeeRateSort timeSortData]; [done| | |done|..].
  - intros x ->%list_elem_of_singleton. unfold h. by rw lookup_insert_eq He.
  - intros x Hx. unfold h. rw lookup_insert_ne //. set_solver.
  - destruct (Container_Delete_ok _ U _ U d (time_strict Sha256 _ _ Hd) ltac:(done) HdU Ht) as (l' & -> & Hl'). cbn [fst]. apply (holds_set _ _ _ _ HU), (ReplaceOrInsert_ok _ U); [by apply time_strict|set_solver|done|].
    apply (holds_ext (time_less (entries m))); [|done]. apply time_ext. intros x Hx. by rw Hh.
  - destruct (Container_Delete_ok _ U _ U d (fee_strict Sha256 _ _ Hd) ltac:(done) HdU Hf) as (l' & -> & Hl'). cbn [fst]. apply (holds_set _ _ _ _ HU), (ReplaceOrInsert_ok _ U); [by apply fee_strict|set_solver|done|].
    apply (holds_ext (fee_less (entries m))); [|done]. apply fee_ext. intros x Hx. by rw Hh.
Qed.
Lemma adjust_descendants_ok {E} qe U l : forall m, NoDup l -> hashed Sha256 (entries m) U -> (forall d, d ∈ l -> d ∈ U) -> holds (time_less (entries m)) (timeSortData m) U ->
  holds (fee_less (entries m)) (txByAncestorFeeRateSort m) U -> exists m', adjust_descendants (E := E) Sha256 qe l m = Ok m' /\ adjusted qe U l m m'.
Proof.
  induction l as [|d l IH]; intros m Hnd Hd Hl Ht Hf; cbn [adjust_descendants].
  { exists m. split; [done|]. split; [by destruct m|by intros ? ?%elem_of_nil|done|done|done|done]. }
  apply NoDup_cons in Hnd as [Hdl Hnd]. destruct (adjust_descendant_ok (E := E) qe U m d Hd (Hl d ltac:(set_solver)) Ht Hf) as (m1 & -> & [R1 I1 O1 D1 T1 F1]). cbn [mbind res_bind].
  destruct (IH m1 Hnd D1 ltac:(set_solver) T1 F1) as (m2 & -> & [R2 I2 O2 D2 T2 F2]). exists m2. split; [done|]. split; [|..|done|done|done].
  - rw R2 R1. done.
  - intros x [->|Hx]%elem_of_cons; [rw O2 // I1 //; set_solver|]. rw I2 // O1 //. intros ->%list_elem_of_singleton. done.
  - intros x Hx. rw O2; [|set_solver]. apply O1. set_solver.
Qed.

(** ** A transaction without parents in the pool leaves *)
Definition unlinked (q : nat) (qe : TxEntry) (D : gset nat) (x : nat) (o : TxEntry) : TxEntry :=
  let o := if decide (x ∈ D) then without qe o else o in if decide (x ∈ ChildTx qe) then UpdateParent q false o else o.
(** [D] are the descendants. *)
Record confirmed (m : TxMempool) (q : nat) (qe : TxEntry) (D : gset nat) (m' : TxMempool) : Prop := {
  cf_desc x : x ∈ D <-> tc (child m) q x;
  cf_pool : poolData m' = delete (entry_hash qe) (poolData m);
  cf_next : nextTx m' = foldl (fun n o => delete o n) (nextTx m) (GetAllPreviousOut (e_Tx qe));
  cf_heap x : entries m' !! x = unlinked q qe D x <$> entries m !! x;
  cf_usage : usageSize m' = i64 (usageSize m - e_usageSize qe);
  cf_total : totalTxSize m' = u64 (totalTxSize m - TxSize qe) }.

Lemma no_ancestors m t ord sz : ordered (entries m) ord -> (forall k q, poolData m !! k = Some q -> is_Some (entries m !! q)) -> Tx_EncodeSize (E := MemPoolErr) t = Ok sz ->
  (forall p, ~ parents_of m t p) -> CalculateMemPoolAncestors Sha256 range m t noLimit true = Ok ∅.
Proof.
  intros Ho Hp Hsz Hroot. pose proof (CalculateMemPoolAncestors_ok range Hrange m Sha256 ord t noLimit sz (graph_parents _ _ Ho) Hp Hsz) as Ha.
  destruct (CalculateMemPoolAncestors Sha256 range m t noLimit true) as [a| |]; [|done|done]. f_equal. apply set_eq. intros x. destruct Ha as [-> _].
  split; [by intros (p & Hpx%Hroot & _)|by intros ?%elem_of_empty].
Qed.

Section Root.
Context (m : TxMempool) (q : nat) (qe : TxEntry).
Context (Hok : pool_ok Sha256 m) (Hq : member m q qe) (Hroot : forall p, ~ parents_of m (e_Tx qe) p).
Let Hg := po_graph _ m Hok.

Lemma root_parents : ParentTx qe = ∅.
Proof. apply set_eq. intros p. rw (pg_parents _ m Hg q qe p Hq). split; [by intros Hp%Hroot|by intros ?%elem_of_empty]. Qed.
Lemma tc_irrefl x : ~ tc (child m) x x.
Proof.
  destruct (pg_order _ m Hg) as [ord Ho]. intros Ht. assert (forall y, tc (child m) x y -> ord x < ord y)%nat as Hlt; [|specialize (Hlt x Ht); lia].
  clear Ht. intros y. induction 1 as [x y Hxy|x z y Hxz _ IH]; [by apply (od_child _ _ Ho)|]. destruct (od_child _ _ Ho x z Hxz). lia.
Qed.
Lemma unlinked_size D x o : TxSize (unlinked q qe D x o) = TxSize o.
Proof. unfold unlinked. by do 2 case_decide. Qed.
Lemma unlinked_same D x o : e_Tx (unlinked q qe D x o) = e_Tx o /\ ChildTx (unlinked q qe D x o) = ChildTx o /\ ParentTx (unlinked q qe D x o) = if decide (x ∈ ChildTx qe) then ParentTx o ∖ {[q]} else ParentTx o.
Proof. unfold unlinked. by do 2 case_decide. Qed.
Lemma unlinked_ordered h' D ord : (forall x, h' !! x = unlinked q qe D x <$> entries m !! x) -> ordered (entries m) ord -> ordered h' ord.
Proof.
  intros Hh [Hc Hp Hb]. assert (forall x, is_Some (h' !! x) <-> is_Some (entries m !! x)) as Hs by (intros x; by rw Hh fmap_is_Some).
  assert (size h' = size (entries m)) as Hsz. { rw -!(size_dom (D := gset nat)). f_equal. apply set_eq. intros x. by rw !elem_of_dom. }
  split; [..|intros x; rw Hs Hsz; apply Hb]; intros x y (e & He & Hy); rw Hh in He; apply fmap_Some in He as (o & Ho & ->); destruct (unlinked_same D x o) as (_ & E1 & E2); rw Hs; [apply Hc|apply Hp]; exists o; (split; [done|]).
  - by rw E1 in Hy.
  - rw E2 in Hy. clear -Hy. by destruct (decide (x ∈ ChildTx qe)); [apply elem_of_difference in Hy as [? _]|].
Qed.
Lemma RemoveStaged_root {E} : exists m' D, RemoveStaged (E := E) Sha256 range {[q]} true m = Ok m' /\ confirmed m q qe D m' /\
  holds (time_less (entries m')) (timeSortData m') (pool_set m ∖ {[q]}) /\ holds (fee_less (entries m')) (txByAncestorFeeRateSort m') (pool_set m ∖ {[q]}).
Proof.
  destruct (po_sorted _ m Hok) as [Hkeys Htime Hfee]. destruct (pg_order _ m Hg) as [ord Ho]. pose proof (pool_hashed Sha256 m Hg Hkeys) as Hd.
  unfold RemoveStaged, updateForRemoveFromMempool. rw range_singleton. cbn [adjust_all].
  destruct (CalculateDescendants_ok range Hrange m (E := E) _ q ∅ (graph_children _ _ Ho)) as (d & -> & Hdx); [eexists; apply Hq|by intros x y ?%elem_of_empty|].
  cbn [mbind res_bind]. rw (eload_Some _ _ _ (proj1 Hq)). cbn [mbind res_bind]. set (D := d ∖ {[q]}). assert (forall x, x ∈ D <-> tc (child m) q x) as HD.
  { intros x. unfold D. rw elem_of_difference elem_of_singleton Hdx. split.
    - intros [[Hx|Hx] Hne]; [by apply elem_of_empty in Hx|]. apply rtc_tc in Hx as [<-|Hx]; done.
    - intros Hx. split; [right; by apply tc_rtc|]. intros ->. by apply (tc_irrefl q). }
  assert (q ∉ D) as HqD by (rw HD; apply tc_irrefl). assert (forall x, x ∈ D -> x ∈ pool_set m) as HDU.
  { intros x Hx%HD. destruct (tc_child_parent Sha256 m q x qe Hg Hq Hx) as [(xe & _ & Hp) _]. apply elem_pool_set. by eexists. }
  clearbody D. destruct (adjust_descendants_ok (E := E) qe (pool_set m) (range D) m) as (m1 & -> & [R1 I1 O1 D1 T1 F1]); [by apply NoDup_range|done|intros x Hx; apply (elem_range range Hrange) in Hx; by apply HDU|done|done|].
  cbn [mbind res_bind cut_children].
  assert (entries m1 !! q = Some qe) as Hq1 by (rw O1; [apply Hq|by rw (elem_range range Hrange)]). rw (eload_Some _ _ _ Hq1). cbn [mbind res_bind].
  destruct (modify_all_ok (E := E) (UpdateParent q false) (range (ChildTx qe)) (entries m1)) as (h2 & -> & Hh2); [by apply NoDup_range| |].
  { intros x Hx. apply (elem_range range Hrange) in Hx. destruct (od_child _ _ Ho q x) as [[xe Hxe] _]; [exists qe; split; [apply Hq|done]|].
    destruct (decide (x ∈ range D)) as [Hin|Hin]; [rw (I1 x Hin)|rw (O1 x Hin)]; rw Hxe; by eexists. }
  assert (forall x, h2 !! x = unlinked q qe D x <$> entries m !! x) as Hh.
  { intros x. destruct (Hh2 x) as [H1 H2]. specialize (I1 x). specialize (O1 x). rw !(elem_range range Hrange) in H1 H2 I1 O1. unfold unlinked.
    destruct (decide (x ∈ ChildTx qe)); [rw H1 //|rw H2 //]; (destruct (decide (x ∈ D)); [rw I1 //|rw O1 //]); by destruct (entries m !! x). }
  assert (q ∉ ChildTx qe) as Hqc. { intros Hc. apply (tc_irrefl q), tc_once. exists qe. split; [apply Hq|done]. }
  assert (h2 !! q = Some qe) as Hq2. { destruct (Hh2 q) as [_ ->]; [done|]. by rw (elem_range range Hrange). }
  cbn [mbind res_bind cut_parents]. set (m2 := with_entries m1 h2). change (entries m2) with h2. rw (eload_Some _ _ _ Hq2). cbn [mbind res_bind].
  pose proof (pg_size _ m Hg q qe (proj1 Hq)) as Hsz.
  assert (poolData m2 = poolData m) as Hpm by (unfold m2; rw R1; done). rw (no_ancestors m2 (e_Tx qe) ord (TxSize qe) (unlinked_ordered h2 D ord Hh Ho)) //.
  2:{ intros k x. rw Hpm. change (entries m2) with h2. rw Hh fmap_is_Some. intros Hk. destruct (pg_data _ m Hg k x Hk) as (xe & -> & _). by eexists. }
  2:{ intros p (k & Hk & Hp). rw Hpm in Hp. apply (Hroot p). by exists k. }
  unfold UpdateChildOfParents, updateAncestors. change (entries m2) with h2. rw (eload_Some _ _ _ Hq2). cbn [mbind res_bind]. rw root_parents range_empty. cbn [modify_all mbind res_bind delete_entries].
  unfold delTxentry. cbn [entries with_entries]. rw (eload_Some _ _ _ Hq2). cbn [mbind res_bind].
  assert (forall K (f : TxEntry -> K), (forall o, f (UpdateParent q false o) = f o) -> forall x, f <$> h2 !! x = f <$> entries m1 !! x) as Hkey.
  { intros K f Hf x. destruct (Hh2 x) as [H1 H2]. destruct (decide (x ∈ range (ChildTx qe))); [rw H1 //|rw H2 //]. destruct (entries m1 !! x); [|done]. cbn. by rw Hf. }
  assert (hashed Sha256 h2 (pool_set m)) as D2 by (apply (hashed_ext Sha256 (entries m1)); [intros x _; by apply Hkey|done]).
  assert (q ∈ pool_set m) as HqU by (apply elem_pool_set; eexists; apply Hq).
  eexists _, D. split; [reflexivity|]. cbn [entries txByAncestorFeeRateSort timeSortData]. split_and!.
  - split; cbn [poolData nextTx entries usageSize totalTxSize with_entries]; [done|..]; unfold m2; cbn [with_entries poolData nextTx usageSize totalTxSize]; [by rw R1|by rw R1|done|by rw R1|by rw R1].
  - change (timeSortData (with_entries m2 h2)) with (timeSortData m1). destruct (Container_Delete_ok (time_less h2) (pool_set m) (timeSortData m1) (pool_set m) q) as (l' & -> & Hl'); [by apply time_strict|done|done| |done].
    apply (holds_ext (time_less (entries m1))); [|done]. apply time_ext. intros x _. by apply Hkey.
  - change (txByAncestorFeeRateSort (with_entries m2 h2)) with (txByAncestorFeeRateSort m1). destruct (Container_Delete_ok (fee_less h2) (pool_set m) (txByAncestorFeeRateSort m1) (pool_set m) q) as (l' & -> & Hl'); [by apply fee_strict|done|done| |done].
    apply (holds_ext (fee_less (entries m1))); [|done]. apply fee_ext. intros x _. by apply Hkey.
Qed.

Section Confirmed.
Context (m' : TxMempool) (D : gset nat) (Hc : confirmed m q qe D m').
Lemma confirmed_pool k x : poolData m' !! k = Some x <-> poolData m !! k = Some x /\ x <> q.
Proof.
  rw (cf_pool _ _ _ _ _ Hc) lookup_delete_Some. split; intros [H1 H2]; [split; [done|]|split; [|done]].
  - intros ->. apply H1. destruct (pg_data _ m Hg k q H2) as (e & He & <-). rw (proj1 Hq) in He. by injection He as ->.
  - intros <-. apply H2. rw (proj2 Hq) in H1. by injection H1.
Qed.
Lemma confirmed_member x e' : member m' x e' <-> x <> q /\ exists e, member m x e /\ e' = unlinked q qe D x e.
Proof.
  unfold PoolFacts.member. rw confirmed_pool (cf_heap _ _ _ _ _ Hc) fmap_Some. split.
  - intros [(e & He & ->) [Hp Hx]]. split; [done|]. exists e. split; [|done]. split; [done|]. unfold Mempool.entry_hash in *. by rw (proj1 (unlinked_same D x e)) in Hp.
  - intros [Hx (e & [He Hp] & ->)]. split; [by exists e|]. split; [|done]. unfold Mempool.entry_hash in *. by rw (proj1 (unlinked_same D x e)).
Qed.
Lemma confirmed_parents t p : parents_of m' t p <-> parents_of m t p /\ p <> q.
Proof. unfold parents_of. setoid_rewrite confirmed_pool. naive_solver. Qed.
Lemma child_of_q x e : member m x e -> q ∈ ParentTx e <-> x ∈ ChildTx qe.
Proof. intros Hx. rw (pg_children _ m Hg q qe x Hq). split; [by exists e|]. intros (e' & Hx' & Hp). by rw (member_unique Sha256 m x e e'). Qed.
Lemma unlinked_parents x e p : member m x e -> p ∈ ParentTx (unlinked q qe D x e) <-> p ∈ ParentTx e /\ p <> q.
Proof.
  intros Hx. destruct (unlinked_same D x e) as (_ & _ & ->). destruct (decide (x ∈ ChildTx qe)) as [Hin|Hin]; [set_solver|]. split; [|by intros [? _]]. intros Hp. split; [done|].
  intros ->. by apply Hin, (child_of_q x e).
Qed.
Lemma confirmed_graph : pool_graph Sha256 m'.
Proof.
  split.
  - intros k x [Hk Hx]%confirmed_pool. destruct (pg_data _ m Hg k x Hk) as (e & He & Hh). exists (unlinked q qe D x e). rw (cf_heap _ _ _ _ _ Hc) He. split; [done|].
    unfold Mempool.entry_hash in *. by rw (proj1 (unlinked_same D x e)).
  - intros o x. rw (cf_next _ _ _ _ _ Hc) (foldl_delete range Hrange). setoid_rewrite confirmed_member. assert (o ∈ GetAllPreviousOut (e_Tx qe) -> nextTx m !! o = Some q) as Hoq by (intros Ho; apply (pg_next _ m Hg); by exists qe).
    split.
    + case_decide as Ho; [done|]. intros Hn. apply (pg_next _ m Hg) in Hn as (e & He & Hoe). exists (unlinked q qe D x e). rw (proj1 (unlinked_same D x e)). split; [|done]. split; [|by exists e].
      intros ->. by rw (member_unique Sha256 m q e qe) in Hoe.
    + intros (e' & [Hx (e & He & ->)] & Hoe). rw (proj1 (unlinked_same D x e)) in Hoe. assert (nextTx m !! o = Some x) as Hn by (apply (pg_next _ m Hg); by exists e).
      rw decide_False //. intros Ho%Hoq. congruence.
  - intros x e' p. rw confirmed_member. intros [Hx (e & He & ->)]. rw (unlinked_parents x e p He) (proj1 (unlinked_same D x e)) confirmed_parents (pg_parents _ m Hg x e p He). done.
  - intros x e' c. rw confirmed_member. intros [Hx (e & He & ->)]. destruct (unlinked_same D x e) as (_ & -> & _). rw (pg_children _ m Hg x e c He). setoid_rewrite confirmed_member. split.
    + intros (ce & Hce & Hp). exists (unlinked q qe D c ce). rw (unlinked_parents c ce x Hce). split; [|done]. split; [|by exists ce]. intros ->. rw (member_unique Sha256 m q ce qe) // root_parents in Hp. by apply elem_of_empty in Hp.
    + intros (ce' & [Hcq (ce & Hce & ->)] & Hp). apply (unlinked_parents c ce x Hce) in Hp as [Hp _]. by exists ce.
  - destruct (pg_order _ m Hg) as [ord Ho]. exists ord. apply (unlinked_ordered _ D ord); [|done]. apply (cf_heap _ _ _ _ _ Hc).
  - intros x e'. rw (cf_heap _ _ _ _ _ Hc) fmap_Some. intros (e & He & ->). rw (proj1 (unlinked_same D x e)) unlinked_size. by apply (pg_size _ m Hg x).
Qed.
Lemma confirmed_edge x e y : member m x e -> parent m' x y <-> parent m x y /\ y <> q.
Proof.
  intros Hx. pose proof (unlinked_parents x e y Hx) as Hu. unfold edge. rw (cf_heap _ _ _ _ _ Hc). rw (proj1 Hx). cbn. split.
  - intros (e' & [= <-] & Hy). apply Hu in Hy as [Hy Hne]. split; [by exists e|done].
  - intros [(e' & [= <-] & Hy) Hne]. eexists. split; [done|]. by apply Hu.
Qed.
Lemma confirmed_tc x e y : member m x e -> tc (parent m') x y <-> tc (parent m) x y /\ y <> q.
Proof.
  assert (forall y, ~ parent m q y) as Hq0. { intros z (e0 & He0 & Hz). rw (proj1 Hq) in He0. injection He0 as <-. rw root_parents in Hz. by apply elem_of_empty in Hz. }
  assert (forall x e y, member m x e -> parent m x y -> exists ye, member m y ye) as Hmem.
  { intros a ae b Ha (e0 & He0 & Hb). rw (proj1 Ha) in He0. injection He0 as <-. destruct (member_parent Sha256 m a b ae Hg Ha Hb) as (be & ? & _). by exists be. }
  intros Hx. split.
  - intros Ht. revert e Hx. induction Ht as [x y Hxy|x z y Hxz _ IH]; intros e Hx; apply (confirmed_edge x e) in Hxy || apply (confirmed_edge x e) in Hxz; try done.
    + destruct Hxy as [Hxy Hne]. split; [by apply tc_once|done].
    + destruct Hxz as [Hxz Hne]. destruct (Hmem x e z Hx Hxz) as [ze Hze]. destruct (IH ze Hze) as [Ht Hy]. split; [by eapply tc_l|done].
  - intros [Ht Hy]. revert e Hx. induction Ht as [x y Hxy|x z y Hxz Ht IH]; intros e Hx.
    + apply tc_once. by apply (confirmed_edge x e).
    + destruct (Hmem x e z Hx Hxz) as [ze Hze]. apply (tc_l _ _ z); [|by apply (IH Hy ze)]. apply (confirmed_edge x e); [done|]. split; [done|]. intros ->. inversion Ht; by eapply Hq0.
Qed.
Lemma unlinked_fields x o : let o' := unlinked q qe D x o in
  TxSize o' = TxSize o /\ TxFee o' = TxFee o /\ SigOpCount o' = SigOpCount o /\ e_usageSize o' = e_usageSize o /\ stat o' = stat (if decide (x ∈ D) then without qe o else o).
Proof. unfold unlinked. by do 2 case_decide. Qed.
Lemma confirmed_totals f B : (forall x o, f (unlinked q qe D x o) = f o) -> total f (entries m') B = total f (entries m) B.
Proof. intros Hf. apply total_ext. intros x _. rw (cf_heap _ _ _ _ _ Hc). destruct (entries m !! x); cbn; [by rw Hf|done]. Qed.
Lemma total_without f A : q ∈ A -> total f (entries m) (A ∖ {[q]}) = total f (entries m) A - f qe.
Proof.
  intros HqA. rw total_difference; [|set_solver]. assert (total f (entries m) {[q]} = f qe) as ->; [|done]. rw -(union_empty_r_L {[q]}) total_union ?total_empty; [|set_solver]. rw (proj1 Hq). cbn. lia.
Qed.
Lemma confirmed_anc x e' : (forall x e, member m x e -> anc_sums (entries m) x e) -> member m' x e' -> anc_sums (entries m') x e'.
Proof.
  intros Hanc. rw confirmed_member. intros [Hx (e & He & ->)]. destruct (Hanc x e He) as (A & HA & H1 & H2 & H3 & H4). exists (A ∖ {[q]}). split; [intros y; rw elem_of_difference elem_of_singleton HA (confirmed_tc x e y He); done|].
  cbn zeta. destruct (unlinked_fields x e) as (-> & -> & -> & _ & ->). rw !confirmed_totals; [|intros z w; apply (unlinked_fields z w)..].
  assert (x ∈ D <-> q ∈ A) as HxD. { rw (cf_desc _ _ _ _ _ Hc) HA. split; intros Ht; [by apply (tc_child_parent Sha256 m q x qe)|by apply (tc_parent_child Sha256 m x q e)]. }
  destruct (decide (x ∈ D)) as [Hin|Hin].
  - apply HxD in Hin as HqA. rw !total_without // size_difference; [|set_solver]. rw size_singleton. pose proof (subseteq_size {[q]} A ltac:(set_solver)) as HA1. rw size_singleton in HA1.
    unfold without. cbn [stat UpdateAncestorState set_stat SumTxCountWithAncestors SumTxSizeWitAncestors SumTxSigOpCountWithAncestors SumTxFeeWithAncestors]. rw H1 H2 H3 H4.
    assert (forall a b, i64 (i64 a + i64 (- b)) = i64 (a - b)) as Hi by (intros; int_lia). rw !Hi. split_and!; [|f_equal; lia..]. rw Nat2Z.inj_sub //. int_lia.
  - assert (A ∖ {[q]} = A) as -> by (apply set_eq; intros y; rw elem_of_difference elem_of_singleton; split; [by intros [? _]|]; intros Hy; split; [done|]; intros ->; by apply Hin, HxD). done.
Qed.
Lemma confirmed_pool_set : pool_set m' = pool_set m ∖ {[q]}.
Proof. apply set_eq. intros x. rw elem_of_difference elem_of_singleton !elem_pool_set. setoid_rewrite confirmed_pool. naive_solver. Qed.
Lemma confirmed_ok : holds (time_less (entries m')) (timeSortData m') (pool_set m ∖ {[q]}) -> holds (fee_less (entries m')) (txByAncestorFeeRateSort m') (pool_set m ∖ {[q]}) ->
  pool_ok Sha256 m' /\ leaves m m' (eq q).
Proof.
  intros Ht Hf. destruct (po_sums _ m Hok) as [Hanc Hus Htt]. pose proof (po_sorted _ m Hok) as Hso. assert (q ∈ pool_set m) as HqU by (apply elem_pool_set; eexists; apply Hq). split; [split|split].
  - exact confirmed_graph.
  - split; [intros x e'; by apply confirmed_anc|..]; rw confirmed_pool_set confirmed_totals; try (intros z w; apply (unlinked_fields z w)); rw total_without //.
    + rw (cf_usage _ _ _ _ _ Hc) Hus. int_lia.
    + rw (cf_total _ _ _ _ _ Hc) Htt. int_lia.
  - split; [intros k x [Hk _]%confirmed_pool; by apply (so_hash _ m Hso k x)|by rw confirmed_pool_set|by rw confirmed_pool_set].
  - intros k x. rw confirmed_pool. naive_solver.
  - intros x. rw (cf_heap _ _ _ _ _ Hc). destruct (entries m !! x) as [o|]; [|done]. cbn. by rw (proj1 (unlinked_same D x o)).
Qed.
End Confirmed.
Lemma RemoveStaged_root_ok {E} : exists m', RemoveStaged (E := E) Sha256 range {[q]} true m = Ok m' /\ pool_ok Sha256 m' /\ leaves m m' (eq q).
Proof. destruct (RemoveStaged_root (E := E)) as (m' & D & Hm & Hc & Ht & Hf). exists m'. split; [done|]. by apply (confirmed_ok m' D). Qed.
End Root.

(** ** One removal after another *)
Definition below (m : TxMempool) (C : nat -> Prop) (q : nat) : Prop := exists x, C x /\ rtc (child m) x q.
(** What lies between entries that stay, stays. *)
Definition convex (m : TxMempool) (P : nat -> Prop) : Prop := forall x z q, (exists e, member m x e) -> rtc (child m) x z -> rtc (child m) z q -> P z -> P x \/ P q.
Lemma below_convex m C : convex m (below m C).
Proof. intros x z q _ _ Hzq (y & Hy & Hyz). right. exists y. split; [done|by etrans]. Qed.

Section Kept.
Context (m m' : TxMempool) (P : nat -> Prop).
Context (Hg : pool_graph Sha256 m) (Hg' : pool_graph Sha256 m') (Hlv : leaves m m' P).
Lemma kept_tx x e : entries m !! x = Some e -> exists e', entries m' !! x = Some e' /\ e_Tx e' = e_Tx e.
Proof. intros He. pose proof (lv_tx _ _ _ Hlv x) as Ht. rw He in Ht. apply fmap_Some in Ht as (e' & He' & Ht). by exists e'. Qed.
Lemma kept_member x e : member m x e -> ~ P x -> exists e', member m' x e' /\ e_Tx e' = e_Tx e.
Proof.
  intros [He Hp] HP. destruct (kept_tx x e He) as (e' & He' & Ht). exists e'. split; [|done]. split; [done|]. unfold Mempool.entry_hash in *. rw Ht. by apply (lv_pool _ _ _ Hlv).
Qed.
Lemma member_kept x e' : member m' x e' -> ~ P x /\ exists e, member m x e /\ e_Tx e' = e_Tx e.
Proof.
  intros [He' Hp]. apply (lv_pool _ _ _ Hlv) in Hp as [Hp HP]. split; [done|]. destruct (pg_data _ m Hg _ x Hp) as (e & He & Hh). exists e.
  destruct (kept_tx x e He) as (e2 & He2 & Ht). rw He' in He2. injection He2 as <-. split; [|done]. split; [done|]. by rw Hh.
Qed.
Lemma child_member x y : (exists e, member m x e) -> child m x y -> exists e, member m y e.
Proof. intros [e He] (e0 & He0 & Hy). rw (proj1 He) in He0. injection He0 as <-. apply (pg_children _ m Hg x e y He) in Hy as (ye & Hye & _). by exists ye. Qed.
Lemma kept_child x y : (exists e, member m x e) -> ~ P x -> child m' x y <-> child m x y /\ ~ P y.
Proof.
  intros [e He] HP. destruct (kept_member x e He HP) as (e' & He' & Ht). assert (child m x y <-> y ∈ ChildTx e) as ->.
  { unfold edge. rw (proj1 He). split; [by intros (? & [= <-] & ?)|intros Hy; by exists e]. }
  assert (child m' x y <-> y ∈ ChildTx e') as ->. { unfold edge. rw (proj1 He'). split; [by intros (? & [= <-] & ?)|intros Hy; by exists e']. }
  rw (pg_children _ m' Hg' x e' y He') (pg_children _ m Hg x e y He). split.
  - intros (ye' & Hye' & Hp). destruct (member_kept y ye' Hye') as (Hy & ye & Hye & Hty). split; [|done]. exists ye. split; [done|]. apply (pg_parents _ m' Hg' y ye' x Hye') in Hp as (k & Hk & Hx). rw Hty in Hk.
    apply (pg_parents _ m Hg y ye x Hye). exists k. split; [done|]. by apply (lv_pool _ _ _ Hlv) in Hx as [? _].
  - intros [(ye & Hye & Hp) Hy]. destruct (kept_member y ye Hye Hy) as (ye' & Hye' & Hty). exists ye'. split; [done|]. apply (pg_parents _ m Hg y ye x Hye) in Hp as (k & Hk & Hx).
    apply (pg_parents _ m' Hg' y ye' x Hye'). exists k. rw Hty. split; [done|]. by apply (lv_pool _ _ _ Hlv).
Qed.
Lemma kept_rtc x q : convex m P -> (exists e, member m x e) -> ~ P x -> rtc (child m') x q <-> rtc (child m) x q /\ ~ P q.
Proof.
  intros Hcv. split.
  - intros Ht. induction Ht as [x|x z q Hxz Ht IH]; [by split|]. apply (kept_child x z) in Hxz as [Hxz Hz]; [|done|done]. destruct IH as [IH Hq]; [by apply (child_member x)|done|]. split; [by eapply rtc_l|done].
  - intros [Ht Hq]. induction Ht as [x|x z q Hxz Ht IH]; [apply rtc_refl|]. assert (~ P z) as Hz by (intros Hz; by destruct (Hcv x z q ltac:(done) (rtc_once x z Hxz) Ht Hz)).
    apply (rtc_l _ _ z); [by apply kept_child|]. apply IH; [by apply (child_member x)|done|done].
Qed.
Lemma leaves_then m2 (C C' : nat -> Prop) : convex m P -> leaves m' m2 (below m' C') -> (forall x, C x -> exists e, member m x e) -> (forall x, C' x <-> C x /\ ~ P x) ->
  (forall x q, C x -> P x -> rtc (child m) x q -> P q) -> leaves m m2 (fun q => P q \/ below m C q).
Proof.
  intros Hcv [Hp2 Ht2] HC HC' HCP. split; [|intros x; by rw Ht2 (lv_tx _ _ _ Hlv)]. intros k q. rw Hp2 (lv_pool _ _ _ Hlv). split.
  - intros [[Hk HP] Hb]. split; [done|]. intros [|(x & Hx & Hxq)]; [done|]. apply Hb. exists x. assert (~ P x) as HPx by (intros HPx; by apply HP, (HCP x)). split; [by apply HC'|]. apply kept_rtc; [done|by apply HC|done|done].
  - intros [Hk Hn]. assert (~ P q) as HP by (intros HP; apply Hn; by left). split; [done|]. intros (x & Hx & Hxq). apply HC' in Hx as [Hx HPx]. apply Hn. right. exists x. split; [done|]. by apply kept_rtc in Hxq as [? _]; [|done|apply HC|].
Qed.
End Kept.

(** ** Conflicts with a transaction *)
Definition conflicting (m : TxMempool) (h : bytes) (l : list OutPoint) (x : nat) : Prop :=
  exists e o, member m x e /\ o ∈ l /\ o ∈ GetAllPreviousOut (e_Tx e) /\ entry_hash e <> h.
Definition conflicts (m : TxMempool) (t : Tx) : nat -> Prop := conflicting m (txid Sha256 t) (GetAllPreviousOut t).
Lemma conflicting_kept m m' P h l : pool_graph Sha256 m -> leaves m m' P -> forall x, conflicting m' h l x <-> conflicting m h l x /\ ~ P x.
Proof.
  intros Hg Hlv x. split.
  - intros (e' & o & He' & Ho & Hoe & Hh). destruct (member_kept m m' P Hg Hlv x e' He') as (HP & e & He & Ht). split; [|done]. exists e, o. unfold Mempool.entry_hash in *. rw -Ht. by split_and!.
  - intros [(e & o & He & Ho & Hoe & Hh) HP]. destruct (kept_member m m' P Hlv x e He HP) as (e' & He' & Ht). exists e', o. unfold Mempool.entry_hash in *. rw Ht. by split_and!.
Qed.
Lemma removeConflicts_loop_ok {E} h l : forall m, pool_ok Sha256 m ->
  exists m', removeConflicts_loop (E := E) Sha256 range h l m = Ok m' /\ pool_ok Sha256 m' /\ leaves m m' (below m (conflicting m h l)).
Proof.
  induction l as [|o l IH]; intros m Hok; cbn [removeConflicts_loop].
  { exists m. split_and!; [done|done|]. split; [|done]. intros k q. split; [|by intros [? _]]. intros Hk. split; [done|]. by intros (x & (e & o & _ & ?%elem_of_nil & _) & _). }
  pose proof (po_graph _ m Hok) as Hg. destruct (nextTx m !! o) as [q|] eqn:Eo.
  2:{ destruct (IH m Hok) as (m' & Hm & Hok' & Hlv). exists m'. split_and!; [done|done|]. eapply leaves_equiv; [|exact Hlv]. intros x. unfold below, conflicting. split; intros (y & (e & o' & He & Ho & Hrest) & Hyx); exists y; (split; [exists e, o'|done]).
      - split_and!; [done|by apply elem_of_cons; right|apply Hrest|apply Hrest].
      - split_and!; [done| |apply Hrest|apply Hrest]. apply elem_of_cons in Ho as [->|Ho]; [|done]. assert (nextTx m !! o = Some y) as Hn by (apply (pg_next _ m Hg); exists e; split; [done|apply Hrest]). congruence. }
  apply (pg_next _ m Hg) in Eo as (e & He & Hoe). rw (eload_Some _ _ _ (proj1 He)). cbn [mbind res_bind].
  assert (forall x, conflicting m h (o :: l) x <-> conflicting m h l x \/ x = q /\ entry_hash e <> h) as Hcons.
  { intros x. split.
    - intros (xe & o' & Hxe & Ho & Hox & Hh). apply elem_of_cons in Ho as [->|Ho]; [|left; by exists xe, o']. right. assert (nextTx m !! o = Some x) as Hx by (apply (pg_next _ m Hg); by exists xe).
      assert (nextTx m !! o = Some q) as Hy by (apply (pg_next _ m Hg); by exists e). assert (x = q) as -> by congruence. split; [done|]. by rw (member_unique Sha256 m q e xe).
    - intros [(xe & o' & Hxe & Ho & Hox & Hh)|[-> Hh]]; [exists xe, o'|exists e, o]; (split_and!; [done|apply elem_of_cons; auto|done|done]). }
  destruct (decide (entry_hash e = h)) as [Heq|Hne].
  - rw bool_decide_true //. cbn [mbind res_bind]. destruct (IH m Hok) as (m' & Hm & Hok' & Hlv). exists m'. split_and!; [done|done|]. eapply leaves_equiv; [|exact Hlv]. intros x. unfold below. setoid_rewrite Hcons. naive_solver.
  - rw bool_decide_false //. destruct (removeTxRecursive_ok Sha256 range Hrange (E := E) m (e_Tx e) Hok) as (m1 & -> & Hok1 & Hlv1). cbn [mbind res_bind].
    assert (leaves m m1 (below m (eq q))) as Hlv1'.
    { eapply leaves_equiv; [|exact Hlv1]. intros x. unfold goes_with, below. change (txid Sha256 (e_Tx e)) with (entry_hash e). rw (proj2 He). naive_solver. }
    destruct (IH m1 Hok1) as (m2 & Hm2 & Hok2 & Hlv2). exists m2. split_and!; [done|done|]. apply (leaves_then m m1 _ Hg (po_graph _ m1 Hok1) Hlv1' m2 (conflicting m h l)) in Hlv2.
    + eapply leaves_equiv; [|exact Hlv2]. intros x. cbn beta. unfold below. setoid_rewrite Hcons. naive_solver.
    + apply below_convex.
    + intros x (xe & ? & ? & _). by exists xe.
    + by apply conflicting_kept.
    + intros x z _ (y & Hy & Hyx) Hxz. exists y. split; [done|by etrans].
Qed.

(** ** The transactions of a block *)
(** The parents of a transaction that are in the pool come before it in the block. *)
Fixpoint in_order (m : TxMempool) (done : list Tx) (txs : list Tx) : Prop :=
  match txs with
  | [] => True
  | t :: txs => (forall q e k p, member m q e -> entry_hash e = txid Sha256 t -> k ∈ PrevoutHashs (e_Tx e) -> poolData m !! k = Some p -> k ∈ map (txid Sha256) done) /\ in_order m (done ++ [t]) txs
  end.
Definition in_block (txs : list Tx) (e : TxEntry) : Prop := entry_hash e ∈ map (txid Sha256) txs.
(** An output that the block spends twice is not spent in the pool by the block's own. *)
Definition spends_once (m : TxMempool) (txs : list Tx) : Prop := forall t q e, t ∈ txs -> member m q e -> in_block txs e -> ~ conflicts m t q.
Definition conflicts_block (m : TxMempool) (txs : list Tx) (x : nat) : Prop := exists t, t ∈ txs /\ conflicts m t x.
Definition of_block (m : TxMempool) (txs : list Tx) (q : nat) : Prop := exists e, member m q e /\ in_block txs e.
Definition gone (m : TxMempool) (txs : list Tx) (q : nat) : Prop := of_block m txs q \/ below m (conflicts_block m txs) q.

Section Txs.
Context (m : TxMempool) (Hg : pool_graph Sha256 m).
(** The parents of the block's own are the block's own. *)
Definition upward (txs : list Tx) : Prop := forall x y xe ye, member m x xe -> member m y ye -> x ∈ ParentTx ye -> in_block txs ye -> in_block txs xe.
Lemma in_block_app a b e : in_block (a ++ b) e <-> in_block a e \/ in_block b e.
Proof. unfold in_block. by rw map_app elem_of_app. Qed.
Lemma upward_step pre t txs : upward pre -> in_order m pre (t :: txs) -> upward (pre ++ [t]).
Proof.
  intros Hup [Ht _] x y xe ye Hx Hy Hp. rw !in_block_app. intros [Hb|Hb]; [left; by apply (Hup x y xe ye)|]. left. apply list_elem_of_singleton in Hb.
  apply (pg_parents _ m Hg y ye x Hy) in Hp as (k & Hk & Hkx). destruct (pg_data _ m Hg k x Hkx) as (xe' & Hxe' & Hh). rw (proj1 Hx) in Hxe'. injection Hxe' as <-.
  unfold in_block. rw Hh. by apply (Ht y ye k x).
Qed.
Lemma upward_rtc pre x z : upward pre -> (exists e, member m x e) -> rtc (child m) x z -> of_block m pre z -> of_block m pre x.
Proof.
  intros Hup Hx Ht. induction Ht as [x|x y z Hxy Ht IH]; [done|]. intros Hz. destruct (child_member m Hg x y Hx Hxy) as [ye Hye]. destruct (IH (ex_intro _ ye Hye) Hz) as (ye' & Hye' & Hb).
  destruct Hx as [xe Hxe]. exists xe. split; [done|]. destruct Hxy as (xe' & Hxe' & Hy). rw (proj1 Hxe) in Hxe'. injection Hxe' as <-.
  apply (pg_children _ m Hg x xe y Hxe) in Hy as (ye2 & Hye2 & Hp). rw (member_unique Sha256 m y ye' ye2) // in Hb. by apply (Hup x y xe ye2).
Qed.
Lemma gone_convex pre C : upward pre -> convex m (fun q => of_block m pre q \/ below m C q).
Proof.
  intros Hup x z q Hm Hxz Hzq [Hz|(y & Hy & Hyz)].
  - left. left. by apply (upward_rtc pre x z).
  - right. right. exists y. split; [done|by etrans].
Qed.

Lemma block_tx_ok {E} pre t txs all mi : pre ++ t :: txs = all -> spends_once m all -> upward pre -> in_order m pre (t :: txs) -> pool_ok Sha256 mi -> leaves m mi (gone m pre) ->
  exists m', (m1 ← match poolData mi !! txid Sha256 t with Some q => RemoveStaged (E := E) Sha256 range {[q]} true mi | None => Ok mi end; removeConflicts (E := E) Sha256 range t m1) = Ok m' /\
    pool_ok Sha256 m' /\ leaves m m' (gone m (pre ++ [t])).
Proof.
  intros Hall Hso Hup Hio Hok Hlv. set (Pa := fun q => of_block m (pre ++ [t]) q \/ below m (conflicts_block m pre) q).
  assert (forall q, Pa q <-> gone m pre q \/ of_block m [t] q) as HPa. { intros q. unfold Pa, gone, of_block. setoid_rewrite in_block_app. naive_solver. }
  assert (exists ma, match poolData mi !! txid Sha256 t with Some q => RemoveStaged (E := E) Sha256 range {[q]} true mi | None => Ok mi end = Ok ma /\ pool_ok Sha256 ma /\ leaves m ma Pa) as (ma & -> & Hoka & Hlva).
  { destruct (poolData mi !! txid Sha256 t) as [q|] eqn:Eq.
    - destruct (pg_data _ mi (po_graph _ mi Hok) _ q Eq) as (qe & Hqe & Hh). assert (member mi q qe) as Hq by (split; [done|by rw Hh]).
      destruct (member_kept m mi _ Hg Hlv q qe Hq) as (Hng & qo & Hqo & Htx). assert (entry_hash qo = txid Sha256 t) as Hqh by (unfold Mempool.entry_hash in *; by rw -Htx).
      destruct (fun Hr => RemoveStaged_root_ok mi q qe Hok Hq Hr (E := E)) as (ma & Hma & Hoka & Hlva).
      { intros p (k & Hk & Hp). rw Htx in Hk. apply (lv_pool _ _ _ Hlv) in Hp as [Hp Hnp]. apply Hnp. left. destruct (pg_data _ m Hg k p Hp) as (pe & Hpe & Hhp). exists pe. split; [split; [done|by rw Hhp]|].
        unfold in_block. rw Hhp. by apply (proj1 Hio q qo k p Hqo). }
      exists ma. split_and!; [done|done|]. split; [|intros x; by rw (lv_tx _ _ _ Hlva) (lv_tx _ _ _ Hlv)]. intros k x. rw (lv_pool _ _ _ Hlva) (lv_pool _ _ _ Hlv) HPa.
      assert (q = x <-> of_block m [t] x) as Hqx; [|naive_solver]. split.
      + intros <-. exists qo. split; [done|]. by apply list_elem_of_singleton.
      + intros (xe & Hxe & Hb%list_elem_of_singleton). apply (member_inj Sha256 m q x qo xe Hqo Hxe). congruence.
    - exists mi. split_and!; [done|done|]. split; [|apply (lv_tx _ _ _ Hlv)]. intros k x. rw HPa. split; [|intros [Hk Hn]; apply (lv_pool _ _ _ Hlv); split; [done|]; intros ?; apply Hn; by left].
      intros [Hk Hn]%(lv_pool _ _ _ Hlv). split; [done|]. intros [|(e & He & Hb%list_elem_of_singleton)]; [done|].
      assert (poolData mi !! entry_hash e = Some x) as Hx by (apply (lv_pool _ _ _ Hlv); split; [apply He|done]). congruence. }
  cbn [mbind res_bind]. destruct (removeConflicts_loop_ok (E := E) (txid Sha256 t) (GetAllPreviousOut t) ma Hoka) as (mb & Hmb & Hokb & Hlvb). exists mb. split_and!; [done|done|].
  apply (leaves_then m ma Pa Hg (po_graph _ ma Hoka) Hlva mb (conflicts m t)) in Hlvb.
  - eapply leaves_equiv; [|exact Hlvb]. intros q. unfold Pa, gone, below, conflicts_block. setoid_rewrite elem_of_app. setoid_rewrite list_elem_of_singleton. naive_solver.
  - apply (gone_convex (pre ++ [t])). by apply (upward_step pre t txs).
  - intros x (e & _ & He & _). by exists e.
  - by apply conflicting_kept.
  - intros x q Hc [(e & He & Hb)|(y & Hy & Hyx)] Hxq; [|right; exists y; split; [done|by etrans]]. destruct (Hso t x e); [subst all; set_solver|done| |done].
    subst all. replace (pre ++ t :: txs) with ((pre ++ [t]) ++ txs) by (by rw -app_assoc). apply in_block_app. by left.
Qed.
Lemma remove_block_txs_ok {E} all txs : forall pre mi, pre ++ txs = all -> spends_once m all -> upward pre -> in_order m pre txs -> pool_ok Sha256 mi -> leaves m mi (gone m pre) ->
  exists m', remove_block_txs (E := E) Sha256 range txs mi = Ok m' /\ pool_ok Sha256 m' /\ leaves m m' (gone m all).
Proof.
  induction txs as [|t txs IH]; intros pre mi Hall Hso Hup Hio Hok Hlv; cbn [remove_block_txs]; [exists mi; split_and!; [done|done|]; by rw -Hall app_nil_r|].
  destruct (block_tx_ok (E := E) pre t txs all mi Hall Hso Hup Hio Hok Hlv) as (m1 & Hm1 & Hok1 & Hlv1). pose proof (upward_step pre t txs Hup Hio) as Hup1.
  destruct (match poolData mi !! txid Sha256 t with Some q => _ | None => Ok mi end) as [ma| |]; [|done|done]. cbn [mbind res_bind] in *. rw Hm1. cbn [mbind res_bind].
  apply (IH (pre ++ [t])); [by rw -app_assoc|done|done|apply Hio|done|done].
Qed.
End Txs.
Lemma RemoveTxSelf_ok {E} now txs m : pool_ok Sha256 m -> in_order m [] txs -> spends_once m txs ->
  exists m', RemoveTxSelf (E := E) Sha256 range now txs m = Ok m' /\ pool_ok Sha256 m' /\ leaves m m' (gone m txs).
Proof.
  intros Hok Hio Hso. destruct (remove_block_txs_ok m (po_graph _ m Hok) (E := E) txs txs [] m) as (m' & Hm & [Hg Hs Ho] & Hlv); [done|done|by intros ? ? ? ? _ _ _ ?%elem_of_nil|done|done| |].
  { split; [|done]. intros k q. split; [|by intros [? _]]. intros Hk. split; [done|]. intros [(e & _ & Hb)|(x & (t & Ht & _) & _)]; [by apply elem_of_nil in Hb|by apply elem_of_nil in Ht]. }
  unfold RemoveTxSelf. rw Hm. cbn [mbind res_bind]. eexists. split_and!; [reflexivity| |].
  - split; [by destruct Hg|by destruct Hs|by destruct Ho].
  - by destruct Hlv.
Qed.
End Block.
