(* ===== verification/MempoolTheorems.v ===== *)
(** * Theorems on the memory pool

    The definitions are in Mempool.v; the closures in MempoolFacts.v, the links and sums
    in PoolFacts.v, the containers in PoolSorted.v, the operations in PoolSteps.v and
    PoolBlock.v. *)
From S2P Require Import Prelude Errors Wire ScriptNum Opcodes Script ScriptFacts Tx TxFacts Crypto Compress Coins Block Undo Mempool MempoolFacts PoolFacts PoolSorted PoolSteps PoolBlock.

(** ** A small pool *)
(** Transaction 2 spends an output of transaction 1, transaction 3 one of transaction 2. *)
Definition pool_hash (i : Z) : bytes := repeat i 32.
Definition pool_tx (i prev : Z) : Tx :=
  mkTx (pool_hash i) 0 1 [mkTxIn (mkOutPoint (pool_hash prev) 0) (mkScript [] [] false) 0xffffffff] [mkTxOut 1000 (Some (mkScript [] [] false))].
Definition pool_entry (i prev fee : Z) : TxEntry :=
  match NewTxentry (E := unit) 200 (pool_tx i prev) fee (10 * i) 5 NewLockPoints 1 false with Ok e => e | _ => mkEntry (pool_tx i prev) 0 0 0 0 0 0 ∅ ∅ NewLockPoints false (mkStat 0 0 0 0 0 0 0) end.
Definition pool_add (m : TxMempool) (q : nat) (e : TxEntry) : TxMempool :=
  match CalculateMemPoolAncestors (fun b => b) elements m (e_Tx e) noLimit true with
  | Ok a => match AddTx_unlimited (E := MemPoolErr) (fun b => b) elements m q e a with Ok m => m | _ => m end
  | _ => m
  end.
Definition pool1 : TxMempool := pool_add NewTxMempool 1 (pool_entry 1 9 100).
Definition pool2 : TxMempool := pool_add pool1 2 (pool_entry 2 1 500).
Definition pool3 : TxMempool := pool_add pool2 3 (pool_entry 3 2 300).
(** Transaction 5 stands alone. *)
Definition pool4 : TxMempool := pool_add pool3 5 (pool_entry 5 8 50).
Example pool3_sums : (fun e => (SumTxCountWithAncestors (stat e), SumTxFeeWithAncestors (stat e), SumTxCountWithDescendants (stat e))) <$> entries pool3 !! 2%nat = Some (2, 600, 2) /\ usageSize pool3 = 780.
Proof. vm_compute. done. Qed.

Lemma pool_elements X : elements X ≡ₚ elements (C := gset nat) X.
Proof. done. Qed.
Definition addable_b (Sha256 : bytes -> bytes) (m : TxMempool) (q : nat) (e : TxEntry) : bool :=
  bool_decide (entries m !! q = None) && bool_decide (poolData m !! entry_hash Sha256 e = None) &&
  forallb (fun o => bool_decide (nextTx m !! o = None)) (GetAllPreviousOut (e_Tx e)) && bool_decide (entry_hash Sha256 e ∉ PrevoutHashs (e_Tx e)) &&
  forallb (fun p => bool_decide (entry_hash Sha256 e ∉ PrevoutHashs (e_Tx p.2))) (map_to_list (entries m)).
Lemma addable_compute Sha256 m q e : addable_b Sha256 m q e = true -> addable Sha256 m q e.
Proof.
  unfold addable_b. rw !andb_true_iff !bool_decide_eq_true !forallb_forall. intros [[[[H1 H2] H3] H4] H5]. split; [done|done| |done|].
  - intros o Ho. specialize (H3 o). rw bool_decide_eq_true in H3. by apply H3, list_elem_of_In.
  - intros x xe [Hx _]. specialize (H5 (x, xe)). rw bool_decide_eq_true in H5. by apply H5, list_elem_of_In, elem_of_map_to_list.
Qed.

Section Invariant.
Context (Sha256 : bytes -> bytes) (range : gset nat -> list nat).

(** What happens to a pool: a transaction is accepted at a new address, one is removed,
    old ones expire, the pool is cut to a size, a block is connected.  Of connected blocks
    only those are steps here that list a transaction after those of its parents that are
    in the pool ([in_order]) and that spend no output of a pool transaction of the block
    twice ([spends_once], which every valid block meets).  RemoveTxSelf has no such guard:
    what it does with a block in another order is [child_first_block] below. *)
Inductive pool_step (m m' : TxMempool) : Prop :=
| step_add q e lim a :
    new_entry e -> addable Sha256 m q e -> hash_ok (entry_hash Sha256 e) ->
    CalculateMemPoolAncestors Sha256 range m (e_Tx e) lim true = Ok a -> AddTx_unlimited (E := MemPoolErr) Sha256 range m q e a = Ok m' -> pool_step m m'
| step_remove t : removeTxRecursive (E := MemPoolErr) Sha256 range t m = Ok m' -> pool_step m m'
| step_expire time n : expire (E := MemPoolErr) Sha256 range time m = Ok (m', n) -> pool_step m m'
| step_trim limit coins : trimToSize (E := MemPoolErr) Sha256 range limit m = Ok (m', coins) -> pool_step m m'
| step_ordered_block now txs : in_order Sha256 m [] txs -> spends_once Sha256 m txs -> RemoveTxSelf (E := MemPoolErr) Sha256 range now txs m = Ok m' -> pool_step m m'.

Lemma new_pool_ok : pool_ok Sha256 NewTxMempool.
Proof.
  split.
  - split; cbn.
    + intros k q. by rw lookup_empty.
    + intros o q. rw lookup_empty. split; [done|]. intros (e & [He _] & _). cbn in He. by rw lookup_empty in He.
    + intros q e p [He _]. cbn in He. by rw lookup_empty in He.
    + intros q e p [He _]. cbn in He. by rw lookup_empty in He.
    + exists (fun _ => 0%nat). split; [intros x y (e & He & _)|intros x y (e & He & _)|intros x [e He]]; by rw lookup_empty in He.
    + intros x e He. by rw lookup_empty in He.
  - split; [intros q e [He _]; cbn in He; by rw lookup_empty in He|done|done].
  - split; [intros k q; cbn; by rw lookup_empty|..]; (split; [constructor|intros x; split; [by intros ?%elem_of_nil|]]); intros [k Hk]%elem_pool_set; cbn in Hk; by rw lookup_empty in Hk.
Qed.
Context (Hrange : forall X, range X ≡ₚ elements X).
Lemma ancestors_found m t lim a sz : pool_graph Sha256 m -> Tx_EncodeSize (E := MemPoolErr) t = Ok sz -> CalculateMemPoolAncestors Sha256 range m t lim true = Ok a -> ancestors_of m t a.
Proof.
  intros Hg Hsz Ha. destruct (pg_order _ m Hg) as [ord Ho].
  pose proof (CalculateMemPoolAncestors_ok range Hrange m Sha256 ord t lim sz (graph_parents _ _ Ho)) as Hanc. rw Ha in Hanc. destruct Hanc as [Hx _]; [|done|exact Hx].
  intros k q Hk. destruct (pg_data _ m Hg k q Hk) as (e & He & _). by eexists.
Qed.
(** The ancestors of a transaction of size [n], found and within the limits. *)
Record limited (m : TxMempool) (t : Tx) (n : Z) (lim : Limits) (a : gset nat) : Prop := {
  li_ancestors : ancestors_of m t a;
  li_count : a <> ∅ -> limitAncestorCount lim < 2 ^ 64 - 1 -> Z.of_nat (size a) + 1 <= limitAncestorCount lim;
  li_size : a <> ∅ -> limitAncestorSize lim < 2 ^ 63 -> n + total TxSize (entries m) a <= limitAncestorSize lim;
  li_room x e : x ∈ a -> entries m !! x = Some e -> descendants_room lim e }.
Lemma ancestors_limited m t n lim : pool_graph Sha256 m -> Tx_EncodeSize (E := MemPoolErr) t = Ok n ->
  match CalculateMemPoolAncestors Sha256 range m t lim true with Ok a => limited m t n lim a | Err _ => lim <> noLimit | Panic => False end.
Proof.
  intros Hg Hn. destruct (pg_order _ m Hg) as [ord Ho].
  assert (forall k x, poolData m !! k = Some x -> is_Some (entries m !! x)) as Hp. { intros k x Hk. destruct (pg_data _ m Hg k x Hk) as (e & He & _). by eexists. }
  pose proof (CalculateMemPoolAncestors_ok range Hrange m Sha256 ord t lim n (graph_parents _ _ Ho) Hp Hn) as Hb. destruct (CalculateMemPoolAncestors Sha256 range m t lim true) as [a| |]; [|done|done].
  destruct Hb as (H1 & [H2 H3 H4]). split; [done|auto| |done]. intros Hne Hl. apply H3; [done| |done]. intros x e He. exact (EncodeSize_range _ _ (pg_size _ m Hg x e He)).
Qed.
Lemma pool_step_ok m m' : pool_ok Sha256 m -> pool_step m m' -> pool_ok Sha256 m'.
Proof.
  intros Hok [q e lim a Hne Had Hh Ha Hm|t Hm|time n Hm|limit coins Hm|now txs Hio Hso Hm].
  - destruct (AddTx_ok Sha256 range Hrange (E := MemPoolErr) m q e a Hok Hne Had) as (m2 & Hm2 & Hok2 & _); [|done|congruence]. apply (ancestors_found m (e_Tx e) lim a (TxSize e) (po_graph _ m Hok)); [by destruct Hne|done].
  - destruct (removeTxRecursive_ok Sha256 range Hrange (E := MemPoolErr) m t Hok) as (m2 & Hm2 & Hok2 & _). congruence.
  - destruct (expire_ok Sha256 range Hrange (E := MemPoolErr) m time Hok) as (m2 & n2 & Hm2 & Hok2 & _). congruence.
  - destruct (trimToSize_ok Sha256 range Hrange (E := MemPoolErr) limit m Hok) as (m2 & n2 & Hm2 & Hok2 & _). congruence.
  - destruct (RemoveTxSelf_ok Sha256 range Hrange (E := MemPoolErr) now txs m Hok Hio Hso) as (m2 & Hm2 & Hok2 & _). congruence.
Qed.
Lemma pool_steps_ok m : rtc pool_step NewTxMempool m -> pool_ok Sha256 m.
Proof. intros Hs. pose proof new_pool_ok as Hok. remember NewTxMempool as m0 eqn:E. clear E. induction Hs as [|m1 m2 m3 Hst _ IH]; [done|]. by apply IH, (pool_step_ok m1). Qed.
End Invariant.

Lemma pool_add_step m q e : new_entry e -> addable_b (fun b => b) m q e = true -> hash_ok (entry_hash (fun b => b) e) ->
  match CalculateMemPoolAncestors (fun b => b) elements m (e_Tx e) noLimit true with
  | Ok a => match AddTx_unlimited (E := MemPoolErr) (fun b => b) elements m q e a with Ok _ => true | _ => false end
  | _ => false
  end = true -> pool_step (fun b => b) elements m (pool_add m q e).
Proof.
  intros Hne Hadd Hh Ha. unfold pool_add. destruct (CalculateMemPoolAncestors (fun b => b) elements m (e_Tx e) noLimit true) as [a| |] eqn:Ea; [|done|done].
  destruct (AddTx_unlimited (E := MemPoolErr) (fun b => b) elements m q e a) as [m'| |] eqn:Em; [|done|done]. exact (step_add _ _ m m' q e noLimit a Hne (addable_compute _ m q e Hadd) Hh Ea Em).
Qed.
Lemma small_entry i prev fee : 0 < i < 256 -> 0 <= fee < 2 ^ 40 -> new_entry (pool_entry i prev fee) /\ hash_ok (entry_hash (fun b => b) (pool_entry i prev fee)).
Proof.
  intros Hi Hf. assert (txid (fun b => b) (pool_tx i prev) = pool_hash i) as Hh. { unfold txid, GetHash. cbn. destruct i; [lia|done|lia]. }
  split; [split; [done|done|done| |done]|]; [change (is_i 64 fee /\ is_i 64 60 /\ is_i 64 1); unfold is_i; lia|]. change (hash_ok (txid (fun b => b) (pool_tx i prev))). rw Hh. split; [done|]. repeat (constructor; [unfold is_byte; lia|]). constructor.
Qed.
Lemma small_pool : rtc (pool_step (fun b => b) elements) NewTxMempool pool2 /\ rtc (pool_step (fun b => b) elements) NewTxMempool pool3 /\ rtc (pool_step (fun b => b) elements) NewTxMempool pool4.
Proof.
  assert (pool_step (fun b => b) elements NewTxMempool pool1 /\ pool_step (fun b => b) elements pool1 pool2 /\ pool_step (fun b => b) elements pool2 pool3 /\ pool_step (fun b => b) elements pool3 pool4) as (H1 & H2 & H3 & H4)
    by (split_and!; (apply pool_add_step; [by apply small_entry|by vm_compute|by apply small_entry|by vm_compute])).
  assert (rtc (pool_step (fun b => b) elements) NewTxMempool pool2) as R2 by (by apply (rtc_l _ _ pool1), rtc_once).
  assert (rtc (pool_step (fun b => b) elements) NewTxMempool pool3) as R3 by (by apply (rtc_r _ pool2)). split_and!; [done|done|by apply (rtc_r _ pool3)].
Qed.
Lemma small_pool_ok : pool_ok (fun b => b) pool4.
Proof. exact (pool_steps_ok _ elements pool_elements pool4 (proj2 (proj2 small_pool))). Qed.

Definition in_pool (m : TxMempool) (P : TxEntry -> bool) : bool := forallb (fun p => P p.2) (map_to_list (entries m)).
Lemma in_pool_member Sha256 m P q e : in_pool m P = true -> member Sha256 m q e -> P e = true.
Proof. unfold in_pool. rw forallb_forall. intros Hp [He _]. by apply (Hp (q, e)), list_elem_of_In, elem_of_map_to_list. Qed.
Fixpoint in_order_b (Sha256 : bytes -> bytes) (m : TxMempool) (done : list Tx) (txs : list Tx) : bool :=
  match txs with
  | [] => true
  | t :: txs => in_pool m (fun e => negb (bool_decide (entry_hash Sha256 e = txid Sha256 t)) ||
      forallb (fun k => bool_decide (poolData m !! k = None) || bool_decide (k ∈ map (txid Sha256) done)) (PrevoutHashs (e_Tx e))) && in_order_b Sha256 m (done ++ [t]) txs
  end.
Lemma in_order_compute Sha256 m txs : forall before, in_order_b Sha256 m before txs = true -> in_order Sha256 m before txs.
Proof.
  induction txs as [|t txs IH]; intros before; [done|]. cbn. intros [Hb Hr]%andb_true_iff. split; [|by apply IH]. intros q e k p He Hh Hk Hp.
  pose proof (in_pool_member Sha256 m _ q e Hb He) as Hc. cbn beta in Hc. rw bool_decide_true // in Hc. cbn in Hc. rw forallb_forall in Hc. specialize (Hc k (proj1 (list_elem_of_In _ _) Hk)). rw Hp in Hc.
  rw bool_decide_false // in Hc. by apply bool_decide_eq_true in Hc.
Qed.
Definition spends_once_b (Sha256 : bytes -> bytes) (m : TxMempool) (txs : list Tx) : bool :=
  forallb (fun t => in_pool m (fun e => negb (bool_decide (entry_hash Sha256 e ∈ map (txid Sha256) txs)) || bool_decide (entry_hash Sha256 e = txid Sha256 t) ||
    forallb (fun o => bool_decide (o ∉ GetAllPreviousOut (e_Tx e))) (GetAllPreviousOut t))) txs.
Lemma spends_once_compute Sha256 m txs : spends_once_b Sha256 m txs = true -> spends_once Sha256 m txs.
Proof.
  unfold spends_once_b. rw forallb_forall. intros Hb t q e Ht He Hin (e' & o & He' & Ho & Hoe & Hh). rw (member_unique Sha256 m q e' e) // in Hoe. rw (member_unique Sha256 m q e' e) // in Hh.
  pose proof (in_pool_member Sha256 m _ q e (Hb t (proj1 (list_elem_of_In _ _) Ht)) He) as Hc. cbn beta in Hc. rw bool_decide_true // in Hc. rw bool_decide_false // in Hc. cbn in Hc.
  rw forallb_forall in Hc. specialize (Hc o (proj1 (list_elem_of_In _ _) Ho)). by apply bool_decide_eq_true in Hc.
Qed.


(** C18. In a pool whose links are right (C6) and for a transaction that has a size,
    CalculateMemPoolAncestors and CalculateDescendants always end.  Without limits the
    first returns exactly the parents of the transaction in the pool and all their
    ancestors; with limits it returns the same set or an error, and what it returns is
    within them: when there are ancestors, their number with the transaction is at most
    limitAncestorCount and their total size with it at most limitAncestorSize (for limits
    below 2^64 - 1 and 2^63, so that no sum wraps), and each ancestor has room for one more
    descendant.  The second adds exactly the entry and all its descendants. *)
Theorem closures_computed Sha256 range m t lim n q (d : gset nat) : (forall X, range X ≡ₚ elements X) -> pool_graph Sha256 m -> Tx_EncodeSize (E := MemPoolErr) t = Ok n ->
  (exists a, CalculateMemPoolAncestors Sha256 range m t noLimit true = Ok a /\ ancestors_of m t a) /\
  match CalculateMemPoolAncestors Sha256 range m t lim true with
  | Ok a => ancestors_of m t a /\ (a <> ∅ -> limitAncestorCount lim < 2 ^ 64 - 1 -> Z.of_nat (size a) + 1 <= limitAncestorCount lim) /\
      (a <> ∅ -> limitAncestorSize lim < 2 ^ 63 -> n + total TxSize (entries m) a <= limitAncestorSize lim) /\
      forall x e, x ∈ a -> entries m !! x = Some e -> descendants_room lim e
  | Err _ => lim <> noLimit
  | Panic => False
  end /\
  (is_Some (entries m !! q) -> (forall x y, x ∈ d -> edge ChildTx (entries m) x y -> y ∈ d) ->
   exists d', CalculateDescendants (E := unit) range m q d = Ok d' /\ forall x, x ∈ d' <-> x ∈ d \/ rtc (edge ChildTx (entries m)) q x).
Proof.
  intros Hrange Hg Hn. destruct (pg_order _ m Hg) as [ord Ho]. pose proof (fun lim => ancestors_limited Sha256 range Hrange m t n lim Hg Hn) as Ha. split_and!.
  - specialize (Ha noLimit). destruct (CalculateMemPoolAncestors Sha256 range m t noLimit true) as [a| |]; [|done|done]. exists a. split; [done|exact (li_ancestors _ _ _ _ _ Ha)].
  - specialize (Ha lim). destruct (CalculateMemPoolAncestors Sha256 range m t lim true) as [a| |]; [|done|done]. destruct Ha as [H1 H2 H3 H4]. by split_and!.
  - intros Hq Hd. by apply (CalculateDescendants_ok range Hrange m _ q d (graph_children _ _ Ho)).
Qed.
(** A limit of 180 bytes for three transactions of 60 bytes, and of 179. *)
Definition small_limits (sz : Z) : Limits := mkLimits 25 sz 25 1000.
Example ancestor_size_limit : CalculateMemPoolAncestors (fun b => b) elements pool2 (pool_tx 3 2) (small_limits 179) true = Err ManyUnspendDepend.
Proof. vm_compute. reflexivity. Qed.
Lemma closures_computed_witness : exists a, CalculateMemPoolAncestors (fun b => b) elements pool2 (pool_tx 3 2) (small_limits 180) true = Ok a /\ ancestors_of pool2 (pool_tx 3 2) a /\
  elements a = [2; 1]%nat /\ 60 + total TxSize (entries pool2) a <= 180.
Proof.
  pose proof (po_graph _ _ (pool_steps_ok _ elements pool_elements pool2 (proj1 small_pool))) as Hg.
  assert (CalculateMemPoolAncestors (fun b => b) elements pool2 (pool_tx 3 2) (small_limits 180) true = Ok {[2; 1]}%nat) as Ha by (vm_compute; reflexivity).
  pose proof (closures_computed (fun b => b) elements pool2 (pool_tx 3 2) (small_limits 180) 60 1 ∅ pool_elements Hg eq_refl) as (_ & Hc & _). rewrite Ha in Hc. destruct Hc as (H1 & _ & H3 & _).
  exists {[2; 1]}%nat. split; [exact Ha|]. split; [exact H1|]. split; [vm_compute; reflexivity|]. apply H3; [discriminate|vm_compute; reflexivity].
Defined.

(** C8. When a block is connected that lists every transaction after those of its parents
    that are in the pool and spends each output once, RemoveTxSelf ends and takes out
    exactly the transactions of the block and what conflicts with them, with its
    descendants; the links, sums and containers of what stays are right, and nothing that
    stays spends an output the block has spent.  The order is a condition on the block:
    after the magnetic anomaly a block must be ordered by transaction id instead, and for a
    block with a child before its parent the sums of what stays can be wrong
    ([child_first_block]). *)
Theorem RemoveTxSelf_block Sha256 range now txs m : (forall X, range X ≡ₚ elements X) -> pool_ok Sha256 m -> in_order Sha256 m [] txs -> spends_once Sha256 m txs ->
  exists m', RemoveTxSelf (E := unit) Sha256 range now txs m = Ok m' /\ pool_ok Sha256 m' /\
    (forall k q, poolData m' !! k = Some q <-> poolData m !! k = Some q /\ ~ gone Sha256 m txs q) /\
    (forall t, t ∈ txs -> poolData m' !! txid Sha256 t = None) /\ (forall t o, t ∈ txs -> o ∈ GetAllPreviousOut t -> nextTx m' !! o = None).
Proof.
  intros Hrange Hok Hio Hso. destruct (RemoveTxSelf_ok Sha256 range Hrange (E := unit) now txs m Hok Hio Hso) as (m' & Hm & Hok' & Hlv). pose proof (po_graph _ m Hok) as Hg. exists m'. split_and!; [done|done|apply Hlv|..].
  - intros t Ht. destruct (poolData m' !! txid Sha256 t) as [q|] eqn:Eq; [|done]. exfalso. apply (lv_pool _ _ _ Hlv) in Eq as [Eq Hn]. apply Hn. left. destruct (pg_data _ m Hg _ q Eq) as (e & He & Hh).
    exists e. split; [split; [done|by rw Hh]|]. unfold in_block. rw Hh. by apply list_elem_of_fmap_2.
  - intros t o Ht Ho. destruct (nextTx m' !! o) as [q|] eqn:Eq; [|done]. exfalso. apply (pg_next _ m' (po_graph _ m' Hok')) in Eq as (e' & He' & Hoe).
    destruct (member_kept Sha256 m m' _ Hg Hlv q e' He') as (Hn & e & He & Htx). rw Htx in Hoe. apply Hn. destruct (decide (entry_hash Sha256 e = txid Sha256 t)) as [Hh|Hh].
    + left. exists e. split; [done|]. unfold in_block. rw Hh. by apply list_elem_of_fmap_2.
    + right. exists q. split; [|apply rtc_refl]. exists t. split; [done|]. by exists e, o.
Qed.
(** A block that lists transaction 2 before its parent 1, as the order by id may: the
    entry of transaction 3, which spends an output of 2, stays without parents and still
    counts one ancestor and its fee; with the parent first it counts itself only. *)
Definition left3 (txs : list Tx) : option (Z * Z * list nat) :=
  match RemoveTxSelf (E := unit) (fun b => b) elements 7 txs pool3 with
  | Ok m => (fun e => (SumTxCountWithAncestors (stat e), SumTxFeeWithAncestors (stat e), elements (ParentTx e))) <$> entries m !! 3%nat
  | _ => None
  end.
Theorem child_first_block : TxFee (pool_entry 3 2 300) = 300 /\ left3 [pool_tx 2 1; pool_tx 1 9] = Some (2, 400, []) /\ left3 [pool_tx 1 9; pool_tx 2 1] = Some (1, 300, []).
Proof. by vm_compute. Qed.
Example block_leaves : match RemoveTxSelf (E := unit) (fun b => b) elements 7 [pool_tx 1 9; pool_tx 4 1] pool4 with Ok m => timeSortData m = [5%nat] | _ => False end.
Proof. by vm_compute. Qed.
(** The block has transaction 1 and another one that spends the output transaction 2
    spends. *)
Lemma RemoveTxSelf_block_witness : exists m', RemoveTxSelf (E := unit) (fun b => b) elements 7 [pool_tx 1 9; pool_tx 4 1] pool4 = Ok m' /\ pool_ok (fun b => b) m' /\
  nextTx m' !! mkOutPoint (pool_hash 1) 0 = None /\ timeSortData m' = [5%nat].
Proof.
  destruct (RemoveTxSelf_block (fun b => b) elements 7 [pool_tx 1 9; pool_tx 4 1] pool4 pool_elements small_pool_ok) as (m' & Hm & Hok & _ & _ & Hn).
  - apply in_order_compute. by vm_compute.
  - apply spends_once_compute. by vm_compute.
  - exists m'. split_and!; [exact Hm|exact Hok|apply (Hn (pool_tx 4 1)); [right; left|left]|]. pose proof block_leaves as Hl. rewrite Hm in Hl. exact Hl.
Defined.

(** C17. trimToSize always ends: it removes one entry after another, each with all its
    descendants and each of the highest fee rate with ancestors in the pool at that
    time, as long as the pool is larger than the limit, and stops when it is not or when
    the pool is empty; the invariant of the pool is kept. *)
Theorem trimToSize_enough Sha256 range limit m : (forall X, range X ≡ₚ elements X) -> pool_ok Sha256 m ->
  exists m' coins, trimToSize (E := unit) Sha256 range limit m = Ok (m', coins) /\ pool_ok Sha256 m' /\ (poolData m' = ∅ \/ usageSize m' <= limit) /\ rtc (evicts Sha256 limit) m m'.
Proof. intros Hrange Hok. by apply (trimToSize_ok Sha256 range Hrange). Qed.
Example trim_leaves : match trimToSize (E := unit) (fun b => b) elements 600 pool4 with Ok (m, _) => usageSize m <= 600 /\ timeSortData m = [1; 5]%nat | _ => False end.
Proof. by vm_compute. Qed.
Lemma trimToSize_enough_witness : exists m' coins, trimToSize (E := unit) (fun b => b) elements 600 pool4 = Ok (m', coins) /\ pool_ok (fun b => b) m' /\ usageSize m' <= 600 /\ timeSortData m' = [1; 5]%nat.
Proof.
  destruct (trimToSize_enough (fun b => b) elements 600 pool4 pool_elements small_pool_ok) as (m' & coins & Hm & Hok & Hend & _). exists m', coins.
  pose proof trim_leaves as Hl. rewrite Hm in Hl. split; [exact Hm|]. split; [exact Hok|exact Hl].
Defined.

(** Transactions 2, 3 and 6 are removed from the chain 1, 2, 3, 6.  Transaction 1 still
    counts 2 with its descendants, though nothing descends from it any more: the links
    of the removed are cut before their ancestors are looked for. *)
Example stale_descendants : match removeTxRecursive (E := unit) (fun b => b) elements (pool_tx 2 1) (pool_add pool3 6 (pool_entry 6 3 10)) with
  | Ok m => (fun e => (SumTxCountWithDescendants (stat e), elements (ChildTx e))) <$> entries m !! 1%nat = Some (2, [])
  | _ => False
  end.
Proof. by vm_compute. Qed.
