(* ===== verification/Skiplist.v ===== *)
(** * The skip list behind the sorted containers (util/algorithm/mapcontainer/skiplist)

    Nodes are records in a heap; a node of height [k] has [k] next pointers.  An element
    is a pointer to an entry, compared with the order of the moment.  The coins that
    decide the height of a new node and its address are arguments. *)
From Stdlib Require Import Sorted.
From S2P Require Import Prelude Errors Wire ScriptNum Opcodes Script ScriptFacts Tx TxFacts Crypto Compress Coins Block Undo Mempool MempoolFacts PoolFacts PoolSorted.

(** ** The structure *)
Record node := mkNode { nd_elem : nat; nexts : list (option nat) }.
Record skiplist := mkSkip { sl_nodes : gmap nat node; header : list (option nat); sl_size : Z }.
(** [&sl.header] or the address of a node. *)
Inductive place := Hdr | At (p : nat).
#[export] Instance place_eq_dec : EqDecision place.
Proof. solve_decision. Defined.

(** math.Log2 of the numbers in question is exact enough for its ceiling. *)
Definition New (estimatedNodeCount : Z) : skiplist :=
  let n := if estimatedNodeCount <? 2 then 2 else estimatedNodeCount in
  mkSkip ∅ (replicate (Z.to_nat (Z.log2_up n)) None) 0.
Definition getMaxHeight (sl : skiplist) : nat := length (header sl).
Definition nexts_of {E} (sl : skiplist) (pl : place) : res E (list (option nat)) :=
  match pl with Hdr => Ok (header sl) | At p => match sl_nodes sl !! p with Some n => Ok (nexts n) | None => Panic end end.
Definition get_next {E} (sl : skiplist) (pl : place) (h : nat) : res E (option nat) := l ← nexts_of sl pl; deref (l !! h).
Definition set_next {E} (sl : skiplist) (pl : place) (h : nat) (v : option nat) : res E skiplist :=
  l ← nexts_of sl pl;
  if (h <? length l)%nat then
    Ok (match pl with
        | Hdr => mkSkip (sl_nodes sl) (<[h := v]> l) (sl_size sl)
        | At p => mkSkip (alter (fun n => mkNode (nd_elem n) (<[h := v]> l)) p (sl_nodes sl)) (header sl) (sl_size sl)
        end)
  else Panic.
Definition nload {E} (sl : skiplist) (p : nat) : res E node := match sl_nodes sl !! p with Some n => Ok n | None => Panic end.
Definition with_size (sl : skiplist) (n : Z) : skiplist := mkSkip (sl_nodes sl) (header sl) n.
Fixpoint flips (n : nat) (coins : list bool) (r : nat) : nat :=
  match n, coins with S n, true :: coins => flips n coins (S r) | _, _ => r end.
Definition calcInsertionHeight (maxHeight : nat) (coins : list bool) : nat := flips (maxHeight - 1) coins 1.

Section Skiplist.
Context (less : nat -> nat -> bool).
Abbreviation isEqual := (isEqual less).

(** Level [h] is followed while the next element is below the target. *)
Fixpoint walk {E} (fuel : nat) (sl : skiplist) (h : nat) (target : nat) (pl : place) : res E place :=
  match fuel with
  | O => Panic
  | S fuel =>
      pv ← get_next sl pl h;
      match pv with
      | None => Ok pl
      | Some p => n ← nload sl p; if less (nd_elem n) target then walk fuel sl h target (At p) else Ok pl
      end
  end.
(** From the top level down; the result begins with level 0. *)
Fixpoint search_levels {E} (sl : skiplist) (target : nat) (h : nat) (pl : place) : res E (list place) :=
  match h with
  | O => Ok []
  | S h => pl ← walk (S (size (sl_nodes sl))) sl h target pl; prevs ← search_levels sl target h pl; Ok (prevs ++ [pl])
  end.
Definition Skip_searchPrev {E} (sl : skiplist) (target : nat) : res E (list place) := search_levels sl target (getMaxHeight sl) Hdr.
Definition Search {E} (sl : skiplist) (target : nat) : res E (option nat) :=
  prevs ← Skip_searchPrev sl target; pl ← deref (head prevs); nx ← get_next sl pl 0;
  match nx with None => Ok None | Some p => n ← nload sl p; Ok (if isEqual (nd_elem n) target then Some (nd_elem n) else None) end.
Fixpoint remove_levels {E} (sl : skiplist) (prevs : list place) (i : nat) (target : nat) (deleted : option nat) : res E (skiplist * option nat) :=
  match prevs with
  | [] => Ok (sl, deleted)
  | pl :: prevs =>
      nx ← get_next sl pl i;
      match nx with
      | None => Ok (sl, deleted)
      | Some p =>
          n ← nload sl p;
          if isEqual (nd_elem n) target then
            v ← get_next sl (At p) i;
            sl ← set_next sl pl i v;
            remove_levels sl prevs (S i) target (Some p)
          else Ok (sl, deleted)
      end
  end.
Definition Skip_remove {E} (sl : skiplist) (prevs : list place) (target : nat) : res E (skiplist * option nat) := remove_levels sl prevs 0 target None.
Definition Skip_removeIfAny {E} (sl : skiplist) (target : nat) : res E (skiplist * list place * option nat) :=
  prevs ← Skip_searchPrev sl target; '(sl, deleted) ← Skip_remove sl prevs target; Ok (sl, prevs, deleted).
(** Links the new node at address [p] into level [i] and the levels above. *)
Fixpoint link_levels {E} (sl : skiplist) (prevs : list place) (i k : nat) (p : nat) : res E skiplist :=
  match k with
  | O => Ok sl
  | S k =>
      pl ← deref (prevs !! i);
      v ← get_next sl pl i;
      sl ← set_next sl (At p) i v;
      sl ← set_next sl pl i (Some p);
      link_levels sl prevs (S i) k p
  end.
Definition Skip_ReplaceOrInsert {E} (sl : skiplist) (elem : nat) (coins : list bool) (p : nat) : res E skiplist :=
  let insertToHeight := calcInsertionHeight (getMaxHeight sl) coins in
  let sl := mkSkip (<[p := mkNode elem (replicate insertToHeight None)]> (sl_nodes sl)) (header sl) (sl_size sl) in
  '(sl, prevs, removed) ← Skip_removeIfAny sl elem;
  let sl := match removed with None => with_size sl (sl_size sl + 1) | Some _ => sl end in
  link_levels sl prevs 0 insertToHeight p.
Definition Skip_Delete {E} (sl : skiplist) (target : nat) : res E (skiplist * option nat) :=
  '(sl, _, deleted) ← Skip_removeIfAny sl target;
  match deleted with
  | None => Ok (sl, None)
  | Some p => n ← nload sl p; Ok (with_size sl (sl_size sl - 1), Some (nd_elem n))
  end.
Definition Min {E} (sl : skiplist) : res E (option nat) :=
  nx ← get_next sl Hdr 0; match nx with None => Ok None | Some p => n ← nload sl p; Ok (Some (nd_elem n)) end.
(** The handler goes on while it returns true. *)
Fixpoint ascend {E S} (fuel : nat) (sl : skiplist) (iterHandler : nat -> S -> S * bool) (next : option nat) (s : S) : res E S :=
  match fuel with
  | O => Panic
  | Datatypes.S fuel =>
      match next with
      | None => Ok s
      | Some p =>
          n ← nload sl p;
          let '(s, go) := iterHandler (nd_elem n) s in
          if (go : bool) then nx ← get_next sl (At p) 0; ascend fuel sl iterHandler nx s else Ok s
      end
  end.
Definition Ascend {E S} (sl : skiplist) (iterHandler : nat -> S -> S * bool) (s : S) : res E S :=
  nx ← get_next sl Hdr 0; ascend (Datatypes.S (size (sl_nodes sl))) sl iterHandler nx s.
Definition Len (sl : skiplist) : Z := sl_size sl.
(** Level [h] is followed up to the place before its last node. *)
Fixpoint walk_last {E} (fuel : nat) (sl : skiplist) (h : nat) (pl : place) : res E place :=
  match fuel with
  | O => Panic
  | S fuel =>
      pv ← get_next sl pl h;
      match pv with
      | None => Ok pl
      | Some p => nx ← get_next sl (At p) h; match nx with None => Ok pl | Some _ => walk_last fuel sl h (At p) end
      end
  end.
Fixpoint max_levels {E} (sl : skiplist) (h : nat) (pl : place) : res E (list place) :=
  match h with
  | O => Ok []
  | S h => pl ← walk_last (S (size (sl_nodes sl))) sl h pl; prevs ← max_levels sl h pl; Ok (prevs ++ [pl])
  end.
Definition Skip_max {E} (sl : skiplist) : res E (option (list place)) :=
  prevs ← max_levels sl (getMaxHeight sl) Hdr; Ok (if sl_size sl =? 0 then None else Some prevs).
Definition Max {E} (sl : skiplist) : res E (option nat) :=
  prevs ← Skip_max sl;
  match prevs with
  | None => Ok None
  | Some prevs => pl ← deref (head prevs); nx ← get_next sl pl 0; p ← deref nx; n ← nload sl p; Ok (Some (nd_elem n))
  end.
Definition DeleteMax {E} (sl : skiplist) : res E (skiplist * option nat) :=
  prevs ← Skip_max sl;
  match prevs with
  | None => Ok (sl, None)
  | Some prevs =>
      let sl := with_size sl (sl_size sl - 1) in
      pl ← deref (head prevs); nx ← get_next sl pl 0; p ← deref nx; n ← nload sl p;
      '(sl, deleted) ← Skip_remove sl prevs (nd_elem n);
      q ← deref deleted; d ← nload sl q; Ok (sl, Some (nd_elem d))
  end.
End Skiplist.
