(* ===== verification/SkiplistFacts.v ===== *)
(** * The skip list implements the sorted list

    A skip list represents the list of its nodes at level 0 when every pointer of a node
    leads to the next node in the list that is tall enough.  The theorem at the end says
    that every operation does what the operation on the sorted list does. *)
From Stdlib Require Import Sorted.
From S2P Require Import Prelude Errors Wire ScriptNum Opcodes Script ScriptFacts Tx TxFacts Crypto Compress Coins Block Undo Mempool MempoolFacts PoolFacts PoolSorted Skiplist.

Definition height (sl : skiplist) (pl : place) : nat :=
  match pl with Hdr => length (header sl) | At p => from_option (fun n => length (nexts n)) 0%nat (sl_nodes sl !! p) end.
Definition next_of (sl : skiplist) (pl : place) (i : nat) : option nat :=
  match pl with Hdr => mjoin (header sl !! i) | At p => n ← sl_nodes sl !! p; mjoin (nexts n !! i) end.
Definition elem_of_node (sl : skiplist) (p : nat) : option nat := nd_elem <$> sl_nodes sl !! p.
Definition tall (sl : skiplist) (i : nat) (p : nat) : Prop := (i < height sl (At p))%nat.
#[export] Instance tall_dec sl i p : Decision (tall sl i p).
Proof. apply lt_dec. Defined.
Definition level (sl : skiplist) (i : nat) (l : list nat) : list nat := filter (tall sl i) l.

(** The same nodes with the same heights and elements. *)
Record same_nodes (sl sl' : skiplist) : Prop := {
  sn_height pl : height sl' pl = height sl pl;
  sn_elem p : elem_of_node sl' p = elem_of_node sl p;
  sn_count : size (sl_nodes sl') = size (sl_nodes sl);
  sn_size : sl_size sl' = sl_size sl }.
#[export] Instance same_nodes_preorder : PreOrder same_nodes.
Proof. split; [done|]. intros a b c [A1 A2 A3 A4] [B1 B2 B3 B4]. split; intros; congruence. Qed.

Lemma level_same sl sl' i l : same_nodes sl sl' -> level sl' i l = level sl i l.
Proof. intros [Hh _ _ _]. unfold level. apply list_filter_iff. intros p. unfold tall. by rw Hh. Qed.
Lemma get_next_ok {E} sl pl i : (i < height sl pl)%nat -> get_next (E := E) sl pl i = Ok (next_of sl pl i).
Proof.
  unfold get_next, nexts_of, next_of. destruct pl as [|p]; cbn.
  - intros Hi. destruct (lookup_lt_is_Some_2 (header sl) i Hi) as [v ->]. done.
  - destruct (sl_nodes sl !! p) as [n|]; cbn; [|lia]. intros Hi. destruct (lookup_lt_is_Some_2 (nexts n) i Hi) as [v ->]. done.
Qed.
Lemma set_next_ok {E} sl pl i v : (i < height sl pl)%nat ->
  exists sl', set_next (E := E) sl pl i v = Ok sl' /\ same_nodes sl sl' /\ forall pl' j, next_of sl' pl' j = if decide (pl' = pl /\ j = i) then v else next_of sl pl' j.
Proof.
  unfold set_next, nexts_of. destruct pl as [|p]; cbn [mbind res_bind height].
  - intros Hi. assert ((i <? length (header sl))%nat = true) as -> by (by apply Nat.ltb_lt). eexists. split; [reflexivity|]. split.
    + split; [intros [|p']; cbn; [by rw length_insert|done]|done|done|done].
    + intros [|p'] j; cbn [next_of sl_nodes header]; [|by case_decide; [naive_solver|]]. destruct (decide (Hdr = Hdr /\ j = i)) as [[_ ->]|Hn]; [by rw list_lookup_insert_eq|]. rw list_lookup_insert_ne //. naive_solver.
  - destruct (sl_nodes sl !! p) as [n|] eqn:Ep; cbn [mbind res_bind from_option]; [|lia]. intros Hi. assert ((i <? length (nexts n))%nat = true) as -> by (by apply Nat.ltb_lt). eexists. split; [reflexivity|].
    assert (forall p', alter (fun n0 => mkNode (nd_elem n0) (<[i := v]> (nexts n))) p (sl_nodes sl) !! p' = if decide (p' = p) then Some (mkNode (nd_elem n) (<[i := v]> (nexts n))) else sl_nodes sl !! p') as Hl.
    { intros p'. destruct (decide (p' = p)) as [->|]; [by rw lookup_alter_eq Ep|by rw lookup_alter_ne]. }
    split.
    + split; [intros [|p']; cbn; [done|rw Hl; destruct (decide (p' = p)) as [->|]; [rw Ep; cbn; by rw length_insert|done]]|intros p'; unfold elem_of_node; cbn; rw Hl; by destruct (decide (p' = p)) as [->|]; [rw Ep|]| |done].
      cbn. rw -!(size_dom (D := gset nat)). by rw dom_alter_L.
    + intros [|p'] j; cbn [next_of sl_nodes header]; [by case_decide; [naive_solver|]|]. rw Hl. destruct (decide (p' = p)) as [->|Hp]; cbn [mbind option_bind nexts].
      * rw Ep. cbn [mbind option_bind]. destruct (decide (At p = At p /\ j = i)) as [[_ ->]|Hn]; [by rw list_lookup_insert_eq|]. rw list_lookup_insert_ne //. naive_solver.
      * by case_decide; [naive_solver|].
Qed.

(** ** The representation *)
Definition last_place (a : list nat) : place := match last a with Some p => At p | None => Hdr end.
Record rep (sl : skiplist) (l : list nat) : Prop := {
  rp_nodup : NoDup l;
  rp_top : (1 <= length (header sl))%nat;
  rp_node p : p ∈ l -> (1 <= height sl (At p) <= length (header sl))%nat;
  rp_next i a b : l = a ++ b -> (i < height sl (last_place a))%nat -> next_of sl (last_place a) i = head (level sl i b) }.

Lemma last_place_snoc a p : last_place (a ++ [p]) = At p.
Proof. unfold last_place. by rw last_snoc. Qed.
Lemma last_place_in a : a <> [] -> exists p, p ∈ a /\ last_place a = At p.
Proof. destruct a as [|p a _] using rev_ind; [done|]. intros _. exists p. rw last_place_snoc. set_solver. Qed.
Lemma last_place_inj l a c a' c' : NoDup l -> l = a ++ c -> l = a' ++ c' -> last_place a = last_place a' -> a = a'.
Proof.
  intros Hnd. assert (forall a d c, NoDup ((a ++ d) ++ c) -> last_place (a ++ d) = last_place a -> d = []) as Hd.
  { clear. intros a d c Hnd. destruct d as [|p d _] using rev_ind; [done|]. rw app_assoc last_place_snoc. intros Hl. exfalso. destruct a as [|q a _] using rev_ind; [done|]. rw last_place_snoc in Hl. injection Hl as ->.
    rw -!app_assoc in Hnd. apply NoDup_app in Hnd as (_ & _ & Hnd). cbn in Hnd. apply NoDup_cons in Hnd as [Hnd _]. set_solver. }
  intros H1 H2 Hl. rw H1 in H2. apply app_eq_app in H2 as [d [[H2 H3]|[H2 H3]]].
  - rw H1 H2 in Hnd. rw H2 in Hl. by rw H2 (Hd a' d c Hnd Hl) app_nil_r.
  - rw H1 H3 app_assoc in Hnd. rw H2 in Hl. by rw H2 (Hd a d c' Hnd (eq_sym Hl)) app_nil_r.
Qed.
(** The place of a level is unique. *)
Lemma place_unique sl i a1 c1 a2 c2 : a1 ++ c1 = a2 ++ c2 -> (i < height sl (last_place a1))%nat -> (i < height sl (last_place a2))%nat -> level sl i c1 = [] -> level sl i c2 = [] -> a1 = a2.
Proof.
  assert (forall a d c, (i < height sl (last_place (a ++ d)))%nat -> level sl i (d ++ c) = [] -> d = []) as Hd.
  { intros a d c Ht Hl. destruct d as [|p d _] using rev_ind; [done|]. exfalso. rw app_assoc last_place_snoc in Ht. assert (p ∈ level sl i ((d ++ [p]) ++ c)) as Hp; [|by rw Hl in Hp; apply elem_of_nil in Hp].
    apply list_elem_of_filter. split; [done|]. set_solver. }
  intros Heq H1 H2 L1 L2. apply app_eq_app in Heq as [d [[-> ->]|[-> ->]]]; [by rw (Hd a2 d c1 H1 L2) app_nil_r|by rw (Hd a1 d c2 H2 L1) app_nil_r].
Qed.
Lemma level_app sl i a b : level sl i (a ++ b) = level sl i a ++ level sl i b.
Proof. apply filter_app. Qed.
Lemma level_cons_tall sl i p l : tall sl i p -> level sl i (p :: l) = p :: level sl i l.
Proof. intros Ht. unfold level. by rw filter_cons_True. Qed.
Lemma level_cons_short sl i p l : ~ tall sl i p -> level sl i (p :: l) = level sl i l.
Proof. intros Ht. unfold level. by rw filter_cons_False. Qed.
(** The first of a level splits the list. *)
Lemma level_head sl i l : match head (level sl i l) with Some p => exists c d, l = c ++ p :: d /\ level sl i c = [] /\ tall sl i p | None => level sl i l = [] end.
Proof.
  induction l as [|q l IH]; [done|]. destruct (decide (tall sl i q)) as [Ht|Ht]; [rw level_cons_tall //; cbn; by exists [], l|]. rw level_cons_short //. destruct (head (level sl i l)); [|done].
  destruct IH as (c & d & -> & Hc & Hp). exists (q :: c), d. split_and!; [done|by rw level_cons_short|done].
Qed.
Lemma rep_length sl l : rep sl l -> (length l <= size (sl_nodes sl))%nat.
Proof.
  intros [Hnd _ Hn _]. rw -(size_dom (D := gset nat)). rw -(size_list_to_set (C := gset nat) l Hnd). apply subseteq_size. intros p. rw elem_of_list_to_set elem_of_dom. intros Hp.
  specialize (Hn p Hp). cbn in Hn. destruct (sl_nodes sl !! p); cbn in Hn; [by eexists|lia].
Qed.
Lemma nload_ok {E} sl p : (0 < height sl (At p))%nat -> exists n, nload (E := E) sl p = Ok n /\ elem_of_node sl p = Some (nd_elem n).
Proof. unfold nload, elem_of_node. cbn. destruct (sl_nodes sl !! p) as [n|]; cbn; [intros _; by exists n|lia]. Qed.

(** ** Searching *)
Definition val (sl : skiplist) (p : nat) : nat := default 0%nat (elem_of_node sl p).
Definition elems (sl : skiplist) (l : list nat) : list nat := map (val sl) l.
Section Place.
Context (sl : skiplist) (A B : list nat) (Hrep : rep sl (A ++ B)).
(** The last node of [A] that is tall enough, or the header. *)
Definition at_level (i : nat) (pl : place) : Prop := exists a c, A = a ++ c /\ pl = last_place a /\ (i < height sl pl)%nat /\ level sl i c = [].
Lemma at_level_next i pl : at_level i pl -> next_of sl pl i = head (level sl i B).
Proof. intros (a & c & Ha & -> & Hi & Hc). rw (rp_next sl _ Hrep i a (c ++ B)) //; [|by rw Ha app_assoc]. by rw level_app Hc. Qed.
Lemma rep_node p : p ∈ A ++ B -> (0 < height sl (At p))%nat.
Proof. intros Hp. pose proof (rp_node sl _ Hrep p Hp). lia. Qed.
Lemma at_level_unique i pl pl' : at_level i pl -> at_level i pl' -> pl = pl'.
Proof. intros (a & c & Ha & -> & Hi & Hc) (a' & c' & Ha' & -> & Hi' & Hc'). f_equal. apply (place_unique sl i a c a' c'); [congruence|done..]. Qed.
End Place.

Section Search.
Context (less : nat -> nat -> bool) (t : nat).
Context (sl : skiplist) (A B : list nat) (Hrep : rep sl (A ++ B)).
Context (HA : forall p, p ∈ A -> less (val sl p) t = true) (HB : forall p, p ∈ B -> less (val sl p) t = false).
Lemma walk_ok {E} i fuel : forall a c, A = a ++ c -> (i < height sl (last_place a))%nat -> (length c < fuel)%nat ->
  exists pl, walk less (E := E) fuel sl i t (last_place a) = Ok pl /\ at_level sl A i pl.
Proof.
  induction fuel as [|fuel IH]; intros a c HAc Hi Hf; [lia|]. cbn [walk]. rw get_next_ok //. cbn [mbind res_bind]. rw (rp_next sl _ Hrep i a (c ++ B)) //; [|by rw HAc app_assoc].
  rw level_app. pose proof (level_head sl i c) as Hc. destruct (level sl i c) as [|p l'] eqn:El; cbn [head app] in *.
  - pose proof (level_head sl i B) as Hb. assert (at_level sl A i (last_place a)) as Hat by (by exists a, c). destruct (head (level sl i B)) as [p|]; [|by eexists].
    destruct Hb as (c' & d & HBp & _ & _). destruct (nload_ok (E := E) sl p) as (n & -> & Hn); [apply (rep_node sl A B Hrep); rw HBp; set_solver|]. cbn [mbind res_bind].
    assert (less (nd_elem n) t = false) as ->; [|by eexists]. pose proof (HB p ltac:(rw HBp; set_solver)) as Hv. unfold val in Hv. by rw Hn in Hv.
  - destruct Hc as (c' & d & -> & Hc' & Hp). destruct (nload_ok (E := E) sl p) as (n & -> & Hn); [apply (rep_node sl A B Hrep); rw HAc; set_solver|]. cbn [mbind res_bind].
    assert (less (nd_elem n) t = true) as -> by (pose proof (HA p ltac:(rw HAc; set_solver)) as Hv; unfold val in Hv; by rw Hn in Hv).
    destruct (IH (a ++ c' ++ [p]) d) as (pl & Hw & Hpl); [by rw HAc -!app_assoc| | |].
    + by rw app_assoc last_place_snoc.
    + rw length_app in Hf. cbn in Hf. lia.
    + rw app_assoc last_place_snoc in Hw. by exists pl.
Qed.
Lemma search_levels_ok {E} h : forall pl, (exists a c, A = a ++ c /\ pl = last_place a) -> (h <= height sl pl)%nat ->
  exists prevs, search_levels less (E := E) sl t h pl = Ok prevs /\ length prevs = h /\ forall i pl', prevs !! i = Some pl' -> at_level sl A i pl'.
Proof.
  induction h as [|h IH]; intros pl (a & c & Ha & Hpl) Hh; cbn [search_levels]; [by exists []|]. subst pl.
  destruct (walk_ok (E := E) h (S (size (sl_nodes sl))) a c Ha ltac:(lia)) as (pl & -> & Hat). { pose proof (rep_length sl _ Hrep). rw Ha !length_app in H. lia. }
  cbn [mbind res_bind]. pose proof Hat as (a' & c' & Ha' & Hpl' & Hi' & _). destruct (IH pl) as (prevs & -> & Hlen & Hprevs); [by exists a', c'|lia|]. cbn [mbind res_bind].
  exists (prevs ++ [pl]). split_and!; [done|rw length_app Hlen; cbn; lia|]. intros i pl2 Hi. apply lookup_app_Some in Hi as [Hi|[Hge Hi]]; [by apply Hprevs|].
  apply list_lookup_singleton_Some in Hi as [Hz <-]. assert (i = h) as -> by lia. done.
Qed.
Lemma searchPrev_ok {E} : exists prevs, Skip_searchPrev less (E := E) sl t = Ok prevs /\ length prevs = length (header sl) /\ forall i pl, prevs !! i = Some pl -> at_level sl A i pl.
Proof. apply search_levels_ok; [by exists [], A|done]. Qed.
End Search.

(** ** Removing *)
Section Remove.
Context (less : nat -> nat -> bool) (t : nat).
Context (sl : skiplist) (A B : list nat) (Hrep : rep sl (A ++ B)).
Abbreviation isEqual := (isEqual less).

(** Nothing to remove: the first of [B] is not equal. *)
Lemma remove_none {E} prevs : (forall p, p ∈ B -> isEqual (val sl p) t = false) -> (forall pl, head prevs = Some pl -> at_level sl A 0 pl) -> Skip_remove less (E := E) sl prevs t = Ok (sl, None).
Proof.
  intros HB Hp. unfold Skip_remove. destruct prevs as [|pl prevs]; [done|]. cbn [remove_levels]. specialize (Hp pl eq_refl). pose proof Hp as (a & c & _ & _ & Hi & _). rw get_next_ok //. cbn [mbind res_bind].
  rw (at_level_next sl A B Hrep 0 pl Hp). pose proof (level_head sl 0 B) as Hb. destruct (head (level sl 0 B)) as [p|]; [|done]. destruct Hb as (c' & d & HBp & _ & Ht).
  destruct (nload_ok (E := E) sl p Ht) as (n & -> & Hn). cbn [mbind res_bind]. assert (isEqual (nd_elem n) t = false) as ->; [|done]. pose proof (HB p ltac:(rw HBp; set_solver)) as Hv. unfold val in Hv. by rw Hn in Hv.
Qed.
Context (y : nat) (B' : list nat) (HBy : B = y :: B').
Context (Hy : isEqual (val sl y) t = true) (HB' : forall p, p ∈ B' -> isEqual (val sl p) t = false).
Lemma y_next i : (i < height sl (At y))%nat -> next_of sl (At y) i = head (level sl i B').
Proof.
  intros Hi. pose proof (rp_next sl _ Hrep i (A ++ [y]) B') as Hn. rw last_place_snoc in Hn. apply Hn; [by rw HBy -app_assoc|done].
Qed.
(** At the levels of [y] the place is the one before it; at the others nothing is removed. *)
Definition removes_at (i : nat) (pl : place) : Prop := ((i < height sl (At y))%nat -> at_level sl A i pl) /\
  ((height sl (At y) <= i)%nat -> (i < height sl pl)%nat /\ forall p, next_of sl pl i = Some p -> (0 < height sl (At p))%nat /\ isEqual (val sl p) t = false).
Lemma at_level_removes i pl : at_level sl A i pl -> removes_at i pl.
Proof.
  intros Hat. split; [done|]. intros Hi. split; [by destruct Hat as (_ & _ & _ & _ & ? & _)|]. intros p. rw (at_level_next sl A B Hrep i pl Hat) HBy level_cons_short; [|unfold tall; lia].
  pose proof (level_head sl i B') as Hb. intros Hp. rw Hp in Hb. destruct Hb as (c & d & HBp & _ & _). split; [apply (rep_node sl A B Hrep); rw HBy HBp; set_solver|]. apply HB'. rw HBp. set_solver.
Qed.
Lemma remove_levels_ok {E} prevs : forall i sl1 del, same_nodes sl sl1 -> (forall pl j, (i <= j)%nat -> next_of sl1 pl j = next_of sl pl j) -> (forall k pl, prevs !! k = Some pl -> removes_at (i + k) pl) ->
  exists sl2, remove_levels less (E := E) sl1 prevs i t del = Ok (sl2, if decide ((i < height sl (At y))%nat /\ prevs <> []) then Some y else del) /\ same_nodes sl sl2 /\
    forall pl j, next_of sl2 pl j = if decide ((i <= j < height sl (At y))%nat /\ prevs !! (j - i)%nat = Some pl) then head (level sl j B') else next_of sl1 pl j.
Proof.
  induction prevs as [|pl prevs IH]; intros i sl1 del Hs Hnx Hp; cbn [remove_levels].
  { exists sl1. split_and!; [case_decide; [naive_solver|done]|done|]. intros pl j. case_decide as Hc; [|done]. by destruct Hc as [_ Hc]; rw lookup_nil in Hc. }
  pose proof (Hp 0%nat pl eq_refl) as [Hat Hno]. rw Nat.add_0_r in Hat Hno. assert (i < height sl pl)%nat as Hi.
  { destruct (decide (i < height sl (At y))%nat) as [Hiy|Hiy]; [by destruct (Hat Hiy) as (_ & _ & _ & _ & ? & _)|apply Hno; lia]. }
  assert (forall p, (0 < height sl (At p))%nat -> exists n, nload (E := E) sl1 p = Ok n /\ nd_elem n = val sl p) as Hload.
  { intros p Hh. destruct (nload_ok (E := E) sl1 p) as (n & -> & Hn); [by rw (sn_height _ _ Hs)|]. exists n. split; [done|]. unfold val. rw -(sn_elem _ _ Hs) Hn. done. }
  rw get_next_ok; [|by rw (sn_height _ _ Hs)]. cbn [mbind res_bind]. rw Hnx //.
  destruct (decide (i < height sl (At y))%nat) as [Hiy|Hiy].
  - rw (at_level_next sl A B Hrep i pl (Hat Hiy)) HBy level_cons_tall //. cbn [head]. destruct (Hload y ltac:(lia)) as (n & -> & Hn). cbn [mbind res_bind]. rw Hn Hy. rw get_next_ok; [|by rw (sn_height _ _ Hs)]. cbn [mbind res_bind]. rw Hnx // y_next //.
    destruct (set_next_ok (E := E) sl1 pl i (head (level sl i B'))) as (sl2 & -> & Hs2 & Hnx2); [by rw (sn_height _ _ Hs)|]. cbn [mbind res_bind].
    destruct (IH (S i) sl2 (Some y)) as (sl3 & -> & Hs3 & Hnx3); [by etrans|intros pl' j Hj; rw Hnx2; case_decide; [lia|]; apply Hnx; lia|intros k pl' Hk; replace (S i + k)%nat with (i + S k)%nat by lia; by apply Hp|].
    exists sl3. split_and!; [|done|].
    + do 2 case_decide; naive_solver.
    + intros pl' j. rw Hnx3 Hnx2. destruct (decide (j = i)) as [->|Hj].
      * rw Nat.sub_diag. cbn [lookup list_lookup]. repeat case_decide; try done; try lia; try naive_solver.
      * assert ((pl :: prevs) !! (j - i)%nat = prevs !! (j - S i)%nat \/ (j < i)%nat) as [Hl|Hl]; [destruct (decide (j < i)%nat); [by right|left; by replace (j - i)%nat with (S (j - S i)) by lia]|..].
        { rw Hl. repeat case_decide; try done; try lia; naive_solver lia. }
        { repeat case_decide; try done; try lia; naive_solver lia. }
  - exists sl1. split_and!; [|done|intros pl' j; case_decide; [lia|done]]. rw decide_False; [|naive_solver]. destruct (next_of sl pl i) as [p|] eqn:En; [|done].
    destruct (Hno ltac:(lia)) as [_ Hne]. destruct (Hne p eq_refl) as [Hh Hneq]. destruct (Hload p Hh) as (n & -> & Hn). cbn [mbind res_bind]. by rw Hn Hneq.
Qed.

(** The list without [y]. *)
Lemma removed_rep sl2 prevs : length prevs = length (header sl) -> (forall i pl, prevs !! i = Some pl -> removes_at i pl) -> same_nodes sl sl2 ->
  (forall pl j, next_of sl2 pl j = if decide ((0 <= j < height sl (At y))%nat /\ prevs !! (j - 0)%nat = Some pl) then head (level sl j B') else next_of sl pl j) -> rep sl2 (A ++ B').
Proof.
  intros Hlen Hp Hs Hnx. destruct Hrep as [Hnd Htop Hnode Hnext]. rw HBy in Hnd. assert (length (header sl2) = length (header sl)) as Htop2 by apply (sn_height _ _ Hs Hdr). pose proof Hnd as Hnd0.
  apply NoDup_app in Hnd as (HndA & HAB & HndB). apply NoDup_cons in HndB as [HyB HndB]. split.
  - apply NoDup_app. split_and!; [done|set_solver|done].
  - by rw Htop2.
  - intros p HpA. rw (sn_height _ _ Hs) Htop2. apply Hnode. set_solver.
  - intros i a b Hab Hi. rw (sn_height _ _ Hs) in Hi. rw (level_same _ _ i b Hs) Hnx Nat.sub_0_r.
    assert (forall pl, (i < height sl (At y))%nat -> prevs !! i = Some pl -> at_level sl A i pl /\ exists a' c', A = a' ++ c' /\ pl = last_place a' /\ level sl i c' = []) as Hp'.
    { intros pl Hiy Hpl. pose proof (proj1 (Hp i pl Hpl) Hiy) as Hat. split; [done|]. destruct Hat as (a' & c' & ? & ? & _ & ?). by exists a', c'. }
    assert ((exists d, A = a ++ d /\ b = d ++ B') \/ exists d, d <> [] /\ a = A ++ d /\ B' = d ++ b) as [(d & HAd & Hbd)|(d & Hd & Had & HBd)].
    { apply app_eq_app in Hab as [d [[H1 H2]|[H1 H2]]]; [left; by exists d|]. destruct (decide (d = [])) as [->|Hd]; [left; exists []; rw app_nil_r in H1; rw app_nil_r H2; by subst|right; by exists d]. }
    + rw (Hnext i a (d ++ B)) //; [|by rw HAd app_assoc]. rw Hbd !level_app HBy. destruct (decide (i < height sl (At y))%nat) as [Hiy|Hiy]; [|rw decide_False; [by rw level_cons_short|lia]].
      assert (is_Some (prevs !! i)) as [pl Hpl]. { apply lookup_lt_is_Some_2. rw Hlen. apply Nat.lt_le_trans with (height sl (At y)); [done|]. apply Hnode. rw HBy. set_solver. }
      destruct (Hp' pl Hiy Hpl) as [Hat (a' & c' & HAc & -> & Hc)]. destruct (decide (a' = a)) as [->|Hne].
      * rw decide_True; [|split; [lia|done]]. assert (c' = d) as -> by (rw HAd in HAc; by apply app_inv_head in HAc). by rw Hc.
      * rw decide_False; [|intros [_ Hpl']; rw Hpl in Hpl'; injection Hpl' as Hl; by apply Hne, (last_place_inj A a' c' a d)].
        destruct (level sl i d) as [|q l'] eqn:El; [|done]. exfalso. apply Hne. apply (place_unique sl i a' c' a d); [congruence| |done|done|done]. by destruct Hat as (? & ? & _ & _ & ? & _).
    + assert (exists d0 p, d = d0 ++ [p]) as (d0 & p & Hd0) by (destruct d as [|p d0 _] using rev_ind; [done|by exists d0, p]). assert (last_place a = At p) as Hlp by (by rw Had Hd0 app_assoc last_place_snoc).
      assert (last_place (A ++ y :: d) = At p) as Hlp2. { rw Hd0. change (y :: d0 ++ [p]) with ((y :: d0) ++ [p]). by rw app_assoc last_place_snoc. }
      rw Hlp in Hi |- *. rw decide_False; [|intros [[_ Hiy] Hpl]; destruct (Hp' _ Hiy Hpl) as [_ (a' & c' & HAc & Hla & _)]]; [rw -Hlp2; apply Hnext; [by rw HBy HBd -app_assoc|by rw Hlp2]|].
      destruct (decide (a' = [])) as [->|Ha']; [done|]. destruct (last_place_in a' Ha') as (q & Hq & Hlq). rw Hlq in Hla. injection Hla as <-. apply (HAB p); [rw HAc elem_of_app; by left|]. rw HBd Hd0 elem_of_cons !elem_of_app list_elem_of_singleton. auto.
Qed.
End Remove.

(** ** Inserting *)
Section Link.
Context (sl : skiplist) (A B : list nat) (Hrep : rep sl (A ++ B)) (p : nat) (HpA : p ∉ A ++ B).
Context (prevs : list place) (Hlen : length prevs = length (header sl)) (Hprevs : forall i pl, prevs !! i = Some pl -> at_level sl A i pl).
Context (Hk : (1 <= height sl (At p) <= length (header sl))%nat).
Let k := height sl (At p).

Lemma prev_not_p i pl : prevs !! i = Some pl -> pl <> At p.
Proof. intros Hpl ->. destruct (Hprevs i _ Hpl) as (a & c & Ha & Hla & _). destruct (decide (a = [])) as [->|Hne]; [done|]. destruct (last_place_in a Hne) as (q & Hq & Hlq). rw Hlq in Hla. injection Hla as <-. set_solver. Qed.
Lemma link_levels_ok {E} n : forall i sl1, (i + n = k)%nat -> same_nodes sl sl1 -> (forall pl j, (i <= j)%nat -> next_of sl1 pl j = next_of sl pl j) ->
  exists sl2, link_levels (E := E) sl1 prevs i n p = Ok sl2 /\ same_nodes sl sl2 /\
    forall pl j, next_of sl2 pl j = if decide ((i <= j < k)%nat) then (if decide (pl = At p) then head (level sl j B) else if decide (prevs !! j = Some pl) then Some p else next_of sl pl j) else next_of sl1 pl j.
Proof.
  induction n as [|n IH]; intros i sl1 Hi Hs Hnx; cbn [link_levels].
  { exists sl1. split_and!; [done|done|]. intros pl j. rw decide_False //. lia. }
  destruct (lookup_lt_is_Some_2 prevs i) as [pl Hpl]; [lia|]. rw Hpl. cbn [deref mbind res_bind]. pose proof (Hprevs i pl Hpl) as Hat. pose proof Hat as (_ & _ & _ & _ & Hh & _). pose proof (prev_not_p i pl Hpl) as Hnp.
  rw get_next_ok; [|by rw (sn_height _ _ Hs)]. cbn [mbind res_bind]. rw Hnx // (at_level_next sl A B Hrep i pl Hat).
  destruct (set_next_ok (E := E) sl1 (At p) i (head (level sl i B))) as (sl2 & -> & Hs2 & Hnx2); [rw (sn_height _ _ Hs); lia|]. cbn [mbind res_bind].
  destruct (set_next_ok (E := E) sl2 pl i (Some p)) as (sl3 & -> & Hs3 & Hnx3); [by rw (sn_height _ _ Hs2) (sn_height _ _ Hs)|]. cbn [mbind res_bind].
  destruct (IH (S i) sl3) as (sl4 & -> & Hs4 & Hnx4); [lia|by do 2 (etrans; [|done])|intros pl' j Hj; rw Hnx3 Hnx2; repeat case_decide; solve [lia | apply Hnx; lia]|].
  exists sl4. split_and!; [done|done|]. intros pl' j. rw Hnx4 Hnx3 Hnx2. destruct (decide (j = i)) as [->|Hj].
  - rw decide_False; [|lia]. rw (decide_True (P := (i <= i < k)%nat)); [|lia]. rw Hpl. repeat case_decide; try done; try naive_solver.
  - repeat case_decide; try done; try lia; naive_solver lia.
Qed.
Lemma linked_rep sl2 : same_nodes sl sl2 ->
  (forall pl j, next_of sl2 pl j = if decide ((0 <= j < k)%nat) then (if decide (pl = At p) then head (level sl j B) else if decide (prevs !! j = Some pl) then Some p else next_of sl pl j) else next_of sl pl j) ->
  rep sl2 (A ++ p :: B).
Proof.
  intros Hs Hnx. destruct Hrep as [Hnd Htop Hnode Hnext]. assert (length (header sl2) = length (header sl)) as Htop2 by apply (sn_height _ _ Hs Hdr). pose proof Hnd as Hnd0. apply NoDup_app in Hnd as (HndA & HAB & HndB). split.
  - apply NoDup_app. split_and!; [done|set_solver|]. apply NoDup_cons. set_solver.
  - by rw Htop2.
  - intros q Hq. rw (sn_height _ _ Hs) Htop2. destruct (decide (q = p)) as [->|]; [done|]. apply Hnode. set_solver.
  - intros i a b Hab Hi. rw (sn_height _ _ Hs) in Hi. rw (level_same _ _ i b Hs) Hnx.
    assert ((exists d, A = a ++ d /\ b = d ++ p :: B) \/ (a = A ++ [p] /\ b = B) \/ exists d q, a = A ++ p :: (d ++ [q]) /\ B = (d ++ [q]) ++ b) as [(d & HAd & Hbd)|[[Had Hbd]|(d & q & Had & HBd)]].
    { apply app_eq_app in Hab as [d [[H1 H2]|[H1 H2]]]; [left; by exists d|]. destruct d as [|z d]; [left; exists []; rw app_nil_r in H1; rw app_nil_r; cbn in H2; by subst|]. injection H2 as <- H2.
      right. destruct d as [|q d _] using rev_ind; [left; cbn in H2; by subst|right; by exists d, q]. }
    + assert (last_place a <> At p) as Hlp. { destruct (decide (a = [])) as [->|Hne]; [done|]. destruct (last_place_in a Hne) as (q & Hq & ->). intros [= ->]. set_solver. }
      rw Hbd level_app. destruct (decide (i < k)%nat) as [Hik|Hik].
      * rw decide_True; [|lia]. rw decide_False //. rw level_cons_tall //. destruct (lookup_lt_is_Some_2 prevs i) as [pl Hpl]; [lia|]. destruct (Hprevs i pl Hpl) as (a' & c' & HAc & -> & Hh & Hc). destruct (decide (a' = a)) as [->|Hne].
        -- rw decide_True //. assert (c' = d) as -> by (rw HAd in HAc; by apply app_inv_head in HAc). by rw Hc.
        -- rw decide_False; [|rw Hpl; intros [= Hl]; by apply Hne, (last_place_inj A a' c' a d)]. rw (Hnext i a (d ++ B)) //; [|by rw HAd app_assoc]. rw level_app.
           destruct (level sl i d) as [|q l'] eqn:El; [|done]. exfalso. apply Hne. apply (place_unique sl i a' c' a d); [congruence|done..].
      * rw decide_False; [|lia]. rw level_cons_short; [|done]. rw (Hnext i a (d ++ B)) //; [by rw level_app|by rw HAd app_assoc].
    + rw Had last_place_snoc in Hi |- *. rw Hbd. rw decide_True; [|unfold k; lia]. by rw decide_True.
    + assert (last_place a = At q /\ last_place (A ++ d ++ [q]) = At q) as [Hlq Hlq2]. { rw Had. change (p :: d ++ [q]) with ((p :: d) ++ [q]). by rw !app_assoc !last_place_snoc. }
      assert (q ∈ B) as HqB by (rw HBd; set_solver). rw Hlq in Hi |- *. assert (next_of sl (At q) i = head (level sl i b)) as Hq. { rw -Hlq2. apply Hnext; [by rw HBd -!app_assoc|by rw Hlq2]. }
      case_decide; [|done]. rw decide_False; [|intros [= ->]; set_solver]. rw decide_False; [done|]. intros Hpl. destruct (Hprevs i _ Hpl) as (a' & c' & HAc & Hla & _). destruct (decide (a' = [])) as [->|Ha']; [done|].
      destruct (last_place_in a' Ha') as (z & Hz & Hlz). rw Hlz in Hla. injection Hla as <-. apply (HAB q); set_solver.
Qed.
End Link.

(** ** The last node *)
Section Last.
Context (sl : skiplist) (A : list nat) (y : nat) (Hrep : rep sl (A ++ [y])).
(** Before [y] at its levels, before another node or at the end above them. *)
Definition before_last (i : nat) (pl : place) : Prop := (i < height sl pl)%nat /\ ((i < height sl (At y))%nat -> at_level sl A i pl) /\
  ((height sl (At y) <= i)%nat -> forall p, next_of sl pl i = Some p -> p ∈ A) /\ exists a c, A = a ++ c /\ pl = last_place a.
Lemma walk_last_ok {E} i fuel : forall a c, A = a ++ c -> (i < height sl (last_place a))%nat -> (length c < fuel)%nat -> exists pl, walk_last (E := E) fuel sl i (last_place a) = Ok pl /\ before_last i pl.
Proof.
  induction fuel as [|fuel IH]; intros a c HAc Hi Hf; [lia|]. cbn [walk_last]. rw get_next_ok //. cbn [mbind res_bind]. assert (next_of sl (last_place a) i = head (level sl i (c ++ [y]))) as Hnx by (apply (rp_next sl _ Hrep); [by rw HAc app_assoc|done]).
  rw Hnx. pose proof (level_head sl i (c ++ [y])) as Hc. destruct (head (level sl i (c ++ [y]))) as [p|] eqn:Eh.
  2:{ eexists. split; [done|]. split_and!; [done| |intros _ p Hp; congruence|by exists a, c]. intros Hy. exfalso. rw level_app level_cons_tall // in Hc. by destruct (level sl i c). }
  destruct Hc as (c1 & d1 & Hcd & Hc1 & Hp). rw get_next_ok //. cbn [mbind res_bind].
  assert (next_of sl (At p) i = head (level sl i d1)) as Hnp. { pose proof (rp_next sl _ Hrep i (a ++ c1 ++ [p]) d1) as Hn. rw app_assoc last_place_snoc in Hn. apply Hn; [|done]. rw HAc -!app_assoc Hcd. done. }
  rw Hnp. destruct d1 as [|z d1 _] using rev_ind.
  - cbn [level filter list_filter head]. apply app_inj_tail in Hcd as [-> Hyp]. eexists. split; [done|]. split_and!; [done|intros _; by exists a, c1|intros Hy; unfold tall in Hp; rw -Hyp in Hp; lia|by exists a, c1].
  - change (c1 ++ p :: d1 ++ [z]) with (c1 ++ (p :: d1) ++ [z]) in Hcd. rw app_assoc in Hcd. apply app_inj_tail in Hcd as [-> <-]. assert (p ∈ A) as HpA by (rw HAc; set_solver).
    pose proof (level_head sl i (d1 ++ [y])) as Hd. destruct (head (level sl i (d1 ++ [y]))) as [q|].
    + destruct (IH (a ++ c1 ++ [p]) d1) as (pl & Hw & Hpl); [by rw HAc -!app_assoc|by rw app_assoc last_place_snoc|rw !length_app in Hf; cbn in Hf; lia|]. rw app_assoc last_place_snoc in Hw. by exists pl.
    + eexists. split; [done|]. split_and!; [done| |intros _ q; rw Hnx; by intros [= <-]|by exists a, (c1 ++ p :: d1)]. intros Hy. exfalso. rw level_app level_cons_tall // in Hd. by destruct (level sl i d1).
Qed.
Lemma max_levels_ok {E} h : forall pl, (exists a c, A = a ++ c /\ pl = last_place a) -> (h <= height sl pl)%nat ->
  exists prevs, max_levels (E := E) sl h pl = Ok prevs /\ length prevs = h /\ forall i pl', prevs !! i = Some pl' -> before_last i pl'.
Proof.
  induction h as [|h IH]; intros pl (a & c & Ha & Hpl) Hh; cbn [max_levels]; [by exists []|]. subst pl.
  destruct (walk_last_ok (E := E) h (S (size (sl_nodes sl))) a c Ha ltac:(lia)) as (pl & -> & Hat). { pose proof (rep_length sl _ Hrep) as Hlen. rw Ha !length_app in Hlen. lia. }
  cbn [mbind res_bind]. pose proof Hat as (Hi & _ & _ & Hpl). destruct (IH pl) as (prevs & -> & Hlen & Hprevs); [done|lia|]. cbn [mbind res_bind].
  exists (prevs ++ [pl]). split_and!; [done|rw length_app Hlen; cbn; lia|]. intros i pl2 Hi2. apply lookup_app_Some in Hi2 as [Hi2|[Hge Hi2]]; [by apply Hprevs|].
  apply list_lookup_singleton_Some in Hi2 as [Hz <-]. assert (i = h) as -> by lia. done.
Qed.
End Last.

(** ** The operations *)
Definition represents (sl : skiplist) (l : list nat) : Prop := rep sl l /\ sl_size sl = Z.of_nat (length l).
Lemma elems_same sl sl' l : same_nodes sl sl' -> elems sl' l = elems sl l.
Proof. intros Hs. apply map_ext. intros p. unfold val. by rw (sn_elem _ _ Hs). Qed.
Lemma rep_with_size sl l n : rep sl l -> rep (with_size sl n) l.
Proof. by intros [H1 H2 H3 H4]. Qed.

Section Operations.
Context (less : nat -> nat -> bool) (U : gset nat) (Hless : strict_on less U).

(** Where the target belongs. *)
Lemma place_split sl l S t : S ⊆ U -> t ∈ U -> holds less (elems sl l) S -> exists A B, l = A ++ B /\ (forall p, p ∈ A -> less (val sl p) t = true) /\ (forall p, p ∈ B -> less (val sl p) t = false) /\
  searchPrev less t (elems sl l) = (elems sl A, elems sl B).
Proof.
  intros HSU Ht [Hl HS]. pose proof (searchPrev_app less t (elems sl l)) as Hsp. destruct (searchPrev less t (elems sl l)) as [a b]. destruct Hsp as (Hab & Ha & Hb). unfold elems in Hab. symmetry in Hab. symmetry in Hab.
  apply map_eq_app in Hab as (A & B & -> & HA & HB). exists A, B. split_and!; [done| | |unfold elems; by rw HA HB].
  - intros p Hp. apply Ha. rw -HA. by apply list_elem_of_fmap_2.
  - intros p Hp. assert (val sl p ∈ b) as Hpb by (rw -HB; by apply list_elem_of_fmap_2). assert (forall z, z ∈ b -> z ∈ U) as HbU by (intros z Hz; apply HSU, HS; unfold elems; rw map_app HB; set_solver).
    unfold elems in Hl. rw map_app HB in Hl. apply sorted_app in Hl as (_ & Hlb & _). destruct b as [|y b]; [by apply elem_of_nil in Hpb|]. apply StronglySorted_inv in Hlb as [_ Hy]. rewrite ->Forall_forall in Hy.
    apply elem_of_cons in Hpb as [->|Hpb]; [done|]. destruct (less (val sl p) t) eqn:E; [|done]. rw -Hb. symmetry. apply (so_trans less U Hless y (val sl p) t); [apply HbU; set_solver|apply HbU; set_solver|done|by apply Hy|done].
Qed.
Lemma isEqual_eq x t : x ∈ U -> t ∈ U -> isEqual less x t = bool_decide (x = t).
Proof.
  intros Hx Ht. unfold isEqual. destruct (decide (x = t)) as [->|Hne]; [by rw bool_decide_true // (so_irrefl less U Hless)|]. rw bool_decide_false //. destruct (so_total less U Hless x t Hx Ht Hne) as [->| ->]; [done|]. by destruct (less x t).
Qed.
Lemma elems_U sl l S p : S ⊆ U -> holds less (elems sl l) S -> p ∈ l -> val sl p ∈ U.
Proof. intros HSU [_ HS] Hp. apply HSU, HS. by apply list_elem_of_fmap_2. Qed.
(** [t] is the first of the rest or not there. *)
Lemma rest_of sl A B S t : S ⊆ U -> t ∈ U -> holds less (elems sl (A ++ B)) S -> (forall p, p ∈ B -> less (val sl p) t = false) ->
  (forall p, p ∈ B -> isEqual less (val sl p) t = false) \/ exists y B', B = y :: B' /\ val sl y = t /\ isEqual less (val sl y) t = true /\ forall p, p ∈ B' -> isEqual less (val sl p) t = false.
Proof.
  intros HSU Ht Hh HB. assert (forall p, p ∈ B -> val sl p ∈ U) as HU by (intros p Hp; apply (elems_U sl (A ++ B) S); [done|done|set_solver]).
  destruct Hh as [Hl _]. unfold elems in Hl. rw map_app in Hl. apply sorted_app in Hl as (_ & Hl & _). destruct B as [|y B']; [left; by intros ? ?%elem_of_nil|]. apply StronglySorted_inv in Hl as [_ Hy]. rewrite ->Forall_forall in Hy.
  assert (forall p, p ∈ B' -> val sl p <> val sl y /\ val sl p <> t) as HB'.
  { intros p Hp. pose proof (Hy (val sl p) ltac:(by apply list_elem_of_fmap_2)) as Hyp. cbn beta in Hyp. split; intros Heq; rw Heq in Hyp; [by rw (so_irrefl less U Hless) in Hyp|]. pose proof (HB y ltac:(set_solver)). congruence. }
  destruct (decide (val sl y = t)) as [Heq|Hne].
  - right. exists y, B'. split_and!; [done|done|rw isEqual_eq; [by apply bool_decide_true|apply HU; set_solver|done]|]. intros p Hp. rw isEqual_eq; [apply bool_decide_false; by apply HB'|apply HU; set_solver|done].
  - left. intros p Hp. rw isEqual_eq; [apply bool_decide_false|by apply HU|done]. apply elem_of_cons in Hp as [->|Hp]; [done|by apply HB'].
Qed.
Lemma removeIfAny_skip {E} sl l S t : S ⊆ U -> t ∈ U -> rep sl l -> holds less (elems sl l) S ->
  exists sl' prevs d A B, Skip_removeIfAny less (E := E) sl t = Ok (sl', prevs, d) /\ rep sl' (A ++ B) /\ same_nodes sl sl' /\ length prevs = length (header sl) /\
    (forall i pl, prevs !! i = Some pl -> at_level sl A i pl) /\ removeIfAny less t (elems sl l) = (elems sl A, elems sl B, val sl <$> d) /\
    (if d then l = A ++ (default 0%nat d) :: B else l = A ++ B).
Proof.
  intros HSU Ht Hrep Hh. destruct (place_split sl l S t HSU Ht Hh) as (A & B & Hl & HA & HB & Hsp). rw Hl in Hrep Hh. destruct (searchPrev_ok less t sl A B Hrep HA HB (E := E)) as (prevs & Hs & Hlen & Hat).
  unfold Skip_removeIfAny, removeIfAny. rw Hs Hsp. cbn [mbind res_bind]. destruct (rest_of sl A B S t HSU Ht Hh HB) as [Hne|(y & B' & HBy & Hvy & Hy & HB')].
  - rw (remove_none less t sl A B Hrep prevs Hne); [|intros pl Hpl; apply Hat; by rw -head_lookup]. cbn [mbind res_bind]. exists sl, prevs, None, A, B. split_and!; [done|done|done|done|done| |done].
    destruct B as [|y B]; [done|]. cbn. by rw Hne; [|set_solver].
  - unfold Skip_remove. destruct (remove_levels_ok less t sl A B Hrep y B' HBy Hy (E := E) prevs 0 sl None) as (sl2 & -> & Hs2 & Hnx); [done|done|intros k pl Hk; by apply (at_level_removes less t sl A B Hrep y B'), Hat|]. cbn [mbind res_bind].
    rw decide_True. { exists sl2, prevs, (Some y), A, B'. split_and!; [done| |done|done|done| |by rw Hl HBy].
      - apply (removed_rep less t sl A B Hrep y B' HBy Hy HB' sl2 prevs); [done|intros i pl Hi; by apply (at_level_removes less t sl A B Hrep y B' HBy Hy HB'), Hat|done|done].
      - rw HBy. cbn. by rw Hy Hvy. }
    split; [apply (rep_node sl A B Hrep); rw HBy; set_solver|]. intros ->. pose proof (rp_top _ _ Hrep). cbn in Hlen. lia.
Qed.

Lemma Delete_ok {E} sl l S t : S ⊆ U -> t ∈ U -> represents sl l -> holds less (elems sl l) S ->
  exists sl' l', Skip_Delete less (E := E) sl t = Ok (sl', (Container_Delete less t (elems sl l)).2) /\ represents sl' l' /\ elems sl' l' = (Container_Delete less t (elems sl l)).1.
Proof.
  intros HSU Ht [Hrep Hsz] Hh. destruct (removeIfAny_skip (E := E) sl l S t HSU Ht Hrep Hh) as (sl' & prevs & d & A & B & Hr & Hrep' & Hs & _ & _ & Hlist & Hl).
  unfold Skip_Delete, Container_Delete. rw Hr Hlist. cbn [mbind res_bind fst snd]. assert (elems sl' (A ++ B) = elems sl A ++ elems sl B) as He by (rw (elems_same sl sl' _ Hs); apply map_app). destruct d as [y|]; cbn [default] in Hl.
  - destruct (nload_ok (E := E) sl' y) as (n & -> & Hn). { rw (sn_height _ _ Hs). pose proof (rp_node sl l Hrep y ltac:(rw Hl; set_solver)). lia. }
    cbn [mbind res_bind]. exists (with_size sl' (sl_size sl' - 1)), (A ++ B). rw (sn_elem _ _ Hs) in Hn. split_and!; [unfold val; cbn; by rw Hn| |done].
    split; [by apply rep_with_size|]. cbn. rw (sn_size _ _ Hs) Hsz Hl !length_app. cbn. lia.
  - exists sl', (A ++ B). split_and!; [done| |done]. split; [done|]. by rw (sn_size _ _ Hs) Hsz Hl.
Qed.
Lemma flips_bounds n : forall coins r, (r <= flips n coins r <= r + n)%nat.
Proof. induction n as [|n IH]; intros [|[] coins] r; cbn; try lia. specialize (IH coins (S r)). lia. Qed.
Lemma rep_alloc sl l p n : sl_nodes sl !! p = None -> rep sl l -> let sl' := mkSkip (<[p := n]> (sl_nodes sl)) (header sl) (sl_size sl) in
  p ∉ l /\ rep sl' l /\ (forall q, q ∈ l -> val sl' q = val sl q).
Proof.
  intros Hp Hrep sl'. assert (p ∉ l) as Hpl by (intros Hin; pose proof (rp_node sl l Hrep p Hin) as Hn; cbn in Hn; rw Hp in Hn; cbn in Hn; lia). destruct Hrep as [Hnd Htop Hnode Hnext].
  assert (forall q, q ∈ l -> sl_nodes sl' !! q = sl_nodes sl !! q) as Hq by (intros q Hq; cbn; rw lookup_insert_ne //; by intros ->).
  assert (forall a b, l = a ++ b -> last_place a = Hdr \/ exists q, q ∈ l /\ last_place a = At q) as Hlast. { intros a b ->. destruct (decide (a = [])) as [->|Ha]; [by left|]. destruct (last_place_in a Ha) as (q & ? & ?). right. exists q. set_solver. }
  assert (forall i b, (forall q, q ∈ b -> q ∈ l) -> level sl' i b = level sl i b) as Hlev.
  { intros i b Hb. unfold level. induction b as [|q b IH]; [done|]. rw !filter_cons IH; [|set_solver]. assert (tall sl' i q <-> tall sl i q) as Ht by (unfold tall, height; by rw Hq; [|apply Hb; set_solver]). do 2 case_decide; naive_solver. }
  split_and!; [done| |intros q Hin; unfold val, elem_of_node; by rw Hq]. split; [done|done|intros q Hin; cbn [height]; rw Hq //; by apply Hnode|]. intros i a b Hab Hi. rw Hlev; [|rw Hab; set_solver].
  destruct (Hlast a b Hab) as [Hla|(q & Hin & Hla)]; rw Hla in Hi |- *; cbn [height next_of] in *; [|rw Hq // in Hi; rw Hq //]; (rw -(Hnext i a b Hab); by rw Hla).
Qed.
Lemma ReplaceOrInsert_skip {E} sl l S t coins p : S ⊆ U -> t ∈ U -> represents sl l -> holds less (elems sl l) S -> sl_nodes sl !! p = None ->
  exists sl' l', Skip_ReplaceOrInsert less (E := E) sl t coins p = Ok sl' /\ represents sl' l' /\ elems sl' l' = ReplaceOrInsert less t (elems sl l).
Proof.
  intros HSU Ht [Hrep Hsz] Hh Hp. unfold Skip_ReplaceOrInsert. set (k := calcInsertionHeight (getMaxHeight sl) coins). set (sl0 := mkSkip _ _ _).
  destruct (rep_alloc sl l p (mkNode t (replicate k None)) Hp Hrep) as (Hpl & Hrep0 & Hval). fold sl0 in Hrep0, Hval. assert (elems sl0 l = elems sl l) as He0 by (apply map_ext_in; intros q Hq; by apply Hval, list_elem_of_In). rw -He0 in Hh.
  destruct (removeIfAny_skip (E := E) sl0 l S t HSU Ht Hrep0 Hh) as (sl1 & prevs & d & A & B & -> & Hrep1 & Hs1 & Hlen & Hat & Hlist & Hl). cbn [mbind res_bind].
  assert (height sl0 (At p) = k) as Hhp by (cbn; rw lookup_insert_eq; cbn; by rw length_replicate). assert (1 <= k <= length (header sl0))%nat as Hk.
  { unfold k, calcInsertionHeight, getMaxHeight. pose proof (flips_bounds (length (header sl) - 1) coins 1). pose proof (rp_top sl l Hrep). cbn. lia. }
  set (sl2 := match d with None => with_size sl1 (sl_size sl1 + 1) | Some _ => sl1 end). assert (rep sl2 (A ++ B)) as Hrep2 by (unfold sl2; destruct d; [done|by apply rep_with_size]).
  assert (forall pl, height sl2 pl = height sl0 pl) as Hh2 by (intros pl; rw -(sn_height _ _ Hs1); unfold sl2; by destruct d, pl).
  assert (forall q, elem_of_node sl2 q = elem_of_node sl0 q) as Hv2 by (intros q; rw -(sn_elem _ _ Hs1); unfold sl2; by destruct d).
  assert (sl_size sl2 = Z.of_nat (length (A ++ p :: B))) as Hsz2. { unfold sl2. pose proof (sn_size _ _ Hs1) as Hz. cbn in Hz. rw Hsz in Hz. destruct d; cbn [default with_size sl_size] in *; rw Hz Hl !length_app; cbn [length]; lia. }
  assert (forall i pl, prevs !! i = Some pl -> at_level sl2 A i pl) as Hat2.
  { intros i pl Hi. destruct (Hat i pl Hi) as (a & c & Ha & Hpl' & Hih & Hc). exists a, c. split_and!; [done|done|by rw Hh2|]. rw -Hc. unfold level. apply list_filter_iff. intros q. unfold tall. by rw Hh2. }
  assert (length prevs = length (header sl2)) as Hlen2. { rw Hlen. change (height sl0 Hdr = height sl2 Hdr). by rw Hh2. }
  assert (p ∉ A ++ B) as HpAB by (destruct d; rw Hl in Hpl; set_solver).
  destruct (link_levels_ok sl2 A B Hrep2 p HpAB prevs Hlen2 Hat2 ltac:(rw Hh2 Hhp; change (length (header sl2)) with (height sl2 Hdr); rw Hh2; exact Hk) (E := E) k 0 sl2) as (sl3 & -> & Hs3 & Hnx3); [by rw Hh2 Hhp|done|done|].
  exists sl3, (A ++ p :: B). split_and!; [done| |].
  - split; [|by rw (sn_size _ _ Hs3)]. apply (linked_rep sl2 A B Hrep2 p HpAB prevs Hlen2 Hat2); [|done|done]. rw Hh2 Hhp. change (length (header sl2)) with (height sl2 Hdr). by rw Hh2.
  - rw (elems_same sl2 sl3 _ Hs3) -He0. unfold ReplaceOrInsert. rw Hlist. unfold elems. rw map_app. cbn [map]. unfold val. setoid_rewrite Hv2. f_equal. f_equal. unfold elem_of_node. cbn. by rw lookup_insert_eq.
Qed.

Lemma level_0 sl l b : rep sl l -> (forall p, p ∈ b -> p ∈ l) -> level sl 0 b = b.
Proof. intros Hrep Hb. unfold level. induction b as [|p b IH]; [done|]. rw filter_cons_True; [f_equal; apply IH; set_solver|]. pose proof (rp_node sl l Hrep p (Hb p ltac:(set_solver))). unfold tall. lia. Qed.
Lemma nload_val {E} sl l p : rep sl l -> p ∈ l -> exists n, nload (E := E) sl p = Ok n /\ nd_elem n = val sl p.
Proof. intros Hrep Hp. destruct (nload_ok (E := E) sl p) as (n & -> & Hn); [pose proof (rp_node sl l Hrep p Hp); lia|]. exists n. split; [done|]. unfold val. by rw Hn. Qed.
Lemma Search_ok {E} sl l S t : S ⊆ U -> t ∈ U -> rep sl l -> holds less (elems sl l) S -> Search less (E := E) sl t = Ok (if decide (t ∈ S) then Some t else None).
Proof.
  intros HSU Ht Hrep Hh. destruct (place_split sl l S t HSU Ht Hh) as (A & B & -> & HA & HB & _). destruct (searchPrev_ok less t sl A B Hrep HA HB (E := E)) as (prevs & Hs & Hlen & Hat).
  pose proof (rp_top _ _ Hrep) as Htop. unfold Search. rw Hs. cbn [mbind res_bind]. destruct prevs as [|pl prevs]; [cbn in Hlen; lia|]. cbn [head deref mbind res_bind]. specialize (Hat 0%nat pl eq_refl).
  rw get_next_ok; [|by destruct Hat as (_ & _ & _ & _ & ? & _)]. cbn [mbind res_bind]. rw (at_level_next sl A B Hrep 0 pl Hat) (level_0 sl (A ++ B) B Hrep); [|set_solver]. pose proof Hh as [_ HS].
  assert (t ∈ S <-> exists p, p ∈ B /\ val sl p = t) as HtS.
  { rw -HS. unfold elems. rw list_elem_of_fmap. split; [intros (p & -> & [Hp|Hp]%elem_of_app)|intros (p & Hp & <-); exists p; set_solver]; [|by exists p]. pose proof (HA p Hp) as Hlt. by rw (so_irrefl less U Hless) in Hlt. }
  destruct B as [|y B]; cbn [head]; [rw decide_False //; rw HtS; by intros (p & ?%elem_of_nil & _)|]. destruct (nload_val (E := E) sl (A ++ y :: B) y Hrep) as (n & -> & Hn); [set_solver|]. cbn [mbind res_bind]. rw Hn.
  destruct (rest_of sl A (y :: B) S t HSU Ht Hh HB) as [Hne|(y' & B' & [= <- <-] & Hv & Hy & _)].
  - rw Hne; [|set_solver]. rw decide_False //. rw HtS. intros (p & Hp & Hv). specialize (Hne p Hp). rw Hv isEqual_eq // bool_decide_true // in Hne.
  - rw Hy decide_True; [by rw Hv|]. apply HtS. exists y. set_solver.
Qed.
Lemma Min_ok {E} sl l : rep sl l -> Min (E := E) sl = Ok (head (elems sl l)).
Proof.
  intros Hrep. unfold Min. rw get_next_ok; [|apply (rp_top _ _ Hrep)]. cbn [mbind res_bind]. pose proof (rp_next sl l Hrep 0 [] l eq_refl (rp_top _ _ Hrep)) as Hn. cbn [last_place last] in Hn. rw Hn (level_0 sl l l Hrep) //.
  destruct l as [|p l]; [done|]. cbn [head]. destruct (nload_val (E := E) sl (p :: l) p Hrep) as (n & -> & Hv); [set_solver|]. cbn [mbind res_bind]. by rw Hv.
Qed.
(** The handler is called in order while it returns true. *)
Fixpoint visit {S} (iterHandler : nat -> S -> S * bool) (l : list nat) (s : S) : S :=
  match l with [] => s | x :: l => let '(s, go) := iterHandler x s in if (go : bool) then visit iterHandler l s else s end.
Lemma ascend_ok {E S} sl (f : nat -> S -> S * bool) b : forall fuel a s, rep sl (a ++ b) -> (length b < fuel)%nat -> ascend (E := E) fuel sl f (head b) s = Ok (visit f (elems sl b) s).
Proof.
  induction b as [|p b IH]; intros [|fuel] a s Hrep Hf; cbn [length] in Hf; try lia; cbn [ascend head elems map visit]; [done|]. destruct (nload_val (E := E) sl (a ++ p :: b) p Hrep) as (n & -> & Hv); [set_solver|]. cbn [mbind res_bind]. rw Hv.
  destruct (f (val sl p) s) as [s' []]; [|done]. rw get_next_ok; [|pose proof (rp_node _ _ Hrep p ltac:(set_solver)); lia]. cbn [mbind res_bind]. pose proof (rp_next sl _ Hrep 0 (a ++ [p]) b) as Hn. rw last_place_snoc -app_assoc in Hn.
  rw Hn //; [|pose proof (rp_node _ _ Hrep p ltac:(set_solver)); lia]. rw (level_0 sl (a ++ p :: b) b Hrep); [|set_solver]. apply (IH fuel (a ++ [p])); [by rw -app_assoc|lia].
Qed.
Lemma Ascend_ok {E S} sl l (f : nat -> S -> S * bool) s : rep sl l -> Ascend (E := E) sl f s = Ok (visit f (elems sl l) s).
Proof.
  intros Hrep. unfold Ascend. rw get_next_ok; [|apply (rp_top _ _ Hrep)]. cbn [mbind res_bind]. pose proof (rp_next sl l Hrep 0 [] l eq_refl (rp_top _ _ Hrep)) as Hn. cbn [last_place last] in Hn. rw Hn (level_0 sl l l Hrep) //.
  apply (ascend_ok sl f l _ []); [done|]. pose proof (rep_length sl l Hrep). lia.
Qed.
Lemma max_empty {E} sl h : rep sl [] -> (h <= length (header sl))%nat -> exists prevs, max_levels (E := E) sl h Hdr = Ok prevs.
Proof.
  intros Hrep. induction h as [|h IH]; intros Hh; cbn [max_levels walk_last]; [by eexists|]. rw get_next_ok; [|done]. cbn [mbind res_bind]. pose proof (rp_next sl [] Hrep h [] [] eq_refl Hh) as Hn. cbn [last_place last] in Hn. rw Hn. cbn.
  destruct IH as [prevs ->]; [lia|]. by eexists.
Qed.
Lemma DeleteMax_ok {E} sl l S : S ⊆ U -> represents sl l -> holds less (elems sl l) S ->
  Max (E := E) sl = Ok (last (elems sl l)) /\ exists sl' l', DeleteMax less (E := E) sl = Ok (sl', last (elems sl l)) /\ represents sl' l' /\ elems sl' l' = removelast (elems sl l).
Proof.
  intros HSU [Hrep Hsz] Hh. unfold Max, DeleteMax, Skip_max, getMaxHeight. destruct l as [|y A _] using rev_ind.
  { destruct (max_empty (E := E) sl (length (header sl)) Hrep ltac:(done)) as [prevs ->]. cbn [mbind res_bind]. rw Hsz. cbn. split; [done|]. exists sl, []. by split_and!. }
  destruct (max_levels_ok sl A y Hrep (E := E) (length (header sl)) Hdr) as (prevs & -> & Hlen & Hp); [by exists [], A|done|]. cbn [mbind res_bind]. assert ((sl_size sl =? 0) = false) as -> by (apply Z.eqb_neq; rw Hsz length_app; cbn; lia).
  pose proof (rp_top _ _ Hrep) as Htop. pose proof (rp_node _ _ Hrep y ltac:(set_solver)) as Hyh. assert (exists pl prevs', prevs = pl :: prevs') as (pl & prevs' & Hpp) by (destruct prevs as [|pl prevs']; [cbn in Hlen; lia|by exists pl, prevs']).
  assert (at_level sl A 0 pl) as Hat by (destruct (Hp 0%nat pl) as (_ & Hat & _); [by rw Hpp|apply Hat; lia]). assert (next_of sl pl 0 = Some y) as Hnx. { rw (at_level_next sl A [y] Hrep 0 pl Hat) (level_0 sl (A ++ [y]) [y] Hrep); [done|set_solver]. }
  assert (last (elems sl (A ++ [y])) = Some (val sl y)) as -> by (unfold elems; rw map_app; apply last_snoc). destruct (nload_val (E := E) sl (A ++ [y]) y Hrep ltac:(set_solver)) as (n & Hn & Hv).
  rw Hpp. cbn [head deref mbind res_bind]. assert (0 < height sl pl)%nat as Hh0 by (by destruct Hat as (_ & _ & _ & _ & ? & _)). rw get_next_ok // Hnx. cbn [deref mbind res_bind]. rw Hn. cbn [mbind res_bind]. split; [by rw Hv|].
  set (sl1 := with_size sl (sl_size sl - 1)). assert (rep sl1 (A ++ [y])) as Hrep1 by (by apply rep_with_size). rw -Hpp.
  assert (val sl y ∈ U) as HyU by (apply (elems_U sl (A ++ [y]) S); [done|done|set_solver]). assert (isEqual less (val sl1 y) (val sl y) = true) as Hy by (change (val sl1 y) with (val sl y); rw isEqual_eq //; by apply bool_decide_true).
  assert (forall i pl', prevs !! i = Some pl' -> removes_at less (val sl y) sl1 A y i pl') as Hrm.
  { intros i pl' Hi. destruct (Hp i pl' Hi) as (Hh' & H1 & H2 & _). split; [exact H1|]. intros Hge. split; [exact Hh'|]. intros p Hpn. specialize (H2 Hge p Hpn). split; [pose proof (rp_node _ _ Hrep p ltac:(set_solver)) as Hph; unfold sl1; cbn in *; lia|].
    change (val sl1 p) with (val sl p). rw isEqual_eq //; [|apply (elems_U sl (A ++ [y]) S); [done|done|set_solver]]. apply bool_decide_false. destruct Hh as [Hl _]. unfold elems in Hl. rw map_app in Hl. apply sorted_app in Hl as (_ & _ & Hl).
    intros Heq. pose proof (Hl (val sl p) (val sl y) ltac:(by apply list_elem_of_fmap_2) ltac:(set_solver)) as Hlt. by rw Heq (so_irrefl less U Hless) in Hlt. }
  rw (get_next_ok sl1 pl 0 Hh0). change (next_of sl1 pl 0) with (next_of sl pl 0). rw Hnx. cbn [deref mbind res_bind]. change (nload (E := E) sl1 y) with (nload (E := E) sl y). rw Hn. cbn [mbind res_bind].
  unfold Skip_remove. rw Hv. destruct (remove_levels_ok less (val sl y) sl1 A [y] Hrep1 y [] eq_refl Hy (E := E) prevs 0 sl1 None) as (sl2 & -> & Hs2 & Hnx2); [done|done|done|]. cbn [mbind res_bind].
  rw decide_True; [|split; [change (0 < height sl (At y))%nat; lia|by rw Hpp]]. cbn [deref mbind res_bind]. destruct (nload_ok (E := E) sl2 y) as (n2 & -> & Hn2); [rw (sn_height _ _ Hs2); change (0 < height sl (At y))%nat; lia|]. cbn [mbind res_bind].
  exists sl2, A. split_and!.
  - rw (sn_elem _ _ Hs2) in Hn2. do 3 f_equal. unfold val. change (elem_of_node sl1 y) with (elem_of_node sl y) in Hn2. by rw Hn2.
  - split; [|rw (sn_size _ _ Hs2); cbn; rw Hsz length_app; cbn; lia]. rw -(app_nil_r A). apply (removed_rep less (val sl y) sl1 A [y] Hrep1 y [] eq_refl Hy ltac:(by intros ? ?%elem_of_nil) sl2 prevs); done.
  - rw (elems_same sl1 sl2 _ Hs2). unfold elems. rw map_app. cbn [map]. by rw removelast_last.
Qed.
End Operations.

Lemma New_represents n : represents (New n) [].
Proof.
  assert (1 <= length (header (New n)))%nat as Htop. { unfold New. cbn [header]. rw length_replicate. set (k := if n <? 2 then 2 else n). assert (2 <= k) by (unfold k; destruct (Z.ltb_spec n 2); lia). pose proof (Z.log2_up_pos k). lia. }
  split; [|done]. split; [constructor|done|by intros ? ?%elem_of_nil|]. intros i a b Hab _. symmetry in Hab. apply app_nil in Hab as [-> ->]. cbn. destruct (replicate _ None !! i) as [v|] eqn:E; [|done]. by apply lookup_replicate in E as [-> _].
Qed.

(** ** The property *)
(** C19. Whatever the coins and whatever strict total order is in force, each operation of
    the skip list ends without a panic and does to the structure what the operation on
    the sorted list does: inserting or replacing an element, deleting one, deleting the
    largest; Search, Min, Max, Len and Ascend return what the list has.  An empty skip
    list represents the empty list. *)
Theorem skiplist_refines less U sl l S t coins p : strict_on less U -> S ⊆ U -> t ∈ U -> represents sl l -> holds less (elems sl l) S -> sl_nodes sl !! p = None ->
  (exists sl' l', Skip_ReplaceOrInsert less (E := unit) sl t coins p = Ok sl' /\ represents sl' l' /\ elems sl' l' = ReplaceOrInsert less t (elems sl l) /\ holds less (elems sl' l') ({[t]} ∪ S)) /\
  (exists sl' l', Skip_Delete less (E := unit) sl t = Ok (sl', if decide (t ∈ S) then Some t else None) /\ represents sl' l' /\ elems sl' l' = (Container_Delete less t (elems sl l)).1 /\ holds less (elems sl' l') (S ∖ {[t]})) /\
  (exists sl' l', DeleteMax less (E := unit) sl = Ok (sl', last (elems sl l)) /\ represents sl' l' /\ elems sl' l' = removelast (elems sl l)) /\
  Search less (E := unit) sl t = Ok (if decide (t ∈ S) then Some t else None) /\ Min (E := unit) sl = Ok (head (elems sl l)) /\ Max (E := unit) sl = Ok (last (elems sl l)) /\
  Len sl = Z.of_nat (length (elems sl l)) /\ (forall A (f : nat -> A -> A * bool) s, Ascend (E := unit) sl f s = Ok (visit f (elems sl l) s)) /\ forall n, represents (New n) [].
Proof.
  intros Hless HSU Ht Hrep Hh Hp. destruct (DeleteMax_ok less U Hless (E := unit) sl l S HSU Hrep Hh) as [Hmax Hdel]. split_and!.
  - destruct (ReplaceOrInsert_skip less U Hless (E := unit) sl l S t coins p HSU Ht Hrep Hh Hp) as (sl' & l' & H1 & H2 & H3). exists sl', l'. split_and!; [done|done|done|]. rw H3. by apply (ReplaceOrInsert_ok less U).
  - destruct (Delete_ok less U Hless (E := unit) sl l S t HSU Ht Hrep Hh) as (sl' & l' & H1 & H2 & H3). destruct (Container_Delete_ok less U (elems sl l) S t Hless HSU Ht Hh) as (l2 & Hc & Hh2). rw Hc in H1 H3 |- *. exists sl', l'. split_and!; [done|done|done|]. by rw H3.
  - done.
  - apply (Search_ok less U Hless sl l S t); [done|done|apply Hrep|done].
  - eapply Min_ok; [exact Hless|apply Hrep].
  - done.
  - unfold Len, elems. rw length_map. apply Hrep.
  - intros A f s. eapply Ascend_ok; [exact Hless|apply Hrep].
  - apply New_represents.
Qed.
Lemma nat_strict : strict_on Nat.ltb (list_to_set [3; 5; 9]%nat : gset nat).
Proof. split; [apply Nat.ltb_irrefl|intros x y z _ _ _; rw !Nat.ltb_lt; lia|intros x y _ _; rw !Nat.ltb_lt; lia]. Qed.
Lemma skiplist_refines_witness : exists sl' l', Skip_ReplaceOrInsert Nat.ltb (E := unit) (New 30000) 5 [true; false] 1 = Ok sl' /\ represents sl' l' /\ elems sl' l' = [5%nat].
Proof.
  destruct (skiplist_refines Nat.ltb (list_to_set [3; 5; 9]%nat) (New 30000) [] ∅ 5 [true; false] 1 nat_strict) as [(sl' & l' & H1 & H2 & H3 & _) _]; [apply empty_subseteq|by vm_compute|apply New_represents| |done|by exists sl', l'].
  split; [constructor|]. intros x. split; intros Hx; [by apply elem_of_nil in Hx|by apply elem_of_empty in Hx].
Defined.
