(* ===== verification/Accept.v ===== *)
(** * Accepting transactions into the memory pool (logic/ltx/ltx.go, logic/lmempool)

    The checks a transaction passes before it enters the pool, against the active chain,
    the UTXO set and the pool itself.  What they change is the record [node]: the pool and
    the cache of coins.  The clock, the configuration, the order of a range over a map and
    the order in which script results arrive are parameters. *)
From S2P Require Import Prelude Errors Wire ScriptNum Opcodes Script ScriptFacts Tx TxFacts Crypto Compress Coins Block Undo.
From S2P Require Import Stack Slice Interp Ltx BlockIndex Chain Mempool.

(** ** Constants and configuration *)
Definition LocktimeMedianTimePast : Z := 2.
Definition StandardLockTimeVerifyFlags : Z := LocktimeVerifySequence .| LocktimeMedianTimePast.
Definition StandardCheckDataSigVerifyFlags : Z := StandardScriptVerifyFlags .| ScriptEnableCheckDataSig.
Definition MaxP2SHSigOps : Z := 15.
Definition MaxTxSigOpsCount : Z := 20000.
Definition MaxStandardTxSigOps : Z := MaxTxSigOpsCount / 5.
Definition RollingFeeHalfLife : Z := 12 * 60 * 60.

Record PoolConfig := {
  RequireStandard : bool;
  cfg_policy : Policy;
  (** the flags as a number, [None] when they are not one *)
  PromiscuousMempoolFlags : option Z;
  MaxPoolSize : Z;
  MaxPoolExpiry : Z;
  LimitAncestorCount : Z;
  LimitAncestorSize : Z;
  LimitDescendantCount : Z;
  LimitDescendantSize : Z }.
Definition conf_limits (conf : PoolConfig) : Limits :=
  mkLimits (u64 (LimitAncestorCount conf)) (u64 (i64 (LimitAncestorSize conf * 1000)))
           (u64 (LimitDescendantCount conf)) (u64 (i64 (LimitDescendantSize conf * 1000))).

(** ** Errors *)
Inductive AcceptErr :=
| TxError (e : TxErr)
| RejectAlreadyKnown (reason : string)
| RejectConflict (reason : string)
| RejectInsufficientFee
| TxErrNoPreviousOut
| ScriptCheckInputsBug
| PoolError (e : MemPoolErr).
Definition IsNoPreviousOut (e : AcceptErr) : bool := match e with TxErrNoPreviousOut => true | _ => false end.

(** ** The state *)
Record node `{LruCache} := mkNode { n_pool : TxMempool; n_view : CoinsLruCache }.

(** The state survives an error. *)
Definition acc `{LruCache} (A : Type) : Type := node -> node * res AcceptErr A.
#[export] Instance acc_ret `{LruCache} : MRet acc := fun A a n => (n, Ok a).
#[export] Instance acc_bind `{LruCache} : MBind acc := fun A B f m n =>
  match m n with
  | (n, Ok a) => f a n
  | (n, Err e) => (n, Err e)
  | (n, Panic) => (n, Panic)
  end.

Section State.
Context `{LruCache}.
Definition refuse {A} (e : AcceptErr) : acc A := fun n => (n, Err e).
Definition crash {A} : acc A := fun n => (n, Panic).
Definition pool_of {A} (f : TxMempool -> A) : acc A := fun n => (n, Ok (f (n_pool n))).
Definition set_pool (m : TxMempool) : acc unit := fun n => (mkNode _ m (n_view n), Ok tt).
(** A computation that changes nothing. *)
Definition pure {A} (r : res AcceptErr A) : acc A := fun n => (n, r).
Definition txcheck {A} (r : res TxErr A) : acc A := fun n =>
  (n, match r with Ok a => Ok a | Err e => Err (TxError e) | Panic => Panic end).
(** A computation on the cache of coins that has no error. *)
Definition on_view {A} (f : CoinsLruCache -> res AcceptErr (A * CoinsLruCache)) : acc A := fun n =>
  match f (n_view n) with
  | Ok (a, st) => (mkNode _ (n_pool n) st, Ok a)
  | Err e => (n, Err e)
  | Panic => (n, Panic)
  end.
(** The error of a call, [None] for nil. *)
Definition attempt (m : acc unit) : acc (option AcceptErr) := fun n =>
  match m n with
  | (n, Ok _) => (n, Ok None)
  | (n, Err e) => (n, Ok (Some e))
  | (n, Panic) => (n, Panic)
  end.
End State.

(** ** The minimum fee of the pool (model/mempool/txmempool.go) *)
(** The int64 of the float64 quotient of [2 ^ dt] by [h], for [dt >= 0] and [0 < h < 2 ^ 53]: the
    quotient rounded to 53 bits, to even in the middle, then truncated.  What a number
    beyond int64 is converted to is up to the implementation ([overflow]). *)
Definition round_half_even (a b : Z) : Z :=
  let q := a / b in let r := 2 * (a mod b) in
  if r <? b then q else if b <? r then q + 1 else if Z.even q then q else q + 1.
Definition pow2_quot (overflow dt h : Z) : Z :=
  if 1024 <=? dt then overflow
  else if 2 ^ dt <? h then 0
  else
    let l := Z.log2 (2 ^ dt / h) in
    let v := round_half_even (2 ^ (dt + 52 - l)) h .<< (l - 52) in
    if v <? 2 ^ 63 then v else overflow.
Definition with_rolling (rate update : Z) (m : TxMempool) : TxMempool :=
  mkPool (entries m) (poolData m) (nextTx m) (rootTx m) (txByAncestorFeeRateSort m) (timeSortData m) (usageSize m) (totalTxSize m) (TransactionsUpdated m)
    (orphanPool m) (incrementalRelayFee m) rate (blockSinceLastRollingFeeBump m) update.
Definition GetMinFee {E} (overflow now sizeLimit : Z) (m : TxMempool) : res E (Z * TxMempool) :=
  if negb (blockSinceLastRollingFeeBump m) || (rollingMinimumFeeRate m =? 0) then Ok (rollingMinimumFeeRate m, m)
  else
    let rate (m : TxMempool) := if incrementalRelayFee m <? rollingMinimumFeeRate m then rollingMinimumFeeRate m else incrementalRelayFee m in
    if i64 (lastRollingFeeUpdate m + 10) <? now then
      let halfLife := if usageSize m <? Z.quot sizeLimit 4 then RollingFeeHalfLife / 4
                      else if usageSize m <? Z.quot sizeLimit 2 then RollingFeeHalfLife / 2 else RollingFeeHalfLife in
      let d := pow2_quot overflow (i64 (now - lastRollingFeeUpdate m)) halfLife in
      if d =? 0 then Panic
      else
        let r := i64 (Z.quot (rollingMinimumFeeRate m) d) in
        if r <? Z.quot (GetFeePerK (incrementalRelayFee m)) 2 then Ok (0, with_rolling 0 now m)
        else let m := with_rolling r now m in Ok (rate m, m)
    else Ok (rate m, m).

(** ** What the checks read of the active chain *)
Definition chain_view {E} (c : Chain) : res E ChainView :=
  ht ← Chain_Height c;
  mtp ← GetMedianTimePast (c_heap c) (tip c);
  Ok {| cv_Height := ht;
        cv_TipMTP := mtp;
        cv_AncestorMTP := fun n =>
          match GetMedianTimePast (E := unit) (c_heap c) (Chain_GetAncestor c n) with Ok t => Some t | _ => None end;
        cv_GetSpendHeight := fun best =>
          match GetSpendHeight (E := unit) c (default HashZero best) with Ok n => n | _ => -1 end |}.

Section Accept.
Context `{Secp256k1} `{LruCache} `{Hashes}.
Context (grow : nat -> nat -> nat) (drain : list (option TxErr) -> list (option TxErr)).
Context (range : gset nat -> list nat) (sizeof_TxEntry overflow : Z).
Context (p : ForkParams) (conf : PoolConfig) (c : Chain).
(** The clock, and the clock adjusted to the peers'. *)
Context (now adjusted : Z).

(** ** Lock times *)
Definition ContextualCheckTransactionForCurrentBlock (t : Tx) (flags : Z) : res TxErr unit :=
  let flags := if flags <? 0 then 0 else flags in
  cv ← chain_view c;
  let nLockTimeCutoff := if all_flag flags LocktimeMedianTimePast then cv_TipMTP cv else adjusted in
  ContextualCheckTransaction (fp_net p) t (i32 (cv_Height cv + 1)) nLockTimeCutoff (cv_TipMTP cv).

(** ** Inputs *)
Fixpoint outputs_exist (h : bytes) (n : nat) (i : Z) : acc bool :=
  match n with
  | O => mret false
  | S n =>
      have ← on_view (fun st => HaveCoin st (mkOutPoint h (u32 i)));
      if (have : bool) then mret true else outputs_exist h n (i + 1)
  end.
Definition areOutputsAlreadExist (t : Tx) : acc bool := outputs_exist (txid Sha256 t) (length (outs t)) 0.

(** The coin of the UTXO set or, when there is none, of the pool. *)
Definition find_coin (o : OutPoint) : acc (option Coin) :=
  coin ← on_view (fun st => GetCoin st o);
  match coin with
  | Some coin => mret (Some coin)
  | None => m ← pool_of id; pure (Mempool_GetCoin m o)
  end.
(** The coins of the inputs, [None] when an input is missing, and whether one of them is
    of a coinbase. *)
Fixpoint input_coins (l : list TxIn) (cm : CoinsMap) (spendCoinbase : bool) : acc (option CoinsMap * bool) :=
  match l with
  | [] => mret (Some cm, spendCoinbase)
  | i :: l =>
      coin ← find_coin (PreviousOutPoint i);
      match coin with
      | None => mret (None, spendCoinbase)
      | Some coin =>
          if IsSpent coin then mret (None, spendCoinbase)
          else
            cm ← pure (AddCoin cm (PreviousOutPoint i) coin);
            input_coins l cm (spendCoinbase || coin_isCoinBase coin)
      end
  end.
Definition inputCoinsOf (t : Tx) : acc (option CoinsMap * bool) := input_coins (ins t) ∅ false.
Definition isCoinValid (m : TxMempool) (coin : option Coin) (o : OutPoint) : bool :=
  match coin with
  | None => false
  | Some coin => if coin_isMempoolCoin coin then negb (HasSpentOut m o) else negb (IsSpent coin)
  end.

Fixpoint previous_heights (tipHeight : Z) (l : list TxIn) : acc (option (list Z)) :=
  match l with
  | [] => mret (Some [])
  | e :: l =>
      coin ← find_coin (PreviousOutPoint e);
      match coin with
      | None => mret None
      | Some coin =>
          hs ← previous_heights tipHeight l;
          mret ((fun hs => (if coin_isMempoolCoin coin then i32 (tipHeight + 1) else coin_height coin) :: hs) <$> hs)
      end
  end.
(** calculateSequenceLockPair overwrites the heights of the inputs whose lock is disabled. *)
Definition heights_after (t : Tx) (preHeight : list Z) (flags : Z) : list Z :=
  if (2 <=? version t) && all_flag flags LocktimeVerifySequence then
    zip_with (fun e h => if Sequence e .& SequenceLockTimeDisableFlag =? SequenceLockTimeDisableFlag then 0 else h) (ins t) preHeight
  else preHeight.
Definition max_input_height (tipHeight : Z) (l : list Z) : Z :=
  foldl (fun m h => if negb (h =? i32 (tipHeight + 1)) && (m <? h) then h else m) 0 l.
Definition CalculateLockPoints (t : Tx) (flags : Z) : acc (option LockPoints) :=
  tipHeight ← pure (Chain_Height c);
  hs ← previous_heights tipHeight (ins t);
  match hs with
  | None => mret None
  | Some hs =>
      cv ← pure (chain_view c);
      '(maxHeight, maxTime) ← pure (calculateSequenceLockPair cv t hs flags);
      mret (Some (mkLockPoints maxHeight maxTime (Chain_GetAncestor c (max_input_height tipHeight (heights_after t hs flags)))))
  end.
Definition CheckLockPointValidity {E} (e : TxEntry) : res E bool :=
  match MaxInputBlock (e_lp e) with None => Ok true | Some q => Contains c (Some q) end.

(** The redeem script is the last element the scriptSig pushes; the scriptSig is run in
    a heap of its own, and its data is read after the run. *)
Fixpoint inputs_standard {E} (t : Tx) (cm : CoinsMap) (i : Z) (l : list TxIn) : res E bool :=
  match l with
  | [] => Ok true
  | e :: l =>
      coin ← deref (cm !! PreviousOutPoint e);
      s ← deref (scriptPubKey (coin_txOut coin));
      '(pubKeyType, _, isStandard) ← IsStandardScriptPubKey s;
      if negb isStandard then Ok false
      else if decide (pubKeyType = ScriptHash) then
        let '(h, sig) := load [] (scriptSig e) in
        let '(h, stk, r) := EvalScript (H0 := EmptyChecker) grow t i 0 0 h [] sig in
        match r with
        | Panic => Panic
        | Err _ => Ok false
        | Ok _ =>
            if Stack_Empty stk then Ok false
            else
              lastOp ← deref (last (ParsedOpCodes (view h sig)));
              if MaxP2SHSigOps <? u64 (GetSigOpCount (NewScriptRaw (Data lastOp)) StandardCheckDataSigVerifyFlags true) then Ok false
              else inputs_standard t cm (i + 1) l
        end
      else inputs_standard t cm (i + 1) l
  end.
Definition AreInputsStandard {E} (t : Tx) (cm : CoinsMap) : res E bool := inputs_standard t cm 0 (ins t).

(** checkInputs leaves in the cache the best block it has read, on an error too. *)
Definition check_inputs (cv : ChainView) (t : Tx) (cm : CoinsMap) (flags : Z) : acc unit := fun n =>
  match checkInputs grow drain cv t cm (n_view n) flags with
  | Ok st => (mkNode _ (n_pool n) st, Ok tt)
  | Err e => (match GetBestBlock (E := unit) (n_view n) with Ok (_, st) => mkNode _ (n_pool n) st | _ => n end, Err (TxError e))
  | Panic => (n, Panic)
  end.

(** ** Fees *)
Definition checkFee (t : Tx) (cm : CoinsMap) : acc Z :=
  inputValue ← pure (GetValueIn cm t);
  out ← pure (GetValueOut t);
  let txFee := i64 (inputValue - out) in
  size ← pure (Tx_EncodeSize t);
  m ← pool_of id;
  '(minfeeRate, m) ← pure (GetMinFee overflow now (MaxPoolSize conf) m);
  set_pool m;;
  if txFee <? GetFee minfeeRate size then refuse RejectInsufficientFee else mret txFee.
Definition promiscuousMempoolFlags : Z :=
  match PromiscuousMempoolFlags conf with None => u32 StandardScriptVerifyFlags | Some flag => u32 flag end.

(** ** The checks together *)
Definition extra_flags (mtp : Z) : Z :=
  (if IsReplayProtectionEnabled p mtp then ScriptEnableReplayProtection else 0) .|
  (if IsMagneticAnomalyEnabled (fp_net p) mtp then ScriptEnableCheckDataSig else 0).
Definition verify_flags (mtp : Z) : Z :=
  (if RequireStandard conf then u32 StandardScriptVerifyFlags else promiscuousMempoolFlags .| ScriptEnableSigHashForkID) .| extra_flags mtp.
(** The scripts under the flags of the pool and under those of the next block.  The later
    checks run on the script objects as the earlier ones left them; the first one passed,
    so the amounts, which the scripts do not change, are right in the later ones.  (The
    changed arrays also stay in the objects that the pool and the coin cache keep; there
    the model has the scripts as they were parsed.) *)
Definition check_scripts (t : Tx) (cm : CoinsMap) : acc unit :=
  cv ← pure (chain_view c);
  let flags := verify_flags (cv_TipMTP cv) in
  check_inputs cv t cm flags;;
  let '(t, cm) := inputs_after grow drain t cm flags in
  tip ← pure (deref (tip c));
  current ← pure (GetBlockScriptFlags p c tip);
  err ← attempt (check_inputs cv t cm current);
  let '(t, cm) := inputs_after grow drain t cm current in
  match err with
  | None => mret tt
  | Some _ =>
      if Z.ldiff current flags =? 0 then refuse ScriptCheckInputsBug
      else check_inputs cv t cm (u32 MandatoryScriptVerifyFlags .| extra_flags (cv_TipMTP cv))
  end.
Fixpoint any_spent (m : TxMempool) (l : list TxIn) : bool :=
  match l with [] => false | i :: l => HasSpentOut m (PreviousOutPoint i) || any_spent m l end.

Definition CheckTxBeforeAcceptToMemPool (t : Tx) : acc TxEntry :=
  txcheck (CheckRegularTransaction t);;
  (if RequireStandard conf then
     '(ok, reason) ← pure (IsStandard (cfg_policy conf) t);
     if (ok : bool) then mret tt else refuse (TxError (RejectNonstandard reason))
   else mret tt);;
  txcheck (ContextualCheckTransactionForCurrentBlock t StandardLockTimeVerifyFlags);;
  m ← pool_of id;
  (if FindTx m (txid Sha256 t) then refuse (RejectAlreadyKnown "txn-already-in-mempool") else mret tt);;
  (if any_spent m (ins t) then refuse (RejectConflict "txn-mempool-conflict") else mret tt);;
  exist ← areOutputsAlreadExist t;
  (if (exist : bool) then refuse (RejectAlreadyKnown "txn-already-known") else mret tt);;
  '(coins, spendCoinbase) ← inputCoinsOf t;
  inputCoins ← (match coins with None => refuse TxErrNoPreviousOut | Some cm => mret cm end);
  lp ← CalculateLockPoints t StandardLockTimeVerifyFlags;
  lp ← (match lp with None => refuse (TxError (RejectNonstandard "")) | Some lp => mret lp end);
  cv ← pure (chain_view c);
  (if CheckSequenceLocks cv (lp_Height lp) (lp_Time lp) then mret tt
   else refuse (TxError (RejectNonstandard "non-BIP68-final")));;
  (if RequireStandard conf then
     standard ← pure (AreInputsStandard t inputCoins);
     if (standard : bool) then mret tt else refuse (TxError (RejectNonstandard "bad-txns-nonstandard-inputs"))
   else mret tt);;
  sigOpsCount ← pure (GetTransactionSigOpCount t (u32 StandardScriptVerifyFlags) inputCoins);
  (if MaxStandardTxSigOps <? u64 sigOpsCount then refuse (TxError (RejectNonstandard "bad-txns-too-many-sigops")) else mret tt);;
  txFee ← checkFee t inputCoins;
  check_scripts t inputCoins;;
  ht ← pure (Chain_Height c);
  pure (NewTxentry sizeof_TxEntry t txFee now ht lp sigOpsCount spendCoinbase).

(** The entry is put at an address that is not in use. *)
Definition add_entry (txe : TxEntry) : acc unit := fun n =>
  let q := fresh (dom (entries (n_pool n))) in
  match addTxToMemPool Sha256 range (MaxPoolSize conf) (MaxPoolExpiry conf) now (conf_limits conf) (n_pool n) q txe (n_view n) with
  | Ok (m, st) => (mkNode _ m st, Ok tt)
  | Err e => (n, Err (PoolError e))
  | Panic => (n, Panic)
  end.
Definition AcceptTxToMemPool (t : Tx) : acc unit := txEntry ← CheckTxBeforeAcceptToMemPool t; add_entry txEntry.
End Accept.
