(* ===== verification/OrphanFacts.v ===== *)
(** * The pool of orphans

    The two maps of the orphan pool agree, there are never more than a hundred orphans,
    and erasing an orphan with all that depends on it ends. *)
From S2P Require Import Prelude Errors Wire ScriptNum Opcodes Script ScriptFacts Tx TxFacts Crypto Compress Coins Block Undo Mempool.

(** ** Loops that may fail *)
Lemma foldl_panic {E A B} (f : A -> B -> res E B) (r : res E B) l b : foldl (fun (r : res E B) x => r ≫= f x) r l = Ok b -> exists b0, r = Ok b0.
Proof. revert r. induction l as [|x l IH]; intros r; cbn [foldl]; [by exists b|]. intros (b0 & Hb)%IH. destruct r as [a|e|]; [by exists a|done|done]. Qed.
Lemma foldl_steps {E A B} (R : B -> B -> Prop) `{!PreOrder R} (f : A -> B -> res E B) l : (forall x b b', f x b = Ok b' -> R b b') ->
  forall b b', foldl (fun (r : res E B) x => r ≫= f x) (Ok b) l = Ok b' -> R b b'.
Proof.
  intros Hf. induction l as [|x l IH]; intros b b'; cbn [foldl]; [by intros [= <-]|]. intros Hl. destruct (foldl_panic _ _ _ _ Hl) as [b1 H1]. rw H1 in Hl. etrans; [by eapply Hf|by apply IH].
Qed.
(** Every step succeeds, keeps [I] and establishes [P] for its element for good. *)
Lemma foldl_each {E A B} (I : B -> Prop) (R : B -> B -> Prop) `{!PreOrder R} (P : A -> B -> Prop) (f : A -> B -> res E B) l :
  (forall x b b', R b b' -> P x b -> P x b') -> (forall x b, x ∈ l -> I b -> exists b', f x b = Ok b' /\ I b' /\ R b b' /\ P x b') ->
  forall b, I b -> exists b', foldl (fun (r : res E B) x => r ≫= f x) (Ok b) l = Ok b' /\ I b' /\ R b b' /\ forall x, x ∈ l -> P x b'.
Proof.
  intros HP Hf. induction l as [|x l IH]; intros b Hb; cbn [foldl]; [exists b; split_and!; [done|done|done|by intros x ?%elem_of_nil]|].
  destruct (Hf x b ltac:(set_solver) Hb) as (b1 & H1 & Hb1 & HR1 & Hx1). cbn [mbind res_bind]. rw H1. destruct (IH ltac:(intros y b2 Hy; apply Hf; set_solver) b1 Hb1) as (b2 & H2 & Hb2 & HR2 & Hx2).
  exists b2. split_and!; [done|done|by etrans|]. intros y [->|Hy]%elem_of_cons; [by eapply HP|by apply Hx2].
Qed.

(** ** Links *)
(** The orphan [x] is listed under [prev] with the hash [h]. *)
Definition linked (o : OrphanPool) (prev : OutPoint) (h : bytes) (x : OrphanTx) : Prop :=
  exists s, OrphanTransactionsByPrev o !! prev = Some s /\ s !! h = Some x.
(** The orphans of [o'] are orphans of [o]. *)
Record suborphans (o o' : OrphanPool) : Prop := {
  sb_all h x : OrphanTransactions o' !! h = Some x -> OrphanTransactions o !! h = Some x;
  sb_prev prev h x : linked o' prev h x -> linked o prev h x }.
#[export] Instance suborphans_order : PreOrder suborphans.
Proof. split; [by split|]. intros a b d [H1 H2] [H3 H4]. split; [intros h x Hx; by apply H1, H3|]. intros prev h x Hx. by apply H2, H4. Qed.

Lemma unlink_prev_linked h o b prev k x : (exists s, unlink_prev h b o !! prev = Some s /\ s !! k = Some x) <-> (exists s, b !! prev = Some s /\ s !! k = Some x) /\ ~ (prev = o /\ k = h).
Proof.
  unfold unlink_prev. destruct (b !! o) as [s|] eqn:Eo.
  2:{ split; [intros (s & Hs & Hx); split; [by exists s|]; intros [-> _]; congruence|by intros [? _]]. }
  cbv zeta. case_decide as Hd.
  - split.
    + intros (s' & [Hne Hs]%lookup_delete_Some & Hx). split; [by exists s'|]. by intros [-> _].
    + intros [(s' & Hs & Hx) Hn]. destruct (decide (o = prev)) as [<-|Hne]; [|exists s'; by rw lookup_delete_ne].
      assert (delete h s !! k = Some x) as Hk by (rw lookup_delete_ne; [congruence|]; intros ->; by apply Hn). by rw Hd lookup_empty in Hk.
  - destruct (decide (o = prev)) as [<-|Hne]; [rw lookup_insert_eq|rw lookup_insert_ne //].
    + split; [intros (s' & [= <-] & [Hne Hx]%lookup_delete_Some); split; [by exists s|]; by intros [_ ->]|]. intros [(s' & Hs & Hx) Hn]. rw Eo in Hs. injection Hs as <-.
      exists (delete h s). split; [done|]. rw lookup_delete_ne //. intros ->. by apply Hn.
    + split; [intros Hs; split; [done|]; by intros [-> _]|by intros [? _]].
Qed.
Lemma unlink_linked h o prev k x : linked (unlink h o) prev k x <-> linked o prev k x /\ ~ (k = h /\ exists ot, OrphanTransactions o !! h = Some ot /\ prev ∈ GetAllPreviousOut (o_Tx ot)).
Proof.
  unfold unlink, linked. destruct (OrphanTransactions o !! h) as [ot|] eqn:Eh; [|split; [intros Hl; split; [done|]; by intros (_ & ? & ? & _)|by intros [? _]]]. cbn [OrphanTransactionsByPrev].
  assert (forall l b, (exists s, foldl (unlink_prev h) b l !! prev = Some s /\ s !! k = Some x) <-> (exists s, b !! prev = Some s /\ s !! k = Some x) /\ ~ (k = h /\ prev ∈ l)) as Hf.
  { induction l as [|y l IH]; intros b; cbn [foldl]; [split; [intros Hs; split; [done|]; by intros [_ ?%elem_of_nil]|by intros [? _]]|]. rw IH unlink_prev_linked elem_of_cons. naive_solver. }
  rw Hf. split; intros [Hl Hn]; (split; [done|]).
  - intros [-> (ot' & [= <-] & Hp)]. by apply Hn.
  - intros [-> Hp]. apply Hn. split; [done|]. by exists ot.
Qed.
Lemma unlink_all h o : OrphanTransactions (unlink h o) = OrphanTransactions o.
Proof. unfold unlink. by destruct (OrphanTransactions o !! h). Qed.
Lemma unlink_sub h o : suborphans o (unlink h o).
Proof. split; [intros k x; by rw unlink_all|]. intros prev k x Hl. by apply unlink_linked in Hl as [? _]. Qed.

Lemma link_linked h ot l : forall b prev k x, (exists s, foldl (link_prev h ot) b l !! prev = Some s /\ s !! k = Some x) <->
  (k = h /\ prev ∈ l /\ x = ot) \/ (~ (k = h /\ prev ∈ l) /\ exists s, b !! prev = Some s /\ s !! k = Some x).
Proof.
  induction l as [|y l IH]; intros b prev k x; cbn [foldl]; [split; [intros Hs; right; split; [by intros [_ ?%elem_of_nil]|done]|by intros [(_ & ?%elem_of_nil & _)|[_ ?]]]|].
  rw IH elem_of_cons. assert ((exists s, link_prev h ot b y !! prev = Some s /\ s !! k = Some x) <-> (prev = y /\ k = h /\ x = ot) \/ (~ (prev = y /\ k = h) /\ exists s, b !! prev = Some s /\ s !! k = Some x)) as ->; [|generalize (exists s, b !! prev = Some s /\ s !! k = Some x); clear; destruct (decide (prev ∈ l)), (decide (prev = y)), (decide (k = h)); tauto].
  unfold link_prev. destruct (decide (y = prev)) as [<-|Hne]; [rw lookup_insert_eq|rw lookup_insert_ne //; split; [intros Hs; right; split; [by intros [-> _]|done]|intros [(-> & _)|[_ ?]]; done]].
  destruct (decide (h = k)) as [<-|Hne].
  - split; [intros (s & [= <-] & Hs); rw lookup_insert_eq in Hs; injection Hs as <-; by left|]. intros [(_ & _ & ->)|[Hn _]]; [|by destruct Hn]. eexists. split; [done|by rw lookup_insert_eq].
  - split; [intros (s & [= <-] & Hs); rw lookup_insert_ne // in Hs; right; split; [naive_solver|]; destruct (b !! y); [by eexists|by rw lookup_empty in Hs]|].
    intros [(_ & -> & _)|[_ (s & Hs & Hx)]]; [done|]. rw Hs. eexists. split; [done|]. cbn. by rw lookup_insert_ne.
Qed.

Section Orphans.
Context (Sha256 : bytes -> bytes) (range_orphans : gmap bytes OrphanTx -> list OrphanTx).
Abbreviation id x := (txid Sha256 (o_Tx x)).

Abbreviation Erase := (EraseOrphanTx Sha256 range_orphans).
Abbreviation EraseE E := (EraseOrphanTx (E := E) Sha256 range_orphans).
(** The two loops of EraseOrphanTx. *)
Definition erase_redeemer {E} (fuel : nat) (o : OutPoint) (x : OrphanTx) (p : OrphanPool) : res E OrphanPool :=
  if bool_decide (is_Some (default ∅ (OrphanTransactionsByPrev p !! o) !! id x)) then Erase fuel (id x) true p else Ok p.
Definition erase_output {E} (fuel : nat) (h : bytes) (i : nat) (p : OrphanPool) : res E OrphanPool :=
  foldl (fun r x => r ≫= erase_redeemer fuel (mkOutPoint h (u32 (Z.of_nat i))) x) (Ok p)
    (range_orphans (default ∅ (OrphanTransactionsByPrev p !! mkOutPoint h (u32 (Z.of_nat i))))).
Lemma Erase_unfold {E} fuel h (b : bool) p : EraseE E (S fuel) h b p =
  p ← (if b then ot ← deref (OrphanTransactions (unlink h p) !! h); foldl (fun r i => r ≫= erase_output fuel h i) (Ok (unlink h p)) (seq 0 (length (outs (o_Tx ot)))) else Ok (unlink h p));
  Ok (mkOrphans (OrphanTransactionsByPrev p) (delete h (OrphanTransactions p)) (nextSweep p)).
Proof. done. Qed.
Lemma erase_sub {E} fuel : forall h b o o', EraseE E fuel h b o = Ok o' -> suborphans o o'.
Proof.
  induction fuel as [|fuel IH]; intros h b o o'; [done|]. rw Erase_unfold. intros Ho. apply res_bind_inv in Ho as (o1 & H1 & Ho). injection Ho as <-.
  transitivity (unlink h o); [apply unlink_sub|]. transitivity o1; [|split; [cbn; by intros k x [_ ?]%lookup_delete_Some|done]].
  destruct b; [|by injection H1 as <-]. apply res_bind_inv in H1 as (ot & _ & H1). revert H1. apply (foldl_steps suborphans). intros i q q'. apply (foldl_steps suborphans).
  intros x a a'. unfold erase_redeemer. case_bool_decide; [apply IH|by intros [= <-]].
Qed.

(** ** The invariant *)
(** [X] are the orphans that are being erased: they are listed under no output. *)
Record orphans_but (X : gset bytes) (o : OrphanPool) : Prop := {
  oi_id h x : OrphanTransactions o !! h = Some x -> id x = h;
  oi_link prev h x : linked o prev h x <-> h ∉ X /\ OrphanTransactions o !! h = Some x /\ prev ∈ GetAllPreviousOut (o_Tx x) }.
Definition orphans_ok : OrphanPool -> Prop := orphans_but ∅.
(** The orphans that are not being erased. *)
Definition still (X : gset bytes) (o : OrphanPool) : gset bytes := dom (OrphanTransactions o) ∖ X.
Lemma unlink_but X h o : orphans_but X o -> orphans_but ({[h]} ∪ X) (unlink h o).
Proof.
  intros [Hid Hlk]. split; [intros k x; rw unlink_all; apply Hid|]. intros prev k x. rw unlink_linked Hlk unlink_all. split.
  - intros [(HX & Hk & Hp) Hn]. split_and!; [|done|done]. apply not_elem_of_union. split; [|done]. intros ->%elem_of_singleton. apply Hn. split; [done|]. by exists x.
  - intros ([Hkh HX]%not_elem_of_union & Hk & Hp). split; [done|]. intros [-> _]. set_solver.
Qed.
Lemma delete_but X h o : h ∉ X -> orphans_but ({[h]} ∪ X) o -> orphans_but X (mkOrphans (OrphanTransactionsByPrev o) (delete h (OrphanTransactions o)) (nextSweep o)).
Proof.
  intros HhX [Hid Hlk]. split; cbn [OrphanTransactions]; [intros k x [_ Hk]%lookup_delete_Some; by apply Hid|]. intros prev k x.
  change (linked o prev k x <-> k ∉ X /\ delete h (OrphanTransactions o) !! k = Some x /\ prev ∈ GetAllPreviousOut (o_Tx x)). rw Hlk lookup_delete_Some. split.
  - intros ([Hkh HX]%not_elem_of_union & Hk & Hp). split_and!; [done|set_solver|done|done].
  - intros (HX & [Hne Hk] & Hp). split_and!; [|done|done]. apply not_elem_of_union. split; [|done]. set_solver.
Qed.
Context (Hrange : forall s, range_orphans s ≡ₚ map snd (map_to_list s)).
Lemma elem_orphans s x : x ∈ range_orphans s <-> exists h, s !! h = Some x.
Proof.
  rw Hrange list_elem_of_fmap. split; [intros ([h y] & -> & Hy%elem_of_map_to_list); by exists h|]. intros [h Hh]. exists (h, x). split; [done|by apply elem_of_map_to_list].
Qed.
(** The orphan [k] spends an output of the orphan [a]. *)
Definition redeems (o : OrphanPool) (a k : bytes) : Prop :=
  exists xa xk i, OrphanTransactions o !! a = Some xa /\ OrphanTransactions o !! k = Some xk /\ (i < length (outs (o_Tx xa)))%nat /\ mkOutPoint a (u32 (Z.of_nat i)) ∈ GetAllPreviousOut (o_Tx xk).
Lemma redeems_sub o o' a k : suborphans o o' -> redeems o' a k -> redeems o a k.
Proof. intros Hs (xa & xk & i & Ha & Hk & Hi & Hp). exists xa, xk, i. split_and!; [by apply (sb_all _ _ Hs)|by apply (sb_all _ _ Hs)|done|done]. Qed.
Lemma rtc_redeems_sub o o' a k : suborphans o o' -> rtc (redeems o') a k -> rtc (redeems o) a k.
Proof. intros Hs. apply rtc_subrel. intros x y. by apply redeems_sub. Qed.
(** What is gone in [o'] is reachable from [h], and nothing that is left outside [X]
    spends an output of what is gone. *)
Record erased (X : gset bytes) (h : bytes) (o o' : OrphanPool) : Prop := {
  er_reach k : is_Some (OrphanTransactions o !! k) -> OrphanTransactions o' !! k = None -> rtc (redeems o) h k;
  er_closed a k : is_Some (OrphanTransactions o !! a) -> OrphanTransactions o' !! a = None -> is_Some (OrphanTransactions o' !! k) -> k ∉ X -> ~ redeems o a k }.
Lemma erased_exactly h o o' : suborphans o o' -> OrphanTransactions o' !! h = None -> is_Some (OrphanTransactions o !! h) -> erased ∅ h o o' ->
  forall k, OrphanTransactions o' !! k = None <-> OrphanTransactions o !! k = None \/ rtc (redeems o) h k.
Proof.
  intros Hs Hh Hx [Hr Hc] k. assert (forall y, rtc (redeems o) h y -> is_Some (OrphanTransactions o !! y) /\ OrphanTransactions o' !! y = None) as Hgone.
  { intros y Hy. apply (rtc_ind_r (R := redeems o) (fun y => is_Some (OrphanTransactions o !! y) /\ OrphanTransactions o' !! y = None) h); [done| |done].
    intros a b _ Hab [Ha Ha']. destruct (OrphanTransactions o' !! b) as [xb|] eqn:Eb; [by destruct (Hc a b Ha Ha' (mk_is_Some _ _ Eb) (not_elem_of_empty b))|]. split; [|done]. destruct Hab as (xa & xb & i & _ & Hb & _). by eexists. }
  split.
  - intros Hk. destruct (OrphanTransactions o !! k) as [x|] eqn:Ek; [|by left]. right. apply Hr; [by eexists|done].
  - intros [Hk|Hk]; [|by apply Hgone]. destruct (OrphanTransactions o' !! k) as [x|] eqn:Ek; [|done]. apply (sb_all _ _ Hs) in Ek. by rw Ek in Hk.
Qed.
(** Erasing ends, takes [h] out and keeps the maps in agreement. *)
Definition erase_spec (E : Type) (fuel : nat) : Prop := forall X h (b : bool) o, orphans_but X o -> h ∉ X -> (b = true -> is_Some (OrphanTransactions o !! h)) -> (size (still ({[h]} ∪ X) o) < fuel)%nat ->
  exists o', EraseE E fuel h b o = Ok o' /\ orphans_but X o' /\ suborphans o o' /\ OrphanTransactions o' !! h = None /\ (forall k, k ∈ X -> OrphanTransactions o' !! k = OrphanTransactions o !! k) /\
    (b = true -> erased X h o o').
(** The state while the redeemers of [h] are erased. *)
Record erasing (X : gset bytes) (h : bytes) (o o1 : OrphanPool) : Prop := {
  eg_but : orphans_but ({[h]} ∪ X) o1;
  eg_sub : suborphans o o1;
  eg_keep k : k ∈ {[h]} ∪ X -> OrphanTransactions o1 !! k = OrphanTransactions o !! k;
  eg_erased : erased ({[h]} ∪ X) h o o1 }.
Lemma still_smaller X h o a k y : suborphans o a -> OrphanTransactions a !! k = Some y -> k ∉ {[h]} ∪ X -> (size (still ({[k]} ∪ ({[h]} ∪ X)) a) < size (still ({[h]} ∪ X) o))%nat.
Proof.
  intros Hs Hk HX. apply subset_size, strict_spec_alt. unfold still. assert (dom (OrphanTransactions a) ⊆ dom (OrphanTransactions o)). { apply subseteq_dom, map_subseteq_spec. intros j z. apply (sb_all _ _ Hs). }
  split; [set_solver|]. intros Heq. assert (k ∈ dom (OrphanTransactions o) ∖ ({[h]} ∪ X)) as Hin. { apply elem_of_difference. split; [|done]. apply elem_of_dom. exists y. by apply (sb_all _ _ Hs). } rw -Heq in Hin. set_solver.
Qed.
(** One redeemer of the output [prev] of [h]. *)
Lemma erase_redeemer_ok {E} fuel X h o xh i x a : erase_spec E fuel -> (size (still ({[h]} ∪ X) o) < S fuel)%nat -> OrphanTransactions o !! h = Some xh -> (i < length (outs (o_Tx xh)))%nat ->
  let prev := mkOutPoint h (u32 (Z.of_nat i)) in erasing X h o a ->
  exists a', erase_redeemer (E := E) fuel prev x a = Ok a' /\ erasing X h o a' /\ suborphans a a' /\ forall y, ~ linked a' prev (id x) y.
Proof.
  intros IH Hf Hxh Hilt prev Ha. pose proof Ha as [Ha1 Ha2 Ha3 [Ha4 Ha5]]. unfold erase_redeemer. case_bool_decide as Hl.
  2:{ exists a. split_and!; [done|done|done|]. intros y (s & Hs & Hy). apply Hl. rw Hs. by exists y. }
  destruct Hl as [y Hy]. assert (linked a prev (id x) y) as Hly. { unfold linked. destruct (OrphanTransactionsByPrev a !! prev) as [s|]; cbn in Hy; [by exists s|by rw lookup_empty in Hy]. }
  pose proof Hly as (HX & Hk & Hprev)%(oi_link _ _ Ha1). pose proof (still_smaller X h o a (id x) y Ha2 Hk HX).
  destruct (IH ({[h]} ∪ X) (id x) true a Ha1 HX) as (a2 & Hae & Hb2 & Hs2 & Hn2 & Hkeep & Her); [by eexists|lia|].
  specialize (Her eq_refl). exists a2. split; [done|]. split; [|split; [done|]; intros z (_ & Hz & _)%(oi_link _ _ Hb2); congruence]. split; [done|by etrans|intros k Hkx; by rw Hkeep // Ha3|split].
  - intros k Hk1 Hk2. destruct (OrphanTransactions a !! k) as [z|] eqn:Ez; [|by apply Ha4]. eapply rtc_l; [|by eapply (rtc_redeems_sub o a), (er_reach _ _ _ _ Her); [| |done]].
    exists xh, y, i. split_and!; [done|by apply (sb_all _ _ Ha2)|done|done].
  - intros d k Hb1 Hbn [z Hz] HkX Hr. pose proof (sb_all _ _ Hs2 _ _ Hz) as Hz1. destruct (OrphanTransactions a !! d) as [w|] eqn:Ew; [|by apply (Ha5 d k); [| |eexists| |]].
    apply (er_closed _ _ _ _ Her d k); [by eexists|done|by eexists|done|]. destruct Hr as (xa & xk & j & Hxa & Hxk & Hj & Hp). rw (sb_all _ _ Ha2 _ _ Ew) in Hxa. rw (sb_all _ _ Ha2 _ _ Hz1) in Hxk.
    injection Hxa as <-. injection Hxk as <-. by exists w, z, j.
Qed.
Lemma erase_output_ok {E} fuel X h o xh i a : erase_spec E fuel -> (size (still ({[h]} ∪ X) o) < S fuel)%nat -> OrphanTransactions o !! h = Some xh -> (i < length (outs (o_Tx xh)))%nat -> erasing X h o a ->
  exists a', erase_output (E := E) fuel h i a = Ok a' /\ erasing X h o a' /\ suborphans a a' /\ forall k y, ~ linked a' (mkOutPoint h (u32 (Z.of_nat i))) k y.
Proof.
  intros IH Hf Hxh Hilt Ha. unfold erase_output. set (prev := mkOutPoint h (u32 (Z.of_nat i))).
  destruct (foldl_each (erasing X h o) suborphans (fun x a => forall y, ~ linked a prev (id x) y) (erase_redeemer (E := E) fuel prev) (range_orphans (default ∅ (OrphanTransactionsByPrev a !! prev)))) with (b := a) as (a' & Hfa & HIa & Hsa & Hnone); [| |done|].
  - intros x b1 b2 Hs Hn y Hl. by apply (Hn y), (sb_prev _ _ Hs).
  - intros x a1 _ Ha1. by apply (erase_redeemer_ok fuel X h o xh i).
  - exists a'. split_and!; [done|done|done|]. intros k y Hl. pose proof (sb_prev _ _ Hsa _ _ _ Hl) as (s & Hs & Hy). pose proof (eg_but _ _ _ _ HIa) as Hba. pose proof Hl as (_ & Hk & _)%(oi_link _ _ Hba).
    assert (y ∈ range_orphans (default ∅ (OrphanTransactionsByPrev a !! prev))) as Hyin by (rw Hs; apply elem_orphans; by exists k). apply (Hnone y Hyin y). by rw (oi_id _ _ Hba k y Hk).
Qed.
Lemma erase_ok {E} fuel : erase_spec E fuel.
Proof.
  induction fuel as [|fuel IH]; intros X h b o Hi HhX Hb Hf; [lia|]. rw Erase_unfold.
  assert (erasing X h o (unlink h o)) as HI0.
  { split; [by apply unlink_but|apply unlink_sub|intros k _; by rw unlink_all|split; [intros k [x Hx]; by rw unlink_all Hx|intros a k [x Hx]; by rw unlink_all Hx]]. }
  assert (exists o1, (if b then ot ← deref (OrphanTransactions (unlink h o) !! h); foldl (fun r i => r ≫= erase_output (E := E) fuel h i) (Ok (unlink h o)) (seq 0 (length (outs (o_Tx ot)))) else Ok (unlink h o)) = Ok o1 /\ erasing X h o o1 /\
    (b = true -> forall x i, OrphanTransactions o !! h = Some x -> (i < length (outs (o_Tx x)))%nat -> forall k y, ~ linked o1 (mkOutPoint h (u32 (Z.of_nat i))) k y)) as (o1 & H1 & [Hi1 Hs1 Hk1 [Hr1 Hc1]] & Hn1).
  { destruct b; [|by eexists]. destruct (Hb eq_refl) as [ot Hot]. rw unlink_all Hot. cbn [deref mbind res_bind].
    destruct (foldl_each (erasing X h o) suborphans (fun i a => forall k y, ~ linked a (mkOutPoint h (u32 (Z.of_nat i))) k y) (erase_output (E := E) fuel h) (seq 0 (length (outs (o_Tx ot))))) with (b := unlink h o) as (a' & Hfa & HIa & _ & Hnone); [| |done|].
    - intros i b1 b2 Hs Hn k y Hl. by apply (Hn k y), (sb_prev _ _ Hs).
    - intros i a Hin Ha. apply (erase_output_ok fuel X h o ot); [done|done|done|apply elem_of_seq in Hin; lia|done].
    - exists a'. split_and!; [done|done|]. intros _ x i [= <-] Hlt. apply Hnone, elem_of_seq. lia. }
  rw H1. cbn [mbind res_bind]. eexists. split; [reflexivity|]. pose proof (delete_but X h o1 HhX Hi1) as Hd. split_and!; [done| |apply lookup_delete_eq|intros k Hk; cbn; rw lookup_delete_ne; [apply Hk1|]; set_solver|].
  - etrans; [exact Hs1|]. split; [cbn; by intros k x [_ ?]%lookup_delete_Some|done].
  - intros ->. specialize (Hn1 eq_refl). split; cbn [OrphanTransactions].
    + intros k Hk. destruct (decide (h = k)) as [<-|Hne]; [intros; apply rtc_refl|]. rw lookup_delete_ne //. by apply Hr1.
    + intros a k Ha Han [z Hz] HkX Hr. apply lookup_delete_Some in Hz as [Hhk Hz]. assert (k ∉ {[h]} ∪ X) as HkX' by set_solver. destruct (decide (h = a)) as [<-|Hne].
      * destruct Hr as (xa & xk & i & Hxa & Hxk & Hlt & Hp). apply (Hn1 xa i Hxa Hlt k z). apply (oi_link _ _ Hi1). rw (sb_all _ _ Hs1 _ _ Hz) in Hxk. injection Hxk as <-. done.
      * rw lookup_delete_ne // in Han. by apply (Hc1 a k); [| |eexists| |].
Qed.

(** ** The operations *)
Lemma erase_total {E} h (b : bool) o : orphans_ok o -> (b = true -> is_Some (OrphanTransactions o !! h)) ->
  exists o', erase (E := E) Sha256 range_orphans h b o = Ok o' /\ orphans_ok o' /\ suborphans o o' /\ OrphanTransactions o' !! h = None /\ (b = true -> erased ∅ h o o').
Proof.
  intros Hok Hb. destruct (erase_ok (E := E) (S (size (OrphanTransactions o))) ∅ h b o Hok) as (o' & H1 & H2 & H3 & H4 & _ & H5); [set_solver|done| |by exists o'].
  unfold still. rw -size_dom. apply Nat.lt_succ_r, subseteq_size. set_solver.
Qed.
Lemma suborphans_size o o' : suborphans o o' -> (size (OrphanTransactions o') <= size (OrphanTransactions o))%nat.
Proof. intros Hs. apply map_subseteq_size, map_subseteq_spec. intros k x. apply (sb_all _ _ Hs). Qed.
Lemma sweep_ok {E} now l : forall o a b, orphans_ok o -> exists o' a' b', sweep_orphans (E := E) Sha256 range_orphans now l o a b = Ok (o', a', b') /\ orphans_ok o' /\ suborphans o o'.
Proof.
  induction l as [|x l IH]; intros o a b Ho; cbn [sweep_orphans]; [by exists o, a, b|]. destruct (still_orphan Sha256 o x) eqn:Es; cbn [negb]; [|by apply IH]. destruct (_ <=? now); [|by apply IH].
  unfold still_orphan in Es. apply bool_decide_eq_true in Es. destruct (erase_total (E := E) (id x) true o Ho (fun _ => Es)) as (o1 & -> & Ho1 & Hs1 & _). cbn [mbind res_bind].
  destruct (IH o1 a (b + 1) Ho1) as (o2 & a2 & b2 & -> & Ho2 & Hs2). exists o2, a2, b2. split_and!; [done|done|by etrans].
Qed.
(** One orphan at least leaves when there are more than a hundred. *)
Lemma limit_ok {E} now o : orphans_ok o -> exists o' k, limitOrphanTx (E := E) Sha256 range_orphans now o = Ok (o', k) /\ orphans_ok o' /\ suborphans o o' /\
  (Z.of_nat (size (OrphanTransactions o')) <= DefaultMaxOrphanTransaction \/ (size (OrphanTransactions o') < size (OrphanTransactions o))%nat).
Proof.
  intros Ho. unfold limitOrphanTx. assert (exists o1 k1, (if nextSweep o <=? now then
      '(p, minExpTime, removeNum) ← sweep_orphans (E := E) Sha256 range_orphans now (range_orphans (OrphanTransactions o)) o (now + OrphanTxExpireTime - OrphanTxExpireInterval) 0;
      Ok (mkOrphans (OrphanTransactionsByPrev p) (OrphanTransactions p) (minExpTime + OrphanTxExpireInterval), removeNum) else Ok (o, 0)) = Ok (o1, k1) /\ orphans_ok o1 /\ suborphans o o1) as (o1 & k1 & -> & Ho1 & Hs1).
  { destruct (nextSweep o <=? now); [|by exists o, 0]. destruct (sweep_ok (E := E) now (range_orphans (OrphanTransactions o)) o (now + OrphanTxExpireTime - OrphanTxExpireInterval) 0 Ho) as (o1 & a1 & b1 & -> & Ho1 & Hs1).
    cbn [mbind res_bind]. eexists _, _. split; [reflexivity|]. split; [by destruct Ho1|by destruct Hs1]. }
  cbn [mbind res_bind]. destruct (Z.leb_spec (Z.of_nat (size (OrphanTransactions o1))) DefaultMaxOrphanTransaction) as [Hle|Hgt]; [exists o1, k1; split_and!; [done|done|done|by left]|].
  destruct (range_orphans (OrphanTransactions o1)) as [|x l] eqn:El.
  { exfalso. assert (size (OrphanTransactions o1) = 0%nat) as Hz; [|unfold DefaultMaxOrphanTransaction in *; lia]. pose proof (Hrange (OrphanTransactions o1)) as Hp. rw El in Hp. apply Permutation_length in Hp. rw length_map length_map_to_list in Hp. by cbn in Hp. }
  assert (exists k, OrphanTransactions o1 !! k = Some x) as [k Hk] by (apply elem_orphans; rw El; set_solver). pose proof (oi_id _ _ Ho1 k x Hk) as Hidx.
  destruct (erase_total (E := E) (id x) true o1 Ho1) as (o2 & -> & Ho2 & Hs2 & Hn & _); [intros _; rw Hidx; by eexists|]. cbn [mbind res_bind]. eexists _, _. split; [reflexivity|]. split_and!; [done|by etrans|right].
  apply (Nat.lt_le_trans _ (size (OrphanTransactions o1))); [|by apply suborphans_size]. apply map_subset_size, map_subset_alt. split; [apply map_subseteq_spec; intros j z; apply (sb_all _ _ Hs2)|].
  exists k. rw Hidx in Hn. split; [done|by eexists].
Qed.
Definition few (o : OrphanPool) : Prop := Z.of_nat (size (OrphanTransactions o)) <= DefaultMaxOrphanTransaction.
Lemma AddOrphanTx_ok {E} now t node o n : orphans_ok o -> few o -> Tx_EncodeSize (E := E) t = Ok n ->
  exists o', AddOrphanTx (E := E) Sha256 range_orphans now t node o = Ok o' /\ orphans_ok o' /\ few o' /\
    forall h x, OrphanTransactions o' !! h = Some x -> OrphanTransactions o !! h = Some x \/ (h = txid Sha256 t /\ o_Tx x = t).
Proof.
  intros Ho Hf Hn. unfold AddOrphanTx. case_bool_decide as Hin; [exists o; split_and!; [done|done|done|by left]|]. rw Hn. cbn [mbind res_bind]. destruct (MaxTxSize <=? n); [exists o; split_and!; [done|done|done|by left]|].
  set (ot := mkOrphan t node (now + OrphanTxExpireTime)). set (o1 := mkOrphans _ _ _). assert (orphans_ok o1) as Ho1.
  { split; cbn [o1 OrphanTransactions].
    - intros h x. destruct (decide (txid Sha256 t = h)) as [<-|Hne]; [rw lookup_insert_eq; by intros [= <-]|rw lookup_insert_ne //; apply Ho].
    - intros prev h x. unfold linked. cbn [o1 OrphanTransactionsByPrev]. rw link_linked. fold (linked o prev h x). rw (oi_link _ _ Ho). split.
      + intros [(-> & Hp & ->)|[Hn1 (_ & Hh & Hp)]]; [rw lookup_insert_eq; set_solver|]. split_and!; [set_solver| |done]. rw lookup_insert_ne //. intros <-. apply Hin. by eexists.
      + intros (_ & Hh & Hp). destruct (decide (txid Sha256 t = h)) as [<-|Hne]; [rw lookup_insert_eq in Hh; injection Hh as <-; by left|]. rw lookup_insert_ne // in Hh. right. split; [naive_solver|]. set_solver. }
  destruct (limit_ok (E := E) now o1 Ho1) as (o' & k & -> & Ho' & Hs & Hsz). cbn [mbind res_bind]. exists o'. split_and!; [done|done| |].
  - unfold few in *. destruct Hsz as [|Hlt]; [done|]. cbn [o1 OrphanTransactions] in Hlt. rw map_size_insert in Hlt. destruct (OrphanTransactions o !! txid Sha256 t); cbn in Hlt; unfold DefaultMaxOrphanTransaction in *; lia.
  - intros h x Hx. apply (sb_all _ _ Hs) in Hx. cbn [o1 OrphanTransactions] in Hx. destruct (decide (txid Sha256 t = h)) as [<-|Hne]; [rw lookup_insert_eq in Hx; injection Hx as <-; by right|rw lookup_insert_ne // in Hx; by left].
Qed.
Lemma remove_by_tag_ok {E} node l : forall o k, orphans_ok o -> exists o' k', remove_by_tag (E := E) Sha256 range_orphans node l o k = Ok (o', k') /\ orphans_ok o' /\ suborphans o o' /\
  forall x, x ∈ l -> NodeID x = node -> OrphanTransactions o' !! id x = None.
Proof.
  induction l as [|x l IH]; intros o k Ho; cbn [remove_by_tag]; [exists o, k; split_and!; [done|done|done|by intros x ?%elem_of_nil]|].
  assert (forall o1 o', suborphans o1 o' -> OrphanTransactions o1 !! id x = None -> OrphanTransactions o' !! id x = None) as Hgone.
  { intros o1 o' Hs H1. destruct (OrphanTransactions o' !! id x) eqn:E1; [|done]. apply (sb_all _ _ Hs) in E1. congruence. }
  destruct (still_orphan Sha256 o x) eqn:Es; [destruct (Z.eqb_spec (NodeID x) node) as [Heq|Hne]|]; cbn [andb].
  - unfold still_orphan in Es. apply bool_decide_eq_true in Es. destruct (erase_total (E := E) (id x) true o Ho (fun _ => Es)) as (o1 & -> & Ho1 & Hs1 & Hn1 & _). cbn [mbind res_bind].
    destruct (IH o1 (k + 1) Ho1) as (o2 & k2 & -> & Ho2 & Hs2 & Hn2). exists o2, k2. split_and!; [done|done|by etrans|]. intros y [->|Hy]%elem_of_cons; [intros _; by eapply Hgone|by apply Hn2].
  - destruct (IH o k Ho) as (o2 & k2 & -> & Ho2 & Hs2 & Hn2). exists o2, k2. split_and!; [done|done|done|]. intros y [->|Hy]%elem_of_cons; [done|by apply Hn2].
  - destruct (IH o k Ho) as (o2 & k2 & -> & Ho2 & Hs2 & Hn2). exists o2, k2. split_and!; [done|done|done|]. intros y [->|Hy]%elem_of_cons; [intros _|by apply Hn2]. eapply Hgone; [done|].
    unfold still_orphan in Es. apply bool_decide_eq_false in Es. destruct (OrphanTransactions o !! id x); [|done]. destruct Es. by eexists.
Qed.
Lemma clean_ok o : orphans_ok (CleanOrphan o) /\ few (CleanOrphan o).
Proof. split; [|done]. split; cbn; [intros h x; by rw lookup_empty|]. intros prev h x. unfold linked. cbn. split; [intros (s & Hs & _); by rw lookup_empty in Hs|intros (_ & Hs & _); by rw lookup_empty in Hs]. Qed.

(** ** Histories *)
(** What happens to the orphans: one arrives, one is erased after a parent has been
    accepted or because it is invalid, those of a peer are removed, all are dropped. *)
Inductive orphan_step (o o' : OrphanPool) : Prop :=
| os_add now t node n : Tx_EncodeSize (E := unit) t = Ok n -> AddOrphanTx (E := unit) Sha256 range_orphans now t node o = Ok o' -> orphan_step o o'
| os_erase h (b : bool) : is_Some (OrphanTransactions o !! h) -> erase (E := unit) Sha256 range_orphans h b o = Ok o' -> orphan_step o o'
| os_tag node k : RemoveOrphansByTag (E := unit) Sha256 range_orphans node o = Ok (o', k) -> orphan_step o o'
| os_clean : o' = CleanOrphan o -> orphan_step o o'.
Lemma orphan_step_ok o o' : orphans_ok o /\ few o -> orphan_step o o' -> orphans_ok o' /\ few o'.
Proof.
  intros [Ho Hf] [now t node n Hn Ha|h b Hh Ha|node k Ha| ->]; [..|apply clean_ok].
  - destruct (AddOrphanTx_ok now t node o n Ho Hf Hn) as (o2 & H2 & Ho2 & Hf2 & _). rw H2 in Ha. by injection Ha as <-.
  - destruct (erase_total (E := unit) h b o Ho (fun _ => Hh)) as (o2 & H2 & Ho2 & Hs2 & _). rw H2 in Ha. injection Ha as <-. split; [done|]. unfold few in *. apply suborphans_size in Hs2. lia.
  - unfold RemoveOrphansByTag in Ha. destruct (remove_by_tag_ok (E := unit) node (range_orphans (OrphanTransactions o)) o 0 Ho) as (o2 & k2 & H2 & Ho2 & Hs2 & _). rw H2 in Ha. injection Ha as <- _. split; [done|].
    unfold few in *. apply suborphans_size in Hs2. lia.
Qed.
Lemma orphan_steps_ok o : rtc orphan_step (mkOrphans ∅ ∅ 0) o -> orphans_ok o /\ few o.
Proof.
  intros Hs. pose proof (clean_ok (mkOrphans ∅ ∅ 0)) as H0. change (CleanOrphan (mkOrphans ∅ ∅ 0)) with (mkOrphans ∅ ∅ 0) in H0. revert H0. generalize (mkOrphans ∅ ∅ 0) as o0, Hs.
  intros o0 Hs0. clear Hs. induction Hs0 as [|a b d H1 _ IH]; [done|]. intros Ha. apply IH. by eapply orphan_step_ok.
Qed.
End Orphans.
