(* ===== verification/AcceptFacts.v ===== *)
(** * What acceptance into the memory pool guarantees

    The checks of Accept.v leave the pool and the coins as they are; a transaction that
    passes them can be added to the pool, whose entries stay backed by unspent outputs. *)
From S2P Require Import Prelude Errors Wire ScriptNum Opcodes Script ScriptFacts Tx TxFacts Crypto Compress Coins CoinsFacts Block Undo.
From S2P Require Import Stack Slice Interp Ltx ConnectFacts MoneyFacts BlockIndex Chain Mempool MempoolFacts PoolFacts PoolSorted PoolSteps PoolBlock MempoolTheorems Accept.

(** ** Entries backed by outputs *)
Section Backed.
Context (Sha256 : bytes -> bytes).
Abbreviation member := (member Sha256).
Abbreviation entry_hash := (entry_hash Sha256).

(** Every input of an entry is an output of another entry or a coin of [U], and no
    output of an entry is a coin of [U]. *)
Record backed (U : gmap OutPoint Coin) (m : TxMempool) : Prop := {
  bk_in q e o : member m q e -> o ∈ GetAllPreviousOut (e_Tx e) ->
    match poolData m !! Hash o with
    | Some x => exists xe out, entries m !! x = Some xe /\ GetTxOut (e_Tx xe) (Index o) = Some out /\ TxOut_IsNull out = false
    | None => is_Some (U !! o)
    end;
  bk_out q e o c : member m q e -> U !! o = Some c -> Hash o <> entry_hash e }.

(** What is taken out with its descendants leaves the others backed. *)
Lemma leaves_backed U m m' P : pool_graph Sha256 m -> leaves m m' P -> (forall x y, P x -> edge ChildTx (entries m) x y -> P y) -> backed U m -> backed U m'.
Proof.
  intros Hg Hlv HP [Hin Hout]. split.
  - intros q e o He Ho. destruct (member_kept Sha256 m m' P Hg Hlv q e He) as (Hn & e0 & He0 & Htx). rw Htx in Ho.
    specialize (Hin q e0 o He0 Ho). destruct (poolData m !! Hash o) as [x|] eqn:Ex.
    + assert (~ P x) as HnP.
      { intros Hx. apply Hn, (HP x q Hx). assert (x ∈ ParentTx e0) as Hpx.
        { apply (pg_parents _ m Hg q e0 x He0). exists (Hash o). split; [|done]. unfold PrevoutHashs. apply list_elem_of_fmap in Ho as (i & -> & Hi). by apply (list_elem_of_fmap_2 (fun i => Hash (PreviousOutPoint i))). }
        destruct (member_parent Sha256 m q x e0 Hg He0 Hpx) as (xe & [Hxe _] & Hc). by exists xe. }
      assert (poolData m' !! Hash o = Some x) as -> by (by apply (lv_pool _ _ _ Hlv)). destruct Hin as (xe & out & Hxe & Hout' & Hnull).
      pose proof (lv_tx _ _ _ Hlv x) as Ht. rw Hxe in Ht. destruct (entries m' !! x) as [xe'|]; [|done]. injection Ht as Ht. exists xe', out. by rw Ht.
    + destruct (poolData m' !! Hash o) as [x|] eqn:Ex'; [|done]. apply (lv_pool _ _ _ Hlv) in Ex' as [? _]. congruence.
  - intros q e o c He Hc. destruct (member_kept Sha256 m m' P Hg Hlv q e He) as (_ & e0 & He0 & Htx). unfold Mempool.entry_hash. rw Htx. by apply (Hout q e0 o c).
Qed.
Lemma evicts_backed U limit m m' : pool_ok Sha256 m -> evicts Sha256 limit m m' -> backed U m -> backed U m'.
Proof.
  intros Hok (_ & _ & x & e & _ & _ & Hlv). apply (leaves_backed U m m' _ (po_graph _ m Hok) Hlv). intros a b Ha Hab. by eapply rtc_r.
Qed.
Lemma expired_backed U m m' time : pool_ok Sha256 m -> leaves m m' (expired Sha256 m time) -> backed U m -> backed U m'.
Proof.
  intros Hok Hlv. apply (leaves_backed U m m' _ (po_graph _ m Hok) Hlv). intros a b (r & e & He & Ht & Hr) Hab. exists r, e. split_and!; [done|done|by eapply rtc_r].
Qed.

(** ** What the checks establish *)
(** The coin an input finds: a coin of [U] or an output of an entry. *)
Inductive input_coin (U : gmap OutPoint Coin) (m : TxMempool) (o : OutPoint) : Coin -> Prop :=
| in_utxo c : U !! o = Some (plain c) -> IsSpent c = false -> input_coin U m o c
| in_pool x xe out : U !! o = None -> poolData m !! Hash o = Some x -> entries m !! x = Some xe -> GetTxOut (e_Tx xe) (Index o) = Some out ->
    input_coin U m o (NewMempoolCoin out).
(** The transaction is new to the chain and to the pool, and its inputs are unspent. *)
Record admissible (U : gmap OutPoint Coin) (m : TxMempool) (t : Tx) : Prop := {
  am_new : poolData m !! txid Sha256 t = None;
  am_unspent o : o ∈ GetAllPreviousOut t -> nextTx m !! o = None;
  am_outs j : 0 <= j < Z.of_nat (length (outs t)) -> U !! mkOutPoint (txid Sha256 t) (u32 j) = None;
  am_ins o : o ∈ GetAllPreviousOut t -> exists c, input_coin U m o c /\ IsSpent c = false }.

Context (U : gmap OutPoint Coin) (m : TxMempool) (t : Tx).
Context (Hg : pool_graph Sha256 m) (Hb : backed U m) (Ham : admissible U m t).
(** A transaction id determines the number of outputs. *)
Context (Hids : forall o c, U !! o = Some c -> Hash o = txid Sha256 t -> 0 <= Index o < Z.of_nat (length (outs t)) /\ Index o < 2 ^ 32).

Lemma no_output o c : U !! o = Some c -> Hash o <> txid Sha256 t.
Proof.
  intros Hc Hh. destruct (Hids o c Hc Hh) as [Hr Hi]. pose proof (am_outs _ _ _ Ham (Index o) Hr) as Hn. rw u32_id in Hn; [|int_lia]. rw -Hh in Hn. destruct o; cbn in *. congruence.
Qed.
Lemma pool_member k x : poolData m !! k = Some x -> exists e, member m x e /\ entry_hash e = k.
Proof. intros Hk. destruct (pg_data _ m Hg k x Hk) as (e & He & Hh). exists e. split; [|done]. split; [done|by rw Hh]. Qed.
Lemma admissible_addable q e : e_Tx e = t -> entries m !! q = None -> addable Sha256 m q e.
Proof.
  intros Ht Hq. split; [done|..]; unfold Mempool.entry_hash; rw Ht; [apply Ham|apply Ham| |].
  - intros Hh. unfold PrevoutHashs in Hh. apply list_elem_of_fmap in Hh as (i & Hh & Hi).
    destruct (am_ins _ _ _ Ham (PreviousOutPoint i)) as (c & Hc & _); [by apply list_elem_of_fmap_2|]. inversion Hc as [? HU _|? ? ? _ Hp].
    + by apply (no_output _ _ HU).
    + rw -Hh (am_new _ _ _ Ham) in Hp. done.
  - intros x xe Hx Hh. unfold PrevoutHashs in Hh. apply list_elem_of_fmap in Hh as (i & Hh & Hi).
    pose proof (bk_in _ _ Hb x xe (PreviousOutPoint i) Hx (list_elem_of_fmap_2 _ _ _ Hi)) as Hin. rw -Hh (am_new _ _ _ Ham) in Hin. destruct Hin as [c Hc]. by apply (no_output _ _ Hc).
Qed.
Lemma added_backed m' q e A P : e_Tx e = t -> new_entry e -> entries m !! q = None -> ancestors_of m t A -> added Sha256 m q e A P m' -> backed U m'.
Proof.
  intros Ht Hne Hq HA Hm'. pose proof (admissible_addable q e Ht Hq) as Had. rw -Ht in HA.
  pose proof (added_member Sha256 m m' q e A P Had Hm') as Hmem.
  assert (forall x xe o out, poolData m !! Hash o = Some x -> entries m !! x = Some xe -> GetTxOut (e_Tx xe) (Index o) = Some out ->
    exists x' xe', poolData m' !! Hash o = Some x' /\ entries m' !! x' = Some xe' /\ GetTxOut (e_Tx xe') (Index o) = Some out) as Hkeep.
  { intros x xe o out Hp Hx Ho. assert (x <> q) as Hxq by congruence. exists x, (with_child q e P A x xe). rw (ad_pool _ _ _ _ _ _ _ Hm') (ad_old _ _ _ _ _ _ _ Hm' x Hxq) Hx.
    split_and!; [|done|by rw (proj1 (with_child_same q e A P x xe))]. rw lookup_insert_ne //. unfold Mempool.entry_hash. rw Ht. intros Hh. pose proof (am_new _ _ _ Ham). congruence. }
  assert (forall o, match poolData m !! Hash o with
    | Some x => exists xe out, entries m !! x = Some xe /\ GetTxOut (e_Tx xe) (Index o) = Some out /\ TxOut_IsNull out = false
    | None => is_Some (U !! o) end -> match poolData m' !! Hash o with
    | Some x => exists xe out, entries m' !! x = Some xe /\ GetTxOut (e_Tx xe) (Index o) = Some out /\ TxOut_IsNull out = false
    | None => is_Some (U !! o) end) as Hmono.
  { intros o. destruct (poolData m !! Hash o) as [x|] eqn:Ex.
    - intros (xe & out & Hx & Hout & Hnull). destruct (Hkeep x xe o out Ex Hx Hout) as (x' & xe' & -> & Hx' & Ho'). by exists xe', out.
    - intros [c Hc]. rw (ad_pool _ _ _ _ _ _ _ Hm') lookup_insert_ne; [by rw Ex|]. unfold Mempool.entry_hash. rw Ht. intros Hh. by apply (no_output o c Hc). }
  split.
  - intros x xe o Hx Ho. apply Hmono. apply Hmem in Hx as [[-> ->]|(Hxq & oe & Hoe & ->)].
    + cbn in Ho. rw Ht in Ho. destruct (am_ins _ _ _ Ham o Ho) as (c & Hc & Hsp). inversion Hc as [? HU _|y ye out HU Hp Hy Hout]; subst.
      * destruct (poolData m !! Hash o) as [y|] eqn:Ey; [|by eexists]. destruct (pool_member _ y Ey) as (ye & Hy & Hh). by destruct (bk_out _ _ Hb y ye o _ Hy HU).
      * rw Hp. by exists ye, out.
    + rw (proj1 (with_child_same q e A P x oe)) in Ho. by apply (bk_in _ _ Hb x oe).
  - intros x xe o c Hx Hc. apply Hmem in Hx as [[-> ->]|(Hxq & oe & Hoe & ->)].
    + unfold Mempool.entry_hash. cbn. rw Ht. by apply (no_output o c).
    + unfold Mempool.entry_hash. rw (proj1 (with_child_same q e A P x oe)). by apply (bk_out _ _ Hb x oe o c).
Qed.
End Backed.

(** ** The checks change nothing *)
(** What is read of a chain does not depend on the type of errors. *)
Lemma past_times_E {E1 E2} h k : forall i l, past_times (E := E1) k h i = Ok l -> past_times (E := E2) k h i = Ok l.
Proof.
  induction k as [|k IH]; intros [q|] l; cbn; try (by intros [= <-]). intros (b & Hb & Hl)%res_bind_inv. apply res_bind_inv in Hl as (ts & Hts & Hl). injection Hl as <-.
  unfold bload in *. destruct (h !! q); [|done]. injection Hb as ->. cbn [mbind res_bind]. by rw (IH _ _ Hts).
Qed.
Lemma nth_go_E {E1 E2 A} (l : list A) i x : nth_go (E := E1) l i = Ok x -> nth_go (E := E2) l i = Ok x.
Proof. unfold nth_go. repeat case_match; by intros [= <-]. Qed.
Lemma GetMedianTimePast_E {E1 E2} h i v : GetMedianTimePast (E := E1) h i = Ok v -> GetMedianTimePast (E := E2) h i = Ok v.
Proof.
  unfold GetMedianTimePast. destruct i as [q|]; [|by intros [= <-]]. intros (l & Hl & Hv)%res_bind_inv. rw (past_times_E (E2 := E2) _ _ _ _ Hl). cbn [mbind res_bind]. by apply (nth_go_E _ _ _ Hv).
Qed.
Lemma chain_view_E {E1 E2} c v v' : chain_view (E := E1) c = Ok v -> chain_view (E := E2) c = Ok v' -> v = v'.
Proof.
  unfold chain_view. intros (h1 & Hh1 & H1)%res_bind_inv (h2 & Hh2 & H2)%res_bind_inv. apply res_bind_inv in H1 as (t1 & Ht1 & H1). apply res_bind_inv in H2 as (t2 & Ht2 & H2).
  apply (GetMedianTimePast_E (E2 := E2)) in Ht1. assert (h1 = h2) as ->.
  { unfold Chain_Height, bload in *. destruct (tip c) as [q|]; [|congruence]. destruct (c_heap c !! q); [|done]. cbn in *. congruence. }
  assert (t1 = t2) as -> by congruence. congruence.
Qed.
Lemma with_rolling_same m : with_rolling (rollingMinimumFeeRate m) (lastRollingFeeUpdate m) m = m.
Proof. by destruct m. Qed.

(** ** The coins that acceptance sees *)
(** A cached coin that is spent stands for no coin. *)
Definition shown (c u : option Coin) : Prop := u = match c with Some c => if IsSpent c then None else Some (plain c) | None => None end.
(** What acceptance relies on: for the outputs of [T], a cache that satisfies [V] shows the
    coins of [U], and reading keeps it so. *)
Class CoinView `{Secp256k1} `{LruCache} (T : gset OutPoint) (U : gmap OutPoint Coin) (V : CoinsLruCache -> Prop) : Prop := {
  view_get {E} st op : V st -> wf_outpoint op -> op ∈ T -> exists c st', GetCoin (E := E) st op = Ok (c, st') /\ V st' /\ shown c (U !! op);
  view_best {E} st h st' : V st -> GetBestBlock (E := E) st = Ok (h, st') -> V st' }.

Section Instances.
Context `{Secp256k1} `{!SecpCompression} `{LruCache} `{!LruLaws}.
Context (T : gset OutPoint) (HT : (size T <= lru_capacity)%nat) (U : gmap OutPoint Coin).
(** A cache without changes over the database of [U]. *)
Lemma clean_view : CoinView T U (fun st => cache_ok T st U).
Proof.
  split.
  - intros E st op Hc Hw Ho. destruct (GetCoin_rep (E := E) T HT st U op Hc Hw Ho) as (st' & -> & Hc' & _). exists (U !! op), st'. split_and!; [done|done|]. unfold shown.
    destruct (U !! op) as [c|] eqn:EU; [|done]. destruct (utxo_coin U op c (rep_wf _ _ (ok_rep _ _ _ Hc)) EU) as (_ & Hs & Hp). by rw (storable_not_spent c Hs) Hp.
  - intros E st h st' Hc. unfold GetBestBlock. destruct (Hash_IsNull (hashBlock st)); [|by intros [= _ <-]]. destruct (CoinsDB_GetBestBlock (db st)) as [[b|]|e|]; [|by intros [= _ <-]|done|done].
    intros [= _ <-]. by destruct Hc.
Qed.
(** A cache with changes that are not written: what it holds hides the database. *)
Record overlay_ok (st : CoinsLruCache) : Prop := {
  ov_wf : wf_utxo U;
  ov_see op : wf_outpoint op -> op ∈ T ->
    match contents (cacheCoins st) !! op with Some c => shown (Some c) (U !! op) | None => CoinsDB_GetCoin (db st) op = Ok (U !! op) end;
  ov_room : dom (contents (cacheCoins st)) ⊆ T }.
Lemma overlay_view : CoinView T U overlay_ok.
Proof.
  split.
  - intros E st op [Hwf Hsee Hroom] Hw Ho. unfold GetCoin. destruct (contents_Get op (cacheCoins st)) as [G1 G2]. pose proof (Hsee op Hw Ho) as Hop. rw -G1 in Hop.
    destruct (lru_Get op (cacheCoins st)) as [[c|] cache]; cbn [fst snd] in *; [exists (Some c), (with_lru st cache); split_and!; [done| |done]; by split; cbn; rw ?G2|].
    rw Hop. destruct (U !! op) as [c|] eqn:EU; [|exists None, (with_lru st cache); split_and!; [done| |done]; by split; cbn; rw ?G2].
    destruct (utxo_coin U op c Hwf EU) as (_ & Hs & Hp). rw (storable_not_spent c Hs). eexists _, _. split_and!; [done| |unfold shown; by rw (storable_not_spent c Hs) Hp].
    assert (contents (lru_Add op c cache) = <[op := c]> (contents (cacheCoins st))) as Ha by (rw -G2; apply contents_Add_room, (room_in T HT); [by rw G2|done]).
    split; cbn; [done| |rw Ha dom_insert; set_solver]. intros op' Hw' Ho'. rw Ha. destruct (decide (op = op')) as [<-|Hne]; [|rw lookup_insert_ne //; by apply Hsee].
    rw lookup_insert_eq. unfold shown. by rw (storable_not_spent c Hs) Hp EU.
  - intros E st h st' [Hwf Hsee Hroom]. unfold GetBestBlock. destruct (Hash_IsNull (hashBlock st)); [|by intros [= _ <-]]. destruct (CoinsDB_GetBestBlock (db st)) as [[b|]|e|]; [|by intros [= _ <-]|done|done].
    intros [= _ <-]. by split.
Qed.
End Instances.

Section Checks.
Context `{Secp256k1} `{LruCache} `{Hashes}.
Context (T : gset OutPoint) (HT : (size T <= lru_capacity)%nat) (U : gmap OutPoint Coin) (V : CoinsLruCache -> Prop) `{!CoinView T U V}.

(** The pool changes by [R] at most, and the cache still shows [U]. *)
Definition stays_by (R : TxMempool -> TxMempool -> Prop) (n n' : node) : Prop := V (n_view n') /\ R (n_pool n) (n_pool n').
(** Whatever the outcome, the state stays; a result satisfies [Q]. *)
Definition sound_by (R : TxMempool -> TxMempool -> Prop) {A} (m : acc A) (n : node) (Q : A -> Prop) : Prop :=
  match m n with (n', Ok a) => stays_by R n n' /\ Q a | (n', Err _) => stays_by R n n' | (_, Panic) => True end.
Abbreviation stays := (stays_by eq).
Abbreviation sound := (sound_by eq).
(** Only the minimum fee changes. *)
Definition rolled (m m' : TxMempool) : Prop := exists r u, m' = with_rolling r u m.

Lemma stays_refl n : V (n_view n) -> stays n n.
Proof. by split. Qed.
Lemma stays_trans n1 n2 n3 : stays n1 n2 -> stays n2 n3 -> stays n1 n3.
Proof. intros [_ H12] [Hc H23]. split; [done|]. by rw H12. Qed.
#[local] Instance rolled_refl : Reflexive rolled.
Proof. intros m. exists (rollingMinimumFeeRate m), (lastRollingFeeUpdate m). symmetry. apply with_rolling_same. Qed.
Lemma sound_bind {R A B} `{!Reflexive R} (m : acc A) (f : A -> acc B) n (Q : A -> Prop) (S : B -> Prop) :
  sound m n Q -> (forall a n1, stays n n1 -> Q a -> sound_by R (f a) n1 S) -> sound_by R (m ≫= f) n S.
Proof.
  unfold sound_by, mbind, acc_bind. intros Hm Hf. destruct (m n) as [n1 [a|e|]]; [| |done].
  - destruct Hm as [Hs Ha]. specialize (Hf a n1 Hs Ha). unfold stays_by in *. by destruct Hs as [_ ->].
  - destruct Hm as [Hc Hp]. split; [done|by rw Hp].
Qed.
(** The same, with what stays since [n0]. *)
Lemma sound_next {R A B} `{!Reflexive R} n0 (m : acc A) (f : A -> acc B) n (Q : A -> Prop) (S : B -> Prop) :
  stays n0 n -> sound m n Q -> (forall a n1, stays n0 n1 -> V (n_view n1) -> Q a -> sound_by R (f a) n1 S) -> sound_by R (m ≫= f) n S.
Proof. intros H0n Hm Hf. eapply sound_bind; [exact Hm|]. intros a n1 Hs Ha. apply Hf; [by eapply stays_trans|by destruct Hs|done]. Qed.
(** What follows a change keeps the pool. *)
Lemma sound_then {R A B} (m : acc A) (f : A -> acc B) n (Q : A -> Prop) (S : B -> Prop) :
  sound_by R m n Q -> (forall a n1, stays_by R n n1 -> Q a -> sound (f a) n1 S) -> sound_by R (m ≫= f) n S.
Proof.
  unfold sound_by, mbind, acc_bind. intros Hm Hf. destruct (m n) as [n1 [a|e|]]; [|done|done]. destruct Hm as [Hs Ha]. specialize (Hf a n1 Hs Ha).
  unfold stays_by in *. destruct (f a n1) as [n2 [b|e|]]; [destruct Hf as [[Hc Hp] Hb]|destruct Hf as [Hc Hp]|done]; rw -Hp; by destruct Hs.
Qed.
Lemma sound_weaken {A} (m : acc A) n (Q S : A -> Prop) : sound m n Q -> (forall a, Q a -> S a) -> sound m n S.
Proof. unfold sound_by. intros Hm HQR. destruct (m n) as [n1 [a|e|]]; [|done|done]. destruct Hm. split; [done|by apply HQR]. Qed.
Lemma sound_ret {A} (a : A) n (Q : A -> Prop) : V (n_view n) -> Q a -> sound (mret a) n Q.
Proof. intros Hc Hq. split; [by apply stays_refl|done]. Qed.
Lemma sound_refuse {A} e n (Q : A -> Prop) : V (n_view n) -> sound (refuse e) n Q.
Proof. intros Hc. by apply stays_refl. Qed.
Lemma sound_pure {A} (r : res AcceptErr A) n (Q : A -> Prop) : V (n_view n) -> (forall a, r = Ok a -> Q a) -> sound (pure r) n Q.
Proof. intros Hc Hq. unfold sound_by, pure. destruct r as [a|e|]; [|by apply stays_refl|done]. split; [by apply stays_refl|by apply Hq]. Qed.
Lemma sound_value {A} (r : res AcceptErr A) n : V (n_view n) -> sound (pure r) n (fun a => r = Ok a).
Proof. intros Hc. by apply sound_pure. Qed.
Lemma sound_txcheck {A} (r : res TxErr A) n : V (n_view n) -> sound (txcheck r) n (fun a => r = Ok a).
Proof. intros Hc. unfold sound_by, txcheck. destruct r as [a|e|]; [|by apply stays_refl|done]. split; [by apply stays_refl|done]. Qed.
Lemma sound_pool_of {A} (f : TxMempool -> A) n : V (n_view n) -> sound (pool_of f) n (fun a => a = f (n_pool n)).
Proof. intros Hc. split; [by apply stays_refl|done]. Qed.
(** [if b then refuse e else go on] and the converse. *)
Lemma sound_guard (b : bool) e n : V (n_view n) -> sound (if b then refuse e else mret tt) n (fun _ => b = false).
Proof. intros Hc. destruct b; [by apply sound_refuse|by apply sound_ret]. Qed.
Lemma sound_require (b : bool) e n : V (n_view n) -> sound (if b then mret tt else refuse e) n (fun _ => b = true).
Proof. intros Hc. destruct b; [by apply sound_ret|by apply sound_refuse]. Qed.
Lemma sound_when (b : bool) (m : acc unit) n (Q : unit -> Prop) : V (n_view n) -> sound m n Q -> sound (if b then m else mret tt) n (fun _ => b = true -> Q tt).
Proof. intros Hc Hm. destruct b; [|by apply sound_ret]. eapply sound_weaken; [exact Hm|]. by intros []. Qed.
Lemma stays_cache {R} n n' : stays_by R n n' -> V (n_view n').
Proof. by intros [? _]. Qed.

(** *** Coins *)
Lemma sound_GetCoin o n : V (n_view n) -> wf_outpoint o -> o ∈ T -> sound (on_view (fun st => GetCoin st o)) n (fun c => shown c (U !! o)).
Proof. intros Hc Hw Ho. unfold sound_by, on_view. by destruct (view_get (E := AcceptErr) (n_view n) o Hc Hw Ho) as (c & st & -> & Hc' & Hs). Qed.
Lemma sound_HaveCoin o n : V (n_view n) -> wf_outpoint o -> o ∈ T -> sound (on_view (fun st => HaveCoin st o)) n (fun b => b = false -> U !! o = None).
Proof.
  intros Hc Hw Ho. unfold sound_by, on_view, HaveCoin. destruct (view_get (E := AcceptErr) (n_view n) o Hc Hw Ho) as (c & st & -> & Hc' & Hs). cbn [mbind res_bind].
  split; [done|]. unfold shown in Hs. destruct c as [c|]; [|done]. by destruct (IsSpent c).
Qed.
Lemma outputs_exist_sound h k : forall i n, V (n_view n) -> (forall j, i <= j < i + Z.of_nat k -> wf_outpoint (mkOutPoint h (u32 j)) /\ mkOutPoint h (u32 j) ∈ T) ->
  sound (outputs_exist h k i) n (fun b => b = false -> forall j, i <= j < i + Z.of_nat k -> U !! mkOutPoint h (u32 j) = None).
Proof.
  induction k as [|k IH]; intros i n Hc Hj; cbn [outputs_exist]; [apply sound_ret; [done|]; intros _ j ?; lia|]. destruct (Hj i ltac:(lia)) as [Hw Ho].
  eapply sound_bind; [by apply sound_HaveCoin|]. intros b n1 Hs Hb. pose proof (stays_cache n n1 Hs). destruct b; [by apply sound_ret|].
  eapply sound_weaken; [apply IH; [done|intros j ?; apply Hj; lia]|]. intros b Hrest Hbf j ?. destruct (decide (j = i)) as [->|]; [by apply Hb|]. apply Hrest; [done|lia].
Qed.
Lemma input_coin_stays n n' o c : stays n n' -> input_coin U (n_pool n') o c <-> input_coin U (n_pool n) o c.
Proof. by intros [_ ->]. Qed.
Lemma find_coin_sound o n : V (n_view n) -> wf_outpoint o -> o ∈ T -> sound (find_coin o) n (fun oc => forall c, oc = Some c -> IsSpent c = false -> input_coin U (n_pool n) o c).
Proof.
  intros Hc Hw Ho. unfold find_coin. eapply sound_bind; [by apply sound_GetCoin|]. intros [c|] n1 Hs Hsh; pose proof (stays_cache n n1 Hs); unfold shown in Hsh.
  { apply sound_ret; [done|]. intros c' [= <-] Hsp. rw Hsp in Hsh. by constructor. }
  eapply sound_bind; [by apply sound_pool_of|]. intros m n2 Hs2 ->. apply sound_pure; [by eapply (stays_cache n1)|]. unfold id. intros oc Hoc c -> _.
  apply (input_coin_stays n n1 o c Hs). unfold Mempool_GetCoin in Hoc. destruct (poolData (n_pool n1) !! Hash o) as [x|] eqn:Ex; [|done].
  apply res_bind_inv in Hoc as (e & He & Hoc). unfold eload in He. destruct (entries (n_pool n1) !! x) as [xe|] eqn:Exe; [|done]. injection He as ->.
  destruct (GetTxOut (e_Tx e) (Index o)) as [out|] eqn:Eo; [|done]. injection Hoc as <-. by apply (in_pool U _ o x e out).
Qed.

Definition inputs_in (l : list TxIn) : Prop := forall o, o ∈ map PreviousOutPoint l -> wf_outpoint o /\ o ∈ T.
Definition kept_coin (m : TxMempool) (o : OutPoint) (x : Coin) : Prop := exists c, input_coin U m o c /\ x = set_dirty false (DeepCopy c).
Lemma input_coins_sound l : forall cm sp n, V (n_view n) -> inputs_in l ->
  sound (input_coins l cm sp) n (fun r => forall cm', r.1 = Some cm' ->
    (forall o, o ∈ map PreviousOutPoint l -> exists c, input_coin U (n_pool n) o c /\ IsSpent c = false) /\
    forall o x, cm' !! o = Some x -> cm !! o = Some x \/ kept_coin (n_pool n) o x).
Proof.
  induction l as [|i l IH]; intros cm sp n Hc Hin; cbn [input_coins].
  { apply sound_ret; [done|]. intros cm' [= <-]. split; [by intros o ?%elem_of_nil|by left]. }
  destruct (Hin (PreviousOutPoint i) ltac:(cbn; set_solver)) as [Hw Ho]. eapply sound_bind; [by apply find_coin_sound|]. intros [c|] n1 Hs Hci; [|by apply sound_ret; [eapply (stays_cache n)|]].
  pose proof (stays_cache n n1 Hs) as Hc1. destruct (IsSpent c) eqn:Esp; [by apply sound_ret|]. specialize (Hci c eq_refl Esp).
  eapply (sound_bind _ _ _ (fun cm1 => forall o x, cm1 !! o = Some x -> cm !! o = Some x \/ kept_coin (n_pool n) o x)).
  { apply sound_pure; [done|]. intros cm1. unfold AddCoin. destruct (IsSpent (DeepCopy c)); [done|]. destruct (negb _); intros [= <-] o x Hx; [by left|].
    destruct (decide (PreviousOutPoint i = o)) as [<-|]; [rw lookup_insert_eq in Hx; injection Hx as <-; right; by exists c|rw lookup_insert_ne // in Hx; by left]. }
  intros cm1 n2 Hs2 Hcm1. pose proof (stays_trans n n1 n2 Hs Hs2) as Hs12. eapply sound_weaken; [apply IH; [by eapply (stays_cache n1)|intros o ?; apply Hin; cbn; set_solver]|].
  intros [r s] Hr cm' Hcm'. destruct (Hr cm' Hcm') as [Hl1 Hl2]. split.
  - intros o [->|Hol]%elem_of_cons; [by exists c|]. destruct (Hl1 o Hol) as (c' & Hc' & ?). exists c'. split; [|done]. by apply (input_coin_stays n n2 o c' Hs12).
  - intros o x Hx. destruct (Hl2 o x Hx) as [Hx1|(c' & Hc' & ->)]; [by apply Hcm1|]. right. exists c'. split; [|done]. by apply (input_coin_stays n n2 o c' Hs12).
Qed.

Context (grow : nat -> nat -> nat) (drain : list (option TxErr) -> list (option TxErr)) (Hdrain : forall l, drain l ≡ₚ l).
Context (range : gset nat -> list nat) (sizeof_TxEntry overflow : Z).
Context (p : ForkParams) (conf : PoolConfig) (c : Chain) (now adjusted : Z).

Lemma previous_heights_sound ht l : forall n, V (n_view n) -> inputs_in l -> sound (previous_heights ht l) n (fun _ => True).
Proof.
  induction l as [|i l IH]; intros n Hc Hin; cbn [previous_heights]; [by apply sound_ret|]. destruct (Hin (PreviousOutPoint i) ltac:(cbn; set_solver)) as [Hw Ho].
  eapply sound_bind; [by apply find_coin_sound|]. intros [x|] n1 Hs _; pose proof (stays_cache n n1 Hs); [|by apply sound_ret].
  eapply sound_bind; [apply IH; [done|intros o ?; apply Hin; cbn; set_solver]|]. intros hs n2 Hs2 _. apply sound_ret; [by eapply (stays_cache n1)|done].
Qed.
Lemma CalculateLockPoints_sound t flags n : V (n_view n) -> inputs_in (ins t) -> sound (CalculateLockPoints c t flags) n (fun _ => True).
Proof.
  intros Hc Hin. unfold CalculateLockPoints. eapply sound_bind; [by apply sound_value|]. intros ht n1 Hs _. pose proof (stays_cache n n1 Hs).
  eapply sound_bind; [by apply previous_heights_sound|]. intros [hs|] n2 Hs2 _; pose proof (stays_cache n1 n2 Hs2); [|by apply sound_ret].
  eapply sound_bind; [by apply sound_value|]. intros cv n3 Hs3 _. pose proof (stays_cache n2 n3 Hs3). eapply sound_bind; [by apply sound_value|].
  intros [a b] n4 Hs4 _. apply sound_ret; [by eapply (stays_cache n3)|done].
Qed.

(** *** Values and scripts *)
(** What a successful checkInputs has seen. *)
Record inputs_checked (cv : ChainView) (t : Tx) (cm : CoinsMap) (flags : Z) : Prop := {
  ic_value : exists h, cv_GetSpendHeight cv h <> -1 /\ CheckInputsMoney t cm (cv_GetSpendHeight cv h) = Ok tt;
  ic_scripts k i : ins t !! k = Some i -> script_ok grow t cm flags (Z.of_nat k) i }.
Lemma checkInputs_checked cv t cm st st' flags : checkInputs grow drain cv t cm st flags = Ok st' -> inputs_checked cv t cm flags /\ exists h, GetBestBlock (E := TxErr) st = Ok (h, st').
Proof.
  unfold checkInputs. intros ([h s] & Hb & Hx)%res_bind_inv. destruct (Z.eqb_spec (cv_GetSpendHeight cv h) (-1)); [done|]. apply res_bind_inv in Hx as ([] & Hm & Hx). apply res_bind_inv in Hx as ([] & Hs & Hx).
  injection Hx as <-. rw (check_batches_spec grow drain Hdrain t cm flags _ 0 (ins t) (batches_enough (length (ins t)))) in Hs. split; [split; [by exists h|exact Hs]|by exists h].
Qed.
Lemma check_inputs_sound cv t cm flags n : V (n_view n) -> sound (check_inputs grow drain cv t cm flags) n (fun _ => inputs_checked cv t cm flags).
Proof.
  intros Hc. unfold sound_by, check_inputs. destruct (checkInputs grow drain cv t cm (n_view n) flags) as [st|e|] eqn:Ec; [| |done].
  - destruct (checkInputs_checked _ _ _ _ _ _ Ec) as [Hi [h Hb]]. split; [|done]. split; [by eapply view_best|done].
  - destruct (GetBestBlock (E := unit) (n_view n)) as [[h st]|?|] eqn:Eb; [|by apply stays_refl..]. split; [by eapply view_best|done].
Qed.
Lemma attempt_sound m n Q : sound m n Q -> sound (attempt m) n (fun r => match r with None => Q tt | Some _ => True end).
Proof. unfold sound_by, attempt. destruct (m n) as [n1 [[]|e|]]; [intros [? ?]; done|done|done]. Qed.
(** The scripts hold under the flags of the pool, and on the objects this leaves under those
    of the next block, or, when these ask for something the pool does not, under the
    mandatory ones. *)
Definition scripts_checked (cv : ChainView) (t : Tx) (cm : CoinsMap) : Prop :=
  let flags := verify_flags p conf (cv_TipMTP cv) in
  inputs_checked cv t cm flags /\
  let '(t1, cm1) := inputs_after grow drain t cm flags in
  exists q current, tip c = Some q /\ GetBlockScriptFlags (E := AcceptErr) p c q = Ok current /\
    (inputs_checked cv t1 cm1 current \/
     Z.ldiff current flags <> 0 /\ let '(t2, cm2) := inputs_after grow drain t1 cm1 current in
       inputs_checked cv t2 cm2 (u32 MandatoryScriptVerifyFlags .| extra_flags p (cv_TipMTP cv))).
Lemma check_scripts_sound cv t cm n : V (n_view n) -> chain_view (E := AcceptErr) c = Ok cv -> sound (check_scripts grow drain p conf c t cm) n (fun _ => scripts_checked cv t cm).
Proof.
  intros Hc Hcv. unfold check_scripts. eapply (sound_bind _ _ _ (fun cv' => cv' = cv)); [apply sound_pure; [done|]; intros a; congruence|]. intros cv' n1 Hs ->. pose proof (stays_cache n n1 Hs).
  eapply sound_bind; [by apply check_inputs_sound|]. intros [] n2 Hs2 Hi. pose proof (stays_cache n1 n2 Hs2). unfold scripts_checked. destruct (inputs_after grow drain t cm _) as [t1 cm1].
  eapply sound_bind; [by apply sound_value|]. intros q n3 Hs3 Hq. pose proof (stays_cache n2 n3 Hs3).
  eapply sound_bind; [by apply sound_value|]. intros cur n4 Hs4 Hcur. pose proof (stays_cache n3 n4 Hs4). assert (tip c = Some q) as Hq' by (destruct (tip c); [by injection Hq as ->|done]).
  eapply sound_bind; [by eapply attempt_sound, check_inputs_sound|]. intros r n5 Hs5 Hr. pose proof (stays_cache n4 n5 Hs5). cbv beta in Hr. destruct (inputs_after grow drain t1 cm1 cur) as [t2 cm2] eqn:E2.
  destruct r as [e|]; [|apply sound_ret; [done|]; split; [done|]; exists q, cur; split_and!; [done|done|by left]].
  destruct (Z.eqb_spec (Z.ldiff cur (verify_flags p conf (cv_TipMTP cv))) 0); [by apply sound_refuse|]. eapply sound_weaken; [by apply check_inputs_sound|]. intros [] Hmand. split; [done|].
  exists q, cur. rw E2. split_and!; [done|done|by right].
Qed.
Lemma GetMinFee_rolling {E} lim m r m' : GetMinFee (E := E) overflow now lim m = Ok (r, m') -> exists a b, m' = with_rolling a b m.
Proof.
  unfold GetMinFee. assert (m = with_rolling (rollingMinimumFeeRate m) (lastRollingFeeUpdate m) m) as Hm by (symmetry; apply with_rolling_same).
  repeat case_match; intros [= _ <-]; eauto.
Qed.
Lemma checkFee_sound t cm n : V (n_view n) -> sound_by rolled (checkFee overflow conf now t cm) n (fun fee => exists v out size rate m',
  GetValueIn (E := AcceptErr) cm t = Ok v /\ GetValueOut (E := AcceptErr) t = Ok out /\ fee = i64 (v - out) /\ Tx_EncodeSize (E := AcceptErr) t = Ok size /\
  GetMinFee (E := AcceptErr) overflow now (MaxPoolSize conf) (n_pool n) = Ok (rate, m') /\ GetFee rate size <= fee).
Proof.
  intros Hc. unfold sound_by, checkFee, mbind, acc_bind, pure, pool_of, set_pool, id. assert (stays_by rolled n n) as Hn by (by split).
  destruct (GetValueIn cm t) as [v|e|] eqn:Ev; [|done|done]. destruct (GetValueOut t) as [out|e|] eqn:Eo; [|done|done]. destruct (Tx_EncodeSize t) as [sz|e|] eqn:Es; [|done|done]. cbn [n_pool n_view].
  destruct (GetMinFee overflow now (MaxPoolSize conf) (n_pool n)) as [[rate m']|e|] eqn:Em; [|done|done]. cbn [n_pool n_view]. pose proof (GetMinFee_rolling _ _ _ _ Em) as (a & b & ->).
  destruct (Z.ltb_spec (i64 (v - out)) (GetFee rate sz)); unfold refuse, mret, acc_ret; (split; [split; [done|by exists a, b]|]) || (split; [done|by exists a, b]). by exists v, out, sz, rate, (with_rolling a b (n_pool n)).
Qed.

(** *** All the checks *)
Record checked (m : TxMempool) (t : Tx) (e : TxEntry) : Prop := {
  ck_regular : CheckRegularTransaction t = Ok tt;
  ck_standard : RequireStandard conf = true -> exists reason, IsStandard (E := AcceptErr) (cfg_policy conf) t = Ok (true, reason);
  ck_admissible : admissible Sha256 U m t;
  ck_tx : e_Tx e = t;
  ck_entry : new_entry e;
  ck_chain : exists cv cm, chain_view (E := AcceptErr) c = Ok cv /\
    ContextualCheckTransaction (fp_net p) t (i32 (cv_Height cv + 1)) (cv_TipMTP cv) (cv_TipMTP cv) = Ok tt /\
    CheckSequenceLocks cv (lp_Height (e_lp e)) (lp_Time (e_lp e)) = true /\
    (forall o, o ∈ GetAllPreviousOut t -> exists x, cm !! o = Some x /\ kept_coin m o x) /\
    (RequireStandard conf = true -> AreInputsStandard (E := AcceptErr) grow t cm = Ok true) /\
    (GetTransactionSigOpCount (E := AcceptErr) t (u32 StandardScriptVerifyFlags) cm = Ok (SigOpCount e) /\ u64 (SigOpCount e) <= MaxStandardTxSigOps) /\
    scripts_checked cv t cm /\
    TxFee e = values_at cm (GetAllPreviousOut t) - total_out (outs t) /\ 0 <= TxFee e <= MaxMoney;
  ck_fee : exists rate m', GetMinFee (E := AcceptErr) overflow now (MaxPoolSize conf) m = Ok (rate, m') /\ GetFee rate (TxSize e) <= TxFee e }.
Lemma any_spent_false m l : any_spent m l = false -> forall o, o ∈ map PreviousOutPoint l -> nextTx m !! o = None.
Proof.
  induction l as [|i l IH]; cbn [any_spent map]; [by intros _ o ?%elem_of_nil|]. intros [Hs Hl]%orb_false_iff o [->|Ho]%elem_of_cons; [|by apply IH].
  unfold HasSpentOut in Hs. apply bool_decide_eq_false in Hs. destruct (nextTx m !! PreviousOutPoint i); [|done]. destruct Hs. by eexists.
Qed.
(** The fee of a transaction whose inputs have been checked. *)
Lemma fee_checked cv t cm flags v out : inputs_checked cv t cm flags -> IsCoinBase t = false -> GetValueIn (E := AcceptErr) cm t = Ok v -> GetValueOut (E := AcceptErr) t = Ok out ->
  i64 (v - out) = values_at cm (GetAllPreviousOut t) - total_out (outs t) /\ 0 <= i64 (v - out) <= MaxMoney /\ forall o, o ∈ GetAllPreviousOut t -> is_Some (cm !! o).
Proof.
  intros [(h & _ & Hm) _] Hcb Hv Hout. unfold CheckInputsMoney in Hm. apply res_bind_inv in Hm as (v' & Hv' & Hm). apply res_bind_inv in Hm as (out' & Ho' & Hm).
  destruct (inputs_value_in (E := AcceptErr) _ _ _ _ _ Hv') as [Hvi Hsome]. unfold GetValueIn in Hv. rw Hcb Hvi in Hv. injection Hv as ->.
  assert (0 <= 0 <= MaxMoney) as H0m by done. destruct (inputs_value_spec T HT _ _ _ _ _ H0m Hv') as [Hva Hvr]. destruct (value_out_inv T HT _ _ _ H0m Ho') as [Hoa Hor]. destruct (value_out_inv T HT _ _ _ H0m Hout) as [Hob _].
  destruct (Z.ltb_spec v out'); [done|]. assert (out = out') as -> by lia. rw i64_id; [|unfold MaxMoney, COIN in *; int_lia].
  split_and!; [unfold GetAllPreviousOut; lia|lia|unfold MaxMoney, COIN in *; lia|done].
Qed.
Lemma kept_coin_stays n n' o x : stays n n' -> kept_coin (n_pool n') o x -> kept_coin (n_pool n) o x.
Proof. intros Hs (y & Hy & ->). exists y. split; [|done]. by apply (input_coin_stays n n' o y Hs). Qed.
Lemma CheckTx_sound t n : wf_tx t -> V (n_view n) -> inputs_in (ins t) ->
  (forall j, 0 <= j < Z.of_nat (length (outs t)) -> wf_outpoint (mkOutPoint (txid Sha256 t) (u32 j)) /\ mkOutPoint (txid Sha256 t) (u32 j) ∈ T) ->
  sound_by rolled (CheckTxBeforeAcceptToMemPool grow drain sizeof_TxEntry overflow p conf c now adjusted t) n (checked (n_pool n) t).
Proof.
  intros Hwf Hc Hin Hout. unfold CheckTxBeforeAcceptToMemPool. pose proof (stays_refl n Hc) as Ht0.
  eapply (sound_next n); [done|by apply sound_txcheck|]. intros [] n1 Ht1 Hc1 Hreg.
  eapply (sound_next n); [done|apply (sound_when _ _ _ (fun _ => exists reason, IsStandard (E := AcceptErr) (cfg_policy conf) t = Ok (true, reason))); [done|]|].
  { eapply sound_bind; [by apply sound_value|]. intros [ok reason] n2 Hs2 Hstd. destruct ok; [apply sound_ret; [exact (stays_cache _ _ Hs2)|by eexists]|apply sound_refuse; exact (stays_cache _ _ Hs2)]. }
  intros [] n2 Ht2 Hc2 Hstd.
  eapply (sound_next n); [done|by apply sound_txcheck|]. intros [] n3 Ht3 Hc3 Hctx.
  eapply (sound_next n); [done|by apply sound_pool_of|]. intros m n4 Ht4 Hc4 ->. unfold id.
  eapply (sound_next n _ _ _ (fun _ => poolData (n_pool n) !! txid Sha256 t = None)); [done| |].
  { unfold FindTx. rw -(proj2 Ht3). destruct (poolData (n_pool n) !! txid Sha256 t); [by apply sound_refuse|by apply sound_ret]. }
  intros [] n5 Ht5 Hc5 Hnew.
  eapply (sound_next n); [done|by apply sound_guard|]. intros [] n6 Ht6 Hc6 Hun.
  assert (forall o, o ∈ GetAllPreviousOut t -> nextTx (n_pool n) !! o = None) as Hunspent.
  { intros o Ho. pose proof (any_spent_false _ _ Hun o Ho) as Hn. by rw -(proj2 Ht3) in Hn. }
  eapply (sound_next n); [done|apply outputs_exist_sound; [done|intros j ?; by apply Hout]|]. intros ex n7 Ht7 Hc7 Hex.
  eapply (sound_next n); [done|by apply sound_guard|]. intros [] n8 Ht8 Hc8 ->. specialize (Hex eq_refl).
  eapply (sound_next n); [done|by apply input_coins_sound|]. intros [coins sp] n9 Ht9 Hc9 Hcoins. cbn [fst] in Hcoins.
  eapply (sound_next n _ _ _ (fun cm => coins = Some cm)); [done|destruct coins; [by apply sound_ret|by apply sound_refuse]|]. intros cm n10 Ht10 Hc10 ->.
  destruct (Hcoins cm eq_refl) as [Hins Hcm].
  eapply (sound_next n); [done|by apply CalculateLockPoints_sound|]. intros lp n11 Ht11 Hc11 _.
  eapply (sound_next n _ _ _ (fun _ => True)); [done|destruct lp; [by apply sound_ret|by apply sound_refuse]|]. clear lp. intros lp n12 Ht12 Hc12 _.
  eapply (sound_next n); [done|by apply sound_value|]. intros cv n13 Ht13 Hc13 Hcv.
  eapply (sound_next n); [done|by apply sound_require|]. intros [] n14 Ht14 Hc14 Hlock.
  eapply (sound_next n); [done|apply (sound_when _ _ _ (fun _ => AreInputsStandard (E := AcceptErr) grow t cm = Ok true)); [done|]|].
  { eapply sound_bind; [by apply sound_value|]. intros b n15 Hs15 Hb. destruct b; [apply sound_ret; [|done]|apply sound_refuse]; exact (stays_cache _ _ Hs15). }
  intros [] n15 Ht15 Hc15 Histd.
  eapply (sound_next n); [done|by apply sound_value|]. intros ops n16 Ht16 Hc16 Hops.
  eapply (sound_next n); [done|by apply sound_guard|]. intros [] n17 Ht17 Hc17 Hmax.
  eapply sound_then; [by apply checkFee_sound|]. intros fee n18 Hs18 (v & out & sz & rate & m' & Hv & Ho & Hfee & Hsz & Hmin & Hle). pose proof (stays_cache _ _ Hs18) as Hc18.
  eapply sound_bind; [by apply (check_scripts_sound cv)|]. intros [] n19 Hs19 Hchk. pose proof (stays_cache _ _ Hs19).
  eapply sound_bind; [by apply sound_value|]. intros ht n20 Hs20 _. apply sound_pure; [by eapply (stays_cache n19)|]. intros e He.
  assert (IsCoinBase t = false) as Hcb by (unfold CheckRegularTransaction in Hreg; by destruct (IsCoinBase t)).
  destruct (fee_checked cv t cm _ v out (proj1 Hchk) Hcb Hv Ho) as (Hfv & Hfr & Hsome). unfold NewTxentry in He. rw Hsz in He. cbn [mbind res_bind] in He. injection He as <-.
  rw (Tx_EncodeSize_length (E := AcceptErr) t Hwf) in Hsz. injection Hsz as <-. cbn [e_lp TxFee TxSize e_Tx].
  split; cbn [e_lp TxFee TxSize e_Tx]; [done|done| |done| | |].
  - split; [done|done|intros j ?; by apply Hex|]. intros o Hio. destruct (Hins o Hio) as (x & Hx & Hsp). exists x. split; [|done]. by apply (input_coin_stays n n8 o x Ht8).
  - split; [done|done|done| |exact (Tx_EncodeSize_length t Hwf)]. cbn. subst fee. unfold GetTransactionSigOpCount in Hops. apply res_bind_inv in Hops as (a & _ & Hops). apply res_bind_inv in Hops as (b & _ & Hops). injection Hops as <-.
    split_and!; [apply i64_range| |apply i64_range]. pose proof (u32_range (Z.of_nat (length (Tx_Encode t)))). int_lia.
  - exists cv, cm. unfold ContextualCheckTransactionForCurrentBlock in Hctx. apply res_bind_inv in Hctx as (cv' & Hcv' & Hctx). rw (chain_view_E _ _ _ Hcv' Hcv) in Hctx.
    subst fee. split; [done|]. split; [done|]. split; [done|]. split; [|split; [done|split; [split; [done|by apply Z.ltb_ge]|split; [exact Hchk|done]]]].
    intros o Hio. destruct (Hsome o Hio) as [x Hx]. exists x. split; [done|]. destruct (Hcm o x Hx) as [Hno|Hk]; [by rw lookup_empty in Hno|]. by apply (kept_coin_stays n n8 o x Ht8).
  - exists rate, m'. by rw (proj2 Ht17).
Qed.

(** ** Acceptance *)
Lemma rolled_pool_ok m m' : rolled m m' -> pool_ok Sha256 m -> pool_ok Sha256 m'.
Proof. intros (r & u & ->) [Hg Hs Hso]. by destruct Hg, Hs, Hso. Qed.
Lemma rolled_backed m m' : rolled m m' -> backed Sha256 U m -> backed Sha256 U m'.
Proof. intros (r & u & ->) []. by split. Qed.
Lemma rolled_admissible m m' t : rolled m m' -> admissible Sha256 U m t -> admissible Sha256 U m' t.
Proof. intros (r & u & ->) [Hn1 Hn2 Hn3 Hn4]. split; [done|done|done|]. intros o Ho. destruct (Hn4 o Ho) as (x & Hx & Hs). exists x. split; [|done]. inversion Hx; [by constructor|by econstructor]. Qed.
(** The transactions of [m'] are some of those of [m]. *)
Definition subpool (m m' : TxMempool) : Prop := poolData m' ⊆ poolData m.
#[local] Instance subpool_order : PreOrder subpool.
Proof. split; [intros m; unfold subpool; done|]. intros m1 m2 m3 H12 H23. unfold subpool in *. by etrans. Qed.
Lemma leaves_subpool m m' P : leaves m m' P -> subpool m m'.
Proof. intros [Hp _]. apply map_subseteq_spec. intros k q Hk. by apply Hp in Hk as [? _]. Qed.

Context (Hrange : forall X, range X ≡ₚ elements X).
Definition good (m : TxMempool) : Prop := pool_ok Sha256 m /\ backed Sha256 U m.
Lemma evicts_good limit m m' : good m -> rtc (evicts Sha256 limit) m m' -> good m' /\ subpool m m'.
Proof.
  intros Hm Hev. induction Hev as [|m1 m2 m3 H12 _ IH]; [split; [done|unfold subpool; done]|]. destruct Hm as [Hok Hb]. pose proof (evicts_backed Sha256 U limit m1 m2 Hok H12 Hb) as Hb2.
  destruct H12 as (_ & Hok2 & x & e & _ & _ & Hlv). destruct IH as [Hg Hs]; [done|]. split; [done|]. etrans; [by eapply leaves_subpool|exact Hs].
Qed.
Lemma LimitMempoolSize_good {E} sizeLimit age m st : good m ->
  match LimitMempoolSize (E := E) Sha256 range now sizeLimit age m st with Ok (m', _) => good m' /\ subpool m m' /\ (poolData m' = ∅ \/ usageSize m' <= sizeLimit) | _ => True end.
Proof.
  intros [Hok Hb]. unfold LimitMempoolSize. destruct (expire_ok Sha256 range Hrange (E := E) m (i64 (now - age)) Hok) as (m1 & k & -> & Hok1 & Hl1). cbn [mbind res_bind].
  destruct (trimToSize_ok Sha256 range Hrange (E := E) sizeLimit m1 Hok1) as (m2 & os & -> & Hok2 & Hsz & Hev). cbn [mbind res_bind].
  destruct (remove_coins os st) as [st'|e|]; [|done|done]. cbn [mbind res_bind].
  destruct (evicts_good sizeLimit m1 m2) as [Hg2 Hs2]; [split; [done|by apply (expired_backed Sha256 U m m1 (i64 (now - age)))]|done|]. split_and!; [done| |done]. etrans; [by eapply leaves_subpool|exact Hs2].
Qed.
Lemma rolled_limited m m' t n lim A : rolled m m' -> limited m' t n lim A -> limited m t n lim A.
Proof. intros (r & u & ->) []. by split. Qed.
(** A checked entry is refused for its ancestors, or added before the limits are enforced. *)
Lemma add_entry_added t e n0 n : good (n_pool n0) -> rolled (n_pool n0) (n_pool n) -> checked (n_pool n0) t e -> hash_ok (txid Sha256 t) ->
  (forall o x, U !! o = Some x -> Hash o = txid Sha256 t -> 0 <= Index o < Z.of_nat (length (outs t)) /\ Index o < 2 ^ 32) ->
  match CalculateMemPoolAncestors Sha256 range (n_pool n) t (conf_limits conf) true with
  | Err x => add_entry range conf now e n = (n, Err (PoolError x))
  | Panic => add_entry range conf now e n = (n, Panic)
  | Ok A => exists q m1 P, entries (n_pool n) !! q = None /\ AddTx_unlimited (E := MemPoolErr) Sha256 range (n_pool n) q e A = Ok m1 /\ added Sha256 (n_pool n) q e A P m1 /\ good m1 /\ limited (n_pool n) t (TxSize e) (conf_limits conf) A /\
      add_entry range conf now e n = match LimitMempoolSize (E := MemPoolErr) Sha256 range now (MaxPoolSize conf) (i64 (i64 (MaxPoolExpiry conf * 60) * 60)) m1 (n_view n) with
        | Ok (m2, st2) => (mkNode _ m2 st2, Ok tt) | Err x => (n, Err (PoolError x)) | Panic => (n, Panic) end
  end.
Proof.
  intros [Hok0 Hb0] Hr [_ _ Ham Ht Hne _ _] Hh Hids. pose proof (rolled_pool_ok _ _ Hr Hok0) as Hok. pose proof (rolled_backed _ _ Hr Hb0) as Hb. pose proof (rolled_admissible _ _ t Hr Ham) as Ham'.
  unfold add_entry, addTxToMemPool. rw Ht. set (q := fresh _). assert (entries (n_pool n) !! q = None) as Hq by (apply not_elem_of_dom, is_fresh). pose proof (po_graph _ _ Hok) as Hg.
  destruct (CalculateMemPoolAncestors Sha256 range (n_pool n) t (conf_limits conf) true) as [A|x|] eqn:EA; [|done|done]. cbn [mbind res_bind].
  pose proof (ne_size e Hne) as Hsz. rw Ht in Hsz. pose proof (ancestors_limited Sha256 range Hrange (n_pool n) t (TxSize e) (conf_limits conf) Hg Hsz) as Hlim. rw EA in Hlim. assert (ancestors_of (n_pool n) t A) as HA by (eapply (ancestors_found Sha256 range Hrange (n_pool n) t); [done|exact Hsz|exact EA]).
  pose proof (admissible_addable Sha256 U (n_pool n) t Hb Ham' Hids q e Ht Hq) as Had. unfold AddTx. rewrite <-Ht in HA.
  destruct (AddTx_heap Sha256 range Hrange (E := MemPoolErr) (n_pool n) q e A Hg Hne Had HA) as (m1 & P & Hm1 & Hadded).
  destruct (AddTx_ok Sha256 range Hrange (E := MemPoolErr) (n_pool n) q e A Hok Hne Had HA) as (m1' & Hm1' & Hok1 & Hp1 & _); [unfold Mempool.entry_hash; by rw Ht|]. rw Hm1 in Hm1'. injection Hm1' as <-.
  exists q, m1, P. rw Hm1. cbn [mbind res_bind]. split_and!; [done|done|done| |done|done]. split; [done|]. rw Ht in HA. by apply (added_backed Sha256 U (n_pool n) t Hg Hb Ham' Hids m1 q e A P).
Qed.
(** A checked entry is added, and the limits are enforced. *)
Lemma add_entry_good t e n0 n : good (n_pool n0) -> rolled (n_pool n0) (n_pool n) -> checked (n_pool n0) t e -> hash_ok (txid Sha256 t) ->
  (forall o x, U !! o = Some x -> Hash o = txid Sha256 t -> 0 <= Index o < Z.of_nat (length (outs t)) /\ Index o < 2 ^ 32) ->
  match add_entry range conf now e n with
  | (n', Ok _) => good (n_pool n') /\ (poolData (n_pool n') = ∅ \/ usageSize (n_pool n') <= MaxPoolSize conf) /\
      (exists A, limited (n_pool n) t (TxSize e) (conf_limits conf) A) /\
      exists q, entries (n_pool n) !! q = None /\ poolData (n_pool n') ⊆ <[txid Sha256 t := q]> (poolData (n_pool n0))
  | (n', Err _) => n' = n
  | (_, Panic) => True
  end.
Proof.
  intros Hg Hr Hck Hh Hids. pose proof (add_entry_added t e n0 n Hg Hr Hck Hh Hids) as Ha.
  destruct (CalculateMemPoolAncestors Sha256 range (n_pool n) t (conf_limits conf) true) as [A|x|]; [|by rw Ha|by rw Ha]. destruct Ha as (q & m1 & P & Hq & _ & Hadded & Hg1 & Hlim & ->).
  pose proof (LimitMempoolSize_good (E := MemPoolErr) (MaxPoolSize conf) (i64 (i64 (MaxPoolExpiry conf * 60) * 60)) m1 (n_view n) Hg1) as Hl.
  destruct (LimitMempoolSize _ _ _ _ _ m1 (n_view n)) as [[m2 st2]|x|]; [|done|done]. destruct Hl as (Hg2 & Hs2 & Hsz). cbn [n_pool]. split_and!; [done|done|by exists A|].
  exists q. split; [done|]. unfold subpool in Hs2. rw (ad_pool _ _ _ _ _ _ _ Hadded) in Hs2. unfold Mempool.entry_hash in Hs2. rw (ck_tx _ _ _ Hck) in Hs2. by destruct Hr as (r & u & Hr); rw Hr in Hs2.
Qed.
Lemma AcceptTx_good t n : good (n_pool n) -> wf_tx t -> hash_ok (txid Sha256 t) -> V (n_view n) -> inputs_in (ins t) ->
  (forall j, 0 <= j < Z.of_nat (length (outs t)) -> mkOutPoint (txid Sha256 t) (u32 j) ∈ T) ->
  (forall o x, U !! o = Some x -> Hash o = txid Sha256 t -> 0 <= Index o < Z.of_nat (length (outs t)) /\ Index o < 2 ^ 32) ->
  match AcceptTxToMemPool grow drain range sizeof_TxEntry overflow p conf c now adjusted t n with
  | (n', Ok _) => good (n_pool n') /\ (poolData (n_pool n') = ∅ \/ usageSize (n_pool n') <= MaxPoolSize conf) /\ (exists e A, checked (n_pool n) t e /\ limited (n_pool n) t (TxSize e) (conf_limits conf) A) /\
      exists q, entries (n_pool n) !! q = None /\ poolData (n_pool n') ⊆ <[txid Sha256 t := q]> (poolData (n_pool n))
  | (n', Err _) => stays_by rolled n n'
  | (_, Panic) => True
  end.
Proof.
  intros Hg Hwf Hh Hc Hin Hout Hids. assert (forall j, 0 <= j < Z.of_nat (length (outs t)) -> wf_outpoint (mkOutPoint (txid Sha256 t) (u32 j)) /\ mkOutPoint (txid Sha256 t) (u32 j) ∈ T) as Ho2.
  { intros j Hj. split; [|by apply Hout]. destruct Hh as [? ?]. split_and!; [done|done|apply u32_range]. }
  pose proof (CheckTx_sound t n Hwf Hc Hin Ho2) as Hs. unfold AcceptTxToMemPool, mbind, acc_bind. unfold sound_by in Hs.
  destruct (CheckTxBeforeAcceptToMemPool _ _ _ _ _ _ _ _ _ t n) as [n1 [e|x|]]; [|done|done]. destruct Hs as [[Hc1 Hr1] Hck].
  pose proof (add_entry_good t e n n1 Hg Hr1 Hck Hh Hids) as Ha. destruct (add_entry range conf now e n1) as [n2 [[]|x|]]; [|by rw Ha|done].
  destruct Ha as (Hg2 & Hsz & [A HA] & q & Hq & Hsub). split_and!; [done|done|exists e, A; split; [done|by apply (rolled_limited _ (n_pool n1))]|]. exists q. split; [|done]. by destruct Hr1 as (r & u & Hr); rw Hr in Hq.
Qed.
End Checks.
