(* ===== verification/Lmempool.v ===== *)
(** * Orphans, reorganisations and the self-check of the pool (logic/lmempool)

    When a transaction is accepted the orphans that waited for its outputs are tried; after
    a reorganisation the pool is built anew from its transactions; CheckMempool compares
    the pool with itself and with the UTXO set and panics where they disagree. *)
From S2P Require Import Prelude Errors Wire ScriptNum Opcodes Script ScriptFacts Tx TxFacts Crypto Compress Coins Block Undo.
From S2P Require Import Stack Slice Interp Ltx BlockIndex Chain Mempool Accept.

Section Lmempool.
Context `{Secp256k1} `{LruCache} `{Hashes}.
Context (grow : nat -> nat -> nat) (drain : list (option TxErr) -> list (option TxErr)).
Context (range : gset nat -> list nat) (range_orphans : gmap bytes OrphanTx -> list OrphanTx).
Context (sizeof_TxEntry overflow : Z).
Context (p : ForkParams) (conf : PoolConfig) (c : Chain).
(** The clock, the clock adjusted to the peers', and the second of the minute. *)
Context (now adjusted second : Z).
Abbreviation AcceptTxToMemPool := (AcceptTxToMemPool grow drain range sizeof_TxEntry overflow p conf c now adjusted).

(** ** Orphans *)
Definition on_orphans (f : OrphanPool -> res AcceptErr OrphanPool) : acc unit :=
  m ← pool_of id; o ← pure (f (orphanPool m)); set_pool (with_orphans m o).
Definition outpoints (t : Tx) : list OutPoint := map (fun i => mkOutPoint (txid Sha256 t) (u32 (Z.of_nat i))) (seq 0 (length (outs t))).
(** The orphans that spend one output, until one is accepted or thrown out.  No peer is
    ever put into the set of those that misbehave, and no error has the code RejectTx,
    so no rejected hash is ever returned. *)
Fixpoint try_orphans (l : list OrphanTx) : acc (option Tx) :=
  match l with
  | [] => mret None
  | o :: l =>
      err ← attempt (AcceptTxToMemPool (o_Tx o));
      match err with
      | None => on_orphans (erase Sha256 range_orphans (txid Sha256 (o_Tx o)) false);; mret (Some (o_Tx o))
      | Some e =>
          if IsNoPreviousOut e then try_orphans l
          else on_orphans (erase Sha256 range_orphans (txid Sha256 (o_Tx o)) true);; mret None
      end
  end.
Fixpoint orphan_loop (fuel : nat) (vWorkQueue : list OutPoint) (acceptTxs : list Tx) : acc (list Tx) :=
  match vWorkQueue with
  | [] => mret acceptTxs
  | prevOut :: vWorkQueue =>
      match fuel with
      | O => crash
      | S fuel =>
          m ← pool_of id;
          r ← match OrphanTransactionsByPrev (orphanPool m) !! prevOut with None => mret None | Some orphans => try_orphans (range_orphans orphans) end;
          match r with
          | None => orphan_loop fuel vWorkQueue acceptTxs
          | Some t => orphan_loop fuel (vWorkQueue ++ outpoints t) (acceptTxs ++ [t])
          end
      end
  end.
(** Every output in the queue is one of [t] or of an orphan that was accepted. *)
Definition orphan_outs (o : OrphanPool) : nat := sum_list (map (fun x => length (outs (o_Tx x.2))) (map_to_list (OrphanTransactions o))).
Definition TryAcceptOrphansTxs (t : Tx) : acc (list Tx) :=
  m ← pool_of id;
  orphan_loop (length (outs t) + orphan_outs (orphanPool m)) (outpoints t) [].

(** ** Reorganisations *)
Definition FindTxInMempool (m : TxMempool) (h : bytes) : option nat := FindTx m h.
Definition FindOrphanTxInMemPool (m : TxMempool) (h : bytes) : option Tx := o_Tx <$> OrphanTransactions (orphanPool m) !! h.
(** The transactions of the old pool in the order of the range; the result is false when
    the loop was left early. *)
Fixpoint readd (l : list Tx) : acc bool :=
  match l with
  | [] => mret true
  | t :: l =>
      err ← attempt (AcceptTxToMemPool t);
      match err with
      | None =>
          TryAcceptOrphansTxs t;;
          m ← pool_of id;
          if HaveTransaction Sha256 m t then readd l else mret false
      | Some e =>
          (if IsNoPreviousOut e then on_orphans (AddOrphanTx Sha256 range_orphans second t 0) else mret tt);;
          readd l
      end
  end.

(** ** The self-check *)
Definition updateCoins {E} (cm : CoinsMap) (t : Tx) : res E CoinsMap :=
  cm ← (if IsCoinBase t then Ok cm
        else foldl (fun cm o => cm ← cm; '(coin, cm) ← SpendCoin cm o; match coin with None => Panic | Some _ => Ok cm end) (Ok cm) (GetAllPreviousOut t));
  foldl (fun cm '(i, out) => cm ← cm; AddCoin cm (mkOutPoint (txid Sha256 t) (u32 (Z.of_nat i))) (NewFreshCoin out 1000000 (IsCoinBase t)))
    (Ok cm) (imap (fun i out => (i, out)) (outs t)).
Fixpoint fetch_all (l : list OutPoint) (cm : CoinsMap) (st : CoinsLruCache) : res AcceptErr (bool * CoinsMap * CoinsLruCache) :=
  match l with
  | [] => Ok (true, cm, st)
  | o :: l => '(coin, cm, st) ← FetchCoin cm st o; match coin with None => Ok (false, cm, st) | Some _ => fetch_all l cm st end
  end.
Definition haveInputs (cm : CoinsMap) (t : Tx) (st : CoinsLruCache) : res AcceptErr (bool * CoinsMap * CoinsLruCache) :=
  if IsCoinBase t then Ok (true, cm, st) else fetch_all (GetAllPreviousOut t) cm st.
Fixpoint fetch_every (l : list OutPoint) (cm : CoinsMap) (st : CoinsLruCache) : res AcceptErr (CoinsMap * CoinsLruCache) :=
  match l with [] => Ok (cm, st) | o :: l => '(_, cm, st) ← FetchCoin cm st o; fetch_every l cm st end.
(** The values of one transaction over the coins so far, then its effect on them. *)
Definition check_entry_coins (spentHeight : Z) (t : Tx) (cm : CoinsMap) (st : CoinsLruCache) : res AcceptErr (CoinsMap * CoinsLruCache) :=
  '(cm, st) ← (if IsCoinBase t then Ok (cm, st)
    else
      '(cm, st) ← fetch_every (GetAllPreviousOut t) cm st;
      match CheckInputsMoney t cm spentHeight with Ok _ => Ok (cm, st) | _ => Panic end);
  cm ← updateCoins cm t; Ok (cm, st).
(** The inputs of an entry: whether one is in the pool, and the parents by their hash. *)
Fixpoint check_prevouts_in (m : TxMempool) (l : list OutPoint) (wait : bool) (parents : gset bytes) (st : CoinsLruCache)
    : res AcceptErr (bool * gset bytes * CoinsLruCache) :=
  match l with
  | [] => Ok (wait, parents, st)
  | o :: l =>
      '(wait, parents, st) ← match poolData m !! Hash o with
        | Some q =>
            e ← eload (entries m) q;
            let tx2 := e_Tx e in
            if Z.of_nat (length (outs tx2)) <=? Index o then Panic
            else match GetTxOut tx2 (Index o) with
                 | None => Panic
                 | Some out => if TxOut_IsNull out then Panic else Ok (true, {[txid Sha256 tx2]} ∪ parents, st)
                 end
        | None => '(have, st) ← HaveCoin st o; if (have : bool) then Ok (wait, parents, st) else Panic
        end;
      match nextTx m !! o with None => Panic | Some _ => check_prevouts_in m l wait parents st end
  end.
(** The children of an entry and their size. *)
Fixpoint check_children {E} (m : TxMempool) (l : list OutPoint) (children : gset nat) (childSize : Z) : res E (gset nat * Z) :=
  match l with
  | [] => Ok (children, childSize)
  | o :: l =>
      match nextTx m !! o with
      | None => check_children m l children childSize
      | Some x =>
          e ← eload (entries m) x;
          if bool_decide (poolData m !! entry_hash Sha256 e = None) then Panic
          else if decide (x ∈ children) then check_children m l children childSize
          else check_children m l ({[x]} ∪ children) (i64 (childSize + TxSize e))
      end
  end.
(** The sums over the ancestors are put right when they are not. *)
Definition correct_sums (count size ops fees : Z) (e : TxEntry) : TxEntry :=
  let s := stat e in
  set_stat (mkStat (SumTxCountWithDescendants s) (SumTxFeeWithDescendants s) (SumTxSizeWithDescendants s) count size ops fees) e.
Record check_state := mkCheck {
  ch_pool : TxMempool;
  ch_view : CoinsLruCache;
  ch_dup : CoinsMap;
  ch_wait : list nat;
  ch_total : Z }.
(** [None] when the function returns early. *)
Definition check_entry (spentHeight : Z) (q : nat) (s : check_state) : res AcceptErr (option check_state) :=
  let m := ch_pool s in
  e ← eload (entries m) q;
  let total := u64 (ch_total s + u64 (TxSize e)) in
  '(wait, parents, st) ← check_prevouts_in m (GetAllPreviousOut (e_Tx e)) false ∅ (ch_view s);
  if negb (Nat.eqb (size parents) (size (ParentTx e))) then Panic
  else
    match CalculateMemPoolAncestors Sha256 range m (e_Tx e) noLimit true with
    | Panic => Panic
    | Err _ => Ok None
    | Ok ancestors =>
        '(sz, fees, ops) ← sum_entries (range ancestors) (entries m) (i64 (TxSize e)) (i64 (TxFee e)) (i64 (SigOpCount e));
        let e' := correct_sums (i64 (Z.of_nat (size ancestors) + 1)) sz ops fees e in
        let m := with_entries m (<[q := e']> (entries m)) in
        '(children, childSize) ← check_children m (outpoints (e_Tx e)) ∅ 0;
        if negb (Nat.eqb (size children) (size (ChildTx e))) then Panic
        else if SumTxSizeWithDescendants (stat e) <? i64 (childSize + TxSize e) then Panic
        else if (wait : bool) then Ok (Some (mkCheck m st (ch_dup s) (ch_wait s ++ [q]) total))
        else '(cm, st) ← check_entry_coins spentHeight (e_Tx e) (ch_dup s) st; Ok (Some (mkCheck m st cm (ch_wait s) total))
    end.
Fixpoint check_entries (spentHeight : Z) (l : list nat) (s : check_state) : res AcceptErr (option check_state) :=
  match l with
  | [] => Ok (Some s)
  | q :: l => s ← check_entry spentHeight q s; match s with None => Ok None | Some s => check_entries spentHeight l s end
  end.
(** The entries that wait for others; an entry that still waits goes to the end. *)
Fixpoint check_waiting (fuel : nat) (spentHeight stepsSinceLastRemove : Z) (m : TxMempool) (wait : list nat) (cm : CoinsMap) (st : CoinsLruCache)
    : res AcceptErr CoinsLruCache :=
  match wait with
  | [] => Ok st
  | q :: wait =>
      match fuel with
      | O => Panic
      | S fuel =>
          e ← eload (entries m) q;
          '(have, cm, st) ← haveInputs cm (e_Tx e) st;
          if negb have then
            let steps := stepsSinceLastRemove + 1 in
            if Z.of_nat (length (wait ++ [q])) <=? steps then Panic
            else check_waiting fuel spentHeight steps m (wait ++ [q]) cm st
          else
            '(cm, st) ← check_entry_coins spentHeight (e_Tx e) cm st;
            check_waiting fuel spentHeight 0 m wait cm st
      end
  end.
Definition check_next {E} (m : TxMempool) : res E unit :=
  if forallb (fun x => match entries m !! x.2 with Some e => bool_decide (poolData m !! entry_hash Sha256 e = Some x.2) | None => false end)
       (map_to_list (nextTx m)) then Ok tt else Panic.
(** [order] is the order of the range over the pool; [rand] is the random number. *)
Definition CheckMempool (checkFrequency rand bestHeight : Z) (order : list nat) : acc unit := fun n =>
  if (checkFrequency =? 0) || (checkFrequency <=? rand) then (n, Ok tt)
  else
    let spentHeight := i32 (bestHeight + 1) in
    match check_entries spentHeight order (mkCheck (n_pool n) (n_view n) ∅ [] 0) with
    | Ok None => (n, Ok tt)
    | Ok (Some s) =>
        let k := length (ch_wait s) in
        match check_waiting (S k * S k) spentHeight 0 (ch_pool s) (ch_wait s) (ch_dup s) (ch_view s) with
        | Ok st =>
            match check_next (E := AcceptErr) (ch_pool s) with
            | Ok _ => if totalTxSize (ch_pool s) =? ch_total s then (mkNode _ (ch_pool s) st, Ok tt) else (n, Panic)
            | _ => (n, Panic)
            end
        | _ => (n, Panic)
        end
    | _ => (n, Panic)
    end.

Definition RemoveForReorg (checkFrequency rand nMemPoolHeight : Z) (order : list Tx) (check_order : TxMempool -> list nat) : acc unit :=
  set_pool NewTxMempool;;
  all ← readd order;
  if (all : bool) then
    m ← pool_of id;
    set_pool (with_orphans m (CleanOrphan (orphanPool m)));;
    CheckMempool checkFrequency rand (i32 (nMemPoolHeight - 1)) (check_order m)
  else mret tt.
End Lmempool.
