(* ===== verification/LmempoolFacts.v ===== *)
(** * Orphans and reorganisations keep the pool sound

    What the operations of the pool leave alone, which coins an eviction drops from the
    cache, and the invariant of the node under acceptance, orphans and rebuilding. *)
From S2P Require Import Prelude Errors Wire ScriptNum Opcodes Script ScriptFacts Tx TxFacts Crypto Compress Coins CoinsFacts Block Undo.
From S2P Require Import Stack Slice Interp Ltx ConnectFacts MoneyFacts BlockIndex Chain Mempool MempoolFacts PoolFacts PoolSorted PoolSteps PoolBlock MempoolTheorems OrphanFacts Accept AcceptFacts Lmempool.

(** Takes a successful computation apart. *)
Ltac unbind H :=
  repeat (lazymatch type of H with
  | _ ≫= _ = Ok _ => let x := fresh "x" in let Hx := fresh "Hx" in apply res_bind_inv in H as (x & Hx & H); cbv beta in H
  | (let '(_, _) := ?x in _) = Ok _ => destruct x
  end).

Section Side.
Context (Sha256 : bytes -> bytes) (range : gset nat -> list nat).
(** The parts that only orphans and the minimum fee concern. *)
Definition side (m : TxMempool) : OrphanPool * Z * Z := (orphanPool m, rollingMinimumFeeRate m, incrementalRelayFee m).

Lemma AddTx_unlimited_side {E} m q e A m' : AddTx_unlimited (E := E) Sha256 range m q e A = Ok m' -> side m' = side m.
Proof. unfold AddTx_unlimited. cbn [updateNextTx]. cbv zeta. intros Hm. unbind Hm. by injection Hm as <-. Qed.
Lemma cut_parents_side {E} l : forall m m', cut_parents (E := E) Sha256 range l m = Ok m' -> side m' = side m.
Proof.
  induction l as [|q l IH]; intros m m'; cbn [cut_parents]; [by intros [= <-]|]. intros Hm. unbind Hm.
  destruct (CalculateMemPoolAncestors _ _ _ _ _ _); [|by injection Hm as <-|done]. unbind Hm. by apply IH in Hm.
Qed.
Lemma delete_entries_side {E} l : forall m m', delete_entries (E := E) Sha256 l m = Ok m' -> side m' = side m.
Proof.
  induction l as [|q l IH]; intros m m'; cbn [delete_entries]; [by intros [= <-]|]. intros Hm. unbind Hm. apply IH in Hm as ->. unfold delTxentry in Hx. unbind Hx. by injection Hx as <-.
Qed.
Lemma RemoveStaged_side {E} S m m' : RemoveStaged (E := E) Sha256 range S false m = Ok m' -> side m' = side m.
Proof.
  unfold RemoveStaged, updateForRemoveFromMempool. intros Hm. unbind Hm. apply delete_entries_side in Hm as ->. unbind Hx. injection Hx0 as <-. by apply cut_parents_side in Hx as ->.
Qed.
Lemma expire_side {E} time m m' n : expire (E := E) Sha256 range time m = Ok (m', n) -> side m' = side m.
Proof. unfold expire. intros Hm. unbind Hm. injection Hm as <- _. by eapply RemoveStaged_side. Qed.

(** An output that an eviction returns is spent by an entry that was there. *)
Definition spent_in (h : eheap) (o : OutPoint) : Prop := exists x e, h !! x = Some e /\ o ∈ GetAllPreviousOut (e_Tx e).
Lemma load_txs_in {E} h l : forall ts, load_txs (E := E) h l = Ok ts -> forall t, t ∈ ts -> exists x e, h !! x = Some e /\ e_Tx e = t.
Proof.
  induction l as [|q l IH]; intros ts; cbn [load_txs]; [intros [= <-] t Ht; by apply elem_of_nil in Ht|]. intros Hts. unbind Hts. injection Hts as <-. intros t [->|Ht]%elem_of_cons; [|by eapply IH].
  unfold eload in Hx. destruct (h !! q) as [e|] eqn:E1; [|done]. injection Hx as ->. by exists q, x.
Qed.
Lemma unspent_now_in m t o : o ∈ unspent_now m t -> o ∈ GetAllPreviousOut t.
Proof.
  unfold unspent_now. destruct (last (GetAllPreviousOut t)) as [x|] eqn:El; [|by intros ?%elem_of_nil]. intros [-> _]%elem_of_replicate. by apply last_Some_elem_of.
Qed.
Lemma trim_step_side {E} limit m ret m' ret' : trim_step (E := E) Sha256 range limit (m, ret) = inl (m', ret') -> side m' = side m /\ forall o, o ∈ ret' -> o ∈ ret \/ spent_in (entries m) o.
Proof.
  unfold trim_step. destruct (decide _); [done|]. destruct (usageSize m <=? limit); [done|]. cbv zeta.
  destruct (deref (Container_Min (txByAncestorFeeRateSort m))) as [x|e|]; cbn [mbind res_bind]; [|done|done]. destruct (Container_Delete _ _ _) as [fees [rem|]]; cbn [deref mbind res_bind]; [|done].
  destruct (eload (entries m) x) as [ex|e|]; cbn [mbind res_bind]; [|done|done]. destruct (eload (entries m) rem) as [er|e|]; cbn [mbind res_bind]; [|done|done]. destruct (negb _); [done|].
  destruct (CalculateDescendants range _ x ∅) as [D|e|]; cbn [mbind res_bind]; [|done|done]. destruct (load_txs _ (range D)) as [ts|e|] eqn:Ets; cbn [mbind res_bind]; [|done|done].
  destruct (RemoveStaged Sha256 range D false _) as [m2|e|] eqn:Er; cbn [mbind res_bind]; [|done|done]. intros [= <- <-]. apply RemoveStaged_side in Er. split; [by rw Er|].
  intros o [Ho|Ho]%elem_of_app; [by left|right]. apply list_elem_of_In, in_concat in Ho as (l & Hl%list_elem_of_In & Ho%list_elem_of_In). apply list_elem_of_fmap in Hl as (t & -> & Ht).
  destruct (load_txs_in _ _ _ Ets t Ht) as (y & ye & Hy & <-). exists y, ye. split; [done|]. by eapply unspent_now_in.
Qed.
Lemma evicts_tx limit m m' : rtc (evicts Sha256 limit) m m' -> forall x, e_Tx <$> entries m' !! x = e_Tx <$> entries m !! x.
Proof. intros Hev. induction Hev as [|a b d (_ & _ & z & ze & _ & _ & Hlv) _ IH]; [done|]. intros x. by rw IH (lv_tx _ _ _ Hlv). Qed.
Context (Hrange : forall X, range X ≡ₚ elements X).
Lemma trimToSize_side {E} limit m m' ret : pool_ok Sha256 m -> trimToSize (E := E) Sha256 range limit m = Ok (m', ret) -> side m' = side m /\ forall o, o ∈ ret -> spent_in (entries m) o.
Proof.
  intros Hok. unfold trimToSize. intros Hm.
  pose proof (run_loop_ok (trim_step (E := E) Sha256 range limit)
    (fun s => pool_ok Sha256 s.1 /\ side s.1 = side m /\ (forall x, e_Tx <$> entries s.1 !! x = e_Tx <$> entries m !! x) /\ forall o, o ∈ s.2 -> spent_in (entries m) o) (fun s => size (poolData s.1))
    (fun r => forall m' ret, r = Ok (m', ret) -> side m' = side m /\ forall o, o ∈ ret -> spent_in (entries m) o)) as Hl.
  apply (Hl (S (size (poolData m))) (m, [])); [| | |exact Hm]; clear Hl Hm.
  - intros [m1 ret1] (Hok1 & Hs1 & Ht1 & Hr1). cbn [fst snd] in *. pose proof (trim_step_ok Sha256 range Hrange (E := E) limit m1 ret1 Hok1) as Hst. pose proof (trim_step_side (E := E) limit m1 ret1) as Hsd.
    destruct (trim_step (E := E) Sha256 range limit (m1, ret1)) as [[m2 ret2]|r]; [|destruct Hst as [-> _]; by intros ? ? [= <- <-]]. destruct Hst as (Hok2 & Hlt & (_ & _ & z & ze & _ & _ & Hlv)).
    destruct (Hsd m2 ret2 eq_refl) as [Hs2 Hr2]. cbn [fst snd]. split; [|done]. split_and!; [done|congruence|intros x; by rw (lv_tx _ _ _ Hlv)|].
    intros o Ho. destruct (Hr2 o Ho) as [?|(x & e & Hx & Hoe)]; [by apply Hr1|]. specialize (Ht1 x). rw Hx in Ht1. destruct (entries m !! x) as [e0|] eqn:E0; [|done]. injection Ht1 as Ht1. exists x, e0. by rw -Ht1.
  - split_and!; [done|done|done|]. intros o Ho. by apply elem_of_nil in Ho.
  - cbn [fst]. pose proof (pow_bound (S (size (poolData m)))). lia.
Qed.
End Side.

Section Node.
Context `{Secp256k1} `{!SecpCompression} `{LruCache} `{!LruLaws} `{Hashes}.
Context (T : gset OutPoint) (HT : (size T <= lru_capacity)%nat) (U : gmap OutPoint Coin).
Context (grow : nat -> nat -> nat) (drain : list (option TxErr) -> list (option TxErr)) (Hdrain : forall l, drain l ≡ₚ l).
Context (range : gset nat -> list nat) (Hrange : forall X, range X ≡ₚ elements X).
Context (range_orphans : gmap bytes OrphanTx -> list OrphanTx) (Horphans : forall s, range_orphans s ≡ₚ map snd (map_to_list s)).
Context (sizeof_TxEntry overflow : Z).
Context (p : ForkParams) (conf : PoolConfig) (c : Chain) (now adjusted second : Z).
Abbreviation clean := (fun st => cache_ok T st U).
#[local] Instance clean_coin_view : CoinView T U clean := clean_view T HT U.
Abbreviation inputs_in := (inputs_in T).

Lemma remove_coins_clean {E} l : forall st st', cache_ok T st U -> (forall o, o ∈ l -> wf_outpoint o /\ o ∈ T) -> remove_coins (E := E) l st = Ok st' -> cache_ok T st' U.
Proof.
  induction l as [|o l IH]; intros st st' Hc Hl; cbn [remove_coins]; [by intros [= <-]|]. intros Hr. unbind Hr. eapply IH; [|intros o' ?; apply Hl; set_solver|exact Hr]. clear Hr IH.
  destruct (Hl o ltac:(set_solver)) as [Hw Ho]. unfold RemoveCoins in Hx. destruct (GetCoin_rep (E := E) T HT st U o Hc Hw Ho) as (st1 & Hg & Hc1 & _). rw Hg in Hx. cbn [mbind res_bind] in Hx.
  destruct (U !! o) as [u|]; [|by injection Hx as <-]. set (st2 := with_lru st1 _) in Hx. assert (cache_ok T st2 U) as Hc2.
  { destruct Hc1 as [Hr Hd Hcl Hrm]. split; cbn; [done|done| |]; rw contents_Remove; [|rw dom_delete; set_solver]. etrans; [apply delete_subseteq|done]. }
  destruct (GetCoin_rep (E := E) T HT st2 U o Hc2 Hw Ho) as (st3 & Hg2 & Hc3 & _). rw Hg2 in Hx. cbn [mbind res_bind] in Hx. by injection Hx as <-.
Qed.

(** What is known of a transaction that is offered. *)
Record offered_tx (t : Tx) : Prop := {
  of_wf : wf_tx t;
  of_hash : hash_ok (txid Sha256 t);
  of_ins : inputs_in (ins t);
  of_outs j : 0 <= j < Z.of_nat (length (outs t)) -> mkOutPoint (txid Sha256 t) (u32 j) ∈ T;
  of_ids o x : U !! o = Some x -> Hash o = txid Sha256 t -> 0 <= Index o < Z.of_nat (length (outs t)) /\ Index o < 2 ^ 32 }.
Definition offered_orphans (o : OrphanPool) : Prop :=
  (forall h x, OrphanTransactions o !! h = Some x -> offered_tx (o_Tx x)) /\
  forall prev h x, linked o prev h x -> offered_tx (o_Tx x).
Record node_ok (n : node) : Prop := {
  no_pool : good U (n_pool n);
  no_view : cache_ok T (n_view n) U;
  no_known x e : entries (n_pool n) !! x = Some e -> inputs_in (ins (e_Tx e));
  no_orphans : offered_orphans (orphanPool (n_pool n)) }.

Abbreviation Accept_tx := (AcceptTxToMemPool grow drain range sizeof_TxEntry overflow p conf c now adjusted).
Lemma LimitMempoolSize_node {E} sizeLimit age m st m' st' : pool_ok Sha256 m -> cache_ok T st U -> (forall x e, entries m !! x = Some e -> inputs_in (ins (e_Tx e))) ->
  LimitMempoolSize (E := E) Sha256 range now sizeLimit age m st = Ok (m', st') ->
  cache_ok T st' U /\ side m' = side m /\ forall x e, entries m' !! x = Some e -> inputs_in (ins (e_Tx e)).
Proof.
  intros Hok Hc Hin. unfold LimitMempoolSize. destruct (expire_ok Sha256 range Hrange (E := E) m (i64 (now - age)) Hok) as (m1 & k & He & Hok1 & Hl1). rw He. cbn [mbind res_bind].
  destruct (trimToSize_ok Sha256 range Hrange (E := E) sizeLimit m1 Hok1) as (m2 & os & Ht & Hok2 & _ & Hev). rw Ht. cbn [mbind res_bind]. intros Hm. unbind Hm. injection Hm as <- <-.
  destruct (trimToSize_side Sha256 range Hrange sizeLimit m1 m2 os Hok1 Ht) as [Hsd Hos]. apply expire_side in He.
  assert (forall m m', (forall x, e_Tx <$> entries m' !! x = e_Tx <$> entries m !! x) -> (forall x e, entries m !! x = Some e -> inputs_in (ins (e_Tx e))) -> forall x e, entries m' !! x = Some e -> inputs_in (ins (e_Tx e))) as Hmono.
  { intros a b Hab Ha y e Hy. specialize (Hab y). rw Hy in Hab. destruct (entries a !! y) as [e0|] eqn:E0; [|done]. injection Hab as ->. by apply (Ha y). }
  pose proof (Hmono m m1 (lv_tx _ _ _ Hl1) Hin) as Hin1. split_and!; [|congruence|].
  - eapply remove_coins_clean; [exact Hc| |exact Hx]. intros o Ho. destruct (Hos o Ho) as (y & e & Hy & Hoe). by apply (Hin1 y e Hy).
  - exact (Hmono m1 m2 (evicts_tx Sha256 _ _ _ Hev) Hin1).
Qed.
Lemma added_known m q e A P m' : added Sha256 m q e A P m' -> inputs_in (ins (e_Tx e)) -> (forall x o, entries m !! x = Some o -> inputs_in (ins (e_Tx o))) ->
  forall x o, entries m' !! x = Some o -> inputs_in (ins (e_Tx o)).
Proof.
  intros Hadded He Hm x o Ho. destruct (decide (x = q)) as [->|Hne]; [rw (ad_q _ _ _ _ _ _ _ Hadded) in Ho; by injection Ho as <-|].
  rw (ad_old _ _ _ _ _ _ _ Hadded x Hne) in Ho. destruct (entries m !! x) as [o'|] eqn:E'; [|done]. injection Ho as <-. rw (proj1 (with_child_same q e A P x o')). by apply (Hm x).
Qed.
Lemma AcceptTx_node t n : node_ok n -> offered_tx t ->
  match Accept_tx t n with
  | (n', Ok _) => node_ok n' /\ orphanPool (n_pool n') = orphanPool (n_pool n) /\ exists e, checked U grow drain overflow p conf c now (n_pool n) t e
  | (n', Err _) => node_ok n' /\ poolData (n_pool n') = poolData (n_pool n) /\ orphanPool (n_pool n') = orphanPool (n_pool n)
  | (_, Panic) => True
  end.
Proof.
  intros [Hg Hv Hk Ho] [Hwf Hh Hin Hout Hids]. assert (forall j, 0 <= j < Z.of_nat (length (outs t)) -> wf_outpoint (mkOutPoint (txid Sha256 t) (u32 j)) /\ mkOutPoint (txid Sha256 t) (u32 j) ∈ T) as Ho2.
  { intros j Hj. split; [|by apply Hout]. destruct Hh as [? ?]. split_and!; [done|done|apply u32_range]. }
  pose proof (CheckTx_sound T HT U clean grow drain Hdrain sizeof_TxEntry overflow p conf c now adjusted t n Hwf Hv Hin Ho2) as Hs. unfold sound_by in Hs. unfold AcceptTxToMemPool, mbind, acc_bind.
  assert (forall n1, stays_by clean rolled n n1 -> node_ok n1 /\ poolData (n_pool n1) = poolData (n_pool n) /\ orphanPool (n_pool n1) = orphanPool (n_pool n)) as Hst.
  { intros n1 [Hv1 Hr1]. pose proof Hr1 as (r & u & Hp). rw Hp. split; [|done]. split; [|done|by rw Hp|by rw Hp]. destruct Hg. split; [by eapply rolled_pool_ok|by eapply rolled_backed]. }
  destruct (CheckTxBeforeAcceptToMemPool _ _ _ _ _ _ _ _ _ t n) as [n1 [e|x|]]; [|by apply Hst|done]. destruct Hs as [Hs1 Hck]. destruct (Hst n1 Hs1) as ([Hg1 Hv1 Hk1 Ho1] & Hp1 & Hop1). destruct Hs1 as [_ Hr1].
  pose proof (add_entry_added U grow drain range overflow p conf c now Hrange t e n n1 Hg Hr1 Hck Hh Hids) as Ha.
  destruct (CalculateMemPoolAncestors Sha256 range (n_pool n1) t (conf_limits conf) true) as [A|x|]; [|by rw Ha|by rw Ha]. destruct Ha as (q & m1 & P & Hq & Hadd & Hadded & Hgm & _ & ->).
  pose proof (LimitMempoolSize_good U range now Hrange (E := MemPoolErr) (MaxPoolSize conf) (i64 (i64 (MaxPoolExpiry conf * 60) * 60)) m1 (n_view n1) Hgm) as Hl.
  destruct (LimitMempoolSize Sha256 range now (MaxPoolSize conf) _ m1 (n_view n1)) as [[m2 st2]|x|] eqn:El; [|done|done]. destruct Hl as (Hg2 & _ & _).
  assert (forall x o, entries m1 !! x = Some o -> inputs_in (ins (e_Tx o))) as Hkm by (eapply added_known; [exact Hadded|by rw (ck_tx _ _ _ _ _ _ _ _ _ _ _ Hck)|done]).
  destruct (LimitMempoolSize_node _ _ m1 (n_view n1) m2 st2 (proj1 Hgm) Hv1 Hkm El) as (Hv2 & Hsd & Hk2). apply AddTx_unlimited_side in Hadd. rw Hadd in Hsd.
  cbn [n_pool n_view]. assert (orphanPool m2 = orphanPool (n_pool n1)) as Hom by (by injection Hsd). split_and!; [|by rw Hom|by exists e]. split; cbn [n_pool n_view]; [done|done|done|by rw Hom].
Qed.

(** ** The node under orphans and rebuilding *)
Definition steady (I : node -> Prop) {A} (m : acc A) : Prop := forall n, I n -> match m n with (n', Ok _) | (n', Err _) => I n' | (_, Panic) => True end.
(** An invariant that survives the acceptance of a transaction and knows the orphans. *)
Class NodeInv (I : node -> Prop) : Prop := {
  ni_accept t : offered_tx t -> steady I (Accept_tx t);
  ni_orphans n : I n -> offered_orphans (orphanPool (n_pool n));
  ni_with_orphans m st o : I (mkNode _ m st) -> offered_orphans o -> I (mkNode _ (with_orphans m o) st) }.
Lemma with_orphans_node m st o : node_ok (mkNode _ m st) -> offered_orphans o -> node_ok (mkNode _ (with_orphans m o) st).
Proof. intros [[[Hg Hs Hso] Hb] Hv Hk _] Ho. split; cbn in *; [|done|done|done]. split; [|by destruct Hb]. by destruct Hg, Hs, Hso. Qed.
Lemma node_ok_inv : NodeInv node_ok.
Proof.
  split; [|apply no_orphans|apply with_orphans_node].
  intros t Ht n Hn. pose proof (AcceptTx_node t n Hn Ht) as Ha. destruct (Accept_tx t n) as [n' [[]|e|]]; [apply Ha|apply Ha|done].
Qed.
Lemma suborphans_offered o o' : suborphans o o' -> offered_orphans o -> offered_orphans o'.
Proof. intros [Hs1 Hs2] [Ho1 Ho2]. split; [intros h x Hx; by eapply Ho1, Hs1|]. intros prev h x Hx. by eapply Ho2, Hs2. Qed.
Lemma sweep_sub {E} l : forall o o' a b a' b', sweep_orphans (E := E) Sha256 range_orphans second l o a b = Ok (o', a', b') -> suborphans o o'.
Proof.
  induction l as [|ot l IH]; intros o o' a b a' b'; cbn [sweep_orphans]; [by intros [= <- _ _]|]. destruct (negb _); [apply IH|]. destruct (_ <=? second); [|apply IH].
  intros Hx. apply res_bind_inv in Hx as (o1 & H1o & Hx). etrans; [by eapply erase_sub|by eapply IH].
Qed.
Lemma limit_sub {E} o o' k : limitOrphanTx (E := E) Sha256 range_orphans second o = Ok (o', k) -> suborphans o o'.
Proof.
  unfold limitOrphanTx. intros Hx. apply res_bind_inv in Hx as ([o1 k1] & H1o & Hx). transitivity o1.
  - destruct (nextSweep o <=? second); [|by injection H1o as <- _]. apply res_bind_inv in H1o as ([[o2 a2] b2] & H2o & Hy). injection Hy as <- _. transitivity o2; [by eapply sweep_sub|]. by split.
  - destruct (_ <=? DefaultMaxOrphanTransaction); [by injection Hx as <- _|]. destruct (range_orphans (OrphanTransactions o1)) as [|ot l]; [by injection Hx as <- _|].
    apply res_bind_inv in Hx as (o2 & H2o & Hx). injection Hx as <- _. by eapply erase_sub.
Qed.
Lemma AddOrphanTx_offered {E} t node o o' : offered_tx t -> offered_orphans o -> AddOrphanTx (E := E) Sha256 range_orphans second t node o = Ok o' -> offered_orphans o'.
Proof.
  intros Ht [Ho1 Ho2] Ha. unfold AddOrphanTx in Ha. case_bool_decide; [by injection Ha as <-|]. apply res_bind_inv in Ha as (sz & _ & Ha). destruct (_ <=? sz); [by injection Ha as <-|].
  apply res_bind_inv in Ha as ([o1 k1] & H1o & Ha). injection Ha as <-. eapply suborphans_offered; [by eapply limit_sub|]. clear H1o. split; cbn [OrphanTransactions OrphanTransactionsByPrev].
  - intros h x. destruct (decide (txid Sha256 t = h)) as [<-|]; [rw lookup_insert_eq; by intros [= <-]|rw lookup_insert_ne //; apply Ho1].
  - intros prev h x. unfold linked. cbn [OrphanTransactionsByPrev]. rw link_linked. intros [(-> & _ & ->)|[_ Hl]]; [done|by apply (Ho2 prev h)].
Qed.

Abbreviation try_orphans := (try_orphans grow drain range range_orphans sizeof_TxEntry overflow p conf c now adjusted).
Abbreviation orphan_loop := (orphan_loop grow drain range range_orphans sizeof_TxEntry overflow p conf c now adjusted).
Abbreviation TryAccept := (TryAcceptOrphansTxs grow drain range range_orphans sizeof_TxEntry overflow p conf c now adjusted).
Abbreviation readd := (readd grow drain range range_orphans sizeof_TxEntry overflow p conf c now adjusted second).
Section Steady.
Context (I : node -> Prop) `{!NodeInv I}.
Lemma steady_bind {A B} (m : acc A) (f : A -> acc B) : steady I m -> (forall a, steady I (f a)) -> steady I (m ≫= f).
Proof. intros Hm Hf n Hn. unfold mbind, acc_bind. specialize (Hm n Hn). destruct (m n) as [n1 [a|e|]]; [|done|done]. by apply Hf. Qed.
Lemma steady_ret {A} (a : A) : steady I (mret a).
Proof. by intros n Hn. Qed.
Lemma steady_pool {A} (f : TxMempool -> A) : steady I (pool_of f).
Proof. by intros n Hn. Qed.
Lemma steady_attempt (m : acc unit) : steady I m -> steady I (attempt m).
Proof. intros Hm n Hn. unfold attempt. specialize (Hm n Hn). by destruct (m n) as [n1 [[]|e|]]. Qed.
Lemma steady_orphans f : (forall o o', offered_orphans o -> f o = Ok o' -> offered_orphans o') -> steady I (on_orphans f).
Proof.
  intros Hf [m st] Hn. unfold on_orphans, mbind, acc_bind, pool_of, pure, set_pool, id. cbn [n_pool n_view]. pose proof (ni_orphans _ Hn) as Ho. cbn [n_pool] in Ho. destruct (f (orphanPool m)) as [o|e|] eqn:Ef; [|done|done].
  cbn [n_view]. apply ni_with_orphans; [done|by eapply Hf].
Qed.
Lemma steady_erase h b : steady I (on_orphans (erase Sha256 range_orphans h b)).
Proof. apply steady_orphans. intros o o' Ho He. eapply suborphans_offered; [by eapply erase_sub|done]. Qed.
Lemma steady_try l : (forall x, x ∈ l -> offered_tx (o_Tx x)) -> steady I (try_orphans l).
Proof.
  induction l as [|x l IH]; intros Hl; cbn [Lmempool.try_orphans]; [apply steady_ret|]. apply steady_bind; [apply steady_attempt, ni_accept, Hl; set_solver|].
  intros [e|]; [|apply steady_bind; [apply steady_erase|intros; apply steady_ret]]. destruct (IsNoPreviousOut e); [apply IH; set_solver|]. apply steady_bind; [apply steady_erase|intros; apply steady_ret].
Qed.
Lemma steady_loop fuel : forall queue got, steady I (orphan_loop fuel queue got).
Proof.
  induction fuel as [|fuel IH]; intros [|o queue] got; cbn [Lmempool.orphan_loop]; [apply steady_ret|by intros n|apply steady_ret|]. intros n Hn. unfold mbind at 1, acc_bind at 1, pool_of, id.
  assert (forall A (f : option Tx -> acc A), (forall r, steady I (f r)) -> steady I (match OrphanTransactionsByPrev (orphanPool (n_pool n)) !! o with None => mret None | Some s => try_orphans (range_orphans s) end ≫= f)) as Hgo.
  { intros A f Hf. apply steady_bind; [|done]. destruct (OrphanTransactionsByPrev (orphanPool (n_pool n)) !! o) as [s|] eqn:Es; [|apply steady_ret].
    apply steady_try. intros x Hx. apply (elem_orphans range_orphans Horphans) in Hx as [h Hh]. apply (proj2 (ni_orphans _ Hn) o h x). by exists s. }
  apply Hgo; [|done]. intros [t|]; apply IH.
Qed.
Lemma steady_TryAccept t : steady I (TryAccept t).
Proof. unfold TryAcceptOrphansTxs. apply steady_bind; [apply steady_pool|]. intros m. apply steady_loop. Qed.
Lemma steady_readd l : Forall offered_tx l -> steady I (readd l).
Proof.
  induction 1 as [|t l Ht Hl IH]; cbn [Lmempool.readd]; [apply steady_ret|]. apply steady_bind; [by apply steady_attempt, ni_accept|]. intros [e|].
  - apply steady_bind; [|done]. destruct (IsNoPreviousOut e); [|apply steady_ret]. apply steady_orphans. intros o o' Ho. by apply AddOrphanTx_offered.
  - apply steady_bind; [apply steady_TryAccept|]. intros _. apply steady_bind; [apply steady_pool|]. intros m. by destruct (HaveTransaction Sha256 m t); [|apply steady_ret].
Qed.
End Steady.

(** *** The self-check finds nothing to correct *)
Lemma ancestors_member m q e A : pool_graph Sha256 m -> member Sha256 m q e -> ancestors_of m (e_Tx e) A -> forall x, x ∈ A <-> tc (edge ParentTx (entries m)) q x.
Proof.
  intros Hg He HA x. rw HA. split.
  - intros (y & Hy & Hyx). apply (pg_parents _ m Hg q e y He) in Hy. eapply tc_rtc_r; [|exact Hyx]. apply tc_once. exists e. split; [apply He|done].
  - intros Hx. assert (exists y, edge ParentTx (entries m) q y /\ rtc (edge ParentTx (entries m)) y x) as (y & (e0 & He0 & Hy) & Hyx).
    { destruct Hx as [a b Hab|a b d Hab Hbd]; [exists b; split; [done|apply rtc_refl]|exists b; split; [done|by apply tc_rtc]]. }
    rw (proj1 He) in He0. injection He0 as <-. exists y. split; [by apply (pg_parents _ m Hg q e y He)|done].
Qed.
Lemma sums_correct m q e A : pool_ok Sha256 m -> member Sha256 m q e -> ancestors_of m (e_Tx e) A ->
  exists sz fees ops, sum_entries (E := AcceptErr) (range A) (entries m) (i64 (TxSize e)) (i64 (TxFee e)) (i64 (SigOpCount e)) = Ok (sz, fees, ops) /\
    correct_sums (i64 (Z.of_nat (size A) + 1)) sz ops fees e = e.
Proof.
  intros Hok He HA. pose proof (po_graph _ m Hok) as Hg. destruct (ps_anc _ _ (po_sums _ m Hok) q e He) as (B & HB & Hs). assert (A = B) as ->.
  { apply set_eq. intros x. rw HB. by apply (ancestors_member m q e). }
  rw sum_entries_ok; last first.
  { intros x Hx%(elem_range range Hrange). apply HB in Hx. apply (tc_parent_child Sha256 m q x e Hg He) in Hx as [(xe & [Hx _]) _]. by eexists. }
  eexists _, _, _. split; [reflexivity|]. rw !(foldr_perm (fun x => from_option TxSize 0 (entries m !! x)) _ _ (Hrange B)) !(foldr_perm (fun x => from_option TxFee 0 (entries m !! x)) _ _ (Hrange B))
    !(foldr_perm (fun x => from_option SigOpCount 0 (entries m !! x)) _ _ (Hrange B)).
  cbn zeta in Hs. destruct Hs as (H1s & H2s & H3s & H4s). unfold correct_sums. unfold total in *. rw -H2s -H3s -H4s Z.add_comm -H1s. by destruct e as [? ? ? ? ? ? ? ? ? ? ? []].
Qed.
Lemma check_prevouts_view m l : forall w ps st w' ps' st', cache_ok T st U -> (forall o, o ∈ l -> wf_outpoint o /\ o ∈ T) -> check_prevouts_in m l w ps st = Ok (w', ps', st') -> cache_ok T st' U.
Proof.
  induction l as [|o l IH]; intros w ps st w' ps' st' Hc Hl; cbn [check_prevouts_in]; [by intros [= _ _ <-]|]. intros Hx. apply res_bind_inv in Hx as ([[w1 p1] st1] & Hx1 & Hx).
  destruct (nextTx m !! o); [|done]. eapply IH; [|intros o' ?; apply Hl; set_solver|exact Hx]. clear Hx IH. destruct (poolData m !! Hash o) as [q|].
  - apply res_bind_inv in Hx1 as (e & _ & Hx1). cbv zeta in Hx1. destruct (_ <=? Index o); [done|]. destruct (GetTxOut _ _); [|done]. destruct (TxOut_IsNull _); [done|]. by injection Hx1 as _ _ <-.
  - destruct (Hl o ltac:(set_solver)) as [Hw Ho]. unfold HaveCoin in Hx1. destruct (GetCoin_rep (E := AcceptErr) T HT st U o Hc Hw Ho) as (st2 & Hg & Hc2 & _). rw Hg in Hx1. cbn [mbind res_bind] in Hx1.
    destruct (match U !! o with Some _ => _ | None => _ end); [|done]. by injection Hx1 as _ _ <-.
Qed.
Lemma FetchCoin_view {E} cm st o r : cache_ok T st U -> wf_outpoint o -> o ∈ T -> FetchCoin (E := E) cm st o = Ok r -> cache_ok T r.2 U.
Proof.
  intros Hc Hw Ho. unfold FetchCoin. destruct (cm !! o); [by intros [= <-]|]. destruct (GetCoin_rep (E := E) T HT st U o Hc Hw Ho) as (st2 & -> & Hc2 & _). cbn [mbind res_bind].
  destruct (U !! o); [|by intros [= <-]]. destruct (IsSpent _); [done|by intros [= <-]].
Qed.
Lemma fetch_all_view l : forall cm st b cm' st', cache_ok T st U -> (forall o, o ∈ l -> wf_outpoint o /\ o ∈ T) -> fetch_all l cm st = Ok (b, cm', st') -> cache_ok T st' U.
Proof.
  induction l as [|o l IH]; intros cm st b cm' st' Hc Hl; cbn [fetch_all]; [by intros [= _ _ <-]|]. intros Hx. apply res_bind_inv in Hx as ([[r cm1] st1] & Hx1 & Hx). destruct (Hl o ltac:(set_solver)) as [Hw Ho].
  apply (FetchCoin_view _ _ _ _ Hc Hw Ho) in Hx1. cbn [snd] in Hx1. destruct r; [|by injection Hx as _ _ <-]. eapply IH; [done|intros o' ?; apply Hl; set_solver|exact Hx].
Qed.
Lemma fetch_every_view l : forall cm st cm' st', cache_ok T st U -> (forall o, o ∈ l -> wf_outpoint o /\ o ∈ T) -> fetch_every l cm st = Ok (cm', st') -> cache_ok T st' U.
Proof.
  induction l as [|o l IH]; intros cm st cm' st' Hc Hl; cbn [fetch_every]; [by intros [= _ <-]|]. intros Hx. apply res_bind_inv in Hx as ([[r cm1] st1] & Hx1 & Hx). destruct (Hl o ltac:(set_solver)) as [Hw Ho].
  apply (FetchCoin_view _ _ _ _ Hc Hw Ho) in Hx1. eapply IH; [done|intros o' ?; apply Hl; set_solver|exact Hx].
Qed.
Lemma check_entry_coins_view ht t cm st cm' st' : cache_ok T st U -> inputs_in (ins t) -> check_entry_coins ht t cm st = Ok (cm', st') -> cache_ok T st' U.
Proof.
  intros Hc Hin. unfold check_entry_coins. intros Hx. apply res_bind_inv in Hx as ([cm1 st1] & Hx1 & Hx). apply res_bind_inv in Hx as (cm2 & _ & Hx). injection Hx as _ <-.
  destruct (IsCoinBase t); [by injection Hx1 as _ <-|]. apply res_bind_inv in Hx1 as ([cm3 st3] & Hx3 & Hx1). apply fetch_every_view in Hx3; [|done|done]. destruct (CheckInputsMoney _ _ _); [|done|done]. by injection Hx1 as _ <-.
Qed.
Lemma check_entries_same ht l : forall s s', node_ok (mkNode _ (ch_pool s) (ch_view s)) -> (forall q, q ∈ l -> exists e, member Sha256 (ch_pool s) q e) -> (forall q, q ∈ ch_wait s -> exists e, member Sha256 (ch_pool s) q e) ->
  check_entries range ht l s = Ok (Some s') -> ch_pool s' = ch_pool s /\ cache_ok T (ch_view s') U /\ forall q, q ∈ ch_wait s' -> exists e, member Sha256 (ch_pool s) q e.
Proof.
  induction l as [|q l IH]; intros s s' Hn Hl Hw; cbn [check_entries]; [intros [= <-]; split_and!; [done|apply (no_view _ Hn)|done]|]. intros Hx. apply res_bind_inv in Hx as ([s1|] & Hx1 & Hx); [|done].
  assert (ch_pool s1 = ch_pool s /\ cache_ok T (ch_view s1) U /\ forall y, y ∈ ch_wait s1 -> y ∈ ch_wait s \/ y = q) as (Hp1 & Hv1 & Hw1).
  { clear Hx IH. unfold check_entry in Hx1. cbv zeta in Hx1. destruct (Hl q ltac:(set_solver)) as [e He]. rw (eload_Some _ _ _ (proj1 He)) in Hx1. cbn [mbind res_bind] in Hx1. pose proof (no_known _ Hn q e (proj1 He)) as Hin.
    apply res_bind_inv in Hx1 as ([[w ps] st] & Hpv & Hx1). apply check_prevouts_view in Hpv; [|apply (no_view _ Hn)|done]. destruct (negb _); [done|].
    destruct (CalculateMemPoolAncestors Sha256 range (ch_pool s) (e_Tx e) noLimit true) as [A|x|] eqn:EA; [|done|done]. pose proof (no_pool _ Hn) as [Hok _]. cbn [n_pool] in Hok. pose proof (po_graph _ _ Hok) as Hg.
    pose proof (pg_size _ _ Hg q e (proj1 He)) as Hsz. pose proof (ancestors_found Sha256 range Hrange _ _ _ _ _ Hg Hsz EA) as HA. destruct (sums_correct _ q e A Hok He HA) as (a & b & d & Hse & Hcs). rw Hse in Hx1. cbn [mbind res_bind] in Hx1.
    rw Hcs in Hx1. assert (with_entries (ch_pool s) (<[q:=e]> (entries (ch_pool s))) = ch_pool s) as Hsame by (rw insert_id; [by destruct (ch_pool s)|apply He]). rw Hsame in Hx1.
    apply res_bind_inv in Hx1 as ([ch cs] & _ & Hx1). destruct (negb _); [done|]. destruct (_ <? _); [done|]. destruct w; [injection Hx1 as <-; cbn; split_and!; [done|done|set_solver]|].
    apply res_bind_inv in Hx1 as ([cm2 st2] & Hcc & Hx1). injection Hx1 as <-. cbn. split_and!; [done|by eapply check_entry_coins_view|by left]. }
  destruct (IH s1 s') as (Hp & Hv & Hw'); [rw Hp1; destruct Hn; by split|rw Hp1; intros y ?; apply Hl; set_solver|rw Hp1; intros y [?| ->]%Hw1; [by apply Hw|apply Hl; set_solver]|done|].
  rw Hp Hp1. by rw Hp1 in Hw'.
Qed.
Lemma check_waiting_view fuel ht m : (forall x e, entries m !! x = Some e -> inputs_in (ins (e_Tx e))) -> forall steps wait cm st st', cache_ok T st U -> check_waiting fuel ht steps m wait cm st = Ok st' -> cache_ok T st' U.
Proof.
  intros Hk. induction fuel as [|fuel IH]; intros steps [|q wait] cm st st' Hc; cbn [check_waiting]; [by intros [= <-]|done|by intros [= <-]|]. intros Hx. apply res_bind_inv in Hx as (e & He & Hx). apply res_bind_inv in Hx as ([[have cm1] st1] & Hh & Hx).
  assert (inputs_in (ins (e_Tx e))) as Hin. { unfold eload in He. destruct (entries m !! q) as [e0|] eqn:E0; [|done]. injection He as <-. by apply (Hk q). }
  assert (cache_ok T st1 U) as Hc1. { unfold haveInputs in Hh. destruct (IsCoinBase _); [by injection Hh as _ _ <-|]. by eapply fetch_all_view. }
  destruct have; cbn [negb] in Hx.
  - apply res_bind_inv in Hx as ([cm2 st2] & Hcc & Hx). eapply IH; [|exact Hx]. by eapply check_entry_coins_view.
  - cbv zeta in Hx. destruct (_ <=? _); [done|]. by eapply IH.
Qed.
Lemma steady_CheckMempool freq rand ht order : forall n, node_ok n -> (forall q, q ∈ order -> q ∈ pool_set (n_pool n)) ->
  match CheckMempool range freq rand ht order n with (n', Ok _) => node_ok n' /\ n_pool n' = n_pool n | (_, Err _) => False | (_, Panic) => True end.
Proof.
  intros n Hn Ho. unfold CheckMempool. destruct (_ || _); [done|]. cbv zeta. pose proof (po_graph _ _ (proj1 (no_pool _ Hn))) as Hg.
  destruct (check_entries range (i32 (ht + 1)) order _) as [[s|]|x|] eqn:Ec; [|done|done|done].
  destruct (check_entries_same (i32 (ht + 1)) order (mkCheck (n_pool n) (n_view n) ∅ [] 0) s) as (Hp & Hv & _); [by destruct n|intros q Hq; by apply (pool_set_member Sha256 _ q Hg), Ho|by intros q ?%elem_of_nil|done|]. cbn in Hp.
  destruct (check_waiting _ _ _ _ _ _ _) as [st|x|] eqn:Ew; [|done|done]. destruct (check_next (ch_pool s)); [|done|done]. destruct (_ =? _); [|done]. rw Hp in Ew |- *. split; [|done].
  apply check_waiting_view in Ew; [|apply (no_known _ Hn)|done]. destruct Hn. by split.
Qed.

(** *** The queue of outputs runs dry *)
Lemma orphan_outs_sub o o' : suborphans o o' -> (orphan_outs o' <= orphan_outs o)%nat.
Proof.
  intros Hs. unfold orphan_outs. assert (map_to_list (OrphanTransactions o') ⊆+ map_to_list (OrphanTransactions o)) as Hsub.
  { apply map_to_list_submseteq, map_subseteq_spec. intros k x. apply (sb_all _ _ Hs). }
  induction Hsub; cbn; lia.
Qed.
Lemma orphan_outs_perm l l' : l ≡ₚ l' -> sum_list (map (fun x : bytes * OrphanTx => length (outs (o_Tx x.2))) l) = sum_list (map (fun x => length (outs (o_Tx x.2))) l').
Proof. induction 1; cbn; lia. Qed.
Lemma erase_false_outs {E} h x o o' : erase (E := E) Sha256 range_orphans h false o = Ok o' -> OrphanTransactions o !! h = Some x -> (orphan_outs o' + length (outs (o_Tx x)) = orphan_outs o)%nat.
Proof.
  unfold erase. rw Erase_unfold. cbn [mbind res_bind]. intros [= <-] Hx. unfold orphan_outs. cbn [OrphanTransactions]. rw unlink_all -(orphan_outs_perm _ _ (map_to_list_delete _ _ _ Hx)). cbn. lia.
Qed.
Definition orphans_of (n : node) : OrphanPool := orphanPool (n_pool n).
Lemma attempt_orphans t n r n' : node_ok n -> offered_tx t -> attempt (Accept_tx t) n = (n', Ok r) -> node_ok n' /\ orphans_of n' = orphans_of n.
Proof.
  intros Hn Ht. unfold attempt. pose proof (AcceptTx_node t n Hn Ht) as Ha. destruct (Accept_tx t n) as [n1 [[]|e|]]; [|intros [= <- _]; split; apply Ha|done]. intros [= <- _]. split; apply Ha.
Qed.
Lemma on_orphans_of f n n' r : on_orphans f n = (n', Ok r) -> f (orphans_of n) = Ok (orphans_of n').
Proof. unfold on_orphans, mbind, acc_bind, pool_of, pure, set_pool, id, orphans_of. cbn. destruct (f (orphanPool (n_pool n))) as [o|e|]; [|done|done]. by intros [= <- _]. Qed.
(** Each try keeps the maps in agreement, and an accepted orphan takes its outputs along. *)
Lemma try_orphans_outs l : forall n n' r, node_ok n -> orphans_ok Sha256 (orphans_of n) -> (forall x, x ∈ l -> OrphanTransactions (orphans_of n) !! txid Sha256 (o_Tx x) = Some x) ->
  try_orphans l n = (n', Ok r) -> node_ok n' /\ orphans_ok Sha256 (orphans_of n') /\ (orphan_outs (orphans_of n') + from_option (fun t => length (outs t)) 0 r <= orphan_outs (orphans_of n))%nat.
Proof.
  induction l as [|x l IH]; intros n n' r Hn Ho Hl Htry; [injection Htry as <- <-; split_and!; [done|done|cbn; lia]|].
  assert (node_ok n') as Hn'.
  { pose proof (@steady_try node_ok node_ok_inv (x :: l)) as Hst. unfold steady in Hst. specialize (Hst (fun y Hy => proj1 (no_orphans _ Hn) _ y (Hl y Hy)) n Hn). by rw Htry in Hst. }
  split; [done|]. cbn [Lmempool.try_orphans] in Htry. unfold mbind at 1, acc_bind at 1 in Htry. destruct (attempt (Accept_tx (o_Tx x)) n) as [n1 [e|e|]] eqn:Ea; [|done|done].
  pose proof (Hl x ltac:(set_solver)) as Hx. destruct (attempt_orphans _ _ _ _ Hn (proj1 (no_orphans _ Hn) _ x Hx) Ea) as [Hn1 Ho1].
  assert (forall b n2 u, on_orphans (erase Sha256 range_orphans (txid Sha256 (o_Tx x)) b) n1 = (n2, Ok u) -> orphans_ok Sha256 (orphans_of n2) /\
    (orphan_outs (orphans_of n2) + (if b then 0 else length (outs (o_Tx x))) <= orphan_outs (orphans_of n))%nat) as Her.
  { intros b n2 u He%on_orphans_of. rw Ho1 in He. destruct (erase_total Sha256 range_orphans Horphans (E := AcceptErr) (txid Sha256 (o_Tx x)) b (orphans_of n) Ho) as (o2 & H2o & Hok2 & Hs2 & _); [by eexists|].
    rw H2o in He. injection He as ->. split; [done|]. destruct b; [apply orphan_outs_sub in Hs2; lia|]. by rw (erase_false_outs _ _ _ _ H2o Hx). }
  destruct e as [e|].
  - destruct (IsNoPreviousOut e).
    + assert (forall y, y ∈ l -> OrphanTransactions (orphans_of n1) !! txid Sha256 (o_Tx y) = Some y) as Hl1 by (intros y ?; rw Ho1; apply Hl; set_solver). rw -Ho1 in Ho |- *. by apply (IH n1 n' r Hn1 Ho Hl1).
    + unfold mbind, acc_bind in Htry. destruct (on_orphans _ n1) as [n2 [u|e2|]] eqn:E2; [|done|done]. injection Htry as <- <-. by apply (Her true n2 u).
  - unfold mbind, acc_bind in Htry. destruct (on_orphans _ n1) as [n2 [u|e2|]] eqn:E2; [|done|done]. injection Htry as <- <-. by apply (Her false n2 u).
Qed.
Lemma length_outpoints t : length (outpoints t) = length (outs t).
Proof. unfold outpoints. by rw length_map length_seq. Qed.
(** More fuel makes no difference. *)
Lemma orphan_loop_enough k : forall fuel queue got n, node_ok n -> orphans_ok Sha256 (orphans_of n) -> (length queue + orphan_outs (orphans_of n) <= fuel)%nat ->
  orphan_loop (fuel + k) queue got n = orphan_loop fuel queue got n.
Proof.
  induction fuel as [|fuel IH]; intros [|o queue] got n Hn Ho Hf; cbn [length Nat.add] in *; [by destruct k|lia|done|]. cbn [Lmempool.orphan_loop]. unfold mbind at 1 3, acc_bind at 1 3, pool_of, id. unfold mbind at 1 2, acc_bind at 1 2.
  set (tried := match OrphanTransactionsByPrev (orphanPool (n_pool n)) !! o with None => mret None | Some s => try_orphans (range_orphans s) end).
  destruct (tried n) as [n1 [r|e|]] eqn:Et; [|done|done]. assert (node_ok n1 /\ orphans_ok Sha256 (orphans_of n1) /\ (orphan_outs (orphans_of n1) + from_option (fun t => length (outs t)) 0 r <= orphan_outs (orphans_of n))%nat) as (Hn1 & Ho1 & Hf1).
  { unfold tried in Et. destruct (OrphanTransactionsByPrev (orphanPool (n_pool n)) !! o) as [s|] eqn:Es; [|injection Et as <- <-; split_and!; [done|done|cbn; lia]].
    apply (try_orphans_outs _ _ _ _ Hn Ho) in Et; [done|]. intros x [h Hh]%(elem_orphans range_orphans Horphans). assert (linked (orphans_of n) o h x) as Hlk by (by exists s).
    apply (oi_link _ _ _ Ho) in Hlk as (_ & Hx & _). by rw (oi_id _ _ _ Ho h x Hx). }
  destruct r as [t|]; apply IH; [done|done| |done|done|]; rw ?length_app ?length_outpoints; cbn in Hf1; lia.
Qed.
End Node.
