(* ===== verification/AcceptTheorems.v ===== *)
(** * Theorems on acceptance, orphans and rebuilding the pool

    The definitions are in Accept.v and Lmempool.v, the lemmas in OrphanFacts.v,
    AcceptFacts.v and LmempoolFacts.v. *)
From S2P Require Import Prelude Errors Wire ScriptNum Opcodes Script ScriptFacts Tx TxFacts Crypto Compress Coins CoinsFacts Block Undo.
From S2P Require Import Stack Slice Interp Ltx ConnectFacts MoneyFacts ScriptTheorems UtxoTheorems BlockIndex Chain ChainTheorems Mempool MempoolFacts PoolFacts PoolSorted PoolSteps PoolBlock MempoolTheorems.
From S2P Require Import OrphanFacts Accept AcceptFacts Lmempool LmempoolFacts.

Lemma no_orphans_offered `{Hashes} T U s : offered_orphans T U (mkOrphans ∅ ∅ s).
Proof. split; [intros h x Hx|intros prev h x (l & Hl & _)]; cbn in *; [by rw lookup_empty in Hx|by rw lookup_empty in Hl]. Qed.
(** A node with an empty pool. *)
Lemma empty_node `{SecpCompression} `{LruLaws} `{Hashes} (T : gset OutPoint) (U : CoinsMap) st : cache_ok T st U -> node_ok T U (mkNode _ NewTxMempool st).
Proof.
  intros Hv. split; [split; [apply new_pool_ok|]|exact Hv| |apply no_orphans_offered].
  - split; [intros q e o [He _]|intros q e o d [He _]]; cbn in He; by rw lookup_empty in He.
  - intros x e He. cbn in He. by rw lookup_empty in He.
Qed.

(** ** A small node *)
#[local] Existing Instances toy_curve toy_hashes toy_compression toy_lru toy_lru_laws.
Definition accept_params : ForkParams := Build_ForkParams params0 100 100 100 100 100 (2 ^ 40) 0 (toy_hash 1) [].
Definition accept_conf : PoolConfig :=
  {| RequireStandard := false; cfg_policy := Build_Policy true 100 true 0; PromiscuousMempoolFlags := Some 0; MaxPoolSize := 1000000; MaxPoolExpiry := 336;
     LimitAncestorCount := 25; LimitAncestorSize := 101; LimitDescendantCount := 25; LimitDescendantSize := 101 |}.
(** The coins of [utxo0]; the tip is the block of [toy_chain]. *)
Definition node1 : node := mkNode _ NewTxMempool state0.
Definition accept1 (t : Tx) (n : node) : node * res AcceptErr unit :=
  AcceptTxToMemPool toy_grow (fun l => reverse l) elements 200 0 accept_params accept_conf toy_chain 1000 1000 t n.
Definition orphans1 : OrphanPool :=
  match AddOrphanTx (E := unit) Sha256 (fun m => map snd (map_to_list m)) 0 tx2 7 (orphanPool NewTxMempool) with Ok o => o | _ => mkOrphans ∅ ∅ 0 end.
(** [tx2] waits for [tx1]. *)
Definition node2 : node := mkNode _ (with_orphans NewTxMempool orphans1) state0.
Definition try2 (n : node) : node * res AcceptErr (list Tx) :=
  TryAcceptOrphansTxs toy_grow (fun l => reverse l) elements (fun m => map snd (map_to_list m)) 200 0 accept_params accept_conf toy_chain 1000 1000 tx1 n.

Lemma tx_room op v : bool_decide (mkOutPoint (txid Sha256 (spend op v)) 0 ∈ ops0) = true -> forall j, 0 <= j < 1 -> mkOutPoint (txid Sha256 (spend op v)) (u32 j) ∈ ops0.
Proof. intros Hb j Hj. assert (j = 0) as -> by lia. apply bool_decide_eq_true in Hb. exact Hb. Qed.
Lemma spend_wf op v : 0 <= v < 2 ^ 60 -> wf_outpoint op -> unparsed op = false -> wf_tx (spend op v).
Proof.
  intros Hv Hw Hun. split; [constructor; [|constructor]|constructor; [|constructor]|by vm_compute|by vm_compute|by vm_compute|by vm_compute].
  - split; [exact Hw|]. cbn [scriptSig PreviousOutPoint Sequence]. rewrite Hun. split; [split; [by apply (bool_decide_unpack _)|by vm_compute]|]. by split_and!; vm_compute.
  - split; [split; cbn; lia|]. exists [OP_1]. split; [split; [by apply (bool_decide_unpack _)|by vm_compute]|by vm_compute].
Qed.
Lemma spend_offered op v : wf_tx (spend op v) -> wf_outpoint op -> bool_decide (op ∈ ops0) = true -> bool_decide (mkOutPoint (txid Sha256 (spend op v)) 0 ∈ ops0) = true ->
  hash_ok (txid Sha256 (spend op v)) -> bool_decide (Hash op0 = txid Sha256 (spend op v)) = false -> offered_tx ops0 utxo0 (spend op v).
Proof.
  intros Hwf Hw Hop Hout Hh Hne. split; [exact Hwf|exact Hh| | |].
  - intros o [->|?%elem_of_nil]%elem_of_cons; [|exfalso; assumption]. split; [exact Hw|]. apply bool_decide_eq_true in Hop. exact Hop.
  - apply tx_room, Hout.
  - intros o y Ho Hh'. exfalso. apply bool_decide_eq_false in Hne. apply Hne. rewrite <-Hh'. unfold utxo0 in Ho. apply lookup_singleton_Some in Ho as [<- _]. reflexivity.
Qed.
Lemma hash_compute (h : bytes) : bool_decide (bytes_ok h) = true -> length h = 32%nat -> hash_ok h.
Proof. intros Hb Hl. split; [exact Hl|]. apply bool_decide_eq_true in Hb. exact Hb. Qed.
Lemma hash_wf (h : bytes) i : bool_decide (bytes_ok h) = true -> length h = 32%nat -> is_u 32 i -> wf_outpoint (mkOutPoint h i).
Proof. intros Hb Hl Hi. split_and!; [exact Hl|apply bool_decide_eq_true in Hb; exact Hb|exact Hi]. Qed.
Lemma tx1_offered : offered_tx ops0 utxo0 tx1.
Proof. apply spend_offered; [apply spend_wf; [lia|apply op0_wf|vm_compute; reflexivity]|apply op0_wf|vm_compute; reflexivity|vm_compute; reflexivity|apply hash_compute; vm_compute; reflexivity|vm_compute; reflexivity]. Qed.
Lemma tx2_offered : offered_tx ops0 utxo0 tx2.
Proof.
  assert (wf_outpoint (mkOutPoint (txid Sha256 tx1) 0)) as Hw by (apply hash_wf; [vm_compute; reflexivity|vm_compute; reflexivity|split; vm_compute; congruence]).
  apply spend_offered; [apply spend_wf; [lia|exact Hw|vm_compute; reflexivity]|exact Hw|vm_compute; reflexivity|vm_compute; reflexivity|apply hash_compute; vm_compute; reflexivity|vm_compute; reflexivity].
Qed.
Lemma orphan_range (m : gmap bytes OrphanTx) : map snd (map_to_list m) ≡ₚ map snd (map_to_list m).
Proof. done. Qed.
Lemma node1_ok : node_ok ops0 utxo0 node1.
Proof. apply empty_node, state0_ok. Qed.
Lemma reversed (l : list (option TxErr)) : reverse l ≡ₚ l.
Proof. apply reverse_Permutation. Qed.
Lemma as_elements (X : gset nat) : elements X ≡ₚ elements X.
Proof. done. Qed.

(** ** Acceptance *)
Section AcceptTheorems.
Context `{SecpCompression} `{LruLaws} `{Hashes}.
(** The outpoints that occur, and the coins of the UTXO set. *)
Context (T : gset OutPoint) (HT : (size T <= lru_capacity)%nat) (U : CoinsMap).
Context (grow : nat -> nat -> nat) (drain : list (option TxErr) -> list (option TxErr)) (Hdrain : forall l, drain l ≡ₚ l).
Context (range : gset nat -> list nat) (Hrange : forall X, range X ≡ₚ elements X).
Context (range_orphans : gmap bytes OrphanTx -> list OrphanTx) (Horphans : forall s, range_orphans s ≡ₚ map snd (map_to_list s)).
Context (sizeof_TxEntry overflow : Z) (p : ForkParams) (conf : PoolConfig) (c : Chain) (now adjusted second : Z).


(** Trying the orphans that wait for a transaction ends: the queue has at most one
    place for every output of the transaction and of the orphans, and a loop that is
    allowed more rounds does the same and returns the same transactions. *)
Theorem TryAcceptOrphansTxs_ends (t : Tx) (n : node) (k : nat) (Hn : node_ok T U n) (Ho : orphans_ok Sha256 (orphanPool (n_pool n))) :
  orphan_loop grow drain range range_orphans sizeof_TxEntry overflow p conf c now adjusted (length (outs t) + orphan_outs (orphanPool (n_pool n)) + k) (outpoints t) [] n =
  TryAcceptOrphansTxs grow drain range range_orphans sizeof_TxEntry overflow p conf c now adjusted t n.
Proof.
  apply (orphan_loop_enough T HT U grow drain Hdrain range Hrange range_orphans Horphans sizeof_TxEntry overflow p conf c now adjusted k _ (outpoints t) [] n Hn Ho).
  rw length_outpoints. unfold orphans_of. lia.
Qed.

(** C40. After a reorganisation the pool is built anew: from whatever pool there was, with
    its transactions offered in the order the map is walked, the new pool is consistent
    and backed by the UTXO set, whether the loop is left early or not and whatever
    CheckMempool, which may correct the sums of an entry, does with it; the orphans that
    are left are well formed, and the cache of the coins still shows the UTXO set. *)
Theorem RemoveForReorg_rebuilds (checkFrequency rand height : Z) (order : list Tx) (check_order : TxMempool -> list nat) (n : node)
    (Hv : cache_ok T (n_view n) U) (Horder : Forall (offered_tx T U) order) (Hcheck : forall m q, q ∈ check_order m -> q ∈ pool_set m) :
  match RemoveForReorg grow drain range range_orphans sizeof_TxEntry overflow p conf c now adjusted second checkFrequency rand height order check_order n with
  | (n', Ok _) | (n', Err _) => node_ok T U n'
  | (_, Panic) => True
  end.
Proof.
  unfold RemoveForReorg. unfold mbind at 1, acc_bind at 1, set_pool at 1. unfold mbind at 1, acc_bind at 1.
  pose proof (node_ok_inv T HT U grow drain Hdrain range Hrange range_orphans Horphans sizeof_TxEntry overflow p conf c now adjusted) as Hinv.
  pose proof (steady_readd T HT U grow drain Hdrain range Hrange range_orphans Horphans sizeof_TxEntry overflow p conf c now adjusted second (node_ok T U) order Horder _ (empty_node T U _ Hv)) as Hr.
  destruct (readd _ _ _ _ _ _ _ _ _ _ _ _ order _) as [n1 [[]|e|]]; [|exact Hr|exact Hr|exact I].
  cbv beta iota delta [mbind acc_bind pool_of set_pool id]. assert (node_ok T U (mkNode _ (with_orphans (n_pool n1) (CleanOrphan (orphanPool (n_pool n1)))) (n_view n1))) as Hn2 by (apply with_orphans_node; [by destruct n1|apply no_orphans_offered]).
  pose proof (steady_CheckMempool T HT U grow drain Hdrain range Hrange range_orphans Horphans checkFrequency rand (i32 (height - 1)) (check_order (n_pool n1)) _ Hn2 (Hcheck (n_pool n1))) as Hs.
  destruct (CheckMempool _ _ _ _ _ _) as [n3 [u|e|]]; [apply Hs|destruct Hs|exact I].
Qed.
End AcceptTheorems.

(** C39. The orphans: after any sequence of arrivals, removals of one, of a peer's or of
    all, the two maps agree (an orphan is listed under exactly the outputs it spends) and
    there are at most 100; and erasing an orphan with its redeemers ends, and takes out
    nothing that is not built on its outputs, and all that is. *)
Theorem orphan_pool_ok (Sha256 : bytes -> bytes) (range_orphans : gmap bytes OrphanTx -> list OrphanTx) (o : OrphanPool)
    (Hrange : forall s, range_orphans s ≡ₚ map snd (map_to_list s)) (Ho : rtc (orphan_step Sha256 range_orphans) (mkOrphans ∅ ∅ 0) o) :
  Z.of_nat (size (OrphanTransactions o)) <= DefaultMaxOrphanTransaction /\
  (forall prev h x, linked o prev h x <-> OrphanTransactions o !! h = Some x /\ prev ∈ GetAllPreviousOut (o_Tx x)) /\
  forall h, is_Some (OrphanTransactions o !! h) -> exists o', erase (E := AcceptErr) Sha256 range_orphans h true o = Ok o' /\
    forall k, OrphanTransactions o' !! k = None <-> OrphanTransactions o !! k = None \/ rtc (redeems o) h k.
Proof.
  destruct (orphan_steps_ok Sha256 range_orphans Hrange o Ho) as [Hok Hf]. split; [exact Hf|]. split.
  - intros prev h x. rw (oi_link _ _ _ Hok). set_solver.
  - intros h Hh. destruct (erase_total Sha256 range_orphans Hrange (E := AcceptErr) h true o Hok (fun _ => Hh)) as (o' & He & _ & Hs & Hn & Her). specialize (Her eq_refl).
    exists o'. split; [done|]. by apply (erased_exactly h o o').
Qed.

(** ** Witnesses *)
#[local] Existing Instances toy_curve toy_hashes toy_compression toy_lru toy_lru_laws.
Definition as_listed (m : gmap bytes OrphanTx) : list OrphanTx := map snd (map_to_list m).
Example try2_result : match try2 (accept1 tx1 node2).1 with (n', Ok l) => (length l, size (poolData (n_pool n')), size (OrphanTransactions (orphanPool (n_pool n')))) | _ => (0, 0, 0)%nat end = (1, 2, 0)%nat.
Proof. by vm_compute. Qed.
(** [tx1] accepted while [tx2] waits for it. *)
Lemma orphans1_added : AddOrphanTx (E := unit) Sha256 as_listed 0 tx2 7 (mkOrphans ∅ ∅ 0) = Ok orphans1.
Proof. by vm_compute. Qed.
Lemma orphans1_step : rtc (orphan_step Sha256 as_listed) (mkOrphans ∅ ∅ 0) orphans1.
Proof. eapply rtc_once, os_add; [|exact orphans1_added]. vm_compute. reflexivity. Qed.
Lemma node2_ok : node_ok ops0 utxo0 node2.
Proof.
  apply with_orphans_node; [apply node1_ok|]. eapply AddOrphanTx_offered; [exact tx2_offered| |exact orphans1_added]. apply no_orphans_offered.
Qed.
Lemma node3_ok : node_ok ops0 utxo0 (accept1 tx1 node2).1 /\ orphanPool (n_pool (accept1 tx1 node2).1) = orphans1.
Proof.
  pose proof (AcceptTx_node ops0 ops0_room utxo0 toy_grow (fun l => reverse l) reversed elements as_elements as_listed orphan_range 200 0 accept_params accept_conf toy_chain 1000 1000 tx1 node2 node2_ok tx1_offered) as Hs.
  assert (match accept1 tx1 node2 with (_, Ok _) => true | _ => false end = true) as Hr by (vm_compute; reflexivity). unfold accept1 in Hr |- *.
  destruct (AcceptTxToMemPool _ _ _ _ _ _ _ _ _ _ tx1 node2) as [n' [[]|e|]]; [|discriminate|discriminate]. destruct Hs as (Hn & Ho & _). split; [exact Hn|exact Ho].
Qed.
Lemma TryAcceptOrphansTxs_ends_witness :
  let n := (accept1 tx1 node2).1 in
  orphan_loop toy_grow (fun l => reverse l) elements as_listed 200 0 accept_params accept_conf toy_chain 1000 1000 (length (outs tx1) + orphan_outs (orphanPool (n_pool n)) + 5) (outpoints tx1) [] n = try2 n.
Proof.
  apply (TryAcceptOrphansTxs_ends ops0 ops0_room utxo0 toy_grow (fun l => reverse l) reversed elements as_elements as_listed orphan_range 200 0 accept_params accept_conf toy_chain 1000 1000
    tx1 (accept1 tx1 node2).1 5 (proj1 node3_ok)). rewrite (proj2 node3_ok). exact (proj1 (orphan_steps_ok Sha256 as_listed orphan_range orphans1 orphans1_step)).
Defined.
Definition rebuilt : node * res AcceptErr unit :=
  RemoveForReorg toy_grow (fun l => reverse l) elements as_listed 200 0 accept_params accept_conf toy_chain 1000 1000 0 1 0 200 [tx2; tx1] (fun m => elements (pool_set m)) (accept1 tx1 node2).1.
(** The child comes first: it waits as an orphan until its parent is back. *)
Example rebuilt_result : match rebuilt with (n', Ok _) => (size (poolData (n_pool n')), size (OrphanTransactions (orphanPool (n_pool n')))) | _ => (0, 0)%nat end = (2, 0)%nat.
Proof. by vm_compute. Qed.
Lemma both_offered : Forall (offered_tx ops0 utxo0) [tx2; tx1].
Proof. constructor; [apply tx2_offered|constructor; [apply tx1_offered|constructor]]. Qed.
Lemma RemoveForReorg_rebuilds_witness : exists n', rebuilt = (n', Ok tt) /\ node_ok ops0 utxo0 n'.
Proof.
  pose proof (RemoveForReorg_rebuilds ops0 ops0_room utxo0 toy_grow (fun l => reverse l) reversed elements as_elements as_listed orphan_range 200 0 accept_params accept_conf toy_chain 1000 1000 0 1 0 200
    [tx2; tx1] (fun m => elements (pool_set m)) (accept1 tx1 node2).1 (no_view _ _ _ (proj1 node3_ok)) both_offered (fun m q Hq => proj1 (elem_of_elements _ _) Hq)) as Hs.
  pose proof rebuilt_result as Hr. unfold rebuilt in Hr |- *. destruct (RemoveForReorg _ _ _ _ _ _ _ _ _ _ _ _ _ _ _ _ _ _) as [n' [[]|e|]]; [|discriminate|discriminate]. exists n'. split; [reflexivity|exact Hs].
Defined.
Lemma orphan_pool_ok_witness : Z.of_nat (size (OrphanTransactions orphans1)) <= 100 /\
  exists o', erase (E := AcceptErr) Sha256 as_listed (txid Sha256 tx2) true orphans1 = Ok o' /\
    forall k, OrphanTransactions o' !! k = None <-> OrphanTransactions orphans1 !! k = None \/ rtc (redeems orphans1) (txid Sha256 tx2) k.
Proof.
  destruct (orphan_pool_ok Sha256 as_listed orphans1 orphan_range orphans1_step) as (Hf & _ & He). split; [exact Hf|]. apply He. eexists. vm_compute. reflexivity.
Defined.

(** ** Spending an output that can never be spent *)
(** A transaction whose first output is OP_RETURN, and one that spends that output. *)
Definition burn : Tx := mkTx HashZero 0 1 [mkTxIn op0 NewEmptyScript 0xffffffff] [mkTxOut 4900 (Some (NewScriptRaw [OP_RETURN]))].
Definition unburn : Tx := spend (mkOutPoint (txid Sha256 burn) 0) 4800.
(** The first is accepted; offered the second, the node panics: AddCoin leaves the
    unspendable coin out of the map, and the checks that follow use it unasked. *)
Example unburn_panics : match accept1 burn node1 with (n', Ok _) => match accept1 unburn n' with (_, Panic) => true | _ => false end | _ => false end = true.
Proof. by vm_compute. Qed.
