(* ===== verification/Disk.v ===== *)
(** * Block and undo files (persist/disk/disk.go, persist/global.go, model/block)

    Blocks are appended to the files blk?????.dat and their undo data to rev?????.dat;
    PersistGlobal records how much of each file is in use.  A file is its length and the
    bytes that were written; the others are zero, so that setting space aside costs
    nothing.  A file that does not exist is empty.  Errors of the operating system are not
    represented; the free space it reports is a parameter. *)
From S2P Require Import Prelude Errors Wire ScriptNum Opcodes Script ScriptFacts Tx TxFacts Crypto Compress Coins Block Undo.
From S2P Require Import Stack Slice Interp BlockIndex Chain VersionBits Pow.

(** ** Positions and file records *)
Record DiskBlockPos := mkPos { pos_File : Z; pos_Pos : Z }.
#[export] Instance DiskBlockPos_eq_dec : EqDecision DiskBlockPos.
Proof. solve_decision. Defined.
Record DiskTxPos := mkTxPos { BlockIn : DiskBlockPos; TxOffsetIn : Z }.
Definition Pos_IsNull (p : DiskBlockPos) : bool := pos_File p =? -1.
Definition Pos_Equal (p q : DiskBlockPos) : bool := (pos_Pos p =? pos_Pos q) && (pos_File p =? pos_File q).
Definition NewDiskBlkPos : DiskBlockPos := mkPos (-1) 0.
Definition Pos_Serialize (p : DiskBlockPos) : bytes := PutUint32 (u32 (pos_File p)) ++ PutUint32 (pos_Pos p).
Definition Pos_Unserialize : rd werr DiskBlockPos := f ← Uint32; p ← Uint32; mret (mkPos (i32 f) p).
Definition TxPos_Serialize (p : DiskTxPos) : bytes := Pos_Serialize (BlockIn p) ++ PutUint32 (TxOffsetIn p).
Definition TxPos_Unserialize : rd werr DiskTxPos := b ← Pos_Unserialize; o ← Uint32; mret (mkTxPos b o).

Record BlockFileInfo := mkInfo {
  Blocks : Z;
  bf_Size : Z;
  UndoSize : Z;
  HeightFirst : Z;
  HeightLast : Z;
  timeFirst : Z;
  timeLast : Z }.
Definition NewBlockFileInfo : BlockFileInfo := mkInfo 0 0 0 0 0 0 0.
Definition FileInfo_SetNull (bfi : BlockFileInfo) : BlockFileInfo := mkInfo 0 0 0 0 0 0 0.
Definition FileInfo_Serialize (bfi : BlockFileInfo) : bytes :=
  PutUint32 (Blocks bfi) ++ PutUint32 (bf_Size bfi) ++ PutUint32 (UndoSize bfi) ++ PutUint32 (u32 (HeightFirst bfi)) ++
  PutUint32 (u32 (HeightLast bfi)) ++ PutUint64 (timeFirst bfi) ++ PutUint64 (timeLast bfi).
Definition FileInfo_Unserialize : rd werr BlockFileInfo :=
  b ← Uint32; s ← Uint32; us ← Uint32; hf ← Uint32; hl ← Uint32; tf ← Uint64; tl ← Uint64;
  mret (mkInfo b s us (i32 hf) (i32 hl) tf tl).
Definition AddBlock (nHeightIn timeIn : Z) (bfi : BlockFileInfo) : BlockFileInfo :=
  mkInfo (u32 (Blocks bfi + 1)) (bf_Size bfi) (UndoSize bfi)
    (if (Blocks bfi =? 0) || (nHeightIn <? HeightFirst bfi) then nHeightIn else HeightFirst bfi)
    (if HeightLast bfi <? nHeightIn then nHeightIn else HeightLast bfi)
    (if (Blocks bfi =? 0) || (timeIn <? timeFirst bfi) then timeIn else timeFirst bfi)
    (if timeLast bfi <? timeIn then timeIn else timeLast bfi).
Definition set_Size (n : Z) (i : BlockFileInfo) : BlockFileInfo :=
  mkInfo (Blocks i) n (UndoSize i) (HeightFirst i) (HeightLast i) (timeFirst i) (timeLast i).
Definition set_UndoSize (n : Z) (i : BlockFileInfo) : BlockFileInfo :=
  mkInfo (Blocks i) (bf_Size i) n (HeightFirst i) (HeightLast i) (timeFirst i) (timeLast i).

(** ** Files *)
Record File := mkFile { f_len : Z; f_data : gmap Z Z }.
Definition no_file : File := mkFile 0 ∅.
Definition byte_at (f : File) (i : Z) : Z := default 0 (f_data f !! i).
(** At most [n] bytes from [off] on, fewer at the end of the file. *)
Definition read_at (f : File) (off n : Z) : bytes := map (byte_at f) (seqZ off (Z.min n (f_len f - off))).
(** The bytes with their places. *)
Fixpoint placed (off : Z) (b : bytes) : gmap Z Z :=
  match b with [] => ∅ | x :: b => <[off := x]> (placed (off + 1) b) end.
Definition write_at (f : File) (off : Z) (b : bytes) : File :=
  match b with [] => f | _ => mkFile (Z.max (f_len f) (off + Z.of_nat (length b))) (placed off b ∪ f_data f) end.
Definition zero_at (f : File) (off n : Z) : File :=
  if n =? 0 then f else mkFile (Z.max (f_len f) (off + n)) (filter (fun x => ~ (off <= x.1 < off + n)) (f_data f)).
Definition truncate (f : File) (n : Z) : File := mkFile n (filter (fun x => x.1 < n) (f_data f)).

(** ** The state *)
Record Disk := mkDisk {
  blk : gmap Z File;
  rev : gmap Z File;
  GlobalBlockFileInfo : list BlockFileInfo;
  GlobalLastBlockFile : Z;
  GlobalDirtyFileInfo : gset Z }.
Definition file_of (m : gmap Z File) (n : Z) : File := default no_file (m !! n).
Definition with_blk (m : gmap Z File) (d : Disk) : Disk := mkDisk m (rev d) (GlobalBlockFileInfo d) (GlobalLastBlockFile d) (GlobalDirtyFileInfo d).
Definition with_rev (m : gmap Z File) (d : Disk) : Disk := mkDisk (blk d) m (GlobalBlockFileInfo d) (GlobalLastBlockFile d) (GlobalDirtyFileInfo d).
Definition with_infos (l : list BlockFileInfo) (d : Disk) : Disk := mkDisk (blk d) (rev d) l (GlobalLastBlockFile d) (GlobalDirtyFileInfo d).
Definition with_last (n : Z) (d : Disk) : Disk := mkDisk (blk d) (rev d) (GlobalBlockFileInfo d) n (GlobalDirtyFileInfo d).
Definition with_dirty (s : gset Z) (d : Disk) : Disk := mkDisk (blk d) (rev d) (GlobalBlockFileInfo d) (GlobalLastBlockFile d) s.

Definition MaxBlockFileSize : Z := 0x8000000.
Definition BlockFileChunkSize : Z := 0x1000000.
Definition UndoFileChunkSize : Z := 0x100000.
Definition MinDiskSpace : Z := 52428800.

(** The write of a changed record through its pointer. *)
Definition upd_info {E} (n : Z) (f : BlockFileInfo -> BlockFileInfo) (d : Disk) : res E Disk :=
  i ← nth_go (GlobalBlockFileInfo d) n;
  Ok (with_infos (<[Z.to_nat n := f i]> (GlobalBlockFileInfo d)) d).

Definition CheckDiskSpace {E} (free nAdditionalBytes : Z) : res E bool :=
  if free <? MinDiskSpace + nAdditionalBytes then Panic else Ok true.
(** AllocateFileRange writes zeros, 64 KiB at a time. *)
Definition AllocateFileRange (f : File) (offset length : Z) : File := zero_at f offset length.
Definition FlushBlockFile {E} (fFinalize : bool) (d : Disk) : res E Disk :=
  let n := GlobalLastBlockFile d in
  if n =? -1 then Ok d
  else if fFinalize then
    i ← nth_go (GlobalBlockFileInfo d) n;
    Ok (with_rev (<[n := truncate (file_of (rev d) n) (UndoSize i)]> (rev d))
         (with_blk (<[n := truncate (file_of (blk d) n) (bf_Size i)]> (blk d)) d))
  else Ok d.

(** ** Finding a place *)
Definition grow_infos (l : list BlockFileInfo) (nFile : Z) : list BlockFileInfo :=
  l ++ repeat NewBlockFileInfo (Z.to_nat (nFile + 1 - Z.of_nat (length l))).
(** The first file with room.  A file that is not in use has room for anything below
    MaxBlockFileSize, so the number of files is enough fuel; with exactly that size the
    loop of the code never ends. *)
Fixpoint find_file {E} (fuel : nat) (nAddSize : Z) (l : list BlockFileInfo) (nFile : Z) : res E (list BlockFileInfo * Z) :=
  i ← nth_go l nFile;
  if MaxBlockFileSize <=? u32 (bf_Size i + nAddSize) then
    match fuel with
    | O => Panic
    | S fuel => let nFile := i32 (nFile + 1) in find_file fuel nAddSize (grow_infos l nFile) nFile
    end
  else Ok (l, nFile).
Definition chunks (n size : Z) : Z := u32 (n + size - 1) / size.
(** The space from [pos] to the end of the chunks in use, set aside when a new chunk
    begins. *)
Definition reserve {E} (free chunk : Z) (pos : DiskBlockPos) (nNewSize : Z) (m : gmap Z File) : res E (bool * gmap Z File) :=
  let nOldChunks := chunks (pos_Pos pos) chunk in
  let nNewChunks := chunks nNewSize chunk in
  if nOldChunks <? nNewChunks then
    let allocateSize := u32 (u32 (nNewChunks * chunk) - pos_Pos pos) in
    CheckDiskSpace free allocateSize;;
    if Pos_IsNull pos then Ok (false, m)
    else Ok (true, <[pos_File pos := AllocateFileRange (file_of m (pos_File pos)) (pos_Pos pos) allocateSize]> m)
  else Ok (true, m).

Definition FindBlockPos {E} (free : Z) (pos : DiskBlockPos) (nAddSize nHeight nTime : Z) (fKnown : bool) (d : Disk)
    : res E (DiskBlockPos * bool * Disk) :=
  if MaxBlockFileSize <? nAddSize then Panic
  else
    let nFile := if fKnown then pos_File pos else GlobalLastBlockFile d in
    let l := grow_infos (GlobalBlockFileInfo d) nFile in
    '(l, nFile) ← (if fKnown then Ok (l, nFile) else find_file (S (length l)) nAddSize l nFile);
    i ← (if fKnown then Ok NewBlockFileInfo else nth_go l nFile);
    let pos := if fKnown then pos else mkPos nFile (bf_Size i) in
    let d := with_infos l d in
    d ← (if nFile =? GlobalLastBlockFile d then Ok d else d ← FlushBlockFile (negb fKnown) d; Ok (with_last nFile d));
    d ← upd_info nFile (AddBlock nHeight nTime) d;
    '(ret, d) ← (if fKnown then
        i ← nth_go (GlobalBlockFileInfo d) nFile;
        let maxSize := u32 (pos_Pos pos + nAddSize) in
        d ← upd_info nFile (set_Size (if maxSize <? bf_Size i then bf_Size i else maxSize)) d;
        Ok (true, d)
      else
        d ← upd_info nFile (fun i => set_Size (u32 (bf_Size i + nAddSize)) i) d;
        i ← nth_go (GlobalBlockFileInfo d) nFile;
        '(ret, m) ← reserve free BlockFileChunkSize pos (bf_Size i) (blk d);
        Ok (ret, with_blk m d));
    Ok (pos, ret, with_dirty ({[nFile]} ∪ GlobalDirtyFileInfo d) d).

Inductive DiskErr := ErrorNotFindUndoFile | ErrorOpenUndoFileFailed | ErrOpenBlockFile | ErrRead | ErrDecode (e : werr) | ErrCheckProofOfWork | ErrEncode (e : werr)
                   | WriteFailed (code : Z).
Definition FindUndoPos (free nFile nAddSize : Z) (d : Disk) : res DiskErr (DiskBlockPos * Disk) :=
  i ← nth_go (GlobalBlockFileInfo d) nFile;
  let undoPos := mkPos nFile (UndoSize i) in
  d ← upd_info nFile (fun i => set_UndoSize (u32 (UndoSize i + u32 nAddSize)) i) d;
  i ← nth_go (GlobalBlockFileInfo d) nFile;
  let d := with_dirty ({[nFile]} ∪ GlobalDirtyFileInfo d) d in
  '(ok, m) ← reserve free UndoFileChunkSize undoPos (UndoSize i) (rev d);
  if (ok : bool) then Ok (undoPos, with_rev m d) else Err ErrorNotFindUndoFile.
Definition CalculateCurrentUsage (d : Disk) : Z :=
  foldl (fun n i => u64 (n + u32 (bf_Size i + UndoSize i))) 0 (GlobalBlockFileInfo d).
(** The loop over the block indexes walks a map that has just been made. *)
Definition PruneOneBlockFile {E} (fileNumber : Z) (d : Disk) : res E Disk :=
  d ← upd_info fileNumber FileInfo_SetNull d;
  Ok (with_dirty ({[fileNumber]} ∪ GlobalDirtyFileInfo d) d).

(** ** Records of blocks and undo data *)
Section Records.
Context `{Secp256k1} `{Hashes} (params : PowParams).

Definition block_record (b : Block) : bytes := let s := Block_Serialize b in PutUint32 (u32 (Z.of_nat (length s))) ++ s.
Definition WriteBlockToDisk (b : Block) (pos : DiskBlockPos) (d : Disk) : bool * Disk :=
  if Pos_IsNull pos then (false, d)
  else (true, with_blk (<[pos_File pos := write_at (file_of (blk d) (pos_File pos)) (pos_Pos pos) (block_record b)]> (blk d)) d).
(** What follows the length at a position: the bytes that could be read. *)
Definition read_record (f : File) (off : Z) : res DiskErr (Z * bytes) :=
  match Uint32 (read_at f off 4) with
  | Ok (size, _) =>
      let b := read_at f (off + 4) size in
      if (0 <? size) && bool_decide (b = []) then Err ErrRead else Ok (size, b)
  | _ => Err ErrRead
  end.
(** [None] is a nil block with a nil error. *)
Definition ReadBlockFromDiskByPos (pos : DiskBlockPos) (d : Disk) : res DiskErr (option Block) :=
  if Pos_IsNull pos then Err ErrOpenBlockFile
  else
    '(size, tmp) ← read_record (file_of (blk d) (pos_File pos)) (pos_Pos pos);
    if negb (Z.of_nat (length tmp) =? size) then Ok None
    else
      match Block_Unserialize NewBlock tmp with
      | Panic => Panic
      | Err e => Err (ErrDecode e)
      | Ok (b, _) =>
          if CheckProofOfWork params (Block_GetHash Sha256 b) (Bits (Header b)) then Ok (Some b) else Err ErrCheckProofOfWork
      end.
Definition of_pos (p : Z * Z) : DiskBlockPos := mkPos p.1 p.2.
(** [None] when the read failed. *)
Definition ReadBlockFromDisk {E} (i : BlockIndex) (d : Disk) : res E (option Block) :=
  match ReadBlockFromDiskByPos (of_pos (GetBlockPos i)) d with
  | Panic => Panic
  | Err _ => Ok None
  | Ok None => Panic
  | Ok (Some b) => if bool_decide (Block_GetHash Sha256 b = (GetBlockHash Sha256 i).1) then Ok (Some b) else Ok None
  end.

Definition undo_record (hashBlock data : bytes) : bytes :=
  PutUint32 (u32 (Z.of_nat (length data) + 32)) ++ data ++ Sha256 (hashBlock ++ data).
Definition UndoWriteToDisk (bu : BlockUndo) (pos : DiskBlockPos) (hashBlock : bytes) (d : Disk) : res DiskErr Disk :=
  if Pos_IsNull pos then Err ErrorOpenUndoFileFailed
  else
    match BlockUndo_Serialize bu with
    | Ok data => Ok (with_rev (<[pos_File pos := write_at (file_of (rev d) (pos_File pos)) (pos_Pos pos) (undo_record hashBlock data)]> (rev d)) d)
    | Err e => Err (ErrEncode e)
    | Panic => Panic
    end.
Definition UndoReadFromDisk {E} (pos : DiskBlockPos) (hashblock : bytes) (d : Disk) : res E (option BlockUndo) :=
  if Pos_IsNull pos then Ok None
  else
    match read_record (file_of (rev d) (pos_File pos)) (pos_Pos pos) with
    | Ok (size, buf) =>
        if Z.of_nat (length buf) <? size then Ok None
        else if size <? 32 then Panic
        else
          let undoData := take (length buf - 32) buf in
          match BlockUndo_Unserialize undoData with
          | Panic => Panic
          | Err _ => Ok None
          | Ok (bu, _) => if bool_decide (drop (length buf - 32) buf = Sha256 (hashblock ++ undoData)) then Ok (Some bu) else Ok None
          end
    | _ => Ok None
    end.
(** BlockUndo.SerializeSize is 0 when the data cannot be written. *)
Definition BlockUndo_SerializeSize {E} (bu : BlockUndo) : res E Z :=
  match BlockUndo_Serialize bu with Ok b => Ok (Z.of_nat (length b)) | Err _ => Ok 0 | Panic => Panic end.

(** *** The block of a new index (logic/lblock/lblock.go) *)
Definition StoreBlock (free : Z) (height : Z) (b : Block) (inDbp : option DiskBlockPos) (d : Disk) : res DiskErr (DiskBlockPos * Disk) :=
  let pos := default (mkPos 0 0) inDbp in
  let '(size, b) := Block_SerializeSize b in
  '(pos, flag, d) ← FindBlockPos free pos (u32 (u32 size + 4)) height (Time (Header b)) (if inDbp then true else false) d;
  if negb flag then Err (WriteFailed 2000)
  else if inDbp then Ok (pos, d)
  else let '(flag, d) := WriteBlockToDisk b pos d in
       if flag then Ok (pos, d) else Err (WriteFailed 2001).
End Records.
