(* ===== verification/DiskFacts.v ===== *)
(** * Block and undo files: what is stored stays

    The bytes of a record keep their place while later records are placed beyond the part
    of the file that is in use. *)
From S2P Require Import Prelude Errors Wire ScriptNum Opcodes Script ScriptFacts Tx TxFacts Crypto Compress Coins CoinsFacts Block Undo.
From S2P Require Import Stack Slice Interp Ltx ConnectFacts BlockIndex Chain VersionBits Pow Disk.

(** ** Files *)
Abbreviation len b := (Z.of_nat (length b)).
Lemma placed_lookup b : forall off i, placed off b !! i = if decide (off <= i < off + len b) then b !! Z.to_nat (i - off) else None.
Proof.
  induction b as [|x b IH]; intros off i; cbn [placed length]; [rw lookup_empty; case_decide; [lia|done]|].
  destruct (decide (off = i)) as [->|Hne].
  - rw lookup_insert_eq decide_True; [|lia]. by rw Z.sub_diag.
  - rw lookup_insert_ne; [|done]. rw IH. case_decide; case_decide; [|lia|lia|done]. replace (Z.to_nat (i - off)) with (S (Z.to_nat (i - (off + 1)))) by lia. done.
Qed.
Lemma byte_write f off b i : byte_at (write_at f off b) i = if decide (off <= i < off + len b) then default 0 (b !! Z.to_nat (i - off)) else byte_at f i.
Proof.
  unfold byte_at, write_at. destruct b as [|x b]; [case_decide as Hd; [cbn in Hd; lia|done]|]. cbn [f_data]. rw lookup_union placed_lookup. case_decide as Hd.
  - destruct ((x :: b) !! Z.to_nat (i - off)) as [y|] eqn:Ey; [by rw union_Some_l|]. apply lookup_ge_None in Ey. cbn [length] in *. lia.
  - by rw option_union_left_id.
Qed.
(** The bytes [b] are in the file at [off]. *)
Definition at_place (f : File) (off : Z) (b : bytes) : Prop := off + len b <= f_len f /\ forall k x, b !! k = Some x -> byte_at f (off + Z.of_nat k) = x.
Lemma at_place_read f off b : at_place f off b -> read_at f off (len b) = b.
Proof.
  intros [Hl Hb]. unfold read_at. rw Z.min_l; [|lia]. apply list_eq. intros k. rw list_lookup_fmap. destruct (b !! k) as [x|] eqn:Ek.
  - assert (seqZ off (len b) !! k = Some (off + Z.of_nat k)) as -> by (apply lookup_seqZ; apply lookup_lt_Some in Ek; lia). cbn. by rw (Hb k x).
  - by assert (seqZ off (len b) !! k = None) as -> by (apply lookup_seqZ_ge; apply lookup_ge_None in Ek; lia).
Qed.
Lemma at_place_app f off a b : at_place f off (a ++ b) -> at_place f off a /\ at_place f (off + len a) b.
Proof.
  intros [Hl Hb]. rw length_app in Hl. split; (split; [lia|]); intros k x Hx.
  - apply Hb. by apply lookup_app_l_Some.
  - replace (off + len a + Z.of_nat k) with (off + Z.of_nat (length a + k)) by lia. apply Hb. rw lookup_app_r; [|lia]. by replace (length a + k - length a)%nat with k by lia.
Qed.
Lemma at_write_below f o c off b : at_place f off b -> off + len b <= o -> at_place (write_at f o c) off b.
Proof.
  intros [Hl Hb] Ho. split; [destruct c; cbn [write_at f_len]; lia|]. intros k x Hx. pose proof (lookup_lt_Some _ _ _ Hx). rw byte_write. case_decide; [lia|]. by apply Hb.
Qed.
Lemma at_write_same f o c : c <> [] -> at_place (write_at f o c) o c.
Proof.
  intros Hc. split; [destruct c; cbn [write_at f_len]; [done|lia]|]. intros k x Hx. pose proof (lookup_lt_Some _ _ _ Hx). rw byte_write. case_decide; [|lia].
  replace (Z.to_nat (o + Z.of_nat k - o)) with k by lia. by rw Hx.
Qed.
Lemma at_zero_below f o n off b : 0 <= n -> at_place f off b -> off + len b <= o -> at_place (zero_at f o n) off b.
Proof.
  intros Hn [Hl Hb] Ho. unfold zero_at. destruct (n =? 0); [by split|]. split; [cbn; lia|]. intros k x Hx. pose proof (lookup_lt_Some _ _ _ Hx). rw -(Hb k x Hx). unfold byte_at. cbn [f_data].
  destruct (f_data f !! (off + Z.of_nat k)) as [y|] eqn:Ey.
  - rw (map_lookup_filter_Some_2 _ _ _ y Ey); [done|cbn; lia].
  - rw map_lookup_filter_None_2; [done|by left].
Qed.
Lemma at_truncate f n off b : at_place f off b -> off + len b <= n -> at_place (truncate f n) off b.
Proof.
  intros [Hl Hb] Hn. split; [done|]. intros k x Hx. pose proof (lookup_lt_Some _ _ _ Hx). rw -(Hb k x Hx). unfold byte_at, truncate. cbn [f_data].
  destruct (f_data f !! (off + Z.of_nat k)) as [y|] eqn:Ey.
  - rw (map_lookup_filter_Some_2 _ _ _ y Ey); [done|cbn; lia].
  - rw map_lookup_filter_None_2; [done|by left].
Qed.
Lemma file_of_insert m n n' f : file_of (<[n := f]> m) n' = if decide (n = n') then f else file_of m n'.
Proof. unfold file_of. case_decide as Hn; [by rw Hn lookup_insert_eq|by rw lookup_insert_ne]. Qed.

(** ** The part of a file in use *)
(** [used] is the size that the record of the file gives. *)
Definition kept (used : BlockFileInfo -> Z) (m : gmap Z File) (l : list BlockFileInfo) (p : DiskBlockPos) (b : bytes) : Prop :=
  0 <= pos_File p /\ (exists i, l !! Z.to_nat (pos_File p) = Some i /\ pos_Pos p + len b <= used i) /\ at_place (file_of m (pos_File p)) (pos_Pos p) b.
Abbreviation in_blk d := (kept bf_Size (blk d) (GlobalBlockFileInfo d)).
Abbreviation in_rev d := (kept UndoSize (rev d) (GlobalBlockFileInfo d)).
Lemma kept_used used m l l' p b : kept used m l p b -> (forall k i, l !! k = Some i -> exists i', l' !! k = Some i' /\ used i <= used i') -> kept used m l' p b.
Proof. intros (Hf & (i & Hi & Hu) & Hp) Hl. destruct (Hl _ _ Hi) as (i' & Hi' & Hle). split; [done|]. split; [|done]. exists i'. split; [done|lia]. Qed.
(** A file changes only beyond the part in use. *)
Lemma kept_file used m l n f p b : kept used m l p b ->
  (forall i, l !! Z.to_nat n = Some i -> pos_File p = n -> pos_Pos p + len b <= used i -> at_place (file_of m n) (pos_Pos p) b -> at_place f (pos_Pos p) b) ->
  kept used (<[n := f]> m) l p b.
Proof.
  intros (Hf & (i & Hi & Hu) & Hp) Hn. split; [done|]. split; [by exists i|]. rw file_of_insert. case_decide as Hd; [|done]. subst n. by apply (Hn i).
Qed.
Definition info_ok (i : BlockFileInfo) : Prop := 0 <= bf_Size i <= 2 ^ 31 /\ 0 <= UndoSize i < 2 ^ 32.
Record disk_ok (d : Disk) : Prop := {
  dk_infos : Forall info_ok (GlobalBlockFileInfo d);
  dk_count : len (GlobalBlockFileInfo d) < 2 ^ 30;
  dk_last : 0 <= GlobalLastBlockFile d < 2 ^ 30 }.

(** ** Finding a place *)
Lemma nth_go_some {E A} (l : list A) n x : 0 <= n -> l !! Z.to_nat n = Some x -> nth_go (E := E) l n = Ok x.
Proof. intros Hn Hx. unfold nth_go. destruct (Z.ltb_spec n 0); [lia|]. by rw Hx. Qed.
Lemma nth_go_inv {E A} (l : list A) n x : nth_go (E := E) l n = Ok x -> 0 <= n /\ l !! Z.to_nat n = Some x.
Proof. unfold nth_go. destruct (Z.ltb_spec n 0); [done|]. destruct (l !! Z.to_nat n) eqn:E1; [|done]. by intros [= <-]. Qed.
Lemma upd_info_some {E} n f d i : 0 <= n -> GlobalBlockFileInfo d !! Z.to_nat n = Some i ->
  upd_info (E := E) n f d = Ok (with_infos (<[Z.to_nat n := f i]> (GlobalBlockFileInfo d)) d).
Proof. intros Hn Hi. unfold upd_info. by rw (nth_go_some _ n i). Qed.

(** The records [l'] are those of [l] with more in use, and new ones. *)
Definition more (l l' : list BlockFileInfo) : Prop :=
  forall k i, l !! k = Some i -> exists i', l' !! k = Some i' /\ bf_Size i <= bf_Size i' /\ UndoSize i <= UndoSize i'.
#[export] Instance more_preorder : PreOrder more.
Proof.
  split; [intros l k i Hi; exists i; split_and!; [done|lia|lia]|]. intros a b c Hab Hbc k i Hi. destruct (Hab k i Hi) as (i1 & H1 & ? & ?). destruct (Hbc k i1 H1) as (i2 & H2 & ? & ?).
  exists i2. split_and!; [done|lia|lia].
Qed.
Lemma more_insert l n i i' : l !! n = Some i -> bf_Size i <= bf_Size i' -> UndoSize i <= UndoSize i' -> more l (<[n := i']> l).
Proof.
  intros Hi Hs Hu k j Hj. destruct (decide (n = k)) as [<-|Hne]; [|rw list_lookup_insert_ne; [|done]; exists j; split_and!; [done|lia|lia]].
  rw list_lookup_insert_eq; [|by eapply lookup_lt_Some]. exists i'. rw Hi in Hj. by injection Hj as <-.
Qed.
Lemma more_grow l n : more l (grow_infos l n).
Proof. intros k i Hi. exists i. unfold grow_infos. split_and!; [by apply lookup_app_l_Some|lia|lia]. Qed.
Lemma kept_more_blk m l l' p b : more l l' -> kept bf_Size m l p b -> kept bf_Size m l' p b.
Proof. intros Hm Hk. eapply kept_used; [exact Hk|]. intros k i Hi. destruct (Hm k i Hi) as (i' & ? & ? & ?). by exists i'. Qed.
Lemma kept_more_rev m l l' p b : more l l' -> kept UndoSize m l p b -> kept UndoSize m l' p b.
Proof. intros Hm Hk. eapply kept_used; [exact Hk|]. intros k i Hi. destruct (Hm k i Hi) as (i' & ? & ? & ?). by exists i'. Qed.
Lemma grow_ok l n : Forall info_ok l -> Forall info_ok (grow_infos l n).
Proof. intros Hl. apply Forall_app. split; [done|]. apply Forall_forall. intros x Hx. apply list_elem_of_In, repeat_spec in Hx as ->. split; cbn; lia. Qed.
Lemma grow_length l n : 0 <= n -> len (grow_infos l n) = Z.max (len l) (n + 1).
Proof. intros Hn. unfold grow_infos. rw length_app repeat_length. lia. Qed.

Lemma find_file_ok {E} nAdd : 0 <= nAdd < MaxBlockFileSize -> forall fuel l n, Forall info_ok l -> len l < 2 ^ 30 + 1 -> 0 <= n < len l -> (Z.to_nat (len l - n) < fuel)%nat ->
  exists n' i, find_file (E := E) fuel nAdd l n = Ok (grow_infos l n', n') /\ n <= n' <= len l /\ grow_infos l n' !! Z.to_nat n' = Some i /\ bf_Size i + nAdd < MaxBlockFileSize /\ info_ok i.
Proof.
  intros Ha. induction fuel as [|fuel IH]; intros l n Hl Hc Hn Hf; [lia|]. destruct (lookup_lt_is_Some_2 l (Z.to_nat n) ltac:(lia)) as [i Hi].
  pose proof (proj1 (Forall_lookup _ _) Hl _ _ Hi) as Hok. assert (grow_infos l n = l) as Hg by (unfold grow_infos; replace (Z.to_nat (n + 1 - len l)) with 0%nat by lia; apply app_nil_r).
  cbn [find_file]. rw (nth_go_some l n i); [|lia|done]. cbn [mbind res_bind]. destruct (Z.leb_spec MaxBlockFileSize (u32 (bf_Size i + nAdd))) as [Hbig|Hroom].
  - replace (i32 (n + 1)) with (n + 1) by int_lia. destruct (decide (n + 1 < len l)) as [Hlt|Hge].
    + assert (grow_infos l (n + 1) = l) as -> by (unfold grow_infos; replace (Z.to_nat (n + 1 + 1 - len l)) with 0%nat by lia; apply app_nil_r).
      destruct (IH l (n + 1) Hl Hc ltac:(lia) ltac:(lia)) as (n' & j & -> & Hn' & Hj & Hs & Hjo). exists n', j. split; [done|]. split; [lia|]. by split_and!.
    + assert (n + 1 = len l) as Heq by lia. assert (grow_infos l (n + 1) !! Z.to_nat (n + 1) = Some NewBlockFileInfo) as Hnew.
      { unfold grow_infos. rw lookup_app_r; [|lia]. replace (Z.to_nat (n + 1) - length l)%nat with 0%nat by lia. by replace (Z.to_nat (n + 1 + 1 - len l)) with 1%nat by lia. }
      exists (n + 1), NewBlockFileInfo. split; [|split; [lia|]; split; [done|]; split; [cbn; lia|]; split; cbn; lia]. destruct fuel as [|fuel]; [lia|]. cbn [find_file]. rw (nth_go_some _ (n + 1) NewBlockFileInfo); [|lia|done].
      cbn [mbind res_bind]. destruct (Z.leb_spec MaxBlockFileSize (u32 (bf_Size NewBlockFileInfo + nAdd))) as [Hb|_]; [|done]. unfold MaxBlockFileSize in *. cbn in Hb. rw u32_id in Hb; [lia|split; lia].
  - exists n, i. rw Hg. split; [done|]. split; [lia|]. split; [done|]. split; [|done]. destruct Hok as [Hs _]. unfold MaxBlockFileSize in *. int_lia.
Qed.

(** Truncating keeps the part in use. *)
Lemma FlushBlockFile_ok {E} fin d i : 0 <= GlobalLastBlockFile d -> GlobalBlockFileInfo d !! Z.to_nat (GlobalLastBlockFile d) = Some i ->
  exists mb mr, FlushBlockFile (E := E) fin d = Ok (with_rev mr (with_blk mb d)) /\
    (forall p b, in_blk d p b -> kept bf_Size mb (GlobalBlockFileInfo d) p b) /\ forall p b, in_rev d p b -> kept UndoSize mr (GlobalBlockFileInfo d) p b.
Proof.
  intros Hn Hi. unfold FlushBlockFile. destruct (Z.eqb_spec (GlobalLastBlockFile d) (-1)); [lia|]. destruct fin; [|exists (blk d), (rev d); split_and!; [by destruct d|done|done]].
  rw (nth_go_some _ _ i); [|done|done]. cbn [mbind res_bind]. eexists _, _. split_and!; [done| |]; intros p b Hk; (apply kept_file; [done|]); intros j Hj _ Hu Hp; rw Hi in Hj; injection Hj as <-; by apply at_truncate.
Qed.
(** The space that is set aside begins where the new record does. *)
Lemma reserve_ok {E} free chunk pos nNewSize m : MinDiskSpace + 2 ^ 32 <= free -> pos_File pos <> -1 ->
  exists m', reserve (E := E) free chunk pos nNewSize m = Ok (true, m') /\
    forall used l p b, kept used m l p b -> (pos_File p = pos_File pos -> pos_Pos p + len b <= pos_Pos pos) -> kept used m' l p b.
Proof.
  intros Hfree Hpos. unfold reserve, CheckDiskSpace, Pos_IsNull. destruct (_ <? _); [|by exists m]. set (n := u32 (u32 _ - _)). assert (0 <= n < 2 ^ 32) as Hn by apply u32_range.
  destruct (Z.ltb_spec free (MinDiskSpace + n)); [lia|]. cbn [mbind res_bind]. destruct (Z.eqb_spec (pos_File pos) (-1)); [done|]. eexists. split; [done|]. intros used l p b Hk Hb.
  apply kept_file; [done|]. intros i Hi Hf _ Hp. apply at_zero_below; [lia|done|by apply Hb].
Qed.

(** *** What FindBlockPos and FindUndoPos give *)
Record placed_at (used : BlockFileInfo -> Z) (files : Disk -> gmap Z File) (d d' : Disk) (pos : DiskBlockPos) (n : Z) : Prop := {
  pl_ok : Forall info_ok (GlobalBlockFileInfo d') /\ 0 <= GlobalLastBlockFile d';
  pl_file : 0 <= pos_File pos;
  pl_pos : 0 <= pos_Pos pos;
  pl_new : exists i, GlobalBlockFileInfo d' !! Z.to_nat (pos_File pos) = Some i /\ pos_Pos pos + n <= used i;
  pl_blk p b : in_blk d p b -> in_blk d' p b;
  pl_rev p b : in_rev d p b -> in_rev d' p b;
  (** the records that were there end before the new place *)
  pl_before p b : kept used (files d) (GlobalBlockFileInfo d) p b -> pos_File p = pos_File pos -> pos_Pos p + len b <= pos_Pos pos }.
Lemma FindBlockPos_ok {E} free pos0 n h t d : disk_ok d -> 0 <= n < MaxBlockFileSize -> MinDiskSpace + 2 ^ 32 <= free ->
  exists pos d', FindBlockPos (E := E) free pos0 n h t false d = Ok (pos, true, d') /\ placed_at bf_Size blk d d' pos n.
Proof.
  intros [Hi Hc Hlast] Hn Hfree. unfold FindBlockPos. destruct (Z.ltb_spec MaxBlockFileSize n); [lia|]. cbv zeta. set (last := GlobalLastBlockFile d) in *.
  set (l0 := grow_infos (GlobalBlockFileInfo d) last). assert (Forall info_ok l0) as Hl0 by (by apply grow_ok). assert (len l0 = Z.max (len (GlobalBlockFileInfo d)) (last + 1)) as Hlen by (apply grow_length; lia).
  destruct (find_file_ok (E := E) n Hn (S (length l0)) l0 last Hl0 ltac:(lia) ltac:(lia) ltac:(lia)) as (nf & i & Hff & Hnf & Hlk & Hsz & Hio). rw Hff. cbn [mbind res_bind]. set (l1 := grow_infos l0 nf) in *.
  rw (nth_go_some l1 nf i); [|lia|done]. cbn [mbind res_bind]. assert (more (GlobalBlockFileInfo d) l1) as Hm1 by (transitivity l0; apply more_grow).
  set (d1 := with_infos l1 d). assert (exists i0, l1 !! Z.to_nat last = Some i0) as [i0 Hi0].
  { apply lookup_lt_is_Some. pose proof (grow_length l0 nf ltac:(lia)) as Hg. fold l1 in Hg. lia. }
  assert (exists d2, (if nf =? last then Ok d1 else d ← FlushBlockFile true d1; Ok (with_last nf d)) = Ok d2 /\ GlobalBlockFileInfo d2 = l1 /\ 0 <= GlobalLastBlockFile d2 /\
    (forall p b, in_blk d p b -> in_blk d2 p b) /\ forall p b, in_rev d p b -> in_rev d2 p b) as (d2 & -> & Hl2 & Hlast2 & Hb2 & Hr2).
  { destruct (nf =? last); [exists d1; split_and!; [done|done|cbn; lia|intros p b; by apply kept_more_blk|intros p b; by apply kept_more_rev]|].
    destruct (FlushBlockFile_ok (E := E) true d1 i0) as (mb & mr & -> & Hmb & Hmr); [cbn; lia|done|]. cbn [mbind res_bind]. eexists. split; [done|]. split_and!; [done|cbn; lia| |]; intros p b Hk.
    - apply Hmb. by apply (kept_more_blk _ (GlobalBlockFileInfo d)).
    - apply Hmr. by apply (kept_more_rev _ (GlobalBlockFileInfo d)). }
  cbn [mbind res_bind]. rw (upd_info_some nf _ d2 i); [|lia|by rw Hl2]. cbn [mbind res_bind]. rw Hl2. set (i1 := AddBlock h t i). set (d3 := with_infos (<[Z.to_nat nf := i1]> l1) d2).
  assert (length l1 > Z.to_nat nf)%nat as Hlt by (by eapply lookup_lt_Some). assert (GlobalBlockFileInfo d3 !! Z.to_nat nf = Some i1) as Hi1 by (apply list_lookup_insert_eq; lia).
  rw (upd_info_some nf _ d3 i1); [|lia|done]. cbn [mbind res_bind]. set (i2 := set_Size (u32 (bf_Size i1 + n)) i1). set (l4 := <[Z.to_nat nf := i2]> (GlobalBlockFileInfo d3)).
  assert (l4 !! Z.to_nat nf = Some i2) as Hi2 by (apply list_lookup_insert_eq; by eapply lookup_lt_Some). change (GlobalBlockFileInfo (with_infos l4 d3)) with l4. rw (nth_go_some l4 nf i2); [|lia|done]. cbn [mbind res_bind].
  destruct (reserve_ok (E := E) free BlockFileChunkSize (mkPos nf (bf_Size i)) (bf_Size i2) (blk (with_infos l4 d3)) Hfree) as (m & -> & Hm); [cbn; lia|]. cbn [mbind res_bind].
  assert (bf_Size i2 = bf_Size i + n) as Hs2 by (cbn; destruct Hio; apply u32_id; unfold MaxBlockFileSize in *; split; lia).
  assert (more l1 l4) as Hm4.
  { transitivity (GlobalBlockFileInfo d3); [apply (more_insert _ _ i i1); [done|done|done]|]. apply (more_insert _ _ i1 i2); [done|rw Hs2; cbn; lia|done]. }
  assert (forall p b, in_blk d p b -> pos_File p = nf -> pos_Pos p + len b <= bf_Size i) as Hbefore.
  { intros p b Hk Hf. apply (kept_more_blk _ _ _ p b Hm1) in Hk as (_ & (j & Hj & Hu) & _). rw Hf Hlk in Hj. injection Hj as ->. done. }
  eexists _, _. split; [done|]. split; cbn [pos_File pos_Pos].
  - split; [|done]. cbn. apply Forall_insert; [apply Forall_insert; [by apply grow_ok|split; [apply Hio|apply Hio]]|]. split; [rw Hs2; destruct Hio; unfold MaxBlockFileSize in *; lia|apply Hio].
  - lia.
  - apply Hio.
  - exists i2. split; [done|lia].
  - intros p b Hk. apply Hm; [|by apply Hbefore]. cbn. pose proof (Hb2 p b Hk) as Hk2. rw Hl2 in Hk2. by apply (kept_more_blk _ l1).
  - intros p b Hk. pose proof (Hr2 p b Hk) as Hk2. rw Hl2 in Hk2. by apply (kept_more_rev _ l1).
  - intros p b Hk Hf. by apply (Hbefore p b).
Qed.
Lemma FindUndoPos_ok free nFile n d i : disk_ok d -> 0 <= nFile -> GlobalBlockFileInfo d !! Z.to_nat nFile = Some i -> 0 <= n -> UndoSize i + n < 2 ^ 32 -> MinDiskSpace + 2 ^ 32 <= free ->
  exists pos d', FindUndoPos free nFile n d = Ok (pos, d') /\ placed_at UndoSize rev d d' pos n /\ pos_File pos = nFile /\ pos_Pos pos = UndoSize i.
Proof.
  intros [Hl Hc Hlast] Hf Hi Hn Hroom Hfree. unfold FindUndoPos. rw (nth_go_some _ nFile i); [|done|done]. cbn [mbind res_bind]. cbv zeta. rw (upd_info_some nFile _ d i); [|done|done]. cbn [mbind res_bind].
  set (i1 := set_UndoSize (u32 (UndoSize i + u32 n)) i). set (l1 := <[Z.to_nat nFile := i1]> (GlobalBlockFileInfo d)). change (GlobalBlockFileInfo (with_infos l1 d)) with l1.
  pose proof (proj1 (Forall_lookup _ _) Hl _ _ Hi) as [Hs Hu]. assert (UndoSize i1 = UndoSize i + n) as Hu1 by (cbn; int_lia).
  assert (l1 !! Z.to_nat nFile = Some i1) as Hi1 by (apply list_lookup_insert_eq; by eapply lookup_lt_Some). rw (nth_go_some l1 nFile i1); [|done|done]. cbn [mbind res_bind].
  destruct (reserve_ok (E := DiskErr) free UndoFileChunkSize (mkPos nFile (UndoSize i)) (UndoSize i1) (rev d) Hfree) as (m & Hres & Hm); [cbn; lia|]. cbn [rev with_dirty with_infos]. rw Hres. cbn [mbind res_bind].
  assert (more (GlobalBlockFileInfo d) l1) as Hm1 by (apply (more_insert _ _ i i1); [done|cbn; lia|lia]).
  assert (forall p b, in_rev d p b -> pos_File p = nFile -> pos_Pos p + len b <= UndoSize i) as Hbefore.
  { intros p b (_ & (j & Hj & Hle) & _) Hpf. rw Hpf Hi in Hj. by injection Hj as <-. }
  eexists _, _. split; [done|]. split; [|done]. split; cbn [pos_File pos_Pos].
  - split; [|cbn; lia]. cbn. apply Forall_insert; [done|]. split; [done|lia].
  - done.
  - lia.
  - exists i1. split; [done|lia].
  - intros p b Hk. by apply (kept_more_blk _ (GlobalBlockFileInfo d)).
  - intros p b Hk. apply Hm; [|by apply Hbefore]. by apply (kept_more_rev _ (GlobalBlockFileInfo d)).
  - by apply Hbefore.
Qed.
(** The write fills the place. *)
Lemma kept_write used files d d' pos n c l m : placed_at used files d d' pos n -> c <> [] -> len c <= n -> l = GlobalBlockFileInfo d' ->
  kept used (<[pos_File pos := write_at (file_of m (pos_File pos)) (pos_Pos pos) c]> m) l pos c.
Proof.
  intros [_ Hf _ (i & Hi & Hu) _ _ _] Hc Hn ->. split; [done|]. split; [exists i; split; [done|lia]|]. rw file_of_insert decide_True; [|done]. by apply at_write_same.
Qed.
Lemma kept_through used files d d' pos n c l m p b : placed_at used files d d' pos n -> kept used (files d) (GlobalBlockFileInfo d) p b -> kept used m l p b ->
  kept used (<[pos_File pos := write_at (file_of m (pos_File pos)) (pos_Pos pos) c]> m) l p b.
Proof. intros Hpl Hk Hm. apply kept_file; [done|]. intros i Hi Hf _ Hp. apply at_write_below; [done|]. by apply (pl_before _ _ _ _ _ _ Hpl). Qed.

(** ** Records *)
Lemma read_record_at f off b : is_u 32 (len b) -> at_place f off (PutUint32 (len b) ++ b) -> read_record f off = Ok (len b, b).
Proof.
  intros Hb Hp. apply at_place_app in Hp as [Hh Ht]. unfold PutUint32 in Hh, Ht. rw length_le_bytes in Ht. apply at_place_read in Hh as Hr. rw length_le_bytes in Hr. apply at_place_read in Ht as Hs.
  unfold read_record. change (Z.of_nat 4) with 4 in Hr, Hs. rw Hr. pose proof (Uint32_put (len b) [] Hb) as Hu. unfold PutUint32 in Hu. rw app_nil_r in Hu. rw Hu Hs. cbv zeta.
  destruct (Z.ltb_spec 0 (len b)) as [Hpos|_]; [|done]. rw bool_decide_false; [done|]. intros ->. cbn in Hpos. lia.
Qed.
Section Records.
Context `{Secp256k1} `{!SecpCompression} `{Hashes} (params : PowParams).
(** What is read back: the block without what was cached in it. *)
Definition as_read (b : Block) : Block :=
  mkBlock (mkHeader (Version (Header b)) (HashPrevBlock (Header b)) (MerkleRoot (Header b)) (Time (Header b)) (Bits (Header b)) (Nonce (Header b)) HashZero)
    (map (fun t => set_hash t HashZero) (Txs b)) 0 false.
Record wf_block (b : Block) : Prop := {
  wb_header : wf_header (Header b);
  wb_txs : Forall wf_tx (Txs b);
  wb_count : 8 * len (Txs b) <= maxAlloc;
  wb_size : serializesize b = 0 \/ serializesize b = len (Block_Serialize b) }.
Lemma read_txs l r : Forall wf_tx l -> rd_times (length l) (Tx_Decode (NewTx 0 DefaultVersion)) (concat (map Tx_Encode l) ++ r) = Ok (map (fun t => set_hash t HashZero) l, r).
Proof.
  induction 1 as [|t l Hw _ IH]; [done|]. cbn [length rd_times map concat]. app_right. erewrite rd_bind_ok; [|by apply Tx_Decode_app]. erewrite rd_bind_ok; [|exact IH]. done.
Qed.
Lemma Block_Unserialize_app b r : wf_block b -> Block_Unserialize NewBlock (Block_Serialize b ++ r) = Ok (as_read b, r).
Proof.
  intros [Hh Ht Hc _]. unfold Block_Unserialize, Block_Serialize. app_right. erewrite rd_bind_ok; [|by apply Header_Unserialize_app]. erewrite rd_bind_ok; [|apply ReadVarInt_write; unfold maxAlloc in Hc; int_lia].
  destruct (Z.ltb_spec maxAlloc (8 * len (Txs b))); [lia|]. rw Nat2Z.id.
  erewrite rd_bind_ok; [|by apply read_txs]. done.
Qed.
Lemma as_read_hash b : header_Hash (Header b) = HashZero -> Block_GetHash Sha256 (as_read b) = Block_GetHash Sha256 b.
Proof. intros Hb. unfold Block_GetHash, Header_GetHash. cbn [Header as_read header_Hash]. by rw Hb. Qed.
Lemma Block_SerializeSize_len b : wf_block b -> exists b', Block_SerializeSize b = (len (Block_Serialize b), b') /\ Header b' = Header b /\ Txs b' = Txs b /\ Block_Serialize b' = Block_Serialize b.
Proof.
  intros [_ _ _ Hs]. unfold Block_SerializeSize. destruct (Z.eqb_spec (serializesize b) 0) as [Hz|Hz]; cbn [negb]; [by eexists|]. destruct Hs as [|Hs]; [done|]. rw Hs. by exists b.
Qed.
Definition block_at (d : Disk) (pos : DiskBlockPos) (b : Block) : Prop := in_blk d pos (block_record b).
Lemma block_at_read d pos b : wf_block b -> is_u 32 (len (Block_Serialize b)) -> block_at d pos b -> CheckProofOfWork params (Block_GetHash Sha256 (as_read b)) (Bits (Header b)) = true ->
  ReadBlockFromDiskByPos params pos d = Ok (Some (as_read b)).
Proof.
  intros Hw Hl (Hf & _ & Hp) Hpow. unfold ReadBlockFromDiskByPos, Pos_IsNull. destruct (Z.eqb_spec (pos_File pos) (-1)); [lia|]. unfold block_record in Hp. rw u32_id in Hp; [|done].
  rw (read_record_at _ _ _ Hl Hp). cbn [mbind res_bind]. rw Z.eqb_refl. cbn [negb]. rw -(app_nil_r (Block_Serialize b)) Block_Unserialize_app; [|done]. cbn [Bits Header as_read] in *. by rw Hpow.
Qed.
(** Storing a block puts its record at the position returned and moves nothing else. *)
Lemma StoreBlock_ok free h b d : disk_ok d -> wf_block b -> len (Block_Serialize b) + 4 < MaxBlockFileSize -> MinDiskSpace + 2 ^ 32 <= free ->
  exists pos d', StoreBlock free h b None d = Ok (pos, d') /\ block_at d' pos b /\ Forall info_ok (GlobalBlockFileInfo d') /\ 0 <= GlobalLastBlockFile d' /\
    (forall p x, in_blk d p x -> in_blk d' p x) /\ forall p x, in_rev d p x -> in_rev d' p x.
Proof.
  intros Hd Hw Hsz Hfree. destruct (Block_SerializeSize_len b Hw) as (b' & Hbs & Hh & Ht & Hser). unfold StoreBlock. rw Hbs. cbn [default]. assert (is_u 32 (len (Block_Serialize b))) as Hu by (unfold MaxBlockFileSize in Hsz; split; lia).
  rw (u32_id (len (Block_Serialize b))); [|done]. rw (u32_id (len (Block_Serialize b) + 4)); [|unfold MaxBlockFileSize in Hsz; split; lia].
  destruct (FindBlockPos_ok (E := DiskErr) free (mkPos 0 0) (len (Block_Serialize b) + 4) h (Time (Header b')) d Hd ltac:(lia) Hfree) as (pos & d1 & -> & Hpl). cbn [mbind res_bind negb].
  unfold WriteBlockToDisk, Pos_IsNull. pose proof (pl_file _ _ _ _ _ _ Hpl). destruct (Z.eqb_spec (pos_File pos) (-1)); [lia|]. eexists _, _. split; [done|].
  assert (block_record b' = block_record b) as Hrec by (unfold block_record; by rw Hser). assert (len (block_record b) = len (Block_Serialize b) + 4) as Hlen by (unfold block_record, PutUint32; rw length_app length_le_bytes; lia).
  split; [|split; [apply (pl_ok _ _ _ _ _ _ Hpl)|split; [apply (pl_ok _ _ _ _ _ _ Hpl)|split]]].
  - unfold block_at. cbn [blk GlobalBlockFileInfo with_blk]. rw Hrec. eapply kept_write; [exact Hpl| |lia|done]. intros He. rw He in Hlen. cbn in Hlen. lia.
  - intros p x Hk. cbn [blk rev GlobalBlockFileInfo with_blk with_rev]. eapply kept_through; [exact Hpl|exact Hk|]. by apply (pl_blk _ _ _ _ _ _ Hpl).
  - intros p x Hk. by apply (pl_rev _ _ _ _ _ _ Hpl).
Qed.

(** *** Undo data *)
Definition storable_undo (bu : BlockUndo) : Prop :=
  Forall (fun tu => Forall storable tu /\ len tu <= MaxInputPerTx) bu /\ 8 * len bu <= maxAlloc.
Definition undo_at (d : Disk) (pos : DiskBlockPos) (hash data : bytes) : Prop := in_rev d pos (undo_record hash data).
Lemma undo_at_read {E} d pos hash bu data : (forall x, length (Sha256 x) = 32%nat) -> storable_undo bu -> BlockUndo_Serialize bu = Ok data -> is_u 32 (len data + 32) -> undo_at d pos hash data ->
  UndoReadFromDisk (E := E) pos hash d = Ok (Some (map (map undo_coin) bu)).
Proof.
  intros Hsha [Hs Hc] Hser Hl (Hf & _ & Hp). unfold UndoReadFromDisk, Pos_IsNull. destruct (Z.eqb_spec (pos_File pos) (-1)); [lia|]. unfold undo_record in Hp. rw u32_id in Hp; [|done].
  set (rec := data ++ Sha256 (hash ++ data)) in *. assert (len rec = len data + 32) as Hlen by (unfold rec; rw length_app Hsha; lia). rw -Hlen in Hp, Hl. rw (read_record_at _ _ _ Hl Hp).
  destruct (Z.ltb_spec (len rec) (len rec)); [lia|]. destruct (Z.ltb_spec (len rec) 32); [lia|]. assert (length rec - 32 = length data)%nat as -> by lia. unfold rec. rw take_app_length drop_app_length.
  destruct (BlockUndo_roundtrip bu Hs Hc) as (data' & Hd & Hu). rw Hser in Hd. injection Hd as <-. rw Hu. by rw bool_decide_true.
Qed.
Lemma StoreUndo_ok free nFile bu hash data d i : (forall x, length (Sha256 x) = 32%nat) -> disk_ok d -> 0 <= nFile -> GlobalBlockFileInfo d !! Z.to_nat nFile = Some i -> BlockUndo_Serialize bu = Ok data ->
  UndoSize i + (len data + 36) < 2 ^ 32 -> MinDiskSpace + 2 ^ 32 <= free ->
  exists pos d1 d', FindUndoPos free nFile (len data + 36) d = Ok (pos, d1) /\ UndoWriteToDisk bu pos hash d1 = Ok d' /\ pos = mkPos nFile (UndoSize i) /\
    undo_at d' pos hash data /\ Forall info_ok (GlobalBlockFileInfo d') /\ 0 <= GlobalLastBlockFile d' /\
    (forall p x, in_blk d p x -> in_blk d' p x) /\ forall p x, in_rev d p x -> in_rev d' p x.
Proof.
  intros Hsha Hd Hf Hi Hser Hroom Hfree. pose proof (proj1 (Forall_lookup _ _) (dk_infos _ Hd) _ _ Hi) as [Hs Hu].
  destruct (FindUndoPos_ok free nFile (len data + 36) d i Hd Hf Hi ltac:(lia) Hroom Hfree) as (pos & d1 & Hfind & Hpl & Hpf & Hpp). exists pos, d1. unfold UndoWriteToDisk, Pos_IsNull.
  destruct (Z.eqb_spec (pos_File pos) (-1)); [lia|]. rw Hser. eexists. split; [done|]. split; [done|]. split; [destruct pos; cbn in *; by subst|].
  assert (len (undo_record hash data) = len data + 36) as Hlen by (unfold undo_record, PutUint32; rw !length_app length_le_bytes Hsha; lia).
  split; [|split; [apply (pl_ok _ _ _ _ _ _ Hpl)|split; [apply (pl_ok _ _ _ _ _ _ Hpl)|split]]].
  - unfold undo_at. cbn [rev GlobalBlockFileInfo with_rev]. eapply kept_write; [exact Hpl| |lia|done]. intros He. rw He in Hlen. cbn in Hlen. lia.
  - intros p x Hk. by apply (pl_blk _ _ _ _ _ _ Hpl).
  - intros p x Hk. cbn [blk rev GlobalBlockFileInfo with_blk with_rev]. eapply kept_through; [exact Hpl|exact Hk|]. by apply (pl_rev _ _ _ _ _ _ Hpl).
Qed.
End Records.
