(* ===== verification/DiskTheorems.v ===== *)
(** * Theorems on block and undo files

    The definitions are in Disk.v, the lemmas in DiskFacts.v. *)
From S2P Require Import Prelude Errors Wire ScriptNum Opcodes Script ScriptFacts Tx TxFacts Crypto Compress Coins CoinsFacts Block Undo.
From S2P Require Import Stack Slice Interp Ltx ConnectFacts ScriptTheorems UtxoTheorems BlockIndex Chain VersionBits Pow MempoolTheorems AcceptTheorems LmempoolFacts Disk DiskFacts.

Section Theorems.
Context `{Secp256k1} `{!SecpCompression} `{Hashes} (params : PowParams).
(** There is room on the disk and the numbers of files and the sizes of undo files stay
    within their types. *)
Record room (free : Z) (d : Disk) : Prop := {
  rm_free : MinDiskSpace + 2 ^ 32 <= free;
  rm_count : len (GlobalBlockFileInfo d) < 2 ^ 30;
  rm_last : GlobalLastBlockFile d < 2 ^ 30 }.
(** A block, or the undo data of a block, is stored. *)
Inductive disk_step (d d' : Disk) : Prop :=
| step_block free h b pos : room free d -> wf_block b -> len (Block_Serialize b) + 4 < MaxBlockFileSize -> StoreBlock free h b None d = Ok (pos, d') -> disk_step d d'
| step_undo free i nFile bu hash data pos d1 : room free d -> GlobalBlockFileInfo d !! Z.to_nat nFile = Some i -> 0 <= nFile -> BlockUndo_Serialize bu = Ok data ->
    UndoSize i + (len data + 36) < 2 ^ 32 -> FindUndoPos free nFile (len data + 36) d = Ok (pos, d1) -> UndoWriteToDisk bu pos hash d1 = Ok d' -> disk_step d d'.
Definition usable (d : Disk) : Prop := Forall info_ok (GlobalBlockFileInfo d) /\ 0 <= GlobalLastBlockFile d.
Lemma usable_ok free d : usable d -> room free d -> disk_ok d.
Proof. intros [Hi Hl] [_ Hc Hn]. by split. Qed.
Context (Hsha : forall x, length (Sha256 x) = 32%nat).
Lemma disk_step_keeps d d' : usable d -> disk_step d d' -> usable d' /\ (forall p x, in_blk d p x -> in_blk d' p x) /\ forall p x, in_rev d p x -> in_rev d' p x.
Proof.
  intros Hu [free h b pos Hr Hw Hsz Hs|free i nFile bu hash data pos d1 Hr Hi Hf Hser Hroom Hfind Hwr].
  - destruct (StoreBlock_ok free h b d (usable_ok _ _ Hu Hr) Hw Hsz (rm_free _ _ Hr)) as (pos' & d2 & Hs2 & _ & Ha & Hb & Hk). rw Hs2 in Hs. by injection Hs as _ <-.
  - destruct (StoreUndo_ok free nFile bu hash data d i Hsha (usable_ok _ _ Hu Hr) Hf Hi Hser Hroom (rm_free _ _ Hr)) as (pos' & d3 & d2 & Hf2 & Hw2 & _ & _ & Ha & Hb & Hk).
    rw Hf2 in Hfind. injection Hfind as <- <-. rw Hw2 in Hwr. by injection Hwr as <-.
Qed.
Lemma disk_steps_keep d d' : rtc disk_step d d' -> usable d -> (forall p x, in_blk d p x -> in_blk d' p x) /\ forall p x, in_rev d p x -> in_rev d' p x.
Proof.
  induction 1 as [|a b c Hab _ IH]; intros Hu; [done|]. destruct (disk_step_keeps a b Hu Hab) as (Hub & Hkb & Hkr). destruct (IH Hub) as [Hb Hr]. split; intros p x Hk; [by apply Hb, Hkb|by apply Hr, Hkr].
Qed.

(** C24. What is stored is read back: a block is stored, and whatever blocks and undo data
    are stored later, in the same file or in others, the block that is read at its
    position is the one that was written (without what was cached in it); and undo data
    is read back with its coins and its checksum, through the zeros that set space aside
    and the truncation of a file that is left. *)
Theorem files_read_back d free (Hu : usable d) (Hr : room free d) :
  (forall h b, wf_block b -> len (Block_Serialize b) + 4 < MaxBlockFileSize -> CheckProofOfWork params (Block_GetHash Sha256 (as_read b)) (Bits (Header b)) = true ->
    exists pos d1, StoreBlock free h b None d = Ok (pos, d1) /\ forall d2, rtc disk_step d1 d2 -> ReadBlockFromDiskByPos params pos d2 = Ok (Some (as_read b))) /\
  (forall nFile i bu hash data, 0 <= nFile -> GlobalBlockFileInfo d !! Z.to_nat nFile = Some i -> storable_undo bu -> BlockUndo_Serialize bu = Ok data -> UndoSize i + (len data + 36) < 2 ^ 32 ->
    exists pos d0 d1, FindUndoPos free nFile (len data + 36) d = Ok (pos, d0) /\ UndoWriteToDisk bu pos hash d0 = Ok d1 /\
      forall d2, rtc disk_step d1 d2 -> UndoReadFromDisk (E := DiskErr) pos hash d2 = Ok (Some (map (map undo_coin) bu))).
Proof.
  pose proof (usable_ok _ _ Hu Hr) as Hok. split.
  - intros h b Hw Hsz Hpow. destruct (StoreBlock_ok free h b d Hok Hw Hsz (rm_free _ _ Hr)) as (pos & d1 & Hs & Hat & Ha & Hb & _). exists pos, d1. split; [done|]. intros d2 Hd2.
    apply block_at_read; [done|unfold MaxBlockFileSize in Hsz; split; lia| |done]. by apply (disk_steps_keep d1 d2 Hd2).
  - intros nFile i bu hash data Hf Hi Hst Hser Hroom. pose proof (proj1 (Forall_lookup _ _) (proj1 Hu) _ _ Hi) as [_ Hui].
    destruct (StoreUndo_ok free nFile bu hash data d i Hsha Hok Hf Hi Hser Hroom (rm_free _ _ Hr)) as (pos & d0 & d1 & Hfind & Hwr & _ & Hat & Ha & Hb & _).
    exists pos, d0, d1. split; [done|]. split; [done|]. intros d2 Hd2. apply (undo_at_read d2 pos hash bu data Hsha Hst Hser); [split; lia|]. by apply (disk_steps_keep d1 d2 Hd2).
Qed.
End Theorems.

(** ** A small disk *)
#[local] Existing Instances toy_curve toy_hashes toy_compression.
Definition disk_params : PowParams := Build_PowParams (Build_ForkParams params0 100 100 100 100 100 (2 ^ 40) 0 (repeat 1 32) []) (2 ^ 256) false false 600 1209600.
Definition block1 : Block := mkBlock (mkHeader 1 (repeat 1 32) HashZero 0 0x2100ffff 0 HashZero) [tx1; tx2] 0 false.
Definition disk0 : Disk := mkDisk ∅ ∅ [NewBlockFileInfo] 0 ∅.
Lemma block1_wf : wf_block block1.
Proof.
  split; [split; by vm_compute|constructor; [apply (of_wf _ _ _ tx1_offered)|constructor; [apply (of_wf _ _ _ tx2_offered)|constructor]]|by vm_compute|by left].
Qed.
Lemma disk0_usable : usable disk0.
Proof. split; [constructor; [split; cbn; lia|constructor]|done]. Qed.
Lemma disk0_room : room 6000000000 disk0.
Proof. by split; vm_compute. Qed.
Lemma toy_sha x : length (Sha256 x) = 32%nat.
Proof. apply toy_hash_length. Qed.
Lemma block1_small : len (Block_Serialize block1) + 4 < MaxBlockFileSize.
Proof. by vm_compute. Qed.
(** The same block is stored twice, in two places. *)
Example stored_twice : match StoreBlock 6000000000 5 block1 None disk0 with
  | Ok (p, d) => match StoreBlock 6000000000 6 block1 None d with Ok (p', _) => Some (p, p', length (GlobalBlockFileInfo d), GlobalLastBlockFile d) | _ => None end
  | _ => None end = Some (mkPos 0 0, mkPos 0 207, 1%nat, 0).
Proof. vm_compute. reflexivity. Qed.
Lemma files_read_back_witness : exists pos d1 pos' d2, StoreBlock 6000000000 5 block1 None disk0 = Ok (pos, d1) /\ StoreBlock 6000000000 6 block1 None d1 = Ok (pos', d2) /\ pos <> pos' /\
  ReadBlockFromDiskByPos disk_params pos d2 = Ok (Some (as_read block1)).
Proof.
  destruct (proj1 (files_read_back disk_params toy_sha disk0 6000000000 disk0_usable disk0_room) 5 block1 block1_wf block1_small ltac:(vm_compute; reflexivity)) as (pos & d1 & Hs & Hread).
  pose proof stored_twice as Ht. rewrite Hs in Ht. destruct (StoreBlock 6000000000 6 block1 None d1) as [[pos' d2]|e|] eqn:Hs2; [|discriminate|discriminate]. injection Ht as -> -> Hc Hl.
  exists (mkPos 0 0), d1, (mkPos 0 207), d2. split; [exact Hs|]. split; [exact Hs2|]. split; [discriminate|]. apply Hread.
  eapply rtc_once, step_block; [|exact block1_wf|exact block1_small|exact Hs2]. split; [by vm_compute|rewrite Hc; reflexivity|rewrite Hl; reflexivity].
Defined.
