(* ===== verification/BlkDB.v ===== *)
(** * The database and the block tree in it (persist/db, persist/blkdb, persist/disk)

    DBWrapper keeps values in LevelDB combined with a key; BlockTreeDB stores block
    indexes and the records of block files in it; FlushStateToDisk decides when they and
    the coins are written.  LevelDB is a map whose batches are applied as a whole. *)
From S2P Require Import Prelude Errors Wire ScriptNum Opcodes Script ScriptFacts Tx TxFacts Crypto Compress Coins Block Undo.
From S2P Require Import Stack Slice Interp BlockIndex Chain VersionBits Pow Disk.

(** ** DBWrapper (db.go) *)
(** The values are combined with the bytes of the key, over and over. *)
Fixpoint xor_from (obkey : bytes) (j : nat) (val : bytes) : bytes :=
  match val with
  | [] => []
  | v :: val => v .^ default 0 (obkey !! j) :: xor_from obkey (if (S j =? length obkey)%nat then 0%nat else S j) val
  end.
Definition xor (val obkey : bytes) : bytes := match obkey with [] => val | _ => xor_from obkey 0 val end.

Record DBWrapper := mkDBW { store : gmap bytes bytes; mdb : bool; obfuscateKey : bytes }.
Definition with_store (s : gmap bytes bytes) (d : DBWrapper) : DBWrapper := mkDBW s (mdb d) (obfuscateKey d).
Inductive batch_op := BatchPut (key val : bytes) | BatchDelete (key : bytes).
Definition Batch_Write (d : DBWrapper) (key val : bytes) (bw : list batch_op) : list batch_op := bw ++ [BatchPut key (xor val (obfuscateKey d))].
Definition Batch_Erase (key : bytes) (bw : list batch_op) : list batch_op := bw ++ [BatchDelete key].
Definition apply_op (s : gmap bytes bytes) (o : batch_op) : gmap bytes bytes :=
  match o with BatchPut k v => <[k := v]> s | BatchDelete k => delete k s end.
(** With a memory store a batch is dropped. *)
Definition WriteBatch (bw : list batch_op) (d : DBWrapper) : DBWrapper := if mdb d then d else with_store (foldl apply_op (store d) bw) d.
Definition DB_Read (d : DBWrapper) (key : bytes) : option bytes := (fun v => xor v (obfuscateKey d)) <$> store d !! key.
Definition DB_Write (key val : bytes) (d : DBWrapper) : DBWrapper :=
  if mdb d then with_store (<[key := xor val (obfuscateKey d)]> (store d)) d else WriteBatch (Batch_Write d key val []) d.
Definition DB_Exists (d : DBWrapper) (key : bytes) : bool := bool_decide (is_Some (store d !! key)).
Definition DB_Erase (key : bytes) (d : DBWrapper) : DBWrapper :=
  if mdb d then with_store (delete key (store d)) d else WriteBatch (Batch_Erase key []) d.
Definition DB_IsEmpty (d : DBWrapper) : bool := bool_decide (store d = ∅).
Definition obfuscateKeyKey : bytes := [0; 111; 98; 102; 117; 115; 99; 97; 116; 101; 95; 107; 101; 121].
(** [newKey] is the random key. *)
Definition writeObfuscateKey (dontObfuscate : bool) (newKey : bytes) (d : DBWrapper) : DBWrapper :=
  match DB_Read d obfuscateKeyKey with
  | Some k => mkDBW (store d) (mdb d) k
  | None =>
      if negb dontObfuscate && DB_IsEmpty d then let d := DB_Write obfuscateKeyKey newKey d in mkDBW (store d) (mdb d) newKey else d
  end.
Definition NewDBWrapper (useMemStore dontObfuscate wipe : bool) (newKey : bytes) (files : gmap bytes bytes) : DBWrapper :=
  writeObfuscateKey dontObfuscate newKey (if useMemStore then mkDBW ∅ true [] else mkDBW (if wipe then ∅ else files) false []).

(** ** BlockTreeDB (blkdb.go) *)
Definition DbBlockFiles : Z := 102.
Definition DbTxIndex : Z := 116.
Definition DbBlockIndex : Z := 98.
Definition DbFlag : Z := 70.
Definition DbReindexFlag : Z := 82.
Definition DbLastBlock : Z := 108.

Definition file_key (file : Z) : bytes := DbBlockFiles :: PutUint64 (u64 file).
Inductive TreeErr := NotFound | Malformed (e : werr).
Definition of_read {A} (r : res werr (A * bytes)) : res TreeErr A :=
  match r with Ok (a, _) => Ok a | Err e => Err (Malformed e) | Panic => Panic end.
Definition ReadBlockFileInfo (d : DBWrapper) (file : Z) : res TreeErr BlockFileInfo :=
  match DB_Read d (file_key file) with None => Err NotFound | Some v => of_read (FileInfo_Unserialize v) end.
Definition ReadLastBlockFile (d : DBWrapper) : res TreeErr Z :=
  match DB_Read d [DbLastBlock] with None => Err NotFound | Some v => i32 <$> of_read (Uint32 v) end.
Definition WriteReindexing (reindexing : bool) (d : DBWrapper) : DBWrapper :=
  if reindexing then DB_Write [DbReindexFlag] [1] d else DB_Erase [DbReindexFlag] d.
Definition ReadReindexing (d : DBWrapper) : bool := DB_Exists d [DbReindexFlag].
Definition WriteFlag (name : bytes) (value : bool) (d : DBWrapper) : DBWrapper := DB_Write (DbFlag :: name) (if value then [49] else [48]) d.
(** The first byte is looked at before the error. *)
Definition ReadFlag {E : Type} (d : DBWrapper) (name : bytes) : res E bool :=
  match DB_Read d (DbFlag :: name) with Some (c :: _) => Ok (c =? 49) | _ => Panic end.
Definition ReadTxIndex (d : DBWrapper) (txid : bytes) : res TreeErr DiskTxPos :=
  match DB_Read d (DbTxIndex :: txid) with None => Panic | Some v => of_read (TxPos_Unserialize v) end.
Definition WriteTxIndex (txIndexes : list (bytes * DiskTxPos)) (d : DBWrapper) : DBWrapper :=
  WriteBatch (foldl (fun bw x => Batch_Write d (DbTxIndex :: x.1) (TxPos_Serialize x.2) bw) [] txIndexes) d.

Section Tree.
Context `{Hashes} (params : PowParams).
(** The file records and the indexes in the order in which Go walks the maps. *)
Definition WriteBatchSync (fileInfoList : list (Z * BlockFileInfo)) (lastFile : Z) (blockIndexes : list BlockIndex) (d : DBWrapper) : DBWrapper :=
  let bw := foldl (fun bw x => Batch_Write d (file_key x.1) (FileInfo_Serialize x.2) bw) [] fileInfoList in
  let bw := Batch_Write d [DbLastBlock] (PutUint64 (u64 lastFile)) bw in
  WriteBatch (foldl (fun bw b => Batch_Write d (DbBlockIndex :: (GetBlockHash Sha256 b).1) (BlockIndex_Serialize b) bw) bw blockIndexes) d.

(** *** Loading the block indexes *)
Definition insertBlockIndex (hash : bytes) (h : bheap) (blkIdxMap : gmap bytes nat) : option nat * bheap * gmap bytes nat :=
  match blkIdxMap !! hash with
  | Some i => (Some i, h, blkIdxMap)
  | None =>
      if Hash_IsNull hash then (None, h, blkIdxMap)
      else let q := fresh (dom h) in (Some q, <[q := NewBlockIndex NewBlockHeader]> h, <[hash := q]> blkIdxMap)
  end.
(** The fields that are copied from the stored index. *)
Definition copy_stored (bi : BlockIndex) (pre : option nat) (n : BlockIndex) : BlockIndex :=
  let h := bi_Header bi in let hn := bi_Header n in
  mkBI (mkHeader (Version h) (HashPrevBlock h) (MerkleRoot h) (Time h) (Bits h) (Nonce h) (header_Hash hn)) (GetBlockHash Sha256 bi).1 pre (bi_Skip n)
    (bi_Height bi) (bi_File bi) (bi_DataPos bi) (bi_UndoPos bi) (bi_ChainWork n) (bi_TxCount bi) (bi_ChainTxCount n) (bi_Status bi) (bi_SequenceID n) (bi_TimeMax n).
(** One entry; [None] is the failure of the load. *)
Definition load_entry {E : Type} (val : bytes) (h : bheap) (m : gmap bytes nat) : res E (option (bheap * gmap bytes nat)) :=
  match BlockIndex_Unserialize (NewBlockIndex NewBlockHeader) val with
  | Panic => Panic
  | Err _ => Ok None
  | Ok (bi, _) =>
      let '(newIndex, h, m) := insertBlockIndex (GetBlockHash Sha256 bi).1 h m in
      match newIndex with
      | None => Ok (Some (h, m))
      | Some q =>
          let '(pre, h, m) := insertBlockIndex (HashPrevBlock (bi_Header bi)) h m in
          n ← bload h q;
          let h := <[q := copy_stored bi pre n]> h in
          if CheckProofOfWork params (GetBlockHash Sha256 bi).1 (Bits (bi_Header bi)) then Ok (Some (h, m)) else Ok None
      end
  end.
(** [entries] are the pairs of the database from the first key of an index on, in the
    order of the keys. *)
Fixpoint LoadBlockIndexGuts {E : Type} (d : DBWrapper) (entries : list (bytes * bytes)) (h : bheap) (m : gmap bytes nat) : res E (option (bheap * gmap bytes nat)) :=
  match entries with
  | [] => Ok (Some (h, m))
  | (k, v) :: entries =>
      match k with
      | c :: _ =>
          if c =? DbBlockIndex then
            r ← load_entry (xor v (obfuscateKey d)) h m;
            match r with None => Ok None | Some (h, m) => LoadBlockIndexGuts d entries h m end
          else Ok (Some (h, m))
      | [] => Ok (Some (h, m))
      end
  end.
End Tree.
(** The records of the files up to the last one, and of those after it that exist. *)
Fixpoint read_infos {E : Type} (d : DBWrapper) (n : nat) (nFile : Z) : res E (list BlockFileInfo) :=
  match n with
  | O => Ok []
  | S n => match ReadBlockFileInfo d nFile with Ok i => l ← read_infos d n (nFile + 1); Ok (i :: l) | _ => Panic end
  end.
Fixpoint read_more (fuel : nat) (d : DBWrapper) (nFile : Z) : list BlockFileInfo :=
  match fuel with
  | O => []
  | S fuel => match ReadBlockFileInfo d nFile with Ok i => i :: read_more fuel d (nFile + 1) | _ => [] end
  end.
(** The database has at most as many file records as entries. *)
Definition LoadBlockFileInfo {E : Type} (t : DBWrapper) (d : Disk) : res E Disk :=
  match ReadLastBlockFile t with
  | Ok last =>
      l ← read_infos t (Z.to_nat (last + 1)) 0;
      let l' := read_more (size (store t)) t (last + 1) in
      Ok (with_last (last + Z.of_nat (length l')) (with_infos (l ++ l') d))
  | _ => Ok (with_last 0 (with_infos [] d))
  end.

(** ** Flushing (disk.go) *)
Inductive FlushStateMode := FlushStateNone | FlushStateIfNeeded | FlushStatePeriodic | FlushStateAlways.
#[export] Instance FlushStateMode_eq_dec : EqDecision FlushStateMode.
Proof. solve_decision. Defined.

Section Flush.
Context `{Secp256k1} `{LruCache} `{Hashes} (range : gmap OutPoint Coin -> list (OutPoint * Coin)).
Record Persist := mkPersist {
  p_disk : Disk;
  p_tree : DBWrapper;
  GlobalDirtyBlockIndex : gmap bytes nat;
  GlobalLastWrite : Z;
  GlobalLastFlush : Z;
  GlobalLastSetChain : Z }.
Definition AddDirtyBlockIndex (hash : bytes) (q : nat) (g : Persist) : Persist :=
  mkPersist (p_disk g) (p_tree g) (<[hash := q]> (GlobalDirtyBlockIndex g)) (GlobalLastWrite g) (GlobalLastFlush g) (GlobalLastSetChain g).
Definition with_disk (d : Disk) (g : Persist) : Persist :=
  mkPersist d (p_tree g) (GlobalDirtyBlockIndex g) (GlobalLastWrite g) (GlobalLastFlush g) (GlobalLastSetChain g).
(** The size of a pointer. *)
Definition DynamicMemoryUsage : Z := 8.
(** The bounds are float64 in the source and exact below 2^48; here they are multiplied by
    10. *)
Definition cache_large (mempoolUsage mempoolSizeMax : Z) : bool :=
  let totalSpace := 5000 * 300 + Z.max (mempoolSizeMax - mempoolUsage) 0 in
  let x := Z.max (5 * totalSpace) (10 * (totalSpace - 50 * 2 * 1024 * 1024)) in
  let y := Z.max (9 * totalSpace) (10 * (totalSpace - 2 * 200 * 1024 * 1024)) in
  Z.min x y <? 10 * (DynamicMemoryUsage * 2).
Definition cache_critical (mempoolUsage mempoolSizeMax : Z) : bool :=
  5000 * 300 + Z.max (mempoolSizeMax - mempoolUsage) 0 <? DynamicMemoryUsage * 2.
(** [now] is the clock in nanoseconds.  No file is ever pruned. *)
Definition FlushStateToDisk {E : Type} (free now : Z) (mode : FlushStateMode) (mempoolUsage mempoolSizeMax : Z) (h : bheap) (g : Persist) (st : CoinsLruCache)
    : res E (Persist * CoinsLruCache) :=
  let since x := if x =? 0 then now else x in
  let lastWrite := since (GlobalLastWrite g) in
  let lastFlush := since (GlobalLastFlush g) in
  let lastSet := since (GlobalLastSetChain g) in
  let periodic := bool_decide (mode = FlushStatePeriodic) in
  let always := bool_decide (mode = FlushStateAlways) in
  let periodicWrite := periodic && (lastWrite + 60 * 60 * 1000000 <? now) in
  let periodicFlush := periodic && (lastFlush + 24 * 60 * 60 * 1000000 <? now) in
  let doFullFlush := always || (periodic && cache_large mempoolUsage mempoolSizeMax) ||
    (bool_decide (mode = FlushStateIfNeeded) && cache_critical mempoolUsage mempoolSizeMax) || periodicFlush in
  '(d, t, dirty, lastWrite) ← (if doFullFlush || periodicWrite then
      CheckDiskSpace free 0;;
      d ← FlushBlockFile false (p_disk g);
      infos ← foldr (fun k l => l ← l; i ← nth_go (GlobalBlockFileInfo d) k; Ok ((k, i) :: l)) (Ok []) (elements (GlobalDirtyFileInfo d));
      idx ← foldr (fun q l => l ← l; b ← bload h q; Ok (b :: l)) (Ok []) (map snd (map_to_list (GlobalDirtyBlockIndex g)));
      Ok (with_dirty ∅ d, WriteBatchSync infos (GlobalLastBlockFile d) idx (p_tree g), ∅, now)
    else Ok (p_disk g, p_tree g, GlobalDirtyBlockIndex g, lastWrite));
  '(st, lastFlush) ← (if (doFullFlush : bool) then
      CheckDiskSpace free (u32 (48 * 2 * 2 * lru_Len (cacheCoins st)));;
      st ← Flush range st; Ok (st, now)
    else Ok (st, lastFlush));
  let lastSet := if doFullFlush || ((always || periodic) && (lastSet + 60 * 60 * 1000000 <? now)) then now else lastSet in
  Ok (mkPersist d t dirty lastWrite lastFlush lastSet, st).
End Flush.
