(* ===== verification/BlkDBTheorems.v ===== *)
(** * Theorems on the database and the block tree in it

    The definitions are in BlkDB.v. *)
From S2P Require Import Prelude Errors Wire ScriptNum Opcodes Script ScriptFacts Tx TxFacts Crypto Compress Coins CoinsFacts Block Undo.
From S2P Require Import Stack Slice Interp ScriptTheorems UtxoTheorems BlockIndex Chain VersionBits Pow Disk DiskFacts DiskTheorems BlkDB.

(** ** The key is not seen *)
Lemma xor_from_twice obkey val : forall j, xor_from obkey j (xor_from obkey j val) = val.
Proof. induction val as [|v val IH]; intros j; [done|]. cbn [xor_from]. rw IH. f_equal. by rw Z.lxor_assoc Z.lxor_nilpotent Z.lxor_0_r. Qed.
Lemma xor_twice val obkey : xor (xor val obkey) obkey = val.
Proof. unfold xor. destruct obkey; [done|]. apply xor_from_twice. Qed.
(** What the database holds for its clients. *)
Definition held (d : DBWrapper) : gmap bytes bytes := (fun v => xor v (obfuscateKey d)) <$> store d.
Lemma DB_Read_held d k : DB_Read d k = held d !! k.
Proof. unfold DB_Read, held. by rw lookup_fmap. Qed.

(** A batch as its clients write it. *)
Definition batch_of (d : DBWrapper) (l : list batch_op) : list batch_op :=
  foldl (fun bw o => match o with BatchPut k v => Batch_Write d k v bw | BatchDelete k => Batch_Erase k bw end) [] l.
Definition hidden (d : DBWrapper) (o : batch_op) : batch_op := match o with BatchPut k v => BatchPut k (xor v (obfuscateKey d)) | BatchDelete k => BatchDelete k end.
Lemma batch_of_map d l : batch_of d l = map (hidden d) l.
Proof.
  unfold batch_of. change (map (hidden d) l) with ([] ++ map (hidden d) l). generalize (@nil batch_op) as bw. induction l as [|o l IH]; intros bw; cbn [foldl map]; [by rw app_nil_r|].
  rw IH. destruct o; unfold Batch_Write, Batch_Erase; by rw -app_assoc.
Qed.
Definition op_key (o : batch_op) : bytes := match o with BatchPut k _ | BatchDelete k => k end.
Lemma held_apply d s l : (fun v => xor v (obfuscateKey d)) <$> foldl apply_op s (map (hidden d) l) = foldl apply_op ((fun v => xor v (obfuscateKey d)) <$> s) l.
Proof.
  revert s. induction l as [|o l IH]; intros s; cbn [map foldl]; [done|]. rw IH. f_equal. destruct o; cbn; [by rw fmap_insert xor_twice|by rw fmap_delete].
Qed.
Lemma apply_other l k : forall s, Forall (fun o => op_key o <> k) l -> foldl apply_op s l !! k = s !! k.
Proof.
  induction l as [|o l IH]; intros s Hl; cbn [foldl]; [done|]. apply Forall_cons in Hl as [Ho Hl]. rw (IH _ Hl). destruct o; cbn in *; [by rw lookup_insert_ne|by rw lookup_delete_ne].
Qed.
(** A database on disk that was opened with the option [dontObfuscate]: its key is stored
    in it as it is. *)
Definition opened (dontObfuscate : bool) (d : DBWrapper) : Prop :=
  mdb d = false /\ (store d !! obfuscateKeyKey = Some (obfuscateKey d) \/ dontObfuscate = true /\ store d !! obfuscateKeyKey = None /\ obfuscateKey d = []).
(** The operations of a client, and what they do to a map. *)
Inductive db_op := OpWrite (k v : bytes) | OpErase (k : bytes) | OpBatch (l : list batch_op).
Definition run_op (d : DBWrapper) (o : db_op) : DBWrapper :=
  match o with OpWrite k v => DB_Write k v d | OpErase k => DB_Erase k d | OpBatch l => WriteBatch (batch_of d l) d end.
Definition plain_ops (o : db_op) : list batch_op := match o with OpWrite k v => [BatchPut k v] | OpErase k => [BatchDelete k] | OpBatch l => l end.
Definition on_map (m : gmap bytes bytes) (o : db_op) : gmap bytes bytes := foldl apply_op m (plain_ops o).
Definition leaves_key (o : db_op) : Prop := Forall (fun o => op_key o <> obfuscateKeyKey) (plain_ops o).

Lemma run_op_batch d o : mdb d = false -> run_op d o = WriteBatch (map (hidden d) (plain_ops o)) d.
Proof. intros Hm. destruct o; cbn; [by rw /DB_Write Hm|by rw /DB_Erase Hm|by rw batch_of_map]. Qed.
Lemma run_op_held b d o : opened b d -> leaves_key o -> opened b (run_op d o) /\ obfuscateKey (run_op d o) = obfuscateKey d /\ held (run_op d o) = on_map (held d) o.
Proof.
  intros [Hm Hk] Hl. rw (run_op_batch d o Hm). unfold WriteBatch. rw Hm. split; [|split; [done|apply (held_apply d (store d) (plain_ops o))]]. split; [done|].
  cbn [with_store store obfuscateKey]. assert (Forall (fun o => op_key o <> obfuscateKeyKey) (map (hidden d) (plain_ops o))) as Hl' by (apply Forall_map; eapply Forall_impl; [exact Hl|by intros []]).
  by rw (apply_other _ _ _ Hl').
Qed.
Lemma reopen b d newKey : opened b d -> NewDBWrapper false b false newKey (store d) = d.
Proof.
  intros [Hm Hk]. destruct d as [s mm k]. cbn in *. subst mm. unfold NewDBWrapper, writeObfuscateKey, DB_Read. cbn [store obfuscateKey mdb].
  destruct Hk as [Hs|(-> & Hs & ->)]; by rw Hs.
Qed.

(** C29. The key that hides the values is not seen: whatever is written, erased or applied
    as a batch, the database returns what a map would, and opening its files again gives
    the same database, with the key that was drawn when it was made. *)
Theorem db_refines_map (dontObfuscate wipe : bool) (newKey newKey' : bytes) (files : gmap bytes bytes) (ops : list db_op)
    (Hfiles : wipe = true \/ files = ∅ \/ dontObfuscate = true \/ is_Some (files !! obfuscateKeyKey)) (Hops : Forall leaves_key ops) :
  let d0 := NewDBWrapper false dontObfuscate wipe newKey files in
  let d := foldl run_op d0 ops in
  (forall k, DB_Read d k = foldl on_map (held d0) ops !! k) /\ (forall k, DB_Exists d k = bool_decide (is_Some (foldl on_map (held d0) ops !! k))) /\
  NewDBWrapper false dontObfuscate false newKey' (store d) = d.
Proof.
  intros d0 d. assert (opened dontObfuscate d0) as H0.
  { unfold d0, NewDBWrapper, writeObfuscateKey, DB_Read. cbn [store obfuscateKey mdb]. set (s := if wipe then ∅ else files). assert (s = ∅ \/ dontObfuscate = true \/ is_Some (s !! obfuscateKeyKey)) as Hs by (unfold s; destruct wipe; naive_solver).
    destruct (s !! obfuscateKeyKey) as [v|] eqn:Ev; cbn [fmap option_fmap option_map]; [split; [done|by left]|]. destruct dontObfuscate; cbn [negb andb]; [split; [done|by right]|].
    destruct Hs as [Hs|[Hs|[v Hs]]]; [|discriminate|congruence]. unfold DB_IsEmpty. cbn [store]. rw bool_decide_true //. split; [done|]. left. cbn. apply lookup_insert_eq. }
  assert (opened dontObfuscate d /\ held d = foldl on_map (held d0) ops) as [Hd Hh].
  { unfold d. clearbody d0. clear d. revert d0 H0. induction ops as [|o ops IH]; intros d0 H0; [done|]. apply Forall_cons in Hops as [Ho Hops]. cbn [foldl].
    destruct (run_op_held _ _ _ H0 Ho) as (H1 & _ & H2). rw -H2. by apply IH. }
  split; [|split; [|by apply reopen]]; intros k; rw -Hh; [apply DB_Read_held|]. unfold DB_Exists, held. apply bool_decide_ext. rw lookup_fmap fmap_is_Some. done.
Qed.

(** ** The block tree *)
Record wf_info (i : BlockFileInfo) : Prop := {
  wi_counts : is_u 32 (Blocks i) /\ is_u 32 (bf_Size i) /\ is_u 32 (UndoSize i);
  wi_heights : is_i 32 (HeightFirst i) /\ is_i 32 (HeightLast i);
  wi_times : is_u 64 (timeFirst i) /\ is_u 64 (timeLast i) }.
Lemma FileInfo_read i r : wf_info i -> FileInfo_Unserialize (FileInfo_Serialize i ++ r) = Ok (i, r).
Proof.
  intros [(Hb & Hs & Hu) [Hf Hl] [Htf Htl]]. unfold FileInfo_Unserialize, FileInfo_Serialize. app_right. do 3 (erewrite rd_bind_ok; [|by apply Uint32_put]).
  do 2 (erewrite rd_bind_ok; [|apply Uint32_put; auto with go]). do 2 (erewrite rd_bind_ok; [|by apply Uint64_put]). rw !i32_u32 //. by destruct i.
Qed.
Lemma file_key_inj a b : is_i 32 a -> is_i 32 b -> file_key a = file_key b -> a = b.
Proof.
  intros Ha Hb He. apply (f_equal tail) in He. change (PutUint64 (u64 a) = PutUint64 (u64 b)) in He. assert (u64 a = u64 b) as Hu by (apply (f_equal Uint64) in He; rewrite <-(app_nil_r (PutUint64 (u64 a))), <-(app_nil_r (PutUint64 (u64 b))) in He; rewrite !Uint64_put in He; [by injection He|auto with go..]).
  int_lia.
Qed.

Section Tree.
Context `{Hashes} (params : PowParams).
Abbreviation ihash b := ((GetBlockHash Sha256 b).1).
(** An index whose fields are within their types and whose hash is that of its header. *)
Record keepable (b : BlockIndex) : Prop := {
  kp_numbers : is_i 32 (bi_Height b) /\ is_i 32 (bi_TxCount b) /\ is_i 32 (bi_File b);
  kp_places : is_u 32 (bi_Status b) /\ is_u 32 (bi_DataPos b) /\ is_u 32 (bi_UndoPos b);
  kp_header : wf_header (bi_Header b);
  kp_hash : ihash b = DoubleSha256Hash Sha256 (Header_Serialize (bi_Header b)) /\ Hash_IsNull (ihash b) = false;
  kp_pow : CheckProofOfWork params (ihash b) (Bits (bi_Header b)) = true }.
Definition bare_header (h : BlockHeader) : BlockHeader := mkHeader (Version h) (HashPrevBlock h) (MerkleRoot h) (Time h) (Bits h) (Nonce h) HashZero.
Definition read_back (b : BlockIndex) : BlockIndex :=
  mkBI (bare_header (bi_Header b)) HashZero None None (bi_Height b) (bi_File b) (bi_DataPos b) (bi_UndoPos b) 0 (bi_TxCount b) 0 (bi_Status b) 0 0.
Lemma index_read b : keepable b -> BlockIndex_Unserialize (NewBlockIndex NewBlockHeader) (BlockIndex_Serialize b) = Ok (read_back b, []) /\ ihash (read_back b) = ihash b.
Proof.
  intros [(Hh & Ht & Hf) (Hs & Hd & Hu) Hw [Hk _] _]. split; [|by rw Hk].
  unfold BlockIndex_Unserialize, BlockIndex_Serialize. rewrite <-(app_nil_r (Header_Serialize (bi_Header b))). app_right. erewrite rd_bind_ok; [|apply Uint32_put; auto with go].
  erewrite rd_bind_ok; [|apply Uint32_put; auto with go]. erewrite rd_bind_ok; [|by apply Uint32_put]. do 2 (erewrite rd_bind_ok; [|apply Uint32_put; auto with go]). do 2 (erewrite rd_bind_ok; [|by apply Uint32_put]).
  erewrite rd_bind_ok; [|by apply Header_Unserialize_app]. rw !i32_u32 //.
Qed.

(** *** Writing *)
Definition flushed (infos : list (Z * BlockFileInfo)) (last : Z) (idx : list BlockIndex) : list batch_op :=
  map (fun x => BatchPut (file_key x.1) (FileInfo_Serialize x.2)) infos ++ BatchPut [DbLastBlock] (PutUint64 (u64 last)) :: map (fun b => BatchPut (DbBlockIndex :: ihash b) (BlockIndex_Serialize b)) idx.
Lemma foldl_puts {A} (k v : A -> bytes) d (l : list A) : forall bw, foldl (fun bw x => Batch_Write d (k x) (v x) bw) bw l = bw ++ map (hidden d) (map (fun x => BatchPut (k x) (v x)) l).
Proof. induction l as [|x l IH]; intros bw; cbn [foldl map]; [by rw app_nil_r|]. rw IH. unfold Batch_Write. by rw -app_assoc. Qed.
Lemma WriteBatchSync_run infos last idx d : mdb d = false -> WriteBatchSync infos last idx d = run_op d (OpBatch (flushed infos last idx)).
Proof.
  intros Hm. rw run_op_batch //. unfold WriteBatchSync. f_equal. rw (foldl_puts (fun x => file_key x.1) (fun x => FileInfo_Serialize x.2)) (foldl_puts (fun b => DbBlockIndex :: ihash b) BlockIndex_Serialize).
  cbn [plain_ops]. unfold flushed, Batch_Write. rw map_app. cbn [map app hidden]. by rw -!app_assoc.
Qed.
Lemma flushed_leaves infos last idx : leaves_key (OpBatch (flushed infos last idx)).
Proof. unfold leaves_key, flushed. cbn [plain_ops]. rw Forall_app Forall_cons !Forall_map. split_and!; [by apply Forall_true|done|by apply Forall_true]. Qed.
Lemma NoDup_map_eq {A B} (f : A -> B) l : NoDup (map f l) -> forall x y, x ∈ l -> y ∈ l -> f x = f y -> x = y.
Proof.
  induction l as [|a l IH]; intros Hnd x y Hx Hy He; [by apply elem_of_nil in Hx|]. cbn [map] in Hnd. apply NoDup_cons in Hnd as [Ha Hnd].
  apply elem_of_cons in Hx as [->|Hx]; apply elem_of_cons in Hy as [->|Hy]; [done| | |by apply IH]; destruct Ha; [rw He|rw -He]; by apply (list_elem_of_fmap_2 f).
Qed.
(** The last write to a key counts. *)
Lemma put_last {A} (k v : A -> bytes) (l : list A) x : forall s, NoDup (map k l) -> x ∈ l -> foldl apply_op s (map (fun x => BatchPut (k x) (v x)) l) !! k x = Some (v x).
Proof.
  induction l as [|y l IH]; intros s Hnd Hx; [by apply elem_of_nil in Hx|]. cbn [map] in Hnd. apply NoDup_cons in Hnd as [Hy Hnd]. cbn [map foldl apply_op]. apply elem_of_cons in Hx as [->|Hx]; [|by apply IH].
  rw apply_other; [apply lookup_insert_eq|]. apply Forall_map, Forall_forall. intros z Hz He. apply Hy. cbn in He. rw -He. by apply list_elem_of_fmap_2.
Qed.
Lemma put_other {A} (k v : A -> bytes) (l : list A) key s : (forall x, x ∈ l -> k x <> key) -> foldl apply_op s (map (fun x => BatchPut (k x) (v x)) l) !! key = s !! key.
Proof. intros Hk. apply apply_other, Forall_map, Forall_forall. exact Hk. Qed.
Lemma apply_flushed infos last idx s : foldl apply_op s (flushed infos last idx) =
  foldl apply_op (<[[DbLastBlock] := PutUint64 (u64 last)]> (foldl apply_op s (map (fun x => BatchPut (file_key x.1) (FileInfo_Serialize x.2)) infos))) (map (fun b => BatchPut (DbBlockIndex :: ihash b) (BlockIndex_Serialize b)) idx).
Proof. unfold flushed. by rw foldl_app. Qed.
Lemma flushed_last infos last idx s : foldl apply_op s (flushed infos last idx) !! [DbLastBlock] = Some (PutUint64 (u64 last)).
Proof. rw apply_flushed (put_other (fun b => DbBlockIndex :: ihash b) BlockIndex_Serialize); [apply lookup_insert_eq|done]. Qed.
Lemma flushed_file infos last idx s n : foldl apply_op s (flushed infos last idx) !! file_key n = foldl apply_op s (map (fun x => BatchPut (file_key x.1) (FileInfo_Serialize x.2)) infos) !! file_key n.
Proof. rw apply_flushed (put_other (fun b => DbBlockIndex :: ihash b) BlockIndex_Serialize); [by rw lookup_insert_ne|done]. Qed.
Lemma flushed_index infos last idx s hash : foldl apply_op s (flushed infos last idx) !! (DbBlockIndex :: hash) = foldl apply_op s (map (fun b => BatchPut (DbBlockIndex :: ihash b) (BlockIndex_Serialize b)) idx) !! (DbBlockIndex :: hash).
Proof.
  rw apply_flushed. set (s1 := <[_ := _]> _). assert (s1 !! (DbBlockIndex :: hash) = s !! (DbBlockIndex :: hash)) as Hs by (unfold s1; rw lookup_insert_ne // (put_other (fun x => file_key x.1) (fun x => FileInfo_Serialize x.2)) //).
  clearbody s1. revert s s1 Hs. induction idx as [|b idx IH]; intros s s1 Hs; cbn [map foldl]; [done|]. apply IH. cbn. destruct (decide (DbBlockIndex :: ihash b = DbBlockIndex :: hash)) as [->|Hne]; [by rw !lookup_insert_eq|by rw !lookup_insert_ne].
Qed.

(** *** Loading *)
Abbreviation iprev b := (HashPrevBlock (bi_Header b)).
(** The index of [b] as it is rebuilt; its parent is found under its hash. *)
Definition rebuilt (h : bheap) (m : gmap bytes nat) (b : BlockIndex) : Prop := exists q n, m !! ihash b = Some q /\ h !! q = Some n /\ bi_blockHash n = ihash b /\ bi_Prev n = m !! iprev b /\
  bare_header (bi_Header n) = bare_header (bi_Header b) /\ (bi_Height n, bi_File n, bi_DataPos n, bi_UndoPos n, bi_TxCount n, bi_Status n) = (bi_Height b, bi_File b, bi_DataPos b, bi_UndoPos b, bi_TxCount b, bi_Status b).
Record index_map (h : bheap) (m : gmap bytes nat) : Prop := {
  im_there k q : m !! k = Some q -> is_Some (h !! q);
  im_inj k k' q : m !! k = Some q -> m !! k' = Some q -> k = k';
  im_null k : Hash_IsNull k = true -> m !! k = None }.
Record loading (h : bheap) (m : gmap bytes nat) (l : list BlockIndex) : Prop := {
  ld_map : index_map h m;
  ld_done b : b ∈ l -> rebuilt h m b /\ (Hash_IsNull (iprev b) = false -> is_Some (m !! iprev b)) }.

Lemma insertBlockIndex_ok hash h m : index_map h m ->
  match insertBlockIndex hash h m with
  | (o, h', m') => index_map h' m' /\ o = m' !! hash /\ m ⊆ m' /\ h ⊆ h' /\ (Hash_IsNull hash = false -> is_Some o)
  end.
Proof.
  intros Hm. unfold insertBlockIndex. destruct (m !! hash) as [q|] eqn:Eq; [by split_and!; eauto|]. destruct (Hash_IsNull hash) eqn:En; [by split_and!|].
  set (q := fresh (dom h)). assert (h !! q = None) as Hq by (apply not_elem_of_dom, is_fresh). assert (forall k, m !! k <> Some q) as Hfree by (intros k Hk; destruct (im_there _ _ Hm _ _ Hk) as [? ?]; congruence).
  split_and!; [split| | | |].
  - intros k r Hk. destruct (decide (r = q)) as [->|Hr]; [rw lookup_insert_eq; by eexists|rw lookup_insert_ne //]. apply (im_there _ _ Hm k). apply lookup_insert_Some in Hk as [[_ ?]|[_ ?]]; [congruence|done].
  - intros k k' r [[<- <-]|[Hk Hr]]%lookup_insert_Some [[<- He]|[Hk' Hr']]%lookup_insert_Some; [done|by destruct (Hfree k')|subst; by destruct (Hfree k)|by apply (im_inj _ _ Hm k k' r)].
  - intros k Hk. rw lookup_insert_ne; [by apply (im_null _ _ Hm)|congruence].
  - by rw lookup_insert_eq.
  - by apply insert_subseteq.
  - by apply insert_subseteq.
  - by eexists.
Qed.
Lemma rebuilt_mono h m h' m' l b : loading h m l -> index_map h' m' -> b ∈ l -> m ⊆ m' -> (forall q n, m !! ihash b = Some q -> h !! q = Some n -> h' !! q = Some n) ->
  rebuilt h' m' b /\ (Hash_IsNull (iprev b) = false -> is_Some (m' !! iprev b)).
Proof.
  intros Hl Hm' Hb Hsub Hkeep. destruct (ld_done _ _ _ Hl b Hb) as [(q & n & Hq & Hn & Hh & Hp & Hhd & Hf) Hpre]. assert (m' !! iprev b = m !! iprev b) as Hsame.
  { destruct (Hash_IsNull (iprev b)) eqn:En; [by rw (im_null _ _ Hm') // (im_null _ _ (ld_map _ _ _ Hl))|]. destruct (Hpre eq_refl) as [p Hp']. rw Hp'. by eapply lookup_weaken. }
  split; [|by rw Hsame]. exists q, n. rw Hsame. split_and!; [by eapply lookup_weaken|by apply Hkeep|done..].
Qed.
Lemma load_entry_ok {E} h m l b : loading h m l -> keepable b -> ihash b ∉ map (fun b => ihash b) l ->
  exists h' m', load_entry params (E := E) (BlockIndex_Serialize b) h m = Ok (Some (h', m')) /\ loading h' m' (b :: l).
Proof.
  intros Hl Hb Hnew. unfold load_entry. destruct (index_read b Hb) as [-> ->]. destruct (kp_hash _ Hb) as [_ Hnn]. change (HashPrevBlock (bi_Header (read_back b))) with (iprev b). change (Bits (bi_Header (read_back b))) with (Bits (bi_Header b)).
  pose proof (insertBlockIndex_ok (ihash b) h m (ld_map _ _ _ Hl)) as H1. destruct (insertBlockIndex (ihash b) h m) as [[o1 h1] m1]. destruct H1 as (Hm1 & Ho1 & Hs1 & Hh1 & Hq). destruct (Hq Hnn) as [q ->]. symmetry in Ho1.
  pose proof (insertBlockIndex_ok (iprev b) h1 m1 Hm1) as H2. destruct (insertBlockIndex (iprev b) h1 m1) as [[pre h2] m2]. destruct H2 as (Hm2 & Hpre & Hs2 & Hh2 & Hp).
  assert (m2 !! ihash b = Some q) as Hq2 by (by eapply lookup_weaken). destruct (im_there _ _ Hm2 _ _ Hq2) as [n Hn]. unfold bload. rw Hn. cbn [mbind res_bind]. rw (kp_pow _ Hb).
  eexists _, m2. split; [reflexivity|]. assert (index_map (<[q := copy_stored (read_back b) pre n]> h2) m2) as Hm3.
  { split; [|apply (im_inj _ _ Hm2)|apply (im_null _ _ Hm2)]. intros k r Hk. destruct (decide (r = q)) as [->|Hr]; [rw lookup_insert_eq; by eexists|rw lookup_insert_ne //; by apply (im_there _ _ Hm2 k)]. }
  split; [done|]. intros b' [->|Hb']%elem_of_cons.
  - split; [|by rw Hpre in Hp]. exists q, (copy_stored (read_back b) pre n). rw lookup_insert_eq. split_and!; [done|done| |done|done|done].
    destruct (index_read b Hb) as [_ Hr]. exact Hr.
  - apply (rebuilt_mono h m _ m2 l); [done|done|done|by etrans|]. intros r x Hr Hx. rw lookup_insert_ne.
    + eapply lookup_weaken; [|exact Hh2]. by eapply lookup_weaken.
    + intros ->. apply Hnew. assert (m2 !! ihash b' = Some r) as Hr2 by (eapply lookup_weaken; [exact Hr|by etrans]). rw (im_inj _ _ Hm2 _ _ _ Hq2 Hr2). by apply (list_elem_of_fmap_2 (fun b => ihash b)).
Qed.
Definition stored_pair (d : DBWrapper) (b : BlockIndex) : bytes * bytes := (DbBlockIndex :: ihash b, xor (BlockIndex_Serialize b) (obfuscateKey d)).
Definition is_index (kv : bytes * bytes) : Prop := head kv.1 = Some DbBlockIndex.
#[local] Instance is_index_dec kv : Decision (is_index kv).
Proof. unfold is_index. apply _. Defined.
Lemma load_all {E} d rest l : forall h m done, from_option (fun kv => ~ is_index kv) True (head rest) -> loading h m done -> Forall keepable l -> NoDup (map (fun b => ihash b) (l ++ done)) ->
  exists h' m', LoadBlockIndexGuts params (E := E) d (map (stored_pair d) l ++ rest) h m = Ok (Some (h', m')) /\ loading h' m' (reverse l ++ done).
Proof.
  induction l as [|b l IH]; intros h m done' Hrest Hl Hk Hnd.
  - exists h, m. split; [|done]. destruct rest as [|[[|c k] v] rest]; [done|done|]. cbn. cbn in Hrest. unfold is_index in Hrest. cbn in Hrest. destruct (Z.eqb_spec c DbBlockIndex); [by subst|done].
  - apply Forall_cons in Hk as [Hb Hk]. pose proof Hnd as Hall. cbn [app map] in Hnd. apply NoDup_cons in Hnd as [Hnew Hnd]. rw map_app in Hnew. cbn [map app stored_pair LoadBlockIndexGuts]. rw Z.eqb_refl xor_twice.
    destruct (load_entry_ok (E := E) h m done' b Hl Hb) as (h1 & m1 & -> & Hl1); [set_solver|]. cbn [mbind res_bind].
    destruct (IH h1 m1 (b :: done') Hrest Hl1 Hk) as (h2 & m2 & -> & Hl2); [|exists h2, m2; split; [done|by rw reverse_cons -app_assoc]].
    refine (proj2 (NoDup_Permutation_proper _ _ _) Hall). apply Permutation_map. symmetry. exact (Permutation_middle l done' b).
Qed.
(** The indexes that the database holds. *)
Record kept (d : DBWrapper) (l : list BlockIndex) : Prop := {
  kt_keep : Forall keepable l;
  kt_nodup : NoDup (map (fun b => ihash b) l);
  kt_held hash v : held d !! (DbBlockIndex :: hash) = Some v <-> exists b, b ∈ l /\ hash = ihash b /\ v = BlockIndex_Serialize b }.
Lemma load_kept {E} d l es rest : kept d l -> es ≡ₚ filter is_index (map_to_list (store d)) -> from_option (fun kv => ~ is_index kv) True (head rest) ->
  exists h m, LoadBlockIndexGuts params (E := E) d (es ++ rest) ∅ ∅ = Ok (Some (h, m)) /\ index_map h m /\ forall b, b ∈ l -> rebuilt h m b.
Proof.
  intros [Hk Hnd Hh] Hes Hrest. assert (es ≡ₚ map (stored_pair d) l) as Hp.
  { rw Hes. apply NoDup_Permutation; [apply NoDup_filter, NoDup_map_to_list| |].
    - apply (NoDup_fmap_1 fst). change (NoDup (map fst (map (stored_pair d) l))). rw map_map. cbn [stored_pair fst]. rw -(map_map (fun b => ihash b) (cons DbBlockIndex)). apply (NoDup_fmap_2 (cons DbBlockIndex)), Hnd.
    - intros [k v]. rw list_elem_of_filter elem_of_map_to_list. assert (forall hash, store d !! (DbBlockIndex :: hash) = Some v <-> held d !! (DbBlockIndex :: hash) = Some (xor v (obfuscateKey d))) as Hst.
      { intros hash. unfold held. rw lookup_fmap fmap_Some. split; [naive_solver|]. intros (x & -> & He). f_equal. by rw -(xor_twice v (obfuscateKey d)) He xor_twice. }
      split.
      + intros [Hi Hv]. unfold is_index in Hi. destruct k as [|c hash]; [done|]. cbn in Hi. injection Hi as ->. apply Hst, Hh in Hv as (b & Hb & -> & Hv). apply list_elem_of_fmap. exists b. split; [|done]. unfold stored_pair. by rw -Hv xor_twice.
      + intros (b & [= -> ->] & Hb)%list_elem_of_fmap. split; [done|]. apply Hst. rw xor_twice. apply Hh. by exists b. }
  apply Permutation_map_inv in Hp as (l' & -> & Hp). assert (loading ∅ ∅ []) as H0 by (split; [split; intros k; rw ?lookup_empty //|by intros b ?%elem_of_nil]).
  destruct (load_all (E := E) d rest l' ∅ ∅ [] Hrest H0) as (h & m & Hload & [Hm Hdone]).
  - by rw -Hp.
  - rw app_nil_r. refine (proj2 (NoDup_Permutation_proper _ _ _) Hnd). by apply Permutation_map.
  - exists h, m. split; [done|]. split; [done|]. intros b Hb. apply Hdone. rw app_nil_r. rw elem_of_reverse. by rw -Hp.
Qed.
Lemma kept_flush b0 d l infos last idx : opened b0 d -> kept d l -> Forall keepable idx -> NoDup (map (fun b => ihash b) idx) ->
  kept (WriteBatchSync infos last idx d) (idx ++ filter (fun b => ihash b ∉ map (fun b => ihash b) idx) l).
Proof.
  intros Ho [Hk Hnd Hh] Hki Hndi. destruct Ho as [Hm Hkey] eqn:Heq. clear Heq. split.
  - apply Forall_app. split; [done|]. apply Forall_forall. intros b [_ Hb]%list_elem_of_filter. by apply (proj1 (Forall_forall _ _) Hk).
  - rw map_app. apply NoDup_app. split; [done|]. split.
    + intros x Hx (b & -> & Hb)%list_elem_of_fmap. by apply list_elem_of_filter in Hb as [? _].
    + clear -Hnd. induction l as [|b l IH]; [constructor|]. cbn [map] in Hnd. apply NoDup_cons in Hnd as [Hb Hnd]. rw filter_cons. destruct (decide _) as [Hd|_]; [|by apply IH]. cbn [map]. constructor; [|by apply IH].
      intros (x & Hx & Hin)%list_elem_of_fmap. apply list_elem_of_filter in Hin as [_ Hin]. apply Hb. rw Hx. by apply (list_elem_of_fmap_2 (fun b => ihash b)).
  - intros hash v. rw WriteBatchSync_run // (proj2 (proj2 (run_op_held b0 d _ (conj Hm Hkey) (flushed_leaves infos last idx)))). unfold on_map. cbn [plain_ops]. rw flushed_index.
    destruct (decide (hash ∈ map (fun b => ihash b) idx)) as [Hin|Hout].
    + apply list_elem_of_fmap in Hin as (b & -> & Hb). rw (put_last (fun b => DbBlockIndex :: ihash b) BlockIndex_Serialize idx b); [|rw -(map_map (fun b => ihash b) (cons DbBlockIndex)); by apply (NoDup_fmap_2 (cons DbBlockIndex))|done].
      split; [intros [= <-]; exists b; split; [by apply elem_of_app; left|done]|]. intros (b' & Hb' & He & ->). f_equal. apply elem_of_app in Hb' as [Hb'|Hb'].
      * f_equal. by eapply (NoDup_map_eq (fun b => ihash b)).
      * apply list_elem_of_filter in Hb' as [Hne _]. destruct Hne. rw -He. by apply (list_elem_of_fmap_2 (fun b => ihash b)).
    + rw (put_other (fun b => DbBlockIndex :: ihash b) BlockIndex_Serialize); [|intros b Hb [= He]; apply Hout; rw -He; by apply (list_elem_of_fmap_2 (fun b => ihash b))]. rw Hh. split; intros (b & Hb & -> & ->); exists b.
      * split; [|done]. apply elem_of_app. right. by apply list_elem_of_filter.
      * split; [|done]. apply elem_of_app in Hb as [Hb|Hb]; [destruct Hout; by apply (list_elem_of_fmap_2 (fun b => ihash b))|by apply list_elem_of_filter in Hb as [_ ?]].
Qed.

Lemma flushed_held b0 d infos last idx newKey : opened b0 d ->
  NewDBWrapper false b0 false newKey (store (WriteBatchSync infos last idx d)) = WriteBatchSync infos last idx d /\ held (WriteBatchSync infos last idx d) = foldl apply_op (held d) (flushed infos last idx).
Proof.
  intros Ho. destruct (run_op_held b0 d _ Ho (flushed_leaves infos last idx)) as (Ho' & _ & Hh). rewrite <-WriteBatchSync_run in Ho', Hh by apply Ho. split; [by apply reopen|exact Hh].
Qed.
Lemma last_read n : 0 <= n < 2 ^ 31 -> i32 <$> of_read (Uint32 (PutUint64 (u64 n))) = Ok n.
Proof.
  intros Hn. rw u64_id; [|int_lia]. change (PutUint64 n) with (PutUint32 n ++ drop 4 (PutUint64 n)). rw Uint32_put; [|int_lia]. cbn. f_equal. int_lia.
Qed.

(** C25. A restart finds the block tree that was flushed: when the records of block files
    and the block indexes that have changed are written in one batch, to a database that
    holds the indexes [l], then after the database is opened again the number of the last
    file and the records are read back, records that were not written are as before, and
    LoadBlockIndexGuts rebuilds every index, the written ones as they are now and the
    others as they were, each linked to the index that is found under the hash of its
    parent, whatever the order of the entries. *)
Theorem block_tree_reloaded (dontObfuscate : bool) (newKey : bytes) (d : DBWrapper) (l : list BlockIndex) (infos : list (Z * BlockFileInfo)) (last : Z) (idx : list BlockIndex)
    (Hd : opened dontObfuscate d) (Hl : kept d l) (Hidx : Forall keepable idx) (Hnd : NoDup (map (fun b => ihash b) idx))
    (Hinfos : Forall (fun x => is_i 32 x.1 /\ wf_info x.2) infos) (Hfiles : NoDup (map fst infos)) (Hlast : 0 <= last < 2 ^ 31) :
  let d' := NewDBWrapper false dontObfuscate false newKey (store (WriteBatchSync infos last idx d)) in
  ReadLastBlockFile d' = Ok last /\
  (forall n i, (n, i) ∈ infos -> ReadBlockFileInfo d' n = Ok i) /\
  (forall n, is_i 32 n -> n ∉ map fst infos -> ReadBlockFileInfo d' n = ReadBlockFileInfo d n) /\
  forall es rest, es ≡ₚ filter is_index (map_to_list (store d')) -> from_option (fun kv => ~ is_index kv) True (head rest) ->
    exists h m, LoadBlockIndexGuts params (E := Empty_set) d' (es ++ rest) ∅ ∅ = Ok (Some (h, m)) /\ index_map h m /\
      forall b, b ∈ idx \/ b ∈ l /\ ihash b ∉ map (fun b => ihash b) idx -> rebuilt h m b.
Proof.
  intros d'. destruct (flushed_held dontObfuscate d infos last idx newKey Hd) as [Hre Hh]. unfold d'. rw Hre. clear d'. split_and!.
  - unfold ReadLastBlockFile. rw DB_Read_held Hh flushed_last. by apply last_read.
  - intros n i Hin. destruct (proj1 (Forall_forall _ _) Hinfos _ Hin) as [Hn Hi]. unfold ReadBlockFileInfo. rw DB_Read_held Hh flushed_file (put_last (fun x => file_key x.1) (fun x => FileInfo_Serialize x.2) infos (n, i)); [|clear -Hinfos Hfiles|done].
    + rewrite <-(app_nil_r (FileInfo_Serialize _)). by rw FileInfo_read.
    + induction infos as [|x infos IH]; [constructor|]. cbn [map] in *. apply Forall_cons in Hinfos as [[Hx _] Hinfos]. apply NoDup_cons in Hfiles as [Hnx Hfiles]. constructor; [|by apply IH].
      intros (y & Hy & Hin)%list_elem_of_fmap. apply Hnx. apply file_key_inj in Hy; [|done|by apply (proj1 (Forall_forall _ _) Hinfos)]. rw Hy. by apply (list_elem_of_fmap_2 fst).
  - intros n Hn Hout. unfold ReadBlockFileInfo. rw !DB_Read_held Hh flushed_file (put_other (fun x => file_key x.1) (fun x => FileInfo_Serialize x.2)) //. intros x Hx Hk. apply Hout. apply file_key_inj in Hk; [|by apply (proj1 (Forall_forall _ _) Hinfos)|done].
    rw -Hk. by apply (list_elem_of_fmap_2 fst).
  - intros es rest Hes Hrest. destruct (load_kept (E := Empty_set) _ _ es rest (kept_flush dontObfuscate d l infos last idx Hd Hl Hidx Hnd) Hes Hrest) as (h & m & Hload & Hm & Hall). exists h, m. split; [done|]. split; [done|].
    intros b Hb. apply Hall. apply elem_of_app. destruct Hb as [?|[? ?]]; [by left|right; by apply list_elem_of_filter].
Qed.
End Tree.

(** ** A small database *)
#[local] Existing Instances toy_curve toy_hashes toy_compression.
Lemma db_refines_map_witness : let d0 := NewDBWrapper false false false [7; 8] ∅ in let d := foldl run_op d0 [OpWrite [1] [2; 3; 4]; OpBatch [BatchPut [5] [6]; BatchDelete [1]]] in
  store d !! [5] = Some [1] /\ DB_Read d [5] = Some [6] /\ NewDBWrapper false false false [9] (store d) = d.
Proof.
  destruct (db_refines_map false false [7; 8] [9] ∅ [OpWrite [1] [2; 3; 4]; OpBatch [BatchPut [5] [6]; BatchDelete [1]]]) as (Hr & _ & Hre).
  - right. by left.
  - repeat constructor; discriminate.
  - split; [reflexivity|]. split; [exact (Hr [5])|exact Hre].
Defined.
Definition kept_index : BlockIndex := mkBI (Header block1) HashZero None None 4 0 0 0 0 2 0 (3 .| BlockHaveData) 0 0.
Definition kept_info : BlockFileInfo := mkInfo 1 207 0 4 4 0 0.
Definition kept_db : DBWrapper := NewDBWrapper false false false [7; 8] ∅.
Lemma kept_index_ok : keepable disk_params kept_index.
Proof.
  split; [by split_and!; vm_compute|by split_and!; vm_compute|apply (wb_header _ block1_wf)|split; vm_compute; reflexivity|vm_compute; reflexivity].
Qed.
Lemma kept_db_empty : kept disk_params kept_db [].
Proof.
  split; [constructor|constructor|]. intros hash v. split; [|intros (b & Hb & _); by apply elem_of_nil in Hb]. unfold held, kept_db. cbn. rewrite lookup_fmap lookup_insert_ne; [|discriminate]. rewrite lookup_empty. discriminate.
Qed.
Lemma block_tree_reloaded_witness : let d' := NewDBWrapper false false false [9] (store (WriteBatchSync [(0, kept_info)] 0 [kept_index] kept_db)) in
  ReadLastBlockFile d' = Ok 0 /\ ReadBlockFileInfo d' 0 = Ok kept_info /\
  exists h m, LoadBlockIndexGuts disk_params (E := Empty_set) d' (filter is_index (map_to_list (store d'))) ∅ ∅ = Ok (Some (h, m)) /\ rebuilt h m kept_index.
Proof.
  destruct (block_tree_reloaded disk_params false [9] kept_db [] [(0, kept_info)] 0 [kept_index]) as (H1 & H2 & _ & H3).
  - split; [reflexivity|]. left. reflexivity.
  - exact kept_db_empty.
  - constructor; [exact kept_index_ok|constructor].
  - apply NoDup_singleton.
  - constructor; [|constructor]. split; [split; cbn; lia|]. by split; split_and!; vm_compute.
  - apply NoDup_singleton.
  - lia.
  - split; [exact H1|]. split; [apply H2; left|]. destruct (H3 _ [] (Permutation_refl _) I) as (h & m & Hload & _ & Hall). rewrite app_nil_r in Hload. exists h, m. split; [exact Hload|]. apply Hall. left. by apply elem_of_cons; left.
Defined.
