(* ===== verification/PoolView.v ===== *)
(** * The pool leaves the coins alone

    During a reorganisation the pool is not yet in step with the UTXO set, so the facts
    about a consistent pool do not apply.  What still holds is that no operation changes
    the transaction of an entry, and that the cache of the coins keeps showing the UTXO
    set: acceptance only reads it, and a cut of the pool only drops clean coins. *)
From S2P Require Import Prelude Errors Wire ScriptNum Opcodes Script ScriptFacts Tx TxFacts Crypto Compress Coins CoinsFacts Block Undo ConnectFacts.
From S2P Require Import Stack Slice Interp Ltx BlockIndex Chain Mempool MempoolFacts PoolFacts PoolSteps Accept OrphanFacts AcceptFacts Lmempool LmempoolFacts.

(** ** Reading keeps the hash of the best block *)
Section Best.
Context `{Secp256k1} `{LruCache} `{Hashes}.
Abbreviation same_best st st' := (hashBlock st' = hashBlock st).
Lemma GetCoin_best {E} st op c st' : GetCoin (E := E) st op = Ok (c, st') -> same_best st st'.
Proof.
  unfold GetCoin. destruct (lru_Get op (cacheCoins st)) as [[x|] cache]; [by intros [= _ <-]|]. destruct (CoinsDB_GetCoin (db st) op) as [[x|]|e|]; [by intros [= _ <-]..|done|done].
Qed.
Lemma HaveCoin_best {E} st op b st' : HaveCoin (E := E) st op = Ok (b, st') -> same_best st st'.
Proof. unfold HaveCoin. intros ([c st1] & Hg & Hx)%res_bind_inv. injection Hx as _ <-. by eapply GetCoin_best. Qed.
Lemma RemoveCoins_best {E} st op st' : RemoveCoins (E := E) st op = Ok st' -> same_best st st'.
Proof.
  unfold RemoveCoins. intros ([c st1] & Hg & Hx)%res_bind_inv. apply GetCoin_best in Hg. destruct c; [|by injection Hx as <-]. apply res_bind_inv in Hx as ([c2 st2] & Hg2 & Hx). injection Hx as <-.
  apply GetCoin_best in Hg2. by rw Hg2.
Qed.
Lemma remove_coins_best {E} l : forall st st', remove_coins (E := E) l st = Ok st' -> same_best st st'.
Proof. induction l as [|o l IH]; intros st st'; cbn [remove_coins]; [by intros [= <-]|]. intros (st1 & Hr & Hx)%res_bind_inv. apply RemoveCoins_best in Hr. rw -Hr. by apply IH. Qed.
Lemma FetchCoin_best {E} cm st o c cm' st' : FetchCoin (E := E) cm st o = Ok (c, cm', st') -> same_best st st'.
Proof.
  unfold FetchCoin. destruct (cm !! o); [by intros [= _ _ <-]|]. intros ([x st1] & Hg & Hx)%res_bind_inv. apply GetCoin_best in Hg. destruct x; [|by injection Hx as _ _ <-]. cbv zeta in Hx. destruct (IsSpent _); [done|]. by injection Hx as _ _ <-.
Qed.
Lemma check_prevouts_best m l : forall w ps st w' ps' st', check_prevouts_in m l w ps st = Ok (w', ps', st') -> same_best st st'.
Proof.
  induction l as [|o l IH]; intros w ps st w' ps' st'; cbn [check_prevouts_in]; [by intros [= _ _ <-]|]. intros ([[w1 p1] st1] & Hx1 & Hx)%res_bind_inv. destruct (nextTx m !! o); [|done]. apply IH in Hx. rw Hx. clear Hx IH.
  destruct (poolData m !! Hash o).
  - apply res_bind_inv in Hx1 as (e & _ & Hx1). cbv zeta in Hx1. destruct (_ <=? Index o); [done|]. destruct (GetTxOut _ _); [|done]. destruct (TxOut_IsNull _); [done|]. by injection Hx1 as _ _ <-.
  - apply res_bind_inv in Hx1 as ([b st2] & Hh & Hx1). destruct b; [|done]. injection Hx1 as _ _ <-. by eapply HaveCoin_best.
Qed.
Lemma fetch_all_best l : forall cm st b cm' st', fetch_all l cm st = Ok (b, cm', st') -> same_best st st'.
Proof.
  induction l as [|o l IH]; intros cm st b cm' st'; cbn [fetch_all]; [by intros [= _ _ <-]|]. intros ([[r cm1] st1] & Hf & Hx)%res_bind_inv. apply FetchCoin_best in Hf. destruct r; [|by injection Hx as _ _ <-]. rw -Hf. by eapply IH.
Qed.
Lemma fetch_every_best l : forall cm st cm' st', fetch_every l cm st = Ok (cm', st') -> same_best st st'.
Proof. induction l as [|o l IH]; intros cm st cm' st'; cbn [fetch_every]; [by intros [= _ <-]|]. intros ([[r cm1] st1] & Hf & Hx)%res_bind_inv. apply FetchCoin_best in Hf. rw -Hf. by eapply IH. Qed.
Lemma check_entry_coins_best ht t cm st cm' st' : check_entry_coins ht t cm st = Ok (cm', st') -> same_best st st'.
Proof.
  unfold check_entry_coins. intros ([cm1 st1] & Hx1 & (cm2 & _ & Hx)%res_bind_inv)%res_bind_inv. injection Hx as _ <-. destruct (IsCoinBase t); [by injection Hx1 as _ <-|].
  apply res_bind_inv in Hx1 as ([cm3 st3] & Hf & Hx1). apply fetch_every_best in Hf. destruct (CheckInputsMoney _ _ _); [|done|done]. by injection Hx1 as _ <-.
Qed.
Lemma check_waiting_best fuel ht m : forall steps wait cm st st', check_waiting fuel ht steps m wait cm st = Ok st' -> same_best st st'.
Proof.
  induction fuel as [|fuel IH]; intros steps [|q wait] cm st st'; cbn [check_waiting]; [by intros [= <-]|done|by intros [= <-]|]. intros (e & _ & ([[have cm1] st1] & Hh & Hx)%res_bind_inv)%res_bind_inv.
  assert (same_best st st1) as Hs1 by (unfold haveInputs in Hh; destruct (IsCoinBase _); [by injection Hh as _ _ <-|by eapply fetch_all_best]). rw -Hs1. destruct have; cbn [negb] in Hx.
  - apply res_bind_inv in Hx as ([cm2 st2] & Hc & Hx). apply check_entry_coins_best in Hc. rw -Hc. by eapply IH.
  - cbv zeta in Hx. destruct (_ <=? _); [done|]. by eapply IH.
Qed.

(** *** The transactions of a block *)
Context (grow : nat -> nat -> nat) (drain : list (option TxErr) -> list (option TxErr)) (p : NetParams) (cv : ChainView).
Lemma bip30_best l : forall st st', bip30_txs l st = Ok st' -> same_best st st'.
Proof.
  assert (forall h n i st st', bip30_outs h n i st = Ok st' -> same_best st st') as Ho.
  { intros h n. induction n as [|n IH]; intros i st st'; cbn [bip30_outs]; [by intros [= <-]|]. intros ([b st1] & Hh & Hx)%res_bind_inv. apply HaveCoin_best in Hh. destruct b; [done|]. rw -Hh. by eapply IH. }
  induction l as [|t l IH]; intros st st'; cbn [bip30_txs]; [by intros [= <-]|]. intros (st1 & Hx1 & Hx)%res_bind_inv. apply Ho in Hx1. rw -Hx1. by apply IH.
Qed.
Lemma fetch_ins_best l : forall cm st cm' st', fetch_ins l cm st = Ok (cm', st') -> same_best st st'.
Proof.
  induction l as [|i l IH]; intros cm st cm' st'; cbn [fetch_ins]; [by intros [= _ <-]|]. intros ([[c cm1] st1] & Hf & Hx)%res_bind_inv. apply FetchCoin_best in Hf. rw -Hf. destruct (match c with None => true | Some c => IsSpent c end); [done|]. by eapply IH.
Qed.
Lemma GetBestBlock_best {E} st h st' : Hash_IsNull (hashBlock st) = false -> GetBestBlock (E := E) st = Ok (h, st') -> st' = st.
Proof. intros Hn. unfold GetBestBlock. rw Hn. by intros [= _ <-]. Qed.
Lemma apply_tx_best (magnetic check : bool) flags ht maxOps lockFlags t a a' : Hash_IsNull (hashBlock (ap_st a)) = false -> apply_tx grow drain cv magnetic check flags ht maxOps lockFlags t a = Ok a' -> same_best (ap_st a) (ap_st a').
Proof.
  intros Hn. unfold apply_tx. intros ([cm st] & Hf & Hx)%res_bind_inv. apply fetch_ins_best in Hf. apply res_bind_inv in Hx as ([ch ct] & _ & Hx). destruct (negb _); [done|]. apply res_bind_inv in Hx as (n & _ & Hx).
  destruct (_ <? _); [done|]. cbv zeta in Hx. destruct (_ <? _); [done|]. apply res_bind_inv in Hx as (vi & _ & (vo & _ & (st1 & Hs & Hx)%res_bind_inv)%res_bind_inv). apply res_bind_inv in Hx as ([cm2 un] & _ & Hx).
  assert (st1 = st) as ->.
  { destruct check; [|by injection Hs as <-]. destruct (checkInputs _ _ _ _ _ _ _) as [st2|e|] eqn:Ec; [|done|done]. injection Hs as <-. unfold checkInputs in Ec. apply res_bind_inv in Ec as ([h st3] & Hb & Ec).
    apply GetBestBlock_best in Hb as ->; [|by rw Hf]. cbv zeta in Ec. destruct (_ =? -1); [done|]. apply res_bind_inv in Ec as (? & _ & (? & _ & Ec)%res_bind_inv). by injection Ec as <-. }
  apply res_bind_inv in Hx as (cm3 & _ & Hx). by injection Hx as <-.
Qed.
Lemma ApplyBlockTransactions_best txs bip30 flags check subsidy height maxOps lockFlags mtp st cm undo st' : Hash_IsNull (hashBlock st) = false ->
  ApplyBlockTransactions grow drain p cv txs bip30 flags check subsidy height maxOps lockFlags mtp st = Ok (cm, undo, st') -> same_best st st'.
Proof.
  intros Hn. unfold ApplyBlockTransactions. intros (st1 & Hb & Hx)%res_bind_inv. assert (same_best st st1) as Hs1 by (destruct bip30; [by eapply bip30_best|by injection Hb as <-]). destruct txs as [|cb txs]; [done|]. cbv zeta in Hx.
  apply res_bind_inv in Hx as ([ops cm1] & _ & (a & Ha & (out & _ & Hx)%res_bind_inv)%res_bind_inv). destruct (_ <? out); [done|]. injection Hx as _ _ <-. rw -Hs1 in Hn |- *. clear Hb Hs1. revert Ha.
  change st1 with (ap_st (mkApply cm1 st1 ops 0 [])) in Hn |- * at 2. generalize (mkApply cm1 st1 ops 0 []) Hn. clear Hn. generalize (cb :: txs). intros l. induction l as [|t l IH]; intros a0 Hn; cbn [apply_txs]; [by intros [= <-]|].
  intros (a1 & Ha1 & Ha)%res_bind_inv. assert (same_best (ap_st a0) (ap_st a1)) as H1b by (destruct (IsCoinBase t); [by injection Ha1 as <-|by eapply apply_tx_best]). rw -H1b. apply IH; [by rw H1b|done].
Qed.
End Best.

(** ** Entries keep their transactions *)
Section Keep.
Context (Sha256 : bytes -> bytes) (range : gset nat -> list nat).
Definition same_e (h h' : eheap) : Prop := forall x, e_Tx <$> h' !! x = e_Tx <$> h !! x.
#[export] Instance same_e_preorder : PreOrder same_e.
Proof. split; [by intros h x|]. intros a b d Hab Hbd x. by rw Hbd. Qed.
(** The entries with their transactions, and the orphans. *)
Definition same_txs (m m' : TxMempool) : Prop := same_e (entries m) (entries m') /\ orphanPool m' = orphanPool m.
#[export] Instance same_txs_preorder : PreOrder same_txs.
Proof. split; [by intros m|]. intros a b d [Hab Ho] [Hbd Ho']. split; [by etrans|congruence]. Qed.

Lemma modify_same {E} f q h h' : (forall e, e_Tx (f e) = e_Tx e) -> modify (E := E) f q h = Ok h' -> same_e h h'.
Proof.
  intros Hf Hm x. unfold modify, eload in Hm. destruct (h !! q) as [e|] eqn:Eq; [|done]. injection Hm as <-.
  destruct (decide (q = x)) as [<-|]; [|by rw lookup_insert_ne]. rw lookup_insert_eq Eq. cbn. by rw Hf.
Qed.
Lemma modify_all_same {E} f l : (forall e, e_Tx (f e) = e_Tx e) -> forall h h', modify_all (E := E) f l h = Ok h' -> same_e h h'.
Proof.
  intros Hf. induction l as [|q l IH]; intros h h'; cbn [modify_all]; [by intros [= <-]|]. intros (h1 & Hx & Hm)%res_bind_inv. etrans; [by eapply modify_same|by apply IH].
Qed.
Lemma UpdateChildOfParents_same {E} q add h h' : UpdateChildOfParents (E := E) range q add h = Ok h' -> same_e h h'.
Proof. unfold UpdateChildOfParents. intros (e & _ & Hm)%res_bind_inv. by eapply modify_all_same in Hm. Qed.
Lemma updateAncestors_same {E} add e A h h' : updateAncestors (E := E) range add e A h = Ok h' -> same_e h h'.
Proof. unfold updateAncestors. intros Hm. by eapply modify_all_same in Hm. Qed.
Lemma cut_children_same {E} l : forall h h', cut_children (E := E) range l h = Ok h' -> same_e h h'.
Proof.
  induction l as [|q l IH]; intros h h'; cbn [cut_children]; [by intros [= <-]|]. intros (e & _ & (h1 & Hx & Hm)%res_bind_inv)%res_bind_inv.
  etrans; [by eapply modify_all_same in Hx|by apply IH].
Qed.
Lemma cut_parents_same {E} l : forall m m', cut_parents (E := E) Sha256 range l m = Ok m' -> same_txs m m'.
Proof.
  induction l as [|q l IH]; intros m m'; cbn [cut_parents]; [by intros [= <-]|]. intros (e & _ & Hm)%res_bind_inv.
  destruct (CalculateMemPoolAncestors _ _ _ _ _ _); [|by injection Hm as <-|done]. apply res_bind_inv in Hm as (h1 & H1h & (h2 & H2h & Hm)%res_bind_inv).
  etrans; [|by apply IH]. split; [|done]. etrans; [by eapply UpdateChildOfParents_same|by eapply updateAncestors_same].
Qed.
Lemma adjust_descendants_same {E} r l : forall m m', adjust_descendants (E := E) Sha256 r l m = Ok m' -> same_txs m m'.
Proof.
  induction l as [|d l IH]; intros m m'; cbn [adjust_descendants]; [by intros [= <-]|]. intros (m1 & Hx & Hm)%res_bind_inv. etrans; [|by apply IH]. clear Hm IH.
  unfold adjust_descendant in Hx. cbv zeta in Hx. apply res_bind_inv in Hx as (h1 & H1h & Hx). injection Hx as <-. split; [|done]. by eapply modify_same in H1h.
Qed.
Lemma adjust_all_same {E} l : forall m m', adjust_all (E := E) Sha256 range l m = Ok m' -> same_txs m m'.
Proof.
  induction l as [|q l IH]; intros m m'; cbn [adjust_all]; [by intros [= <-]|]. intros (D & _ & (e & _ & (m1 & Hx & Hm)%res_bind_inv)%res_bind_inv)%res_bind_inv.
  etrans; [by eapply adjust_descendants_same|by apply IH].
Qed.
Lemma delete_entries_same {E} l : forall m m', delete_entries (E := E) Sha256 l m = Ok m' -> same_txs m m'.
Proof.
  induction l as [|q l IH]; intros m m'; cbn [delete_entries]; [by intros [= <-]|]. intros (m1 & Hx & Hm)%res_bind_inv. etrans; [|by apply IH].
  unfold delTxentry in Hx. apply res_bind_inv in Hx as (e & _ & Hx). by injection Hx as <-.
Qed.
Lemma RemoveStaged_same {E} S b m m' : RemoveStaged (E := E) Sha256 range S b m = Ok m' -> same_txs m m'.
Proof.
  unfold RemoveStaged, updateForRemoveFromMempool. intros (m1 & (m2 & Ha & (h & Hc & Hp)%res_bind_inv)%res_bind_inv & Hd)%res_bind_inv.
  transitivity m2; [destruct b; [by eapply adjust_all_same|by injection Ha as <-]|]. transitivity (with_entries m2 h); [split; [by eapply cut_children_same|done]|].
  etrans; [by eapply cut_parents_same|by eapply delete_entries_same].
Qed.
Lemma removeTxRecursive_same {E} t m m' : removeTxRecursive (E := E) Sha256 range t m = Ok m' -> same_txs m m'.
Proof. unfold removeTxRecursive. intros (S & _ & (A & _ & Hm)%res_bind_inv)%res_bind_inv. by eapply RemoveStaged_same. Qed.
Lemma removeConflicts_same {E} h l : forall m m', removeConflicts_loop (E := E) Sha256 range h l m = Ok m' -> same_txs m m'.
Proof.
  induction l as [|o l IH]; intros m m'; cbn [removeConflicts_loop]; [by intros [= <-]|]. destruct (nextTx m !! o); [|apply IH]. intros (e & _ & (m1 & Hx & Hm)%res_bind_inv)%res_bind_inv.
  etrans; [|by apply IH]. case_bool_decide; [by injection Hx as <-|by eapply removeTxRecursive_same].
Qed.
Lemma RemoveTxSelf_same {E} now txs m m' : RemoveTxSelf (E := E) Sha256 range now txs m = Ok m' -> same_txs m m'.
Proof.
  unfold RemoveTxSelf. intros (m1 & Hb & Hm)%res_bind_inv. injection Hm as <-. transitivity m1; [|by split]. revert m m1 Hb.
  induction txs as [|t txs IH]; intros m m1; cbn [remove_block_txs]; [by intros [= <-]|]. intros (m2 & Hs & (m3 & Hc & Hm)%res_bind_inv)%res_bind_inv.
  etrans; [|by apply IH]. transitivity m2; [destruct (poolData m !! _); [by eapply RemoveStaged_same|by injection Hs as <-]|by eapply removeConflicts_same].
Qed.
Lemma expire_same {E} time m m' n : expire (E := E) Sha256 range time m = Ok (m', n) -> same_txs m m'.
Proof. unfold expire. intros (S & _ & (A & _ & (m1 & Hr & Hm)%res_bind_inv)%res_bind_inv)%res_bind_inv. injection Hm as <- _. by eapply RemoveStaged_same. Qed.

(** *** Loops *)
Lemma loop_keeps {S R : Type} (step : S -> S + R) (Inv : S -> Prop) (Post : R -> Prop) : (forall s, Inv s -> match step s with inl s' => Inv s' | inr r => Post r end) ->
  forall k s, Inv s -> match loop k step s with inl s' => Inv s' | inr r => Post r end.
Proof. intros Hs. induction k as [|k IH]; intros s Hi; cbn [loop]; [by apply Hs|]. specialize (IH s Hi) as Hk. destruct (loop k step s); [by apply IH|done]. Qed.
Lemma spent_same h h' o : same_e h h' -> spent_in h' o -> spent_in h o.
Proof. intros Hs (x & e & Hx & Ho). specialize (Hs x). rw Hx in Hs. destruct (h !! x) as [e0|] eqn:E0; [|done]. injection Hs as Hs. exists x, e0. by rw -Hs. Qed.
Lemma trim_step_same {E} limit m ret m' ret' : trim_step (E := E) Sha256 range limit (m, ret) = inl (m', ret') -> same_e (entries m) (entries m').
Proof.
  unfold trim_step. destruct (decide _); [done|]. destruct (usageSize m <=? limit); [done|]. cbv zeta. match goal with |- match ?x with _ => _ end = _ -> _ => destruct x as [s|e|] eqn:Ex; [|done|done] end.
  intros [= ->]. apply res_bind_inv in Ex as (x & _ & Ex). destruct (Container_Delete _ _ _) as [fees rem]. repeat (apply res_bind_inv in Ex as (? & _ & Ex)). destruct (negb _); [done|].
  apply res_bind_inv in Ex as (D & _ & (ts & _ & (m2 & Hr & Ex)%res_bind_inv)%res_bind_inv). injection Ex as <- _. apply RemoveStaged_same in Hr as [Hr _]. exact Hr.
Qed.
Lemma trimToSize_same {E} limit m m' ret : trimToSize (E := E) Sha256 range limit m = Ok (m', ret) -> same_txs m m' /\ forall o, o ∈ ret -> spent_in (entries m) o.
Proof.
  unfold trimToSize, run_loop. set (Inv := fun s : TxMempool * list OutPoint => same_txs m s.1 /\ forall o, o ∈ s.2 -> spent_in (entries m) o).
  pose proof (loop_keeps (trim_step (E := E) Sha256 range limit) Inv (fun r => match r with Ok s => Inv s | _ => True end)) as Hl.
  assert (forall s, Inv s -> match trim_step (E := E) Sha256 range limit s with inl s' => Inv s' | inr r => match r with Ok s => Inv s | _ => True end end) as Hst.
  { intros [m1 ret1] Hi. pose proof Hi as [[Hs1 Ho1] Hr1]. destruct (trim_step (E := E) Sha256 range limit (m1, ret1)) as [[m2 ret2]|r] eqn:Et.
    - pose proof (trim_step_same _ _ _ _ _ Et) as Hs2. apply trim_step_side in Et as [Hsd Hr2]. split; [split; cbn [fst]; [by etrans|unfold side in Hsd; cbn [fst] in Ho1; congruence]|].
      cbn [snd] in *. intros o [Ho|Ho]%Hr2; [by apply Hr1|by eapply spent_same].
    - unfold trim_step in Et. destruct (decide _); [by injection Et as <-|]. destruct (usageSize m1 <=? limit); [by injection Et as <-|]. cbv zeta in Et. destruct (_ ≫= _); [done|by injection Et as <-|by injection Et as <-]. }
  specialize (Hl Hst (S (size (poolData m))) (m, [])). assert (Inv (m, [])) as Hi by (split; [by split|by intros o ?%elem_of_nil]). specialize (Hl Hi).
  destruct (loop _ _ _) as [s|r]; [done|]. intros ->. exact Hl.
Qed.
Lemma AddTx_unlimited_same {E} m q e A m' : AddTx_unlimited (E := E) Sha256 range m q e A = Ok m' -> same_e (<[q := e]> (entries m)) (entries m') /\ orphanPool m' = orphanPool m.
Proof.
  unfold AddTx_unlimited. cbn [updateNextTx]. cbv zeta. intros (h1 & H1h & (h2 & H2h & (h3 & H3h & (e3 & _ & Hm)%res_bind_inv)%res_bind_inv)%res_bind_inv)%res_bind_inv. injection Hm as <-. split; [|done]. cbn [entries].
  transitivity h2; [|unfold updateEntryForAncestors in H3h; apply res_bind_inv in H3h as ([[? ?] ?] & _ & H3h); by eapply modify_same in H3h].
  transitivity h1; [|by eapply updateAncestors_same]. etrans; [|by eapply UpdateChildOfParents_same]. intros x. destruct (decide (q = x)) as [<-|]; [|by rw !lookup_insert_ne].
  rw !lookup_insert_eq. cbn. f_equal. clear. generalize (omap (fun k => <[entry_hash Sha256 e := q]> (poolData m) !! k) (elements (list_to_set (PrevoutHashs (e_Tx e)) : gset bytes))). intros l. revert e. induction l as [|x l IH]; intros e; [done|]. cbn [foldl]. by rw IH.
Qed.
End Keep.

(** ** The coins *)
Section Tame.
Context `{Secp256k1} `{!SecpCompression} `{LruCache} `{!LruLaws} `{Hashes}.
Context (T : gset OutPoint) (HT : (size T <= lru_capacity)%nat) (U : gmap OutPoint Coin).
Context (grow : nat -> nat -> nat) (drain : list (option TxErr) -> list (option TxErr)) (Hdrain : forall l, drain l ≡ₚ l).
Context (range : gset nat -> list nat) (Hrange : forall X, range X ≡ₚ elements X).
Context (range_orphans : gmap bytes OrphanTx -> list OrphanTx) (Horphans : forall s, range_orphans s ≡ₚ map snd (map_to_list s)).
Context (sizeof_TxEntry overflow : Z).
Context (p : ForkParams) (conf : PoolConfig) (c : Chain) (now adjusted second : Z).
(** The hash of the best block is known, so it is never read again. *)
Context (best : bytes) (Hbest : Hash_IsNull best = false).
Definition shows (st : CoinsLruCache) : Prop := cache_ok T st U /\ hashBlock st = best.
#[local] Instance shows_view : CoinView T U shows.
Proof.
  pose proof (clean_view T HT U) as [Hg Hb]. split.
  - intros E st op [Hc Hh] Hw Ho. destruct (Hg E st op Hc Hw Ho) as (c0 & st' & Hgc & Hc' & Hs). exists c0, st'. split_and!; [done|split; [done|]|done]. by rw (GetCoin_best _ _ _ _ Hgc).
  - intros E st h st' [Hc Hh] Hgb. apply GetBestBlock_best in Hgb as ->; [by split|by rw Hh].
Qed.

(** A transaction whose outpoints fit the cache. *)
Definition known_tx : Tx -> Prop := offered_tx T ∅.
Definition known_pool (m : TxMempool) : Prop := (forall x e, entries m !! x = Some e -> known_tx (e_Tx e)) /\ offered_orphans T ∅ (orphanPool m).
Definition tame (n : node) : Prop := shows (n_view n) /\ known_pool (n_pool n).

Lemma known_same h h' : same_e h h' -> (forall x e, h !! x = Some e -> known_tx (e_Tx e)) -> forall x e, h' !! x = Some e -> known_tx (e_Tx e).
Proof. intros Hs Hk x e Hx. specialize (Hs x). rw Hx in Hs. destruct (h !! x) as [e0|] eqn:E0; [|done]. injection Hs as ->. by apply (Hk x). Qed.
Lemma known_pool_same m m' : same_txs m m' -> known_pool m -> known_pool m'.
Proof. intros [Hs Ho] [Hk Hp]. split; [by eapply known_same|by rw Ho]. Qed.
Lemma known_new : known_pool NewTxMempool.
Proof. split; [intros x e Hx; by rw lookup_empty in Hx|]. split; [intros h x Hx; by rw lookup_empty in Hx|]. intros prev h x (s & Hs & _). by rw lookup_empty in Hs. Qed.

Lemma LimitMempoolSize_tame {E} sizeLimit age m st m' st' : shows st -> known_pool m ->
  LimitMempoolSize (E := E) Sha256 range now sizeLimit age m st = Ok (m', st') -> shows st' /\ known_pool m'.
Proof.
  intros [Hc Hh] Hk. unfold LimitMempoolSize. intros ([m1 k] & He & ([m2 os] & Ht & (st1 & Hr & Hm)%res_bind_inv)%res_bind_inv)%res_bind_inv. injection Hm as <- <-.
  apply expire_same in He. pose proof (known_pool_same _ _ He Hk) as Hk1. apply trimToSize_same in Ht as [Ht Hos]. split; [|by eapply known_pool_same].
  split; [|by rw (remove_coins_best _ _ _ Hr)]. eapply (remove_coins_clean T HT U drain Hdrain range Hrange range_orphans Horphans); [exact Hc| |exact Hr]. intros o Ho. destruct (Hos o Ho) as (x & e & Hx & Hoe). exact (of_ins _ _ _ (proj1 Hk1 x e Hx) o Hoe).
Qed.
Lemma add_entry_tame e : known_tx (e_Tx e) -> steady tame (add_entry range conf now e).
Proof.
  intros He n [Hc [Hk Ho]]. unfold add_entry. destruct (addTxToMemPool _ _ _ _ _ _ _ _ _ _) as [[m st]|x|] eqn:Ea; [|by split|done]. unfold addTxToMemPool, AddTx in Ea.
  apply res_bind_inv in Ea as (A & _ & (m1 & Hadd & Hl)%res_bind_inv). apply AddTx_unlimited_same in Hadd as [Hs Ho1].
  eapply LimitMempoolSize_tame in Hl as [Hc2 Hk2]; [by split|done|]. split; [|by rw Ho1]. eapply known_same; [exact Hs|]. intros x e0.
  destruct (decide (fresh (dom (entries (n_pool n))) = x)) as [<-|]; [rw lookup_insert_eq; by intros [= <-]|rw lookup_insert_ne //; apply Hk].
Qed.
Lemma NewTxentry_tx {E} t fee time ht lp ops cb e : NewTxentry (E := E) sizeof_TxEntry t fee time ht lp ops cb = Ok e -> e_Tx e = t.
Proof. unfold NewTxentry. intros (sz & _ & He)%res_bind_inv. by injection He as <-. Qed.
Lemma accept_tame t : known_tx t -> steady tame (AcceptTxToMemPool grow drain range sizeof_TxEntry overflow p conf c now adjusted t).
Proof.
  intros Ht n [Hc [Hk Ho]]. pose proof Ht as [Hwf Hh Hin Hout _].
  assert (forall j, 0 <= j < Z.of_nat (length (outs t)) -> wf_outpoint (mkOutPoint (txid Sha256 t) (u32 j)) /\ mkOutPoint (txid Sha256 t) (u32 j) ∈ T) as Ho2.
  { intros j Hj. split; [|by apply Hout]. destruct Hh as [? ?]. split_and!; [done|done|apply u32_range]. }
  pose proof (CheckTx_sound T HT U shows grow drain Hdrain sizeof_TxEntry overflow p conf c now adjusted t n Hwf Hc Hin Ho2) as Hs. unfold sound_by in Hs. unfold AcceptTxToMemPool, mbind, acc_bind.
  assert (forall n1, stays_by shows rolled n n1 -> tame n1) as Hst.
  { intros n1 [Hv1 (r & u & Hp)]. split; [done|]. rw Hp. by split. }
  destruct (CheckTxBeforeAcceptToMemPool _ _ _ _ _ _ _ _ _ t n) as [n1 [e|x|]]; [|by apply Hst|done]. destruct Hs as [Hs1 Hck]. apply add_entry_tame; [|by apply Hst].
  by rw (ck_tx _ _ _ _ _ _ _ _ _ _ _ Hck).
Qed.
Lemma tame_inv : NodeInv T ∅ grow drain range sizeof_TxEntry overflow p conf c now adjusted tame.
Proof. split; [exact accept_tame|by intros n [_ [_ Ho]]|]. intros m st o [Hc [Hk _]] Ho. by split. Qed.

(** *** The self-check *)
Lemma check_entry_tame ht q s s' : shows (ch_view s) -> known_pool (ch_pool s) -> check_entry range ht q s = Ok (Some s') ->
  shows (ch_view s') /\ same_txs (ch_pool s) (ch_pool s').
Proof.
  intros [Hc Hb] [Hk Ho]. unfold check_entry. cbv zeta. intros (e & He & Hx)%res_bind_inv. unfold eload in He. destruct (entries (ch_pool s) !! q) as [e0|] eqn:E0; [|done]. injection He as ->.
  pose proof (of_ins _ _ _ (Hk q e E0)) as Hin. apply res_bind_inv in Hx as ([[w ps] st] & Hpv & Hx).
  pose proof (check_prevouts_best _ _ _ _ _ _ _ _ Hpv) as Hb1. apply (check_prevouts_view T HT U grow drain Hdrain range Hrange range_orphans Horphans) in Hpv; [|done|done]. destruct (negb _); [done|].
  destruct (CalculateMemPoolAncestors Sha256 range (ch_pool s) (e_Tx e) noLimit true) as [A|x|]; [|done|done]. apply res_bind_inv in Hx as ([[sz fees] ops] & _ & Hx).
  set (e' := correct_sums _ _ _ _ e) in Hx. assert (same_txs (ch_pool s) (with_entries (ch_pool s) (<[q := e']> (entries (ch_pool s))))) as Hsame.
  { split; [|done]. intros x. cbn [entries with_entries]. destruct (decide (q = x)) as [<-|]; [by rw lookup_insert_eq E0|by rw lookup_insert_ne]. }
  apply res_bind_inv in Hx as ([ch cs] & _ & Hx). destruct (negb _); [done|]. destruct (_ <? _); [done|]. destruct w; [injection Hx as <-; split; [|done]; split; [done|by rw /= Hb1]|].
  apply res_bind_inv in Hx as ([cm2 st2] & Hcc & Hx). injection Hx as <-. split; [|done]. split; cbn [ch_view]; [|by rw (check_entry_coins_best _ _ _ _ _ _ Hcc) Hb1]. by eapply (check_entry_coins_view T HT U drain Hdrain range Hrange range_orphans Horphans).
Qed.
Lemma check_entries_tame ht l : forall s s', shows (ch_view s) -> known_pool (ch_pool s) -> check_entries range ht l s = Ok (Some s') ->
  shows (ch_view s') /\ same_txs (ch_pool s) (ch_pool s').
Proof.
  induction l as [|q l IH]; intros s s' Hc Hk; cbn [check_entries]; [by intros [= <-]|]. intros ([s1|] & Hx & Hm)%res_bind_inv; [|done].
  destruct (check_entry_tame ht q s s1 Hc Hk Hx) as [Hc1 Hs1]. destruct (IH s1 s' Hc1 (known_pool_same _ _ Hs1 Hk) Hm) as [Hc2 Hs2]. split; [done|by etrans].
Qed.
Lemma CheckMempool_tame freq rand ht order : steady tame (CheckMempool range freq rand ht order).
Proof.
  intros n Hn. pose proof Hn as [Hc Hk]. unfold CheckMempool. destruct (_ || _); [done|]. cbv zeta. destruct (check_entries range (i32 (ht + 1)) order _) as [[s|]|x|] eqn:Ec; [|done|done|done].
  apply check_entries_tame in Ec as [Hc1 Hs1]; [|done|done]. cbn [ch_pool] in Hs1. pose proof (known_pool_same _ _ Hs1 Hk) as Hk1. destruct (check_waiting _ _ _ _ _ _ _) as [st|x|] eqn:Ew; [|done|done].
  pose proof (check_waiting_best _ _ _ _ _ _ _ _ Ew) as Hb2. destruct Hc1 as [Hc1 Hb1]. apply (check_waiting_view T HT U drain Hdrain range Hrange range_orphans Horphans) in Ew; [|intros x e Hx; exact (of_ins _ _ _ (proj1 Hk1 x e Hx))|done].
  destruct (check_next (ch_pool s)); [|done|done]. destruct (_ =? _); [|done]. split; [|done]. split; [done|]. cbn [n_view]. by rw Hb2.
Qed.
Lemma RemoveForReorg_tame freq rand ht order check_order : Forall known_tx order ->
  steady tame (RemoveForReorg grow drain range range_orphans sizeof_TxEntry overflow p conf c now adjusted second freq rand ht order check_order).
Proof.
  intros Hl n [Hc Hk]. pose proof tame_inv as Hinv. unfold RemoveForReorg. unfold mbind at 1, acc_bind at 1, set_pool at 1. assert (tame (mkNode _ NewTxMempool (n_view n))) as Hnew by (split; [done|apply known_new]).
  revert Hnew. generalize (mkNode _ NewTxMempool (n_view n)). change (steady tame (all ← readd grow drain range range_orphans sizeof_TxEntry overflow p conf c now adjusted second order;
    if (all : bool) then m ← pool_of id; set_pool (with_orphans m (CleanOrphan (orphanPool m)));; CheckMempool range freq rand (i32 (ht - 1)) (check_order m) else mret tt)).
  apply (steady_bind tame); [by apply (steady_readd T HT ∅ grow drain Hdrain range Hrange range_orphans Horphans sizeof_TxEntry overflow p conf c now adjusted second tame)|].
  intros [|]; [|by intros n1]. intros n1 [Hc1 [Hk1 Ho1]]. cbv beta iota delta [mbind acc_bind pool_of set_pool id]. apply CheckMempool_tame. split; [done|]. split; [done|].
  split; [intros h x Hx; by rw lookup_empty in Hx|]. intros prev h x (s & Hs & _). by rw lookup_empty in Hs.
Qed.
End Tame.
