(* ===== verification/Lchain.v ===== *)
(** * Activating the best chain (logic/lchain)

    A block is connected to the tip of the active chain by applying its transactions to
    the coins, writing its undo data and moving the tip; the tip is disconnected by reading
    the block and its undo data back.  ActivateBestChain disconnects down to the fork with
    the chain of most work and connects from there.  The state is the block tree, the
    cache of coins, the memory pool and what is on disk.  Clocks, free space, the
    configuration and the orders in which Go walks maps are parameters; notifications,
    statistics and log messages are not represented. *)
From S2P Require Import Prelude Errors Wire ScriptNum Opcodes Script ScriptFacts Tx TxFacts Crypto Compress Coins Block Undo.
From S2P Require Import Stack Slice Interp Ltx BlockIndex Chain Merkle Pow Lblock Mempool Accept Lmempool Disk BlkDB.

Inductive ChainErr :=
| BlockInvalid (e : BlockErr)
| DiskFailed (e : DiskErr)
| FailedToReadBlock
| DisconnectTipUndoFailed.

Record chain_state `{LruCache} := mkCS {
  s_chain : Chain;
  s_view : CoinsLruCache;
  s_pool : TxMempool;
  s_persist : Persist;
  shutdownScheduled : bool }.
(** The state survives an error. *)
Definition lc `{LruCache} (A : Type) : Type := chain_state -> chain_state * res ChainErr A.
#[export] Instance lc_ret `{LruCache} : MRet lc := fun A a s => (s, Ok a).
#[export] Instance lc_bind `{LruCache} : MBind lc := fun A B f m s =>
  match m s with
  | (s, Ok a) => f a s
  | (s, Err e) => (s, Err e)
  | (s, Panic) => (s, Panic)
  end.
Section State.
Context `{LruCache}.
Definition lc_fail {A} (e : ChainErr) : lc A := fun s => (s, Err e).
Definition lc_crash {A} : lc A := fun s => (s, Panic).
Definition lc_get {A} (f : chain_state -> A) : lc A := fun s => (s, Ok (f s)).
(** A computation that has no error to return. *)
Definition lc_pure {A} (r : res Empty_set A) : lc A := fun s => (s, match r with Ok a => Ok a | Err e => match e with end | Panic => Panic end).
Definition put_chain (c : Chain) : lc unit := fun s => (mkCS _ c (s_view s) (s_pool s) (s_persist s) (shutdownScheduled s), Ok tt).
Definition put_view (v : CoinsLruCache) : lc unit := fun s => (mkCS _ (s_chain s) v (s_pool s) (s_persist s) (shutdownScheduled s), Ok tt).
Definition put_pool (m : TxMempool) : lc unit := fun s => (mkCS _ (s_chain s) (s_view s) m (s_persist s) (shutdownScheduled s), Ok tt).
Definition put_persist (g : Persist) : lc unit := fun s => (mkCS _ (s_chain s) (s_view s) (s_pool s) g (shutdownScheduled s), Ok tt).
Definition put_shutdown (b : bool) : lc unit := fun s => (mkCS _ (s_chain s) (s_view s) (s_pool s) (s_persist s) b, Ok tt).
Definition of_block {A} (r : res BlockErr A) : lc A := fun s => (s, match r with Ok a => Ok a | Err e => Err (BlockInvalid e) | Panic => Panic end).
Definition of_disk {A} (r : res DiskErr A) : lc A := fun s => (s, match r with Ok a => Ok a | Err e => Err (DiskFailed e) | Panic => Panic end).
(** The state after a call and its error, [None] for nil. *)
Definition lc_attempt {A} (m : lc A) : lc (A + ChainErr) := fun s =>
  match m s with
  | (s, Ok a) => (s, Ok (inl a))
  | (s, Err e) => (s, Ok (inr e))
  | (s, Panic) => (s, Panic)
  end.
(** Code that works on the pool and the coins; [None] when it returns an error. *)
Definition on_node {A} (m : acc A) : lc (option A) := fun s =>
  match m (mkNode _ (s_pool s) (s_view s)) with
  | (n, r) =>
      (mkCS _ (s_chain s) (n_view n) (n_pool n) (s_persist s) (shutdownScheduled s),
       match r with Ok a => Ok (Some a) | Err _ => Ok None | Panic => Panic end)
  end.
(** The write to an index. *)
Definition upd_index (q : nat) (f : BlockIndex -> BlockIndex) : lc unit :=
  c ← lc_get s_chain; b ← lc_pure (bload (c_heap c) q);
  put_chain (with_heap c (<[q := f b]> (c_heap c))).
End State.

Section Lchain.
Context `{Secp256k1} `{LruCache} `{Hashes}.
Context (grow : nat -> nat -> nat) (drain : list (option TxErr) -> list (option TxErr)).
Context (range_coins : gmap OutPoint Coin -> list (OutPoint * Coin)).
Context (range : gset nat -> list nat) (range_orphans : gmap bytes OrphanTx -> list OrphanTx).
Context (sizeof_TxEntry overflow : Z).
Context (params : PowParams) (conf : PoolConfig) (Excessiveblocksize minimumChainWork : Z).
Context (HashAssumeValid BIP34Hash : bytes).
(** The clocks, and the free space of the disk. *)
Context (now adjusted second nano free : Z).
Context (checkFrequency rand : Z) (check_order : TxMempool -> list nat) (tx_order : TxMempool -> list Tx) (StopAtHeight : Z).
Abbreviation p := (pp_forks params).
Definition mempoolSizeMax : Z := 300 * 1000000.

Definition index_hash (q : nat) : lc bytes := c ← lc_get s_chain; mret (hash_of Sha256 (c_heap c) q).
Definition dirty_index (q : nat) : lc unit :=
  hash ← index_hash q; g ← lc_get s_persist; put_persist (AddDirtyBlockIndex hash q g).
Definition flush (mode : FlushStateMode) : lc unit :=
  c ← lc_get s_chain; g ← lc_get s_persist; v ← lc_get s_view; m ← lc_get s_pool;
  '(g, v) ← lc_pure (FlushStateToDisk range_coins free nano mode (usageSize m) mempoolSizeMax (c_heap c) g v);
  put_persist g;; put_view v.

(** ** Connecting a block (lchain.go) *)
(** The two blocks whose coinbases repeat older ones, as the bytes of their hashes. *)
Definition bip30_exception (height : Z) (hash : bytes) : bool :=
  ((height =? 91842) && bool_decide (hash = [236; 202; 224; 0; 227; 200; 228; 224; 147; 147; 99; 96; 67; 31; 59; 118; 3; 197; 99; 193; 255; 97; 129; 57; 10; 77; 10; 0; 0; 0; 0; 0])) ||
  ((height =? 91880) && bool_decide (hash = [33; 215; 124; 203; 76; 8; 56; 106; 4; 172; 1; 150; 174; 16; 246; 161; 210; 194; 163; 119; 85; 140; 161; 144; 241; 67; 7; 0; 0; 0; 0; 0])).
Definition script_checks {E : Type} (c : Chain) (q : nat) : res E bool :=
  if bool_decide (HashAssumeValid = HashZero) then Ok true
  else
    match FindBlockIndex c HashAssumeValid with
    | None => Ok true
    | Some bi =>
        b ← bload (c_heap c) q;
        a ← GetAncestor (c_heap c) bi (bi_Height b);
        if negb (bool_decide (a = Some q)) then Ok true
        else
          best ← deref (pindexBestHeader c);
          a ← GetAncestor (c_heap c) best (bi_Height b);
          bb ← bload (c_heap c) best;
          if bool_decide (a = Some q) && (minimumChainWork <=? bi_ChainWork bb) then
            t ← GetBlockProofEquivalentTime params bb b bb; Ok (t <=? 60 * 60 * 24 * 7 * 2)
          else Ok true
    end.
Definition bip30_enabled {E : Type} (c : Chain) (q pre : nat) (blockHash : bytes) : res E bool :=
  b ← bload (c_heap c) q;
  at34 ← GetAncestor (c_heap c) pre (BIP34Height (fp_net p));
  let bip34Enable := match at34 with None => false | Some a => bool_decide (hash_of Sha256 (c_heap c) a = BIP34Hash) end in
  Ok (negb (bip30_exception (bi_Height b) blockHash) && negb bip34Enable).
(** The undo data, when the block has none on disk yet. *)
Definition write_undo (q pre : nat) (blockUndo : BlockUndo) : lc unit :=
  c ← lc_get s_chain;
  b ← lc_pure (bload (c_heap c) q);
  let undoPos := of_pos (GetUndoPos b) in
  if Pos_IsNull undoPos || negb (BlockIndex_IsValid BlockValidScripts b) then
    (if Pos_IsNull undoPos then
       size ← lc_pure (BlockUndo_SerializeSize blockUndo);
       g ← lc_get s_persist;
       '(pos, d) ← of_disk (FindUndoPos free (bi_File b) (size + 36) (p_disk g));
       put_persist (with_disk d g);;
       hash ← index_hash pre;
       d ← of_disk (UndoWriteToDisk blockUndo pos hash d);
       g ← lc_get s_persist;
       put_persist (with_disk d g);;
       upd_index q (fun b => AddStatus BlockHaveUndo
         (mkBI (bi_Header b) (bi_blockHash b) (bi_Prev b) (bi_Skip b) (bi_Height b) (bi_File b) (bi_DataPos b) (pos_Pos pos) (bi_ChainWork b)
            (bi_TxCount b) (bi_ChainTxCount b) (bi_Status b) (bi_SequenceID b) (bi_TimeMax b)))
     else mret tt);;
    upd_index q (fun b => (RaiseValidity BlockValidScripts b).2);;
    dirty_index q
  else mret tt.
(** The coins that change; the block is marked as checked.  When there is an error, the
    coins that were read into the cache on the way are left out of the state. *)
Definition ConnectBlock (pblock : Block) (q : nat) (fJustCheck : bool) : lc (Block * CoinsMap) :=
  pblock ← of_block (CheckBlock params Excessiveblocksize pblock true true);
  c ← lc_get s_chain;
  b ← lc_pure (bload (c_heap c) q);
  let hashPrevBlock := match bi_Prev b with None => HashZero | Some pre => hash_of Sha256 (c_heap c) pre end in
  v ← lc_get s_view;
  '(best, v) ← lc_pure (GetBestBlock v);
  put_view v;;
  if negb (bool_decide (hashPrevBlock = default HashZero best)) then lc_crash
  else
    let blockHash := Block_GetHash Sha256 pblock in
    if bool_decide (blockHash = GenesisHash p) then mret (pblock, ∅)
    else
      fScriptChecks ← lc_pure (script_checks c q);
      pre ← lc_pure (deref (bi_Prev b));
      bip30Enable ← lc_pure (bip30_enabled c q pre blockHash);
      let lockTimeFlags := if CSVHeight p <=? bi_Height b then LocktimeVerifySequence else 0 in
      flags ← lc_pure (GetBlockScriptFlags p c pre);
      let '(size, pblock) := Block_SerializeSize pblock in
      match GetMaxBlockSigOpsCount (u64 size) with
      | None => lc_fail (BlockInvalid (BadBlock (PlainError "block size should greater than 1")))
      | Some maxSigOps =>
          cv ← lc_pure (chain_view c);
          mtp ← lc_pure (GetMedianTimePast (c_heap c) (Some q));
          '(coinsMap, blockUndo, v) ← of_block (of_tx (ApplyBlockTransactions grow drain (fp_net p) cv (Txs pblock) bip30Enable flags fScriptChecks
             (GetBlockSubsidy (bi_Height b) (fp_net p)) (bi_Height b) maxSigOps (u32 lockTimeFlags) mtp v));
          put_view v;;
          (if fJustCheck then mret tt else write_undo q pre blockUndo);;
          just ← lc_pure (IsReplayProtectionJustEnabled p (c_heap c) q);
          (if (just : bool) then put_pool NewTxMempool else mret tt);;
          mret (pblock, if fJustCheck then ∅ else coinsMap)
      end.
Definition InvalidBlockFound (q : nat) : lc unit :=
  upd_index q (AddStatus BlockFailed);;
  c ← lc_get s_chain; put_chain (RemoveFromBranch Sha256 c q);;
  dirty_index q.
Definition InvalidBlockParentFound (q : nat) : lc unit :=
  upd_index q (AddStatus BlockFailedParent);;
  c ← lc_get s_chain; put_chain (RemoveFromBranch Sha256 c q);;
  dirty_index q.

(** The log message reads the new tip, which must not be nil. *)
Definition UpdateTip (q : option nat) : lc unit :=
  c ← lc_get s_chain;
  c ← lc_pure (SetTip now minimumChainWork c q);
  put_chain c;;
  lc_pure (deref (tip c));;
  mret tt.
Definition read_block (q : nat) : lc Block :=
  c ← lc_get s_chain; g ← lc_get s_persist;
  b ← lc_pure (bload (c_heap c) q);
  r ← lc_pure (ReadBlockFromDisk params b (p_disk g));
  match r with None => lc_fail FailedToReadBlock | Some blk => mret blk end.
Definition ConnectTip (q : nat) (block : option Block) : lc unit :=
  c ← lc_get s_chain;
  b ← lc_pure (bload (c_heap c) q);
  if negb (bool_decide (bi_Prev b = tip c)) then lc_crash
  else
    blk ← (match block with Some blk => mret blk | None => read_block q end);
    r ← lc_attempt (ConnectBlock blk q false);
    match r with
    | inr e => InvalidBlockFound q;; lc_fail e
    | inl (blk, view) =>
        v ← lc_get s_view;
        v ← lc_pure (UpdateCoins range_coins v view (Block_GetHash Sha256 blk));
        put_view v;;
        flush FlushStateAlways;;
        m ← lc_get s_pool;
        m ← lc_pure (RemoveTxSelf Sha256 range now (Txs blk) m);
        put_pool m;;
        UpdateTip (Some q)
    end.

(** ** Disconnecting a block *)
Definition DisconnectBlock (pblock : Block) (q : nat) : lc (DisconnectResult * CoinsMap) :=
  c ← lc_get s_chain;
  b ← lc_pure (bload (c_heap c) q);
  v ← lc_get s_view;
  '(best, v) ← lc_pure (GetBestBlock v);
  put_view v;;
  if negb (bool_decide (hash_of Sha256 (c_heap c) q = default HashZero best)) then lc_crash
  else
    let pos := of_pos (GetUndoPos b) in
    if Pos_IsNull pos then mret (DisconnectFailed, ∅)
    else
      pre ← lc_pure (deref (bi_Prev b));
      g ← lc_get s_persist;
      r ← lc_pure (UndoReadFromDisk pos (hash_of Sha256 (c_heap c) pre) (p_disk g));
      match r with
      | None => mret (DisconnectFailed, ∅)
      | Some blockUndo =>
          '(r, cm, v) ← lc_pure (ApplyBlockUndo range_coins Sha256 blockUndo pblock ∅ v (bi_Height b));
          put_view v;;
          mret (r, cm)
      end.
(** What becomes of the transactions of a block that is disconnected. *)
Fixpoint resurrect (txs : list Tx) : lc unit :=
  match txs with
  | [] => mret tt
  | t :: txs =>
      kept ← (if IsCoinBase t then mret None
              else c ← lc_get s_chain;
                   on_node (AcceptTxToMemPool grow drain range sizeof_TxEntry overflow p conf c now adjusted t));
      (match kept with
       | Some _ => mret tt
       | None => m ← lc_get s_pool; m ← lc_pure (removeTxRecursive Sha256 range t m); put_pool m
       end);;
      resurrect txs
  end.
Definition DisconnectTip (fBare : bool) : lc unit :=
  c ← lc_get s_chain;
  q ← lc_pure (deref (tip c));
  blk ← read_block q;
  b ← lc_pure (bload (c_heap c) q);
  '(r, view) ← DisconnectBlock blk q;
  if negb (bool_decide (r = DisconnectOk)) then lc_fail DisconnectTipUndoFailed
  else
    v ← lc_get s_view;
    v ← lc_pure (UpdateCoins range_coins v view (HashPrevBlock (Header blk)));
    v ← lc_pure (Flush range_coins v);
    put_view v;;
    flush FlushStateIfNeeded;;
    replay ← lc_pure (IsReplayProtectionJustEnabled p (c_heap c) q);
    magnetic ← (if (replay : bool) then mret true else lc_pure (IsMagneticAnomalyJustEnabled p (c_heap c) q));
    (if (magnetic : bool) then put_pool NewTxMempool else mret tt);;
    UpdateTip (bi_Prev b);;
    (if fBare then mret tt else resurrect (Txs blk)).

(** ** The best chain (lactivechain.go) *)
(** What a loop does that has used up its bound; whatever it is, it is never done
    (ActivateBestChain_ends in LchainTheorems.v). *)
Context (stuck : forall A : Type, lc A).
(** Down to the fork; the height of the tip bounds the number of rounds. *)
Fixpoint disconnect_to (fuel : nat) (fork : option nat) (fBlocksDisconnected : bool) : lc bool :=
  c ← lc_get s_chain;
  if bool_decide (tip c = None) || bool_decide (tip c = fork) then mret fBlocksDisconnected
  else match fuel with O => stuck _ | S fuel => DisconnectTip false;; disconnect_to fuel fork true end.
(** The indexes above [nHeight] on the way to [q], the highest first. *)
Fixpoint to_connect (fuel : nat) (h : bheap) (q : option nat) (nHeight : Z) : lc (list nat) :=
  match q with
  | None => mret []
  | Some q =>
      b ← lc_pure (bload h q);
      if bi_Height b =? nHeight then mret []
      else match fuel with O => stuck _ | S fuel => l ← to_connect fuel h (bi_Prev b) nHeight; mret (q :: l) end
  end.
(** The result tells whether the chain has become better than the old one. *)
Fixpoint connect_all (l : list nat) (mostWork : nat) (pblock : option Block) (oldTip : option nat) : lc bool :=
  match l with
  | [] => mret false
  | q :: l =>
      ConnectTip q (if decide (q = mostWork) then pblock else None);;
      c ← lc_get s_chain;
      t ← lc_pure (deref (tip c)); tb ← lc_pure (bload (c_heap c) t);
      better ← (match oldTip with
                | None => mret true
                | Some o => ob ← lc_pure (bload (c_heap c) o); mret (bi_ChainWork ob <? bi_ChainWork tb)
                end);
      if (better : bool) then mret true else connect_all l mostWork pblock oldTip
  end.
Fixpoint connect_from (fuel : nat) (nHeight : Z) (mostWork : nat) (pblock : option Block) (oldTip : option nat) : lc unit :=
  c ← lc_get s_chain;
  mb ← lc_pure (bload (c_heap c) mostWork);
  if nHeight =? bi_Height mb then mret tt
  else match fuel with
  | O => stuck _
  | S fuel =>
      let nTargetHeight := if i32 (nHeight + 32) <? bi_Height mb then i32 (nHeight + 32) else bi_Height mb in
      a ← lc_pure (GetAncestor (c_heap c) mostWork nTargetHeight);
      l ← to_connect (Z.to_nat (bi_Height mb + 1)) (c_heap c) a nHeight;
      better ← connect_all (reverse l) mostWork pblock oldTip;
      if (better : bool) then mret tt else connect_from fuel nTargetHeight mostWork pblock oldTip
  end.
Definition ActivateBestChainStep (mostWork : nat) (pblock : option Block) : lc unit :=
  c ← lc_get s_chain;
  let pindexOldTip := tip c in
  pindexFork ← lc_pure (FindFork c (Some mostWork));
  fBlocksDisconnected ← disconnect_to (S (length (active c))) pindexFork false;
  mb ← lc_pure (bload (c_heap c) mostWork);
  nHeight ← (match pindexFork with None => mret (-1) | Some f => fb ← lc_pure (bload (c_heap c) f); mret (bi_Height fb) end);
  connect_from (S (Z.to_nat (bi_Height mb))) nHeight mostWork pblock pindexOldTip;;
  c ← lc_get s_chain;
  (if (fBlocksDisconnected : bool) then
     t ← lc_pure (deref (tip c)); tb ← lc_pure (bload (c_heap c) t); m ← lc_get s_pool;
     on_node (RemoveForReorg grow drain range range_orphans sizeof_TxEntry overflow p conf c now adjusted second checkFrequency rand (i32 (bi_Height tb + 1)) (tx_order m) check_order);;
     mret tt
   else mret tt);;
  ht ← lc_pure (Chain_Height c);
  m ← lc_get s_pool;
  on_node (CheckMempool range checkFrequency rand ht (check_order m));;
  mret tt.
Definition stopAtHeightIfNeed (currentHeight : Z) : lc unit :=
  if negb (StopAtHeight =? -1) && (StopAtHeight =? currentHeight) then put_shutdown true else mret tt.
(** The rounds after the first each raise the tip. *)
Fixpoint activate (fuel : nat) (pblock : option Block) (mostWork : option nat) : lc unit :=
  stop ← lc_get shutdownScheduled;
  let finish : lc unit :=
    flush FlushStatePeriodic;;
    c ← lc_get s_chain; t ← lc_pure (deref (tip c)); tb ← lc_pure (bload (c_heap c) t);
    stopAtHeightIfNeed (bi_Height tb) in
  if (stop : bool) then finish
  else
    c ← lc_get s_chain;
    let mostWork := match mostWork with None => FindMostWorkChain c | _ => mostWork end in
    match mostWork with
    | None => mret tt
    | Some q =>
        if bool_decide (mostWork = tip c) then mret tt
        else
          qb ← lc_pure (bload (c_heap c) q);
          worse ← (match tip c with None => mret false | Some t => tb ← lc_pure (bload (c_heap c) t); mret (bi_ChainWork qb <=? bi_ChainWork tb) end);
          if (worse : bool) then mret tt
          else match fuel with
          | O => stuck _
          | S fuel =>
              let tmpBlock := match pblock with
                              | Some blk => if bool_decide (Block_GetHash Sha256 blk = hash_of Sha256 (c_heap c) q) then Some blk else None
                              | None => None end in
              ActivateBestChainStep q tmpBlock;;
              c ← lc_get s_chain;
              if bool_decide (tip c = Some q) then finish else activate fuel pblock (Some q)
          end
    end.
Definition ActivateBestChain (pblock : option Block) : lc unit :=
  c ← lc_get s_chain;
  activate (S (size (c_heap c))) pblock None.

(** ** The first block (InitGenesisChain) *)
(** The block is stored as in lblock.WriteBlockToDisk, with the same two errors. *)
Definition InitGenesisChain (genesis : Block) : lc unit :=
  c ← lc_get s_chain;
  match Genesis c with
  | Some _ => mret tt
  | None =>
      g ← lc_get s_persist;
      '(pos, d) ← of_disk (StoreBlock free 0 genesis None (p_disk g));
      put_persist (with_disk d g);;
      let q := fresh (dom (c_heap c)) in
      c ← lc_pure (AddToIndexMap Sha256 (with_heap c (<[q := NewBlockIndex (Header genesis)]> (c_heap c))) q);
      c ← lc_pure (ReceivedBlockTransactions params genesis q (pos_File pos, pos_Pos pos) c);
      c ← lc_pure (SetTip now minimumChainWork c (Some q));
      put_chain c;;
      v ← lc_get s_view;
      v ← lc_pure (UpdateCoins range_coins v ∅ (hash_of Sha256 (c_heap c) q));
      put_view v;;
      flush FlushStateAlways
  end.

(** ** Locators (locator.go) *)
Definition MaxHeadersResults : nat := 2000.
Definition MaxBlocksResults : nat := 500.
Fixpoint FindForkInGlobalIndex {E : Type} (c : Chain) (locator : list bytes) : res E (option nat) :=
  match locator with
  | [] => Ok (Genesis c)
  | hash :: locator =>
      match FindBlockIndex c hash with
      | None => FindForkInGlobalIndex c locator
      | Some bi =>
          inside ← Contains c (Some bi);
          if (inside : bool) then Ok (Some bi)
          else
            ht ← Chain_Height c;
            a ← GetAncestor (c_heap c) bi ht;
            if bool_decide (a = tip c) then Ok (tip c) else FindForkInGlobalIndex c locator
      end
  end.
Fixpoint locate_blocks {E : Type} (nLimits : nat) (c : Chain) (bi : option nat) (endHash : bytes) : res E (list bytes) :=
  match nLimits, bi with
  | S n, Some q =>
      let hash := hash_of Sha256 (c_heap c) q in
      if bool_decide (hash = endHash) then Ok []
      else next ← Next c (Some q); l ← locate_blocks n c next endHash; Ok (hash :: l)
  | _, _ => Ok []
  end.
Definition LocateBlocks {E : Type} (c : Chain) (locator : list bytes) (endHash : bytes) : res E (list bytes) :=
  bi ← FindForkInGlobalIndex c locator;
  bi ← Next c bi;
  locate_blocks MaxBlocksResults c bi endHash.
Fixpoint locate_headers {E : Type} (nLimits : nat) (c : Chain) (bi : option nat) (endHash : bytes) : res E (list BlockHeader) :=
  match nLimits, bi with
  | S n, Some q =>
      b ← bload (c_heap c) q;
      if bool_decide (hash_of Sha256 (c_heap c) q = endHash) then Ok [bi_Header b]
      else next ← Next c (Some q); l ← locate_headers n c next endHash; Ok (bi_Header b :: l)
  | _, _ => Ok []
  end.
Definition LocateHeaders {E : Type} (c : Chain) (locator : list bytes) (endHash : bytes) : res E (list BlockHeader) :=
  bi ← (match locator with
        | [] => Ok (FindBlockIndex c endHash)
        | _ => bi ← FindForkInGlobalIndex c locator; Next c bi
        end);
  locate_headers MaxHeadersResults c bi endHash.
End Lchain.
