(* ===== verification/LchainFacts.v ===== *)
(** * The coins are those of the active chain

    Connecting and disconnecting blocks keep the UTXO set equal to the replay of the
    blocks of the active chain, the hash of the best block equal to that of the tip, and
    the undo data on disk equal to what each block has spent, whatever the memory pool
    does meanwhile. *)
From S2P Require Import Prelude Errors Wire ScriptNum Opcodes Script ScriptFacts Tx TxFacts Crypto Compress Coins CoinsFacts Block Undo ConnectFacts ReorgFacts.
From S2P Require Import Stack Slice Interp Ltx BlockIndex Chain ChainFacts BranchFacts Merkle VersionBits VersionBitsFacts Pow Lblock TreeFacts.
From S2P Require Import Mempool PoolSorted Accept OrphanFacts AcceptFacts Lmempool LmempoolFacts PoolView Disk DiskFacts BlkDB Lchain.

(** ** Reasoning about commands *)
Section Wp.
Context `{LruCache}.
(** From [s], the command ends with [Q], or fails with the state in [R], or panics. *)
Definition wp {A} (m : lc A) (Q : A -> chain_state -> Prop) (R : chain_state -> Prop) (s : chain_state) : Prop :=
  match m s with (s', Ok a) => Q a s' | (s', Err _) => R s' | (_, Panic) => True end.
Lemma lwp_bind {A B} (m : lc A) (f : A -> lc B) Q R s : wp m (fun a => wp (f a) Q R) R s -> wp (m ≫= f) Q R s.
Proof. unfold wp, mbind, lc_bind. by destruct (m s) as [s' [a|e|]]. Qed.
Lemma lwp_ret {A} (a : A) (Q : A -> chain_state -> Prop) R s : Q a s -> wp (mret a) Q R s.
Proof. done. Qed.
Lemma wp_get {A} (f : chain_state -> A) (Q : A -> chain_state -> Prop) R s : Q (f s) s -> wp (lc_get f) Q R s.
Proof. done. Qed.
Lemma wp_pure {A} (r : res Empty_set A) (Q : A -> chain_state -> Prop) (R : chain_state -> Prop) s : (forall a, r = Ok a -> Q a s) -> wp (lc_pure r) Q R s.
Proof. unfold wp, lc_pure. intros HQ. destruct r as [a|[]|]; [by apply HQ|done]. Qed.
Lemma wp_of_block {A} (r : res BlockErr A) (Q : A -> chain_state -> Prop) (R : chain_state -> Prop) s : (forall a, r = Ok a -> Q a s) -> R s -> wp (of_block r) Q R s.
Proof. unfold wp, of_block. intros HQ HR. destruct r; [by apply HQ|done|done]. Qed.
Lemma wp_of_disk {A} (r : res DiskErr A) (Q : A -> chain_state -> Prop) (R : chain_state -> Prop) s : (forall a, r = Ok a -> Q a s) -> R s -> wp (of_disk r) Q R s.
Proof. unfold wp, of_disk. intros HQ HR. destruct r; [by apply HQ|done|done]. Qed.
Lemma wp_pure_ok {A} (a : A) (r : res Empty_set A) (Q : A -> chain_state -> Prop) R s : r = Ok a -> Q a s -> wp (lc_pure r) Q R s.
Proof. by intros ->. Qed.
Lemma wp_of_disk_ok {A} (a : A) (r : res DiskErr A) (Q : A -> chain_state -> Prop) R s : r = Ok a -> Q a s -> wp (of_disk r) Q R s.
Proof. by intros ->. Qed.
Lemma lwp_fail {A} e (Q : A -> chain_state -> Prop) (R : chain_state -> Prop) s : R s -> wp (lc_fail e) Q R s.
Proof. done. Qed.
Lemma wp_crash {A} (Q : A -> chain_state -> Prop) R s : wp lc_crash Q R s.
Proof. done. Qed.
Lemma wp_attempt {A} (m : lc A) (Q : A + ChainErr -> chain_state -> Prop) R s : wp m (fun a => Q (inl a)) (fun s' => forall e, Q (inr e) s') s -> wp (lc_attempt m) Q R s.
Proof. unfold wp, lc_attempt. by destruct (m s) as [s' [a|e|]]. Qed.
Lemma lwp_mono {A} (m : lc A) (Q Q' : A -> chain_state -> Prop) (R R' : chain_state -> Prop) s : wp m Q R s -> (forall a s', Q a s' -> Q' a s') -> (forall s', R s' -> R' s') -> wp m Q' R' s.
Proof. unfold wp. intros Hm HQ HR. destruct (m s) as [s' [a|e|]]; [by apply HQ|by apply HR|done]. Qed.
Lemma wp_node {A} (I : node -> Prop) (m : acc A) (Q : option A -> chain_state -> Prop) R s : steady I m -> I (mkNode _ (s_pool s) (s_view s)) ->
  (forall r pool view, I (mkNode _ pool view) -> Q r (mkCS _ (s_chain s) view pool (s_persist s) (shutdownScheduled s))) -> wp (on_node m) Q R s.
Proof.
  intros Hm Hi HQ. unfold wp, on_node. specialize (Hm _ Hi). destruct (m _) as [[m' v'] [a|e|]]; [by apply HQ|by apply HQ|done].
Qed.
End Wp.
(** One command at a time. *)
Ltac wp_step :=
  lazymatch goal with
  | |- wp (_ ≫= _) _ _ _ => apply lwp_bind
  | |- wp (mret _) _ _ _ => apply lwp_ret
  | |- wp (lc_get _) _ _ _ => apply wp_get
  | |- wp (lc_fail _) _ _ _ => apply lwp_fail
  | |- wp lc_crash _ _ _ => apply wp_crash
  | |- wp (lc_pure _) _ _ _ => apply wp_pure
  | |- wp (of_block _) _ _ _ => apply wp_of_block
  | |- wp (of_disk _) _ _ _ => apply wp_of_disk
  | |- wp (lc_attempt _) _ _ _ => apply wp_attempt
  end.

(** ** Commands that do not schedule a shutdown *)
Section Quiet.
Context `{LruCache}.
Definition quiet {A} (m : lc A) : Prop := forall s, shutdownScheduled (m s).1 = shutdownScheduled s.
Lemma quiet_bind {A B} (m : lc A) (f : A -> lc B) : quiet m -> (forall a, quiet (f a)) -> quiet (m ≫= f).
Proof. intros Hm Hf s. unfold mbind, lc_bind. specialize (Hm s). destruct (m s) as [s1 [a|e|]]; cbn in *; [by rw Hf|done|done]. Qed.
Lemma quiet_attempt {A} (m : lc A) : quiet m -> quiet (lc_attempt m).
Proof. intros Hm s. unfold lc_attempt. specialize (Hm s). by destruct (m s) as [s1 [a|e|]]. Qed.
Lemma quiet_node {A} (m : acc A) : quiet (on_node m).
Proof. intros s. unfold on_node. by destruct (m _) as [n r]. Qed.
Lemma quiet_upd q f : quiet (upd_index q f).
Proof. unfold upd_index. do 2 (apply quiet_bind; [done|intros ?]). done. Qed.
End Quiet.
Ltac quiet := repeat (cbv zeta; lazymatch goal with
  | |- quiet (_ ≫= _) => apply quiet_bind; [|intros ?]
  | |- quiet (lc_attempt _) => apply quiet_attempt
  | |- quiet (on_node _) => apply quiet_node
  | |- quiet (upd_index _ _) => apply quiet_upd
  | |- quiet (match ?x with _ => _ end) => destruct x
  | |- forall _, _ => intros ?
  | |- quiet _ => done
  end).

(** ** Indexes whose status changes *)
Record same_index (b0 b : BlockIndex) : Prop := {
  si_links : links b = links b0;
  si_file : bi_File b = bi_File b0;
  si_pos : bi_DataPos b = bi_DataPos b0;
  si_data : HasData b = HasData b0 }.
#[export] Instance same_index_preorder : PreOrder same_index.
Proof. split; [by intros b|]. intros a b d [? ? ? ?] [? ? ? ?]. split; congruence. Qed.
Definition same_tree (h0 h : bheap) : Prop := forall q, option_Forall2 same_index (h0 !! q) (h !! q).
Lemma same_tree_links h0 h : same_tree h0 h -> same_links h0 h.
Proof. intros Hs q. destruct (Hs q) as [b0 b [Hl _ _ _]|]; cbn; [by rw Hl|done]. Qed.
Lemma same_tree_fwd h0 h q b0 : same_tree h0 h -> h0 !! q = Some b0 -> exists b, h !! q = Some b /\ same_index b0 b.
Proof. intros Hs Hq. specialize (Hs q). rw Hq in Hs. inversion Hs as [? b Hb Hx Hy|]; subst. by exists b. Qed.
Lemma same_tree_back h0 h q b : same_tree h0 h -> h !! q = Some b -> exists b0, h0 !! q = Some b0 /\ same_index b0 b.
Proof. intros Hs Hq. specialize (Hs q). rw Hq in Hs. inversion Hs as [b0 ? Hb Hx Hy|]; subst. by exists b0. Qed.
Lemma same_tree_upd h0 h q b b' : same_tree h0 h -> h !! q = Some b -> same_index b b' -> same_tree h0 (<[q := b']> h).
Proof.
  intros Hs Hq Hb x. destruct (decide (q = x)) as [<-|]; [|by rw lookup_insert_ne]. rw lookup_insert_eq. destruct (same_tree_back _ _ _ _ Hs Hq) as (b0 & -> & Hb0). constructor. by etrans.
Qed.
Lemma chain_ok_upd c q b b' : chain_ok c -> c_heap c !! q = Some b -> same_index b b' -> chain_ok (with_heap c (<[q := b']> (c_heap c))).
Proof.
  intros [Ht Hp [Hi Hb]] Hq [Hl _ _ _]. assert (same_links (c_heap c) (<[q := b']> (c_heap c))) as Hs.
  { intros x. destruct (decide (q = x)) as [<-|]; [by rw lookup_insert_eq Hq /= Hl|by rw lookup_insert_ne]. }
  assert (forall r, is_Some (c_heap c !! r) -> is_Some (<[q := b']> (c_heap c) !! r)) as Hold.
  { intros r Hr. destruct (decide (q = r)) as [->|]; [by rw lookup_insert_eq|by rw lookup_insert_ne]. }
  split; cbn [c_heap active tip with_heap]; [by rw -Hs| |split; [intros k r Hr; by eapply Hold, Hi|intros r Hr; by eapply Hold, Hb]].
  destruct (tip c) as [t|]; cbn in *; [|done]. destruct Hp as (tb & Htb & Hlen & Hw). destruct (same_links_lookup _ _ _ _ Hs Htb) as (tb' & Htb' & Hlt). apply links_inv in Hlt as (_ & _ & _ & _ & Hh & _).
  exists tb'. rw Hh. split_and!; [done|done|]. intros k Hk. rw Hw; [|done]. f_equal. by apply walk_proper.
Qed.

(** ** The replay of a branch *)
(** [h0] is the tree, [blk_of] gives the block of an index and [w] bounds its undo record. *)
Section Ledger.
Context `{Secp256k1} `{!SecpCompression} `{LruCache} `{!LruLaws} `{Hashes}.
Context (T : gset OutPoint) (HT : (size T <= lru_capacity)%nat).
Context (range_coins : gmap OutPoint Coin -> list (OutPoint * Coin)) (Hcoins : forall m, range_coins m ≡ₚ map_to_list m).
Context (params : PowParams) (h0 : bheap) (blk_of : nat -> Block) (w : nat -> Z).
Abbreviation block_hash := (hash_of Sha256 h0).

(** The coins after the last [n] blocks up to [q]; those of the first block are never
    added. *)
Fixpoint replay (n : nat) (q : nat) : gmap OutPoint Coin :=
  match n, h0 !! q with
  | S n, Some b =>
      match bi_Prev b, Txs (blk_of q) with
      | Some pre, cb :: rest => delete_all (spends rest) (block_coins (bi_Height b) (cb :: rest) (replay n pre))
      | _, _ => ∅
      end
  | _, _ => ∅
  end.
Definition coins (q : nat) : gmap OutPoint Coin := replay (Z.to_nat (from_option bi_Height 0 (h0 !! q))) q.
(** What the block of [q] has spent, in the coins that include its outputs. *)
Definition undo_data (q pre : nat) (height : Z) (uss : BlockUndo) : Prop :=
  exists cb rest, Txs (blk_of q) = cb :: rest /\ Forall2 (undo_of (block_coins height (cb :: rest) (coins pre))) rest uss /\ NoDup (spends rest).

(** A block that fits the tree: its outpoints fit the cache and its outputs are new. *)
Record block_fits (q : nat) (b : BlockIndex) (pre : nat) : Prop := {
  fit_height : 0 < bi_Height b < 2 ^ 30;
  fit_hash : Block_GetHash Sha256 (blk_of q) = block_hash q;
  fit_null : Hash_IsNull (block_hash q) = false /\ Hash_IsNull (block_hash pre) = false;
  fit_prev : HashPrevBlock (Header (blk_of q)) = block_hash pre;
  fit_genesis : block_hash q <> GenesisHash (pp_forks params);
  fit_wf : wf_block (blk_of q) /\ is_u 32 (len (Block_Serialize (blk_of q)));
  fit_read : as_read (blk_of q) = blk_of q;
  fit_pow : CheckProofOfWork params (Block_GetHash Sha256 (blk_of q)) (Bits (Header (blk_of q))) = true;
  fit_txs : exists cb rest, Txs (blk_of q) = cb :: rest /\ conn_block T (coins pre) cb rest;
  fit_undo uss data : undo_data q pre (bi_Height b) uss -> BlockUndo_Serialize uss = Ok data -> len data + 36 <= w q }.
Record ledger_tree : Prop := {
  lt_tree : tree_ok h0;
  lt_fits q b pre : h0 !! q = Some b -> bi_Prev b = Some pre -> block_fits q b pre;
  lt_bound q : 0 <= w q < 2 ^ 32;
  lt_root q b q' b' : h0 !! q = Some b -> h0 !! q' = Some b' -> bi_Prev b = None -> bi_Prev b' = None -> q = q' }.
Context (Htree : ledger_tree).

Lemma coins_step q b pre cb rest : h0 !! q = Some b -> bi_Prev b = Some pre -> Txs (blk_of q) = cb :: rest ->
  coins q = delete_all (spends rest) (block_coins (bi_Height b) (cb :: rest) (coins pre)).
Proof.
  intros Hq Hp Ht. destruct (tr_prev h0 (lt_tree Htree) q b pre Hq Hp) as (pb & Hpb & Hh). pose proof (tr_height h0 (lt_tree Htree) pre pb Hpb).
  unfold coins. rw Hq Hpb. cbn [from_option]. replace (Z.to_nat (bi_Height b)) with (S (Z.to_nat (bi_Height pb))) by lia. cbn [replay]. by rw Hq Hp Ht.
Qed.

(** *** Undo records that are still to be written *)
Definition due_of (k : Z) (q : nat) (b : BlockIndex) : Z := if (bi_File b =? k) && negb (HasUndo b) then w q else 0.
Definition due (h : bheap) (k : Z) : Z := map_fold (fun q b n => due_of k q b + n) 0 h.
Lemma due_insert h k q b : h !! q = None -> due (<[q := b]> h) k = due_of k q b + due h k.
Proof. intros Hq. unfold due. apply (map_fold_insert_L (fun q b n => due_of k q b + n)); [intros; lia|done]. Qed.
Lemma due_upd h k q b b' : h !! q = Some b -> due (<[q := b']> h) k = due h k - due_of k q b + due_of k q b'.
Proof.
  intros Hq. assert (due h k = due_of k q b + due (delete q h) k) as -> by (rw -due_insert; [|by rw lookup_delete_eq]; by rw insert_delete_id).
  rw -(insert_delete_eq h q b') due_insert; [|by rw lookup_delete_eq]. lia.
Qed.
Lemma due_nonneg h k : 0 <= due h k.
Proof. induction h as [|q b m Hq IH] using map_ind; [done|]. rw due_insert //. unfold due_of. pose proof (lt_bound Htree q). destruct (_ && _); lia. Qed.
Lemma due_same h k q b b' : h !! q = Some b -> bi_File b' = bi_File b -> HasUndo b' = HasUndo b -> due (<[q := b']> h) k = due h k.
Proof. intros Hq Hf Hu. rw (due_upd h k q b b' Hq). unfold due_of. rw Hf Hu. lia. Qed.

(** *** The state *)
Record files_ok (h : bheap) (d : Disk) : Prop := {
  fo_disk : disk_ok d;
  fo_block q b pre : h !! q = Some b -> bi_Prev b = Some pre -> HasData b = true -> block_at d (mkPos (bi_File b) (bi_DataPos b)) (blk_of q);
  fo_undo q b pre : h !! q = Some b -> bi_Prev b = Some pre -> HasUndo b = true ->
    exists uss data, undo_data q pre (bi_Height b) uss /\ BlockUndo_Serialize uss = Ok data /\ undo_at d (mkPos (bi_File b) (bi_UndoPos b)) (block_hash pre) data;
  fo_room k i : GlobalBlockFileInfo d !! k = Some i -> UndoSize i + due h (Z.of_nat k) < 2 ^ 32 }.
(** Every block on the way from [t] back to the first can be disconnected. *)
Definition undoable (h : bheap) (t : nat) : Prop :=
  forall n x b, walk h0 t n = Some x -> h !! x = Some b -> bi_Prev b <> None -> HasData b = true /\ HasUndo b = true.
(** The chain, the coins, the pool and the files agree on the tip [t]. *)
Record agree (t : nat) (c : Chain) (v : CoinsLruCache) (m : TxMempool) (d : Disk) : Prop := {
  ag_chain : chain_ok c;
  ag_tree : same_tree h0 (c_heap c);
  ag_tip : tip c = Some t;
  ag_coins : cache_ok T v (coins t);
  ag_best : hashBlock v = block_hash t /\ Hash_IsNull (block_hash t) = false;
  ag_pool : known_pool T m;
  ag_files : files_ok (c_heap c) d;
  ag_undo : undoable (c_heap c) t }.
Definition ledger (t : nat) (s : chain_state) : Prop := agree t (s_chain s) (s_view s) (s_pool s) (p_disk (s_persist s)).

Lemma HasUndo_bit b : HasUndo b = Z.testbit (bi_Status b) 4.
Proof. unfold HasUndo. change BlockHaveUndo with (2 ^ 4). by rw land_pow2_eqb0 // negb_involutive. Qed.
(** A change of the status that concerns neither data nor undo data. *)
Record same_status (b b' : BlockIndex) : Prop := {
  ss_index : same_index b b';
  ss_undo : HasUndo b' = HasUndo b;
  ss_pos : bi_UndoPos b' = bi_UndoPos b }.
Lemma same_status_add s b : Z.testbit s 3 = false -> Z.testbit s 4 = false -> same_status b (AddStatus s b).
Proof.
  intros Hs3 Hs4. split; [split; [done|done|done|]|rw !HasUndo_bit AddStatus_bit Hs4 orb_false_r; done|done]. by rw !HasData_bit AddStatus_bit Hs3 orb_false_r.
Qed.
Lemma same_status_raise b : same_status b (RaiseValidity BlockValidScripts b).2.
Proof.
  assert (forall n, 3 <= n -> Z.testbit (bi_Status (RaiseValidity BlockValidScripts b).2) n = Z.testbit (bi_Status b) n) as Hb by (intros n Hn; apply RaiseValidity_bit; [done|by unfold BlockValidScripts]).
  assert (forall f : BlockIndex -> Prop, f b -> (forall x, f (set_Status x b)) -> f (RaiseValidity BlockValidScripts b).2) as Hf.
  { intros f Hb0 Hs. unfold RaiseValidity. destruct (IsInvalid b); [done|]. destruct (_ <=? _); [done|]. apply Hs. }
  split; [split|rw !HasUndo_bit; by apply Hb|by apply Hf]; try (by apply Hf). rw !HasData_bit. by apply Hb.
Qed.
Lemma undoable_upd h t q b b' : undoable h t -> h !! q = Some b -> same_index b b' -> (HasUndo b = true -> HasUndo b' = true) -> undoable (<[q := b']> h) t.
Proof.
  intros Hu Hq [Hl _ _ Hd] Hh n x bx Hw. destruct (decide (q = x)) as [<-|]; [|rw lookup_insert_ne //; by apply (Hu n)]. rw lookup_insert_eq. intros [= <-].
  apply links_inv in Hl as (_ & _ & Hp & _). rw Hp. intros Hn. destruct (Hu n q b Hw Hq Hn) as [Hd1 Hu1]. rw Hd. split; [done|by apply Hh].
Qed.
Lemma files_upd h d q b b' : files_ok h d -> h !! q = Some b -> same_status b b' -> files_ok (<[q := b']> h) d.
Proof.
  intros [Hd Hb Hu Hr] Hq [[Hl Hf Hp Hdt] Hun Hup]. apply links_inv in Hl as (_ & _ & Hpre & _ & Hh & _). split; [done| | |].
  - intros x bx pre. destruct (decide (q = x)) as [<-|]; [|rw lookup_insert_ne //; apply Hb]. rw lookup_insert_eq. intros [= <-]. rw Hf Hp Hdt Hpre. by apply Hb.
  - intros x bx pre. destruct (decide (q = x)) as [<-|]; [|rw lookup_insert_ne //; apply Hu]. rw lookup_insert_eq. intros [= <-]. rw Hf Hup Hun Hpre Hh. by apply Hu.
  - intros k i Hi. rw (due_same h _ q b b' Hq Hf Hun). by apply Hr.
Qed.
Lemma agree_upd t c v m d q b b' : agree t c v m d -> c_heap c !! q = Some b -> same_status b b' -> agree t (with_heap c (<[q := b']> (c_heap c))) v m d.
Proof.
  intros [Hc Hs Ht Hco Hb Hp Hf Hu] Hq Hst. pose proof (ss_index _ _ Hst) as Hi. split; [by eapply chain_ok_upd|by eapply same_tree_upd|done|done|done|done|by eapply files_upd|].
  eapply undoable_upd; [done|done|done|]. by rw (ss_undo _ _ Hst).
Qed.

(** *** Undo data *)
Context (Hsha : forall x, length (Sha256 x) = 32%nat) (free : Z) (Hfree : MinDiskSpace + 2 ^ 32 <= free).
Lemma undo_storable q b pre uss : h0 !! q = Some b -> bi_Prev b = Some pre -> undo_data q pre (bi_Height b) uss -> storable_undo uss.
Proof.
  intros Hq Hp (cb & rest & Ht & Hu & _). destruct (lt_fits Htree q b pre Hq Hp) as [_ _ _ _ _ [[_ Hw Hc _] _] _ _ _ _]. rw Ht in Hw Hc. apply Forall_cons in Hw as [_ Hw].
  split; [|rw -(Forall2_length _ _ _ Hu); cbn [length] in Hc; lia]. clear Hc Ht. revert Hu. generalize (block_coins (bi_Height b) (cb :: rest) (coins pre)). intros M Hu. induction Hu as [|t us rest uss Htu _ IH]; [constructor|]. apply Forall_cons in Hw as [Hwt Hw]. constructor; [|by apply IH].
  rw -(Forall2_length _ _ _ Htu). split; [|pose proof (wf_ins_count _ Hwt); done].
  clear -Htu. induction Htu as [|i c is0 us [_ Hs] _ IH]; by constructor.
Qed.
Lemma undo_written q b pre uss : h0 !! q = Some b -> bi_Prev b = Some pre -> undo_data q pre (bi_Height b) uss -> exists data, BlockUndo_Serialize uss = Ok data /\ len data + 36 <= w q.
Proof.
  intros Hq Hp Hu. destruct (undo_storable q b pre uss Hq Hp Hu) as [Hs Hc]. destruct (BlockUndo_roundtrip uss Hs Hc) as (data & Hd & _). exists data. split; [done|].
  by apply (fit_undo _ _ _ (lt_fits Htree q b pre Hq Hp) uss).
Qed.
(** The record of the file that has grown, and the others. *)
Lemma FindUndoPos_infos nFile n d pos d' : FindUndoPos free nFile n d = Ok (pos, d') -> exists i, 0 <= nFile /\ GlobalBlockFileInfo d !! Z.to_nat nFile = Some i /\
  GlobalBlockFileInfo d' = <[Z.to_nat nFile := set_UndoSize (u32 (UndoSize i + u32 n)) i]> (GlobalBlockFileInfo d) /\ GlobalLastBlockFile d' = GlobalLastBlockFile d /\ pos_File pos = nFile.
Proof.
  unfold FindUndoPos. intros (i & [Hn Hi]%nth_go_inv & (d1 & Hd1 & Hx)%res_bind_inv)%res_bind_inv. rw (upd_info_some nFile _ d i Hn Hi) in Hd1. injection Hd1 as <-. apply res_bind_inv in Hx as (i1 & _ & Hx).
  apply res_bind_inv in Hx as ([ok m] & _ & Hx). destruct ok; [|done]. injection Hx as <- <-. by exists i.
Qed.
Lemma UndoWriteToDisk_infos bu pos hash d d' : UndoWriteToDisk bu pos hash d = Ok d' -> GlobalBlockFileInfo d' = GlobalBlockFileInfo d /\ GlobalLastBlockFile d' = GlobalLastBlockFile d.
Proof. unfold UndoWriteToDisk. destruct (Pos_IsNull pos); [done|]. destruct (BlockUndo_Serialize bu); [|done|done]. by intros [= <-]. Qed.

Definition set_undo (pos : Z) (b : BlockIndex) : BlockIndex :=
  AddStatus BlockHaveUndo (mkBI (bi_Header b) (bi_blockHash b) (bi_Prev b) (bi_Skip b) (bi_Height b) (bi_File b) (bi_DataPos b) pos (bi_ChainWork b)
    (bi_TxCount b) (bi_ChainTxCount b) (bi_Status b) (bi_SequenceID b) (bi_TimeMax b)).
Lemma set_undo_index pos b : same_index b (set_undo pos b) /\ HasUndo (set_undo pos b) = true.
Proof.
  split; [split; [done|done|done|]|rw HasUndo_bit; unfold set_undo; rw AddStatus_bit; by rw orb_true_r]. rw !HasData_bit. unfold set_undo. rw AddStatus_bit. cbn. by rw orb_false_r.
Qed.
(** The undo data of [q] is written and recorded in its index. *)
Lemma files_undo h d q b b0 pre uss data pos d1 d2 : files_ok h d -> same_tree h0 h -> h !! q = Some b -> h0 !! q = Some b0 -> bi_Prev b0 = Some pre -> HasUndo b = false ->
  undo_data q pre (bi_Height b0) uss -> BlockUndo_Serialize uss = Ok data -> FindUndoPos free (bi_File b) (len data + 36) d = Ok (pos, d1) -> UndoWriteToDisk uss pos (block_hash pre) d1 = Ok d2 ->
  files_ok (<[q := set_undo (pos_Pos pos) b]> h) d2.
Proof.
  intros [Hd Hb Hu Hr] Hst Hq Hq0 Hp Hnu Hdata Hser Hfind Hwr. destruct (FindUndoPos_infos _ _ _ _ _ Hfind) as (i & Hf & Hi & Hi1 & Hl1 & _). destruct (UndoWriteToDisk_infos _ _ _ _ _ Hwr) as [Hi2 Hl2].
  destruct (undo_written q b0 pre uss Hq0 Hp Hdata) as (data' & Hser' & Hw). rw Hser in Hser'. injection Hser' as <-.
  assert (due h (bi_File b) - w q = due (<[q := set_undo (pos_Pos pos) b]> h) (bi_File b)) as Hdue.
  { rw (due_upd h _ q b _ Hq). unfold due_of. rw (proj2 (set_undo_index _ _)) Hnu. cbn [bi_File set_undo AddStatus set_Status]. rw Z.eqb_refl. cbn. lia. }
  pose proof (due_nonneg (<[q := set_undo (pos_Pos pos) b]> h) (bi_File b)) as Hpos. pose proof (Hr _ i Hi) as Hroom. rw Z2Nat.id // in Hroom.
  destruct (StoreUndo_ok free (bi_File b) uss (block_hash pre) data d i Hsha Hd Hf Hi Hser ltac:(lia) Hfree) as (pos' & d1' & d2' & Hfind' & Hwr' & Hpos' & Hat & Hok & Hlast & Hkb & Hkr).
  rw Hfind in Hfind'. injection Hfind' as <- <-. rw Hwr in Hwr'. injection Hwr' as <-. pose proof (proj1 (Forall_lookup _ _) (dk_infos _ Hd) _ _ Hi) as [_ Hui].
  destruct (same_tree_back _ _ _ _ Hst Hq) as (b0' & Hb0 & Hsi). rw Hq0 in Hb0. injection Hb0 as <-. pose proof (links_inv _ _ (si_links _ _ Hsi)) as (_ & _ & Hpre & _ & Hh & _). split.
  - destruct Hd as [_ Hc Hla]. split; [done|rw Hi2 Hi1 length_insert //|]. by rw Hl2 Hl1.
  - intros x bx px. destruct (decide (q = x)) as [<-|]; [rw lookup_insert_eq; intros [= <-]|rw lookup_insert_ne //; intros Hx Hpx Hdx; by apply Hkb, (Hb x bx px)].
    rw (si_data _ _ (proj1 (set_undo_index _ _))). intros Hpx Hdx. apply Hkb. by apply (Hb q b px).
  - intros x bx px. destruct (decide (q = x)) as [<-|]; [rw lookup_insert_eq; intros [= <-]|rw lookup_insert_ne //; intros Hx Hpx Hdx].
    + cbn [bi_Prev bi_Height bi_File bi_UndoPos set_undo AddStatus set_Status]. intros Hpx _. rw Hpre Hp in Hpx. injection Hpx as <-. rw Hh. exists uss, data. split_and!; [done|done|]. by rw Hpos' /= in Hat |- *.
    + destruct (Hu x bx px Hx Hpx Hdx) as (us & dt & Ha & Hs & Hat'). exists us, dt. split_and!; [done|done|]. by apply Hkr.
  - intros k j Hj. rw Hi2 Hi1 in Hj. destruct (decide (k = Z.to_nat (bi_File b))) as [->|Hne].
    + rw list_lookup_insert_eq in Hj; [|by eapply lookup_lt_Some]. injection Hj as <-. rw Z2Nat.id // -Hdue. cbn [UndoSize set_UndoSize]. rw (u32_id (len data + 36)); [|pose proof (lt_bound Htree q); split; lia]. rw u32_id; [lia|split; lia].
    + rw list_lookup_insert_ne in Hj; [|done]. pose proof (Hr k j Hj). assert (due (<[q := set_undo (pos_Pos pos) b]> h) (Z.of_nat k) = due h (Z.of_nat k)) as ->; [|done].
      rw (due_upd h _ q b _ Hq). unfold due_of. cbn [bi_File set_undo AddStatus set_Status]. destruct (Z.eqb_spec (bi_File b) (Z.of_nat k)); [lia|]. cbn. lia.
Qed.

(** ** Connecting a block *)
(** A block that differs from that of [q] in what is cached only. *)
Definition same_tx (t t0 : Tx) : Prop := ins t = ins t0 /\ outs t = outs t0 /\ txid Sha256 t = txid Sha256 t0.
Definition is_block (q : nat) (blk : Block) : Prop := Forall2 same_tx (Txs blk) (Txs (blk_of q)) /\ Block_GetHash Sha256 blk = block_hash q.
Lemma same_tx_refl t : same_tx t t.
Proof. by split. Qed.
Lemma same_spends l l0 : Forall2 same_tx l l0 -> spends l = spends l0.
Proof. induction 1 as [|t t0 l l0 (Hi & _) _ IH]; [done|]. unfold spends, prevs in *. cbn. by rw Hi IH. Qed.
Lemma same_ids l l0 : Forall2 same_tx l l0 -> map (txid Sha256) l = map (txid Sha256) l0.
Proof. induction 1 as [|t t0 l l0 (_ & _ & Hd) _ IH]; [done|]. cbn. by rw Hd IH. Qed.
Lemma same_coins_of ht l l0 : Forall2 same_tx l l0 -> forall M, block_coins ht l M = block_coins ht l0 M.
Proof.
  unfold block_coins. induction 1 as [|t t0 l l0 (Hi & Ho & Hd) _ IH]; intros M; [done|]. cbn [foldl]. rw IH. f_equal. unfold tx_coins, IsCoinBase. by rw Hi Ho Hd.
Qed.
Lemma same_undo M l l0 : Forall2 same_tx l l0 -> forall uss, Forall2 (undo_of M) l uss -> Forall2 (undo_of M) l0 uss.
Proof.
  induction 1 as [|t t0 l l0 (Hi & _) _ IH]; intros uss Hu; inversion Hu as [|? us ? uss' Ht Hr]; subst; constructor; [|by apply IH]. unfold undo_of in *. by rw -Hi.
Qed.
Lemma conn_same U cb rest cb0 rest0 : Forall2 same_tx (cb :: rest) (cb0 :: rest0) -> conn_block T U cb0 rest0 -> conn_block T U cb rest.
Proof.
  intros Hs [Hcb Htx Hre Hin Hid]. pose proof (same_ids _ _ Hs) as Hids. apply Forall2_cons in Hs as [Hs0 Hs1].
  assert (forall (P P0 : Tx -> Prop) l l0, (forall t t0, same_tx t t0 -> P0 t0 -> P t) -> Forall2 same_tx l l0 -> Forall P0 l0 -> Forall P l) as Hall.
  { intros P P0 l l0 Hp. induction 1 as [|t t0 l l0 Ht _ IH]; intros Hl; [constructor|]. apply Forall_cons in Hl as [? ?]. constructor; [by eapply Hp|by apply IH]. }
  split; [unfold IsCoinBase in *; by rw (proj1 Hs0)| | | |by rw Hids].
  - eapply (Hall _ (conn_tx T U) (cb :: rest) (cb0 :: rest0)); [|by constructor|done]. intros t t0 (Hi & Ho & Hd) [Hot Hct Hit Hnt Hrt]. split; by rw ?Ho ?Hd.
  - eapply Hall; [|exact Hs1|exact Hre]. intros t t0 (Hi & _) Hc. unfold IsCoinBase in *. by rw Hi.
  - eapply Hall; [|exact Hs1|exact Hin]. intros t t0 (Hi & _) [Hc1 Hc2]. unfold conn_ins, prevs in *. by rw Hi.
Qed.

Context (grow : nat -> nat -> nat) (drain : list (option TxErr) -> list (option TxErr)) (Hdrain : forall l, drain l ≡ₚ l).
Context (range : gset nat -> list nat) (Hrange : forall X, range X ≡ₚ elements X).
Context (range_orphans : gmap bytes OrphanTx -> list OrphanTx) (Horphans : forall s, range_orphans s ≡ₚ map snd (map_to_list s)).
Context (sizeof_TxEntry overflow : Z) (conf : PoolConfig) (Excessiveblocksize minimumChainWork : Z) (HashAssumeValid BIP34Hash : bytes).
Context (now adjusted second nano checkFrequency rand : Z).

Lemma ledger_dirty t q s : ledger t s -> wp (dirty_index q) (fun _ s' => ledger t s' /\ s_chain s' = s_chain s /\ s_view s' = s_view s) (ledger t) s.
Proof. intros Hl. unfold dirty_index, index_hash. repeat wp_step. unfold put_persist, wp. by split. Qed.
Lemma ledger_upd_index t q f b s : ledger t s -> c_heap (s_chain s) !! q = Some b -> same_status b (f b) ->
  wp (upd_index q f) (fun _ s' => ledger t s' /\ c_heap (s_chain s') !! q = Some (f b) /\ s_view s' = s_view s) (ledger t) s.
Proof.
  intros Hl Hq Hs. unfold upd_index. repeat wp_step. intros b' Hb'. rw (bload_Some _ _ _ Hq) in Hb'. injection Hb' as <-. unfold put_chain, wp. split_and!; [|by rw /= lookup_insert_eq|done].
  unfold ledger. cbn [s_chain s_view s_pool s_persist]. by eapply agree_upd.
Qed.
Lemma ledger_pool t s m R : ledger t s -> known_pool T m -> wp (put_pool m) (fun _ s' => ledger t s' /\ s_chain s' = s_chain s /\ s_view s' = s_view s) R s.
Proof. intros [Hc Hs Ht Hco Hb Hp Hf Hu] Hm. unfold wp, put_pool. split; [|done]. by split. Qed.

Lemma write_undo_ok t q b0 pre uss s : ledger t s -> h0 !! q = Some b0 -> bi_Prev b0 = Some pre -> undo_data q pre (bi_Height b0) uss ->
  wp (write_undo free q pre uss) (fun _ s' => ledger t s' /\ s_view s' = s_view s /\ exists b, c_heap (s_chain s') !! q = Some b /\ HasUndo b = true) (ledger t) s.
Proof.
  intros Hl Hq0 Hp Hdata. pose proof Hl as [Hc Hs Ht Hco Hbest Hpool Hf Hu]. destruct (same_tree_fwd _ _ _ _ Hs Hq0) as (b & Hq & Hsi).
  unfold write_undo. do 4 wp_step. intros b' Hb'. rw (bload_Some _ _ _ Hq) in Hb'. injection Hb' as <-.
  assert (forall s1 b1, ledger t s1 -> s_view s1 = s_view s -> c_heap (s_chain s1) !! q = Some b1 -> HasUndo b1 = true ->
    wp (upd_index q (fun b => (RaiseValidity BlockValidScripts b).2);; dirty_index q) (fun _ s' => ledger t s' /\ s_view s' = s_view s /\ exists b, c_heap (s_chain s') !! q = Some b /\ HasUndo b = true) (ledger t) s1) as Hrest.
  { intros s1 b1 Hl1 Hv1 Hq1 Hu1. wp_step. eapply lwp_mono; [by apply (ledger_upd_index t q _ b1 s1 Hl1 Hq1), same_status_raise| |done]. cbn beta. intros _ s2 (Hl2 & Hq2 & Hv2).
    eapply lwp_mono; [by apply (ledger_dirty t q s2)| |done]. cbn beta. intros _ s3 (Hl3 & Hc3 & Hv3). split_and!; [done|congruence|]. rw Hc3. eexists. split; [exact Hq2|]. by rw (ss_undo _ _ (same_status_raise b1)). }
  unfold GetUndoPos, Pos_IsNull. destruct (HasUndo b) eqn:Eu; cbn [of_pos pos_File fst snd].
  - destruct (Hf) as [_ _ Hfu _]. assert (bi_Prev b = Some pre) as Hpb by (pose proof (links_inv _ _ (si_links _ _ Hsi)) as (_ & _ & -> & _); done).
    destruct (Hfu q b pre Hq Hpb Eu) as (_ & _ & _ & _ & (Hpos & _)). cbn [pos_File] in Hpos. destruct (Z.eqb_spec (bi_File b) (-1)); [lia|]. cbn [orb].
    destruct (negb _); [wp_step; wp_step; by apply (Hrest s b)|]. wp_step. split_and!; [done|done|by exists b].
  - change (-1 =? -1) with true. cbn [orb]. do 3 wp_step. destruct (undo_written q b0 pre uss Hq0 Hp Hdata) as (data & Hser & Hw). intros size Hsize. unfold BlockUndo_SerializeSize in Hsize. rw Hser in Hsize. injection Hsize as <-.
    do 2 wp_step. wp_step. wp_step; [|done]. intros [pos d1] Hfind. cbn beta iota. wp_step. unfold wp at 1, put_persist at 1. wp_step. unfold index_hash. do 3 wp_step. cbn [s_chain s_persist].
    assert (hash_of Sha256 (c_heap (s_chain s)) pre = block_hash pre) as -> by (symmetry; by apply hash_of_proper; [apply same_tree_links|]).
    destruct (FindUndoPos_infos _ _ _ _ _ Hfind) as (i & Hfile & _ & _ & _ & Hpf). assert (exists d2, UndoWriteToDisk uss pos (block_hash pre) d1 = Ok d2) as [d2 Hwr].
    { unfold UndoWriteToDisk, Pos_IsNull. destruct (Z.eqb_spec (pos_File pos) (-1)); [lia|]. rw Hser. by eexists. }
    wp_step. apply (wp_of_disk_ok d2); [done|]. do 2 wp_step. cbn [s_persist]. wp_step. unfold wp at 1, put_persist at 1. cbn [s_chain s_view s_pool s_persist shutdownScheduled].
    pose proof (files_undo _ _ q b b0 pre uss data pos d1 d2 Hf Hs Hq Hq0 Hp Eu Hdata Hser Hfind Hwr) as Hf2. unfold upd_index at 1. do 3 wp_step. cbn [s_chain].
    apply (wp_pure_ok b); [by apply bload_Some|]. unfold wp at 1, put_chain at 1. fold (set_undo (pos_Pos pos) b). cbn [s_chain s_view s_pool s_persist shutdownScheduled].
    destruct (set_undo_index (pos_Pos pos) b) as [Hi1 Hu1]. apply (Hrest _ (set_undo (pos_Pos pos) b)); [|done|by rw /= lookup_insert_eq|done].
    split; cbn [s_chain s_view s_pool s_persist]; [by eapply chain_ok_upd|by eapply same_tree_upd|done|done|done|done|done|by eapply undoable_upd].
Qed.
Lemma best_block {E} t s : ledger t s -> GetBestBlock (E := E) (s_view s) = Ok (Some (block_hash t), s_view s).
Proof. intros Hl. destruct (ag_best _ _ _ _ _ Hl) as [Hb Hn]. unfold GetBestBlock. by rw Hb Hn. Qed.
Lemma ledger_view t s v : ledger t s -> cache_ok T v (coins t) -> hashBlock v = hashBlock (s_view s) -> ledger t (mkCS _ (s_chain s) v (s_pool s) (s_persist s) (shutdownScheduled s)).
Proof. intros [Hc Hs Ht Hco [Hb Hn] Hp Hf Hu] Hv Hh. by split; cbn; rw ?Hh. Qed.
Lemma ConnectBlock_ok q b0 pre blk s : ledger pre s -> h0 !! q = Some b0 -> bi_Prev b0 = Some pre -> is_block q blk ->
  wp (ConnectBlock grow drain params Excessiveblocksize minimumChainWork HashAssumeValid BIP34Hash free blk q false)
    (fun r s' => ledger pre s' /\ Block_GetHash Sha256 r.1 = block_hash q /\ cm_rep T (s_view s') (coins pre) r.2 (coins q) /\ exists b, c_heap (s_chain s') !! q = Some b /\ HasUndo b = true)
    (ledger pre) s.
Proof.
  intros Hl Hq0 Hp [Htx Hbh]. pose proof (lt_fits Htree q b0 pre Hq0 Hp) as Hfit. destruct (same_tree_fwd _ _ _ _ (ag_tree _ _ _ _ _ Hl) Hq0) as (b & Hq & Hsi).
  pose proof (links_inv _ _ (si_links _ _ Hsi)) as (_ & _ & Hpb & _ & Hh & _).
  unfold ConnectBlock. wp_step. wp_step; [|done]. intros blk1 Hck. destruct (CheckBlock_Header _ _ _ _ _ _ Hck) as (Hhd & Htxs & _). do 2 wp_step. wp_step. apply (wp_pure_ok b); [by apply bload_Some|].
  do 2 wp_step. wp_step. apply (wp_pure_ok (Some (block_hash pre), s_view s)); [by apply best_block|]. cbn beta iota. wp_step. unfold wp at 1, put_view at 1.
  set (s1 := mkCS _ _ _ _ _ _). assert (ledger pre s1) as Hl1 by (apply ledger_view; [done|apply (ag_coins _ _ _ _ _ Hl)|done]). destruct (negb _); [wp_step|].
  assert (Block_GetHash Sha256 blk1 = block_hash q) as Hbh1 by (unfold Block_GetHash; rw Hhd; exact Hbh). rw Hbh1. rw bool_decide_false; [|apply (fit_genesis _ _ _ Hfit)].
  wp_step. wp_step. intros chk _. wp_step. rw Hpb Hp. apply (wp_pure_ok pre); [done|]. wp_step. wp_step. intros bip30 _. wp_step. wp_step. intros flags _.
  destruct (Block_SerializeSize blk1) as [size blk2] eqn:Ebs. assert (Header blk2 = Header blk1 /\ Txs blk2 = Txs blk1) as [Hh2 Ht2] by (unfold Block_SerializeSize in Ebs; destruct (negb _); by injection Ebs as _ <-).
  destruct (GetMaxBlockSigOpsCount (u64 size)) as [maxOps|]; [|by wp_step]. wp_step. wp_step. intros cv _. wp_step. wp_step. intros mtp _. wp_step. wp_step; [|done].
  intros [[cm uss] v'] Happ. cbn beta iota. destruct (ApplyBlockTransactions _ _ _ _ _ _ _ _ _ _ _ _ _ _) as [[[cm' uss'] v'']|e|] eqn:Ea; [|done|done]. injection Happ as -> -> ->. change (s_view s1) with (s_view s) in Ea.
  destruct (fit_txs _ _ _ Hfit) as (cb0 & rest0 & Ht0 & Hconn0). rw Ht0 -Htxs -Ht2 in Htx. destruct (Txs blk2) as [|cb rest] eqn:Etx; [by inversion Htx|]. pose proof (conn_same _ _ _ _ _ Htx Hconn0) as Hconn.
  rw Hh in Ea. pose proof (ApplyBlockTransactions_best _ _ _ _ _ _ _ _ _ _ _ _ _ _ _ _ _ (eq_ind_r (fun x => Hash_IsNull x = false) (proj2 (ag_best _ _ _ _ _ Hl)) (proj1 (ag_best _ _ _ _ _ Hl))) Ea) as Hhash.
  destruct (ApplyBlockTransactions_rep T HT (coins pre) (bi_Height b0) (fit_height _ _ _ Hfit) grow drain _ cv cb rest _ _ _ _ _ _ _ _ _ _ _ (ag_coins _ _ _ _ _ Hl) Hconn Ea) as (Hco' & Hcm & Hu & _ & Hnd).
  pose proof Htx as Htx1. apply Forall2_cons in Htx as [_ Htx]. rw (same_coins_of _ _ _ Htx1) (same_spends _ _ Htx) -(coins_step q b0 pre cb0 rest0 Hq0 Hp Ht0) in Hcm.
  rw (same_coins_of _ _ _ Htx1) in Hu. apply (same_undo _ _ _ Htx) in Hu. rw (same_spends _ _ Htx) in Hnd.
  assert (undo_data q pre (bi_Height b0) uss) as Hdata by (by exists cb0, rest0). wp_step. unfold wp at 1, put_view at 1. cbn [s_chain s_view s_pool s_persist shutdownScheduled].
  set (s2 := mkCS _ _ v' _ _ _). assert (ledger pre s2) as Hl2 by (by apply (ledger_view pre s)). wp_step. eapply lwp_mono; [by apply (write_undo_ok pre q b0 pre uss s2 Hl2)| |done]. cbn beta.
  intros _ s3 (Hl3 & Hv3 & Hb3). wp_step. wp_step. intros just _. wp_step.
  assert (wp (if just then put_pool NewTxMempool else mret tt) (fun _ s' => ledger pre s' /\ s_chain s' = s_chain s3 /\ s_view s' = s_view s3) (ledger pre) s3) as Hj.
  { destruct just; [|by wp_step]. apply ledger_pool; [done|apply known_new]. }
  eapply lwp_mono; [exact Hj| |done]. cbn beta. intros _ s4 (Hl4 & Hc4 & Hv4). wp_step. cbn [fst snd]. split_and!; [done|unfold Block_GetHash; by rw Hh2|by rw Hv4 Hv3|by rw Hc4].
Qed.

(** *** Flushing *)
Lemma FlushStateToDisk_inv {E} mode usage max h g st g' st' : FlushStateToDisk (E := E) range_coins free nano mode usage max h g st = Ok (g', st') ->
  (p_disk g' = p_disk g \/ p_disk g' = with_dirty ∅ (p_disk g)) /\ (st' = st \/ Flush (E := E) range_coins st = Ok st') /\ (mode = FlushStateAlways -> Flush (E := E) range_coins st = Ok st').
Proof.
  unfold FlushStateToDisk. cbv zeta. match goal with |- context [if (?f || ?w)%bool then _ else Ok (p_disk g, _, _, _)] => set (full := f); set (periodic := w) end. intros ([[[d t] dirty] lw] & Hx1 & ([st1 lf] & Hx2 & Hx)%res_bind_inv)%res_bind_inv. injection Hx as <- <-. cbn [p_disk]. split_and!.
  - destruct (full || periodic); [|injection Hx1 as <- _ _ _; by left]. apply res_bind_inv in Hx1 as (? & _ & (d1 & Hd1 & (? & _ & (? & _ & Hx1)%res_bind_inv)%res_bind_inv)%res_bind_inv). injection Hx1 as <- _ _ _.
    right. f_equal. unfold FlushBlockFile in Hd1. destruct (_ =? -1); by injection Hd1 as <-.
  - destruct full; [|injection Hx2 as <- _; by left]. apply res_bind_inv in Hx2 as (? & _ & (st2 & Hf & Hx2)%res_bind_inv). injection Hx2 as <- _. by right.
  - intros ->. unfold full in Hx2. cbn [orb] in Hx2. apply res_bind_inv in Hx2 as (? & _ & (st2 & Hf & Hx2)%res_bind_inv). by injection Hx2 as <- _.
Qed.
Lemma Flush_clean {E} st U st' : cache_ok T st U -> Hash_IsNull (hashBlock st) = false -> Flush (E := E) range_coins st = Ok st' -> cache_ok T st' U /\ hashBlock st' = hashBlock st.
Proof.
  intros Hc Hn Hf. destruct (commit_rep (E := E) T HT range_coins Hcoins st U ∅ U (hashBlock st) Hc (cm_rep_empty T HT st U) Hn) as (s1 & s2 & Hu & Hf1 & Hc2 & Hh2 & _).
  unfold UpdateCoins in Hu. assert (range_coins ∅ = []) as Hr by (apply Permutation_nil_r; by rw Hcoins map_to_list_empty). rw Hr in Hu. cbn in Hu. injection Hu as <-.
  assert (mkCache _ (db st) (hashBlock st) (cacheCoins st) (dirtyCoins st) = st) as Hst by (by destruct st). rw Hst in Hf1. rw Hf1 in Hf. injection Hf as <-. by split.
Qed.
Lemma files_dirty h d x : files_ok h d -> files_ok h (with_dirty x d).
Proof. intros [[Hi Hc Hl] Hb Hu Hr]. split; [by split|exact Hb|exact Hu|exact Hr]. Qed.
Lemma files_either h d d' : d' = d \/ d' = with_dirty ∅ d -> files_ok h d -> files_ok h d'.
Proof. intros [->| ->]; [done|apply files_dirty]. Qed.
Lemma ledger_flush t mode s : ledger t s -> wp (flush range_coins nano free mode) (fun _ s' => ledger t s' /\ s_chain s' = s_chain s) (ledger t) s.
Proof.
  intros Hl. pose proof Hl as [Hc Hs Ht Hco [Hb Hn] Hp Hf Hu]. unfold flush. do 8 wp_step. wp_step. wp_step. intros [g v] Hfl. cbn beta iota. destruct (FlushStateToDisk_inv _ _ _ _ _ _ _ _ Hfl) as (Hd & Hv & _).
  unfold wp, mbind, lc_bind, put_persist, put_view. cbn [s_chain s_view s_pool s_persist]. split; [|done]. assert (cache_ok T v (coins t) /\ hashBlock v = hashBlock (s_view s)) as [Hcv Hhv].
  { destruct Hv as [->|Hv]; [done|]. by apply (Flush_clean _ _ _ Hco ltac:(by rw Hb) Hv). }
  split; cbn [s_chain s_view s_pool s_persist]; [done|done|done|done|by rw Hhv|done|by eapply files_either|done].
Qed.

(** *** The tip *)
Lemma read_block_ok t q b0 pre (R : chain_state -> Prop) s : ledger t s -> h0 !! q = Some b0 -> bi_Prev b0 = Some pre -> R s ->
  wp (read_block params q) (fun blk s' => s' = s /\ blk = blk_of q /\ HasData b0 = true) R s.
Proof.
  intros Hl Hq0 Hp HR. pose proof (lt_fits Htree q b0 pre Hq0 Hp) as Hfit. destruct (same_tree_fwd _ _ _ _ (ag_tree _ _ _ _ _ Hl) Hq0) as (b & Hq & Hsi). pose proof (links_inv _ _ (si_links _ _ Hsi)) as (Hhd & Hbh & Hpb & _).
  unfold read_block. do 4 wp_step. wp_step. apply (wp_pure_ok b); [by apply bload_Some|]. wp_step. wp_step. intros r Hr. unfold ReadBlockFromDisk, GetBlockPos in Hr. destruct (HasData b) eqn:Ed; last first.
  { cbn in Hr. injection Hr as <-. by wp_step. }
  destruct (fit_wf _ _ _ Hfit) as [Hwf Hsz]. pose proof (fo_block _ _ (ag_files _ _ _ _ _ Hl) q b pre Hq ltac:(by rw Hpb) Ed) as Hat.
  rw (block_at_read params _ (of_pos (bi_File b, bi_DataPos b)) (blk_of q) Hwf Hsz Hat) in Hr; [|rw (fit_read _ _ _ Hfit); apply (fit_pow _ _ _ Hfit)]. rw (fit_read _ _ _ Hfit) in Hr.
  destruct (bool_decide _); injection Hr as <-; wp_step; last done. split_and!; [done|done|]. by rw -(si_data _ _ Hsi).
Qed.
Lemma ledger_tip t q b0 c v0 v m d l cur : agree t c v0 m d -> h0 !! q = Some b0 ->
  path_to (c_heap c) l (Some q) -> undoable (c_heap c) q -> cache_ok T v (coins q) -> hashBlock v = block_hash q -> Hash_IsNull (block_hash q) = false ->
  agree q (mkChain (c_heap c) l (branch c) (orphan c) (indexMap c) (receiveID c) (pindexBestHeader c) (Some q) cur) v m d.
Proof.
  intros [[Htr _ [Hi Hbh]] Hs _ _ _ Hp Hf _] Hq Hl Hu Hco Hb Hn. split; cbn; try done.
Qed.
Lemma UpdateTip_ok t q b0 s : ledger t s -> h0 !! q = Some b0 -> undoable (c_heap (s_chain s)) q -> forall v, cache_ok T v (coins q) -> hashBlock v = block_hash q -> Hash_IsNull (block_hash q) = false ->
  exists s', UpdateTip minimumChainWork now (Some q) (mkCS _ (s_chain s) v (s_pool s) (s_persist s) (shutdownScheduled s)) = (s', Ok tt) /\ ledger q s' /\
    c_heap (s_chain s') = c_heap (s_chain s) /\ branch (s_chain s') = branch (s_chain s).
Proof.
  intros Hl Hq0 Hu v Hv Hb Hn. destruct (same_tree_fwd _ _ _ _ (ag_tree _ _ _ _ _ Hl) Hq0) as (b & Hq & _). destruct (SetTip_ok (E := Empty_set) now minimumChainWork (s_chain s) (Some q) (ag_chain _ _ _ _ _ Hl)) as (l & cur & Hset & Hpath); [intros r [= <-]; by eexists|].
  unfold UpdateTip. cbv beta iota delta [mbind lc_bind lc_get lc_pure put_chain mret lc_ret]. cbn [s_chain s_view s_pool s_persist shutdownScheduled]. rw Hset. cbn [tip deref s_chain s_view s_pool s_persist shutdownScheduled].
  eexists. split; [reflexivity|]. split; [|by split]. unfold ledger. cbn [s_chain s_view s_pool s_persist]. eapply ledger_tip; [exact Hl|done|exact Hpath|done|done|done|done].
Qed.
Lemma undoable_next h q b0 b pre : undoable h pre -> h0 !! q = Some b0 -> bi_Prev b0 = Some pre -> h !! q = Some b -> HasData b = true -> HasUndo b = true -> undoable h q.
Proof.
  intros Hu Hq0 Hp Hq Hd Hun [|n] x bx Hw Hx Hne; [injection Hw as <-; rw Hq in Hx; by injection Hx as <-|]. cbn [walk] in Hw. rw Hq0 in Hw. cbn in Hw. rw Hp in Hw. by apply (Hu n x bx).
Qed.
Lemma undoable_prev h q b0 pre : undoable h q -> h0 !! q = Some b0 -> bi_Prev b0 = Some pre -> undoable h pre.
Proof. intros Hu Hq0 Hp n x bx Hw. apply (Hu (S n)). cbn [walk]. rw Hq0. cbn. by rw Hp. Qed.
Lemma InvalidBlockFound_ok t q b0 s : ledger t s -> h0 !! q = Some b0 -> wp (InvalidBlockFound q) (fun _ s' => ledger t s') (ledger t) s.
Proof.
  intros Hl Hq0. destruct (same_tree_fwd _ _ _ _ (ag_tree _ _ _ _ _ Hl) Hq0) as (b & Hq & _). unfold InvalidBlockFound. wp_step. eapply lwp_mono; [by apply (ledger_upd_index t q _ b s Hl Hq), same_status_add| |done]. cbn beta.
  intros _ s1 (Hl1 & _). do 2 wp_step. wp_step. unfold wp at 1, put_chain at 1. eapply lwp_mono; [apply (ledger_dirty t q)|by intros ? ? [? _]|done].
  destruct Hl1 as [[Htr Hpa [Hi Hbh]] Hs Ht Hco Hb Hp Hf Hu]. by split.
Qed.
(** A block is connected, or the state stays at the old tip. *)
Lemma ConnectTip_ok q b0 pre block s : ledger pre s -> h0 !! q = Some b0 -> bi_Prev b0 = Some pre -> (forall blk, block = Some blk -> is_block q blk /\ HasData b0 = true) ->
  wp (ConnectTip grow drain range_coins range params Excessiveblocksize minimumChainWork HashAssumeValid BIP34Hash now nano free q block) (fun _ s' => ledger q s') (ledger pre) s.
Proof.
  intros Hl Hq0 Hp Hblk. pose proof (lt_fits Htree q b0 pre Hq0 Hp) as Hfit. destruct (same_tree_fwd _ _ _ _ (ag_tree _ _ _ _ _ Hl) Hq0) as (b & Hq & Hsi).
  unfold ConnectTip. do 2 wp_step. wp_step. apply (wp_pure_ok b); [by apply bload_Some|]. destruct (negb _); [wp_step|]. wp_step.
  assert (wp (match block with Some blk => mret blk | None => read_block params q end) (fun blk s' => s' = s /\ is_block q blk /\ HasData b0 = true) (ledger pre) s) as Hget.
  { destruct block as [blk|]; [wp_step; by destruct (Hblk blk eq_refl)|]. eapply lwp_mono; [by apply (read_block_ok pre q b0 pre (ledger pre) s)| |done]. cbn beta. intros blk s' (-> & -> & Hd). split_and!; [done| |done].
    split; [|apply (fit_hash _ _ _ Hfit)]. apply Forall2_same_length_lookup_2; [done|]. intros i x y Hx Hy. rw Hx in Hy. injection Hy as <-. apply same_tx_refl. }
  eapply lwp_mono; [exact Hget| |done]. cbn beta. intros blk s1 (-> & Hib & Hd). wp_step. wp_step. eapply lwp_mono; [by apply (ConnectBlock_ok q b0 pre blk s)| |]; cbn beta; last first.
  { intros s1 Hl1 e. wp_step. eapply lwp_mono; [by apply (InvalidBlockFound_ok pre q b0)| |done]. cbn beta. intros _ s2 Hl2. by wp_step. }
  intros [blk1 cm] s1 (Hl1 & Hbh & Hcm & b1 & Hq1 & Hu1). cbn [fst snd] in *. do 2 wp_step. wp_step.
  destruct (commit_rep (E := Empty_set) T HT range_coins Hcoins (s_view s1) (coins pre) cm (coins q) (block_hash q) (ag_coins _ _ _ _ _ Hl1) Hcm (proj1 (fit_null _ _ _ Hfit))) as (v1 & v2 & Huc & Hfl & Hco2 & Hh2 & _).
  rw Hbh. apply (wp_pure_ok v1); [done|]. wp_step. unfold wp at 1, put_view at 1. wp_step. unfold flush. do 8 wp_step. cbn [s_chain s_view s_pool s_persist shutdownScheduled]. wp_step.
  wp_step. intros [g v] Efl. destruct (FlushStateToDisk_inv _ _ _ _ _ _ _ _ Efl) as (Hdk & _ & Hv). rw (Hv eq_refl) in Hfl. injection Hfl as ->. cbn beta iota.
  wp_step. unfold wp at 1, put_persist at 1. cbn [s_chain s_view s_pool s_persist shutdownScheduled]. unfold wp at 1, put_view at 1. cbn [s_chain s_view s_pool s_persist shutdownScheduled].
  do 2 wp_step. wp_step. cbn [s_pool]. wp_step. intros m1 Em. wp_step. unfold wp at 1, put_pool at 1. cbn [s_chain s_view s_pool s_persist shutdownScheduled].
  set (s2 := mkCS _ (s_chain s1) (s_view s1) m1 g (shutdownScheduled s1)). assert (ledger pre s2) as Hl2.
  { destruct Hl1 as [Hc Hs Ht Hco Hb Hpo Hf Hu]. split; [done|done|done|done|done| |by eapply files_either|done]. eapply known_pool_same; [by eapply RemoveTxSelf_same|done]. }
  destruct (same_tree_fwd _ _ _ _ (ag_tree _ _ _ _ _ Hl1) Hq0) as (b2 & Hq2 & Hsi2). rw Hq1 in Hq2. injection Hq2 as <-.
  destruct (UpdateTip_ok pre q b0 s2 Hl2 Hq0) with (v := v2) as (s3 & Hup & Hl3 & _); [|done|done|apply (fit_null _ _ _ Hfit)|].
  { eapply (undoable_next _ q b0 b1 pre); [apply (ag_undo _ _ _ _ _ Hl2)|done|done|done|by rw (si_data _ _ Hsi2)|done]. }
  unfold wp. cbn [s_chain s_pool s_persist shutdownScheduled s2] in Hup. rw Hup. done.
Qed.

(** ** Disconnecting the tip *)
Lemma bind_run {A B} (m : lc A) (f : A -> lc B) s s1 a : m s = (s1, Ok a) -> (m ≫= f) s = f a s1.
Proof. intros Hm. unfold mbind, lc_bind. by rw Hm. Qed.
Lemma get_run {A B} (f : chain_state -> A) (g : A -> lc B) s : (lc_get f ≫= g) s = g (f s) s.
Proof. done. Qed.
Lemma pure_run {A} (r : res Empty_set A) a s : r = Ok a -> lc_pure r s = (s, Ok a).
Proof. by intros ->. Qed.
Lemma heap_hash t s q : ledger t s -> hash_of Sha256 (c_heap (s_chain s)) q = block_hash q.
Proof. intros Hl. symmetry. apply hash_of_proper; [apply same_tree_links, (ag_tree _ _ _ _ _ Hl)|done]. Qed.
Lemma read_block_run t q b0 pre s : ledger t s -> h0 !! q = Some b0 -> bi_Prev b0 = Some pre -> HasData b0 = true -> read_block params q s = (s, Ok (blk_of q)).
Proof.
  intros Hl Hq0 Hp Hd. pose proof (lt_fits Htree q b0 pre Hq0 Hp) as Hfit. destruct (same_tree_fwd _ _ _ _ (ag_tree _ _ _ _ _ Hl) Hq0) as (b & Hq & Hsi). pose proof (links_inv _ _ (si_links _ _ Hsi)) as (_ & _ & Hpb & _).
  assert (HasData b = true) as Ed by (by rw (si_data _ _ Hsi)). destruct (fit_wf _ _ _ Hfit) as [Hwf Hsz]. pose proof (fo_block _ _ (ag_files _ _ _ _ _ Hl) q b pre Hq ltac:(by rw Hpb) Ed) as Hat.
  assert (ReadBlockFromDisk (E := Empty_set) params b (p_disk (s_persist s)) = Ok (Some (blk_of q))) as Hr.
  { unfold ReadBlockFromDisk, GetBlockPos. rw Ed. rw (block_at_read params _ (of_pos (bi_File b, bi_DataPos b)) (blk_of q) Hwf Hsz Hat); [|rw (fit_read _ _ _ Hfit); apply (fit_pow _ _ _ Hfit)]. rw (fit_read _ _ _ Hfit).
    rw bool_decide_true; [done|]. rw (fit_hash _ _ _ Hfit) -(heap_hash t s q Hl). unfold hash_of. by rw Hq. }
  unfold read_block. cbv beta iota delta [mbind lc_bind lc_get]. rw (pure_run _ _ _ (bload_Some _ _ _ Hq)) (pure_run _ _ _ Hr). done.
Qed.
Lemma flush_needed_run s : exists g, flush range_coins nano free FlushStateIfNeeded s = (mkCS _ (s_chain s) (s_view s) (s_pool s) g (shutdownScheduled s), Ok tt) /\ p_disk g = p_disk (s_persist s).
Proof.
  unfold flush. cbv beta iota delta [mbind lc_bind lc_get]. unfold FlushStateToDisk. cbv zeta. assert (forall a b, cache_critical a b = false) as Hc by (intros a b; unfold cache_critical, DynamicMemoryUsage; lia).
  rw Hc. cbn. eexists. split; [reflexivity|done].
Qed.
Lemma just_enabled_run {E : Type} rule h q b : tree_ok h -> h !! q = Some b -> exists r, just_enabled (E := E) rule h q = Ok r.
Proof.
  intros Ht Hq. unfold just_enabled. rw (bload_Some _ _ _ Hq). cbn [mbind res_bind]. destruct (bi_Prev b) as [pre|] eqn:Ep; [|by eexists]. destruct (tr_prev h Ht q b pre Hq Ep) as (pb & Hpb & _).
  rw (GetMedianTimePast_ok h pre Ht (mk_is_Some _ _ Hpb)). cbn [mbind res_bind]. rw (GetMedianTimePast_ok h q Ht (mk_is_Some _ _ Hq)). cbn [mbind res_bind]. destruct (negb _); by eexists.
Qed.
Lemma undo_run t q b b0 pre s : ledger t s -> c_heap (s_chain s) !! q = Some b -> h0 !! q = Some b0 -> bi_Prev b0 = Some pre -> HasUndo b = true ->
  exists uss, undo_data q pre (bi_Height b0) uss /\ UndoReadFromDisk (E := Empty_set) (of_pos (GetUndoPos b)) (block_hash pre) (p_disk (s_persist s)) = Ok (Some (map (map undo_coin) uss)) /\ Pos_IsNull (of_pos (GetUndoPos b)) = false.
Proof.
  intros Hl Hq Hq0 Hp Hu. destruct (same_tree_back _ _ _ _ (ag_tree _ _ _ _ _ Hl) Hq) as (b0' & Hb0 & Hsi). rw Hq0 in Hb0. injection Hb0 as <-. pose proof (links_inv _ _ (si_links _ _ Hsi)) as (_ & _ & Hpb & _ & Hh & _).
  destruct (fo_undo _ _ (ag_files _ _ _ _ _ Hl) q b pre Hq ltac:(by rw Hpb) Hu) as (uss & data & Hdata & Hser & Hat). rw Hh in Hdata. exists uss. split; [done|]. unfold GetUndoPos. rw Hu. split.
  - apply (undo_at_read _ _ _ uss data Hsha); [by eapply undo_storable|done| |exact Hat]. pose proof (fit_undo _ _ _ (lt_fits Htree q b0 pre Hq0 Hp) uss data Hdata Hser). pose proof (lt_bound Htree q). split; lia.
  - destruct Hat as (Hf & _). cbn in *. unfold Pos_IsNull. cbn. lia.
Qed.
Lemma DisconnectBlock_run q b0 pre s : ledger q s -> h0 !! q = Some b0 -> bi_Prev b0 = Some pre -> exists v1 v2,
  DisconnectBlock range_coins (blk_of q) q s = (mkCS _ (s_chain s) v1 (s_pool s) (s_persist s) (shutdownScheduled s), Ok (DisconnectOk, ∅)) /\
  UpdateCoins (E := Empty_set) range_coins v1 ∅ (block_hash pre) = Ok v1 /\ Flush (E := Empty_set) range_coins v1 = Ok v2 /\ cache_ok T v2 (coins pre) /\ hashBlock v2 = block_hash pre.
Proof.
  intros Hl Hq0 Hp. pose proof (lt_fits Htree q b0 pre Hq0 Hp) as Hfit. destruct (same_tree_fwd _ _ _ _ (ag_tree _ _ _ _ _ Hl) Hq0) as (b & Hq & Hsi). pose proof (links_inv _ _ (si_links _ _ Hsi)) as (_ & _ & Hpb & _ & Hh & _).
  destruct (ag_undo _ _ _ _ _ Hl 0%nat q b eq_refl Hq ltac:(by rw Hpb Hp)) as [_ Hu]. destruct (undo_run q q b b0 pre s Hl Hq Hq0 Hp Hu) as (uss & (cb & rest & Htx & Huo & Hnd) & Hread & Hnull).
  destruct (fit_txs _ _ _ Hfit) as (cb0 & rest0 & Ht0 & Hconn). rw Htx in Ht0. injection Ht0 as <- <-. pose proof (ag_coins _ _ _ _ _ Hl) as Hco. rw (coins_step q b0 pre cb rest Hq0 Hp Htx) in Hco.
  destruct (ApplyBlockUndo_rep (E := Empty_set) T HT (coins pre) (bi_Height b0) range_coins Hcoins cb rest (blk_of q) uss (s_view s) Htx Hco Hconn Huo Hnd) as (v1 & v2 & Hap & Huc & Hfl & Hc2 & Hh2).
  { rw (fit_prev _ _ _ Hfit). apply (fit_null _ _ _ Hfit). }
  rw (fit_prev _ _ _ Hfit) in Huc Hh2. exists v1, v2. split; [|done]. unfold DisconnectBlock. cbv beta iota delta [mbind lc_bind lc_get]. rw (pure_run _ _ _ (bload_Some _ _ _ Hq)) (pure_run _ _ _ (best_block q s Hl)).
  cbn [put_view s_chain s_view s_pool s_persist shutdownScheduled]. rw (heap_hash q s q Hl). rw bool_decide_true; [|done]. cbn [negb]. rw Hnull Hpb Hp. cbn [deref lc_pure s_chain s_persist]. rw (heap_hash q s pre Hl) Hread. cbn [lc_pure s_view]. rw Hh Hap. done.
Qed.
Abbreviation Resurrect := (resurrect grow drain range sizeof_TxEntry overflow params conf now adjusted).
Abbreviation Disconnect_tip := (DisconnectTip grow drain range_coins range sizeof_TxEntry overflow params conf minimumChainWork now adjusted nano free).
(** The tip is disconnected; what remains is to offer its transactions to the pool. *)
Lemma DisconnectTip_run q b0 pre s : ledger q s -> h0 !! q = Some b0 -> bi_Prev b0 = Some pre ->
  exists s1, ledger pre s1 /\ forall fBare, Disconnect_tip fBare s = (if fBare then mret tt else Resurrect (Txs (blk_of q))) s1.
Proof.
  intros Hl Hq0 Hp. pose proof (lt_fits Htree q b0 pre Hq0 Hp) as Hfit. destruct (same_tree_fwd _ _ _ _ (ag_tree _ _ _ _ _ Hl) Hq0) as (b & Hq & Hsi). pose proof (links_inv _ _ (si_links _ _ Hsi)) as (_ & _ & Hpb & _).
  destruct (ag_undo _ _ _ _ _ Hl 0%nat q b eq_refl Hq ltac:(by rw Hpb Hp)) as [Hd _]. rw (si_data _ _ Hsi) in Hd. destruct (DisconnectBlock_run q b0 pre s Hl Hq0 Hp) as (v1 & v2 & Hdis & Huc & Hfl & Hc2 & Hh2).
  pose proof (co_tree _ (ag_chain _ _ _ _ _ Hl)) as Htr. destruct (just_enabled_run (E := Empty_set) (IsReplayProtectionEnabled (pp_forks params)) _ q b Htr Hq) as [r1 Hr1].
  destruct (just_enabled_run (E := Empty_set) (IsMagneticAnomalyEnabled (fp_net (pp_forks params))) _ q b Htr Hq) as [r2 Hr2].
  destruct (flush_needed_run (mkCS _ (s_chain s) v2 (s_pool s) (s_persist s) (shutdownScheduled s))) as (g & Hflush & Hg).
  set (pool := if r1 || r2 then NewTxMempool else s_pool s). set (s0 := mkCS _ (s_chain s) (s_view s) pool g (shutdownScheduled s)). assert (ledger q s0) as Hl0.
  { destruct Hl as [Hc Hs Ht Hco Hb Hpo Hf Hu]. split; cbn [s_chain s_view s_pool s_persist s0]; [done|done|done|done|done| |by rw Hg|done]. unfold pool. destruct (r1 || r2); [apply known_new|done]. }
  destruct (tr_prev h0 (lt_tree Htree) q b0 pre Hq0 Hp) as (pb & Hpb0 & _).
  destruct (UpdateTip_ok q pre pb s0 Hl0 Hpb0 ltac:(eapply undoable_prev; [apply (ag_undo _ _ _ _ _ Hl0)|done|done]) v2 Hc2 Hh2 (proj2 (fit_null _ _ _ Hfit))) as (s1 & Hup & Hl1 & _).
  exists s1. split; [done|]. intros fBare. unfold DisconnectTip. rw (bind_run _ _ s s (s_chain s) eq_refl) (bind_run _ _ s s q); last by apply pure_run; rw (ag_tip _ _ _ _ _ Hl).
  rw (bind_run _ _ s s (blk_of q)); last by apply (read_block_run q q b0 pre). rw (bind_run _ _ s s b); last by apply pure_run, bload_Some. rw (bind_run _ _ s _ _ Hdis). cbn beta iota. rw bool_decide_true; [|done]. cbn [negb].
  set (sd := mkCS _ (s_chain s) v1 (s_pool s) (s_persist s) (shutdownScheduled s)). rw (bind_run _ _ sd sd v1 eq_refl) (fit_prev _ _ _ Hfit) (bind_run _ _ sd sd v1); last by apply pure_run.
  rw (bind_run _ _ sd sd v2); last by apply pure_run. rw (bind_run _ _ sd (mkCS _ (s_chain s) v2 (s_pool s) (s_persist s) (shutdownScheduled s)) tt eq_refl) (bind_run _ _ _ _ _ Hflush). cbn [s_chain s_view s_pool shutdownScheduled].
  set (sf := mkCS _ (s_chain s) v2 (s_pool s) g (shutdownScheduled s)). rw (bind_run _ _ sf sf r1); last by apply pure_run.
  rw (bind_run _ _ sf sf (r1 || r2)); last by destruct r1; [|apply pure_run]. rw (bind_run _ _ sf (mkCS _ (s_chain s) v2 pool g (shutdownScheduled s)) tt); last by unfold pool; destruct (r1 || r2).
  rw Hpb Hp. by rw (bind_run _ _ _ _ _ Hup).
Qed.

Lemma known_block q b pre t cb rest : h0 !! q = Some b -> bi_Prev b = Some pre -> Txs (blk_of q) = cb :: rest -> t ∈ rest -> known_tx T t.
Proof.
  intros Hq Hp Htx Ht. pose proof (lt_fits Htree q b pre Hq Hp) as Hfit. destruct (fit_txs _ _ _ Hfit) as (cb0 & rest0 & Ht0 & Hconn). rw Htx in Ht0. injection Ht0 as <- <-. destruct Hconn as [_ Htxs _ Hins _].
  apply Forall_cons in Htxs as [_ Htxs]. rewrite ->Forall_forall in Htxs. rewrite ->Forall_forall in Hins. destruct (Htxs t Ht) as [_ Hc Hid _ Hroom]. destruct (Hins t Ht) as [Hi _]. rewrite ->Forall_forall in Hi.
  destruct (fit_wf _ _ _ Hfit) as [[_ Hw _ _] _]. rw Htx in Hw. apply Forall_cons in Hw as [_ Hw]. rewrite ->Forall_forall in Hw. split; [by apply Hw|exact Hid| | |intros o x Hx; by rw lookup_empty in Hx].
  - intros o Ho. apply list_elem_of_fmap in Ho as (i & -> & Hin). by apply Hi.
  - intros j Hj. rw u32_id; [by apply Hroom|]. split; lia.
Qed.
Lemma block_known q b pre : h0 !! q = Some b -> bi_Prev b = Some pre -> Forall (fun x => IsCoinBase x = false -> known_tx T x) (Txs (blk_of q)).
Proof.
  intros Hq Hp. destruct (fit_txs _ _ _ (lt_fits Htree q b pre Hq Hp)) as (cb & rest & Htx & [Hcb _ _ _ _]). rw Htx. constructor; [by rw Hcb|]. apply Forall_forall. intros x Hx _. by eapply known_block.
Qed.
Lemma ledger_node t s : ledger t s -> tame T (coins t) (block_hash t) (mkNode _ (s_pool s) (s_view s)).
Proof. intros [Hc Hs Ht Hco [Hb Hn] Hp Hf Hu]. by split. Qed.
Lemma ledger_tame t s pool view : ledger t s -> tame T (coins t) (block_hash t) (mkNode _ pool view) -> ledger t (mkCS _ (s_chain s) view pool (s_persist s) (shutdownScheduled s)).
Proof. intros [Hc Hs Ht Hco [Hb Hn] Hp Hf Hu] [[Hv1 Hv2] Hk]. by split. Qed.
Lemma resurrect_ok t l R s : ledger t s -> Forall (fun x => IsCoinBase x = false -> known_tx T x) l -> wp (Resurrect l) (fun _ s' => ledger t s' /\ s_chain s' = s_chain s) R s.
Proof.
  intros Hl Hk. revert s Hl. induction Hk as [|x l Hx _ IH]; intros s Hl; cbn [resurrect]; [by wp_step|]. wp_step.
  assert (forall s1, ledger t s1 -> s_chain s1 = s_chain s -> wp (m ← lc_get s_pool; m ← lc_pure (removeTxRecursive Sha256 range x m); put_pool m) (fun _ s' => ledger t s' /\ s_chain s' = s_chain s) R s1) as Hrem.
  { intros s1 Hl1 Hc1. do 2 wp_step. wp_step. wp_step. intros m1 Hm. eapply lwp_mono; [apply (ledger_pool t s1 m1 R Hl1)| |done]; [|cbn; intros ? ? (? & ? & _); by split; [|congruence]].
    eapply known_pool_same; [by eapply removeTxRecursive_same|apply (ag_pool _ _ _ _ _ Hl1)]. }
  assert (forall s1 (kept : option unit), ledger t s1 -> s_chain s1 = s_chain s ->
    wp ((match kept with Some _ => mret tt | None => m ← lc_get s_pool; m ← lc_pure (removeTxRecursive Sha256 range x m); put_pool m end);; Resurrect l) (fun _ s' => ledger t s' /\ s_chain s' = s_chain s) R s1) as Hrest.
  { intros s1 kept Hl1 Hc1. wp_step. assert (wp (match kept with Some _ => mret tt | None => m ← lc_get s_pool; m ← lc_pure (removeTxRecursive Sha256 range x m); put_pool m end) (fun _ s' => ledger t s' /\ s_chain s' = s_chain s) R s1) as Hm
      by (destruct kept; [by wp_step|by apply Hrem]). eapply lwp_mono; [exact Hm| |done]. cbn beta. intros _ s2 [Hl2 Hc2]. rw -Hc2. by apply IH. }
  destruct (IsCoinBase x) eqn:Ex; [wp_step; by apply (Hrest s None)|]. do 2 wp_step. pose proof (ag_best _ _ _ _ _ Hl) as [_ Hn].
  eapply (wp_node (tame T (coins t) (block_hash t))); [apply (accept_tame T HT (coins t) grow drain Hdrain range Hrange range_orphans Horphans); [exact Hn|by apply Hx]|by apply ledger_node|].
  intros r pool view Htm. apply (Hrest _ r); [by apply ledger_tame|done].
Qed.

(** ** The best chain *)
Lemma wp_run {A} (m m' : lc A) Q R s s1 : m s = m' s1 -> wp m' Q R s1 -> wp m Q R s.
Proof. unfold wp. by intros ->. Qed.
Definition settled (s : chain_state) : Prop := exists t, ledger t s.
Abbreviation crash := (fun A : Type => @lc_crash _ A).
Lemma disconnect_to_ok fuel : forall t f n flag R s, ledger t s -> walk h0 t n = Some f ->
  wp (disconnect_to grow drain range_coins range sizeof_TxEntry overflow params conf minimumChainWork now adjusted nano free crash fuel (Some f) flag) (fun _ s' => ledger f s') R s.
Proof.
  induction fuel as [|fuel IH]; intros t f n flag R s Hl Hw; cbn [disconnect_to]; do 2 wp_step; rw (ag_tip _ _ _ _ _ Hl); cbn [bool_decide decide orb]; (rw bool_decide_false; [|done]); cbn [orb];
    (case_bool_decide as Htf; [injection Htf as <-; by wp_step|]); [wp_step|]. destruct n as [|n]; [by injection Hw as ->|]. cbn [walk] in Hw. destruct (h0 !! t) as [b0|] eqn:Et; [|done]. cbn in Hw. destruct (bi_Prev b0) as [pre|] eqn:Ep; [|done]. cbn in Hw.
  destruct (DisconnectTip_run t b0 pre s Hl Et Ep) as (s1 & Hl1 & Hrun). wp_step. eapply wp_run; [exact (Hrun false)|]. cbn match. eapply lwp_mono; [apply (resurrect_ok pre _ R s1 Hl1)| |done].
  - by apply (block_known t b0 pre).
  - cbn beta. intros _ s2 [Hl2 _]. by apply (IH pre f n).
Qed.

(** *** Ancestors *)
Lemma walk_prev t n f : walk h0 t (S n) = Some f -> exists b pre, h0 !! t = Some b /\ bi_Prev b = Some pre /\ walk h0 pre n = Some f.
Proof. cbn [walk]. destruct (h0 !! t) as [b|]; [|done]. cbn. destruct (bi_Prev b) as [pre|] eqn:Ep; [|done]. cbn. intros Hw. by exists b, pre. Qed.
Lemma to_root q b : h0 !! q = Some b -> exists r rb, walk h0 q (Z.to_nat (bi_Height b)) = Some r /\ h0 !! r = Some rb /\ bi_Prev rb = None.
Proof.
  intros Hq. pose proof (lt_tree Htree) as Ht. pose proof (tr_height h0 Ht q b Hq). destruct (walk_height h0 Ht (Z.to_nat (bi_Height b)) q b Hq ltac:(lia)) as (r & rb & Hw & Hr & Hh). exists r, rb. split_and!; [done|done|].
  destruct (bi_Prev rb) as [x|] eqn:Ex; [|done]. destruct (tr_prev h0 Ht r rb x Hr Ex) as (xb & Hxb & Hxh). pose proof (tr_height h0 Ht x xb Hxb). lia.
Qed.
Lemma FindFork_run t q b s : ledger t s -> h0 !! q = Some b -> exists f n m, FindFork (E := Empty_set) (s_chain s) (Some q) = Ok (Some f) /\ walk h0 t n = Some f /\ walk h0 q m = Some f.
Proof.
  intros Hl Hq. pose proof (ag_chain _ _ _ _ _ Hl) as Hc. pose proof (same_tree_links _ _ (ag_tree _ _ _ _ _ Hl)) as Hsl. destruct (same_tree_fwd _ _ _ _ (ag_tree _ _ _ _ _ Hl) Hq) as (b' & Hq' & _).
  destruct (FindFork_ok (E := Empty_set) _ Hc q b' Hq') as (f & Hff & Hfork). pose proof (co_path _ Hc) as Hp. rw (ag_tip _ _ _ _ _ Hl) in Hp. destruct Hp as (tb & Htb & Hlen & Hact).
  destruct (same_tree_back _ _ _ _ (ag_tree _ _ _ _ _ Hl) Htb) as (tb0 & Ht0 & Hsi). pose proof (links_inv _ _ (si_links _ _ Hsi)) as (_ & _ & _ & _ & Hth & _).
  assert (forall n x, walk (c_heap (s_chain s)) n x = walk h0 n x) as Hwk by (intros n x; symmetry; by apply walk_proper). destruct f as [f|].
  - destruct Hfork as ([k Hk] & m & Hm & _). assert (k <= Z.to_nat (bi_Height tb))%nat as Hkl by (apply lookup_lt_Some in Hk; lia). rw (Hact k Hkl) Hwk in Hk. injection Hk as Hk. rw Hwk in Hm. by exists f, (Z.to_nat (bi_Height tb) - k)%nat, m.
  - exfalso. destruct (to_root q b Hq) as (r & rb & Hr & Hrb & Hn). destruct (to_root t tb0 Ht0) as (r' & rb' & Hr' & Hrb' & Hn'). assert (r = r') as -> by (by eapply (lt_root Htree)).
    apply (Hfork (Z.to_nat (bi_Height b)) r'); [by rw Hwk|]. exists 0%nat. rw Hact; [|lia]. rw Nat.sub_0_r Hwk Hth. by rw Hr'.
Qed.
(** Each block of the list is the child of the one before it, the first of [t]. *)
Fixpoint upwards (t : nat) (l : list nat) : Prop :=
  match l with [] => True | q :: l => (exists b, h0 !! q = Some b /\ bi_Prev b = Some t) /\ upwards q l end.
Lemma upwards_snoc l : forall t q b, upwards t l -> h0 !! q = Some b -> bi_Prev b = Some (default t (last l)) -> upwards t (l ++ [q]).
Proof.
  induction l as [|x l IH]; intros t q b Hu Hq Hp; cbn [app upwards]; [split; [by exists b|done]|]. destruct Hu as [Hx Hu]. split; [done|]. apply (IH x q b); [done|done|]. rw Hp. destruct l as [|y l]; [done|]. cbn [last]. destruct (last (y :: l)) eqn:El; [done|]. by apply last_None in El.
Qed.
Lemma height_walk q b n x : h0 !! q = Some b -> walk h0 q n = Some x -> exists xb, h0 !! x = Some xb /\ bi_Height xb = bi_Height b - Z.of_nat n.
Proof.
  revert q b. induction n as [|n IH]; intros q b Hq Hw; [injection Hw as <-; exists b; split; [done|lia]|]. apply walk_prev in Hw as (b' & pre & Hb' & Hp & Hw). rw Hq in Hb'. injection Hb' as <-.
  destruct (tr_prev h0 (lt_tree Htree) q b pre Hq Hp) as (pb & Hpb & Hh). destruct (IH pre pb Hpb Hw) as (xb & Hxb & Hxh). exists xb. split; [done|lia].
Qed.
Lemma to_connect_run t tb h k : same_tree h0 h -> h0 !! t = Some tb -> forall fuel a, walk h0 a k = Some t -> is_Some (h0 !! a) -> (k <= fuel)%nat ->
  exists l, (forall stuck s, to_connect stuck fuel h (Some a) (bi_Height tb) s = (s, Ok l)) /\ upwards t (reverse l) /\ default t (last (reverse l)) = a.
Proof.
  intros Hst Ht. induction k as [|k IH]; intros fuel a Hw [ab Ha] Hf; destruct (same_tree_fwd _ _ _ _ Hst Ha) as (a' & Ha' & Hsi); pose proof (links_inv _ _ (si_links _ _ Hsi)) as (_ & _ & Hpa & _ & Hha & _).
  - injection Hw as ->. rw Ht in Ha. injection Ha as <-. exists []. split; [|done]. intros stuck s. destruct fuel; cbn [to_connect]; rw (bind_run _ _ s s a' (pure_run _ _ _ (bload_Some _ _ _ Ha'))); by rw Hha Z.eqb_refl.
  - pose proof (height_walk a ab (S k) t Ha Hw) as (tb' & Htb' & Hh). rw Ht in Htb'. injection Htb' as <-. apply walk_prev in Hw as (ab' & pre & Hab' & Hp & Hw). rw Ha in Hab'. injection Hab' as <-.
    destruct (tr_prev h0 (lt_tree Htree) a ab pre Ha Hp) as (pb & Hpb & _). destruct fuel as [|fuel]; [lia|]. destruct (IH fuel pre Hw ltac:(by eexists) ltac:(lia)) as (l & Hl & Hup & Hlast).
    exists (a :: l). split; [|rw reverse_cons].
    { intros stuck s. cbn [to_connect]. rw (bind_run _ _ s s a' (pure_run _ _ _ (bload_Some _ _ _ Ha'))). destruct (Z.eqb_spec (bi_Height a') (bi_Height tb)); [lia|]. by rw Hpa Hp (bind_run _ _ s s l (Hl stuck s)). }
    split; [|by rw last_snoc].
    by apply (upwards_snoc _ t a ab); [|done|rw Hlast].
Qed.
Abbreviation work q := (work_of h0 q).
Lemma heap_work t s q b : ledger t s -> c_heap (s_chain s) !! q = Some b -> bi_ChainWork b = work q.
Proof. intros Hl Hq. destruct (same_tree_back _ _ _ _ (ag_tree _ _ _ _ _ Hl) Hq) as (b0 & Hb0 & Hsi). unfold work_of. rw Hb0. cbn. by pose proof (links_inv _ _ (si_links _ _ Hsi)) as (_ & _ & _ & _ & _ & Hw). Qed.

(** The block that the caller has at hand is that of its index, and is stored. *)
Definition handed (pblock : option Block) (q : nat) : Prop := forall blk, pblock = Some blk -> is_block q blk /\ exists b, h0 !! q = Some b /\ HasData b = true.
Abbreviation Connect_all := (connect_all grow drain range_coins range params Excessiveblocksize minimumChainWork HashAssumeValid BIP34Hash now nano free).
Lemma connect_all_ok mw pblock o ob l : handed pblock mw -> h0 !! o = Some ob -> forall t s, ledger t s -> upwards t l ->
  wp (Connect_all l mw pblock (Some o)) (fun (better : bool) s' => exists t', ledger t' s' /\ (if better then t' ∈ l /\ work o < work t' else t' = default t (last l))) settled s.
Proof.
  intros Hblk Ho. induction l as [|q l IH]; intros t s Hl Hu; cbn [connect_all]; [wp_step; by exists t|]. destruct Hu as [(b0 & Hq0 & Hp) Hu]. wp_step.
  eapply lwp_mono; [apply (ConnectTip_ok q b0 t _ s Hl Hq0 Hp)| |by intros s' Hs'; exists t]; cbn beta.
  { intros blk Hb. case_decide as Hd; [|done]. subst mw. destruct (Hblk blk Hb) as [Hi (b & Hqb & Hdb)]. rw Hq0 in Hqb. by injection Hqb as <-. }
  intros _ s1 Hl1. do 2 wp_step. wp_step. apply (wp_pure_ok q); [by rw (ag_tip _ _ _ _ _ Hl1)|]. destruct (same_tree_fwd _ _ _ _ (ag_tree _ _ _ _ _ Hl1) Hq0) as (b & Hq & _). wp_step. apply (wp_pure_ok b); [by apply bload_Some|].
  destruct (same_tree_fwd _ _ _ _ (ag_tree _ _ _ _ _ Hl1) Ho) as (ob' & Ho' & _). wp_step. wp_step. apply (wp_pure_ok ob'); [by apply bload_Some|]. wp_step. rw (heap_work q s1 q b Hl1 Hq) (heap_work q s1 o ob' Hl1 Ho').
  destruct (Z.ltb_spec (work o) (work q)); [wp_step; exists q; split; [done|]; split; [set_solver|done]|]. eapply lwp_mono; [by apply (IH q s1 Hl1 Hu)| |done]. cbn beta.
  intros [] s2 (t2 & Hl2 & Ht2); exists t2; split; try done; [split; [set_solver|apply Ht2]|]. rw Ht2. destruct l as [|y l]; [done|]. cbn [last]. destruct (last (y :: l)) eqn:El; [done|]. by apply last_None in El.
Qed.
Lemma upwards_walk l : forall t a, upwards t l -> forall q, q ∈ t :: l -> default t (last l) = a -> exists n, walk h0 a n = Some q.
Proof.
  induction l as [|x l IH] using rev_ind; intros t a Hu q Hq Hl.
  - cbn in Hl. subst a. exists 0%nat. apply list_elem_of_singleton in Hq as ->. done.
  - rw last_snoc in Hl. cbn in Hl. subst a. assert (upwards t l /\ exists b, h0 !! x = Some b /\ bi_Prev b = Some (default t (last l))) as (Hul & b & Hx & Hp).
    { clear -Hu. revert t Hu. induction l as [|y l IH]; intros t Hu; cbn [app upwards] in *; [split; [done|apply Hu]|]. destruct Hu as [Hy Hu]. destruct (IH y Hu) as [Hul (b & Hb & Hp)]. split; [done|]. exists b. split; [done|]. rw Hp.
      destruct l as [|z l]; [done|]. cbn [last]. destruct (last (z :: l)) eqn:El; [done|]. by apply last_None in El. }
    assert (q ∈ t :: l \/ q = x) as [Hin| ->] by set_solver; [|by exists 0%nat]. destruct (IH t _ Hul q Hin eq_refl) as [n Hn]. exists (S n). cbn [walk]. rw Hx. cbn. by rw Hp.
Qed.
Lemma connect_from_ok mw mb pblock o ob : handed pblock mw -> h0 !! mw = Some mb -> h0 !! o = Some ob -> bi_Height mb < 2 ^ 30 -> forall fuel t tb n s, ledger t s -> h0 !! t = Some tb -> walk h0 mw n = Some t ->
  wp (connect_from grow drain range_coins range params Excessiveblocksize minimumChainWork HashAssumeValid BIP34Hash now nano free crash fuel (bi_Height tb) mw pblock (Some o))
    (fun _ s' => exists t' n', ledger t' s' /\ walk h0 mw n' = Some t' /\ (work o < work t' \/ t' = mw)) settled s.
Proof.
  intros Hblk Hmw Ho Hmh. induction fuel as [|fuel IH]; intros t tb n s Hl Ht Hw; cbn [connect_from]; do 2 wp_step; wp_step; destruct (same_tree_fwd _ _ _ _ (ag_tree _ _ _ _ _ Hl) Hmw) as (mb' & Hmw' & Hsi);
    (apply (wp_pure_ok mb'); [by apply bload_Some|]); pose proof (links_inv _ _ (si_links _ _ Hsi)) as (_ & _ & _ & _ & Hh & _); rw Hh;
    pose proof (height_walk mw mb n t Hmw Hw) as (tb' & Htb' & Hth); rw Ht in Htb'; injection Htb' as <-; (destruct (Z.eqb_spec (bi_Height tb) (bi_Height mb)) as [Heq|Hne];
    [wp_step; exists t, n; split_and!; [done|done|]; right; assert (n = 0%nat) as -> by lia; by injection Hw as ->|]); [wp_step|].
  pose proof (tr_height h0 (lt_tree Htree) t tb Ht). rw i32_id; [|int_lia]. set (target := if bi_Height tb + 32 <? bi_Height mb then bi_Height tb + 32 else bi_Height mb).
  assert (bi_Height tb < target <= bi_Height mb) as Htg by (unfold target; destruct (Z.ltb_spec (bi_Height tb + 32) (bi_Height mb)); lia).
  destruct (walk_height h0 (lt_tree Htree) (Z.to_nat (bi_Height mb - target)) mw mb Hmw ltac:(lia)) as (a & ab & Hwa & Ha & Hah). wp_step. apply (wp_pure_ok (Some a)).
  { rw (GetAncestor_walk _ (co_tree _ (ag_chain _ _ _ _ _ Hl)) mw mb' target Hmw') Hh. replace (_ && _) with true by lia. f_equal. rw -Hwa. symmetry. apply walk_proper; [apply same_tree_links, (ag_tree _ _ _ _ _ Hl)|done|done]. }
  assert (walk h0 a (Z.to_nat (target - bi_Height tb)) = Some t) as Hat by (rw -(walk_add h0 _ mw _ a Hwa) -Hw; f_equal; lia).
  destruct (to_connect_run t tb _ _ (ag_tree _ _ _ _ _ Hl) Ht (Z.to_nat (bi_Height mb + 1)) a Hat ltac:(by eexists) ltac:(lia)) as (l & Hlc & Hup & Hlast). wp_step. eapply (wp_run _ (mret l)); [exact (Hlc _ s)|]. do 2 wp_step.
  eapply lwp_mono; [by apply (connect_all_ok mw pblock o ob (reverse l) Hblk Ho t s Hl Hup)| |done]. cbn beta. intros [] s1 (t1 & Hl1 & Ht1).
  - destruct Ht1 as [Hin Hwk]. wp_step. destruct (upwards_walk (reverse l) t a Hup t1 ltac:(set_solver) Hlast) as [k Hk]. exists t1, (Z.to_nat (bi_Height mb - target) + k)%nat. split_and!; [done|by rw (walk_add h0 _ mw _ a Hwa)|by left].
  - rw Hlast in Ht1. subst t1. replace target with (bi_Height ab) by lia. by apply (IH a ab _ s1 Hl1 Ha Hwa).
Qed.

(** *** One step and all of them *)
Context (check_order : TxMempool -> list nat) (tx_order : TxMempool -> list Tx) (Htx_order : forall m x, x ∈ tx_order m -> exists q e, entries m !! q = Some e /\ e_Tx e = x).
Context (StopAtHeight : Z).
Abbreviation Step := (ActivateBestChainStep grow drain range_coins range range_orphans sizeof_TxEntry overflow params conf Excessiveblocksize minimumChainWork HashAssumeValid BIP34Hash now adjusted second nano free
  checkFrequency rand check_order tx_order).
Lemma ledger_on_node t {A} (m : acc A) (Q : option A -> chain_state -> Prop) R s : steady (tame T (coins t) (block_hash t)) m -> ledger t s ->
  (forall r s', ledger t s' -> s_chain s' = s_chain s -> Q r s') -> wp (on_node m) Q R s.
Proof. intros Hm Hl HQ. eapply wp_node; [exact Hm|by apply ledger_node|]. intros r pool view Htm. apply HQ; [by apply ledger_tame|done]. Qed.
Lemma step_ok mw mb pblock t s : ledger t s -> h0 !! mw = Some mb -> bi_Height mb < 2 ^ 30 -> handed pblock mw -> work t < work mw ->
  wp (Step crash mw pblock) (fun _ s' => exists t' n', ledger t' s' /\ walk h0 mw n' = Some t' /\ work t < work t') settled s.
Proof.
  intros Hl Hmw Hmh Hblk Hwork. destruct (FindFork_run t mw mb s Hl Hmw) as (f & n & m & Hff & Htf & Hmf). unfold ActivateBestChainStep. do 2 wp_step. wp_step. apply (wp_pure_ok (Some f)); [done|]. wp_step.
  eapply lwp_mono; [by apply (disconnect_to_ok _ t f n _ settled s Hl Htf)| |done]. cbn beta. intros disconnected s1 Hl1. destruct (same_tree_fwd _ _ _ _ (ag_tree _ _ _ _ _ Hl) Hmw) as (mb' & Hmw' & _). wp_step. apply (wp_pure_ok mb'); [by apply bload_Some|].
  pose proof (height_walk mw mb m f Hmw Hmf) as (fb & Hf & _). destruct (same_tree_fwd _ _ _ _ (ag_tree _ _ _ _ _ Hl) Hf) as (fb' & Hf' & Hsi). pose proof (links_inv _ _ (si_links _ _ Hsi)) as (_ & _ & _ & _ & Hfh & _).
  wp_step. wp_step. apply (wp_pure_ok fb'); [by apply bload_Some|]. wp_step. rw Hfh. pose proof (co_path _ (ag_chain _ _ _ _ _ Hl)) as Hpath. rw (ag_tip _ _ _ _ _ Hl) in Hpath |- *. destruct Hpath as (tb & Htb & _).
  destruct (same_tree_back _ _ _ _ (ag_tree _ _ _ _ _ Hl) Htb) as (tb0 & Htb0 & _). wp_step. eapply lwp_mono; [by apply (connect_from_ok mw mb pblock t tb0 Hblk Hmw Htb0 Hmh _ f fb m s1 Hl1 Hf Hmf)| |done]. cbn beta.
  intros _ s2 (t2 & k & Hl2 & Hk & Hwk). assert (work t < work t2) as Hbetter by (destruct Hwk as [?| ->]; done). do 2 wp_step. wp_step.
  assert (forall s3, ledger t2 s3 -> wp (ht ← lc_pure (Chain_Height (s_chain s2)); m ← lc_get s_pool; on_node (CheckMempool range checkFrequency rand ht (check_order m));; mret tt)
    (fun _ s' => exists t' n', ledger t' s' /\ walk h0 mw n' = Some t' /\ work t < work t') settled s3) as Hcheck.
  { intros s3 Hl3. wp_step. wp_step. intros ht _. do 2 wp_step. wp_step. eapply (ledger_on_node t2); [|done|].
    - apply (CheckMempool_tame T HT (coins t2) grow drain Hdrain range Hrange range_orphans Horphans); apply (ag_best _ _ _ _ _ Hl3).
    - intros r s4 Hl4 _. wp_step. by exists t2, k. }
  destruct disconnected; [|wp_step; by apply Hcheck]. wp_step. apply (wp_pure_ok t2); [by rw (ag_tip _ _ _ _ _ Hl2)|]. wp_step. wp_step. intros tb2 _. do 2 wp_step. wp_step. eapply (ledger_on_node t2); [|done|].
  - apply (RemoveForReorg_tame T HT (coins t2) grow drain Hdrain range Hrange range_orphans Horphans); [apply (ag_best _ _ _ _ _ Hl2)|]. apply Forall_forall. intros x Hx. destruct (Htx_order _ _ Hx) as (q & e & He & <-).
    exact (proj1 (ag_pool _ _ _ _ _ Hl2) q e He).
  - intros r s3 Hl3 _. wp_step. by apply Hcheck.
Qed.

Lemma flush_quiet mode : quiet (flush range_coins nano free mode).
Proof. unfold flush. quiet. Qed.
Lemma UpdateTip_quiet q : quiet (UpdateTip minimumChainWork now q).
Proof. unfold UpdateTip. quiet. Qed.
Lemma ConnectTip_quiet q block : quiet (ConnectTip grow drain range_coins range params Excessiveblocksize minimumChainWork HashAssumeValid BIP34Hash now nano free q block).
Proof.
  unfold ConnectTip, read_block, ConnectBlock, write_undo, InvalidBlockFound, dirty_index, index_hash. quiet; try apply flush_quiet; try apply UpdateTip_quiet.
Qed.
Lemma DisconnectTip_quiet fBare : quiet (Disconnect_tip fBare).
Proof.
  unfold DisconnectTip, read_block, DisconnectBlock. quiet; try apply flush_quiet; try apply UpdateTip_quiet. match goal with |- quiet (Resurrect ?l) => generalize l end. intros l. induction l as [|x l IH]; cbn [resurrect]; quiet.
Qed.
Lemma to_connect_quiet fuel h : forall q n, quiet (to_connect crash fuel h q n).
Proof. induction fuel as [|fuel IH]; intros [q|] n; cbn [to_connect]; quiet; apply IH. Qed.
Lemma step_quiet mw pblock : quiet (Step crash mw pblock).
Proof.
  unfold ActivateBestChainStep. apply quiet_bind; [done|intros c]. apply quiet_bind; [done|intros fork]. apply quiet_bind.
  { generalize (S (length (active c))) false. intros fuel. induction fuel as [|fuel IH]; intros flag; cbn [disconnect_to]; quiet; first [apply DisconnectTip_quiet|apply IH]. }
  intros dis. apply quiet_bind; [done|intros mb]. apply quiet_bind; [quiet|intros nh]. apply quiet_bind; [|intros; quiet].
  generalize (S (Z.to_nat (bi_Height mb))) nh. intros fuel. induction fuel as [|fuel IH]; intros ht; cbn [connect_from]; quiet; try apply IH; try apply to_connect_quiet.
  match goal with |- quiet (Connect_all ?l _ _ _) => generalize l end. intros l. induction l as [|q l IHl]; cbn [connect_all]; quiet. apply ConnectTip_quiet.
Qed.
Lemma wp_quiet {A} (m : lc A) Q R s : quiet m -> wp m Q R s -> wp m (fun a s' => Q a s' /\ shutdownScheduled s' = shutdownScheduled s) R s.
Proof. intros Hq Hm. specialize (Hq s). unfold wp in *. destruct (m s) as [s' [a|e|]]; [by split|done|done]. Qed.
Definition finishing : lc unit :=
  flush range_coins nano free FlushStatePeriodic;;
  c ← lc_get s_chain; t ← lc_pure (deref (tip c)); tb ← lc_pure (bload (c_heap c) t);
  stopAtHeightIfNeed StopAtHeight (bi_Height tb).
Lemma finishing_ok t s : ledger t s -> wp finishing (fun _ s' => ledger t s') settled s.
Proof.
  intros Hl. unfold finishing. wp_step. eapply lwp_mono; [by apply (ledger_flush t)| |by intros s' ?; exists t]. cbn beta. intros _ s1 [Hl1 _]. do 2 wp_step. wp_step. wp_step. intros t1 _. wp_step. wp_step. intros tb _. unfold stopAtHeightIfNeed. destruct (_ && _); [|by wp_step]. exact Hl1.
Qed.
(** [q] is the candidate; a block that the caller has at hand is that of its index. *)
Context (pblock : option Block) (Hpblock : forall blk q b, pblock = Some blk -> h0 !! q = Some b -> Block_GetHash Sha256 blk = block_hash q -> is_block q blk /\ HasData b = true).
Abbreviation Activate := (activate grow drain range_coins range range_orphans sizeof_TxEntry overflow params conf Excessiveblocksize minimumChainWork HashAssumeValid BIP34Hash now adjusted second nano free
  checkFrequency rand check_order tx_order StopAtHeight).
Lemma activate_ok q qb : h0 !! q = Some qb -> bi_Height qb < 2 ^ 30 -> forall fuel t s mostWork, ledger t s -> mostWork = Some q \/ mostWork = None /\ FindMostWorkChain (s_chain s) = Some q ->
  wp (Activate crash fuel pblock mostWork) (fun _ s' => exists t', ledger t' s' /\ work t <= work t' /\ (shutdownScheduled s = false -> work q <= work t')) settled s.
Proof.
  intros Hq Hh. induction fuel as [|fuel IH]; intros t s mostWork Hl Hmw; cbn [activate]; do 2 wp_step; fold finishing; (destruct (shutdownScheduled s) eqn:Es; [eapply lwp_mono; [by apply (finishing_ok t)| |done]; cbn; intros _ s' Hl'; exists t; split_and!; [done|lia|done]|]); do 2 wp_step;
    assert (match mostWork with None => FindMostWorkChain (s_chain s) | _ => mostWork end = Some q) as -> by (destruct Hmw as [->|[-> ?]]; done); (rw (ag_tip _ _ _ _ _ Hl); case_bool_decide as Htq; [injection Htq as <-; wp_step; exists q; split_and!; [done|lia|lia]|]);
    destruct (same_tree_fwd _ _ _ _ (ag_tree _ _ _ _ _ Hl) Hq) as (qb' & Hq' & _); pose proof (co_path _ (ag_chain _ _ _ _ _ Hl)) as Hpath; rw (ag_tip _ _ _ _ _ Hl) in Hpath; destruct Hpath as (tb & Htb & _);
    wp_step; (apply (wp_pure_ok qb'); [by apply bload_Some|]); wp_step; wp_step; (apply (wp_pure_ok tb); [by apply bload_Some|]); wp_step; rw (heap_work t s q qb' Hl Hq') (heap_work t s t tb Hl Htb);
    (destruct (Z.leb_spec (work q) (work t)) as [Hle|Hlt]; [wp_step; exists t; split_and!; [done|lia|lia]|]); [wp_step|].
  wp_step. eapply lwp_mono; [eapply wp_quiet; [apply step_quiet|]; apply (step_ok q qb _ t s Hl Hq Hh); [|done]| |done].
  { intros blk Hb. destruct pblock as [blk0|] eqn:Epb; [|done]. case_bool_decide as Hhash; [|done]. injection Hb as <-. rw (heap_hash t s q Hl) in Hhash. destruct (Hpblock blk0 q qb eq_refl Hq Hhash) as [Hi Hd]. split; [done|by exists qb]. }
  cbn beta. intros _ s1 [(t1 & n1 & Hl1 & _ & Hw1) Hs1]. do 2 wp_step. rw (ag_tip _ _ _ _ _ Hl1). case_bool_decide as Htq1.
  - injection Htq1 as ->. fold finishing. eapply lwp_mono; [by apply (finishing_ok q)| |done]. cbn. intros _ s' Hl'. exists q. split_and!; [done|lia|lia].
  - eapply lwp_mono; [apply (IH t1 s1 (Some q) Hl1); by left| |done]. cbn beta. intros _ s2 (t2 & Hl2 & Hw2 & Hq2). exists t2. split_and!; [done|lia|]. intros _. apply Hq2. by rw Hs1.
Qed.
Lemma ActivateBestChain_ok t s : ledger t s -> (forall q, q ∈ branch (s_chain s) -> exists b, h0 !! q = Some b /\ bi_Height b < 2 ^ 30) ->
  wp (ActivateBestChain grow drain range_coins range range_orphans sizeof_TxEntry overflow params conf Excessiveblocksize minimumChainWork HashAssumeValid BIP34Hash now adjusted second nano free
    checkFrequency rand check_order tx_order StopAtHeight crash pblock)
    (fun _ s' => exists t', ledger t' s' /\ work t <= work t' /\ (shutdownScheduled s = false -> forall q, FindMostWorkChain (s_chain s) = Some q -> work q <= work t')) settled s.
Proof.
  intros Hl Hbr. unfold ActivateBestChain. do 2 wp_step. destruct (FindMostWorkChain (s_chain s)) as [q|] eqn:Ef.
  - destruct (Hbr q) as (b & Hq & Hh); [by apply last_Some_elem_of|]. eapply lwp_mono; [apply (activate_ok q b Hq Hh _ t s None Hl); by right| |done]. cbn. intros _ s' (t' & Hl' & Hw & Hbest). exists t'. split_and!; [done|done|]. intros Hs q' [= <-]. by apply Hbest.
  - cbn [activate]. do 2 wp_step. fold finishing. destruct (shutdownScheduled s); [eapply lwp_mono; [by apply (finishing_ok t)| |done]; cbn; intros _ s' Hl'; exists t; split_and!; [done|lia|done]|].
    do 2 wp_step. rw Ef. wp_step. exists t. split_and!; [done|lia|done].
Qed.

(** ** The loops end *)
Lemma bind_ext {A B} (m : lc A) (f g : A -> lc B) s (Q : A -> chain_state -> Prop) R : wp m Q R s -> (forall a s', Q a s' -> f a s' = g a s') -> (m ≫= f) s = (m ≫= g) s.
Proof. intros Hm Hfg. unfold wp, mbind, lc_bind in *. destruct (m s) as [s' [a|e|]]; [by apply Hfg|done|done]. Qed.
Abbreviation Disconnect_to := (disconnect_to grow drain range_coins range sizeof_TxEntry overflow params conf minimumChainWork now adjusted nano free).
Lemma disconnect_enough stuck f n : forall fuel t flag s, ledger t s -> walk h0 t n = Some f -> (n <= fuel)%nat -> Disconnect_to stuck fuel (Some f) flag s = Disconnect_to crash fuel (Some f) flag s.
Proof.
  induction n as [|n IH]; intros fuel t flag s Hl Hw Hf.
  - injection Hw as ->. destruct fuel; cbn [disconnect_to]; cbv beta iota delta [mbind lc_bind lc_get]; rw (ag_tip _ _ _ _ _ Hl); rw (bool_decide_true (Some f = Some f)) // orb_true_r.
  - destruct fuel as [|fuel]; [lia|]. cbn [disconnect_to]. rw !(bind_run _ _ s s (s_chain s) eq_refl) (ag_tip _ _ _ _ _ Hl). destruct (_ || _); [done|]. apply walk_prev in Hw as (b0 & pre & Et & Ep & Hw).
    destruct (DisconnectTip_run t b0 pre s Hl Et Ep) as (s1 & Hl1 & Hrun). eapply (bind_ext _ _ _ _ (fun _ s' => ledger pre s') settled).
    + eapply wp_run; [exact (Hrun false)|]. cbn match. eapply lwp_mono; [apply (resurrect_ok pre _ settled s1 Hl1)|by intros ? ? [? _]|done]. by apply (block_known t b0 pre).
    + intros _ s2 Hl2. apply (IH fuel pre); [done|done|lia].
Qed.
Abbreviation Connect_from := (connect_from grow drain range_coins range params Excessiveblocksize minimumChainWork HashAssumeValid BIP34Hash now nano free).
Lemma connect_enough stuck mw mb blk o ob : handed blk mw -> h0 !! mw = Some mb -> h0 !! o = Some ob -> bi_Height mb < 2 ^ 30 -> forall fuel t tb n s, ledger t s -> h0 !! t = Some tb -> walk h0 mw n = Some t -> (n <= fuel)%nat ->
  Connect_from stuck fuel (bi_Height tb) mw blk (Some o) s = Connect_from crash fuel (bi_Height tb) mw blk (Some o) s.
Proof.
  intros Hblk Hmw Ho Hmh. induction fuel as [|fuel IH]; intros t tb n s Hl Ht Hw Hf; destruct (same_tree_fwd _ _ _ _ (ag_tree _ _ _ _ _ Hl) Hmw) as (mb' & Hmw' & Hsi); pose proof (links_inv _ _ (si_links _ _ Hsi)) as (_ & _ & _ & _ & Hh & _);
    pose proof (height_walk mw mb n t Hmw Hw) as (tb' & Htb' & Hth); rw Ht in Htb'; injection Htb' as <-.
  - cbn [connect_from]. rw !(bind_run _ _ s s (s_chain s) eq_refl) !(bind_run _ _ s s mb' (pure_run _ _ _ (bload_Some _ _ _ Hmw'))) Hh. by replace (bi_Height tb =? bi_Height mb) with true by lia.
  - cbn [connect_from]. rw !(bind_run _ _ s s (s_chain s) eq_refl) !(bind_run _ _ s s mb' (pure_run _ _ _ (bload_Some _ _ _ Hmw'))) Hh. destruct (Z.eqb_spec (bi_Height tb) (bi_Height mb)) as [Heq|Hne]; [done|].
    pose proof (tr_height h0 (lt_tree Htree) t tb Ht). rw i32_id; [|int_lia]. set (target := if bi_Height tb + 32 <? bi_Height mb then bi_Height tb + 32 else bi_Height mb).
    assert (bi_Height tb < target <= bi_Height mb) as Htg by (unfold target; destruct (Z.ltb_spec (bi_Height tb + 32) (bi_Height mb)); lia).
    destruct (walk_height h0 (lt_tree Htree) (Z.to_nat (bi_Height mb - target)) mw mb Hmw ltac:(lia)) as (a & ab & Hwa & Ha & Hah).
    assert (GetAncestor (E := Empty_set) (c_heap (s_chain s)) mw target = Ok (Some a)) as Hga.
    { rw (GetAncestor_walk _ (co_tree _ (ag_chain _ _ _ _ _ Hl)) mw mb' target Hmw') Hh. replace (_ && _) with true by lia. f_equal. rw -Hwa. symmetry. apply walk_proper; [apply same_tree_links, (ag_tree _ _ _ _ _ Hl)|done|done]. }
    assert (walk h0 a (Z.to_nat (target - bi_Height tb)) = Some t) as Hat by (rw -(walk_add h0 _ mw _ a Hwa) -Hw; f_equal; lia).
    destruct (to_connect_run t tb _ _ (ag_tree _ _ _ _ _ Hl) Ht (Z.to_nat (bi_Height mb + 1)) a Hat ltac:(by eexists) ltac:(lia)) as (l & Hlc & Hup & Hlast).
    rw !(bind_run _ _ s s _ (pure_run _ _ _ Hga)) !(bind_run _ _ s s _ (Hlc _ s)). eapply bind_ext; [by apply (connect_all_ok mw blk o ob (reverse l) Hblk Ho t s Hl Hup)|]. cbn beta. intros [] s1 (t1 & Hl1 & Ht1); [done|].
    rw Hlast in Ht1. subst t1. replace target with (bi_Height ab) by lia. apply (IH a ab (Z.to_nat (bi_Height mb - target)) s1); [done|done|done|lia].
Qed.
Lemma bind_ext_first {A B} (m m' : lc A) (f g : A -> lc B) s (Q : A -> chain_state -> Prop) R : m s = m' s -> wp m' Q R s -> (forall a s', Q a s' -> f a s' = g a s') -> (m ≫= f) s = (m' ≫= g) s.
Proof. intros Hmm Hm Hfg. unfold wp, mbind, lc_bind in *. rw Hmm. destruct (m' s) as [s' [a|e|]]; [by apply Hfg|done|done]. Qed.
(** The bounds of the two loops of a step are large enough. *)
Lemma step_enough stuck mw mb blk t s : ledger t s -> h0 !! mw = Some mb -> bi_Height mb < 2 ^ 30 -> handed blk mw -> Step stuck mw blk s = Step crash mw blk s.
Proof.
  intros Hl Hmw Hmh Hblk. destruct (FindFork_run t mw mb s Hl Hmw) as (f & n & m & Hff & Htf & Hmf). unfold ActivateBestChainStep. rw !(bind_run _ _ s s (s_chain s) eq_refl) !(bind_run _ _ s s _ (pure_run _ _ _ Hff)).
  pose proof (co_path _ (ag_chain _ _ _ _ _ Hl)) as Hpath. rw (ag_tip _ _ _ _ _ Hl) in Hpath |- *. destruct Hpath as (tb & Htb & Hlen & _).
  destruct (same_tree_back _ _ _ _ (ag_tree _ _ _ _ _ Hl) Htb) as (tb0 & Htb0 & Hsi0). pose proof (links_inv _ _ (si_links _ _ Hsi0)) as (_ & _ & _ & _ & Hth & _).
  pose proof (height_walk mw mb m f Hmw Hmf) as (fb & Hf & Hfh). pose proof (height_walk t tb0 n f Htb0 Htf) as (fb' & Hfb' & Hfh'). rw Hf in Hfb'. injection Hfb' as <-. pose proof (tr_height h0 (lt_tree Htree) f fb Hf).
  eapply (bind_ext_first _ _ _ _ _ (fun _ s' => ledger f s') settled); [apply (disconnect_enough stuck f n _ t); [done|done|lia]|by apply (disconnect_to_ok _ t f n _ settled s Hl Htf)|]. intros disconnected s1 Hl1.
  destruct (same_tree_fwd _ _ _ _ (ag_tree _ _ _ _ _ Hl) Hmw) as (mb' & Hmw' & Hsi). pose proof (links_inv _ _ (si_links _ _ Hsi)) as (_ & _ & _ & _ & Hmbh & _). rw !(bind_run _ _ s1 s1 _ (pure_run _ _ _ (bload_Some _ _ _ Hmw'))).
  destruct (same_tree_fwd _ _ _ _ (ag_tree _ _ _ _ _ Hl) Hf) as (fb1 & Hf1 & Hsif). pose proof (links_inv _ _ (si_links _ _ Hsif)) as (_ & _ & _ & _ & Hfbh & _).
  assert ((fb2 ← lc_pure (bload (c_heap (s_chain s)) f); mret (bi_Height fb2)) s1 = (s1, Ok (bi_Height fb))) as Hnh by (rw (bind_run _ _ s1 s1 _ (pure_run _ _ _ (bload_Some _ _ _ Hf1))) Hfbh; done).
  rw !(bind_run _ _ s1 s1 _ Hnh). eapply (bind_ext_first _ _ _ _ _ (fun _ _ => True) (fun _ => True)); [|by unfold wp; case_match; case_match|done].
  apply (connect_enough stuck mw mb blk t tb0 Hblk Hmw Htb0 Hmh _ f fb m s1 Hl1 Hf Hmf). lia.
Qed.
(** The ancestors of [q] with more work than [t]. *)
Definition leads (q t n : nat) : Prop := work t < from_option (fun x => work x) (work t) (walk h0 q n).
#[local] Instance leads_dec q t n : Decision (leads q t n) := Z_lt_dec _ _.
Definition ahead (q : nat) (hq : nat) (t : nat) : list nat := filter (leads q t) (seq 0 (S hq)).
Lemma ahead_less q hq t t' n : (n <= hq)%nat -> walk h0 q n = Some t' -> work t < work t' -> (length (ahead q hq t') < length (ahead q hq t))%nat.
Proof.
  intros Hn Hw Hlt. unfold ahead. assert (n ∈ seq 0 (S hq)) as Hin by (apply elem_of_seq; lia). revert Hin. generalize (seq 0 (S hq)). intros l.
  assert (forall l, (length (filter (leads q t') l) <= length (filter (leads q t) l))%nat) as Hle.
  { clear l. induction l as [|x l IH]; [done|]. rw !filter_cons. case_decide as Hd; case_decide as Hd'; cbn [length]; [lia| |lia|lia]. unfold leads in *. destruct (walk h0 q x); cbn in *; lia. }
  induction l as [|x l IH]; intros Hin; [by apply elem_of_nil in Hin|]. rw !filter_cons. apply elem_of_cons in Hin as [<-|Hin].
  - case_decide as Hd; unfold leads in Hd; rw Hw /= in Hd; [lia|]. clear Hd. case_decide as Hd; unfold leads in Hd; rw Hw /= in Hd; [|lia]. cbn [length]. specialize (Hle l). lia.
  - specialize (IH Hin). case_decide as Hd; case_decide as Hd'; cbn [length]; [lia| |lia|lia]. unfold leads in *. destruct (walk h0 q x); cbn in *; lia.
Qed.
(** The block that the caller has at hand, if it is that of [q]. *)
Definition at_hand (s : chain_state) (q : nat) : option Block :=
  match pblock with Some blk => if bool_decide (Block_GetHash Sha256 blk = hash_of Sha256 (c_heap (s_chain s)) q) then Some blk else None | None => None end.
Lemma at_hand_handed t s q qb : ledger t s -> h0 !! q = Some qb -> handed (at_hand s q) q.
Proof.
  intros Hl Hq blk Hb. unfold at_hand in Hb. destruct pblock as [blk0|] eqn:Epb; [|done]. case_bool_decide as Hhash; [|done]. injection Hb as <-. rw (heap_hash t s q Hl) in Hhash.
  destruct (Hpblock blk0 q qb eq_refl Hq Hhash) as [Hi Hd]. split; [done|by exists qb].
Qed.
(** One round. *)
Lemma activate_round stuck q qb fuel t s mostWork : h0 !! q = Some qb -> ledger t s -> mostWork = Some q \/ mostWork = None /\ FindMostWorkChain (s_chain s) = Some q ->
  Activate stuck fuel pblock mostWork s =
    if shutdownScheduled s then finishing s else if bool_decide (Some q = Some t) then (s, Ok tt) else if work q <=? work t then (s, Ok tt)
    else match fuel with O => stuck unit s | S fuel =>
      (Step stuck q (at_hand s q);; c ← lc_get s_chain; if bool_decide (tip c = Some q) then finishing else Activate stuck fuel pblock (Some q)) s end.
Proof.
  intros Hq Hl Hmw. destruct fuel as [|fuel]; cbn [activate]; rw get_run; fold finishing; (destruct (shutdownScheduled s); [done|]); rw get_run;
    assert (match mostWork with None => FindMostWorkChain (s_chain s) | _ => mostWork end = Some q) as -> by (destruct Hmw as [->|[-> ?]]; done);
    rw (ag_tip _ _ _ _ _ Hl); (destruct (bool_decide (Some q = Some t)); [done|]); destruct (same_tree_fwd _ _ _ _ (ag_tree _ _ _ _ _ Hl) Hq) as (qb' & Hq' & _); pose proof (co_path _ (ag_chain _ _ _ _ _ Hl)) as Hpath; rw (ag_tip _ _ _ _ _ Hl) in Hpath;
    destruct Hpath as (tb & Htb & _); rw (bind_run _ _ s s qb' (pure_run _ _ _ (bload_Some _ _ _ Hq')));
    assert ((tb ← lc_pure (bload (c_heap (s_chain s)) t); mret (bi_ChainWork qb' <=? bi_ChainWork tb)) s = (s, Ok (work q <=? work t))) as Hworse
      by (rw (bind_run _ _ s s tb (pure_run _ _ _ (bload_Some _ _ _ Htb))) (heap_work t s q qb' Hl Hq') (heap_work t s t tb Hl Htb); done);
    rw (bind_run _ _ s s _ Hworse); by destruct (work q <=? work t).
Qed.
Lemma activate_enough stuck q qb : h0 !! q = Some qb -> bi_Height qb < 2 ^ 30 -> forall fuel t s mostWork, ledger t s -> mostWork = Some q \/ mostWork = None /\ FindMostWorkChain (s_chain s) = Some q ->
  (length (ahead q (Z.to_nat (bi_Height qb)) t) <= fuel)%nat -> Activate stuck fuel pblock mostWork s = Activate crash fuel pblock mostWork s.
Proof.
  intros Hq Hh. induction fuel as [|fuel IH]; intros t s mostWork Hl Hmw Hf; (etrans; [by apply (activate_round stuck q qb _ t s mostWork)|]); symmetry; (etrans; [by apply (activate_round crash q qb _ t s mostWork)|]); symmetry;
    (destruct (shutdownScheduled s); [done|]); (destruct (bool_decide _); [done|]); (destruct (Z.leb_spec (work q) (work t)) as [Hle|Hlt]; [done|]).
  - exfalso. assert (0 < length (ahead q (Z.to_nat (bi_Height qb)) t))%nat; [|lia]. eapply Nat.le_lt_trans; [|apply (ahead_less q _ t q 0); [lia|done|done]]. lia.
  - pose proof (at_hand_handed t s q qb Hl Hq) as Htmp. eapply bind_ext_first; [by apply (step_enough stuck q qb (at_hand s q) t)|by apply (step_ok q qb (at_hand s q) t s Hl Hq Hh)|].
    cbn beta. intros _ s1 (t1 & n1 & Hl1 & Hw1 & Hwk). unfold mbind, lc_bind, lc_get. rw (ag_tip _ _ _ _ _ Hl1). case_bool_decide; [done|]. apply (IH t1 s1 (Some q) Hl1); [by left|].
    assert (n1 <= Z.to_nat (bi_Height qb))%nat as Hn1 by (pose proof (height_walk q qb n1 t1 Hq Hw1) as (xb & Hxb & Hxh); pose proof (tr_height h0 (lt_tree Htree) t1 xb Hxb); lia).
    pose proof (ahead_less q _ t t1 n1 Hn1 Hw1 Hwk). lia.
Qed.
(** A tree has a block at every height up to that of its highest. *)
Lemma height_size q qb : h0 !! q = Some qb -> (S (Z.to_nat (bi_Height qb)) <= size h0)%nat.
Proof.
  intros Hq. pose proof (tr_height h0 (lt_tree Htree) q qb Hq). set (l := omap (fun n => walk h0 q n) (seq 0 (S (Z.to_nat (bi_Height qb))))).
  assert (forall n, (n <= Z.to_nat (bi_Height qb))%nat -> exists x xb, walk h0 q n = Some x /\ h0 !! x = Some xb /\ bi_Height xb = bi_Height qb - Z.of_nat n) as Hall by (intros n Hn; apply (walk_height h0 (lt_tree Htree)); [done|lia]).
  assert (forall m a, (a + m <= S (Z.to_nat (bi_Height qb)))%nat -> length (omap (fun n => walk h0 q n) (seq a m)) = m /\ NoDup (omap (fun n => walk h0 q n) (seq a m)) /\
    forall x, x ∈ omap (fun n => walk h0 q n) (seq a m) -> exists xb, h0 !! x = Some xb /\ bi_Height xb <= bi_Height qb - Z.of_nat a) as Hgen.
  { induction m as [|m IH]; intros a Ha; cbn [seq omap list_omap]; [split_and!; [done|constructor|by intros x ?%elem_of_nil]|]. destruct (IH (S a) ltac:(lia)) as (IH1 & IH2 & IH3). destruct (Hall a ltac:(lia)) as (x & xb & Hx & Hxb & Hxh). cbn. rw Hx. split_and!.
    - cbn [length]. by f_equal.
    - constructor; [|done]. intros Hin. destruct (IH3 x Hin) as (xb' & Hxb' & Hle). rw Hxb in Hxb'. injection Hxb' as <-. lia.
    - intros y [->|Hy]%elem_of_cons; [exists xb; split; [done|lia]|]. destruct (IH3 y Hy) as (yb & Hyb & Hle). exists yb. split; [done|lia]. }
  destruct (Hgen (S (Z.to_nat (bi_Height qb))) 0%nat ltac:(lia)) as (Hlen & Hnd & Hin). fold l in Hlen, Hnd, Hin. rw -size_dom -Hlen -(size_list_to_set (C := gset nat) l Hnd). apply subseteq_size. intros x Hx%elem_of_list_to_set. destruct (Hin x Hx) as (xb & Hxb & _). by apply elem_of_dom_2 in Hxb.
Qed.
Lemma ActivateBestChain_enough stuck t s : ledger t s -> (forall q, q ∈ branch (s_chain s) -> exists b, h0 !! q = Some b /\ bi_Height b < 2 ^ 30) ->
  let run := ActivateBestChain grow drain range_coins range range_orphans sizeof_TxEntry overflow params conf Excessiveblocksize minimumChainWork HashAssumeValid BIP34Hash now adjusted second nano free
    checkFrequency rand check_order tx_order StopAtHeight in run stuck pblock s = run crash pblock s.
Proof.
  intros Hl Hbr. change (Activate stuck (S (size (c_heap (s_chain s)))) pblock None s = Activate crash (S (size (c_heap (s_chain s)))) pblock None s). destruct (FindMostWorkChain (s_chain s)) as [q|] eqn:Ef.
  - destruct (Hbr q) as (b & Hq & Hh); [by apply last_Some_elem_of|]. apply (activate_enough stuck q b Hq Hh _ t s None Hl); [by right|]. assert (size (c_heap (s_chain s)) = size h0) as ->.
    { rw -!size_dom. f_equal. apply set_eq. intros x. rw !elem_of_dom. pose proof (ag_tree _ _ _ _ _ Hl x) as Hx. destruct Hx; split; intros [? ?]; by eexists. }
    pose proof (height_size q b Hq). unfold ahead. etrans; [apply length_filter|]. rw length_seq. lia.
  - assert (forall stuck fuel, Activate stuck (S fuel) pblock None s = if shutdownScheduled s then finishing s else (s, Ok tt)) as Hnone.
    { intros st fuel. cbn [activate]. rw get_run. fold finishing. destruct (shutdownScheduled s); [done|]. rw get_run. by rw Ef. }
    etrans; [apply Hnone|]. symmetry. apply Hnone.
Qed.
End Ledger.
