(* ===== verification/LchainTheorems.v ===== *)
(** * Theorems on the best chain

    The definitions are in Lchain.v, the lemmas in LchainFacts.v. *)
From S2P Require Import Prelude Errors Wire ScriptNum Opcodes Script ScriptFacts Tx TxFacts Crypto Compress Coins CoinsFacts Block Undo ConnectFacts.
From S2P Require Import Stack Slice Interp Ltx ScriptTheorems UtxoTheorems BlockIndex Chain ChainFacts BranchFacts ChainTheorems Merkle Pow Lblock.
From S2P Require Import TreeFacts Mempool PoolSorted Accept Lmempool LmempoolFacts PoolView AcceptTheorems Disk DiskFacts DiskTheorems BlkDB Lchain LchainFacts.

Section Theorems.
Context `{SecpCompression} `{LruLaws} `{Hashes}.
(** The outpoints that occur, and the orders in which Go walks its maps. *)
Context (T : gset OutPoint) (HT : (size T <= lru_capacity)%nat).
Context (range_coins : gmap OutPoint Coin -> list (OutPoint * Coin)) (Hcoins : forall m, range_coins m ≡ₚ map_to_list m).
Context (drain : list (option TxErr) -> list (option TxErr)) (Hdrain : forall l, drain l ≡ₚ l).
Context (range : gset nat -> list nat) (Hrange : forall X, range X ≡ₚ elements X).
Context (range_orphans : gmap bytes OrphanTx -> list OrphanTx) (Horphans : forall s, range_orphans s ≡ₚ map snd (map_to_list s)).
Context (check_order : TxMempool -> list nat) (tx_order : TxMempool -> list Tx) (Htx_order : forall m x, x ∈ tx_order m -> exists q e, entries m !! q = Some e /\ e_Tx e = x).
Context (grow : nat -> nat -> nat) (sizeof_TxEntry overflow : Z) (params : PowParams) (conf : PoolConfig) (Excessiveblocksize minimumChainWork : Z) (HashAssumeValid BIP34Hash : bytes).
Context (now adjusted second nano checkFrequency rand StopAtHeight : Z).
(** The tree, its blocks, and bounds for their undo records; there is room on the disk. *)
Context (h0 : bheap) (blk_of : nat -> Block) (w : nat -> Z) (Htree : ledger_tree T params h0 blk_of w).
Context (Hsha : forall x, length (Sha256 x) = 32%nat) (free : Z) (Hfree : MinDiskSpace + 2 ^ 32 <= free).
Abbreviation ledger := (ledger T h0 blk_of w).
Abbreviation Activate stuck pblock := (ActivateBestChain grow drain range_coins range range_orphans sizeof_TxEntry overflow params conf Excessiveblocksize minimumChainWork HashAssumeValid BIP34Hash now adjusted second nano free
  checkFrequency rand check_order tx_order StopAtHeight stuck pblock).
Abbreviation Resurrect := (resurrect grow drain range sizeof_TxEntry overflow params conf now adjusted).
Abbreviation Disconnect_tip := (DisconnectTip grow drain range_coins range sizeof_TxEntry overflow params conf minimumChainWork now adjusted nano free).
Abbreviation Disconnect_to := (disconnect_to grow drain range_coins range sizeof_TxEntry overflow params conf minimumChainWork now adjusted nano free).
Abbreviation Connect_from := (connect_from grow drain range_coins range params Excessiveblocksize minimumChainWork HashAssumeValid BIP34Hash now nano free).
(** A block that the caller has at hand is that of its index, and is stored. *)
Definition given (pblock : option Block) : Prop :=
  forall blk q b, pblock = Some blk -> h0 !! q = Some b -> Block_GetHash Sha256 blk = hash_of Sha256 h0 q -> is_block h0 blk_of q blk /\ HasData b = true.
Definition candidates_ok (s : chain_state) : Prop := forall q, q ∈ branch (s_chain s) -> exists b, h0 !! q = Some b /\ bi_Height b < 2 ^ 30.

(** C1. The coins are those of the active chain.  Take a tree of headers in which every
    block, on the active chain or on a side branch, fits ([ledger_tree]): it is well formed,
    has its proof of work, follows its parent, is below height 2^30, the bound given for its
    undo record holds, the ids of its transactions differ from one another and from those of
    the coins of its parent (the situation of BIP30), and all outpoints of all these blocks
    and of the pool are in one set of at most 1,000,000, the capacity of the cache, so
    that no coin is evicted.  The disk has room, and a block that the caller hands over is
    the stored one of its index.  Then the following is kept, whatever blocks of the tree
    ActivateBestChain connects and disconnects, and whether it returns without an error or
    with one (an invalid block, a block that cannot be read): the UTXO set in the
    cache and the database is the replay of the blocks from the first to the tip, the hash
    of the best block is that of the tip, and every block of the active chain has its
    data and its undo data on disk.  When it returns without an error, the tip has at least
    the work it had, and, unless a shutdown is scheduled, at least that of the candidate
    with most work.  Nothing is said of a run that panics. *)
Theorem ActivateBestChain_ledger (stuck : forall A : Type, lc A) (pblock : option Block) (Hblock : given pblock) (t : nat) (s : chain_state) (Hs : ledger t s) (Hbranch : candidates_ok s) :
  match Activate stuck pblock s with
  | (s', Ok _) => exists t', ledger t' s' /\ work_of h0 t <= work_of h0 t' /\
      (shutdownScheduled s = false -> forall q, FindMostWorkChain (s_chain s) = Some q -> work_of h0 q <= work_of h0 t')
  | (s', Err _) => exists t', ledger t' s'
  | (_, Panic) => True
  end.
Proof.
  rewrite (ActivateBestChain_enough T HT range_coins Hcoins params h0 blk_of w Htree Hsha free Hfree grow drain Hdrain range Hrange range_orphans Horphans sizeof_TxEntry overflow conf _ _ _ _ _ _ _ _ _ _ check_order tx_order Htx_order StopAtHeight pblock Hblock stuck t s Hs Hbranch).
  exact (ActivateBestChain_ok T HT range_coins Hcoins params h0 blk_of w Htree Hsha free Hfree grow drain Hdrain range Hrange range_orphans Horphans sizeof_TxEntry overflow conf _ _ _ _ _ _ _ _ _ _ check_order tx_order Htx_order StopAtHeight pblock Hblock t s Hs Hbranch).
Qed.

(** C22. A block of the active chain can be taken off again, in a tree as in C1 (all its
    outpoints fit the cache, no eviction): unless the tip is the first block, it is read, its
    undo data are read and applied, and the tip moves to its parent, without an error or a
    panic, whatever was connected before; the coins are then those of the parent.  With
    fBare that is all.  Without it, as ActivateBestChainStep and the RPC call it, what
    follows is that the transactions of the block are offered to the pool: this returns
    no error either, and when it returns, the chain is as before it and the coins are
    those of the parent; it may panic, in the acceptance of a transaction or in the
    removal of a refused one, and nothing is said of that. *)
Theorem DisconnectTip_succeeds (t pre : nat) (b : BlockIndex) (s : chain_state) (Hs : ledger t s) (Hb : h0 !! t = Some b) (Hpre : bi_Prev b = Some pre) :
  exists s1, ledger pre s1 /\ Disconnect_tip true s = (s1, Ok tt) /\ Disconnect_tip false s = Resurrect (Txs (blk_of t)) s1 /\
    match Disconnect_tip false s with
    | (s', Ok _) => ledger pre s' /\ s_chain s' = s_chain s1
    | (_, Err _) => False
    | (_, Panic) => True
    end.
Proof.
  destruct (DisconnectTip_run T HT range_coins Hcoins params h0 blk_of w Htree Hsha free grow drain range sizeof_TxEntry overflow conf minimumChainWork now adjusted nano t b pre s Hs Hb Hpre) as (s1 & Hl & Hrun).
  exists s1. split; [done|]. split; [by rw (Hrun true)|]. split; [exact (Hrun false)|]. rw (Hrun false).
  apply (resurrect_ok T HT params h0 blk_of w grow drain Hdrain range Hrange range_orphans Horphans sizeof_TxEntry overflow conf now adjusted pre _ (fun _ => False) s1 Hl).
  by apply (block_known T HT params h0 blk_of w Htree t b pre).
Qed.

(** C26. ActivateBestChain ends, in a tree as in C1: the loops of the model are bounded, and
    what a loop does that has used up its bound ([stuck]) is a parameter; no run
    depends on it, so no loop uses it up.  The rounds are bounded by the number of
    indexes, since each leaves a tip with more work, an ancestor of the candidate; the
    loop down to the fork by the length of the active chain; the loop that connects 32
    heights at a time, and the one that collects these indexes, by the height of
    the candidate.  The other loops of the code are recursions over lists. *)
Theorem ActivateBestChain_ends (stuck stuck' : forall A : Type, lc A) (pblock : option Block) (Hblock : given pblock) (t : nat) (s : chain_state) (Hs : ledger t s) (Hbranch : candidates_ok s) :
  Activate stuck pblock s = Activate stuck' pblock s /\
  (forall f n flag, walk h0 t n = Some f ->
    Disconnect_to stuck (S (length (active (s_chain s)))) (Some f) flag s = Disconnect_to stuck' (S (length (active (s_chain s)))) (Some f) flag s) /\
  (forall mw mb tb n blk o ob, h0 !! t = Some tb -> h0 !! mw = Some mb -> bi_Height mb < 2 ^ 30 -> h0 !! o = Some ob -> walk h0 mw n = Some t -> handed h0 blk_of blk mw ->
    Connect_from stuck (S (Z.to_nat (bi_Height mb))) (bi_Height tb) mw blk (Some o) s = Connect_from stuck' (S (Z.to_nat (bi_Height mb))) (bi_Height tb) mw blk (Some o) s).
Proof.
  split; [|split].
  - pose proof (fun st => ActivateBestChain_enough T HT range_coins Hcoins params h0 blk_of w Htree Hsha free Hfree grow drain Hdrain range Hrange range_orphans Horphans sizeof_TxEntry overflow conf Excessiveblocksize minimumChainWork HashAssumeValid BIP34Hash now adjusted second nano checkFrequency rand check_order tx_order Htx_order StopAtHeight pblock Hblock st t s Hs Hbranch) as He.
    cbv zeta in He. etrans; [apply He|]. symmetry. apply He.
  - intros f n flag Hw. assert (n <= S (length (active (s_chain s))))%nat as Hn.
    { pose proof (co_path _ (ag_chain _ _ _ _ _ _ _ _ _ Hs)) as Hp. rw (ag_tip _ _ _ _ _ _ _ _ _ Hs) in Hp. destruct Hp as (b & Hb & Hlen & _).
      destruct (same_tree_back _ _ _ _ (ag_tree _ _ _ _ _ _ _ _ _ Hs) Hb) as (b0 & Hb0 & Hsi). pose proof (links_inv _ _ (si_links _ _ Hsi)) as (_ & _ & _ & _ & Hh & _).
      destruct (height_walk T HT params h0 blk_of w Htree t b0 n f Hb0 Hw) as (fb & Hfb & Hfh). pose proof (tr_height h0 (lt_tree _ _ _ _ _ Htree) f fb Hfb). lia. }
    pose proof (fun st => disconnect_enough T HT range_coins Hcoins params h0 blk_of w Htree Hsha free grow drain Hdrain range Hrange range_orphans Horphans sizeof_TxEntry overflow conf minimumChainWork now adjusted nano st f n _ t flag s Hs Hw Hn) as He.
    etrans; [apply He|]. symmetry. apply He.
  - intros mw mb tb n blk o ob Ht Hmw Hmh Ho Hw Hblk. assert (n <= S (Z.to_nat (bi_Height mb)))%nat as Hn.
    { destruct (height_walk T HT params h0 blk_of w Htree mw mb n t Hmw Hw) as (fb & Hfb & Hfh). pose proof (tr_height h0 (lt_tree _ _ _ _ _ Htree) t fb Hfb). lia. }
    pose proof (fun st => connect_enough T HT range_coins Hcoins params h0 blk_of w Htree Hsha free Hfree grow drain Hdrain range Hrange range_orphans Horphans Excessiveblocksize minimumChainWork HashAssumeValid BIP34Hash now nano st mw mb blk o ob Hblk Hmw Ho Hmh _ t tb n s Hs Ht Hw Hn) as He.
    etrans; [apply He|]. symmetry. apply He.
Qed.
End Theorems.

(** ** The first block *)
Section Genesis.
Context `{SecpCompression} `{LruLaws} `{Hashes}.
Context (T : gset OutPoint) (HT : (size T <= lru_capacity)%nat).
Context (range_coins : gmap OutPoint Coin -> list (OutPoint * Coin)) (Hcoins : forall m, range_coins m ≡ₚ map_to_list m).
Context (params : PowParams) (minimumChainWork now nano : Z) (blk_of : nat -> Block) (w : nat -> Z) (Hw : forall q, 0 <= w q < 2 ^ 32).
Context (free : Z) (Hfree : MinDiskSpace + 2 ^ 32 <= free).
Definition no_disk : Disk := mkDisk ∅ ∅ [] 0 ∅.
Lemma first_stored b : wf_block b -> len (Block_Serialize b) + 4 < MaxBlockFileSize ->
  exists d i, StoreBlock free 0 b None no_disk = Ok (mkPos 0 0, d) /\ GlobalBlockFileInfo d = [i] /\ info_ok i /\ UndoSize i = 0 /\ GlobalLastBlockFile d = 0.
Proof.
  intros Hb Hsz. destruct (Block_SerializeSize_len b Hb) as (b' & Hbs & Hh & Ht & Hser). unfold StoreBlock. rw Hbs. cbn [default].
  assert (u32 (u32 (len (Block_Serialize b)) + 4) = len (Block_Serialize b) + 4) as -> by (unfold MaxBlockFileSize in Hsz; int_lia). set (n := len (Block_Serialize b) + 4) in *. assert (0 <= n) as Hn by (unfold n; lia).
  unfold FindBlockPos. destruct (Z.ltb_spec MaxBlockFileSize n); [lia|]. cbn [no_disk GlobalLastBlockFile GlobalBlockFileInfo]. change (grow_infos [] 0) with [NewBlockFileInfo]. cbn [length find_file]. change (nth_go [NewBlockFileInfo] 0) with (Ok NewBlockFileInfo : res DiskErr _).
  cbn [mbind res_bind bf_Size NewBlockFileInfo]. assert (u32 (0 + n) = n) as -> by (unfold MaxBlockFileSize in Hsz; int_lia). destruct (Z.leb_spec MaxBlockFileSize n); [lia|]. cbn [mbind res_bind].
  change (nth_go [NewBlockFileInfo] 0) with (Ok NewBlockFileInfo : res DiskErr _). cbn [mbind res_bind]. change (0 =? _) with true. cbn [mbind res_bind].
  set (i1 := AddBlock 0 (Time (Header b')) NewBlockFileInfo). change (upd_info 0 (AddBlock 0 (Time (Header b'))) (with_infos [NewBlockFileInfo] no_disk)) with (Ok (with_infos [i1] no_disk) : res DiskErr Disk). cbn [mbind res_bind].
  set (i2 := set_Size (u32 (bf_Size i1 + n)) i1). change (upd_info 0 _ (with_infos [i1] no_disk)) with (Ok (with_infos [i2] no_disk) : res DiskErr Disk). cbn [mbind res_bind].
  change (nth_go _ 0) with (Ok i2 : res DiskErr _). cbn [mbind res_bind].
  destruct (reserve_ok (E := DiskErr) free BlockFileChunkSize (mkPos 0 0) (bf_Size i2) ∅ Hfree ltac:(done)) as (m & Hr & _). change (bf_Size NewBlockFileInfo) with 0. change (blk _) with (∅ : gmap Z File). rw Hr. cbn [mbind res_bind negb WriteBlockToDisk Pos_IsNull].
  eexists _, i2. split; [reflexivity|]. cbn. split; [done|]. split; [|done]. split; cbn; [rw u32_id; unfold MaxBlockFileSize in *; int_lia|lia].
Qed.
(** The tree of the first block alone. *)
Lemma first_tree h q b : h !! q = Some b -> (forall r, r <> q -> h !! r = None) -> tree_ok h -> bi_Prev b = None -> ledger_tree T params h blk_of w.
Proof.
  intros Hq Ho Ht Hp. split; [done| |done|]; intros x bx; destruct (decide (x = q)) as [->|Hx]; [|by rw (Ho x Hx)| |by rw (Ho x Hx)]; rw Hq.
  - intros pre [= <-] Hpre. congruence.
  - intros q' b' [= <-] Hq' _ _. destruct (decide (q' = q)) as [->|Hne]; [done|by rw (Ho q' Hne) in Hq'].
Qed.
Lemma first_ledger h q b c v m d i : c_heap c = h -> h !! q = Some b -> (forall r, r <> q -> h !! r = None) -> bi_Prev b = None -> bi_Height b = 0 -> chain_ok c -> tip c = Some q ->
  cache_ok T v ∅ -> hashBlock v = hash_of Sha256 h q -> Hash_IsNull (hash_of Sha256 h q) = false -> known_pool T m -> GlobalBlockFileInfo d = [i] -> info_ok i -> UndoSize i = 0 -> GlobalLastBlockFile d = 0 ->
  agree T h blk_of w q c v m d.
Proof.
  intros <- Hq Ho Hp Hh Hc Ht Hv Hb Hn Hm Hd Hi Hu Hl. split; [done| |done| |done|done| |].
  - intros x. destruct (c_heap c !! x); constructor. by split.
  - unfold coins. rw Hq. cbn [from_option]. by rw Hh.
  - split.
    + split; rewrite ?Hd ?Hl; [constructor; [exact Hi|constructor]|done|done].
    + intros x bx pre Hx Hpre. destruct (decide (x = q)) as [->|Hne]; [congruence|by rw (Ho x Hne) in Hx].
    + intros x bx pre Hx Hpre. destruct (decide (x = q)) as [->|Hne]; [congruence|by rw (Ho x Hne) in Hx].
    + intros k j Hk. rewrite Hd in Hk. apply list_lookup_singleton_Some in Hk as [-> <-]. rw Hu. assert (c_heap c = {[q := b]}) as ->.
      { apply map_eq. intros x. destruct (decide (x = q)) as [->|Hne]; [by rw lookup_singleton_eq|by rw lookup_singleton_ne // (Ho x Hne)]. }
      unfold due. rw map_fold_singleton. unfold due_of. specialize (Hw q). destruct (_ && _); lia.
  - intros n x bx _ Hx Hpre. destruct (decide (x = q)) as [->|Hne]; [congruence|by rw (Ho x Hne) in Hx].
Qed.
(** The index of the first block, after its transactions are received. *)
Lemma first_received (genesis : Block) pos q c b best : c_heap c = {[q := b]} -> branch c = [] -> orphan c = ∅ -> tree_ok (c_heap c) -> pindexBestHeader c = best -> bi_blockHash b = GenesisHash (pp_forks params) ->
  Hash_IsNull (GenesisHash (pp_forks params)) = false -> exists c' b', ReceivedBlockTransactions (E := Empty_set) params genesis q pos c = Ok c' /\ c_heap c' = {[q := b']} /\ links b' = links b /\ GetBlockPos b' = pos /\
    active c' = active c /\ tip c' = tip c /\ indexMap c' = indexMap c /\ pindexBestHeader c' = best.
Proof.
  intros Hh Hbr Hor Ht Hbest Hhash Hnn. unfold ReceivedBlockTransactions. rw Hh. unfold bload. rw lookup_singleton_eq. cbn [mbind res_bind]. set (b1 := (RaiseValidity _ _).2). rw insert_singleton_eq.
  assert (links b1 = links b) as Hl by (unfold b1, RaiseValidity; by repeat case_match).
  assert (HasData b1 = true /\ bi_File b1 = pos.1 /\ bi_DataPos b1 = pos.2) as (Hd1 & Hf1 & Hp1).
  { split; [rw HasData_bit RaiseValidity_bit // AddStatus_bit; apply orb_true_r|]. unfold b1, RaiseValidity. by repeat case_match. }
  set (c1 := with_heap c {[q := b1]}).
  assert (hash_of Sha256 (c_heap c1) q = GenesisHash (pp_forks params)) as Hg.
  { unfold hash_of. cbn [c1 with_heap c_heap]. rw lookup_singleton_eq. cbn [from_option]. unfold GetBlockHash. destruct (links_inv _ _ Hl) as (_ & Hbh & _). by rw Hbh Hhash Hnn. }
  assert (IsGenesis Sha256 (pp_forks params) c1 q = true) as Hig by (unfold IsGenesis; by rw bool_decide_true). rw Hig. cbn [mbind res_bind].
  assert (tree_ok (c_heap c1)) as Ht1.
  { cbn. rw Hh in Ht. destruct (links_inv _ _ Hl) as (_ & _ & ? & ? & ? & _). rewrite <-(insert_empty q b1). apply (tree_same ∅ q b b1); [by rewrite insert_empty|done|done|done]. }
  destruct (AddToBranch_ok (E := Empty_set) Sha256 (pp_forks params) c1 q) as (c2 & -> & Hcore & _ & _ & _ & _ & _ & Ha & Htp & Him & Hb2); [done| | | |].
  - cbn. rw Hbr. constructor.
  - exists b1. cbn [c1 with_heap c_heap]. rw lookup_singleton_eq. split; [done|]. fold c1. by rw Hig.
  - intros k l y Hk. cbn in Hk. by rw Hor lookup_empty in Hk.
  - cbn [mbind res_bind default]. pose proof (Hcore q) as Hq. cbn [c1 with_heap c_heap] in Hq. rw lookup_singleton_eq in Hq. destruct (c_heap c2 !! q) as [b2|] eqn:Eq; [|done]. clear Hq.
    exists c2, b2. split; [done|]. split.
    + apply map_eq. intros x. destruct (decide (x = q)) as [->|Hne]; [by rw lookup_singleton_eq|]. rw lookup_singleton_ne //. pose proof (Hcore x) as Hx. cbn [c1 with_heap c_heap] in Hx. rw lookup_singleton_ne // in Hx. by destruct (c_heap c2 !! x).
    + pose proof (Hcore q) as Hq. cbn [c1 with_heap c_heap] in Hq. rw lookup_singleton_eq Eq in Hq. pose proof (fmap_Some_eq _ _ _ Hq) as Hs. pose proof (f_equal fst Hs) as Hl2. pose proof (f_equal snd Hs) as Hs2. cbn [fst snd] in Hl2, Hs2.
      unfold status_pos in Hs2. injection Hs2 as Hst Hfi Hpo. split; [congruence|]. split; [|by subst best]. unfold GetBlockPos, HasData in *. rw -Hst Hd1 -Hfi -Hpo Hf1 Hp1. by destruct pos.
Qed.
Lemma flush_disk mode s : match flush range_coins nano free mode s with (s', Ok _) => forall pos x, block_at (p_disk (s_persist s)) pos x -> block_at (p_disk (s_persist s')) pos x | (_, Err _) => False | _ => True end.
Proof.
  unfold flush. rw (bind_run _ _ s s (s_chain s) eq_refl) (bind_run _ _ s s (s_persist s) eq_refl) (bind_run _ _ s s (s_view s) eq_refl) (bind_run _ _ s s (s_pool s) eq_refl).
  unfold mbind, lc_bind, lc_pure. destruct (FlushStateToDisk _ _ _ _ _ _ _ _ _) as [[g v]|[]|] eqn:Ef; [|done]. cbn. by destruct (FlushStateToDisk_inv _ _ _ _ _ _ _ _ _ _ _ Ef) as ([->| ->] & _).
Qed.

(** C28. The first block: on a node whose chain, files and coins are empty, with room on
    the disk and with a block that fits a file and has the hash that the network prescribes,
    InitGenesisChain returns no error.  When it returns (flushing may panic, of which nothing
    is said), the block is the tip, its hash is the best block of the coins, its record is in
    the block file at the position that its index gives, where it is read back if it has
    its proof of work, and what holds is the relation between tree, coins and files
    that ActivateBestChain keeps (C1). *)
Theorem InitGenesisChain_ledger (genesis : Block) (s : chain_state) (Hchain : s_chain s = NewChain) (Hdisk : p_disk (s_persist s) = no_disk) (Hview : cache_ok T (s_view s) ∅)
    (Hpool : known_pool T (s_pool s)) (Hwf : wf_block genesis) (Hsmall : len (Block_Serialize genesis) + 4 < MaxBlockFileSize)
    (Hhash : (Header_GetHash Sha256 (Header genesis)).1 = GenesisHash (pp_forks params)) (Hnull : Hash_IsNull (GenesisHash (pp_forks params)) = false) (Hprev : HashPrevBlock (Header genesis) = HashZero) :
  match InitGenesisChain range_coins params minimumChainWork now nano free genesis s with
  | (s', Ok _) => exists q, tip (s_chain s') = Some q /\ hash_of Sha256 (c_heap (s_chain s')) q = GenesisHash (pp_forks params) /\ hashBlock (s_view s') = GenesisHash (pp_forks params) /\
      (exists b, c_heap (s_chain s') !! q = Some b /\ block_at (p_disk (s_persist s')) (of_pos (GetBlockPos b)) genesis /\
        (CheckProofOfWork params (Block_GetHash Sha256 (as_read genesis)) (Bits (Header genesis)) = true ->
         ReadBlockFromDiskByPos params (of_pos (GetBlockPos b)) (p_disk (s_persist s')) = Ok (Some (as_read genesis)))) /\
      ledger_tree T params (c_heap (s_chain s')) blk_of w /\ ledger T (c_heap (s_chain s')) blk_of w q s'
  | (_, Err _) => False
  | (_, Panic) => True
  end.
Proof.
  destruct (first_stored genesis Hwf Hsmall) as (d & i & Hst & Hd & Hi & Hu & Hl). destruct (StoreBlock_ok free 0 genesis no_disk ltac:(by split) Hwf Hsmall Hfree) as (pos & d' & Hst' & Hat & _). rw Hst in Hst'. injection Hst' as <- <-. unfold InitGenesisChain. rw (bind_run _ _ s s (s_chain s) eq_refl) Hchain. cbn [Genesis NewChain active head mjoin option_join].
  rw (bind_run _ _ s s (s_persist s) eq_refl) Hdisk Hst. set (q := fresh _). unfold of_disk. unfold mbind at 1, lc_bind at 1. cbn [fst snd]. set (g1 := with_disk d (s_persist s)). rw (bind_run (put_persist g1) _ s _ tt eq_refl). set (s1 := mkCS _ _ _ _ _ _).
  assert (Hash_IsNull HashZero = true) as Hz by done. destruct (AddToIndexMap_ok (E := Empty_set) Sha256 ∅ (with_heap NewChain (<[q := NewBlockIndex (Header genesis)]> ∅)) q (Header genesis) (NewBlockIndex (Header genesis)) None) as (b & best & Hadd & Hlk & Ht & Hbest & _);
    [apply tree_empty|apply lookup_empty|done|apply fresh_index_new|by left|by split; cbn; intros; simplify_map_eq|apply (wfh_time _ (wb_header _ Hwf))|rw Hprev Hhash; congruence|by cbn; intros; simplify_map_eq|].
  cbn [c_heap NewChain] in Hadd. rw (bind_run _ _ s1 s1 _ (pure_run _ _ s1 Hadd)). clear Hadd. set (c1 := mkChain _ _ _ _ _ _ _ _ _). destruct Hlk as (Hp & Hht & _ & _ & _ & _ & Hbh & _). cbn [with_heap NewChain indexMap] in Hp, Hht. rw lookup_empty in Hp, Hht. cbn [from_option] in Hht.
  destruct (first_received genesis (pos_File (mkPos 0 0), pos_Pos (mkPos 0 0)) q c1 b best) as (c2 & b2 & Hrec & Hh2 & Hl2 & Hpos2 & Ha2 & Ht2 & Hi2 & Hb2); [by cbn; rw insert_empty|done|done|done|done|by rw Hbh|done|].
  rw (bind_run _ _ s1 s1 _ (pure_run _ _ s1 Hrec)). destruct (links_inv _ _ Hl2) as (_ & Hbh2 & Hp2 & Hsk2 & Hht2 & _).
  assert (c_heap c2 !! q = Some b2) as Hq2 by (by rw Hh2 lookup_singleton_eq). assert (tree_ok (c_heap c2)) as Htree2 by (rw Hh2 -(insert_empty q b2); by eapply tree_same).
  assert (chain_ok c2) as Hok2.
  { split; [done|by rw Ht2; cbn; rw Ha2|]. split; [rw Hi2; cbn; rw insert_empty|rw Hb2]; intros *.
    - rw lookup_singleton_Some. intros [_ <-]. by eexists.
    - intros ->. destruct Hbest as [[= ->]|?]; [by eexists|done]. }
  destruct (SetTip_ok (E := Empty_set) now minimumChainWork c2 (Some q) Hok2) as (l & cur & Hset & Hpath); [intros r [= <-]; by eexists|]. rw (bind_run _ _ s1 s1 _ (pure_run _ _ s1 Hset)). clear Hset. set (c3 := mkChain _ _ _ _ _ _ _ _ _).
  assert (chain_ok c3) as Hok3 by (split; [done|done|by destruct Hok2 as [_ _ [? ?]]]). rw (bind_run (put_chain c3) _ s1 _ tt eq_refl). set (s2 := mkCS _ c3 _ _ _ _). rw (bind_run (lc_get s_view) _ s2 s2 (s_view s) eq_refl).
  assert (hash_of Sha256 (c_heap c3) q = GenesisHash (pp_forks params)) as Hg by (unfold hash_of; cbn [c3 c_heap]; rw Hq2; cbn [from_option]; unfold GetBlockHash; by rw Hbh2 Hbh Hhash Hnull).
  assert (UpdateCoins (E := Empty_set) range_coins (s_view s) ∅ (hash_of Sha256 (c_heap c3) q) = Ok (mkCache _ (db (s_view s)) (hash_of Sha256 (c_heap c3) q) (cacheCoins (s_view s)) (dirtyCoins (s_view s)))) as Hup.
  { unfold UpdateCoins. assert (range_coins ∅ = []) as ->; [|done]. apply Permutation_nil_r. by rw Hcoins map_to_list_empty. }
  rw (bind_run _ _ s2 s2 _ (pure_run _ _ s2 Hup)). set (v2 := mkCache _ _ _ _ _). rw (bind_run (put_view v2) _ s2 _ tt eq_refl). set (s3 := mkCS _ _ _ _ _ _).
  assert (forall r, r <> q -> c_heap c3 !! r = None) as Ho by (intros r Hr; cbn [c3 c_heap]; by rw Hh2 lookup_singleton_ne).
  assert (ledger T (c_heap c3) blk_of w q s3) as Hled.
  { apply (first_ledger (c_heap c3) q b2 c3 v2 (s_pool s) d i); try done; [by rw Hp2|by rw Hht2|by destruct Hview|by rw Hg]. }
  pose proof (ledger_flush T HT range_coins Hcoins (c_heap c3) blk_of w free nano q FlushStateAlways s3 Hled) as Hf. pose proof (flush_disk FlushStateAlways s3) as Hne.
  unfold wp in Hf. destruct (flush range_coins nano free FlushStateAlways s3) as [s' [u|e|]]; [|done|done]. destruct Hf as [Hf Hc]. exists q. rw Hc. change (s_chain s3) with c3. split; [done|]. split; [done|].
  split; [by rw (proj1 (ag_best _ _ _ _ _ _ _ _ _ Hf))|]. apply Hne in Hat.
  split; [|split; [apply (first_tree (c_heap c3) q b2); [done|done|done|by rw Hp2]|done]]. exists b2. split; [done|]. rw Hpos2. split; [done|]. intros Hpow. apply (block_at_read params); [done|unfold MaxBlockFileSize in Hsmall; split; lia|done|done].
Qed.
End Genesis.

(** ** A small chain *)
#[local] Existing Instances toy_curve toy_hashes toy_compression toy_lru toy_lru_laws.
(** The block of [toy_chain] and a child with a coinbase transaction, stored but not yet
    connected. *)
Definition ledger_block : Block := mkBlock (mkHeader 1 (repeat 1 32) (txid Sha256 coinbase) 200 0x2100ffff 0 HashZero) [coinbase] 0 false.
Definition ledger_child : BlockIndex :=
  mkBI (Header ledger_block) (Block_GetHash Sha256 ledger_block) (Some 1%nat) (Some 1%nat) 1 0 0 0 4 1 2 (3 .| BlockHaveData) 2 200.
Definition ledger_heap : bheap := <[2%nat := ledger_child]> {[1%nat := toy_genesis]}.
Definition ledger_chain : Chain :=
  mkChain ledger_heap [Some 1%nat] [2%nat] ∅ (<[Block_GetHash Sha256 ledger_block := 2%nat]> {[repeat 1 32 := 1%nat]}) 2 (Some 2%nat) (Some 1%nat) false.
Definition ledger_ops : gset OutPoint := {[mkOutPoint (txid Sha256 coinbase) 0]}.
Definition ledger_disk : Disk := match StoreBlock 6000000000 1 ledger_block None disk0 with Ok (_, d) => d | _ => disk0 end.
Definition ledger_state : chain_state :=
  mkCS _ ledger_chain (mkCache _ (∅ : DB) (repeat 1 32) (∅ : gmap OutPoint Coin) ∅) NewTxMempool (mkPersist ledger_disk (mkDBW ∅ false []) ∅ 0 0 0) false.
Abbreviation crash := (fun A : Type => @lc_crash _ A).
Definition ledger_run (stuck : forall A : Type, lc A) (pblock : option Block) : lc unit :=
  ActivateBestChain toy_grow (fun l => reverse l) map_to_list elements (fun m => map snd (map_to_list m)) 200 0 disk_params accept_conf 1000000 0 HashZero HashZero
    1000 1000 1000 1000 6000000000 0 0 (fun _ => []) (fun _ => []) 0 stuck pblock.
Abbreviation ledger_activate := (ledger_run crash).

Lemma ledger_lookup q b : ledger_heap !! q = Some b -> q = 1%nat /\ b = toy_genesis \/ q = 2%nat /\ b = ledger_child.
Proof. unfold ledger_heap. rewrite lookup_insert_Some lookup_singleton_Some. naive_solver. Qed.
Lemma ledger_tree_ok : tree_ok ledger_heap.
Proof.
  assert (tree_ok (<[2%nat := set_Skip None ledger_child]> {[1%nat := toy_genesis]})) as Hs.
  { apply tree_insert; [apply (co_tree _ toy_chain_ok)|done..|]. intros pre [= <-]. by exists toy_genesis. }
  unfold ledger_heap. rw -(insert_insert_eq {[1%nat := toy_genesis]} 2%nat ledger_child (set_Skip None ledger_child)).
  eapply tree_update; [exact Hs|apply lookup_insert_eq|done|done|]. intros s [= <-]. change (Z.to_nat _) with 1%nat. cbn [walk]. by rw lookup_insert_eq.
Qed.
Lemma ledger_chain_ok : chain_ok ledger_chain.
Proof.
  split; [exact ledger_tree_ok| |].
  - exists toy_genesis. split; [done|]. split; [done|]. intros k Hk. assert (k = 0%nat) as -> by (cbn in Hk; lia). done.
  - split; cbn [ledger_chain indexMap c_heap]; [|intros r [= <-]; by eexists]. intros hash r. rewrite lookup_insert_Some lookup_singleton_Some. intros [[_ <-]|[_ [_ <-]]]; by eexists.
Qed.
Lemma coinbase_wf : wf_tx coinbase.
Proof.
  split; [constructor; [|constructor]|constructor; [|constructor]|by vm_compute|by vm_compute|by vm_compute|by vm_compute].
  - split; [split; [done|split; [apply (bool_decide_unpack _); by vm_compute|by vm_compute]]|]. split; [split; [by apply (bool_decide_unpack _)|by vm_compute]|]. by split_and!; vm_compute.
  - split; [split; cbn; lia|]. exists [OP_1]. split; [split; [by apply (bool_decide_unpack _)|by vm_compute]|by vm_compute].
Qed.
Lemma ledger_block_wf : wf_block ledger_block.
Proof. split; [split; by vm_compute|constructor; [exact coinbase_wf|constructor]|by vm_compute|by left]. Qed.
Lemma ledger_block_small : len (Block_Serialize ledger_block) + 4 < MaxBlockFileSize.
Proof. by vm_compute. Qed.
Definition ledger_blk (_ : nat) : Block := ledger_block.
Lemma first_coins : coins ledger_heap ledger_blk 1 = ∅.
Proof. reflexivity. Qed.
Lemma coinbase_connects : conn_block ledger_ops ∅ coinbase [].
Proof.
  split; [reflexivity|constructor; [|constructor]|constructor|constructor|apply NoDup_singleton]. split.
  - constructor; [|constructor]. split; [by exists [OP_1]|cbn; lia].
  - by vm_compute.
  - assert (hash_ok (txid Sha256 coinbase)) as [Hl Hb] by (apply hash_compute; vm_compute; reflexivity). split; assumption.
  - intros j. apply lookup_empty.
  - intros j Hj. assert (j = 0) as -> by (change (Z.of_nat (length (outs coinbase))) with 1 in Hj; lia). by apply elem_of_singleton.
Qed.
Lemma small_ledger_tree : ledger_tree ledger_ops disk_params ledger_heap ledger_blk (fun _ => 1000).
Proof.
  split; [exact ledger_tree_ok| |done|].
  - intros q b pre Hq Hp. apply ledger_lookup in Hq as [[-> ->]|[-> ->]]; [discriminate|]. injection Hp as <-. split.
    + by vm_compute.
    + vm_compute. reflexivity.
    + split; vm_compute; reflexivity.
    + reflexivity.
    + intros Heq. vm_compute in Heq. discriminate.
    + split; [exact ledger_block_wf|]. by vm_compute.
    + reflexivity.
    + vm_compute. reflexivity.
    + exists coinbase, []. split; [reflexivity|]. rewrite first_coins. exact coinbase_connects.
    + intros uss data (cb & rest & Htx & Hu & _) Hd. injection Htx as _ <-. apply Forall2_nil_inv_l in Hu as ->. injection Hd as <-. by vm_compute.
  - intros q b q' b' Hq Hq' Hp Hp'. apply ledger_lookup in Hq as [[-> ->]|[-> ->]]; [|discriminate]. by apply ledger_lookup in Hq' as [[-> ->]|[-> ->]].
Qed.
Example ledger_stored : match StoreBlock 6000000000 1 ledger_block None disk0 with
  | Ok (p, d) => Some (p, GlobalLastBlockFile d, map UndoSize (GlobalBlockFileInfo d)) | _ => None end = Some (mkPos 0 0, 0, [0]).
Proof. vm_compute. reflexivity. Qed.
Lemma ledger_due : due (fun _ => 1000) ledger_heap 0 < 2 ^ 32.
Proof. by vm_compute. Qed.
Lemma ledger_files : files_ok ledger_heap ledger_blk (fun _ => 1000) ledger_heap ledger_disk.
Proof.
  destruct (StoreBlock_ok 6000000000 1 ledger_block disk0 (usable_ok _ _ disk0_usable disk0_room) ledger_block_wf ledger_block_small ltac:(by vm_compute)) as (pos & d & Hs & Hat & Hi & Hl & _).
  pose proof ledger_stored as He. unfold ledger_disk. rewrite Hs in He |- *. injection He as -> Hlast Hsizes. split.
  - split; [exact Hi| |lia]. apply (f_equal length) in Hsizes. rewrite length_map in Hsizes. cbn [length] in Hsizes. lia.
  - intros q b pre Hq Hp _. apply ledger_lookup in Hq as [[-> ->]|[-> ->]]; [discriminate|exact Hat].
  - intros q b pre Hq Hp Hu. apply ledger_lookup in Hq as [[-> ->]|[-> ->]]; discriminate.
  - intros k i Hk. assert (map UndoSize (GlobalBlockFileInfo d) !! k = Some (UndoSize i)) as Hki by (by rewrite list_lookup_fmap Hk). rewrite Hsizes in Hki.
    apply list_lookup_singleton_Some in Hki as [-> <-]. exact ledger_due.
Qed.
Lemma empty_cache h : cache_ok ledger_ops (mkCache _ (∅ : DB) h (∅ : gmap OutPoint Coin) ∅) ∅.
Proof.
  split; [split; [apply map_Forall_empty|]|reflexivity|exact (map_empty_subseteq (∅ : gmap OutPoint Coin))|apply empty_subseteq].
  intros op Hw. unfold CoinsDB_GetCoin. destruct (key_total op Hw) as (k & -> & _). cbn. by rewrite !lookup_empty.
Qed.
Lemma empty_known : known_pool ledger_ops NewTxMempool.
Proof. split; [|apply no_orphans_offered]. intros x e He. cbn in He. by rewrite lookup_empty in He. Qed.
Lemma small_ledger : ledger ledger_ops ledger_heap ledger_blk (fun _ => 1000) 1 ledger_state.
Proof.
  split; cbn [ledger_state s_chain s_view s_pool s_persist p_disk].
  - exact ledger_chain_ok.
  - intros q. change (c_heap ledger_chain) with ledger_heap. destruct (ledger_heap !! q) as [b|]; constructor. by split.
  - reflexivity.
  - rewrite first_coins. apply empty_cache.
  - split; vm_compute; reflexivity.
  - exact empty_known.
  - exact ledger_files.
  - intros n x b Hw Hx Hp. destruct n as [|n]; [|discriminate]. injection Hw as <-. by injection Hx as <-.
Qed.
(** The caller has the block at hand. *)
Lemma ledger_given : given ledger_heap ledger_blk (Some ledger_block).
Proof.
  intros blk q b [= <-] Hq Hh. apply ledger_lookup in Hq as [[-> ->]|[-> ->]]; [exfalso; vm_compute in Hh; discriminate|]. split; [|reflexivity]. split; [|exact Hh].
  change (ledger_blk 2) with ledger_block. apply Reflexive_instance_0. intros x. by split_and!.
Qed.
Lemma ledger_candidates : candidates_ok ledger_heap ledger_state.
Proof. intros q Hq. apply list_elem_of_singleton in Hq as ->. exists ledger_child. split; [reflexivity|by vm_compute]. Qed.
Lemma coins_order (m : gmap OutPoint Coin) : map_to_list m ≡ₚ map_to_list m.
Proof. done. Qed.
Lemma no_order (m : TxMempool) (x : Tx) : x ∈ @nil Tx -> exists q e, entries m !! q = Some e /\ e_Tx e = x.
Proof. intros Hx%elem_of_nil. destruct Hx. Qed.
Lemma ledger_room : (size ledger_ops <= lru_capacity)%nat.
Proof. apply (bool_decide_unpack _). vm_compute. reflexivity. Qed.
Lemma ledger_free : MinDiskSpace + 2 ^ 32 <= 6000000000.
Proof. by vm_compute. Qed.
Example ledger_given_activated : match ledger_activate (Some ledger_block) ledger_state with (s, Ok _) => Some (tip (s_chain s)) | _ => None end = Some (Some 2%nat).
Proof. vm_compute. reflexivity. Qed.
(** The tip is then the child. *)
Lemma ledger_connected (P : nat -> Prop) : match ledger_activate (Some ledger_block) ledger_state with
    | (s', Ok _) => exists t', ledger ledger_ops ledger_heap ledger_blk (fun _ => 1000) t' s' /\ P t' | _ => True end ->
  exists s', ledger_activate (Some ledger_block) ledger_state = (s', Ok tt) /\ ledger ledger_ops ledger_heap ledger_blk (fun _ => 1000) 2 s'.
Proof.
  pose proof ledger_given_activated as He. destruct (ledger_activate (Some ledger_block) ledger_state) as [s' [[]|e|]]; [|discriminate|discriminate]. intros (t' & Hl & _). exists s'. split; [reflexivity|].
  injection He as He. pose proof (ag_tip _ _ _ _ _ _ _ _ _ Hl) as Ht. rewrite He in Ht. injection Ht as <-. exact Hl.
Qed.
Lemma ActivateBestChain_ledger_witness : exists s', ledger_activate (Some ledger_block) ledger_state = (s', Ok tt) /\ ledger ledger_ops ledger_heap ledger_blk (fun _ => 1000) 2 s'.
Proof.
  eapply ledger_connected.
  pose proof (ActivateBestChain_ledger ledger_ops ledger_room map_to_list coins_order (fun l => reverse l) reversed elements as_elements (fun m => map snd (map_to_list m)) orphan_range
    (fun _ => []) (fun _ => []) no_order toy_grow 200 0 disk_params accept_conf 1000000 0 HashZero HashZero 1000 1000 1000 1000 0 0 0 ledger_heap ledger_blk (fun _ => 1000) small_ledger_tree
    toy_sha 6000000000 ledger_free crash (Some ledger_block) ledger_given 1 ledger_state small_ledger ledger_candidates) as Hl. unfold ledger_run.
  match type of Hl with let (_, _) := ?x in _ => destruct x as [s' [[]|e|]]; [exact Hl|exact I|exact I] end.
Defined.
(** Connecting the child and disconnecting it again, as a reorganisation does. *)
Definition ledger_disconnect (fBare : bool) : lc unit :=
  DisconnectTip toy_grow (fun l => reverse l) map_to_list elements 200 0 disk_params accept_conf 0 1000 1000 1000 6000000000 fBare.
Example ledger_disconnected : match ledger_activate (Some ledger_block) ledger_state with
  | (s, Ok _) => match ledger_disconnect false s with (s', Ok _) => Some (tip (s_chain s')) | _ => None end
  | _ => None end = Some (Some 1%nat).
Proof. vm_compute. reflexivity. Qed.
Lemma DisconnectTip_succeeds_witness : exists s s', ledger_activate (Some ledger_block) ledger_state = (s, Ok tt) /\ ledger_disconnect false s = (s', Ok tt) /\ ledger ledger_ops ledger_heap ledger_blk (fun _ => 1000) 1 s'.
Proof.
  assert (exists s', ledger_activate (Some ledger_block) ledger_state = (s', Ok tt) /\ ledger ledger_ops ledger_heap ledger_blk (fun _ => 1000) 2 s') as (s & Hrun & Hs).
  { eapply ledger_connected.
    pose proof (ActivateBestChain_ok ledger_ops ledger_room map_to_list coins_order disk_params ledger_heap ledger_blk (fun _ => 1000) small_ledger_tree toy_sha 6000000000 ledger_free
      toy_grow (fun l => reverse l) reversed elements as_elements (fun m => map snd (map_to_list m)) orphan_range 200 0 accept_conf 1000000 0 HashZero HashZero 1000 1000 1000 1000 0 0
      (fun _ => []) (fun _ => []) no_order 0 (Some ledger_block) ledger_given 1 ledger_state small_ledger ledger_candidates) as Hl. unfold wp in Hl. unfold ledger_run.
    match type of Hl with let (_, _) := ?x in _ => destruct x as [s' [[]|e|]]; [exact Hl|exact I|exact I] end. }
  pose proof ledger_disconnected as He. rewrite Hrun in He. exists s.
  destruct (DisconnectTip_succeeds ledger_ops ledger_room map_to_list coins_order (fun l => reverse l) reversed elements as_elements (fun m => map snd (map_to_list m)) orphan_range toy_grow 200 0 disk_params accept_conf 0 1000 1000 1000
    ledger_heap ledger_blk (fun _ => 1000) small_ledger_tree toy_sha 6000000000 2 1 ledger_child s Hs eq_refl eq_refl) as (s1 & _ & _ & _ & Hd). fold (ledger_disconnect false) in Hd.
  destruct (ledger_disconnect false s) as [s' [[]|e|]]; [|discriminate|discriminate]. exists s'. split; [exact Hrun|]. split; [reflexivity|]. exact (proj1 Hd).
Defined.
(** A loop that would give up with an error instead. *)
Lemma ActivateBestChain_ends_witness : ledger_run (fun A => lc_fail FailedToReadBlock) (Some ledger_block) ledger_state = ledger_activate (Some ledger_block) ledger_state.
Proof.
  exact (proj1 (ActivateBestChain_ends ledger_ops ledger_room map_to_list coins_order (fun l => reverse l) reversed elements as_elements (fun m => map snd (map_to_list m)) orphan_range
    (fun _ => []) (fun _ => []) no_order toy_grow 200 0 disk_params accept_conf 1000000 0 HashZero HashZero 1000 1000 1000 1000 0 0 0 ledger_heap ledger_blk (fun _ => 1000) small_ledger_tree
    toy_sha 6000000000 ledger_free (fun A => lc_fail FailedToReadBlock) crash (Some ledger_block) ledger_given 1 ledger_state small_ledger ledger_candidates)).
Defined.

(** A node that starts. *)
Definition genesis_block : Block := mkBlock (mkHeader 1 HashZero (txid Sha256 coinbase) 100 0x2100ffff 0 HashZero) [coinbase] 0 false.
Definition genesis_params : PowParams :=
  Build_PowParams (Build_ForkParams params0 100 100 100 100 100 (2 ^ 40) 0 (Header_GetHash Sha256 (Header genesis_block)).1 []) (2 ^ 256) false false 600 1209600.
Definition genesis_state : chain_state :=
  mkCS _ NewChain (mkCache _ (∅ : DB) HashZero (∅ : gmap OutPoint Coin) ∅) NewTxMempool (mkPersist no_disk (mkDBW ∅ false []) ∅ 0 0 0) false.
Example genesis_runs : match InitGenesisChain map_to_list genesis_params 0 1000 1000 6000000000 genesis_block genesis_state with (s, Ok _) => bool_decide (tip (s_chain s) = None) | _ => true end = false.
Proof. vm_compute. reflexivity. Qed.
Lemma genesis_wf : wf_block genesis_block.
Proof. split; [split; by vm_compute|constructor; [exact coinbase_wf|constructor]|by vm_compute|by left]. Qed.
Lemma genesis_small : len (Block_Serialize genesis_block) + 4 < MaxBlockFileSize.
Proof. by vm_compute. Qed.
Lemma genesis_hash : Hash_IsNull (GenesisHash (pp_forks genesis_params)) = false.
Proof. vm_compute. reflexivity. Qed.
Lemma InitGenesisChain_ledger_witness : exists s' q, InitGenesisChain map_to_list genesis_params 0 1000 1000 6000000000 genesis_block genesis_state = (s', Ok tt) /\ tip (s_chain s') = Some q /\
  (exists pos, ReadBlockFromDiskByPos genesis_params pos (p_disk (s_persist s')) = Ok (Some (as_read genesis_block))) /\
  ledger ledger_ops (c_heap (s_chain s')) ledger_blk (fun _ => 1000) q s'.
Proof.
  pose proof (InitGenesisChain_ledger ledger_ops ledger_room map_to_list coins_order genesis_params 0 1000 1000 ledger_blk (fun _ => 1000) ltac:(done) 6000000000 ledger_free genesis_block genesis_state eq_refl eq_refl
    (empty_cache HashZero) empty_known) as Hg.
  specialize (Hg genesis_wf genesis_small eq_refl genesis_hash eq_refl). pose proof genesis_runs as Hr. destruct (InitGenesisChain _ _ _ _ _ _ _ _) as [s' [[]|e|]]; [|discriminate|discriminate].
  destruct Hg as (q & Ht & _ & _ & (b & _ & _ & Hread) & _ & Hl). exists s', q. split; [reflexivity|]. split; [exact Ht|]. split; [|exact Hl]. eexists. apply Hread. vm_compute. reflexivity.
Defined.
