(* ===== verification/Messages.v ===== *)
(** * Messages of the peer-to-peer protocol (net/wire)

    The payloads of the messages and the frame around them: a header with the network, the
    command, the length and a checksum, then the payload.  A message is read from and
    written to buffers, so the only errors of input are those of a short read.  A
    time.Time is its Unix time; a nil IP address is the empty list.  Commands and user
    agents are byte strings.  The messages of compact blocks are commented out in the
    source and are not modelled. *)
From S2P Require Import Prelude Errors Wire ScriptNum Opcodes Script Tx Crypto Compress Coins Block Undo.
From S2P Require Import Stack Slice Interp.

(** ** Protocol versions and limits *)
Definition MultipleAddressVersion : Z := 209.
Definition NetAddressTimeVersion : Z := 31402.
Definition BIP0031Version : Z := 60000.
Definition BIP0035Version : Z := 60002.
Definition BIP0037Version : Z := 70001.
Definition RejectVersion : Z := 70002.
Definition SendHeadersVersion : Z := 70012.
Definition FeeFilterVersion : Z := 70013.
Definition MaxVarIntPayload : Z := 9.
Definition MaxUserAgentLen : Z := 256.
Definition MaxAddrPerMsg : Z := 1000.
Definition MaxInvPerMsg : Z := 50000.
Definition maxInvVectPayload : Z := 4 + 32.
Definition MaxBlockLocatorsPerMsg : Z := 500.
Definition MaxBlockHeadersPerMsg : Z := 2000.
Definition MaxBlockHeaderPayload : Z := 16 + 32 * 2.
Definition MaxBlockPayload : Z := 32 * 1000000.
Definition maxTxPerBlock : Z := MaxBlockPayload / 10 + 1.
Definition maxFlagsPerMerkleBlock : Z := maxTxPerBlock / 8.
Definition MaxFilterLoadHashFuncs : Z := 50.
Definition MaxFilterLoadFilterSize : Z := 36000.
Definition MaxFilterAddDataSize : Z := 520.
Definition MsgMaxPayload : Z := 1024 * 1024 * 32.
Definition MaxProtocolMessageLength : Z := 2 * 1024 * 1024.
Definition maxAlertSize : Z := MsgMaxPayload - 72 - MaxVarIntPayload - 1.
Definition maxCountSetCancel : Z := (maxAlertSize - 45 - MaxVarIntPayload + 1) / 4.
Definition maxCountSetSubVer : Z := (maxAlertSize - 45 - MaxVarIntPayload + 1) / 256.

(** A MessageError with the name of its function, or an error of a read. *)
Inductive MsgErr := MessageError (func : string) | ReadErr (e : werr).
Definition of_wire {A} (m : rd werr A) : rd MsgErr A := fun r =>
  match m r with Ok x => Ok x | Err e => Err (ReadErr e) | Panic => Panic end.
Definition guard_rd (b : bool) (func : string) : rd MsgErr unit := if b then rd_fail (MessageError func) else mret tt.
Definition guard_wr (b : bool) (func : string) : res MsgErr unit := if b then Err (MessageError func) else Ok tt.
(** ReadElements and WriteElements on a bool, and on a byte string of fixed length. *)
Definition ReadBool : rd werr bool := v ← Uint8; mret (negb (v =? 0)).
Definition PutBool (b : bool) : bytes := PutUint8 (if b then 1 else 0).
(** Uint16 with the order of bytes reversed. *)
Definition Uint16_big : rd werr Z := buf ← ReadFull 2; mret (le_val (reverse buf)).
Definition PutUint16_big (v : Z) : bytes := reverse (le_bytes 2 v).

(** ** Addresses and inventory vectors *)
Record NetAddress := mkNA { na_Timestamp : Z; na_Services : Z; na_IP : bytes; na_Port : Z }.
(** The Unix time of the zero time.Time. *)
Definition zeroTime : Z := -62135596800.
Definition noAddress : NetAddress := mkNA zeroTime 0 [] 0.
Definition HasService (service : Z) (na : NetAddress) : bool := na_Services na .& service =? service.
Definition AddService (service : Z) (na : NetAddress) : NetAddress := mkNA (na_Timestamp na) (na_Services na .| service) (na_IP na) (na_Port na).
Definition maxNetAddressPayload (pver : Z) : Z := if NetAddressTimeVersion <=? pver then 26 + 4 else 26.
(** net.IP.To16, copied into an array of 16 zeros. *)
Definition To16 (ip : bytes) : bytes :=
  if (length ip =? 4)%nat then repeat 0 10 ++ [255; 255] ++ ip
  else if (length ip =? 16)%nat then ip
  else repeat 0 16.
Definition readNetAddress (pver : Z) (ts : bool) (na : NetAddress) : rd werr NetAddress :=
  t ← (if ts && (NetAddressTimeVersion <=? pver) then Uint32 else mret (na_Timestamp na));
  services ← Uint64;
  ip ← ReadFull 16;
  port ← Uint16_big;
  mret (mkNA t services ip port).
Definition writeNetAddress (pver : Z) (na : NetAddress) (ts : bool) : bytes :=
  (if ts && (NetAddressTimeVersion <=? pver) then PutUint32 (u32 (na_Timestamp na)) else []) ++
  PutUint64 (na_Services na) ++ To16 (na_IP na) ++ PutUint16_big (na_Port na).

Record InvVect := mkInv { iv_Type : Z; iv_Hash : bytes }.
Definition readInvVect : rd werr InvVect := t ← Uint32; h ← ReadFull 32; mret (mkInv t h).
Definition writeInvVect (iv : InvVect) : bytes := PutUint32 (iv_Type iv) ++ iv_Hash iv.
(** A list with its length in front; a longer one than [max] is an error. *)
Definition read_list {A} (max : Z) (func : string) (item : rd MsgErr A) : rd MsgErr (list A) :=
  count ← of_wire ReadVarInt;
  guard_rd (max <? count) func;;
  rd_times (Z.to_nat count) item.
Definition write_list {A} (item : A -> bytes) (l : list A) : bytes := WriteVarInt (Z.of_nat (length l)) ++ concat (map item l).

(** ** Payloads *)
Section Payloads.
Context (pver : Z).

(** *** version *)
Record MsgVersion := mkVersion {
  ver_ProtocolVersion : Z;
  ver_Services : Z;
  ver_Timestamp : Z;
  ver_AddrYou : NetAddress;
  ver_AddrMe : NetAddress;
  ver_Nonce : Z;
  ver_UserAgent : bytes;
  ver_LastBlock : Z;
  ver_DisableRelayTx : bool }.
Definition validateUserAgent (userAgent : bytes) : bool := Z.of_nat (length userAgent) <=? MaxUserAgentLen.
(** The fields after the first address are read only while bytes are left. *)
Definition if_left {A} (zero : A) (m : rd MsgErr A) : rd MsgErr A := fun r => match r with [] => Ok (zero, r) | _ => m r end.
Definition Version_Decode : rd MsgErr MsgVersion :=
  v ← of_wire Uint32; services ← of_wire Uint64; t ← of_wire Uint64;
  you ← of_wire (readNetAddress pver false noAddress);
  me ← if_left noAddress (of_wire (readNetAddress pver false noAddress));
  nonce ← if_left 0 (of_wire Uint64);
  agent ← if_left [] (a ← of_wire ReadVarString; guard_rd (negb (validateUserAgent a)) "MsgVersion";; mret a);
  lastBlock ← if_left 0 (n ← of_wire Uint32; mret (i32 n));
  disable ← if_left false (b ← of_wire ReadBool; mret (negb b));
  mret (mkVersion (i32 v) services (i64 t) you me nonce agent lastBlock disable).
Definition Version_Encode (m : MsgVersion) : res MsgErr bytes :=
  guard_wr (negb (validateUserAgent (ver_UserAgent m))) "MsgVersion";;
  Ok (PutUint32 (u32 (ver_ProtocolVersion m)) ++ PutUint64 (ver_Services m) ++ PutUint64 (u64 (ver_Timestamp m)) ++
      writeNetAddress pver (ver_AddrYou m) false ++ writeNetAddress pver (ver_AddrMe m) false ++ PutUint64 (ver_Nonce m) ++
      WriteVarString (ver_UserAgent m) ++ PutUint32 (u32 (ver_LastBlock m)) ++
      if BIP0037Version <=? pver then PutBool (negb (ver_DisableRelayTx m)) else []).
Definition Version_MaxPayloadLength : Z := 33 + maxNetAddressPayload pver * 2 + MaxVarIntPayload + MaxUserAgentLen.

(** *** addr *)
Definition AddAddress (na : NetAddress) (l : list NetAddress) : res MsgErr (list NetAddress) :=
  guard_wr (MaxAddrPerMsg <? Z.of_nat (length l) + 1) "MsgAddr.AddAddress";; Ok (l ++ [na]).
(** With the addresses that were added, the error there was. *)
Fixpoint AddAddresses (netAddrs l : list NetAddress) : list NetAddress * option MsgErr :=
  match netAddrs with
  | [] => (l, None)
  | na :: netAddrs => match AddAddress na l with Ok l => AddAddresses netAddrs l | Err e => (l, Some e) | Panic => (l, None) end
  end.
Definition Addr_Decode : rd MsgErr (list NetAddress) := read_list MaxAddrPerMsg "MsgAddr.Decode" (of_wire (readNetAddress pver true noAddress)).
Definition Addr_Encode (l : list NetAddress) : res MsgErr bytes :=
  guard_wr ((pver <? MultipleAddressVersion) && (1 <? Z.of_nat (length l))) "MsgAddr.Encode";;
  guard_wr (MaxAddrPerMsg <? Z.of_nat (length l)) "MsgAddr.Encode";;
  Ok (write_list (fun na => writeNetAddress pver na true) l).
(** uint32 arithmetic. *)
Definition Addr_MaxPayloadLength : Z :=
  if pver <? MultipleAddressVersion then u32 (MaxVarIntPayload + maxNetAddressPayload pver) else u32 (MaxVarIntPayload + u32 (MaxAddrPerMsg * maxNetAddressPayload pver)).

(** *** inv, getdata, notfound *)
Definition AddInvVect (func : string) (iv : InvVect) (l : list InvVect) : res MsgErr (list InvVect) :=
  guard_wr (MaxInvPerMsg <? Z.of_nat (length l) + 1) func;; Ok (l ++ [iv]).
Definition Inv_Decode (func : string) : rd MsgErr (list InvVect) := read_list MaxInvPerMsg func (of_wire readInvVect).
Definition Inv_Encode (func : string) (l : list InvVect) : res MsgErr bytes :=
  guard_wr (MaxInvPerMsg <? Z.of_nat (length l)) func;; Ok (write_list writeInvVect l).
Definition GetData_Decode : rd MsgErr (list InvVect) := Inv_Decode "MsgGetData.Decode".
Definition GetData_Encode : list InvVect -> res MsgErr bytes := Inv_Encode "MsgGetData.Encode".
Definition NotFound_Decode : rd MsgErr (list InvVect) := Inv_Decode "MsgNotFound.Decode".
Definition NotFound_Encode : list InvVect -> res MsgErr bytes := Inv_Encode "MsgNotFound.Encode".
Definition Inv_MaxPayloadLength : Z := MaxVarIntPayload + MaxInvPerMsg * maxInvVectPayload.

(** *** getblocks, getheaders *)
Record Locator := mkLocator { loc_ProtocolVersion : Z; BlockLocatorHashes : list bytes; HashStop : bytes }.
Definition AddBlockLocatorHash (func : string) (hash : bytes) (m : Locator) : res MsgErr Locator :=
  guard_wr (MaxBlockLocatorsPerMsg <? Z.of_nat (length (BlockLocatorHashes m)) + 1) func;;
  Ok (mkLocator (loc_ProtocolVersion m) (BlockLocatorHashes m ++ [hash]) (HashStop m)).
Definition Locator_Decode (func : string) : rd MsgErr Locator :=
  v ← of_wire Uint32;
  l ← read_list MaxBlockLocatorsPerMsg func (of_wire (ReadFull 32));
  stop ← of_wire (ReadFull 32);
  mret (mkLocator v l stop).
Definition Locator_Encode (func : string) (m : Locator) : res MsgErr bytes :=
  guard_wr (MaxBlockLocatorsPerMsg <? Z.of_nat (length (BlockLocatorHashes m))) func;;
  Ok (PutUint32 (loc_ProtocolVersion m) ++ write_list id (BlockLocatorHashes m) ++ HashStop m).
Definition GetHeaders_Decode : rd MsgErr Locator := Locator_Decode "MsgGetHeaders.Decode".
Definition GetHeaders_Encode : Locator -> res MsgErr bytes := Locator_Encode "MsgGetHeaders.Encode".
Definition Locator_MaxPayloadLength : Z := 4 + MaxVarIntPayload + MaxBlockLocatorsPerMsg * 32 + 32.

(** *** headers *)
Definition AddBlockHeader (bh : BlockHeader) (l : list BlockHeader) : res MsgErr (list BlockHeader) :=
  guard_wr (MaxBlockHeadersPerMsg <? Z.of_nat (length l) + 1) "MsgHeaders.AddBlockHeader";; Ok (l ++ [bh]).
Definition read_header : rd MsgErr BlockHeader :=
  bh ← of_wire (Header_Unserialize NewBlockHeader);
  txCount ← of_wire ReadVarInt;
  guard_rd (0 <? txCount) "MsgHeaders.Decode";;
  mret bh.
Definition Headers_Decode : rd MsgErr (list BlockHeader) := read_list MaxBlockHeadersPerMsg "MsgHeaders.Decode" read_header.
Definition Headers_Encode (l : list BlockHeader) : res MsgErr bytes :=
  guard_wr (MaxBlockHeadersPerMsg <? Z.of_nat (length l)) "MsgHeaders.Encode";;
  Ok (write_list (fun bh => Header_Serialize bh ++ WriteVarInt 0) l).
Definition Headers_MaxPayloadLength : Z := MaxVarIntPayload + (MaxBlockHeaderPayload + 1) * MaxBlockHeadersPerMsg.
(** The hashes that are computed are kept in the headers; the result does not depend on
    that. *)
Fixpoint continuous (Sha256 : bytes -> bytes) (prev : bytes) (l : list BlockHeader) : bool :=
  match l with
  | [] => true
  | bh :: l => if negb (Hash_IsNull prev) && negb (bool_decide (prev = HashPrevBlock bh)) then false
               else continuous Sha256 (Header_GetHash Sha256 bh).1 l
  end.
Definition IsContinuousHeaders (Sha256 : bytes -> bytes) (l : list BlockHeader) : bool := continuous Sha256 HashZero l.

(** *** ping, pong, feefilter and the messages without a payload *)
Definition Ping_Decode : rd MsgErr Z := if BIP0031Version <? pver then of_wire Uint64 else mret 0.
Definition Ping_Encode (nonce : Z) : res MsgErr bytes := Ok (if BIP0031Version <? pver then PutUint64 nonce else []).
Definition Pong_Decode : rd MsgErr Z := guard_rd (pver <=? BIP0031Version) "MsgPong.Decode";; of_wire Uint64.
Definition Pong_Encode (nonce : Z) : res MsgErr bytes := guard_wr (pver <=? BIP0031Version) "MsgPong.Encode";; Ok (PutUint64 nonce).
Definition Ping_MaxPayloadLength : Z := if BIP0031Version <? pver then 8 else 0.
Definition FeeFilter_Decode : rd MsgErr Z := guard_rd (pver <? FeeFilterVersion) "MsgFeeFilter.Decode";; n ← of_wire Uint64; mret (i64 n).
Definition FeeFilter_Encode (minFee : Z) : res MsgErr bytes := guard_wr (pver <? FeeFilterVersion) "MsgFeeFilter.Encode";; Ok (PutUint64 (u64 minFee)).
Definition Empty_Decode (min : Z) (func : string) : rd MsgErr unit := guard_rd (pver <? min) func.
Definition Empty_Encode (min : Z) (func : string) : res MsgErr bytes := guard_wr (pver <? min) func;; Ok [].
Definition MemPool_Decode : rd MsgErr unit := Empty_Decode BIP0035Version "MsgMemPool.Decode".
Definition MemPool_Encode : res MsgErr bytes := Empty_Encode BIP0035Version "MsgMemPool.Encode".
Definition FilterClear_Decode : rd MsgErr unit := Empty_Decode BIP0037Version "MsgFilterClear.Decode".
Definition FilterClear_Encode : res MsgErr bytes := Empty_Encode BIP0037Version "MsgFilterClear.Encode".
Definition SendHeaders_Decode : rd MsgErr unit := Empty_Decode SendHeadersVersion "MsgSendHeaders.Decode".
Definition SendHeaders_Encode : res MsgErr bytes := Empty_Encode SendHeadersVersion "MsgSendHeaders.Encode".

(** *** reject *)
Record MsgReject := mkReject { rj_Cmd : bytes; rj_Code : Z; rj_Reason : bytes; rj_Hash : bytes }.
Definition ascii (s : string) : bytes := map (fun c => Z.of_N (Ascii.N_of_ascii c)) (String.list_ascii_of_string s).
Definition CmdBlock : bytes := ascii "block".
Definition CmdTx : bytes := ascii "tx".
Definition has_hash (cmd : bytes) : bool := bool_decide (cmd = CmdBlock) || bool_decide (cmd = CmdTx).
Definition Reject_Decode : rd MsgErr MsgReject :=
  guard_rd (pver <? RejectVersion) "MsgReject.Decode";;
  cmd ← of_wire ReadVarString; code ← of_wire Uint8; reason ← of_wire ReadVarString;
  h ← (if has_hash cmd then of_wire (ReadFull 32) else mret HashZero);
  mret (mkReject cmd code reason h).
Definition Reject_Encode (m : MsgReject) : res MsgErr bytes :=
  guard_wr (pver <? RejectVersion) "MsgReject.Encode";;
  Ok (WriteVarString (rj_Cmd m) ++ PutUint8 (rj_Code m) ++ WriteVarString (rj_Reason m) ++ if has_hash (rj_Cmd m) then rj_Hash m else []).
Definition Reject_MaxPayloadLength : Z := if RejectVersion <=? pver then MsgMaxPayload else 0.

(** *** merkleblock *)
Record MsgMerkleBlock := mkMerkle { mb_Header : BlockHeader; mb_Transactions : Z; mb_Hashes : list bytes; mb_Flags : bytes }.
Definition AddTxHash (hash : bytes) (m : MsgMerkleBlock) : res MsgErr MsgMerkleBlock :=
  guard_wr (maxTxPerBlock <? Z.of_nat (length (mb_Hashes m)) + 1) "MsgMerkleBlock.AddTxHash";;
  Ok (mkMerkle (mb_Header m) (mb_Transactions m) (mb_Hashes m ++ [hash]) (mb_Flags m)).
Definition MerkleBlock_Decode : rd MsgErr MsgMerkleBlock :=
  guard_rd (pver <? BIP0037Version) "MsgMerkleBlock.Decode";;
  h ← of_wire (Header_Unserialize NewBlockHeader); n ← of_wire Uint32;
  l ← read_list maxTxPerBlock "MsgMerkleBlock.Decode" (of_wire (ReadFull 32));
  flags ← of_wire (ReadVarBytes maxFlagsPerMerkleBlock);
  mret (mkMerkle h n l flags).
Definition MerkleBlock_Encode (m : MsgMerkleBlock) : res MsgErr bytes :=
  guard_wr (pver <? BIP0037Version) "MsgMerkleBlock.Encode";;
  guard_wr (maxTxPerBlock <? Z.of_nat (length (mb_Hashes m))) "MsgMerkleBlock.Decode";;
  guard_wr (maxFlagsPerMerkleBlock <? Z.of_nat (length (mb_Flags m))) "MsgMerkleBlock.Decode";;
  Ok (Header_Serialize (mb_Header m) ++ PutUint32 (mb_Transactions m) ++ write_list id (mb_Hashes m) ++ WriteVarBytes (mb_Flags m)).

(** *** filterload, filteradd *)
Record MsgFilterLoad := mkFilterLoad { fl_Filter : bytes; fl_HashFuncs : Z; fl_Tweak : Z; fl_Flags : Z }.
Definition FilterLoad_Decode : rd MsgErr MsgFilterLoad :=
  guard_rd (pver <? BIP0037Version) "MsgFilterLoad.Decode";;
  f ← of_wire (ReadVarBytes MaxFilterLoadFilterSize);
  n ← of_wire Uint32; tweak ← of_wire Uint32; flags ← of_wire Uint8;
  guard_rd (MaxFilterLoadHashFuncs <? n) "MsgFilterLoad.Decode";;
  mret (mkFilterLoad f n tweak flags).
Definition FilterLoad_Encode (m : MsgFilterLoad) : res MsgErr bytes :=
  guard_wr (pver <? BIP0037Version) "MsgFilterLoad.Encode";;
  guard_wr (MaxFilterLoadFilterSize <? Z.of_nat (length (fl_Filter m))) "MsgFilterLoad.Encode";;
  guard_wr (MaxFilterLoadHashFuncs <? fl_HashFuncs m) "MsgFilterLoad.Encode";;
  Ok (WriteVarBytes (fl_Filter m) ++ PutUint32 (fl_HashFuncs m) ++ PutUint32 (fl_Tweak m) ++ PutUint8 (fl_Flags m)).
Definition FilterLoad_MaxPayloadLength : Z := VarIntSerializeSize MaxFilterLoadFilterSize + MaxFilterLoadFilterSize + 9.
Definition FilterAdd_Decode : rd MsgErr bytes :=
  guard_rd (pver <? BIP0037Version) "MsgFilterAdd.Decode";; of_wire (ReadVarBytes MaxFilterAddDataSize).
Definition FilterAdd_Encode (d : bytes) : res MsgErr bytes :=
  guard_wr (pver <? BIP0037Version) "MsgFilterAdd.Encode";;
  guard_wr (MaxFilterAddDataSize <? Z.of_nat (length d)) "MsgFilterAdd.Encode";;
  Ok (WriteVarBytes d).
Definition FilterAdd_MaxPayloadLength : Z := VarIntSerializeSize MaxFilterAddDataSize + MaxFilterAddDataSize.

(** *** alert *)
Record Alert := mkAlert {
  al_Version : Z;
  RelayUntil : Z;
  Expiration : Z;
  al_ID : Z;
  al_Cancel : Z;
  SetCancel : list Z;
  MinVer : Z;
  MaxVer : Z;
  SetSubVer : list bytes;
  al_Priority : Z;
  Comment : bytes;
  StatusBar : bytes;
  Reserved : bytes }.
Definition Int32 : rd MsgErr Z := v ← of_wire Uint32; mret (i32 v).
Definition Int64 : rd MsgErr Z := v ← of_wire Uint64; mret (i64 v).
Definition PutInt32 (v : Z) : bytes := PutUint32 (u32 v).
Definition Alert_Serialize (a : Alert) : res MsgErr bytes :=
  guard_wr (maxCountSetCancel <? Z.of_nat (length (SetCancel a))) "Alert.Serialize";;
  guard_wr (maxCountSetSubVer <? Z.of_nat (length (SetSubVer a))) "Alert.Serialize";;
  Ok (PutInt32 (al_Version a) ++ PutUint64 (u64 (RelayUntil a)) ++ PutUint64 (u64 (Expiration a)) ++ PutInt32 (al_ID a) ++ PutInt32 (al_Cancel a) ++
      write_list PutInt32 (SetCancel a) ++ PutInt32 (MinVer a) ++ PutInt32 (MaxVer a) ++ write_list WriteVarString (SetSubVer a) ++
      PutInt32 (al_Priority a) ++ WriteVarString (Comment a) ++ WriteVarString (StatusBar a) ++ WriteVarString (Reserved a)).
Definition Alert_Unserialize : rd MsgErr Alert :=
  v ← Int32; relay ← Int64; expiration ← Int64; i ← Int32; cancel ← Int32;
  setCancel ← read_list maxCountSetCancel "Alert.Unserialize" Int32;
  minVer ← Int32; maxVer ← Int32;
  setSubVer ← read_list maxCountSetSubVer "Alert.Unserialize" (of_wire ReadVarString);
  priority ← Int32;
  comment ← of_wire ReadVarString; statusBar ← of_wire ReadVarString; reserved ← of_wire ReadVarString;
  mret (mkAlert v relay expiration i cancel setCancel minVer maxVer setSubVer priority comment statusBar reserved).
Record MsgAlert := mkMsgAlert { SerializedPayload : bytes; al_Signature : bytes; al_Payload : option Alert }.
(** [None] when the payload does not parse. *)
Definition Alert_Decode : rd MsgErr MsgAlert :=
  payload ← of_wire (ReadVarBytes MsgMaxPayload);
  alert ← (fun r => match Alert_Unserialize payload with Ok (a, _) => Ok (Some a, r) | Err _ => Ok (None, r) | Panic => Panic end);
  signature ← of_wire (ReadVarBytes MsgMaxPayload);
  mret (mkMsgAlert payload signature alert).
Definition Alert_Encode (m : MsgAlert) : res MsgErr bytes :=
  let payload := match al_Payload m with
                 | Some a => match Alert_Serialize a with Ok b => b | _ => SerializedPayload m end
                 | None => SerializedPayload m
                 end in
  guard_wr (Z.of_nat (length payload) =? 0) "MsgAlert.Encode";;
  Ok (WriteVarBytes payload ++ WriteVarBytes (al_Signature m)).
End Payloads.

(** ** Messages *)
Inductive Message :=
| VersionMsg (m : MsgVersion) | VerAck | GetAddr | Addr (AddrList : list NetAddress) | GetBlocks (m : Locator)
| BlockMsg (b : Block) | Inv (InvList : list InvVect) | GetData (InvList : list InvVect) | NotFoundMsg (InvList : list InvVect)
| TxMsg (t : Tx) | Ping (Nonce : Z) | Pong (Nonce : Z) | GetHeaders (m : Locator) | Headers (l : list BlockHeader)
| AlertMsg (m : MsgAlert) | MemPool | FilterAdd (Data : bytes) | FilterClear | FilterLoad (m : MsgFilterLoad)
| MerkleBlock (m : MsgMerkleBlock) | Reject (m : MsgReject) | SendHeaders | FeeFilter (MinFee : Z).
Definition Command (m : Message) : string :=
  match m with
  | VersionMsg _ => "version" | VerAck => "verack" | GetAddr => "getaddr" | Addr _ => "addr" | GetBlocks _ => "getblocks"
  | BlockMsg _ => "block" | Inv _ => "inv" | GetData _ => "getdata" | NotFoundMsg _ => "notfound"
  | TxMsg _ => "tx" | Ping _ => "ping" | Pong _ => "pong" | GetHeaders _ => "getheaders" | Headers _ => "headers"
  | AlertMsg _ => "alert" | MemPool => "mempool" | FilterAdd _ => "filteradd" | FilterClear => "filterclear" | FilterLoad _ => "filterload"
  | MerkleBlock _ => "merkleblock" | Reject _ => "reject" | SendHeaders => "sendheaders" | FeeFilter _ => "feefilter"
  end.
Section Frames.
Context `{Hashes} (Excessiveblocksize : Z).
Definition Msg_Encode (pver : Z) (m : Message) : res MsgErr bytes :=
  match m with
  | VersionMsg m => Version_Encode pver m
  | VerAck | GetAddr => Ok []
  | Addr l => Addr_Encode pver l
  | GetBlocks m => Locator_Encode "MsgGetBlocks.Encode" m
  | BlockMsg b => Ok (Block_Serialize b)
  | Inv l => Inv_Encode "MsgInv.Encode" l
  | GetData l => GetData_Encode l
  | NotFoundMsg l => NotFound_Encode l
  | TxMsg t => Ok (Tx_Encode t)
  | Ping n => Ping_Encode pver n
  | Pong n => Pong_Encode pver n
  | GetHeaders m => GetHeaders_Encode m
  | Headers l => Headers_Encode l
  | AlertMsg m => Alert_Encode m
  | MemPool => MemPool_Encode pver
  | FilterAdd d => FilterAdd_Encode pver d
  | FilterClear => FilterClear_Encode pver
  | FilterLoad m => FilterLoad_Encode pver m
  | MerkleBlock m => MerkleBlock_Encode pver m
  | Reject m => Reject_Encode pver m
  | SendHeaders => SendHeaders_Encode pver
  | FeeFilter n => FeeFilter_Encode pver n
  end.
Definition MaxPayloadLength (pver : Z) (m : Message) : Z :=
  match m with
  | VersionMsg _ => Version_MaxPayloadLength pver
  | VerAck | GetAddr | MemPool | FilterClear | SendHeaders => 0
  | Addr _ => Addr_MaxPayloadLength pver
  | GetBlocks _ | GetHeaders _ => Locator_MaxPayloadLength
  | BlockMsg _ => Excessiveblocksize
  | Inv _ | GetData _ | NotFoundMsg _ => Inv_MaxPayloadLength
  | TxMsg _ | MerkleBlock _ => MaxBlockPayload
  | Ping _ | Pong _ => Ping_MaxPayloadLength pver
  | Headers _ => Headers_MaxPayloadLength
  | AlertMsg _ => MsgMaxPayload
  | FilterAdd _ => FilterAdd_MaxPayloadLength
  | FilterLoad _ => FilterLoad_MaxPayloadLength
  | Reject _ => Reject_MaxPayloadLength pver
  | FeeFilter _ => 8
  end.
(** What makeEmptyMessage makes of a command: how its payload is read, and the longest one
    that is allowed. *)
Record MsgType := mkType { mt_Decode : Z -> rd MsgErr Message; mt_MaxPayloadLength : Z -> Z }.
Definition msg_type {A} (f : A -> Message) (decode : Z -> rd MsgErr A) (max : Z -> Z) : MsgType :=
  mkType (fun pver => a ← decode pver; mret (f a)) max.
Definition without_payload (m : Message) (decode : Z -> rd MsgErr unit) : MsgType := msg_type (fun _ => m) decode (fun _ => 0).
Definition makeEmptyMessage (command : bytes) : option MsgType :=
  if decide (command = ascii "version") then Some (msg_type VersionMsg Version_Decode Version_MaxPayloadLength)
  else if decide (command = ascii "verack") then Some (without_payload VerAck (fun _ => mret tt))
  else if decide (command = ascii "getaddr") then Some (without_payload GetAddr (fun _ => mret tt))
  else if decide (command = ascii "addr") then Some (msg_type Addr Addr_Decode Addr_MaxPayloadLength)
  else if decide (command = ascii "getblocks") then Some (msg_type GetBlocks (fun _ => Locator_Decode "MsgGetBlocks.Decode") (fun _ => Locator_MaxPayloadLength))
  else if decide (command = ascii "block") then Some (msg_type BlockMsg (fun _ => of_wire (Block_Unserialize NewBlock)) (fun _ => Excessiveblocksize))
  else if decide (command = ascii "inv") then Some (msg_type Inv (fun _ => Inv_Decode "MsgInv.Decode") (fun _ => Inv_MaxPayloadLength))
  else if decide (command = ascii "getdata") then Some (msg_type GetData (fun _ => GetData_Decode) (fun _ => Inv_MaxPayloadLength))
  else if decide (command = ascii "notfound") then Some (msg_type NotFoundMsg (fun _ => NotFound_Decode) (fun _ => Inv_MaxPayloadLength))
  else if decide (command = ascii "tx") then Some (msg_type TxMsg (fun _ => of_wire (Tx_Decode NewEmptyTx)) (fun _ => MaxBlockPayload))
  else if decide (command = ascii "ping") then Some (msg_type Ping Ping_Decode Ping_MaxPayloadLength)
  else if decide (command = ascii "pong") then Some (msg_type Pong Pong_Decode Ping_MaxPayloadLength)
  else if decide (command = ascii "getheaders") then Some (msg_type GetHeaders (fun _ => GetHeaders_Decode) (fun _ => Locator_MaxPayloadLength))
  else if decide (command = ascii "headers") then Some (msg_type Headers (fun _ => Headers_Decode) (fun _ => Headers_MaxPayloadLength))
  else if decide (command = ascii "alert") then Some (msg_type AlertMsg (fun _ => Alert_Decode) (fun _ => MsgMaxPayload))
  else if decide (command = ascii "mempool") then Some (without_payload MemPool MemPool_Decode)
  else if decide (command = ascii "filteradd") then Some (msg_type FilterAdd FilterAdd_Decode (fun _ => FilterAdd_MaxPayloadLength))
  else if decide (command = ascii "filterclear") then Some (without_payload FilterClear FilterClear_Decode)
  else if decide (command = ascii "filterload") then Some (msg_type FilterLoad FilterLoad_Decode (fun _ => FilterLoad_MaxPayloadLength))
  else if decide (command = ascii "merkleblock") then Some (msg_type MerkleBlock MerkleBlock_Decode (fun _ => MaxBlockPayload))
  else if decide (command = ascii "reject") then Some (msg_type Reject Reject_Decode Reject_MaxPayloadLength)
  else if decide (command = ascii "sendheaders") then Some (without_payload SendHeaders SendHeaders_Decode)
  else if decide (command = ascii "feefilter") then Some (msg_type FeeFilter FeeFilter_Decode (fun _ => 8))
  else None.

(** ** Frames (message.go) *)
Definition MessageHeaderSize : nat := 24.
Definition CommandSize : nat := 12.
Record messageHeader := mkMH { mh_magic : Z; mh_command : bytes; mh_length : Z; mh_checksum : bytes }.
(** bytes.TrimRight with the zero byte. *)
Fixpoint trim_left (b : bytes) : bytes := match b with c :: b' => if c =? 0 then trim_left b' else b | [] => [] end.
Definition trim_zeros (b : bytes) : bytes := reverse (trim_left (reverse b)).
(** Reading from a buffer of its own. *)
Definition read_from {A} (buf : bytes) (m : rd werr A) : rd werr A := fun r =>
  match m buf with Ok (a, _) => Ok (a, r) | Err e => Err e | Panic => Panic end.
Definition readMessageHeader : rd werr messageHeader :=
  headerBytes ← ReadFull MessageHeaderSize;
  read_from headerBytes
    (magic ← Uint32; command ← ReadFull CommandSize; length ← Uint32; checksum ← ReadFull 4;
     mret (mkMH magic (trim_zeros command) length checksum)).
(** In chunks of 10 KiB; a short read is not reported. *)
Definition discardInput (r : bytes) (n : Z) : bytes :=
  let maxSize := 10 * 1024 in
  drop (Z.to_nat (n mod maxSize)) (Nat.iter (Z.to_nat (n / maxSize)) (drop (Z.to_nat maxSize)) r).
Definition CmdCmpctBlock : bytes := ascii "cmpctblock".
Definition CmdBlockTxn : bytes := ascii "blocktxn".
Definition isBlockLike (cmd : bytes) : bool := bool_decide (cmd = CmdBlock) || bool_decide (cmd = CmdCmpctBlock) || bool_decide (cmd = CmdBlockTxn).
Definition isOverSized (msgSize : Z) (cmd : bytes) : bool :=
  if (MaxProtocolMessageLength <? msgSize) && negb (isBlockLike cmd) then true
  else u64 (2 * Excessiveblocksize) <? msgSize.
Definition checksum_of (payload : bytes) : bytes := take 4 (DoubleSha256Bytes payload).
(** The frame that is written; the fixed array of the command is padded with zeros. *)
Definition WriteMessage (m : Message) (pver btcnet : Z) : res MsgErr bytes :=
  let cmd := ascii (Command m) in
  guard_wr (CommandSize <? length cmd)%nat "WriteMessage";;
  payload ← Msg_Encode pver m;
  let lenp := Z.of_nat (length payload) in
  guard_wr (MsgMaxPayload <? lenp) "WriteMessage";;
  guard_wr (MaxPayloadLength pver m <? lenp) "WriteMessage";;
  Ok (PutUint32 btcnet ++ (cmd ++ repeat 0 (CommandSize - length cmd)) ++ PutUint32 (u32 lenp) ++ checksum_of payload ++ payload).
(** The message and its payload, or an error, and what is left of the stream.  A command
    that is not valid UTF-8 is a command no message has; both are the same error. *)
Definition ReadMessage (pver btcnet : Z) (r : bytes) : res MsgErr (Message * bytes) * bytes :=
  match readMessageHeader r with
  | Panic => (Panic, [])
  | Err e => (Err (ReadErr e), [])
  | Ok (hdr, r) =>
      let failed r := (Err (MessageError "ReadMessage"), r) in
      if isOverSized (mh_length hdr) (mh_command hdr) then failed r
      else if negb (mh_magic hdr =? btcnet) then failed (discardInput r (mh_length hdr))
      else match makeEmptyMessage (mh_command hdr) with
           | None => failed (discardInput r (mh_length hdr))
           | Some msg =>
               if u64 (mt_MaxPayloadLength msg pver * 2) <? mh_length hdr then failed (discardInput r (mh_length hdr))
               else match ReadFull (Z.to_nat (mh_length hdr)) r with
                    | Panic => (Panic, [])
                    | Err e => (Err (ReadErr e), [])
                    | Ok (payload, r) =>
                        if negb (bool_decide (checksum_of payload = mh_checksum hdr)) then failed r
                        else match mt_Decode msg pver payload with
                             | Ok (m, _) => (Ok (m, payload), r)
                             | Err _ => (Err (MessageError "Decode msg"), r)
                             | Panic => (Panic, r)
                             end
                    end
           end
  end.
End Frames.
