(* ===== verification/MessagesFacts.v ===== *)
(** * Lemmas on the messages of the peer-to-peer protocol

    The well-formed messages, what the receiver of a message has, what each decoder makes
    of the bytes of its encoder, and the type of what each decoder makes of any bytes. *)
From S2P Require Import Prelude Errors Wire ScriptNum Opcodes Script Tx TxFacts Crypto Compress Coins Block Undo.
From S2P Require Import Stack Slice Interp Ltx ConnectFacts BlockIndex Chain VersionBits Pow Disk DiskFacts Messages.

(** ** Well-formed messages *)
Definition hash_ok (h : bytes) : Prop := length h = 32%nat.
Record wf_na (na : NetAddress) : Prop := {
  wna_services : is_u 64 (na_Services na);
  wna_ip : length (na_IP na) ∈ [0; 4; 16]%nat;
  wna_port : is_u 16 (na_Port na) }.
Definition wf_inv (iv : InvVect) : Prop := is_u 32 (iv_Type iv) /\ hash_ok (iv_Hash iv).
Definition wf_invs (l : list InvVect) : Prop := len l <= MaxInvPerMsg /\ Forall wf_inv l.
Record wf_msg_version (m : MsgVersion) : Prop := {
  wv_ProtocolVersion : is_i 32 (ver_ProtocolVersion m);
  wv_Services : is_u 64 (ver_Services m);
  wv_Timestamp : is_i 64 (ver_Timestamp m);
  wv_AddrYou : wf_na (ver_AddrYou m);
  wv_AddrMe : wf_na (ver_AddrMe m);
  wv_Nonce : is_u 64 (ver_Nonce m);
  wv_UserAgent : len (ver_UserAgent m) <= MaxUserAgentLen;
  wv_LastBlock : is_i 32 (ver_LastBlock m) }.
Record wf_locator (m : Locator) : Prop := {
  wl_version : is_u 32 (loc_ProtocolVersion m);
  wl_count : len (BlockLocatorHashes m) <= MaxBlockLocatorsPerMsg;
  wl_hashes : Forall hash_ok (BlockLocatorHashes m);
  wl_stop : hash_ok (HashStop m) }.
Record wf_reject (m : MsgReject) : Prop := {
  wr_Cmd : len (rj_Cmd m) <= MaxSize;
  wr_Code : is_u 8 (rj_Code m);
  wr_Reason : len (rj_Reason m) <= MaxSize;
  wr_Hash : hash_ok (rj_Hash m) }.
Record wf_merkleblock (m : MsgMerkleBlock) : Prop := {
  wmb_Header : wf_header (mb_Header m);
  wmb_Transactions : is_u 32 (mb_Transactions m);
  wmb_count : len (mb_Hashes m) <= maxTxPerBlock;
  wmb_Hashes : Forall hash_ok (mb_Hashes m);
  wmb_Flags : len (mb_Flags m) <= maxFlagsPerMerkleBlock }.
Record wf_filterload (m : MsgFilterLoad) : Prop := {
  wfl_Filter : len (fl_Filter m) <= MaxFilterLoadFilterSize;
  wfl_HashFuncs : 0 <= fl_HashFuncs m <= MaxFilterLoadHashFuncs;
  wfl_Tweak : is_u 32 (fl_Tweak m);
  wfl_Flags : is_u 8 (fl_Flags m) }.
Record wf_alert (m : MsgAlert) : Prop := {
  wal_Payload : len (SerializedPayload m) <= MsgMaxPayload;
  wal_Signature : len (al_Signature m) <= MsgMaxPayload }.
Definition wf_msg (m : Message) : Prop :=
  match m with
  | VersionMsg m => wf_msg_version m
  | VerAck | GetAddr | MemPool | FilterClear | SendHeaders => True
  | Addr l => len l <= MaxAddrPerMsg /\ Forall wf_na l
  | GetBlocks m | GetHeaders m => wf_locator m
  | BlockMsg b => wf_block b
  | Inv l | GetData l | NotFoundMsg l => wf_invs l
  | TxMsg t => wf_tx t
  | Ping n | Pong n => is_u 64 n
  | Headers l => len l <= MaxBlockHeadersPerMsg /\ Forall wf_header l
  | AlertMsg m => wf_alert m
  | FilterAdd d => len d <= MaxFilterAddDataSize
  | FilterLoad m => wf_filterload m
  | MerkleBlock m => wf_merkleblock m
  | Reject m => wf_reject m
  | FeeFilter n => is_i 64 n
  end.

(** ** What the receiver has *)
Definition bare (h : BlockHeader) : BlockHeader := mkHeader (Version h) (HashPrevBlock h) (MerkleRoot h) (Time h) (Bits h) (Nonce h) HashZero.
Definition received_na (pver : Z) (ts : bool) (na : NetAddress) : NetAddress :=
  mkNA (if ts && (NetAddressTimeVersion <=? pver) then u32 (na_Timestamp na) else zeroTime) (na_Services na) (To16 (na_IP na)) (na_Port na).
Definition parsed_alert (payload : bytes) : option Alert := match Alert_Unserialize payload with Ok (a, _) => Some a | _ => None end.
Definition alert_payload (m : MsgAlert) : bytes :=
  match al_Payload m with
  | Some a => match Alert_Serialize a with Ok b => b | _ => SerializedPayload m end
  | None => SerializedPayload m
  end.
Definition received (pver : Z) (m : Message) : Message :=
  match m with
  | VersionMsg m =>
      VersionMsg (mkVersion (ver_ProtocolVersion m) (ver_Services m) (ver_Timestamp m) (received_na pver false (ver_AddrYou m)) (received_na pver false (ver_AddrMe m))
                    (ver_Nonce m) (ver_UserAgent m) (ver_LastBlock m) (if BIP0037Version <=? pver then ver_DisableRelayTx m else false))
  | Addr l => Addr (map (received_na pver true) l)
  | BlockMsg b => BlockMsg (as_read b)
  | TxMsg t => TxMsg (set_hash t HashZero)
  | Ping n => Ping (if BIP0031Version <? pver then n else 0)
  | Headers l => Headers (map bare l)
  | AlertMsg m => AlertMsg (mkMsgAlert (alert_payload m) (al_Signature m) (parsed_alert (alert_payload m)))
  | MerkleBlock m => MerkleBlock (mkMerkle (bare (mb_Header m)) (mb_Transactions m) (mb_Hashes m) (mb_Flags m))
  | Reject m => Reject (mkReject (rj_Cmd m) (rj_Code m) (rj_Reason m) (if has_hash (rj_Cmd m) then rj_Hash m else HashZero))
  | _ => m
  end.

(** ** Decoders undo encoders *)
Lemma of_wire_ok {A} (m : rd werr A) r x : m r = Ok x -> of_wire m r = Ok x.
Proof. intros H. by rw /of_wire H. Qed.
Lemma guard_rd_false f r : guard_rd false f r = Ok (tt, r).
Proof. done. Qed.
Lemma guard_wr_inv {A} b f (m : res MsgErr A) x : (guard_wr b f;; m) = Ok x -> b = false /\ m = Ok x.
Proof. destruct b; [done|]. cbn. auto. Qed.
Lemma guard_wr_ok {A} b f (y x : A) : (guard_wr b f;; Ok y) = Ok x -> b = false /\ y = x.
Proof. intros [Hb [= <-]]%guard_wr_inv. done. Qed.
Lemma read_bool_put b r : ReadBool (PutBool b ++ r) = Ok (b, r).
Proof. unfold ReadBool, PutBool. erewrite rd_bind_ok; [|apply Uint8_put; destruct b; int_lia]. by destruct b. Qed.
Lemma Uint16_big_put v r : is_u 16 v -> Uint16_big (PutUint16_big v ++ r) = Ok (v, r).
Proof.
  intros Hv. unfold Uint16_big, PutUint16_big. erewrite rd_bind_ok; [|apply ReadFull_app'; by rw length_reverse length_le_bytes].
  rw reverse_involutive. unfold mret, rd_ret. rw le_val_bytes_small; [done|int_lia].
Qed.
Lemma To16_length ip : length (To16 ip) = 16%nat.
Proof. unfold To16. destruct (Nat.eqb_spec (length ip) 4) as [H|]; [by rw !length_app H|]. by destruct (Nat.eqb_spec (length ip) 16). Qed.
Lemma Uint32_u32 v r : Uint32 (PutUint32 (u32 v) ++ r) = Ok (u32 v, r).
Proof. apply Uint32_put. auto with go. Qed.
Lemma Uint64_u64 v r : Uint64 (PutUint64 (u64 v) ++ r) = Ok (u64 v, r).
Proof. apply Uint64_put. auto with go. Qed.
Lemma VarBytes_app max b r : len b <= max -> len b < 2 ^ 64 -> ReadVarBytes max (WriteVarBytes b ++ r) = Ok (b, r).
Proof.
  intros Hm Hl. unfold ReadVarBytes, WriteVarBytes. app_right. erewrite rd_bind_ok; [|apply ReadVarInt_write; int_lia].
  destruct (Z.ltb_spec max (len b)); [lia|]. rw Nat2Z.id. apply ReadFull_app.
Qed.
Lemma VarString_app b r : len b <= MaxSize -> ReadVarString (WriteVarString b ++ r) = Ok (b, r).
Proof. intros Hm. apply (VarBytes_app MaxSize); unfold MaxSize in *; lia. Qed.
Create HintDb msg discriminated.
#[export] Hint Resolve Uint32_u32 Uint64_u64 Uint32_put Uint64_put Uint16_big_put Uint8_put read_bool_put VarString_app of_wire_ok ReadFull_app' To16_length guard_rd_false : msg.
Ltac rd_next := erewrite rd_bind_ok; [|solve [eauto with msg nocore]].

Lemma netaddr_app pver ts na r : wf_na na -> readNetAddress pver ts noAddress (writeNetAddress pver na ts ++ r) = Ok (received_na pver ts na, r).
Proof.
  intros [Hs _ Hp]. unfold readNetAddress, writeNetAddress, received_na. app_right. destruct (ts && (NetAddressTimeVersion <=? pver)); cbn [app].
  - by do 4 rd_next.
  - erewrite rd_bind_ok; [|done]. by do 3 rd_next.
Qed.
Lemma inv_app iv r : wf_inv iv -> readInvVect (writeInvVect iv ++ r) = Ok (iv, r).
Proof. intros [Ht Hh]. unfold readInvVect, writeInvVect. app_right. do 2 rd_next. by destruct iv. Qed.
Lemma rd_times_map {E A B} (m : rd E B) (enc : A -> bytes) (f : A -> B) l r : Forall (fun a => forall r, m (enc a ++ r) = Ok (f a, r)) l ->
  rd_times (length l) m (concat (map enc l) ++ r) = Ok (map f l, r).
Proof. induction 1 as [|a l Ha _ IH]; [done|]. cbn [length rd_times map concat]. app_right. erewrite rd_bind_ok; [|apply Ha]. by erewrite rd_bind_ok; [|exact IH]. Qed.
(** A list within its limit comes back item by item. *)
Lemma read_list_map {A B} max func (item : rd MsgErr B) (enc : A -> bytes) (f : A -> B) l r : len l <= max -> max < 2 ^ 64 ->
  Forall (fun a => forall r, item (enc a ++ r) = Ok (f a, r)) l -> read_list max func item (write_list enc l ++ r) = Ok (map f l, r).
Proof.
  intros Hl Hm Hi. unfold read_list, write_list. app_right. erewrite rd_bind_ok; [|apply of_wire_ok, ReadVarInt_write; int_lia].
  destruct (Z.ltb_spec max (len l)); [lia|]. rd_next. rw Nat2Z.id. by apply rd_times_map.
Qed.
Lemma read_list_same {A} max func (item : rd MsgErr A) (enc : A -> bytes) (P : A -> Prop) l r : len l <= max -> max < 2 ^ 64 -> Forall P l ->
  (forall a r, P a -> item (enc a ++ r) = Ok (a, r)) -> read_list max func item (write_list enc l ++ r) = Ok (l, r).
Proof. intros Hl Hm HP Hi. rw (read_list_map max func item enc id l r Hl Hm); [by rw map_id|]. eapply Forall_impl; [exact HP|]. auto. Qed.
Lemma hash_app h r : hash_ok h -> of_wire (ReadFull 32) (id h ++ r) = Ok (h, r).
Proof. intros Hh. by apply of_wire_ok, ReadFull_app'. Qed.
Lemma VarString_agent b r : len b <= MaxUserAgentLen -> ReadVarString (WriteVarString b ++ r) = Ok (b, r).
Proof. intros Hb. apply VarString_app. unfold MaxUserAgentLen, MaxSize in *. lia. Qed.
Lemma bind_guard {A} (m : rd werr A) func r a r' : m r = Ok (a, r') -> forall b : A -> bool, b a = false -> (x ← of_wire m; guard_rd (b x) func;; mret x) r = Ok (a, r').
Proof. intros H b Hb. erewrite rd_bind_ok; [|by apply of_wire_ok]. by rw Hb. Qed.
Lemma of_wire_map {A B} (m : rd werr A) (f : A -> B) r a r' : m r = Ok (a, r') -> (x ← of_wire m; mret (f x)) r = Ok (f a, r').
Proof. intros H. by erewrite rd_bind_ok; [|by apply of_wire_ok]. Qed.
(** Bytes that are left are read. *)
Lemma if_left_more {A} (zero : A) m b r x : (0 < length b)%nat -> m (b ++ r) = Ok x -> if_left zero m (b ++ r) = Ok x.
Proof. destruct b; [cbn; lia|done]. Qed.
Lemma netaddr_pos pver na ts : (0 < length (writeNetAddress pver na ts))%nat.
Proof. unfold writeNetAddress. rw !length_app To16_length. lia. Qed.
Lemma VarInt_pos v : (0 < length (WriteVarInt v))%nat.
Proof. unfold WriteVarInt. repeat case_match; cbn [length app]; rw ?length_le_bytes; cbn; lia. Qed.
Lemma VarString_pos b : (0 < length (WriteVarString b))%nat.
Proof. unfold WriteVarString. rw length_app. pose proof (VarInt_pos (len b)). lia. Qed.
Lemma PutUint_pos v : (0 < length (PutUint64 v))%nat /\ (0 < length (PutUint32 v))%nat /\ forall b, (0 < length (PutBool b))%nat.
Proof. unfold PutUint64, PutUint32, PutBool, PutUint8. rw !length_le_bytes. split_and!; [lia|lia|]. intros b. rw length_le_bytes. lia. Qed.

Lemma Version_app pver m p : wf_msg_version m -> Version_Encode pver m = Ok p -> exists m', Version_Decode pver p = Ok (m', []) /\ VersionMsg m' = received pver (VersionMsg m).
Proof.
  intros [] [Ha <-]%guard_wr_ok. unfold Version_Decode. do 3 rd_next. erewrite rd_bind_ok; [|by apply of_wire_ok, netaddr_app].
  erewrite rd_bind_ok; [|apply if_left_more, of_wire_ok, netaddr_app; [apply netaddr_pos|done]].
  erewrite rd_bind_ok; [|apply if_left_more, of_wire_ok, Uint64_put; [apply PutUint_pos|done]].
  erewrite rd_bind_ok; [|apply if_left_more; [apply VarString_pos|eapply bind_guard; [by apply VarString_agent|done]]].
  erewrite rd_bind_ok; [|apply if_left_more; [apply PutUint_pos|eapply of_wire_map, Uint32_u32]].
  rw !i32_u32 // i64_u64 //. cbn [received]. destruct (BIP0037Version <=? pver).
  - rw -(app_nil_r (PutBool _)). erewrite rd_bind_ok; [|apply if_left_more; [apply (PutUint_pos 0)|eapply of_wire_map, read_bool_put]]. rw negb_involutive. by eexists.
  - erewrite rd_bind_ok; [|done]. by eexists.
Qed.
Lemma Addr_app pver l p : len l <= MaxAddrPerMsg -> Forall wf_na l -> Addr_Encode pver l = Ok p -> Addr_Decode pver p = Ok (map (received_na pver true) l, []).
Proof.
  intros Hl Hw [_ [_ <-]%guard_wr_ok]%guard_wr_inv. unfold Addr_Decode. rw -(app_nil_r (write_list _ _)). apply read_list_map; [done|unfold MaxAddrPerMsg; lia|].
  eapply Forall_impl; [exact Hw|]. intros na Hna r. by apply of_wire_ok, netaddr_app.
Qed.
Lemma Inv_app f g l p : wf_invs l -> Inv_Encode f l = Ok p -> Inv_Decode g p = Ok (l, []).
Proof.
  intros [Hl Hw] [_ <-]%guard_wr_ok. rw -(app_nil_r (write_list _ _)). eapply read_list_same; [done|unfold MaxInvPerMsg; lia|exact Hw|].
  intros iv r Hi. by apply of_wire_ok, inv_app.
Qed.
Lemma Locator_app f g m p : wf_locator m -> Locator_Encode f m = Ok p -> Locator_Decode g p = Ok (m, []).
Proof.
  intros [Hv Hc Hh Hs] [_ <-]%guard_wr_ok. unfold Locator_Decode. rd_next.
  erewrite rd_bind_ok; [|eapply read_list_same; [done|unfold MaxBlockLocatorsPerMsg; lia|exact Hh|apply hash_app]].
  rw -(app_nil_r (HashStop m)). rd_next. by destruct m.
Qed.
Lemma read_header_app h r : wf_header h -> read_header ((Header_Serialize h ++ WriteVarInt 0) ++ r) = Ok (bare h, r).
Proof.
  intros Hh. unfold read_header. app_right. erewrite rd_bind_ok; [|by apply of_wire_ok, Header_Unserialize_app].
  erewrite rd_bind_ok; [|apply of_wire_ok, ReadVarInt_write; int_lia]. done.
Qed.
Lemma Headers_app l p : len l <= MaxBlockHeadersPerMsg -> Forall wf_header l -> Headers_Encode l = Ok p -> Headers_Decode p = Ok (map bare l, []).
Proof.
  intros Hl Hw [_ <-]%guard_wr_ok. rw -(app_nil_r (write_list _ _)). apply (read_list_map MaxBlockHeadersPerMsg _ read_header); [done|unfold MaxBlockHeadersPerMsg; lia|].
  eapply Forall_impl; [exact Hw|]. intros h Hh r. by apply read_header_app.
Qed.
Lemma Reject_app pver m p : wf_reject m -> Reject_Encode pver m = Ok p ->
  Reject_Decode pver p = Ok (mkReject (rj_Cmd m) (rj_Code m) (rj_Reason m) (if has_hash (rj_Cmd m) then rj_Hash m else HashZero), []).
Proof.
  intros [Hc Hd Hr Hh] [Hv <-]%guard_wr_ok. unfold Reject_Decode. rw Hv. do 4 rd_next. destruct (has_hash (rj_Cmd m)).
  - rw -(app_nil_r (rj_Hash m)). rd_next. by rw app_nil_r.
  - by erewrite rd_bind_ok; [|done].
Qed.
Lemma MerkleBlock_app pver m p : wf_merkleblock m -> MerkleBlock_Encode pver m = Ok p ->
  MerkleBlock_Decode pver p = Ok (mkMerkle (bare (mb_Header m)) (mb_Transactions m) (mb_Hashes m) (mb_Flags m), []).
Proof.
  intros [Hh Ht Hc Hs Hf] [Hv [_ [_ <-]%guard_wr_ok]%guard_wr_inv]%guard_wr_inv. unfold MerkleBlock_Decode. rw Hv. rd_next.
  erewrite rd_bind_ok; [|by apply of_wire_ok, Header_Unserialize_app]. rd_next.
  erewrite rd_bind_ok; [|eapply read_list_same; [done|done|exact Hs|apply hash_app]]. rw -(app_nil_r (WriteVarBytes _)).
  assert (len (mb_Flags m) < 2 ^ 64) by (eapply Z.le_lt_trans; [exact Hf|done]).
  by erewrite rd_bind_ok; [|apply of_wire_ok, VarBytes_app].
Qed.
Lemma FilterLoad_app pver m p : wf_filterload m -> FilterLoad_Encode pver m = Ok p -> FilterLoad_Decode pver p = Ok (m, []).
Proof.
  intros [Hf Hn Ht Hg] [Hv [_ [Hk <-]%guard_wr_ok]%guard_wr_inv]%guard_wr_inv. unfold FilterLoad_Decode. rw Hv. rd_next.
  erewrite rd_bind_ok; [|apply of_wire_ok, VarBytes_app; unfold MaxFilterLoadFilterSize in *; lia].
  erewrite rd_bind_ok; [|apply of_wire_ok, Uint32_put; unfold MaxFilterLoadHashFuncs in *; int_lia]. rd_next. rw -(app_nil_r (PutUint8 _)). rd_next. rw Hk. rd_next. by destruct m.
Qed.
Lemma FilterAdd_app pver d p : len d <= MaxFilterAddDataSize -> FilterAdd_Encode pver d = Ok p -> FilterAdd_Decode pver p = Ok (d, []).
Proof.
  intros Hd [Hv [_ <-]%guard_wr_ok]%guard_wr_inv. unfold FilterAdd_Decode. rw Hv. rd_next. rw -(app_nil_r (WriteVarBytes _)).
  apply of_wire_ok, VarBytes_app; unfold MaxFilterAddDataSize in *; lia.
Qed.

(** ** The type of what is read

    On any bytes a reader returns a value of its type or an error, and panics only where
    [may_panic] says so. *)
Definition reads {E A} (may_panic : Prop) (m : rd E A) (P : A -> Prop) : Prop := forall r, bytes_ok r ->
  match m r with Ok (a, r') => bytes_ok r' /\ P a | Err _ => True | Panic => may_panic end.
Lemma reads_bind {E A B} c (m : rd E A) (f : A -> rd E B) (P : A -> Prop) (Q : B -> Prop) : reads c m P -> (forall a, P a -> reads c (f a) Q) -> reads c (m ≫= f) Q.
Proof. intros Hm Hf r Hr. unfold mbind, rd_bind. specialize (Hm r Hr). destruct (m r) as [[a r']| |]; [|done..]. destruct Hm as [Hr' Ha]. by apply Hf. Qed.
Lemma reads_ret {E A} c (a : A) (P : A -> Prop) : P a -> reads c (mret a : rd E A) P.
Proof. intros Ha r Hr. done. Qed.
Lemma reads_mono {E A} c (m : rd E A) (P Q : A -> Prop) : reads c m P -> (forall a, P a -> Q a) -> reads c m Q.
Proof. intros Hm HPQ r Hr. specialize (Hm r Hr). destruct (m r) as [[a r']| |]; naive_solver. Qed.
Lemma reads_wire {A} c (m : rd werr A) P : reads c m P -> reads c (of_wire m) P.
Proof. intros Hm r Hr. specialize (Hm r Hr). unfold of_wire. by destruct (m r) as [[a r']| |]. Qed.
Lemma reads_guard c b f : reads c (guard_rd b f) (fun _ => b = false).
Proof. destruct b; intros r Hr; [done|]. split; done. Qed.
Lemma reads_full c n : reads c (ReadFull n) (fun b => length b = n /\ bytes_ok b).
Proof.
  intros r Hr. destruct (ReadFull n r) as [[b r']| |] eqn:E; [|done|].
  - apply ReadFull_inv in E as [-> Hn]. apply Forall_app in Hr as [Hb Hr']. done.
  - unfold ReadFull in E. repeat case_match; done.
Qed.
Lemma reads_hash c : reads c (ReadFull 32) hash_ok.
Proof. eapply reads_mono; [apply reads_full|]. by intros b [Hb _]. Qed.
Lemma reads_le c n : reads c (buf ← ReadFull n; mret (le_val buf)) (fun v => 0 <= v < 256 ^ Z.of_nat n).
Proof. eapply reads_bind; [apply reads_full|]. intros b [<- Hb]. apply reads_ret. by apply le_val_bound. Qed.
Lemma reads_u8 c : reads c Uint8 (is_u 8).
Proof. apply (reads_le c 1). Qed.
Lemma reads_u16 c : reads c Uint16 (is_u 16).
Proof. apply (reads_le c 2). Qed.
Lemma reads_u32 c : reads c Uint32 (is_u 32).
Proof. apply (reads_le c 4). Qed.
Lemma reads_u64 c : reads c Uint64 (is_u 64).
Proof. apply (reads_le c 8). Qed.
Lemma reads_u16_big c : reads c Uint16_big (is_u 16).
Proof.
  eapply reads_bind; [apply reads_full|]. intros b [Hl Hb]. apply reads_ret. assert (bytes_ok (reverse b)) as Hv by (by apply Forall_reverse).
  apply le_val_bound in Hv. by rw length_reverse Hl in Hv.
Qed.
Lemma reads_min c v d m : is_u 64 v -> reads c (check_min v d m) (is_u 64).
Proof. intros Hv. unfold check_min. case_match; [intros r Hr; done|by apply reads_ret]. Qed.
Lemma reads_varint c : reads c ReadVarInt (is_u 64).
Proof.
  eapply reads_bind; [apply reads_u8|]. intros d Hd. repeat case_match.
  1-3: eapply reads_bind; [first [apply reads_u64|apply reads_u32|apply reads_u16]|]; intros v Hv; apply reads_min; int_lia.
  apply reads_ret. int_lia.
Qed.
Lemma reads_varbytes c max : reads c (ReadVarBytes max) (fun b => len b <= max /\ bytes_ok b).
Proof.
  eapply reads_bind; [apply reads_varint|]. intros n Hn. destruct (Z.ltb_spec max n); [intros r Hr; done|].
  eapply reads_mono; [apply reads_full|]. intros b [Hl Hb]. split; [int_lia|done].
Qed.
Lemma reads_varstring c : reads c ReadVarString (fun b => len b <= MaxSize /\ bytes_ok b).
Proof. apply (reads_varbytes c MaxSize). Qed.
Lemma reads_times {E A} c (m : rd E A) P n : reads c m P -> reads c (rd_times n m) (fun l => length l = n /\ Forall P l).
Proof.
  intros Hm. induction n as [|n IH]; cbn [rd_times]; [by apply reads_ret|].
  eapply reads_bind; [exact Hm|]. intros a Ha. eapply reads_bind; [exact IH|]. intros l [Hl HF]. apply reads_ret. cbn. auto.
Qed.
Lemma reads_list {A} c max f (item : rd MsgErr A) P : reads c item P -> reads c (read_list max f item) (fun l => len l <= max /\ Forall P l).
Proof.
  intros Hi. eapply reads_bind; [apply reads_wire, reads_varint|]. intros n Hn. eapply reads_bind; [apply reads_guard|]. intros [] Hm.
  eapply reads_mono; [by apply reads_times|]. intros l [Hl HF]. split; [|done]. apply Z.ltb_ge in Hm. int_lia.
Qed.
Lemma reads_left {A} c (zero : A) m P : P zero -> reads c m P -> reads c (if_left zero m) P.
Proof. intros Hz Hm r Hr. unfold if_left. destruct r; [done|]. by apply Hm. Qed.
Create HintDb reads discriminated.
#[export] Hint Resolve reads_wire reads_guard reads_hash reads_u8 reads_u32 reads_u64 reads_u16_big reads_varint reads_varbytes reads_varstring reads_list : reads.
Ltac rd_type := eapply reads_bind; [solve [eauto with reads nocore]|]; let x := fresh in let Hx := fresh in intros x Hx; cbv beta in Hx; destruct_and? Hx.
Lemma i32_is v : is_i 32 (i32 v).
Proof. unfold i32. int_lia. Qed.
Lemma i64_is v : is_i 64 (i64 v).
Proof. unfold i64. int_lia. Qed.
Lemma reads_bool c : reads c ReadBool (fun _ => True).
Proof. unfold ReadBool. rd_type. by apply reads_ret. Qed.
Lemma reads_na c pver ts : reads c (readNetAddress pver ts noAddress) wf_na.
Proof.
  unfold readNetAddress. eapply (reads_bind _ _ _ (fun _ => True)); [case_match; [eapply reads_mono; [apply reads_u32|done]|by apply reads_ret]|]. intros t _.
  rd_type. eapply reads_bind; [apply reads_full|]. intros ip [Hip _]. rd_type. apply reads_ret. split; [done| |done]. cbn [na_IP]. rw Hip. set_solver.
Qed.
Lemma reads_inv c : reads c readInvVect wf_inv.
Proof. unfold readInvVect. do 2 rd_type. by apply reads_ret. Qed.
Lemma noAddress_wf : wf_na noAddress.
Proof. split; cbn; [int_lia|set_solver|int_lia]. Qed.
#[export] Hint Resolve reads_bool reads_na reads_inv noAddress_wf : reads.
Lemma reads_i32 c : reads c Int32 (is_i 32).
Proof. unfold Int32. rd_type. apply reads_ret, i32_is. Qed.
Lemma reads_i64 c : reads c Int64 (is_i 64).
Proof. unfold Int64. rd_type. apply reads_ret, i64_is. Qed.
#[export] Hint Resolve reads_i32 reads_i64 : reads.
Lemma reads_version c pver : reads c (Version_Decode pver) wf_msg_version.
Proof.
  unfold Version_Decode. do 4 rd_type. eapply reads_bind; [apply (reads_left _ _ _ wf_na); eauto with reads nocore|]. intros me Hme.
  eapply reads_bind; [apply (reads_left _ _ _ (is_u 64)); [int_lia|eauto with reads nocore]|]. intros nonce Hn.
  eapply reads_bind; [apply (reads_left _ _ _ (fun b => len b <= MaxUserAgentLen)); [done|]|].
  { do 2 rd_type. apply reads_ret. unfold validateUserAgent in *. lia. }
  intros agent Ha. eapply reads_bind; [apply (reads_left _ _ _ (is_i 32)); [int_lia|apply (reads_i32 c)]|]. intros lb Hlb.
  eapply reads_bind; [apply (reads_left _ _ _ (fun _ => True)); [done|]; rd_type; by apply reads_ret|]. intros d _. apply reads_ret. split; try done; [apply i32_is|apply i64_is].
Qed.
Lemma reads_locator c f : reads c (Locator_Decode f) wf_locator.
Proof. unfold Locator_Decode. rd_type. eapply reads_bind; [eauto with reads nocore|]. intros l [Hl Hh]. rd_type. by apply reads_ret. Qed.
Lemma reads_blockheader c h0 : reads c (Header_Unserialize h0) wf_header.
Proof. unfold Header_Unserialize. do 6 rd_type. apply reads_ret. split; try done. apply i32_is. Qed.
#[export] Hint Resolve reads_blockheader : reads.
Lemma reads_header c : reads c read_header wf_header.
Proof. unfold read_header. do 3 rd_type. by apply reads_ret. Qed.
#[export] Hint Resolve reads_header : reads.
Lemma HashZero_ok : hash_ok HashZero.
Proof. done. Qed.
Lemma reads_reject c pver : reads c (Reject_Decode pver) wf_reject.
Proof.
  unfold Reject_Decode. do 4 rd_type. eapply (reads_bind _ _ _ hash_ok); [case_match; [eauto with reads nocore|apply reads_ret, HashZero_ok]|]. intros h Hh.
  apply reads_ret. destruct_and?. by split.
Qed.
Lemma reads_merkleblock c pver : reads c (MerkleBlock_Decode pver) wf_merkleblock.
Proof. unfold MerkleBlock_Decode. do 5 rd_type. apply reads_ret. split; naive_solver. Qed.
Lemma reads_filterload c pver : reads c (FilterLoad_Decode pver) wf_filterload.
Proof.
  unfold FilterLoad_Decode. do 6 rd_type. apply reads_ret. split; cbn [fl_Filter fl_HashFuncs fl_Tweak fl_Flags]; [naive_solver| |done|done].
  match goal with H : (_ <? ?n) = false, H' : is_u 32 ?n |- _ => apply Z.ltb_ge in H; destruct H' end. done.
Qed.
Lemma reads_alert_payload c : reads c Alert_Unserialize (fun _ => True).
Proof. unfold Alert_Unserialize. do 13 rd_type. by apply reads_ret. Qed.
Lemma reads_alert c : reads c Alert_Decode wf_alert.
Proof.
  unfold Alert_Decode. eapply reads_bind; [eauto with reads nocore|]. intros p [Hp Hb]. eapply (reads_bind _ _ _ (fun _ => True)).
  { intros r Hr. pose proof (reads_alert_payload c p Hb) as Ha. by destruct (Alert_Unserialize p) as [[a r']| |]. }
  intros a _. rd_type. apply reads_ret. split; naive_solver.
Qed.
Lemma suffix_ok (r r' : bytes) l : bytes_ok r -> r = l ++ r' -> bytes_ok r'.
Proof. intros Hr ->. by apply Forall_app in Hr as [_ Hr]. Qed.
(** Transactions and blocks announce how many items to allocate, which may be too many. *)
Lemma reads_item {A} (m : rd werr A) (enc : A -> bytes) (Q : A -> Prop) : (forall r a r', bytes_ok r -> m r = Ok (a, r') -> r = enc a ++ r' /\ Q a) -> reads True m Q.
Proof. intros Hm r Hr. destruct (m r) as [[a r']| |] eqn:E; [|done|done]. destruct (Hm _ _ _ Hr E) as [He HQ]. split; [by eapply suffix_ok|done]. Qed.
Lemma reads_tx t0 : wf_tx t0 -> reads True (Tx_Decode t0) wf_tx.
Proof.
  intros H0. unfold Tx_Decode. do 2 rd_type. case_match eqn:Hc; [by apply reads_ret|]. apply Z.ltb_ge in Hc.
  eapply reads_bind; [eapply reads_times, reads_item, TxIn_Decode_inv|]. intros li [Hli Hwi]. rd_type. case_match eqn:Ho; [done|]. apply Z.ltb_ge in Ho.
  eapply reads_bind; [eapply reads_times, reads_item, TxOut_Decode_inv|]. intros lo [Hlo Hwo]. rd_type. apply reads_ret.
  split; cbn [ins outs lockTime version]; [done|done|int_lia|int_lia|done|apply i32_is].
Qed.
Lemma NewTx_wf v : is_i 32 v -> wf_tx (NewTx 0 v).
Proof. intros Hv. split; cbn; [done|done|done|done|int_lia|done]. Qed.
Lemma reads_block : reads True (Block_Unserialize NewBlock) wf_block.
Proof.
  unfold Block_Unserialize. do 2 rd_type. case_match eqn:Hc; [done|]. apply Z.ltb_ge in Hc.
  eapply reads_bind; [apply reads_times, reads_tx, NewTx_wf; done|]. intros l [Hl Hw]. apply reads_ret. split; cbn [Header Txs serializesize NewBlock]; [done|done|int_lia|by left].
Qed.
