(* ===== verification/MessagesTheorems.v ===== *)
(** * What the messages of the peer-to-peer protocol promise

    A message that is written is read back, and what is read of any bytes is a message of
    its type. *)
From S2P Require Import Prelude Errors Wire ScriptNum Opcodes Script Tx TxFacts Crypto Compress Coins Block Undo.
From S2P Require Import Stack Slice Interp Ltx ConnectFacts BlockIndex Chain VersionBits Pow Disk DiskFacts Messages MessagesFacts.

Section Frames.
Context `{Hashes} (Excessiveblocksize : Z).
Abbreviation read_message := (ReadMessage Excessiveblocksize).
Abbreviation write_message := (WriteMessage Excessiveblocksize).
Abbreviation type_of := (makeEmptyMessage Excessiveblocksize).
Abbreviation max_payload := (MaxPayloadLength Excessiveblocksize).

(** ** Types of messages *)
Definition block_or_tx (cmd : bytes) : Prop := cmd = CmdBlock \/ cmd = CmdTx.
Definition decodes (pver : Z) (cmd : bytes) (t : MsgType) (m : Message) : Prop := wf_msg m /\ ascii (Command m) = cmd /\ mt_MaxPayloadLength t pver = max_payload pver m.
Lemma reads_panic {E A} (c c' : Prop) (m : rd E A) P : (c -> c') -> reads c m P -> reads c' m P.
Proof. intros Hc Hm r Hr. specialize (Hm r Hr). destruct (m r) as [[a r']| |]; auto. Qed.
Lemma reads_msg {A} c (f : A -> Message) decode max pver (P : A -> Prop) (Q : Message -> Prop) : reads c (decode pver) P -> (forall a, P a -> Q (f a)) ->
  reads c (mt_Decode (msg_type f decode max) pver) Q.
Proof. intros Hd HQ. eapply reads_bind; [exact Hd|]. intros a Ha. by apply reads_ret, HQ. Qed.
Lemma reads_wire_panic {A} (c : Prop) (m : rd werr A) P : c -> reads True m P -> reads c (of_wire m) P.
Proof. intros Hc Hm. eapply reads_panic; [by intros _|]. by apply reads_wire. Qed.
Lemma reads_done {E} c : reads c (mret tt : rd E unit) (fun _ => True).
Proof. by apply reads_ret. Qed.
#[local] Hint Resolve reads_version reads_locator reads_reject reads_merkleblock reads_filterload reads_alert reads_done : reads.
Lemma reads_ping c pver : reads c (Ping_Decode pver) (is_u 64).
Proof. unfold Ping_Decode. case_match; [eauto with reads nocore|apply reads_ret; int_lia]. Qed.
Lemma reads_pong c pver : reads c (Pong_Decode pver) (is_u 64).
Proof. unfold Pong_Decode. rd_type. eauto with reads nocore. Qed.
Lemma reads_feefilter c pver : reads c (FeeFilter_Decode pver) (is_i 64).
Proof. unfold FeeFilter_Decode. rd_type. apply reads_i64. Qed.
Lemma reads_filteradd c pver : reads c (FilterAdd_Decode pver) (fun d => len d <= MaxFilterAddDataSize /\ bytes_ok d).
Proof. unfold FilterAdd_Decode. rd_type. eauto with reads nocore. Qed.
#[local] Hint Resolve reads_ping reads_pong reads_feefilter reads_filteradd : reads.
Lemma type_of_reads pver cmd t : type_of cmd = Some t -> reads (block_or_tx cmd) (mt_Decode t pver) (decodes pver cmd t).
Proof.
  unfold makeEmptyMessage. intros Ht. repeat (case_decide; [subst cmd; injection Ht as <-|]); [..|done].
  all: eapply reads_msg; [unfold Addr_Decode, GetData_Decode, NotFound_Decode, Inv_Decode, GetHeaders_Decode, Headers_Decode, MemPool_Decode, FilterClear_Decode, SendHeaders_Decode, Empty_Decode|].
  all: try solve [eauto with reads nocore].
  all: try solve [apply reads_wire_panic; [by (left + right)|first [apply reads_block|apply reads_tx, (NewTx_wf 0); done]]].
  all: intros a Ha; cbv beta in Ha; (split_and!; [|done|done]); cbn [wf_msg]; unfold wf_invs; by destruct_and?.
Qed.
Lemma mt_Decode_ok {A} (f : A -> Message) decode max pver p a r : decode pver p = Ok (a, r) -> mt_Decode (msg_type f decode max) pver p = Ok (f a, r).
Proof. intros Hd. cbn [mt_Decode msg_type]. by erewrite rd_bind_ok; [|exact Hd]. Qed.
Lemma mt_Decode_none m decode pver p r : decode pver p = Ok (tt, r) -> mt_Decode (without_payload m decode) pver p = Ok (m, r).
Proof. apply (mt_Decode_ok (fun _ => m)). Qed.
Lemma Alert_app m p : wf_alert m -> bytes_ok p -> len p <= MsgMaxPayload -> Alert_Encode m = Ok p ->
  Alert_Decode p = Ok (mkMsgAlert (alert_payload m) (al_Signature m) (parsed_alert (alert_payload m)), []).
Proof.
  intros [_ Hs] Hb Hl Hp. unfold Alert_Encode in Hp. fold (alert_payload m) in Hp. apply guard_wr_ok in Hp as [_ <-].
  apply Forall_app in Hb as [Hb _]. unfold WriteVarBytes at 1 in Hb. apply Forall_app in Hb as [_ Hb]. rw !length_app in Hl. unfold MsgMaxPayload in *. unfold Alert_Decode.
  erewrite rd_bind_ok; [|apply of_wire_ok, VarBytes_app; unfold MsgMaxPayload; lia].
  erewrite rd_bind_ok; [|instantiate (2 := parsed_alert (alert_payload m)); pose proof (reads_alert_payload False _ Hb) as Ha; unfold parsed_alert; by destruct (Alert_Unserialize (alert_payload m)) as [[a r']| |]].
  rw -(app_nil_r (WriteVarBytes (al_Signature m))). by erewrite rd_bind_ok; [|apply of_wire_ok, VarBytes_app; unfold MsgMaxPayload; lia].
Qed.
Lemma Empty_app pver min f g p : Empty_Encode pver min f = Ok p -> Empty_Decode pver min g p = Ok (tt, []).
Proof. intros [Hv <-]%guard_wr_ok. unfold Empty_Decode. by rw Hv. Qed.
(** Each message has the type of its command. *)
Lemma type_of_Command pver m : exists t, type_of (ascii (Command m)) = Some t /\ mt_MaxPayloadLength t pver = max_payload pver m /\
  forall p, wf_msg m -> bytes_ok p -> len p <= MsgMaxPayload -> Msg_Encode pver m = Ok p -> mt_Decode t pver p = Ok (received pver m, []).
Proof.
  destruct m; unfold makeEmptyMessage.
  all: repeat (case_decide as Hc; [first [by vm_compute in Hc|eexists; split_and!; [done|done|clear Hc; intros p Hw Hb Hl Hp]]|first [by destruct Hc|clear Hc]]).
  all: cbn [wf_msg Msg_Encode received] in *.
  all: first [apply mt_Decode_none|apply mt_Decode_ok].
  - destruct (Version_app pver m p Hw Hp) as (m' & Hd & Hm). cbn [received] in Hm. injection Hm as ->. exact Hd.
  - by injection Hp as <-.
  - by injection Hp as <-.
  - destruct Hw. by apply Addr_app.
  - by eapply Locator_app.
  - injection Hp as <-. rw -(app_nil_r (Block_Serialize b)). by apply of_wire_ok, Block_Unserialize_app.
  - by eapply Inv_app.
  - by eapply Inv_app.
  - by eapply Inv_app.
  - injection Hp as <-. rw -(app_nil_r (Tx_Encode t)). by apply of_wire_ok, Tx_Decode_app.
  - injection Hp as <-. unfold Ping_Decode. case_match; [|done]. rw -(app_nil_r (PutUint64 _)). by apply of_wire_ok, Uint64_put.
  - apply guard_wr_ok in Hp as [Hv <-]. unfold Pong_Decode. rw Hv. rd_next. rw -(app_nil_r (PutUint64 _)). by apply of_wire_ok, Uint64_put.
  - by eapply Locator_app.
  - destruct Hw. by apply Headers_app.
  - by apply Alert_app.
  - by eapply Empty_app.
  - by apply FilterAdd_app.
  - by eapply Empty_app.
  - by apply FilterLoad_app.
  - by apply MerkleBlock_app.
  - by apply Reject_app.
  - by eapply Empty_app.
  - apply guard_wr_ok in Hp as [Hv <-]. unfold FeeFilter_Decode. rw Hv. rd_next. rw -(app_nil_r (PutUint64 _)). rd_next. by rw i64_u64.
Qed.

(** ** Frames *)
Context (Hex : 0 <= Excessiveblocksize < 2 ^ 63).
Lemma max_payload_bound pver m : 0 <= max_payload pver m < 2 ^ 63.
Proof.
  assert (26 <= maxNetAddressPayload pver <= 30) as Hn by (unfold maxNetAddressPayload; case_match; lia).
  destruct m; cbn [MaxPayloadLength]; try done.
  - unfold Version_MaxPayloadLength, MaxVarIntPayload, MaxUserAgentLen. lia.
  - unfold Addr_MaxPayloadLength. case_match; match goal with |- context [u32 ?z] => pose proof (u32_range z) as Hz end; unfold is_u in Hz; lia.
  - unfold Ping_MaxPayloadLength. by case_match.
  - unfold Ping_MaxPayloadLength. by case_match.
  - unfold Reject_MaxPayloadLength. by case_match.
Qed.
Definition padded (cmd : bytes) : bytes := cmd ++ repeat 0 (CommandSize - length cmd).
Lemma padded_command m : length (padded (ascii (Command m))) = 12%nat /\ trim_zeros (padded (ascii (Command m))) = ascii (Command m).
Proof. destruct m; split; vm_compute; reflexivity. Qed.
Lemma header_app net c n ck r : is_u 32 net -> length c = 12%nat -> is_u 32 n -> length ck = 4%nat ->
  readMessageHeader (PutUint32 net ++ c ++ PutUint32 n ++ ck ++ r) = Ok (mkMH net (trim_zeros c) n ck, r).
Proof.
  intros Hnet Hc Hn Hk. unfold readMessageHeader. rw !app_assoc. erewrite rd_bind_ok; [|apply ReadFull_app'; unfold PutUint32; rw !length_app !length_le_bytes Hc Hk; done].
  unfold read_from. app_right. do 3 rd_next. rw -{1}(app_nil_r ck). by rd_next.
Qed.
Lemma WriteMessage_inv m pver net frame : write_message m pver net = Ok frame ->
  exists payload, Msg_Encode pver m = Ok payload /\ len payload <= MsgMaxPayload /\ len payload <= max_payload pver m /\
    frame = PutUint32 net ++ padded (ascii (Command m)) ++ PutUint32 (len payload) ++ checksum_of payload ++ payload.
Proof.
  unfold WriteMessage. intros [_ Hw]%guard_wr_inv. destruct (Msg_Encode pver m) as [p| |]; [|done..]. cbn [mbind res_bind] in Hw.
  apply guard_wr_inv in Hw as [Hm Hw]. apply guard_wr_ok in Hw as [Hx <-]. apply Z.ltb_ge in Hm. apply Z.ltb_ge in Hx. exists p.
  rw u32_id; [|unfold MsgMaxPayload in Hm; int_lia]. done.
Qed.
Lemma checksum_length p : (forall x, length (Sha256 x) = 32%nat) -> length (checksum_of p) = 4%nat.
Proof. intros Hs. unfold checksum_of, DoubleSha256Bytes. rw length_take Hs. done. Qed.
(** C21. A message on the wire: what WriteMessage writes for a well-formed message, followed by anything, is read by ReadMessage as
    that message as the receiver has it (16-byte addresses, no cached hashes, no timestamps in a version message), with the payload
    and the rest of the stream.  The exception is a payload the receiver takes to be oversized: it is refused, and its bytes are
    not skipped. *)
Theorem Message_roundtrip pver net m frame rest : (forall x, length (Sha256 x) = 32%nat) -> is_u 32 net -> wf_msg m -> bytes_ok frame -> write_message m pver net = Ok frame ->
  exists payload, Msg_Encode pver m = Ok payload /\
    read_message pver net (frame ++ rest) =
      if isOverSized Excessiveblocksize (len payload) (ascii (Command m)) then (Err (MessageError "ReadMessage"), payload ++ rest)
      else (Ok (received pver m, payload), rest).
Proof.
  intros Hs Hn Hw Hb (p & Hp & Hl & Hx & ->)%WriteMessage_inv. exists p. split; [done|]. rw !Forall_app in Hb. destruct Hb as (_ & _ & _ & _ & Hb).
  destruct (padded_command m) as [Hcl Hct]. unfold ReadMessage. app_right. rw header_app //; [|unfold MsgMaxPayload in Hl; int_lia|by apply checksum_length]. rw Hct.
  cbn [mh_length mh_command mh_magic mh_checksum]. case_match; [done|]. rw Z.eqb_refl. cbn [negb]. destruct (type_of_Command pver m) as (t & -> & Hm & Hd).
  pose proof (max_payload_bound pver m). rw Hm u64_id; [|int_lia]. destruct (Z.ltb_spec (max_payload pver m * 2) (len p)); [lia|]. rw Nat2Z.id ReadFull_app bool_decide_true //. cbn [negb].
  by rw (Hd p).
Qed.
Lemma header_inv r hdr r' : bytes_ok r -> readMessageHeader r = Ok (hdr, r') ->
  bytes_ok r' /\ is_u 32 (mh_length hdr) /\ exists c, length c = 12%nat /\ mh_command hdr = trim_zeros c /\ r = PutUint32 (mh_magic hdr) ++ c ++ PutUint32 (mh_length hdr) ++ mh_checksum hdr ++ r'.
Proof.
  intros Hr (b & r1 & [-> Hl]%ReadFull_inv & Hh)%rd_bind_inv. unfold read_from in Hh. apply Forall_app in Hr as [Hb Hr1].
  destruct ((magic ← Uint32; _) b) as [[x y]| |] eqn:E; [|done..]. injection Hh as <- <-.
  apply rd_bind_inv in E as (magic & b1 & [-> Hmu]%Uint32_inv & (c & b2 & [-> Hc]%ReadFull_inv & E)%rd_bind_inv); [|done].
  apply Forall_app in Hb as [_ Hb]. apply Forall_app in Hb as [_ Hb]. apply rd_bind_inv in E as (n & b3 & [-> Hn]%Uint32_inv & (k & b4 & [-> Hk]%ReadFull_inv & [= <- <-])%rd_bind_inv); [|done].
  assert (b4 = []) as ->. { unfold PutUint32, MessageHeaderSize, CommandSize in *. rw !length_app !length_le_bytes Hc Hk in Hl. apply length_zero_iff_nil. lia. }
  split_and!; [done|done|]. exists c. app_right. done.
Qed.
Lemma reads_from {A} c buf (m : rd werr A) P : bytes_ok buf -> reads c m P -> reads c (read_from buf m) P.
Proof. intros Hb Hm r Hr. specialize (Hm buf Hb). unfold read_from. destruct (m buf) as [[a r']| |]; naive_solver. Qed.
Lemma header_calm r : bytes_ok r -> readMessageHeader r <> Panic.
Proof.
  intros Hr Hp. assert (reads False readMessageHeader (fun _ => True)) as Hm; [|specialize (Hm r Hr); by rw Hp in Hm].
  eapply reads_bind; [apply reads_full|]. intros b [_ Hb]. apply reads_from; [done|]. rd_type. eapply reads_bind; [apply reads_full|]. intros c _. rd_type.
  eapply reads_bind; [apply reads_full|]. intros k _. by apply reads_ret.
Qed.
Lemma discard_suffix r n : exists l, r = l ++ discardInput r n.
Proof.
  unfold discardInput. generalize (Z.to_nat (n mod (10 * 1024))) as j. generalize (Z.to_nat (n / (10 * 1024))) as k. generalize (Z.to_nat (10 * 1024)) as i. intros i k j.
  assert (exists l, r = l ++ Nat.iter k (drop i) r) as [l Hl].
  { induction k as [|k [l Hl]]; [by exists []|]. exists (l ++ take i (Nat.iter k (drop i) r)). cbn [Nat.iter]. by rw -app_assoc take_drop. }
  exists (l ++ take j (Nat.iter k (drop i) r)). by rw -app_assoc take_drop.
Qed.
(** C20. Whatever bytes arrive, a message ReadMessage returns is one of its type: every field has its width, the lists and strings are
    within their limits (1000 addresses, 50000 inventory vectors, 500 locator hashes, 2000 headers, 36000 bytes and 50 functions of a
    filter), and the bytes read are the frame of this network with the message's command, the length and the checksum of the payload.
    An error leaves the stream at a later position.  Only a block or a transaction can make the decoder panic. *)
Theorem ReadMessage_typed pver net r : bytes_ok r ->
  match read_message pver net r with
  | (Ok (m, payload), rest) =>
      wf_msg m /\ len payload <= 2 * max_payload pver m /\
      exists cmd, length cmd = 12%nat /\ trim_zeros cmd = ascii (Command m) /\
        r = PutUint32 net ++ cmd ++ PutUint32 (len payload) ++ checksum_of payload ++ payload ++ rest
  | (Err _, rest) => exists skipped, r = skipped ++ rest
  | (Panic, rest) => exists hdr r', readMessageHeader r = Ok (hdr, r') /\ block_or_tx (mh_command hdr)
  end.
Proof.
  intros Hr. unfold ReadMessage. destruct (readMessageHeader r) as [[hdr r1]| |] eqn:Eh; [|exists r; by rw app_nil_r|by destruct (header_calm r Hr)].
  destruct (header_inv r hdr r1 Hr Eh) as (Hr1 & Hn & c & Hc & Hcmd & Er). assert (forall l r2, r1 = l ++ r2 -> exists skipped, r = skipped ++ r2) as Hskip.
  { intros l r2 ->. rw Er. exists (PutUint32 (mh_magic hdr) ++ c ++ PutUint32 (mh_length hdr) ++ mh_checksum hdr ++ l). by app_right. }
  cbv zeta. destruct (isOverSized _ _ _); [by apply (Hskip [])|]. destruct (discard_suffix r1 (mh_length hdr)) as [sk Hsk].
  destruct (Z.eqb_spec (mh_magic hdr) net) as [Hm|]; cbn [negb]; [|by eapply Hskip]. destruct (type_of (mh_command hdr)) as [t|] eqn:Et; [|by eapply Hskip].
  destruct (_ <? mh_length hdr) eqn:Hmax; [by eapply Hskip|]. destruct (ReadFull (Z.to_nat (mh_length hdr)) r1) as [[p r2]| |] eqn:Ef; [|apply (Hskip r1); by rw app_nil_r|unfold ReadFull in Ef; by repeat case_match].
  apply ReadFull_inv in Ef as [-> Hl]. case_bool_decide as Hk; cbn [negb]; [|by eapply Hskip]. apply Forall_app in Hr1 as [Hp _].
  pose proof (type_of_reads pver _ _ Et p Hp) as Hty. destruct (mt_Decode t pver p) as [[m r3]| |] eqn:Ed; [|by eapply Hskip|by exists hdr, (p ++ r2)].
  destruct Hty as [_ (Hw & Hco & Hmp)]. split; [done|]. apply Z.ltb_ge in Hmax. pose proof (max_payload_bound pver m). rw Hmp u64_id in Hmax; [|int_lia].
  split; [int_lia|]. exists c. split; [done|]. split; [congruence|]. rw Er Hk Hm. do 3 f_equal. f_equal. int_lia.
Qed.
End Frames.

(** ** Examples *)
#[local] Instance msg_hashes : Hashes := {| Sha256 := fun b => repeat (foldr Z.add 7 b mod 256) 32; Ripemd160 := fun b => b; Sha1 := fun b => b |}.
Lemma msg_sha x : length (Sha256 x) = 32%nat.
Proof. unfold Sha256, msg_hashes. apply repeat_length. Qed.
Definition net_magic : Z := 0xe8f3e1e3.
Definition example_addr : Message := Addr [mkNA 1540000000 1 [10; 0; 0; 1] 8333; mkNA 1540000001 0 [] 0].
Definition example_frame : bytes := match WriteMessage 32000000 example_addr 70013 net_magic with Ok f => f | _ => [] end.
Lemma example_wf : wf_msg example_addr.
Proof. split; [vm_compute; discriminate|]. repeat constructor; cbn; first [int_lia|set_solver]. Qed.
Lemma example_bytes : bytes_ok example_frame.
Proof. apply (bool_decide_unpack _). vm_compute. exact I. Qed.
Lemma Message_roundtrip_witness :
  exists payload, Msg_Encode 70013 example_addr = Ok payload /\ ReadMessage 32000000 70013 net_magic (example_frame ++ [1; 2]) = (Ok (received 70013 example_addr, payload), [1; 2]).
Proof.
  assert (WriteMessage 32000000 example_addr 70013 net_magic = Ok example_frame) as Hf by (vm_compute; reflexivity).
  destruct (Message_roundtrip 32000000 ltac:(lia) 70013 net_magic example_addr example_frame [1; 2] msg_sha ltac:(unfold net_magic; int_lia) example_wf example_bytes Hf) as (p & Hp & Hr).
  exists p. split; [exact Hp|]. rewrite Hr. assert (p = match Msg_Encode 70013 example_addr with Ok p => p | _ => [] end) as -> by (by rewrite Hp). vm_compute. reflexivity.
Defined.
Lemma ReadMessage_typed_witness : wf_msg (received 70013 example_addr).
Proof.
  pose proof (ReadMessage_typed 32000000 ltac:(lia) 70013 net_magic example_frame example_bytes) as Ht.
  assert (ReadMessage 32000000 70013 net_magic example_frame = (Ok (received 70013 example_addr, drop 24 example_frame), [])) as Hr by (vm_compute; reflexivity).
  rewrite Hr in Ht. exact (proj1 Ht).
Defined.
(** A block that announces 2 ^ 60 transactions makes the reader panic. *)
Definition huge_block : bytes := repeat 0 80 ++ WriteVarInt (2 ^ 60).
Definition huge_frame : bytes := PutUint32 net_magic ++ padded CmdBlock ++ PutUint32 (len huge_block) ++ checksum_of huge_block ++ huge_block.
Lemma ReadMessage_huge_block_panics : (ReadMessage 32000000 70013 net_magic huge_frame).1 = Panic.
Proof. vm_compute. reflexivity. Qed.
