(* ===== verification/Base58.v ===== *)
(** * Base 58 strings, legacy addresses and private keys (util/base58, model/script/address.go,
    util/wif, crypto/privatekey.go)

    A string is the list of its bytes.  A big.Int is an integer; SetBytes and Bytes are the
    value of big-endian bytes and the shortest big-endian bytes of a value. *)
From S2P Require Import Prelude Errors Wire ScriptNum Opcodes Script Tx Crypto Compress Coins Block Undo.
From S2P Require Import Stack Slice Interp.

Inductive AddrErr := ErrChecksum | ErrInvalidFormat | ErrMalformedPrivateKey | ErrUnknownAddressType | AddrError (msg : string).
Definition chars (s : string) : bytes := map (fun c => Z.of_N (Ascii.N_of_ascii c)) (String.list_ascii_of_string s).

(** ** Big integers *)
(** The digits of [x], the lowest first. *)
Fixpoint divmod_loop (fuel : nat) (base x : Z) : list Z :=
  match fuel with
  | O => []
  | S fuel => if 0 <? x then x mod base :: divmod_loop fuel base (x / base) else []
  end.
Definition rounds (x : Z) : nat := S (Z.to_nat (Z.log2 x)).
Definition digits (base x : Z) : list Z := divmod_loop (rounds x) base x.
Definition SetBytes (b : bytes) : Z := le_val (reverse b).
Definition Bytes (x : Z) : bytes := reverse (digits 256 x).

(** ** Base 58 *)
Definition alphabet : bytes := chars "123456789ABCDEFGHJKLMNPQRSTUVWXYZabcdefghijkmnopqrstuvwxyz".
Definition alphabetIdx0 : Z := 49.
Definition b58 : list Z :=
  [255; 255; 255; 255; 255; 255; 255; 255; 255; 255; 255; 255; 255; 255; 255; 255;
   255; 255; 255; 255; 255; 255; 255; 255; 255; 255; 255; 255; 255; 255; 255; 255;
   255; 255; 255; 255; 255; 255; 255; 255; 255; 255; 255; 255; 255; 255; 255; 255;
   255; 0; 1; 2; 3; 4; 5; 6; 7; 8; 255; 255; 255; 255; 255; 255;
   255; 9; 10; 11; 12; 13; 14; 15; 16; 255; 17; 18; 19; 20; 21; 255;
   22; 23; 24; 25; 26; 27; 28; 29; 30; 31; 32; 255; 255; 255; 255; 255;
   255; 33; 34; 35; 36; 37; 38; 39; 40; 41; 42; 43; 255; 44; 45; 46;
   47; 48; 49; 50; 51; 52; 53; 54; 55; 56; 57; 255; 255; 255; 255; 255;
   255; 255; 255; 255; 255; 255; 255; 255; 255; 255; 255; 255; 255; 255; 255; 255;
   255; 255; 255; 255; 255; 255; 255; 255; 255; 255; 255; 255; 255; 255; 255; 255;
   255; 255; 255; 255; 255; 255; 255; 255; 255; 255; 255; 255; 255; 255; 255; 255;
   255; 255; 255; 255; 255; 255; 255; 255; 255; 255; 255; 255; 255; 255; 255; 255;
   255; 255; 255; 255; 255; 255; 255; 255; 255; 255; 255; 255; 255; 255; 255; 255;
   255; 255; 255; 255; 255; 255; 255; 255; 255; 255; 255; 255; 255; 255; 255; 255;
   255; 255; 255; 255; 255; 255; 255; 255; 255; 255; 255; 255; 255; 255; 255; 255;
   255; 255; 255; 255; 255; 255; 255; 255; 255; 255; 255; 255; 255; 255; 255; 255].
Definition b58_at (c : Z) : Z := default 255 (b58 !! Z.to_nat c).
Definition char58 (d : Z) : Z := default 0 (alphabet !! Z.to_nat d).
(** From the last character on; [None] at one that is not in the alphabet. *)
Fixpoint decode_loop (answer j : Z) (b : bytes) : option Z :=
  match b with
  | [] => Some answer
  | c :: b => let tmp := b58_at c in if tmp =? 255 then None else decode_loop (answer + j * tmp) (j * 58) b
  end.
Fixpoint leading (x : Z) (b : bytes) : nat := match b with c :: b => if c =? x then S (leading x b) else O | [] => O end.
Definition Base58_Decode (b : bytes) : bytes :=
  match decode_loop 0 1 (reverse b) with
  | None => []
  | Some answer => repeat 0 (leading alphabetIdx0 b) ++ Bytes answer
  end.
Definition Base58_Encode (b : bytes) : bytes := reverse (map char58 (digits 58 (SetBytes b)) ++ repeat alphabetIdx0 (leading 0 b)).

Section Checked.
Context `{Hashes}.
Definition checksum (input : bytes) : bytes := take 4 (Sha256 (Sha256 input)).
Definition CheckEncode (input : bytes) (version : Z) : bytes :=
  let b := version :: input in Base58_Encode (b ++ checksum b).
Definition CheckDecode (input : bytes) : res AddrErr (bytes * Z) :=
  let decoded := Base58_Decode input in
  let n := length decoded in
  if (n <? 5)%nat then Err ErrInvalidFormat
  else
    let version := default 0 (head decoded) in
    if negb (bool_decide (checksum (take (n - 4) decoded) = drop (n - 4) decoded)) then Err ErrChecksum
    else Ok (drop 1 (take (n - 4) decoded), version).

(** ** Legacy addresses *)
Definition AddressBytesLength : nat := 25.
Definition Hash160BytesLength : nat := 20.
Record AddressParam := mkAddressParam { PubKeyHashAddressVer : Z; ScriptHashAddressVer : Z }.
(** The private key of the object is nil but after AddressFromPrivateKey. *)
Record Address := mkAddress { addr_version : Z; addr_publicKey : bytes; addressStr : bytes; hash160 : bytes }.
Definition Address_String (a : Address) : bytes := if decide (addressStr a <> []) then addressStr a else CheckEncode (addr_publicKey a) (addr_version a).
Definition AddressFromString (str : bytes) : res AddrErr Address :=
  let decodes := Base58_Decode str in
  if negb (length decodes =? AddressBytesLength)%nat then Err (AddrError "length")
  else if negb (bool_decide (take 4 (DoubleSha256Bytes (take 21 decodes)) = drop 21 decodes)) then Err (AddrError "checksum failed")
  else Ok (mkAddress (default 0 (head decodes)) [] str (drop 1 (take 21 decodes))).
Definition Hash160ToAddressStr (h : bytes) (version : Z) : res AddrErr bytes :=
  if negb (length h =? Hash160BytesLength)%nat then Err (AddrError "hash160 length")
  else let result := version :: h in Ok (Base58_Encode (result ++ take 4 (DoubleSha256Bytes result))).
Definition AddressFromHash160 (h : bytes) (version : Z) : res AddrErr Address :=
  str ← Hash160ToAddressStr h version; Ok (mkAddress version [] str h).
(** copy(address.hash160[:], hash160), the array being of 20 zeros. *)
Definition array20 (h : bytes) : bytes := take 20 (h ++ repeat 0 20).
Definition AddressFromPublicKey (active : AddressParam) (publicKey : bytes) : res AddrErr Address :=
  let version := PubKeyHashAddressVer active in
  let h := Hash160 publicKey in
  str ← Hash160ToAddressStr h version; Ok (mkAddress version publicKey str (array20 h)).
Definition AddressFromScriptHash (active : AddressParam) (script : bytes) : res AddrErr Address :=
  let version := ScriptHashAddressVer active in
  let h := Hash160 script in
  str ← Hash160ToAddressStr h version; Ok (mkAddress version script str (array20 h)).

(** ** Private keys *)
Definition PrivateKeyBytesLen : nat := 32.
Record PrivateKey := mkPrivateKey { pk_version : Z; pk_compressed : bool; pk_bytes : bytes }.
(** The version of the active network is a global variable. *)
Definition NewPrivateKeyFromBytes (ver : Z) (d : bytes) (compressed : bool) : PrivateKey := mkPrivateKey ver compressed d.
Definition PrivateKeyFromBytes (ver : Z) (d : bytes) : PrivateKey := mkPrivateKey ver false d.
Definition PrivateKey_Encode (k : PrivateKey) : bytes := if negb (pk_compressed k) then pk_bytes k else pk_bytes k ++ [1].
Definition PrivateKey_ToString (k : PrivateKey) : bytes := CheckEncode (PrivateKey_Encode k) (pk_version k).
Definition DecodePrivateKey (ver : Z) (encoded : bytes) : res AddrErr PrivateKey :=
  '(b, version) ← CheckDecode encoded;
  if negb (version =? ver) then Err (AddrError "Mismatched version number")
  else if (length b =? S PrivateKeyBytesLen)%nat && (default 0 (b !! PrivateKeyBytesLen) =? 1) then Ok (mkPrivateKey version true (take PrivateKeyBytesLen b))
  else if (length b =? PrivateKeyBytesLen)%nat then Ok (mkPrivateKey version false b)
  else Err (AddrError "Wrong number of bytes").

(** ** Wallet import format *)
Definition compressMagic : Z := 1.
Record WIF := mkWIF { PrivKey : PrivateKey; CompressPubKey : bool; netID : Z }.
Definition NewWIF (privKey : PrivateKey) (PrivatekeyID : Z) (compress : bool) : WIF := mkWIF privKey compress PrivatekeyID.
Definition WIF_IsForNet (w : WIF) (PrivatekeyID : Z) : bool := netID w =? PrivatekeyID.
Definition paddedAppend (size : nat) (dst src : bytes) : bytes := dst ++ repeat 0 (size - length src) ++ src.
Definition WIF_String (w : WIF) : bytes :=
  let a := paddedAppend PrivateKeyBytesLen [netID w] (PrivateKey_Encode (PrivKey w)) in
  let a := if CompressPubKey w then a ++ [compressMagic] else a in
  Base58_Encode (a ++ take 4 (DoubleSha256Bytes a)).
Definition DecodeWIF (ver : Z) (wif : bytes) : res AddrErr WIF :=
  let decoded := Base58_Decode wif in
  let n := length decoded in
  compress ← (if (n =? 1 + PrivateKeyBytesLen + 1 + 4)%nat then
                if negb (default 0 (decoded !! 33%nat) =? compressMagic) then Err ErrMalformedPrivateKey else Ok true
              else if (n =? 1 + PrivateKeyBytesLen + 4)%nat then Ok false
              else Err ErrMalformedPrivateKey);
  let tosum := if (compress : bool) then take 34 decoded else take 33 decoded in
  if negb (bool_decide (take 4 (DoubleSha256Bytes tosum) = drop (n - 4) decoded)) then Err ErrChecksum
  else Ok (mkWIF (PrivateKeyFromBytes ver (drop 1 (take 33 decoded))) compress (default 0 (head decoded))).
End Checked.
