(* ===== verification/CashAddr.v ===== *)
(** * Cash addresses (util/cashaddr) and the addresses of the RPC interface

    Strings are lists of bytes.  An index past the end of a slice panics.  The names of
    networks are those of the chain parameters. *)
From S2P Require Import Prelude Errors Wire ScriptNum Opcodes Script Tx Crypto Compress Coins Block Undo.
From S2P Require Import Stack Slice Interp Base58.

Inductive AddressType := P2PKH | P2SH.
#[export] Instance AddressType_eq_dec : EqDecision AddressType.
Proof. solve_decision. Defined.
Definition type_number (t : AddressType) : Z := match t with P2PKH => 0 | P2SH => 1 end.
Definition Prefixes (name : string) : option bytes :=
  if String.eqb name "main" then Some (chars "bitcoincash")
  else if String.eqb name "test" then Some (chars "bchtest")
  else if String.eqb name "regtest" then Some (chars "bchreg")
  else None.

(** ** The checksum *)
Definition CHARSET : bytes := chars "qpzry9x8gf2tvdw0s3jn54khce6mua7l".
Definition CharsetRev : list Z :=
  [-1; -1; -1; -1; -1; -1; -1; -1; -1; -1; -1; -1; -1; -1; -1; -1;
   -1; -1; -1; -1; -1; -1; -1; -1; -1; -1; -1; -1; -1; -1; -1; -1;
   -1; -1; -1; -1; -1; -1; -1; -1; -1; -1; -1; -1; -1; -1; -1; -1;
   15; -1; 10; 17; 21; 20; 26; 30; 7; 5; -1; -1; -1; -1; -1; -1;
   -1; 29; -1; 24; 13; 25; 9; 8; 23; -1; 18; 22; 31; 27; 19; -1;
   1; 0; 3; 16; 11; 28; 12; 14; 6; 4; 2; -1; -1; -1; -1; -1;
   -1; 29; -1; 24; 13; 25; 9; 8; 23; -1; 18; 22; 31; 27; 19; -1;
   1; 0; 3; 16; 11; 28; 12; 14; 6; 4; 2; -1; -1; -1; -1; -1].
Definition PolyMod_step (c d : Z) : Z :=
  let c0 := u8 (c .>> 35) in
  let c := u64 ((c .& 0x07ffffffff) .<< 5) .^ d in
  let c := if 0 <? c0 .& 0x01 then c .^ 0x98f2bc8e61 else c in
  let c := if 0 <? c0 .& 0x02 then c .^ 0x79b76d99e2 else c in
  let c := if 0 <? c0 .& 0x04 then c .^ 0xf33e5fb3c4 else c in
  let c := if 0 <? c0 .& 0x08 then c .^ 0xae2eabe2a8 else c in
  if 0 <? c0 .& 0x10 then c .^ 0x1e4f43e470 else c.
Definition PolyMod (v : bytes) : Z := foldl PolyMod_step 1 v .^ 1.
Definition LowerCase (c : Z) : Z := c .| 0x20.
Definition ExpandPrefix (prefix : bytes) : bytes := map (fun c => c .& 0x1f) prefix ++ [0].
Definition VerifyChecksum (prefix payload : bytes) : bool := PolyMod (ExpandPrefix prefix ++ payload) =? 0.
Definition CreateChecksum (prefix payload : bytes) : bytes :=
  let m := PolyMod ((ExpandPrefix prefix ++ payload) ++ repeat 0 8) in
  map (fun i => u8 ((m .>> (5 * (7 - i))) .& 0x1f)) (seqZ 0 8).

(** ** Strings *)
Definition Cash_Encode (prefix payload : bytes) : res AddrErr bytes :=
  let combined := payload ++ CreateChecksum prefix payload in
  match mapM (fun c => CHARSET !! Z.to_nat c) combined with
  | Some cs => Ok (prefix ++ [58] ++ cs)
  | None => Panic
  end.
(** The checks on each character: [i] is its index. *)
Fixpoint scan (i : Z) (lower upper : bool) (prefixSize : Z) (str : bytes) : res AddrErr (bool * bool * Z) :=
  match str with
  | [] => Ok (lower, upper, prefixSize)
  | c :: str =>
      if (97 <=? c) && (c <=? 122) then scan (i + 1) true upper prefixSize str
      else if (65 <=? c) && (c <=? 90) then scan (i + 1) lower true prefixSize str
      else if (48 <=? c) && (c <=? 57) then
        if prefixSize =? 0 then Err (AddrError "addresses cannot have numbers in the prefix") else scan (i + 1) lower upper prefixSize str
      else if c =? 58 then
        if (i =? 0) || negb (prefixSize =? 0) then Err (AddrError "the separator must not be the first character") else scan (i + 1) lower upper i str
      else Err (AddrError "unexpected character")
  end.
Definition charset_value (c : Z) : option Z :=
  if 127 <? c then None
  else match CharsetRev !! Z.to_nat c with Some v => if v =? -1 then None else Some (u8 v) | None => None end.
Definition DecodeCashAddress (str : bytes) : res AddrErr (bytes * bytes) :=
  '(lower, upper, prefixSize) ← scan 0 false false 0 str;
  if prefixSize =? 0 then Err (AddrError "address must have a prefix")
  else if (upper : bool) && (lower : bool) then Err (AddrError "addresses cannot use both upper and lower case characters")
  else
    let prefix := map LowerCase (take (Z.to_nat prefixSize) str) in
    match mapM charset_value (drop (S (Z.to_nat prefixSize)) str) with
    | None => Err (AddrError "invalid character")
    | Some values =>
        if negb (VerifyChecksum prefix values) then Err ErrChecksum
        else if (length values <? 8)%nat then Panic
        else Ok (prefix, take (length values - 8) values)
    end.

(** ** Groups of bits *)
Fixpoint emit (fuel : nat) (acc bits tobits maxv : Z) : list Z * Z :=
  match fuel with
  | O => ([], bits)
  | S fuel => if tobits <=? bits then let bits := bits - tobits in let '(l, b) := emit fuel acc bits tobits maxv in ((acc .>> bits) .& maxv :: l, b) else ([], bits)
  end.
(** Every round of the inner loop takes off [tobits] bits. *)
Fixpoint convert (fromBits tobits maxv maxAcc acc bits : Z) (l : list Z) : list Z * Z * Z :=
  match l with
  | [] => ([], acc, bits)
  | value :: l =>
      let acc := (u64 (acc .<< fromBits) .| value) .& maxAcc in
      let '(out, bits) := emit (Z.to_nat (bits + fromBits)) acc (bits + fromBits) tobits maxv in
      let '(ret, acc, bits) := convert fromBits tobits maxv maxAcc acc bits l in
      (out ++ ret, acc, bits)
  end.
Definition convertBits (d : bytes) (fromBits tobits : Z) (pad : bool) : res AddrErr bytes :=
  let maxv := (1 .<< tobits) - 1 in
  let maxAcc := (1 .<< (fromBits + tobits - 1)) - 1 in
  let '(ret, acc, bits) := convert fromBits tobits maxv maxAcc 0 0 d in
  if pad then Ok (map u8 (if 0 <? bits then ret ++ [u64 (acc .<< (tobits - bits)) .& maxv] else ret))
  else if (fromBits <=? bits) || negb (u64 (acc .<< (tobits - bits)) .& maxv =? 0) then Err (AddrError "encoding padding error")
  else Ok (map u8 ret).
Definition packAddressData (t : AddressType) (addrHash : bytes) : res AddrErr bytes :=
  let versionByte := type_number t .<< 3 in
  let n := Z.of_nat (length addrHash) in
  let encodedSize := u64 (n - 20) / 4 in
  if negb (Z.rem (n - 20) 4 =? 0) then Err (AddrError "invalid addrhash size")
  else if 8 <? encodedSize then Err (AddrError "encoded size out of valid range")
  else convertBits (u8 (versionByte .| encodedSize) :: addrHash) 8 5 true.
(** The empty string when the hash has no valid size. *)
Definition CheckEncodeCashAddress (input prefix : bytes) (t : AddressType) : res AddrErr bytes :=
  match packAddressData t input with
  | Ok k => Cash_Encode prefix k
  | Err _ => Ok []
  | Panic => Panic
  end.
Definition CheckDecodeCashAddress (input : bytes) : res AddrErr (bytes * bytes * AddressType) :=
  '(prefix, d) ← DecodeCashAddress input;
  d ← convertBits d 5 8 false;
  if negb (length d =? 21)%nat then Err (AddrError "incorrect Data length")
  else Ok (drop 1 d, prefix, if default 0 (head d) =? 8 then P2SH else P2PKH).

(** ** Addresses *)
Inductive CashAddress := CashAddressPubKeyHash (hash prefix : bytes) | CashAddressScriptHash (hash prefix : bytes).
Definition ScriptAddress (a : CashAddress) : bytes := match a with CashAddressPubKeyHash h _ | CashAddressScriptHash h _ => h end.
Definition newCashAddressPubKeyHash (pkHash : bytes) (net : string) : res AddrErr CashAddress :=
  if negb (length pkHash =? 20)%nat then Err (AddrError "pkHash must be 20 bytes")
  else match Prefixes net with Some p => Ok (CashAddressPubKeyHash pkHash p) | None => Err (AddrError "unknown network parameters") end.
Definition newCashAddressScriptHashFromHash (scriptHash : bytes) (net : string) : res AddrErr CashAddress :=
  if negb (length scriptHash =? 20)%nat then Err (AddrError "scriptHash must be 20 bytes")
  else match Prefixes net with Some p => Ok (CashAddressScriptHash scriptHash p) | None => Err (AddrError "unknown network parameters") end.
Definition NewCashAddressScriptHash `{Hashes} (serializedScript : bytes) (net : string) : res AddrErr CashAddress :=
  newCashAddressScriptHashFromHash (Hash160 serializedScript) net.
Definition EncodeAddress (a : CashAddress) : res AddrErr bytes :=
  match a with
  | CashAddressPubKeyHash h p => CheckEncodeCashAddress (take 20 h) p P2PKH
  | CashAddressScriptHash h p => CheckEncodeCashAddress (take 20 h) p P2SH
  end.
Definition IsForNet (a : CashAddress) (net : string) : bool :=
  match Prefixes net with
  | Some pre => match a with CashAddressPubKeyHash _ p | CashAddressScriptHash _ p => bool_decide (p = pre) end
  | None => false
  end.
(** A string shorter than the prefix of the network panics. *)
Definition DecodeAddress (addr : bytes) (net : string) : res AddrErr CashAddress :=
  match Prefixes net with
  | None => Err (AddrError "unknown network parameters")
  | Some pre =>
      if (length addr <? S (length pre))%nat then Panic
      else
        let addr := if decide (take (S (length pre)) addr <> pre ++ [58]) then pre ++ [58] ++ addr else addr in
        match CheckDecodeCashAddress addr with
        | Panic => Panic
        | Err ErrChecksum => Err ErrChecksum
        | Err _ => Err (AddrError "decoded address is of unknown format")
        | Ok (decoded, _, typ) =>
            if negb (length decoded =? 20)%nat then Err (AddrError "decoded address is of unknown size")
            else match typ with P2PKH => newCashAddressPubKeyHash decoded net | P2SH => newCashAddressScriptHashFromHash decoded net end
        end
  end.

(** ** Scripts *)
(** PushOpCode and PushSingleData return the error of parsing the script again. *)
Definition parsed (s : Script) : res AddrErr Script := if badOpCode s then Err (AddrError "parse") else Ok s.
Definition sc_push_opcode (s : Script) (n : Z) : res AddrErr Script :=
  match PushOpCode s n with Ok s => parsed s | Err _ => Err (AddrError "invalid opcode") | Panic => Panic end.
Definition sc_push_data (s : Script) (d : bytes) : res AddrErr Script := parsed (PushSingleData s d).
Definition payToPubKeyHashScript (pubKeyHash : bytes) : res AddrErr bytes :=
  s ← sc_push_opcode NewEmptyScript OP_DUP; s ← sc_push_opcode s OP_HASH160; s ← sc_push_data s pubKeyHash;
  s ← sc_push_opcode s OP_EQUALVERIFY; s ← sc_push_opcode s OP_CHECKSIG; Ok (data s).
Definition payToScriptHashScript (scriptHash : bytes) : res AddrErr bytes :=
  s ← sc_push_opcode NewEmptyScript OP_HASH160; s ← sc_push_data s scriptHash; s ← sc_push_opcode s OP_EQUAL; Ok (data s).
Definition CashPayToAddrScript (a : CashAddress) : res AddrErr bytes :=
  match a with
  | CashAddressPubKeyHash _ _ => payToPubKeyHashScript (ScriptAddress a)
  | CashAddressScriptHash _ _ => payToScriptHashScript (ScriptAddress a)
  end.
Definition byte_is (s : bytes) (i : nat) (c : Z) : bool := bool_decide (s !! i = Some c).
Definition ExtractPkScriptAddrs (pkScript : bytes) (net : string) : res AddrErr CashAddress :=
  if (length pkScript =? 23)%nat && byte_is pkScript 0 0xa9 && byte_is pkScript 1 0x14 && byte_is pkScript 22 0x87
  then newCashAddressScriptHashFromHash (take 20 (drop 2 pkScript)) net
  else if (length pkScript =? 25)%nat && byte_is pkScript 0 0x76 && byte_is pkScript 1 0xa9 && byte_is pkScript 2 0x14 && byte_is pkScript 23 0x88 && byte_is pkScript 24 0xac
  then newCashAddressPubKeyHash (take 20 (drop 3 pkScript)) net
  else Err (AddrError "unknown script type").

(** ** The addresses of the RPC interface (rpc/rawtransaction.go) *)
Definition decodeAddress `{Hashes} (active : AddressParam) (address : bytes) : res AddrErr (AddressType * bytes) :=
  match AddressFromString address with
  | Ok a => Ok (if addr_version a =? PubKeyHashAddressVer active then P2PKH else if addr_version a =? ScriptHashAddressVer active then P2SH else P2PKH, hash160 a)
  | Err _ =>
      match CheckDecodeCashAddress address with
      | Ok (keyHash, _, t) => Ok (t, keyHash)
      | Err _ => Err (AddrError "Invalid Bitcoin address")
      | Panic => Panic
      end
  | Panic => Panic
  end.
Inductive script_item := PushOp (n : Z) | PushBytes (d : bytes).
Definition generateScript (items : list script_item) : res AddrErr Script :=
  foldl (fun sc item => sc ← sc; match item with PushOp n => sc_push_opcode sc n | PushBytes d => sc_push_data sc d end) (Ok NewEmptyScript) items.
Definition getStandardScriptPubKey `{Hashes} (active : AddressParam) (address : bytes) (nullData : option bytes) : res AddrErr Script :=
  match nullData with
  | Some d => generateScript [PushOp OP_RETURN; PushBytes d]
  | None =>
      '(addrType, keyHash) ← decodeAddress active address;
      match addrType with
      | P2PKH => generateScript [PushOp OP_DUP; PushOp OP_HASH160; PushBytes keyHash; PushOp OP_EQUALVERIFY; PushOp OP_CHECKSIG]
      | P2SH => generateScript [PushOp OP_HASH160; PushBytes keyHash; PushOp OP_EQUAL]
      end
  end.
