(* ===== verification/AddrFacts.v ===== *)
(** * Lemmas on addresses: digits, base 58, groups of bits and the checksum of cash addresses *)
From S2P Require Import Prelude Errors Wire ScriptNum Opcodes Script Tx Crypto Compress Coins Block Undo.
From S2P Require Import Stack Slice Interp InterpFacts Base58 CashAddr.
From Stdlib Require Import Btauto.

(** ** Digits *)
Definition in_base (base d : Z) : Prop := 0 <= d < base.
(** The value of digits, the lowest first, and the highest first. *)
Definition lev (base : Z) (l : list Z) : Z := foldr (fun d v => d + base * v) 0 l.
Definition bev (base : Z) (l : list Z) : Z := foldl (fun v d => v * base + d) 0 l.
Lemma lev_cons base d l : lev base (d :: l) = d + base * lev base l.
Proof. done. Qed.
Lemma lev_nonneg base l : 0 < base -> Forall (in_base base) l -> 0 <= lev base l.
Proof. intros Hb. induction 1 as [|d l Hd _ IH]; [done|]. rw lev_cons. unfold in_base in Hd. nia. Qed.
Lemma lev_app base l1 l2 : lev base (l1 ++ l2) = lev base l1 + base ^ Z.of_nat (length l1) * lev base l2.
Proof.
  induction l1 as [|d l1 IH]; [cbn [app length]; change (lev base []) with 0; lia|]. cbn [app length]. rw !lev_cons IH Nat2Z.inj_succ Z.pow_succ_r; [ring|lia].
Qed.
Lemma lev_zeros base n : lev base (repeat 0 n) = 0.
Proof. induction n as [|n IH]; [done|]. cbn [repeat]. rw lev_cons IH. lia. Qed.
Lemma le_val_lev l : le_val l = lev 256 l.
Proof. induction l as [|b l IH]; [done|]. cbn [le_val]. rw IH. done. Qed.
Lemma bev_snoc base l d : bev base (l ++ [d]) = bev base l * base + d.
Proof. unfold bev. by rw foldl_app. Qed.
Lemma bev_app base l1 l2 : bev base (l1 ++ l2) = bev base l1 * base ^ Z.of_nat (length l2) + bev base l2.
Proof.
  induction l2 as [|d l2 IH] using rev_ind; [rw app_nil_r; change (bev base []) with 0; cbn [length Z.of_nat]; rw Z.pow_0_r; lia|]. rw app_assoc !bev_snoc IH length_app Nat2Z.inj_add Z.pow_add_r; [|lia..]. change (Z.of_nat (length [d])) with 1. rw Z.pow_1_r. ring.
Qed.
Lemma bev_range base l : 1 < base -> Forall (in_base base) l -> 0 <= bev base l < base ^ Z.of_nat (length l).
Proof.
  intros Hb. induction l as [|d l IH] using rev_ind; [cbn; lia|]. intros [Hl Hd]%Forall_app. specialize (IH Hl). apply Forall_cons in Hd as [Hd _].
  rw bev_snoc length_app Nat2Z.inj_add Z.pow_add_r; [|lia..]. unfold in_base in Hd. change (Z.of_nat (length [d])) with 1. rw Z.pow_1_r.
  generalize dependent (base ^ Z.of_nat (length l)). intros p Hp. assert ((bev base l + 1) * base <= p * base) by (apply Z.mul_le_mono_nonneg_r; lia). nia.
Qed.
(** As many digits with the same value are the same digits. *)
Lemma bev_inj base l1 l2 : 1 < base -> Forall (in_base base) l1 -> Forall (in_base base) l2 -> length l1 = length l2 -> bev base l1 = bev base l2 -> l1 = l2.
Proof.
  intros Hb. revert l2. induction l1 as [|d l1 IH] using rev_ind; intros l2 H1 H2 Hl He.
  - destruct l2; [done|cbn in Hl; lia].
  - destruct l2 as [|d2 l2 _] using rev_ind; [rw length_app in Hl; cbn in Hl; lia|]. rw !bev_snoc in He. rw !length_app in Hl. cbn in Hl.
    apply Forall_app in H1 as [H1 [Hd _]%Forall_cons]. apply Forall_app in H2 as [H2 [Hd2 _]%Forall_cons]. unfold in_base in Hd, Hd2.
    assert (bev base l1 = bev base l2) as Hv by nia. assert (d = d2) as -> by nia. f_equal. apply IH; [done|done|lia|done].
Qed.
(** The digits of a value, without zeros at the top, are these digits. *)
Definition top_ok (l : list Z) : Prop := last l <> Some 0.
Lemma lev_pos base l : 1 < base -> Forall (in_base base) l -> top_ok l -> l <> [] -> 0 < lev base l.
Proof.
  intros Hb. induction 1 as [|d l Hd Hl IH]; [done|]. intros Ht _. rw lev_cons. unfold in_base in Hd. destruct l as [|d1 l].
  - unfold top_ok in Ht. cbn in Ht. assert (d <> 0) by congruence. change (lev base []) with 0. lia.
  - assert (0 < lev base (d1 :: l)) by (by apply IH). nia.
Qed.
Lemma divmod_lev fuel base l : 1 < base -> Forall (in_base base) l -> top_ok l -> lev base l < 2 ^ Z.of_nat fuel -> divmod_loop fuel base (lev base l) = l.
Proof.
  intros Hb. revert fuel. induction l as [|d l IH]; intros fuel Hl Ht Hf; [by destruct fuel|].
  pose proof (lev_pos base _ Hb Hl Ht ltac:(done)) as Hpos. apply Forall_cons in Hl as [Hd Hl]. pose proof (lev_nonneg base l ltac:(lia) Hl) as Hv. unfold in_base in Hd.
  destruct fuel as [|fuel]; [change (2 ^ Z.of_nat 0) with 1 in Hf; lia|]. cbn [divmod_loop]. destruct (Z.ltb_spec 0 (lev base (d :: l))); [|lia].
  rw lev_cons in Hf. rw lev_cons (Z.mul_comm base) Z.mod_add; [|lia]. rw Z.div_add; [|lia]. rw Z.mod_small; [|lia]. rw Z.div_small; [|lia]. rw Z.add_0_l. f_equal. apply IH; [done|by destruct l|].
  rw Nat2Z.inj_succ Z.pow_succ_r in Hf; [|lia]. nia.
Qed.
Lemma divmod_ok fuel base x : 1 < base -> 0 <= x < 2 ^ Z.of_nat fuel -> lev base (divmod_loop fuel base x) = x /\ Forall (in_base base) (divmod_loop fuel base x) /\ top_ok (divmod_loop fuel base x).
Proof.
  intros Hb. revert x. induction fuel as [|fuel IH]; intros x Hx; [cbn in Hx; cbn; split_and!; [lia|done|done]|]. cbn [divmod_loop]. destruct (Z.ltb_spec 0 x); [|cbn; split_and!; [lia|done|done]].
  rw Nat2Z.inj_succ Z.pow_succ_r in Hx; [|lia]. pose proof (Z.div_mod x base ltac:(lia)). pose proof (Z.mod_pos_bound x base ltac:(lia)). assert (0 <= x / base < 2 ^ Z.of_nat fuel) as Hq by (split; nia).
  destruct (IH _ Hq) as (Hv & HF & Ht). rw lev_cons Hv. split_and!; [lia|by constructor|]. unfold top_ok in *. destruct (divmod_loop fuel base (x / base)) as [|d l] eqn:El; [|done].
  cbn in Hv |- *. intros [= Hz]. nia.
Qed.
Lemma rounds_enough x : 0 <= x -> x < 2 ^ Z.of_nat (rounds x).
Proof.
  intros Hx. unfold rounds. rw Nat2Z.inj_succ Z2Nat.id; [|apply Z.log2_nonneg]. destruct (decide (x = 0)) as [->|]; [done|]. apply Z.log2_spec. lia.
Qed.
Lemma digits_lev base l : 1 < base -> Forall (in_base base) l -> top_ok l -> digits base (lev base l) = l.
Proof. intros Hb Hl Ht. apply divmod_lev; [done|done|done|]. apply rounds_enough, lev_nonneg; [lia|done]. Qed.
Lemma digits_ok base x : 1 < base -> 0 <= x -> lev base (digits base x) = x /\ Forall (in_base base) (digits base x) /\ top_ok (digits base x).
Proof. intros Hb Hx. apply divmod_ok; [done|]. split; [done|]. by apply rounds_enough. Qed.

(** ** Base 58 *)
(** A property of a few integers holds if it holds of each. *)
Lemma check_range (P : Z -> bool) a n c : forallb P (seqZ a n) = true -> a <= c < a + n -> P c = true.
Proof. intros HP Hc. rw forallb_forall in HP. apply HP, list_elem_of_In, elem_of_seqZ. lia. Qed.
Lemma char58_ok d : in_base 58 d -> b58_at (char58 d) = d /\ (char58 d = alphabetIdx0 -> d = 0).
Proof.
  intros Hd. assert ((b58_at (char58 d) =? d) && (negb (char58 d =? alphabetIdx0) || (d =? 0)) = true) as Hc.
  { apply (check_range (fun d => (b58_at (char58 d) =? d) && (negb (char58 d =? alphabetIdx0) || (d =? 0))) 0 58); [vm_compute; reflexivity|unfold in_base in Hd; lia]. }
  lia.
Qed.
Lemma b58_at_ok c : 0 <= c < 256 -> b58_at c <> 255 -> in_base 58 (b58_at c) /\ char58 (b58_at c) = c /\ (b58_at c = 0 -> c = alphabetIdx0).
Proof.
  intros Hc Hn. unfold in_base.
  assert ((b58_at c =? 255) || ((0 <=? b58_at c) && (b58_at c <? 58) && (char58 (b58_at c) =? c) && (negb (b58_at c =? 0) || (c =? alphabetIdx0))) = true) as Hk.
  { apply (check_range (fun c => (b58_at c =? 255) || ((0 <=? b58_at c) && (b58_at c <? 58) && (char58 (b58_at c) =? c) && (negb (b58_at c =? 0) || (c =? alphabetIdx0)))) 0 256); [vm_compute; reflexivity|lia]. }
  lia.
Qed.
Lemma decode_loop_lev l : forall answer j, Forall (fun c => b58_at c <> 255) l -> decode_loop answer j l = Some (answer + j * lev 58 (map b58_at l)).
Proof.
  induction l as [|c l IH]; intros answer j Hl; [cbn [decode_loop map]; change (lev 58 []) with 0; f_equal; lia|].
  apply Forall_cons in Hl as [Hc Hl]. cbn [decode_loop map]. destruct (Z.eqb_spec (b58_at c) 255); [done|]. rw IH // lev_cons. f_equal. ring.
Qed.
Lemma leading_split x b : exists b', b = repeat x (leading x b) ++ b' /\ head b' <> Some x.
Proof.
  induction b as [|c b (b' & Hb & Hh)]; [by exists []|]. cbn [leading]. destruct (Z.eqb_spec c x) as [->|Hn]; [exists b'; cbn [repeat app]; by rw -Hb|].
  exists (c :: b). cbn. split; [done|]. congruence.
Qed.
Lemma leading_app x n b : head b <> Some x -> leading x (repeat x n ++ b) = n.
Proof.
  intros Hb. induction n as [|n IH]; cbn [repeat app].
  - destruct b as [|c b]; [done|]. cbn [leading]. destruct (Z.eqb_spec c x) as [->|]; [done|done].
  - cbn [leading]. by rw Z.eqb_refl IH.
Qed.
Lemma head_reverse {A} (l : list A) : head (reverse l) = last l.
Proof. by rw -last_reverse reverse_involutive. Qed.
Lemma reverse_repeat {A} (x : A) n : reverse (repeat x n) = repeat x n.
Proof. induction n as [|n IH]; [done|]. cbn [repeat]. rw reverse_cons IH -repeat_cons. done. Qed.
(** The bytes of a value, after as many zeros as there were in front. *)
Lemma Bytes_SetBytes b : bytes_ok b -> repeat 0 (leading 0 b) ++ Bytes (SetBytes b) = b.
Proof.
  intros Hb. destruct (leading_split 0 b) as (b' & He & Hh). rw {3}He. f_equal. rw He in Hb. apply Forall_app in Hb as [_ Hb].
  unfold Bytes, SetBytes. rw {1}He reverse_app reverse_repeat le_val_lev lev_app lev_zeros Z.mul_0_r Z.add_0_r digits_lev; [by rw reverse_involutive|lia| |].
  - apply Forall_reverse. exact Hb.
  - unfold top_ok. by rw last_reverse.
Qed.
Lemma Base58_Decode_Encode b : bytes_ok b -> Base58_Decode (Base58_Encode b) = b.
Proof.
  intros Hb. unfold Base58_Decode, Base58_Encode. assert (0 <= SetBytes b) as Hx. { unfold SetBytes. rw le_val_lev. apply lev_nonneg; [lia|by apply Forall_reverse]. }
  destruct (digits_ok 58 (SetBytes b) ltac:(lia) Hx) as (Hv & HF & Ht). set (D := digits 58 (SetBytes b)) in *. rw reverse_involutive.
  assert (map b58_at (map char58 D) = D) as HD. { rw map_map. rw -{2}(map_id D). apply map_ext_Forall. eapply Forall_impl; [exact HF|]. intros d Hd. apply (char58_ok d Hd). }
  assert (Forall (fun c => b58_at c <> 255) (map char58 D)) as Hc.
  { apply Forall_map. eapply Forall_impl; [exact HF|]. intros d Hd. destruct (char58_ok d Hd) as [-> _]. unfold in_base in Hd. lia. }
  rw decode_loop_lev; [|apply Forall_app; split; [done|]; apply Forall_forall; intros c Hc'; apply list_elem_of_In, repeat_spec in Hc'; by subst].
  rw map_app HD lev_app. replace (map b58_at (repeat alphabetIdx0 (leading 0 b))) with (repeat 0 (leading 0 b)) by (by rw map_repeat). rw lev_zeros Hv.
  replace (0 + 1 * _) with (SetBytes b) by ring. rw reverse_app reverse_repeat leading_app; [by apply Bytes_SetBytes|].
  rw head_reverse. change (map char58 D) with (char58 <$> D). rw fmap_last. destruct (last D) as [d|] eqn:Ed; [|done]. cbn. intros [= Hz].
  apply last_Some_elem_of in Ed as Hin. rewrite ->Forall_forall in HF. apply (char58_ok d (HF d Hin)) in Hz. subst d. by apply Ht.
Qed.
Lemma Base58_Encode_Decode s : Forall (fun c => 0 <= c < 256 /\ b58_at c <> 255) s -> Base58_Encode (Base58_Decode s) = s.
Proof.
  intros Hs. unfold Base58_Decode. assert (Forall (fun c => b58_at c <> 255) (reverse s)) as Hr. { apply Forall_reverse. eapply Forall_impl; [exact Hs|]. by intros c [_ Hc]. }
  rw decode_loop_lev //. replace (0 + 1 * _) with (lev 58 (map b58_at (reverse s))) by ring. destruct (leading_split alphabetIdx0 s) as (s' & He & Hh).
  set (z := leading alphabetIdx0 s) in *. assert (map b58_at (reverse s) = map b58_at (reverse s') ++ repeat 0 z) as Hm. { rw {1}He reverse_app reverse_repeat map_app. by rw map_repeat. }
  rw Hm lev_app lev_zeros Z.mul_0_r Z.add_0_r. rw He in Hs. apply Forall_app in Hs as [_ Hs]. set (D := map b58_at (reverse s')).
  assert (Forall (in_base 58) D) as HD. { apply Forall_map, Forall_reverse. eapply Forall_impl; [exact Hs|]. intros c [Hc Hn]. by apply b58_at_ok. }
  assert (top_ok D) as Ht.
  { unfold top_ok, D. change (map b58_at (reverse s')) with (b58_at <$> reverse s'). rw fmap_last last_reverse. destruct s' as [|c s']; [done|]. cbn. intros [= Hz]. apply Forall_cons in Hs as [[Hc Hn] _].
    destruct (b58_at_ok c Hc Hn) as (_ & _ & Hx). apply Hh. cbn. by rw (Hx Hz). }
  assert (0 <= lev 58 D) as Hv by (apply lev_nonneg; [lia|done]). unfold Base58_Encode. destruct (digits_ok 256 (lev 58 D) ltac:(lia) Hv) as (Hb & HF & Htb).
  assert (head (Bytes (lev 58 D)) <> Some 0) as Hhb by (unfold Bytes; by rw head_reverse). rw leading_app //. unfold SetBytes.
  rw !reverse_app !reverse_repeat le_val_lev lev_app lev_zeros Z.mul_0_r Z.add_0_r. unfold Bytes. rw reverse_involutive Hb digits_lev // He. f_equal. unfold D. rw map_map.
  replace (map (fun x => char58 (b58_at x)) (reverse s')) with (reverse s'); [by rw reverse_involutive|]. symmetry. rw -{2}(map_id (reverse s')). apply map_ext_Forall, Forall_reverse. eapply Forall_impl; [exact Hs|].
  intros c [Hc Hn]. by apply b58_at_ok.
Qed.

(** ** The checksum of cash addresses is linear *)
Definition sel (b : bool) (k : Z) : Z := if b then k else 0.
Lemma land_pow2 y k : 0 <= k -> y .& 2 ^ k = if Z.testbit y k then 2 ^ k else 0.
Proof.
  intros Hk. apply Z.bits_inj'. intros n Hn. rw Z.land_spec Z.pow2_bits_eqb //. destruct (Z.eqb_spec k n) as [->|Hne].
  - destruct (Z.testbit y n) eqn:E; [by rw Z.pow2_bits_true|by rw Z.bits_0].
  - rw andb_false_r. destruct (Z.testbit y k); [by rw Z.pow2_bits_false|by rw Z.bits_0].
Qed.
Lemma top_bit c k j : 0 <= k < 8 -> j = 35 + k -> (0 <? u8 (c .>> 35) .& 2 ^ k) = Z.testbit c j.
Proof.
  intros Hk ->. rw land_pow2; [|lia]. unfold u8. rw Z.mod_pow2_bits_low; [|lia]. rw Z.shiftr_spec; [|lia]. rw (Z.add_comm k).
  pose proof (Z.pow_pos_nonneg 2 k ltac:(lia) ltac:(lia)). destruct (Z.testbit c (35 + k)); [|done]. lia.
Qed.
Lemma sel_xor (b : bool) c k : (if b then c .^ k else c) = c .^ sel b k.
Proof. destruct b; [done|]. cbn. by rw Z.lxor_0_r. Qed.
Definition keep (c : Z) : Z := (c .& 0x07ffffffff) .<< 5.
Definition reduce (c : Z) : Z := sel (Z.testbit c 35) 0x98f2bc8e61 .^ sel (Z.testbit c 36) 0x79b76d99e2 .^ sel (Z.testbit c 37) 0xf33e5fb3c4 .^ sel (Z.testbit c 38) 0xae2eabe2a8 .^ sel (Z.testbit c 39) 0x1e4f43e470.
Definition times_x (c : Z) : Z := keep c .^ reduce c.
Lemma keep_mod c : keep c = (c mod 2 ^ 35) * 32.
Proof. unfold keep. rw (Z.land_ones c 35) // Z.shiftl_mul_pow2 //. Qed.
Lemma keep_range c : 0 <= keep c < 2 ^ 40.
Proof. rw keep_mod. pose proof (Z.mod_pos_bound c (2 ^ 35) ltac:(lia)). lia. Qed.
Lemma xor_move a0 a1 a2 a3 a4 a5 d : ((((a0 .^ d) .^ a1) .^ a2) .^ a3) .^ a4 .^ a5 = (a0 .^ (a1 .^ a2 .^ a3 .^ a4 .^ a5)) .^ d.
Proof. apply Z.bits_inj'. intros n Hn. rw !Z.lxor_spec. btauto. Qed.
Lemma step_T c d : PolyMod_step c d = times_x c .^ d.
Proof.
  unfold PolyMod_step. rw u64_id; [|pose proof (keep_range c) as Hk; unfold keep in Hk; int_lia]. cbv zeta.
  rw (top_bit c 0 35); [|lia|lia]. rw (top_bit c 1 36); [|lia|lia]. rw (top_bit c 2 37); [|lia|lia]. rw (top_bit c 3 38); [|lia|lia]. rw (top_bit c 4 39); [|lia|lia]. rw !sel_xor. unfold times_x, reduce. exact (xor_move _ _ _ _ _ _ _).
Qed.
Lemma land_lxor a b m : (a .^ b) .& m = (a .& m) .^ (b .& m).
Proof. apply Z.bits_inj'. intros n Hn. rw !(Z.land_spec, Z.lxor_spec). btauto. Qed.
Lemma sel_xorb x y k : sel (xorb x y) k = sel x k .^ sel y k.
Proof. destruct x, y; cbn [xorb sel]; by rw ?Z.lxor_nilpotent ?Z.lxor_0_l ?Z.lxor_0_r. Qed.
Lemma xor_pairs a1 a2 a3 a4 a5 b1 b2 b3 b4 b5 : (a1 .^ b1) .^ (a2 .^ b2) .^ (a3 .^ b3) .^ (a4 .^ b4) .^ (a5 .^ b5) = (a1 .^ a2 .^ a3 .^ a4 .^ a5) .^ (b1 .^ b2 .^ b3 .^ b4 .^ b5).
Proof. apply Z.bits_inj'. intros n Hn. rw !Z.lxor_spec. btauto. Qed.
Lemma xor_swap a b c d : (a .^ b) .^ (c .^ d) = (a .^ c) .^ (b .^ d).
Proof. apply Z.bits_inj'. intros n Hn. rw !Z.lxor_spec. btauto. Qed.
Lemma T_xor a b : times_x (a .^ b) = times_x a .^ times_x b.
Proof.
  unfold times_x. rw xor_swap. f_equal.
  - unfold keep. by rw land_lxor Z.shiftl_lxor.
  - unfold reduce. rw !Z.lxor_spec !sel_xorb. exact (xor_pairs _ _ _ _ _ _ _ _ _ _).
Qed.
Lemma lxor_range n a b : 0 < n -> 0 <= a < 2 ^ n -> 0 <= b < 2 ^ n -> 0 <= a .^ b < 2 ^ n.
Proof.
  intros Hn Ha Hb. assert (0 <= a .^ b) as Hx by (apply Z.lxor_nonneg; lia). split; [done|]. destruct (decide (a .^ b = 0)) as [->|Hne]; [lia|]. apply Z.log2_lt_pow2; [lia|].
  pose proof (Z.log2_lxor a b ltac:(lia) ltac:(lia)). assert (forall z, 0 <= z < 2 ^ n -> Z.log2 z < n) as Hl; [|pose proof (Hl a Ha); pose proof (Hl b Hb); lia].
  intros z Hz. destruct (decide (z = 0)) as [->|]; [done|]. apply Z.log2_lt_pow2; lia.
Qed.
Lemma sel_range b k : 0 <= k < 2 ^ 40 -> 0 <= sel b k < 2 ^ 40.
Proof. by destruct b. Qed.
Lemma T_range c : 0 <= times_x c < 2 ^ 40.
Proof. unfold times_x, reduce. repeat apply lxor_range; [lia|apply keep_range| |..]; try lia; apply sel_range; lia. Qed.
(** The remainder after [l], from the remainder [s] before. *)
Definition feed (s : Z) (l : bytes) : Z := foldl PolyMod_step s l.
Lemma feed_snoc s l d : feed s (l ++ [d]) = times_x (feed s l) .^ d.
Proof. unfold feed. rw foldl_app. cbn [foldl]. apply step_T. Qed.
Lemma feed_linear s l : feed s l = Nat.iter (length l) times_x s .^ feed 0 l.
Proof.
  induction l as [|d l IH] using rev_ind; [cbn; by rw Z.lxor_0_r|]. rw !feed_snoc IH T_xor length_app Nat.add_1_r Z.lxor_assoc. done.
Qed.
Lemma feed_zeros s n : feed s (repeat 0 n) = Nat.iter n times_x s.
Proof. revert s. induction n as [|n IH]; intros s; [done|]. cbn [repeat]. unfold feed in *. cbn [foldl]. rw IH step_T Z.lxor_0_r Nat.iter_succ_r. done. Qed.
Lemma T_small c : 0 <= c < 2 ^ 35 -> times_x c = c * 32.
Proof.
  intros Hc. unfold times_x, reduce. rw keep_mod Z.mod_small //. assert (forall j, 35 <= j -> Z.testbit c j = false) as Ht. { intros j Hj. rw -(Z.mod_small c (2 ^ 35)) // Z.mod_pow2_bits_high //. }
  rw !Ht; [|lia..]. cbn [sel]. by rw !Z.lxor_0_r.
Qed.
Lemma xor_low x d : in_base 32 d -> (x * 32) .^ d = x * 32 + d.
Proof.
  intros Hd. rw Z.add_nocarry_lxor //. change 32 with (2 ^ 5) in *. apply Z.bits_inj'. intros n Hn. rw Z.land_spec Z.bits_0. destruct (decide (n < 5)).
  - rw Z.mul_pow2_bits_low //.
  - unfold in_base in Hd. rw -(Z.mod_small d (2 ^ 5)) // Z.mod_pow2_bits_high ?andb_false_r //. lia.
Qed.
Lemma feed_pack l : (length l <= 8)%nat -> Forall (in_base 32) l -> feed 0 l = bev 32 l.
Proof.
  induction l as [|d l IH] using rev_ind; [done|]. rw length_app Nat.add_1_r. intros Hn [Hl [Hd _]%Forall_cons]%Forall_app. rw feed_snoc bev_snoc IH; [|lia|done].
  pose proof (bev_range 32 l ltac:(lia) Hl) as Hb. assert (32 ^ Z.of_nat (length l) <= 32 ^ 7) by (apply Z.pow_le_mono_r; lia). rw T_small; [by apply xor_low|lia].
Qed.
(** Eight groups of five bits make up a 40-bit integer. *)
Lemma groups_pack m : 0 <= m < 2 ^ 40 -> bev 32 (map (fun i => u8 ((m .>> (5 * (7 - i))) .& 0x1f)) (seqZ 0 8)) = m /\ Forall (in_base 32) (map (fun i => u8 ((m .>> (5 * (7 - i))) .& 0x1f)) (seqZ 0 8)).
Proof.
  intros Hm. assert (forall i, 0 <= i < 8 -> u8 ((m .>> (5 * (7 - i))) .& 0x1f) = (m / 2 ^ (5 * (7 - i))) mod 32) as Hg.
  { intros i Hi. rw Z.shiftr_div_pow2; [|lia]. rw (Z.land_ones _ 5) //. change (2 ^ 5) with 32. rw u8_id //. pose proof (Z.mod_pos_bound (m / 2 ^ (5 * (7 - i))) 32 ltac:(lia)). int_lia. }
  replace (map (fun i => u8 ((m .>> (5 * (7 - i))) .& 0x1f)) (seqZ 0 8)) with (map (fun i => (m / 2 ^ (5 * (7 - i))) mod 32) (seqZ 0 8)).
  2:{ apply map_ext_in. intros i Hi%list_elem_of_In%elem_of_seqZ. symmetry. apply Hg. lia. }
  split.
  - set (f := fun i => m / 2 ^ (5 * (7 - i))). assert (forall i, i <= 7 -> f i = 32 * f (i - 1) + f i mod 32) as Hs.
    { intros i Hi. unfold f at 2. replace (5 * (7 - (i - 1))) with (5 * (7 - i) + 5) by lia. rw Z.pow_add_r; [|lia..]. rw -Z.div_div; [|lia|done]. apply Z.div_mod. done. }
    assert (f 0 = 32 * f (-1) + f 0 mod 32) by (apply (Hs 0); lia). assert (f 1 = 32 * f 0 + f 1 mod 32) by (apply (Hs 1); lia). assert (f 2 = 32 * f 1 + f 2 mod 32) by (apply (Hs 2); lia). assert (f 3 = 32 * f 2 + f 3 mod 32) by (apply (Hs 3); lia). assert (f 4 = 32 * f 3 + f 4 mod 32) by (apply (Hs 4); lia). assert (f 5 = 32 * f 4 + f 5 mod 32) by (apply (Hs 5); lia). assert (f 6 = 32 * f 5 + f 6 mod 32) by (apply (Hs 6); lia). assert (f 7 = 32 * f 6 + f 7 mod 32) by (apply (Hs 7); lia).
    assert (f (-1) = 0) by (apply Z.div_small; done). assert (f 7 = m) by apply Z.div_1_r.
    change (bev 32 (map (fun i => f i mod 32) [0; 1; 2; 3; 4; 5; 6; 7]) = m). unfold bev. cbn [map foldl]. clear Hs Hg. clearbody f. lia.
  - apply Forall_map, Forall_forall. intros i _. apply Z.mod_pos_bound. lia.
Qed.
Lemma PolyMod_feed v : PolyMod v = feed 1 v .^ 1.
Proof. done. Qed.
Lemma feed_app s l1 l2 : feed s (l1 ++ l2) = feed (feed s l1) l2.
Proof. apply foldl_app. Qed.
Definition groups (m : Z) : bytes := map (fun i => u8 ((m .>> (5 * (7 - i))) .& 0x1f)) (seqZ 0 8).
Lemma CreateChecksum_groups prefix payload : CreateChecksum prefix payload = groups (PolyMod ((ExpandPrefix prefix ++ payload) ++ repeat 0 8)).
Proof. done. Qed.
Lemma groups_length m : length (groups m) = 8%nat.
Proof. unfold groups. by rw length_map length_seqZ. Qed.
Lemma checksum_ok prefix payload : PolyMod ((ExpandPrefix prefix ++ payload) ++ CreateChecksum prefix payload) = 0 /\
  Forall (in_base 32) (CreateChecksum prefix payload) /\ length (CreateChecksum prefix payload) = 8%nat.
Proof.
  rw CreateChecksum_groups !PolyMod_feed !(feed_app _ (ExpandPrefix prefix ++ payload)) feed_zeros. generalize (feed 1 (ExpandPrefix prefix ++ payload)). intros s.
  assert (0 <= Nat.iter 8 times_x s .^ 1 < 2 ^ 40) as Hm by (apply lxor_range; [lia|apply T_range|lia]). destruct (groups_pack _ Hm) as [Hp HF]. fold (groups (Nat.iter 8 times_x s .^ 1)) in Hp, HF.
  split_and!; [|exact HF|apply groups_length]. rw feed_linear feed_pack; [|by rw groups_length|done]. rw Hp groups_length -Z.lxor_assoc Z.lxor_nilpotent Z.lxor_0_l. apply Z.lxor_nilpotent.
Qed.
(** No remainder but zero is lost. *)
Lemma T_injective c : 0 <= c < 2 ^ 40 -> times_x c = 0 -> c = 0.
Proof.
  intros Hc Ht. assert (forall j, 0 <= j < 5 -> Z.testbit c (35 + j) = false) as Hb.
  { intros j Hj. assert (Z.testbit (times_x c) j = false) as Hz by (by rw Ht Z.bits_0). unfold times_x, reduce, keep in Hz. rw !Z.lxor_spec Z.shiftl_spec_low in Hz; [|lia].
    assert (j = 0 \/ j = 1 \/ j = 2 \/ j = 3 \/ j = 4) as Hj5 by lia. revert Hz. unfold sel. destruct Hj5 as [-> | [-> | [-> | [-> | -> ]]]];
    try change (35 + 0) with 35; try change (35 + 1) with 36; try change (35 + 2) with 37; try change (35 + 3) with 38; try change (35 + 4) with 39; destruct (Z.testbit c 35), (Z.testbit c 36), (Z.testbit c 37), (Z.testbit c 38), (Z.testbit c 39); vm_compute; congruence. }
  assert (c = c mod 2 ^ 35) as Hs.
  { apply Z.bits_inj'. intros n Hn. destruct (decide (n < 35)); [by rw Z.mod_pow2_bits_low|]. rw Z.mod_pow2_bits_high; [|lia]. destruct (decide (n < 40)).
    - replace n with (35 + (n - 35)) by lia. apply Hb. lia.
    - rw -(Z.mod_small c (2 ^ 40)) // Z.mod_pow2_bits_high //. lia. }
  pose proof (Z.mod_pos_bound c (2 ^ 35) ltac:(lia)). rw T_small in Ht; lia.
Qed.
Lemma iter_T_zero n c : 0 <= c < 2 ^ 40 -> Nat.iter n times_x c = 0 -> c = 0.
Proof.
  revert c. induction n as [|n IH]; intros c Hc Hz; [done|]. rw Nat.iter_succ_r in Hz. apply T_injective; [done|]. apply IH; [apply T_range|done].
Qed.
Lemma iter_T_xor n a b : Nat.iter n times_x (a .^ b) = Nat.iter n times_x a .^ Nat.iter n times_x b.
Proof. induction n as [|n IH]; [done|]. rw !Nat.iter_succ IH. apply T_xor. Qed.
Lemma lxor_cancel_r a b c : a .^ c = b .^ c -> a = b.
Proof. intros He. rw -(Z.lxor_0_r a) -(Z.lxor_0_r b) -(Z.lxor_nilpotent c) -!Z.lxor_assoc. by rw He. Qed.
Lemma lxor_cancel_l a b c : c .^ a = c .^ b -> a = b.
Proof. rw !(Z.lxor_comm c). apply lxor_cancel_r. Qed.
(** One value that is changed changes the remainder. *)
Lemma feed_change s l1 d d' l2 : in_base 32 d -> in_base 32 d' -> feed s (l1 ++ d :: l2) = feed s (l1 ++ d' :: l2) -> d = d'.
Proof.
  intros Hd Hd' He. rw !(cons_middle _ l1) !app_assoc !(feed_app _ (l1 ++ _)) !feed_snoc (feed_linear (_ .^ d)) (feed_linear (_ .^ d')) in He.
  apply lxor_cancel_r in He. rw !iter_T_xor in He. apply lxor_cancel_l in He.
  assert (Nat.iter (length l2) times_x (d .^ d') = 0) as Hz by (by rw iter_T_xor He Z.lxor_nilpotent). unfold in_base in *.
  apply iter_T_zero in Hz; [by apply Z.lxor_eq|]. apply lxor_range; lia.
Qed.
