(* ===== verification/CashFacts.v ===== *)
(** * Lemmas on cash addresses: groups of bits, strings and scripts *)
From S2P Require Import Prelude Errors Wire ScriptNum Opcodes Script Tx Crypto Compress Coins Block Undo.
From S2P Require Import Stack Slice Interp InterpFacts Base58 CashAddr AddrFacts.

(** ** Groups of bits *)
Lemma bev_cons base d l : bev base (d :: l) = d * base ^ Z.of_nat (length l) + bev base l.
Proof. exact (bev_app base [d] l). Qed.
Lemma mask_mod x n : 0 <= n -> x .& ((1 .<< n) - 1) = x mod 2 ^ n.
Proof. intros Hn. rw Z.shiftl_1_l Z.sub_1_r -Z.ones_equiv. by apply Z.land_ones. Qed.
Lemma mod_split x b to : 0 <= b -> 0 <= to -> x mod 2 ^ (b + to) = ((x / 2 ^ b) mod 2 ^ to) * 2 ^ b + x mod 2 ^ b.
Proof. intros Hb Ht. rw Z.pow_add_r // Z.rem_mul_r; [|lia..]. lia. Qed.
Lemma emit_spec fuel acc B to : 0 < to -> 0 <= B <= Z.of_nat fuel ->
  let '(out, b) := emit fuel acc B to ((1 .<< to) - 1) in
  0 <= b < to /\ B = to * Z.of_nat (length out) + b /\ Forall (in_base (2 ^ to)) out /\ acc mod 2 ^ B = bev (2 ^ to) out * 2 ^ b + acc mod 2 ^ b.
Proof.
  intros Ht. revert B. induction fuel as [|fuel IH]; intros B HB; cbn [emit].
  - assert (B = 0) as -> by lia. cbn [length]. split_and!; [lia|lia|lia|constructor|]. done.
  - destruct (Z.leb_spec to B) as [Hle|Hlt]; [|split_and!; [lia|lia|cbn; lia|constructor|]; done].
    specialize (IH (B - to) ltac:(lia)). destruct (emit fuel acc (B - to) to _) as [out b]. destruct IH as (Hb & HB' & HF & Hv). cbn [length].
    split_and!; [lia|lia|lia| |].
    + constructor; [|done]. rw mask_mod; [|lia]. apply Z.mod_pos_bound. lia.
    + rw mask_mod; [|lia]. replace B with ((B - to) + to) at 1 by lia. rw mod_split; [|lia..]. rw Hv bev_cons Z.shiftr_div_pow2; [|lia]. rw -Z.pow_mul_r; [|lia..].
      replace (2 ^ (B - to)) with (2 ^ (to * Z.of_nat (length out)) * 2 ^ b) at 2 by (rw -Z.pow_add_r; [f_equal; lia|lia|lia]). ring.
Qed.
Lemma acc_step acc v bits from to : 0 <= bits < to -> 0 < from -> from + to <= 16 -> 0 <= acc < 2 ^ 16 -> in_base (2 ^ from) v ->
  let a := (u64 (acc .<< from) .| v) .& ((1 .<< (from + to - 1)) - 1) in
  0 <= a < 2 ^ 16 /\ a mod 2 ^ (bits + from) = (acc mod 2 ^ bits) * 2 ^ from + v.
Proof.
  intros Hb Hf Hs Ha Hv. cbv zeta. rw mask_mod; [|lia]. assert (2 ^ from <= 2 ^ 16) by (apply Z.pow_le_mono_r; lia). unfold in_base in Hv.
  assert (0 <= acc .<< from < 2 ^ 32) as Hsh by (rw Z.shiftl_mul_pow2; [|lia]; nia). rw u64_id; [|int_lia]. rw Z.lor_comm lor_shift_add; [|lia|done]. split.
  - assert (2 ^ (from + to - 1) <= 2 ^ 16) by (apply Z.pow_le_mono_r; lia). assert (0 < 2 ^ (from + to - 1)) as Hp by (apply Z.pow_pos_nonneg; lia).
    pose proof (Z.mod_pos_bound (v + acc * 2 ^ from) _ Hp). lia.
  - rw -Znumtheory.Zmod_div_mod; [|apply Z.pow_pos_nonneg; lia|apply Z.pow_pos_nonneg; lia|].
    + rw (Z.add_comm bits) mod_split; [|lia..]. rw Z.div_add; [|lia]. rw (Z.mod_add v); [|lia]. rw (Z.div_small v) // (Z.mod_small v) // Z.add_0_l.
    + exists (2 ^ (to - 1 - bits)). rw -Z.pow_add_r; [|lia..]. f_equal. lia.
Qed.
(** The bits before are the bits after: those that went out, then those that are left. *)
Lemma convert_spec from to : 0 < from -> 0 < to -> from + to <= 16 -> forall l acc bits, 0 <= bits < to -> 0 <= acc < 2 ^ 16 -> Forall (in_base (2 ^ from)) l ->
  let '(ret, acc', bits') := convert from to ((1 .<< to) - 1) ((1 .<< (from + to - 1)) - 1) acc bits l in
  0 <= bits' < to /\ 0 <= acc' < 2 ^ 16 /\ Forall (in_base (2 ^ to)) ret /\ bits + from * Z.of_nat (length l) = to * Z.of_nat (length ret) + bits' /\
  (acc mod 2 ^ bits) * 2 ^ (from * Z.of_nat (length l)) + bev (2 ^ from) l = bev (2 ^ to) ret * 2 ^ bits' + acc' mod 2 ^ bits'.
Proof.
  intros Hf Ht Hs l. induction l as [|v l IH]; intros acc bits Hb Ha Hl; cbn [convert].
  - cbn [length]. rw Z.mul_0_r Z.add_0_r. split_and!; [lia|lia|lia|lia|constructor|lia|]. change (bev (2 ^ from) []) with 0. change (bev (2 ^ to) []) with 0. rw Z.pow_0_r. lia.
  - apply Forall_cons in Hl as [Hv Hl]. destruct (acc_step acc v bits from to Hb Hf Hs Ha Hv) as [Ha1 Hm1]. set (a := (u64 (acc .<< from) .| v) .& _) in *. cbv zeta.
    pose proof (emit_spec (Z.to_nat (bits + from)) a (bits + from) to Ht ltac:(lia)) as He. destruct (emit _ a (bits + from) to _) as [out b1]. destruct He as (Hb1 & HB & HF & Hve).
    specialize (IH a b1 Hb1 Ha1 Hl). destruct (convert from to _ _ a b1 l) as [[ret acc'] bits']. destruct IH as (Hb' & Ha' & HF' & HB' & Hv').
    rw length_app. cbn [length]. split_and!; [lia|lia|lia|lia|by apply Forall_app|lia|]. rw bev_app Z.mul_add_distr_r -Z.add_assoc -Hv' bev_cons.
    rw Hm1 in Hve. replace (from * Z.of_nat (S (length l))) with (from + from * Z.of_nat (length l)) by lia. rw Z.pow_add_r; [|lia..]. rw -!Z.pow_mul_r; [|lia..].
    assert (2 ^ (to * Z.of_nat (length ret)) * 2 ^ bits' = 2 ^ b1 * 2 ^ (from * Z.of_nat (length l))) as Hp by (rw -!Z.pow_add_r; [f_equal; lia|lia..]).
    transitivity (((acc mod 2 ^ bits) * 2 ^ from + v) * 2 ^ (from * Z.of_nat (length l)) + bev (2 ^ from) l); [ring|]. rw Hve. replace (bev (2 ^ to) out * 2 ^ (to * Z.of_nat (length ret)) * 2 ^ bits') with (bev (2 ^ to) out * (2 ^ (to * Z.of_nat (length ret)) * 2 ^ bits')) by ring. rw Hp. ring.
Qed.
Lemma map_u8_id l : Forall (in_base 256) l -> map u8 l = l.
Proof. intros Hl. rw -{2}(map_id l). apply map_ext_Forall. eapply Forall_impl; [exact Hl|]. intros x Hx. apply u8_id. exact Hx. Qed.
Lemma base_32_256 l : Forall (in_base 32) l -> Forall (in_base 256) l.
Proof. intros Hl. eapply Forall_impl; [exact Hl|]. unfold in_base. lia. Qed.
(** A version byte and a hash of 20 bytes are 34 groups of five bits, and these are the bytes again. *)
Lemma pack_unpack d : length d = 21%nat -> bytes_ok d ->
  exists k, convertBits d 8 5 true = Ok k /\ length k = 34%nat /\ Forall (in_base 32) k /\ convertBits k 5 8 false = Ok d.
Proof.
  intros Hl Hd. unfold convertBits.
  pose proof (convert_spec 8 5 ltac:(lia) ltac:(lia) ltac:(lia) d 0 0 ltac:(lia) ltac:(lia) Hd) as H1. destruct (convert 8 5 _ _ 0 0 d) as [[ret acc] bits]. destruct H1 as (Hb & Ha & HF & HB & HV).
  rw Hl in HB HV. assert (length ret = 33%nat /\ bits = 3) as [Hr ->] by lia. destruct (Z.ltb_spec 0 3); [|lia].
  rw mask_mod; [|lia]. rw Z.shiftl_mul_pow2; [|lia]. rw u64_id; [|int_lia]. change (2 ^ (5 - 3)) with 4. change (2 ^ 5) with 32 in *.
  assert ((acc * 4) mod 32 = (acc mod 8) * 4) as Hpad by (rw (Z.mul_mod_distr_r acc 8 4) //). assert (Forall (in_base 32) (ret ++ [(acc * 4) mod 32])) as HFk.
  { apply Forall_app. split; [done|]. constructor; [|constructor]. apply Z.mod_pos_bound. lia. }
  rw map_u8_id; [|by apply base_32_256]. eexists. split; [done|]. split; [by rw length_app Hr|]. split; [done|].
  pose proof (convert_spec 5 8 ltac:(lia) ltac:(lia) ltac:(lia) _ 0 0 ltac:(lia) ltac:(lia) HFk) as H2. destruct (convert 5 8 _ _ 0 0 (ret ++ _)) as [[ret' acc'] bits']. destruct H2 as (Hb' & Ha' & HF' & HB' & HV').
  rw length_app Hr in HB' HV'. cbn [length] in HB'. assert (length ret' = 21%nat /\ bits' = 2) as [Hr' ->] by lia. change (2 ^ 5) with 32 in HV'. change (2 ^ 8) with 256 in *. change (2 ^ 2) with 4 in *. change (2 ^ 3) with 8 in *. rw Zmod_0_l Z.mul_0_l Z.add_0_l in HV. rw Zmod_0_l Z.mul_0_l Z.add_0_l in HV'.
  rw bev_snoc Hpad in HV'. pose proof (Z.mod_pos_bound acc' 4 ltac:(lia)). assert (acc' mod 4 = 0 /\ bev 256 ret' = bev 256 d) as [Hz Hv] by lia.
  rw mask_mod; [|lia]. rw Z.shiftl_mul_pow2; [|lia]. rw u64_id; [|int_lia]. change (2 ^ (8 - 2)) with 64. change (2 ^ 8) with 256. rw (Z.mul_mod_distr_r acc' 4 64) // Hz. cbn [negb orb Z.leb Z.compare Z.eqb Z.mul].
  rw map_u8_id //. f_equal. by apply (bev_inj 256); [..|rw Hr' Hl|].
Qed.

(** ** Strings *)
Definition lower_case (c : Z) : Prop := 97 <= c <= 122.
Definition cash_char (v : Z) : Z := default 0 (CHARSET !! Z.to_nat v).
Definition char_check (v : Z) : bool :=
  bool_decide (CHARSET !! Z.to_nat v = Some (cash_char v)) && bool_decide (charset_value (cash_char v) = Some v) && (((97 <=? cash_char v) && (cash_char v <=? 122)) || ((48 <=? cash_char v) && (cash_char v <=? 57))).
Lemma charset_ok v : in_base 32 v -> CHARSET !! Z.to_nat v = Some (cash_char v) /\ charset_value (cash_char v) = Some v /\ (lower_case (cash_char v) \/ 48 <= cash_char v <= 57) /\ 0 <= cash_char v < 256.
Proof.
  intros Hv. unfold in_base in Hv. unfold lower_case. assert (char_check v = true) as Hc by (apply (check_range char_check 0 32); [vm_compute; reflexivity|lia]). unfold char_check in Hc.
  apply andb_true_iff in Hc as [[Hc1%bool_decide_eq_true Hc2%bool_decide_eq_true]%andb_true_iff Hc3]. split_and!; [done|done|lia|lia|lia].
Qed.
Lemma LowerCase_id c : lower_case c -> LowerCase c = c.
Proof.
  intros Hc. unfold lower_case in Hc. apply Z.eqb_eq. apply (check_range (fun c => LowerCase c =? c) 97 26); [vm_compute; reflexivity|lia].
Qed.
Lemma scan_prefix p : Forall lower_case p -> forall i lower r, p <> [] -> scan i lower false 0 (p ++ r) = scan (i + Z.of_nat (length p)) true false 0 r.
Proof.
  induction 1 as [|c p Hc Hp IH]; [done|]. intros i lower r _. cbn [app scan length]. unfold lower_case in Hc. destruct (Z.leb_spec 97 c); [|lia]. destruct (Z.leb_spec c 122); [|lia]. cbn [andb].
  destruct p as [|c' p]; [cbn [app length]; f_equal; lia|]. rw IH //. f_equal. cbn [length]. lia.
Qed.
Lemma scan_values l : Forall (in_base 32) l -> forall i n, n <> 0 -> scan i true false n (map cash_char l) = Ok (true, false, n).
Proof.
  induction 1 as [|v l Hv Hl IH]; intros i n Hn; [done|]. cbn [map scan]. destruct (charset_ok v Hv) as (_ & _ & Hc & _). unfold lower_case in Hc.
  destruct ((97 <=? cash_char v) && (cash_char v <=? 122)) eqn:E1; [by apply IH|]. destruct ((65 <=? cash_char v) && (cash_char v <=? 90)) eqn:E2; [lia|].
  destruct ((48 <=? cash_char v) && (cash_char v <=? 57)) eqn:E3; [|lia]. destruct (Z.eqb_spec n 0); [done|]. by apply IH.
Qed.
Lemma mapM_charset l : Forall (in_base 32) l -> mapM (fun c => CHARSET !! Z.to_nat c) l = Some (map cash_char l) /\ mapM charset_value (map cash_char l) = Some l.
Proof.
  induction 1 as [|v l Hv _ [IH1 IH2]]; [done|]. destruct (charset_ok v Hv) as (H1 & H2 & _). cbn [map mapM]. rw H1 H2 IH1 IH2. done.
Qed.
Lemma Cash_Encode_eq prefix payload : Forall (in_base 32) payload -> Cash_Encode prefix payload = Ok (prefix ++ [58] ++ map cash_char (payload ++ CreateChecksum prefix payload)).
Proof.
  intros Hp. destruct (checksum_ok prefix payload) as (_ & HF & _). unfold Cash_Encode. destruct (mapM_charset (payload ++ CreateChecksum prefix payload)) as [-> _]; [|done]. by apply Forall_app.
Qed.
(** What the decoder makes of a prefix and values. *)
Lemma DecodeCashAddress_values prefix l : prefix <> [] -> Forall lower_case prefix -> Forall (in_base 32) l ->
  DecodeCashAddress (prefix ++ [58] ++ map cash_char l) =
    if negb (VerifyChecksum prefix l) then Err ErrChecksum else if (length l <? 8)%nat then Panic else Ok (prefix, take (length l - 8) l).
Proof.
  intros Hne Hp Ha. unfold DecodeCashAddress. rw scan_prefix // Z.add_0_l. cbn [app scan]. assert (Z.of_nat (length prefix) <> 0) as Hlen by (destruct prefix; [done|cbn; lia]).
  change ((97 <=? 58) && (58 <=? 122)) with false. change ((65 <=? 58) && (58 <=? 90)) with false. change ((48 <=? 58) && (58 <=? 57)) with false. change (58 =? 58) with true. cbv iota.
  destruct (Z.eqb_spec (Z.of_nat (length prefix)) 0); [done|]. change (0 =? 0) with true. cbn [orb negb]. rw scan_values //. cbn [mbind res_bind]. destruct (Z.eqb_spec (Z.of_nat (length prefix)) 0); [done|]. cbn [andb].
  rw Nat2Z.id take_app_length. change (prefix ++ 58 :: map cash_char l) with (prefix ++ [58] ++ map cash_char l).
  rw app_assoc drop_app_length'; [|by rw length_app Nat.add_1_r]. destruct (mapM_charset _ Ha) as [_ ->].
  assert (map LowerCase prefix = prefix) as ->; [|done]. rw -{2}(map_id prefix). apply map_ext_Forall. eapply Forall_impl; [exact Hp|]. apply LowerCase_id.
Qed.
Lemma DecodeCashAddress_encode prefix payload : prefix <> [] -> Forall lower_case prefix -> Forall (in_base 32) payload ->
  DecodeCashAddress (prefix ++ [58] ++ map cash_char (payload ++ CreateChecksum prefix payload)) = Ok (prefix, payload).
Proof.
  intros Hne Hp Hl. destruct (checksum_ok prefix payload) as (Hz & HF & Hn). rw DecodeCashAddress_values //; [|by apply Forall_app].
  unfold VerifyChecksum. rw app_assoc Hz. cbn [negb Z.eqb]. rw length_app Hn. destruct (Nat.ltb_spec (length payload + 8) 8); [lia|]. rw Nat.add_sub take_app_length. done.
Qed.
