(* ===== verification/AddrTheorems.v ===== *)
(** * What addresses and keys promise

    Strings, scripts and addresses are interchangeable, a wrong character in a cash address
    is found, and legacy strings carry keys and hashes unchanged. *)
From S2P Require Import Prelude Errors Wire ScriptNum Opcodes Script Tx Crypto Compress Coins Block Undo.
From S2P Require Import Stack Slice Interp InterpFacts Base58 CashAddr AddrFacts CashFacts.

(** ** Cash addresses *)
Definition hash20 (h : bytes) : Prop := length h = 20%nat /\ bytes_ok h.
Definition prefix_ok (p : bytes) : Prop := p <> [] /\ Forall lower_case p.
Definition version_byte (t : AddressType) : Z := match t with P2PKH => 0 | P2SH => 8 end.
Lemma packAddressData_eq t h : hash20 h -> packAddressData t h = convertBits (version_byte t :: h) 8 5 true.
Proof. intros [Hl _]. unfold packAddressData. rw Hl. by destruct t. Qed.
Lemma version_byte_ok t : is_byte (version_byte t).
Proof. destruct t; cbn; int_lia. Qed.
Lemma CheckEncode_Decode h p t : hash20 h -> prefix_ok p -> exists k, Forall (in_base 32) k /\ length k = 42%nat /\
  CheckEncodeCashAddress h p t = Ok (p ++ [58] ++ map cash_char k) /\ CheckDecodeCashAddress (p ++ [58] ++ map cash_char k) = Ok (h, p, t).
Proof.
  intros [Hl Hb] [Hne Hp]. assert (bytes_ok (version_byte t :: h)) as Hvb by (constructor; [apply version_byte_ok|done]).
  destruct (pack_unpack (version_byte t :: h)) as (k & Hk & Hlk & HF & Hu); [cbn; by rw Hl|done|]. destruct (checksum_ok p k) as (_ & HFc & Hlc).
  exists (k ++ CreateChecksum p k). split; [by apply Forall_app|]. split; [by rw length_app Hlk Hlc|]. unfold CheckEncodeCashAddress, CheckDecodeCashAddress. rw packAddressData_eq // Hk Cash_Encode_eq //. split; [done|].
  rw DecodeCashAddress_encode //. cbn [mbind res_bind]. rw Hu. cbn [mbind res_bind length]. rw Hl. cbn [negb Nat.eqb]. cbn [drop head default]. by destruct t.
Qed.
Definition addr_ok (a : CashAddress) (net : string) : Prop := hash20 (ScriptAddress a) /\ IsForNet a net = true.
Lemma Prefixes_ok net p : Prefixes net = Some p -> prefix_ok p.
Proof.
  unfold Prefixes. repeat (case_match; [intros [= <-]; split; [done|]; repeat constructor; vm_compute; intros; discriminate|]); done.
Qed.
Lemma make_addr a net p : Prefixes net = Some p -> addr_ok a net ->
  exists t, EncodeAddress a = CheckEncodeCashAddress (ScriptAddress a) p t /\
    match t with P2PKH => newCashAddressPubKeyHash (ScriptAddress a) net | P2SH => newCashAddressScriptHashFromHash (ScriptAddress a) net end = Ok a.
Proof.
  intros Hp [[Hl _] Hn]. unfold IsForNet in Hn. rw Hp in Hn. destruct a as [h q|h q]; cbn [ScriptAddress] in *; apply bool_decide_eq_true in Hn as ->; [exists P2PKH|exists P2SH].
  all: unfold EncodeAddress, newCashAddressPubKeyHash, newCashAddressScriptHashFromHash; rw Hl Hp; cbn [negb Nat.eqb]; (split; [|done]); by rw take_ge ?Hl.
Qed.
Lemma no_separator p k : p <> [] -> Forall (in_base 32) k -> take (S (length p)) (map cash_char k) <> p ++ [58].
Proof.
  intros Hp Hk He. assert (58 ∈ map cash_char k) as Hin. { rw -(take_drop (S (length p)) (map cash_char k)) He. set_solver. }
  apply list_elem_of_fmap in Hin as (v & Hv & Hin). rewrite ->Forall_forall in Hk. destruct (charset_ok v (Hk v Hin)) as (_ & _ & Hc & _). unfold lower_case in Hc. lia.
Qed.
Lemma DecodeAddress_ok p net k h t : Prefixes net = Some p -> Forall (in_base 32) k -> length k = 42%nat -> length h = 20%nat -> CheckDecodeCashAddress (p ++ [58] ++ map cash_char k) = Ok (h, p, t) ->
  let made := match t with P2PKH => newCashAddressPubKeyHash h net | P2SH => newCashAddressScriptHashFromHash h net end in
  DecodeAddress (p ++ [58] ++ map cash_char k) net = made /\ DecodeAddress (map cash_char k) net = made.
Proof.
  intros Hp Hk Hl Hh Hd. assert (length p <= 11)%nat as Hp11 by (unfold Prefixes in Hp; repeat (case_match; [injection Hp as <-; cbn; lia|]); done). unfold DecodeAddress. rw Hp. split.
  - destruct (Nat.ltb_spec (length (p ++ [58] ++ map cash_char k)) (S (length p))) as [Hs|_]; [rw !length_app length_map Hl in Hs; cbn in Hs; lia|]. rw app_assoc take_app_length'; [|by rw length_app Nat.add_1_r].
    rw decide_False; [|by intros []]. rw -app_assoc Hd Hh. done.
  - destruct (Nat.ltb_spec (length (map cash_char k)) (S (length p))) as [Hs|_]; [rw length_map Hl in Hs; lia|]. rw decide_True; [|apply no_separator; [apply (Prefixes_ok net p Hp)|done]]. rw Hd Hh. done.
Qed.
Lemma pay_pkh h : length h = 20%nat -> payToPubKeyHashScript h = Ok ([0x76; 0xa9; 0x14] ++ h ++ [0x88; 0xac]).
Proof. intros Hl. do 20 (destruct h as [|? h]; [done|]). destruct h; [|done]. vm_compute. reflexivity. Qed.
Lemma pay_sh h : length h = 20%nat -> payToScriptHashScript h = Ok ([0xa9; 0x14] ++ h ++ [0x87]).
Proof. intros Hl. do 20 (destruct h as [|? h]; [done|]). destruct h; [|done]. vm_compute. reflexivity. Qed.
Lemma extract_pkh h net : length h = 20%nat -> ExtractPkScriptAddrs ([0x76; 0xa9; 0x14] ++ h ++ [0x88; 0xac]) net = newCashAddressPubKeyHash h net.
Proof. intros Hl. do 20 (destruct h as [|? h]; [done|]). destruct h; [|done]. reflexivity. Qed.
Lemma extract_sh h net : length h = 20%nat -> ExtractPkScriptAddrs ([0xa9; 0x14] ++ h ++ [0x87]) net = newCashAddressScriptHashFromHash h net.
Proof. intros Hl. do 20 (destruct h as [|? h]; [done|]). destruct h; [|done]. reflexivity. Qed.
Lemma generate_pkh h : length h = 20%nat -> exists sc, generateScript [PushOp OP_DUP; PushOp OP_HASH160; PushBytes h; PushOp OP_EQUALVERIFY; PushOp OP_CHECKSIG] = Ok sc /\ data sc = [0x76; 0xa9; 0x14] ++ h ++ [0x88; 0xac].
Proof. intros Hl. do 20 (destruct h as [|? h]; [done|]). destruct h; [|done]. eexists. split; [vm_compute; reflexivity|reflexivity]. Qed.
Lemma generate_sh h : length h = 20%nat -> exists sc, generateScript [PushOp OP_HASH160; PushBytes h; PushOp OP_EQUAL] = Ok sc /\ data sc = [0xa9; 0x14] ++ h ++ [0x87].
Proof. intros Hl. do 20 (destruct h as [|? h]; [done|]). destruct h; [|done]. eexists. split; [vm_compute; reflexivity|reflexivity]. Qed.
Lemma decode_loop_bad l : forall answer j, Exists (fun c => b58_at c = 255) l -> decode_loop answer j l = None.
Proof. induction l as [|c l IH]; intros answer j He; [by inversion He|]. cbn [decode_loop]. destruct (Z.eqb_spec (b58_at c) 255); [done|]. apply Exists_cons in He as [|He]; [done|]. by apply IH. Qed.

Section Strings.
Context `{Hashes}.
(** A separator is not a character of base 58. *)
Lemma cash_not_legacy p r : AddressFromString (p ++ [58] ++ r) = Err (AddrError "length").
Proof.
  unfold AddressFromString, Base58_Decode. rw decode_loop_bad; [done|]. apply Exists_exists. exists 58. split; [|done]. rw elem_of_reverse. set_solver.
Qed.
(** C23. An address and its strings: the string of an address of a network, with or without its prefix, is decoded as that address; the
    script that pays to it is read as that address again; and the script the RPC interface makes of the string pays to it. *)
Theorem CashAddress_roundtrip a net active : addr_ok a net ->
  exists p s sc, Prefixes net = Some p /\ EncodeAddress a = Ok s /\ take (S (length p)) s = p ++ [58] /\
    DecodeAddress s net = Ok a /\ DecodeAddress (drop (S (length p)) s) net = Ok a /\
    CashPayToAddrScript a = Ok (data sc) /\ ExtractPkScriptAddrs (data sc) net = Ok a /\ getStandardScriptPubKey active s None = Ok sc.
Proof.
  intros Ha. destruct (Prefixes net) as [p|] eqn:Hp; [|destruct Ha as [_ Hn]; unfold IsForNet in Hn; by rw Hp in Hn]. destruct (make_addr a net p Hp Ha) as (t & He & Hm). destruct Ha as [Hh Hn].
  destruct (CheckEncode_Decode (ScriptAddress a) p t Hh (Prefixes_ok net p Hp)) as (k & Hk & Hlk & Hs & Hd). destruct Hh as [Hl _].
  destruct (DecodeAddress_ok p net k (ScriptAddress a) t Hp Hk Hlk Hl Hd) as [Hd1 Hd2]. cbv zeta in Hd1, Hd2. rw Hm in Hd1 Hd2.
  assert (exists sc, match t with P2PKH => generateScript [PushOp OP_DUP; PushOp OP_HASH160; PushBytes (ScriptAddress a); PushOp OP_EQUALVERIFY; PushOp OP_CHECKSIG] | P2SH => generateScript [PushOp OP_HASH160; PushBytes (ScriptAddress a); PushOp OP_EQUAL] end = Ok sc /\
    CashPayToAddrScript a = Ok (data sc) /\ ExtractPkScriptAddrs (data sc) net = Ok a) as (sc & Hg & Hpay & Hex).
  { assert (t = match a with CashAddressPubKeyHash _ _ => P2PKH | CashAddressScriptHash _ _ => P2SH end) as ->.
    { unfold newCashAddressPubKeyHash, newCashAddressScriptHashFromHash in Hm. rw Hl Hp in Hm. cbn [negb Nat.eqb] in Hm. destruct t, a; congruence. }
    destruct a as [h q|h q]; cbn [ScriptAddress CashPayToAddrScript] in *.
    - destruct (generate_pkh h Hl) as (sc & Hg & Hdata). exists sc. rw Hdata pay_pkh // extract_pkh //.
    - destruct (generate_sh h Hl) as (sc & Hg & Hdata). exists sc. rw Hdata pay_sh // extract_sh //. }
  exists p, (p ++ [58] ++ map cash_char k), sc. split_and!; [done|by rw He| |done| |done|done|].
  - rw app_assoc take_app_length' //. by rw length_app Nat.add_1_r.
  - rw app_assoc drop_app_length' //. by rw length_app Nat.add_1_r.
  - unfold getStandardScriptPubKey, decodeAddress. rw cash_not_legacy Hd. cbn [mbind res_bind]. by destruct t.
Qed.
(** C33. A wrong character is found: when the string of a prefix and values is accepted, changing any one of the values, whichever way,
    makes the checksum fail. *)
Theorem cashaddr_detects p l1 d d' l2 x : prefix_ok p -> Forall (in_base 32) (l1 ++ d :: l2) -> in_base 32 d' -> d' <> d ->
  DecodeCashAddress (p ++ [58] ++ map cash_char (l1 ++ d :: l2)) = Ok x ->
  DecodeCashAddress (p ++ [58] ++ map cash_char (l1 ++ d' :: l2)) = Err ErrChecksum.
Proof.
  intros [Hne Hp] Hl Hd' Hn Hx. apply Forall_app in Hl as Hl'. destruct Hl' as [Hl1 [Hd Hl2]%Forall_cons]. rw DecodeCashAddress_values // in Hx. rw DecodeCashAddress_values //; [|apply Forall_app; split; [done|by constructor]].
  destruct (VerifyChecksum p (l1 ++ d :: l2)) eqn:E1; [|done]. destruct (VerifyChecksum p (l1 ++ d' :: l2)) eqn:E2; [|done]. exfalso. apply Hn. unfold VerifyChecksum in E1, E2.
  apply Z.eqb_eq in E1, E2. rw !PolyMod_feed !app_assoc in E1 E2. symmetry. apply (feed_change 1 (ExpandPrefix p ++ l1) d d' l2 Hd Hd'). apply (lxor_cancel_r _ _ 1). congruence.
Qed.
End Strings.

(** ** Legacy strings and keys *)
Section Legacy.
Context `{HL : HashLaws}.
Lemma check_bytes b : bytes_ok (take 4 (Sha256 (Sha256 b))) /\ length (take 4 (Sha256 (Sha256 b))) = 4%nat.
Proof. destruct (sha256_ok (Sha256 b)) as [Hb Hl]. split; [by apply Forall_take|]. by rw length_take Hl. Qed.
Lemma checked_decode b : bytes_ok b -> Base58_Decode (Base58_Encode (b ++ take 4 (Sha256 (Sha256 b)))) = b ++ take 4 (Sha256 (Sha256 b)).
Proof. intros Hb. apply Base58_Decode_Encode, Forall_app. split; [done|apply check_bytes]. Qed.
Lemma CheckDecode_Encode input v : bytes_ok input -> is_byte v -> CheckDecode (CheckEncode input v) = Ok (input, v).
Proof.
  intros Hb Hv. unfold CheckDecode, CheckEncode, checksum. rw checked_decode; [|by constructor]. destruct (check_bytes (v :: input)) as [_ Hl]. rw length_app Hl.
  destruct (Nat.ltb_spec (length (v :: input) + 4) 5) as [Hs|_]; [cbn in Hs; lia|]. rw Nat.add_sub take_app_length drop_app_length bool_decide_true //.
Qed.
Lemma hash_string h v : hash20 h -> is_byte v -> exists s, Hash160ToAddressStr h v = Ok s /\ AddressFromString s = Ok (mkAddress v [] s h).
Proof.
  intros [Hl Hb] Hv. unfold Hash160ToAddressStr. rw Hl. cbn [negb Nat.eqb]. eexists. split; [done|]. unfold AddressFromString, DoubleSha256Bytes. rw checked_decode; [|by constructor].
  destruct (check_bytes (v :: h)) as [_ Hc]. rw length_app Hc. cbn [length]. rw Hl. cbn [negb Nat.eqb Nat.add]. rw take_app_length'; [|cbn; by rw Hl]. rw drop_app_length'; [|cbn; by rw Hl]. rw bool_decide_true //.
Qed.
Lemma key_string k : length (pk_bytes k) = 32%nat -> bytes_ok (pk_bytes k) -> is_byte (pk_version k) -> DecodePrivateKey (pk_version k) (PrivateKey_ToString k) = Ok k.
Proof.
  intros Hl Hb Hv. unfold DecodePrivateKey, PrivateKey_ToString. rw CheckDecode_Encode; [|unfold PrivateKey_Encode; case_match; [done|apply Forall_app; split; [done|]; constructor; [int_lia|done]]|done].
  cbn [mbind res_bind]. rw Z.eqb_refl. cbn [negb]. unfold PrivateKey_Encode. destruct k as [v c b]. cbn [pk_compressed pk_bytes pk_version] in *. destruct c; cbn [negb].
  - rw length_app Hl. cbn [Nat.eqb Nat.add length PrivateKeyBytesLen]. rw lookup_app_r; [|unfold PrivateKeyBytesLen; lia]. rw Hl. cbn. rw take_app_length' //.
  - by rw Hl.
Qed.
Lemma wif_string ver d i c : length d = 32%nat -> bytes_ok d -> is_byte i -> let w := NewWIF (PrivateKeyFromBytes ver d) i c in DecodeWIF ver (WIF_String w) = Ok w.
Proof.
  intros Hl Hb Hi. cbv zeta. unfold DecodeWIF, WIF_String, DoubleSha256Bytes, paddedAppend, NewWIF. cbn [netID PrivKey CompressPubKey PrivateKeyFromBytes PrivateKey_Encode pk_compressed pk_bytes negb]. rw Hl. cbn [PrivateKeyBytesLen Nat.sub repeat app].
  set (a := if c then (i :: d) ++ [compressMagic] else i :: d). assert (bytes_ok a) as Ha by (unfold a; destruct c; [apply Forall_app; split; [by constructor|constructor; [unfold compressMagic; int_lia|done]]|by constructor]).
  change (if c then i :: d ++ [compressMagic] else i :: d) with a. rw checked_decode //. destruct (check_bytes a) as [_ Hc]. rw length_app Hc Nat.add_sub drop_app_length.
  assert (length a = if c then 34%nat else 33%nat) as Hla by (unfold a; destruct c; rw ?length_app; cbn [length]; by rw Hl). rw Hla. destruct c; cbn [Nat.add Nat.eqb].
  - assert (a !! 33%nat = Some compressMagic) as Hm by (unfold a; rw lookup_app_r; cbn [length]; rw Hl; [done|lia]). change (PrivateKeyBytesLen + 1 + 4)%nat with 37%nat. rw lookup_app_l; [|lia]. rw Hm.
    change (default 0 (Some compressMagic) =? compressMagic) with true. cbn [negb mbind res_bind]. rw take_app_length' // bool_decide_true //. cbn [negb]. unfold a. rw -app_assoc take_app_length'; [|cbn; by rw Hl]. done.
  - change (PrivateKeyBytesLen + 1 + 4)%nat with 37%nat. change (PrivateKeyBytesLen + 4)%nat with 36%nat. cbn [mbind res_bind]. rw take_app_length' // bool_decide_true //.
Qed.
(** Any key: the mark of a compressed key is appended once by the key and once for the
    flag of the WIF. *)
Lemma wif_any k i c ver : length (pk_bytes k) = 32%nat -> bytes_ok (pk_bytes k) -> is_byte i ->
  DecodeWIF ver (WIF_String (NewWIF k i c)) =
    if pk_compressed k && c then Err ErrMalformedPrivateKey else Ok (NewWIF (PrivateKeyFromBytes ver (pk_bytes k)) i (pk_compressed k || c)).
Proof.
  destruct k as [kv kc d]. cbn [pk_bytes pk_compressed]. intros Hl Hb Hi. destruct kc; cbn [andb orb].
  2: { pose proof (wif_string ver d i c Hl Hb Hi) as Hw. cbv zeta in Hw. by rw -Hw. }
  destruct c.
  - unfold DecodeWIF, WIF_String, DoubleSha256Bytes, paddedAppend, NewWIF. cbn [netID PrivKey CompressPubKey PrivateKey_Encode pk_compressed pk_bytes negb]. rw length_app Hl. cbn [PrivateKeyBytesLen Nat.sub Nat.add length repeat app].
    set (a := i :: (d ++ [1]) ++ [compressMagic]). assert (bytes_ok a) as Ha by (constructor; [done|]; apply Forall_app; split; [apply Forall_app; split; [done|constructor; [int_lia|done]]|constructor; [unfold compressMagic; int_lia|done]]).
    change (i :: ((d ++ [1]) ++ [compressMagic]) ++ take 4 (Sha256 (Sha256 a))) with (a ++ take 4 (Sha256 (Sha256 a))). rw checked_decode //. destruct (check_bytes a) as [_ Hc]. rw length_app Hc. assert (length a = 35%nat) as -> by (unfold a; cbn [length]; rw !length_app Hl //). done.
  - pose proof (wif_string ver d i true Hl Hb Hi) as Hw. cbv zeta in Hw. rw -Hw. f_equal. unfold WIF_String, paddedAppend, NewWIF. cbn [netID PrivKey CompressPubKey PrivateKey_Encode PrivateKeyFromBytes pk_compressed pk_bytes negb].
    rw length_app Hl. done.
Qed.
(** C34. Legacy strings: base 58 is a bijection between byte strings and the strings over
    its alphabet; a checked string gives back its version and payload; the string of a hash
    is read as the address of that hash; a private key, compressed or not, is read back from
    its own string.  A key in wallet import format is read back from its string when its
    compressed flag is off, whatever flag the WIF has; a compressed key comes back with the
    mark in the WIF and not in the key, and when both have it the string is refused. *)
Theorem legacy_strings_roundtrip b s h v k ver c : bytes_ok b -> Forall (fun c => 0 <= c < 256 /\ b58_at c <> 255) s -> hash20 h -> is_byte v ->
  length (pk_bytes k) = 32%nat -> bytes_ok (pk_bytes k) -> is_byte (pk_version k) ->
  Base58_Decode (Base58_Encode b) = b /\ Base58_Encode (Base58_Decode s) = s /\ CheckDecode (CheckEncode b v) = Ok (b, v) /\
  (exists str, Hash160ToAddressStr h v = Ok str /\ AddressFromString str = Ok (mkAddress v [] str h)) /\
  DecodePrivateKey (pk_version k) (PrivateKey_ToString k) = Ok k /\
  (let w := NewWIF (PrivateKeyFromBytes ver (pk_bytes k)) v c in DecodeWIF ver (WIF_String w) = Ok w) /\
  DecodeWIF ver (WIF_String (NewWIF k v c)) =
    if pk_compressed k && c then Err ErrMalformedPrivateKey else Ok (NewWIF (PrivateKeyFromBytes ver (pk_bytes k)) v (pk_compressed k || c)).
Proof.
  intros Hb Hs Hh Hv Hl Hk Hkv. split_and!; [by apply Base58_Decode_Encode|by apply Base58_Encode_Decode|by apply CheckDecode_Encode|by apply hash_string|by apply key_string|by apply wif_string|by apply wif_any].
Qed.
End Legacy.

(** ** Examples *)
#[local] Instance addr_hashes : Hashes := {| Sha256 := fun b => le_bytes 32 (le_val b + 1); Ripemd160 := fun b => le_bytes 20 (le_val b); Sha1 := fun b => le_bytes 20 (le_val b) |}.
#[local] Instance addr_hash_laws : HashLaws.
Proof. split; intros b; (split; [apply le_bytes_ok|apply length_le_bytes]). Qed.
Definition example_hash : bytes := seqZ 100 20.
Lemma example_hash20 : hash20 example_hash.
Proof. split; [done|]. apply (bool_decide_unpack _). vm_compute. exact I. Qed.
Definition legacy_net : AddressParam := mkAddressParam 0 5.
Lemma CashAddress_roundtrip_witness : exists p s sc, Prefixes "main" = Some p /\ EncodeAddress (CashAddressScriptHash example_hash (chars "bitcoincash")) = Ok s /\ take (S (length p)) s = p ++ [58] /\
  DecodeAddress s "main" = Ok (CashAddressScriptHash example_hash (chars "bitcoincash")) /\ DecodeAddress (drop (S (length p)) s) "main" = Ok (CashAddressScriptHash example_hash (chars "bitcoincash")) /\
  CashPayToAddrScript (CashAddressScriptHash example_hash (chars "bitcoincash")) = Ok (data sc) /\ ExtractPkScriptAddrs (data sc) "main" = Ok (CashAddressScriptHash example_hash (chars "bitcoincash")) /\ getStandardScriptPubKey legacy_net s None = Ok sc.
Proof. apply (CashAddress_roundtrip (CashAddressScriptHash example_hash (chars "bitcoincash")) "main" legacy_net). split; [exact example_hash20|reflexivity]. Defined.
Definition values_main : bytes := match packAddressData P2PKH example_hash with Ok k => k ++ CreateChecksum (chars "bchreg") k | _ => [] end.
Lemma cashaddr_detects_witness : DecodeCashAddress (chars "bchreg" ++ [58] ++ map cash_char (take 3 values_main ++ 30 :: drop 4 values_main)) = Err ErrChecksum.
Proof.
  assert (values_main = take 3 values_main ++ nth 3 values_main 0 :: drop 4 values_main) as Hv by (vm_compute; reflexivity).
  assert (exists x, DecodeCashAddress (chars "bchreg" ++ [58] ++ map cash_char values_main) = Ok x) as [x Hx] by (eexists; vm_compute; reflexivity).
  rewrite Hv in Hx. apply (cashaddr_detects (chars "bchreg") (take 3 values_main) (nth 3 values_main 0) 30 (drop 4 values_main) x).
  - apply (Prefixes_ok "regtest"). reflexivity.
  - rewrite <- Hv. unfold in_base. apply (bool_decide_unpack _). vm_compute. exact I.
  - split; [discriminate|reflexivity].
  - vm_compute. discriminate.
  - exact Hx.
Defined.
Definition example_key : PrivateKey := mkPrivateKey 128 true (seqZ 1 32).
Lemma legacy_strings_roundtrip_witness : DecodePrivateKey 128 (PrivateKey_ToString example_key) = Ok example_key /\
  (let w := NewWIF (PrivateKeyFromBytes 128 (seqZ 1 32)) 239 true in DecodeWIF 128 (WIF_String w) = Ok w) /\
  DecodeWIF 128 (WIF_String (NewWIF example_key 239 true)) = Err ErrMalformedPrivateKey.
Proof.
  assert (Forall (fun c => 0 <= c < 256 /\ b58_at c <> 255) (chars "1BvBMSEY")) as Hs by (apply (bool_decide_unpack _); vm_compute; exact I).
  assert (bytes_ok (pk_bytes example_key)) as Hb by (apply (bool_decide_unpack _); vm_compute; exact I).
  destruct (legacy_strings_roundtrip [0; 1; 2] (chars "1BvBMSEY") example_hash 239 example_key 128 true) as (_ & _ & _ & _ & Hk & Hw & Hc);
    [apply (bool_decide_unpack _); vm_compute; exact I|exact Hs|exact example_hash20|split; [discriminate|reflexivity]|reflexivity|exact Hb|split; [discriminate|reflexivity]|].
  split; [exact Hk|]. split; [exact Hw|exact Hc].
Defined.
(** A prefix whose own checksum is right, without any values, makes the decoder panic. *)
Lemma DecodeCashAddress_panics : DecodeCashAddress (chars "mzgdvxbsbfyo:") = Panic.
Proof. vm_compute. reflexivity. Qed.
Lemma DecodeAddress_short_panics : DecodeAddress (chars "bchtest") "main" = Panic.
Proof. vm_compute. reflexivity. Qed.
(** A version byte that means nothing is taken for that of a public key hash. *)
Lemma unknown_version_is_P2PKH : match convertBits (0x90 :: example_hash) 8 5 true with
  | Ok k => match Cash_Encode (chars "bitcoincash") k with Ok s => CheckDecodeCashAddress s | _ => Panic end
  | _ => Panic end = Ok (example_hash, chars "bitcoincash", P2PKH).
Proof. vm_compute. reflexivity. Qed.
Lemma unknown_legacy_version_is_P2PKH : match Hash160ToAddressStr example_hash 77 with Ok s => decodeAddress legacy_net s | _ => Panic end = Ok (P2PKH, example_hash).
Proof. vm_compute. reflexivity. Qed.
(** The string of a compressed key has its mark twice and is not read back. *)
Lemma compressed_wif_unreadable : DecodeWIF 128 (WIF_String (NewWIF (NewPrivateKeyFromBytes 128 (seqZ 1 32) true) 128 true)) = Err ErrMalformedPrivateKey.
Proof. vm_compute. reflexivity. Qed.
